(* ===== verification/_CoqProject ===== *)
-Q . S2P
Prelude.v
PyDict.v
Json.v
JsonText.v
PyFloat.v
PyFloatSpec.v
Utf8.v
PyText.v
PyValue.v
JsonLoads.v
JsonLoadsSpec.v
StreamingJson.v
StreamingJsonSpec.v
Params.v
ParamsSpec.v
Truncate.v
TruncateSpec.v
JournalTypes.v
JournalStore.v
JournalStoreSpec.v
JournalCoordinator.v
JournalCoordinatorSpec.v
AgentTypes.v
AgentParts.v
AgentPartsSpec.v
ChatStream.v
ChatStreamSpec.v
AgentLoop.v
AgentLoopSpec.v
AgentFrame.v
Agent.v
AgentSpec.v
SessionStore.v
SessionStoreSpec.v
SessionContext.v
SessionContextSpec.v
Capability.v
CapabilitySpec.v
Mailbox.v
MailboxSpec.v
Policy.v
PolicySpec.v
CoordinationPlan.v
CoordinationPlanSpec.v
EditDiff.v
EditDiffSpec.v
FileQueue.v
FileQueueSpec.v
Documents.v
DocumentsSpec.v
WorkspaceEdit.v
WorkspaceEditSpec.v
WorkspaceApplySpec.v
Transcript.v
TranscriptSpec.v
ContextBudget.v
ContextBudgetSpec.v
Compressor.v
CompressorSpec.v
ProcessOutput.v
ProcessOutputSpec.v
CommandOutput.v
CommandOutputSpec.v
MessageTranslation.v
MessageTranslationSpec.v
ManagedProcess.v
ManagedProcessSpec.v
ProcessService.v
ProcessServiceSpec.v
StdinBuffer.v
StdinBufferSpec.v
Subagents.v
SubagentsSpec.v
JsonRpc.v
JsonRpcSpec.v
JsonRpcCallsSpec.v
OrchRequests.v
