(* ===== verification/Prelude.v ===== *)
(** * Travis234: a verification library

    Travis234 (src/travis/) is a coding agent in Python: a loop that alternates
    between a language model and tools, a stateful agent around it, and a coding
    session around that, with durable stores, a policy for tools, and the tools
    themselves.  This library models the parts that carry its logic and proves what
    they promise each other.  Paths below are relative to src/travis/.

    ** How to read it

    Every definition that translates code has a comment [src: file:lines symbol].  A
    model file holds only definitions; the file of the same name ending in [Spec]
    holds its invariants and theorems.  A property of the program has a comment that
    starts with [C<n>:]; the lemma [<name>_witness] applies it to a concrete input.

    Exceptions are values: a method that may raise returns a [result], and a method
    over mutable state is an [st S E A], which keeps the state reached when the
    exception was raised.  Integers of Python are unbounded and are [Z] here; where
    the code bounds them the bounds are checks of the model.  A Python dictionary is
    an association list ([PyDict]) where its order is observable, and a finite map
    of stdpp otherwise.  Locks make a method one step; what other threads or
    processes do between two steps is part of the histories the theorems quantify
    over.  Files, clocks, random identifiers, the provider, the tools, the hooks and
    the user's answers are arguments, so a theorem holds whatever they do.

    ** Shared files

    - [Prelude]: results, state with errors and their weakest preconditions, loops
      that may raise, Python's [sorted], orders on strings.
    - [PyDict]: dictionaries in insertion order.
    - [Json], [JsonText]: JSON values, the canonical form, printing and parsing.
    - [PyFloat], [PyFloatSpec]: binary64 floats, the error of an operation.
    - [Utf8]: encoding and the incremental decoder.
    - [PyText]: texts as lists of characters: searching and stripping.
    - [PyValue]: dynamic values, and the conversions [int], [float] and [str].
    - [JsonLoads], [JsonLoadsSpec]: json.loads over texts; it reads exactly the grammar
      of JSON.

    ** The operation journal (coding_agent/operations/)

    - [JournalTypes] (types.py): the records and their validation.
    - [JournalStore], [JournalStoreSpec] (store.py, rows.py, recovery_store.py,
      inspection_store.py): the database as typed tables.  Every call keeps the
      integrity of the tables, a failed call changes nothing, settled effects and
      closed operations are final, recovery and pruning do exactly what they say.
    - [JournalCoordinator], [JournalCoordinatorSpec] (coordinator.py, recovery.py):
      the client of the store, proved against the class [Journal]; [JournalLaws]
      is what it needs of the store, discharged for [JournalStore].

    ** The agent (agent/)

    - [AgentTypes]: messages, contexts, events (types.py, ../ai/types.py).
    - [AgentParts], [AgentPartsSpec]: the stream protocol, the relay of tool
      updates, the run lease, the pending queue.  The guard accepts exactly the
      language of the protocol.
    - [AgentLoop], [AgentLoopSpec] (agent_loop.py, tool_coordinator.py): the loop
      over an abstract environment.  The events and the context of a run are
      well-formed whatever the environment does, and the tool results of a turn
      answer its calls one for one, in order, under every schedule.
    - [AgentFrame]: properties of the environment that the loop keeps; from them,
      a run ends.
    - [Agent], [AgentSpec] (agent.py): runs exclude each other and leave the agent
      at rest, with the lease free.

    ** The coding session (coding_agent/)

    - [SessionStore], [SessionStoreSpec] (session_store.py): the session file as
      bytes.  Under any interleaving of processes the file is the history of the
      appends; an append is durable; a torn append is recovered from; an exported
      branch reads back as the branch.
    - [SessionContext], [SessionContextSpec] (session_store.py): the messages of a
      branch.  A result without its call is never shown; an appended message is the
      next of the context, in any process; the tree shows every entry once, under its
      parent.
    - [Params], [ParamsSpec] (../ai/providers/params.py): generation parameters.  What
      is built is valid, is read back from a session as it was, and the last layer that
      sets a field wins.
    - [Capability], [CapabilitySpec] (capabilities/): the registry of providers.
      A reload is all or nothing, every result is held or disposed of exactly once,
      and a snapshot is the declared resolution.
    - [Mailbox], [MailboxSpec] (mailbox.py, session_turns.py, session_events.py):
      queued messages are delivered in order, at most once, and none is lost.  The
      mailbox refines a pair of channels.
    - [Policy], [PolicySpec] (policy/): under [enforce] no tool runs unapproved;
      decisions are well-typed; the context shown is bounded.
    - [CoordinationPlan], [CoordinationPlanSpec] (coordination.py): the validator
      accepts exactly the valid plans; a goal survives its trip through the prompt.
    - [Subagents], [SubagentsSpec] (subagents.py, subagent_supervision.py): the supervisor
      of subagents, its workers and its callers as interleaved actions.  A task is settled
      once and keeps its result, is announced to have stopped once, and is never lost.

    ** Providers (ai/providers/)

    - [StreamingJson], [StreamingJsonSpec] (streaming_json.py): the arguments of a tool
      call while they arrive.  What a first part of an object gives is the object up to
      some point.
    - [ChatStream], [ChatStreamSpec] (chat_stream.py, sse_common.py): server-sent lines
      become the events of a message.  Whatever the lines, the events follow the protocol
      that the guard of the agent expects, and the message is what the deltas add up to.
    - [MessageTranslation], [MessageTranslationSpec] (message_translation.py,
      openai_compat.py, ../coding_agent/session_types.py): a conversation becomes the
      messages of a request.  Every call is followed by its results and every result
      answers a call, whatever the history; nothing else is added, and what is left out
      is said exactly.

    ** The context window (compaction/, ai/context_estimate.py)

    - [Transcript], [TranscriptSpec]: how many tokens a transcript is taken to be.
    - [ContextBudget], [ContextBudgetSpec] (policy.py): the threshold of a model is
      positive and below its window, whatever the settings, floats included.
    - [Compressor], [CompressorSpec] (compressor.py): a compaction never separates a
      tool call from its result, keeps the newest turn, and raises nothing but what
      its caller's budget makes it raise.

    ** Tools (coding_agent/tools/, coding_agent/processes/)

    - [EditDiff], [EditDiffSpec] (edit_diff.py, edit.py): edits replace disjoint
      pieces of the file, all at once or not at all.
    - [FileQueue], [FileQueueSpec] (file_mutation_queue.py): calls on the same file
      exclude each other, never deadlock, and leave the registry empty.
    - [Truncate], [TruncateSpec] (truncate.py): the longest heads and tails within
      line and byte limits.
    - [ProcessOutput], [ProcessOutputSpec] (processes/output.py): the spool of a
      managed process loses nothing within its limits, keeps its budget, and is
      paged without loss.
    - [ManagedProcess], [ManagedProcessSpec] (processes/service.py, types.py): a process
      and its threads.  In every interleaving it ends once, in a state that its history
      justifies, and is announced once; when it has exited its monitor ends.
    - [ProcessService], [ProcessServiceSpec] (processes/service.py): the records of an
      application.  The limits on running processes hold whatever happens at the same
      time, a call keeps the process it holds, and pruning forgets what it may.
    - [CommandOutput], [CommandOutputSpec] (output_spool.py): a snapshot is the tail
      of the whole output, although only a window of it is kept.

    ** Language services (coding_agent/language_services/)

    - [Documents], [DocumentsSpec] (documents.py): positions of a server and offsets of
      a text are the same places, in any of the three units.
    - [WorkspaceEdit] (workspace_edit.py): edits, previews and their application.
      [WorkspaceEditSpec]: edits land where the server means, all at once;
      [WorkspaceApplySpec]: a preview is applied whole or not at all.
    - [JsonRpc] (jsonrpc.py): the client of a language server, its coroutines as interleaved
      actions.  [JsonRpcSpec]: what one side frames the other reads, however the pipe
      cuts it; [JsonRpcCallsSpec]: an answer reaches the caller of its request and no
      other, and nobody waits for a server that is lost.

    ** The terminal (tui/)

    - [StdinBuffer], [StdinBufferSpec] (stdin_buffer.py, terminal.py): the bytes of the
      keyboard become keys and pasted texts.  What is sent arrives, in whatever pieces
      it is read.

    ** Fuel

    Recursion is structural wherever the code's is.  The rest takes fuel, and each
    is shown to have enough: [parse_value] the length of the text ([parse_print],
    [parse_fuel]); [run_turns] the provider's budget of turns ([run_agent_loop_ends]);
    [branch_from] the number of entries ([get_branch_total]); [shrink_context] the
    length of its texts plus a step per member ([safe_context_bounded]);
    [_visit_dependency] one more than the number of tasks
    ([validator_accepts_valid_plans]); [write_loop] the length of the data, as the
    code stops at a write of no bytes; [visit] the number of entries
    ([session_tree_shows_history]); [scan_once] the length of the text ([scan_complete]);
    [parse_any] twice that ([parse_terminates]); [convert_loop] the number of messages
    ([convert_loop_wire]); [handle] more than the length of its input and [extract] the length
    of the buffer ([process_ok]); [read_stream] twice the buffer and 2 more ([read_at]);
    [decode_pass] the number of bytes ([decode_pass_encode]); [collapse_slashes] and [parse_flags] the
    length of the text.

    ** What is not modelled

    The command line, the terminal interface beyond the bytes of its input, and the RPC server
    (input and output); the backends of subagents and the typing of their results;
    the transports of providers and the streams of the other API modes; the wiring and the timing of compactions; extensions,
    packages and skills (loading of foreign code); the processes of language servers and the manager of them, pseudo-terminals
    and tmux (external programs); SQL text, file modes and fsync.  Within modelled
    parts: the parsing of dates and URIs, the rendering of diffs, the regular expressions that trigger coordination, the fingerprint and
    the redactor of the policy, nested calls of the mutation queue, and the functions
    of the compressor that only rewrite text with regular expressions.

    ** Divergences found

    Lemmas that end in a concrete computation show where the code does something its
    documentation or its use does not expect: [recovery_clock_behind],
    [settle_effect_to_intent], [from_settings_needs_psutil], [relay_stale_last],
    [lost_newline_corrupts], [tail_joins_lines], [long_line_hidden],
    [read_no_progress], [surrogate_context_raises], [root_scope_overlaps_nothing],
    [unhashable_task_raises], [next_line_goal_lost], [edit_turns_crlf_into_lf],
    [blank_old_text_inserts], [blank_old_text_not_unique], [only_turn_summarised],
    [huge_integer_overflows], [reasoning_tokens_lost], [unknown_first_kept_forgets],
    [bad_message_stops_reading], [form_feed_shifts_lines], [two_names_lose_an_edit],
    [blank_array_misread], [summary_dropped], [long_names_collide],
    [late_failure_mislabels], [aborted_start_leaves_process], [limit_raced],
    [snapshot_runs_forever], [cancelled_wait_raises], [clock_back_loses_task],
    [double_escape_cut], [unfinished_before_paste], [old_reader_fails_new_requests],
    [dead_reader_accepts_requests], [true_is_one] and [server_started_while_closing]. *)

From Stdlib Require Export Ascii.
From Stdlib Require Export ZArith Lia.
From stdpp Require Export sorting strings numbers.
From stdpp Require Export base tactics option gmap list.

(** * Results: the value of a Python call that may raise *)

Inductive result (E A : Type) : Type :=
  | Ok (value : A)
  | Err (error : E).
Arguments Ok {E A} value.
Arguments Err {E A} error.

#[export] Instance result_ret {E} : MRet (result E) := λ A a, Ok a.
#[export] Instance result_bind {E} : MBind (result E) := λ A B f m,
  match m with Ok a => f a | Err e => Err e end.
#[export] Instance result_fmap {E} : FMap (result E) := λ A B f m,
  match m with Ok a => Ok (f a) | Err e => Err e end.
#[export] Instance result_throw {E} : MThrow E (result E) := λ A e, Err e.
#[export] Instance result_eq_dec {E A} `{EqDecision E} `{EqDecision A} :
  EqDecision (result E A).
Proof. solve_decision. Defined.

Definition is_ok {E A} (m : result E A) : bool :=
  match m with Ok _ => true | Err _ => false end.

(** [require b e]: the guard [if not b: raise e]. *)
Definition require {E} (b : bool) (e : E) : result E unit :=
  if b then Ok tt else Err e.

(** Left-to-right traversal that stops at the first error, as a Python loop
    (or comprehension) whose body may raise. *)
Section try_loops.
Context {E A B : Type}.
Variable g : A → result E B.

Fixpoint try_map (l : list A) : result E (list B) :=
  match l with
  | [] => Ok []
  | x :: l => y ← g x; ys ← try_map l; Ok (y :: ys)
  end.

Variable f : A → result E unit.

Fixpoint try_iter (l : list A) : result E unit :=
  match l with
  | [] => Ok tt
  | x :: l => _ ← f x; try_iter l
  end.
End try_loops.

(** * State with errors: a Python method over mutable state that may raise.
    The state reached when the exception is raised is kept, so that what a
    caller sees after catching it is part of the model. *)

Definition st (S E A : Type) : Type := S → result E A * S.

#[export] Instance st_ret {S E} : MRet (st S E) := λ A a s, (Ok a, s).
#[export] Instance st_bind {S E} : MBind (st S E) := λ A B f m s,
  match m s with
  | (Ok a, s') => f a s'
  | (Err e, s') => (Err e, s')
  end.
#[export] Instance st_throw {S E} : MThrow E (st S E) := λ A e s, (Err e, s).

Definition st_get {S E} : st S E S := λ s, (Ok s, s).
Definition st_put {S E} (s' : S) : st S E unit := λ _, (Ok tt, s').
Definition st_modify {S E} (f : S → S) : st S E unit := λ s, (Ok tt, f s).
Definition st_lift {S E A} (m : result E A) : st S E A := λ s, (m, s).
Definition st_require {S E} (b : bool) (e : E) : st S E unit :=
  st_lift (require b e).

Fixpoint st_iter {S E A} (f : A → st S E unit) (l : list A) : st S E unit :=
  match l with
  | [] => mret tt
  | x :: l => _ ← f x; st_iter f l
  end.

(** Weakest precondition of a computation that returns: what holds of the value
    and the state when no exception is raised. *)
Definition wp {S E A} (m : st S E A) (Q : A → S → Prop) (s : S) : Prop :=
  ∀ a s', m s = (Ok a, s') → Q a s'.

(** The same with a postcondition for the exceptional end: what holds of the state
    a caller that catches the exception finds. *)
Definition wpe {S E A} (m : st S E A) (Q : A → S → Prop) (R : E → S → Prop) (s : S) : Prop :=
  match m s with
  | (Ok a, s') => Q a s'
  | (Err e, s') => R e s'
  end.

(** * Strings of identifiers: Rocq strings, one [ascii] per code point *)

Definition chars (s : string) : list ascii := String.list_ascii_of_string s.
Definition code (c : ascii) : Z := Z.of_N (Ascii.N_of_ascii c).
Definition str_len (s : string) : Z := Z.of_nat (String.length s).

Definition in_range (lo hi z : Z) : bool := (lo <=? z)%Z && (z <=? hi)%Z.
Definition is_lower_char (c : ascii) : bool := in_range 97 122 (code c).
Definition is_upper_char (c : ascii) : bool := in_range 65 90 (code c).
Definition is_digit_char (c : ascii) : bool := in_range 48 57 (code c).
Definition is_hex_char (c : ascii) : bool :=
  is_digit_char c || in_range 97 102 (code c).

Definition lower_char (c : ascii) : ascii :=
  if is_upper_char c then Ascii.ascii_of_N (Z.to_N (code c + 32)) else c.
Definition lower_str (s : string) : string :=
  String.string_of_list_ascii (map lower_char (chars s)).

(** [sub in s]. *)
Fixpoint str_contains (sub s : string) : bool :=
  String.prefix sub s ||
  match s with
  | EmptyString => false
  | String _ s' => str_contains sub s'
  end.

(** Python's string order: lexicographic on code points. *)
Definition str_le (s t : string) : Prop := String.leb s t = true.
#[export] Instance str_le_dec : RelDecision str_le.
Proof. intros s t. unfold str_le. apply _. Defined.

(** * Python's [sorted]: a stable sort under a key comparison *)
Section stable_sort.
Context {A : Type}.
Variable leb : A → A → bool.

Fixpoint insert_sorted (x : A) (l : list A) : list A :=
  match l with
  | [] => [x]
  | y :: l' => if leb x y then x :: l else y :: insert_sorted x l'
  end.

Fixpoint py_sorted (l : list A) : list A :=
  match l with
  | [] => []
  | x :: l => insert_sorted x (py_sorted l)
  end.
End stable_sort.

Definition key_leb {B : Type} (p q : string * B) : bool := String.leb p.1 q.1.

(** * Shared automation *)

Create HintDb travis.

(** Split the binds of a [result] computation known to return. *)
Ltac result_inv :=
  repeat match goal with
  | H : mbind ?f ?m = Ok _ |- _ =>
      destruct m eqn:?; cbn [mbind result_bind] in H; [ | discriminate H ]
  | H : Ok _ = Ok _ |- _ => injection H as H; try subst
  | H : Err _ = Ok _ |- _ => discriminate H
  | H : Ok _ = Err _ |- _ => discriminate H
  | H : require ?b _ = Ok _ |- _ =>
      unfold require in H; destruct b eqn:?; [ clear H | discriminate H ]
  | H : _ && _ = true |- _ => apply andb_true_iff in H as [? ?]
  end.

(** Turn boolean tests of the code into the propositions they decide. *)
Ltac bool_prop :=
  repeat match goal with
  | H : _ && _ = true |- _ => apply andb_true_iff in H as [? ?]
  | H : _ || _ = false |- _ => apply orb_false_iff in H as [? ?]
  | H : negb _ = true |- _ => apply negb_true_iff in H
  | H : negb _ = false |- _ => apply negb_false_iff in H
  | H : bool_decide _ = true |- _ => apply bool_decide_eq_true in H
  | H : bool_decide _ = false |- _ => apply bool_decide_eq_false in H
  | H : (_ =? _)%Z = true |- _ => apply Z.eqb_eq in H
  | H : (_ =? _)%Z = false |- _ => apply Z.eqb_neq in H
  | H : (_ <=? _)%Z = true |- _ => apply Z.leb_le in H
  | H : (_ <=? _)%Z = false |- _ => apply Z.leb_gt in H
  | H : (_ <? _)%Z = true |- _ => apply Z.ltb_lt in H
  | H : (_ <? _)%Z = false |- _ => apply Z.ltb_ge in H
  end.

Section wpe_rules.
Context {S E : Type}.
Implicit Types s : S.

Lemma wpe_bind {A B} (m : st S E A) (f : A → st S E B) Q R s :
  wpe m (λ a s', wpe (f a) Q R s') R s → wpe (m ≫= f) Q R s.
Proof. unfold wpe, mbind, st_bind. by destruct (m s) as [[a|e] s1]. Qed.

Lemma wpe_assoc {A B C} (m : st S E A) (f : A → st S E B) (g : B → st S E C) Q R s :
  wpe ((m ≫= f) ≫= g) Q R s → wpe (m ≫= λ x, f x ≫= g) Q R s.
Proof. unfold wpe, mbind, st_bind. by destruct (m s) as [[a|e] s1]. Qed.

Lemma wpe_ret {A} (a : A) (Q : A → S → Prop) (R : E → S → Prop) s : Q a s → wpe (mret a) Q R s.
Proof. done. Qed.

Lemma wpe_throw {A} (e : E) (Q : A → S → Prop) (R : E → S → Prop) s : R e s → wpe (mthrow e) Q R s.
Proof. done. Qed.

Lemma wpe_modify f (Q : unit → S → Prop) (R : E → S → Prop) s : Q tt (f s) → wpe (st_modify f) Q R s.
Proof. done. Qed.

Lemma wpe_lift {A} (m : result E A) (Q : A → S → Prop) (R : E → S → Prop) s :
  (∀ a, m = Ok a → Q a s) → (∀ e, m = Err e → R e s) → wpe (st_lift m) Q R s.
Proof. unfold wpe, st_lift. destruct m; auto. Qed.

Lemma wpe_mono {A} (m : st S E A) (Q Q' : A → S → Prop) (R R' : E → S → Prop) s :
  wpe m Q R s → (∀ a s', Q a s' → Q' a s') → (∀ e s', R e s' → R' e s') → wpe m Q' R' s.
Proof. unfold wpe. destruct (m s) as [[a|e] s1]; auto. Qed.

Lemma wpe_ok {A} (m : st S E A) (Q : A → S → Prop) (R : E → S → Prop) s a s' :
  wpe m Q R s → m s = (Ok a, s') → Q a s'.
Proof. unfold wpe. intros H Hm. by rewrite Hm in H. Qed.
End wpe_rules.

(** One symbolic step of a state computation, both ends. *)
Ltac wpe_step :=
  match goal with
  | |- wpe (let _ := _ in _) _ _ _ => cbn zeta
  | |- wpe (mbind _ _) _ _ _ => apply wpe_bind
  | |- wpe (mret _) _ _ _ => apply wpe_ret
  | |- wpe (mthrow _) _ _ _ => apply wpe_throw
  | |- wpe (st_modify _) _ _ _ => apply wpe_modify
  end; cbn beta.

(** Run a state computation on the state it is applied to. *)
Ltac st_eval :=
  cbv beta iota delta [mbind mret mthrow st_bind st_ret st_throw st_get st_put st_modify
    st_lift st_require].

(** Use the outcomes of the tests and calls already decided. *)
Ltac rewrite_known :=
  unfold require; cbn;
  repeat match goal with
  | H : ?x = true |- context [?x] => rewrite H; cbn
  | H : ?x = false |- context [?x] => rewrite H; cbn
  | H : ?x = Ok _ |- context [?x] => rewrite H; cbn
  | H : ?x = Err _ |- context [?x] => rewrite H; cbn
  end.

(** * Generic lemmas *)

Lemma require_ok {E} (b : bool) (e : E) : require b e = Ok tt ↔ b = true.
Proof. by destruct b. Qed.

(** ** Weakest preconditions *)
Section wp_rules.
Context {S E : Type}.
Implicit Types s : S.

Lemma wp_bind {A B} (m : st S E A) (f : A → st S E B) Q s :
  wp m (λ a s', wp (f a) Q s') s → wp (m ≫= f) Q s.
Proof.
  unfold wp, mbind, st_bind. intros H b s'.
  destruct (m s) as [[a|e] s1] eqn:Hm; [|discriminate].
  intros Hf. by eapply H.
Qed.

Lemma wp_elim {A} (m : st S E A) (Q : A → S → Prop) s :
  wp m Q s → ∀ a s', m s = (Ok a, s') → Q a s'.
Proof. done. Qed.

Lemma wp_ret {A} (a : A) (Q : A → S → Prop) s : Q a s → wp (E:=E) (mret a) Q s.
Proof. unfold wp. cbn. by intros ? ? ? [= <- <-]. Qed.

Lemma wp_throw {A} (e : E) (Q : A → S → Prop) s : wp (mthrow e) Q s.
Proof. unfold wp. by cbn. Qed.

Lemma wp_get (Q : S → S → Prop) s : Q s s → wp (E:=E) st_get Q s.
Proof. unfold wp. cbn. by intros ? ? ? [= <- <-]. Qed.

Lemma wp_put s1 (Q : unit → S → Prop) s : Q tt s1 → wp (E:=E) (st_put s1) Q s.
Proof. unfold wp. cbn. by intros ? ? ? [= <- <-]. Qed.

Lemma wp_modify f (Q : unit → S → Prop) s : Q tt (f s) → wp (E:=E) (st_modify f) Q s.
Proof. unfold wp. cbn. by intros ? ? ? [= <- <-]. Qed.

Lemma wp_lift {A} (m : result E A) (Q : A → S → Prop) s :
  (∀ a, m = Ok a → Q a s) → wp (st_lift m) Q s.
Proof. unfold wp. cbn. intros H a s' [= Hm <-]. by apply H. Qed.

Lemma wp_require b (e : E) (Q : unit → S → Prop) s :
  (b = true → Q tt s) → wp (st_require b e) Q s.
Proof. intros H. apply wp_lift. intros []. rewrite require_ok. apply H. Qed.

Lemma wp_iter {A} (f : A → st S E unit) (I : S → Prop) l s :
  I s → (∀ x s, x ∈ l → I s → wp (f x) (λ _, I) s) → wp (st_iter f l) (λ _, I) s.
Proof.
  revert s. induction l as [|x l IH]; intros s Hs Hf; cbn [st_iter].
  - by apply wp_ret.
  - apply wp_bind. intros [] s' Hx. eapply IH.
    + eapply Hf; [apply list_elem_of_here|exact Hs|exact Hx].
    + intros y s1 Hy. apply Hf. by apply list_elem_of_further.
Qed.

Lemma wp_mono {A} (m : st S E A) (Q Q' : A → S → Prop) s :
  wp m Q s → (∀ a s', Q a s' → Q' a s') → wp m Q' s.
Proof. unfold wp. eauto. Qed.
End wp_rules.

(** One symbolic step of a state computation. *)
Ltac wp_step :=
  match goal with
  | |- wp (let _ := _ in _) _ _ => cbn zeta
  | |- wp (mbind _ _) _ _ => apply wp_bind
  | |- wp (mret _) _ _ => apply wp_ret
  | |- wp (mthrow _) _ _ => apply wp_throw
  | |- wp st_get _ _ => apply wp_get
  | |- wp (st_put _) _ _ => apply wp_put
  | |- wp (st_modify _) _ _ => apply wp_modify
  | |- wp (st_require _ _) _ _ => apply wp_require; intros ?
  | |- wp (st_lift _) _ _ => apply wp_lift; intros ? ?
  | |- wp (match ?x with _ => _ end) _ _ => destruct x eqn:?
  end; cbn beta.
Ltac wp_steps := repeat wp_step.

Lemma result_bind_ok {E A B} (f : A → result E B) m b :
  m ≫= f = Ok b ↔ ∃ a, m = Ok a ∧ f a = Ok b.
Proof.
  destruct m as [a|e]; cbn; split.
  - eauto.
  - intros (a' & Ha & Hf). by simplify_eq.
  - done.
  - intros (a' & Ha & _). done.
Qed.


Lemma try_map_forall2 {E A B} (f : A → result E B) l ys :
  try_map f l = Ok ys ↔ Forall2 (λ x y, f x = Ok y) l ys.
Proof.
  revert ys; induction l as [|x l IH]; intros ys; cbn.
  - split; [intros [= <-]; constructor | intros H; inversion H; done].
  - split.
    + intros H. result_inv. constructor; [done|]. by apply IH.
    + intros H; inversion H as [|? y ? ys' Hx Hl]; subst.
      rewrite Hx. cbn. apply IH in Hl. rewrite Hl. done.
Qed.

Lemma try_map_id {E A} (f : A → result E A) l :
  (∀ x, x ∈ l → f x = Ok x) → try_map f l = Ok l.
Proof.
  induction l as [|x l IH]; cbn; intros H; [done|].
  rewrite H by apply list_elem_of_here. cbn. rewrite IH; [done|].
  intros y Hy. apply H. by apply list_elem_of_further.
Qed.

Lemma prefix_app t u : String.prefix t (t +:+ u) = true.
Proof.
  induction t as [|c t IH]; [destruct u; reflexivity|].
  change (String c t +:+ u) with (String c (t +:+ u)). cbn.
  destruct (Ascii.ascii_dec c c); [exact IH | congruence].
Qed.

Lemma str_contains_app s t u : str_contains t (s +:+ t +:+ u) = true.
Proof.
  induction s as [|c s IH].
  - change ("" +:+ t +:+ u) with (t +:+ u).
    destruct (t +:+ u) eqn:Htu; cbn [str_contains];
      rewrite <- Htu, prefix_app; done.
  - change (String c s +:+ t +:+ u) with (String c (s +:+ t +:+ u)).
    cbn [str_contains]. rewrite IH. apply orb_true_r.
Qed.

(** ** The stable sort *)
Section stable_sort_lemmas.
Context {A : Type} (leb : A → A → bool).
Let R (x y : A) : Prop := leb x y = true.

Lemma insert_sorted_perm x l : insert_sorted leb x l ≡ₚ x :: l.
Proof.
  induction l as [|y l IH]; cbn; [done|].
  destruct (leb x y); [done|]. rewrite IH. by rewrite Permutation_swap.
Qed.

Lemma py_sorted_perm l : py_sorted leb l ≡ₚ l.
Proof.
  induction l as [|x l IH]; cbn; [done|]. by rewrite insert_sorted_perm, IH.
Qed.

Lemma py_sorted_length l : length (py_sorted leb l) = length l.
Proof. by rewrite py_sorted_perm. Qed.

Lemma elem_of_py_sorted x l : x ∈ py_sorted leb l ↔ x ∈ l.
Proof. by rewrite py_sorted_perm. Qed.

(** Sorting a list that is already in order changes nothing: stability. *)
Lemma py_sorted_id l : StronglySorted R l → py_sorted leb l = l.
Proof.
  induction 1 as [|x l Hl IH Hx]; cbn; [done|]. rewrite IH.
  destruct Hx as [|y l Hxy _]; cbn; [done|]. by rewrite Hxy.
Qed.

Hypothesis leb_total : ∀ x y, leb x y = true ∨ leb y x = true.
Hypothesis leb_trans : ∀ x y z, leb x y = true → leb y z = true → leb x z = true.

Lemma insert_sorted_sorted x l :
  StronglySorted R l → StronglySorted R (insert_sorted leb x l).
Proof using leb_total leb_trans.
  induction 1 as [|y l Hl IH Hy]; cbn; [by repeat constructor|].
  destruct (leb x y) eqn:Hxy.
  - repeat constructor; try done.
    eapply Forall_impl; [exact Hy|]. intros z Hyz. by eapply leb_trans.
  - constructor; [done|].
    assert (R y x) as Hyx by (destruct (leb_total x y); [congruence|done]).
    rewrite insert_sorted_perm. by constructor.
Qed.

Lemma py_sorted_sorted l : StronglySorted R (py_sorted leb l).
Proof using leb_total leb_trans.
  induction l as [|x l IH]; cbn; [constructor|]. by apply insert_sorted_sorted.
Qed.

(** Elements that compare equal keep their relative order: the elements
    selected by a test that does not separate [x] from its equals come out in
    the order they went in. *)
Lemma insert_sorted_filter (P : A → Prop) `{∀ x, Decision (P x)} x l :
  (∀ y, P x → P y → leb x y = true) →
  filter P (insert_sorted leb x l) = filter P (x :: l).
Proof.
  intros Hx. induction l as [|y l IH]; cbn [insert_sorted]; [done|].
  destruct (leb x y) eqn:Hxy; [done|].
  rewrite !filter_cons in *.
  destruct (decide (P x)), (decide (P y)); rewrite ?IH; try done.
  rewrite Hx in Hxy; done.
Qed.

Lemma py_sorted_filter (P : A → Prop) `{∀ x, Decision (P x)} l :
  (∀ x y, P x → P y → leb x y = true) →
  filter P (py_sorted leb l) = filter P l.
Proof.
  intros HP. induction l as [|x l IH]; cbn [py_sorted]; [done|].
  rewrite insert_sorted_filter by eauto. rewrite !filter_cons, IH. done.
Qed.
End stable_sort_lemmas.

(** ** String order *)
Lemma str_leb_total s t : String.leb s t = true ∨ String.leb t s = true.
Proof.
  unfold String.leb. rewrite (String.compare_antisym t s).
  destruct (String.compare s t); cbn; eauto.
Qed.

Lemma ascii_compare_refl a : Ascii.compare a a = Eq.
Proof. unfold Ascii.compare. by apply N.compare_eq_iff. Qed.

Lemma ascii_compare_trans_lt a b c :
  Ascii.compare a b = Lt → Ascii.compare b c = Lt → Ascii.compare a c = Lt.
Proof. unfold Ascii.compare. rewrite !N.compare_lt_iff. lia. Qed.

Lemma str_leb_trans s t u :
  String.leb s t = true → String.leb t u = true → String.leb s u = true.
Proof.
  unfold String.leb. revert t u.
  induction s as [|a s IH]; intros [|b t] [|c u]; cbn; try done.
  specialize (IH t u).
  destruct (Ascii.compare a b) eqn:Hab, (Ascii.compare b c) eqn:Hbc; try done;
    try (apply Ascii.compare_eq_iff in Hab; subst);
    try (apply Ascii.compare_eq_iff in Hbc; subst).
  - by rewrite ascii_compare_refl.
  - by rewrite Hbc.
  - by rewrite Hab.
  - by rewrite (ascii_compare_trans_lt _ _ _ Hab Hbc).
Qed.

Lemma str_leb_refl s : String.leb s s = true.
Proof. by destruct (str_leb_total s s). Qed.

Lemma str_leb_antisym s t :
  String.leb s t = true → String.leb t s = true → s = t.
Proof.
  unfold String.leb. rewrite (String.compare_antisym t s).
  destruct (String.compare s t) eqn:H; cbn; try done.
  intros _ _. by apply String.compare_eq_iff.
Qed.

Lemma key_leb_total {B} (p q : string * B) : key_leb p q = true ∨ key_leb q p = true.
Proof. apply str_leb_total. Qed.

Lemma key_leb_trans {B} (p q r : string * B) :
  key_leb p q = true → key_leb q r = true → key_leb p r = true.
Proof. apply str_leb_trans. Qed.

Lemma try_map_map_id {E A B} (f : A → result E B) (g : B → A) l :
  Forall (λ x, f (g x) = Ok x) l → try_map f (map g l) = Ok l.
Proof. induction 1 as [|x l Hx _ IH]; cbn; [done|]. rewrite Hx. cbn. by rewrite IH. Qed.

Lemma try_iter_forall {E A} (f : A → result E unit) l :
  try_iter f l = Ok tt ↔ Forall (λ x, f x = Ok tt) l.
Proof.
  induction l as [|x l IH]; cbn; [split; [constructor|done]|].
  rewrite Forall_cons.
  destruct (f x) as [[]|]; cbn; [by rewrite IH; intuition|by split; [|intros [? _]]].
Qed.

(** ** Counting *)

(** How many elements satisfy a test. *)
Definition cnt {A : Type} (f : A → bool) (l : list A) : nat := length (List.filter f l).

Lemma cnt_nil {A} (f : A → bool) : cnt f [] = 0%nat.
Proof. done. Qed.

Lemma cnt_cons {A} (f : A → bool) x l : cnt f (x :: l) = ((if f x then 1 else 0) + cnt f l)%nat.
Proof. unfold cnt. cbn. by destruct (f x). Qed.

Lemma cnt_app {A} (f : A → bool) l1 l2 : cnt f (l1 ++ l2) = (cnt f l1 + cnt f l2)%nat.
Proof. unfold cnt. by rewrite List.filter_app, length_app. Qed.

Lemma cnt_perm {A} (f : A → bool) l1 l2 : l1 ≡ₚ l2 → cnt f l1 = cnt f l2.
Proof. induction 1 as [|x l1 l2 _ IH|x y l|l1 l2 l3 _ IH1 _ IH2]; rewrite ?cnt_cons; [done|lia|lia|congruence]. Qed.

Lemma cnt_pos {A} (f : A → bool) x l : x ∈ l → f x = true → (0 < cnt f l)%nat.
Proof.
  induction l as [|y l IH]; [by intros ?%elem_of_nil|]. rewrite cnt_cons. intros [->|Hx]%elem_of_cons Hf; [rewrite Hf; lia|].
  specialize (IH Hx Hf). lia.
Qed.

Lemma cnt_zero {A} (f : A → bool) l : (∀ x, x ∈ l → f x = false) → cnt f l = 0%nat.
Proof. induction l as [|x l IH]; [done|]. intros H. rewrite cnt_cons, (H x), IH by set_solver. done. Qed.

Lemma cnt_exists {A} (f : A → bool) l : (0 < cnt f l)%nat → ∃ x, x ∈ l ∧ f x = true.
Proof.
  induction l as [|x l IH]; [rewrite cnt_nil; lia|]. rewrite cnt_cons. destruct (f x) eqn:E; [exists x; split; [by left|done]|].
  intros H. destruct IH as (y & Hy & Hf); [lia|]. exists y. split; [by right|done].
Qed.
