(* ===== verification/PyDict.v ===== *)
(** Python dicts as association lists in insertion order, for the code that
    iterates over a dict: look-up, assignment, removal, and their lemmas. *)

From S2P Require Import Prelude.

(** ** Dicts in insertion order *)
Section ordered_dict.
Context {K V : Type} `{EqDecision K}.

Fixpoint od_get (k : K) (d : list (K * V)) : option V :=
  match d with
  | [] => None
  | (k', v) :: d' => if decide (k' = k) then Some v else od_get k d'
  end.

Fixpoint od_set (k : K) (v : V) (d : list (K * V)) : list (K * V) :=
  match d with
  | [] => [(k, v)]
  | (k', v') :: d' => if decide (k' = k) then (k, v) :: d' else (k', v') :: od_set k v d'
  end.

(** [d.pop(k, None)]: what is left. *)
Definition od_del (k : K) (d : list (K * V)) : list (K * V) :=
  List.filter (λ p, negb (bool_decide (p.1 = k))) d.

(** [d.update(pairs)] *)
Definition od_update (pairs d : list (K * V)) : list (K * V) :=
  fold_left (λ d p, od_set p.1 p.2 d) pairs d.

End ordered_dict.

(** [d.setdefault(k, []).append(x)] *)
Definition od_push {K V} `{EqDecision K} (k : K) (x : V) (d : list (K * list V)) : list (K * list V) :=
  od_set k (default [] (od_get k d) ++ [x]) d.

(** ** Lemmas *)
Section ordered_dict_lemmas.
Context {K V : Type} `{EqDecision K}.
Implicit Types d : list (K * V).

Lemma od_get_set k v d k' :
  od_get k' (od_set k v d) = if decide (k = k') then Some v else od_get k' d.
Proof.
  induction d as [|[k1 v1] d IH]; cbn.
  - by destruct (decide (k = k')).
  - destruct (decide (k1 = k)) as [->|Hk]; cbn; [by destruct (decide (k = k'))|].
    rewrite IH. destruct (decide (k1 = k')) as [->|]; [|done].
    by rewrite decide_False by congruence.
Qed.

Lemma od_set_keys k v d k' : k' ∈ (od_set k v d).*1 ↔ k' = k ∨ k' ∈ d.*1.
Proof.
  induction d as [|[k1 v1] d IH]; cbn.
  - rewrite elem_of_cons. set_solver.
  - destruct (decide (k1 = k)) as [->|]; cbn; rewrite ?elem_of_cons; [set_solver|].
    rewrite IH. set_solver.
Qed.

Lemma od_set_nodup k v d : NoDup d.*1 → NoDup (od_set k v d).*1.
Proof.
  induction d as [|[k1 v1] d IH]; cbn; intros Hd; [by repeat constructor; set_solver|].
  apply NoDup_cons in Hd as [Hk Hd].
  destruct (decide (k1 = k)) as [->|Hne]; cbn; constructor; auto.
  rewrite od_set_keys. set_solver.
Qed.

Lemma od_get_in k v d : NoDup d.*1 → (k, v) ∈ d ↔ od_get k d = Some v.
Proof.
  induction d as [|[k1 v1] d IH]; cbn; intros Hd; [set_solver|].
  apply NoDup_cons in Hd as [Hk Hd]. rewrite elem_of_cons, IH by done.
  destruct (decide (k1 = k)) as [->|Hne].
  - split; [|intros [= ->]; by left]. intros [[= ->]|Hg]; [done|].
    exfalso. apply Hk. apply IH in Hg; [|done]. apply list_elem_of_fmap. by exists (k, v).
  - split; [|by right]. intros [[= -> ->]|]; done.
Qed.

Lemma od_set_values k v d w : w ∈ (od_set k v d).*2 → w = v ∨ w ∈ d.*2.
Proof.
  induction d as [|[k1 v1] d IH]; cbn; [set_solver|].
  destruct (decide (k1 = k)) as [->|]; cbn; rewrite !elem_of_cons; set_solver.
Qed.

Lemma od_get_snoc (i : K) (x : K * V) d :
  x.1 ∉ d.*1 →
  od_get i (d ++ [x]) = if decide (x.1 = i) then Some x.2 else od_get i d.
Proof.
  destruct x as [k v]. cbn. induction d as [|[k1 v1] d IH]; cbn; intros Hn.
  - done.
  - apply not_elem_of_cons in Hn as [Hne Hn]. rewrite IH by done.
    destruct (decide (k1 = i)) as [->|]; [|done]. by rewrite decide_False by done.
Qed.

Lemma od_set_fresh k v d : k ∉ d.*1 → od_set k v d = d ++ [(k, v)].
Proof.
  induction d as [|[k1 v1] d IH]; cbn; intros Hn; [done|]. apply not_elem_of_cons in Hn as [Hne Hn].
  rewrite decide_False by done. by rewrite IH.
Qed.

Lemma od_get_none k d : od_get k d = None ↔ k ∉ d.*1.
Proof.
  induction d as [|[k1 v1] d IH]; cbn; [by split; [set_solver|]|].
  destruct (decide (k1 = k)) as [->|]; cbn; rewrite ?IH, not_elem_of_cons; naive_solver.
Qed.

Lemma od_update_fresh pairs d :
  NoDup (d.*1 ++ pairs.*1) → od_update pairs d = d ++ pairs.
Proof.
  unfold od_update. revert d. induction pairs as [|[k v] pairs IH]; intros d Hd; cbn.
  - by rewrite app_nil_r.
  - assert (k ∉ d.*1) as Hk.
    { cbn in Hd. apply NoDup_app in Hd as (_ & Hdis & _). intros Hin. apply (Hdis k Hin). by left. }
    rewrite od_set_fresh by done. rewrite IH; [by rewrite <-app_assoc|].
    rewrite fmap_app. cbn. by rewrite <-app_assoc.
Qed.

Lemma od_del_fresh k d : k ∉ d.*1 → od_del k d = d.
Proof.
  unfold od_del. induction d as [|[k1 v1] d IH]; cbn; intros Hk; [done|].
  apply not_elem_of_cons in Hk as [Hne Hk]. rewrite bool_decide_eq_false_2 by done. cbn. by rewrite IH.
Qed.

Lemma od_del_keys k k' d : k' ∈ (od_del k d).*1 ↔ k' ≠ k ∧ k' ∈ d.*1.
Proof.
  unfold od_del. induction d as [|[k1 v1] d IH]; cbn; [set_solver|].
  destruct (bool_decide_reflect (k1 = k)) as [->|]; cbn; rewrite ?elem_of_cons, IH; naive_solver.
Qed.

Lemma od_del_nodup k d : NoDup d.*1 → NoDup (od_del k d).*1.
Proof.
  unfold od_del. induction d as [|[k1 v1] d IH]; cbn; intros Hd; [constructor|].
  apply NoDup_cons in Hd as [Hk Hd]. specialize (IH Hd).
  destruct (negb _) eqn:E; cbn; [|done]. constructor; [|done].
  intros [Hne Hin]%(od_del_keys k k1 d). done.
Qed.

Lemma od_get_del k d k' : od_get k' (od_del k d) = if decide (k = k') then None else od_get k' d.
Proof.
  unfold od_del. induction d as [|[k1 v1] d IH]; cbn; [by destruct (decide (k = k'))|].
  destruct (bool_decide_reflect (k1 = k)) as [->|Hne]; cbn; rewrite IH; destruct (decide (k = k')); try done.
  destruct (decide (k1 = k')); [congruence|done].
Qed.

(** A dict built key by key. *)
Lemma od_get_omap (g : K → option V) (l : list K) k : NoDup l →
  od_get k (omap (λ k, pair k <$> g k) l) = if decide (k ∈ l) then g k else None.
Proof.
  induction l as [|k1 l IH]; cbn; intros Hl; [done|]. apply NoDup_cons in Hl as [Hk1 Hl].
  specialize (IH Hl). destruct (g k1) as [v|] eqn:Hg; cbn.
  - destruct (decide (k1 = k)) as [->|Hne]; [by rewrite decide_True by (by left)|].
    rewrite IH. apply decide_ext. rewrite elem_of_cons. naive_solver.
  - rewrite IH. destruct (decide (k ∈ l)) as [Hin|Hin]; [by rewrite decide_True by (by right)|].
    destruct (decide (k ∈ k1 :: l)) as [[->|]%elem_of_cons|]; done.
Qed.

End ordered_dict_lemmas.

Lemma od_get_push {K V} `{EqDecision K} (k k' : K) (x : V) d :
  default [] (od_get k' (od_push k x d)) =
    default [] (od_get k' d) ++ (if decide (k = k') then [x] else []).
Proof.
  unfold od_push. rewrite od_get_set.
  destruct (decide (k = k')) as [->|]; cbn; [done|by rewrite app_nil_r].
Qed.

