(* ===== verification/Json.v ===== *)
(** JSON values as the program handles them: Python values that may or may not
    be JSON ([pyval]), the JSON values proper ([json]), their printed form
    ([dumps], Python's [json.dumps] with [ensure_ascii=False], sorted keys and
    compact separators) and the size of that form in UTF-8.

    A float is carried as the text [repr] gives it, which is also the text
    [json.dumps] prints, together with its finiteness. *)

From S2P Require Import Prelude.
From stdpp Require Import pretty.
Set Warnings "-register-all".
Open Scope Z_scope.

(** A dictionary key: a [str], or any other hashable value. *)
Inductive pykey : Type :=
  | KStr (key : string)
  | KOther.

(** A Python value handed to the JSON code.  [VOther] is a value of any type
    that is not a JSON type (a tuple, bytes, an object). *)
Inductive pyval : Type :=
  | VNone
  | VBool (b : bool)
  | VInt (z : Z)
  | VFloat (finite : bool) (repr : string)
  | VStr (s : string)
  | VList (items : list pyval)
  | VDict (items : list (pykey * pyval))
  | VOther.

Inductive json : Type :=
  | JNull
  | JBool (b : bool)
  | JInt (z : Z)
  | JFloat (repr : string)
  | JStr (s : string)
  | JList (items : list json)
  | JObj (members : list (string * json)).

(** The Python value [json.loads] builds for a JSON text. *)
Fixpoint loads (j : json) : pyval :=
  match j with
  | JNull => VNone
  | JBool b => VBool b
  | JInt z => VInt z
  | JFloat r => VFloat true r
  | JStr s => VStr s
  | JList l => VList (map loads l)
  | JObj kvs => VDict (map (λ p, (KStr p.1, loads p.2)) kvs)
  end.

(** ** Printing *)

Definition hex_digit (n : Z) : string :=
  String (Ascii.ascii_of_N (Z.to_N (if n <? 10 then 48 + n else 87 + n))) "".

Definition escape_char (c : ascii) : string :=
  let n := code c in
  if n =? 34 then "\" +:+ String c ""
  else if n =? 92 then "\\"
  else if n =? 10 then "\n"
  else if n =? 13 then "\r"
  else if n =? 9 then "\t"
  else if n =? 12 then "\f"
  else if n =? 8 then "\b"
  else if n <? 32 then "\u00" +:+ hex_digit (Z.shiftr n 4) +:+ hex_digit (Z.land n 15)
  else String c "".

Definition quote : string := String (Ascii.ascii_of_N 34) "".

Definition dumps_str (s : string) : string :=
  quote +:+ String.concat "" (map escape_char (chars s)) +:+ quote.

Fixpoint dumps (j : json) : string :=
  match j with
  | JNull => "null"
  | JBool b => if b then "true" else "false"
  | JInt z => pretty z
  | JFloat r => r
  | JStr s => dumps_str s
  | JList l => "[" +:+ String.concat "," (map dumps l) +:+ "]"
  | JObj kvs =>
      let printed := py_sorted key_leb (map (λ p, (p.1, dumps p.2)) kvs) in
      "{" +:+ String.concat ","
        (map (λ p, dumps_str p.1 +:+ ":" +:+ p.2) printed) +:+ "}"
  end.

(** Bytes of the UTF-8 form of a string of code points below 256. *)
Definition utf8_bytes (s : string) : Z :=
  foldr (λ c n, (if code c <? 128 then 1 else 2) + n) 0 (chars s).

(** ** Induction over nested values *)
Section json_induction.
Variable P : json → Prop.
Hypothesis HNull : P JNull.
Hypothesis HBool : ∀ b, P (JBool b).
Hypothesis HInt : ∀ z, P (JInt z).
Hypothesis HFloat : ∀ r, P (JFloat r).
Hypothesis HStr : ∀ s, P (JStr s).
Hypothesis HList : ∀ l, Forall P l → P (JList l).
Hypothesis HObj : ∀ kvs, Forall (λ p, P p.2) kvs → P (JObj kvs).

Fixpoint json_ind' (j : json) : P j :=
  match j with
  | JNull => HNull
  | JBool b => HBool b
  | JInt z => HInt z
  | JFloat r => HFloat r
  | JStr s => HStr s
  | JList l => HList l ((fix go l := match l return Forall P l with
      | [] => List.Forall_nil P
      | x :: l => List.Forall_cons P x l (json_ind' x) (go l) end) l)
  | JObj kvs => HObj kvs
      ((fix go l := match l return Forall (λ p : string * json, P p.2) l with
      | [] => List.Forall_nil _
      | x :: l => List.Forall_cons (λ p : string * json, P p.2) x l
                    (json_ind' x.2) (go l) end) kvs)
  end.
End json_induction.

Section pyval_induction.
Variable P : pyval → Prop.
Hypothesis HAtom : ∀ v,
  match v with VList _ | VDict _ => False | _ => True end → P v.
Hypothesis HList : ∀ l, Forall P l → P (VList l).
Hypothesis HDict : ∀ kvs, Forall (λ p, P p.2) kvs → P (VDict kvs).

Fixpoint pyval_ind' (v : pyval) : P v :=
  match v with
  | VList l => HList l ((fix go l := match l return Forall P l with
      | [] => List.Forall_nil P
      | x :: l => List.Forall_cons P x l (pyval_ind' x) (go l) end) l)
  | VDict kvs => HDict kvs
      ((fix go l := match l return Forall (λ p : pykey * pyval, P p.2) l with
      | [] => List.Forall_nil _
      | x :: l => List.Forall_cons (λ p : pykey * pyval, P p.2) x l
                    (pyval_ind' x.2) (go l) end) kvs)
  | VNone => HAtom VNone I
  | VBool b => HAtom (VBool b) I
  | VInt z => HAtom (VInt z) I
  | VFloat f r => HAtom (VFloat f r) I
  | VStr s => HAtom (VStr s) I
  | VOther => HAtom VOther I
  end.
End pyval_induction.

Fixpoint json_eqb (j k : json) {struct j} : bool :=
  match j, k with
  | JNull, JNull => true
  | JBool a, JBool b => Bool.eqb a b
  | JInt a, JInt b => a =? b
  | JFloat a, JFloat b => String.eqb a b
  | JStr a, JStr b => String.eqb a b
  | JList a, JList b =>
      (fix go a b := match a, b with
       | [], [] => true
       | x :: a, y :: b => json_eqb x y && go a b
       | _, _ => false end) a b
  | JObj a, JObj b =>
      (fix go a b := match a, b with
       | [], [] => true
       | x :: a, y :: b => String.eqb x.1 y.1 && json_eqb x.2 y.2 && go a b
       | _, _ => false end) a b
  | _, _ => false
  end.

Lemma json_eqb_eq j k : json_eqb j k = true ↔ j = k.
Proof.
  split.
  - revert k. induction j as [|b|z|r|s|l IH|kvs IH] using json_ind';
      intros [| | | | |l'|kvs']; cbn; try done.
    + by intros ->%Bool.eqb_prop.
    + by intros ->%Z.eqb_eq.
    + by intros ->%String.eqb_eq.
    + by intros ->%String.eqb_eq.
    + intros H. f_equal. revert l' H.
      induction IH as [|x l Hx _ IH]; intros [|y l']; try done.
      intros [H1 H2]%andb_true_iff. f_equal; eauto.
    + intros H. f_equal. revert kvs' H.
      induction IH as [|[a x] l Hx _ IH]; intros [|[b y] l']; cbn; try done.
      intros [[H1%String.eqb_eq H2]%andb_true_iff H3]%andb_true_iff.
      subst. f_equal; [f_equal|]; eauto.
  - intros <-. induction j as [|b|z|r|s|l IH|kvs IH] using json_ind'; cbn;
      rewrite ?String.eqb_refl, ?Z.eqb_refl; try done; [by destruct b| |].
    + induction IH as [|x l Hx _ IH]; [done|]. by rewrite Hx, IH.
    + induction IH as [|x l Hx _ IH]; [done|]. by rewrite String.eqb_refl, Hx, IH.
Qed.

#[export] Instance json_eq_dec : EqDecision json.
Proof.
  intros j k. destruct (json_eqb j k) eqn:H.
  - left. by apply json_eqb_eq.
  - right. intros Hjk. apply json_eqb_eq in Hjk. congruence.
Defined.
