(* ===== verification/JsonText.v ===== *)
(** JSON text as the session files hold it: [json.dumps] with compact separators,
    members in the order of the dictionary and everything outside printable ASCII
    escaped, and [json.loads].

    Characters are code points below 256; an escape for a larger code point is
    read as an error.  A float is carried as its text.  The parser takes fuel, for
    which the length of the text is enough ([parse_print]). *)

From S2P Require Import Prelude Json.
From Stdlib Require Import ZArith Decimal DecimalString DecimalZ DecimalPos.
Open Scope Z_scope.

Definition text : Type := list ascii.

Definition ch (n : Z) : ascii := Ascii.ascii_of_N (Z.to_N n).

(** ** Dictionaries in insertion order *)

Definition dict_get (k : string) (d : list (string * json)) : option json :=
  match List.find (λ p, bool_decide (p.1 = k)) d with
  | Some p => Some p.2
  | None => None
  end.

(** [d[k] = v]: a known key keeps its place. *)
Fixpoint dict_set (k : string) (v : json) (d : list (string * json)) : list (string * json) :=
  match d with
  | [] => [(k, v)]
  | (k', v') :: rest => if bool_decide (k' = k) then (k, v) :: rest else (k', v') :: dict_set k v rest
  end.

(** ** Printing *)

Definition hex_char (n : Z) : ascii := ch (if n <? 10 then 48 + n else 87 + n).

Definition print_char (c : ascii) : text :=
  let n := code c in
  if n =? 34 then [ch 92; ch 34]
  else if n =? 92 then [ch 92; ch 92]
  else if n =? 10 then [ch 92; ch 110]
  else if n =? 13 then [ch 92; ch 114]
  else if n =? 9 then [ch 92; ch 116]
  else if n =? 12 then [ch 92; ch 102]
  else if n =? 8 then [ch 92; ch 98]
  else if (n <? 32) || (126 <? n)
  then [ch 92; ch 117; ch 48; ch 48; hex_char (Z.shiftr n 4); hex_char (Z.land n 15)]
  else [c].

Definition print_string (s : string) : text :=
  ch 34 :: flat_map print_char (chars s) ++ [ch 34].

Definition print_int (z : Z) : text := chars (NilZero.string_of_int (Z.to_int z)).

(** Items with commas between them. *)
Fixpoint join (items : list text) : text :=
  match items with
  | [] => []
  | [x] => x
  | x :: rest => x ++ ch 44 :: join rest
  end.

Fixpoint print_json (j : json) : text :=
  match j with
  | JNull => chars "null"
  | JBool b => if b then chars "true" else chars "false"
  | JInt z => print_int z
  | JFloat r => chars r
  | JStr s => print_string s
  | JList l => ch 91 :: join (map print_json l) ++ [ch 93]
  | JObj d => ch 123 :: join (map (λ p, print_string p.1 ++ ch 58 :: print_json p.2) d) ++ [ch 125]
  end.

(** ** Parsing *)

Definition is_ws (c : ascii) : bool :=
  let n := code c in (n =? 32) || (n =? 9) || (n =? 10) || (n =? 13).

Fixpoint skip_ws (s : text) : text :=
  match s with
  | c :: rest => if is_ws c then skip_ws rest else s
  | [] => []
  end.

(** The characters of numbers and literals. *)
Definition is_atom_char (c : ascii) : bool :=
  is_lower_char c || is_upper_char c || is_digit_char c ||
  (code c =? 43) || (code c =? 45) || (code c =? 46).

Fixpoint take_atom (s : text) : text * text :=
  match s with
  | c :: rest => if is_atom_char c then let (a, r) := take_atom rest in (c :: a, r) else ([], s)
  | [] => ([], [])
  end.

Fixpoint skip_digits (s : text) : text :=
  match s with
  | c :: rest => if is_digit_char c then skip_digits rest else s
  | [] => []
  end.

(** At least one digit. *)
Definition skip_digits1 (s : text) : option text :=
  match s with
  | c :: rest => if is_digit_char c then Some (skip_digits rest) else None
  | [] => None
  end.

(** A JSON number with a fraction or an exponent: an optional minus, [0] or digits that
    do not start with [0], a dot and digits, [e] or [E] with an optional sign and digits. *)
Definition is_float_text (s : text) : bool :=
  let s := match s with c :: r => if code c =? 45 then r else s | [] => s end in
  let whole := match s with
               | c :: r => if code c =? 48 then Some r else skip_digits1 s
               | [] => None
               end in
  match whole with
  | None => false
  | Some s =>
      let after_fraction := match s with
        | c :: r => if code c =? 46 then skip_digits1 r else Some s
        | [] => None
        end in
      match after_fraction with
      | None => false
      | Some [] => true
      | Some (c :: r) =>
          if (code c =? 101) || (code c =? 69) then
            let r := match r with
                     | d :: r' => if (code d =? 43) || (code d =? 45) then r' else r
                     | [] => r
                     end in
            bool_decide (skip_digits1 r = Some [])
          else false
      end
  end.

(** A number or literal.  A JSON integer is the canonical numeral of its value, or
    [-0]. *)
Definition atom_value (a : text) : option json :=
  let s := String.string_of_list_ascii a in
  let integer := match NilZero.int_of_string s with
                 | Some d => if bool_decide (print_int (Z.of_int d) = a) then Some (Z.of_int d) else None
                 | None => None
                 end in
  match integer with
  | Some z => Some (JInt z)
  | None =>
      if bool_decide (s = "null"%string) then Some JNull
      else if bool_decide (s = "true"%string) then Some (JBool true)
      else if bool_decide (s = "false"%string) then Some (JBool false)
      else if bool_decide (s = "-0"%string) then Some (JInt 0)
      else if is_float_text a || bool_decide (s ∈ ["NaN"; "Infinity"; "-Infinity"]%string)
      then Some (JFloat s)
      else None
  end.

Definition hex_val (c : ascii) : option Z :=
  let n := code c in
  if in_range 48 57 n then Some (n - 48)
  else if in_range 97 102 n then Some (n - 87)
  else if in_range 65 70 n then Some (n - 55)
  else None.

Definition unescape (c : ascii) : option ascii :=
  let n := code c in
  if (n =? 34) || (n =? 92) || (n =? 47) then Some c
  else if n =? 98 then Some (ch 8)
  else if n =? 102 then Some (ch 12)
  else if n =? 110 then Some (ch 10)
  else if n =? 114 then Some (ch 13)
  else if n =? 116 then Some (ch 9)
  else None.

(** [\uXXXX]: the code point, when it is below 256. *)
Definition unicode_char (a b c d : ascii) : option ascii :=
  match hex_val a, hex_val b, hex_val c, hex_val d with
  | Some 0, Some 0, Some h, Some l => Some (ch (16 * h + l))
  | _, _, _, _ => None
  end.

(** What follows the opening quote, up to the closing one. *)
Fixpoint parse_string (s : text) : option (text * text) :=
  match s with
  | [] => None
  | c :: rest =>
      if code c =? 34 then Some ([], rest)
      else if code c =? 92 then
        match rest with
        | u :: ((a :: b :: d :: e :: after) as simple) =>
            if code u =? 117 then
              x ← unicode_char a b d e; '(t, r) ← parse_string after; Some (x :: t, r)
            else x ← unescape u; '(t, r) ← parse_string simple; Some (x :: t, r)
        | u :: simple => x ← unescape u; '(t, r) ← parse_string simple; Some (x :: t, r)
        | [] => None
        end
      else if code c <? 32 then None
      else '(t, r) ← parse_string rest; Some (c :: t, r)
  end.

Definition starts (n : Z) (s : text) : bool :=
  match s with c :: _ => code c =? n | [] => false end.

Fixpoint parse_value (fuel : nat) (s : text) {struct fuel} : option (json * text) :=
  match fuel with
  | O => None
  | S fuel =>
      if starts 34 s then
        '(t, r) ← parse_string (tail s); Some (JStr (String.string_of_list_ascii t), r)
      else if starts 91 s then
        let r := skip_ws (tail s) in
        if starts 93 r then Some (JList [], tail r)
        else '(l, r) ← parse_items fuel r; Some (JList l, r)
      else if starts 123 s then
        let r := skip_ws (tail s) in
        if starts 125 r then Some (JObj [], tail r)
        else parse_members fuel [] r
      else let (a, r) := take_atom s in j ← atom_value a; Some (j, r)
  end
with parse_items (fuel : nat) (s : text) {struct fuel} : option (list json * text) :=
  match fuel with
  | O => None
  | S fuel =>
      '(j, r) ← parse_value fuel s;
      let r := skip_ws r in
      if starts 93 r then Some ([j], tail r)
      else if starts 44 r then '(l, r) ← parse_items fuel (skip_ws (tail r)); Some (j :: l, r)
      else None
  end
with parse_members (fuel : nat) (d : list (string * json)) (s : text) {struct fuel}
    : option (json * text) :=
  match fuel with
  | O => None
  | S fuel =>
      if starts 34 s then
        '(k, r) ← parse_string (tail s);
        let r := skip_ws r in
        if starts 58 r then
          '(j, r) ← parse_value fuel (skip_ws (tail r));
          let d := dict_set (String.string_of_list_ascii k) j d in
          let r := skip_ws r in
          if starts 125 r then Some (JObj d, tail r)
          else if starts 44 r then parse_members fuel d (skip_ws (tail r))
          else None
        else None
      else None
  end.

(** [json.loads]. *)
Definition json_loads (s : text) : option json :=
  match parse_value (S (length s)) (skip_ws s) with
  | Some (j, r) => match skip_ws r with [] => Some j | _ => None end
  | None => None
  end.

(** ** Values that are printed and read back *)

(** A float's text is a JSON number (or one of Python's three literals), and a
    dictionary has no key twice. *)
Fixpoint json_ok (j : json) : bool :=
  match j with
  | JFloat r => bool_decide (atom_value (chars r) = Some (JFloat r)) &&
                forallb is_atom_char (chars r)
  | JList l => forallb json_ok l
  | JObj d => bool_decide (NoDup d.*1) && forallb (λ p, json_ok p.2) d
  | _ => true
  end.

Fixpoint json_size (j : json) : nat :=
  match j with
  | JList l => S ((sum_list_with (λ x, S (json_size x)) l))
  | JObj d => S ((sum_list_with (λ p, S (json_size p.2)) d))
  | _ => 1
  end.

Example loads_print_sample :
  let j := JObj [("a", JList [JInt (-12); JFloat "1.5e-7"; JStr (String (ch 233) (String (ch 10) "x"))]);
                 ("b", JObj []); ("c", JNull)]%string in
  json_ok j = true ∧ json_loads (print_json j ++ [ch 10]) = Some j.
Proof. vm_compute. split; reflexivity. Qed.

(** ** Lemmas *)

Lemma ascii_cases (P : ascii → Prop) :
  (∀ n : nat, (n < 256)%nat → P (Ascii.ascii_of_nat n)) → ∀ c, P c.
Proof.
  intros HP c. rewrite <- (Ascii.ascii_nat_embedding c). apply HP, Ascii.nat_ascii_bounded.
Qed.

(** A decidable fact about all characters, by computation. *)
Lemma all_chars (P : ascii → bool) :
  forallb (λ n, P (Ascii.ascii_of_nat n)) (seq 0 256) = true → ∀ c, P c = true.
Proof.
  intros H. rewrite forallb_forall in H. apply ascii_cases. intros n Hn.
  apply H, in_seq. lia.
Qed.

Lemma chars_string_of t : chars (String.string_of_list_ascii t) = t.
Proof. apply String.list_ascii_of_string_of_list_ascii. Qed.

Lemma string_of_chars s : String.string_of_list_ascii (chars s) = s.
Proof. apply String.string_of_list_ascii_of_string. Qed.

Lemma parse_escape c u rest : code c = 92 → (code u =? 117) = false →
  parse_string (c :: u :: rest) =
  (x ← unescape u; '(t, r) ← parse_string rest; Some (x :: t, r)).
Proof.
  intros Hc Hu. destruct rest as [|r1 [|r2 [|r3 [|r4 rest]]]]; simpl; rewrite Hc, ?Hu; done.
Qed.

Lemma parse_unicode c u a b d e rest : code c = 92 → code u = 117 →
  parse_string (c :: u :: a :: b :: d :: e :: rest) =
  (x ← unicode_char a b d e; '(t, r) ← parse_string rest; Some (x :: t, r)).
Proof. intros Hc Hu. simpl. by rewrite Hc, Hu. Qed.

Lemma parse_plain c rest :
  (code c =? 34) = false → (code c =? 92) = false → (code c <? 32) = false →
  parse_string (c :: rest) = ('(t, r) ← parse_string rest; Some (c :: t, r)).
Proof. intros H1 H2 H3. simpl. by rewrite H1, H2, H3. Qed.

Lemma parse_print_char c rest :
  parse_string (print_char c ++ rest) = '(t, r) ← parse_string rest; Some (c :: t, r).
Proof.
  revert rest.
  assert (∀ c, match print_char c with
               | [x] => bool_decide (x = c) && negb (code c =? 34) && negb (code c =? 92) && negb (code c <? 32)
               | [x; u] => (code x =? 92) && negb (code u =? 117) && bool_decide (unescape u = Some c)
               | [x; u; a; b; d; e] => (code x =? 92) && (code u =? 117) &&
                   bool_decide (unicode_char a b d e = Some c)
               | _ => false
               end = true) as Hall.
  { apply all_chars. vm_compute. reflexivity. }
  specialize (Hall c). intros rest.
  destruct (print_char c) as [|x [|u [|a [|b [|d [|e [|f l]]]]]]] eqn:Hp; try done.
  - repeat apply andb_true_iff in Hall as [Hall ?]. apply bool_decide_eq_true in Hall. subst x.
    repeat match goal with H : negb _ = true |- _ => apply negb_true_iff in H end.
    by apply parse_plain.
  - repeat apply andb_true_iff in Hall as [Hall ?]. apply bool_decide_eq_true in H.
    apply negb_true_iff in H0. apply Z.eqb_eq in Hall. change ([x; u] ++ rest) with (x :: u :: rest).
    rewrite parse_escape by done. by rewrite H.
  - repeat apply andb_true_iff in Hall as [Hall ?]. apply bool_decide_eq_true in H.
    apply Z.eqb_eq in Hall, H0. change ([x; u; a; b; d; e] ++ rest) with (x :: u :: a :: b :: d :: e :: rest).
    rewrite parse_unicode by done. by rewrite H.
Qed.

Lemma parse_print_string s rest :
  parse_string (flat_map print_char s ++ ch 34 :: rest) = Some (s, rest).
Proof.
  induction s as [|c s IH]; cbn [flat_map]; [done|].
  rewrite <- (assoc_L (++)), parse_print_char, IH. done.
Qed.

Lemma take_atom_app a rest :
  forallb is_atom_char a = true → (∀ c t, rest = c :: t → is_atom_char c = false) →
  take_atom (a ++ rest) = (a, rest).
Proof.
  intros Ha Hrest. induction a as [|c a IH]; cbn in *.
  - destruct rest as [|c t]; [done|]. cbn. by rewrite (Hrest c t).
  - apply andb_true_iff in Ha as [-> Ha]. by rewrite IH.
Qed.

Lemma take_atom_spec s : ∀ a r, take_atom s = (a, r) →
  s = a ++ r ∧ forallb is_atom_char a = true ∧ (∀ c t, r = c :: t → is_atom_char c = false).
Proof.
  induction s as [|c s IH]; intros a r; cbn; [by intros [= <- <-]|].
  destruct (is_atom_char c) eqn:Hc.
  - destruct (take_atom s) as [a' r']. intros [= <- <-].
    destruct (IH a' r' eq_refl) as (-> & Ha & Hr). cbn. by rewrite Hc, Ha.
  - intros [= <- <-]. split_and!; [done|done|]. by intros ? ? [= <- <-].
Qed.

Lemma print_uint_atoms d : forallb is_atom_char (chars (NilZero.string_of_uint d)) = true.
Proof.
  assert (∀ d, forallb is_atom_char (chars (NilEmpty.string_of_uint d)) = true) as H.
  { induction d0 as [|d0 IH|d0 IH|d0 IH|d0 IH|d0 IH|d0 IH|d0 IH|d0 IH|d0 IH|d0 IH]; [done|exact IH..]. }
  destruct d; [done|apply H..].
Qed.

Lemma print_int_atoms z : forallb is_atom_char (print_int z) = true.
Proof. unfold print_int. destruct (Z.to_int z) as [d|d]; cbn; apply print_uint_atoms. Qed.

Lemma atom_value_int z : atom_value (print_int z) = Some (JInt z).
Proof.
  unfold atom_value. unfold print_int at 1 2. rewrite string_of_chars.
  rewrite NilZero.isi; [|by destruct z; cbn; try done; intros [= ?%Unsigned.to_uint_nonnil]..].
  rewrite DecimalZ.of_to. by rewrite bool_decide_eq_true_2.
Qed.

(** A printed value starts with a character of its own. *)
Definition opens (c : ascii) : Prop :=
  is_ws c = false ∧ code c ≠ 93 ∧ code c ≠ 125 ∧ code c ≠ 44 ∧ code c ≠ 58.

Lemma atom_opens c : is_atom_char c = true →
  opens c ∧ code c ≠ 34 ∧ code c ≠ 91 ∧ code c ≠ 123.
Proof.
  assert (∀ c, implb (is_atom_char c)
    (negb (is_ws c) && negb (code c =? 93) && negb (code c =? 125) && negb (code c =? 44) &&
     negb (code c =? 58) && negb (code c =? 34) && negb (code c =? 91) && negb (code c =? 123)) = true) as H.
  { apply all_chars. vm_compute. reflexivity. }
  specialize (H c). intros Hc. rewrite Hc in H. cbn [implb] in H.
  repeat apply andb_true_iff in H as [H ?].
  repeat match goal with H : negb _ = true |- _ => apply negb_true_iff in H end.
  repeat match goal with H : (_ =? _) = false |- _ => apply Z.eqb_neq in H end. done.
Qed.

Lemma float_atoms r : json_ok (JFloat r) = true →
  atom_value (chars r) = Some (JFloat r) ∧ forallb is_atom_char (chars r) = true ∧ chars r ≠ [].
Proof.
  cbn. intros [H1%bool_decide_eq_true H2]%andb_true_iff. split_and!; [done|done|].
  intros Hr. rewrite Hr in H1. vm_compute in H1. discriminate.
Qed.

(** The printed form of what is neither a string, a list nor a dictionary. *)
Definition delimited (j : json) : bool :=
  match j with JStr _ | JList _ | JObj _ => true | _ => false end.

Lemma print_atom j : json_ok j = true → delimited j = false →
  atom_value (print_json j) = Some j ∧ forallb is_atom_char (print_json j) = true ∧ print_json j ≠ [].
Proof.
  intros Hok Hj. destruct j as [|b|z|r| | |]; try done.
  - by destruct b.
  - cbn [print_json]. split_and!; [apply atom_value_int|apply print_int_atoms|].
    intros Hz. pose proof (atom_value_int z) as Ha. rewrite Hz in Ha. vm_compute in Ha. discriminate.
  - by apply float_atoms.
Qed.

Lemma print_head j : json_ok j = true → ∃ c t, print_json j = c :: t ∧ opens c.
Proof.
  intros Hok. destruct (delimited j) eqn:Hj.
  - destruct j; try done; eexists _, _; (split; [reflexivity|]); split_and!; try reflexivity; discriminate.
  - destruct (print_atom j Hok Hj) as (_ & Ha & Hne). destruct (print_json j) as [|c t]; [done|].
    cbn in Ha. apply andb_true_iff in Ha as [Hc _]. exists c, t. split; [done|]. by apply atom_opens.
Qed.

Lemma starts_head n c t : starts n (c :: t) = (code c =? n).
Proof. done. Qed.

Lemma skip_ws_opens c t : opens c → skip_ws (c :: t) = c :: t.
Proof. intros [Hc _]. cbn. by rewrite Hc. Qed.

Lemma skip_ws_print j rest : json_ok j = true → skip_ws (print_json j ++ rest) = print_json j ++ rest.
Proof. intros (c & t & -> & Hc)%print_head. by apply skip_ws_opens. Qed.

(** What may follow an atom. *)
Definition ends_atom (rest : text) : Prop := ∀ c t, rest = c :: t → is_atom_char c = false.

Lemma ends_atom_nil : ends_atom [].
Proof. by intros c t. Qed.

Lemma ends_atom_cons c t : is_atom_char c = false → ends_atom (c :: t).
Proof. by intros H ? ? [= <- <-]. Qed.

Lemma parse_atom n a rest j :
  a ≠ [] → forallb is_atom_char a = true → atom_value a = Some j → ends_atom rest →
  parse_value (S n) (a ++ rest) = Some (j, rest).
Proof.
  intros Hne Ha Hj Hrest. cbn [parse_value]. destruct a as [|c a]; [done|].
  pose proof Ha as Ha'. cbn in Ha'. apply andb_true_iff in Ha' as [Hc _].
  destruct (atom_opens c Hc) as (_ & H1 & H2 & H3). change ((c :: a) ++ rest) with (c :: a ++ rest).
  rewrite !starts_head. apply Z.eqb_neq in H1, H2, H3. rewrite H1, H2, H3.
  change (c :: a ++ rest) with ((c :: a) ++ rest). rewrite take_atom_app by done. by rewrite Hj.
Qed.

Lemma dict_set_fresh k v d : k ∉ d.*1 → dict_set k v d = d ++ [(k, v)].
Proof.
  induction d as [|[k' v'] d IH]; [done|]. cbn. intros [Hk Hd]%not_elem_of_cons.
  rewrite bool_decide_eq_false_2 by done. by rewrite IH.
Qed.

(** ** Round trip *)

Definition parses (j : json) : Prop :=
  json_ok j = true → ∀ n rest, (json_size j ≤ n)%nat → (delimited j = true ∨ ends_atom rest) →
  parse_value n (print_json j ++ rest) = Some (j, rest).

Lemma parse_print_items l : Forall parses l → l ≠ [] → forallb json_ok l = true →
  ∀ n rest, (sum_list_with (λ x, S (json_size x)) l ≤ n)%nat →
  parse_items n (join (map print_json l) ++ ch 93 :: rest) = Some (l, rest).
Proof.
  induction 1 as [|j l Hj Hl IH]; [done|]. intros _ [Hok Hoks]%andb_true_iff n rest Hn.
  cbn in Hn. destruct n as [|n]; [lia|]. destruct l as [|j2 l].
  - cbn [map join parse_items]. rewrite Hj; [|done|cbn in Hn; lia|by right; apply ends_atom_cons]. done.
  - cbn [map join] in *. rewrite <- (assoc_L (++)). cbn [parse_items].
    change ((ch 44 :: ?x) ++ ?y) with (ch 44 :: (x ++ y)).
    rewrite Hj; [|done|lia|by right; apply ends_atom_cons]. cbn [mbind option_bind].
    change (skip_ws (ch 44 :: ?x)) with (ch 44 :: x). cbn [tail].
    change (starts 93 (ch 44 :: ?x)) with false. change (starts 44 (ch 44 :: ?x)) with true. cbv iota.
    assert (∀ t, skip_ws ((match map print_json l with [] => print_json j2
                           | _ => print_json j2 ++ ch 44 :: join (map print_json l) end) ++ t) =
                 (match map print_json l with [] => print_json j2
                           | _ => print_json j2 ++ ch 44 :: join (map print_json l) end) ++ t) as Hskip.
    { intros t. apply andb_true_iff in Hoks as [Hok2 _]. destruct (map print_json l); [by apply skip_ws_print|].
      rewrite <- (assoc_L (++)). by apply skip_ws_print. }
    cbn [map join] in IH |- *. rewrite Hskip. rewrite IH; [done|done|done|lia].
Qed.

Definition print_member (p : string * json) : text := print_string p.1 ++ ch 58 :: print_json p.2.

Lemma parse_print_member n k j d t :
  parses j → json_ok j = true → (json_size j ≤ n)%nat → (delimited j = true ∨ ends_atom t) →
  parse_members (S n) d (print_member (k, j) ++ t) =
  (let d := dict_set k j d in
   let r := skip_ws t in
   if starts 125 r then Some (JObj d, tail r)
   else if starts 44 r then parse_members n d (skip_ws (tail r))
   else None).
Proof.
  intros Hj Hok Hn Ht. unfold print_member, print_string. cbn [fst snd].
  rewrite <- !(assoc_L (++)). cbn [parse_members].
  change (((ch 34 :: ?a) ++ ?b)) with (ch 34 :: (a ++ b)). rewrite <- (assoc_L (++)).
  change (starts 34 (ch 34 :: ?x)) with true. cbn [tail]. cbv iota.
  change (([ch 34] ++ ?x)) with (ch 34 :: x). rewrite parse_print_string. cbn [mbind option_bind].
  change ((ch 58 :: ?x) ++ ?y) with (ch 58 :: (x ++ y)).
  change (skip_ws (ch 58 :: ?x)) with (ch 58 :: x). cbv zeta.
  change (starts 58 (ch 58 :: ?x)) with true. cbv iota. cbn [tail].
  rewrite skip_ws_print, Hj by done. cbn [mbind option_bind]. by rewrite string_of_chars.
Qed.

Lemma parse_print_members l : Forall (λ p, parses p.2) l → l ≠ [] → forallb (λ p, json_ok p.2) l = true →
  ∀ n d rest, (sum_list_with (λ p, S (json_size p.2)) l ≤ n)%nat → NoDup (d.*1 ++ l.*1) →
  parse_members n d (join (map print_member l) ++ ch 125 :: rest) = Some (JObj (d ++ l), rest).
Proof.
  induction 1 as [|[k j] l Hj Hl IH]; [done|]. intros _ [Hok Hoks]%andb_true_iff n d rest Hn Hnd.
  cbn in Hn. destruct n as [|n]; [lia|].
  assert (dict_set k j d = d ++ [(k, j)]) as Hset.
  { apply dict_set_fresh. intros Hk. apply NoDup_app in Hnd as (_ & Hnd & _).
    apply (Hnd _ Hk). cbn. apply list_elem_of_here. }
  destruct l as [|[k2 j2] l].
  - cbn [map join]. rewrite parse_print_member; [|done|done|lia|by right; apply ends_atom_cons].
    cbv zeta. by rewrite Hset.
  - change (join (map print_member ((k, j) :: (k2, j2) :: l))) with
      (print_member (k, j) ++ ch 44 :: join (map print_member ((k2, j2) :: l))).
    rewrite <- (assoc_L (++)). rewrite parse_print_member; [|done|done|lia|by right; apply ends_atom_cons].
    change ((ch 44 :: ?x) ++ ?y) with (ch 44 :: (x ++ y)). cbv zeta.
    change (skip_ws (ch 44 :: ?x)) with (ch 44 :: x). cbn [tail].
    change (starts 125 (ch 44 :: ?x)) with false. change (starts 44 (ch 44 :: ?x)) with true. cbv iota.
    assert (∀ t, skip_ws (join (map print_member ((k2, j2) :: l)) ++ t) =
                 join (map print_member ((k2, j2) :: l)) ++ t) as Hskip.
    { intros t. cbn [map join]. by destruct (map print_member l). }
    rewrite Hskip, Hset. rewrite IH; [|done|done|lia|].
    + by rewrite <- (assoc_L (++)).
    + rewrite fmap_app, <- (assoc_L (++)). exact Hnd.
Qed.

Lemma print_obj d : print_json (JObj d) = ch 123 :: join (map print_member d) ++ [ch 125].
Proof. done. Qed.

Lemma parse_print j : parses j.
Proof.
  induction j as [|b|z|r|s|l IH|d IH] using json_ind'; intros Hok n rest Hn Hrest;
    try (destruct Hrest as [Hrest|Hrest]; [discriminate Hrest|]);
    try (destruct n as [|n]; [cbn in Hn; lia|];
         apply parse_atom; [by apply print_atom|by apply print_atom|by apply print_atom|exact Hrest]).
  - destruct n as [|n]; [cbn in Hn; lia|]. cbn [print_json]. unfold print_string.
    change ((ch 34 :: ?x) ++ ?y) with (ch 34 :: (x ++ y)). rewrite <- (assoc_L (++)). cbn [parse_value].
    change (starts 34 (ch 34 :: ?x)) with true. cbv iota. cbn [tail].
    change (([ch 34] ++ ?x)) with (ch 34 :: x). rewrite parse_print_string. cbn [mbind option_bind].
    by rewrite string_of_chars.
  - cbn in Hn. destruct n as [|n]; [lia|]. cbn [print_json].
    change ((ch 91 :: ?x) ++ ?y) with (ch 91 :: (x ++ y)). rewrite <- (assoc_L (++)). cbn [parse_value].
    change (starts 34 (ch 91 :: ?x)) with false. change (starts 91 (ch 91 :: ?x)) with true. cbv iota.
    cbn [tail]. cbn in Hok. destruct l as [|j l]; [done|].
    assert (∀ t, skip_ws (join (map print_json (j :: l)) ++ t) = join (map print_json (j :: l)) ++ t ∧
                 starts 93 (join (map print_json (j :: l)) ++ t) = false) as Hskip.
    { intros t. apply andb_true_iff in Hok as [Hok _]. destruct (print_head j Hok) as (c & x & Hp & Hc).
      cbn [map join]. rewrite Hp. destruct (map print_json l); rewrite <- ?app_comm_cons.
      all: split; [by apply skip_ws_opens|]; rewrite starts_head; apply Z.eqb_neq, Hc. }
    destruct (Hskip ([ch 93] ++ rest)) as [-> ->]. cbv iota zeta.
    change ([ch 93] ++ rest) with (ch 93 :: rest). rewrite (parse_print_items (j :: l)); [done|done|done|done|lia].
  - cbn in Hn. destruct n as [|n]; [lia|]. rewrite print_obj.
    change ((ch 123 :: ?x) ++ ?y) with (ch 123 :: (x ++ y)). rewrite <- (assoc_L (++)). cbn [parse_value].
    change (starts 34 (ch 123 :: ?x)) with false. change (starts 91 (ch 123 :: ?x)) with false.
    change (starts 123 (ch 123 :: ?x)) with true. cbv iota. cbn [tail].
    cbn in Hok. apply andb_true_iff in Hok as [Hnd%bool_decide_eq_true Hok]. destruct d as [|[k j] d]; [done|].
    assert (∀ t, skip_ws (join (map print_member ((k, j) :: d)) ++ t) = join (map print_member ((k, j) :: d)) ++ t ∧
                 starts 125 (join (map print_member ((k, j) :: d)) ++ t) = false) as Hskip.
    { intros t. cbn [map join]. by destruct (map print_member d). }
    destruct (Hskip ([ch 125] ++ rest)) as [-> ->]. cbv iota zeta.
    apply (parse_print_members ((k, j) :: d)); [done|done|done|lia|done].
Qed.

(** The length of the text is enough fuel. *)
Lemma size_join {A} (f : A → text) (g : A → nat) l :
  Forall (λ x, (g x ≤ length (f x))%nat) l →
  (sum_list_with (λ x, S (g x)) l ≤ S (length (join (map f l))))%nat.
Proof.
  induction 1 as [|x l Hx Hl IH]; cbn; [lia|].
  destruct l as [|y l]; cbn in *; [lia|]. rewrite length_app. cbn. lia.
Qed.

Lemma size_print j : json_ok j = true → (json_size j ≤ length (print_json j))%nat.
Proof.
  induction j as [|b|z|r|s|l IH|d IH] using json_ind'; intros Hok.
  1-4: destruct (print_atom _ Hok eq_refl) as (_ & _ & Hne); cbn [json_size];
       match goal with |- (_ ≤ length ?x)%nat => by destruct x; [|cbn; lia] end.
  - cbn. lia.
  - cbn [json_size print_json length]. rewrite length_app. cbn [length].
    cbn in Hok. rewrite forallb_forall in Hok.
    assert (sum_list_with (λ x, S (json_size x)) l ≤ S (length (join (map print_json l))))%nat; [|lia].
    apply size_join. rewrite Forall_forall in IH |- *. intros x Hx. apply IH; [done|].
    apply Hok. by apply list_elem_of_In.
  - rewrite print_obj. cbn [json_size length]. rewrite length_app. cbn [length].
    cbn in Hok. apply andb_true_iff in Hok as [_ Hok]. rewrite forallb_forall in Hok.
    assert (sum_list_with (λ p, S (json_size p.2)) d ≤ S (length (join (map print_member d))))%nat; [|lia].
    apply size_join. rewrite Forall_forall in IH |- *. intros x Hx. unfold print_member.
    rewrite length_app. cbn [length].
    assert (json_size x.2 ≤ length (print_json x.2))%nat; [|lia].
    apply IH; [done|]. apply Hok. by apply list_elem_of_In.
Qed.

(** Reading a printed value, followed by white space. *)
Lemma loads_print j t : json_ok j = true → skip_ws t = [] → json_loads (print_json j ++ t) = Some j.
Proof.
  intros Hok Ht. unfold json_loads. rewrite skip_ws_print by done.
  rewrite parse_print; [by rewrite Ht|done| |].
  - rewrite length_app. pose proof (size_print j Hok). lia.
  - right. intros c x ->. cbn in Ht. destruct (is_ws c) eqn:Hc; [|done].
    revert Hc. clear. revert c. assert (∀ c, implb (is_ws c) (negb (is_atom_char c)) = true) as H.
    { apply all_chars. vm_compute. reflexivity. }
    intros c Hc. specialize (H c). rewrite Hc in H. by apply negb_true_iff.
Qed.

(** ** A text that was cut off, or that goes on *)

(** The steps of [parse_string], by the kind of the first character. *)
Lemma parse_string_ind (P : text → Prop) :
  P [] → (∀ c, P [c]) →
  (∀ c u simple, P simple → P (drop 4 simple) → P (u :: simple) → P (c :: u :: simple)) →
  ∀ s, P s.
Proof.
  intros Hnil Hone Hstep s.
  assert (∀ n s, (length s ≤ n)%nat → P s) as H; [|by eapply H].
  clear s. induction n as [|n IH]; intros [|c [|u s]] Hn; cbn in Hn; try done; try lia.
  apply Hstep; apply IH; cbn; rewrite ?length_drop; lia.
Qed.

Lemma bind_some {A B} (m : option A) (f : A → option B) b :
  m ≫= f = Some b → ∃ a, m = Some a ∧ f a = Some b.
Proof. destruct m as [a|]; [|done]. by exists a. Qed.

Lemma parse_string_ext s q : ∀ t r, parse_string s = Some (t, r) → parse_string (s ++ q) = Some (t, r ++ q).
Proof.
  induction s as [|c|c u s IH1 IH2 IH3] using parse_string_ind; intros t r.
  - done.
  - cbn. destruct (code c =? 34); [|by destruct (code c =? 92); [|destruct (code c <? 32)]].
    by intros [= <- <-].
  - change ((c :: u :: s) ++ q) with (c :: u :: (s ++ q)).
    destruct (code c =? 34) eqn:H34; [cbn; rewrite H34; by intros [= <- <-]|].
    destruct (code c =? 92) eqn:H92.
    + apply Z.eqb_eq in H92. destruct (code u =? 117) eqn:Hu.
      * destruct s as [|a [|b [|d [|e s]]]];
          try (simpl; rewrite H92, ?Hu; cbn; unfold unescape; apply Z.eqb_eq in Hu; rewrite Hu; done).
        change ((a :: b :: d :: e :: s) ++ q) with (a :: b :: d :: e :: (s ++ q)).
        apply Z.eqb_eq in Hu. rewrite !parse_unicode by done.
        destruct (unicode_char a b d e); [|done]. cbn. intros ([t' r'] & Hp & [= <- <-])%bind_some.
        cbn [drop] in IH2; rewrite ?drop_0 in IH2. apply IH2 in Hp. by rewrite Hp.
      * rewrite !parse_escape by done. destruct (unescape u); [|done]. cbn.
        intros ([t' r'] & Hp & [= <- <-])%bind_some. apply IH1 in Hp. by rewrite Hp.
    + destruct (code c <? 32) eqn:H32; [simpl; by rewrite H34, H92, H32|].
      rewrite !parse_plain by done. intros ([t' r'] & Hp & [= <- <-])%bind_some.
      apply IH3 in Hp. change (u :: s ++ q) with ((u :: s) ++ q). by rewrite parse_plain, Hp by done.
Qed.

Lemma skip_ws_ext s q : skip_ws s ≠ [] → skip_ws (s ++ q) = skip_ws s ++ q.
Proof.
  induction s as [|c s IH]; [done|]. cbn. destruct (is_ws c); [apply IH|done].
Qed.

Lemma starts_ext n s q : s ≠ [] → starts n (s ++ q) = starts n s.
Proof. by destruct s. Qed.

Lemma starts_nonempty n s : starts n s = true → s ≠ [].
Proof. by destruct s. Qed.

Lemma tail_ext (s q : text) : s ≠ [] → tail (s ++ q) = tail s ++ q.
Proof. by destruct s. Qed.

Lemma take_atom_ext s a r q : take_atom s = (a, r) → r ≠ [] → take_atom (s ++ q) = (a, r ++ q).
Proof.
  intros (-> & Ha & Hr)%take_atom_spec Hne. rewrite <- (assoc_L (++)). apply take_atom_app; [done|].
  intros c t Heq. destruct r as [|c' r]; [done|]. by apply (Hr c r); simplify_eq/=.
Qed.

Lemma atom_value_delimited a j : atom_value a = Some j → delimited j = false.
Proof.
  unfold atom_value. intros H.
  repeat match type of H with
  | match ?x with _ => _ end = _ => destruct x; [injection H as <-; reflexivity|]
  | (if ?x then _ else _) = _ => destruct x; [injection H as <-; reflexivity|]
  end. discriminate H.
Qed.

Lemma parse_items_ends n : ∀ s l r, parse_items n s = Some (l, r) → l ≠ [].
Proof.
  induction n as [|n IH]; [done|]. intros s l r. cbn [parse_items].
  intros ([j r1] & _ & H)%bind_some. cbv zeta in H. destruct (starts 93 _); [by simplify_eq|].
  destruct (starts 44 _); [|done]. apply bind_some in H as ([l' r'] & _ & H). by simplify_eq.
Qed.

Lemma parse_members_object n : ∀ d s j r, parse_members n d s = Some (j, r) → delimited j = true.
Proof.
  induction n as [|n IH]; [done|]. intros d s j r. cbn [parse_members]. destruct (starts 34 s); [|done].
  intros ([k r1] & _ & H)%bind_some. cbv zeta in H. destruct (starts 58 _); [|done].
  apply bind_some in H as ([j' r2] & _ & H). destruct (starts 125 _); [by simplify_eq|].
  destruct (starts 44 _); [|done]. by eapply IH.
Qed.

Lemma parse_value_nil n : parse_value n [] = None.
Proof. by destruct n. Qed.

Lemma parse_items_nil n : parse_items n [] = None.
Proof. destruct n; [done|]. cbn [parse_items]. by rewrite parse_value_nil. Qed.

Lemma parse_members_nil n d : parse_members n d [] = None.
Proof. by destruct n. Qed.

(** A parse does not change when the text goes on, unless it ended in an atom at the
    end of the text. *)
Lemma parse_ext n :
  (∀ s j r q, parse_value n s = Some (j, r) → (delimited j = true ∨ r ≠ []) →
     parse_value n (s ++ q) = Some (j, r ++ q)) ∧
  (∀ s l r q, parse_items n s = Some (l, r) → parse_items n (s ++ q) = Some (l, r ++ q)) ∧
  (∀ d s j r q, parse_members n d s = Some (j, r) → parse_members n d (s ++ q) = Some (j, r ++ q)).
Proof.
  induction n as [|n (IHv & IHi & IHm)]; [done|]. split_and!.
  - intros s j r q. destruct s as [|c s]; [done|]. change ((c :: s) ++ q) with (c :: (s ++ q)).
    cbn [parse_value]. rewrite !starts_head. cbn [tail].
    destruct (code c =? 34).
    { intros ([t r1] & Hp & [= <- <-])%bind_some _. by rewrite (parse_string_ext _ q _ _ Hp). }
    destruct (code c =? 91); [|destruct (code c =? 123)].
    + cbv zeta. destruct (skip_ws s) as [|c1 s1] eqn:Hs; [by rewrite parse_items_nil|].
      rewrite skip_ws_ext, Hs, starts_ext, tail_ext by (by rewrite ?Hs).
      destruct (starts 93 (c1 :: s1)); [by intros [= <- <-]|].
      intros ([l r1] & Hp & [= <- <-])%bind_some _. by rewrite (IHi _ _ _ q Hp).
    + cbv zeta. destruct (skip_ws s) as [|c1 s1] eqn:Hs; [by rewrite parse_members_nil|].
      rewrite skip_ws_ext, Hs, starts_ext, tail_ext by (by rewrite ?Hs).
      destruct (starts 125 (c1 :: s1)); [by intros [= <- <-]|]. intros Hp _. by apply IHm.
    + change (c :: s ++ q) with ((c :: s) ++ q). destruct (take_atom (c :: s)) as [a r1] eqn:Ha.
      intros (j' & Hj & [= <- <-])%bind_some Hend.
      destruct Hend as [Hd|Hr]; [by rewrite (atom_value_delimited _ _ Hj) in Hd|].
      rewrite (take_atom_ext _ _ _ q Ha Hr). by rewrite Hj.
  - intros s l r q. cbn [parse_items]. intros ([j r1] & Hv & H)%bind_some. cbv zeta in *.
    destruct (skip_ws r1) as [|c r2] eqn:Hr; [done|].
    rewrite (IHv _ _ _ q Hv) by (right; intros ->; done). cbn [mbind option_bind].
    rewrite skip_ws_ext, Hr, !starts_ext, tail_ext by (by rewrite ?Hr).
    destruct (starts 93 _); [by simplify_eq|]. destruct (starts 44 _); [|done].
    apply bind_some in H as ([l' r'] & Hi & [= <- <-]). cbn [tail] in *.
    destruct (skip_ws r2) as [|c3 r3] eqn:Hr2; [by rewrite parse_items_nil in Hi|].
    rewrite skip_ws_ext, Hr2 by (by rewrite Hr2). by rewrite (IHi _ _ _ q Hi).
  - intros d s j r q. cbn [parse_members]. destruct (starts 34 s) eqn:Hs; [|done].
    pose proof (starts_nonempty _ _ Hs) as Hne. rewrite starts_ext, Hs, tail_ext by done.
    intros ([k r1] & Hk & H)%bind_some. rewrite (parse_string_ext _ q _ _ Hk). cbn [mbind option_bind].
    cbv zeta in *. destruct (starts 58 (skip_ws r1)) eqn:H58; [|done].
    pose proof (starts_nonempty _ _ H58) as Hne1. rewrite skip_ws_ext, starts_ext, H58, tail_ext by done.
    apply bind_some in H as ([j1 r2] & Hv & H).
    assert (skip_ws (tail (skip_ws r1)) ≠ []) as Hne2 by (intros He; by rewrite He, parse_value_nil in Hv).
    rewrite skip_ws_ext by done.
    destruct (skip_ws r2) as [|c3 r3] eqn:Hr2; [done|].
    rewrite (IHv _ _ _ q Hv) by (right; intros ->; done). cbn [mbind option_bind].
    rewrite skip_ws_ext, Hr2, !starts_ext, tail_ext by (by rewrite ?Hr2). cbn [tail] in *.
    destruct (starts 125 _); [by simplify_eq|]. destruct (starts 44 _); [|done].
    destruct (skip_ws r3) as [|c4 r4] eqn:Hr3; [by rewrite parse_members_nil in H|].
    rewrite skip_ws_ext, Hr3 by (by rewrite Hr3). by apply IHm.
Qed.

(** More fuel does not change a parse. *)
Lemma parse_fuel n : ∀ m, (n ≤ m)%nat →
  (∀ s x, parse_value n s = Some x → parse_value m s = Some x) ∧
  (∀ s x, parse_items n s = Some x → parse_items m s = Some x) ∧
  (∀ d s x, parse_members n d s = Some x → parse_members m d s = Some x).
Proof.
  induction n as [|n IH]; [done|]. intros [|m] Hm; [lia|]. apply le_S_n in Hm.
  destruct (IH m Hm) as (IHv & IHi & IHm). split_and!.
  - intros s x. cbn [parse_value]. destruct (starts 34 s); [done|]. destruct (starts 91 s).
    + cbv zeta. destruct (starts 93 _); [done|]. intros (y & Hy & H)%bind_some. by rewrite (IHi _ _ Hy).
    + destruct (starts 123 s); [|done]. cbv zeta. destruct (starts 125 _); [done|]. apply IHm.
  - intros s x. cbn [parse_items]. intros ([j r] & Hy & H)%bind_some. rewrite (IHv _ _ Hy).
    cbn [mbind option_bind]. cbv zeta in *. destruct (starts 93 _); [done|]. destruct (starts 44 _); [|done].
    apply bind_some in H as (y & Hi & H). by rewrite (IHi _ _ Hi).
  - intros d s x. cbn [parse_members]. destruct (starts 34 s); [|done].
    intros ([k r] & Hk & H)%bind_some. rewrite Hk. cbn [mbind option_bind]. cbv zeta in *.
    destruct (starts 58 _); [|done]. apply bind_some in H as ([j r2] & Hv & H). rewrite (IHv _ _ Hv).
    cbn [mbind option_bind]. destruct (starts 125 _); [done|]. destruct (starts 44 _); [|done].
    by apply IHm.
Qed.

(** What is left of a printed dictionary when its end is cut off cannot be read. *)
Lemma loads_cut d p q : json_ok (JObj d) = true → print_json (JObj d) = p ++ q → q ≠ [] →
  json_loads p = None.
Proof.
  intros Hok Hp Hq. unfold json_loads. destruct p as [|c p]; [done|].
  assert (c = ch 123) as -> by (rewrite print_obj in Hp; by simplify_eq/=).
  change (skip_ws (ch 123 :: p)) with (ch 123 :: p).
  destruct (parse_value _ _) as [[j r]|] eqn:Hv; [|done].
  destruct (skip_ws r) as [|c1 r1] eqn:Hr; [|done]. exfalso.
  assert (delimited j = true) as Hd.
  { cbn [parse_value] in Hv. change (starts 34 (ch 123 :: ?x)) with false in Hv.
    change (starts 91 (ch 123 :: ?x)) with false in Hv. change (starts 123 (ch 123 :: ?x)) with true in Hv.
    cbv iota zeta in Hv. destruct (starts 125 _); [by simplify_eq|]. by eapply parse_members_object. }
  apply (proj1 (parse_ext _)) with (q := q) in Hv; [|by left]. rewrite <- Hp in Hv.
  pose proof (parse_print (JObj d) Hok (S (length (ch 123 :: p)) + json_size (JObj d))%nat []) as Hprint.
  rewrite app_nil_r in Hprint.
  apply (proj1 (parse_fuel (S (length (ch 123 :: p))) (S (length (ch 123 :: p)) + json_size (JObj d))%nat ltac:(lia))) in Hv.
  rewrite Hprint in Hv by (lia || by left). simplify_eq. by destruct r.
Qed.

(** A printed dictionary that is followed by more than white space cannot be read. *)
Lemma loads_more d t : json_ok (JObj d) = true → skip_ws t ≠ [] →
  json_loads (print_json (JObj d) ++ t) = None.
Proof.
  intros Hok Ht. unfold json_loads. rewrite skip_ws_print by done.
  rewrite parse_print; [|done| |by left].
  - by destruct (skip_ws t).
  - rewrite length_app. pose proof (size_print _ Hok). lia.
Qed.

(** A printed value is one line of printable ASCII. *)
Definition printable (c : ascii) : bool := (32 <=? code c) && (code c <=? 126).

Lemma print_string_printable s : forallb printable (print_string s) = true.
Proof.
  unfold print_string. cbn [forallb]. rewrite forallb_app. cbn.
  assert (∀ c, forallb printable (print_char c) = true) as H by (apply all_chars; vm_compute; reflexivity).
  assert (forallb printable (flat_map print_char (chars s)) = true) as ->; [|done].
  induction (chars s) as [|c l IH]; [done|]. cbn [flat_map]. by rewrite forallb_app, H, IH.
Qed.

Lemma atoms_printable a : forallb is_atom_char a = true → forallb printable a = true.
Proof.
  assert (∀ c, implb (is_atom_char c) (printable c) = true) as H by (apply all_chars; vm_compute; reflexivity).
  intros Ha. rewrite forallb_forall in Ha |- *. intros c Hc. specialize (H c). by rewrite (Ha _ Hc) in H.
Qed.

Lemma join_printable l : Forall (λ x, forallb printable x = true) l → forallb printable (join l) = true.
Proof.
  induction 1 as [|x l Hx Hl IH]; [done|]. destruct l as [|y l]; [done|].
  change (forallb printable (x ++ ch 44 :: join (y :: l)) = true). by rewrite forallb_app, Hx.
Qed.

Lemma print_printable j : json_ok j = true → forallb printable (print_json j) = true.
Proof.
  induction j as [|b|z|r|s|l IH|d IH] using json_ind'; intros Hok.
  1-4: destruct (print_atom _ Hok eq_refl) as (_ & Ha & _); by apply atoms_printable.
  - apply print_string_printable.
  - cbn [print_json forallb]. rewrite forallb_app, join_printable; [done|].
    cbn in Hok. rewrite forallb_forall in Hok. rewrite Forall_forall in IH. apply Forall_forall.
    intros x (y & -> & Hy)%list_elem_of_fmap. apply IH; [done|]. by apply Hok, list_elem_of_In.
  - rewrite print_obj. cbn [forallb]. rewrite forallb_app, join_printable; [done|].
    cbn in Hok. apply andb_true_iff in Hok as [_ Hok]. rewrite forallb_forall in Hok.
    rewrite Forall_forall in IH. apply Forall_forall.
    intros x (y & -> & Hy)%list_elem_of_fmap. unfold print_member. rewrite forallb_app.
    cbn [forallb]. rewrite print_string_printable, IH; [done|done|]. by apply Hok, list_elem_of_In.
Qed.
