(* ===== verification/PyFloat.v ===== *)
(** Python floats: IEEE 754 binary64 values in the standard library's
    executable specification [spec_float] (53-bit significand, exponent bound
    1024), with the operations the program uses. *)

From S2P Require Import Prelude.
From Stdlib Require Import SpecFloat.
Open Scope Z_scope.

Definition float64 : Type := spec_float.

Definition fl_prec : Z := 53.
Definition fl_emax : Z := 1024.

(** [math.isfinite]. *)
Definition fl_finite (x : float64) : bool :=
  match x with S754_zero _ | S754_finite _ _ _ => true | _ => false end.

Definition fl_zero : float64 := S754_zero false.
Definition fl_eqb (x y : float64) : bool := SFeqb x y.
Definition fl_ltb (x y : float64) : bool := SFltb x y.
Definition fl_leb (x y : float64) : bool := SFleb x y.
Definition fl_sub (x y : float64) : float64 := SFsub fl_prec fl_emax x y.
Definition fl_add (x y : float64) : float64 := SFadd fl_prec fl_emax x y.
Definition fl_mul (x y : float64) : float64 := SFmul fl_prec fl_emax x y.
Definition fl_abs (x : float64) : float64 := SFabs x.

(** [float(z)] for an integer: the nearest binary64 value. *)
Definition fl_of_Z (z : Z) : float64 :=
  binary_normalize fl_prec fl_emax z 0 false.

(** The float literal [m * 2^e], for a significand that fits. *)
Definition fl_lit (m e : Z) : float64 := binary_normalize fl_prec fl_emax m e false.

(** [int(x)] of a finite float: truncation toward zero. *)
Definition fl_trunc (x : float64) : Z :=
  match x with
  | S754_finite s m e =>
      let a := if 0 <=? e then Z.pos m * 2 ^ e else Z.pos m / 2 ^ (- e) in
      if s then - a else a
  | _ => 0
  end.

(** Python's [max(x, y)] and [min(x, y)]: the first argument unless the second
    is strictly beyond it. *)
Definition fl_max (x y : float64) : float64 := if fl_ltb x y then y else x.
Definition fl_min (x y : float64) : float64 := if fl_ltb y x then y else x.

#[export] Instance float64_eq_dec : EqDecision float64.
Proof. unfold float64. solve_decision. Defined.

Lemma fl_eqb_refl x : fl_finite x = true → fl_eqb x x = true.
Proof.
  destruct x as [s| | |s m e]; cbn; try done. intros _.
  unfold fl_eqb, SFeqb, SFcompare. destruct s; cbn;
    rewrite Z.compare_refl, Pos.compare_cont_refl; done.
Qed.
