(* ===== verification/PyFloatSpec.v ===== *)
(** Rounding of binary64 products, as far as integer arithmetic needs it: an
    integer below 2^53 is a float, and its product with a float is rounded to no
    more than any integer the product does not exceed. *)

From S2P Require Import Prelude PyFloat.
From Stdlib Require Import SpecFloat.
Open Scope Z_scope.

(** [m * 2^e <= n], for integers. *)
Definition at_most (m e n : Z) : Prop := m * 2 ^ Z.max e 0 ≤ n * 2 ^ Z.max (- e) 0.

Lemma at_most_neg m e n : e ≤ 0 → at_most m e n ↔ m ≤ n * 2 ^ (- e).
Proof. intros He. unfold at_most. rewrite (Z.max_r e), (Z.max_l (- e)), Z.mul_1_r by lia. done. Qed.

Lemma at_most_pos m e n : 0 ≤ e → at_most m e n ↔ m * 2 ^ e ≤ n.
Proof. intros He. unfold at_most. rewrite (Z.max_l e), (Z.max_r (- e)), Z.mul_1_r by lia. done. Qed.

(** ** Digits *)

Lemma digits2_bounds p : 2 ^ (Z.pos (digits2_pos p) - 1) ≤ Z.pos p < 2 ^ Z.pos (digits2_pos p).
Proof.
  induction p as [p IH|p IH|]; cbn [digits2_pos]; [| |by cbn];
    rewrite Pos2Z.inj_succ; replace (Z.succ (Z.pos (digits2_pos p)) - 1) with (Z.pos (digits2_pos p)) by lia;
    rewrite Z.pow_succ_r by lia;
    replace (2 ^ Z.pos (digits2_pos p)) with (2 * 2 ^ (Z.pos (digits2_pos p) - 1)) in *
      by (rewrite <-Z.pow_succ_r by lia; f_equal; lia); lia.
Qed.

Lemma digits2_unique p d : 0 < d → 2 ^ (d - 1) ≤ Z.pos p < 2 ^ d → Z.pos (digits2_pos p) = d.
Proof.
  intros Hd [Hl Hu]. destruct (digits2_bounds p) as [Hl' Hu'].
  assert (d - 1 < Z.pos (digits2_pos p)) by (apply (Z.pow_lt_mono_r_iff 2); lia).
  assert (Z.pos (digits2_pos p) - 1 < d) by (apply (Z.pow_lt_mono_r_iff 2); lia). lia.
Qed.

Lemma digits2_le p d : 0 ≤ d → Z.pos p < 2 ^ d → Z.pos (digits2_pos p) ≤ d.
Proof.
  intros Hd Hp. destruct (digits2_bounds p) as [Hl _].
  assert (Z.pos (digits2_pos p) - 1 < d) by (apply (Z.pow_lt_mono_r_iff 2); lia). lia.
Qed.

(** ** Shifting right *)

(** [r] is [m] shifted by [k] bits, with the lost bits in its flags. *)
Definition shifted (m : Z) (k : Z) (r : shr_record) : Prop :=
  shr_m r = m / 2 ^ k ∧ (shr_r r = false ∧ shr_s r = false ↔ m mod 2 ^ k = 0).

Lemma shr_1_shifted m k r : 0 ≤ m → 0 ≤ k → shifted m k r → shifted m (k + 1) (shr_1 r).
Proof.
  intros Hm Hk [Hq Hr]. destruct r as [q b s]. cbn in Hq, Hr. pose proof (Z.pow_pos_nonneg 2 k) as Hp.
  assert (0 ≤ q) as Hq0 by (subst q; apply Z.div_pos; lia).
  assert (m / 2 ^ (k + 1) = q / 2) as Hd.
  { rewrite Z.pow_add_r, Z.pow_1_r by lia. rewrite <-Z.div_div by lia. by rewrite Hq. }
  assert (m mod 2 ^ (k + 1) = 2 ^ k * (q mod 2) + m mod 2 ^ k) as Hmod.
  { rewrite Z.pow_add_r, Z.pow_1_r, Z.rem_mul_r by lia. rewrite <-Hq. lia. }
  pose proof (Z.mod_pos_bound m (2 ^ k)) as Hb. unfold shifted. rewrite Hd, Hmod.
  assert (∀ x y, shr_m (shr_1 {| shr_m := q; shr_r := x; shr_s := y |}) = q / 2
    ∧ shr_r (shr_1 {| shr_m := q; shr_r := x; shr_s := y |}) = (q mod 2 =? 1)
    ∧ shr_s (shr_1 {| shr_m := q; shr_r := x; shr_s := y |}) = (x || y)) as Hshr.
  { intros x y. destruct q as [|[p|p|]|p]; [done| | |done|lia]; cbn [shr_1 shr_m shr_r shr_s].
    - split_and!; [|symmetry; apply Z.eqb_eq|done].
      + apply (Z.div_unique _ 2 _ 1); lia.
      + symmetry. apply (Z.mod_unique _ 2 (Z.pos p)); lia.
    - split_and!; [|symmetry; apply Z.eqb_neq|done].
      + apply (Z.div_unique _ 2 _ 0); lia.
      + rewrite <-(Z.mod_unique (Z.pos p~0) 2 (Z.pos p) 0); lia. }
  destruct (Hshr b s) as (-> & -> & ->). split; [done|].
  assert (q mod 2 = 0 ∨ q mod 2 = 1) as [->| ->] by (pose proof (Z.mod_pos_bound q 2); lia).
  - change (0 =? 1) with false. rewrite Z.mul_0_r, Z.add_0_l, <-Hr, orb_false_iff. naive_solver.
  - change (1 =? 1) with true. split; [naive_solver|lia].
Qed.

Lemma iter_pos_shifted p : ∀ m k r, 0 ≤ m → 0 ≤ k → shifted m k r → shifted m (k + Z.pos p) (iter_pos shr_1 p r).
Proof.
  induction p as [p IH|p IH|]; intros m k r Hm Hk Hr; cbn [iter_pos].
  - replace (k + Z.pos p~1) with (k + 1 + Z.pos p + Z.pos p) by lia.
    apply IH; [lia..|]. apply IH; [lia..|]. by apply shr_1_shifted.
  - replace (k + Z.pos p~0) with (k + Z.pos p + Z.pos p) by lia. apply IH; [lia..|]. by apply IH.
  - by apply shr_1_shifted.
Qed.

(** Rounding a shifted significand gives at most the next integer. *)
Lemma round_shifted m k r : 0 ≤ m → 0 ≤ k → shifted m k r →
  ∀ b, m ≤ b * 2 ^ k → 0 ≤ round_nearest_even (shr_m r) (loc_of_shr_record r) ≤ b.
Proof.
  intros Hm Hk [Hq Hr] b Hb. pose proof (Z.pow_pos_nonneg 2 k ltac:(lia) Hk) as Hp.
  pose proof (Z.div_mod m (2 ^ k)) as Hdm. pose proof (Z.mod_pos_bound m (2 ^ k)) as Hmb.
  assert (0 ≤ m / 2 ^ k) by (apply Z.div_pos; lia).
  destruct (decide (m mod 2 ^ k = 0)) as [Hz|Hz].
  - apply Hr in Hz as Hbits. destruct r as [q [] []]; cbn in *; destruct Hbits; try done. subst q. split; [done|]. nia.
  - assert (m / 2 ^ k + 1 ≤ b) as Hnext by nia.
    destruct r as [q [] []]; cbn in *; subst q; try lia. destruct (Z.even _); lia.
Qed.

(** ** Rounding *)

Lemma fexp_le e : e ≤ 53 → fexp fl_prec fl_emax e ≤ 0.
Proof. unfold fexp, emin, fl_prec, fl_emax. lia. Qed.

Lemma shr_exact m e k :
  0 ≤ m → ∃ r, shr (shr_record_of_loc m loc_Exact) e k = (r, e + Z.max k 0) ∧ shifted m (Z.max k 0) r.
Proof.
  intros Hm. assert (shifted m 0 (shr_record_of_loc m loc_Exact)) as H0.
  { split; cbn; [by rewrite Z.div_1_r|]. rewrite Z.mod_1_r. done. }
  destruct k as [|p|p]; cbn [shr].
  - exists (shr_record_of_loc m loc_Exact). rewrite Z.max_id, Z.add_0_r. done.
  - exists (iter_pos shr_1 p (shr_record_of_loc m loc_Exact)). rewrite Z.max_l by lia. split; [done|].
    by apply (iter_pos_shifted p m 0).
  - exists (shr_record_of_loc m loc_Exact). rewrite Z.max_r, Z.add_0_r by lia. done.
Qed.

(** The result of rounding a positive number that is at most [n < 2^53]. *)
Lemma round_at_most sx m e n :
  n < 2 ^ 53 → at_most (Z.pos m) e n →
  match binary_round_aux fl_prec fl_emax sx (Z.pos m) e loc_Exact with
  | S754_zero s => s = sx
  | S754_finite s m' e' => s = sx ∧ at_most (Z.pos m') e' n
  | _ => False
  end.
Proof.
  intros Hn Hle. unfold binary_round_aux, shr_fexp.
  set (k := fexp fl_prec fl_emax (Zdigits2 (Z.pos m) + e) - e).
  destruct (shr_exact (Z.pos m) e k) as (r & -> & Hr); [lia|].
  set (e1 := e + Z.max k 0).
  assert (∃ m2, round_nearest_even (shr_m r) (loc_of_shr_record r) = m2 ∧ 0 ≤ m2 ∧ at_most m2 e1 n) as (m2 & -> & Hm2 & Hle2).
  { eexists. split; [done|]. destruct (decide (k ≤ 0)) as [Hk|Hk].
    - unfold e1. rewrite Z.max_r, Z.add_0_r in * by lia. destruct Hr as [Hq Hbits].
      rewrite Z.pow_0_r, Z.mod_1_r, Z.div_1_r in *. destruct Hbits as [_ Hbits]. destruct r as [q b s]. cbn in *.
      destruct (Hbits eq_refl) as [-> ->]. cbn. subst q. split; [lia|done].
    - rewrite Z.max_l in Hr by lia. unfold e1. rewrite Z.max_l by lia.
      destruct (decide (e + k ≤ 0)) as [Hek|Hek].
      + rewrite at_most_neg in Hle |- * by lia. apply (round_shifted (Z.pos m) k); [lia..|done|].
        rewrite <-Z.mul_assoc, <-Z.pow_add_r by lia. replace (- (e + k) + k) with (- e) by lia. done.
      + exfalso. unfold k in Hek. assert (0 < fexp fl_prec fl_emax (Zdigits2 (Z.pos m) + e)) as Hf by lia.
        destruct (decide (Zdigits2 (Z.pos m) + e ≤ 53)) as [Hd|Hd]; [pose proof (fexp_le _ Hd); lia|].
        cbn [Zdigits2] in Hd. destruct (digits2_bounds m) as [Hl _].
        destruct (decide (0 ≤ e)) as [He|He].
        * rewrite at_most_pos in Hle by done.
          assert (2 ^ 53 ≤ 2 ^ (Z.pos (digits2_pos m) - 1) * 2 ^ e) by (rewrite <-Z.pow_add_r by lia; apply Z.pow_le_mono_r; lia).
          nia.
        * rewrite at_most_neg in Hle by lia.
          assert (2 ^ 53 * 2 ^ (- e) ≤ 2 ^ (Z.pos (digits2_pos m) - 1)) by (rewrite <-Z.pow_add_r by lia; apply Z.pow_le_mono_r; lia).
          pose proof (Z.pow_pos_nonneg 2 (- e)). nia. }
  set (k2 := fexp fl_prec fl_emax (Zdigits2 m2 + e1) - e1).
  destruct (shr_exact m2 e1 k2 Hm2) as (r2 & -> & [Hq2 _]). set (e2 := e1 + Z.max k2 0).
  assert (0 ≤ shr_m r2 ∧ at_most (shr_m r2) e2 n) as [Hm3 Hle3].
  { pose proof (Z.pow_pos_nonneg 2 (Z.max k2 0) ltac:(lia) ltac:(lia)) as Hp.
    pose proof (Z.mul_div_le m2 (2 ^ Z.max k2 0) Hp) as Hdiv. rewrite <-Hq2 in Hdiv.
    assert (0 ≤ shr_m r2) by (rewrite Hq2; apply Z.div_pos; lia). split; [done|].
    unfold at_most in Hle2 |- *. unfold e2.
    destruct (decide (0 ≤ e1)) as [He1|He1].
    - rewrite (Z.max_l e1), (Z.max_r (- e1)) in Hle2 by lia.
      rewrite (Z.max_l (e1 + _)), (Z.max_r (- _)) by lia. rewrite Z.pow_add_r by lia.
      pose proof (Z.pow_pos_nonneg 2 e1). nia.
    - rewrite (Z.max_r e1), (Z.max_l (- e1)) in Hle2 by lia.
      destruct (decide (e1 + Z.max k2 0 ≤ 0)) as [Hs|Hs].
      + rewrite (Z.max_r (e1 + _)), (Z.max_l (- _)) by lia.
        replace (- e1) with (- (e1 + Z.max k2 0) + Z.max k2 0) in Hle2 by lia.
        rewrite Z.pow_add_r in Hle2 by lia. nia.
      + rewrite (Z.max_l (e1 + _)), (Z.max_r (- _)) by lia.
        pose proof (Z.pow_pos_nonneg 2 (- e1) ltac:(lia) ltac:(lia)).
        replace (Z.max k2 0) with ((e1 + Z.max k2 0) + - e1) in Hdiv by lia.
        rewrite Z.pow_add_r in Hdiv by lia. nia. }
  destruct (shr_m r2) as [|m3|]; [done| |lia].
  assert (e2 ≤ 53) as He2.
  { destruct (decide (0 ≤ e2)) as [H0|]; [|lia]. rewrite at_most_pos in Hle3 by done.
    assert (2 ^ e2 < 2 ^ 53) as H by nia. apply Z.pow_lt_mono_r_iff in H; lia. }
  rewrite (proj2 (Z.leb_le e2 _)) by (unfold fl_emax, fl_prec; lia). done.
Qed.

(** ** Integers as floats *)

Lemma iter_xO p s : Z.pos (Pos.iter xO p s) = Z.pos p * 2 ^ Z.pos s.
Proof.
  induction s as [|s IH] using Pos.peano_ind; [cbn; lia|].
  rewrite Pos.iter_succ, Pos2Z.inj_xO, IH, Pos2Z.inj_succ, Z.pow_succ_r by lia. lia.
Qed.

Lemma fl_of_Z_small z : 0 < z < 2 ^ 53 →
  ∃ m e, fl_of_Z z = S754_finite false m e ∧ e ≤ 0 ∧ Z.pos m = z * 2 ^ (- e).
Proof.
  intros Hz. destruct z as [|p|p]; [lia| |lia]. unfold fl_of_Z, binary_normalize, binary_round.
  pose proof (digits2_le p 53 ltac:(lia) ltac:(lia)) as Hd. set (d := Z.pos (digits2_pos p)) in *.
  rewrite Z.add_0_r. assert (fexp fl_prec fl_emax d = d - 53) as Hf.
  { unfold fexp, emin, fl_prec, fl_emax. assert (0 < d) by (unfold d; lia). lia. }
  rewrite Hf. unfold shl_align. rewrite Z.sub_0_r.
  assert (∃ q, match d - 53 with Z.neg s => (Pos.iter xO p s, d - 53) | _ => (p, 0) end = (q, d - 53)
               ∧ Z.pos q = Z.pos p * 2 ^ (53 - d)) as (q & -> & Hq).
  { destruct (d - 53) as [|s|s] eqn:Hs; [|lia|].
    - exists p. replace (53 - d) with 0 by lia. split; [done|lia].
    - exists (Pos.iter xO p s). split; [done|]. replace (53 - d) with (Z.pos s) by lia.
      apply iter_xO. }
  assert (Z.pos (digits2_pos q) = 53) as Hdq.
  { apply digits2_unique; [lia|]. rewrite Hq. destruct (digits2_bounds p) as [Hl Hu]. fold d in Hl, Hu.
    pose proof (Z.pow_pos_nonneg 2 (53 - d)).
    replace (2 ^ (53 - 1)) with (2 ^ (d - 1) * 2 ^ (53 - d)) by (rewrite <-Z.pow_add_r by lia; f_equal; lia).
    replace (2 ^ 53) with (2 ^ d * 2 ^ (53 - d)) by (rewrite <-Z.pow_add_r by lia; f_equal; lia). nia. }
  exists q, (d - 53). split_and!; [|lia|by rewrite Hq; f_equal; f_equal; lia].
  unfold binary_round_aux, shr_fexp. cbn [Zdigits2]. rewrite Hdq.
  replace (53 + (d - 53)) with d by lia. rewrite Hf, Z.sub_diag. cbn [shr shr_record_of_loc shr_m loc_of_shr_record].
  cbn [round_nearest_even Zdigits2]. rewrite Hdq. replace (53 + (d - 53)) with d by lia. rewrite Hf, Z.sub_diag.
  cbn [shr shr_record_of_loc shr_m]. rewrite (proj2 (Z.leb_le (d - 53) _)); [done|]. unfold fl_emax, fl_prec. lia.
Qed.

(** ** Products *)

(** A positive float of value at most [c]. *)
Definition fl_at_most (c : Z) (r : float64) : Prop :=
  ∃ m e, r = S754_finite false m e ∧ at_most (Z.pos m) e c.

Lemma at_most_mul m1 e1 n1 m2 e2 n2 :
  0 ≤ m1 → 0 ≤ m2 → 0 ≤ n1 → 0 ≤ n2 → e1 ≤ 0 → at_most m1 e1 n1 → at_most m2 e2 n2 → at_most (m1 * m2) (e1 + e2) (n1 * n2).
Proof.
  intros Hm1 Hm2 Hn1 Hn2 He1 H1 H2. rewrite at_most_neg in H1 by done.
  pose proof (Z.pow_pos_nonneg 2 (- e1) ltac:(lia) ltac:(lia)).
  destruct (decide (0 ≤ e2)) as [He2|He2].
  - rewrite at_most_pos in H2 by done. pose proof (Z.pow_pos_nonneg 2 e2 ltac:(lia) He2).
    destruct (decide (0 ≤ e1 + e2)) as [Hs|Hs].
    + rewrite at_most_pos by done. assert (m1 * m2 * 2 ^ e2 ≤ n1 * n2 * 2 ^ (- e1)) as Hm by nia.
      replace e2 with ((e1 + e2) + - e1) in Hm by lia. rewrite Z.pow_add_r in Hm by lia. nia.
    + rewrite at_most_neg by lia. assert (m1 * m2 * 2 ^ e2 ≤ n1 * n2 * 2 ^ (- e1)) as Hm by nia.
      replace (- e1) with (- (e1 + e2) + e2) in Hm by lia. rewrite Z.pow_add_r in Hm by lia. nia.
  - rewrite at_most_neg in H2 by lia. rewrite at_most_neg by lia. replace (- (e1 + e2)) with (- e1 + - e2) by lia.
    rewrite Z.pow_add_r by lia. pose proof (Z.pow_pos_nonneg 2 (- e2)). nia.
Qed.

Lemma trunc_at_most s m e n : 0 ≤ n → at_most (Z.pos m) e n → s = false → 0 ≤ fl_trunc (S754_finite s m e) ≤ n.
Proof.
  intros Hn H ->. cbn. destruct (Z.leb_spec 0 e).
  - rewrite at_most_pos in H by done. pose proof (Z.pow_pos_nonneg 2 e). lia.
  - rewrite at_most_neg in H by lia. pose proof (Z.pow_pos_nonneg 2 (- e)). split; [apply Z.div_pos; lia|].
    apply Z.div_le_upper_bound; lia.
Qed.

(** [int(z * r)] is defined and at most [c * z]. *)
Lemma mul_at_most z c r :
  0 ≤ z → 0 ≤ c → z < 2 ^ 53 → c * z < 2 ^ 53 → fl_at_most c r →
  fl_finite (fl_of_Z z) = true ∧ fl_finite (fl_mul (fl_of_Z z) r) = true
  ∧ 0 ≤ fl_trunc (fl_mul (fl_of_Z z) r) ≤ c * z.
Proof.
  intros Hz Hc Hz53 Hcz (m & e & -> & Hr). destruct (decide (z = 0)) as [->|Hne].
  - cbn. lia.
  - destruct (fl_of_Z_small z ltac:(lia)) as (mz & ez & -> & Hez & Hmz). split; [done|].
    unfold fl_mul, SFmul. cbn [xorb].
    assert (at_most (Z.pos (mz * m)) (ez + e) (z * c)) as H.
    { rewrite Pos2Z.inj_mul. apply at_most_mul; try lia; [|done]. rewrite at_most_neg by lia. lia. }
    pose proof (round_at_most false (mz * m) (ez + e) (z * c) ltac:(lia) H) as Hround.
    destruct (binary_round_aux _ _ _ _ _ _) as [s| | |s m' e']; try done.
    + cbn. split; [done|]. lia.
    + destruct Hround as [-> Hle]. split; [done|]. rewrite (Z.mul_comm c). apply trunc_at_most; [lia|done..].
Qed.

(** ** Comparison *)

(** The significand of a valid float has at most 53 bits. *)
Lemma valid_mantissa s m e : valid_binary fl_prec fl_emax (S754_finite s m e) = true → Z.pos m < 2 ^ 53.
Proof.
  cbn. unfold bounded, canonical_mantissa. rewrite andb_true_iff, Z.eqb_eq. intros [Hc _].
  unfold fexp, fl_prec, emin in Hc. destruct (digits2_bounds m) as [_ Hu].
  eapply Z.lt_le_trans; [apply Hu|]. apply Z.pow_le_mono_r; lia.
Qed.

(** A valid float that a float of 53 bits is not below is at most what that one
    is at most. *)
Lemma not_below m1 e1 m2 e2 c :
  2 ^ 52 ≤ Z.pos m1 → e1 ≤ 0 → at_most (Z.pos m1) e1 c →
  valid_binary fl_prec fl_emax (S754_finite false m2 e2) = true →
  fl_ltb (S754_finite false m1 e1) (S754_finite false m2 e2) = false → at_most (Z.pos m2) e2 c.
Proof.
  intros Hm1 He1 H1 Hv. pose proof (valid_mantissa _ _ _ Hv) as Hm2. clear Hv.
  unfold fl_ltb, SFltb, SFcompare. rewrite at_most_neg in H1 by done.
  destruct (Z.compare_spec e1 e2) as [->|Hlt|Hlt]; [| |].
  - change (Pos.compare_cont Eq m1 m2) with (Pos.compare m1 m2).
    destruct (Pos.compare_spec m1 m2) as [->|?|?]; intros Hc; try discriminate Hc; rewrite at_most_neg by done; lia.
  - intros Hc. discriminate Hc.
  - intros _. rewrite at_most_neg by lia.
    replace (- e2) with (- e1 + (1 + (e1 - e2 - 1))) by lia. rewrite !Z.pow_add_r, Z.pow_1_r by lia.
    pose proof (Z.pow_pos_nonneg 2 (e1 - e2 - 1) ltac:(lia) ltac:(lia)).
    pose proof (Z.pow_pos_nonneg 2 (- e1) ltac:(lia) ltac:(lia)). nia.
Qed.
