(* ===== verification/Utf8.v ===== *)
(** UTF-8, as Python's [str.encode] and its incremental decoder do it.

    A text is a list of Unicode scalar values and bytes are numbers below 256.
    (A Python string may also hold lone surrogates, on which [encode] raises;
    texts here have none.)  The decoder is the machine of
    [codecs.getincrementaldecoder]: it consumes one byte at a time, keeps the
    bytes of an unfinished character, and reports one error per maximal
    ill-formed part, after which the offending byte is read afresh.  [bytes.decode]
    is the same machine run over all bytes and then closed. *)

From S2P Require Import Prelude.
Open Scope Z_scope.

(** ** Characters and bytes *)

Definition text := list Z.
Definition bytes := list Z.

Definition scalar (c : Z) : bool := in_range 0 55295 c || in_range 57344 1114111 c.
Definition is_text (t : text) : Prop := Forall (λ c, scalar c = true) t.
Definition is_byte (b : Z) : bool := in_range 0 255 b.

(** [str.encode("utf-8")] *)
Definition encode_char (c : Z) : bytes :=
  if c <? 128 then [c]
  else if c <? 2048 then [192 + c / 64; 128 + c mod 64]
  else if c <? 65536 then [224 + c / 4096; 128 + c / 64 mod 64; 128 + c mod 64]
  else [240 + c / 262144; 128 + c / 4096 mod 64; 128 + c / 64 mod 64; 128 + c mod 64].

Definition encode (t : text) : bytes := flat_map encode_char t.

Definition byte_len (t : text) : Z := Z.of_nat (length (encode t)).

(** [str.isspace] on one character. *)
Definition is_space (c : Z) : bool :=
  in_range 9 13 c || in_range 28 32 c || in_range 8192 8202 c ||
  bool_decide (c ∈ [133; 160; 5760; 8232; 8233; 8239; 8287; 12288]).

(** [(byte & 0xC0) == 0x80] *)
Definition is_continuation (b : Z) : bool := Z.land b 192 =? 128.

(** ** The decoder *)

(** How many bytes a character that starts with this byte has (0: none does). *)
Definition char_len (b : Z) : nat :=
  if in_range 0 127 b then 1
  else if in_range 194 223 b then 2
  else if in_range 224 239 b then 3
  else if in_range 240 244 b then 4
  else 0.

(** Which second bytes may follow a first byte. *)
Definition second_ok (b1 b : Z) : bool :=
  if b1 =? 224 then in_range 160 191 b
  else if b1 =? 237 then in_range 128 159 b
  else if b1 =? 240 then in_range 144 191 b
  else if b1 =? 244 then in_range 128 143 b
  else in_range 128 191 b.

(** Whether [b] continues the unfinished character [p]. *)
Definition continues (p : bytes) (b : Z) : bool :=
  match p with
  | [] => false
  | [b1] => second_ok b1 b
  | _ => in_range 128 191 b
  end.

(** The character of a complete sequence. *)
Definition char_of (p : bytes) : Z :=
  match p with
  | [b] => b
  | [b1; b2] => (b1 - 192) * 64 + (b2 - 128)
  | [b1; b2; b3] => (b1 - 224) * 4096 + (b2 - 128) * 64 + (b3 - 128)
  | [b1; b2; b3; b4] => (b1 - 240) * 262144 + (b2 - 128) * 4096 + (b3 - 128) * 64 + (b4 - 128)
  | _ => 0
  end.

(** What the decoder reports: characters, and errors ([None]). *)
Definition decoded := list (option Z).

(** A byte that starts a character. *)
Definition start_byte (b : Z) : decoded * bytes :=
  match char_len b with
  | 0%nat => ([None], [])
  | 1%nat => ([Some b], [])
  | _ => ([], [b])
  end.

Definition feed_byte (p : bytes) (b : Z) : decoded * bytes :=
  match p with
  | [] => start_byte b
  | b1 :: _ =>
      if continues p b then
        let q := p ++ [b] in
        if Nat.eqb (length q) (char_len b1) then ([Some (char_of q)], []) else ([], q)
      else let r := start_byte b in (None :: r.1, r.2)
  end.

Fixpoint feed (p : bytes) (bs : bytes) : decoded * bytes :=
  match bs with
  | [] => ([], p)
  | b :: bs' => let r := feed_byte p b in let r' := feed r.2 bs' in (r.1 ++ r'.1, r'.2)
  end.

(** Closing the decoder: an unfinished character is an error. *)
Definition flush (p : bytes) : decoded :=
  match p with [] => [] | _ => [None] end.

(** [errors="replace"] *)
Definition replacement : Z := 65533.
Definition replace_errors (d : decoded) : text := map (default replacement) d.
(** [errors="ignore"] *)
Definition ignore_errors (d : decoded) : text := omap id d.

Definition decode_replace (bs : bytes) : text :=
  let r := feed [] bs in replace_errors (r.1 ++ flush r.2).
Definition decode_ignore (bs : bytes) : text :=
  let r := feed [] bs in ignore_errors (r.1 ++ flush r.2).

(** The strict decoder: the text, or its first error, of which the code only
    tests the reason. *)
Inductive decode_error : Type :=
  | UnexpectedEnd (start : Z)
  | InvalidBytes.

Definition decode_strict (bs : bytes) : result decode_error text :=
  let r := feed [] bs in
  match mapM id r.1 with
  | None => Err InvalidBytes
  | Some t => match r.2 with
              | [] => Ok t
              | p => Err (UnexpectedEnd (Z.of_nat (length bs) - Z.of_nat (length p)))
              end
  end.

(** ** Facts *)

Ltac range_prop :=
  unfold in_range in *;
  repeat match goal with
  | H : _ && _ = true |- _ => apply andb_true_iff in H as [? ?]
  | H : _ && _ = false |- _ => apply andb_false_iff in H
  | H : (_ <=? _) = true |- _ => apply Z.leb_le in H
  | H : (_ <=? _) = false |- _ => apply Z.leb_gt in H
  | H : (_ =? _) = true |- _ => apply Z.eqb_eq in H
  | H : (_ =? _) = false |- _ => apply Z.eqb_neq in H
  | H : (_ <? _) = true |- _ => apply Z.ltb_lt in H
  | H : (_ <? _) = false |- _ => apply Z.ltb_ge in H
  end.

Lemma in_range_iff lo hi z : in_range lo hi z = true ↔ lo <= z <= hi.
Proof. unfold in_range. rewrite andb_true_iff, !Z.leb_le. done. Qed.

Lemma in_range_false lo hi z : in_range lo hi z = false ↔ z < lo ∨ hi < z.
Proof. unfold in_range. rewrite andb_false_iff, !Z.leb_gt. lia. Qed.

Lemma scalar_iff c : scalar c = true ↔ 0 <= c <= 55295 ∨ 57344 <= c <= 1114111.
Proof. unfold scalar. by rewrite orb_true_iff, !in_range_iff. Qed.

Ltac decide_ranges :=
  repeat match goal with
  | |- context [in_range ?lo ?hi ?z] =>
      first [rewrite (proj2 (in_range_iff lo hi z)) by lia
            |rewrite (proj2 (in_range_false lo hi z)) by lia]
  | |- context [?x =? ?y] =>
      first [rewrite (proj2 (Z.eqb_eq x y)) by lia|rewrite (proj2 (Z.eqb_neq x y)) by lia]
  end.

Lemma feed_app p bs bs' :
  feed p (bs ++ bs') = (let r := feed p bs in let r' := feed r.2 bs' in (r.1 ++ r'.1, r'.2)).
Proof.
  revert p; induction bs as [|b bs IH]; intros p; cbn; [by destruct (feed p bs')|].
  rewrite IH. cbn. by rewrite (assoc_L (++)).
Qed.

Lemma encode_app t t' : encode (t ++ t') = encode t ++ encode t'.
Proof. apply flat_map_app. Qed.

Lemma encode_char_nonempty c : encode_char c ≠ [].
Proof. unfold encode_char. by repeat case_match. Qed.

Lemma encode_nil_inv t : encode t = [] → t = [].
Proof.
  destruct t as [|c t]; [done|]. cbn. intros H. apply app_eq_nil in H as [H _].
  by apply encode_char_nonempty in H.
Qed.

Lemma byte_len_app t t' : byte_len (t ++ t') = byte_len t + byte_len t'.
Proof. unfold byte_len. rewrite encode_app, length_app. lia. Qed.

Lemma byte_len_nonneg t : 0 <= byte_len t.
Proof. unfold byte_len. lia. Qed.

(** Decoding the encoding of a character. *)
Lemma feed_encode_char c : scalar c = true → feed [] (encode_char c) = ([Some c], []).
Proof.
  intros Hc. apply scalar_iff in Hc. unfold encode_char.
  pose proof (Z.div_mod c 64 ltac:(lia)) as E1. pose proof (Z.mod_pos_bound c 64 ltac:(lia)) as B1.
  pose proof (Z.div_mod c 4096 ltac:(lia)) as E2. pose proof (Z.mod_pos_bound c 4096 ltac:(lia)) as B2.
  pose proof (Z.div_mod c 262144 ltac:(lia)) as E3. pose proof (Z.mod_pos_bound c 262144 ltac:(lia)) as B3.
  assert (c / 4096 = c / 64 / 64) as D1 by (rewrite Z.div_div by lia; done).
  assert (c / 262144 = c / 4096 / 64) as D2 by (rewrite Z.div_div by lia; done).
  pose proof (Z.div_mod (c / 64) 64 ltac:(lia)) as E4. pose proof (Z.mod_pos_bound (c / 64) 64 ltac:(lia)) as B4.
  pose proof (Z.div_mod (c / 4096) 64 ltac:(lia)) as E5. pose proof (Z.mod_pos_bound (c / 4096) 64 ltac:(lia)) as B5.
  rewrite <- D1 in E4. rewrite <- D2 in E5.
  set (x1 := c / 64) in *. set (m1 := c mod 64) in *. set (x2 := c / 4096) in *. set (m2 := c mod 4096) in *.
  set (x3 := c / 262144) in *. set (m3 := x1 mod 64) in *. set (m4 := x2 mod 64) in *. set (m5 := c mod 262144) in *.
  clearbody x1 m1 x2 m2 x3 m3 m4 m5. clear D1 D2.
  destruct (Z.ltb_spec c 128); [|destruct (Z.ltb_spec c 2048); [|destruct (Z.ltb_spec c 65536)]];
    cbn [feed feed_byte fst snd app].
  - unfold start_byte, char_len. decide_ranges. done.
  - unfold start_byte, char_len. decide_ranges. cbn [feed_byte continues snd fst]. unfold second_ok.
    decide_ranges. unfold char_len. decide_ranges. cbn. do 3 f_equal. lia.
  - unfold start_byte, char_len. decide_ranges. cbn [feed_byte continues snd fst]. unfold second_ok.
    assert (224 + x2 = 224 ∧ 160 <= 128 + m3 ∨ 224 + x2 = 237 ∧ 128 + m3 <= 159 ∨
            224 + x2 ≠ 224 ∧ 224 + x2 ≠ 237) as [[He Hm]|[[He Hm]|[He Hm]]] by lia;
      decide_ranges; cbn [continues app length]; unfold char_len; decide_ranges;
      cbn [continues app length Nat.eqb feed_byte snd fst]; decide_ranges; unfold char_len; decide_ranges; cbn;
      do 3 f_equal; lia.
  - unfold start_byte, char_len. decide_ranges. cbn [feed_byte continues snd fst]. unfold second_ok.
    assert (240 + x3 = 240 ∧ 144 <= 128 + m4 ∨ 240 + x3 = 244 ∧ 128 + m4 <= 143 ∨
            240 + x3 ≠ 240 ∧ 240 + x3 ≠ 244) as [[He Hm]|[[He Hm]|[He Hm]]] by lia;
      decide_ranges; cbn [continues app length]; unfold char_len; decide_ranges;
      cbn [continues app length Nat.eqb feed_byte snd fst]; decide_ranges; unfold char_len; decide_ranges;
      cbn [continues app length Nat.eqb feed_byte snd fst]; decide_ranges; unfold char_len; decide_ranges; cbn;
      do 3 f_equal; lia.
Qed.

(** A sequence the decoder may hold: a proper prefix of a character. *)
Definition pending_ok (p : bytes) : Prop :=
  match p with
  | [] => True
  | [b1] => (2 <= char_len b1)%nat
  | [b1; b2] => (3 <= char_len b1)%nat ∧ second_ok b1 b2 = true
  | [b1; b2; b3] => (4 <= char_len b1)%nat ∧ second_ok b1 b2 = true ∧ in_range 128 191 b3 = true
  | _ => False
  end.

Lemma char_len_bounds b :
  (char_len b = 0%nat ∧ (b < 0 ∨ 128 <= b <= 193 ∨ 244 < b)) ∨
  (char_len b = 1%nat ∧ 0 <= b <= 127) ∨ (char_len b = 2%nat ∧ 194 <= b <= 223) ∨
  (char_len b = 3%nat ∧ 224 <= b <= 239) ∨ (char_len b = 4%nat ∧ 240 <= b <= 244).
Proof.
  unfold char_len. destruct (in_range 0 127 b) eqn:H1; [apply in_range_iff in H1; tauto|].
  destruct (in_range 194 223 b) eqn:H2; [apply in_range_iff in H2; tauto|].
  destruct (in_range 224 239 b) eqn:H3; [apply in_range_iff in H3; tauto|].
  destruct (in_range 240 244 b) eqn:H4; [apply in_range_iff in H4; tauto|].
  apply in_range_false in H1, H2, H3, H4. lia.
Qed.

Lemma second_ok_bounds b1 b :
  second_ok b1 b = true →
  128 <= b <= 191 ∧ (b1 = 224 → 160 <= b) ∧ (b1 = 237 → b <= 159) ∧ (b1 = 240 → 144 <= b) ∧ (b1 = 244 → b <= 143).
Proof. unfold second_ok. repeat case_match; range_prop; lia. Qed.

Lemma encode_char_2 b1 b2 :
  194 <= b1 <= 223 → 128 <= b2 <= 191 →
  encode_char (char_of [b1; b2]) = [b1; b2] ∧ scalar (char_of [b1; b2]) = true.
Proof.
  intros H1 H2. cbn [char_of]. set (c := _ + _).
  assert (c / 64 = b1 - 192) as Hd by (symmetry; apply (Z.div_unique _ _ _ (b2 - 128)); unfold c; lia).
  assert (c mod 64 = b2 - 128) as Hm by (symmetry; apply (Z.mod_unique _ _ (b1 - 192)); unfold c; lia).
  unfold encode_char. rewrite (proj2 (Z.ltb_ge c 128)) by (unfold c; lia).
  rewrite (proj2 (Z.ltb_lt c 2048)) by (unfold c; lia). rewrite Hd, Hm, scalar_iff.
  split; [f_equal; [lia|f_equal; lia]|unfold c; lia].
Qed.

Lemma encode_char_3 b1 b2 b3 :
  224 <= b1 <= 239 → second_ok b1 b2 = true → 128 <= b3 <= 191 →
  encode_char (char_of [b1; b2; b3]) = [b1; b2; b3] ∧ scalar (char_of [b1; b2; b3]) = true.
Proof.
  intros H1 H2%second_ok_bounds H3. cbn [char_of]. set (c := _ + _).
  assert (c / 64 = (b1 - 224) * 64 + (b2 - 128)) as Hd
    by (symmetry; apply (Z.div_unique _ _ _ (b3 - 128)); unfold c; lia).
  assert (c mod 64 = b3 - 128) as Hm by (symmetry; apply (Z.mod_unique _ _ ((b1 - 224) * 64 + (b2 - 128))); unfold c; lia).
  assert (c / 4096 = b1 - 224) as Hd2
    by (symmetry; apply (Z.div_unique _ _ _ ((b2 - 128) * 64 + (b3 - 128))); unfold c; lia).
  assert (((b1 - 224) * 64 + (b2 - 128)) mod 64 = b2 - 128) as Hm2
    by (symmetry; apply (Z.mod_unique _ _ (b1 - 224)); lia).
  unfold encode_char. rewrite (proj2 (Z.ltb_ge c 128)) by (unfold c; lia).
  rewrite (proj2 (Z.ltb_ge c 2048)) by (unfold c; lia). rewrite (proj2 (Z.ltb_lt c 65536)) by (unfold c; lia).
  rewrite Hd, Hm, Hd2, Hm2, scalar_iff.
  split; [f_equal; [lia|f_equal; [lia|f_equal; lia]]|unfold c; lia].
Qed.

Lemma encode_char_4 b1 b2 b3 b4 :
  240 <= b1 <= 244 → second_ok b1 b2 = true → 128 <= b3 <= 191 → 128 <= b4 <= 191 →
  encode_char (char_of [b1; b2; b3; b4]) = [b1; b2; b3; b4] ∧ scalar (char_of [b1; b2; b3; b4]) = true.
Proof.
  intros H1 H2%second_ok_bounds H3 H4. cbn [char_of]. set (c := _ + _).
  set (h3 := ((b1 - 240) * 64 + (b2 - 128)) * 64 + (b3 - 128)).
  set (h2 := (b1 - 240) * 64 + (b2 - 128)).
  assert (c / 64 = h3) as Hd by (symmetry; apply (Z.div_unique _ _ _ (b4 - 128)); unfold c, h3; lia).
  assert (c mod 64 = b4 - 128) as Hm by (symmetry; apply (Z.mod_unique _ _ h3); unfold c, h3; lia).
  assert (c / 4096 = h2) as Hd2
    by (symmetry; apply (Z.div_unique _ _ _ ((b3 - 128) * 64 + (b4 - 128))); unfold c, h2; lia).
  assert (c / 262144 = b1 - 240) as Hd3
    by (symmetry; apply (Z.div_unique _ _ _ ((b2 - 128) * 4096 + (b3 - 128) * 64 + (b4 - 128))); unfold c; lia).
  assert (h3 mod 64 = b3 - 128) as Hm3 by (symmetry; apply (Z.mod_unique _ _ h2); unfold h3, h2; lia).
  assert (h2 mod 64 = b2 - 128) as Hm2 by (symmetry; apply (Z.mod_unique _ _ (b1 - 240)); unfold h2; lia).
  unfold encode_char. rewrite (proj2 (Z.ltb_ge c 128)) by (unfold c; lia).
  rewrite (proj2 (Z.ltb_ge c 2048)) by (unfold c; lia). rewrite (proj2 (Z.ltb_ge c 65536)) by (unfold c; lia).
  rewrite Hd, Hm, Hd2, Hd3, Hm2, Hm3, scalar_iff.
  split; [f_equal; [lia|f_equal; [lia|f_equal; [lia|f_equal; lia]]]|unfold c; lia].
Qed.

(** One byte: what is held stays well-formed; a step without an error loses
    nothing; every character reported is one. *)
Definition chars_ok (d : decoded) : Prop := Forall (λ x, match x with Some c => scalar c = true | None => True end) d.

Definition step_ok (p : bytes) (b : Z) (r : decoded * bytes) : Prop :=
  pending_ok r.2 ∧ chars_ok r.1 ∧ ∀ t, r.1 = map Some t → p ++ [b] = encode t ++ r.2.

Lemma start_byte_ok b : step_ok [] b (start_byte b).
Proof.
  unfold start_byte, step_ok. destruct (char_len_bounds b) as [[-> H]|[[-> H]|[[E H]|[[E H]|[E H]]]]]; rewrite ?E; cbn.
  - split_and!; [done|by repeat constructor|]. intros [|? ?]; discriminate.
  - split_and!; [done|constructor; [apply scalar_iff; lia|constructor]|].
    intros [|c [|? ?]]; try discriminate. intros [= <-]. cbn. unfold encode_char.
    by rewrite (proj2 (Z.ltb_lt b 128)) by lia.
  - split_and!; [lia|constructor|]. intros [|? ?]; [done|discriminate].
  - split_and!; [lia|constructor|]. intros [|? ?]; [done|discriminate].
  - split_and!; [lia|constructor|]. intros [|? ?]; [done|discriminate].
Qed.

Lemma complete_ok p b q :
  encode_char (char_of q) = q ∧ scalar (char_of q) = true → p ++ [b] = q →
  step_ok p b ([Some (char_of q)], []).
Proof.
  intros [He Hs] <-. split_and!; [done|by repeat constructor|].
  intros [|c [|? ?]]; try discriminate. cbn. intros [= <-]. by rewrite He, !app_nil_r.
Qed.

Lemma hold_ok p b q : p ++ [b] = q → pending_ok q → step_ok p b ([], q).
Proof. intros <- Hq. split_and!; [done|constructor|]. intros [|? ?]; [done|discriminate]. Qed.

Lemma feed_byte_ok p b : pending_ok p → step_ok p b (feed_byte p b).
Proof.
  intros Hp. unfold feed_byte. destruct p as [|b1 p]; [apply start_byte_ok|].
  destruct (continues (b1 :: p) b) eqn:Hc.
  - destruct p as [|b2 [|b3 [|b4 p]]]; cbn in Hp; [| | |tauto]; cbn [continues] in Hc; cbn [app length].
    + destruct (char_len_bounds b1) as [[E H]|[[E H]|[[E H]|[[E H]|[E H]]]]]; rewrite E in *; try lia; cbn [Nat.eqb].
      * eapply complete_ok; [|done]. apply encode_char_2; [lia|]. apply second_ok_bounds in Hc; lia.
      * apply hold_ok; [done|]. cbn. rewrite E. split; [lia|done].
      * apply hold_ok; [done|]. cbn. rewrite E. split; [lia|done].
    + destruct Hp as [Hl H2]. apply in_range_iff in Hc as Hc'.
      destruct (char_len_bounds b1) as [[E H]|[[E H]|[[E H]|[[E H]|[E H]]]]]; rewrite E in *; try lia; cbn [Nat.eqb].
      * eapply complete_ok; [|done]. by apply encode_char_3.
      * apply hold_ok; [done|]. cbn. rewrite E. split_and!; [lia|done|done].
    + destruct Hp as (Hl & H2 & H3). apply in_range_iff in Hc as Hc'. apply in_range_iff in H3.
      destruct (char_len_bounds b1) as [[E H]|[[E H]|[[E H]|[[E H]|[E H]]]]]; rewrite E in *; try lia; cbn [Nat.eqb].
      eapply complete_ok; [|done]. by apply encode_char_4.
  - destruct (start_byte_ok b) as (Hr & Hs & Ht). split_and!; [done|by constructor|].
    intros [|? ?]; discriminate.
Qed.

(** A run without errors loses nothing: the bytes are the encoding of the
    characters reported, and what is still held. *)
Lemma feed_sound p bs :
  pending_ok p →
  pending_ok (feed p bs).2 ∧ chars_ok (feed p bs).1 ∧
  ∀ t, (feed p bs).1 = map Some t → p ++ bs = encode t ++ (feed p bs).2.
Proof.
  revert p; induction bs as [|b bs IH]; intros p Hp; cbn.
  - split_and!; [done|constructor|]. intros [|? ?]; [|discriminate]. intros _. by rewrite app_nil_r.
  - destruct (feed_byte_ok p b Hp) as (Hq & Hc & Ht). destruct (IH _ Hq) as (Hq' & Hc' & Ht').
    split_and!; [done|by apply Forall_app|]. intros t Htt.
    symmetry in Htt. apply map_eq_app in Htt as (t1 & t2 & -> & H1 & H2).
    rewrite encode_app, <- (assoc_L (++)), <- (Ht' t2), (assoc_L (++)), <- (Ht t1) by done.
    by rewrite <- (assoc_L (++)).
Qed.

Lemma map_some_text t d : d = map Some t → chars_ok d → is_text t.
Proof.
  intros ->. induction t as [|c t IH]; cbn; intros H; [constructor|]. apply Forall_cons in H as [Hc Ht].
  constructor; [done|by apply IH].
Qed.

Lemma feed_encode t : is_text t → feed [] (encode t) = (map Some t, []).
Proof.
  induction 1 as [|c t Hc Ht IH]; [done|]. cbn [encode flat_map]. rewrite feed_app, feed_encode_char by done.
  cbn [fst snd]. change (flat_map encode_char t) with (encode t). by rewrite IH.
Qed.

(** A prefix of encoded text: some of its characters, and the beginning of
    the next. *)
Lemma feed_prefix t n :
  is_text t →
  ∃ t1 t2 p, t = t1 ++ t2 ∧ feed [] (take n (encode t)) = (map Some t1, p) ∧
    take n (encode t) = encode t1 ++ p ∧ pending_ok p.
Proof.
  intros Ht. pose proof (feed_encode t Ht) as Hf. rewrite <- (take_drop n (encode t)) in Hf.
  rewrite feed_app in Hf. cbn in Hf. injection Hf as Hf _. symmetry in Hf.
  apply map_eq_app in Hf as (t1 & t2 & -> & H1 & _). destruct (feed_sound [] (take n (encode (t1 ++ t2))) I) as (Hp & _ & Hs).
  exists t1, t2, (feed [] (take n (encode (t1 ++ t2)))).2. split_and!; [done| |by apply Hs|done].
  rewrite H1. by rewrite <- surjective_pairing.
Qed.

Lemma mapM_id_some (t : text) : mapM id (map Some t) = Some t.
Proof. induction t as [|c t IH]; cbn; [done|]. by rewrite IH. Qed.

Lemma mapM_id_inv d (t : text) : mapM id d = Some t → d = map Some t.
Proof.
  revert t; induction d as [|x d IH]; intros t; cbn; [by intros [= <-]|].
  destruct x as [c|]; cbn; [|done]. destruct (mapM id d) as [t'|] eqn:E; cbn; [|done]. intros [= <-]. cbn. by rewrite (IH t').
Qed.

Lemma decode_strict_encode t : is_text t → decode_strict (encode t) = Ok t.
Proof. intros Ht. unfold decode_strict. rewrite feed_encode by done. cbn. by rewrite mapM_id_some. Qed.

Lemma decode_strict_inv bs t : decode_strict bs = Ok t → bs = encode t ∧ is_text t.
Proof.
  unfold decode_strict. destruct (feed_sound [] bs I) as (_ & Hc & Hs).
  destruct (mapM id _) as [t'|] eqn:Hm; [|done]. apply mapM_id_inv in Hm. specialize (Hs _ Hm).
  destruct (feed [] bs).2; [|done]. intros [= ->]. rewrite app_nil_r in Hs. split; [done|by eapply map_some_text].
Qed.

Lemma replace_errors_text d : chars_ok d → is_text (replace_errors d).
Proof.
  induction 1 as [|x d Hx _ IH]; cbn; constructor; [|done]. destruct x as [c|]; [done|]. reflexivity.
Qed.

Lemma ignore_errors_some t : ignore_errors (map Some t) = t.
Proof. induction t as [|c t IH]; cbn; [done|]. unfold ignore_errors in IH. by rewrite IH. Qed.

Lemma decode_ignore_encode t : is_text t → decode_ignore (encode t) = t.
Proof. intros Ht. unfold decode_ignore. rewrite feed_encode by done. cbn. by rewrite app_nil_r, ignore_errors_some. Qed.

(** *** Continuation bytes *)
Lemma is_continuation_iff b : 0 <= b <= 255 → is_continuation b = true ↔ 128 <= b <= 191.
Proof.
  intros Hb. unfold is_continuation.
  assert (forallb (λ b, Bool.eqb (Z.land b 192 =? 128) (in_range 128 191 b)) (seqZ 0 256) = true) as H
    by (vm_compute; reflexivity).
  rewrite forallb_forall in H. specialize (H b). rewrite <- list_elem_of_In, elem_of_seqZ in H. specialize (H ltac:(lia)).
  apply eqb_prop in H. rewrite H. apply in_range_iff.
Qed.

(** The encoding of a character: a first byte that is not a continuation,
    then continuations. *)
Lemma encode_char_shape c :
  scalar c = true → ∃ b bs, encode_char c = b :: bs ∧ is_continuation b = false ∧
    Forall (λ x, is_continuation x = true) bs ∧ Forall (λ x, is_byte x = true) (b :: bs) ∧ (length bs <= 3)%nat.
Proof.
  intros Hc. apply scalar_iff in Hc. unfold encode_char.
  pose proof (Z.mod_pos_bound c 64 ltac:(lia)). pose proof (Z.mod_pos_bound (c / 64) 64 ltac:(lia)).
  pose proof (Z.mod_pos_bound (c / 4096) 64 ltac:(lia)).
  assert (∀ b, 128 <= b <= 191 → is_continuation b = true) as Ht by (intros b Hb; apply is_continuation_iff; lia).
  assert (∀ b, 0 <= b < 128 ∨ 191 < b <= 255 → is_continuation b = false) as Hf.
  { intros b Hb. destruct (is_continuation b) eqn:E; [|done]. apply is_continuation_iff in E; lia. }
  assert (∀ b, 0 <= b <= 255 → is_byte b = true) as Hr by (intros b Hb; by apply in_range_iff).
  destruct (Z.ltb_spec c 128); [|destruct (Z.ltb_spec c 2048); [|destruct (Z.ltb_spec c 65536)]].
  - exists c, []. split_and!; [done|apply Hf; lia|constructor|constructor; [apply Hr; lia|constructor]|cbn; lia].
  - pose proof (Z.div_le_lower_bound c 64 2 ltac:(lia) ltac:(lia)).
    pose proof (Z.div_lt_upper_bound c 64 32 ltac:(lia) ltac:(lia)).
    eexists _, [_]. split_and!; [done|apply Hf; lia|repeat constructor; apply Ht; lia|repeat constructor; apply Hr; lia|cbn; lia].
  - pose proof (Z.div_lt_upper_bound c 4096 16 ltac:(lia) ltac:(lia)). pose proof (Z.div_pos c 4096 ltac:(lia) ltac:(lia)).
    eexists _, [_; _]. split_and!; [done|apply Hf; lia|repeat constructor; apply Ht; lia|repeat constructor; apply Hr; lia|cbn; lia].
  - pose proof (Z.div_lt_upper_bound c 262144 5 ltac:(lia) ltac:(lia)). pose proof (Z.div_pos c 262144 ltac:(lia) ltac:(lia)).
    eexists _, [_; _; _]. split_and!; [done|apply Hf; lia|repeat constructor; apply Ht; lia|repeat constructor; apply Hr; lia|cbn; lia].
Qed.

Lemma pending_short p : pending_ok p → (length p <= 3)%nat.
Proof. destruct p as [|? [|? [|? [|]]]]; cbn; try lia; tauto. Qed.
