(* ===== verification/PyText.v ===== *)
(** Python's string operations on texts, lists of code points. *)

From S2P Require Import Prelude Utf8.
From Stdlib Require DecimalString.
Open Scope Z_scope.

(** [t.startswith(p)] *)
Fixpoint is_prefix (p t : text) : bool :=
  match p, t with
  | [], _ => true
  | c :: p, d :: t => (c =? d) && is_prefix p t
  | _ :: _, [] => false
  end.

(** [t.find(sub)], [None] for -1. *)
Fixpoint find (sub t : text) : option nat :=
  if is_prefix sub t then Some 0%nat
  else match t with [] => None | _ :: t' => S <$> find sub t' end.

(** [sub in t] *)
Definition contains (sub t : text) : bool := match find sub t with Some _ => true | None => false end.

(** [t.lstrip()] *)
Fixpoint drop_spaces (t : text) : text :=
  match t with c :: t' => if is_space c then drop_spaces t' else t | [] => [] end.

Definition rstrip (t : text) : text := rev (drop_spaces (rev t)).

Definition strip (t : text) : text := rstrip (drop_spaces t).

(** The text of a literal, which the source file holds in UTF-8. *)
Definition lit (s : string) : text := decode_ignore (map code (chars s)).

(** [str(n)] *)
Definition decimal (n : Z) : text := map code (chars (DecimalString.NilZero.string_of_int (Z.to_int n))).

Example lit_dash : lit "a—b" = [97; 8212; 98].
Proof. by vm_compute. Qed.

(** ** Searching *)

Lemma is_prefix_iff p t : is_prefix p t = true ↔ p `prefix_of` t.
Proof.
  revert t; induction p as [|c p IH]; intros [|d t]; cbn.
  - split; [by exists []|done].
  - split; [by exists (d :: t)|done].
  - split; [done|]. by intros [? [=]].
  - rewrite andb_true_iff, Z.eqb_eq, IH. split.
    + intros [-> Hp]. by apply prefix_cons.
    + intros Hp. split; [by eapply prefix_cons_inv_1|by eapply prefix_cons_inv_2].
Qed.

(** ** Stripping *)

Lemma drop_spaces_suffix t : ∃ p, t = p ++ drop_spaces t ∧ forallb is_space p = true.
Proof.
  induction t as [|c t (p & Hp & Hs)]; [by exists []|]. cbn.
  destruct (is_space c) eqn:Hc; [|by exists []]. exists (c :: p). cbn. by rewrite <-Hp, Hc.
Qed.

Lemma drop_spaces_head t : match drop_spaces t with c :: _ => is_space c = false | [] => True end.
Proof. induction t as [|c t IH]; cbn; [done|]. by destruct (is_space c) eqn:Hc. Qed.

Lemma drop_spaces_id t : match t with c :: _ => is_space c = false | [] => True end → drop_spaces t = t.
Proof. destruct t; cbn; [done|]. by intros ->. Qed.

Lemma lstrip_idem t : drop_spaces (drop_spaces t) = drop_spaces t.
Proof. apply drop_spaces_id, drop_spaces_head. Qed.

Lemma rstrip_head t : match t with c :: _ => is_space c = false | [] => True end → drop_spaces (rstrip t) = rstrip t.
Proof.
  intros Ht. apply drop_spaces_id. unfold rstrip.
  destruct (drop_spaces_suffix (rev t)) as (p & Hp & Hs).
  destruct t as [|c t]; [done|]. destruct (drop_spaces (rev (c :: t))) as [|d r] eqn:Hd; [done|].
  assert (rev (d :: r) ++ rev p = c :: t) as He.
  { rewrite <-rev_app_distr, <-Hp. apply rev_involutive. }
  destruct (rev (d :: r)) as [|x y] eqn:Hr; [done|]. by injection He as -> _.
Qed.

Lemma strip_idem t : strip (strip t) = strip t.
Proof.
  unfold strip. rewrite rstrip_head by apply drop_spaces_head.
  unfold rstrip. by rewrite rev_involutive, lstrip_idem.
Qed.
