(* ===== verification/PyValue.v ===== *)
(** Python values of the JSON types, as the code that converts them sees them: with
    numbers as numbers and strings as texts.  [float(s)], [int(s)] and [str(v)].

    The decimal digits of a number are ASCII here; Python also takes the other
    decimal digits of Unicode. *)

From S2P Require Import Prelude PyDict PyFloat Utf8 PyText.
From Stdlib Require Import SpecFloat.
Open Scope Z_scope.

Inductive pv : Type :=
  | PNone
  | PBool (b : bool)
  | PInt (z : Z)
  | PFloat (f : float64)
  | PStr (s : text)
  | PList (items : list pv)
  | PDict (members : list (text * pv)).

Section pv_induction.
Variable P : pv → Prop.
Hypothesis HNone : P PNone.
Hypothesis HBool : ∀ b, P (PBool b).
Hypothesis HInt : ∀ z, P (PInt z).
Hypothesis HFloat : ∀ f, P (PFloat f).
Hypothesis HStr : ∀ s, P (PStr s).
Hypothesis HList : ∀ l, Forall P l → P (PList l).
Hypothesis HDict : ∀ d, Forall (λ p, P p.2) d → P (PDict d).

Fixpoint pv_ind' (v : pv) : P v :=
  match v with
  | PNone => HNone
  | PBool b => HBool b
  | PInt z => HInt z
  | PFloat f => HFloat f
  | PStr s => HStr s
  | PList l => HList l (list_rect (Forall P) (List.Forall_nil P)
      (λ x _ IH, List.Forall_cons P x _ (pv_ind' x) IH) l)
  | PDict d => HDict d (list_rect (Forall (λ p : text * pv, P p.2)) (List.Forall_nil _)
      (λ p _ IH, List.Forall_cons (λ p : text * pv, P p.2) p _ (pv_ind' p.2) IH) d)
  end.
End pv_induction.

#[export] Instance pv_eq_dec : EqDecision pv.
Proof.
  unfold EqDecision. fix go 1. intros v w.
  destruct v as [|b|z|f|t|l|d], w as [|b'|z'|f'|t'|l'|d']; try (right; discriminate).
  - by left.
  - destruct (decide (b = b')); [left|right]; congruence.
  - destruct (decide (z = z')); [left|right]; congruence.
  - destruct (decide (f = f')); [left|right]; congruence.
  - destruct (decide (t = t')); [left|right]; congruence.
  - destruct (list_eq_dec (dec := go) l l'); [left|right]; congruence.
  - destruct (list_eq_dec (dec := prod_eq_dec (EqDecision1 := go)) d d'); [left|right]; congruence.
Defined.

(** [d.get(key)] *)
Definition p_get (key : string) (d : list (text * pv)) : option pv := od_get (lit key) d.

(** [bool(value)] *)
Definition p_truthy (v : pv) : bool :=
  match v with
  | PNone => false
  | PBool b => b
  | PInt z => negb (z =? 0)
  | PFloat f => negb (fl_eqb f fl_zero)
  | PStr s => match s with [] => false | _ => true end
  | PList l => match l with [] => false | _ => true end
  | PDict d => match d with [] => false | _ => true end
  end.

(** ** Case *)

(** [str.lower], as far as membership in sets of ASCII strings can tell: besides the
    capitals, the Kelvin sign is the only character whose lower case is in ASCII. *)
Definition lower_char (c : Z) : Z :=
  if in_range 65 90 c then c + 32 else if c =? 8490 then 107 else c.
Definition lower (t : text) : text := map lower_char t.

(** ** Numbers *)

Definition is_digit (c : Z) : bool := in_range 48 57 c.

(** Underscores between two digits are dropped; others are an error. *)
Fixpoint drop_underscores (after_digit : bool) (t : text) : option text :=
  match t with
  | [] => Some []
  | c :: rest =>
      if c =? 95 then
        if after_digit && match rest with d :: _ => is_digit d | [] => false end
        then drop_underscores false rest else None
      else cons c <$> drop_underscores (is_digit c) rest
  end.

(** The digits at the start: their value on top of [acc], their number, and the rest. *)
Fixpoint take_digits (acc : Z) (count : nat) (t : text) : Z * nat * text :=
  match t with
  | c :: rest => if is_digit c then take_digits (10 * acc + (c - 48)) (S count) rest else (acc, count, t)
  | [] => (acc, count, [])
  end.

(** A sign, and what follows it. *)
Definition take_sign (t : text) : bool * text :=
  match t with
  | c :: rest => if c =? 45 then (true, rest) else if c =? 43 then (false, rest) else (false, t)
  | [] => (false, [])
  end.

(** The binary64 value nearest to [m * 10^e]. *)
Definition fl_of_decimal (negative : bool) (m e : Z) : float64 :=
  if m =? 0 then S754_zero negative
  else if 0 <=? e then
    binary_normalize fl_prec fl_emax ((if negative then -1 else 1) * (m * 10 ^ e)) 0 negative
  else
    let '(mz, ez, lz) := SFdiv_core_binary fl_prec fl_emax m 0 (10 ^ (- e)) 0 in
    binary_round_aux fl_prec fl_emax negative mz ez lz.

(** The exponent after the digits, if there is one. *)
Definition take_exponent (t : text) : option Z :=
  match t with
  | [] => Some 0
  | c :: rest =>
      if (c =? 101) || (c =? 69) then
        let '(negative, rest) := take_sign rest in
        match take_digits 0 0 rest with
        | (e, S _, []) => Some (if negative then - e else e)
        | _ => None
        end
      else None
  end.

(** An unsigned decimal literal: the digits as one number, and its power of ten. *)
Definition decimal_literal (t : text) : option (Z * Z) :=
  let '(whole, n, rest) := take_digits 0 0 t in
  let '(m, k, rest) := match rest with
                       | c :: r => if c =? 46 then take_digits whole 0 r else (whole, 0%nat, rest)
                       | [] => (whole, 0%nat, [])
                       end in
  if (n + k =? 0)%nat then None
  else e ← take_exponent rest; Some (m, e - Z.of_nat k).

(** [float(t)] of a string; [None] for [ValueError]. *)
Definition py_float (t : text) : option float64 :=
  t ← drop_underscores false (strip t);
  let '(negative, body) := take_sign t in
  let word := lower body in
  if bool_decide (word ∈ [lit "inf"; lit "infinity"]) then Some (S754_infinity negative)
  else if bool_decide (word = lit "nan") then Some S754_nan
  else '(m, e) ← decimal_literal body; Some (fl_of_decimal negative m e).

(** The interpreter's limit on the digits of an integer. *)
Definition MAX_STR_DIGITS : nat := 4300.

(** [int(t)] of a string; [None] for [ValueError]. *)
Definition py_int (t : text) : option Z :=
  t ← drop_underscores false (strip t);
  let '(negative, body) := take_sign t in
  match take_digits 0 0 body with
  | (z, S n, []) => if (S n <=? MAX_STR_DIGITS)%nat then Some (if negative then - z else z) else None
  | _ => None
  end.

(** [float(z)] of an integer; [None] for [OverflowError]. *)
Definition float_of_int (z : Z) : option float64 :=
  let f := fl_of_Z z in if fl_finite f then Some f else None.

(** [f.is_integer()] *)
Definition fl_is_integer (f : float64) : bool :=
  fl_finite f && fl_eqb (fl_of_Z (fl_trunc f)) f.

(** ** Printing *)
Section printing.
(** [str] of a float, a list or a dict. *)
Variable repr : pv → text.

(** [str(value)] *)
Definition py_str (v : pv) : text :=
  match v with
  | PNone => lit "None"
  | PBool b => lit (if b then "True" else "False")
  | PInt z => decimal z
  | PStr s => s
  | _ => repr v
  end.
End printing.

Example py_float_samples :
  py_float (lit " 1_0.5e-1 ") = py_float (lit "1.05") ∧
  py_float (lit "0.1") = Some (fl_of_decimal false 1 (-1)) ∧
  fl_of_decimal false 1 (-1) = S754_finite false 7205759403792794 (-56) ∧
  py_float (lit "-Infinity") = Some (S754_infinity true) ∧
  py_float (lit "1e400") = Some (S754_infinity false) ∧
  py_float (lit "1__0") = None ∧ py_float (lit ".") = None ∧ py_float (lit "") = None ∧
  py_int (lit " -007 ") = Some (-7) ∧ py_int (lit "1.0") = None ∧
  fl_is_integer (fl_of_Z 3) = true ∧ fl_is_integer (fl_of_decimal false 35 (-1)) = false.
Proof. vm_compute. repeat split. Qed.
