(* ===== verification/JsonLoads.v ===== *)
(** [json.loads] over texts: the decoder of Python's standard library.  An object is
    the list of its pairs, in the order of the text and with repeated names, until
    [dict] is made of it at the end ([dict_of]).

    The interpreter's limit on the digits of an integer is kept; its limit on the depth
    of recursion is not. *)

From S2P Require Import Prelude PyDict PyFloat Utf8 PyText PyValue.
Open Scope Z_scope.
Local Notation text := Utf8.text.

(** The exceptions: [JSONDecodeError], and the plain [ValueError] of an integer of too
    many digits. *)
Inductive loads_error : Type :=
  | JSONDecodeError
  | IntTooLong.

Definition is_ws (c : Z) : bool := (c =? 32) || (c =? 9) || (c =? 10) || (c =? 13).

Fixpoint skip_ws (t : text) : text :=
  match t with c :: rest => if is_ws c then skip_ws rest else t | [] => [] end.

(** ** Strings *)

Definition hex_val (c : Z) : option Z :=
  if in_range 48 57 c then Some (c - 48)
  else if in_range 97 102 c then Some (c - 87)
  else if in_range 65 70 c then Some (c - 55)
  else None.

(** The value of four hexadecimal digits. *)
Definition hex4 (a b c d : Z) : option Z :=
  a ← hex_val a; b ← hex_val b; c ← hex_val c; d ← hex_val d;
  Some (4096 * a + 256 * b + 16 * c + d).

Definition is_high (u : Z) : bool := in_range 55296 56319 u.
Definition is_low (u : Z) : bool := in_range 56320 57343 u.
Definition join_surrogates (u v : Z) : Z := 65536 + 1024 * (u - 55296) + (v - 56320).

(** The character of a short escape. *)
Definition unescape (c : Z) : option Z :=
  if (c =? 34) || (c =? 92) || (c =? 47) then Some c
  else if c =? 98 then Some 8
  else if c =? 102 then Some 12
  else if c =? 110 then Some 10
  else if c =? 114 then Some 13
  else if c =? 116 then Some 9
  else None.

Definition push (c : Z) (r : option (text * text)) : option (text * text) := '(s, rest) ← r; Some (c :: s, rest).

(** From behind the opening quote on: the string, and what follows the closing quote. *)
Fixpoint scan_string (t : text) : option (text * text) :=
  match t with
  | [] => None
  | c :: rest =>
      if c =? 34 then Some ([], rest)
      else if c =? 92 then
        match rest with
        | e :: rest =>
            if e =? 117 then
              match rest with
              | h1 :: h2 :: h3 :: h4 :: rest =>
                  match hex4 h1 h2 h3 h4 with
                  | None => None
                  | Some u =>
                      match rest with
                      | b :: e' :: l1 :: l2 :: l3 :: l4 :: rest' =>
                          if is_high u && (b =? 92) && (e' =? 117) then
                            match hex4 l1 l2 l3 l4 with
                            | None => None
                            | Some v => if is_low v then push (join_surrogates u v) (scan_string rest')
                                        else push u (scan_string rest)
                            end
                          else push u (scan_string rest)
                      | _ => push u (scan_string rest)
                      end
                  end
              | _ => None
              end
            else match unescape e with Some u => push u (scan_string rest) | None => None end
        | [] => None
        end
      else if c <? 32 then None
      else push c (scan_string rest)
  end.

(** ** Numbers *)

(** The fraction: the digits on top of [m], and how many. *)
Definition take_fraction (m : Z) (t : text) : option (Z * nat) * text :=
  match t with
  | c :: rest =>
      if c =? 46 then
        match take_digits m 0 rest with
        | (m', S k, rest') => (Some (m', S k), rest')
        | _ => (None, t)
        end
      else (None, t)
  | [] => (None, t)
  end.

(** The exponent. *)
Definition take_exponent_part (t : text) : option Z * text :=
  match t with
  | c :: rest =>
      if (c =? 101) || (c =? 69) then
        let '(negative, body) := take_sign rest in
        match take_digits 0 0 body with
        | (e, S _, rest') => (Some (if negative then - e else e), rest')
        | _ => (None, t)
        end
      else (None, t)
  | [] => (None, t)
  end.

(** The integer part: its value, its number of digits. *)
Definition take_whole (t : text) : option (Z * nat * text) :=
  match t with
  | c :: rest =>
      if c =? 48 then Some (0, 1%nat, rest)
      else if is_digit c then Some (take_digits 0 0 t)
      else None
  | [] => None
  end.

(** The minus sign. *)
Definition take_minus (t : text) : bool * text :=
  match t with c :: rest => if c =? 45 then (true, rest) else (false, t) | [] => (false, t) end.

(** [NUMBER_RE]: the number at the start of the text. *)
Definition scan_number (t : text) : result loads_error (pv * text) :=
  let '(negative, body) := take_minus t in
  match take_whole body with
  | None => Err JSONDecodeError
  | Some (m, digits, rest) =>
      let '(frac, rest) := take_fraction m rest in
      let '(exp, rest) := take_exponent_part rest in
      match frac, exp with
      | None, None =>
          if (digits <=? MAX_STR_DIGITS)%nat then Ok (PInt (if negative then - m else m), rest) else Err IntTooLong
      | _, _ =>
          let '(m, k) := default (m, 0%nat) frac in
          Ok (PFloat (fl_of_decimal negative m (default 0 exp - Z.of_nat k)), rest)
      end
  end.

(** ** Values *)

(** The constants, in the order in which they are tried. *)
Definition constants : list (text * pv) :=
  [(lit "null", PNone); (lit "true", PBool true); (lit "false", PBool false); (lit "NaN", PFloat SpecFloat.S754_nan);
   (lit "Infinity", PFloat (SpecFloat.S754_infinity false)); (lit "-Infinity", PFloat (SpecFloat.S754_infinity true))].

Definition scan_constant (t : text) : option (pv * text) :=
  match List.find (λ p, is_prefix p.1 t) constants with
  | Some (word, v) => Some (v, drop (length word) t)
  | None => None
  end.

(** The first character of a text that is not white space. *)
Definition opens_with (c : Z) (t : text) : bool := match t with d :: _ => d =? c | [] => false end.

Fixpoint scan_once (fuel : nat) (t : text) : result loads_error (pv * text) :=
  match fuel with
  | O => Err JSONDecodeError
  | S fuel =>
      match t with
      | [] => Err JSONDecodeError
      | c :: rest =>
          if c =? 34 then
            match scan_string rest with Some (s, rest) => Ok (PStr s, rest) | None => Err JSONDecodeError end
          else if c =? 123 then
            let rest := skip_ws rest in
            if opens_with 125 rest then Ok (PDict [], tail rest)
            else '(members, rest) ← scan_members fuel rest; Ok (PDict members, rest)
          else if c =? 91 then
            let rest := skip_ws rest in
            if opens_with 93 rest then Ok (PList [], tail rest)
            else '(items, rest) ← scan_items fuel rest; Ok (PList items, rest)
          else match scan_constant t with
               | Some r => Ok r
               | None => scan_number t
               end
      end
  end
with scan_items (fuel : nat) (t : text) : result loads_error (list pv * text) :=
  match fuel with
  | O => Err JSONDecodeError
  | S fuel =>
      '(v, rest) ← scan_once fuel t;
      let rest := skip_ws rest in
      if opens_with 93 rest then Ok ([v], tail rest)
      else if opens_with 44 rest then
        '(items, rest) ← scan_items fuel (skip_ws (tail rest)); Ok (v :: items, rest)
      else Err JSONDecodeError
  end
with scan_members (fuel : nat) (t : text) : result loads_error (list (text * pv) * text) :=
  match fuel with
  | O => Err JSONDecodeError
  | S fuel =>
      if opens_with 34 t then
        match scan_string (tail t) with
        | None => Err JSONDecodeError
        | Some (key, rest) =>
            let rest := skip_ws rest in
            if opens_with 58 rest then
              '(v, rest) ← scan_once fuel (skip_ws (tail rest));
              let rest := skip_ws rest in
              if opens_with 125 rest then Ok ([(key, v)], tail rest)
              else if opens_with 44 rest then
                '(members, rest) ← scan_members fuel (skip_ws (tail rest)); Ok ((key, v) :: members, rest)
              else Err JSONDecodeError
            else Err JSONDecodeError
        end
      else Err JSONDecodeError
  end.

(** [dict(pairs)] *)
Definition dict_pairs {V} (pairs : list (text * V)) : list (text * V) := od_update pairs [].

(** The objects made dicts. *)
Fixpoint dict_of (v : pv) : pv :=
  match v with
  | PList l => PList (map dict_of l)
  | PDict d => PDict (dict_pairs (map (λ p, (p.1, dict_of p.2)) d))
  | _ => v
  end.

(** The value of a whole text, with the pairs of its objects. *)
Definition loads_pairs (t : text) : result loads_error pv :=
  if opens_with 65279 t then Err JSONDecodeError
  else
    let t := skip_ws t in
    '(v, rest) ← scan_once (S (length t)) t;
    match skip_ws rest with [] => Ok v | _ => Err JSONDecodeError end.

(** [json.loads(t)] *)
Definition loads (t : text) : result loads_error pv := v ← loads_pairs t; Ok (dict_of v).

Definition sample_loads (s : string) : result loads_error pv := loads (lit s).

Example loads_samples :
  loads ([123; 34; 97; 34] ++ lit ": [1, -2.5e1, null, true], " ++ [34; 98; 34] ++ lit ":{}, " ++ [34; 97; 34] ++ lit ":0 }") =
    Ok (PDict [(lit "a", PInt 0); (lit "b", PDict [])]) ∧
  loads ([34; 92; 117] ++ lit "d83d" ++ [92; 117] ++ lit "de00" ++ [92; 110; 34]) = Ok (PStr [128512; 10]) ∧
  loads ([34; 92; 117] ++ lit "d83dx" ++ [34]) = Ok (PStr [55357; 120]) ∧
  sample_loads "[1, ]" = Err JSONDecodeError ∧ sample_loads "01" = Err JSONDecodeError ∧
  sample_loads " -0 " = Ok (PInt 0) ∧ sample_loads "1." = Err JSONDecodeError ∧ sample_loads "-" = Err JSONDecodeError ∧
  sample_loads "[-Infinity, 1E+2]" = Ok (PList [PFloat (SpecFloat.S754_infinity true); PFloat (fl_of_Z 100)]).
Proof. vm_compute. repeat split. Qed.

(** ** Printing *)

Definition hex_char (n : Z) : Z := if n <? 10 then 48 + n else 87 + n.
Definition unicode_escape (n : Z) : text :=
  [92; 117; hex_char (n / 4096); hex_char (n / 256 mod 16); hex_char (n / 16 mod 16); hex_char (n mod 16)].

(** A character of a string, with [ensure_ascii]. *)
Definition print_char (c : Z) : text :=
  if (c =? 34) || (c =? 92) then [92; c]
  else if c =? 10 then [92; 110] else if c =? 13 then [92; 114] else if c =? 9 then [92; 116]
  else if c =? 12 then [92; 102] else if c =? 8 then [92; 98]
  else if in_range 32 126 c then [c]
  else if c <? 65536 then unicode_escape c
  else let c := c - 65536 in unicode_escape (55296 + c / 1024) ++ unicode_escape (56320 + c mod 1024).

Definition print_text (t : text) : text := 34 :: flat_map print_char t ++ [34].

Fixpoint join_commas (items : list text) : text :=
  match items with [] => [] | [x] => x | x :: rest => x ++ 44 :: join_commas rest end.

(** [json.dumps(v, separators=(",", ":"))]; the argument is the printing of a float. *)
Fixpoint dumps_compact (float_repr : SpecFloat.spec_float → text) (v : pv) : text :=
  match v with
  | PNone => lit "null"
  | PBool b => lit (if b then "true" else "false")
  | PInt z => decimal z
  | PFloat f => float_repr f
  | PStr s => print_text s
  | PList l => 91 :: join_commas (map (dumps_compact float_repr) l) ++ [93]
  | PDict d => 123 :: join_commas (map (λ p, print_text p.1 ++ 58 :: dumps_compact float_repr p.2) d) ++ [125]
  end.

Example dumps_samples :
  dumps_compact (λ _, []) (PDict [(lit "a", PList [PInt 1; PBool false; PNone]); (lit "b", PStr [233; 128512; 10])]) =
    [123; 34; 97; 34; 58] ++ lit "[1,false,null]," ++ [34; 98; 34; 58; 34; 92] ++ lit "u00e9" ++ [92] ++ lit "ud83d" ++ [92] ++
    lit "ude00" ++ [92; 110; 34; 125].
Proof. vm_compute. reflexivity. Qed.
