(* ===== verification/JsonLoadsSpec.v ===== *)
(** The grammar of JSON texts, and that [loads] reads exactly it. *)

From S2P Require Import Prelude PyDict PyFloat Utf8 PyText PyValue JsonLoads.
Open Scope Z_scope.
Local Notation text := Utf8.text.

Definition blank (b : text) : Prop := forallb is_ws b = true.

(** ** Strings *)

(** A text that begins with the escape of a low surrogate. *)
Definition low_escape (t : text) : Prop :=
  ∃ a b c d v t', t = 92 :: 117 :: a :: b :: c :: d :: t' ∧ hex4 a b c d = Some v ∧ is_low v = true.

(** The body of a string, with its closing quote, and what it stands for. *)
Inductive jstring : text → text → Prop :=
  | js_end : jstring [34] []
  | js_plain c w s : c ≠ 34 → c ≠ 92 → 32 <= c → jstring w s → jstring (c :: w) (c :: s)
  | js_short e u w s : e ≠ 117 → unescape e = Some u → jstring w s → jstring (92 :: e :: w) (u :: s)
  | js_hex a b c d u w s : hex4 a b c d = Some u → (is_high u = true → ¬ low_escape w) → jstring w s →
      jstring (92 :: 117 :: a :: b :: c :: d :: w) (u :: s)
  | js_pair a b c d u a' b' c' d' v w s : hex4 a b c d = Some u → is_high u = true →
      hex4 a' b' c' d' = Some v → is_low v = true → jstring w s →
      jstring (92 :: 117 :: a :: b :: c :: d :: 92 :: 117 :: a' :: b' :: c' :: d' :: w) (join_surrogates u v :: s).

Lemma hex_val_range c v : hex_val c = Some v → 48 <= c <= 57 ∨ 97 <= c <= 102 ∨ 65 <= c <= 70.
Proof.
  unfold hex_val. destruct (in_range 48 57 c) eqn:H1; [range_prop; lia|].
  destruct (in_range 97 102 c) eqn:H2; [range_prop; lia|]. destruct (in_range 65 70 c) eqn:H3; [range_prop; lia|done].
Qed.

Definition hexes (a b c d : Z) : Prop := Forall (λ x, ∃ v, hex_val x = Some v) [a; b; c; d].

Lemma hex4_hexes a b c d u : hex4 a b c d = Some u → hexes a b c d.
Proof.
  unfold hex4, hexes. destruct (hex_val a) eqn:Ha, (hex_val b) eqn:Hb, (hex_val c) eqn:Hc, (hex_val d) eqn:Hd; cbn; try done.
  intros _. repeat (apply Forall_cons; split; [by eexists|]). constructor.
Qed.

Lemma hex4_total a b c d : hexes a b c d → ∃ u, hex4 a b c d = Some u.
Proof.
  unfold hexes. rewrite !Forall_cons. intros ([? Ha] & [? Hb] & [? Hc] & [? Hd] & _). unfold hex4. rewrite Ha, Hb, Hc, Hd. eauto.
Qed.

Lemma push_some c m s r : push c m = Some (s, r) → ∃ s', m = Some (s', r) ∧ s = c :: s'.
Proof. destruct m as [[s' r']|]; cbn; [|done]. intros [= <- <-]. eauto. Qed.

(** The hexadecimal escape that is not the first of a pair. *)
Lemma scan_hex a b c d u t : hex4 a b c d = Some u → (is_high u = true → ¬ low_escape t) →
  scan_string (92 :: 117 :: a :: b :: c :: d :: t) = push u (scan_string t).
Proof.
  intros Hu Hlow. change (scan_string (92 :: 117 :: a :: b :: c :: d :: t)) with
    (match hex4 a b c d with
     | None => None
     | Some u =>
         match t with
         | b :: e' :: l1 :: l2 :: l3 :: l4 :: rest' =>
             if is_high u && (b =? 92) && (e' =? 117) then
               match hex4 l1 l2 l3 l4 with
               | None => None
               | Some v => if is_low v then push (join_surrogates u v) (scan_string rest') else push u (scan_string t)
               end
             else push u (scan_string t)
         | _ => push u (scan_string t)
         end
     end).
  rewrite Hu. destruct t as [|x [|y [|l1 [|l2 [|l3 [|l4 t']]]]]]; try done.
  destruct (is_high u && (x =? 92) && (y =? 117)) eqn:Hc; [|done].
  apply andb_true_iff in Hc as [Hc Hy], Hc as [Hh Hx]. apply Z.eqb_eq in Hx as ->, Hy as ->.
  destruct (hex4 l1 l2 l3 l4) as [v|] eqn:Hv.
  - destruct (is_low v) eqn:Hl; [|done]. exfalso. apply (Hlow Hh). unfold low_escape. eauto 10.
  - cbn [scan_string]. cbn. by rewrite Hv.
Qed.

Lemma scan_pair a b c d u a' b' c' d' v t : hex4 a b c d = Some u → is_high u = true →
  hex4 a' b' c' d' = Some v → is_low v = true →
  scan_string (92 :: 117 :: a :: b :: c :: d :: 92 :: 117 :: a' :: b' :: c' :: d' :: t) =
    push (join_surrogates u v) (scan_string t).
Proof. intros Hu Hh Hv Hl. cbn [scan_string]. cbn -[hex4 push scan_string]. by rewrite Hu, Hh, Hv, Hl. Qed.

Lemma scan_plain c t : c ≠ 34 → c ≠ 92 → 32 <= c → scan_string (c :: t) = push c (scan_string t).
Proof.
  intros H1 H2 H3. cbn [scan_string]. apply Z.eqb_neq in H1, H2. rewrite H1, H2.
  by rewrite (proj2 (Z.ltb_ge c 32)).
Qed.

Lemma scan_short e u t : e ≠ 117 → unescape e = Some u → scan_string (92 :: e :: t) = push u (scan_string t).
Proof. intros H1 H2. cbn [scan_string]. cbn. apply Z.eqb_neq in H1. by rewrite H1, H2. Qed.

Lemma low_escape_dec t : {low_escape t} + {¬ low_escape t}.
Proof.
  destruct t as [|x [|y [|a [|b [|c [|d t]]]]]]; try (right; intros (?&?&?&?&?&?&?&?&?); discriminate).
  destruct (decide (x = 92)) as [->|]; [|right; intros (?&?&?&?&?&?&?&?&?); congruence].
  destruct (decide (y = 117)) as [->|]; [|right; intros (?&?&?&?&?&?&?&?&?); congruence].
  destruct (hex4 a b c d) as [v|] eqn:Hv; [|right; intros (?&?&?&?&?&?&?&?&?); congruence].
  destruct (is_low v) eqn:Hl; [left; unfold low_escape; eauto 10|right; intros (?&?&?&?&?&?&?&?&?); congruence].
Qed.

Lemma low_escape_app w r : jstring w r → ∀ t, low_escape (w ++ t) → low_escape w.
Proof.
  intros Hw t (a & b & c & d & v & t' & Ht & Hv & Hl). inversion Hw; subst; cbn in Ht; simplify_eq; try done.
  - exists a, b, c, d, v, w0. done.
  - unfold low_escape. eauto 15.
Qed.

(** The scanner reads the body of a string. *)
Lemma scan_string_complete w s : jstring w s → ∀ t, scan_string (w ++ t) = Some (s, t).
Proof.
  induction 1 as [|c w s H1 H2 H3 _ IH|e u w s H1 H2 _ IH|a b c d u w s Hu Hl Hw IH|a b c d u a' b' c' d' v w s Hu Hh Hv Hl _ IH];
    intros t; cbn [app].
  - done.
  - by rewrite scan_plain, IH.
  - by erewrite scan_short, IH.
  - erewrite scan_hex; [by rewrite IH|done|]. intros Hh Hlow. apply (Hl Hh). by eapply low_escape_app.
  - by erewrite scan_pair, IH.
Qed.

Lemma low_escape_prefix w t : low_escape w → low_escape (w ++ t).
Proof. intros (a & b & c & d & v & t' & -> & Hv & Hl). exists a, b, c, d, v, (t' ++ t). done. Qed.

Lemma scan_string_sound t : ∀ s r, scan_string t = Some (s, r) → ∃ w, t = w ++ r ∧ jstring w s.
Proof.
  remember (length t) as n eqn:Hn. revert t Hn. induction n as [n IH] using lt_wf_ind. intros t -> s r.
  destruct t as [|c t]; [done|]. destruct (Z.eqb_spec c 34) as [->|Hq].
  { cbn. intros [= <- <-]. exists [34]. split; [done|constructor]. }
  destruct (Z.eqb_spec c 92) as [->|Hb].
  2:{ destruct (Z.ltb_spec c 32) as [Hc|Hc].
      { cbn [scan_string]. apply Z.eqb_neq in Hq, Hb. by rewrite Hq, Hb, (proj2 (Z.ltb_lt c 32) Hc). }
      rewrite scan_plain by done. intros (s' & Hs & ->)%push_some.
      apply (IH (length t)) in Hs as (w & -> & Hw); [|cbn; lia|done]. exists (c :: w). split; [done|by constructor]. }
  destruct t as [|e t]; [done|]. destruct (Z.eqb_spec e 117) as [->|He].
  2:{ destruct (unescape e) as [u|] eqn:Hu.
      2:{ cbn [scan_string]. cbn. apply Z.eqb_neq in He. by rewrite He, Hu. }
      erewrite scan_short by done. intros (s' & Hs & ->)%push_some.
      apply (IH (length t)) in Hs as (w & -> & Hw); [|cbn; lia|done]. exists (92 :: e :: w). split; [done|by constructor]. }
  destruct t as [|a [|b [|c [|d t]]]]; try done. destruct (hex4 a b c d) as [u|] eqn:Hu.
  2:{ cbn [scan_string]. cbn -[hex4]. by rewrite Hu. }
  destruct (is_high u) eqn:Hh; [destruct (low_escape_dec t) as [(a' & b' & c' & d' & v & t' & -> & Hv & Hl)|Hlow]|].
  - erewrite scan_pair by done. intros (s' & Hs & ->)%push_some.
    apply (IH (length t')) in Hs as (w & -> & Hw); [|cbn; lia|done].
    exists (92 :: 117 :: a :: b :: c :: d :: 92 :: 117 :: a' :: b' :: c' :: d' :: w). split; [done|by constructor].
  - erewrite scan_hex by done. intros (s' & Hs & ->)%push_some.
    apply (IH (length t)) in Hs as (w & -> & Hw); [|cbn; lia|done].
    exists (92 :: 117 :: a :: b :: c :: d :: w). split; [done|]. constructor; [done| |done].
    intros _ Hw'. by apply Hlow, low_escape_prefix.
  - erewrite scan_hex; [|done|by rewrite Hh]. intros (s' & Hs & ->)%push_some.
    apply (IH (length t)) in Hs as (w & -> & Hw); [|cbn; lia|done].
    exists (92 :: 117 :: a :: b :: c :: d :: w). split; [done|]. constructor; [done|by rewrite Hh|done].
Qed.

(** ** Numbers *)

Definition is_number (v : pv) : Prop := match v with PInt _ | PFloat _ => True | _ => False end.

(** A number ends before such a text. *)
Definition stops (r : text) : Prop :=
  match r with c :: _ => is_digit c = false ∧ c ≠ 46 ∧ c ≠ 101 ∧ c ≠ 69 | [] => True end.

Definition no_digit (r : text) : Prop := match r with c :: _ => is_digit c = false | [] => True end.

(** The characters of numbers and words. *)
Definition token_char (c : Z) : bool :=
  negb (is_ws c) && negb (existsb (Z.eqb c) [34; 44; 58; 91; 92; 93; 123; 125]).

Definition token (w : text) : Prop := forallb token_char w = true.

Lemma is_digit_iff c : is_digit c = true ↔ 48 <= c <= 57.
Proof. apply in_range_iff. Qed.

Lemma digit_cases c : is_digit c = true → c ∈ [48; 49; 50; 51; 52; 53; 54; 55; 56; 57].
Proof. intros H%is_digit_iff. rewrite !elem_of_cons. lia. Qed.

Lemma digit_token c : is_digit c = true → token_char c = true.
Proof.
  intros H%digit_cases. rewrite !elem_of_cons in H. by destruct_or! H; subst; [..|apply not_elem_of_nil in H].
Qed.

Lemma token_app w w' : token w → token w' → token (w ++ w').
Proof. unfold token. intros H H'. by rewrite forallb_app, H, H'. Qed.

Lemma take_digits_spec t : ∀ acc n m k r, take_digits acc n t = (m, k, r) →
  ∃ w, t = w ++ r ∧ token w ∧ k = (n + length w)%nat ∧ no_digit r ∧
       ∀ r', no_digit r' → take_digits acc n (w ++ r') = (m, k, r').
Proof.
  induction t as [|c t IH]; intros acc n m k r; cbn [take_digits].
  - intros [= <- <- <-]. exists []. split_and!; [done|done|cbn; lia|done|]. intros [|c r'] H; cbn; [done|]. by rewrite H.
  - destruct (is_digit c) eqn:Hc.
    + intros (w & -> & Hw & -> & Hr & Hx)%IH. exists (c :: w). split_and!; [done| |cbn; lia|done|].
      * unfold token. cbn. by rewrite digit_token, Hw.
      * intros r' Hr'. cbn. rewrite Hc. by apply Hx.
    + intros [= <- <- <-]. exists []. split_and!; [done|done|cbn; lia|done|]. intros [|d r'] H; cbn; [done|]. by rewrite H.
Qed.

Lemma stops_no_digit r : stops r → no_digit r.
Proof. destruct r; [done|]. by intros [? _]. Qed.

Lemma take_fraction_spec m t o r : take_fraction m t = (o, r) →
  ∃ w, t = w ++ r ∧ token w ∧ match w with c :: _ => c = 46 | [] => True end ∧
       (∀ r', (no_digit r' ∧ match r' with c :: _ => c ≠ 46 | [] => True end) → take_fraction m (w ++ r') = (o, r')).
Proof.
  unfold take_fraction. destruct t as [|c t].
  { intros [= <- <-]. exists []. split_and!; try done. intros [|c r'] [_ H]; cbn; [done|]. by apply Z.eqb_neq in H as ->. }
  destruct (Z.eqb_spec c 46) as [->|Hc].
  2:{ intros [= <- <-]. exists []. split_and!; try done. intros [|d r'] [_ H]; cbn; [done|]. by apply Z.eqb_neq in H as ->. }
  destruct (take_digits m 0 t) as [[m' [|k]] rest] eqn:Ht.
  - intros [= <- <-]. exists []. split_and!; try done. intros [|d r'] [_ H]; cbn; [done|]. by apply Z.eqb_neq in H as ->.
  - intros [= <- <-]. apply take_digits_spec in Ht as (w & -> & Hw & _ & _ & Hx). exists (46 :: w). split; [done|].
    split; [done|]. split; [done|]. intros r' [Hr' _]. cbn. by rewrite Hx.
Qed.

Lemma take_exponent_spec t o r : take_exponent_part t = (o, r) →
  ∃ w, t = w ++ r ∧ token w ∧ match w with c :: _ => c = 101 ∨ c = 69 | [] => True end ∧
       (∀ r', stops r' → take_exponent_part (w ++ r') = (o, r')).
Proof.
  assert (∀ r', stops r' → take_exponent_part r' = (None, r')) as Hnone.
  { intros [|c r'] H; cbn; [done|]. destruct H as (_ & _ & H1 & H2). apply Z.eqb_neq in H1, H2. by rewrite H1, H2. }
  unfold take_exponent_part at 1. destruct t as [|c t]; [intros [= <- <-]; exists []; by split_and!|].
  destruct ((c =? 101) || (c =? 69)) eqn:Hc; [|intros [= <- <-]; exists []; by split_and!].
  destruct (take_sign t) as [negative body] eqn:Hs. destruct (take_digits 0 0 body) as [[e [|k]] rest] eqn:Hd.
  - intros [= <- <-]. exists []. by split_and!.
  - intros [= <- <-]. apply take_digits_spec in Hd as (w & -> & Hw & Hk & _ & Hx).
    assert (∃ s, t = s ++ w ++ rest ∧ token s ∧ ∀ r', take_sign (s ++ w ++ r') = (negative, w ++ r')) as (s & -> & Hs1 & Hs2).
    { destruct w as [|d w]; [cbn in Hk; lia|]. destruct t as [|x t]; [done|]. cbn in Hs.
      destruct (Z.eqb_spec x 45) as [->|]; [injection Hs as <- ->; exists [45]; by split_and!|].
      destruct (Z.eqb_spec x 43) as [->|]; [injection Hs as <- ->; exists [43]; by split_and!|].
      injection Hs as <- -> ->. exists []. split_and!; try done. intros r'. cbn.
      apply Z.eqb_neq in n, n0. by rewrite n, n0. }
    exists (c :: s ++ w). split; [cbn; by rewrite <-app_assoc|].
    assert (c = 101 ∨ c = 69) as Hce by (by apply orb_true_iff in Hc as [?%Z.eqb_eq|?%Z.eqb_eq]; auto). split_and!; [|done|].
    + unfold token. cbn. apply orb_true_iff in Hc as [->%Z.eqb_eq| ->%Z.eqb_eq]; cbn; by apply token_app.
    + intros r' Hr'. cbn. rewrite Hc, <-app_assoc, Hs2. by rewrite Hx by by apply stops_no_digit.
Qed.

(** The number at the start of a text, which the rest does not go on with. *)
Definition number (w : text) (v : pv) : Prop :=
  match w with c :: _ => is_digit c = true ∨ c ∈ [45; 78; 73] | [] => False end ∧ token w ∧ is_number v ∧
  ∀ r, stops r → (match scan_constant (w ++ r) with Some r => Ok r | None => scan_number (w ++ r) end) = Ok (v, r).

Lemma scan_whole_spec t m k r : take_whole t = Some (m, k, r) →
  ∃ c w, t = c :: w ++ r ∧ is_digit c = true ∧ token (c :: w) ∧ (∀ r', no_digit r' → take_whole (c :: w ++ r') = Some (m, k, r')).
Proof.
  unfold take_whole. destruct t as [|c t]; [done|]. destruct (Z.eqb_spec c 48) as [->|Hc].
  { intros [= <- <- <-]. by exists 48, []. }
  destruct (is_digit c) eqn:Hd; [|done]. intros [= H]. cbn [take_digits] in H. rewrite Hd in H.
  apply take_digits_spec in H as (w & -> & Hw & -> & _ & Hx). exists c, w. split_and!; try done.
  - unfold token. cbn. by rewrite digit_token, Hw.
  - intros r' Hr'. apply Z.eqb_neq in Hc. rewrite Hc, Hd. cbn [take_digits]. rewrite Hd. by rewrite Hx.
Qed.

Lemma stops_frac r : stops r → no_digit r ∧ match r with c :: _ => c ≠ 46 | [] => True end.
Proof. destruct r; [done|]. intros (? & ? & _). done. Qed.


Lemma digit_constant c t : is_digit c = true → scan_constant (c :: t) = None ∧ scan_constant (45 :: c :: t) = None.
Proof.
  intros H%digit_cases. rewrite !elem_of_cons in H. by destruct_or! H; subst; [..|apply not_elem_of_nil in H].
Qed.

Lemma scan_number_sound t v r : scan_number t = Ok (v, r) → scan_constant t = None →
  ∃ w, t = w ++ r ∧ number w v.
Proof.
  intros H Hconst. unfold scan_number in H.
  assert (∃ s body negative, t = s ++ body ∧
    take_minus t = (negative, body) ∧ (s = [45] ∧ negative = true ∨ s = [] ∧ negative = false)) as (s & body & negative & -> & Hs & Hneg).
  { unfold take_minus. destruct t as [|c t]; [by exists [], [], false; auto|]. destruct (Z.eqb_spec c 45) as [->|]; [exists [45], t, true; auto|].
    exists [], (c :: t), false. auto. }
  rewrite Hs in H. destruct (take_whole body) as [[[m k] rest]|] eqn:Hw; [|done].
  apply scan_whole_spec in Hw as (c & w1 & -> & Hc & Ht1 & Hx1).
  destruct (take_fraction m rest) as [frac rest2] eqn:Hf. apply take_fraction_spec in Hf as (w2 & -> & Ht2 & Hh2 & Hx2).
  destruct (take_exponent_part rest2) as [exp rest3] eqn:He. apply take_exponent_spec in He as (w3 & -> & Ht3 & Hh3 & Hx3).
  assert (rest3 = r ∧ is_number v ∧ ∀ x, stops x → scan_number (s ++ c :: w1 ++ w2 ++ w3 ++ x) = Ok (v, x)) as (-> & Hv & Hx).
  { assert (∀ x, stops x → scan_number (s ++ c :: w1 ++ w2 ++ w3 ++ x) =
      match frac, exp with
      | None, None =>
          if (k <=? MAX_STR_DIGITS)%nat then Ok (PInt (if negative then - m else m), x) else Err IntTooLong
      | _, _ =>
          let '(m, k) := default (m, 0%nat) frac in
          Ok (PFloat (fl_of_decimal negative m (default 0 exp - Z.of_nat k)), x)
      end) as Hx.
    { intros x Hx. unfold scan_number.
      assert (take_minus (s ++ c :: w1 ++ w2 ++ w3 ++ x) = (negative, c :: w1 ++ w2 ++ w3 ++ x)) as ->.
      { destruct Hneg as [[-> ->]|[-> ->]]; [done|]. cbn. apply is_digit_iff in Hc. by rewrite (proj2 (Z.eqb_neq c 45)) by lia. }
      assert (no_digit (w3 ++ x) ∧ match w3 ++ x with c :: _ => c ≠ 46 | [] => True end) as H3.
      { destruct w3 as [|d w3]; [by apply stops_frac|]. by destruct Hh3 as [-> | ->]. }
      rewrite Hx1; [|destruct w2; [apply H3|by subst]]. rewrite Hx2 by exact H3. by rewrite Hx3. }
    destruct frac as [[m' k']|], exp as [e|]; cbn [default] in *; [| | |destruct (k <=? MAX_STR_DIGITS)%nat; [|done]];
      injection H as <- <-; (split; [done|]); (split; [done|]); intros x Hs'; by rewrite Hx. }
  exists (s ++ c :: w1 ++ w2 ++ w3). split; [by rewrite <-!app_assoc; cbn; rewrite <-!app_assoc|].
  split_and!; [| |done|].
  - destruct Hneg as [[-> _]|[-> _]]; cbn; [right; set_solver|by left].
  - apply token_app; [by destruct Hneg as [[-> _]|[-> _]]|]. apply (token_app (c :: w1)); [done|by apply token_app].
  - intros x Hxs. rewrite <-app_assoc. cbn [app]. rewrite <-!app_assoc. rewrite Hx by done.
    assert (scan_constant (s ++ c :: w1 ++ w2 ++ w3 ++ x) = None) as ->; [|done].
    destruct Hneg as [[-> _]|[-> _]]; by apply digit_constant.
Qed.

(** ** Values *)

(** The words of the grammar that are not numbers. *)
Definition words : list (text * pv) := [(lit "null", PNone); (lit "true", PBool true); (lit "false", PBool false)].

Inductive jvalue : text → pv → Prop :=
  | J_str w s : jstring w s → jvalue (34 :: w) (PStr s)
  | J_word w v : (w, v) ∈ words → jvalue w v
  | J_num w v : number w v → jvalue w v
  | J_arr0 b : blank b → jvalue (91 :: b ++ [93]) (PList [])
  | J_arr b w l : blank b → jitems w l → jvalue (91 :: b ++ w) (PList l)
  | J_obj0 b : blank b → jvalue (123 :: b ++ [125]) (PDict [])
  | J_obj b w d : blank b → jmembers w d → jvalue (123 :: b ++ w) (PDict d)
with jitems : text → list pv → Prop :=
  | I_last w v b : jvalue w v → blank b → jitems (w ++ b ++ [93]) [v]
  | I_more w v b b' w' l : jvalue w v → blank b → blank b' → jitems w' l → jitems (w ++ b ++ 44 :: b' ++ w') (v :: l)
with jmembers : text → list (text * pv) → Prop :=
  | M_last k key b1 b2 w v b : jstring k key → blank b1 → blank b2 → jvalue w v → blank b →
      jmembers (34 :: k ++ b1 ++ 58 :: b2 ++ w ++ b ++ [125]) [(key, v)]
  | M_more k key b1 b2 w v b b' w' d : jstring k key → blank b1 → blank b2 → jvalue w v → blank b → blank b' →
      jmembers w' d → jmembers (34 :: k ++ b1 ++ 58 :: b2 ++ w ++ b ++ 44 :: b' ++ w') ((key, v) :: d).

Scheme jvalue_mut := Minimality for jvalue Sort Prop
  with jitems_mut := Minimality for jitems Sort Prop
  with jmembers_mut := Minimality for jmembers Sort Prop.
Combined Scheme json_ind from jvalue_mut, jitems_mut, jmembers_mut.

Lemma skip_ws_split t : ∃ b, blank b ∧ t = b ++ skip_ws t ∧ match skip_ws t with c :: _ => is_ws c = false | [] => True end.
Proof.
  induction t as [|c t (b & Hb & Ht & Hh)]; [by exists []|]. cbn. destruct (is_ws c) eqn:Hc.
  - exists (c :: b). split_and!; [unfold blank; cbn; by rewrite Hc, Hb|by rewrite Ht at 1|done].
  - by exists [].
Qed.

Lemma skip_ws_app b t : blank b → skip_ws (b ++ t) = skip_ws t.
Proof. unfold blank. induction b as [|c b IH]; cbn; [done|]. intros [Hc Hb]%andb_true_iff. by rewrite Hc, IH. Qed.

Lemma skip_ws_id t : match t with c :: _ => is_ws c = false | [] => True end → skip_ws t = t.
Proof. destruct t; cbn; [done|]. by intros ->. Qed.

Lemma opens_with_split c t : opens_with c t = true → t = c :: tail t.
Proof. destruct t; cbn; [done|]. by intros ->%Z.eqb_eq. Qed.

(** The first character of a value. *)
Lemma jvalue_head w v : jvalue w v → ∃ c t, w = c :: t ∧ is_ws c = false ∧ c ≠ 93 ∧ c ≠ 125 ∧ c ≠ 44 ∧ c ≠ 58.
Proof.
  destruct 1 as [w s H|w v H|w v H| | | |]; [by eexists _, _| |..]; try by eexists _, _.
  - unfold words in H. rewrite !elem_of_cons in H.
    destruct_or! H; [..|by apply not_elem_of_nil in H]; injection H as -> ->; vm_compute; by eexists _, _.
  - destruct H as (Hc & _). destruct w as [|c w]; [done|]. exists c, w. split; [done|].
    destruct Hc as [Hc|Hc]; [apply digit_cases in Hc|]; rewrite !elem_of_cons in Hc; by destruct_or! Hc; subst;
      [..|apply not_elem_of_nil in Hc].
Qed.

Lemma number_constant w v : (w, v) ∈ [(lit "NaN", PFloat SpecFloat.S754_nan); (lit "Infinity", PFloat (SpecFloat.S754_infinity false));
    (lit "-Infinity", PFloat (SpecFloat.S754_infinity true))] → number w v.
Proof.
  rewrite !elem_of_cons. intros H. destruct_or! H; [..|by apply not_elem_of_nil in H]; injection H as -> ->; split_and!;
    try (vm_compute; done); try (vm_compute; right; set_solver); intros r _; vm_compute; reflexivity.
Qed.

Lemma word_sound t v r : scan_constant t = Some (v, r) → ∃ w, t = w ++ r ∧ jvalue w v.
Proof.
  unfold scan_constant. destruct (List.find _ constants) as [[word x]|] eqn:Hf; [|done]. intros [= -> <-].
  apply find_some in Hf as [Hin Hp]. cbn [fst] in Hp.
  assert (∃ r, t = word ++ r) as [r ->].
  { clear - Hp. revert t Hp. induction word as [|c word IH]; intros [|d t] H; cbn in H; try done; try by eexists.
    apply andb_true_iff in H as [->%Z.eqb_eq H]. destruct (IH t H) as [r ->]. by exists r. }
  exists word. rewrite drop_app_length. split; [done|]. unfold constants in Hin. cbn [In] in Hin.
  destruct_or! Hin; try done; simplify_eq.
  1-3: apply J_word; unfold words; set_solver.
  all: apply J_num, number_constant; set_solver.
Qed.

(** ** Soundness *)

Lemma scan_sound n :
  (∀ t v r, scan_once n t = Ok (v, r) → ∃ w, t = w ++ r ∧ jvalue w v) ∧
  (∀ t l r, scan_items n t = Ok (l, r) → ∃ w, t = w ++ r ∧ jitems w l) ∧
  (∀ t d r, scan_members n t = Ok (d, r) → ∃ w, t = w ++ r ∧ jmembers w d).
Proof.
  induction n as [|n (IHv & IHi & IHm)]; [done|]. split_and!.
  - intros t v r. cbn [scan_once]. destruct t as [|c t]; [done|]. destruct (Z.eqb_spec c 34) as [->|_].
    { destruct (scan_string t) as [[s rest]|] eqn:Hs; [|done]. intros [= <- <-].
      apply scan_string_sound in Hs as (w & -> & Hw). exists (34 :: w). split; [done|by constructor]. }
    destruct (skip_ws_split t) as (b & Hb & Ht & _). destruct (Z.eqb_spec c 123) as [->|_].
    { destruct (opens_with 125 (skip_ws t)) eqn:Ho.
      - intros [= <- <-]. apply opens_with_split in Ho. exists (123 :: b ++ [125]).
        split; [|by constructor]. cbn. rewrite <-app_assoc. cbn. by rewrite <-Ho, <-Ht.
      - destruct (scan_members n (skip_ws t)) as [[d rest]|] eqn:Hm; cbn [mbind result_bind]; [|done]. intros [= <- <-].
        apply IHm in Hm as (w & Hw & Hd). exists (123 :: b ++ w). split; [|by constructor].
        cbn. by rewrite <-app_assoc, <-Hw, <-Ht. }
    destruct (Z.eqb_spec c 91) as [->|_].
    { destruct (opens_with 93 (skip_ws t)) eqn:Ho.
      - intros [= <- <-]. apply opens_with_split in Ho. exists (91 :: b ++ [93]).
        split; [|by constructor]. cbn. rewrite <-app_assoc. cbn. by rewrite <-Ho, <-Ht.
      - destruct (scan_items n (skip_ws t)) as [[d rest]|] eqn:Hm; cbn [mbind result_bind]; [|done]. intros [= <- <-].
        apply IHi in Hm as (w & Hw & Hd). exists (91 :: b ++ w). split; [|by constructor].
        cbn. by rewrite <-app_assoc, <-Hw, <-Ht. }
    destruct (scan_constant (c :: t)) as [[x rest]|] eqn:Hc.
    + intros [= <- <-]. by apply word_sound.
    + intros H. apply scan_number_sound in H as (w & Ht' & Hw); [|done]. exists w. split; [done|by constructor].
  - intros t l r. cbn [scan_items]. destruct (scan_once n t) as [[v rest]|] eqn:Hv; cbn [mbind result_bind]; [|done].
    apply IHv in Hv as (w & -> & Hw). destruct (skip_ws_split rest) as (b & Hb & Hrest & _).
    destruct (opens_with 93 (skip_ws rest)) eqn:Ho; [|destruct (opens_with 44 (skip_ws rest)) eqn:Ho2; [|done]].
    + intros [= <- <-]. apply opens_with_split in Ho. exists (w ++ b ++ [93]). split; [|by constructor].
      rewrite <-!app_assoc. cbn. by rewrite <-Ho, <-Hrest.
    + apply opens_with_split in Ho2. destruct (skip_ws_split (tail (skip_ws rest))) as (b' & Hb' & Hrest' & _).
      destruct (scan_items n (skip_ws (tail (skip_ws rest)))) as [[l' r']|] eqn:Hl; cbn [mbind result_bind]; [|done]. intros [= <- <-].
      apply IHi in Hl as (w' & Hw' & Hl'). exists (w ++ b ++ 44 :: b' ++ w'). split; [|by constructor].
      rewrite <-!app_assoc. cbn. by rewrite <-!app_assoc, <-Hw', <-Hrest', <-Ho2, <-Hrest.
  - intros t d r. cbn [scan_members]. destruct (opens_with 34 t) eqn:Ho; [|done]. apply opens_with_split in Ho.
    destruct (scan_string (tail t)) as [[key rest]|] eqn:Hs; [|done]. apply scan_string_sound in Hs as (k & Hk & Hkey).
    rewrite Ho, Hk. clear Ho Hk t. destruct (skip_ws_split rest) as (b1 & Hb1 & Hrest & _).
    destruct (opens_with 58 (skip_ws rest)) eqn:Ho1; [|done]. apply opens_with_split in Ho1.
    destruct (skip_ws_split (tail (skip_ws rest))) as (b2 & Hb2 & Hrest2 & _).
    destruct (scan_once n (skip_ws (tail (skip_ws rest)))) as [[v r2]|] eqn:Hv; cbn [mbind result_bind]; [|done].
    apply IHv in Hv as (w & Hw & Hv). destruct (skip_ws_split r2) as (b & Hb & Hr2 & _).
    destruct (opens_with 125 (skip_ws r2)) eqn:Ho3; [|destruct (opens_with 44 (skip_ws r2)) eqn:Ho4; [|done]].
    + intros [= <- <-]. apply opens_with_split in Ho3. exists (34 :: k ++ b1 ++ 58 :: b2 ++ w ++ b ++ [125]).
      split; [|by constructor]. cbn. rewrite <-!app_assoc. cbn. rewrite <-!app_assoc. cbn. rewrite <-Ho3, <-Hr2, <-Hw, <-Hrest2, <-Ho1.
      by rewrite <-Hrest.
    + apply opens_with_split in Ho4. destruct (skip_ws_split (tail (skip_ws r2))) as (b' & Hb' & Hr3 & _).
      destruct (scan_members n (skip_ws (tail (skip_ws r2)))) as [[d' r']|] eqn:Hd; cbn [mbind result_bind]; [|done]. intros [= <- <-].
      apply IHm in Hd as (w' & Hw' & Hd'). exists (34 :: k ++ b1 ++ 58 :: b2 ++ w ++ b ++ 44 :: b' ++ w').
      split; [|by constructor]. cbn. rewrite <-!app_assoc. cbn. rewrite <-!app_assoc. cbn. rewrite <-!app_assoc.
      rewrite <-Hw', <-Hr3, <-Ho4, <-Hr2, <-Hw, <-Hrest2, <-Ho1. by rewrite <-Hrest.
Qed.

(** ** Completeness *)

Lemma word_complete w v r : (w, v) ∈ words → scan_constant (w ++ r) = Some (v, r).
Proof.
  unfold words. rewrite !elem_of_cons. intros H. destruct_or! H; [..|by apply not_elem_of_nil in H];
    injection H as -> ->; vm_compute; reflexivity.
Qed.

(** A value whose first character is none of the brackets and quotes. *)
Lemma scan_atom n w r : match w with c :: _ => c ≠ 34 ∧ c ≠ 123 ∧ c ≠ 91 | [] => False end →
  scan_once (S n) (w ++ r) = match scan_constant (w ++ r) with Some x => Ok x | None => scan_number (w ++ r) end.
Proof.
  destruct w as [|c w]; [done|]. intros (H1 & H2 & H3). cbn [scan_once app].
  apply Z.eqb_neq in H1, H2, H3. by rewrite H1, H2, H3.
Qed.

Lemma atom_head w v : (w, v) ∈ words ∨ number w v → match w with c :: _ => c ≠ 34 ∧ c ≠ 123 ∧ c ≠ 91 | [] => False end.
Proof.
  unfold words. intros [H|(Hc & _)].
  - rewrite !elem_of_cons in H. destruct_or! H; [..|by apply not_elem_of_nil in H]; injection H as -> ->; vm_compute; done.
  - destruct w as [|c w]; [done|]. destruct Hc as [Hc|Hc]; [apply digit_cases in Hc|]; rewrite !elem_of_cons in Hc;
      by destruct_or! Hc; subst; [..|apply not_elem_of_nil in Hc].
Qed.

Lemma stops_blank b c r : blank b → (c = 93 ∨ c = 44 ∨ c = 125) → stops (b ++ c :: r).
Proof.
  unfold blank. destruct b as [|d b]; cbn; [by intros _ [->|[->| ->]]|]. intros [Hd _]%andb_true_iff _.
  unfold is_ws in Hd. rewrite !orb_true_iff, !Z.eqb_eq in Hd. by destruct_or! Hd; subst.
Qed.

Lemma skip_ws_value b w v r : blank b → jvalue w v → skip_ws (b ++ w ++ r) = w ++ r.
Proof.
  intros Hb Hw. rewrite skip_ws_app by done. apply jvalue_head in Hw as (c & t & -> & Hc & _). by apply skip_ws_id.
Qed.

Lemma jitems_head w l : jitems w l → ∃ c t, w = c :: t ∧ is_ws c = false ∧ c ≠ 93 ∧ c ≠ 44.
Proof. destruct 1 as [w v b Hv _|w v b b' w' l Hv _ _ _]; apply jvalue_head in Hv as (c & t & -> & ? & ? & ? & ? & ?); by eexists _, _. Qed.

Lemma jmembers_head w d : jmembers w d → ∃ t, w = 34 :: t.
Proof. destruct 1; by eexists. Qed.

Lemma scan_complete :
  (∀ w v, jvalue w v → ∀ n r, (length w < n)%nat → (is_number v → stops r) → scan_once n (w ++ r) = Ok (v, r)) ∧
  (∀ w l, jitems w l → ∀ n r, (length w < n)%nat → scan_items n (w ++ r) = Ok (l, r)) ∧
  (∀ w d, jmembers w d → ∀ n r, (length w < n)%nat → scan_members n (w ++ r) = Ok (d, r)).
Proof.
  apply json_ind.
  - intros w s Hs n r Hn _. destruct n as [|n]; [lia|]. cbn [app scan_once]. by rewrite (scan_string_complete _ _ Hs).
  - intros w v Hw n r Hn _. destruct n as [|n]; [lia|]. rewrite scan_atom by (by eapply atom_head; left).
    by rewrite (word_complete _ _ r Hw).
  - intros w v Hw n r Hn Hstop. destruct n as [|n]; [lia|]. rewrite scan_atom by (by eapply atom_head; right).
    destruct Hw as (_ & _ & Hv & Hx). by apply Hx, Hstop.
  - intros b Hb n r Hn _. destruct n as [|n]; [lia|]. cbn [app scan_once]. cbn [Z.eqb Pos.eqb].
    rewrite <-app_assoc, skip_ws_app by done. done.
  - intros b w l Hb Hw IH n r Hn _. destruct n as [|n]; [lia|]. cbn [app scan_once]. cbn [Z.eqb Pos.eqb].
    rewrite <-app_assoc, skip_ws_app by done. destruct (jitems_head w l Hw) as (c & t & Heq & Hc & Hc' & _).
    rewrite skip_ws_id by by subst. rewrite Heq at 1. cbn [app opens_with]. apply Z.eqb_neq in Hc'. rewrite Hc'.
    cbn in Hn. rewrite length_app in Hn. by rewrite IH by lia.
  - intros b Hb n r Hn _. destruct n as [|n]; [lia|]. cbn [app scan_once]. cbn [Z.eqb Pos.eqb].
    rewrite <-app_assoc, skip_ws_app by done. done.
  - intros b w d Hb Hw IH n r Hn _. destruct n as [|n]; [lia|]. cbn [app scan_once]. cbn [Z.eqb Pos.eqb].
    rewrite <-app_assoc, skip_ws_app by done. destruct (jmembers_head w d Hw) as (t & Heq).
    rewrite skip_ws_id by by subst. rewrite Heq at 1. cbn [app opens_with]. cbn [Z.eqb Pos.eqb].
    cbn in Hn. rewrite length_app in Hn. by rewrite IH by lia.
  - intros w v b Hw IH Hb n r Hn. destruct n as [|n]; [lia|]. cbn [scan_items]. rewrite <-!app_assoc. cbn [app].
    rewrite !length_app in Hn. cbn in Hn. rewrite IH by (lia || by intros _; apply stops_blank; auto). cbn [mbind result_bind].
    rewrite skip_ws_app by done. done.
  - intros w v b b' w' l Hw IH Hb Hb' Hw' IH' n r Hn. destruct n as [|n]; [lia|]. cbn [scan_items]. rewrite <-!app_assoc.
    cbn [app]. rewrite !length_app in Hn. cbn in Hn. rewrite length_app in Hn.
    rewrite IH by (lia || by intros _; apply stops_blank; auto). cbn [mbind result_bind].
    rewrite skip_ws_app by done. cbn [skip_ws]. cbn -[skip_ws scan_items]. rewrite <-app_assoc, skip_ws_app by done.
    destruct (jitems_head w' l Hw') as (c & t & Heq & Hc & _). rewrite skip_ws_id by by subst. by rewrite IH' by lia.
  - intros k key b1 b2 w v b Hk Hb1 Hb2 Hw IH Hb n r Hn. destruct n as [|n]; [lia|]. cbn [scan_members].
    cbn [app opens_with tail]. cbn [Z.eqb Pos.eqb]. rewrite <-!app_assoc, (scan_string_complete _ _ Hk), skip_ws_app by done.
    cbn [app]. cbn [skip_ws]. cbn -[skip_ws scan_once app]. rewrite <-!app_assoc, (skip_ws_value _ _ _ _ Hb2 Hw).
    cbn [length] in Hn. repeat (rewrite length_app in Hn; cbn [length] in Hn).
    rewrite IH by (lia || by intros _; apply stops_blank; auto). cbn [mbind result_bind]. rewrite skip_ws_app by done. done.
  - intros k key b1 b2 w v b b' w' d Hk Hb1 Hb2 Hw IH Hb Hb' Hw' IH' n r Hn. destruct n as [|n]; [lia|]. cbn [scan_members].
    cbn [app opens_with tail]. cbn [Z.eqb Pos.eqb]. rewrite <-!app_assoc, (scan_string_complete _ _ Hk), skip_ws_app by done.
    cbn [app]. cbn [skip_ws]. cbn -[skip_ws scan_once scan_members app]. rewrite <-!app_assoc, (skip_ws_value _ _ _ _ Hb2 Hw).
    cbn [length] in Hn. repeat (rewrite length_app in Hn; cbn [length] in Hn).
    rewrite IH by (lia || by intros _; apply stops_blank; auto). cbn [mbind result_bind]. rewrite skip_ws_app by done.
    cbn -[skip_ws scan_members app]. cbn [app skip_ws]. cbn -[skip_ws scan_members app].
    rewrite <-app_assoc, skip_ws_app by done. destruct (jmembers_head w' d Hw') as (t & Heq). rewrite skip_ws_id by by subst.
    by rewrite IH' by lia.
Qed.

Lemma skip_ws_nil t : skip_ws t = [] ↔ blank t.
Proof.
  unfold blank. induction t as [|c t IH]; cbn; [done|]. destruct (is_ws c); [done|]. split; done.
Qed.

Lemma number_not_blank b : blank b → stops b.
Proof.
  destruct b as [|c b]; [done|]. unfold blank. cbn. intros [Hc _]%andb_true_iff. unfold is_ws in Hc.
  rewrite !orb_true_iff, !Z.eqb_eq in Hc. by destruct_or! Hc; subst.
Qed.

(** [loads] reads exactly the texts of the grammar. *)
Lemma loads_pairs_iff t v : loads_pairs t = Ok v ↔ ∃ b w b', blank b ∧ blank b' ∧ jvalue w v ∧ t = b ++ w ++ b'.
Proof.
  unfold loads_pairs. split.
  - destruct (opens_with 65279 t); [done|].
    destruct (scan_once _ (skip_ws t)) as [[x r]|] eqn:Hs; cbn [mbind result_bind]; [|done].
    destruct (skip_ws r) as [|] eqn:Hr; [|done]. intros [= ->]. apply skip_ws_nil in Hr.
    apply (scan_sound _) in Hs as (w & Hw & Hv). destruct (skip_ws_split t) as (b & Hb & Ht & _).
    exists b, w, r. split_and!; [done|done|done|]. by rewrite <-Hw.
  - intros (b & w & b' & Hb & Hb' & Hw & ->).
    assert (opens_with 65279 (b ++ w ++ b') = false) as ->.
    { destruct b as [|c b].
      - destruct Hw as [w s _|w v Hin|w v (Hc & _)| | | |]; try done.
        + unfold words in Hin. rewrite !elem_of_cons in Hin.
          destruct_or! Hin; [..|by apply not_elem_of_nil in Hin]; injection Hin as -> ->; vm_compute; done.
        + destruct w as [|c w]; [done|]. destruct Hc as [Hc|Hc]; [apply digit_cases in Hc|]; rewrite !elem_of_cons in Hc;
            by destruct_or! Hc; subst; [..|apply not_elem_of_nil in Hc].
      - unfold blank in Hb. cbn in Hb. apply andb_true_iff in Hb as [Hc _]. unfold is_ws in Hc.
        rewrite !orb_true_iff, !Z.eqb_eq in Hc. by destruct_or! Hc; subst. }
    rewrite (skip_ws_value b w v b' Hb Hw).
    rewrite (proj1 scan_complete w v Hw) by (rewrite ?length_app; lia || by intros _; apply number_not_blank).
    cbn [mbind result_bind]. by apply skip_ws_nil in Hb' as ->.
Qed.
