(* ===== verification/StreamingJson.v ===== *)
(** The arguments of a tool call while they stream in (travis/ai/providers/
    streaming_json.py): the repair of strings, the parser of an unfinished JSON text,
    and the previews.

    The state of the parser is the text that is left ([index] is where it starts); an
    exception keeps the position it was raised at, as the callers that catch it go on
    from there. *)

From S2P Require Import Prelude PyDict PyFloat Utf8 PyText PyValue JsonLoads.
Open Scope Z_scope.
Local Notation text := Utf8.text.

(** ** Repair *)

(** [src: travis/ai/providers/streaming_json.py:19-20 _is_control_character] *)
Definition _is_control_character (c : Z) : bool := in_range 0 31 c.

Definition hex_digit (n : Z) : Z := if n <? 10 then 48 + n else 87 + n.

(** [src: travis/ai/providers/streaming_json.py:23-25 _escape_control_character] *)
Definition _escape_control_character (c : Z) : text :=
  if c =? 8 then [92; 98] else if c =? 12 then [92; 102] else if c =? 10 then [92; 110]
  else if c =? 13 then [92; 114] else if c =? 9 then [92; 116]
  else [92; 117; 48; 48; hex_digit (c / 16); hex_digit (c mod 16)].

(** [src: travis/ai/providers/streaming_json.py:8-8 _VALID_JSON_ESCAPES] *)
Definition _VALID_JSON_ESCAPES : list Z := [34; 92; 47; 98; 102; 110; 114; 116; 117].

Definition is_hex (c : Z) : bool := match hex_val c with Some _ => true | None => false end.

(** [src: travis/ai/providers/streaming_json.py:28-74 _repair_json] *)
Fixpoint repair_from (in_string : bool) (t : text) : text :=
  match t with
  | [] => []
  | c :: rest =>
      if negb in_string then c :: repair_from (c =? 34) rest
      else if c =? 34 then c :: repair_from false rest
      else if c =? 92 then
        match rest with
        | [] => [92; 92]
        | next :: rest' =>
            let short := if bool_decide (next ∈ _VALID_JSON_ESCAPES) then 92 :: next :: repair_from true rest'
                         else 92 :: 92 :: repair_from true rest in
            if next =? 117 then
              match rest' with
              | h1 :: h2 :: h3 :: h4 :: rest'' =>
                  if is_hex h1 && is_hex h2 && is_hex h3 && is_hex h4
                  then 92 :: 117 :: h1 :: h2 :: h3 :: h4 :: repair_from true rest''
                  else short
              | _ => short
              end
            else short
        end
      else (if _is_control_character c then _escape_control_character c else [c]) ++ repair_from true rest
  end.

Definition _repair_json (t : text) : text := repair_from false t.

(** [src: travis/ai/providers/streaming_json.py:77-84 _parse_json_with_repair] *)
Definition _parse_json_with_repair (t : text) : result loads_error pv :=
  match loads t with
  | Ok v => Ok v
  | Err JSONDecodeError =>
      let repaired := _repair_json t in
      if bool_decide (repaired ≠ t) then loads repaired else Err JSONDecodeError
  | Err e => Err e
  end.

(** ** The parser of an unfinished text *)

(** What is raised: a [_PartialJson] or a [_MalformedJson], both a [ValueError], a
    [JSONDecodeError], or the [ValueError] of a long integer.  [OutOfFuel] is not an
    exception of the code: it is never reached ([parse_terminates]). *)
Inductive partial_error : Type :=
  | PartialJson
  | MalformedJson
  | DecodeError
  | LongInteger
  | OutOfFuel.

Definition raised (e : loads_error) : partial_error :=
  match e with JSONDecodeError => DecodeError | IntTooLong => LongInteger end.

Definition parser (A : Type) : Type := st text partial_error A.

(** [try: m except Exception: handler] *)
Definition catch {A} (m : parser A) (handler : parser A) : parser A := λ t,
  match m t with
  | (Err OutOfFuel, t') => (Err OutOfFuel, t')
  | (Err _, t') => handler t'
  | r => r
  end.

(** The walk of [parse_str] behind the opening character: the text up to the closing
    quote, without it, and what follows; or the whole of the text, and whether it ends
    in the middle of an escape. *)
Fixpoint string_end (escape : bool) (t : text) : text * option text * bool :=
  match t with
  | [] => ([], None, escape)
  | c :: rest =>
      if (c =? 34) && negb escape then ([], Some rest, false)
      else let '(body, tail, e) := string_end (if c =? 92 then negb escape else false) rest in (c :: body, tail, e)
  end.

(** [json.loads(source[start:...] + quote)] for the string whose first character is
    [first]. *)
Definition loads_string (first : Z) (body : text) : result loads_error pv := loads (first :: body ++ [34]).

(** [source[start : source.rfind(backslash, start, index)]]: the text before the last
    backslash. *)
Fixpoint before_last_backslash (t : text) : option text :=
  match t with
  | [] => None
  | c :: rest =>
      match before_last_backslash rest with
      | Some p => Some (c :: p)
      | None => if c =? 92 then Some [] else None
      end
  end.

(** [json.loads(t + quote)], where [t] includes the first character. *)
Definition loads_closed (t : text) : result loads_error pv := loads (t ++ [34]).

Definition lift_loads (m : result loads_error pv) : parser pv :=
  match m with Ok v => mret v | Err e => mthrow (raised e) end.

(** [src: travis/ai/providers/streaming_json.py:108-134 _partial_parse_json.parse_str] *)
Definition parse_str : parser pv := λ t,
  match t with
  | [] => (Err DecodeError, [])
  | first :: rest =>
      match string_end false rest with
      | (body, Some after, _) =>
          match loads_string first body with
          | Ok v => (Ok v, after)
          | Err JSONDecodeError => (Err MalformedJson, after)
          | Err e => (Err (raised e), after)
          end
      | (body, None, escape) =>
          let whole := first :: body in
          match loads_closed (if escape then removelast whole else whole) with
          | Err JSONDecodeError =>
              match before_last_backslash whole with
              | Some p => lift_loads (loads_closed p) []
              | None => (Err DecodeError, [])
              end
          | r => lift_loads r []
          end
      end
  end.

(** [token[:token.rfind("e")]] *)
Fixpoint before_last_e (t : text) : option text :=
  match t with
  | [] => None
  | c :: rest =>
      match before_last_e rest with
      | Some p => Some (c :: p)
      | None => if c =? 101 then Some [] else None
      end
  end.

(** The characters up to a comma or a closing bracket. *)
Fixpoint take_token (t : text) : text * text :=
  match t with
  | [] => ([], [])
  | c :: rest =>
      if (c =? 44) || (c =? 93) || (c =? 125) then ([], t)
      else let '(token, after) := take_token rest in (c :: token, after)
  end.

(** The token of a number: a minus sign is taken whatever follows. *)
Definition number_token (t : text) : text * text :=
  match t with
  | c :: rest => if c =? 45 then let '(token, after) := take_token rest in (c :: token, after) else take_token t
  | [] => ([], [])
  end.

(** The second try, before the last [e]. *)
Definition loads_mantissa (token : text) (failed : partial_error) : result partial_error pv :=
  match before_last_e token with
  | None => Err failed
  | Some mantissa =>
      match loads mantissa with
      | Ok v => Ok v
      | Err JSONDecodeError => Err failed
      | Err e => Err (raised e)
      end
  end.

(** [src: travis/ai/providers/streaming_json.py:136-171 _partial_parse_json.parse_num]:
    [index == 0] when the whole source is left. *)
Definition parse_num (source : text) : parser pv := λ t,
  if bool_decide (t = source) then
    if bool_decide (source = [45]) then (Err MalformedJson, t)
    else match loads source with
         | Ok v => (Ok v, t)
         | Err JSONDecodeError => (loads_mantissa source MalformedJson, t)
         | Err e => (Err (raised e), t)
         end
  else
    let '(token, after) := number_token t in
    match loads token with
    | Ok v => (Ok v, after)
    | Err JSONDecodeError =>
        (if bool_decide (token = [45]) then Err PartialJson else loads_mantissa token DecodeError, after)
    | Err e => (Err (raised e), after)
    end.

(** [skip_blank()] *)
Definition skip_blank : parser unit := st_modify skip_ws.

(** [if index < length and source[index] == c: index += 1] *)
Definition skip_char (c : Z) : parser unit := st_modify (λ t, if opens_with c t then tail t else t).

(** The literals, in the order in which they are tried. *)
Definition literals : list (text * pv) := [(lit "null", PNone); (lit "true", PBool true); (lit "false", PBool false)].

(** [remaining.startswith(literal) or literal.startswith(remaining)] *)
Definition literal_of (t : text) : option (text * pv) :=
  List.find (λ p, is_prefix p.1 t || is_prefix t p.1) literals.

Section parsing.
Variable source : text.

(** [src: travis/ai/providers/streaming_json.py:87-236 _partial_parse_json] *)
Fixpoint parse_any (fuel : nat) : parser pv :=
  match fuel with
  | O => mthrow OutOfFuel
  | S fuel =>
      _ ← skip_blank;
      t ← st_get;
      match t with
      | [] => mthrow PartialJson
      | c :: rest =>
          if c =? 34 then parse_str
          else if c =? 123 then _ ← st_put (skip_ws rest); d ← parse_obj fuel []; mret (PDict d)
          else if c =? 91 then _ ← st_put rest; l ← parse_arr fuel []; mret (PList l)
          else match literal_of t with
               | Some (word, v) => _ ← st_put (drop (length word) t); mret v
               | None => parse_num source
               end
      end
  end
(** The loop of [parse_arr], with the array so far. *)
with parse_arr (fuel : nat) (array : list pv) : parser (list pv) :=
  match fuel with
  | O => mthrow OutOfFuel
  | S fuel =>
      t ← st_get;
      match t with
      | [] => mret array
      | c :: rest =>
          if c =? 93 then _ ← st_put rest; mret array
          else
            item ← catch (v ← parse_any fuel; mret (Some v)) (mret None);
            match item with
            | None => mret array
            | Some v => _ ← skip_blank; _ ← skip_char 44; parse_arr fuel (array ++ [v])
            end
      end
  end
(** The loop of [parse_obj], with the object so far. *)
with parse_obj (fuel : nat) (obj : list (text * pv)) : parser (list (text * pv)) :=
  match fuel with
  | O => mthrow OutOfFuel
  | S fuel =>
      t ← st_get;
      match t with
      | [] => mret obj
      | c :: rest =>
          if c =? 125 then _ ← st_put rest; mret obj
          else
            _ ← skip_blank;
            t ← st_get;
            match t with
            | [] => mret obj
            | _ =>
                key ← catch (v ← parse_str; mret (Some v)) (mret None);
                match key with
                | Some (PStr key) =>
                    _ ← skip_blank;
                    t ← st_get;
                    if opens_with 58 t then
                      _ ← st_put (tail t);
                      value ← catch (v ← parse_any fuel; mret (Some v)) (mret None);
                      match value with
                      | None => mret obj
                      | Some v => _ ← skip_blank; _ ← skip_char 44; parse_obj fuel (od_set key v obj)
                      end
                    else mret obj
                | _ => mret obj
                end
            end
      end
  end.
End parsing.

(** The fuel is enough for any text ([parse_terminates]). *)
Definition parse_fuel (t : text) : nat := S (2 * length t).

Definition _partial_parse_json (t : text) : result partial_error pv :=
  let source := strip t in
  match source with
  | [] => Err MalformedJson
  | _ => (parse_any source (parse_fuel source) source).1
  end.

(** [parsed if isinstance(parsed, dict) else {}] *)
Definition dict_or_empty (v : pv) : list (text * pv) := match v with PDict d => d | _ => [] end.

(** [src: travis/ai/providers/streaming_json.py:239-252 _parse_streaming_json] *)
Definition _parse_streaming_json (partial_json : option text) : list (text * pv) :=
  match partial_json with
  | None => []
  | Some t =>
      match strip t with
      | [] => []
      | _ =>
          match _parse_json_with_repair t with
          | Ok v => dict_or_empty v
          | Err _ =>
              match _partial_parse_json t with
              | Ok v => dict_or_empty v
              | Err _ => match _partial_parse_json (_repair_json t) with
                         | Ok v => dict_or_empty v
                         | Err _ => []
                         end
              end
          end
      end
  end.

(** [src: travis/ai/providers/streaming_json.py:9-9 _STREAMING_TOOL_ARGUMENT_PREVIEW_MAX_CHARS] *)
Definition _STREAMING_TOOL_ARGUMENT_PREVIEW_MAX_CHARS : Z := 8192.

(** [src: travis/ai/providers/streaming_json.py:255-262 _parse_streaming_json_preview] *)
Definition _parse_streaming_json_preview (partial_json : option text) (previous : option (list (text * pv)))
    : list (text * pv) :=
  match partial_json with
  | None => []
  | Some t =>
      match strip t with
      | [] => []
      | _ =>
          if Z.of_nat (length t) <=? _STREAMING_TOOL_ARGUMENT_PREVIEW_MAX_CHARS then _parse_streaming_json (Some t)
          else match previous with
               | Some ((_ :: _) as d) => d
               | _ => _parse_streaming_json (Some (take (Z.to_nat _STREAMING_TOOL_ARGUMENT_PREVIEW_MAX_CHARS) t))
               end
      end
  end.

(** [src: travis/ai/providers/streaming_json.py:265-266 _parse_complete_tool_arguments] *)
Definition _parse_complete_tool_arguments (raw_arguments : option text) : list (text * pv) :=
  _parse_streaming_json raw_arguments.

(** Texts of the samples: [#] stands for a quote, [@] for a backslash. *)
Definition quoted (s : string) : text :=
  map (λ c, if c =? 35 then 34 else if c =? 64 then 92 else c) (lit s).

Definition sample (s : string) : list (text * pv) := _parse_streaming_json (Some (quoted s)).

Example streaming_samples :
  sample "" = [] ∧ sample "{" = [] ∧ sample "{#a" = [] ∧ sample "{#a#:" = [] ∧
  sample "{#path#: #/tmp/x" = [(lit "path", PStr (lit "/tmp/x"))] ∧
  sample "{#a#: tr" = [(lit "a", PBool true)] ∧
  sample "{#a#: -" = [] ∧ sample "{#a#: 12" = [(lit "a", PInt 12)] ∧ sample "{#a#: 1e" = [(lit "a", PInt 1)] ∧
  sample "{#a#: [1, {#b#: #x@" = [(lit "a", PList [PInt 1; PDict [(lit "b", PStr (lit "x"))]])] ∧
  sample "{#a#: #x@u00" = [(lit "a", PStr (lit "x"))] ∧
  sample "{#a#: #C:@Dir#}" = [(lit "a", PStr (quoted "C:@Dir"))] ∧
  sample "[1, 2]" = [] ∧
  sample "{#a#: 1, #a#: 2, #b#: {}" = [(lit "a", PInt 2); (lit "b", PDict [])].
Proof. vm_compute. repeat split. Qed.

(** An empty array that is written with a blank is not consumed: what follows is read
    at the wrong place, and the text of a string is taken for items. *)
Example blank_array_misread :
  sample "{#a#: [{#b#: [ ]}, #1,2" = [(lit "a", PList [PDict [(lit "b", PList [])]; PInt 1; PInt 2])] ∧
  sample "{#a#: [{#b#: [ ]}, #1,2#]}" = [(lit "a", PList [PDict [(lit "b", PList [])]; PStr (lit "1,2")])].
Proof. vm_compute. repeat split. Qed.
