(* ===== verification/StreamingJsonSpec.v ===== *)
(** Properties of streamed arguments: the parser ends; repairing leaves valid texts
    alone; the preview of a prefix approximates the arguments of the whole text. *)

From S2P Require Import Prelude PyDict PyFloat Utf8 PyText PyValue JsonLoads JsonLoadsSpec StreamingJson.
Open Scope Z_scope.
Local Notation text := Utf8.text.

(** ** What a part of a text tells *)

(** A part of a string: its first characters, where the last may be the first half of
    one that is written as two escapes. *)
Inductive cut : text → text → Prop :=
  | cut_nil s : cut [] s
  | cut_cons c s s' : cut s' s → cut (c :: s') (c :: s)
  | cut_half u v s : is_high u = true → is_low v = true → cut [u] (join_surrogates u v :: s).

(** What may be shown for a value of which only a part has come in, given with the pairs
    of its objects: the value itself; a part of a string; some number for a number; the
    first items of a list, the last of them in part; the first members of an object, the
    last of them in part. *)
Inductive approx : pv → pv → Prop :=
  | ap_done v : approx v (dict_of v)
  | ap_str s s' : cut s' s → approx (PStr s) (PStr s')
  | ap_num v v' : is_number v → is_number v' → approx v v'
  | ap_list l l' : approx_items l l' → approx (PList l) (PList l')
  | ap_obj d d' : approx_members d d' → approx (PDict d) (PDict (dict_pairs d'))
with approx_items : list pv → list pv → Prop :=
  | ai_nil l : approx_items l []
  | ai_last x y l : approx x y → approx_items (x :: l) [y]
  | ai_more x l l' : approx_items l l' → approx_items (x :: l) (dict_of x :: l')
with approx_members : list (text * pv) → list (text * pv) → Prop :=
  | am_nil d : approx_members d []
  | am_last k x y d : approx x y → approx_members ((k, x) :: d) [(k, y)]
  | am_more k x d d' : approx_members d d' → approx_members ((k, x) :: d) ((k, dict_of x) :: d').

(** ** Strings *)

(** What [parse_str] makes of the first part of the body of a string. *)
Definition read_cut (p : text) (escape : bool) (s' : text) : Prop :=
  if escape then ∃ p0, p = p0 ++ [92] ∧ scan_string (p0 ++ [34]) = Some (s', [])
  else scan_string (p ++ [34]) = Some (s', []) ∨
       scan_string (p ++ [34]) = None ∧ ∃ p0, before_last_backslash p = Some p0 ∧ scan_string (p0 ++ [34]) = Some (s', []).

Lemma hex_not_special c v : hex_val c = Some v → c ≠ 34 ∧ c ≠ 92.
Proof. intros H%hex_val_range. lia. Qed.

Lemma string_end_plain c p : c ≠ 34 → c ≠ 92 →
  string_end false (c :: p) = let '(body, tail, e) := string_end false p in (c :: body, tail, e).
Proof. intros H1 H2. cbn. apply Z.eqb_neq in H1, H2. by rewrite H1, H2. Qed.

Lemma string_end_escape e p :
  string_end false (92 :: e :: p) = let '(body, tail, x) := string_end false p in (92 :: e :: body, tail, x).
Proof. cbn. rewrite andb_false_r. destruct (e =? 92); by destruct (string_end false p) as [[? ?] ?]. Qed.

Lemma string_end_hex a b c d u p : hex4 a b c d = Some u →
  string_end false (92 :: 117 :: a :: b :: c :: d :: p) =
    let '(body, tail, e) := string_end false p in (92 :: 117 :: a :: b :: c :: d :: body, tail, e).
Proof.
  intros H%hex4_hexes. unfold hexes in H. rewrite !Forall_cons in H. destruct H as ([? Ha%hex_not_special] & [? Hb%hex_not_special] &
    [? Hc%hex_not_special] & [? Hd%hex_not_special] & _).
  rewrite string_end_escape, !string_end_plain by tauto. by destruct (string_end false p) as [[? ?] ?].
Qed.

Lemma before_last_app p q p0 : before_last_backslash q = Some p0 → before_last_backslash (p ++ q) = Some (p ++ p0).
Proof. intros H. induction p as [|c p IH]; cbn; [done|]. by rewrite IH. Qed.

Lemma before_last_split p p0 : before_last_backslash p = Some p0 → ∃ z, p = p0 ++ 92 :: z.
Proof.
  revert p0. induction p as [|c p IH]; intros p0; cbn; [done|]. destruct (before_last_backslash p) as [x|].
  - intros [= <-]. destruct (IH x eq_refl) as [z ->]. by exists z.
  - destruct (Z.eqb_spec c 92) as [->|]; [|done]. intros [= <-]. by exists p.
Qed.

(** A unit of the body before a part that is read. *)
Lemma read_cut_unit unit u w p e s' : (∃ q, w = p ++ q) →
  (∀ x z, w = x ++ z → scan_string (unit ++ x ++ [34]) = push u (scan_string (x ++ [34]))) →
  read_cut p e s' → read_cut (unit ++ p) e (u :: s').
Proof.
  intros [q ->] Hscan. unfold read_cut. destruct e.
  - intros (p0 & -> & Hp). exists (unit ++ p0). split; [by rewrite app_assoc|].
    rewrite <-app_assoc, (Hscan p0 ([92] ++ q)) by by rewrite <-app_assoc. by rewrite Hp.
  - rewrite <-app_assoc, (Hscan p q eq_refl). intros [-> |(-> & p0 & Hb & Hp)]; [by left|right]. split; [done|].
    exists (unit ++ p0). split; [by apply before_last_app|]. apply before_last_split in Hb as (z & ->).
    rewrite <-app_assoc, (Hscan p0 ((92 :: z) ++ q)) by by rewrite <-app_assoc. by rewrite Hp.
Qed.

Lemma read_cut_nil : read_cut [] false [].
Proof. by left. Qed.

(** The first part of a hexadecimal escape. *)
Lemma partial_hex h : (length h < 4)%nat → Forall (λ c, ∃ v, hex_val c = Some v) h →
  string_end false (92 :: 117 :: h) = (92 :: 117 :: h, None, false) ∧ scan_string (92 :: 117 :: h ++ [34]) = None ∧
  before_last_backslash (92 :: 117 :: h) = Some [] ∧ ¬ low_escape (92 :: 117 :: h ++ [34]).
Proof.
  intros Hlen Hh. assert (∀ c, c ∈ h → c ≠ 34 ∧ c ≠ 92) as Hc.
  { intros c Hc. rewrite Forall_forall in Hh. destruct (Hh c Hc) as [v Hv]. by eapply hex_not_special. }
  assert (hex_val 34 = None) as Hq by done. split_and!.
  - rewrite string_end_escape. assert (string_end false h = (h, None, false)) as ->; [|done].
    clear - Hc. induction h as [|c h IH]; [done|]. rewrite string_end_plain by (apply Hc; by left).
    rewrite IH; [done|]. intros d Hd. apply Hc. by right.
  - destruct h as [|a [|b [|c [|d h]]]]; cbn -[hex4 Z.eqb]; try done; [|cbn in Hlen; lia].
    unfold hex4. destruct (hex_val a), (hex_val b), (hex_val c); cbn; by rewrite ?Hq.
  - assert (before_last_backslash h = None) as Hb.
    { clear - Hc. induction h as [|c h IH]; [done|]. cbn. rewrite IH by (intros d Hd; apply Hc; by right).
      destruct (Hc c) as [_ H%Z.eqb_neq]; [by left|]. by rewrite H. }
    cbn. by rewrite Hb.
  - intros (a & b & c & d & v & t' & Heq & Hv & _). injection Heq as Heq.
    destruct h as [|x [|y [|z [|o h]]]]; cbn in Heq; simplify_eq; [|cbn in Hlen; lia].
    unfold hex4 in Hv. rewrite Hq in Hv. by destruct (hex_val a), (hex_val b), (hex_val c).
Qed.

Lemma low_escape_closed x z : low_escape (x ++ [34]) → low_escape (x ++ z).
Proof.
  intros (a & b & c & d & v & t' & Heq & Hv & Hl).
  destruct x as [|x1 [|x2 [|x3 [|x4 [|x5 [|x6 x]]]]]]; cbn in Heq; simplify_eq.
  - unfold hex4 in Hv. change (hex_val 34) with (@None Z) in Hv. by destruct (hex_val a), (hex_val b), (hex_val c).
  - unfold low_escape. cbn. eauto 10.
Qed.

(** A proper first part of a hexadecimal escape, and what follows it. *)
Lemma hex_cases a b c d w p q : 92 :: 117 :: a :: b :: c :: d :: w = p ++ q →
  p = [] ∨ p = [92] ∨ (∃ h r, p = 92 :: 117 :: h ∧ (length h < 4)%nat ∧ [a; b; c; d] = h ++ r) ∨
  ∃ p', p = 92 :: 117 :: a :: b :: c :: d :: p' ∧ w = p' ++ q.
Proof.
  intros H. destruct p as [|x1 [|x2 p]]; [by left|right; left; by simplify_eq/=|right; right]. simplify_eq/=.
  destruct p as [|y1 [|y2 [|y3 [|y4 p]]]]; simplify_eq/=;
    [left; eexists _, _; split_and!; [reflexivity|cbn; lia|reflexivity]..|right; by eexists].
Qed.

Lemma string_cut w s : jstring w s → ∀ p q, w = p ++ q → q ≠ [] →
  ∃ e, string_end false p = (p, None, e) ∧ ∃ s', cut s' s ∧ read_cut p e s'.
Proof.
  assert (∀ s, ∃ e, string_end false [] = ([], None, e) ∧ ∃ s', cut s' s ∧ read_cut [] e s') as Hnil.
  { intros s'. exists false. split; [done|]. exists []. split; [constructor|apply read_cut_nil]. }
  assert (∀ s, ∃ e, string_end false [92] = ([92], None, e) ∧ ∃ s', cut s' s ∧ read_cut [92] e s') as Hesc.
  { intros s'. exists true. split; [done|]. exists []. split; [constructor|]. by exists []. }
  assert (∀ a b c d u h r s, hex4 a b c d = Some u → (length h < 4)%nat → [a; b; c; d] = h ++ r →
    ∃ e, string_end false (92 :: 117 :: h) = (92 :: 117 :: h, None, e) ∧ ∃ s', cut s' s ∧ read_cut (92 :: 117 :: h) e s') as Hhex.
  { intros a b c d u h r s' Hu Hlen Heq. destruct (partial_hex h Hlen) as (H1 & H2 & H3 & _).
    { apply hex4_hexes in Hu. unfold hexes in Hu. rewrite Heq in Hu. by apply Forall_app in Hu as [Hu _]. }
    exists false. split; [done|]. exists []. split; [constructor|]. right. split; [done|]. by exists []. }
  induction 1 as [|c w s H1 H2 H3 Hw IH|e u w s H1 H2 Hw IH|a b c d u w s Hu Hl Hw IH|a b c d u a' b' c' d' v w s Hu Hh Hv Hl Hw IH];
    intros p q Heq Hq.
  - destruct p as [|x [|y p]]; [apply Hnil|cbn in Heq; by simplify_eq|done].
  - destruct p as [|x p]; [apply Hnil|]. injection Heq as <- ->. destruct (IH p q eq_refl Hq) as (e & He & s' & Hc & Hr).
    exists e. rewrite string_end_plain, He by done. split; [done|]. exists (c :: s'). split; [by constructor|].
    apply (read_cut_unit [c] c (p ++ q)); [by exists q|intros x z _; cbn [app]; by apply scan_plain|done].
  - destruct p as [|x [|y p]]; [apply Hnil|cbn in Heq; simplify_eq; apply Hesc|]. injection Heq as <- <- ->.
    destruct (IH p q eq_refl Hq) as (e' & He & s' & Hc & Hr).
    exists e'. rewrite string_end_escape, He. split; [done|]. exists (u :: s'). split; [by constructor|].
    apply (read_cut_unit [92; e] u (p ++ q)); [by exists q|intros x z _; cbn [app]; by apply scan_short|done].
  - apply hex_cases in Heq as [->|[->|[(h & r & -> & Hlen & Heq)|(p' & -> & ->)]]]; [apply Hnil|apply Hesc|exact (Hhex _ _ _ _ _ _ _ _ Hu Hlen Heq)|].
    destruct (IH p' q eq_refl Hq) as (e & He & s' & Hc & Hr). exists e. rewrite (string_end_hex _ _ _ _ _ _ Hu), He. split; [done|].
    exists (u :: s'). split; [by constructor|].
    apply (read_cut_unit [92; 117; a; b; c; d] u (p' ++ q)); [by exists q| |done]. intros x z Hxz. cbn [app].
    apply scan_hex; [done|]. intros Hhigh Hlow. apply (Hl Hhigh). rewrite Hxz. by apply low_escape_closed.
  - apply hex_cases in Heq as [->|[->|[(h & r & -> & Hlen & Heq)|(p1 & -> & Heq)]]]; [apply Hnil|apply Hesc|exact (Hhex _ _ _ _ _ _ _ _ Hu Hlen Heq)|].
    assert (cut [u] (join_surrogates u v :: s)) as Hhalf by by constructor.
    assert (¬ low_escape [34]) as Hn by (intros (?&?&?&?&?&?&?&?&?); discriminate).
    apply hex_cases in Heq as [->|[->|[(h & r & -> & Hlen & Heq)|(p' & -> & ->)]]].
    + exists false. rewrite (string_end_hex _ _ _ _ _ _ Hu). split; [done|]. exists [u]. split; [done|]. left. cbn [app].
      by rewrite (scan_hex _ _ _ _ u).
    + exists true. rewrite (string_end_hex _ _ _ _ _ _ Hu). split; [done|]. exists [u]. split; [done|].
      exists [92; 117; a; b; c; d]. split; [done|]. cbn [app]. by rewrite (scan_hex _ _ _ _ u).
    + destruct (partial_hex h Hlen) as (P1 & P2 & P3 & P4).
      { apply hex4_hexes in Hv. unfold hexes in Hv. rewrite Heq in Hv. by apply Forall_app in Hv as [Hv _]. }
      exists false. rewrite (string_end_hex _ _ _ _ _ _ Hu), P1. split; [done|]. exists [u]. split; [done|]. right.
      split; [cbn [app]; rewrite (scan_hex _ _ _ _ u) by done; cbn [app] in P2; by rewrite P2|].
      exists [92; 117; a; b; c; d]. split; [by apply (before_last_app [92; 117; a; b; c; d] (92 :: 117 :: h))|].
      cbn [app]. by rewrite (scan_hex _ _ _ _ u).
    + destruct (IH p' q eq_refl Hq) as (e & He & s' & Hc & Hr). exists e.
      rewrite (string_end_hex _ _ _ _ _ _ Hu), (string_end_hex _ _ _ _ _ _ Hv), He. split; [done|].
      exists (join_surrogates u v :: s'). split; [by constructor|].
      apply (read_cut_unit [92; 117; a; b; c; d; 92; 117; a'; b'; c'; d'] (join_surrogates u v) (p' ++ q)); [by exists q| |done].
      intros x z _. cbn [app]. by apply scan_pair.
Qed.

(** *** [parse_str] *)

Lemma string_end_complete w s : jstring w s → ∃ body, w = body ++ [34] ∧ ∀ r, string_end false (w ++ r) = (body, Some r, false).
Proof.
  induction 1 as [|c w s H1 H2 H3 _ (body & -> & IH)|e u w s H1 H2 _ (body & -> & IH)|a b c d u w s Hu _ _ (body & -> & IH)|
                  a b c d u a' b' c' d' v w s Hu _ Hv _ _ (body & -> & IH)].
  - by exists [].
  - exists (c :: body). split; [done|]. intros r. cbn [app]. by rewrite string_end_plain, IH.
  - exists (92 :: e :: body). split; [done|]. intros r. cbn [app]. by rewrite string_end_escape, IH.
  - exists (92 :: 117 :: a :: b :: c :: d :: body). split; [done|]. intros r. cbn [app]. by rewrite (string_end_hex _ _ _ _ _ _ Hu), IH.
  - exists (92 :: 117 :: a :: b :: c :: d :: 92 :: 117 :: a' :: b' :: c' :: d' :: body). split; [done|]. intros r. cbn [app].
    by rewrite (string_end_hex _ _ _ _ _ _ Hu), (string_end_hex _ _ _ _ _ _ Hv), IH.
Qed.

Lemma loads_quoted x : loads (34 :: x) =
  match scan_string x with
  | Some (s, rest) => match skip_ws rest with [] => Ok (PStr s) | _ => Err JSONDecodeError end
  | None => Err JSONDecodeError
  end.
Proof.
  unfold loads, loads_pairs. cbn [opens_with skip_ws is_ws Z.eqb Pos.eqb orb]. cbn [scan_once].
  cbn [Z.eqb Pos.eqb]. destruct (scan_string x) as [[s rest]|]; cbn [mbind result_bind]; [|done]. by destruct (skip_ws rest).
Qed.

Lemma parse_str_complete w s r : jstring w s → parse_str (34 :: w ++ r) = (Ok (PStr s), r).
Proof.
  intros Hw. destruct (string_end_complete w s Hw) as (body & -> & He). unfold parse_str. rewrite He.
  unfold loads_string. rewrite loads_quoted. apply scan_string_complete with (t := []) in Hw. rewrite app_nil_r in Hw. by rewrite Hw.
Qed.

Lemma parse_str_cut w s p q : jstring w s → w = p ++ q → q ≠ [] → ∃ s', cut s' s ∧ parse_str (34 :: p) = (Ok (PStr s'), []).
Proof.
  intros Hw Heq Hq. destruct (string_cut w s Hw p q Heq Hq) as (e & He & s' & Hc & Hr). exists s'. split; [done|].
  unfold parse_str. rewrite He. unfold loads_closed. destruct e.
  - destruct Hr as (p0 & -> & Hp). rewrite app_comm_cons, removelast_last. cbn [app]. by rewrite loads_quoted, Hp.
  - cbn [app]. rewrite loads_quoted. destruct Hr as [-> |(-> & p0 & Hb & Hp)]; [done|].
    cbn [before_last_backslash]. rewrite Hb. cbn [app]. by rewrite loads_quoted, Hp.
Qed.

(** *** The equations of the parser *)

(** A call whose exceptions end the loop around it with [k0]. *)
Definition guarded {A B} (m : result partial_error A * text) (k : A → text → result partial_error B * text) (k0 : B)
    : result partial_error B * text :=
  match m with
  | (Ok v, t) => k v t
  | (Err OutOfFuel, t) => (Err OutOfFuel, t)
  | (Err _, t) => (Ok k0, t)
  end.

Definition after_item (t : text) : text := let t := skip_ws t in if opens_with 44 t then tail t else t.

Section parser.
Variable source : text.

Lemma parse_any_eq m t : parse_any source (S m) t =
  match skip_ws t with
  | [] => (Err PartialJson, [])
  | c :: rest =>
      if c =? 34 then parse_str (c :: rest)
      else if c =? 123 then
        match parse_obj source m [] (skip_ws rest) with (Ok d, t') => (Ok (PDict d), t') | (Err e, t') => (Err e, t') end
      else if c =? 91 then
        match parse_arr source m [] rest with (Ok l, t') => (Ok (PList l), t') | (Err e, t') => (Err e, t') end
      else match literal_of (c :: rest) with
           | Some (word, v) => (Ok v, drop (length word) (c :: rest))
           | None => parse_num source (c :: rest)
           end
  end.
Proof.
  cbn [parse_any]. unfold mbind, st_bind, skip_blank, st_modify, st_get, st_put, mret, st_ret, mthrow, st_throw.
  destruct (skip_ws t) as [|c rest]; [done|]. destruct (c =? 34), (c =? 123), (c =? 91); try done.
  by destruct (literal_of (c :: rest)) as [[? ?]|].
Qed.

Lemma parse_arr_eq m array t : parse_arr source (S m) array t =
  match t with
  | [] => (Ok array, [])
  | c :: rest =>
      if c =? 93 then (Ok array, rest)
      else guarded (parse_any source m t) (λ v t', parse_arr source m (array ++ [v]) (after_item t')) array
  end.
Proof.
  cbn [parse_arr]. unfold mbind, st_bind, skip_blank, skip_char, st_modify, st_get, st_put, mret, st_ret, catch, guarded.
  destruct t as [|c rest]; [done|]. destruct (c =? 93); [done|].
  by destruct (parse_any source m (c :: rest)) as [[v|[]] t'].
Qed.

Lemma parse_obj_eq m obj t : parse_obj source (S m) obj t =
  match t with
  | [] => (Ok obj, [])
  | c :: rest =>
      if c =? 125 then (Ok obj, rest)
      else match skip_ws t with
           | [] => (Ok obj, [])
           | t1 =>
               guarded (parse_str t1) (λ key t2,
                 match key with
                 | PStr key =>
                     let t3 := skip_ws t2 in
                     if opens_with 58 t3 then
                       guarded (parse_any source m (tail t3)) (λ v t4, parse_obj source m (od_set key v obj) (after_item t4)) obj
                     else (Ok obj, t3)
                 | _ => (Ok obj, t2)
                 end) obj
           end
  end.
Proof.
  cbn [parse_obj]. unfold mbind, st_bind, skip_blank, skip_char, st_modify, st_get, st_put, mret, st_ret, catch, guarded.
  destruct t as [|c rest]; [done|]. destruct (c =? 125); [done|]. destruct (skip_ws (c :: rest)) as [|c1 t1]; [done|].
  destruct (parse_str (c1 :: t1)) as [[[]|[]] t2]; try done. destruct (opens_with 58 (skip_ws t2)); [|done].
  by destruct (parse_any source m (tail (skip_ws t2))) as [[v|[]] t'].
Qed.

(** *** Numbers and words *)

(** What may follow a number in a text that is read. *)
Definition delimited (r : text) : Prop :=
  match skip_ws r with c :: _ => c = 44 ∨ c = 93 ∨ c = 125 | [] => True end.

Lemma split_app {A} (x y p q : list A) : x ++ y = p ++ q →
  (∃ z, p = x ++ z ∧ y = z ++ q) ∨ (∃ z, x = p ++ z ∧ q = z ++ y ∧ z ≠ []).
Proof.
  intros H. destruct (decide (length x <= length p)%nat) as [Hle|Hgt].
  - left. exists (drop (length x) p). assert (take (length x) p = x) as Ht.
    { rewrite <-(take_app_le p q) by done. by rewrite <-H, take_app_length. }
    split; [by rewrite <-Ht at 1; rewrite take_drop|]. apply (app_inv_head x).
    rewrite H, app_assoc. rewrite <-Ht at 1. by rewrite take_drop.
  - right. exists (drop (length p) x). assert (take (length p) x = p) as Ht.
    { rewrite <-(take_app_le x y) by lia. by rewrite H, take_app_length. }
    split; [by rewrite <-Ht at 1; rewrite take_drop|]. split.
    + apply (app_inv_head p). rewrite <-H, app_assoc. rewrite <-Ht at 1. by rewrite take_drop.
    + intros Hd. apply (f_equal length) in Hd. rewrite length_drop in Hd. cbn in Hd. lia.
Qed.

Lemma blank_app b c : blank (b ++ c) ↔ blank b ∧ blank c.
Proof. unfold blank. rewrite forallb_app. apply andb_true_iff. Qed.

Lemma token_char_not c : token_char c = true → is_ws c = false ∧ c ≠ 34 ∧ c ≠ 44 ∧ c ≠ 93 ∧ c ≠ 125.
Proof.
  unfold token_char. intros [Hw%negb_true_iff H%negb_true_iff]%andb_true_iff. split; [done|].
  split_and!; intros ->; done.
Qed.

Lemma take_token_app w r : token w → take_token (w ++ r) = let '(t, a) := take_token r in (w ++ t, a).
Proof.
  unfold token. induction w as [|c w IH]; cbn [app forallb]; [by destruct (take_token r)|]. intros [Hc Hw]%andb_true_iff.
  apply token_char_not in Hc as (_ & _ & H1 & H2 & H3). apply Z.eqb_neq in H1, H2, H3. cbn [take_token]. rewrite H1, H2, H3. cbn [orb].
  rewrite IH by done. by destruct (take_token r).
Qed.

Lemma take_token_delimited r : delimited r → ∃ b, blank b ∧ take_token r = (b, skip_ws r).
Proof.
  unfold delimited. induction r as [|c r IH]; [by exists []|]. cbn [skip_ws]. destruct (is_ws c) eqn:Hc.
  - intros H. destruct (IH H) as (b & Hb & Ht). exists (c :: b). split; [unfold blank; cbn; by rewrite Hc, Hb|].
    cbn [take_token]. rewrite Ht. unfold is_ws in Hc. rewrite !orb_true_iff, !Z.eqb_eq in Hc. by destruct_or! Hc; subst.
  - intros H. exists []. split; [done|]. cbn [take_token]. by destruct H as [->|[->| ->]].
Qed.

Lemma number_token_eq t : match t with c :: _ => c ≠ 44 ∧ c ≠ 93 ∧ c ≠ 125 | [] => True end → number_token t = take_token t.
Proof.
  unfold number_token. destruct t as [|c t]; [done|]. intros (H1 & H2 & H3). destruct (Z.eqb_spec c 45) as [->|]; [|done].
  by cbn.
Qed.

(** The first characters of numbers. *)
Definition number_head (c : Z) : Prop := is_digit c = true ∨ c ∈ [45; 78; 73].

Lemma number_head_cases c : number_head c → c ∈ [48; 49; 50; 51; 52; 53; 54; 55; 56; 57; 45; 78; 73].
Proof. intros [H%digit_cases|H]; set_solver. Qed.

Ltac number_heads H := apply number_head_cases in H; rewrite !elem_of_cons in H;
  destruct_or! H; subst; [..|by apply not_elem_of_nil in H].

Lemma loads_number c t v : number_head c → loads (c :: t) = Ok v → is_number v.
Proof.
  unfold loads. intros Hc. destruct (loads_pairs (c :: t)) as [x|] eqn:Hx; cbn [mbind result_bind]; [|done]. intros [= <-].
  apply loads_pairs_iff in Hx as (b & w & b' & Hb & _ & Hw & Heq).
  destruct b as [|d b].
  2:{ injection Heq as <- _. unfold blank in Hb. cbn in Hb. apply andb_true_iff in Hb as [Hb _].
      number_heads Hc; done. }
  cbn in Heq. destruct Hw as [w s _|w v Hin|w v (_ & _ & Hn & _)| | | |];
    [injection Heq as -> _; by number_heads Hc| |by destruct v|injection Heq as -> _; by number_heads Hc..].
  unfold words in Hin. rewrite !elem_of_cons in Hin.
  destruct_or! Hin; [..|by apply not_elem_of_nil in Hin]; injection Hin as -> ->; vm_compute in Heq; injection Heq as -> _;
    by number_heads Hc.
Qed.

Lemma loads_mantissa_number c t failed v : number_head c → loads_mantissa (c :: t) failed = Ok v → is_number v.
Proof.
  intros Hc. unfold loads_mantissa. destruct (before_last_e (c :: t)) as [m|] eqn:Hm; [|done].
  assert (m = [] ∨ ∃ m', m = c :: m') as [->|[m' ->]].
  { cbn in Hm. destruct (before_last_e t); [injection Hm as <-; eauto|]. destruct (c =? 101); [injection Hm as <-; eauto|done]. }
  - done.
  - destruct (loads (c :: m')) as [x|[]] eqn:Hx; try done. intros [= <-]. by eapply loads_number.
Qed.

Lemma literal_none c t : number_head c → literal_of (c :: t) = None.
Proof. intros H. number_heads H; vm_compute; reflexivity. Qed.

Lemma dict_of_number v : is_number v → dict_of v = v.
Proof. by destruct v. Qed.

(** A number that has come in whole, and one that has not. *)
Lemma parse_num_complete w v r : number w v → delimited r → (length (w ++ r) < length source)%nat →
  parse_num source (w ++ r) = (Ok v, skip_ws r).
Proof.
  intros Hw Hr Hlen. pose proof Hw as (Hc & Ht & Hv & _). unfold parse_num. rewrite bool_decide_false by (intros Heq; rewrite Heq in Hlen; lia).
  rewrite number_token_eq.
  2:{ destruct w as [|c w]; [done|]. unfold token in Ht. cbn in Ht. apply andb_true_iff in Ht as [Ht%token_char_not _]. cbn. tauto. }
  rewrite take_token_app by done. destruct (take_token_delimited r Hr) as (b & Hb & ->).
  unfold loads. rewrite (proj2 (loads_pairs_iff (w ++ b) v)).
  - cbn [mbind result_bind]. by rewrite dict_of_number.
  - exists [], w, b. split_and!; try done. by constructor.
Qed.

Lemma parse_num_cut w v p q : number w v → w = p ++ q → p ≠ [] → (length p < length source)%nat →
  ∃ o, parse_num source p = (o, []) ∧ match o with Ok y => is_number y | Err e => e ≠ OutOfFuel end.
Proof.
  intros (Hc & Ht & _) -> Hp Hlen. destruct p as [|c p]; [done|]. cbn in Hc.
  unfold parse_num. rewrite bool_decide_false by (intros Heq; rewrite Heq in Hlen; lia).
  unfold token in Ht. rewrite forallb_app in Ht. apply andb_true_iff in Ht as [Ht _].
  assert (number_token (c :: p) = (c :: p, [])) as ->.
  { rewrite number_token_eq.
    - rewrite <-(app_nil_r (c :: p)), take_token_app by done. cbn [take_token]. by rewrite app_nil_r.
    - cbn in Ht. apply andb_true_iff in Ht as [Ht%token_char_not _]. tauto. }
  destruct (loads (c :: p)) as [v'|[]] eqn:Hv; eexists; (split; [reflexivity|]); cbn; [by eapply loads_number| |done].
  case_bool_decide; [done|]. destruct (loads_mantissa (c :: p) DecodeError) as [y|e] eqn:Hm; [by eapply loads_mantissa_number|].
  unfold loads_mantissa in Hm. destruct (before_last_e _) as [m|]; [|by simplify_eq].
  destruct (loads m) as [|[]]; by simplify_eq.
Qed.

Lemma parse_word_complete w v r : (w, v) ∈ words → literal_of (w ++ r) = Some (w, v) ∧ drop (length w) (w ++ r) = r ∧ dict_of v = v.
Proof.
  unfold words. rewrite !elem_of_cons. intros H. destruct_or! H; [..|by apply not_elem_of_nil in H]; injection H as -> ->;
    (split; [vm_compute; reflexivity|]; split; [apply drop_app_length|done]).
Qed.

Lemma parse_word_cut w v p q : (w, v) ∈ words → w = p ++ q → p ≠ [] → literal_of p = Some (w, v) ∧ drop (length w) p = [] ∧ dict_of v = v.
Proof.
  intros Hin Heq Hp. split; [|split; [apply drop_ge; subst; rewrite length_app; lia|]].
  - unfold words in Hin. rewrite !elem_of_cons in Hin.
    destruct_or! Hin; [..|by apply not_elem_of_nil in Hin]; injection Hin as -> ->; vm_compute in Heq;
      destruct p as [|c1 [|c2 [|c3 [|c4 [|c5 p]]]]]; simplify_eq; vm_compute; reflexivity.
  - by apply (parse_word_complete w v []).
Qed.

(** *** Arrays without blanks *)

Definition blank_close (t : text) : bool := match t with d :: _ => is_ws d && opens_with 93 (skip_ws t) | [] => false end.

(** No empty array is written with a blank in it (nor anything that looks like one). *)
Fixpoint compact_arrays (t : text) : bool :=
  match t with
  | [] => true
  | c :: rest => negb ((c =? 91) && blank_close rest) && compact_arrays rest
  end.

Lemma blank_close_app a b : blank_close a = true → blank_close (a ++ b) = true.
Proof.
  unfold blank_close. destruct a as [|d a]; [done|]. cbn [app]. intros [Hd Ho]%andb_true_iff. rewrite Hd. cbn [andb].
  destruct (skip_ws_split (d :: a)) as (w & Hw & Heq & _). rewrite app_comm_cons, Heq, <-app_assoc, skip_ws_app by done.
  apply opens_with_split in Ho. by rewrite Ho.
Qed.

Lemma compact_app a b : compact_arrays (a ++ b) = true → compact_arrays a = true ∧ compact_arrays b = true.
Proof.
  induction a as [|c a IH]; [done|]. cbn [app compact_arrays]. intros [Hc Hab]%andb_true_iff.
  destruct (IH Hab) as [-> ->]. split; [|done]. rewrite andb_true_r. apply negb_true_iff in Hc. apply negb_true_iff.
  destruct (c =? 91); [|done]. destruct (blank_close a) eqn:Hb; [|done]. by rewrite (blank_close_app a b Hb) in Hc.
Qed.

Lemma compact_cons c t : compact_arrays (c :: t) = true → compact_arrays t = true.
Proof. cbn. by intros [_ H]%andb_true_iff. Qed.

Lemma compact_empty b : blank b → compact_arrays (91 :: b ++ [93]) = true → b = [].
Proof.
  intros Hb. cbn [compact_arrays Z.eqb Pos.eqb andb]. intros [H _]%andb_true_iff. destruct b as [|d b]; [done|].
  apply negb_true_iff in H. unfold blank_close in H. cbn [app] in H. rewrite app_comm_cons, skip_ws_app in H by done.
  unfold blank in Hb. cbn in Hb. apply andb_true_iff in Hb as [Hd _]. by rewrite Hd in H.
Qed.

Lemma blank_prefix b p q : blank b → b = p ++ q → blank p.
Proof. intros Hb ->. by apply blank_app in Hb as [? _]. Qed.

Lemma blank_delimited b : blank b → delimited b.
Proof. intros Hb%skip_ws_nil. unfold delimited. by rewrite Hb. Qed.

Lemma delimited_char b c r : blank b → c = 44 ∨ c = 93 ∨ c = 125 → delimited (b ++ c :: r).
Proof.
  intros Hb Hc. unfold delimited. rewrite skip_ws_app by done. rewrite skip_ws_id; [done|]. by destruct_or! Hc; subst.
Qed.

(** ** The parser on a part of a text *)

(** All of a value has come in. *)
Definition value_read (w : text) (v : pv) : Prop := ∀ m b r, blank b → delimited r →
  (2 * length (b ++ w ++ r) < m)%nat → (length (b ++ w ++ r) <= length source)%nat →
  (is_number v → (length (b ++ w ++ r) < length source)%nat) →
  ∃ r', parse_any source m (b ++ w ++ r) = (Ok (dict_of v), r') ∧ skip_ws r' = skip_ws r.

(** Only a number, or nothing at all, may be refused. *)
Definition part_outcome (v : pv) (p : text) (o : result partial_error pv) : Prop :=
  match o with Ok y => approx v y | Err e => e ≠ OutOfFuel ∧ (skip_ws p = [] ∨ is_number v) end.

(** A part of a value has come in, maybe none. *)
Definition value_part (w : text) (v : pv) : Prop := ∀ m b p q, blank b → b ++ w = p ++ q → q ≠ [] →
  (2 * length p < m)%nat → (length p <= length source)%nat → (is_number v → (length p < length source)%nat) →
  ∃ o, parse_any source m p = (o, []) ∧ part_outcome v p o.

Definition items_read (w : text) (l : list pv) : Prop := ∀ m array b r, blank b →
  (2 * length (b ++ w ++ r) + 1 < m)%nat → (length (b ++ w ++ r) < length source)%nat →
  parse_arr source m array (b ++ w ++ r) = (Ok (array ++ map dict_of l), r).

Definition items_part (w : text) (l : list pv) : Prop := ∀ m array b p q, blank b → b ++ w = p ++ q → q ≠ [] →
  (2 * length p + 1 < m)%nat → (length p < length source)%nat →
  ∃ l', approx_items l l' ∧ parse_arr source m array p = (Ok (array ++ l'), []).

Definition dict_members (d : list (text * pv)) : list (text * pv) := map (λ p, (p.1, dict_of p.2)) d.

Definition members_read (w : text) (d : list (text * pv)) : Prop := ∀ m obj b r, blank b →
  (2 * length (b ++ w ++ r) + 1 < m)%nat → (length (b ++ w ++ r) < length source)%nat →
  parse_obj source m obj (b ++ w ++ r) = (Ok (od_update (dict_members d) obj), r).

Definition members_part (w : text) (d : list (text * pv)) : Prop := ∀ m obj b p q, blank b → b ++ w = p ++ q → q ≠ [] →
  (2 * length p + 1 < m)%nat → (length p < length source)%nat →
  ∃ d', approx_members d d' ∧ parse_obj source m obj p = (Ok (od_update d' obj), []).

(** What is in front of a value: blanks, then the value or nothing. *)
Lemma blank_part b w p q c t : blank b → w = c :: t → is_ws c = false → b ++ w = p ++ q → q ≠ [] →
  skip_ws p = [] ∨ ∃ p1, p = b ++ p1 ∧ w = p1 ++ q ∧ p1 ≠ [] ∧ skip_ws p = p1.
Proof.
  intros Hb Hw Hc Heq Hq. apply split_app in Heq as [(z & -> & Heq)|(z & -> & -> & Hz)].
  - destruct z as [|d z]; [left; rewrite app_nil_r; by apply skip_ws_nil|right]. exists (d :: z). split_and!; [done|done|done|].
    rewrite skip_ws_app by done. apply skip_ws_id. rewrite Hw in Heq. by injection Heq as <- _.
  - left. apply blank_app in Hb as [Hb _]. by apply skip_ws_nil.
Qed.

Lemma part_step w v : (∃ c t, w = c :: t ∧ is_ws c = false) →
  (∀ m p q, w = p ++ q → q ≠ [] → p ≠ [] → (2 * length p <= m)%nat → (length p <= length source)%nat →
     (is_number v → (length p < length source)%nat) → skip_ws p = p →
     ∃ o, parse_any source (S m) p = (o, []) ∧ part_outcome v p o) →
  value_part w v.
Proof.
  intros (c & t & Hw & Hc) H m b p q Hb Heq Hq Hm Hlen Hnum. destruct m as [|m]; [lia|].
  destruct (blank_part b w p q c t Hb Hw Hc Heq Hq) as [Hp|(p1 & -> & Hw1 & Hp1 & Hskip)].
  - exists (Err PartialJson). rewrite parse_any_eq, Hp. cbn. auto.
  - rewrite length_app in *. assert (skip_ws p1 = p1) as Hs.
    { apply skip_ws_id. destruct p1 as [|d p1]; [done|]. rewrite Hw in Hw1. by injection Hw1 as <- _. }
    destruct (H m p1 q Hw1 Hq Hp1 ltac:(lia) ltac:(lia) ltac:(intros; specialize (Hnum ltac:(done)); lia) Hs) as (o & Ho & Hres).
    exists o. split; [rewrite parse_any_eq in Ho |- *; by rewrite Hskip, <-Hs|].
    destruct o as [y|e]; [done|]. cbn in *. by rewrite Hskip, <-Hs.
Qed.

Lemma read_step w v : (∃ c t, w = c :: t ∧ is_ws c = false) →
  (∀ m r, delimited r → (2 * length (w ++ r) <= m)%nat → (length (w ++ r) <= length source)%nat →
     (is_number v → (length (w ++ r) < length source)%nat) → skip_ws (w ++ r) = w ++ r →
     ∃ r', parse_any source (S m) (w ++ r) = (Ok (dict_of v), r') ∧ skip_ws r' = skip_ws r) →
  value_read w v.
Proof.
  intros (c & t & Hw & Hc) H m b r Hb Hr Hm Hlen Hnum. destruct m as [|m]; [lia|].
  assert (skip_ws (w ++ r) = w ++ r) as Hs by (subst; by apply skip_ws_id). rewrite (length_app b) in *.
  destruct (H m r Hr ltac:(lia) ltac:(lia) ltac:(intros; specialize (Hnum ltac:(done)); lia) Hs) as (r' & Ho & Hres).
  exists r'. split; [|done]. rewrite parse_any_eq in Ho |- *. by rewrite skip_ws_app.
Qed.

Lemma str_value w s : jstring w s → value_read (34 :: w) (PStr s) ∧ value_part (34 :: w) (PStr s).
Proof.
  intros Hw. split.
  - apply read_step; [by eexists _, _|]. intros m r _ _ _ _ Hs. exists r. split; [|done].
    rewrite parse_any_eq, Hs. cbn [app]. cbn [Z.eqb Pos.eqb]. by rewrite (parse_str_complete w s r).
  - apply part_step; [by eexists _, _|]. intros m p q Heq Hq Hp _ _ _ Hs. destruct p as [|c p]; [done|]. injection Heq as <- Heq.
    destruct (parse_str_cut w s p q Hw Heq Hq) as (s' & Hc & Hr). exists (Ok (PStr s')).
    rewrite parse_any_eq, Hs. cbn [Z.eqb Pos.eqb]. split; [done|by constructor].
Qed.

Lemma atom_branch m c rest : c ≠ 34 → c ≠ 123 → c ≠ 91 → skip_ws (c :: rest) = c :: rest →
  parse_any source (S m) (c :: rest) =
    match literal_of (c :: rest) with
    | Some (word, v) => (Ok v, drop (length word) (c :: rest))
    | None => parse_num source (c :: rest)
    end.
Proof. intros H1 H2 H3 Hs. rewrite parse_any_eq, Hs. apply Z.eqb_neq in H1, H2, H3. by rewrite H1, H2, H3. Qed.

Lemma value_nonblank w v : jvalue w v → ∃ c t, w = c :: t ∧ is_ws c = false.
Proof. intros (c & t & -> & Hc & _)%jvalue_head. by eexists _, _. Qed.

Lemma word_value w v : (w, v) ∈ words → value_read w v ∧ value_part w v.
Proof.
  intros Hw. pose proof (atom_head w v (or_introl Hw)) as Hh. pose proof (value_nonblank w v (J_word w v Hw)) as Hn. split.
  - apply read_step; [done|]. intros m r _ _ _ _ Hs. exists r. split; [|done].
    destruct (parse_word_complete w v r Hw) as (Hl & Hd & ->). destruct w as [|c w]; [done|]. cbn [app] in *.
    rewrite atom_branch by tauto. by rewrite Hl, Hd.
  - apply part_step; [done|]. intros m p q Heq Hq Hp _ _ _ Hs.
    destruct (parse_word_cut w v p q Hw Heq Hp) as (Hl & Hd & Hv). destruct p as [|c p]; [done|].
    assert (c ≠ 34 ∧ c ≠ 123 ∧ c ≠ 91) as (? & ? & ?) by by subst. exists (Ok v).
    rewrite atom_branch, Hl, Hd by done. split; [done|]. rewrite <-Hv at 2. constructor.
Qed.

Lemma num_value w v : number w v → value_read w v ∧ value_part w v.
Proof.
  intros Hw. pose proof (atom_head w v (or_intror Hw)) as Hh. pose proof (value_nonblank w v (J_num w v Hw)) as Hn.
  pose proof Hw as (Hc & _ & Hnum & _). split.
  - apply read_step; [done|]. intros m r Hr _ _ Hlen Hs. specialize (Hlen Hnum). exists (skip_ws r).
    pose proof (parse_num_complete w v r Hw Hr Hlen) as Hp. rewrite dict_of_number by done.
    destruct w as [|c w]; [done|]. cbn [app] in *. rewrite atom_branch, literal_none, Hp by (tauto || exact Hc). split; [done|].
    destruct (skip_ws_split r) as (_ & _ & _ & Hh'). by apply skip_ws_id.
  - apply part_step; [done|]. intros m p q Heq Hq Hp _ _ Hlen Hs. specialize (Hlen Hnum).
    destruct (parse_num_cut w v p q Hw Heq Hp Hlen) as (o & Ho & Hres). exists o. destruct p as [|c p]; [done|].
    assert ((c ≠ 34 ∧ c ≠ 123 ∧ c ≠ 91) ∧ number_head c) as ((? & ? & ?) & ?) by by subst.
    rewrite atom_branch, literal_none, Ho by done. split; [done|]. destruct o; [by constructor|]. cbn. auto.
Qed.

Lemma arr0_value b : blank b → compact_arrays (91 :: b ++ [93]) = true →
  value_read (91 :: b ++ [93]) (PList []) ∧ value_part (91 :: b ++ [93]) (PList []).
Proof.
  intros Hb Hc. apply compact_empty in Hc as ->; [|done]. cbn [app]. split.
  - apply read_step; [by eexists _, _|]. intros m r _ Hm _ _ Hs. exists r. split; [|done].
    rewrite parse_any_eq, Hs. cbn [app]. cbn [Z.eqb Pos.eqb]. cbn in Hm. destruct m as [|m]; [lia|]. by rewrite parse_arr_eq.
  - apply part_step; [by eexists _, _|]. intros m p q Heq Hq Hp Hm _ _ Hs. destruct p as [|c p]; [done|]. injection Heq as <- Heq.
    destruct p as [|d p]; [|destruct p; cbn in Heq; by simplify_eq]. exists (Ok (PList [])).
    rewrite parse_any_eq, Hs. cbn [Z.eqb Pos.eqb]. cbn in Hm. destruct m as [|m]; [lia|]. rewrite parse_arr_eq.
    split; [done|]. apply (ap_list [] []). constructor.
Qed.

Lemma arr_value b w l : blank b → items_read w l → items_part w l →
  value_read (91 :: b ++ w) (PList l) ∧ value_part (91 :: b ++ w) (PList l).
Proof.
  intros Hb Hr Hp. split.
  - apply read_step; [by eexists _, _|]. intros m r _ Hm Hlen _ Hs. exists r. split; [|done].
    rewrite parse_any_eq, Hs. cbn [app]. cbn [Z.eqb Pos.eqb]. cbn in Hm, Hlen. rewrite <-!app_assoc in *.
    by rewrite (Hr m [] b r) by (done || lia).
  - apply part_step; [by eexists _, _|]. intros m p q Heq Hq Hp0 Hm Hlen _ Hs. destruct p as [|c p]; [done|]. injection Heq as <- Heq.
    cbn in Hm, Hlen. destruct (Hp m [] b p q Hb Heq Hq) as (l' & Hl & Hres); [lia|lia|]. exists (Ok (PList l')).
    rewrite parse_any_eq, Hs. cbn [Z.eqb Pos.eqb]. rewrite Hres. split; [done|by constructor].
Qed.

Lemma obj0_value b : blank b → value_read (123 :: b ++ [125]) (PDict []) ∧ value_part (123 :: b ++ [125]) (PDict []).
Proof.
  intros Hb. split.
  - apply read_step; [by eexists _, _|]. intros m r _ Hm _ _ Hs. exists r. split; [|done].
    rewrite parse_any_eq, Hs. cbn [app]. cbn [Z.eqb Pos.eqb]. rewrite <-app_assoc, skip_ws_app by done. cbn [app skip_ws].
    cbn in Hm. destruct m as [|m]; [lia|]. cbn [is_ws Z.eqb Pos.eqb orb]. by rewrite parse_obj_eq.
  - apply part_step; [by eexists _, _|]. intros m p q Heq Hq Hp Hm _ _ Hs. destruct p as [|c p]; [done|]. injection Heq as <- Heq.
    assert (skip_ws p = []) as Hsp.
    { apply skip_ws_nil. apply split_app in Heq as [(z & -> & Heq)|(z & -> & _)]; [|by apply blank_app in Hb as [? _]].
      destruct z as [|? [|]]; cbn in Heq; simplify_eq. by rewrite app_nil_r. }
    exists (Ok (PDict [])). rewrite parse_any_eq, Hs. cbn [Z.eqb Pos.eqb]. rewrite Hsp.
    cbn in Hm. destruct m as [|m]; [lia|]. rewrite parse_obj_eq. split; [done|]. apply (ap_obj [] []). constructor.
Qed.

Lemma obj_value b w d : blank b → jmembers w d → members_read w d → members_part w d →
  value_read (123 :: b ++ w) (PDict d) ∧ value_part (123 :: b ++ w) (PDict d).
Proof.
  intros Hb Hw Hr Hp. destruct (jmembers_head w d Hw) as (t & Ht).
  assert (∀ r, skip_ws (b ++ w ++ r) = w ++ r) as Hskip.
  { intros r. rewrite skip_ws_app by done. subst. by apply skip_ws_id. }
  split.
  - apply read_step; [by eexists _, _|]. intros m r _ Hm Hlen _ Hs. exists r. split; [|done].
    rewrite parse_any_eq, Hs. cbn [app]. cbn [Z.eqb Pos.eqb]. cbn in Hm, Hlen. rewrite <-!app_assoc in *.
    rewrite Hskip. rewrite length_app in Hm, Hlen. change (w ++ r) with ([] ++ w ++ r). by rewrite (Hr m [] [] r) by (done || cbn [app]; lia).
  - apply part_step; [by eexists _, _|]. intros m p q Heq Hq Hp0 Hm Hlen _ Hs. destruct p as [|c p]; [done|]. injection Heq as <- Heq.
    cbn in Hm, Hlen. rewrite parse_any_eq, Hs. cbn [Z.eqb Pos.eqb].
    destruct (blank_part b w p q 34 t Hb Ht eq_refl Heq Hq) as [Hsp|(p1 & -> & Hw1 & Hp1 & Hsp)]; rewrite Hsp.
    + destruct m as [|m]; [lia|]. rewrite parse_obj_eq. exists (Ok (PDict [])). split; [done|]. apply (ap_obj d []). constructor.
    + rewrite length_app in *. destruct (Hp m [] [] p1 q) as (d' & Hd & ->); [done|done|done|lia|lia|].
      exists (Ok (PDict (od_update d' []))). split; [done|]. by apply (ap_obj d d').
Qed.

(** *** Items and members *)

Lemma after_item_eq t t' : skip_ws t = skip_ws t' → after_item t = after_item t'.
Proof. unfold after_item. by intros ->. Qed.

Lemma after_item_char b c r : blank b → is_ws c = false → after_item (b ++ c :: r) = if c =? 44 then r else c :: r.
Proof. intros Hb Hc. unfold after_item. rewrite skip_ws_app, skip_ws_id by done. cbn. by destruct (c =? 44). Qed.

Lemma after_item_blank b : blank b → after_item b = [].
Proof. intros Hb%skip_ws_nil. unfold after_item. by rewrite Hb. Qed.

Lemma blank_head b c : blank b → ∀ w r d, is_ws d = false → d ≠ c → is_ws c = false →
  match b ++ (d :: w) ++ r with [] => True | x :: _ => x ≠ c end.
Proof.
  intros Hb w r d _ Hd Hc. destruct b as [|x b]; [done|]. cbn. intros ->. unfold blank in Hb. cbn in Hb.
  apply andb_true_iff in Hb as [Hb _]. congruence.
Qed.

Lemma item_read w v m array b r : jvalue w v → value_read w v → blank b → delimited r →
  (2 * length (b ++ w ++ r) < m)%nat → (length (b ++ w ++ r) < length source)%nat →
  parse_arr source (S m) array (b ++ w ++ r) = parse_arr source m (array ++ [dict_of v]) (after_item r).
Proof.
  intros Hw Hv Hb Hr Hm Hlen. destruct (Hv m b r Hb Hr Hm ltac:(lia) (λ _, Hlen)) as (r' & Hp & Hs).
  rewrite parse_arr_eq, Hp. cbn [guarded]. rewrite (after_item_eq r' r Hs).
  destruct (jvalue_head w v Hw) as (c & t & -> & Hc & H93 & _). pose proof (blank_head b 93 Hb t r c Hc H93 eq_refl) as Hh.
  destruct (b ++ (c :: t) ++ r) as [|x l] eqn:Heq; [by destruct b|]. apply Z.eqb_neq in Hh. by rewrite Hh.
Qed.

Lemma item_part w v l m array b p q : jvalue w v → value_part w v → blank b → b ++ w = p ++ q → q ≠ [] →
  (2 * length p < m)%nat → (length p < length source)%nat →
  ∃ l', approx_items (v :: l) l' ∧ parse_arr source (S m) array p = (Ok (array ++ l'), []).
Proof.
  intros Hw Hv Hb Heq Hq Hm Hlen. rewrite parse_arr_eq. destruct p as [|c p].
  { exists []. split; [constructor|]. by rewrite app_nil_r. }
  destruct (Hv m b (c :: p) q Hb Heq Hq Hm ltac:(lia) (λ _, Hlen)) as (o & Ho & Hres).
  assert (c =? 93 = false) as ->.
  { destruct (jvalue_head w v Hw) as (d & t & -> & Hd & H93 & _). pose proof (blank_head b 93 Hb t [] d Hd H93 eq_refl) as Hh.
    rewrite app_nil_r, Heq in Hh. by apply Z.eqb_neq. }
  rewrite Ho. destruct o as [y|e]; cbn [guarded].
  - exists [y]. split; [by constructor|]. change (after_item []) with ([] : text). destruct m as [|m]; [lia|]. by rewrite parse_arr_eq.
  - exists []. split; [constructor|]. rewrite app_nil_r. destruct Hres as [Hres _]. by destruct e.
Qed.

Lemma items_last w v b : jvalue w v → value_read w v ∧ value_part w v → blank b →
  items_read (w ++ b ++ [93]) [v] ∧ items_part (w ++ b ++ [93]) [v].
Proof.
  intros Hw [Hr Hp] Hb. split.
  - intros m array b0 r Hb0 Hm Hlen. destruct m as [|m]; [lia|]. rewrite <-!app_assoc in *. cbn [app] in *.
    rewrite (item_read w v) by (done || lia || by apply delimited_char; auto). rewrite after_item_char by done. cbn [Z.eqb Pos.eqb].
    destruct m as [|m]; [rewrite !length_app in Hm; cbn in Hm; lia|]. by rewrite parse_arr_eq.
  - intros m array b0 p q Hb0 Heq Hq Hm Hlen. destruct m as [|m]; [lia|]. rewrite app_assoc in Heq.
    apply split_app in Heq as [(z & -> & Heq)|(z & Heq & -> & Hz)].
    + assert (blank z) as Hz.
      { apply split_app in Heq as [(y & -> & Heq)|(y & -> & _)]; [|by apply blank_app in Hb as [? _]].
        destruct y as [|? [|]]; cbn in Heq; simplify_eq. by rewrite app_nil_r. }
      rewrite <-app_assoc in *. exists [dict_of v]. split; [constructor; constructor|].
      rewrite (item_read w v) by (done || lia || by apply blank_delimited). rewrite after_item_blank by done.
      destruct m as [|m]; [lia|]. by rewrite parse_arr_eq.
    + by eapply item_part; [..|lia|lia].
Qed.

Lemma items_more w v b b' w' l : jvalue w v → value_read w v ∧ value_part w v → blank b → blank b' →
  items_read w' l ∧ items_part w' l →
  items_read (w ++ b ++ 44 :: b' ++ w') (v :: l) ∧ items_part (w ++ b ++ 44 :: b' ++ w') (v :: l).
Proof.
  intros Hw [Hr Hp] Hb Hb' [Hr' Hp']. split.
  - intros m array b0 r Hb0 Hm Hlen. destruct m as [|m]; [lia|]. rewrite <-!app_assoc in *. cbn [app] in *. rewrite <-!app_assoc in *.
    rewrite (item_read w v) by (done || lia || by apply delimited_char; auto). rewrite after_item_char by done. cbn [Z.eqb Pos.eqb].
    repeat (rewrite length_app in Hm, Hlen; cbn [length] in Hm, Hlen).
    rewrite Hr' by (done || rewrite ?length_app; lia). by rewrite <-app_assoc.
  - intros m array b0 p q Hb0 Heq Hq Hm Hlen. destruct m as [|m]; [lia|]. rewrite app_assoc in Heq.
    apply split_app in Heq as [(z & -> & Heq)|(z & Heq & -> & Hz)]; [|by eapply item_part; [..|lia|lia]].
    rewrite <-app_assoc in *. apply split_app in Heq as [(y & -> & Heq)|(y & -> & -> & Hy)].
    + destruct y as [|c y].
      * rewrite app_nil_r in *. exists [dict_of v]. split; [constructor; constructor|].
        rewrite (item_read w v) by (done || lia || by apply blank_delimited). rewrite after_item_blank by done.
        destruct m as [|m]; [lia|]. by rewrite parse_arr_eq.
      * injection Heq as <- Heq. rewrite (item_read w v) by (done || lia || by apply delimited_char; auto).
        rewrite after_item_char by done. cbn [Z.eqb Pos.eqb]. repeat (rewrite length_app in Hm, Hlen; cbn [length] in Hm, Hlen).
        destruct (Hp' m (array ++ [dict_of v]) b' y q Hb' Heq Hq) as (l' & Hl & ->); [lia|lia|].
        exists (dict_of v :: l'). split; [by constructor|]. by rewrite <-app_assoc.
    + apply blank_app in Hb as [Hz _]. exists [dict_of v]. split; [constructor; constructor|].
      rewrite (item_read w v) by (done || lia || by apply blank_delimited). rewrite after_item_blank by done.
      destruct m as [|m]; [lia|]. by rewrite parse_arr_eq.
Qed.

(** The state of [parse_obj] behind the opening quote of a member's name. *)
Lemma parse_obj_key m obj b t : blank b → parse_obj source (S m) obj (b ++ 34 :: t) =
  guarded (parse_str (34 :: t)) (λ key t2,
    match key with
    | PStr key =>
        if opens_with 58 (skip_ws t2) then
          guarded (parse_any source m (tail (skip_ws t2))) (λ v t4, parse_obj source m (od_set key v obj) (after_item t4)) obj
        else (Ok obj, skip_ws t2)
    | _ => (Ok obj, t2)
    end) obj.
Proof.
  intros Hb. rewrite parse_obj_eq, skip_ws_app by done. cbn [skip_ws is_ws Z.eqb Pos.eqb orb].
  pose proof (blank_head b 125 Hb t [] 34 eq_refl ltac:(done) eq_refl) as Hh. rewrite app_nil_r in Hh.
  destruct (b ++ 34 :: t) as [|x l] eqn:Heq; [by destruct b|]. apply Z.eqb_neq in Hh. by rewrite Hh.
Qed.

Lemma parse_obj_blank m obj b : blank b → parse_obj source (S m) obj b = (Ok obj, []).
Proof.
  intros Hb. rewrite parse_obj_eq. apply skip_ws_nil in Hb as Hs. destruct b as [|c b]; [done|].
  destruct (Z.eqb_spec c 125) as [->|]; [done|]. by rewrite Hs.
Qed.

Definition member_head (k b1 b2 w : text) : text := 34 :: k ++ b1 ++ 58 :: b2 ++ w.

Lemma member_read k key b1 b2 w v m obj b r : jstring k key → blank b1 → blank b2 → value_read w v → blank b → delimited r →
  (2 * length (b ++ member_head k b1 b2 w ++ r) < m)%nat → (length (b ++ member_head k b1 b2 w ++ r) < length source)%nat →
  parse_obj source (S m) obj (b ++ member_head k b1 b2 w ++ r) = parse_obj source m (od_set key (dict_of v) obj) (after_item r).
Proof.
  intros Hk Hb1 Hb2 Hv Hb Hr Hm Hlen. unfold member_head in *. cbn [app] in *. repeat rewrite <-app_assoc in *. cbn [app] in *.
  repeat rewrite <-app_assoc in *. rewrite parse_obj_key, (parse_str_complete k key) by done. cbn [guarded].
  rewrite skip_ws_app, skip_ws_id by done. cbn [opens_with tail]. cbn [Z.eqb Pos.eqb].
  repeat (rewrite length_app in Hm, Hlen; cbn [length] in Hm, Hlen).
  destruct (Hv m b2 r Hb2 Hr) as (r' & -> & Hs); [rewrite !length_app; lia|rewrite !length_app; lia|rewrite !length_app; lia|].
  cbn [guarded]. by rewrite (after_item_eq r' r Hs).
Qed.

Lemma member_part k key b1 b2 w v d m obj b p q : jstring k key → blank b1 → blank b2 → value_part w v → blank b →
  b ++ member_head k b1 b2 w = p ++ q → q ≠ [] → (2 * length p < m)%nat → (length p < length source)%nat →
  ∃ d', approx_members ((key, v) :: d) d' ∧ parse_obj source (S m) obj p = (Ok (od_update d' obj), []).
Proof.
  intros Hk Hb1 Hb2 Hv Hb Heq Hq Hm Hlen. unfold member_head in *.
  assert (∃ d', approx_members ((key, v) :: d) d' ∧ (Ok obj, []) = (Ok (od_update d' obj), []) :> result partial_error _ * text) as Hnone.
  { exists []. split; [constructor|done]. }
  apply split_app in Heq as [(z & -> & Heq)|(z & -> & _)].
  2:{ apply blank_app in Hb as [Hb _]. by rewrite parse_obj_blank. }
  destruct z as [|c z]; [rewrite app_nil_r; by rewrite parse_obj_blank|]. injection Heq as <- Heq.
  rewrite parse_obj_key by done. apply split_app in Heq as [(y & -> & Heq)|(y & Hky & -> & Hy)].
  2:{ destruct (parse_str_cut k key z y Hk Hky Hy) as (s' & _ & ->). exact Hnone. }
  rewrite (parse_str_complete k key) by done. cbn [guarded]. apply split_app in Heq as [(x & -> & Heq)|(x & -> & _)].
  2:{ apply blank_app in Hb1 as [Hb1%skip_ws_nil _]. rewrite Hb1. exact Hnone. }
  rewrite skip_ws_app by done. destruct x as [|c x]; [exact Hnone|]. injection Heq as <- Heq. cbn [skip_ws is_ws Z.eqb Pos.eqb orb].
  cbn [opens_with tail]. cbn [Z.eqb Pos.eqb]. repeat (rewrite length_app in Hm, Hlen; cbn [length] in Hm, Hlen).
  destruct (Hv m b2 x q Hb2 Heq Hq ltac:(lia) ltac:(lia) ltac:(lia)) as (o & -> & Hres). destruct o as [y|e]; cbn [guarded].
  - exists [(key, y)]. split; [by constructor|]. change (after_item []) with ([] : text). destruct m as [|m]; [lia|]. by rewrite parse_obj_eq.
  - destruct Hres as [Hres _]. destruct e; done.
Qed.

Lemma members_last k key b1 b2 w v b : jstring k key → blank b1 → blank b2 → value_read w v ∧ value_part w v → blank b →
  members_read (34 :: k ++ b1 ++ 58 :: b2 ++ w ++ b ++ [125]) [(key, v)] ∧
  members_part (34 :: k ++ b1 ++ 58 :: b2 ++ w ++ b ++ [125]) [(key, v)].
Proof.
  intros Hk Hb1 Hb2 [Hr Hp] Hb.
  assert (34 :: k ++ b1 ++ 58 :: b2 ++ w ++ b ++ [125] = member_head k b1 b2 w ++ b ++ [125]) as ->.
  { unfold member_head. cbn. rewrite <-!app_assoc. cbn. by rewrite <-!app_assoc. }
  split.
  - intros m obj b0 r Hb0 Hm Hlen. destruct m as [|m]; [lia|]. rewrite <-!app_assoc in *. cbn [app] in *.
    rewrite (member_read k key b1 b2 w v) by (done || lia || by apply delimited_char; auto).
    rewrite after_item_char by done. cbn [Z.eqb Pos.eqb].
    destruct m as [|m]; [rewrite !length_app in Hm; cbn in Hm; lia|]. by rewrite parse_obj_eq.
  - intros m obj b0 p q Hb0 Heq Hq Hm Hlen. destruct m as [|m]; [lia|]. rewrite app_assoc in Heq.
    apply split_app in Heq as [(z & -> & Heq)|(z & Heq & -> & Hz)]; [|by apply (member_part k key b1 b2 w v _ m obj b0 p z); try lia].
    assert (blank z) as Hz.
    { apply split_app in Heq as [(y & -> & Heq)|(y & -> & _)]; [|by apply blank_app in Hb as [? _]].
      destruct y as [|? [|]]; cbn in Heq; simplify_eq. by rewrite app_nil_r. }
    rewrite <-app_assoc in *. exists [(key, dict_of v)]. split; [constructor; constructor|].
    rewrite (member_read k key b1 b2 w v) by (done || lia || by apply blank_delimited). rewrite after_item_blank by done.
    destruct m as [|m]; [lia|]. by rewrite parse_obj_eq.
Qed.

Lemma members_more k key b1 b2 w v b b' w' d : jstring k key → blank b1 → blank b2 → value_read w v ∧ value_part w v → blank b →
  blank b' → members_read w' d ∧ members_part w' d →
  members_read (34 :: k ++ b1 ++ 58 :: b2 ++ w ++ b ++ 44 :: b' ++ w') ((key, v) :: d) ∧
  members_part (34 :: k ++ b1 ++ 58 :: b2 ++ w ++ b ++ 44 :: b' ++ w') ((key, v) :: d).
Proof.
  intros Hk Hb1 Hb2 [Hr Hp] Hb Hb' [Hr' Hp'].
  assert (34 :: k ++ b1 ++ 58 :: b2 ++ w ++ b ++ 44 :: b' ++ w' = member_head k b1 b2 w ++ b ++ 44 :: b' ++ w') as ->.
  { unfold member_head. cbn. rewrite <-!app_assoc. cbn. by rewrite <-!app_assoc. }
  split.
  - intros m obj b0 r Hb0 Hm Hlen. destruct m as [|m]; [lia|]. rewrite <-!app_assoc in *. cbn [app] in *. rewrite <-!app_assoc in *.
    rewrite (member_read k key b1 b2 w v) by (done || lia || by apply delimited_char; auto).
    rewrite after_item_char by done. cbn [Z.eqb Pos.eqb]. repeat (rewrite length_app in Hm, Hlen; cbn [length] in Hm, Hlen).
    by rewrite Hr' by (done || rewrite ?length_app; lia).
  - intros m obj b0 p q Hb0 Heq Hq Hm Hlen. destruct m as [|m]; [lia|]. rewrite app_assoc in Heq.
    assert (∀ z, blank z → (2 * length (b0 ++ member_head k b1 b2 w ++ z) + 1 < S m)%nat →
      (length (b0 ++ member_head k b1 b2 w ++ z) < length source)%nat →
      ∃ d', approx_members ((key, v) :: d) d' ∧
        parse_obj source (S m) obj (b0 ++ member_head k b1 b2 w ++ z) = (Ok (od_update d' obj), [])) as Hone.
    { intros z Hz Hmz Hlz. exists [(key, dict_of v)]. split; [constructor; constructor|].
      rewrite (member_read k key b1 b2 w v) by (done || lia || by apply blank_delimited). rewrite after_item_blank by done.
      destruct m as [|m]; [lia|]. by rewrite parse_obj_eq. }
    apply split_app in Heq as [(z & -> & Heq)|(z & Heq & -> & Hz)]; [|by apply (member_part k key b1 b2 w v _ m obj b0 p z); try lia].
    rewrite <-app_assoc in *. apply split_app in Heq as [(y & -> & Heq)|(y & -> & -> & Hy)]; [|by apply blank_app in Hb as [Hz _]; apply Hone].
    destruct y as [|c y]; [rewrite app_nil_r in *; by apply Hone|].
    injection Heq as <- Heq. rewrite (member_read k key b1 b2 w v) by (done || lia || by apply delimited_char; auto).
    rewrite after_item_char by done. cbn [Z.eqb Pos.eqb]. repeat (rewrite length_app in Hm, Hlen; cbn [length] in Hm, Hlen).
    destruct (Hp' m (od_set key (dict_of v) obj) b' y q Hb' Heq Hq) as (d' & Hd & ->); [lia|lia|].
    exists ((key, dict_of v) :: d'). split; [by constructor|done].
Qed.

(** *** All values *)

Lemma parser_on_parts :
  (∀ w v, jvalue w v → compact_arrays w = true → value_read w v ∧ value_part w v) ∧
  (∀ w l, jitems w l → compact_arrays w = true → items_read w l ∧ items_part w l) ∧
  (∀ w d, jmembers w d → compact_arrays w = true → members_read w d ∧ members_part w d).
Proof.
  apply json_ind.
  - intros w s Hw _. by apply str_value.
  - intros w v Hw _. by apply word_value.
  - intros w v Hw _. by apply num_value.
  - intros b Hb Hc. by apply arr0_value.
  - intros b w l Hb _ IH Hc. apply compact_cons, compact_app in Hc as [_ Hc]. destruct (IH Hc). by apply arr_value.
  - intros b Hb _. by apply obj0_value.
  - intros b w d Hb Hw IH Hc. apply compact_cons, compact_app in Hc as [_ Hc]. destruct (IH Hc). by apply obj_value.
  - intros w v b Hw IH Hb Hc. apply compact_app in Hc as [Hc _]. by apply items_last; auto.
  - intros w v b b' w' l Hw IH Hb Hb' _ IH' Hc. apply compact_app in Hc as [Hc Hc']. apply compact_app in Hc' as [_ Hc'].
    apply compact_cons, compact_app in Hc' as [_ Hc']. by apply items_more; auto.
  - intros k key b1 b2 w v b Hk Hb1 Hb2 _ IH Hb Hc. apply compact_cons, compact_app in Hc as [_ Hc].
    apply compact_app in Hc as [_ Hc]. apply compact_cons, compact_app in Hc as [_ Hc]. apply compact_app in Hc as [Hc _].
    by apply members_last; auto.
  - intros k key b1 b2 w v b b' w' d Hk Hb1 Hb2 _ IH Hb Hb' _ IH' Hc. apply compact_cons, compact_app in Hc as [_ Hc].
    apply compact_app in Hc as [_ Hc]. apply compact_cons, compact_app in Hc as [_ Hc]. apply compact_app in Hc as [Hc Hc'].
    apply compact_app in Hc' as [_ Hc']. apply compact_cons, compact_app in Hc' as [_ Hc']. by apply members_more; auto.
Qed.
End parser.

(** ** Repair *)

(** Reading the text in front of another, [repair_from] copies it, and of a part of it
    it at most completes a last backslash. *)
Definition copied (w : text) : Prop :=
  (∀ r, repair_from false (w ++ r) = w ++ repair_from false r) ∧
  (∀ p q, w = p ++ q → repair_from false p = p ∨ repair_from false p = p ++ [92]).

Lemma copied_nil : copied [].
Proof. split; [done|]. intros p q Heq. destruct p; [by left|done]. Qed.

Lemma copied_app w w' : copied w → copied w' → copied (w ++ w').
Proof.
  intros [H1 H2] [H1' H2']. split.
  - intros r. by rewrite <-!app_assoc, H1, H1'.
  - intros p q [(z & -> & Heq)|(z & -> & _)]%split_app; [|by eapply H2].
    rewrite H1. destruct (H2' z q Heq) as [-> | ->]; [by left|right]. by rewrite app_assoc.
Qed.

Lemma copied_cons c w : c ≠ 34 → copied w → copied (c :: w).
Proof.
  intros Hc Hw. apply (copied_app [c]); [|done]. apply Z.eqb_neq in Hc. split.
  - intros r. cbn. by rewrite Hc.
  - intros p q Heq. destruct p as [|d [|]]; [by left| |done]. left. by injection Heq as <- _.
Qed.

Lemma copied_plain w : Forall (λ c, c ≠ 34) w → copied w.
Proof. induction 1; [apply copied_nil|by apply copied_cons]. Qed.

Lemma copied_blank b : blank b → copied b.
Proof.
  intros Hb. apply copied_plain, Forall_forall. intros c Hc ->. unfold blank in Hb. rewrite forallb_forall in Hb.
  apply list_elem_of_In in Hc. by specialize (Hb _ Hc).
Qed.

Lemma repair_escape next t : repair_from true (92 :: next :: t) =
  let short := if bool_decide (next ∈ _VALID_JSON_ESCAPES) then 92 :: next :: repair_from true t
               else 92 :: 92 :: repair_from true (next :: t) in
  if next =? 117 then
    match t with
    | h1 :: h2 :: h3 :: h4 :: rest =>
        if is_hex h1 && is_hex h2 && is_hex h3 && is_hex h4
        then 92 :: 117 :: h1 :: h2 :: h3 :: h4 :: repair_from true rest else short
    | _ => short
    end
  else short.
Proof. reflexivity. Qed.

Lemma repair_plain c t : c ≠ 34 → c ≠ 92 → 32 <= c → repair_from true (c :: t) = c :: repair_from true t.
Proof.
  intros H1%Z.eqb_neq H2%Z.eqb_neq H3. cbn. rewrite H1, H2.
  unfold _is_control_character. by rewrite (proj2 (in_range_false 0 31 c)) by lia.
Qed.

Lemma unescape_valid e u : unescape e = Some u → e ∈ _VALID_JSON_ESCAPES.
Proof.
  unfold unescape. intros H. repeat match type of H with (if ?x then _ else _) = _ => destruct x eqn:?; [|] end; [..|done];
    rewrite ?orb_true_iff, ?Z.eqb_eq in *; destruct_or?; subst; set_solver.
Qed.

Lemma repair_short e u t : e ≠ 117 → unescape e = Some u → repair_from true (92 :: e :: t) = 92 :: e :: repair_from true t.
Proof.
  intros H1%Z.eqb_neq H2%unescape_valid. rewrite repair_escape, H1. cbn zeta. by rewrite bool_decide_true.
Qed.

Lemma repair_hex a b c d u t : hex4 a b c d = Some u →
  repair_from true (92 :: 117 :: a :: b :: c :: d :: t) = 92 :: 117 :: a :: b :: c :: d :: repair_from true t.
Proof.
  intros H%hex4_hexes. unfold hexes in H. rewrite !Forall_cons in H. destruct H as ([? Ha] & [? Hb] & [? Hc] & [? Hd] & _).
  rewrite repair_escape. cbn [Z.eqb Pos.eqb]. unfold is_hex. by rewrite Ha, Hb, Hc, Hd.
Qed.

Lemma repair_partial_hex h : (length h < 4)%nat → Forall (λ c, ∃ v, hex_val c = Some v) h →
  repair_from true (92 :: 117 :: h) = 92 :: 117 :: h.
Proof.
  intros Hlen Hh. assert (repair_from true h = h) as Hr.
  { clear Hlen. induction Hh as [|c h [v Hv] _ IH]; [done|]. apply hex_not_special in Hv as Hn. apply hex_val_range in Hv.
    rewrite repair_plain, IH by lia. done. }
  rewrite repair_escape. cbn [Z.eqb Pos.eqb]. rewrite bool_decide_true by set_solver.
  destruct h as [|h1 [|h2 [|h3 [|h4 h]]]]; [by rewrite Hr..|cbn in Hlen; lia].
Qed.

Lemma repair_string w s : jstring w s →
  (∀ r, repair_from true (w ++ r) = w ++ repair_from false r) ∧
  (∀ p q, w = p ++ q → q ≠ [] → repair_from true p = p ∨ repair_from true p = p ++ [92]).
Proof.
  assert (∀ a b c d u h r, hex4 a b c d = Some u → (length h < 4)%nat → [a; b; c; d] = h ++ r →
    repair_from true (92 :: 117 :: h) = 92 :: 117 :: h) as Hhex.
  { intros a b c d u h r Hu Hlen Heq. apply repair_partial_hex; [done|].
    apply hex4_hexes in Hu. unfold hexes in Hu. rewrite Heq in Hu. by apply Forall_app in Hu as [Hu _]. }
  induction 1 as [|c w s H1 H2 H3 _ [IH1 IH2]|e u w s H1 H2 _ [IH1 IH2]|a b c d u w s Hu _ _ [IH1 IH2]|
                  a b c d u a' b' c' d' v w s Hu _ Hv _ _ [IH1 IH2]]; (split; [intros r; cbn [app]|intros p q Heq Hq]).
  - done.
  - destruct p as [|? [|]]; cbn in Heq; simplify_eq; by left.
  - by rewrite repair_plain, IH1.
  - destruct p as [|x p]; [by left|]. injection Heq as <- Heq. rewrite repair_plain by done.
    destruct (IH2 p q Heq Hq) as [-> | ->]; auto.
  - by rewrite (repair_short _ u), IH1.
  - destruct p as [|x [|y p]]; [by left|cbn in Heq; simplify_eq; by right|]. injection Heq as <- <- Heq.
    rewrite (repair_short _ u) by done. destruct (IH2 p q Heq Hq) as [-> | ->]; auto.
  - by rewrite (repair_hex _ _ _ _ u), IH1.
  - apply hex_cases in Heq as [->|[->|[(h & r & -> & Hlen & Heq)|(p' & -> & Heq)]]]; [by left|by right|left; by eapply Hhex|].
    rewrite (repair_hex _ _ _ _ u) by done. destruct (IH2 p' q Heq Hq) as [-> | ->]; auto.
  - by rewrite (repair_hex _ _ _ _ u), (repair_hex _ _ _ _ v), IH1.
  - apply hex_cases in Heq as [->|[->|[(h & r & -> & Hlen & Heq)|(p1 & -> & Heq)]]];
      [by left|by right|left; exact (Hhex _ _ _ _ _ _ _ Hu Hlen Heq)|]. rewrite (repair_hex _ _ _ _ u) by done.
    apply hex_cases in Heq as [->|[->|[(h & r & -> & Hlen & Heq)|(p' & -> & Heq)]]];
      [by left|by right|left; by rewrite (Hhex _ _ _ _ _ _ _ Hv Hlen Heq)|]. rewrite (repair_hex _ _ _ _ v) by done.
    destruct (IH2 p' q Heq Hq) as [-> | ->]; auto.
Qed.

Lemma copied_string w s : jstring w s → copied (34 :: w).
Proof.
  intros [H1 H2]%repair_string. split.
  - intros r. cbn. by rewrite H1.
  - intros p q Heq. destruct p as [|c p]; [by left|]. injection Heq as <- Heq. cbn.
    destruct (decide (q = [])) as [->|Hq].
    + rewrite app_nil_r in Heq. subst p. specialize (H1 []). rewrite app_nil_r in H1. rewrite H1. cbn. rewrite app_nil_r. by left.
    + destruct (H2 p q Heq Hq) as [-> | ->]; auto.
Qed.

Lemma copied_json :
  (∀ w v, jvalue w v → copied w) ∧ (∀ w l, jitems w l → copied w) ∧ (∀ w d, jmembers w d → copied w).
Proof.
  apply json_ind; intros;
    repeat first [apply copied_nil|by eapply copied_string|done|by apply copied_blank|
      apply copied_cons; [done|]|rewrite app_comm_cons; apply copied_app; [by eapply copied_string|]|apply copied_app].
  - apply copied_plain. unfold words in *. rewrite !elem_of_cons in *.
    destruct_or! H; [..|by apply not_elem_of_nil in H]; injection H as -> ->; by vm_compute; repeat constructor.
  - apply copied_plain. destruct H as (_ & Ht & _). unfold token in Ht. rewrite forallb_forall in Ht. apply Forall_forall.
    intros c Hc ->. apply list_elem_of_In in Hc. by specialize (Ht _ Hc).
Qed.

(** ** The arguments *)

Lemma approx_all d : approx_members d (dict_members d).
Proof. induction d as [|[k x] d IH]; cbn; constructor; done. Qed.

Lemma no_last_backslash :
  (∀ w v, jvalue w v → ∀ u, w ≠ u ++ [92]) ∧ (∀ w l, jitems w l → ∀ u, w ≠ u ++ [92]) ∧ (∀ w d, jmembers w d → ∀ u, w ≠ u ++ [92]).
Proof.
  assert (∀ (x u : text) c, c ≠ 92 → x ++ [c] ≠ u ++ [92]) as Hsnoc by (intros x u c Hc [_ Heq]%app_inj_tail; done).
  assert (∀ (x y : text), y ≠ [] → (∀ u, y ≠ u ++ [92]) → ∀ u, x ++ y ≠ u ++ [92]) as Happ.
  { intros x y Hy H u [(z & -> & Heq)|(z & -> & Heq & _)]%split_app; [by apply (H z)|].
    destruct z as [|? [|]]; destruct y; cbn in Heq; simplify_eq; by apply (H []). }
  assert (∀ w s, jstring w s → ∃ x, w = x ++ [34]) as Hstr.
  { intros w s (x & -> & _)%string_end_complete. by exists x. }
  assert (∀ w l, jitems w l → w ≠ []) as Hni by (intros w l (? & ? & -> & _)%jitems_head; done).
  assert (∀ w d, jmembers w d → w ≠ []) as Hnm by (intros w d (? & ->)%jmembers_head; done).
  apply json_ind.
  - intros w s (x & ->)%Hstr u. rewrite app_comm_cons. by apply Hsnoc.
  - intros w v Hw u ->. unfold words in Hw. rewrite !elem_of_cons in Hw.
    destruct_or! Hw; [..|by apply not_elem_of_nil in Hw]; injection Hw as Hw _; apply (f_equal last) in Hw;
      rewrite last_snoc in Hw; vm_compute in Hw; done.
  - intros w v (_ & Ht & _) u ->. unfold token in Ht. rewrite forallb_app in Ht. apply andb_true_iff in Ht as [_ Ht]. done.
  - intros b _ u. rewrite app_comm_cons. by apply Hsnoc.
  - intros b w l _ Hw IH u. rewrite app_comm_cons. apply Happ; [by eapply Hni|done].
  - intros b _ u. rewrite app_comm_cons. by apply Hsnoc.
  - intros b w d _ Hw IH u. rewrite app_comm_cons. apply Happ; [by eapply Hnm|done].
  - intros w v b _ _ _ u. rewrite app_assoc. by apply Hsnoc.
  - intros w v b b' w' l _ _ _ _ Hw' IH u. replace (w ++ b ++ 44 :: b' ++ w') with ((w ++ b ++ 44 :: b') ++ w') by by rewrite <-!app_assoc.
    apply Happ; [by eapply Hni|done].
  - intros k key b1 b2 w v b _ _ _ _ _ _ u.
    replace (34 :: k ++ b1 ++ 58 :: b2 ++ w ++ b ++ [125]) with ((34 :: k ++ b1 ++ 58 :: b2 ++ w ++ b) ++ [125]); [by apply Hsnoc|].
    by cbn [app]; repeat (rewrite <-app_assoc; cbn [app]).
  - intros k key b1 b2 w v b b' w' d _ _ _ _ _ _ _ Hw' IH u.
    replace (34 :: k ++ b1 ++ 58 :: b2 ++ w ++ b ++ 44 :: b' ++ w') with ((34 :: k ++ b1 ++ 58 :: b2 ++ w ++ b ++ 44 :: b') ++ w');
      [apply Happ; [by eapply Hnm|done]|].
    cbn. rewrite <-!app_assoc. by cbn [app]; repeat (rewrite <-app_assoc; cbn [app]).
Qed.

Lemma word_not_object w d : (w, PDict d) ∉ words.
Proof. unfold words. rewrite !not_elem_of_cons. split_and!; [congruence..|apply not_elem_of_nil]. Qed.

Lemma obj_head w d : jvalue w (PDict d) → ∃ t, w = 123 :: t.
Proof.
  intros H. remember (PDict d) as v eqn:Hv. destruct H as [|w v Hw|w v (_ & _ & Hn & _)| | |b Hb|b w d' Hb Hd]; try discriminate Hv.
  - subst. by apply word_not_object in Hw.
  - by subst.
  - by exists (b ++ [125]).
  - by exists (b ++ w).
Qed.

(** A part of a text that is read whole: only all of it can be read. *)
Lemma loads_part d b w b' p q x : blank b → jvalue w (PDict d) → b ++ w ++ b' = p ++ q → blank b' →
  loads_pairs p = Ok x → x = PDict d.
Proof.
  intros Hb Hw Heq Hb' (c & w0 & c' & Hc & Hc' & Hw0 & ->)%loads_pairs_iff.
  assert (w ++ b' = w0 ++ c' ++ q) as Hs.
  { apply (f_equal skip_ws) in Heq. rewrite (skip_ws_value b w _ b' Hb Hw) in Heq. rewrite <-!app_assoc in Heq.
    by rewrite (skip_ws_value c w0 _ (c' ++ q) Hc Hw0) in Heq. }
  pose proof (proj1 scan_complete w _ Hw (S (length w + length w0)) b' ltac:(lia) ltac:(done)) as H1.
  assert (is_number x → stops (c' ++ q)) as Hstop.
  { intros Hx. destruct Hw0 as [| | w0 v (Hh & _)| | | |]; try done.
    - unfold words in H. rewrite !elem_of_cons in H. destruct_or! H; [..|by apply not_elem_of_nil in H]; injection H as -> ->; done.
    - destruct w0 as [|e w0]; [done|]. destruct (obj_head _ _ Hw) as [t ->]. injection Hs as <- _.
      apply number_head_cases in Hh. by vm_compute in Hh; set_solver. }
  pose proof (proj1 scan_complete w0 x Hw0 (S (length w + length w0)) (c' ++ q) ltac:(lia) Hstop) as H2.
  rewrite Hs in H1. rewrite H1 in H2. by injection H2.
Qed.

Lemma approx_object d y : approx (PDict d) y → ∃ d', approx_members d d' ∧ y = PDict (dict_pairs d').
Proof.
  intros H. inversion H; subst.
  - exists (dict_members d). split; [apply approx_all|done].
  - done.
  - by exists d'.
Qed.

Lemma rstrip_split t : ∃ z, t = rstrip t ++ z.
Proof.
  unfold rstrip. destruct (drop_spaces_suffix (rev t)) as (p & Hp & _). exists (rev p).
  by rewrite <-rev_app_distr, <-Hp, rev_involutive.
Qed.

Lemma ws_space c : is_ws c = true → is_space c = true.
Proof. unfold is_ws. rewrite !orb_true_iff, !Z.eqb_eq. intros H. by destruct_or! H; subst. Qed.

Lemma drop_spaces_blank b t : blank b → drop_spaces (b ++ t) = drop_spaces t.
Proof.
  unfold blank. induction b as [|c b IH]; [done|]. cbn. intros [Hc Hb]%andb_true_iff. by rewrite (ws_space c Hc), IH.
Qed.

(** The unfinished text of an object, stripped. *)
Lemma strip_part d b w b' p q : blank b → jvalue w (PDict d) → b ++ w ++ b' = p ++ q → blank b' → strip p ≠ [] →
  ∃ q', w ++ b' = strip p ++ q' ∧ ∃ t, strip p = 123 :: t.
Proof.
  intros Hb Hw Heq Hb' Hp.
  assert (∃ t, w = 123 :: t) as [t Ht] by by eapply obj_head.
  apply split_app in Heq as [(z & -> & Heq)|(z & -> & _)].
  2:{ exfalso. apply Hp. apply blank_app in Hb as [Hb _]. unfold strip. rewrite <-(app_nil_r p), drop_spaces_blank by done. done. }
  unfold strip in *. rewrite drop_spaces_blank in * by done. destruct z as [|c z]; [done|].
  assert (c = 123) as -> by (rewrite Ht in Heq; by injection Heq). change (drop_spaces (123 :: z)) with (123 :: z) in *.
  destruct (rstrip_split (123 :: z)) as [y Hy]. exists (y ++ q). split.
  - by rewrite Heq, app_assoc, <-Hy.
  - destruct (rstrip (123 :: z)) as [|e r]; [done|]. exists r. by injection Hy as <- _.
Qed.

Lemma partial_parse_part d b w b' p q : blank b → jvalue w (PDict d) → compact_arrays w = true → b ++ w ++ b' = p ++ q → blank b' →
  strip p ≠ [] → ∃ d', approx_members d d' ∧ _partial_parse_json p = Ok (PDict (dict_pairs d')).
Proof.
  intros Hb Hw Hcomp Heq Hb' Hp. destruct (strip_part d b w b' p q Hb Hw Heq Hb' Hp) as (q' & Hq & t & Ht).
  unfold _partial_parse_json. rewrite Ht in Hq |- *. cbv zeta. cbv iota. set (source := 123 :: t) in *.
  destruct (proj1 (parser_on_parts source) w _ Hw Hcomp) as [Hr Hpart]. unfold parse_fuel.
  apply split_app in Hq as [(z & Hz & Heq')|(z & Hz & -> & Hne)].
  - rewrite Heq' in Hb'. apply blank_app in Hb' as [Hbz _].
    destruct (Hr (S (2 * length source)) [] z) as (r' & Hres & _); [done|by apply blank_delimited|rewrite Hz; cbn; lia|by rewrite Hz|done|].
    cbn [app] in Hres. rewrite <-Hz in Hres. rewrite Hres. exists (dict_members d). split; [apply approx_all|done].
  - destruct (Hpart (S (2 * length source)) [] source z) as (o & Hres & Ho); [done|done|done|lia|done|done|].
    rewrite Hres. cbn [fst]. destruct o as [y|e].
    + destruct (approx_object d y Ho) as (d' & Hd & ->). by exists d'.
    + by destruct Ho as [_ [Hs|Hs]].
Qed.

Lemma arguments_part t d p q : loads_pairs t = Ok (PDict d) → compact_arrays t = true → t = p ++ q →
  ∃ d', approx_members d d' ∧ _parse_streaming_json (Some p) = dict_pairs d'.
Proof.
  intros (b & w & b' & Hb & Hb' & Hw & ->)%loads_pairs_iff Hcomp Heq.
  apply compact_app in Hcomp as [_ Hcomp]. apply compact_app in Hcomp as [Hcomp _]. unfold _parse_streaming_json.
  destruct (strip p) as [|c0 t0] eqn:Hstrip; [exists []; split; [constructor|done]|].
  destruct (partial_parse_part d b w b' p q Hb Hw Hcomp Heq Hb') as (d' & Hd & Hpartial); [by rewrite Hstrip|]. rewrite Hpartial.
  assert (∀ v, _parse_json_with_repair p = Ok v → v = PDict (dict_pairs (dict_members d))) as Hok.
  { intros v. unfold _parse_json_with_repair, loads. destruct (loads_pairs p) as [x|e] eqn:Hx; cbn [mbind result_bind].
    - intros [= <-]. by rewrite (loads_part d b w b' p q x Hb Hw Heq Hb' Hx).
    - destruct e; [|done]. case_bool_decide as Hne; [|done].
      assert (_repair_json p = p ++ [92]) as ->.
      { assert (copied (b ++ w ++ b')) as [_ Hc].
        { apply copied_app; [by apply copied_blank|]. apply copied_app; [by eapply (proj1 copied_json)|by apply copied_blank]. }
        by destruct (Hc p q Heq). }
      destruct (loads_pairs (p ++ [92])) as [x|] eqn:Hl; cbn [mbind result_bind]; [|done]. exfalso.
      apply loads_pairs_iff in Hl as (c & w0 & c' & _ & Hc' & Hw0 & Hl). symmetry in Hl. rewrite app_assoc in Hl.
      destruct (decide (c' = [])) as [->|Hn].
      + rewrite app_nil_r in Hl. apply split_app in Hl as [(z & -> & Hl)|(z & -> & Hl & Hz)];
          [by apply (proj1 no_last_backslash w0 x Hw0 z)|].
        destruct z as [|? [|]]; destruct w0; cbn in Hl; simplify_eq; by apply jvalue_head in Hw0 as (? & ? & ? & _).
      + destruct (exists_last Hn) as (c1 & e & ->). rewrite app_assoc in Hl. apply app_inj_tail in Hl as [_ ->].
        apply blank_app in Hc' as [_ Hc']. done. }
  destruct (_parse_json_with_repair p) as [v|e]; [|by exists d'].
  rewrite (Hok v eq_refl). exists (dict_members d). split; [apply approx_all|done].
Qed.

(** ** The parser ends *)

(** A call that ends, further on in the text when it returns. *)
Definition ends {A} (t : text) (r : result partial_error A * text) : Prop :=
  r.1 ≠ Err OutOfFuel ∧ (length r.2 <= length t)%nat.

Definition advances {A} (t : text) (r : result partial_error A * text) : Prop :=
  ends t r ∧ match r.1 with Ok _ => (length r.2 < length t)%nat | Err _ => True end.

Lemma string_end_length t : ∀ e body after x, string_end e t = (body, Some after, x) → (length after < length t)%nat.
Proof.
  induction t as [|c t IH]; intros e body after x; cbn; [done|]. destruct (_ && _); [intros [= _ <- _]; lia|].
  destruct (string_end _ t) as [[b a] y] eqn:Hs. intros [= _ -> _]. apply IH in Hs. lia.
Qed.

Lemma lift_loads_ends t m : (∀ e, m = Err e → True) → t ≠ [] → advances t (lift_loads m []).
Proof. intros _ Ht. destruct t; [done|]. destruct m as [|[]]; repeat split; cbn; (done || lia). Qed.

Lemma parse_str_advances t : t ≠ [] → advances t (parse_str t).
Proof.
  destruct t as [|c t]; [done|]. intros _. unfold parse_str.
  destruct (string_end false t) as [[body [after|]] e] eqn:Hs.
  - apply string_end_length in Hs. destruct (loads_string c body) as [|[]]; repeat split; cbn; (done || lia).
  - cbv zeta. destruct (loads_closed _) as [v|[]]; [by apply lift_loads_ends| |by apply lift_loads_ends].
    destruct (before_last_backslash _) as [p|]; [by apply lift_loads_ends|]. repeat split; cbn; (done || lia).
Qed.

Lemma take_token_length t : ∀ token after, take_token t = (token, after) → (length token + length after = length t)%nat.
Proof.
  induction t as [|c t IH]; intros token after; cbn; [by intros [= <- <-]|]. destruct (_ || _); [by intros [= <- <-]|].
  destruct (take_token t) as [tk a] eqn:Ht. intros [= <- <-]. specialize (IH _ _ eq_refl). cbn. lia.
Qed.

Lemma number_token_length t token after : number_token t = (token, after) → (length token + length after = length t)%nat.
Proof.
  unfold number_token. destruct t as [|c t]; [by intros [= <- <-]|]. destruct (c =? 45); [|apply take_token_length].
  destruct (take_token t) as [tk a] eqn:Ht. intros [= <- <-]. apply take_token_length in Ht. cbn. lia.
Qed.

Lemma mantissa_ends token e : e ≠ OutOfFuel → loads_mantissa token e ≠ Err OutOfFuel.
Proof.
  unfold loads_mantissa. destruct (before_last_e token) as [m|]; [|congruence]. destruct (loads m) as [|[]]; cbn; congruence.
Qed.

Lemma parse_num_advances source t : t ≠ source → advances t (parse_num source t).
Proof.
  intros Ht. unfold parse_num. rewrite bool_decide_false by done. destruct (number_token t) as [token after] eqn:Hn.
  apply number_token_length in Hn. destruct (loads token) as [v|[]] eqn:Hl.
  - repeat split; cbn; [done|lia|]. destruct token; [done|cbn in Hn; lia].
  - assert (∀ v, loads_mantissa token DecodeError = Ok v → token ≠ []) as Hm by (by intros v Hv ->).
    pose proof (mantissa_ends token DecodeError ltac:(done)). case_bool_decide; repeat split; cbn; try (done || lia).
    destruct (loads_mantissa token DecodeError) as [v|] eqn:Hv; [|done]. specialize (Hm v eq_refl). destruct token; [done|cbn in Hn; lia].
  - repeat split; cbn; [done|lia].
Qed.

Lemma literal_advances t word v : literal_of t = Some (word, v) → t ≠ [] → (length (drop (length word) t) < length t)%nat.
Proof.
  unfold literal_of. intros [Hin _]%find_some Ht. rewrite length_drop. destruct t; [done|].
  assert (length word ≠ 0)%nat; [|cbn; lia]. unfold literals in Hin. cbn [In] in Hin. by destruct_or! Hin; simplify_eq; vm_compute.
Qed.

Lemma skip_ws_length t : (length (skip_ws t) <= length t)%nat.
Proof. induction t as [|c t IH]; cbn; [done|]. destruct (is_ws c); cbn; lia. Qed.

Lemma after_item_length t : (length (after_item t) <= length t)%nat.
Proof.
  unfold after_item. pose proof (skip_ws_length t). destruct (opens_with 44 (skip_ws t)); [|done].
  destruct (skip_ws t); cbn in *; lia.
Qed.

Lemma parser_ends source m :
  (∀ t, (2 * length t < m)%nat → (length t < length source)%nat → advances t (parse_any source m t)) ∧
  (∀ array t, (2 * length t + 1 < m)%nat → (length t < length source)%nat → ends t (parse_arr source m array t)) ∧
  (∀ obj t, (2 * length t + 1 < m)%nat → (length t < length source)%nat → ends t (parse_obj source m obj t)).
Proof.
  induction m as [|m (IHv & IHa & IHo)]; [split_and!; intros; lia|]. split_and!.
  - intros t Hm Hlen. rewrite parse_any_eq. pose proof (skip_ws_length t) as Hs.
    assert (∀ r : result partial_error pv * text, advances (skip_ws t) r → advances t r) as Hw.
    { intros [o t'] [[? ?] ?]. repeat split; cbn in *; [done|lia|]. destruct o; [lia|done]. }
    destruct (skip_ws t) as [|c rest] eqn:Ht; [repeat split; cbn; [done|lia]|]. apply Hw. clear Hw. cbn in Hs.
    destruct (c =? 34); [by apply parse_str_advances|]. destruct (c =? 123).
    { pose proof (skip_ws_length rest). destruct (IHo [] (skip_ws rest)) as [H1 H2]; [lia|lia|].
      destruct (parse_obj source m [] (skip_ws rest)) as [[d|e] t']; repeat split; cbn in *; (congruence || lia). }
    destruct (c =? 91).
    { destruct (IHa [] rest) as [H1 H2]; [lia|lia|].
      destruct (parse_arr source m [] rest) as [[d|e] t']; repeat split; cbn in *; (congruence || lia). }
    destruct (literal_of (c :: rest)) as [[word v]|] eqn:Hl.
    { apply literal_advances in Hl; [|done]. repeat split; cbn [fst snd]; [done|lia|done]. }
    apply parse_num_advances. intros Heq. rewrite <-Heq in Hlen. cbn in Hlen. lia.
  - intros array t Hm Hlen. rewrite parse_arr_eq. destruct t as [|c rest]; [done|].
    destruct (c =? 93); [split; cbn in *; [done|lia]|]. destruct (IHv (c :: rest)) as [[H1 H2] H3]; [lia|lia|].
    destruct (parse_any source m (c :: rest)) as [[v|e] t']; cbn [fst snd guarded] in *.
    + pose proof (after_item_length t'). destruct (IHa (array ++ [v]) (after_item t')) as [H4 H5]; [lia|lia|]. split; [done|lia].
    + destruct e; done.
  - intros obj t Hm Hlen. rewrite parse_obj_eq. pose proof (skip_ws_length t) as Hs. destruct t as [|c rest]; [done|].
    destruct (c =? 125); [split; cbn in *; [done|lia]|]. destruct (skip_ws (c :: rest)) as [|c1 t1] eqn:Ht; [split; cbn in *; [done|lia]|].
    destruct (parse_str_advances (c1 :: t1)) as [[H1 H2] H3]; [done|].
    destruct (parse_str (c1 :: t1)) as [[k|e] t2]; cbn [fst snd guarded] in *; [|destruct e; split; cbn in *; (done || lia)].
    destruct k; try (split; cbn in *; [done|lia]). pose proof (skip_ws_length t2).
    destruct (opens_with 58 (skip_ws t2)) eqn:Ho; [|split; cbn in *; [done|lia]].
    apply opens_with_split in Ho. assert (length (skip_ws t2) = S (length (tail (skip_ws t2)))) as Htl by by rewrite Ho at 1.
    destruct (IHv (tail (skip_ws t2))) as [[H4 H5] H6]; [lia|lia|].
    destruct (parse_any source m (tail (skip_ws t2))) as [[v|e] t4]; cbn [fst snd guarded] in *; [|destruct e; split; cbn in *; (done || lia)].
    pose proof (after_item_length t4). destruct (IHo (od_set s v obj) (after_item t4)) as [H7 H8]; [lia|lia|]. split; [done|lia].
Qed.

(** The fuel of [_partial_parse_json] is enough for any text. *)
Lemma parse_terminates t : _partial_parse_json t ≠ Err OutOfFuel.
Proof.
  unfold _partial_parse_json. set (source := strip t). destruct source as [|c rest] eqn:Hs; [done|]. rewrite <-Hs.
  assert (skip_ws source = source ∨ (length (skip_ws source) < length source)%nat) as Hskip.
  { destruct (skip_ws_split source) as (b & _ & Heq & _). apply (f_equal length) in Heq as Hl. rewrite length_app in Hl.
    destruct b; [left; by rewrite Heq at 2|right; cbn in Hl; lia]. }
  unfold parse_fuel. destruct (parser_ends source (2 * length source)) as (Hv & Ha & Ho).
  destruct Hskip as [Hskip|Hskip].
  - rewrite parse_any_eq, Hskip, Hs. assert (length source = S (length rest)) as Hlen by by rewrite Hs.
    destruct (c =? 34); [by apply parse_str_advances|]. destruct (c =? 123).
    { pose proof (skip_ws_length rest). destruct (Ho [] (skip_ws rest)) as [H1 _]; [lia|lia|].
      rewrite <-Hs. destruct (parse_obj source _ [] (skip_ws rest)) as [[d|e] t']; cbn in *; congruence. }
    destruct (c =? 91).
    { destruct (Ha [] rest) as [H1 _]; [lia|lia|]. rewrite <-Hs. destruct (parse_arr source _ [] rest) as [[d|e] t']; cbn in *; congruence. }
    destruct (literal_of (c :: rest)) as [[word v]|]; [done|]. unfold parse_num. rewrite bool_decide_true by done.
    case_bool_decide; [done|]. destruct (loads (c :: rest)) as [|[]]; cbn; try done. by apply mantissa_ends.
  - rewrite parse_any_eq. pose proof Hskip as Hk. destruct (skip_ws source) as [|d r] eqn:Hd; [done|]. cbn in Hk.
    destruct (d =? 34); [by apply parse_str_advances|]. destruct (d =? 123).
    { pose proof (skip_ws_length r). destruct (Ho [] (skip_ws r)) as [H1 _]; [lia|lia|].
      destruct (parse_obj source _ [] (skip_ws r)) as [[x|e] t']; cbn in *; congruence. }
    destruct (d =? 91).
    { destruct (Ha [] r) as [H1 _]; [lia|lia|]. destruct (parse_arr source _ [] r) as [[x|e] t']; cbn in *; congruence. }
    destruct (literal_of (d :: r)) as [[word v]|]; [done|]. apply parse_num_advances. intros Heq. rewrite <-Heq in Hskip. lia.
Qed.

(** C27: The preview of streamed arguments approximates the arguments.  For a JSON text of
    an object in which no empty array is written with a blank, the arguments that any
    first part of it gives are the members of the object in their order up to some point,
    the last of them in part: the first items of a list, the first characters of a
    string (split at most inside an escaped character), a number for a number.  The whole
    text gives the object, and repairing changes no valid text. *)
Theorem streamed_arguments_approximate t d : loads_pairs t = Ok (PDict d) → compact_arrays t = true →
  (∀ p q, t = p ++ q → ∃ d', approx_members d d' ∧ _parse_streaming_json (Some p) = dict_pairs d') ∧
  PDict (_parse_streaming_json (Some t)) = dict_of (PDict d) ∧ _repair_json t = t.
Proof.
  intros Ht Hc. split; [intros p q; by apply arguments_part|].
  assert (_repair_json t = t) as Hrepair.
  { apply loads_pairs_iff in Ht as (b & w & b' & Hb & Hb' & Hw & ->).
    assert (copied (b ++ w ++ b')) as [H _].
    { apply copied_app; [by apply copied_blank|]. apply copied_app; [by eapply (proj1 copied_json)|by apply copied_blank]. }
    specialize (H []). rewrite app_nil_r in H. unfold _repair_json. rewrite H. cbn. by rewrite app_nil_r. }
  split; [|done]. unfold _parse_streaming_json, _parse_json_with_repair, loads. rewrite Ht. cbn [mbind result_bind].
  destruct (strip t) eqn:Hs; [|done].
  apply loads_pairs_iff in Ht as (b & w & b' & Hb & Hb' & Hw & ->). exfalso. destruct (obj_head w d Hw) as [x ->].
  unfold strip in Hs. rewrite drop_spaces_blank in Hs by done. change (drop_spaces _) with (123 :: x ++ b') in Hs.
  unfold rstrip in Hs. apply (f_equal (@rev Z)) in Hs. rewrite rev_involutive in Hs. cbn in Hs.
  destruct (drop_spaces_suffix (rev (x ++ b') ++ [123])) as (y & Hy & Hsp). rewrite Hs, app_nil_r in Hy. rewrite <-Hy in Hsp.
  rewrite forallb_app in Hsp. by apply andb_true_iff in Hsp as [_ Hsp].
Qed.

Lemma streamed_arguments_approximate_witness :
  let t := quoted "{#cmd#: #ls -l@n@u00e9#, #n#: [1, 2]}" in
  _parse_streaming_json (Some (take 20 t)) = [(lit "cmd", PStr (lit "ls -l" ++ [10]))] ∧
  ∃ d', approx_members [(lit "cmd", PStr (lit "ls -l" ++ [10; 233])); (lit "n", PList [PInt 1; PInt 2])] d' ∧
        _parse_streaming_json (Some (take 20 t)) = dict_pairs d'.
Proof.
  split; [vm_compute; reflexivity|].
  apply (proj1 (streamed_arguments_approximate (quoted "{#cmd#: #ls -l@n@u00e9#, #n#: [1, 2]}")
    [(lit "cmd", PStr (lit "ls -l" ++ [10; 233])); (lit "n", PList [PInt 1; PInt 2])]
    ltac:(vm_compute; reflexivity) ltac:(vm_compute; reflexivity)) _ (drop 20 (quoted "{#cmd#: #ls -l@n@u00e9#, #n#: [1, 2]}"))).
  by rewrite take_drop.
Defined.
