(* ===== verification/Params.v ===== *)
(** The generation parameters of a request (travis/ai/providers/params.py): parsing
    and checking of raw values, merging of layers, the record a session stores and
    what it is read back to.

    Raw values are Python values of the JSON types.  Their [str] where it is not
    defined by [PyValue], and [json.loads], are arguments. *)

From S2P Require Import Prelude PyDict PyFloat Utf8 PyText PyValue.
Open Scope Z_scope.

(** [src: travis/ai/providers/params.py:10-22 _PARAM_FIELDS] *)
Inductive param_field : Type :=
  | temperature | top_p | max_tokens | timeout_seconds | frequency_penalty
  | presence_penalty | seed | parallel_tool_calls | tool_choice | stop | provider_sort.

Definition _PARAM_FIELDS : list param_field :=
  [temperature; top_p; max_tokens; timeout_seconds; frequency_penalty; presence_penalty;
   seed; parallel_tool_calls; tool_choice; stop; provider_sort].

Definition field_name (f : param_field) : text :=
  lit match f with
      | temperature => "temperature" | top_p => "top_p" | max_tokens => "max_tokens"
      | timeout_seconds => "timeout_seconds" | frequency_penalty => "frequency_penalty"
      | presence_penalty => "presence_penalty" | seed => "seed"
      | parallel_tool_calls => "parallel_tool_calls" | tool_choice => "tool_choice"
      | stop => "stop" | provider_sort => "provider_sort"
      end.

#[export] Instance param_field_eq_dec : EqDecision param_field.
Proof. solve_decision. Defined.

Definition field_of (name : text) : option param_field :=
  List.find (λ f, bool_decide (field_name f = name)) _PARAM_FIELDS.

(** [src: travis/ai/providers/params.py:24-27 _UNSET_STRINGS, _TRUE_STRINGS, _FALSE_STRINGS, _SECRET_MARKERS] *)
Definition _UNSET_STRINGS : list text := map lit [""; "none"; "null"]%string.
Definition _TRUE_STRINGS : list text := map lit ["1"; "true"; "yes"; "y"; "on"]%string.
Definition _FALSE_STRINGS : list text := map lit ["0"; "false"; "no"; "n"; "off"]%string.
Definition _SECRET_MARKERS : list text :=
  map lit ["sk-"; "api_key"; "authorization"; "bearer "; "secret"; "token"]%string.

Inductive params_error : Type :=
  | ValueError (message : text)
  | OverflowError
  | TypeError.

Definition value_error {A} (parts : list text) : result params_error A := Err (ValueError (concat parts)).

(** What a field can hold. *)
Inductive param_value : Type :=
  | FloatV (f : float64)
  | IntV (z : Z)
  | BoolV (b : bool)
  | TextV (t : text)
  | StopV (sequences : list text).
#[export] Instance param_value_eq_dec : EqDecision param_value.
Proof. solve_decision. Defined.

Definition labels : Type := list (param_field * text).

(** [src: travis/ai/providers/params.py:30-45 GenerationParams] *)
Record GenerationParams : Type := {
  gp_temperature : option param_value;
  gp_top_p : option param_value;
  gp_max_tokens : option param_value;
  gp_timeout_seconds : option param_value;
  gp_frequency_penalty : option param_value;
  gp_presence_penalty : option param_value;
  gp_seed : option param_value;
  gp_parallel_tool_calls : option param_value;
  gp_tool_choice : option param_value;
  gp_stop : list text;
  gp_provider_sort : option param_value;
  gp_provider_preferences : option (list (text * pv));
  gp_sources : labels
}.

(** [getattr(params, field_name)], and [None] for an empty [stop], which every reader
    skips. *)
Definition param_get (f : param_field) (p : GenerationParams) : option param_value :=
  match f with
  | temperature => gp_temperature p
  | top_p => gp_top_p p
  | max_tokens => gp_max_tokens p
  | timeout_seconds => gp_timeout_seconds p
  | frequency_penalty => gp_frequency_penalty p
  | presence_penalty => gp_presence_penalty p
  | seed => gp_seed p
  | parallel_tool_calls => gp_parallel_tool_calls p
  | tool_choice => gp_tool_choice p
  | stop => match gp_stop p with [] => None | l => Some (StopV l) end
  | provider_sort => gp_provider_sort p
  end.

(** [src: travis/ai/providers/params.py:375-386 _clean_source_label] of a string or
    [None]. *)
Definition _clean_source_label (value : option text) : text :=
  match value with
  | None => []
  | Some v =>
      let t := strip v in
      if existsb (λ marker, contains marker (lower t)) _SECRET_MARKERS then [] else t
  end.

(** The sources that [__post_init__] keeps.
    [src: travis/ai/providers/params.py:46-61 GenerationParams.__post_init__] *)
Definition cleaned_sources (sources : labels) : labels :=
  fold_left (λ d '(f, value),
    match _clean_source_label (Some value) with [] => d | label => od_set f label d end) sources [].

(** The constructor, from keyword arguments.
    [src: travis/ai/providers/params.py:46-61 GenerationParams.__post_init__] *)
Definition make_params (values : list (param_field * param_value))
    (preferences : option (list (text * pv))) (sources : labels) : result params_error GenerationParams :=
  stop_value ← match od_get stop values with
               | None => Ok []
               | Some (TextV t) => Ok [t]
               | Some (StopV l) => Ok l
               | Some _ => value_error [lit "stop must be a JSON array or comma-separated list"]
               end;
  Ok {| gp_temperature := od_get temperature values;
        gp_top_p := od_get top_p values;
        gp_max_tokens := od_get max_tokens values;
        gp_timeout_seconds := od_get timeout_seconds values;
        gp_frequency_penalty := od_get frequency_penalty values;
        gp_presence_penalty := od_get presence_penalty values;
        gp_seed := od_get seed values;
        gp_parallel_tool_calls := od_get parallel_tool_calls values;
        gp_tool_choice := od_get tool_choice values;
        gp_stop := stop_value;
        gp_provider_sort := od_get provider_sort values;
        gp_provider_preferences := preferences;
        gp_sources := cleaned_sources sources |}.

(** [GenerationParams()] *)
Definition default_params : GenerationParams :=
  {| gp_temperature := None; gp_top_p := None; gp_max_tokens := None; gp_timeout_seconds := None;
     gp_frequency_penalty := None; gp_presence_penalty := None; gp_seed := None;
     gp_parallel_tool_calls := None; gp_tool_choice := None; gp_stop := []; gp_provider_sort := None;
     gp_provider_preferences := None; gp_sources := [] |}.

(** ** Parsing *)

(** [src: travis/ai/providers/params.py:244-249 _is_unset] *)
Definition _is_unset (value : pv) : bool :=
  match value with
  | PNone => true
  | PStr s => bool_decide (lower (strip s) ∈ _UNSET_STRINGS)
  | _ => false
  end.

Section parsing.
(** [str] of a float, a list or a dict, and [json.loads] ([None] for
    [JSONDecodeError]). *)
Variable repr : pv → text.
Variable json_loads : text → option pv.

(** [src: travis/ai/providers/params.py:367-372 _format_scalar] *)
Definition _format_scalar (value : param_value) : text :=
  match value with
  | BoolV b => lit (if b then "true" else "false")
  | FloatV f => if fl_is_integer f then decimal (fl_trunc f) else repr (PFloat f)
  | IntV z => decimal z
  | TextV t => t
  | StopV l => repr (PList (map PStr l))
  end.

(** [src: travis/ai/providers/params.py:272-283 _parse_float] *)
Definition _parse_float (f : param_field) (value : pv) : result params_error float64 :=
  let not_a_number := value_error [field_name f; lit " must be a number"] in
  parsed ← match value with
           | PFloat x => Ok x
           | PInt z => match float_of_int z with Some x => Ok x | None => Err OverflowError end
           | PStr s => match py_float s with Some x => Ok x | None => not_a_number end
           | _ => not_a_number
           end;
  if fl_finite parsed then Ok parsed else value_error [field_name f; lit " must be finite"].

(** [src: travis/ai/providers/params.py:252-262 _parse_float_range] *)
Definition _parse_float_range (f : param_field) (value : pv) (minimum maximum : float64)
    : result params_error float64 :=
  parsed ← _parse_float f value;
  if fl_leb minimum parsed && fl_leb parsed maximum then Ok parsed
  else value_error [field_name f; lit " must be between "; _format_scalar (FloatV minimum);
                    lit " and "; _format_scalar (FloatV maximum)].

(** [src: travis/ai/providers/params.py:265-269 _parse_positive_float] *)
Definition _parse_positive_float (f : param_field) (value : pv) : result params_error float64 :=
  parsed ← _parse_float f value;
  if fl_leb parsed fl_zero then value_error [field_name f; lit " must be positive"] else Ok parsed.

(** [src: travis/ai/providers/params.py:293-307 _parse_int] *)
Definition _parse_int (f : param_field) (value : pv) : result params_error Z :=
  let not_an_integer := value_error [field_name f; lit " must be an integer"] in
  match value with
  | PBool _ => not_an_integer
  | PInt z => Ok z
  | PFloat x => if fl_is_integer x then Ok (fl_trunc x) else not_an_integer
  | _ => match py_int (strip (py_str repr value)) with Some z => Ok z | None => not_an_integer end
  end.

(** [src: travis/ai/providers/params.py:286-290 _parse_positive_int] *)
Definition _parse_positive_int (f : param_field) (value : pv) : result params_error Z :=
  parsed ← _parse_int f value;
  if parsed <=? 0 then value_error [field_name f; lit " must be positive"] else Ok parsed.

(** [src: travis/ai/providers/params.py:310-319 _parse_bool] *)
Definition _parse_bool (f : param_field) (value : pv) : result params_error bool :=
  match value with
  | PBool b => Ok b
  | _ =>
      let t := lower (strip (py_str repr value)) in
      if bool_decide (t ∈ _TRUE_STRINGS) then Ok true
      else if bool_decide (t ∈ _FALSE_STRINGS) then Ok false
      else value_error [field_name f; lit " must be a boolean"]
  end.

(** [src: travis/ai/providers/params.py:322-328 _parse_text] *)
Definition _parse_text (value : pv) : option text :=
  let t := strip (py_str repr value) in
  if bool_decide (lower t ∈ _UNSET_STRINGS) then None
  else if bool_decide (t = []) then None
  else Some t.

(** [src: travis/ai/providers/params.py:348-358 _coerce_stop_sequence] *)
Definition _coerce_stop_sequence (value : pv) : result params_error (list text) :=
  match value with
  | PList items =>
      try_map (λ item, match item with
                       | PStr s => Ok s
                       | _ => value_error [lit "stop entries must be strings"]
                       end) items
  | _ => value_error [lit "stop must be a JSON array or comma-separated list"]
  end.

(** [t.split(",")] *)
Fixpoint split_commas (t : text) : list text :=
  match t with
  | [] => [[]]
  | c :: rest =>
      if c =? 44 then [] :: split_commas rest
      else match split_commas rest with
           | part :: parts => (c :: part) :: parts
           | [] => [[c]]
           end
  end.

(** [src: travis/ai/providers/params.py:331-345 _parse_stop] *)
Definition _parse_stop (value : pv) : result params_error (list text) :=
  match value with
  | PStr s =>
      let t := strip s in
      if bool_decide (lower t ∈ _UNSET_STRINGS) then Ok []
      else if is_prefix (lit "[") t then
        match json_loads t with
        | None => value_error [lit "stop must be a JSON array or comma-separated list"]
        | Some decoded => _coerce_stop_sequence decoded
        end
      else _coerce_stop_sequence
             (PList (map PStr (List.filter (λ part, negb (bool_decide (part = []))) (map strip (split_commas t)))))
  | _ => _coerce_stop_sequence value
  end.

(** [src: travis/ai/providers/params.py:219-241 _parse_value] *)
Definition _parse_value (f : param_field) (value : pv) : result params_error (option param_value) :=
  match f with
  | temperature => Some ∘ FloatV <$> _parse_float_range f value fl_zero (fl_lit 2 0)
  | top_p => Some ∘ FloatV <$> _parse_float_range f value fl_zero (fl_lit 1 0)
  | max_tokens => Some ∘ IntV <$> _parse_positive_int f value
  | timeout_seconds => Some ∘ FloatV <$> _parse_positive_float f value
  | frequency_penalty | presence_penalty =>
      Some ∘ FloatV <$> _parse_float_range f value (fl_lit (-2) 0) (fl_lit 2 0)
  | seed => Some ∘ IntV <$> _parse_int f value
  | parallel_tool_calls => Some ∘ BoolV <$> _parse_bool f value
  | tool_choice | provider_sort => Ok (TextV <$> _parse_text value)
  | stop => Some ∘ StopV <$> _parse_stop value
  end.

(** [src: travis/ai/providers/params.py:74-91 params_from_mapping]: One turn of the loop of [params_from_mapping]: what is set for a field. *)
Definition parse_field (values : list (text * pv)) (f : param_field) : result params_error (option param_value) :=
  match od_get (field_name f) values with
  | None => Ok None
  | Some raw_value =>
      if _is_unset raw_value then Ok None
      else
        parsed_value ← _parse_value f raw_value;
        Ok (if bool_decide (parsed_value = Some (StopV [])) then None else parsed_value)
  end.

(** [src: travis/ai/providers/params.py:64-91 params_from_mapping] *)
Definition params_from_mapping (values : list (text * pv)) (source : option text)
    : result params_error GenerationParams :=
  let source_label := _clean_source_label source in
  found ← try_map (λ f, v ← parse_field values f; Ok (f, v)) _PARAM_FIELDS;
  let parsed := omap (λ '(f, v), pair f <$> v) found in
  let sources := if bool_decide (source_label = []) then [] else map (λ p, (p.1, source_label)) parsed in
  make_params parsed None sources.

(** ** Merging and printing *)

(** [src: travis/ai/providers/params.py:103-114 merge_generation_params]: One field of one layer. *)
Definition merge_field (item : GenerationParams) (acc : list (param_field * param_value) * labels)
    (f : param_field) : list (param_field * param_value) * labels :=
  match param_get f item with
  | None => acc
  | Some value =>
      (od_set f value acc.1,
       match od_get f (gp_sources item) with
       | Some ((_ :: _) as source) => od_set f source acc.2
       | _ => od_del f acc.2
       end)
  end.

(** [src: travis/ai/providers/params.py:94-119 merge_generation_params] *)
Definition merge_generation_params (items : list (option GenerationParams))
    : result params_error GenerationParams :=
  let '(merged, sources, preferences) :=
    fold_left (λ acc item,
      match item with
      | None => acc
      | Some item =>
          (fold_left (merge_field item) _PARAM_FIELDS acc.1,
           match gp_provider_preferences item with Some ((_ :: _) as p) => Some p | _ => acc.2 end)
      end) items ([], [], None) in
  make_params merged preferences sources.

(** [src: travis/ai/providers/params.py:361-364 _format_stop] *)
Definition _format_stop (value : list text) : text :=
  let count := Z.of_nat (length value) in
  decimal count ++ lit " " ++ lit (if count =? 1 then "sequence" else "sequences").

(** [", ".join(parts)] *)
Fixpoint join_commas (parts : list text) : text :=
  match parts with
  | [] => []
  | [p] => p
  | p :: rest => p ++ lit ", " ++ join_commas rest
  end.

(** [src: travis/ai/providers/params.py:122-144 compact_generation_params_display] *)
Definition compact_generation_params_display (params : GenerationParams) : text :=
  let parts := omap (λ f,
    value ← param_get f params;
    let formatted := match value with StopV l => _format_stop l | v => _format_scalar v end in
    let formatted := match od_get f (gp_sources params) with
                     | Some ((_ :: _) as source) => formatted ++ lit " (" ++ source ++ lit ")"
                     | _ => formatted
                     end in
    Some (field_name f ++ lit "=" ++ formatted)) _PARAM_FIELDS in
  match parts with [] => lit "default generation parameters" | _ => join_commas parts end.

(** ** The mapping a session stores *)

Definition value_to_pv (v : param_value) : pv :=
  match v with
  | FloatV f => PFloat f
  | IntV z => PInt z
  | BoolV b => PBool b
  | TextV t => PStr t
  | StopV l => PList (map PStr l)
  end.

(** [src: travis/ai/providers/params.py:147-161 generation_params_to_mapping] *)
Definition generation_params_to_mapping (params : GenerationParams) : list (text * pv) :=
  omap (λ f, (λ v, (field_name f, value_to_pv v)) <$> param_get f params) _PARAM_FIELDS.

(** [src: travis/ai/providers/params.py:164-179 generation_params_from_session_mapping] *)
Definition generation_params_from_session_mapping (values : pv)
    : result params_error (option GenerationParams) :=
  match values with
  | PDict d =>
      if existsb (λ p, bool_decide (field_of p.1 = None)) d then Ok None
      else if existsb (λ p, _is_unset p.2) d then Ok None
      else
        match params_from_mapping d (Some (lit "session")) with
        | Err OverflowError => Err OverflowError
        | Err _ => Ok None
        | Ok parsed =>
            let stored := generation_params_to_mapping parsed in
            Ok (if forallb (λ p, bool_decide (p.1 ∈ stored.*1)) d && forallb (λ k, bool_decide (k ∈ d.*1)) stored.*1
                then Some parsed else None)
        end
  | _ => Ok None
  end.

Definition requires_value {A} (name : text) : result params_error A :=
  value_error [name; lit " requires a value; use /params reset "; name].

(** [src: travis/ai/providers/params.py:182-201 replace_generation_param] *)
Definition replace_generation_param (params : GenerationParams) (name : text) (raw_value : pv)
    (source : text) : result params_error GenerationParams :=
  if bool_decide (field_of name = None) then value_error [lit "unsupported generation parameter: "; name]
  else if _is_unset raw_value then requires_value name
  else
    parsed ← params_from_mapping [(name, raw_value)] (Some source);
    match od_get name (generation_params_to_mapping parsed) with
    | None => requires_value name
    | Some value =>
        params_from_mapping (od_set name value (generation_params_to_mapping params)) (Some source)
    end.

(** [src: travis/ai/providers/params.py:204-216 remove_generation_param] *)
Definition remove_generation_param (params : GenerationParams) (name : text) (source : text)
    : result params_error GenerationParams :=
  if bool_decide (field_of name = None) then value_error [lit "unsupported generation parameter: "; name]
  else params_from_mapping (od_del name (generation_params_to_mapping params)) (Some source).
End parsing.
