(* ===== verification/ParamsSpec.v ===== *)
(** Properties of the generation parameters: every value built by the module is in
    range and printable, a session reads back what it stored, one field can be
    replaced or removed without touching the others, and in a merge the last layer
    that sets a field wins, with its source. *)

From S2P Require Import Prelude PyDict PyFloat Utf8 PyText PyValue Params.
Open Scope Z_scope.

(** ** Fields *)

Lemma field_of_name f : field_of (field_name f) = Some f.
Proof. by destruct f; vm_compute. Qed.

Lemma field_name_inj f g : field_name f = field_name g → f = g.
Proof. intros H. apply (f_equal field_of) in H. rewrite !field_of_name in H. congruence. Qed.

Lemma field_of_some name f : field_of name = Some f → name = field_name f.
Proof. intros H. apply List.find_some in H as [_ H]. by apply bool_decide_eq_true in H. Qed.

Lemma fields_nodup : NoDup _PARAM_FIELDS.
Proof. apply (bool_decide_unpack _). by vm_compute. Qed.

Lemma fields_all f : f ∈ _PARAM_FIELDS.
Proof. destruct f; apply (bool_decide_unpack _); by vm_compute. Qed.

(** ** Source labels *)

Lemma clean_label_idem value : _clean_source_label (Some (_clean_source_label value)) = _clean_source_label value.
Proof.
  destruct value as [t|]; [|by vm_compute]. unfold _clean_source_label at 2 3.
  destruct (existsb _ _) eqn:He; [by vm_compute|]. unfold _clean_source_label. by rewrite strip_idem, He.
Qed.

#[local] Opaque lit _clean_source_label.

Definition nonempty (t : text) : option text := match t with [] => None | _ => Some t end.

Lemma cleaned_sources_get sources f : NoDup sources.*1 →
  od_get f (cleaned_sources sources) = v ← od_get f sources; nonempty (_clean_source_label (Some v)).
Proof.
  unfold cleaned_sources.
  assert (∀ d, NoDup sources.*1 → od_get f (fold_left (λ d '(f, value),
    match _clean_source_label (Some value) with [] => d | label => od_set f label d end) sources d) =
    match v ← od_get f sources; nonempty (_clean_source_label (Some v)) with Some l => Some l | None => od_get f d end) as H.
  { induction sources as [|[g v] sources IH]; intros d Hd; [done|]. cbn [fold_left od_get].
    apply NoDup_cons in Hd as [Hg Hd]. rewrite IH by done.
    destruct (decide (g = f)) as [->|Hne].
    - assert (od_get f sources = None) as -> by (apply od_get_none; done). cbn.
      destruct (_clean_source_label (Some v)); cbn; [done|]. by rewrite od_get_set, decide_True.
    - destruct (decide (g = f)); [done|].
      destruct (_clean_source_label (Some v)); [done|]. rewrite od_get_set, decide_False by done. done. }
  intros Hd. rewrite H by done. by destruct (_ ≫= _).
Qed.

(** ** Construction *)

(** A value of [stop] is a list that is not empty. *)
Definition stop_ok (v : option param_value) : Prop :=
  match v with None => True | Some (StopV l) => l ≠ [] | _ => False end.

(** The constructor on a dict of well-formed values. *)
Lemma make_params_get values prefs sources : stop_ok (od_get stop values) →
  ∃ p, make_params values prefs sources = Ok p ∧ (∀ f, param_get f p = od_get f values) ∧
    gp_provider_preferences p = prefs ∧ gp_sources p = cleaned_sources sources.
Proof.
  intros Hs. unfold make_params.
  assert (∃ l, match od_get stop values with
               | None => Ok []
               | Some (TextV t) => Ok [t]
               | Some (StopV l) => Ok l
               | Some _ => value_error [lit "stop must be a JSON array or comma-separated list"]
               end = Ok l ∧ match l with [] => None | l => Some (StopV l) end = od_get stop values) as (l & -> & Hl).
  { destruct (od_get stop values) as [[| | | |l]|]; cbn in Hs; try contradiction; [|by exists []].
    exists l. by destruct l. }
  eexists. split; [reflexivity|]. split; [|done]. intros []; first [reflexivity|by destruct l].
Qed.

(** What a source stands for in the fields it set. *)
Definition label_of (source : option text) : option text := nonempty (_clean_source_label source).

Section parsing.
Variable repr : pv → text.
Variable json_loads : text → option pv.
Local Notation parse_field := (parse_field repr json_loads).
Local Notation params_from_mapping := (params_from_mapping repr json_loads).
Local Notation _parse_value := (_parse_value repr json_loads).

Lemma parse_value_stop value v : _parse_value stop value = Ok v → ∃ l, v = Some (StopV l).
Proof. cbn. destruct (_parse_stop _ _); cbn; [|done]. intros [= <-]. eauto. Qed.

Lemma parse_field_stop values v : parse_field values stop = Ok v → stop_ok v.
Proof.
  unfold Params.parse_field. destruct (od_get _ _) as [raw|]; [|by intros [= <-]].
  destruct (_is_unset raw); [by intros [= <-]|]. destruct (_parse_value stop raw) as [w|] eqn:Hp; [|done].
  apply parse_value_stop in Hp as [l ->]. cbn.
  case_bool_decide as Hl; intros [= <-]; [done|]. cbn. congruence.
Qed.

(** [params_from_mapping] returns exactly when every field parses, and holds what
    they parse to. *)
Lemma params_from_mapping_ok values source (g : param_field → option param_value) :
  (∀ f, parse_field values f = Ok (g f)) →
  ∃ p, params_from_mapping values source = Ok p ∧ (∀ f, param_get f p = g f) ∧
    gp_provider_preferences p = None ∧
    (∀ f, od_get f (gp_sources p) = g f ≫= λ _, label_of source).
Proof.
  intros Hg. unfold Params.params_from_mapping.
  assert (∀ l, try_map (λ f, v ← parse_field values f; Ok (f, v)) l = Ok (map (λ f, (f, g f)) l)) as ->.
  { induction l as [|f l IH]; [done|]. cbn [try_map]. rewrite Hg. cbn. by rewrite IH. }
  cbn [mbind result_bind].
  set (parsed := omap _ _).
  assert (parsed = omap (λ f, pair f <$> g f) _PARAM_FIELDS) as Hparsed.
  { unfold parsed. generalize _PARAM_FIELDS. induction l as [|f l IH]; cbn; [done|].
    destruct (g f); cbn; by rewrite IH. }
  clearbody parsed.
  assert (∀ f, od_get f parsed = g f) as Hget.
  { intros f. rewrite Hparsed, od_get_omap by apply fields_nodup. by rewrite decide_True by apply fields_all. }
  assert (NoDup parsed.*1) as Hnd.
  { rewrite Hparsed. generalize fields_nodup. generalize _PARAM_FIELDS. clear. induction l as [|f l IH]; cbn; [constructor|].
    intros [Hf Hl]%NoDup_cons. specialize (IH Hl). destruct (g f); cbn; [|done]. constructor; [|done].
    intros [[f' v] [Hff Hin]]%list_elem_of_fmap. cbn in Hff. subst f'.
    apply list_elem_of_omap in Hin as (f' & Hf' & Hp). destruct (g f'); cbn in Hp; [|done]. by injection Hp as -> _. }
  set (sources := if bool_decide _ then _ else _).
  destruct (make_params_get parsed None sources) as (p & Hp & Hpg & Hpp & Hps).
  { rewrite Hget. eapply parse_field_stop, Hg. }
  exists p. split; [done|]. split; [intros f; by rewrite Hpg|]. split; [done|].
  intros f. rewrite Hps. unfold sources, label_of. case_bool_decide as Hlabel.
  - rewrite Hlabel. cbn. by destruct (g f).
  - rewrite cleaned_sources_get by (rewrite <-list_fmap_compose; done).
    rewrite <-Hget. clear. induction parsed as [|[f' v] parsed IH]; cbn; [done|].
    destruct (decide (f' = f)); [|done]. cbn. by rewrite clean_label_idem.
Qed.

Lemma params_from_mapping_inv values source p : params_from_mapping values source = Ok p →
  ∀ f, parse_field values f = Ok (param_get f p).
Proof.
  intros Hp. assert (∀ f, is_ok (parse_field values f) = true) as Hok.
  { unfold Params.params_from_mapping in Hp. destruct (try_map _ _) as [found|] eqn:Hm; [clear Hp|done].
    intros f. pose proof (fields_all f) as Hf. revert found Hm Hf. generalize _PARAM_FIELDS.
    induction l as [|f' l IH]; cbn; intros found Hm Hf; [by apply not_elem_of_nil in Hf|].
    destruct (parse_field values f') eqn:Hf'; cbn in Hm; [|done]. destruct (try_map _ l) eqn:Hl; [|done].
    apply elem_of_cons in Hf as [->|Hf]; [by rewrite Hf'|]. by eapply IH. }
  set (g := λ f, match parse_field values f with Ok v => v | _ => None end).
  assert (∀ f, parse_field values f = Ok (g f)) as Hg.
  { intros f. specialize (Hok f). unfold g. by destruct (parse_field values f). }
  destruct (params_from_mapping_ok values source g Hg) as (p' & Hp' & Hpg & _).
  rewrite Hp in Hp'. injection Hp' as ->. intros f. by rewrite Hg, Hpg.
Qed.
End parsing.

(** ** Valid values *)

Definition float_between (lo hi x : float64) : bool := fl_finite x && fl_leb lo x && fl_leb x hi.

(** What a field may hold. *)
Definition field_valid (f : param_field) (v : param_value) : bool :=
  match f, v with
  | temperature, FloatV x => float_between fl_zero (fl_lit 2 0) x
  | top_p, FloatV x => float_between fl_zero (fl_lit 1 0) x
  | max_tokens, IntV z => 0 <? z
  | timeout_seconds, FloatV x => fl_finite x && negb (fl_leb x fl_zero)
  | (frequency_penalty | presence_penalty), FloatV x => float_between (fl_lit (-2) 0) (fl_lit 2 0) x
  | seed, IntV _ | parallel_tool_calls, BoolV _ => true
  | (tool_choice | provider_sort), TextV t =>
      bool_decide (strip t = t) && negb (bool_decide (lower t ∈ _UNSET_STRINGS))
  | stop, StopV l => match l with [] => false | _ => true end
  | _, _ => false
  end.

Definition params_valid (p : GenerationParams) : Prop :=
  ∀ f v, param_get f p = Some v → field_valid f v = true.

(** A label that can be shown: no blank around it, no mark of a secret in it. *)
Definition label_ok (l : text) : Prop := l ≠ [] ∧ _clean_source_label (Some l) = l.

Definition sources_ok (p : GenerationParams) : Prop :=
  ∀ f l, od_get f (gp_sources p) = Some l → is_Some (param_get f p) ∧ label_ok l.

Lemma label_of_ok source l : label_of source = Some l → label_ok l.
Proof.
  unfold label_of, label_ok, nonempty. destruct (_clean_source_label source) as [|c t] eqn:Hl; [done|].
  intros [= <-]. split; [done|]. by rewrite <-Hl, clean_label_idem.
Qed.

Lemma unset_nil : ([] : text) ∈ _UNSET_STRINGS.
Proof. apply (bool_decide_unpack _). by vm_compute. Qed.

Section checking.
Variable repr : pv → text.
Variable json_loads : text → option pv.
Local Notation parse_field := (parse_field repr json_loads).
Local Notation params_from_mapping := (params_from_mapping repr json_loads).
Local Notation _parse_value := (_parse_value repr json_loads).

Lemma parse_float_finite f raw x : _parse_float f raw = Ok x → fl_finite x = true.
Proof. unfold _parse_float. intros H. result_inv. destruct (fl_finite _) eqn:?; [|done]. by result_inv. Qed.

Lemma parse_float_range_valid f raw lo hi x : _parse_float_range repr f raw lo hi = Ok x → float_between lo hi x = true.
Proof.
  unfold _parse_float_range, float_between. destruct (_parse_float f raw) as [y|] eqn:E; cbn; [|done].
  apply parse_float_finite in E. destruct (fl_leb lo y && _) eqn:Hr; [|done]. intros [= ->].
  by rewrite <-andb_assoc, E, Hr.
Qed.

(** What a raw value parses to is valid. *)
Lemma parse_value_valid f raw v : _parse_value f raw = Ok (Some v) → v ≠ StopV [] → field_valid f v = true.
Proof.
  intros H Hv. destruct f; cbn in H;
    try (destruct (_parse_float_range _ _ _ _ _) eqn:E; cbn in H; [|done]; injection H as <-;
         by apply parse_float_range_valid in E).
  - unfold _parse_positive_int in H. destruct (_parse_int _ _ _); cbn in H; [|done].
    destruct (_ <=? 0) eqn:E; cbn in H; [done|]. injection H as <-. cbn. lia.
  - unfold _parse_positive_float in H. destruct (_parse_float _ _) eqn:E; cbn in H; [|done].
    destruct (fl_leb _ _) eqn:E'; cbn in H; [done|]. injection H as <-.
    apply parse_float_finite in E. cbn. by rewrite E, E'.
  - destruct (_parse_int _ _ _); cbn in H; [|done]. by injection H as <-.
  - destruct (_parse_bool _ _ _); cbn in H; [|done]. by injection H as <-.
  - unfold _parse_text in H. repeat case_bool_decide; cbn in H; try done. injection H as <-. cbn.
    rewrite bool_decide_eq_true_2 by apply strip_idem. by rewrite bool_decide_eq_false_2.
  - destruct (_parse_stop _ _) as [l|]; cbn in H; [|done]. injection H as <-. by destruct l.
  - unfold _parse_text in H. repeat case_bool_decide; cbn in H; try done. injection H as <-. cbn.
    rewrite bool_decide_eq_true_2 by apply strip_idem. by rewrite bool_decide_eq_false_2.
Qed.

Lemma parse_field_valid values f v : parse_field values f = Ok (Some v) → field_valid f v = true.
Proof.
  unfold Params.parse_field. destruct (od_get _ _) as [raw|]; [|done]. destruct (_is_unset raw); [done|].
  destruct (_parse_value f raw) as [w|] eqn:Hp; cbn; [|done]. case_bool_decide as Hw; [done|].
  intros [= ->]. eapply parse_value_valid; [done|]. congruence.
Qed.

Lemma parse_float_range_id f x lo hi : float_between lo hi x = true → _parse_float_range repr f (PFloat x) lo hi = Ok x.
Proof.
  unfold float_between. intros [[Hf Hlo]%andb_true_iff Hhi]%andb_true_iff.
  unfold _parse_float_range, _parse_float. cbn. rewrite Hf. cbn. by rewrite Hlo, Hhi.
Qed.

(** A valid value, stored and parsed again, is itself. *)
Lemma parse_value_id f v : field_valid f v = true →
  _is_unset (value_to_pv v) = false ∧ _parse_value f (value_to_pv v) = Ok (Some v) ∧ v ≠ StopV [].
Proof.
  intros H. destruct f, v; try done; unfold field_valid in H; (split; [|split; [|try discriminate]]); try done;
    cbn [value_to_pv Params._parse_value]; try by rewrite parse_float_range_id.
  - cbn. unfold _parse_positive_int. cbn. by destruct (Z.leb_spec z 0); [lia|].
  - cbn. unfold _parse_positive_float, _parse_float. cbn. bool_prop. rewrite H. cbn. by rewrite H0.
  - bool_prop. unfold _is_unset. rewrite H. by apply bool_decide_eq_false_2.
  - bool_prop. unfold _parse_text, py_str. rewrite H, bool_decide_eq_false_2 by done.
    rewrite bool_decide_eq_false_2; [done|]. intros ->. apply H0, unset_nil.
  - cbn. rewrite (try_map_map_id _ PStr) by (by apply Forall_true). done.
  - by destruct sequences.
  - bool_prop. unfold _is_unset. rewrite H. by apply bool_decide_eq_false_2.
  - bool_prop. unfold _parse_text, py_str. rewrite H, bool_decide_eq_false_2 by done.
    rewrite bool_decide_eq_false_2; [done|]. intros ->. apply H0, unset_nil.
Qed.
End checking.

(** ** Merging *)

(** What one layer sets for a field: the value and the source it names. *)
Definition layer_sets (f : param_field) (item : option GenerationParams)
    : option (param_value * option text) :=
  p ← item; v ← param_get f p; Some (v, od_get f (gp_sources p) ≫= nonempty).

Definition last_set (f : param_field) (items : list (option GenerationParams)) :
    option (param_value * option text) := last (omap (layer_sets f) items).

Lemma last_set_snoc f items item :
  last_set f (items ++ [item]) = match layer_sets f item with Some x => Some x | None => last_set f items end.
Proof.
  unfold last_set. rewrite omap_app. cbn. destruct (layer_sets f item); cbn; [by rewrite last_snoc|by rewrite app_nil_r].
Qed.

(** The dicts of the merge after some layers. *)
Definition merge_state (items : list (option GenerationParams)) (acc : list (param_field * param_value) * labels) : Prop :=
  (∀ f, od_get f acc.1 = fst <$> last_set f items) ∧
  (∀ f, od_get f acc.2 = x ← last_set f items; x.2) ∧ NoDup acc.2.*1.

Lemma merge_field_get item acc g f :
  od_get f (merge_field item acc g).1 =
    (if decide (g = f) then match param_get f item with Some v => Some v | None => od_get f acc.1 end else od_get f acc.1) ∧
  od_get f (merge_field item acc g).2 =
    (if decide (g = f) then match layer_sets f (Some item) with Some x => x.2 | None => od_get f acc.2 end else od_get f acc.2).
Proof.
  unfold merge_field, layer_sets. cbn. destruct (decide (g = f)) as [->|Hne].
  - destruct (param_get f item) as [v|]; cbn; [|done]. rewrite od_get_set, decide_True by done. split; [done|].
    destruct (od_get f (gp_sources item)) as [[|c l]|].
    + by rewrite od_get_del, decide_True.
    + by rewrite od_get_set, decide_True.
    + by rewrite od_get_del, decide_True.
  - destruct (param_get g item) as [v|]; cbn; [|done]. rewrite od_get_set, decide_False by done. split; [done|].
    destruct (od_get g (gp_sources item)) as [[|c l]|].
    + by rewrite od_get_del, decide_False.
    + by rewrite od_get_set, decide_False.
    + by rewrite od_get_del, decide_False.
Qed.

Lemma merge_field_nodup item acc g : NoDup acc.2.*1 → NoDup (merge_field item acc g).2.*1.
Proof.
  intros H. unfold merge_field. destruct (param_get g item); [|done]. cbn [snd].
  destruct (od_get g (gp_sources item)) as [[|c l]|]; [by apply od_del_nodup|by apply od_set_nodup|by apply od_del_nodup].
Qed.

Lemma merge_fields_get item fs f : NoDup fs → ∀ acc,
  od_get f (fold_left (merge_field item) fs acc).1 =
    (if decide (f ∈ fs) then match param_get f item with Some v => Some v | None => od_get f acc.1 end else od_get f acc.1) ∧
  od_get f (fold_left (merge_field item) fs acc).2 =
    (if decide (f ∈ fs) then match layer_sets f (Some item) with Some x => x.2 | None => od_get f acc.2 end else od_get f acc.2).
Proof.
  induction fs as [|g fs IH]; intros Hfs acc; cbn [fold_left]; [done|].
  apply NoDup_cons in Hfs as [Hg Hfs]. destruct (IH Hfs (merge_field item acc g)) as [-> ->].
  destruct (merge_field_get item acc g f) as [-> ->].
  destruct (decide (g = f)) as [->|Hne].
  - rewrite !(decide_False (P := f ∈ fs)) by done. by rewrite !decide_True by (by left).
  - destruct (decide (f ∈ fs)) as [Hin|Hin]; [by rewrite !decide_True by (by right)|].
    by rewrite !decide_False by (by intros [->|]%elem_of_cons).
Qed.

Lemma merge_item_state items acc item : merge_state items acc →
  merge_state (items ++ [Some item]) (fold_left (merge_field item) _PARAM_FIELDS acc).
Proof.
  intros (Hv & Hs & Hn). split; [|split].
  - intros f. destruct (merge_fields_get item _PARAM_FIELDS f fields_nodup acc) as [-> _].
    rewrite decide_True by apply fields_all. rewrite last_set_snoc, Hv. unfold layer_sets. cbn. by destruct (param_get f item).
  - intros f. destruct (merge_fields_get item _PARAM_FIELDS f fields_nodup acc) as [_ ->].
    rewrite decide_True by apply fields_all. rewrite last_set_snoc, Hs. by destruct (layer_sets f (Some item)).
  - clear Hv Hs. generalize _PARAM_FIELDS. intros l. revert acc Hn. induction l as [|g l IH]; intros acc Hn; [done|].
    by apply IH, merge_field_nodup.
Qed.

(** The merge of layers whose lists of stop sequences are well formed (they always
    are: [param_get] of an empty list is [None]). *)
Lemma merge_exact items : (∀ i, Some i ∈ items → params_valid i ∧ sources_ok i) →
  ∃ p, merge_generation_params items = Ok p ∧
    ∀ f, param_get f p = fst <$> last_set f items ∧ od_get f (gp_sources p) = x ← last_set f items; x.2.
Proof.
  intros Hvalid.
  assert (∀ f x, last_set f items = Some x → field_valid f x.1 = true ∧ ∀ l, x.2 = Some l → label_ok l) as Hlast.
  { intros f x Hx. apply last_Some_elem_of, list_elem_of_omap in Hx as ([i|] & Hi & Hx); [|done].
    destruct (Hvalid i Hi) as [Hp Hs]. unfold layer_sets in Hx. cbn in Hx.
    destruct (param_get f i) eqn:Hg; [|done]. injection Hx as <-. split; [by apply Hp|].
    cbn. destruct (od_get f (gp_sources i)) as [l|] eqn:Hl; [|done]. cbn. intros l' Hl'.
    destruct (Hs f l Hl) as [_ Hok]. destruct l; [done|]. by injection Hl' as <-. }
  clear Hvalid. unfold merge_generation_params.
  set (step := λ acc item, _). 
  assert (merge_state items (fold_left step items ([], [], None)).1) as Hstate.
  { clear Hlast. assert (∀ done rest acc, merge_state done acc.1 → merge_state (done ++ rest) (fold_left step rest acc).1) as H.
    { intros done rest. revert done. induction rest as [|item rest IH]; intros done acc Hacc; [by rewrite app_nil_r|].
      cbn [fold_left]. rewrite cons_middle, app_assoc. apply IH. destruct item as [item|]; cbn.
      - by apply merge_item_state.
      - destruct Hacc as (H1 & H2 & H3). split; [|split; [|done]]; intros f; rewrite last_set_snoc; auto. }
    apply (H [] items). split; [|split]; [done..|constructor]. }
  destruct (fold_left step items ([], [], None)) as [[merged sources] prefs]. cbn in Hstate.
  destruct Hstate as (Hv & Hs & Hn). cbn in Hv, Hs, Hn.
  destruct (make_params_get merged prefs sources) as (p & Hp & Hpg & _ & Hps).
  { rewrite Hv. destruct (last_set stop items) as [x|] eqn:Hx; [|done]. destruct (Hlast _ _ Hx) as [H _]. cbn.
    by destruct x.1 as [| | | |[|]]. }
  exists p. split; [done|]. intros f. split; [by rewrite Hpg, Hv|].
  rewrite Hps, cleaned_sources_get by done. rewrite Hs. destruct (last_set f items) as [x|] eqn:Hx; [|done]. cbn.
  destruct (x.2) as [l|] eqn:Hl; [|done]. cbn. destruct (Hlast _ _ Hx) as [_ H]. destruct (H _ Hl) as [Hne Hc].
  rewrite Hc. by destruct l.
Qed.

(** ** The stored mapping *)

Lemma mapping_get p f : od_get (field_name f) (generation_params_to_mapping p) = value_to_pv <$> param_get f p.
Proof.
  unfold generation_params_to_mapping. 
  assert (∀ l, NoDup l → od_get (field_name f) (omap (λ f, (λ v, (field_name f, value_to_pv v)) <$> param_get f p) l) =
    if decide (f ∈ l) then value_to_pv <$> param_get f p else None) as H.
  { induction l as [|g l IH]; cbn; intros Hl; [done|]. apply NoDup_cons in Hl as [Hg Hl]. specialize (IH Hl).
    destruct (decide (g = f)) as [->|Hne].
    - rewrite (decide_True (P := f ∈ f :: l)) by (by left). rewrite decide_False in IH by done.
      destruct (param_get f p); cbn; [by rewrite decide_True|done].
    - rewrite (decide_ext (f ∈ g :: l) (f ∈ l)) by (rewrite elem_of_cons; naive_solver).
      destruct (param_get g p); cbn; [|done]. rewrite decide_False by (by intros ?%field_name_inj). done. }
  rewrite H by apply fields_nodup. by rewrite decide_True by apply fields_all.
Qed.

Lemma mapping_keys p k : k ∈ (generation_params_to_mapping p).*1 → ∃ f, k = field_name f ∧ is_Some (param_get f p).
Proof.
  unfold generation_params_to_mapping. intros ([k' v] & -> & Hin)%list_elem_of_fmap.
  apply list_elem_of_omap in Hin as (f & _ & Hf). destruct (param_get f p) eqn:Hg; [|done].
  injection Hf as <- _. eauto.
Qed.

Lemma mapping_values p k v : (k, v) ∈ generation_params_to_mapping p →
  ∃ f w, k = field_name f ∧ param_get f p = Some w ∧ v = value_to_pv w.
Proof.
  intros (f & _ & Hf)%list_elem_of_omap. destruct (param_get f p) eqn:Hg; [|done]. injection Hf as <- <-. eauto.
Qed.

Lemma existsb_false {A} (f : A → bool) l : (∀ x, x ∈ l → f x = false) → existsb f l = false.
Proof.
  intros H. induction l as [|x l IH]; [done|]. cbn. rewrite (H x) by (by left). apply IH. intros y Hy. apply H. by right.
Qed.

(** A traversal in which one item raises. *)
Lemma try_map_raises {E A B} `{EqDecision A} (g : A → result E B) l x e : x ∈ l → g x = Err e →
  (∀ y, y ≠ x → is_ok (g y) = true) → try_map g l = Err e.
Proof.
  intros Hx Hg Hok. induction l as [|y l IH]; [by apply not_elem_of_nil in Hx|]. cbn.
  destruct (g y) as [b|e'] eqn:Hy; cbn.
  - apply elem_of_cons in Hx as [->|Hx]; [congruence|]. by rewrite IH.
  - destruct (decide (y = x)) as [->|Hne]; [congruence|]. specialize (Hok y Hne). by rewrite Hy in Hok.
Qed.

Section built.
Variable repr : pv → text.
Variable json_loads : text → option pv.
Local Notation parse_field := (parse_field repr json_loads).
Local Notation params_from_mapping := (params_from_mapping repr json_loads).
Local Notation restore := (generation_params_from_session_mapping repr json_loads).
Local Notation replace_generation_param := (replace_generation_param repr json_loads).
Local Notation remove_generation_param := (remove_generation_param repr json_loads).

(** The parameters the module can build. *)
Inductive built : GenerationParams → Prop :=
  | built_default : built default_params
  | built_parsed values source p : params_from_mapping values source = Ok p → built p
  | built_restored v p : restore v = Ok (Some p) → built p
  | built_merged items p : (∀ i, Some i ∈ items → built i) → merge_generation_params items = Ok p → built p
  | built_replaced p name raw source p' : built p → replace_generation_param p name raw source = Ok p' → built p'
  | built_removed p name source p' : built p → remove_generation_param p name source = Ok p' → built p'.

Lemma parsed_valid values source p : params_from_mapping values source = Ok p → params_valid p ∧ sources_ok p.
Proof.
  intros Hp. pose proof (params_from_mapping_inv _ _ _ _ _ Hp) as Hf. split.
  - intros f v Hv. eapply parse_field_valid. by rewrite Hf, Hv.
  - destruct (params_from_mapping_ok repr json_loads values source (λ f, param_get f p) Hf) as (p' & Hp' & Hg & _ & Hs).
    rewrite Hp in Hp'. injection Hp' as <-. intros f l. rewrite Hs. destruct (param_get f p); cbn; [|done].
    intros Hl. split; [done|]. by eapply label_of_ok.
Qed.

Lemma built_valid_lemma p : built p → params_valid p ∧ sources_ok p.
Proof.
  induction 1 as [|values source p Hp|v p Hp|items p _ IH Hp|p name raw source p' _ _ Hp|p name source p' _ _ Hp].
  - split; by intros [].
  - by eapply parsed_valid.
  - unfold generation_params_from_session_mapping in Hp. repeat case_match; try done.
    injection Hp as <-. by eapply parsed_valid.
  - destruct (merge_exact items IH) as (p' & Hp' & Hget). rewrite Hp in Hp'. injection Hp' as <-.
    assert (∀ f x, last_set f items = Some x → ∃ i, Some i ∈ items ∧ layer_sets f (Some i) = Some x) as Hl.
    { intros f x Hx. apply last_Some_elem_of, list_elem_of_omap in Hx as ([i|] & Hi & Hx); [eauto|done]. }
    split; intros f v; destruct (Hget f) as [Hv Hs].
    + rewrite Hv. intros (x & Hx & ->)%fmap_Some. destruct (Hl f x Hx) as (i & Hi & Hli).
      unfold layer_sets in Hli. cbn in Hli. destruct (param_get f i) eqn:Hg; [|done]. injection Hli as <-.
      by apply (proj1 (IH i Hi)).
    + rewrite Hs, Hv. intros (x & Hx & Hl2)%bind_Some. rewrite Hx. split; [by eexists|].
      destruct (Hl f x Hx) as (i & Hi & Hli). unfold layer_sets in Hli. cbn in Hli.
      destruct (param_get f i) eqn:Hg; [|done]. injection Hli as <-. cbn in Hl2.
      destruct (od_get f (gp_sources i)) as [l|] eqn:Ho; [|done]. cbn in Hl2.
      destruct (proj2 (IH i Hi) f l Ho) as [_ Hok]. destruct l; [done|]. by injection Hl2 as <-.
  - unfold Params.replace_generation_param in Hp. case_bool_decide; [done|]. destruct (_is_unset raw); [done|].
    destruct (params_from_mapping [_] _); cbn [mbind result_bind] in Hp; [|done].
    destruct (od_get _ _); [|done]. by eapply parsed_valid.
  - unfold Params.remove_generation_param in Hp. case_bool_decide; [done|]. by eapply parsed_valid.
Qed.

(** A stored field parses to what was stored. *)
Lemma parse_field_stored values f o : od_get (field_name f) values = value_to_pv <$> o →
  (∀ v, o = Some v → field_valid f v = true) → parse_field values f = Ok o.
Proof.
  intros Hv Ho. unfold Params.parse_field. rewrite Hv. destruct o as [v|]; cbn [fmap option_fmap option_map]; [|done].
  destruct (parse_value_id repr json_loads f v (Ho v eq_refl)) as (-> & -> & Hne).
  cbn [mbind result_bind]. by rewrite bool_decide_eq_false_2 by congruence.
Qed.

(** C26: whatever path a set of parameters was built by (parsed from raw values,
    restored from a session, merged from layers, edited field by field), every field
    that is set is in its range (finite floats between the bounds of the field,
    positive limits, texts that are stripped and name a value), and every source is
    the source of a set field and shows no mark of a secret. *)
Theorem built_params_valid p : built p → params_valid p ∧ sources_ok p.
Proof. apply built_valid_lemma. Qed.

(** the mapping that a session stores for its parameters is read back as the same
    parameters, each with the session as its source. *)
Theorem session_params_roundtrip p : built p →
  ∃ p', restore (PDict (generation_params_to_mapping p)) = Ok (Some p') ∧
    (∀ f, param_get f p' = param_get f p) ∧
    (∀ f, od_get f (gp_sources p') = param_get f p ≫= λ _, Some (lit "session")).
Proof.
  intros [Hvalid _]%built_valid_lemma.
  destruct (params_from_mapping_ok repr json_loads (generation_params_to_mapping p) (Some (lit "session"))
    (λ f, param_get f p)) as (p' & Hp' & Hg & _ & Hs).
  { intros f. apply parse_field_stored; [apply mapping_get|]. apply Hvalid. }
  exists p'. split; [|split; [done|]]; [|intros f; rewrite Hs; by destruct (param_get f p)].
  unfold generation_params_from_session_mapping. rewrite !existsb_false, Hp'.
  - assert (generation_params_to_mapping p' = generation_params_to_mapping p) as ->.
    { unfold generation_params_to_mapping. generalize _PARAM_FIELDS. induction l as [|f l IH]; cbn; [done|].
      by rewrite Hg, IH. }
    assert (∀ (l : list (text * pv)), forallb (λ p, bool_decide (p.1 ∈ l.*1)) l = true ∧ forallb (λ k, bool_decide (k ∈ l.*1)) l.*1 = true) as H.
    { intros l. rewrite !List.forallb_forall. split; intros x Hx%list_elem_of_In; apply bool_decide_eq_true; [|done].
      by apply (list_elem_of_fmap_2 fst). }
    by destruct (H (generation_params_to_mapping p)) as [-> ->].
  - intros [k v] (f & w & -> & Hw & ->)%mapping_values. apply (parse_value_id repr json_loads f w). by apply Hvalid.
  - intros [k v] (f & w & -> & Hw & ->)%mapping_values. cbn [fst]. by rewrite field_of_name.
Qed.

(** in a merge the last layer that sets a field wins, with the source it names (or
    none, when it names none); a field no layer sets is unset.  The merge always
    succeeds. *)
Theorem merge_last_layer_wins items : (∀ i, Some i ∈ items → built i) →
  ∃ p, merge_generation_params items = Ok p ∧
    ∀ f, param_get f p = fst <$> last_set f items ∧ od_get f (gp_sources p) = x ← last_set f items; x.2.
Proof. intros H. apply merge_exact. intros i Hi. by apply built_valid_lemma, H. Qed.

(** ** One field *)

(** The outcome of an edit: the field has the new value, the others keep theirs. *)
Definition edited (p : GenerationParams) (f : param_field) (v : option param_value) (source : text)
    (p' : GenerationParams) : Prop :=
  ∀ g, param_get g p' = (if decide (g = f) then v else param_get g p) ∧
       od_get g (gp_sources p') = param_get g p' ≫= λ _, label_of (Some source).

Lemma edit_parses values p f v source : built p → (∀ w, v = Some w → field_valid f w = true) →
  (∀ g, od_get (field_name g) values = value_to_pv <$> (if decide (g = f) then v else param_get g p)) →
  ∃ p', params_from_mapping values (Some source) = Ok p' ∧ edited p f v source p'.
Proof.
  intros [Hvalid _]%built_valid_lemma Hv Hget.
  destruct (params_from_mapping_ok repr json_loads values (Some source)
    (λ g, if decide (g = f) then v else param_get g p)) as (p' & Hp' & Hg & _ & Hs).
  { intros g. apply parse_field_stored; [done|]. destruct (decide (g = f)) as [->|]; [done|]. apply Hvalid. }
  exists p'. split; [done|]. intros g. by rewrite Hs, Hg.
Qed.

(** replacing one field succeeds exactly when the raw value is set and parses to
    a value of the field, and then changes this field only; removing a field always
    succeeds and unsets it only. *)
Theorem one_field_edited p f raw source : built p →
  (if _is_unset raw then ∃ m, replace_generation_param p (field_name f) raw source = Err (ValueError m) else
   match _parse_value repr json_loads f raw with
   | Err e => replace_generation_param p (field_name f) raw source = Err e
   | Ok None | Ok (Some (StopV [])) => ∃ m, replace_generation_param p (field_name f) raw source = Err (ValueError m)
   | Ok (Some v) => ∃ p', replace_generation_param p (field_name f) raw source = Ok p' ∧ edited p f (Some v) source p'
   end) ∧
  ∃ p', remove_generation_param p (field_name f) source = Ok p' ∧ edited p f None source p'.
Proof.
  intros Hb. split.
  - unfold Params.replace_generation_param. rewrite field_of_name, (bool_decide_eq_false_2 (_ = None)) by done.
    destruct (_is_unset raw) eqn:Hu; [by eexists|].
    assert (∀ g, od_get (field_name g) [(field_name f, raw)] = if decide (g = f) then Some raw else None) as Hraw.
    { intros g. cbn [od_get]. destruct (decide (g = f)) as [->|Hne]; [by rewrite decide_True|].
      by rewrite decide_False by (by intros ?%field_name_inj). }
    assert (∀ g v, parse_field [(field_name f, raw)] f = Ok v →
      parse_field [(field_name f, raw)] g = Ok (if decide (g = f) then v else None)) as Hfields.
    { intros g v Hv. destruct (decide (g = f)) as [->|Hne]; [done|]. unfold Params.parse_field.
      by rewrite Hraw, decide_False. }
    assert (parse_field [(field_name f, raw)] f = v ← _parse_value repr json_loads f raw;
      Ok (if bool_decide (v = Some (StopV [])) then None else v)) as Hf.
    { unfold Params.parse_field. by rewrite Hraw, decide_True, Hu by done. }
    destruct (_parse_value repr json_loads f raw) as [v|e] eqn:Hpv; cbn [mbind result_bind] in Hf.
    + destruct (params_from_mapping_ok repr json_loads [(field_name f, raw)] (Some source) _ (λ g, Hfields g _ Hf))
        as (q & -> & Hq & _). cbn [mbind result_bind]. rewrite mapping_get, Hq, decide_True by done.
      destruct v as [v|]; [|by eexists].
      case_bool_decide as Hv; [injection Hv as ->; by eexists|].
      assert (field_valid f v = true) as Hvalid by (eapply parse_value_valid; [done|congruence]).
      cbn [fmap option_fmap option_map].
      destruct (edit_parses (od_set (field_name f) (value_to_pv v) (generation_params_to_mapping p)) p f (Some v) source Hb)
        as (p' & Hp' & He); [by intros w [= <-]| |].
      { intros g. rewrite od_get_set, mapping_get. destruct (decide (g = f)) as [->|Hne]; [by rewrite decide_True|].
        by rewrite decide_False by (by intros ?%eq_sym%field_name_inj). }
      destruct v as [| | | |[|]]; eauto. congruence.
    + unfold Params.params_from_mapping. rewrite (try_map_raises _ _ f e (fields_all f)); [done|by rewrite Hf|].
      intros g Hg. unfold Params.parse_field. by rewrite Hraw, decide_False.
  - unfold Params.remove_generation_param. rewrite field_of_name, bool_decide_eq_false_2 by done.
    apply edit_parses; [done..|]. intros g. rewrite od_get_del, mapping_get.
    destruct (decide (g = f)) as [->|Hne]; [by rewrite decide_True|].
    by rewrite decide_False by (by intros ?%eq_sym%field_name_inj).
Qed.
End built.

(** ** Concrete parameters *)

Definition sample_repr : pv → text := λ _, lit "?".
Definition sample_loads : text → option pv := λ _, None.

Definition sample_values : list (text * pv) :=
  [(lit "temperature", PStr (lit "0.5")); (lit "tool_choice", PStr (lit " auto ")); (lit "seed", PFloat (fl_of_Z 7));
   (lit "stop", PStr (lit "END, STOP")); (lit "top_p", PNone)].

Definition sample_params : GenerationParams :=
  match params_from_mapping sample_repr sample_loads sample_values (Some (lit "config")) with
  | Ok p => p
  | Err _ => default_params
  end.

Lemma sample_built : built sample_repr sample_loads sample_params.
Proof. apply (built_parsed _ _ sample_values (Some (lit "config"))). vm_compute. reflexivity. Qed.

Lemma built_params_valid_witness : params_valid sample_params ∧ sources_ok sample_params.
Proof. apply (built_params_valid sample_repr sample_loads sample_params). apply sample_built. Defined.

Lemma session_params_roundtrip_witness :
  param_get seed sample_params = Some (IntV 7) ∧
  ∃ p', generation_params_from_session_mapping sample_repr sample_loads
      (PDict (generation_params_to_mapping sample_params)) = Ok (Some p') ∧
    (∀ f, param_get f p' = param_get f sample_params) ∧
    (∀ f, od_get f (gp_sources p') = param_get f sample_params ≫= λ _, Some (lit "session")).
Proof.
  split; [vm_compute; reflexivity|].
  apply (session_params_roundtrip sample_repr sample_loads sample_params). apply sample_built.
Defined.

Lemma merge_last_layer_wins_witness :
  ∃ p, merge_generation_params [Some sample_params; None; Some default_params] = Ok p ∧
    ∀ f, param_get f p = fst <$> last_set f [Some sample_params; None; Some default_params] ∧
      od_get f (gp_sources p) = x ← last_set f [Some sample_params; None; Some default_params]; x.2.
Proof.
  apply (merge_last_layer_wins sample_repr sample_loads).
  intros i Hi. repeat (apply elem_of_cons in Hi as [Hi|Hi]; [try discriminate Hi; injection Hi as ->|]).
  - apply sample_built.
  - constructor.
  - by apply not_elem_of_nil in Hi.
Defined.

Lemma one_field_edited_witness :
  (∃ p', replace_generation_param sample_repr sample_loads sample_params (field_name seed) (PInt 8) (lit "session") = Ok p' ∧
    edited sample_params seed (Some (IntV 8)) (lit "session") p') ∧
  ∃ p', remove_generation_param sample_repr sample_loads sample_params (field_name seed) (lit "session") = Ok p' ∧
    edited sample_params seed None (lit "session") p'.
Proof. apply (one_field_edited sample_repr sample_loads sample_params seed (PInt 8) (lit "session")), sample_built. Defined.

(** An integer beyond the range of floats is not refused as a value that is no number:
    [float] raises [OverflowError], which neither [_parse_float] nor the reader of the
    session catches, so a session that holds one cannot be opened. *)
Example huge_integer_overflows :
  generation_params_from_session_mapping sample_repr sample_loads (PDict [(lit "temperature", PInt (10 ^ 400))])
    = Err OverflowError.
Proof. vm_compute. reflexivity. Qed.
