(* ===== verification/Truncate.v ===== *)
(** Output truncation: [tools/truncate.py].

    Lines are split at the newline character only; sizes are those of the
    UTF-8 encoding.  [format_size] (a decimal rendering of a float) is not
    modelled. *)

From S2P Require Import Prelude Utf8.
Open Scope Z_scope.

(** ** Strings of lines *)

Definition newline : Z := 10.

(** [content.split(newline)]: never empty. *)
Fixpoint split_nl (t : text) : list text :=
  match t with
  | [] => [[]]
  | c :: t' =>
      if c =? newline then [] :: split_nl t'
      else match split_nl t' with
           | [] => [[c]]
           | l :: ls => (c :: l) :: ls
           end
  end.

(** [newline.join(lines)] *)
Fixpoint join_nl (ls : list text) : text :=
  match ls with
  | [] => []
  | [l] => l
  | l :: ls' => l ++ newline :: join_nl ls'
  end.

(** [t.endswith(newline)] *)
Definition ends_nl (t : text) : bool := match last t with Some c => c =? newline | None => false end.

(** [t.count(newline)] *)
Definition count_nl (t : text) : Z := Z.of_nat (length (List.filter (λ c, c =? newline) t)).

(** [text.rsplit(newline, 1)[-1]] *)
Definition after_last_nl (t : text) : text := default [] (last (split_nl t)).

(** [src: travis/coding_agent/output_utils.py:6-9 line_count] *)
Definition line_count (content : text) : Z :=
  match content with
  | [] => 0
  | _ => count_nl content + Z.b2z (negb (ends_nl content))
  end.

(** [src: travis/coding_agent/tools/truncate.py:7-9 the default limits] *)
Definition DEFAULT_MAX_LINES : Z := 2000.
Definition DEFAULT_MAX_BYTES : Z := 50 * 1024.
Definition GREP_MAX_LINE_LENGTH : Z := 500.

Inductive cut_by : Type := ByLines | ByBytes.
#[export] Instance cut_by_eq_dec : EqDecision cut_by.
Proof. solve_decision. Defined.

(** [src: travis/coding_agent/tools/truncate.py:12-24 TruncationResult] *)
Record TruncationResult := {
  tr_content : text;
  tr_truncated : bool;
  tr_truncated_by : option cut_by;
  tr_output_lines : Z;
  tr_total_lines : Z;
  tr_first_line_exceeds_limit : bool;
  tr_total_bytes : Z;
  tr_output_bytes : Z;
  tr_last_line_partial : bool;
  tr_max_lines : Z;
  tr_max_bytes : Z;
}.

(** [src: travis/coding_agent/tools/truncate.py:43-49 _split_lines_for_counting] *)
Definition _split_lines_for_counting (content : text) : list text :=
  match content with
  | [] => []
  | _ => let lines := split_nl content in
         if ends_nl content then removelast lines else lines
  end.

(** [src: travis/coding_agent/tools/truncate.py:60-63 truncate_line] (the suffix "... [truncated]") *)
Definition truncate_line (line : text) (max_chars : Z) : text * bool :=
  if Z.of_nat (length line) <=? max_chars then (line, false)
  else (take (Z.to_nat max_chars) line ++
        [46; 46; 46; 32; 91; 116; 114; 117; 110; 99; 97; 116; 101; 100; 93], true).

(** [src: travis/coding_agent/tools/truncate.py:100-112 loop of truncate_head] *)
Fixpoint head_loop (max_lines max_bytes index byte_count : Z) (kept lines : list text)
    : list text * option cut_by :=
  match lines with
  | [] => (kept, None)
  | line :: lines' =>
      if max_lines <=? index then (kept, Some ByLines)
      else
        let line_bytes := byte_len line + (if 0 <? index then 1 else 0) in
        if max_bytes <? byte_count + line_bytes then (kept, Some ByBytes)
        else head_loop max_lines max_bytes (index + 1) (byte_count + line_bytes) (kept ++ [line]) lines'
  end.

(** A result that is the whole content. *)
Definition whole_result (content : text) (total_lines total_bytes max_lines max_bytes : Z) : TruncationResult :=
  {| tr_content := content; tr_truncated := false; tr_truncated_by := None;
     tr_output_lines := total_lines; tr_total_lines := total_lines;
     tr_first_line_exceeds_limit := false; tr_total_bytes := total_bytes; tr_output_bytes := total_bytes;
     tr_last_line_partial := false; tr_max_lines := max_lines; tr_max_bytes := max_bytes |}.

(** A result made of the lines a loop kept. *)
Definition kept_result (kept : list text) (by_ : option cut_by) (partial : bool)
    (total_lines total_bytes max_lines max_bytes : Z) : TruncationResult :=
  let output := join_nl kept in
  {| tr_content := output; tr_truncated := bool_decide (is_Some by_); tr_truncated_by := by_;
     tr_output_lines := Z.of_nat (length kept); tr_total_lines := total_lines;
     tr_first_line_exceeds_limit := false; tr_total_bytes := total_bytes;
     tr_output_bytes := byte_len output; tr_last_line_partial := partial;
     tr_max_lines := max_lines; tr_max_bytes := max_bytes |}.

(** [src: travis/coding_agent/tools/truncate.py:66-127 truncate_head] *)
Definition truncate_head (content : text) (max_lines max_bytes : Z) : TruncationResult :=
  let lines := _split_lines_for_counting content in
  let total_lines := Z.of_nat (length lines) in
  let total_bytes := byte_len content in
  if (total_lines <=? max_lines) && (total_bytes <=? max_bytes)
  then whole_result content total_lines total_bytes max_lines max_bytes
  else
    match lines with
    | line :: _ =>
        if max_bytes <? byte_len line then
          {| tr_content := []; tr_truncated := true; tr_truncated_by := Some ByBytes;
             tr_output_lines := 0; tr_total_lines := total_lines;
             tr_first_line_exceeds_limit := true; tr_total_bytes := total_bytes; tr_output_bytes := 0;
             tr_last_line_partial := false; tr_max_lines := max_lines; tr_max_bytes := max_bytes |}
        else
          let r := head_loop max_lines max_bytes 0 0 [] lines in
          kept_result r.1 r.2 false total_lines total_bytes max_lines max_bytes
    | [] =>
        let r := head_loop max_lines max_bytes 0 0 [] lines in
        kept_result r.1 r.2 false total_lines total_bytes max_lines max_bytes
    end.

(** [src: travis/coding_agent/tools/truncate.py:166-167 the search for a first byte] *)
Fixpoint skip_continuation (bs : bytes) : bytes :=
  match bs with
  | b :: bs' => if is_continuation b then skip_continuation bs' else bs
  | [] => []
  end.

(** [src: travis/coding_agent/tools/truncate.py:164-168 the end of a line that does not fit] *)
Definition line_end (line : text) (max_bytes : Z) : text :=
  let raw := encode line in
  let start := Z.max 0 (Z.of_nat (length raw) - max_bytes) in
  decode_ignore (skip_continuation (drop (Z.to_nat start) raw)).

(** [src: travis/coding_agent/tools/truncate.py:151-172 loop of truncate_tail]: over the reversed
    lines; [kept] is in the order of the appends, the last result says whether a line was cut. *)
Fixpoint tail_loop (max_lines max_bytes reverse_index byte_count : Z) (kept lines : list text)
    : list text * option cut_by * bool :=
  match lines with
  | [] => (kept, None, false)
  | line :: lines' =>
      if max_lines <=? reverse_index then (kept, Some ByLines, false)
      else
        let line_bytes := byte_len line + (match kept with [] => 0 | _ => 1 end) in
        if max_bytes <? byte_count + line_bytes then
          match kept with
          | [] => ([line_end line max_bytes], Some ByBytes, true)
          | _ => (kept, Some ByBytes, false)
          end
        else tail_loop max_lines max_bytes (reverse_index + 1) (byte_count + line_bytes) (kept ++ [line]) lines'
  end.

(** [src: travis/coding_agent/tools/truncate.py:130-188 truncate_tail] *)
Definition truncate_tail (content : text) (max_lines max_bytes : Z) : TruncationResult :=
  let lines := _split_lines_for_counting content in
  let total_lines := Z.of_nat (length lines) in
  let total_bytes := byte_len content in
  if (total_lines <=? max_lines) && (total_bytes <=? max_bytes)
  then whole_result content total_lines total_bytes max_lines max_bytes
  else
    let r := tail_loop max_lines max_bytes 0 0 [] (rev lines) in
    kept_result (rev r.1.1) r.1.2 r.2 total_lines total_bytes max_lines max_bytes.
