(* ===== verification/TruncateSpec.v ===== *)
(** Truncation keeps the most that fits.

    The head and the tail of an output are declared here as the longest run
    of whole lines, from the start or from the end, that fits both limits (and
    for the tail, when not even the last line fits, its longest ending); the
    loops of the code are proved to compute them. *)

From S2P Require Import Prelude Utf8 Truncate.
Open Scope Z_scope.

(** ** Lines *)
Lemma split_nl_nonempty t : split_nl t ≠ [].
Proof. destruct t as [|c t]; cbn; [done|]. destruct (c =? newline); [done|]. by destruct (split_nl t). Qed.

Lemma join_cons l ls : ls ≠ [] → join_nl (l :: ls) = l ++ newline :: join_nl ls.
Proof. by destruct ls. Qed.

Lemma join_split t : join_nl (split_nl t) = t.
Proof.
  induction t as [|c t IH]; [done|]. cbn [split_nl]. destruct (Z.eqb_spec c newline) as [->|Hc].
  - rewrite join_cons by apply split_nl_nonempty. by rewrite IH.
  - pose proof (split_nl_nonempty t). destruct (split_nl t) as [|l [|l' ls]]; [done| |].
    + by rewrite <- IH.
    + rewrite !join_cons in * by done. by rewrite <- IH.
Qed.

Lemma join_snoc ls l : ls ≠ [] → join_nl (ls ++ [l]) = join_nl ls ++ newline :: l.
Proof.
  induction ls as [|l0 ls IH]; [done|]. intros _. destruct ls as [|l1 ls]; [done|].
  cbn [app]. rewrite !(join_cons l0) by done. change (l1 :: ls ++ [l]) with ((l1 :: ls) ++ [l]).
  rewrite IH by done. by rewrite <- (assoc_L (++)).
Qed.

Definition sep (ls : list text) : Z := match ls with [] => 0 | _ => 1 end.

Lemma byte_len_cons c t : byte_len (c :: t) = Z.of_nat (length (encode_char c)) + byte_len t.
Proof. unfold byte_len. cbn [encode flat_map]. rewrite length_app. unfold encode. lia. Qed.

Lemma byte_len_newline t : byte_len (newline :: t) = 1 + byte_len t.
Proof. by rewrite byte_len_cons. Qed.

Lemma byte_len_join_snoc ls l : byte_len (join_nl (ls ++ [l])) = byte_len (join_nl ls) + sep ls + byte_len l.
Proof.
  destruct ls as [|l0 ls]; [cbn [app join_nl sep]; change (byte_len []) with 0; lia|].
  rewrite join_snoc, byte_len_app, byte_len_newline by done. cbn [sep]. lia.
Qed.

Lemma byte_len_join_cons l ls : byte_len (join_nl (l :: ls)) = byte_len l + sep ls + byte_len (join_nl ls).
Proof.
  destruct ls as [|l0 ls]; [unfold sep; cbn [join_nl]; change (byte_len []) with 0; lia|].
  rewrite join_cons, byte_len_app, byte_len_newline by done. cbn [sep]. lia.
Qed.

Lemma sep_range ls : 0 <= sep ls <= 1.
Proof. destruct ls; cbn; lia. Qed.

Lemma byte_len_join_take_le ls j k :
  (j <= k)%nat → byte_len (join_nl (take j ls)) <= byte_len (join_nl (take k ls)).
Proof.
  revert j k; induction ls as [|l ls IH]; intros [|j] [|k] Hjk; cbn [take]; try lia.
  - cbn [join_nl]. apply byte_len_nonneg.
  - rewrite !byte_len_join_cons. specialize (IH j k ltac:(lia)).
    destruct (take j ls) as [|? ?] eqn:E; [|destruct (take k ls) eqn:E'].
    + pose proof (sep_range (take k ls)). pose proof (byte_len_nonneg (join_nl (take k ls))).
      cbn [sep join_nl]. change (byte_len []) with 0. lia.
    + exfalso. apply (f_equal length) in E, E'. rewrite !length_take in *. cbn [length] in *. lia.
    + cbn [sep] in *. lia.
Qed.

Lemma byte_len_join_drop_le ls j k :
  (j <= k)%nat → byte_len (join_nl (drop k ls)) <= byte_len (join_nl (drop j ls)).
Proof.
  revert j k; induction ls as [|l ls IH]; intros [|j] [|k] Hjk; cbn [drop]; try lia; [|by apply IH; lia].
  rewrite byte_len_join_cons. pose proof (sep_range ls). pose proof (byte_len_nonneg l).
  specialize (IH 0%nat k ltac:(lia)). rewrite drop_0 in IH. lia.
Qed.

(** ** The head *)

(** [kept] is the longest run of first lines of [lines] within the limits. *)
Definition longest_head (max_lines max_bytes : Z) (lines kept : list text) : Prop :=
  ∃ k, kept = take k lines ∧ (k <= length lines)%nat ∧ Z.of_nat k <= max_lines ∧
    byte_len (join_nl kept) <= max_bytes ∧
    ∀ j, (j <= length lines)%nat → Z.of_nat j <= max_lines →
      byte_len (join_nl (take j lines)) <= max_bytes → (j <= k)%nat.

(** Why the run stops: at a limit of lines, of bytes, or at the end. *)
Definition stop_at (max_lines max_bytes : Z) (lines : list text) (k : nat) (by_ : option cut_by) : Prop :=
  match by_ with
  | None => k = length lines
  | Some ByLines => (k < length lines)%nat ∧ max_lines <= Z.of_nat k
  | Some ByBytes => (k < length lines)%nat ∧ Z.of_nat k < max_lines ∧
                    max_bytes < byte_len (join_nl (take (S k) lines))
  end.

Lemma take_snoc (ls : list text) k l rest : ls = take k ls ++ l :: rest → length (take k ls) = k → take (S k) ls = take k ls ++ [l].
Proof.
  intros Hl Hk. rewrite Hl at 1. rewrite take_app, Hk. rewrite take_ge by lia.
  replace (S k - k)%nat with 1%nat by lia. done.
Qed.

Lemma head_loop_spec max_lines max_bytes all k rest :
  let kept := take k all in
  all = kept ++ rest → length kept = k → Z.of_nat k <= max_lines → byte_len (join_nl kept) <= max_bytes →
  let r := head_loop max_lines max_bytes (Z.of_nat k) (byte_len (join_nl kept)) kept rest in
  ∃ k', r.1 = take k' all ∧ (k' <= length all)%nat ∧ Z.of_nat k' <= max_lines ∧
    byte_len (join_nl r.1) <= max_bytes ∧ stop_at max_lines max_bytes all k' r.2.
Proof.
  revert k; induction rest as [|l rest IH]; intros k kept Hall Hk Hl Hb; cbn [head_loop].
  - exists k. assert (length all = k) as <- by (rewrite Hall, app_nil_r; done). split_and!; done.
  - assert (k < length all)%nat by (rewrite Hall, length_app; cbn; lia).
    destruct (Z.leb_spec max_lines (Z.of_nat k)).
    { exists k. cbn. split_and!; try done; lia. }
    pose proof (take_snoc all k l rest Hall Hk) as Htake.
    assert (byte_len (join_nl kept) + (byte_len l + (if 0 <? Z.of_nat k then 1 else 0)) =
      byte_len (join_nl (take (S k) all))) as ->.
    { rewrite Htake, byte_len_join_snoc. fold kept. destruct kept as [|l0 ls0] eqn:E; cbn [length] in Hk; cbn [sep].
      - rewrite <- Hk. change (if 0 <? Z.of_nat 0 then 1 else 0) with 0. lia.
      - destruct (Z.ltb_spec 0 (Z.of_nat k)); lia. }
    destruct (Z.ltb_spec max_bytes (byte_len (join_nl (take (S k) all)))).
    { exists k. cbn. split_and!; try done; lia. }
    replace (Z.of_nat k + 1) with (Z.of_nat (S k)) by lia. fold kept in Htake. rewrite <- Htake.
    apply IH; [|rewrite Htake, length_app, Hk; cbn; lia|lia|lia].
    rewrite Htake, <- (assoc_L (++)). done.
Qed.

Lemma stop_longest max_lines max_bytes lines k by_ :
  (k <= length lines)%nat → Z.of_nat k <= max_lines → byte_len (join_nl (take k lines)) <= max_bytes →
  stop_at max_lines max_bytes lines k by_ → longest_head max_lines max_bytes lines (take k lines).
Proof.
  intros Hk Hl Hb Hs. exists k. split_and!; try done. intros j Hj Hjl Hjb.
  destruct by_ as [[|]|]; cbn in Hs; [lia| |lia].
  destruct (decide (j <= k)%nat); [done|]. exfalso.
  pose proof (byte_len_join_take_le lines (S k) j ltac:(lia)). lia.
Qed.

(** *** The lines of a content *)
Lemma split_nl_snoc t : split_nl (t ++ [newline]) = split_nl t ++ [[]].
Proof.
  induction t as [|c t IH]; [done|]. cbn [app split_nl]. rewrite IH. destruct (c =? newline); [done|].
  pose proof (split_nl_nonempty t). by destruct (split_nl t).
Qed.

(** The content is its lines joined, and the final newline if it has one. *)
Lemma join_lines content :
  content = join_nl (_split_lines_for_counting content) ++ (if ends_nl content then [newline] else []).
Proof.
  destruct content as [|c0 t0]; [done|]. unfold _split_lines_for_counting. generalize (c0 :: t0). clear. intros t.
  destruct (ends_nl t) eqn:He.
  - unfold ends_nl in He. destruct (last t) as [c|] eqn:Hl; [|done]. apply Z.eqb_eq in He as ->.
    apply last_Some in Hl as (t' & ->). by rewrite split_nl_snoc, removelast_last, join_split.
  - by rewrite app_nil_r, join_split.
Qed.

Lemma byte_len_lines content : byte_len (join_nl (_split_lines_for_counting content)) <= byte_len content.
Proof.
  pose proof (f_equal byte_len (join_lines content)) as H. rewrite byte_len_app in H.
  rewrite H. match goal with |- _ <= _ + byte_len ?u => pose proof (byte_len_nonneg u) end. lia.
Qed.

Lemma is_Some_None_bool {A} : (false = true) ↔ is_Some (@None A).
Proof. split; [done|by intros [? ?]]. Qed.

(** What a truncated head is. *)
Definition head_summary (content : text) (max_lines max_bytes : Z) (lines : list text) (r : TruncationResult) : Prop :=
  byte_len (tr_content r) <= max_bytes ∧ tr_output_bytes r = byte_len (tr_content r) ∧
  tr_total_lines r = Z.of_nat (length lines) ∧ tr_total_bytes r = byte_len content ∧
  (∃ kept, longest_head max_lines max_bytes lines kept ∧ tr_output_lines r = Z.of_nat (length kept) ∧
     (tr_content r = join_nl kept ∨ kept = lines ∧ tr_content r = content)) ∧
  (tr_truncated r = true ↔ tr_output_lines r < tr_total_lines r) ∧
  (tr_truncated r = true ↔ is_Some (tr_truncated_by r)).

(** [truncate_head] keeps the longest run of whole first lines that fits both limits, reports
    its exact number of lines and bytes, and says truncated exactly when lines were left out. *)
Theorem truncate_head_longest content max_lines max_bytes :
  0 <= max_lines → 0 <= max_bytes →
  head_summary content max_lines max_bytes (_split_lines_for_counting content)
    (truncate_head content max_lines max_bytes).
Proof.
  intros Hl Hb. set (lines := _split_lines_for_counting content).
  unfold truncate_head. fold lines. cbv zeta.
  destruct (_ && _) eqn:Hfit.
  { apply andb_true_iff in Hfit as [H1%Z.leb_le H2%Z.leb_le]. unfold head_summary, whole_result. cbn.
    split_and!; [done..| |split; [done|lia]|apply is_Some_None_bool].
    exists lines. split_and!; [|done|by right].
    pose proof (stop_longest max_lines max_bytes lines (length lines) None) as H. rewrite firstn_all in H.
    apply H; try done. etrans; [apply byte_len_lines|done]. }
  assert (∀ k by_, (k <= length lines)%nat → Z.of_nat k <= max_lines →
    byte_len (join_nl (take k lines)) <= max_bytes → stop_at max_lines max_bytes lines k by_ →
    head_summary content max_lines max_bytes lines
      (kept_result (take k lines) by_ false (Z.of_nat (length lines)) (byte_len content) max_lines max_bytes)) as Hkept.
  { intros k by_ Hk Hkl Hkb Hs. unfold head_summary, kept_result. cbn. rewrite length_take, Nat.min_l by done. split_and!; try done.
    - exists (take k lines). split_and!; [by eapply stop_longest|by rewrite length_take, Nat.min_l|by left].
    - rewrite bool_decide_eq_true. destruct by_ as [[|]|]; cbn in Hs.
      + split; [lia|by eexists].
      + split; [lia|by eexists].
      + split; [by intros [? ?]|lia].
    - apply bool_decide_eq_true. }
  destruct lines as [|line lines'] eqn:El.
  { apply (Hkept 0%nat None); cbn; try done; lia. }
  rewrite <- El in *. destruct (Z.ltb_spec max_bytes (byte_len line)).
  { unfold head_summary. cbn. split_and!; try done.
    - exists []. split_and!; [|done|by left]. exists 0%nat. split_and!; [done|lia|lia|done|].
      intros [|j] Hj Hjl Hjb; [lia|]. exfalso. rewrite El in Hjb. cbn [take] in Hjb. rewrite byte_len_join_cons in Hjb.
      pose proof (sep_range (take j lines')). pose proof (byte_len_nonneg (join_nl (take j lines'))). lia.
    - split; [|done]. intros _. rewrite El. cbn. lia. }
  destruct (head_loop_spec max_lines max_bytes lines 0 lines) as (k & Hr & Hk & Hkl & Hkb & Hs); try done.
  change (head_loop max_lines max_bytes (Z.of_nat 0) (byte_len (join_nl (take 0 lines))) (take 0 lines) lines)
    with (head_loop max_lines max_bytes 0 0 [] lines) in *.
  rewrite Hr in *. by apply Hkept.
Qed.

(** ** The tail *)
Definition longest_tail (max_lines max_bytes : Z) (lines kept : list text) : Prop :=
  ∃ k, kept = drop (length lines - k) lines ∧ (k <= length lines)%nat ∧ Z.of_nat k <= max_lines ∧
    byte_len (join_nl kept) <= max_bytes ∧
    ∀ j, (j <= length lines)%nat → Z.of_nat j <= max_lines →
      byte_len (join_nl (drop (length lines - j) lines)) <= max_bytes → (j <= k)%nat.

(** The longest ending of a line that fits. *)
Definition longest_ending (max_bytes : Z) (line ending : text) : Prop :=
  ∃ n, ending = drop n line ∧ byte_len ending <= max_bytes ∧
    ∀ m, (m < n)%nat → max_bytes < byte_len (drop m line).

Lemma sep_rev ls : sep (rev ls) = sep ls.
Proof. destruct ls as [|l ls]; [done|]. cbn [rev]. by destruct (rev ls). Qed.

Lemma byte_len_join_rev ls : byte_len (join_nl (rev ls)) = byte_len (join_nl ls).
Proof.
  induction ls as [|l ls IH]; [done|]. cbn [rev]. rewrite byte_len_join_snoc, byte_len_join_cons, sep_rev. lia.
Qed.

Lemma rev_take_drop (ls : list text) k : rev (take k (rev ls)) = drop (length ls - k) ls.
Proof.
  rewrite <- (rev_involutive (drop (length ls - k) ls)), <- firstn_rev. f_equal.
Qed.

Lemma longest_tail_rev max_lines max_bytes lines kept :
  longest_head max_lines max_bytes (rev lines) kept → longest_tail max_lines max_bytes lines (rev kept).
Proof.
  intros (k & -> & Hk & Hl & Hb & Hmax). rewrite length_rev in Hk, Hmax. exists k.
  rewrite rev_take_drop. split_and!; try done.
  - by rewrite <- rev_take_drop, byte_len_join_rev.
  - intros j Hj Hjl Hjb. apply Hmax; try done. by rewrite <- rev_take_drop, byte_len_join_rev in Hjb.
Qed.

(** The tail loop is the head loop, but for a first line that does not fit. *)
Lemma tail_head_loop max_lines max_bytes index byte_count kept lines :
  index = Z.of_nat (length kept) →
  tail_loop max_lines max_bytes index byte_count kept lines =
    match head_loop max_lines max_bytes index byte_count kept lines with
    | ([], Some ByBytes) => ([line_end (default [] (head lines)) max_bytes], Some ByBytes, true)
    | r => (r, false)
    end.
Proof.
  revert index byte_count kept; induction lines as [|l lines IH]; intros index byte_count kept Hi; cbn.
  - by destruct kept.
  - destruct (max_lines <=? index); [by destruct kept|].
    replace (match kept with [] => 0 | _ :: _ => 1 end) with (if 0 <? index then 1 else 0).
    2:{ subst index. by destruct kept. }
    destruct (max_bytes <? _); [by destruct kept|].
    rewrite IH by (rewrite length_app; cbn; lia).
    destruct (head_loop _ _ _ _ _ lines) as [kept' by_] eqn:E. destruct kept' as [|l' kept']; [|done].
    exfalso. assert (∀ i b ks ls, ks ≠ [] → (head_loop max_lines max_bytes i b ks ls).1 ≠ []) as Hne.
    { clear. intros i b ks ls. revert i b ks; induction ls as [|l ls IH]; intros i b ks Hk; cbn; [done|].
      destruct (_ <=? _); [done|]. destruct (_ <? _); [done|]. apply IH. by destruct ks. }
    eapply Hne; [|by rewrite E]. by destruct kept.
Qed.

Lemma skip_encode t : is_text t → skip_continuation (encode t) = encode t.
Proof.
  intros Ht. destruct Ht as [|c t Hc Ht]; [done|]. destruct (encode_char_shape c Hc) as (b & bs & He & Hb & _).
  cbn [encode flat_map]. rewrite He. cbn [app skip_continuation]. by rewrite Hb.
Qed.

Lemma skip_conts bs t :
  Forall (λ x, is_continuation x = true) bs → is_text t → skip_continuation (bs ++ encode t) = encode t.
Proof.
  intros Hbs Ht. induction Hbs as [|b bs Hb _ IH]; [by apply skip_encode|].
  cbn [app skip_continuation]. by rewrite Hb.
Qed.

Lemma skip_drop t n :
  is_text t → (n <= length (encode t))%nat →
  ∃ m, skip_continuation (drop n (encode t)) = encode (drop m t) ∧
    byte_len (drop m t) <= byte_len t - Z.of_nat n ∧
    ∀ j, (j < m)%nat → byte_len t - Z.of_nat n < byte_len (drop j t).
Proof.
  intros Ht. revert n; induction Ht as [|c t Hc Ht IH]; intros n Hn.
  { exists 0%nat. cbn in Hn. replace n with 0%nat by lia. split_and!; [done|cbn; lia|lia]. }
  destruct n as [|n].
  { exists 0%nat. rewrite !drop_0, skip_encode by (by constructor). split_and!; [done|lia|lia]. }
  destruct (encode_char_shape c Hc) as (b & bs & He & Hb & Hbs & _ & _).
  assert (encode (c :: t) = (b :: bs) ++ encode t) as Hcons by (cbn [encode flat_map]; by rewrite He).
  assert (byte_len (c :: t) = 1 + Z.of_nat (length bs) + byte_len t) as Hlen.
  { unfold byte_len. rewrite Hcons, length_app. cbn [length]. lia. }
  rewrite Hcons in Hn |- *. rewrite length_app in Hn. cbn [app drop length] in *.
  destruct (decide (n <= length bs)%nat) as [Hle|Hgt].
  - exists 1%nat. rewrite drop_app_le, skip_conts by (done || by apply Forall_drop). cbn [drop].
    rewrite drop_0. split_and!; [done|lia|]. intros [|j]; [|lia]. intros _. rewrite drop_0. lia.
  - rewrite drop_app_ge by lia. destruct (IH (n - length bs)%nat ltac:(lia)) as (m & Hs & Hm & Hmax).
    exists (S m). cbn [drop]. split_and!; [done|lia|]. intros [|j] Hj; cbn [drop].
    + lia.
    + specialize (Hmax j ltac:(lia)). lia.
Qed.

Lemma line_end_longest line max_bytes :
  is_text line → 0 <= max_bytes → max_bytes < byte_len line → longest_ending max_bytes line (line_end line max_bytes).
Proof.
  intros Ht Hb Hlt. unfold line_end. unfold byte_len in Hlt. rewrite Z.max_r by lia.
  destruct (skip_drop line (Z.to_nat (Z.of_nat (length (encode line)) - max_bytes)) Ht ltac:(lia)) as (m & -> & Hm & Hmax).
  rewrite Z2Nat.id in Hm, Hmax by lia. unfold byte_len at 2 in Hm.
  exists m. rewrite decode_ignore_encode by (by apply Forall_drop). split_and!; [done|lia|].
  intros j Hj. specialize (Hmax j Hj). unfold byte_len at 1 in Hmax. lia.
Qed.

Lemma split_nl_text t : is_text t → Forall is_text (split_nl t).
Proof.
  induction 1 as [|c t Hc Ht IH]; cbn; [by repeat constructor|]. destruct (c =? newline); [by constructor; [constructor|]|].
  destruct (split_nl t) as [|l ls]; [by repeat constructor|]. apply Forall_cons in IH as [Hl Hls].
  constructor; [by constructor|done].
Qed.

Lemma lines_text t : is_text t → Forall is_text (_split_lines_for_counting t).
Proof.
  intros Ht%split_nl_text. unfold _split_lines_for_counting. destruct t as [|c t]; [constructor|].
  destruct (ends_nl _); [|done]. rewrite removelast_firstn_len. by apply Forall_take.
Qed.

(** What a truncated tail is. *)
Definition tail_summary (content : text) (max_lines max_bytes : Z) (lines : list text) (r : TruncationResult) : Prop :=
  byte_len (tr_content r) <= max_bytes ∧ tr_output_bytes r = byte_len (tr_content r) ∧
  tr_total_lines r = Z.of_nat (length lines) ∧ tr_total_bytes r = byte_len content ∧
  (tr_last_line_partial r = true ↔
     1 <= max_lines ∧ ∃ line, last lines = Some line ∧ max_bytes < byte_len line) ∧
  (if tr_last_line_partial r then
     tr_truncated_by r = Some ByBytes ∧ tr_output_lines r = 1 ∧
     ∃ line, last lines = Some line ∧ max_bytes < byte_len line ∧ longest_ending max_bytes line (tr_content r)
   else
     (∃ kept, longest_tail max_lines max_bytes lines kept ∧ tr_output_lines r = Z.of_nat (length kept) ∧
        (tr_content r = join_nl kept ∨ kept = lines ∧ tr_content r = content)) ∧
     (tr_truncated r = true ↔ tr_output_lines r < tr_total_lines r)) ∧
  (tr_truncated r = true ↔ is_Some (tr_truncated_by r)).

Lemma last_le ls line : last ls = Some line → byte_len line <= byte_len (join_nl ls).
Proof.
  intros (l' & ->)%last_Some. rewrite byte_len_join_snoc. pose proof (byte_len_nonneg (join_nl l')).
  pose proof (sep_range l'). lia.
Qed.

Lemma no_line_exceeds ls kept line max_bytes k :
  kept = take k (rev ls) → kept ≠ [] → byte_len (join_nl kept) <= max_bytes → last ls = Some line →
  byte_len line <= max_bytes.
Proof.
  intros -> Hne Hb (l' & ->)%last_Some. rewrite rev_app_distr in Hne, Hb. cbn [rev app] in Hne, Hb.
  destruct k as [|k]; [done|]. cbn [take] in Hb. rewrite byte_len_join_cons in Hb.
  pose proof (sep_range (take k (rev l'))). pose proof (byte_len_nonneg (join_nl (take k (rev l')))). lia.
Qed.

Lemma truncate_tail_summary content max_lines max_bytes :
  is_text content → 0 <= max_lines → 0 <= max_bytes →
  tail_summary content max_lines max_bytes (_split_lines_for_counting content)
    (truncate_tail content max_lines max_bytes).
Proof.
  intros Ht Hl Hb. pose proof (lines_text content Ht) as Hlt. set (lines := _split_lines_for_counting content) in *.
  unfold truncate_tail. fold lines. cbv zeta. destruct (_ && _) eqn:Hfit.
  { apply andb_true_iff in Hfit as [H1%Z.leb_le H2%Z.leb_le]. unfold tail_summary, whole_result. cbn.
    split_and!; [done..| | |split; [done|lia]|apply is_Some_None_bool].
    { split; [done|]. intros (_ & line & Hline & Hlt'). apply last_le in Hline.
      pose proof (byte_len_lines content). unfold lines in Hline. lia. }
    exists lines. split_and!; [|done|by right]. exists (length lines). rewrite Nat.sub_diag, drop_0.
    split_and!; try done. etrans; [apply byte_len_lines|done]. }
  rewrite tail_head_loop by done.
  destruct (head_loop_spec max_lines max_bytes (rev lines) 0 (rev lines)) as (k & Hr & Hk & Hkl & Hkb & Hs); try done.
  change (head_loop max_lines max_bytes (Z.of_nat 0) (byte_len (join_nl (take 0 (rev lines)))) (take 0 (rev lines)) (rev lines))
    with (head_loop max_lines max_bytes 0 0 [] (rev lines)) in *.
  destruct (head_loop max_lines max_bytes 0 0 [] (rev lines)) as [kept by_] eqn:Eloop. cbn [fst snd] in *.
  assert (kept ≠ [] ∨ by_ ≠ Some ByBytes →
    tail_summary content max_lines max_bytes lines (kept_result (rev kept) by_ false (Z.of_nat (length lines)) (byte_len content) max_lines max_bytes)) as Hkept.
  { intros Hcase. unfold tail_summary, kept_result. cbn. rewrite byte_len_join_rev, length_rev. split_and!; try done.
    - split; [done|]. intros (H1 & line & Hline & Hlt'). destruct kept as [|l0 kept0] eqn:Ek.
      + destruct Hcase as [|Hby]; [done|]. exfalso. destruct k as [|k].
        * destruct by_ as [[|]|]; cbn in Hs; [lia|done|]. rewrite length_rev in Hs. by destruct lines.
        * destruct (rev lines); [cbn in Hk; lia|done].
      + rewrite Hr in Hkb. pose proof (no_line_exceeds lines _ line max_bytes k eq_refl ltac:(by rewrite <- Hr) Hkb Hline). lia.
    - exists (rev kept). rewrite length_rev. split_and!; [|done|by left]. apply longest_tail_rev. subst kept. by eapply stop_longest.
    - rewrite bool_decide_eq_true. subst kept. rewrite length_take, Nat.min_l by done. rewrite length_rev in *.
      destruct by_ as [[|]|]; cbn in Hs; rewrite ?length_rev in Hs.
      + split; [lia|by eexists].
      + split; [lia|by eexists].
      + split; [by intros [? ?]|lia].
    - apply bool_decide_eq_true. }
  destruct kept as [|l kept]; [|by apply Hkept; left].
  destruct by_ as [[|]|]; [by apply Hkept; right| |by apply Hkept; right]. clear Hkept.
  cbn in Hs. destruct Hs as (Hlen & Hkl' & Hover).
  assert (k = 0%nat) as ->.
  { apply (f_equal length) in Hr. rewrite length_take in Hr. cbn in Hr. lia. }
  destruct (rev lines) as [|line rest] eqn:Er; [cbn in Hlen; lia|]. cbn [take join_nl default head] in *.
  assert (lines = rev rest ++ [line]) as El by (by rewrite <- (rev_involutive lines), Er).
  assert (longest_ending max_bytes line (line_end line max_bytes)) as Hend.
  { apply line_end_longest; [|done|done]. rewrite El in Hlt. apply Forall_app in Hlt as [_ Hlt]. by apply Forall_inv in Hlt. }
  unfold tail_summary, kept_result. cbn. split_and!; try done.
  - by destruct Hend as (? & _ & ? & _).
  - split; [|done]. intros _. split; [lia|]. exists line. by rewrite El, last_snoc.
  - exists line. rewrite El, last_snoc. done.
Qed.

(** *** Reported lines *)
Lemma count_nl_app t t' : count_nl (t ++ t') = count_nl t + count_nl t'.
Proof. unfold count_nl. rewrite List.filter_app, length_app. lia. Qed.

Lemma ends_nl_app t t' : t' ≠ [] → ends_nl (t ++ t') = ends_nl t'.
Proof.
  intros Hne. unfold ends_nl. rewrite last_app. destruct (last t') eqn:E; [done|]. by apply last_None in E.
Qed.

Lemma split_nl_length t : Z.of_nat (length (split_nl t)) = count_nl t + 1.
Proof.
  unfold count_nl. induction t as [|c t IH]; [done|]. cbn [split_nl List.filter].
  destruct (c =? newline); cbn [length]; [lia|]. pose proof (split_nl_nonempty t).
  destruct (split_nl t); [done|]. cbn [length] in *. lia.
Qed.

Lemma line_count_lines t : line_count t = Z.of_nat (length (_split_lines_for_counting t)).
Proof.
  destruct t as [|c t]; [done|]. unfold line_count, _split_lines_for_counting.
  pose proof (split_nl_length (c :: t)) as H. pose proof (split_nl_nonempty (c :: t)).
  destruct (ends_nl (c :: t)); cbn [negb Z.b2z]; [|lia].
  rewrite removelast_firstn_len, length_take. destruct (split_nl (c :: t)); [done|]. cbn [length] in *. lia.
Qed.

Lemma split_nl_lines t : Forall (λ l, count_nl l = 0) (split_nl t).
Proof.
  induction t as [|c t IH]; cbn [split_nl]; [by repeat constructor|].
  destruct (c =? newline) eqn:Hc; [by constructor|]. pose proof (split_nl_nonempty t).
  destruct (split_nl t) as [|l ls]; [done|]. apply Forall_cons in IH as [Hl Hls]. constructor; [|done].
  unfold count_nl in *. cbn [List.filter]. by rewrite Hc.
Qed.

Lemma content_lines t : Forall (λ l, count_nl l = 0) (_split_lines_for_counting t).
Proof.
  pose proof (split_nl_lines t) as H. unfold _split_lines_for_counting. destruct t as [|c t]; [constructor|].
  destruct (ends_nl _); [|done]. rewrite removelast_firstn_len. by apply Forall_take.
Qed.

Lemma line_count_le t : line_count t <= count_nl t + 1.
Proof. unfold line_count. destruct t; [unfold count_nl; cbn; lia|]. destruct (ends_nl _); cbn; lia. Qed.

Lemma line_count_join ls : Forall (λ l, count_nl l = 0) ls → line_count (join_nl ls) <= Z.of_nat (length ls).
Proof.
  intros H. destruct ls as [|l ls]; [done|]. etrans; [apply line_count_le|].
  assert (count_nl (join_nl (l :: ls)) = Z.of_nat (length ls)) as ->; [|cbn [length]; lia].
  revert l H; induction ls as [|l' ls IH]; intros l H; [by apply Forall_inv in H|].
  apply Forall_cons in H as [Hl H]. rewrite join_cons, count_nl_app by done.
  change (count_nl (newline :: join_nl (l' :: ls))) with (Z.of_nat (S (length (List.filter (λ c, c =? newline) (join_nl (l' :: ls)))))).
  specialize (IH l' H). unfold count_nl in IH, Hl |- *. cbn [length] in *. lia.
Qed.

Lemma join_text ls : Forall is_text ls → is_text (join_nl ls).
Proof.
  induction 1 as [|l ls Hl Hls IH]; [constructor|]. destruct ls as [|l' ls]; [done|].
  rewrite join_cons by done. apply Forall_app. split; [done|]. by constructor.
Qed.

Lemma drop_count_nl n t : count_nl t = 0 → count_nl (drop n t) = 0.
Proof.
  rewrite <- (take_drop n t) at 1. rewrite count_nl_app. unfold count_nl. lia.
Qed.

(** What a tail is made of. *)
Lemma truncate_tail_content content max_lines max_bytes :
  is_text content → 0 < max_lines → 0 <= max_bytes →
  let r := truncate_tail content max_lines max_bytes in
  is_text (tr_content r) ∧ byte_len (tr_content r) <= max_bytes ∧ line_count (tr_content r) <= max_lines.
Proof.
  intros Ht Hl Hb. pose proof (lines_text content Ht) as Hlt. pose proof (content_lines content) as Hln.
  destruct (truncate_tail_summary content max_lines max_bytes Ht ltac:(lia) Hb) as (Hlen & _ & _ & _ & _ & Hcase & _).
  cbv zeta. split; [|split; [done|]]; destruct (tr_last_line_partial _).
  - destruct Hcase as (_ & _ & line & Hline & _ & n & -> & _ & _). apply Forall_drop.
    apply last_Some in Hline as (l' & Hline). rewrite Hline in Hlt. apply Forall_app in Hlt as [_ Hlt]. by apply Forall_inv in Hlt.
  - destruct Hcase as [(kept & (k & -> & _) & _ & [->|[_ ->]]) _]; [|done]. apply join_text. by apply Forall_drop.
  - destruct Hcase as (_ & _ & line & Hline & _ & n & -> & _ & _).
    etrans; [apply line_count_le|]. rewrite drop_count_nl; [lia|].
    apply last_Some in Hline as (l' & Hline). rewrite Hline in Hln. apply Forall_app in Hln as [_ Hln]. by apply Forall_inv in Hln.
  - destruct Hcase as [(kept & (k & -> & Hk & Hkl & _) & _ & [->|[Hall ->]]) _].
    + etrans; [apply line_count_join; by apply Forall_drop|]. rewrite length_drop. lia.
    + rewrite line_count_lines. apply (f_equal length) in Hall. rewrite length_drop in Hall. lia.
Qed.

(** *** The last line *)
Lemma after_last_cons c t :
  after_last_nl (c :: t) = if bool_decide (newline ∈ t) then after_last_nl t
                           else if c =? newline then t else c :: t.
Proof.
  unfold after_last_nl. cbn [split_nl].
  assert (newline ∉ t → split_nl t = [t]) as Hno.
  { clear c. induction t as [|c t IH]; [done|]. intros [Hc Ht]%not_elem_of_cons. cbn [split_nl].
    rewrite (proj2 (Z.eqb_neq c newline)) by done. by rewrite IH. }
  pose proof (split_nl_nonempty t) as Hne. case_bool_decide as Hin.
  - destruct (c =? newline); [by destruct (split_nl t)|].
    destruct (split_nl t) as [|l [|l' ls]] eqn:E; [done| |done]. exfalso.
    apply (f_equal length) in E. pose proof (split_nl_length t) as Hl. rewrite E in Hl. cbn in Hl.
    assert (count_nl t ≠ 0); [|lia]. unfold count_nl. intros H0.
    assert (List.filter (λ c, c =? newline) t = []) as Hf by (apply length_zero_iff_nil; lia).
    assert (newline ∈ List.filter (λ c, c =? newline) t) as Hx.
    { apply list_elem_of_In, filter_In. split; [by apply list_elem_of_In|done]. }
    rewrite Hf in Hx. by apply elem_of_nil in Hx.
  - rewrite Hno by done. destruct (c =? newline); done.
Qed.

Lemma after_last_plain t : newline ∉ t → after_last_nl t = t.
Proof.
  destruct t as [|c t]; [done|]. intros [Hc Ht]%not_elem_of_cons. rewrite after_last_cons.
  rewrite bool_decide_false by done. by rewrite (proj2 (Z.eqb_neq c newline)).
Qed.

Lemma after_last_app t t' :
  after_last_nl (t ++ t') = if bool_decide (newline ∈ t') then after_last_nl t' else after_last_nl t ++ t'.
Proof.
  induction t as [|c t IH]; cbn [app].
  - case_bool_decide; [done|by apply after_last_plain].
  - rewrite after_last_cons, IH, after_last_cons. case_bool_decide as Ht'.
    + by rewrite bool_decide_true by (apply elem_of_app; by right).
    + destruct (bool_decide (newline ∈ t)) eqn:Ht.
      * rewrite bool_decide_true; [done|]. apply elem_of_app. left. by apply bool_decide_eq_true in Ht.
      * apply bool_decide_eq_false in Ht. rewrite bool_decide_false by (intros [?|?]%elem_of_app; done).
        by destruct (c =? newline).
Qed.

(** [truncate_tail] keeps the longest run of whole last lines that fits both limits; when not
    even the last line fits the limit of bytes, the longest ending of it that does, cut at a
    character; and it reports exactly what it kept. *)
Theorem truncate_tail_longest content max_lines max_bytes :
  is_text content → 0 <= max_lines → 0 <= max_bytes →
  tail_summary content max_lines max_bytes (_split_lines_for_counting content)
    (truncate_tail content max_lines max_bytes).
Proof. apply truncate_tail_summary. Qed.

(** *** Witnesses *)
Definition sample_content : text := [97; 98; 10; 233; 10; 8364; 8364; 10].

Lemma truncate_head_longest_witness :
  head_summary sample_content 2 6 (_split_lines_for_counting sample_content) (truncate_head sample_content 2 6) ∧
  tr_content (truncate_head sample_content 2 6) = [97; 98; 10; 233].
Proof. split; [apply truncate_head_longest; lia|vm_compute; reflexivity]. Defined.

Lemma truncate_tail_longest_witness :
  tail_summary sample_content 2 5 (_split_lines_for_counting sample_content) (truncate_tail sample_content 2 5) ∧
  tr_content (truncate_tail sample_content 2 5) = [8364] ∧ tr_last_line_partial (truncate_tail sample_content 2 5) = true.
Proof.
  split; [|vm_compute; done]. apply truncate_tail_longest; [|lia|lia]. repeat constructor.
Defined.
