(* ===== verification/JournalTypes.v ===== *)
(** The value types of the operation journal
    (travis/coding_agent/operations/types.py): the dataclasses as records, each
    with the constructor that runs its [__post_init__] checks, the state
    transition validators and the sanitising of register values.

    States, kinds and codes are strings in the code, checked against frozensets
    and patterns; they are strings here too, so that the rejecting branches are
    part of the model.  Arguments of a wrong Python type are not represented. *)

From S2P Require Import Prelude Json PyFloat.
Open Scope Z_scope.

(** What the journal code raises: the store's own errors
    (operations/store.py), an error of the SQLite driver, the [ValueError] and
    [TypeError] of the dataclass checks, and an [OSError]. *)
Inductive store_error : Type :=
  | OperationStoreUnavailable
  | OperationStoreCapacity
  | OperationStoreConflict
  | SqliteDatabaseError
  | InvalidValue (message : string)
  | InvalidType (message : string)
  | OsError.

#[export] Instance store_error_eq_dec : EqDecision store_error.
Proof. solve_decision. Defined.

(** [src: travis/coding_agent/operations/types.py:18-18 OPERATION_STATES] *)
Definition OPERATION_STATES : list string :=
  ["running"; "settled"; "failed"; "cancelled"; "uncertain"].

(** [src: travis/coding_agent/operations/types.py:19-19 EFFECT_STATES] *)
Definition EFFECT_STATES : list string :=
  ["intent"; "settled"; "failed"; "cancelled"; "uncertain"].

Definition all_chars (p : ascii → bool) (s : string) : bool := forallb p (chars s).

(** [src: travis/coding_agent/operations/types.py:20-20 _OPERATION_ID] *)
Definition operation_id_pattern (s : string) : bool :=
  String.prefix "op_" s && (str_len s =? 35) &&
  forallb is_hex_char (drop 3 (chars s)).

(** [src: travis/coding_agent/operations/types.py:21-21 _EFFECT_ID] *)
Definition effect_id_pattern (s : string) : bool :=
  String.prefix "effect_" s && (str_len s =? 39) &&
  forallb is_hex_char (drop 7 (chars s)).

(** [src: travis/coding_agent/operations/types.py:22-22 _RUNTIME_ID] *)
Definition runtime_id_pattern (s : string) : bool :=
  (str_len s =? 32) && all_chars is_hex_char s.

(** [src: travis/coding_agent/operations/types.py:23-23 _FINGERPRINT] *)
Definition fingerprint_pattern (s : string) : bool :=
  (str_len s =? 64) && all_chars is_hex_char s.

(** [src: travis/coding_agent/operations/types.py:24-24 _CODE] *)
Definition code_pattern (s : string) : bool :=
  match chars s with
  | c :: rest =>
      is_lower_char c && (str_len s <=? 64) &&
      forallb (λ d, is_lower_char d || is_digit_char d || (code d =? 95)) rest
  | [] => false
  end.

Definition is_alnum_char (c : ascii) : bool :=
  is_lower_char c || is_upper_char c || is_digit_char c.

(** [src: travis/coding_agent/operations/types.py:25-25 _EFFECT_NAME] *)
Definition effect_name_pattern (s : string) : bool :=
  match chars s with
  | c :: rest =>
      is_alnum_char c && (str_len s <=? 256) &&
      forallb (λ d, is_alnum_char d ||
        bool_decide (d ∈ chars "._:/-")) rest
  | [] => false
  end.

(** [src: travis/coding_agent/operations/types.py:26-28 _SENSITIVE_KEY] *)
Definition sensitive_key (key : string) : bool :=
  let k := lower_str key in
  existsb (λ w, str_contains w k)
    ["auth"; "cookie"; "credential"; "password"; "secret"; "token";
     "apikey"; "api_key"; "api-key"].

(** [src: travis/coding_agent/operations/types.py:29-29 _REGISTER_MAX_BYTES] *)
Definition REGISTER_MAX_BYTES : Z := 16 * 1024.

(** [src: travis/coding_agent/operations/types.py:30-30 _REGISTER_MAX_DEPTH] *)
Definition REGISTER_MAX_DEPTH : Z := 32.

(** [src: travis/coding_agent/operations/types.py:33-36 _require_pattern] *)
Definition require_pattern (value : string) (pattern : string → bool) (label : string)
    : result store_error string :=
  if pattern value then Ok value else Err (InvalidValue ("invalid " +:+ label)).

(** [src: travis/coding_agent/operations/types.py:39-42 _require_nonnegative_int] *)
Definition require_nonnegative_int (value : Z) (label : string) : result store_error Z :=
  if value <? 0
  then Err (InvalidValue (label +:+ " must be a non-negative integer"))
  else Ok value.

(** [src: travis/coding_agent/operations/types.py:45-48 _require_timestamp]
    with [optional=True]; a mandatory timestamp is [require_nonnegative_int]. *)
Definition require_timestamp (value : option Z) (label : string)
    : result store_error (option Z) :=
  match value with
  | None => Ok None
  | Some t => t ← require_nonnegative_int t label; Ok (Some t)
  end.

(** [src: travis/coding_agent/operations/types.py:51-54 _require_code] *)
Definition require_code (value : string) (label : string) : result store_error string :=
  require_pattern value code_pattern label.

(** [src: travis/coding_agent/operations/types.py:51-54 _require_code] with
    [optional=True]. *)
Definition require_code_optional (value : option string) (label : string)
    : result store_error (option string) :=
  match value with
  | None => Ok None
  | Some c => c ← require_code c label; Ok (Some c)
  end.

Definition key_is_sensitive (key : option string) : bool :=
  match key with Some k => sensitive_key k | None => false end.

(** [src: travis/coding_agent/operations/types.py:57-79 _sanitize_json] *)
Fixpoint sanitize_json (depth : Z) (key : option string) (value : pyval)
    : result store_error json :=
  if REGISTER_MAX_DEPTH <? depth
  then Err (InvalidValue "operation register exceeds 32 levels")
  else if key_is_sensitive key then Ok (JStr "[redacted]")
  else match value with
  | VNone => Ok JNull
  | VStr s => Ok (JStr s)
  | VBool b => Ok (JBool b)
  | VInt z => Ok (JInt z)
  | VFloat finite r =>
      if finite then Ok (JFloat r)
      else Err (InvalidType "operation register values must be finite JSON values")
  | VList items =>
      l ← try_map (λ item, sanitize_json (depth + 1) None item) items;
      Ok (JList l)
  | VDict items =>
      sanitized ← try_map (λ kv,
        match kv with
        | (KStr raw_key, item) =>
            item' ← sanitize_json (depth + 1) (Some raw_key) item;
            Ok (raw_key, item')
        | (KOther, _) =>
            Err (InvalidType "operation register values must use JSON object keys")
        end) items;
      Ok (JObj (py_sorted key_leb sanitized))
  | VOther => Err (InvalidType "operation register values must be JSON values")
  end.

(** [src: travis/coding_agent/operations/types.py:98-107 validate_operation_transition] *)
Definition validate_operation_transition (current requested : string)
    : result store_error string :=
  if bool_decide (current ∉ OPERATION_STATES) || bool_decide (requested ∉ OPERATION_STATES)
  then Err (InvalidValue "unknown operation state transition")
  else if bool_decide (requested = current) then Ok requested
  else if bool_decide (current ≠ "running") || bool_decide (requested = "running")
  then Err (InvalidValue ("invalid operation state transition: " +:+ current +:+ " -> " +:+ requested))
  else Ok requested.

(** [src: travis/coding_agent/operations/types.py:110-117 validate_effect_transition] *)
Definition validate_effect_transition (current requested : string)
    : result store_error string :=
  if bool_decide (current ∉ EFFECT_STATES) || bool_decide (requested ∉ EFFECT_STATES)
  then Err (InvalidValue "unknown effect state transition")
  else if bool_decide (requested = current) then Ok requested
  else if bool_decide (current ≠ "intent") || bool_decide (requested = "intent")
  then Err (InvalidValue ("invalid effect state transition: " +:+ current +:+ " -> " +:+ requested))
  else Ok requested.

(** [src: travis/coding_agent/operations/types.py:120-127 RuntimeLease] *)
Record RuntimeLease : Type := {
  rt_runtime_id : string;
  rt_pid : Z;
  rt_process_create_time : float64;
  rt_started_at_ms : Z;
  rt_heartbeat_at_ms : Z;
  rt_closed_at_ms : option Z
}.

(** A settlement or closing time, when there is one, is not before [lo]. *)
Definition not_before (lo : Z) (t : option Z) : bool :=
  match t with Some t => negb (t <? lo) | None => true end.

(** [src: travis/coding_agent/operations/types.py:129-144 RuntimeLease.__post_init__] *)
Definition check_runtime (r : RuntimeLease) : result store_error RuntimeLease :=
  _ ← require_pattern (rt_runtime_id r) runtime_id_pattern "runtime id";
  _ ← require (negb (rt_pid r <=? 0)) (InvalidValue "runtime pid must be a positive integer");
  _ ← require (fl_finite (rt_process_create_time r) &&
               negb (fl_ltb (rt_process_create_time r) fl_zero))
        (InvalidValue "process creation time must be non-negative and finite");
  started ← require_nonnegative_int (rt_started_at_ms r) "started_at_ms";
  heartbeat ← require_nonnegative_int (rt_heartbeat_at_ms r) "heartbeat_at_ms";
  closed ← require_timestamp (rt_closed_at_ms r) "closed_at_ms";
  _ ← require (negb (heartbeat <? started) && not_before started closed)
        (InvalidValue "runtime timestamps must be monotonic");
  Ok r.

(** [src: travis/coding_agent/operations/types.py:147-158 OperationRecord] *)
Record OperationRecord : Type := {
  op_operation_id : string;
  op_runtime_id : string;
  op_session_fingerprint : string;
  op_kind : string;
  op_state : string;
  op_program_counter : Z;
  op_created_at_ms : Z;
  op_updated_at_ms : Z;
  op_settled_at_ms : option Z;
  op_outcome_code : option string
}.

(** [src: travis/coding_agent/operations/types.py:160-173 OperationRecord.__post_init__] *)
Definition check_operation (o : OperationRecord) : result store_error OperationRecord :=
  _ ← require_pattern (op_operation_id o) operation_id_pattern "operation id";
  _ ← require_pattern (op_runtime_id o) runtime_id_pattern "runtime id";
  _ ← require_pattern (op_session_fingerprint o) fingerprint_pattern "session fingerprint";
  _ ← require_code (op_kind o) "operation kind";
  _ ← require (bool_decide (op_state o ∈ OPERATION_STATES)) (InvalidValue "unknown operation state");
  _ ← require_nonnegative_int (op_program_counter o) "program counter";
  created ← require_nonnegative_int (op_created_at_ms o) "created_at_ms";
  updated ← require_nonnegative_int (op_updated_at_ms o) "updated_at_ms";
  settled ← require_timestamp (op_settled_at_ms o) "settled_at_ms";
  _ ← require_code_optional (op_outcome_code o) "outcome code";
  _ ← require (negb (updated <? created) && not_before created settled)
        (InvalidValue "operation timestamps must be monotonic");
  Ok o.

(** [src: travis/coding_agent/operations/types.py:190-196 OperationRegister].
    The stored value is the sanitised JSON value; the frozen mappings and
    tuples of the code ([_freeze_json]) hold the same data. *)
Record OperationRegister : Type := {
  reg_operation_id : string;
  reg_key : string;
  reg_value : json;
  reg_program_counter : Z;
  reg_updated_at_ms : Z
}.

(** [src: travis/coding_agent/operations/types.py:198-216 OperationRegister.__post_init__] *)
Definition make_register (operation_id key : string) (value : pyval)
    (program_counter updated_at_ms : Z) : result store_error OperationRegister :=
  _ ← require_pattern operation_id operation_id_pattern "operation id";
  _ ← require_code key "register key";
  _ ← require_nonnegative_int program_counter "program counter";
  _ ← require_nonnegative_int updated_at_ms "updated_at_ms";
  sanitized ← sanitize_json 0 (Some key) value;
  _ ← require (utf8_bytes (dumps sanitized) <=? REGISTER_MAX_BYTES)
        (InvalidValue "operation register value exceeds 16 KiB");
  Ok {| reg_operation_id := operation_id; reg_key := key; reg_value := sanitized;
        reg_program_counter := program_counter; reg_updated_at_ms := updated_at_ms |}.

(** [src: travis/coding_agent/operations/types.py:228-242 EffectRecord] *)
Record EffectRecord : Type := {
  eff_effect_id : string;
  eff_operation_id : string;
  eff_runtime_id : string;
  eff_ordinal : Z;
  eff_kind : string;
  eff_name : string;
  eff_fingerprint : string;
  eff_state : string;
  eff_replay_policy : string;
  eff_created_at_ms : Z;
  eff_settled_at_ms : option Z;
  eff_outcome_code : option string;
  eff_effect_classes : list string
}.

(** [src: travis/coding_agent/operations/types.py:244-266 EffectRecord.__post_init__] *)
Definition check_effect (e : EffectRecord) : result store_error EffectRecord :=
  _ ← require_pattern (eff_effect_id e) effect_id_pattern "effect id";
  _ ← require_pattern (eff_operation_id e) operation_id_pattern "operation id";
  _ ← require_pattern (eff_runtime_id e) runtime_id_pattern "runtime id";
  _ ← require_nonnegative_int (eff_ordinal e) "effect ordinal";
  _ ← require_code (eff_kind e) "effect kind";
  _ ← require_pattern (eff_name e) effect_name_pattern "effect name";
  _ ← require_pattern (eff_fingerprint e) fingerprint_pattern "effect fingerprint";
  _ ← require (bool_decide (eff_state e ∈ EFFECT_STATES)) (InvalidValue "unknown effect state");
  _ ← require (bool_decide (eff_replay_policy e = "never")) (InvalidValue "unknown replay policy");
  created ← require_nonnegative_int (eff_created_at_ms e) "created_at_ms";
  settled ← require_timestamp (eff_settled_at_ms e) "settled_at_ms";
  _ ← require_code_optional (eff_outcome_code e) "outcome code";
  _ ← require ((Z.of_nat (length (eff_effect_classes e)) <=? 16) &&
               bool_decide (NoDup (eff_effect_classes e)))
        (InvalidValue "effect classes must be unique and bounded");
  _ ← try_iter (λ c, _ ← require_code c "effect class"; Ok tt) (eff_effect_classes e);
  _ ← require (not_before created settled)
        (InvalidValue "effect timestamps must be monotonic");
  Ok e.

(** [src: travis/coding_agent/operations/types.py:286-297 UsageLedgerEntry] *)
Record UsageLedgerEntry : Type := {
  use_operation_id : string;
  use_source_key : string;
  use_provider : string;
  use_model : string;
  use_input_tokens : Z;
  use_output_tokens : Z;
  use_cache_read_tokens : Z;
  use_cache_write_tokens : Z;
  use_cost : float64;
  use_created_at_ms : Z
}.

(** [src: travis/coding_agent/operations/types.py:299-320 UsageLedgerEntry.__post_init__] *)
Definition check_usage (u : UsageLedgerEntry) : result store_error UsageLedgerEntry :=
  _ ← require_pattern (use_operation_id u) operation_id_pattern "operation id";
  _ ← require_pattern (use_source_key u) fingerprint_pattern "usage source key";
  _ ← require (negb (bool_decide (use_provider u = "")) && (str_len (use_provider u) <=? 256))
        (InvalidValue "provider must be a bounded string");
  _ ← require (negb (bool_decide (use_model u = "")) && (str_len (use_model u) <=? 512))
        (InvalidValue "model must be a bounded string");
  _ ← require_nonnegative_int (use_input_tokens u) "input_tokens";
  _ ← require_nonnegative_int (use_output_tokens u) "output_tokens";
  _ ← require_nonnegative_int (use_cache_read_tokens u) "cache_read_tokens";
  _ ← require_nonnegative_int (use_cache_write_tokens u) "cache_write_tokens";
  _ ← require (fl_finite (use_cost u) && negb (fl_ltb (use_cost u) fl_zero))
        (InvalidValue "usage cost must be non-negative and finite");
  _ ← require_nonnegative_int (use_created_at_ms u) "created_at_ms";
  Ok u.

(** [src: travis/coding_agent/operations/types.py:323-333 OperationSnapshot] *)
Record OperationSnapshot : Type := {
  snap_operation : OperationRecord;
  snap_registers : list OperationRegister;
  snap_effects : list EffectRecord;
  snap_usage : list UsageLedgerEntry
}.

#[export] Instance RuntimeLease_eq_dec : EqDecision RuntimeLease.
Proof. solve_decision. Defined.
#[export] Instance OperationRecord_eq_dec : EqDecision OperationRecord.
Proof. solve_decision. Defined.
#[export] Instance OperationRegister_eq_dec : EqDecision OperationRegister.
Proof. solve_decision. Defined.
#[export] Instance EffectRecord_eq_dec : EqDecision EffectRecord.
Proof. solve_decision. Defined.
#[export] Instance UsageLedgerEntry_eq_dec : EqDecision UsageLedgerEntry.
Proof. solve_decision. Defined.

(** Every member whose name looks like a credential holds the redaction mark,
    at every depth. *)
Fixpoint redacted (j : json) : bool :=
  match j with
  | JList l => forallb redacted l
  | JObj kvs =>
      forallb (λ p, (negb (sensitive_key p.1) || bool_decide (p.2 = JStr "[redacted]"))
                    && redacted p.2) kvs
  | _ => true
  end.

(** The redacted form of a value stored under [key]. *)
Definition redacted_under (key : option string) (j : json) : bool :=
  (negb (key_is_sensitive key) || bool_decide (j = JStr "[redacted]")) && redacted j.

(** ** Sanitising *)

Lemma sanitize_sensitive depth key v j :
  key_is_sensitive key = true →
  sanitize_json depth key v = Ok j → j = JStr "[redacted]".
Proof.
  intros Hk. destruct v; cbn; rewrite Hk;
    destruct (REGISTER_MAX_DEPTH <? depth); by intros [=].
Qed.

Lemma try_map_forall_out {E A B} (f : A → result E B) (P : B → Prop) l ys :
  Forall (λ x, ∀ y, f x = Ok y → P y) l → try_map f l = Ok ys → Forall P ys.
Proof.
  intros Hl Hys%try_map_forall2. revert Hl.
  induction Hys as [|x y l ys Hxy _ IH]; intros Hl; [constructor|].
  apply Forall_cons in Hl as [Hx Hl]. constructor; eauto.
Qed.

Lemma Forall_py_sorted {A} (leb : A → A → bool) (P : A → Prop) l :
  Forall P l → Forall P (py_sorted leb l).
Proof. intros Hl. by rewrite py_sorted_perm. Qed.

Lemma key_sorted {B} (l : list (string * B)) :
  py_sorted key_leb (py_sorted key_leb l) = py_sorted key_leb l.
Proof.
  apply py_sorted_id, py_sorted_sorted; [apply key_leb_total|apply key_leb_trans].
Qed.

Ltac sanitize_cases :=
  cbn; destruct (REGISTER_MAX_DEPTH <? _) eqn:?; [done|];
  destruct (key_is_sensitive _) eqn:?.

Lemma sanitize_redacted v : ∀ depth key j,
  sanitize_json depth key v = Ok j → redacted_under key j = true.
Proof.
  induction v as [v Hv|l IH|kvs IH] using pyval_ind'; intros depth key j.
  - unfold redacted_under. destruct v as [| | |f ?| | | |]; try done; sanitize_cases;
      try destruct f; intros Hj; try discriminate Hj; injection Hj as <-; try reflexivity.
  - unfold redacted_under. sanitize_cases; [by intros [= <-]|].
    intros H. result_inv. cbn. apply forallb_forall.
    intros y Hy%list_elem_of_In. revert y Hy. apply Forall_forall.
    eapply try_map_forall_out; [|eassumption].
    eapply Forall_impl; [exact IH|].
    intros x Hx y Hy%Hx. unfold redacted_under in Hy. by cbn in Hy.
  - unfold redacted_under. sanitize_cases; [by intros [= <-]|].
    intros H. result_inv. cbn. apply forallb_forall.
    intros y Hy%list_elem_of_In. revert y Hy. apply Forall_forall, Forall_py_sorted.
    eapply try_map_forall_out; [|eassumption].
    eapply Forall_impl; [exact IH|].
    intros [[k|] x] Hx [k' y] Hy; cbn in *; [|done].
    destruct (sanitize_json _ _ x) eqn:Hs; cbn in Hy; [|done].
    simplify_eq. by apply Hx in Hs.
Qed.

Lemma sanitize_loads v : ∀ depth key j,
  sanitize_json depth key v = Ok j → sanitize_json depth key (loads j) = Ok j.
Proof.
  induction v as [v Hv|l IH|kvs IH] using pyval_ind'; intros depth key j.
  - destruct v as [| | |f ?| | | |]; try done; sanitize_cases; try destruct f;
      intros [= <-]; cbn; by rewrite_known.
  - sanitize_cases; [intros [= <-]; cbn; by rewrite_known|].
    intros H. result_inv. cbn. rewrite_known.
    rewrite try_map_map_id; [done|].
    eapply try_map_forall_out; [|eassumption].
    eapply Forall_impl; [exact IH|]. eauto.
  - sanitize_cases; [intros [= <-]; cbn; by rewrite_known|].
    intros H. result_inv. cbn. rewrite_known.
    rewrite (try_map_map_id _ (λ p : string * json, (KStr p.1, loads p.2))).
    + cbn. by rewrite key_sorted.
    + apply Forall_py_sorted. eapply try_map_forall_out; [|eassumption].
      eapply Forall_impl; [exact IH|].
      intros [[k|] x] Hx [k' y] Hy; cbn in *; [|done].
      destruct (sanitize_json _ _ x) eqn:Hs; cbn in Hy; [|done].
      simplify_eq. apply Hx in Hs. by rewrite Hs.
Qed.

(** ** Inversion of the constructors *)

Lemma require_pattern_ok v p l w : require_pattern v p l = Ok w ↔ p v = true ∧ w = v.
Proof. unfold require_pattern. destruct (p v); naive_solver. Qed.

Lemma require_nonnegative_int_ok v l w :
  require_nonnegative_int v l = Ok w ↔ 0 ≤ v ∧ w = v.
Proof.
  unfold require_nonnegative_int.
  destruct (Z.ltb_spec v 0); split; intros Hv; simplify_eq; intuition (congruence || lia).
Qed.

Lemma check_runtime_same r r' : check_runtime r = Ok r' → r' = r.
Proof. unfold check_runtime. intros H. by result_inv. Qed.

Lemma check_operation_same o o' : check_operation o = Ok o' → o' = o.
Proof. unfold check_operation. intros H. by result_inv. Qed.

Lemma check_effect_same e e' : check_effect e = Ok e' → e' = e.
Proof. unfold check_effect. intros H. by result_inv. Qed.

Lemma check_usage_same u u' : check_usage u = Ok u' → u' = u.
Proof. unfold check_usage. intros H. by result_inv. Qed.

#[export] Hint Resolve check_runtime_same check_operation_same check_effect_same
  check_usage_same : travis.

Lemma make_register_again operation_id key value pc now r :
  make_register operation_id key value pc now = Ok r →
  make_register (reg_operation_id r) (reg_key r) (loads (reg_value r))
    (reg_program_counter r) (reg_updated_at_ms r) = Ok r.
Proof.
  unfold make_register. intros H. result_inv. cbn.
  repeat match goal with H : _ = Ok _ |- _ =>
    first [ apply sanitize_loads in H | idtac ] end.
  by rewrite_known.
Qed.

(** ** Properties *)

(** an operation state changes only out of "running": the validator accepts
    exactly the known states that are either unchanged or reached from
    "running", and returns the requested state. *)
Theorem operation_transition_spec current requested r :
  validate_operation_transition current requested = Ok r ↔
  r = requested ∧ current ∈ OPERATION_STATES ∧ requested ∈ OPERATION_STATES ∧
  (requested = current ∨ current = "running").
Proof.
  unfold validate_operation_transition.
  repeat case_bool_decide; cbn; split; intros Hv; simplify_eq; intuition congruence.
Qed.

(** a stored register never holds a credential-shaped value in the clear:
    every member whose name matches the sensitive pattern, at any depth, and
    the register's own value when its key matches, is the redaction mark; and
    the encoded value is within the 16 KiB limit. *)
Theorem register_redacted operation_id key value pc now r :
  make_register operation_id key value pc now = Ok r →
  redacted_under (Some key) (reg_value r) = true ∧
  utf8_bytes (dumps (reg_value r)) ≤ REGISTER_MAX_BYTES.
Proof.
  unfold make_register. intros H. result_inv. cbn. bool_prop.
  split; [by eapply sanitize_redacted|done].
Qed.

(** A register read back from its row is the register that was written:
    sanitising and encoding the value [json.loads] gives for a stored value
    changes nothing and passes every check again. *)
Theorem register_row_roundtrip operation_id key value pc now r :
  make_register operation_id key value pc now = Ok r →
  make_register (reg_operation_id r) (reg_key r) (loads (reg_value r))
    (reg_program_counter r) (reg_updated_at_ms r) = Ok r.
Proof. apply make_register_again. Qed.

(** ** Witnesses *)

Definition sample_operation_id : string := "op_0123456789abcdef0123456789abcdef".

Definition sample_value : pyval :=
  VDict [(KStr "note", VList [VInt 3; VFloat true "0.5"]); (KStr "Api_Key", VStr "hunter2")].

Definition sample_register : OperationRegister :=
  {| reg_operation_id := sample_operation_id; reg_key := "checkpoint";
     reg_value := JObj [("Api_Key", JStr "[redacted]"); ("note", JList [JInt 3; JFloat "0.5"])];
     reg_program_counter := 4; reg_updated_at_ms := 1000 |}.

Lemma register_redacted_witness :
  redacted_under (Some "checkpoint") (reg_value sample_register) = true ∧
  utf8_bytes (dumps (reg_value sample_register)) ≤ REGISTER_MAX_BYTES.
Proof.
  apply (register_redacted sample_operation_id "checkpoint" sample_value 4 1000 sample_register).
  vm_compute. reflexivity.
Defined.

Lemma register_row_roundtrip_witness :
  make_register sample_operation_id "checkpoint" (loads (reg_value sample_register)) 4 1000 =
  Ok sample_register.
Proof.
  apply (register_row_roundtrip sample_operation_id "checkpoint" sample_value 4 1000 sample_register).
  vm_compute. reflexivity.
Defined.
