(* ===== verification/JournalStore.v ===== *)
(** The operation journal's store (travis/coding_agent/operations/store.py,
    with rows.py, recovery_store.py and inspection_store.py).

    The SQLite database is a record of tables, each a finite map from the
    table's primary key to the typed row; the integrity constraints of the
    schema (primary keys, foreign keys, the unique ordinal) are checks of the
    statements below.  A method is a computation on the store; the database
    part of it runs inside [transaction], which commits or rolls back.  What the
    operating system decides (whether BEGIN and COMMIT succeed, the size of the
    files, whether their mode can be set) is the argument [io]; the random part
    of an identifier and the clock are arguments. *)

From S2P Require Import Prelude Json PyFloat JournalTypes.
Open Scope Z_scope.

(** ** Tables *)

(** [src: travis/coding_agent/operations/store.py:98-201 OperationStore._initialize_schema] *)
Record Db : Type := {
  runtime_leases : gmap string RuntimeLease;
  operations : gmap string OperationRecord;
  registers : gmap (string * string) OperationRegister;
  effects : gmap string EffectRecord;
  usage_ledger : gmap (string * string) UsageLedgerEntry
}.

Definition empty_db : Db :=
  {| runtime_leases := ∅; operations := ∅; registers := ∅; effects := ∅; usage_ledger := ∅ |}.

Definition with_runtimes (f : gmap string RuntimeLease → gmap string RuntimeLease) (d : Db) : Db :=
  {| runtime_leases := f (runtime_leases d); operations := operations d;
     registers := registers d; effects := effects d; usage_ledger := usage_ledger d |}.
Definition with_operations (f : gmap string OperationRecord → gmap string OperationRecord) (d : Db) : Db :=
  {| runtime_leases := runtime_leases d; operations := f (operations d);
     registers := registers d; effects := effects d; usage_ledger := usage_ledger d |}.
Definition with_registers
    (f : gmap (string * string) OperationRegister → gmap (string * string) OperationRegister)
    (d : Db) : Db :=
  {| runtime_leases := runtime_leases d; operations := operations d;
     registers := f (registers d); effects := effects d; usage_ledger := usage_ledger d |}.
Definition with_effects (f : gmap string EffectRecord → gmap string EffectRecord) (d : Db) : Db :=
  {| runtime_leases := runtime_leases d; operations := operations d;
     registers := registers d; effects := f (effects d); usage_ledger := usage_ledger d |}.
Definition with_usage
    (f : gmap (string * string) UsageLedgerEntry → gmap (string * string) UsageLedgerEntry)
    (d : Db) : Db :=
  {| runtime_leases := runtime_leases d; operations := operations d;
     registers := registers d; effects := effects d; usage_ledger := f (usage_ledger d) |}.

(** ** Row decoding: rows.py re-runs the dataclass checks on what it reads *)

(** [src: travis/coding_agent/operations/rows.py:17-25 runtime_from_row] *)
Definition runtime_from_row (row : RuntimeLease) : result store_error RuntimeLease :=
  check_runtime row.

(** [src: travis/coding_agent/operations/rows.py:28-40 operation_from_row] *)
Definition operation_from_row (row : OperationRecord) : result store_error OperationRecord :=
  check_operation row.

(** [src: travis/coding_agent/operations/rows.py:43-50 register_from_row] *)
Definition register_from_row (row : OperationRegister) : result store_error OperationRegister :=
  make_register (reg_operation_id row) (reg_key row) (loads (reg_value row))
    (reg_program_counter row) (reg_updated_at_ms row).

(** [src: travis/coding_agent/operations/rows.py:53-68 effect_from_row] *)
Definition effect_from_row (row : EffectRecord) : result store_error EffectRecord :=
  check_effect row.

(** [src: travis/coding_agent/operations/rows.py:71-83 usage_from_row] *)
Definition usage_from_row (row : UsageLedgerEntry) : result store_error UsageLedgerEntry :=
  check_usage row.

(** [src: travis/coding_agent/operations/rows.py:86-97 usage_identity], compared
    field by field as Python compares the tuples. *)
Definition usage_identity_eqb (a b : UsageLedgerEntry) : bool :=
  bool_decide (use_operation_id a = use_operation_id b) &&
  bool_decide (use_source_key a = use_source_key b) &&
  bool_decide (use_provider a = use_provider b) &&
  bool_decide (use_model a = use_model b) &&
  (use_input_tokens a =? use_input_tokens b) &&
  (use_output_tokens a =? use_output_tokens b) &&
  (use_cache_read_tokens a =? use_cache_read_tokens b) &&
  (use_cache_write_tokens a =? use_cache_write_tokens b) &&
  fl_eqb (use_cost a) (use_cost b).

(** ** Statements with the schema's constraints *)

Definition db_m (A : Type) : Type := st Db store_error A.

Definition insert_runtime (r : RuntimeLease) : db_m unit := d ← st_get;
  _ ← st_require (bool_decide (runtime_leases d !! rt_runtime_id r = None)) SqliteDatabaseError;
  st_put (with_runtimes <[rt_runtime_id r := r]> d).

Definition insert_operation (o : OperationRecord) : db_m unit := d ← st_get;
  _ ← st_require (bool_decide (operations d !! op_operation_id o = None) &&
                  bool_decide (is_Some (runtime_leases d !! op_runtime_id o)))
        SqliteDatabaseError;
  st_put (with_operations <[op_operation_id o := o]> d).

(** The rows of one operation. *)
Definition effects_of (d : Db) (operation_id : string) : gmap string EffectRecord :=
  filter (λ kv, eff_operation_id kv.2 = operation_id) (effects d).
Definition registers_of (d : Db) (operation_id : string) : gmap (string * string) OperationRegister :=
  filter (λ kv, reg_operation_id kv.2 = operation_id) (registers d).
Definition usage_of (d : Db) (operation_id : string) : gmap (string * string) UsageLedgerEntry :=
  filter (λ kv, use_operation_id kv.2 = operation_id) (usage_ledger d).

Definition rows {K V} `{Countable K} (m : gmap K V) : list V := (map_to_list m).*2.

Definition insert_effect (e : EffectRecord) : db_m unit := d ← st_get;
  _ ← st_require (bool_decide (effects d !! eff_effect_id e = None) &&
                  bool_decide (is_Some (operations d !! eff_operation_id e)) &&
                  bool_decide (is_Some (runtime_leases d !! eff_runtime_id e)) &&
                  bool_decide (eff_ordinal e ∉
                    map eff_ordinal (rows (effects_of d (eff_operation_id e)))))
        SqliteDatabaseError;
  st_put (with_effects <[eff_effect_id e := e]> d).

Definition insert_usage (u : UsageLedgerEntry) : db_m unit := d ← st_get;
  _ ← st_require (bool_decide (usage_ledger d !! (use_operation_id u, use_source_key u) = None) &&
                  bool_decide (is_Some (operations d !! use_operation_id u)))
        SqliteDatabaseError;
  st_put (with_usage <[(use_operation_id u, use_source_key u) := u]> d).

(** [src: travis/coding_agent/operations/store.py:405-427 OperationStore._upsert_register] *)
Definition upsert_register (r : OperationRegister) : db_m unit := d ← st_get;
  _ ← st_require (bool_decide (is_Some (operations d !! reg_operation_id r))) SqliteDatabaseError;
  st_put (with_registers <[(reg_operation_id r, reg_key r) := r]> d).

(** [DELETE FROM operations], with the cascades of the schema. *)
Definition delete_operations (ids : list string) (d : Db) : Db :=
  {| runtime_leases := runtime_leases d;
     operations := filter (λ kv, kv.1 ∉ ids) (operations d);
     registers := filter (λ kv, reg_operation_id kv.2 ∉ ids) (registers d);
     effects := filter (λ kv, eff_operation_id kv.2 ∉ ids) (effects d);
     usage_ledger := filter (λ kv, use_operation_id kv.2 ∉ ids) (usage_ledger d) |}.

(** [src: travis/coding_agent/operations/store.py:705-712 OperationStore._runtime_row] *)
Definition runtime_row (runtime_id : string) : db_m RuntimeLease := d ← st_get;
  match runtime_leases d !! runtime_id with
  | None => mthrow OperationStoreConflict
  | Some row => mret row
  end.

(** [src: travis/coding_agent/operations/store.py:714-721 OperationStore._operation_row] *)
Definition operation_row (operation_id : string) : db_m OperationRecord := d ← st_get;
  match operations d !! operation_id with
  | None => mthrow OperationStoreConflict
  | Some row => mret row
  end.

(** ** The store and its transactions *)

(** [src: travis/coding_agent/operations/store.py:64-85 OperationStore.__init__] *)
Record OperationStore : Type := {
  max_bytes : Z;
  max_registers_per_operation : Z;
  max_effects_per_operation : Z;
  store_closed : bool;
  store_db : Db
}.

Definition set_db (d : Db) (s : OperationStore) : OperationStore :=
  {| max_bytes := max_bytes s; max_registers_per_operation := max_registers_per_operation s;
     max_effects_per_operation := max_effects_per_operation s;
     store_closed := store_closed s; store_db := d |}.

(** [src: travis/coding_agent/operations/store.py:65-96 OperationStore.__init__]
    over the database [d] found at the path. *)
Definition open_store (bytes regs effs : Z) (d : Db) : result store_error OperationStore :=
  _ ← require (negb (bytes <=? 0)) (InvalidValue "max_bytes must be a positive integer");
  _ ← require (negb (regs <=? 0))
        (InvalidValue "max_registers_per_operation must be a positive integer");
  _ ← require (negb (effs <=? 0))
        (InvalidValue "max_effects_per_operation must be a positive integer");
  Ok {| max_bytes := bytes; max_registers_per_operation := regs;
        max_effects_per_operation := effs; store_closed := false; store_db := d |}.

Definition store_m (A : Type) : Type := st OperationStore store_error A.

Record tx_io : Type := {
  begin_ok : bool;
  footprint : Z;
  commit_ok : bool;
  secure_ok : bool
}.

Definition io_ok : tx_io :=
  {| begin_ok := true; footprint := 0; commit_ok := true; secure_ok := true |}.

(** [src: travis/coding_agent/operations/store.py:203-238 OperationStore._transaction]
    with [_require_open] and [_check_capacity]: the footprint test runs before
    the body; an exception of the body rolls the database back and is
    re-raised, a driver error as [OperationStoreUnavailable]; the file modes
    are set after the commit. *)
Definition transaction {A} (io : tx_io) (body : db_m A) : store_m A := λ s,
  if store_closed s then (Err OperationStoreUnavailable, s)
  else if negb (begin_ok io) then (Err OperationStoreUnavailable, s)
  else if max_bytes s <=? footprint io then (Err OperationStoreCapacity, s)
  else match body (store_db s) with
  | (Ok a, d) =>
      if negb (commit_ok io) then (Err OperationStoreUnavailable, s)
      else if secure_ok io then (Ok a, set_db d s)
      else (Err OsError, set_db d s)
  | (Err SqliteDatabaseError, _) => (Err OperationStoreUnavailable, s)
  | (Err e, _) => (Err e, s)
  end.

(** ** Runtime leases *)

Definition set_runtime_times (heartbeat : Z) (closed : option Z) (r : RuntimeLease) : RuntimeLease :=
  {| rt_runtime_id := rt_runtime_id r; rt_pid := rt_pid r;
     rt_process_create_time := rt_process_create_time r;
     rt_started_at_ms := rt_started_at_ms r; rt_heartbeat_at_ms := heartbeat;
     rt_closed_at_ms := closed |}.

(** [src: travis/coding_agent/operations/store.py:240-265 OperationStore.open_runtime] *)
Definition open_runtime (io : tx_io) (runtime_id : string) (pid : Z) (create_time : float64)
    (now_ms : Z) : store_m RuntimeLease :=
  candidate ← st_lift (check_runtime
    {| rt_runtime_id := runtime_id; rt_pid := pid; rt_process_create_time := create_time;
       rt_started_at_ms := now_ms; rt_heartbeat_at_ms := now_ms; rt_closed_at_ms := None |});
  transaction io (d ← st_get;
    match runtime_leases d !! runtime_id with
    | Some row =>
        existing ← st_lift (runtime_from_row row);
        if negb (rt_pid existing =? pid) ||
           negb (fl_eqb (rt_process_create_time existing) create_time) ||
           bool_decide (rt_closed_at_ms existing ≠ None)
        then mthrow OperationStoreConflict
        else mret existing
    | None => _ ← insert_runtime candidate; mret candidate
    end).

(** [src: travis/coding_agent/operations/store.py:267-284 OperationStore.heartbeat_runtime] *)
Definition heartbeat_runtime (io : tx_io) (runtime_id : string) (now_ms : Z)
    : store_m RuntimeLease :=
  transaction io (
    row ← runtime_row runtime_id;
    current ← st_lift (runtime_from_row row);
    if bool_decide (rt_closed_at_ms current ≠ None) || (now_ms <? rt_heartbeat_at_ms current)
    then mthrow OperationStoreConflict
    else
      _ ← st_modify (with_runtimes
            (alter (set_runtime_times now_ms (rt_closed_at_ms row)) runtime_id));
      st_lift (check_runtime (set_runtime_times now_ms (rt_closed_at_ms current) current))).

(** [src: travis/coding_agent/operations/store.py:286-304 OperationStore.close_runtime] *)
Definition close_runtime (io : tx_io) (runtime_id : string) (now_ms : Z)
    : store_m RuntimeLease :=
  transaction io (
    row ← runtime_row runtime_id;
    current ← st_lift (runtime_from_row row);
    if bool_decide (rt_closed_at_ms current ≠ None) then mret current
    else if now_ms <? rt_heartbeat_at_ms current then mthrow OperationStoreConflict
    else
      _ ← st_modify (with_runtimes (alter (set_runtime_times now_ms (Some now_ms)) runtime_id));
      st_lift (check_runtime (set_runtime_times now_ms (Some now_ms) current))).

(** ** Operations and registers *)

(** [src: travis/coding_agent/operations/store.py:306-338 OperationStore.create_operation].
    [hex] is [uuid.uuid4().hex]. *)
Definition create_operation (io : tx_io) (hex runtime_id session_fingerprint kind : string)
    (now_ms : Z) : store_m OperationRecord :=
  operation ← st_lift (check_operation
    {| op_operation_id := "op_" +:+ hex; op_runtime_id := runtime_id;
       op_session_fingerprint := session_fingerprint; op_kind := kind;
       op_state := "running"; op_program_counter := 0;
       op_created_at_ms := now_ms; op_updated_at_ms := now_ms;
       op_settled_at_ms := None; op_outcome_code := None |});
  transaction io (
    _ ← runtime_row runtime_id;
    _ ← insert_operation operation;
    mret operation).

(** [{**registers, "phase": phase}]: an existing key keeps its place. *)
Fixpoint dict_set {V} (key : string) (value : V) (l : list (string * V)) : list (string * V) :=
  match l with
  | [] => [(key, value)]
  | (k, v) :: l' => if bool_decide (k = key) then (k, value) :: l'
                    else (k, v) :: dict_set key value l'
  end.

Definition set_progress (counter now_ms : Z) (o : OperationRecord) : OperationRecord :=
  {| op_operation_id := op_operation_id o; op_runtime_id := op_runtime_id o;
     op_session_fingerprint := op_session_fingerprint o; op_kind := op_kind o;
     op_state := op_state o; op_program_counter := counter;
     op_created_at_ms := op_created_at_ms o; op_updated_at_ms := now_ms;
     op_settled_at_ms := op_settled_at_ms o; op_outcome_code := op_outcome_code o |}.

Definition register_keys (d : Db) (operation_id : string) : gset string :=
  list_to_set (map reg_key (rows (registers_of d operation_id))).

(** [src: travis/coding_agent/operations/store.py:340-381 OperationStore.advance] *)
Definition advance (io : tx_io) (operation_id phase : string) (regs : list (string * pyval))
    (now_ms : Z) : store_m OperationRecord :=
  let pending := dict_set "phase" (VStr phase) regs in
  _ ← st_lift (try_iter (λ kv,
        _ ← make_register operation_id kv.1 kv.2 0 now_ms; Ok tt) pending);
  s ← st_get;
  transaction io (
    row ← operation_row operation_id;
    current ← st_lift (operation_from_row row);
    if bool_decide (op_state current ≠ "running") || (now_ms <? op_updated_at_ms current)
    then mthrow OperationStoreConflict
    else
      let counter := op_program_counter current + 1 in
      d ← st_get;
      _ ← st_require
            (Z.of_nat (size (register_keys d operation_id ∪ list_to_set pending.*1))
             <=? max_registers_per_operation s) OperationStoreCapacity;
      _ ← st_iter (λ kv,
            item ← st_lift (make_register operation_id kv.1 kv.2 counter now_ms);
            upsert_register item) pending;
      _ ← st_modify (with_operations (alter (set_progress counter now_ms) operation_id));
      st_lift (check_operation (set_progress counter now_ms current))).

(** [src: travis/coding_agent/operations/store.py:383-403 OperationStore.set_register] *)
Definition set_register (io : tx_io) (operation_id key : string) (value : pyval) (now_ms : Z)
    : store_m OperationRegister :=
  s ← st_get;
  transaction io (
    row ← operation_row operation_id;
    operation ← st_lift (operation_from_row row);
    d ← st_get;
    _ ← match registers d !! (operation_id, key) with
        | Some _ => mret tt
        | None =>
            st_require (negb (max_registers_per_operation s <=?
                              Z.of_nat (size (registers_of d operation_id))))
              OperationStoreCapacity
        end;
    item ← st_lift (make_register operation_id key value (op_program_counter operation) now_ms);
    _ ← upsert_register item;
    mret item).

(** ** Effects *)

Definition max_ordinal (d : Db) (operation_id : string) : Z :=
  foldr Z.max 0 (map eff_ordinal (rows (effects_of d operation_id))).

(** [src: travis/coding_agent/operations/store.py:429-478 OperationStore.begin_effect] *)
Definition begin_effect (io : tx_io) (hex operation_id kind name fingerprint : string)
    (now_ms : Z) (effect_classes : list string) : store_m EffectRecord :=
  s ← st_get;
  transaction io (
    row ← operation_row operation_id;
    operation ← st_lift (operation_from_row row);
    _ ← st_require (bool_decide (op_state operation = "running")) OperationStoreConflict;
    d ← st_get;
    _ ← st_require (negb (max_effects_per_operation s <=?
                          Z.of_nat (size (effects_of d operation_id)))) OperationStoreCapacity;
    effect ← st_lift (check_effect
      {| eff_effect_id := "effect_" +:+ hex; eff_operation_id := operation_id;
         eff_runtime_id := op_runtime_id operation;
         eff_ordinal := max_ordinal d operation_id + 1;
         eff_kind := kind; eff_name := name; eff_fingerprint := fingerprint;
         eff_state := "intent"; eff_replay_policy := "never";
         eff_created_at_ms := now_ms; eff_settled_at_ms := None; eff_outcome_code := None;
         eff_effect_classes := effect_classes |});
    _ ← insert_effect effect;
    mret effect).

Definition set_effect_outcome (state code : string) (now_ms : Z) (e : EffectRecord) : EffectRecord :=
  {| eff_effect_id := eff_effect_id e; eff_operation_id := eff_operation_id e;
     eff_runtime_id := eff_runtime_id e; eff_ordinal := eff_ordinal e;
     eff_kind := eff_kind e; eff_name := eff_name e; eff_fingerprint := eff_fingerprint e;
     eff_state := state; eff_replay_policy := eff_replay_policy e;
     eff_created_at_ms := eff_created_at_ms e; eff_settled_at_ms := Some now_ms;
     eff_outcome_code := Some code; eff_effect_classes := eff_effect_classes e |}.

(** [src: travis/coding_agent/operations/store.py:480-518 OperationStore.settle_effect] *)
Definition settle_effect (io : tx_io) (effect_id state outcome_code : string) (now_ms : Z)
    : store_m EffectRecord :=
  transaction io (
    d ← st_get;
    match effects d !! effect_id with
    | None => mthrow OperationStoreConflict
    | Some row =>
        current ← st_lift (effect_from_row row);
        if bool_decide (eff_state current ≠ "intent") then
          if bool_decide (eff_state current = state) &&
             bool_decide (eff_outcome_code current = Some outcome_code)
          then mret current
          else mthrow OperationStoreConflict
        else
          _ ← st_lift (validate_effect_transition (eff_state current) state);
          settled ← st_lift (check_effect (set_effect_outcome state outcome_code now_ms current));
          _ ← st_modify (with_effects
                (alter (set_effect_outcome state outcome_code now_ms) effect_id));
          mret settled
    end).

(** ** Usage *)

(** [src: travis/coding_agent/operations/store.py:520-571 OperationStore.record_usage] *)
Definition record_usage (io : tx_io) (u : UsageLedgerEntry) : store_m UsageLedgerEntry :=
  candidate ← st_lift (check_usage u);
  transaction io (
    _ ← operation_row (use_operation_id candidate);
    d ← st_get;
    match usage_ledger d !! (use_operation_id candidate, use_source_key candidate) with
    | Some row =>
        existing ← st_lift (usage_from_row row);
        if usage_identity_eqb existing candidate then mret existing
        else mthrow OperationStoreConflict
    | None => _ ← insert_usage candidate; mret candidate
    end).

(** ** Settling, reading, recovering and pruning operations *)

Definition set_operation_outcome (state code : string) (now_ms : Z) (o : OperationRecord)
    : OperationRecord :=
  {| op_operation_id := op_operation_id o; op_runtime_id := op_runtime_id o;
     op_session_fingerprint := op_session_fingerprint o; op_kind := op_kind o;
     op_state := state; op_program_counter := op_program_counter o;
     op_created_at_ms := op_created_at_ms o; op_updated_at_ms := now_ms;
     op_settled_at_ms := Some now_ms; op_outcome_code := Some code |}.

(** [src: travis/coding_agent/operations/store.py:573-603 OperationStore.settle_operation] *)
Definition settle_operation (io : tx_io) (operation_id state outcome_code : string)
    (now_ms : Z) : store_m OperationRecord :=
  transaction io (
    row ← operation_row operation_id;
    current ← st_lift (operation_from_row row);
    if bool_decide (op_state current ≠ "running") then
      if bool_decide (op_state current = state) &&
         bool_decide (op_outcome_code current = Some outcome_code)
      then mret current
      else mthrow OperationStoreConflict
    else
      _ ← st_lift (validate_operation_transition (op_state current) state);
      settled ← st_lift (check_operation (set_operation_outcome state outcome_code now_ms current));
      _ ← st_modify (with_operations
            (alter (set_operation_outcome state outcome_code now_ms) operation_id));
      mret settled).

(** [src: travis/coding_agent/operations/store.py:615-638 OperationStore._snapshot_from_row] *)
Definition snapshot_from_row (d : Db) (row : OperationRecord)
    : result store_error OperationSnapshot :=
  let id := op_operation_id row in
  regs ← try_map register_from_row
    (py_sorted (λ a b, String.leb (reg_key a) (reg_key b)) (rows (registers_of d id)));
  effs ← try_map effect_from_row
    (py_sorted (λ a b, eff_ordinal a <=? eff_ordinal b) (rows (effects_of d id)));
  usage ← try_map usage_from_row
    (py_sorted (λ a b, String.leb (use_source_key a) (use_source_key b)) (rows (usage_of d id)));
  operation ← operation_from_row row;
  Ok {| snap_operation := operation; snap_registers := regs; snap_effects := effs;
        snap_usage := usage |}.

(** [src: travis/coding_agent/operations/store.py:605-613 OperationStore.snapshot] *)
Definition snapshot (operation_id : string) (s : OperationStore)
    : result store_error (option OperationSnapshot) :=
  if store_closed s then Err OperationStoreUnavailable
  else match operations (store_db s) !! operation_id with
  | None => Ok None
  | Some row => snap ← snapshot_from_row (store_db s) row; Ok (Some snap)
  end.

Definition created_leb (a b : OperationRecord) : bool :=
  (op_created_at_ms a <? op_created_at_ms b) ||
  ((op_created_at_ms a =? op_created_at_ms b) &&
   String.leb (op_operation_id a) (op_operation_id b)).

Definition in_session (session_fingerprint : option string) (o : OperationRecord) : bool :=
  match session_fingerprint with
  | Some f => bool_decide (op_session_fingerprint o = f)
  | None => true
  end.

(** [src: travis/coding_agent/operations/inspection_store.py:8-30 load_operations]
    ([OperationStore.list_operations]). *)
Definition list_operations (session_fingerprint : option string) (limit : option Z)
    (s : OperationStore) : result store_error (list OperationSnapshot) :=
  _ ← match limit with
      | Some n => require (negb (n <? 1)) (InvalidValue "limit must be a positive integer")
      | None => Ok tt
      end;
  if store_closed s then Err OperationStoreUnavailable
  else
    let selected := List.filter (in_session session_fingerprint) (rows (operations (store_db s))) in
    let ordered := py_sorted created_leb selected in
    try_map (snapshot_from_row (store_db s))
      match limit with
      | None => ordered
      | Some n => take (Z.to_nat n) (reverse ordered)
      end.

(** [src: travis/coding_agent/operations/store.py:648-660 OperationStore.list_uncertain] *)
Definition list_uncertain (session_fingerprint : option string) (s : OperationStore)
    : result store_error (list OperationSnapshot) :=
  if store_closed s then Err OperationStoreUnavailable
  else
    let selected := List.filter
      (λ o, bool_decide (op_state o = "uncertain") && in_session session_fingerprint o)
      (rows (operations (store_db s))) in
    try_map (snapshot_from_row (store_db s)) (py_sorted created_leb selected).

Definition started_leb (a b : RuntimeLease) : bool :=
  (rt_started_at_ms a <? rt_started_at_ms b) ||
  ((rt_started_at_ms a =? rt_started_at_ms b) &&
   String.leb (rt_runtime_id a) (rt_runtime_id b)).

(** The runtimes that own an effect still in state "intent". *)
Definition has_intent (d : Db) (runtime_id : string) : bool :=
  existsb (λ e, bool_decide (eff_runtime_id e = runtime_id) && bool_decide (eff_state e = "intent"))
    (rows (effects d)).

(** [src: travis/coding_agent/operations/recovery_store.py:9-19 load_recovery_leases] *)
Definition recovery_leases (s : OperationStore) : result store_error (list RuntimeLease) :=
  if store_closed s then Err OperationStoreUnavailable
  else try_map runtime_from_row
    (py_sorted started_leb
      (List.filter (λ r, has_intent (store_db s) (rt_runtime_id r))
        (rows (runtime_leases (store_db s))))).

Definition lost_effect (ids : list string) (e : EffectRecord) : bool :=
  bool_decide (eff_state e = "intent") && bool_decide (eff_runtime_id e ∈ ids).

Definition lost_operation (ids : list string) (d : Db) (o : OperationRecord) : bool :=
  bool_decide (op_state o = "running") && bool_decide (op_runtime_id o ∈ ids) &&
  existsb (λ e, bool_decide (eff_operation_id e = op_operation_id o) &&
                bool_decide (eff_state e = "uncertain")) (rows (effects d)).

Definition count_rows {K V} `{Countable K} (p : V → bool) (m : gmap K V) : Z :=
  Z.of_nat (length (List.filter p (rows m))).

(** [src: travis/coding_agent/operations/recovery_store.py:22-48 claim_uncertain_runtimes]
    ([OperationStore.mark_runtimes_uncertain]): the numbers of effects and of
    operations changed. *)
Definition mark_runtimes_uncertain (io : tx_io) (runtime_ids : list string) (now_ms : Z)
    : store_m (Z * Z) :=
  if bool_decide (runtime_ids = []) then mret (0, 0)
  else transaction io (
    d ← st_get;
    let n_effects := count_rows (lost_effect runtime_ids) (effects d) in
    _ ← st_put (with_effects (fmap (λ e,
          if lost_effect runtime_ids e
          then set_effect_outcome "uncertain" "runtime_lost" now_ms e else e)) d);
    d ← st_get;
    let n_operations := count_rows (lost_operation runtime_ids d) (operations d) in
    _ ← st_put (with_operations (fmap (λ o,
          if lost_operation runtime_ids d o
          then set_operation_outcome "uncertain" "runtime_lost" now_ms o else o)) d);
    mret (n_effects, n_operations)).

Definition TERMINAL_OPERATION_STATES : list string := ["settled"; "failed"; "cancelled"].

Definition prunable (cutoff_ms : Z) (o : OperationRecord) : bool :=
  bool_decide (op_state o ∈ TERMINAL_OPERATION_STATES) &&
  match op_settled_at_ms o with Some t => t <? cutoff_ms | None => false end.

(** The numbers of operations, registers, effects and usage entries deleted. *)
Definition prune_counts : Type := Z * Z * Z * Z.

(** [src: travis/coding_agent/operations/store.py:673-703 OperationStore.prune_settled_before] *)
Definition prune_settled_before (io : tx_io) (cutoff_ms : Z) : store_m prune_counts :=
  _ ← st_lift (require (negb (cutoff_ms <? 0))
        (InvalidValue "cutoff_ms must be a non-negative integer"));
  transaction io (
    d ← st_get;
    let ids := map op_operation_id (List.filter (prunable cutoff_ms) (rows (operations d))) in
    if bool_decide (ids = []) then mret (0, 0, 0, 0)
    else
      let counts := (Z.of_nat (length ids),
        count_rows (λ r, bool_decide (reg_operation_id r ∈ ids)) (registers d),
        count_rows (λ e, bool_decide (eff_operation_id e ∈ ids)) (effects d),
        count_rows (λ u, bool_decide (use_operation_id u ∈ ids)) (usage_ledger d)) in
      _ ← st_put (delete_operations ids d);
      mret counts).

(** [src: travis/coding_agent/operations/store.py:723-732 OperationStore.close] *)
Definition close_store (s : OperationStore) : OperationStore :=
  {| max_bytes := max_bytes s; max_registers_per_operation := max_registers_per_operation s;
     max_effects_per_operation := max_effects_per_operation s;
     store_closed := true; store_db := store_db s |}.
