(* ===== verification/JournalStoreSpec.v ===== *)
(** What the journal's store promises: the integrity invariant of its database
    under every sequence of calls, the atomicity of failed calls, the finality
    of settlements, and what recovery and pruning change. *)

From S2P Require Import Prelude Json PyFloat JournalTypes JournalStore.
Open Scope Z_scope.

(** ** Calls: one constructor per method that changes the store *)

Inductive call : Type :=
  | COpenRuntime (runtime_id : string) (pid : Z) (create_time : float64) (now_ms : Z)
  | CHeartbeatRuntime (runtime_id : string) (now_ms : Z)
  | CCloseRuntime (runtime_id : string) (now_ms : Z)
  | CCreateOperation (hex runtime_id session_fingerprint kind : string) (now_ms : Z)
  | CAdvance (operation_id phase : string) (regs : list (string * pyval)) (now_ms : Z)
  | CSetRegister (operation_id key : string) (value : pyval) (now_ms : Z)
  | CBeginEffect (hex operation_id kind name fingerprint : string) (now_ms : Z)
      (effect_classes : list string)
  | CSettleEffect (effect_id state outcome_code : string) (now_ms : Z)
  | CRecordUsage (u : UsageLedgerEntry)
  | CSettleOperation (operation_id state outcome_code : string) (now_ms : Z)
  | CMarkUncertain (runtime_ids : list string) (now_ms : Z)
  | CPrune (cutoff_ms : Z)
  | CClose.

Definition discard {A} (m : store_m A) : store_m unit := _ ← m; mret tt.

Definition run_call (io : tx_io) (c : call) : store_m unit :=
  match c with
  | COpenRuntime r p t n => discard (open_runtime io r p t n)
  | CHeartbeatRuntime r n => discard (heartbeat_runtime io r n)
  | CCloseRuntime r n => discard (close_runtime io r n)
  | CCreateOperation h r f k n => discard (create_operation io h r f k n)
  | CAdvance o p rs n => discard (advance io o p rs n)
  | CSetRegister o k v n => discard (set_register io o k v n)
  | CBeginEffect h o k nm f n cs => discard (begin_effect io h o k nm f n cs)
  | CSettleEffect e s c n => discard (settle_effect io e s c n)
  | CRecordUsage u => discard (record_usage io u)
  | CSettleOperation o s c n => discard (settle_operation io o s c n)
  | CMarkUncertain ids n => discard (mark_runtimes_uncertain io ids n)
  | CPrune n => discard (prune_settled_before io n)
  | CClose => st_modify close_store
  end.

(** Recovery reads a clock that is not behind the creation times of the rows it
    claims. *)
Definition clock_ok (c : call) (d : Db) : Prop :=
  match c with
  | CMarkUncertain ids n =>
      map_Forall (λ _ e, eff_runtime_id e ∈ ids → eff_created_at_ms e ≤ n) (effects d) ∧
      map_Forall (λ _ o, op_runtime_id o ∈ ids → op_created_at_ms o ≤ n) (operations d)
  | _ => True
  end.

(** The stores a program can reach by calls, whatever their outcomes. *)
Inductive reachable (s0 : OperationStore) : OperationStore → Prop :=
  | reachable_refl : reachable s0 s0
  | reachable_call s io c :
      reachable s0 s → clock_ok c (store_db s) → reachable s0 (run_call io c s).2.

(** ** The invariant *)

Definition operation_ok (o : OperationRecord) : Prop :=
  check_operation o = Ok o ∧
  (op_state o ≠ "running" → is_Some (op_settled_at_ms o) ∧ is_Some (op_outcome_code o)).

Definition effect_ok (e : EffectRecord) : Prop :=
  check_effect e = Ok e ∧
  (eff_state e ≠ "intent" → is_Some (eff_settled_at_ms e) ∧ is_Some (eff_outcome_code e)).

Record db_inv (mr me : Z) (d : Db) : Prop := {
  inv_runtimes : map_Forall (λ k r, rt_runtime_id r = k ∧ check_runtime r = Ok r)
    (runtime_leases d);
  inv_operations : map_Forall (λ k o, op_operation_id o = k ∧ operation_ok o ∧
    is_Some (runtime_leases d !! op_runtime_id o)) (operations d);
  inv_registers : map_Forall (λ k r, k = (reg_operation_id r, reg_key r) ∧
    register_from_row r = Ok r ∧ is_Some (operations d !! reg_operation_id r)) (registers d);
  inv_effects : map_Forall (λ k e, eff_effect_id e = k ∧ effect_ok e ∧
    op_runtime_id <$> operations d !! eff_operation_id e = Some (eff_runtime_id e)) (effects d);
  inv_usage : map_Forall (λ k u, k = (use_operation_id u, use_source_key u) ∧
    check_usage u = Ok u ∧ is_Some (operations d !! use_operation_id u)) (usage_ledger d);
  inv_ordinals : ∀ id, map eff_ordinal (rows (effects_of d id)) ≡ₚ
    seqZ 1 (Z.of_nat (size (effects_of d id)));
  inv_caps : ∀ id, Z.of_nat (size (registers_of d id)) ≤ mr ∧
    Z.of_nat (size (effects_of d id)) ≤ me
}.

Definition store_inv (s : OperationStore) : Prop :=
  db_inv (max_registers_per_operation s) (max_effects_per_operation s) (store_db s).

(** ** Lemmas on maps *)

Lemma alter_known `{Countable K} {V} (f : V → V) k (m : gmap K V) x :
  m !! k = Some x → alter f k m = <[k := f x]> m.
Proof.
  intros Hk. apply map_eq. intros j. destruct (decide (j = k)) as [->|Hj].
  - by rewrite lookup_alter_eq, lookup_insert_eq, Hk.
  - by rewrite lookup_alter_ne, lookup_insert_ne by done.
Qed.

Lemma rows_insert `{Countable K} {V} k (x : V) (m : gmap K V) :
  m !! k = None → rows (<[k := x]> m) ≡ₚ x :: rows m.
Proof. intros Hk. unfold rows. by rewrite map_to_list_insert. Qed.

Lemma elem_of_rows `{Countable K} {V} (x : V) (m : gmap K V) :
  x ∈ rows m ↔ ∃ k, m !! k = Some x.
Proof.
  unfold rows. rewrite list_elem_of_fmap. split.
  - intros ([k y] & -> & Hy). exists k. by apply elem_of_map_to_list.
  - intros (k & Hk). exists (k, x). split; [done|]. by apply elem_of_map_to_list.
Qed.

Lemma rows_fmap `{Countable K} {V W} (f : V → W) (m : gmap K V) :
  rows (f <$> m) ≡ₚ map f (rows m).
Proof.
  unfold rows. rewrite map_to_list_fmap.
  induction (map_to_list m) as [|[k x] l IH]; cbn; [done|]. by rewrite IH.
Qed.

Lemma rows_length `{Countable K} {V} (m : gmap K V) : length (rows m) = size m.
Proof. unfold rows. by rewrite length_fmap, length_map_to_list. Qed.

Lemma map_Forall_insert_weak `{Countable K} {V} (P : K → V → Prop) k x (m : gmap K V) :
  P k x → map_Forall P m → map_Forall P (<[k := x]> m).
Proof. intros. by apply map_Forall_insert_2. Qed.

Lemma is_Some_insert `{Countable K} {V} k j (x : V) (m : gmap K V) :
  is_Some (m !! j) → is_Some (<[k := x]> m !! j).
Proof. intros. by apply lookup_insert_is_Some'; right. Qed.

(** ** Ordinals and counts of one operation's effects *)

Definition effect_shape (e : EffectRecord) : string * Z := (eff_operation_id e, eff_ordinal e).

Lemma effects_of_shape d id :
  eff_ordinal <$> effects_of d id =
  snd <$> filter (λ kw : string * (string * Z), kw.2.1 = id) (effect_shape <$> effects d).
Proof.
  unfold effects_of. apply map_eq. intros k.
  rewrite !lookup_fmap, !map_lookup_filter, lookup_fmap.
  destruct (effects d !! k) as [x|]; cbn; [|done]. repeat case_guard; done.
Qed.

Lemma ordinals_shape d d' id :
  effect_shape <$> effects d = effect_shape <$> effects d' →
  map eff_ordinal (rows (effects_of d' id)) ≡ₚ map eff_ordinal (rows (effects_of d id)) ∧
  size (effects_of d' id) = size (effects_of d id).
Proof.
  intros Hs. assert (eff_ordinal <$> effects_of d id = eff_ordinal <$> effects_of d' id) as Ho.
  { by rewrite !effects_of_shape, Hs. }
  split.
  - by rewrite <- !rows_fmap, Ho.
  - rewrite <- (map_size_fmap eff_ordinal (effects_of d id)), Ho. by rewrite map_size_fmap.
Qed.

Lemma seqZ_one m : seqZ m 1 = [m].
Proof. done. Qed.

Lemma max_seqZ n : foldr Z.max 0 (seqZ 1 (Z.of_nat n)) = Z.of_nat n.
Proof.
  induction n as [|n IH]; [done|].
  rewrite Nat2Z.inj_succ, <- Z.add_1_r, seqZ_app by lia.
  rewrite seqZ_one, foldr_app. cbn. rewrite Z.max_l by lia.
  assert (∀ l a, 0 ≤ a → foldr Z.max a l = Z.max (foldr Z.max 0 l) a) as Hm.
  { induction l as [|x l IHl]; intros a Ha; cbn; [lia|]. rewrite IHl by done. lia. }
  rewrite Hm, IH by lia. lia.
Qed.

Lemma foldr_max_perm l l' : l ≡ₚ l' → foldr Z.max 0 l = foldr Z.max 0 l'.
Proof. induction 1; cbn; lia. Qed.

Section invariant.
Variables mr me : Z.

Lemma inv_max_ordinal d id :
  db_inv mr me d → max_ordinal d id = Z.of_nat (size (effects_of d id)).
Proof.
  intros Hd. unfold max_ordinal.
  rewrite (foldr_max_perm _ _ (inv_ordinals _ _ _ Hd id)). apply max_seqZ.
Qed.

(** ** Each kind of update keeps the invariant *)

Lemma inv_insert_runtime d r :
  db_inv mr me d → check_runtime r = Ok r →
  db_inv mr me (with_runtimes <[rt_runtime_id r := r]> d).
Proof.
  intros [] Hr. constructor; cbn; try done.
  - by apply map_Forall_insert_weak.
  - eapply map_Forall_impl; [done|]. cbn. intros k o (? & ? & ?).
    split_and!; auto using is_Some_insert.
Qed.

Lemma inv_insert_operation d o :
  db_inv mr me d → operation_ok o → is_Some (runtime_leases d !! op_runtime_id o) →
  (∀ o', operations d !! op_operation_id o = Some o' → op_runtime_id o' = op_runtime_id o) →
  db_inv mr me (with_operations <[op_operation_id o := o]> d).
Proof.
  intros [] Ho Hr Hsame. constructor; cbn; try done.
  - by apply map_Forall_insert_weak.
  - eapply map_Forall_impl; [done|]. cbn. intros k r (? & ? & ?).
    split_and!; auto using is_Some_insert.
  - eapply map_Forall_impl; [done|]. cbn. intros k e (? & ? & He).
    split_and!; auto. destruct (decide (eff_operation_id e = op_operation_id o)) as [Heq|Hne].
    + rewrite Heq, lookup_insert_eq in *. cbn.
      destruct (operations d !! op_operation_id o) as [o'|]; cbn in He; [|done].
      injection He as <-. by rewrite (Hsame o').
    + by rewrite lookup_insert_ne.
  - eapply map_Forall_impl; [done|]. cbn. intros k u (? & ? & ?).
    split_and!; auto using is_Some_insert.
Qed.

Lemma inv_insert_usage d u :
  db_inv mr me d → check_usage u = Ok u → is_Some (operations d !! use_operation_id u) →
  db_inv mr me (with_usage <[(use_operation_id u, use_source_key u) := u]> d).
Proof. intros [] Hu Ho. constructor; cbn; try done. by apply map_Forall_insert_weak. Qed.

Lemma effects_of_insert_other d e id :
  eff_operation_id e ≠ id → effects d !! eff_effect_id e = None →
  effects_of (with_effects <[eff_effect_id e := e]> d) id = effects_of d id.
Proof.
  intros Hid Hnew. unfold effects_of. cbn.
  apply map_filter_insert_not'; [done|]. by rewrite Hnew.
Qed.

Lemma effects_of_insert_same d e :
  effects_of (with_effects <[eff_effect_id e := e]> d) (eff_operation_id e) =
  <[eff_effect_id e := e]> (effects_of d (eff_operation_id e)).
Proof.
  unfold effects_of. cbn.
  by apply map_filter_insert_True.
Qed.

Lemma effects_of_fresh d k id : effects d !! k = None → effects_of d id !! k = None.
Proof. intros Hk. unfold effects_of. apply map_lookup_filter_None. by left. Qed.

Lemma inv_insert_effect d e :
  db_inv mr me d → effect_ok e → effects d !! eff_effect_id e = None →
  op_runtime_id <$> operations d !! eff_operation_id e = Some (eff_runtime_id e) →
  eff_ordinal e = max_ordinal d (eff_operation_id e) + 1 →
  Z.of_nat (size (effects_of d (eff_operation_id e))) < me →
  db_inv mr me (with_effects <[eff_effect_id e := e]> d).
Proof.
  intros Hd He Hnew Hop Hord Hcap. rewrite (inv_max_ordinal _ _ Hd) in Hord.
  assert (∀ id, eff_operation_id e = id → size (effects_of (with_effects <[eff_effect_id e:=e]> d) id)
    = S (size (effects_of d id))) as Hsize.
  { intros id <-. rewrite effects_of_insert_same, map_size_insert_None; [done|].
    by apply effects_of_fresh. }
  destruct Hd. constructor; cbn [with_effects runtime_leases operations registers effects usage_ledger];
    try done.
  - by apply map_Forall_insert_weak.
  - intros id. destruct (decide (eff_operation_id e = id)) as [Heq|Hne].
    + rewrite (Hsize _ Heq). subst id. rewrite effects_of_insert_same.
      rewrite rows_insert by by apply effects_of_fresh. cbn [map].
      rewrite inv_ordinals0, Hord, Nat2Z.inj_succ, <- Z.add_1_r, seqZ_app by lia.
      rewrite seqZ_one, Z.add_comm. by rewrite <- Permutation_cons_append.
    + by rewrite effects_of_insert_other.
  - intros id. destruct (inv_caps0 id) as [Hr He']. split; [done|].
    destruct (decide (eff_operation_id e = id)) as [Heq|Hne].
    + rewrite Hsize by done. subst id. lia.
    + by rewrite effects_of_insert_other.
Qed.

(** Updates of effects that keep the identity, owner and ordinal of each row. *)
Lemma inv_update_effects d f :
  db_inv mr me d →
  map_Forall (λ k e, effects d !! k = None ∨ ∃ e', effects d !! k = Some e' ∧
    eff_effect_id e = eff_effect_id e' ∧ eff_runtime_id e = eff_runtime_id e' ∧
    effect_shape e = effect_shape e' ∧ effect_ok e) (f (effects d)) →
  effect_shape <$> effects d = effect_shape <$> f (effects d) →
  db_inv mr me (with_effects f d).
Proof.
  intros [] Hf Hs. constructor; cbn [with_effects runtime_leases operations registers effects usage_ledger];
    try done.
  - intros k e Hk. specialize (Hf _ _ Hk). destruct Hf as [Hn|(e' & He' & ? & Hrt & Hsh & ?)].
    + apply (f_equal (.!! k)) in Hs. rewrite !lookup_fmap, Hn, Hk in Hs. done.
    + injection Hsh as Ho ?. destruct (inv_effects0 _ _ He') as (? & ? & ?).
      split_and!; [congruence|done|]. by rewrite Ho, Hrt.
  - intros id. destruct (ordinals_shape d (with_effects f d) id Hs) as [-> ->]. apply inv_ordinals0.
  - intros id. destruct (ordinals_shape d (with_effects f d) id Hs) as [_ ->]. apply inv_caps0.
Qed.

Lemma inv_set_effect d k e e' :
  db_inv mr me d → effects d !! k = Some e → effect_ok e' →
  eff_effect_id e' = eff_effect_id e → eff_runtime_id e' = eff_runtime_id e →
  effect_shape e' = effect_shape e →
  db_inv mr me (with_effects <[k := e']> d).
Proof.
  intros Hd Hk Hok Hid Hrt Hsh. apply inv_update_effects; [done| |].
  - intros j x Hj. destruct (decide (j = k)) as [->|Hne].
    + rewrite lookup_insert_eq in Hj. injection Hj as <-. right. by exists e.
    + rewrite lookup_insert_ne in Hj by done. right. exists x.
      destruct Hd. by destruct (inv_effects0 _ _ Hj) as (? & ? & ?).
  - rewrite fmap_insert, Hsh. symmetry. apply insert_id. by rewrite lookup_fmap, Hk.
Qed.

Lemma inv_fmap_effects d f :
  db_inv mr me d →
  (∀ k e, effects d !! k = Some e → eff_effect_id (f e) = eff_effect_id e ∧
    eff_runtime_id (f e) = eff_runtime_id e ∧ effect_shape (f e) = effect_shape e ∧
    effect_ok (f e)) →
  db_inv mr me (with_effects (fmap f) d).
Proof.
  intros Hd Hf. apply inv_update_effects; [done| |].
  - intros k e He. rewrite lookup_fmap in He.
    apply fmap_Some in He as (e' & He' & ->). right. exists e'.
    destruct (Hf _ _ He') as (? & ? & ? & ?). by split_and!.
  - rewrite <- map_fmap_compose. apply map_fmap_ext. intros k e He. cbn.
    by destruct (Hf _ _ He) as (? & ? & -> & ?).
Qed.

Lemma inv_fmap_operations d f :
  db_inv mr me d →
  (∀ k o, operations d !! k = Some o → op_operation_id (f o) = op_operation_id o ∧
    op_runtime_id (f o) = op_runtime_id o ∧ operation_ok (f o)) →
  db_inv mr me (with_operations (fmap f) d).
Proof.
  intros [] Hf.
  assert (∀ k, is_Some (operations d !! k) → is_Some (f <$> operations d !! k)) as Hsome
    by (intros k [o ->]; eauto).
  constructor; cbn; try done.
  - intros k o Ho. rewrite lookup_fmap in Ho. apply fmap_Some in Ho as (o' & Ho' & ->).
    destruct (Hf _ _ Ho') as (-> & -> & ?). destruct (inv_operations0 _ _ Ho') as (? & ? & ?).
    by split_and!.
  - eapply map_Forall_impl; [done|]. cbn. intros k r (? & ? & ?). rewrite lookup_fmap.
    split_and!; eauto.
  - eapply map_Forall_impl; [done|]. cbn. intros k e (? & ? & He). rewrite lookup_fmap.
    split_and!; [done|done|].
    destruct (operations d !! eff_operation_id e) as [o|] eqn:Ho; [|done].
    cbn in *. injection He as <-. by destruct (Hf _ _ Ho) as (_ & -> & _).
  - eapply map_Forall_impl; [done|]. cbn. intros k u (? & ? & ?). rewrite lookup_fmap.
    split_and!; eauto.
Qed.

(** Registers: the keys of an operation count its rows. *)
Lemma registers_of_lookup d id k r :
  registers_of d id !! k = Some r ↔ registers d !! k = Some r ∧ reg_operation_id r = id.
Proof. unfold registers_of. apply map_lookup_filter_Some. Qed.

Definition registers_keyed (d : Db) : Prop :=
  map_Forall (λ k r, k = (reg_operation_id r, reg_key r)) (registers d).

Lemma inv_registers_keyed d : db_inv mr me d → registers_keyed d.
Proof. intros []. eapply map_Forall_impl; [done|]. by intros k r (? & ? & ?). Qed.

Lemma size_register_keys d id :
  registers_keyed d → size (register_keys d id) = size (registers_of d id).
Proof.
  intros Hregs. unfold register_keys.
  rewrite size_list_to_set; [by rewrite length_fmap, rows_length|].
  unfold rows. change (map reg_key ?l) with (reg_key <$> l).
  rewrite <- list_fmap_compose.
  apply NoDup_fmap_2_strong; [|apply NoDup_map_to_list].
  intros [k r] [k' r'] Hr%elem_of_map_to_list Hr'%elem_of_map_to_list.
  apply registers_of_lookup in Hr as [Hr Hid], Hr' as [Hr' Hid']. cbn. intros Hkey.
  assert (k = k') as <-.
  { rewrite (Hregs _ _ Hr), (Hregs _ _ Hr'). congruence. }
  rewrite Hr in Hr'. by injection Hr' as <-.
Qed.

Lemma register_keys_insert d r id :
  register_keys (with_registers <[(reg_operation_id r, reg_key r) := r]> d) id ⊆
  register_keys d id ∪ (if bool_decide (reg_operation_id r = id) then {[reg_key r]} else ∅).
Proof.
  intros key. unfold register_keys.
  rewrite elem_of_union, !elem_of_list_to_set, !list_elem_of_fmap.
  intros (x & -> & Hx). apply elem_of_rows in Hx as (k & Hk).
  apply registers_of_lookup in Hk as [Hk <-]. cbn in Hk.
  apply lookup_insert_Some in Hk as [[<- <-]|[Hne Hk]].
  - right. rewrite bool_decide_eq_true_2 by done. set_solver.
  - left. exists x. split; [done|]. apply elem_of_rows. exists k. by apply registers_of_lookup.
Qed.

Lemma inv_upsert_register d r :
  db_inv mr me d → register_from_row r = Ok r → is_Some (operations d !! reg_operation_id r) →
  Z.of_nat (size (register_keys d (reg_operation_id r) ∪ {[reg_key r]})) ≤ mr →
  db_inv mr me (with_registers <[(reg_operation_id r, reg_key r) := r]> d).
Proof.
  intros Hd Hr Hop Hcap. pose proof (inv_registers_keyed _ Hd) as Hk.
  set (d' := with_registers _ d).
  assert (registers_keyed d') as Hk' by by apply map_Forall_insert_weak.
  assert (∀ id, Z.of_nat (size (registers_of d' id)) ≤ mr) as Hc.
  { intros id. rewrite <- size_register_keys by done.
    pose proof (subseteq_size _ _ (register_keys_insert d r id)) as Hs.
    destruct (inv_caps _ _ _ Hd id) as [Hmr _].
    rewrite <- size_register_keys in Hmr by done.
    revert Hs. case_bool_decide as Heq; [subst id; fold d'; lia|].
    rewrite union_empty_r_L. fold d'. lia. }
  destruct Hd. constructor; cbn; try done.
  - by apply map_Forall_insert_weak.
  - intros id. split; [apply Hc|]. by destruct (inv_caps0 id).
Qed.

(** Deleting operations with everything that refers to them. *)
Lemma inv_delete_operations d ids :
  db_inv mr me d → db_inv mr me (delete_operations ids d).
Proof.
  intros [].
  assert (∀ id, id ∉ ids → effects_of (delete_operations ids d) id = effects_of d id) as Hkeep.
  { intros id Hid. unfold effects_of. cbn. rewrite map_filter_filter.
    apply map_filter_ext. intros k e _. cbn. intuition congruence. }
  assert (∀ id, id ∈ ids → effects_of (delete_operations ids d) id = ∅) as Hdrop.
  { intros id Hid. unfold effects_of. cbn. 
    apply map_empty. intros k. apply map_lookup_filter_None. right.
    intros e [He Hni]%map_lookup_filter_Some. cbn in *. congruence. }
  assert (∀ (x : string), x ∉ ids → is_Some (operations d !! x) →
    is_Some (operations (delete_operations ids d) !! x)) as Hops.
  { intros x Hx [o Ho]. exists o. cbn. by apply map_lookup_filter_Some. }
  constructor; cbn -[delete_operations]; try done.
  - intros k o [Ho _]%map_lookup_filter_Some. by apply inv_operations0.
  - intros k r [Hr Hid]%map_lookup_filter_Some. destruct (inv_registers0 _ _ Hr) as (? & ? & ?).
    split_and!; auto.
  - intros k e [He Hid]%map_lookup_filter_Some. destruct (inv_effects0 _ _ He) as (? & ? & Hrt).
    split_and!; [done|done|]. cbn in *.
    destruct (operations d !! eff_operation_id e) as [o|] eqn:Ho; [|done].
    rewrite (proj2 (map_lookup_filter_Some _ _ _ o) (conj Ho Hid)). done.
  - intros k u [Hu Hid]%map_lookup_filter_Some. destruct (inv_usage0 _ _ Hu) as (? & ? & ?).
    split_and!; auto.
  - intros id. destruct (decide (id ∈ ids)).
    + by rewrite Hdrop.
    + by rewrite Hkeep.
  - intros id. destruct (inv_caps0 id) as [Hr He]. split.
    + etransitivity; [|exact Hr]. apply inj_le, map_subseteq_size.
      apply map_filter_subseteq_mono, map_filter_subseteq.
    + etransitivity; [|exact He]. apply inj_le, map_subseteq_size.
      apply map_filter_subseteq_mono, map_filter_subseteq.
Qed.
End invariant.

(** ** Each call keeps the invariant *)

Lemma transaction_inv {A} io (body : db_m A) s :
  store_inv s →
  wp body (λ _ d, db_inv (max_registers_per_operation s) (max_effects_per_operation s) d)
    (store_db s) →
  store_inv (transaction io body s).2.
Proof.
  intros Hs Hbody. unfold transaction.
  destruct (store_closed s); [done|]. destruct (begin_ok io); [|done].
  destruct (max_bytes s <=? footprint io); [done|]. cbn.
  destruct (body (store_db s)) as [[a|e] d] eqn:Hb.
  - destruct (commit_ok io); [|done]. apply Hbody in Hb.
    by destruct (secure_ok io).
  - by destruct e.
Qed.

Lemma discard_state {A} (m : store_m A) s : (discard m s).2 = (m s).2.
Proof. unfold discard, mbind, st_bind. by destruct (m s) as [[]]. Qed.

Lemma lift_bind_state {A B} (r : result store_error A) (f : A → store_m B) s (P : OperationStore → Prop) :
  P s → (∀ a, r = Ok a → P (f a s).2) → P (mbind (M:=st OperationStore store_error) f (st_lift r) s).2.
Proof. intros Hs Hf. unfold mbind, st_bind, st_lift. destruct r; [by apply Hf|done]. Qed.

Lemma row_runtime mr me d k r :
  db_inv mr me d → runtime_leases d !! k = Some r → rt_runtime_id r = k ∧ check_runtime r = Ok r.
Proof. intros [] H. by apply inv_runtimes0 in H. Qed.

Lemma row_operation mr me d k o :
  db_inv mr me d → operations d !! k = Some o → op_operation_id o = k ∧ operation_ok o ∧
    is_Some (runtime_leases d !! op_runtime_id o).
Proof. intros [] H. by apply inv_operations0 in H. Qed.

Lemma row_effect mr me d k e :
  db_inv mr me d → effects d !! k = Some e → eff_effect_id e = k ∧ effect_ok e ∧
    op_runtime_id <$> operations d !! eff_operation_id e = Some (eff_runtime_id e).
Proof. intros [] H. by apply inv_effects0 in H. Qed.

Ltac same_record :=
  repeat match goal with
  | H : check_runtime ?r = Ok ?x |- _ => assert_fails (constr_eq r x);
      assert (x = r) by (by apply check_runtime_same); subst x
  | H : runtime_from_row ?r = Ok ?x |- _ => change (check_runtime r = Ok x) in H
  | H : check_operation ?r = Ok ?x |- _ => assert_fails (constr_eq r x);
      assert (x = r) by (by apply check_operation_same); subst x
  | H : operation_from_row ?r = Ok ?x |- _ => change (check_operation r = Ok x) in H
  | H : check_effect ?r = Ok ?x |- _ => assert_fails (constr_eq r x);
      assert (x = r) by (by apply check_effect_same); subst x
  | H : effect_from_row ?r = Ok ?x |- _ => change (check_effect r = Ok x) in H
  | H : check_usage ?r = Ok ?x |- _ => assert_fails (constr_eq r x);
      assert (x = r) by (by apply check_usage_same); subst x
  | H : usage_from_row ?r = Ok ?x |- _ => change (check_usage r = Ok x) in H
  end.

Lemma open_runtime_inv io r p t n s : store_inv s → store_inv (open_runtime io r p t n s).2.
Proof.
  intros Hs. apply (lift_bind_state _ _ _ store_inv); [done|]. intros c Hc. apply transaction_inv; [done|].
  wp_steps; same_record; try done. unfold insert_runtime. wp_steps. cbn in *.
  by apply (inv_insert_runtime _ _ _ _ Hs Hc).
Qed.

Lemma heartbeat_runtime_inv io r n s : store_inv s → store_inv (heartbeat_runtime io r n s).2.
Proof.
  intros Hs. apply transaction_inv; [done|]. unfold runtime_row. wp_steps; same_record.
  destruct (row_runtime _ _ _ _ _ Hs Heqo) as [<- _]. unfold with_runtimes at 1.
  rewrite (alter_known _ _ _ _ Heqo). 
  match goal with H : check_runtime (set_runtime_times _ _ _) = _ |- _ =>
    exact (inv_insert_runtime _ _ _ _ Hs H) end.
Qed.

Lemma close_runtime_inv io r n s : store_inv s → store_inv (close_runtime io r n s).2.
Proof.
  intros Hs. apply transaction_inv; [done|]. unfold runtime_row. wp_steps; same_record; [done|].
  destruct (row_runtime _ _ _ _ _ Hs Heqo) as [<- _]. unfold with_runtimes at 1.
  rewrite (alter_known _ _ _ _ Heqo). 
  match goal with H : check_runtime (set_runtime_times _ _ _) = _ |- _ =>
    exact (inv_insert_runtime _ _ _ _ Hs H) end.
Qed.

Lemma create_operation_inv io h r f k n s :
  store_inv s → store_inv (create_operation io h r f k n s).2.
Proof.
  intros Hs. apply (lift_bind_state _ _ _ store_inv); [done|]. intros c Hc. apply transaction_inv; [done|].
  unfold runtime_row, insert_operation. wp_steps; same_record. bool_prop.
  match type of Hc with _ = Ok ?o => apply (inv_insert_operation _ _ _ o Hs) end; cbn in *.
  - split; [done|]. cbn. done.
  - done.
  - intros o'. cbn. congruence.
Qed.

Lemma set_progress_ok c n o :
  operation_ok o → check_operation (set_progress c n o) = Ok (set_progress c n o) →
  operation_ok (set_progress c n o).
Proof. by intros (_ & ?). Qed.

Lemma register_row_ok id key v c n r :
  make_register id key v c n = Ok r →
  register_from_row r = Ok r ∧ reg_operation_id r = id ∧ reg_key r = key.
Proof.
  intros H. split; [by eapply make_register_again|].
  unfold make_register in H. by result_inv.
Qed.

Lemma advance_registers_inv mr me id regs c n d0 K :
  db_inv mr me d0 → is_Some (operations d0 !! id) →
  register_keys d0 id ⊆ K → list_to_set regs.*1 ⊆ K → Z.of_nat (size K) ≤ mr →
  wp (st_iter (λ kv, item ← st_lift (make_register id kv.1 kv.2 c n); upsert_register item) regs)
    (λ _ d, db_inv mr me d ∧ operations d = operations d0) d0.
Proof.
  intros Hd Hop Hk Hregs Hsize.
  eapply wp_mono; [apply (wp_iter _ (λ d, db_inv mr me d ∧ operations d = operations d0 ∧
    register_keys d id ⊆ K))|].
  - done.
  - intros [key v] d Hin (Hd' & Ho & Hkd). unfold upsert_register. wp_steps. cbn in *.
    destruct (register_row_ok _ _ _ _ _ _ ltac:(eassumption)) as (Hrow & <- & <-).
    assert (reg_key a ∈ K).
    { apply Hregs, elem_of_list_to_set. by apply (list_elem_of_fmap_2 fst _ (reg_key a, v)). }
    split_and!; [|done|].
    + apply inv_upsert_register; [done|done|by rewrite Ho|].
      etransitivity; [|exact Hsize]. apply inj_le, subseteq_size. set_solver.
    + etransitivity; [apply register_keys_insert|].
      rewrite bool_decide_eq_true_2 by done. set_solver.
  - by intros _ d (? & ? & ?).
Qed.

Lemma advance_inv io id p rs n s : store_inv s → store_inv (advance io id p rs n s).2.
Proof.
  intros Hs. unfold advance. apply (lift_bind_state _ _ _ store_inv); [done|]. intros [] _.
  apply transaction_inv; [done|]. unfold operation_row. wp_steps; same_record. bool_prop.
  destruct (row_operation _ _ _ _ _ Hs Heqo) as (<- & Hok & Hrt).
  eapply wp_mono.
  { eapply (advance_registers_inv _ _ _ _ _ _ _ (_ ∪ _) Hs); [by eexists|..|eassumption];
      [apply union_subseteq_l|apply union_subseteq_r]. }
  intros _ d (Hd & Ho). wp_steps. same_record. rewrite <- Ho in *.
  unfold with_operations at 1. rewrite (alter_known _ _ _ _ Heqo).
  match goal with H : check_operation (set_progress ?c ?n ?o) = _ |- _ =>
    apply (inv_insert_operation _ _ _ (set_progress c n o) Hd) end; cbn.
  - by apply set_progress_ok.
  - destruct Hrt. destruct Hd. by destruct (inv_operations0 _ _ Heqo) as (_ & _ & ?).
  - rewrite Heqo. by intros o' [= <-].
Qed.

Lemma set_register_inv io id key v n s :
  store_inv s → store_inv (set_register io id key v n s).2.
Proof.
  intros Hs. unfold set_register. apply transaction_inv; [done|].
  unfold operation_row, upsert_register.
  assert (∀ a o, operations (store_db s) !! id = Some o →
    make_register id key v (op_program_counter o) n = Ok a →
    Z.of_nat (size (register_keys (store_db s) id ∪ {[key]})) ≤ max_registers_per_operation s →
    db_inv (max_registers_per_operation s) (max_effects_per_operation s)
      (with_registers <[(reg_operation_id a, reg_key a) := a]> (store_db s))) as Hins.
  { intros a o Ho Ha Hsize. destruct (register_row_ok _ _ _ _ _ _ Ha) as (? & <- & <-).
    apply inv_upsert_register; eauto. }
  pose proof (inv_registers_keyed _ _ _ Hs) as Hk.
  destruct (inv_caps _ _ _ Hs id) as [Hcap _]. rewrite <- size_register_keys in Hcap by done.
  wp_steps; same_record; bool_prop; (eapply Hins; [done..|]).
  - etransitivity; [|exact Hcap]. apply inj_le, subseteq_size.
    apply union_subseteq; split; [done|]. apply singleton_subseteq_l.
    unfold register_keys. apply elem_of_list_to_set, list_elem_of_fmap.
    match goal with H : registers _ !! _ = Some ?r |- _ => exists r;
      pose proof (Hk _ _ H) as [= Hid Hkey]; rename H into Hr end.
    split; [done|]. apply elem_of_rows. eexists. apply registers_of_lookup. eauto.
  - rewrite size_union_alt. rewrite size_register_keys in Hcap |- * by done.
    assert (size ({[key]} ∖ register_keys (store_db s) id) ≤ 1)%nat.
    { rewrite <- (size_singleton (C:=gset string) key). apply subseteq_size. set_solver. }
    lia.
Qed.

Lemma begin_effect_inv io h id k nm f n cs s :
  store_inv s → store_inv (begin_effect io h id k nm f n cs s).2.
Proof.
  intros Hs. unfold begin_effect. apply transaction_inv; [done|].
  unfold operation_row, insert_effect. wp_steps; same_record; bool_prop.
  match goal with H : check_effect ?e = Ok _ |- _ =>
    apply (inv_insert_effect _ _ _ e Hs) end; cbn in *; try done.
  by rewrite Heqo.
Qed.

Lemma settle_effect_inv io id st code n s :
  store_inv s → store_inv (settle_effect io id st code n s).2.
Proof.
  intros Hs. apply transaction_inv; [done|]. wp_steps; same_record; bool_prop; try done.
  unfold with_effects at 1. rewrite (alter_known _ _ _ _ Heqo).
  eapply (inv_set_effect _ _ _ _ _ _ Hs); [done| |done..].
  split; [done|]. cbn. eauto.
Qed.

Lemma record_usage_inv io u s : store_inv s → store_inv (record_usage io u s).2.
Proof.
  intros Hs. apply (lift_bind_state _ _ _ store_inv); [done|]. intros c Hc.
  same_record. apply transaction_inv; [done|]. unfold operation_row, insert_usage.
  wp_steps; same_record; bool_prop; [done|].
  by apply (inv_insert_usage _ _ _ _ Hs).
Qed.

Lemma settle_operation_inv io id st code n s :
  store_inv s → store_inv (settle_operation io id st code n s).2.
Proof.
  intros Hs. apply transaction_inv; [done|]. unfold operation_row.
  wp_steps; same_record; bool_prop; try done.
  destruct (row_operation _ _ _ _ _ Hs Heqo) as (<- & Hok & Hrt).
  unfold with_operations at 1. rewrite (alter_known _ _ _ _ Heqo).
  match goal with H : check_operation (set_operation_outcome ?st ?c ?n ?o) = _ |- _ =>
    apply (inv_insert_operation _ _ _ (set_operation_outcome st c n o) Hs) end; cbn.
  - split; [done|]. cbn. eauto.
  - done.
  - rewrite Heqo. by intros o' [= <-].
Qed.

(** Marking a row uncertain keeps it decodable when the clock is not behind. *)
Ltac passes_check :=
  repeat match goal with
  | H : ?m = Ok _ |- mbind _ ?m = _ => rewrite H; cbn [mbind result_bind]
  | H : ?b = true |- mbind _ (require ?b _) = _ => rewrite H; cbn [require mbind result_bind]
  | H1 : ?b = true, H2 : ?c = true |- mbind _ (require (?b && ?c) _) = _ =>
      rewrite H1, H2; cbn [andb require mbind result_bind]
  end.

Ltac nonnegative_values :=
  repeat match goal with H : require_nonnegative_int _ _ = Ok _ |- _ =>
    apply require_nonnegative_int_ok in H as H' ; destruct H' as [? ->]; revert H end;
  intros.

Lemma lost_outcome_values n l :
  0 ≤ n →
  require_timestamp (Some n) l = Ok (Some n) ∧ require_nonnegative_int n l = Ok n ∧
  require_code_optional (Some "runtime_lost") "outcome code" = Ok (Some "runtime_lost").
Proof.
  intros Hn. assert (∀ m, require_nonnegative_int n m = Ok n) as H
    by (intros; by apply require_nonnegative_int_ok).
  unfold require_timestamp. by rewrite !H.
Qed.

Lemma lost_effect_ok n e :
  effect_ok e → eff_created_at_ms e ≤ n →
  effect_ok (set_effect_outcome "uncertain" "runtime_lost" n e).
Proof.
  intros [He _] Hn. split; [|cbn [set_effect_outcome eff_settled_at_ms eff_outcome_code]; eauto].
  unfold check_effect in *. result_inv. nonnegative_values.
  destruct (lost_outcome_values n "settled_at_ms") as (? & ? & ?); [lia|].
  assert (bool_decide ("uncertain" ∈ EFFECT_STATES) = true) by done.
  cbn [set_effect_outcome eff_effect_id eff_operation_id eff_runtime_id eff_ordinal eff_kind
    eff_name eff_fingerprint eff_state eff_replay_policy eff_created_at_ms eff_settled_at_ms
    eff_outcome_code eff_effect_classes]. passes_check.
  unfold not_before. destruct (Z.ltb_spec n (eff_created_at_ms e)); [lia|done].
Qed.

Lemma lost_operation_ok n o :
  operation_ok o → op_created_at_ms o ≤ n →
  operation_ok (set_operation_outcome "uncertain" "runtime_lost" n o).
Proof.
  intros [Ho _] Hn. split; [|cbn [set_operation_outcome op_settled_at_ms op_outcome_code]; eauto].
  unfold check_operation in *. result_inv. nonnegative_values.
  destruct (lost_outcome_values n "settled_at_ms") as (? & _ & ?); [lia|].
  destruct (lost_outcome_values n "updated_at_ms") as (_ & ? & _); [lia|].
  assert (bool_decide ("uncertain" ∈ OPERATION_STATES) = true) by done.
  cbn [set_operation_outcome op_operation_id op_runtime_id op_session_fingerprint op_kind
    op_state op_program_counter op_created_at_ms op_updated_at_ms op_settled_at_ms
    op_outcome_code]. passes_check.
  unfold not_before. destruct (Z.ltb_spec n (op_created_at_ms o)); [lia|done].
Qed.

Lemma mark_uncertain_inv io ids n s :
  store_inv s → clock_ok (CMarkUncertain ids n) (store_db s) →
  store_inv (mark_runtimes_uncertain io ids n s).2.
Proof.
  intros Hs [Heff Hops]. unfold mark_runtimes_uncertain. case_bool_decide; [done|].
  apply transaction_inv; [done|]. wp_steps.
  apply inv_fmap_operations; [apply (inv_fmap_effects _ _ _ _ Hs)|].
  - intros k e He. destruct (row_effect _ _ _ _ _ Hs He) as (_ & Hok & _).
    destruct (lost_effect ids e) eqn:Hl; [|done]. unfold lost_effect in Hl. bool_prop.
    split_and!; try done. apply lost_effect_ok; [done|]. by apply (Heff _ _ He).
  - cbn. intros k o Ho. destruct (row_operation _ _ _ _ _ Hs Ho) as (_ & Hok & _).
    destruct (lost_operation _ _ o) eqn:Hl; [|done]. unfold lost_operation in Hl. bool_prop.
    split_and!; try done. apply lost_operation_ok; [done|]. by apply (Hops _ _ Ho).
Qed.

Lemma prune_inv io n s : store_inv s → store_inv (prune_settled_before io n s).2.
Proof.
  intros Hs. apply (lift_bind_state _ _ _ store_inv); [done|]. intros [] _.
  apply transaction_inv; [done|]. wp_steps; [done|]. by apply inv_delete_operations.
Qed.

#[local] Hint Resolve open_runtime_inv heartbeat_runtime_inv close_runtime_inv
  create_operation_inv advance_inv set_register_inv begin_effect_inv settle_effect_inv
  record_usage_inv settle_operation_inv mark_uncertain_inv prune_inv : travis.

Lemma run_call_inv io c s :
  store_inv s → clock_ok c (store_db s) → store_inv (run_call io c s).2.
Proof.
  intros Hs Hc. destruct c; cbn [run_call]; rewrite ?discard_state; auto with travis.
Qed.

Lemma empty_store_inv b r e s : open_store b r e empty_db = Ok s → store_inv s.
Proof.
  unfold open_store. intros H. result_inv. bool_prop. unfold store_inv. cbn.
  constructor; cbn; try apply map_Forall_empty; intros id.
  - unfold effects_of. cbn. rewrite map_filter_empty. done.
  - unfold effects_of, registers_of. cbn. rewrite !map_filter_empty, !map_size_empty. lia.
Qed.

Lemma reachable_inv s0 s : store_inv s0 → reachable s0 s → store_inv s.
Proof. intros Hs. induction 1; [done|]. by apply run_call_inv. Qed.

(** ** Decoding a store that satisfies the invariant *)

Lemma try_map_rows `{Countable K} {V} (f : V → result store_error V) (leb : V → V → bool)
    (m : gmap K V) :
  map_Forall (λ _ x, f x = Ok x) m →
  try_map f (py_sorted leb (rows m)) = Ok (py_sorted leb (rows m)).
Proof.
  intros Hm. apply try_map_id. intros x Hx%elem_of_py_sorted.
  apply elem_of_rows in Hx as [k Hk]. by apply (Hm k).
Qed.

Definition snapshot_of (d : Db) (o : OperationRecord) : OperationSnapshot :=
  let id := op_operation_id o in
  {| snap_operation := o;
     snap_registers := py_sorted (λ a b, String.leb (reg_key a) (reg_key b))
       (rows (registers_of d id));
     snap_effects := py_sorted (λ a b, eff_ordinal a <=? eff_ordinal b) (rows (effects_of d id));
     snap_usage := py_sorted (λ a b, String.leb (use_source_key a) (use_source_key b))
       (rows (usage_of d id)) |}.

Lemma snapshot_from_row_ok mr me d k o :
  db_inv mr me d → operations d !! k = Some o → snapshot_from_row d o = Ok (snapshot_of d o).
Proof.
  intros Hd Ho. destruct (row_operation _ _ _ _ _ Hd Ho) as (_ & [Hok _] & _).
  unfold snapshot_from_row. destruct Hd.
  rewrite !try_map_rows; cbn [mbind result_bind].
  - unfold operation_from_row. by rewrite Hok.
  - intros j r [Hr _]%map_lookup_filter_Some. by destruct (inv_registers0 _ _ Hr) as (_ & ? & _).
  - intros j e [He _]%map_lookup_filter_Some. by destruct (inv_effects0 _ _ He) as (_ & [? _] & _).
  - intros j u [Hu _]%map_lookup_filter_Some. by destruct (inv_usage0 _ _ Hu) as (_ & ? & _).
Qed.

Lemma sorted_perm_unique l l' :
  StronglySorted Z.le l → StronglySorted Z.le l' → l ≡ₚ l' → l = l'.
Proof. intros. by apply (StronglySorted_unique Z.le). Qed.

Lemma seqZ_sorted m n : StronglySorted Z.le (seqZ m n).
Proof.
  unfold seqZ. generalize (Z.to_nat n). intros k. generalize 0%nat as i.
  induction k as [|k IH]; intros i; cbn; constructor; [apply IH|].
  apply Forall_fmap, Forall_seq. intros j Hj. cbn. lia.
Qed.

Lemma snapshot_ordinals mr me d o :
  db_inv mr me d →
  map eff_ordinal (snap_effects (snapshot_of d o)) =
  seqZ 1 (Z.of_nat (length (snap_effects (snapshot_of d o)))).
Proof.
  intros Hd. cbn. set (id := op_operation_id o).
  apply sorted_perm_unique; [|apply seqZ_sorted|].
  - pose proof (py_sorted_sorted (λ a b, eff_ordinal a <=? eff_ordinal b)
      ltac:(intros; rewrite !Z.leb_le; lia) ltac:(intros *; rewrite !Z.leb_le; lia)
      (rows (effects_of d id))) as Hs.
    induction Hs as [|x l _ IH Hx]; cbn; constructor; [done|].
    change (map eff_ordinal l) with (eff_ordinal <$> l). apply Forall_fmap.
    eapply Forall_impl; [exact Hx|]. cbn. intros y. by rewrite Z.leb_le.
  - rewrite py_sorted_length, rows_length. rewrite <- (inv_ordinals _ _ _ Hd id).
    apply Permutation_map, py_sorted_perm.
Qed.

(** ** What a call may change *)

Lemma transaction_db {A} io (body : db_m A) s (R : Db → Prop) :
  R (store_db s) → wp body (λ _ d, R d) (store_db s) → R (store_db (transaction io body s).2).
Proof.
  intros Hs Hbody. unfold transaction.
  destruct (store_closed s); [done|]. destruct (begin_ok io); [|done].
  destruct (max_bytes s <=? footprint io); [done|]. cbn.
  destruct (body (store_db s)) as [[a|e] d] eqn:Hb.
  - destruct (commit_ok io); [|done]. apply Hbody in Hb. by destruct (secure_ok io).
  - by destruct e.
Qed.

Lemma transaction_err {A} io (body : db_m A) s e :
  (transaction io body s).1 = Err e → e ≠ OsError → (transaction io body s).2 = s.
Proof.
  unfold transaction.
  destruct (store_closed s); [done|]. destruct (begin_ok io); [|done].
  destruct (max_bytes s <=? footprint io); [done|]. cbn.
  destruct (body (store_db s)) as [[a|e'] d].
  - destruct (commit_ok io); [|done]. destruct (secure_ok io); [done|]. by intros [= <-].
  - by destruct e'.
Qed.

Lemma discard_err {A} (m : store_m A) s e : (discard m s).1 = Err e → (m s).1 = Err e.
Proof. unfold discard, mbind, st_bind. destruct (m s) as [[]]; [done|]. by intros [= <-]. Qed.

Lemma lift_bind_err {A B} (r : result store_error A) (f : A → store_m B) s e :
  ((mbind (M:=st OperationStore store_error) f (st_lift r)) s).1 = Err e →
  (∀ a, r = Ok a → (f a s).1 = Err e → (f a s).2 = s) →
  ((mbind (M:=st OperationStore store_error) f (st_lift r)) s).2 = s.
Proof. unfold mbind, st_bind, st_lift. destruct r; cbn; eauto. Qed.

Lemma get_bind_state {A} (f : OperationStore → store_m A) s :
  (mbind (M:=st OperationStore store_error) f st_get) s = f s s.
Proof. done. Qed.

(** What a call may do to the row [o] of an operation that is not running. *)
Definition operation_kept (c : call) (id : string) (o : OperationRecord) (d : Db) : Prop :=
  operations d !! id = Some o ∨
  (operations d !! id = None ∧ ∃ cutoff, c = CPrune cutoff ∧ prunable cutoff o = true).

Definition effect_kept (c : call) (id : string) (e : EffectRecord) (d : Db) : Prop :=
  effects d !! id = Some e ∨
  (effects d !! id = None ∧ operations d !! eff_operation_id e = None ∧
   ∃ cutoff, c = CPrune cutoff).

Lemma advance_registers_frame id regs c n d0 :
  wp (st_iter (λ kv, item ← st_lift (make_register id kv.1 kv.2 c n); upsert_register item) regs)
    (λ _ d, operations d = operations d0 ∧ effects d = effects d0) d0.
Proof.
  apply (wp_iter _ (λ d, operations d = operations d0 ∧ effects d = effects d0)); [done|].
  intros kv d _ Hd. unfold upsert_register. by wp_steps.
Qed.

(** To show [R] of the database after a call, show it before the call and after
    the body of the call's transaction. *)
Ltac enter_call s :=
  match goal with |- ?R (store_db _) =>
  cbn [run_call]; rewrite ?discard_state;
  unfold open_runtime, heartbeat_runtime, close_runtime, create_operation, advance,
    set_register, begin_effect, settle_effect, record_usage, settle_operation,
    mark_runtimes_uncertain, prune_settled_before, runtime_row, operation_row,
    insert_runtime, insert_operation, insert_effect, insert_usage, upsert_register;
  try (case_bool_decide; [done|]);
  try (apply (lift_bind_state _ _ s (λ s', R (store_db s'))); [done|intros ? ?]);
  rewrite ?get_bind_state;
  try (apply (transaction_db _ _ s R); [done|]; wp_steps; same_record; bool_prop; try done)
  end.

Lemma elem_of_prunable_ids mr me d cutoff id :
  db_inv mr me d →
  id ∈ map op_operation_id (List.filter (prunable cutoff) (rows (operations d))) ↔
  ∃ o, operations d !! id = Some o ∧ prunable cutoff o = true.
Proof.
  intros Hd. change (map op_operation_id ?l) with (op_operation_id <$> l).
  rewrite list_elem_of_fmap. split.
  - intros (o & -> & Ho). apply list_elem_of_In, filter_In in Ho as [Ho Hp].
    apply list_elem_of_In, elem_of_rows in Ho as (k & Hk).
    destruct (row_operation _ _ _ _ _ Hd Hk) as (-> & _). eauto.
  - intros (o & Ho & Hp). destruct (row_operation _ _ _ _ _ Hd Ho) as (<- & _).
    exists o. split; [done|]. apply list_elem_of_In, filter_In. split; [|done].
    apply list_elem_of_In, elem_of_rows. eauto.
Qed.

Lemma prune_lookup mr me d cutoff id :
  db_inv mr me d →
  operations (delete_operations
    (map op_operation_id (List.filter (prunable cutoff) (rows (operations d)))) d) !! id =
  match operations d !! id with
  | Some o => if prunable cutoff o then None else Some o
  | None => None
  end.
Proof.
  intros Hd. cbn. rewrite map_lookup_filter.
  destruct (operations d !! id) as [o|] eqn:Ho; cbn; [|done].
  pose proof (elem_of_prunable_ids _ _ _ cutoff id Hd) as Hiff.
  destruct (prunable cutoff o) eqn:Hp; case_guard as Hin; cbn in *; try done.
  - exfalso. apply Hin, Hiff. eauto.
  - exfalso. apply Hiff in Hin as (o' & Ho' & Hp'). congruence.
Qed.

Lemma alter_kept `{Countable K} {V} (f : V → V) k j (m : gmap K V) x y :
  m !! j = Some x → m !! k = Some y → j ≠ k → alter f k m !! j = Some x.
Proof. intros. by rewrite lookup_alter_ne. Qed.

(** The operations that pruning at [cutoff] removes: those closed as settled, failed or cancelled,
    strictly before it. *)
Definition closed_before (cutoff : Z) (o : OperationRecord) : bool :=
  bool_decide (op_state o ∈ ["settled"; "failed"; "cancelled"]%string) &&
  match op_settled_at_ms o with Some t => t <? cutoff | None => false end.

Definition pruned (d : Db) (cutoff : Z) (id : string) : bool :=
  match operations d !! id with Some o => closed_before cutoff o | None => false end.

Lemma prunable_closed cutoff o : prunable cutoff o = closed_before cutoff o.
Proof. reflexivity. Qed.

(** ** Transactions that go through *)

(** The operating system lets a transaction of this store begin and commit. *)
Definition tx_passes (io : tx_io) (s : OperationStore) : bool :=
  negb (store_closed s) && begin_ok io && negb (max_bytes s <=? footprint io) &&
  commit_ok io && secure_ok io.

Lemma set_db_same s : set_db (store_db s) s = s.
Proof. by destruct s. Qed.

Lemma transaction_passes {A} io (body : db_m A) s r d :
  tx_passes io s = true → body (store_db s) = (r, d) → r ≠ Err SqliteDatabaseError →
  transaction io body s = match r with Ok a => (Ok a, set_db d s) | Err e => (Err e, s) end.
Proof.
  unfold tx_passes. intros Hp Hb Hr. bool_prop. unfold transaction. rewrite Hb.
  repeat match goal with H : ?b = _ |- context [?b] => rewrite H end. cbn.
  destruct (Z.leb_spec (max_bytes s) (footprint io)); [lia|]. by destruct r as [|[]].
Qed.

Lemma wp_transaction {A} io (body : db_m A) (Q : A → OperationStore → Prop) s :
  wp body (λ a d, Q a (set_db d s)) (store_db s) → wp (transaction io body) Q s.
Proof.
  unfold transaction. intros Hb a s' H.
  destruct (store_closed s); [done|]. destruct (begin_ok io); [|done].
  destruct (max_bytes s <=? footprint io); [done|]. cbn in H.
  destruct (body (store_db s)) as [[b|e'] d] eqn:Hd; [|by destruct e'].
  destruct (commit_ok io); [|done]. destruct (secure_ok io); [|done]. cbn in H.
  simplify_eq. by apply Hb in Hd.
Qed.

Lemma settle_effect_post io id st code n s :
  st ≠ "intent" →
  wp (settle_effect io id st code n) (λ r s', effects (store_db s') !! id = Some r ∧
    eff_state r = st ∧ eff_outcome_code r = Some code) s.
Proof.
  intros Hst. apply wp_transaction. wp_steps; same_record; bool_prop; try done.
  cbn. by rewrite lookup_alter_eq, Heqo.
Qed.

Lemma settle_effect_settled io id st code n s r :
  store_inv s → tx_passes io s = true →
  effects (store_db s) !! id = Some r → eff_state r ≠ "intent" →
  settle_effect io id st code n s =
    (if bool_decide (eff_state r = st) && bool_decide (eff_outcome_code r = Some code)
     then Ok r else Err OperationStoreConflict, s).
Proof.
  intros Hs Hp Hr Hst. destruct (row_effect _ _ _ _ _ Hs Hr) as (_ & [Hck _] & _).
  set (m := (if bool_decide _ && bool_decide _ then Ok r else Err OperationStoreConflict)).
  unfold settle_effect. erewrite (transaction_passes io _ s m (store_db s) Hp).
  - subst m. destruct (bool_decide _ && bool_decide _); [by rewrite set_db_same|done].
  - st_eval. rewrite Hr. unfold effect_from_row. rewrite Hck.
    rewrite bool_decide_eq_true_2 by done. subst m. by destruct (bool_decide _ && bool_decide _).
  - subst m. by destruct (bool_decide _ && bool_decide _).
Qed.

Lemma usage_identity_refl u : check_usage u = Ok u → usage_identity_eqb u u = true.
Proof.
  unfold check_usage, usage_identity_eqb. intros H. result_inv.
  rewrite !bool_decide_eq_true_2, !Z.eqb_refl by done. by rewrite fl_eqb_refl.
Qed.

Lemma record_usage_post io u s :
  wp (record_usage io u) (λ r s', usage_ledger (store_db s') !! (use_operation_id u, use_source_key u)
    = Some r ∧ usage_identity_eqb r u = true ∧ is_Some (operations (store_db s') !! use_operation_id u)) s.
Proof.
  unfold record_usage. wp_step. wp_step. same_record. apply wp_transaction.
  unfold operation_row, insert_usage. wp_steps; same_record; bool_prop; cbn; [by eauto|].
  rewrite lookup_insert_eq. split_and!; [done| |done]. by eapply usage_identity_refl.
Qed.

(** ** Properties *)


(** reading back.  On every reachable store that is still open a snapshot of
    a stored operation succeeds, returns that operation, and lists its effects
    numbered 1, 2, ..., n in order. *)
Theorem reachable_snapshot bytes regs effs s0 s id o :
  open_store bytes regs effs empty_db = Ok s0 → reachable s0 s → store_closed s = false →
  operations (store_db s) !! id = Some o →
  ∃ snap, snapshot id s = Ok (Some snap) ∧ snap_operation snap = o ∧
    map eff_ordinal (snap_effects snap) = seqZ 1 (Z.of_nat (length (snap_effects snap))).
Proof.
  intros Hs0 Hr Hc Ho. assert (store_inv s) as Hs.
  { eapply reachable_inv; [|exact Hr]. by eapply empty_store_inv. }
  exists (snapshot_of (store_db s) o). unfold snapshot.
  rewrite Hc, Ho, (snapshot_from_row_ok _ _ _ _ _ Hs Ho). split_and!; [done|done|].
  by eapply snapshot_ordinals.
Qed.

(** C2: atomicity.  A call that raises leaves the store as it was; the only
    exception is the error of setting the file modes, which is raised after the
    commit. *)
Theorem failed_call_atomic io c s e :
  (run_call io c s).1 = Err e → e ≠ OsError → (run_call io c s).2 = s.
Proof.
  destruct c; cbn [run_call]; try done; rewrite discard_state;
    intros Herr%discard_err Hos; revert Herr.
  all: try by intros; eapply transaction_err.
  all: try (intros Herr; eapply lift_bind_err; [exact Herr|]; cbn; intros;
    by eapply transaction_err).
  - unfold mark_runtimes_uncertain. case_bool_decide; [done|]. intros; by eapply transaction_err.
Qed.

(** a closed operation is final.  No call changes an operation that is no
    longer running; it only disappears, and only when it is pruned as settled,
    failed or cancelled before the cutoff. *)
Theorem closed_operation_final io c s id o :
  store_inv s → operations (store_db s) !! id = Some o → op_state o ≠ "running" →
  operations (store_db (run_call io c s).2) !! id = Some o ∨
  (operations (store_db (run_call io c s).2) !! id = None ∧
   ∃ cutoff, c = CPrune cutoff ∧ prunable cutoff o = true).
Proof.
  change (store_inv s → operations (store_db s) !! id = Some o → op_state o ≠ "running" → operation_kept c id o (store_db (run_call io c s).2)).
  intros Hs Ho Hr. assert (operation_kept c id o (store_db s)) as Hk by by left.
  destruct c; enter_call s; try done.
  - left. cbn. rewrite lookup_insert_ne; [done|]. cbn in *. intros ?; congruence.
  - eapply wp_mono; [apply advance_registers_frame|]. intros _ d [Hd _]. wp_steps.
    left. cbn. rewrite Hd, lookup_alter_ne; [done|]. intros ->. simplify_eq. tauto.
  - left. cbn. rewrite lookup_alter_ne; [done|]. intros ->. simplify_eq. tauto.
  - left. cbn. rewrite lookup_fmap, Ho. cbn. unfold lost_operation.
    by rewrite (bool_decide_eq_false_2 (op_state o = "running")).
  - unfold operation_kept. rewrite (prune_lookup _ _ _ _ _ Hs), Ho.
    destruct (prunable cutoff_ms o) eqn:Hp; eauto.
Qed.

(** a settled effect is final.  No call changes the outcome of an effect
    that left the state "intent"; it only disappears, together with its
    operation, when that is pruned. *)
Theorem settled_effect_final io c s id e :
  store_inv s → effects (store_db s) !! id = Some e → eff_state e ≠ "intent" →
  let d := store_db (run_call io c s).2 in
  effects d !! id = Some e ∨
  (effects d !! id = None ∧ operations d !! eff_operation_id e = None ∧
   ∃ cutoff, c = CPrune cutoff).
Proof.
  change (store_inv s → effects (store_db s) !! id = Some e → eff_state e ≠ "intent" → effect_kept c id e (store_db (run_call io c s).2)).
  intros Hs He Hr. assert (effect_kept c id e (store_db s)) as Hk by by left.
  destruct c; enter_call s; try done; try by left.
  - eapply wp_mono; [apply advance_registers_frame|]. intros _ d [_ Hd]. wp_steps.
    left. cbn. by rewrite Hd.
  - left. cbn. rewrite lookup_insert_ne; [done|]. cbn in *. intros ?; congruence.
  - left. cbn. rewrite lookup_alter_ne; [done|]. intros ->. simplify_eq. tauto.
  - left. cbn. rewrite lookup_fmap, He. cbn. unfold lost_effect.
    by rewrite (bool_decide_eq_false_2 (eff_state e = "intent")).
  - unfold effect_kept. cbn [effects delete_operations]. rewrite map_lookup_filter, He. cbn.
    case_guard as Hin; [by left|right]. split; [done|]. split; [|eauto].
    cbn in Hin. rewrite map_lookup_filter.
    destruct (operations (store_db s) !! eff_operation_id e); cbn; [|done].
    by case_guard.
Qed.

(** Settling an effect twice.  After a successful settlement of an effect,
    the same settlement succeeds again with the same record and changes nothing,
    and a different one is refused as a conflict and changes nothing. *)
Theorem settle_effect_once io id st code n s r s1 io' st' code' n' :
  store_inv s → settle_effect io id st code n s = (Ok r, s1) → st ≠ "intent" →
  tx_passes io' s1 = true →
  settle_effect io' id st' code' n' s1 =
    (if bool_decide (st' = st) && bool_decide (code' = code)
     then Ok r else Err OperationStoreConflict, s1).
Proof.
  intros Hs Hset Hst Hp. assert (store_inv s1) as Hs1.
  { pose proof (settle_effect_inv io id st code n s Hs) as H. by rewrite Hset in H. }
  destruct (settle_effect_post _ _ _ _ _ _ Hst _ _ Hset) as (Hr & Hrst & Hrc).
  rewrite (settle_effect_settled _ _ _ _ _ _ r) by (done || congruence).
  rewrite Hrst, Hrc. repeat case_bool_decide; simplify_eq; done.
Qed.

(** usage is recorded once.  After a usage entry was recorded, recording
    the same usage again, at any time, returns the stored entry and changes
    nothing, and recording different figures under the same source key is
    refused as a conflict and changes nothing. *)
Theorem record_usage_once io u s r s1 io' u' :
  store_inv s → record_usage io u s = (Ok r, s1) → tx_passes io' s1 = true →
  use_operation_id u' = use_operation_id u → use_source_key u' = use_source_key u →
  check_usage u' = Ok u' →
  record_usage io' u' s1 =
    (if usage_identity_eqb r u' then Ok r else Err OperationStoreConflict, s1).
Proof.
  intros Hs Hrec Hp Hop Hkey Hck. assert (store_inv s1) as Hs1.
  { pose proof (record_usage_inv io u s Hs) as H. by rewrite Hrec in H. }
  destruct (record_usage_post _ _ _ _ _ Hrec) as (Hr & _ & [o Ho]).
  assert (check_usage r = Ok r) as Hrck by (by destruct Hs1; destruct (inv_usage0 _ _ Hr) as (_ & ? & _)).
  set (m := (if usage_identity_eqb r u' then Ok r else Err OperationStoreConflict)).
  unfold record_usage at 1. st_eval. rewrite Hck, Hop, Hkey.
  erewrite (transaction_passes io' _ s1 m (store_db s1) Hp).
  - subst m. destruct (usage_identity_eqb _ _); [by rewrite set_db_same|done].
  - unfold operation_row. st_eval. rewrite Ho, Hr. unfold usage_from_row.
    rewrite Hrck. subst m. by destruct (usage_identity_eqb r u').
  - subst m. by destruct (usage_identity_eqb r u').
Qed.

(** recovery.  When runtimes are declared lost, none of them owns an effect
    in state "intent" any more; a running operation with such an effect becomes
    uncertain; effects that had left "intent", effects of other runtimes and
    operations of other runtimes are as before. *)
Theorem recovery_classifies io ids now s counts s' :
  store_inv s → ids ≠ [] → mark_runtimes_uncertain io ids now s = (Ok counts, s') →
  (∀ rid, rid ∈ ids → has_intent (store_db s') rid = false) ∧
  (∀ k e, effects (store_db s) !! k = Some e → eff_runtime_id e ∈ ids → eff_state e = "intent" →
     effects (store_db s') !! k = Some (set_effect_outcome "uncertain" "runtime_lost" now e) ∧
     ∀ o, operations (store_db s) !! eff_operation_id e = Some o → op_state o = "running" →
       operations (store_db s') !! eff_operation_id e =
         Some (set_operation_outcome "uncertain" "runtime_lost" now o)) ∧
  (∀ k e, effects (store_db s) !! k = Some e → eff_runtime_id e ∉ ids ∨ eff_state e ≠ "intent" →
     effects (store_db s') !! k = Some e) ∧
  (∀ k o, operations (store_db s) !! k = Some o → op_runtime_id o ∉ ids →
     operations (store_db s') !! k = Some o).
Proof.
  intros Hs Hids. unfold mark_runtimes_uncertain. rewrite bool_decide_eq_false_2 by done.
  revert counts s'. refine (wp_elim _ (λ _ s', _) s _).
  apply wp_transaction. wp_steps. cbn.
  set (lost e := if lost_effect ids e then _ else e).
  assert (∀ k e, effects (store_db s) !! k = Some e →
    (lost <$> effects (store_db s)) !! k = Some (lost e)) as Hl
    by (intros k e He; by rewrite lookup_fmap, He).
  split_and!.
  - intros rid Hrid. apply not_true_iff_false. unfold has_intent. cbn.
    rewrite existsb_exists. intros (e & He & Hst). bool_prop.
    apply list_elem_of_In, elem_of_rows in He as (k & He). rewrite lookup_fmap in He.
    apply fmap_Some in He as (e' & He' & ->). revert H H0. unfold lost.
    destruct (lost_effect ids e') eqn:Hle; cbn; [done|]. intros <- Hst.
    unfold lost_effect in Hle. by rewrite !bool_decide_eq_true_2 in Hle.
  - intros k e He Hrt Hst. assert (lost_effect ids e = true) as Hle
      by (unfold lost_effect; by rewrite !bool_decide_eq_true_2).
    rewrite (Hl _ _ He). unfold lost at 1. rewrite Hle. split; [done|].
    intros o Ho Hrun. rewrite lookup_fmap, Ho. cbn.
    destruct (row_effect _ _ _ _ _ Hs He) as (_ & _ & Hop). rewrite Ho in Hop. cbn in Hop.
    unfold lost_operation. cbn. rewrite Hrun.
    rewrite (bool_decide_eq_true_2 (op_runtime_id o ∈ ids)) by congruence.
    replace (existsb _ _) with true; [done|]. symmetry. apply existsb_exists.
    exists (lost e). split.
    + apply list_elem_of_In, elem_of_rows. eauto.
    + destruct (row_operation _ _ _ _ _ Hs Ho) as (-> & _). unfold lost. rewrite Hle. cbn.
      by rewrite bool_decide_eq_true_2.
  - intros k e He Hcase. rewrite (Hl _ _ He). unfold lost, lost_effect.
    repeat case_bool_decide; cbn; try done. tauto.
  - intros k o Ho Hrt. rewrite lookup_fmap, Ho. cbn. unfold lost_operation.
    rewrite (bool_decide_eq_false_2 (op_runtime_id o ∈ ids)) by done.
    by rewrite andb_false_r.
Qed.

(** pruning removes exactly the operations closed before the cutoff as
    settled, failed or cancelled, and with each of them all its effects,
    registers and usage entries; everything else is untouched.  In particular an
    uncertain or running operation is never pruned. *)
Theorem prune_exact io cutoff s counts s' :
  store_inv s → prune_settled_before io cutoff s = (Ok counts, s') →
  let gone := pruned (store_db s) cutoff in
  (∀ id, operations (store_db s') !! id =
     if gone id then None else operations (store_db s) !! id) ∧
  (∀ k e, effects (store_db s) !! k = Some e →
     effects (store_db s') !! k = if gone (eff_operation_id e) then None else Some e) ∧
  (∀ k r, registers (store_db s) !! k = Some r →
     registers (store_db s') !! k = if gone (reg_operation_id r) then None else Some r) ∧
  (∀ k u, usage_ledger (store_db s) !! k = Some u →
     usage_ledger (store_db s') !! k = if gone (use_operation_id u) then None else Some u).
Proof.
  intros Hs. unfold prune_settled_before. revert counts s'.
  refine (wp_elim _ (λ _ s', _) s _). wp_step. wp_step. apply wp_transaction. wp_steps.
  - cbn. bool_prop. set (gone := pruned _ _).
    assert (∀ id, gone id = false) as Hg; [|split_and!; intros; by rewrite Hg].
    intros id. destruct (gone id) eqn:Hid; [|done]. unfold gone, pruned in Hid.
    destruct (operations (store_db s) !! id) as [o|] eqn:Ho; [|done].
    assert (id ∈ @nil string) as Hnil; [|by apply not_elem_of_nil in Hnil].
    match goal with H : map _ _ = [] |- _ => rewrite <- H end.
    eapply elem_of_prunable_ids; [exact Hs|]. exists o. by rewrite prunable_closed.
  - set (ids := map _ _). set (gone := pruned _ _).
    assert (∀ id, id ∈ ids ↔ gone id = true) as Hg.
    { intros id. unfold ids. rewrite (elem_of_prunable_ids _ _ _ _ _ Hs). setoid_rewrite prunable_closed. unfold gone, pruned.
      destruct (operations (store_db s) !! id) as [o|]; naive_solver. }
    assert (∀ id, id ∉ ids ↔ gone id = false) as Hng.
    { intros id. rewrite Hg. by rewrite not_true_iff_false. }
    cbn. split_and!; [intros id|intros k x Hx..]; rewrite map_lookup_filter.
    1: destruct (operations (store_db s) !! id) as [o|] eqn:Hx; [|by destruct (gone id)].
    all: rewrite ?Hx; cbn; case_guard as Hin; cbn in Hin;
      [ pose proof (proj1 (Hng _) Hin) as E; by rewrite E
      | destruct (gone _) eqn:E; [done|]; by apply (proj2 (Hng _)) in E ].
Qed.

(** ** Witnesses and examples *)

Definition sample_hex : string := "0123456789abcdef0123456789abcdef".
Definition sample_fingerprint : string := sample_hex +:+ sample_hex.
Definition sample_effect_id : string := "effect_" +:+ sample_hex.

Definition sample_empty : OperationStore :=
  {| max_bytes := 4096; max_registers_per_operation := 4; max_effects_per_operation := 2;
     store_closed := false; store_db := empty_db |}.

Definition sample_calls : list call :=
  [COpenRuntime sample_hex 7 fl_zero 1000;
   CCreateOperation sample_hex sample_hex sample_fingerprint "prompt" 1000;
   CAdvance sample_operation_id "provider" [("turn", VInt 1)] 1001;
   CBeginEffect sample_hex sample_operation_id "tool" "bash" sample_fingerprint 1002 ["writes_files"]].

Definition run_calls (cs : list call) (s : OperationStore) : OperationStore :=
  foldl (λ s c, (run_call io_ok c s).2) s cs.

(** One runtime, one running operation, one open effect. *)
Definition sample_store : OperationStore := run_calls sample_calls sample_empty.

Lemma run_calls_reachable cs s0 s :
  reachable s0 s → Forall (λ c, ∀ d, clock_ok c d) cs → reachable s0 (run_calls cs s).
Proof.
  revert s. induction cs as [|c cs IH]; intros s Hs Hc; [done|].
  apply Forall_cons in Hc as [Hc Hcs]. apply IH; [|done]. by apply reachable_call.
Qed.

Lemma sample_reachable : reachable sample_empty sample_store.
Proof. apply run_calls_reachable; [constructor|]. by repeat constructor. Qed.

Lemma sample_inv : store_inv sample_store.
Proof.
  eapply reachable_inv; [|exact sample_reachable].
  by apply (empty_store_inv 4096 4 2).
Qed.

Definition result_or {E A} (d : A) (m : result E A) : A :=
  match m with Ok a => a | Err _ => d end.

Definition sample_operation : OperationRecord :=
  default {| op_operation_id := ""; op_runtime_id := ""; op_session_fingerprint := "";
             op_kind := ""; op_state := ""; op_program_counter := 0; op_created_at_ms := 0;
             op_updated_at_ms := 0; op_settled_at_ms := None; op_outcome_code := None |}
    (operations (store_db sample_store) !! sample_operation_id).


Lemma reachable_snapshot_witness :
  ∃ snap, snapshot sample_operation_id sample_store = Ok (Some snap) ∧
    snap_operation snap = sample_operation ∧
    map eff_ordinal (snap_effects snap) = seqZ 1 (Z.of_nat (length (snap_effects snap))).
Proof.
  apply (reachable_snapshot 4096 4 2 sample_empty);
    [reflexivity|exact sample_reachable|vm_compute; reflexivity|vm_compute; reflexivity].
Defined.

Lemma failed_call_atomic_witness :
  (run_call io_ok (CBeginEffect sample_hex sample_operation_id "tool" "bash" sample_fingerprint
     1003 []) sample_store).2 = sample_store.
Proof. apply (failed_call_atomic _ _ _ OperationStoreUnavailable); [vm_compute; reflexivity|done]. Defined.

Definition sample_closed : OperationStore :=
  run_calls [CSettleEffect sample_effect_id "settled" "ok" 1004;
             CSettleOperation sample_operation_id "settled" "ok" 1005] sample_store.

Lemma sample_closed_inv : store_inv sample_closed.
Proof. apply run_call_inv; [apply run_call_inv; [exact sample_inv|done]|done]. Qed.

Definition sample_closed_operation : OperationRecord :=
  set_operation_outcome "settled" "ok" 1005 sample_operation.

Lemma closed_operation_final_witness :
  operations (store_db (run_call io_ok (CAdvance sample_operation_id "late" [] 2000) sample_closed).2)
    !! sample_operation_id = Some sample_closed_operation ∨
  (operations (store_db (run_call io_ok (CAdvance sample_operation_id "late" [] 2000) sample_closed).2)
    !! sample_operation_id = None ∧
   ∃ cutoff, CAdvance sample_operation_id "late" [] 2000 = CPrune cutoff ∧
     prunable cutoff sample_closed_operation = true).
Proof.
  apply (closed_operation_final io_ok (CAdvance sample_operation_id "late" [] 2000) sample_closed);
    [exact sample_closed_inv|vm_compute; reflexivity|vm_compute; discriminate].
Defined.

Definition sample_effect : EffectRecord :=
  default {| eff_effect_id := ""; eff_operation_id := ""; eff_runtime_id := ""; eff_ordinal := 0;
             eff_kind := ""; eff_name := ""; eff_fingerprint := ""; eff_state := "";
             eff_replay_policy := ""; eff_created_at_ms := 0; eff_settled_at_ms := None;
             eff_outcome_code := None; eff_effect_classes := [] |}
    (effects (store_db sample_closed) !! sample_effect_id).

Lemma settled_effect_final_witness :
  let d := store_db (run_call io_ok (CPrune 5000) sample_closed).2 in
  effects d !! sample_effect_id = Some sample_effect ∨
  (effects d !! sample_effect_id = None ∧ operations d !! eff_operation_id sample_effect = None ∧
   ∃ cutoff, CPrune 5000 = CPrune cutoff).
Proof.
  apply (settled_effect_final io_ok (CPrune 5000) sample_closed);
    [exact sample_closed_inv|vm_compute; reflexivity|vm_compute; discriminate].
Defined.

Definition sample_settled : OperationStore :=
  (settle_effect io_ok sample_effect_id "settled" "ok" 1004 sample_store).2.

Lemma settle_effect_once_witness :
  settle_effect io_ok sample_effect_id "failed" "timeout" 1006 sample_settled =
    (Err OperationStoreConflict, sample_settled).
Proof.
  apply (settle_effect_once io_ok sample_effect_id "settled" "ok" 1004 sample_store sample_effect
    sample_settled io_ok "failed" "timeout" 1006);
    [exact sample_inv|vm_compute; reflexivity|discriminate|vm_compute; reflexivity].
Defined.

Definition sample_usage (input now : Z) : UsageLedgerEntry :=
  {| use_operation_id := sample_operation_id; use_source_key := sample_fingerprint;
     use_provider := "openai"; use_model := "model"; use_input_tokens := input;
     use_output_tokens := 5; use_cache_read_tokens := 0; use_cache_write_tokens := 0;
     use_cost := fl_of_Z 1; use_created_at_ms := now |}.

Definition sample_used : OperationStore := (record_usage io_ok (sample_usage 10 1003) sample_store).2.

Lemma record_usage_once_witness :
  record_usage io_ok (sample_usage 11 2000) sample_used = (Err OperationStoreConflict, sample_used).
Proof.
  apply (record_usage_once io_ok (sample_usage 10 1003) sample_store (sample_usage 10 1003)
    sample_used io_ok (sample_usage 11 2000)); first [exact sample_inv | vm_compute; reflexivity].
Defined.

Lemma recovery_classifies_witness :
  has_intent (store_db (mark_runtimes_uncertain io_ok [sample_hex] 2000 sample_store).2) sample_hex
  = false.
Proof.
  apply (recovery_classifies io_ok [sample_hex] 2000 sample_store (1, 1));
    [exact sample_inv|discriminate|vm_compute; reflexivity|by apply list_elem_of_singleton].
Defined.

Lemma prune_exact_witness :
  operations (store_db (prune_settled_before io_ok 5000 sample_closed).2) !! sample_operation_id = None.
Proof.
  destruct (prune_exact io_ok 5000 sample_closed (1, 2, 1, 0)
    (prune_settled_before io_ok 5000 sample_closed).2) as [Hops _];
    [exact sample_closed_inv|vm_compute; reflexivity|].
  rewrite Hops. vm_compute. reflexivity.
Defined.

(** Recovery writes the clock it reads into the rows without checking it
    against their creation time.  With a clock behind the lost runtime's, the
    row it writes is one the store can no longer read back. *)
Example recovery_clock_behind :
  let s := (mark_runtimes_uncertain io_ok [sample_hex] 500 sample_store).2 in
  (mark_runtimes_uncertain io_ok [sample_hex] 500 sample_store).1 = Ok (1, 1) ∧
  snapshot sample_operation_id s = Err (InvalidValue "effect timestamps must be monotonic") ∧
  list_uncertain None s = Err (InvalidValue "effect timestamps must be monotonic").
Proof. vm_compute. repeat split. Qed.

(** A settlement "to intent" is accepted: the effect stays open although the row
    now has a settlement time and an outcome, and recovery still treats it as
    an intent. *)
Example settle_effect_to_intent :
  let s := (settle_effect io_ok sample_effect_id "intent" "ok" 1004 sample_store).2 in
  is_ok (settle_effect io_ok sample_effect_id "intent" "ok" 1004 sample_store).1 = true ∧
  has_intent (store_db s) sample_hex = true ∧
  (eff_settled_at_ms <$> effects (store_db s) !! sample_effect_id) = Some (Some 1004).
Proof. vm_compute. repeat split. Qed.
