(* ===== verification/JournalCoordinator.v ===== *)
(** Session coordination of the operation journal
    (travis/coding_agent/operations/coordinator.py and recovery.py).

    The journal is used through the interface [Journal] below; the instance for
    the store of JournalStore.v is in JournalCoordinatorSpec.v.  A coordinator's
    method is a computation on the world (the journal and the number of clock
    readings so far) and the coordinator; what it raises is only the order error
    of coordinator.py:78, because every exception of the store is caught.  The
    clock and SHA-256 are parameters. *)

From S2P Require Import Prelude Json PyFloat JournalTypes.
Open Scope Z_scope.

(** ** The interface of the journal *)

Class Journal (S : Type) := {
  j_open_runtime : string → Z → float64 → Z → st S store_error unit;
  j_heartbeat_runtime : string → Z → st S store_error unit;
  j_close_runtime : string → Z → st S store_error unit;
  j_create_operation : string → string → string → Z → st S store_error string;
  j_advance : string → string → list (string * pyval) → Z → st S store_error Z;
  j_begin_effect : string → string → string → string → Z → list string → st S store_error string;
  j_settle_effect : string → string → string → Z → st S store_error unit;
  j_record_usage : UsageLedgerEntry → st S store_error unit;
  j_settle_operation : string → string → string → Z → st S store_error unit;
  j_recovery_leases : st S store_error (list RuntimeLease);
  j_mark_runtimes_uncertain : list string → Z → st S store_error (Z * Z);
  j_close : st S store_error unit;
  (** What a reader of the journal sees of an effect or operation: its state and
      outcome code. *)
  j_effect_outcome : S → string → option (string * option string);
  j_operation_outcome : S → string → option (string * option string)
}.

(** What a settlement that returns has done. *)
Class JournalLaws (S : Type) `{Journal S} := {
  j_wf : S → Prop;
  j_settle_effect_law : ∀ id state code now s s',
    j_wf s → state ≠ "intent" → j_settle_effect id state code now s = (Ok tt, s') →
    j_wf s' ∧ j_effect_outcome s' id = Some (state, Some code) ∧
    (∀ id', id' ≠ id → j_effect_outcome s' id' = j_effect_outcome s id');
  j_settle_operation_law : ∀ id state code now s s',
    j_wf s → state ≠ "running" → j_settle_operation id state code now s = (Ok tt, s') →
    j_wf s' ∧ j_operation_outcome s' id = Some (state, Some code) ∧
    (∀ id', j_effect_outcome s' id' = j_effect_outcome s id')
}.

(** ** Values *)

(** [src: travis/coding_agent/operations/coordinator.py:35-40 _settlement_state] *)
Definition settlement_state (outcome_code : string) : string :=
  if bool_decide (outcome_code = "ok") then "settled"
  else if bool_decide (outcome_code = "cancelled") then "cancelled"
  else "failed".

(** [src: travis/coding_agent/operations/coordinator.py:58-61 EffectHandle] *)
Record EffectHandle : Type := {
  eh_operation_id : string;
  eh_effect_id : string
}.

#[export] Instance effect_handle_eq_dec : EqDecision EffectHandle.
Proof. solve_decision. Defined.

(** [src: travis/coding_agent/operations/coordinator.py:64-75 OperationJournalDiagnostic]:
    a kind that is not a safe code is replaced by "session". *)
Record OperationJournalDiagnostic : Type := {
  dg_kind : string;
  dg_code : string;
  dg_type : string
}.

(** [src: travis/coding_agent/operations/coordinator.py:70-72 OperationJournalDiagnostic.__post_init__] *)
Definition journal_diagnostic (kind : string) : OperationJournalDiagnostic :=
  {| dg_kind := if code_pattern kind then kind else "session";
     dg_code := "journal_unavailable"; dg_type := "operation_journal_diagnostic" |}.

(** [src: travis/coding_agent/operations/coordinator.py:78-79 OperationCoordinatorOrderError] *)
Inductive order_error : Type :=
  | OperationCoordinatorOrderError (message : string).

(** [src: travis/coding_agent/operations/coordinator.py:159-179 OperationCoordinator.__init__].
    [co_diagnostics] are the diagnostics handed to the sink, if there is one. *)
Record OperationCoordinator : Type := {
  co_runtime_id : string;
  co_session_seed : string;
  co_has_sink : bool;
  co_operation_id : option string;
  co_operation_kind : option string;
  co_effects : list (string * EffectHandle);
  co_enabled_flag : bool;
  co_closed : bool;
  co_diagnostic_emitted : bool;
  co_diagnostics : list OperationJournalDiagnostic
}.

(** [src: travis/coding_agent/operations/coordinator.py:168-179 OperationCoordinator.__init__].
    [hex] is the [uuid4().hex] used when there is no session id. *)
Definition new_coordinator (hex runtime_id : string) (session_id : option string)
    (has_sink : bool) : OperationCoordinator :=
  {| co_runtime_id := runtime_id;
     co_session_seed := match session_id with
                        | Some s => if bool_decide (s = "") then hex else s
                        | None => hex
                        end;
     co_has_sink := has_sink; co_operation_id := None; co_operation_kind := None;
     co_effects := []; co_enabled_flag := true; co_closed := false;
     co_diagnostic_emitted := false; co_diagnostics := [] |}.

(** [src: travis/coding_agent/operations/coordinator.py:181-183 OperationCoordinator.enabled] *)
Definition co_enabled (c : OperationCoordinator) : bool := co_enabled_flag c && negb (co_closed c).

(** ** Field updates *)

Definition co_with_operation (operation : option string) (c : OperationCoordinator) :=
  {| co_runtime_id := co_runtime_id c; co_session_seed := co_session_seed c;
     co_has_sink := co_has_sink c; co_operation_id := operation;
     co_operation_kind := co_operation_kind c; co_effects := co_effects c;
     co_enabled_flag := co_enabled_flag c; co_closed := co_closed c;
     co_diagnostic_emitted := co_diagnostic_emitted c; co_diagnostics := co_diagnostics c |}.

Definition co_with_kind (kind : option string) (c : OperationCoordinator) :=
  {| co_runtime_id := co_runtime_id c; co_session_seed := co_session_seed c;
     co_has_sink := co_has_sink c; co_operation_id := co_operation_id c;
     co_operation_kind := kind; co_effects := co_effects c;
     co_enabled_flag := co_enabled_flag c; co_closed := co_closed c;
     co_diagnostic_emitted := co_diagnostic_emitted c; co_diagnostics := co_diagnostics c |}.

Definition co_with_effects (effects : list (string * EffectHandle)) (c : OperationCoordinator) :=
  {| co_runtime_id := co_runtime_id c; co_session_seed := co_session_seed c;
     co_has_sink := co_has_sink c; co_operation_id := co_operation_id c;
     co_operation_kind := co_operation_kind c; co_effects := effects;
     co_enabled_flag := co_enabled_flag c; co_closed := co_closed c;
     co_diagnostic_emitted := co_diagnostic_emitted c; co_diagnostics := co_diagnostics c |}.

Definition co_with_closed (c : OperationCoordinator) :=
  {| co_runtime_id := co_runtime_id c; co_session_seed := co_session_seed c;
     co_has_sink := co_has_sink c; co_operation_id := co_operation_id c;
     co_operation_kind := co_operation_kind c; co_effects := co_effects c;
     co_enabled_flag := co_enabled_flag c; co_closed := true;
     co_diagnostic_emitted := co_diagnostic_emitted c; co_diagnostics := co_diagnostics c |}.

(** [src: travis/coding_agent/operations/coordinator.py:339-354 OperationCoordinator.disable];
    an exception of the sink is swallowed. *)
Definition co_disable (c : OperationCoordinator) : OperationCoordinator :=
  if negb (co_enabled_flag c) then c
  else
    {| co_runtime_id := co_runtime_id c; co_session_seed := co_session_seed c;
       co_has_sink := co_has_sink c; co_operation_id := co_operation_id c;
       co_operation_kind := co_operation_kind c; co_effects := co_effects c;
       co_enabled_flag := false; co_closed := co_closed c;
       co_diagnostic_emitted := true;
       co_diagnostics :=
         if co_diagnostic_emitted c then co_diagnostics c
         else if co_has_sink c
         then co_diagnostics c ++ [journal_diagnostic
                (match co_operation_kind c with
                 | Some k => if bool_decide (k = "") then "session" else k
                 | None => "session" end)]
         else co_diagnostics c |}.

(** [dict.pop(key, None)] and [dict[key] = value] on an insertion-ordered dict. *)
Fixpoint assoc_remove {V} (key : string) (l : list (string * V)) : list (string * V) :=
  match l with
  | [] => []
  | (k, v) :: l' => if bool_decide (k = key) then assoc_remove key l' else (k, v) :: assoc_remove key l'
  end.

Fixpoint assoc_set {V} (key : string) (value : V) (l : list (string * V)) : list (string * V) :=
  match l with
  | [] => [(key, value)]
  | (k, v) :: l' => if bool_decide (k = key) then (k, value) :: l' else (k, v) :: assoc_set key value l'
  end.

(** ** The disabled coordinator *)

(** [src: travis/coding_agent/operations/coordinator.py:82-95 NullOperationCoordinator.__init__] *)
Definition null_coordinator_diagnostics (reason_code : string) (has_sink : bool)
    : list OperationJournalDiagnostic :=
  if negb (bool_decide (reason_code = "disabled")) && has_sink
  then [journal_diagnostic "session"] else [].

(** ** The coordinator's methods *)

(** The calls a session makes. *)
Inductive coordinator_call : Type :=
  | CoStart (kind : string) (session_id : option string)
  | CoAdvance (phase : string) (regs : list (string * pyval))
  | CoBeginEffect (kind name fingerprint : string) (effect_classes : list string)
  | CoSettleEffect (handle : option EffectHandle) (outcome_code : string)
  | CoRecordUsage (source_key provider model : string)
      (input_tokens output_tokens cache_read_tokens cache_write_tokens : Z) (cost : float64)
  | CoComplete (outcome_code : string)
  | CoDisable
  | CoClose.

(** What they return. *)
Inductive coordinator_reply : Type :=
  | RStart (operation_id : option string)
  | RAdvance (counter : Z)
  | RBeginEffect (handle : option EffectHandle)
  | RBool (b : bool)
  | RNone.

(** [src: travis/coding_agent/operations/coordinator.py:97-153 NullOperationCoordinator]:
    each method's value; none of them has an effect. *)
Definition null_reply (c : coordinator_call) : coordinator_reply :=
  match c with
  | CoStart _ _ => RStart None
  | CoAdvance _ _ => RAdvance 0
  | CoBeginEffect _ _ _ _ => RBeginEffect None
  | CoSettleEffect _ _ | CoRecordUsage _ _ _ _ _ _ _ _ | CoComplete _ => RBool false
  | CoDisable | CoClose => RNone
  end.

Section coordinator.
Context {S : Type} `{Journal S}.
Variable clock_ms : nat → Z.
Variable sha256_hex : string → string.

(** The journal, and how often the clock has been read. *)
Record world : Type := {
  w_journal : S;
  w_reads : nat
}.

Record costate : Type := {
  cs_world : world;
  cs_co : OperationCoordinator
}.

Definition co_m (A : Type) : Type := st costate order_error A.

(** Read the clock, as a call's argument does. *)
Definition read_clock (w : world) : Z * world :=
  (clock_ms (w_reads w), {| w_journal := w_journal w; w_reads := Datatypes.S (w_reads w) |}).

(** [try: store.f(..., clock_ms()) except Exception: ...]: the value, or [None]
    when the store raised; the journal is what the store left. *)
Definition try_journal {A} (f : Z → st S store_error A) (w : world) : option A * world :=
  let (now, w) := read_clock w in
  match f now (w_journal w) with
  | (Ok a, s) => (Some a, {| w_journal := s; w_reads := w_reads w |})
  | (Err _, s) => (None, {| w_journal := s; w_reads := w_reads w |})
  end.

Definition modify_co (f : OperationCoordinator → OperationCoordinator) : co_m unit :=
  st_modify (λ x, {| cs_world := cs_world x; cs_co := f (cs_co x) |}).

Definition get_co : co_m OperationCoordinator := λ x, (Ok (cs_co x), x).

Definition journal_call {A} (f : Z → st S store_error A) : co_m (option A) := λ x,
  let (r, w) := try_journal f (cs_world x) in
  (Ok r, {| cs_world := w; cs_co := cs_co x |}).

(** [src: travis/coding_agent/operations/coordinator.py:364-369 OperationCoordinator._require_operation] *)
Definition require_operation : co_m (option string) :=
  c ← get_co;
  if negb (co_enabled c) then mret None
  else match co_operation_id c with
  | None => mthrow (OperationCoordinatorOrderError "operation_not_started")
  | Some id => mret (Some id)
  end.

(** [src: travis/coding_agent/operations/coordinator.py:189-209 OperationCoordinator.start] *)
Definition co_start (kind : string) (session_id : option string) : co_m (option string) :=
  c ← get_co;
  if negb (co_enabled c) then mret None
  else if bool_decide (co_operation_id c ≠ None)
  then mthrow (OperationCoordinatorOrderError "operation_already_started")
  else if match session_id with
          | Some s => bool_decide (s ≠ co_session_seed c)
          | None => false
          end
  then mthrow (OperationCoordinatorOrderError "session_identity_mismatch")
  else
    _ ← modify_co (co_with_kind (Some kind));
    r ← journal_call (j_create_operation (co_runtime_id c) (sha256_hex (co_session_seed c)) kind);
    match r with
    | None => _ ← modify_co co_disable; mret None
    | Some operation_id =>
        _ ← modify_co (co_with_operation (Some operation_id));
        mret (Some operation_id)
    end.

(** [src: travis/coding_agent/operations/coordinator.py:211-225 OperationCoordinator.advance] *)
Definition co_advance (phase : string) (regs : list (string * pyval)) : co_m Z :=
  o ← require_operation;
  match o with
  | None => mret 0
  | Some operation_id =>
      r ← journal_call (j_advance operation_id phase regs);
      match r with
      | None => _ ← modify_co co_disable; mret 0
      | Some counter => mret counter
      end
  end.

(** [src: travis/coding_agent/operations/coordinator.py:227-252 OperationCoordinator.begin_effect] *)
Definition co_begin_effect (kind name fingerprint : string) (effect_classes : list string)
    : co_m (option EffectHandle) :=
  o ← require_operation;
  match o with
  | None => mret None
  | Some operation_id =>
      r ← journal_call (λ now, j_begin_effect operation_id kind name fingerprint now effect_classes);
      match r with
      | None => _ ← modify_co co_disable; mret None
      | Some effect_id =>
          let handle := {| eh_operation_id := operation_id; eh_effect_id := effect_id |} in
          _ ← modify_co (λ c, co_with_effects (assoc_set effect_id handle (co_effects c)) c);
          mret (Some handle)
      end
  end.

(** [src: travis/coding_agent/operations/coordinator.py:254-278 OperationCoordinator.settle_effect] *)
Definition co_settle_effect (handle : option EffectHandle) (outcome_code : string) : co_m bool :=
  o ← require_operation;
  match o with
  | None => mret false
  | Some operation_id =>
      c ← get_co;
      match handle with
      | None => mthrow (OperationCoordinatorOrderError "effect_handle_unknown")
      | Some h =>
          if bool_decide (eh_operation_id h ≠ operation_id) ||
             bool_decide (eh_effect_id h ∉ (co_effects c).*1)
          then mthrow (OperationCoordinatorOrderError "effect_handle_unknown")
          else
            r ← journal_call (j_settle_effect (eh_effect_id h)
                                (settlement_state outcome_code) outcome_code);
            match r with
            | None => _ ← modify_co co_disable; mret false
            | Some _ =>
                _ ← modify_co (λ c, co_with_effects (assoc_remove (eh_effect_id h) (co_effects c)) c);
                mret true
            end
      end
  end.

(** [src: travis/coding_agent/operations/coordinator.py:280-312 OperationCoordinator.record_usage] *)
Definition co_record_usage (source_key provider model : string)
    (input_tokens output_tokens cache_read_tokens cache_write_tokens : Z) (cost : float64)
    : co_m bool :=
  o ← require_operation;
  match o with
  | None => mret false
  | Some operation_id =>
      r ← journal_call (λ now, j_record_usage
        {| use_operation_id := operation_id; use_source_key := source_key;
           use_provider := provider; use_model := model; use_input_tokens := input_tokens;
           use_output_tokens := output_tokens; use_cache_read_tokens := cache_read_tokens;
           use_cache_write_tokens := cache_write_tokens; use_cost := cost;
           use_created_at_ms := now |});
      match r with
      | None => _ ← modify_co co_disable; mret false
      | Some _ => mret true
      end
  end.

(** The settlements of [complete], in the order of the tracked effects; the first
    exception ends them. *)
Fixpoint settle_effects (state code : string) (handles : list EffectHandle) : co_m bool :=
  match handles with
  | [] => mret true
  | h :: rest =>
      r ← journal_call (j_settle_effect (eh_effect_id h) state code);
      match r with
      | None => mret false
      | Some _ => settle_effects state code rest
      end
  end.

(** [src: travis/coding_agent/operations/coordinator.py:314-337 OperationCoordinator.complete] *)
Definition co_complete (outcome_code : string) : co_m bool :=
  o ← require_operation;
  match o with
  | None => mret false
  | Some operation_id =>
      let state := settlement_state outcome_code in
      let cancelled := bool_decide (state = "cancelled") in
      c ← get_co;
      settled ← settle_effects (if cancelled then "cancelled" else "failed")
        (if cancelled then "cancelled" else "operation_ended") (co_effects c).*2;
      r ← (if settled : bool
           then journal_call (j_settle_operation operation_id state outcome_code)
           else mret None);
      match r with
      | None => _ ← modify_co co_disable; mret false
      | Some _ =>
          _ ← modify_co (λ c, co_with_kind None (co_with_operation None (co_with_effects [] c)));
          mret true
      end
  end.

(** [src: travis/coding_agent/operations/coordinator.py:356-362 OperationCoordinator.close] *)
Definition co_close : co_m unit :=
  c ← get_co;
  if co_closed c then mret tt
  else
    _ ← (if co_enabled_flag c && bool_decide (co_operation_id c ≠ None)
         then _ ← co_complete "cancelled"; mret tt
         else mret tt);
    modify_co co_with_closed.

Definition co_call (c : coordinator_call) : co_m coordinator_reply :=
  match c with
  | CoStart k s => r ← co_start k s; mret (RStart r)
  | CoAdvance p rs => r ← co_advance p rs; mret (RAdvance r)
  | CoBeginEffect k n f cs => r ← co_begin_effect k n f cs; mret (RBeginEffect r)
  | CoSettleEffect h o => r ← co_settle_effect h o; mret (RBool r)
  | CoRecordUsage sk p m i o cr cw co =>
      r ← co_record_usage sk p m i o cr cw co; mret (RBool r)
  | CoComplete o => r ← co_complete o; mret (RBool r)
  | CoDisable => _ ← modify_co co_disable; mret RNone
  | CoClose => _ ← co_close; mret RNone
  end.

(** ** Recovery of lost runtimes (recovery.py) *)

(** [src: travis/coding_agent/operations/recovery.py:15-15 _HEARTBEAT_LEASE_MS] *)
Definition HEARTBEAT_LEASE_MS : Z := 60000.

(** What looking a process up gives: its creation time; [NoSuchProcess]; one of
    the errors that leave the question open (access denied, [OSError],
    [ValueError]); any other exception. *)
Inductive process_lookup_result : Type :=
  | ProcessFound (create_time : float64)
  | ProcessMissing
  | ProcessInaccessible
  | ProcessLookupFails.

(** The float literal 0.01. *)
Definition one_hundredth : float64 := fl_lit 5764607523034235 (-59).

(** [src: travis/coding_agent/operations/recovery.py:83-98 _runtime_is_live]:
    [None] when the lookup raises an exception that is not handled here. *)
Definition runtime_is_live (lookup : Z → process_lookup_result) (now_ms : Z)
    (lease : RuntimeLease) : option bool :=
  match rt_closed_at_ms lease with
  | Some _ => Some false
  | None =>
      match lookup (rt_pid lease) with
      | ProcessMissing => Some false
      | ProcessInaccessible => Some (now_ms - rt_heartbeat_at_ms lease <=? HEARTBEAT_LEASE_MS)
      | ProcessLookupFails => None
      | ProcessFound create_time =>
          Some (fl_leb (fl_abs (fl_sub create_time (rt_process_create_time lease))) one_hundredth)
      end
  end.

(** [src: travis/coding_agent/operations/recovery.py:19-41 RecoveryReport] *)
Record RecoveryReport : Type := {
  inspected_runtime_count : Z;
  live_runtime_count : Z;
  stale_runtime_count : Z;
  uncertain_effect_count : Z;
  uncertain_operation_count : Z;
  report_unavailable : bool
}.

Definition unavailable_report (unavailable : bool) : RecoveryReport :=
  {| inspected_runtime_count := 0; live_runtime_count := 0; stale_runtime_count := 0;
     uncertain_effect_count := 0; uncertain_operation_count := 0;
     report_unavailable := unavailable |}.

(** The loop over the leases: how many are live, and the identifiers of the
    others in order. *)
Fixpoint classify_leases (lookup : Z → process_lookup_result) (now_ms : Z)
    (leases : list RuntimeLease) : option (Z * list string) :=
  match leases with
  | [] => Some (0, [])
  | lease :: rest =>
      live ← runtime_is_live lookup now_ms lease;
      '(n, stale) ← classify_leases lookup now_ms rest;
      Some (if live : bool then (n + 1, stale) else (n, rt_runtime_id lease :: stale))
  end.

(** [src: travis/coding_agent/operations/recovery.py:44-80 OperationRecovery.inspect] *)
Definition recovery_inspect (lookup : Z → process_lookup_result) (observed_at : Z)
    (exclude_runtime_id : option string) (s : S) : RecoveryReport * S :=
  match j_recovery_leases s with
  | (Err _, s) => (unavailable_report true, s)
  | (Ok all, s) =>
      let leases := List.filter
        (λ lease, bool_decide (Some (rt_runtime_id lease) ≠ exclude_runtime_id)) all in
      match classify_leases lookup observed_at leases with
      | None => (unavailable_report true, s)
      | Some (live, stale) =>
          match j_mark_runtimes_uncertain stale observed_at s with
          | (Err _, s) => (unavailable_report true, s)
          | (Ok (n_effects, n_operations), s) =>
              ({| inspected_runtime_count := Z.of_nat (length leases);
                  live_runtime_count := live;
                  stale_runtime_count := Z.of_nat (length stale);
                  uncertain_effect_count := n_effects;
                  uncertain_operation_count := n_operations;
                  report_unavailable := false |}, s)
          end
      end
  end.

(** ** The runtime: one lease and the coordinators of a process *)

(** [src: travis/coding_agent/operations/coordinator.py:387-406 OperationRuntime.__init__] *)
Record OperationRuntime : Type := {
  or_has_store : bool;
  or_runtime_id : string;
  or_coordinators : list nat;
  or_closed : bool;
  or_unavailable_reason : option string;
  or_report : RecoveryReport;
  or_heartbeat_running : bool
}.

(** The world of a process: the journal, every coordinator created so far (the
    sessions hold them by reference), and the runtime. *)
Record runtime_world : Type := {
  rw_world : option world;
  rw_coordinators : list OperationCoordinator;
  rw_runtime : OperationRuntime
}.

(** [src: travis/coding_agent/operations/coordinator.py:375-408 OperationRuntime.__init__]
    without a store.  Reading the creation time of the own process comes first;
    [None] stands for psutil raising. *)
Definition runtime_without_store (own_create_time : option float64) (runtime_id reason : string)
    : option runtime_world :=
  _ ← own_create_time;
  Some {| rw_world := None; rw_coordinators := [];
          rw_runtime := {| or_has_store := false; or_runtime_id := runtime_id;
            or_coordinators := []; or_closed := false; or_unavailable_reason := Some reason;
            or_report := unavailable_report (bool_decide (reason = "journal_unavailable"));
            or_heartbeat_running := false |} |}.

(** [src: travis/coding_agent/operations/coordinator.py:375-422 OperationRuntime.__init__]
    over a store: the lease is opened, then the heartbeat thread started. *)
Definition runtime_with_store (own_create_time : option float64) (pid : Z) (runtime_id : string)
    (heartbeat : bool) (w : world) : option runtime_world :=
  create_time ← own_create_time;
  match try_journal (j_open_runtime runtime_id pid create_time) w with
  | (None, _) => None
  | (Some _, w) =>
      Some {| rw_world := Some w; rw_coordinators := [];
              rw_runtime := {| or_has_store := true; or_runtime_id := runtime_id;
                or_coordinators := []; or_closed := false; or_unavailable_reason := None;
                or_report := unavailable_report false; or_heartbeat_running := heartbeat |} |}
  end.

(** [src: travis/coding_agent/operations/coordinator.py:424-464 OperationRuntime.from_settings].
    [disabled]: the mode of the settings; [opened]: the store the constructor
    returns, if it does not raise (or if "maxBytes" cannot be read);
    [observed_at]: the time recovery reads; [None] when the call raises. *)
Definition from_settings (disabled : bool) (opened : option S) (own_create_time : option float64)
    (pid : Z) (runtime_id fallback_runtime_id : string) (heartbeat : bool)
    (lookup : Z → process_lookup_result) (observed_at : Z) : option runtime_world :=
  if disabled then runtime_without_store own_create_time runtime_id "disabled"
  else
    match (s ← opened;
           runtime_with_store own_create_time pid runtime_id heartbeat
             {| w_journal := s; w_reads := 0 |}) with
    | Some {| rw_world := Some w; rw_coordinators := cs; rw_runtime := r |} =>
        let (report, s) := recovery_inspect lookup observed_at (Some runtime_id) (w_journal w) in
        Some {| rw_world := Some {| w_journal := s; w_reads := w_reads w |};
                rw_coordinators := cs;
                rw_runtime := {| or_has_store := or_has_store r; or_runtime_id := or_runtime_id r;
                  or_coordinators := or_coordinators r; or_closed := or_closed r;
                  or_unavailable_reason := or_unavailable_reason r; or_report := report;
                  or_heartbeat_running := or_heartbeat_running r |} |}
    | _ => runtime_without_store own_create_time fallback_runtime_id "journal_unavailable"
    end.

(** What a session is given. *)
Inductive session_coordinator : Type :=
  | SessionCoordinator (index : nat)
  | SessionNull (reason : string) (diagnostics : list OperationJournalDiagnostic).

(** [src: travis/coding_agent/operations/coordinator.py:474-498 OperationRuntime.for_session] *)
Definition for_session (hex : string) (session_id : option string) (has_sink : bool)
    (x : runtime_world) : session_coordinator * runtime_world :=
  let r := rw_runtime x in
  if or_closed r || negb (or_has_store r) || bool_decide (or_unavailable_reason r ≠ None)
  then
    let reason := default "journal_unavailable" (or_unavailable_reason r) in
    (SessionNull reason (null_coordinator_diagnostics reason has_sink), x)
  else
    let i := length (rw_coordinators x) in
    (SessionCoordinator i,
     {| rw_world := rw_world x;
        rw_coordinators := rw_coordinators x ++
          [new_coordinator hex (or_runtime_id r) session_id has_sink];
        rw_runtime := {| or_has_store := or_has_store r; or_runtime_id := or_runtime_id r;
          or_coordinators := or_coordinators r ++ [i]; or_closed := or_closed r;
          or_unavailable_reason := or_unavailable_reason r; or_report := or_report r;
          or_heartbeat_running := or_heartbeat_running r |} |}).

(** [src: travis/coding_agent/operations/coordinator.py:500-511 OperationRuntime._heartbeat_once] *)
Definition heartbeat_once (x : runtime_world) : bool * runtime_world :=
  let r := rw_runtime x in
  let (ok, w) := match rw_world x with
                 | None => (None, None)
                 | Some w => let (a, w) := try_journal (j_heartbeat_runtime (or_runtime_id r)) w in
                             (a, Some w)
                 end in
  match ok with
  | Some _ => (true, {| rw_world := w; rw_coordinators := rw_coordinators x; rw_runtime := r |})
  | None =>
      (false,
       {| rw_world := w;
          rw_coordinators := foldl (λ cs i, alter co_disable i cs)
            (rw_coordinators x) (or_coordinators r);
          rw_runtime := {| or_has_store := or_has_store r; or_runtime_id := or_runtime_id r;
            or_coordinators := or_coordinators r; or_closed := or_closed r;
            or_unavailable_reason := Some "journal_unavailable"; or_report := or_report r;
            or_heartbeat_running := or_heartbeat_running r |} |})
  end.

(** What one wait of the heartbeat thread ends with. *)
Inductive heartbeat_wait : Type :=
  | WaitTimedOut
  | WaitStopped
  | WaitRuntimeGone.

(** [src: travis/coding_agent/operations/coordinator.py:43-55 _heartbeat_loop], over
    the outcomes of its waits; the number of heartbeats sent. *)
Fixpoint heartbeat_loop (waits : list heartbeat_wait) (x : runtime_world) : nat * runtime_world :=
  match waits with
  | WaitTimedOut :: rest =>
      let (keep_running, x) := heartbeat_once x in
      if keep_running
      then let (n, x) := heartbeat_loop rest x in (Datatypes.S n, x)
      else (1%nat, x)
  | _ => (O, x)
  end.

(** A method of the coordinator at index [i]. *)
Definition session_call (i : nat) (c : coordinator_call) (x : runtime_world)
    : result order_error coordinator_reply * runtime_world :=
  match rw_world x, rw_coordinators x !! i with
  | Some w, Some co =>
      let (r, cs) := co_call c {| cs_world := w; cs_co := co |} in
      (r, {| rw_world := Some (cs_world cs);
             rw_coordinators := <[i := cs_co cs]> (rw_coordinators x);
             rw_runtime := rw_runtime x |})
  | _, _ => (Ok (null_reply c), x)
  end.

(** [src: travis/coding_agent/operations/coordinator.py:513-536 OperationRuntime.close] *)
Definition runtime_close (x : runtime_world) : runtime_world :=
  let r := rw_runtime x in
  if or_closed r then x
  else
    let x := {| rw_world := rw_world x; rw_coordinators := rw_coordinators x;
                rw_runtime := {| or_has_store := or_has_store r; or_runtime_id := or_runtime_id r;
                  or_coordinators := []; or_closed := true;
                  or_unavailable_reason := or_unavailable_reason r; or_report := or_report r;
                  or_heartbeat_running := false |} |} in
    let x := foldl (λ x i, (session_call i CoClose x).2) x (or_coordinators r) in
    match rw_world x with
    | None => x
    | Some w =>
        let w := (try_journal (j_close_runtime (or_runtime_id r)) w).2 in
        let s := (j_close (w_journal w)).2 in
        {| rw_world := Some {| w_journal := s; w_reads := w_reads w |};
           rw_coordinators := rw_coordinators x; rw_runtime := rw_runtime x |}
    end.
End coordinator.
