(* ===== verification/JournalCoordinatorSpec.v ===== *)
(** What session coordination promises: a coordinator that is disabled or closed
    does nothing, an order error changes nothing, a failing journal is reported at
    most once and never reaches the session, and completing an operation settles
    everything it opened.  The store of JournalStore.v implements the interface. *)

From S2P Require Import Prelude Json PyFloat JournalTypes JournalStore JournalStoreSpec JournalCoordinator.
Open Scope Z_scope.

(** ** The store as an implementation of the interface *)

(** A store file with the outcomes of its future transactions and identifiers. *)
Record store_file : Type := {
  sf_store : OperationStore;
  sf_io : nat → tx_io;
  sf_hex : nat → string;
  sf_tick : nat
}.

Definition via {A B} (f : tx_io → string → store_m A) (g : A → B) : st store_file store_error B :=
  λ s,
  let (r, s') := f (sf_io s (sf_tick s)) (sf_hex s (sf_tick s)) (sf_store s) in
  (g <$> r, {| sf_store := s'; sf_io := sf_io s; sf_hex := sf_hex s; sf_tick := S (sf_tick s) |}).

#[export] Instance store_journal : Journal store_file := {|
  j_open_runtime r p t n := via (λ io _, open_runtime io r p t n) (λ _, tt);
  j_heartbeat_runtime r n := via (λ io _, heartbeat_runtime io r n) (λ _, tt);
  j_close_runtime r n := via (λ io _, close_runtime io r n) (λ _, tt);
  j_create_operation r f k n := via (λ io hex, create_operation io hex r f k n) op_operation_id;
  j_advance o p rs n := via (λ io _, advance io o p rs n) op_program_counter;
  j_begin_effect o k nm f n cs := via (λ io hex, begin_effect io hex o k nm f n cs) eff_effect_id;
  j_settle_effect e s c n := via (λ io _, settle_effect io e s c n) (λ _, tt);
  j_record_usage u := via (λ io _, record_usage io u) (λ _, tt);
  j_settle_operation o s c n := via (λ io _, settle_operation io o s c n) (λ _, tt);
  j_recovery_leases := via (λ _ _ s, (recovery_leases s, s)) id;
  j_mark_runtimes_uncertain ids n := via (λ io _, mark_runtimes_uncertain io ids n) id;
  j_close := via (λ _ _, st_modify close_store) (λ _, tt);
  j_effect_outcome s e :=
    (λ r, (eff_state r, eff_outcome_code r)) <$> effects (store_db (sf_store s)) !! e;
  j_operation_outcome s o :=
    (λ r, (op_state r, op_outcome_code r)) <$> operations (store_db (sf_store s)) !! o
|}.

Lemma via_ok {A B} (f : tx_io → string → store_m A) (g : A → B) s b s' :
  via f g s = (Ok b, s') →
  ∃ io hex a, f io hex (sf_store s) = (Ok a, sf_store s') ∧ b = g a.
Proof.
  unfold via. intros H.
  destruct (f _ _ _) as [[a|e] s1] eqn:Hf; cbn in H; [|done]. simplify_eq.
  do 3 eexists. split; [exact Hf|done].
Qed.

Lemma settle_effect_frame io id state code now s :
  state ≠ "intent" →
  wp (settle_effect io id state code now) (λ r s',
    effects (store_db s') !! id = Some r ∧ eff_state r = state ∧ eff_outcome_code r = Some code ∧
    ∀ id', id' ≠ id → effects (store_db s') !! id' = effects (store_db s) !! id') s.
Proof.
  intros Hst. apply wp_transaction. wp_steps; same_record; bool_prop; try done.
  cbn. rewrite lookup_alter_eq, Heqo. split_and!; try done.
  intros id' Hne. by rewrite lookup_alter_ne.
Qed.

Lemma settle_operation_frame io id state code now s :
  state ≠ "running" →
  wp (settle_operation io id state code now) (λ r s',
    operations (store_db s') !! id = Some r ∧ op_state r = state ∧ op_outcome_code r = Some code ∧
    effects (store_db s') = effects (store_db s)) s.
Proof.
  intros Hst. apply wp_transaction. unfold operation_row.
  wp_steps; same_record; bool_prop; try done.
  cbn. rewrite lookup_alter_eq, Heqo. by split_and!.
Qed.

#[export] Instance store_journal_laws : JournalLaws store_file.
Proof.
  refine {| j_wf s := store_inv (sf_store s) |}.
  - intros id state code now s s' Hs Hst Hset.
    apply (via_ok (λ io _, settle_effect io id state code now)) in Hset as (io & _ & r & Hset & _).
    pose proof (settle_effect_inv io id state code now _ Hs) as Hs'. rewrite Hset in Hs'.
    destruct (settle_effect_frame _ _ _ _ _ _ Hst _ _ Hset) as (Hr & Hrst & Hrc & Hother).
    split; [done|]. cbn. rewrite Hr. cbn. rewrite Hrst, Hrc. split; [done|].
    intros id' Hne. by rewrite Hother.
  - intros id state code now s s' Hs Hst Hset.
    apply (via_ok (λ io _, settle_operation io id state code now))
      in Hset as (io & _ & r & Hset & _).
    pose proof (settle_operation_inv io id state code now _ Hs) as Hs'. rewrite Hset in Hs'.
    destruct (settle_operation_frame _ _ _ _ _ _ Hst _ _ Hset) as (Hr & Hrst & Hrc & Heff).
    split; [done|]. cbn. rewrite Hr. cbn. rewrite Hrst, Hrc, Heff. done.
Defined.

(** ** Invariants of a coordinator *)

Section coordinator_lemmas.
Context {S : Type} `{Journal S}.
Variable clock_ms : nat → Z.
Variable sha256_hex : string → string.

#[local] Notation call := (co_call clock_ms sha256_hex).

(** The bookkeeping: tracked handles belong to the open operation and are keyed by
    their effect; the journal's failure was reported exactly when it happened. *)
Record co_inv (c : OperationCoordinator) : Prop := {
  ci_keys : Forall (λ kh : string * EffectHandle, eh_effect_id kh.2 = kh.1 ∧
    Some (eh_operation_id kh.2) = co_operation_id c) (co_effects c);
  ci_nodup : NoDup (co_effects c).*1;
  ci_emitted : co_diagnostic_emitted c = negb (co_enabled_flag c);
  ci_diagnostics : length (co_diagnostics c) =
    if negb (co_enabled_flag c) && co_has_sink c then 1%nat else 0%nat
}.

Lemma co_inv_init hex r sid sink : co_inv (new_coordinator hex r sid sink).
Proof. constructor; cbn; try done; constructor. Qed.

Lemma co_inv_disable c : co_inv c → co_inv (co_disable c).
Proof.
  intros Hc. unfold co_disable. destruct (co_enabled_flag c) eqn:He; [|done].
  destruct Hc as [? ? Hem Hd]. rewrite He in *. cbn in *.
  constructor; cbn; try done. rewrite Hem. destruct (co_has_sink c); [|done].
  by rewrite length_app, Hd.
Qed.

Lemma co_disable_fields c :
  co_effects (co_disable c) = co_effects c ∧ co_operation_id (co_disable c) = co_operation_id c ∧
  co_has_sink (co_disable c) = co_has_sink c.
Proof. unfold co_disable. by destruct (co_enabled_flag c). Qed.

Ltac run_call :=
  unfold co_call, co_start, co_advance, co_begin_effect, co_settle_effect, co_record_usage,
    co_complete, co_close, require_operation, journal_call, get_co, modify_co;
  st_eval; cbn [cs_co cs_world].

Lemma disabled_call c x :
  co_enabled (cs_co x) = false →
  (call c x).1 = Ok (null_reply c) ∧ cs_world (call c x).2 = cs_world x.
Proof.
  destruct x as [w co]. cbn. intros Hen. destruct c; run_call; rewrite ?Hen; cbn; try done.
  unfold co_enabled in Hen. destruct (co_closed co) eqn:Hc; cbn; [done|].
  rewrite andb_true_r in Hen. by rewrite Hen.
Qed.

Lemma settle_effects_returns state code hs x :
  ∃ b w, settle_effects clock_ms state code hs x = (Ok b, {| cs_world := w; cs_co := cs_co x |}).
Proof.
  revert x. induction hs as [|h hs IH]; intros [w co]; cbn [settle_effects].
  - by exists true, w.
  - run_call. destruct (try_journal _ _ _) as [[[]|] w']; [|by exists false, w'].
    apply (IH {| cs_world := w'; cs_co := co |}).
Qed.

Ltac case_call :=
  repeat match goal with
  | |- context [settle_effects ?k ?st ?c ?hs ?x] =>
      let b := fresh "b" in let w := fresh "w" in let Hb := fresh "Hb" in
      destruct (settle_effects_returns st c hs x) as (b & w & Hb);
      rewrite Hb; destruct b; cbn [cs_world cs_co]
  | |- context [try_journal ?k ?f ?w] =>
      let r := fresh "r" in destruct (try_journal k f w) as [[r|] ?]; cbn [cs_world cs_co]
  | |- context [match ?x with _ => _ end] =>
      match type of x with
      | bool => destruct x eqn:?
      | option _ => destruct x eqn:?
      end; cbn [cs_world cs_co]
  end.

Definition co_cleared (c : OperationCoordinator) : OperationCoordinator :=
  co_with_kind None (co_with_operation None (co_with_effects [] c)).

Lemma complete_returns code w co id :
  co_enabled co = true → co_operation_id co = Some id →
  ∃ b w', co_complete clock_ms code {| cs_world := w; cs_co := co |} =
    (Ok b, {| cs_world := w'; cs_co := if b : bool then co_cleared co else co_disable co |}).
Proof.
  intros Hen Hop. run_call. rewrite Hen, Hop. cbn [negb]. case_call; cbn;
    first [by exists true; eexists | by exists false; eexists].
Qed.

Lemma close_spec w co :
  ∃ w' co', co_close clock_ms {| cs_world := w; cs_co := co |} =
      (Ok tt, {| cs_world := w'; cs_co := co' |}) ∧
    (co' = co ∧ co_closed co = true ∧ w' = w ∨
     co' = co_with_closed co ∧ co_closed co = false ∧ w' = w ∧
       (co_enabled_flag co = false ∨ co_operation_id co = None) ∨
     (co' = co_with_closed (co_cleared co) ∨ co' = co_with_closed (co_disable co)) ∧
       co_enabled co = true ∧ is_Some (co_operation_id co)).
Proof.
  unfold co_close, get_co, modify_co. st_eval. cbn [cs_co].
  destruct (co_closed co) eqn:Hc; [by eauto 10|].
  destruct (co_enabled_flag co) eqn:Hf; cbn [andb]; [|by eauto 15].
  destruct (co_operation_id co) as [id|] eqn:Hop; cbn [bool_decide].
  - rewrite bool_decide_eq_true_2 by done.
    assert (co_enabled co = true) as Hen by (unfold co_enabled; by rewrite Hf, Hc).
    destruct (complete_returns "cancelled" w co id Hen Hop) as (b & w' & Hb).
    rewrite Hb. cbn. do 2 eexists. split; [done|]. right. right. destruct b; eauto.
  - rewrite bool_decide_eq_false_2 by (intros Hn; by apply Hn). cbn. do 2 eexists.
    split; [done|]. right. left. eauto.
Qed.

Lemma order_error_call c x e : (call c x).1 = Err e → (call c x).2 = x.
Proof.
  destruct x as [w co]. destruct c; try (run_call; case_call; cbn; done).
  cbn [co_call]. destruct (close_spec w co) as (w' & co' & Hc & _).
  st_eval. by rewrite Hc.
Qed.

(** ** The bookkeeping invariant is kept by every call *)

Lemma assoc_remove_keys {V} k (l : list (string * V)) kv :
  kv ∈ assoc_remove k l → kv ∈ l ∧ kv.1 ≠ k.
Proof.
  induction l as [|[k' v] l IH]; cbn; [by intros ?%not_elem_of_nil|].
  case_bool_decide.
  - intros [? ?]%IH. split; [by apply list_elem_of_further|done].
  - intros [->|[? ?]%IH]%elem_of_cons; (split; [|done]);
      [by apply list_elem_of_here|by apply list_elem_of_further].
Qed.

Lemma assoc_remove_nodup {V} k (l : list (string * V)) :
  NoDup l.*1 → NoDup (assoc_remove k l).*1.
Proof.
  induction l as [|[k' v] l IH]; cbn; [done|]. rewrite NoDup_cons. intros [Hk Hl].
  case_bool_decide; [by apply IH|]. cbn. apply NoDup_cons. split; [|by apply IH].
  contradict Hk. apply list_elem_of_fmap in Hk as (kv & -> & Hin).
  apply assoc_remove_keys in Hin as [Hin _]. by apply list_elem_of_fmap_2.
Qed.

Lemma assoc_set_in {V} k v (l : list (string * V)) kv :
  kv ∈ assoc_set k v l → kv = (k, v) ∨ kv ∈ l.
Proof.
  induction l as [|[k' v'] l IH]; cbn.
  - intros ->%list_elem_of_singleton. by left.
  - case_bool_decide; intros [->|Hin]%elem_of_cons.
    + subst. by left.
    + right. by apply list_elem_of_further.
    + right. apply list_elem_of_here.
    + destruct (IH Hin); [by left|right]. by apply list_elem_of_further.
Qed.

Lemma assoc_set_nodup {V} k v (l : list (string * V)) :
  NoDup l.*1 → NoDup (assoc_set k v l).*1.
Proof.
  induction l as [|[k' v'] l IH]; cbn.
  - intros _. repeat constructor. by apply not_elem_of_nil.
  - rewrite NoDup_cons. intros [Hk Hl]. case_bool_decide; cbn; apply NoDup_cons.
    + by subst.
    + split; [|by apply IH]. intros Hin. apply list_elem_of_fmap in Hin as ([k1 v1] & -> & Hin).
      apply assoc_set_in in Hin as [[= -> ->]|Hin]; [done|].
      apply Hk. by apply (list_elem_of_fmap_2 fst _ (k1, v1)).
Qed.

Lemma co_inv_cleared c : co_inv c → co_inv (co_cleared c).
Proof. intros []. constructor; cbn; try done; constructor. Qed.

Lemma co_inv_closed c : co_inv c → co_inv (co_with_closed c).
Proof. by intros []. Qed.

#[local] Hint Resolve co_inv_disable co_inv_cleared co_inv_closed : travis.

Lemma co_inv_begin c id eid :
  co_inv c → co_operation_id c = Some id →
  co_inv (co_with_effects (assoc_set eid {| eh_operation_id := id; eh_effect_id := eid |}
    (co_effects c)) c).
Proof.
  intros [] Hop. constructor; cbn; try done; [|by apply assoc_set_nodup].
  apply Forall_forall. intros kh [->|Hin]%assoc_set_in; [by rewrite Hop|].
  by apply (proj1 (Forall_forall _ _) ci_keys0).
Qed.

Lemma co_inv_settle c eid :
  co_inv c → co_inv (co_with_effects (assoc_remove eid (co_effects c)) c).
Proof.
  intros []. constructor; cbn; try done; [|by apply assoc_remove_nodup].
  apply Forall_forall. intros kh [Hin _]%assoc_remove_keys.
  by apply (proj1 (Forall_forall _ _) ci_keys0).
Qed.

Lemma co_inv_kind c k : co_inv c → co_inv (co_with_kind k c).
Proof. by intros []. Qed.

Lemma co_inv_start c id :
  co_inv c → co_operation_id c = None → co_inv (co_with_operation (Some id) c).
Proof.
  intros [] Hop. constructor; cbn; try done. eapply Forall_impl; [done|].
  intros kh [_ Hk]. congruence.
Qed.

#[local] Hint Resolve co_inv_begin co_inv_settle co_inv_kind co_inv_start : travis.

Lemma co_inv_call c x : co_inv (cs_co x) → co_inv (cs_co (call c x).2).
Proof.
  destruct x as [w co]. cbn. intros Hco. destruct c; lazymatch goal with
    | |- context [CoClose] => idtac
    | _ => run_call; case_call; cbn; auto with travis
    end.
  - bool_prop. apply co_inv_start; [by apply co_inv_kind|]. cbn.
    destruct (co_operation_id co); [|done].
    match goal with Hn : ¬ (Some _ ≠ None) |- _ => by destruct Hn end.
  - by apply co_inv_cleared.
  - cbn [co_call]. destruct (close_spec w co) as (w' & co' & Hc & Hcases).
    st_eval. rewrite Hc. cbn. destruct Hcases as [(-> & _)|[(-> & _)|([->| ->] & _)]];
      auto with travis.
Qed.

Lemma co_call_sink c x : co_has_sink (cs_co (call c x).2) = co_has_sink (cs_co x).
Proof.
  assert (∀ k, co_has_sink (co_disable k) = co_has_sink k) as Hd
    by (intros k; by destruct (co_disable_fields k) as (_ & _ & ?)).
  destruct x as [w co]. cbn. destruct c; lazymatch goal with
    | |- context [CoClose] => idtac
    | _ => run_call; case_call; cbn; rewrite ?Hd; done
    end.
  cbn [co_call]. destruct (close_spec w co) as (w' & co' & Hc & Hcases).
  st_eval. rewrite Hc. cbn. destruct Hcases as [(-> & _)|[(-> & _)|([->| ->] & _)]]; cbn;
    rewrite ?Hd; done.
Qed.

(** The coordinator after a sequence of calls, whatever each of them gives. *)
Definition co_calls (cs : list coordinator_call) (x : costate) : costate :=
  foldl (λ x c, (call c x).2) x cs.

Lemma co_inv_calls cs x : co_inv (cs_co x) → co_inv (cs_co (co_calls cs x)).
Proof.
  revert x. induction cs as [|c cs IH]; intros x Hx; [done|]. by apply IH, co_inv_call.
Qed.

(** ** Settling every tracked effect *)
Context `{!JournalLaws S}.

Lemma settle_effects_settle state code hs x x' :
  j_wf (w_journal (cs_world x)) → state ≠ "intent" →
  settle_effects clock_ms state code hs x = (Ok true, x') →
  j_wf (w_journal (cs_world x')) ∧
  (∀ h, h ∈ hs → j_effect_outcome (w_journal (cs_world x')) (eh_effect_id h) = Some (state, Some code)) ∧
  (∀ id, j_effect_outcome (w_journal (cs_world x)) id = Some (state, Some code) →
     j_effect_outcome (w_journal (cs_world x')) id = Some (state, Some code)).
Proof.
  revert x. induction hs as [|h hs IH]; intros [w co] Hwf Hst; cbn [settle_effects].
  - intros [= <-]. split_and!; [done| |done]. by intros h ?%not_elem_of_nil.
  - run_call. unfold try_journal, read_clock. cbn.
    destruct (j_settle_effect _ _ _ _ _) as [[[]|e] s'] eqn:Hset; [|done]. intros Hrest.
    cbn in Hwf. apply j_settle_effect_law in Hset as (Hwf' & Hh & Hother); [|done..].
    apply IH in Hrest as (Hwf'' & Hhs & Hkeep); [|done..]. cbn in *.
    split_and!; [done| |].
    + intros k [->|Hk]%elem_of_cons; auto.
    + intros id Hid. apply Hkeep. destruct (decide (id = eh_effect_id h)) as [->|Hne]; [done|].
      by rewrite Hother.
Qed.

Lemma settlement_state_closed code : settlement_state code ≠ "running" ∧ settlement_state code ≠ "intent".
Proof. unfold settlement_state. by repeat case_bool_decide. Qed.

Lemma complete_settles_lemma code x id :
  j_wf (w_journal (cs_world x)) → co_operation_id (cs_co x) = Some id →
  (co_complete clock_ms code x).1 = Ok true →
  let x' := (co_complete clock_ms code x).2 in
  j_operation_outcome (w_journal (cs_world x')) id = Some (settlement_state code, Some code) ∧
  Forall (λ h, j_effect_outcome (w_journal (cs_world x')) (eh_effect_id h) =
      Some (if bool_decide (settlement_state code = "cancelled") then ("cancelled", Some "cancelled")
            else ("failed", Some "operation_ended"))) (co_effects (cs_co x)).*2 ∧
  co_operation_id (cs_co x') = None ∧ co_effects (cs_co x') = [].
Proof.
  destruct x as [w co]. cbn. intros Hwf Hop. destruct (settlement_state_closed code) as [Hrun _].
  run_call. destruct (co_enabled co); [|done]. cbn. rewrite Hop.
  destruct (bool_decide (settlement_state code = "cancelled"));
  match goal with |- context [settle_effects _ ?st ?c ?hs ?x] =>
    destruct (settle_effects_returns st c hs x) as (b & w1 & Hs); rewrite Hs; destruct b; [|done]
  end; cbn [cs_world cs_co].
  all: unfold try_journal, read_clock; cbn.
  all: destruct (j_settle_operation _ _ _ _ _) as [[[]|e] s'] eqn:Hset; [|done]; cbn; intros _.
  all: apply settle_effects_settle in Hs as (Hwf1 & Heff & _); [|done..]; cbn in *.
  all: apply j_settle_operation_law in Hset as (_ & Hout & Hsame); [|done..].
  all: split_and!; [done| |done..]; apply Forall_forall; intros h Hh; rewrite Hsame; by apply Heff.
Qed.

(** ** Recovery *)

Lemma classify_lengths lookup now leases n stale :
  classify_leases lookup now leases = Some (n, stale) →
  n + Z.of_nat (length stale) = Z.of_nat (length leases) ∧ 0 ≤ n ∧
  ∀ rid, rid ∈ stale ↔ ∃ l, l ∈ leases ∧ rt_runtime_id l = rid ∧
    runtime_is_live lookup now l = Some false.
Proof.
  revert n stale. induction leases as [|l ls IH]; cbn; intros n stale.
  - intros [= <- <-]. split_and!; [done..|]. intros rid.
    split; [by intros ?%not_elem_of_nil|by intros (? & ?%not_elem_of_nil & _)].
  - destruct (runtime_is_live lookup now l) as [live|] eqn:Hl; [cbn|done].
    destruct (classify_leases lookup now ls) as [[m st]|]; [cbn|done].
    destruct (IH m st eq_refl) as (Hlen & Hm & Hin). destruct live; intros [= <- <-]; cbn.
    + split_and!; [lia..|]. intros rid. rewrite Hin.
      split; intros (k & Hk & ? & Hd); exists k; split_and!; try done.
      * by apply list_elem_of_further.
      * apply elem_of_cons in Hk as [->|Hk]; [congruence|done].
    + split_and!; [lia..|]. intros rid. rewrite elem_of_cons, Hin. split.
      * intros [->|(k & Hk & ? & ?)]; [exists l|exists k]; split_and!; try done;
          [apply list_elem_of_here|by apply list_elem_of_further].
      * intros (k & Hk & <- & ?). apply elem_of_cons in Hk as [->|Hk]; [by left|right; eauto].
Qed.
End coordinator_lemmas.

(** ** The runtime *)
Section runtime_lemmas.
Context {S : Type} `{Journal S}.
Variable clock_ms : nat → Z.
Variable sha256_hex : string → string.

#[local] Notation session := (session_call clock_ms sha256_hex).

(** Registered coordinators exist, and there is a journal exactly with a store. *)
Record runtime_inv (x : runtime_world (S:=S)) : Prop := {
  ri_indices : Forall (λ i, (i < length (rw_coordinators x))%nat) (or_coordinators (rw_runtime x));
  ri_store : is_Some (rw_world x) ↔ or_has_store (rw_runtime x) = true
}.

Lemma close_call_closed x : co_closed (cs_co (co_call clock_ms sha256_hex CoClose x).2) = true.
Proof.
  destruct x as [w co]. cbn [co_call].
  destruct (close_spec clock_ms w co) as (w' & co' & Hc & Hcases).
  st_eval. rewrite Hc. cbn. destruct Hcases as [(-> & -> & _)|[(-> & _)|([->| ->] & _)]]; done.
Qed.

Lemma session_close i (x : runtime_world (S:=S)) :
  is_Some (rw_world x) →
  let x' := (session i CoClose x).2 in
  is_Some (rw_world x') ∧ rw_runtime x' = rw_runtime x ∧
  length (rw_coordinators x') = length (rw_coordinators x) ∧
  (∀ co, rw_coordinators x' !! i = Some co → co_closed co = true) ∧
  (∀ j co, rw_coordinators x !! j = Some co → co_closed co = true →
     ∃ co', rw_coordinators x' !! j = Some co' ∧ co_closed co' = true).
Proof.
  intros [w Hw]. unfold session_call. rewrite Hw.
  destruct (rw_coordinators x !! i) as [co|] eqn:Hi; cbn [snd].
  - pose proof (close_call_closed {| cs_world := w; cs_co := co |}) as Hc.
    destruct (co_call _ _ _ _) as [r cs]. cbn in *. split_and!; [by eexists|done| | |].
    + by rewrite length_insert.
    + intros co'. rewrite list_lookup_insert_eq by (by eapply lookup_lt_Some).
      by intros [= <-].
    + intros j co' Hj Hcl. destruct (decide (j = i)) as [->|Hne].
      * eexists. rewrite list_lookup_insert_eq by (by eapply lookup_lt_Some). done.
      * exists co'. by rewrite list_lookup_insert_ne.
  - rewrite Hw, Hi. split_and!; [by eexists|done..|]. eauto.
Qed.

Lemma close_all ixs (x : runtime_world (S:=S)) :
  is_Some (rw_world x) →
  let x' := foldl (λ x i, (session i CoClose x).2) x ixs in
  is_Some (rw_world x') ∧ rw_runtime x' = rw_runtime x ∧
  length (rw_coordinators x') = length (rw_coordinators x) ∧
  (∀ i co, i ∈ ixs → rw_coordinators x' !! i = Some co → co_closed co = true) ∧
  (∀ j co, rw_coordinators x !! j = Some co → co_closed co = true →
     ∃ co', rw_coordinators x' !! j = Some co' ∧ co_closed co' = true).
Proof.
  revert x. induction ixs as [|i ixs IH]; intros x Hw; cbn.
  - split_and!; [done..| |eauto]. by intros ? ? ?%not_elem_of_nil.
  - destruct (session_close i x Hw) as (Hw1 & Hr1 & Hl1 & Hc1 & Hk1).
    destruct (IH _ Hw1) as (Hw2 & Hr2 & Hl2 & Hc2 & Hk2).
    split_and!; [done|congruence|congruence| |].
    + intros j co [->|Hj]%elem_of_cons Hco; [|by eapply Hc2].
      destruct (rw_coordinators (session i CoClose x).2 !! i) as [co1|] eqn:E.
      * destruct (Hk2 _ _ E (Hc1 _ eq_refl)) as (co2 & E2 & ?). congruence.
      * apply lookup_ge_None in E. apply lookup_lt_Some in Hco. lia.
    + intros j co Hj Hcl. destruct (Hk1 _ _ Hj Hcl) as (co1 & Hj1 & Hcl1). eauto.
Qed.
End runtime_lemmas.

(** ** Properties *)

(** fail-open, quietly.  A coordinator that is disabled or closed answers
    every call exactly as the null coordinator does, and neither the journal nor
    the clock is touched. *)
Theorem disabled_is_null {St} `{Journal St} clock sha c x :
  co_enabled (cs_co x) = false →
  (co_call clock sha c x).1 = Ok (null_reply c) ∧ cs_world (co_call clock sha c x).2 = cs_world x.
Proof. apply disabled_call. Qed.

(** a call out of order is the only thing a coordinator raises, and it raises
    before touching anything: the journal, the clock and the coordinator are as
    before. *)
Theorem order_error_no_effect {St} `{Journal St} clock sha c x e :
  (co_call clock sha c x).1 = Err e → (co_call clock sha c x).2 = x.
Proof. apply order_error_call. Qed.

(** bookkeeping.  After any sequence of calls on a new coordinator, the tracked
    handles are distinct effects of the open operation (so none is left when no
    operation is open), and the failure of the journal has been reported exactly
    once if the coordinator is disabled and has a sink, and never otherwise. *)
Theorem coordinator_bookkeeping {St} `{Journal St} clock sha hex rid sid sink w cs :
  let c := cs_co (co_calls clock sha cs
             {| cs_world := w; cs_co := new_coordinator hex rid sid sink |}) in
  Forall (λ kh : string * EffectHandle, eh_effect_id kh.2 = kh.1 ∧
    Some (eh_operation_id kh.2) = co_operation_id c) (co_effects c) ∧
  NoDup (co_effects c).*1 ∧
  length (co_diagnostics c) = if negb (co_enabled_flag c) && co_has_sink c then 1%nat else 0%nat.
Proof.
  intros c. assert (co_inv c) as [] by (apply co_inv_calls, co_inv_init). by split_and!.
Qed.

(** completion.  When [complete] reports success the operation is settled in
    the journal with the outcome it was given, every effect the coordinator still
    tracked is settled too (as cancelled when the operation was cancelled, as
    failed with "operation_ended" otherwise), and the coordinator is free for the
    next operation.  Proved against the interface of the journal. *)
Theorem complete_settles {St} `{HJ : Journal St, !JournalLaws St} clock code x id :
  j_wf (w_journal (cs_world x)) → co_operation_id (cs_co x) = Some id →
  (co_complete clock code x).1 = Ok true →
  let x' := (co_complete clock code x).2 in
  j_operation_outcome (w_journal (cs_world x')) id = Some (settlement_state code, Some code) ∧
  Forall (λ h, j_effect_outcome (w_journal (cs_world x')) (eh_effect_id h) =
      Some (if bool_decide (settlement_state code = "cancelled") then ("cancelled", Some "cancelled")
            else ("failed", Some "operation_ended"))) (co_effects (cs_co x)).*2 ∧
  co_operation_id (cs_co x') = None ∧ co_effects (cs_co x') = [].
Proof. apply complete_settles_lemma. Qed.

(** the recovery report adds up.  When recovery is not reported as
    unavailable, the inspected runtimes are the journal's leases without the
    excluded one, each is counted once as live or stale, exactly the stale ones
    are declared lost to the journal, and the counts are the journal's. *)
Theorem recovery_report_exact {St} `{Journal St} lookup now exclude s rep s' :
  recovery_inspect lookup now exclude s = (rep, s') → report_unavailable rep = false →
  ∃ all s1 stale n_effects n_operations,
    j_recovery_leases s = (Ok all, s1) ∧
    j_mark_runtimes_uncertain stale now s1 = (Ok (n_effects, n_operations), s') ∧
    (∀ rid, rid ∈ stale ↔ ∃ l, l ∈ all ∧ Some rid ≠ exclude ∧ rt_runtime_id l = rid ∧
       runtime_is_live lookup now l = Some false) ∧
    live_runtime_count rep + stale_runtime_count rep = inspected_runtime_count rep ∧
    stale_runtime_count rep = Z.of_nat (length stale) ∧
    uncertain_effect_count rep = n_effects ∧ uncertain_operation_count rep = n_operations.
Proof.
  unfold recovery_inspect. destruct (j_recovery_leases s) as [[all|e] s1]; [|by intros [= <- <-]].
  set (leases := List.filter _ all).
  destruct (classify_leases lookup now leases) as [[live stale]|] eqn:Hc; [|by intros [= <- <-]].
  destruct (j_mark_runtimes_uncertain stale now s1) as [[[ne no]|e] s2] eqn:Hm;
    [|by intros [= <- <-]].
  intros [= <- <-] _. cbn. destruct (classify_lengths _ _ _ _ _ Hc) as (Hlen & _ & Hin).
  exists all, s1, stale, ne, no. split_and!; try done.
  intros rid. rewrite Hin. split.
  - intros (l & Hl & <- & Hlive). apply list_elem_of_In, filter_In in Hl as [Hl Hex].
    bool_prop. exists l. split_and!; [by apply list_elem_of_In|done..].
  - intros (l & Hl & Hex & <- & Hlive). exists l. split_and!; [|done..].
    apply list_elem_of_In, filter_In. split; [by apply list_elem_of_In|]. by apply bool_decide_eq_true.
Qed.

(** starting up is fail-open.  As long as the creation time of the own process
    can be read, building the runtime from the settings returns one, whatever
    happens to the journal: disabled, unopenable, refusing the lease or failing
    recovery. *)
Theorem from_settings_total {St} `{Journal St} clock disabled opened created pid rid rid' hb lookup now :
  is_Some (from_settings clock disabled opened (Some created) pid rid rid' hb lookup now).
Proof.
  unfold from_settings. destruct disabled; [by eexists|].
  destruct opened as [s|]; cbn; [|by eexists].
  repeat case_match; by eexists.
Qed.

(** Closing the runtime closes every coordinator it handed out, and from then
    on sessions get the null coordinator. *)
Theorem runtime_close_final {St} `{Journal St} clock sha x :
  runtime_inv x → or_closed (rw_runtime x) = false → or_has_store (rw_runtime x) = true →
  let x' := runtime_close clock sha x in
  or_closed (rw_runtime x') = true ∧ or_coordinators (rw_runtime x') = [] ∧
  (∀ i co, i ∈ or_coordinators (rw_runtime x) → rw_coordinators x' !! i = Some co →
     co_closed co = true) ∧
  (∀ hex sid sink, ∃ reason diags, for_session hex sid sink x' = (SessionNull reason diags, x')).
Proof.
  intros [Hidx Hstore] Hc Hs. apply Hstore in Hs as Hw.
  unfold runtime_close. rewrite Hc.
  match goal with |- context [foldl ?f ?x0 ?ixs] =>
    destruct (close_all clock sha ixs x0 Hw) as ([w1 Hw1] & Hr1 & _ & Hcl & _);
    cbv zeta; set (y := foldl f x0 ixs) in *; clearbody y end.
  rewrite Hw1. cbn. rewrite Hr1. cbn.
  split_and!; [done..|exact Hcl|].
  intros hex sid sink. unfold for_session. cbn. by do 2 eexists.
Qed.

(** ** Witnesses and examples, over the store *)

Definition sample_file : store_file :=
  {| sf_store := sample_empty; sf_io := λ _, io_ok; sf_hex := λ _, sample_hex; sf_tick := 0 |}.

Definition sample_clock (n : nat) : Z := 1000 + Z.of_nat n.
Definition sample_sha (s : string) : string := sample_fingerprint.
Definition process_gone (pid : Z) : process_lookup_result := ProcessMissing.

(** A world in which the runtime's lease is open. *)
Definition sample_world : world :=
  {| w_journal := (j_open_runtime sample_hex 7 fl_zero 999 sample_file).2; w_reads := 0 |}.

Definition sample_session : costate :=
  {| cs_world := sample_world; cs_co := new_coordinator sample_hex sample_hex None true |}.

(** One operation with one tracked effect. *)
Definition sample_busy : costate :=
  co_calls sample_clock sample_sha
    [CoStart "prompt" None; CoBeginEffect "tool" "bash" sample_fingerprint []] sample_session.

Lemma disabled_is_null_witness :
  (co_call sample_clock sample_sha (CoStart "prompt" None)
    {| cs_world := sample_world; cs_co := co_disable (cs_co sample_session) |}).1 = Ok (RStart None).
Proof.
  apply (disabled_is_null sample_clock sample_sha (CoStart "prompt" None)
    {| cs_world := sample_world; cs_co := co_disable (cs_co sample_session) |}). reflexivity.
Defined.

Lemma order_error_no_effect_witness :
  (co_call sample_clock sample_sha (CoStart "prompt" None) sample_busy).2 = sample_busy.
Proof.
  apply (order_error_no_effect _ _ _ _ (OperationCoordinatorOrderError "operation_already_started")).
  vm_compute. reflexivity.
Defined.

Lemma sample_busy_wf : store_inv (sf_store (w_journal (cs_world sample_busy))).
Proof.
  assert (sf_store (w_journal (cs_world sample_busy)) =
    run_calls [COpenRuntime sample_hex 7 fl_zero 999;
      CCreateOperation sample_hex sample_hex sample_fingerprint "prompt" 1000;
      CBeginEffect sample_hex sample_operation_id "tool" "bash" sample_fingerprint 1001 []]
      sample_empty) as -> by (vm_compute; reflexivity).
  eapply reachable_inv; [by apply (empty_store_inv 4096 4 2)|].
  apply run_calls_reachable; [constructor|]. by repeat constructor.
Qed.

Lemma complete_settles_witness :
  co_effects (cs_co sample_busy) ≠ [] ∧
  co_effects (cs_co (co_complete sample_clock "ok" sample_busy).2) = [].
Proof.
  split; [vm_compute; discriminate|].
  apply (complete_settles sample_clock "ok" sample_busy sample_operation_id);
    [exact sample_busy_wf|vm_compute; reflexivity|vm_compute; reflexivity].
Defined.

Lemma recovery_report_exact_witness :
  let r := recovery_inspect process_gone 5000 None (w_journal (cs_world sample_busy)) in
  live_runtime_count r.1 + stale_runtime_count r.1 = inspected_runtime_count r.1.
Proof.
  destruct (recovery_report_exact process_gone 5000 None (w_journal (cs_world sample_busy))
    (recovery_inspect process_gone 5000 None (w_journal (cs_world sample_busy))).1
    (recovery_inspect process_gone 5000 None (w_journal (cs_world sample_busy))).2)
    as (? & ? & ? & ? & ? & _ & _ & _ & Hsum & _);
    [reflexivity|vm_compute; reflexivity|exact Hsum].
Defined.

Definition sample_runtime : runtime_world :=
  (for_session sample_hex None true
    {| rw_world := Some sample_world; rw_coordinators := [];
       rw_runtime := {| or_has_store := true; or_runtime_id := sample_hex; or_coordinators := [];
         or_closed := false; or_unavailable_reason := None; or_report := unavailable_report false;
         or_heartbeat_running := false |} |}).2.

Lemma runtime_close_final_witness :
  or_closed (rw_runtime (runtime_close sample_clock sample_sha sample_runtime)) = true.
Proof.
  apply (runtime_close_final sample_clock sample_sha sample_runtime); [|reflexivity|reflexivity].
  constructor; cbn; [repeat constructor|split; [done|by eexists]].
Defined.

(** The fallback of [from_settings] reads the creation time of the own process
    again: when psutil cannot read it, building the runtime raises, even with
    the journal disabled. *)
Example from_settings_needs_psutil clock opened pid rid rid' hb lookup now disabled :
  from_settings (S:=store_file) clock disabled opened None pid rid rid' hb lookup now = None.
Proof. unfold from_settings. destruct disabled; [done|]. by destruct opened. Qed.
