(* ===== verification/AgentTypes.v ===== *)
(** The data of the agent loop: messages (travis/ai/types.py), the loop's
    contexts, results, configuration and events (travis/agent/types.py).

    A message of a role the loop does not know is [CustomMessage].  JSON values
    of tool arguments and details are [json]. *)

From S2P Require Import Prelude Json PyFloat.
Open Scope Z_scope.

(** ** Messages *)

(** [src: travis/ai/types.py:43-49 ToolCall] *)
Record ToolCall : Type := {
  tc_id : string;
  tc_name : string;
  tc_arguments : json;
  tc_thought_signature : option string
}.

(** [src: travis/ai/types.py:21-52 ContentBlock] *)
Inductive ContentBlock : Type :=
  | TextContent (text : string) (text_signature : option string)
  | ThinkingContent (thinking : string) (thinking_signature : option string) (redacted : bool)
  | ImageContent (data mime_type : string)
  | ToolCallContent (call : ToolCall).

(** [src: travis/ai/types.py:55-61 CostTier] *)
Record CostTier : Type := {
  tier_input_tokens_above : Z;
  tier_input : float64;
  tier_output : float64;
  tier_cache_read : float64;
  tier_cache_write : float64
}.

(** [src: travis/ai/types.py:64-71 Cost] *)
Record Cost : Type := {
  cost_input : float64;
  cost_output : float64;
  cost_cache_read : float64;
  cost_cache_write : float64;
  cost_total : float64;
  cost_tiers : list CostTier
}.

(** [src: travis/ai/types.py:74-83 Usage] *)
Record Usage : Type := {
  usage_input : Z;
  usage_output : Z;
  usage_cache_read : Z;
  usage_cache_write : Z;
  usage_cache_write_1h : Z;
  usage_reasoning : Z;
  usage_total_tokens : Z;
  usage_cost : Cost
}.

(** [src: travis/ai/types.py:86-87 empty_usage] *)
Definition empty_usage : Usage :=
  {| usage_input := 0; usage_output := 0; usage_cache_read := 0; usage_cache_write := 0;
     usage_cache_write_1h := 0; usage_reasoning := 0; usage_total_tokens := 0;
     usage_cost := {| cost_input := fl_zero; cost_output := fl_zero; cost_cache_read := fl_zero;
                      cost_cache_write := fl_zero; cost_total := fl_zero; cost_tiers := [] |} |}.

(** [src: travis/ai/types.py:90-94 UserMessage]; a plain string content is one
    text block. *)
Record UserMessage : Type := {
  um_content : list ContentBlock;
  um_timestamp : Z
}.

(** [src: travis/ai/types.py:97-110 AssistantMessage] *)
Record AssistantMessage : Type := {
  am_content : list ContentBlock;
  am_api : string;
  am_provider : string;
  am_model : string;
  am_usage : Usage;
  am_stop_reason : string;
  am_response_model : option string;
  am_response_id : option string;
  am_diagnostics : option (list json);
  am_error_message : option string;
  am_timestamp : Z
}.

(** [src: travis/ai/types.py:113-122 ToolResultMessage] *)
Record ToolResultMessage : Type := {
  tr_tool_call_id : string;
  tr_tool_name : string;
  tr_content : list ContentBlock;
  tr_is_error : bool;
  tr_details : json;
  tr_added_tool_names : option (list string);
  tr_timestamp : Z
}.

(** [src: travis/ai/types.py:125-125 Message], with the application's own
    messages. *)
Inductive AgentMessage : Type :=
  | UserMsg (m : UserMessage)
  | AssistantMsg (m : AssistantMessage)
  | ToolResultMsg (m : ToolResultMessage)
  | CustomMessage (role : string) (payload : json).

(** [src: travis/agent/agent_loop.py:957-958 _role_of] *)
Definition role_of (m : AgentMessage) : string :=
  match m with
  | UserMsg _ => "user"
  | AssistantMsg _ => "assistant"
  | ToolResultMsg _ => "toolResult"
  | CustomMessage role _ => role
  end.

(** [[c for c in content if c.type == "toolCall"]]. *)
Definition tool_calls_of (content : list ContentBlock) : list ToolCall :=
  omap (λ c, match c with ToolCallContent call => Some call | _ => None end) content.

(** ** Tools, results and hooks *)

(** [src: travis/agent/types.py:71-76 AgentToolResult] *)
Record AgentToolResult : Type := {
  res_content : list ContentBlock;
  res_details : json;
  res_terminate : option bool;
  res_added_tool_names : option (list string)
}.

(** [src: travis/agent/types.py:82-91 AgentTool], without its callables, which the
    environment runs. *)
Record AgentTool : Type := {
  tool_name : string;
  tool_sequential : bool
}.

(** [src: travis/agent/types.py:102-106 PreparedToolCall] *)
Record PreparedToolCall : Type := {
  prep_tool_call : ToolCall;
  prep_tool : AgentTool;
  prep_args : json
}.

(** [src: travis/agent/types.py:109-114 ImmediateToolOutcome] *)
Record ImmediateToolOutcome : Type := {
  imm_tool_call : ToolCall;
  imm_result : AgentToolResult;
  imm_is_error : bool;
  imm_reason_code : string
}.

(** [src: travis/agent/types.py:117-121 AgentContext] *)
Record AgentContext : Type := {
  ctx_system_prompt : string;
  ctx_messages : list AgentMessage;
  ctx_tools : list AgentTool
}.

(** [src: travis/agent/types.py:124-127 BeforeToolCallResult] *)
Record BeforeToolCallResult : Type := {
  before_block : bool;
  before_reason : option string
}.

(** [src: travis/agent/types.py:130-135 AfterToolCallResult] *)
Record AfterToolCallResult : Type := {
  after_content : option (list ContentBlock);
  after_details : option json;
  after_is_error : option bool;
  after_terminate : option bool
}.

(** [src: travis/ai/types.py:142-156 Model]: the fields the loop reads. *)
Record Model : Type := {
  model_id : string;
  model_api : string;
  model_provider : string
}.

(** [src: travis/agent/types.py:167-171 AgentLoopTurnUpdate] *)
Record AgentLoopTurnUpdate : Type := {
  turn_context : option AgentContext;
  turn_model : option Model;
  turn_thinking_level : option string
}.

(** [src: travis/agent/types.py:174-203 AgentLoopConfig]: the fields the loop itself
    reads; the callbacks are the environment's, and the options that are only
    handed on to the provider are part of its request. *)
Record AgentLoopConfig : Type := {
  cfg_model : Model;
  cfg_tool_execution_sequential : bool;
  cfg_max_parallel_tools : Z;
  cfg_reasoning : option string
}.

(** ** Events *)

(** An event of the provider's stream: its type and its partial message. *)
Record StreamEvent : Type := {
  se_type : string;
  se_partial : AssistantMessage
}.

(** [src: travis/agent/types.py:209-290 AgentEvent] *)
Inductive AgentEvent : Type :=
  | AgentStartEvent
  | AgentEndEvent (messages : list AgentMessage)
  | TurnStartEvent
  | TurnEndEvent (message : AgentMessage) (tool_results : list ToolResultMessage)
  | MessageStartEvent (message : AgentMessage)
  | MessageUpdateEvent (message : AgentMessage) (event : StreamEvent)
  | MessageEndEvent (message : AgentMessage)
  | ToolExecutionStartEvent (tool_call_id tool_name : string) (args : json)
  | ToolExecutionUpdateEvent (tool_call_id tool_name : string) (args : json)
      (partial_result : AgentToolResult)
  | ToolExecutionEndEvent (tool_call_id tool_name : string) (result : AgentToolResult)
      (is_error : bool) (args : json) (reason_code : option string).

(** ** Exceptions *)

(** What a run can raise: the stream protocol's error, or any other exception. *)
Inductive exn : Type :=
  | ProviderStreamProtocolError (message : string)
  | OtherError (message : string).

(** [str(error)]. *)
Definition exn_str (e : exn) : string :=
  match e with
  | ProviderStreamProtocolError m => m
  | OtherError m => m
  end.
