(* ===== verification/AgentParts.v ===== *)
(** The small state machines around the agent loop: the stream protocol guard
    (agent/stream_protocol.py), the relay of tool progress
    (agent/tool_updates.py), the run lease (agent/run_lease.py) and the pending
    message queue (agent/agent.py). *)

From S2P Require Import Prelude Json PyFloat AgentTypes.
Open Scope Z_scope.

(** ** The assistant stream protocol *)

Module StreamProtocol.

(** [src: travis/agent/stream_protocol.py:6-16 _UPDATE_EVENTS] *)
Definition UPDATE_EVENTS : list string :=
  ["text_start"; "text_delta"; "text_end"; "thinking_start"; "thinking_delta"; "thinking_end";
   "toolcall_start"; "toolcall_delta"; "toolcall_end"].

(** [src: travis/agent/stream_protocol.py:26-28 AssistantStreamProtocol.__init__] *)
Record AssistantStreamProtocol : Type := {
  started : bool;
  terminal : bool
}.

Definition initial : AssistantStreamProtocol := {| started := false; terminal := false |}.

(** [src: travis/agent/stream_protocol.py:30-43 AssistantStreamProtocol.accept] *)
Definition accept (p : AssistantStreamProtocol) (event_type : string)
    : result exn AssistantStreamProtocol :=
  if terminal p then Err (ProviderStreamProtocolError "event emitted after terminal event")
  else if bool_decide (event_type = "start") then
    if started p then Err (ProviderStreamProtocolError "duplicate start event")
    else Ok {| started := true; terminal := terminal p |}
  else if bool_decide (event_type ∈ UPDATE_EVENTS) then
    if negb (started p)
    then Err (ProviderStreamProtocolError (event_type +:+ " event emitted before start event"))
    else Ok p
  else if bool_decide (event_type = "done") || bool_decide (event_type = "error")
  then Ok {| started := started p; terminal := true |}
  else Ok p.

Fixpoint accept_all (p : AssistantStreamProtocol) (types : list string)
    : result exn AssistantStreamProtocol :=
  match types with
  | [] => Ok p
  | t :: rest => p ← accept p t; accept_all p rest
  end.

End StreamProtocol.

(** ** The relay of tool updates *)

Module UpdateRelay.
Section relay.
Context {T E : Type}.

(** [src: travis/agent/tool_updates.py:17-29 ToolUpdateRelay.__init__]: the queue with
    its bound, the overflow slot, and what the sink was given so far. *)
Record ToolUpdateRelay : Type := {
  max_pending : nat;
  queue : list T;
  accepting : bool;
  latest_overflow : option T;
  relay_error : option E;
  emitted : list T
}.

(** [src: travis/agent/tool_updates.py:17-29 ToolUpdateRelay.__init__] *)
Definition new_relay (bound : Z) : ToolUpdateRelay :=
  {| max_pending := Z.to_nat (Z.max 1 bound); queue := []; accepting := true;
     latest_overflow := None; relay_error := None; emitted := [] |}.

Definition relay_with (q : list T) (a : bool) (o : option T) (e : option E) (em : list T)
    (r : ToolUpdateRelay) : ToolUpdateRelay :=
  {| max_pending := max_pending r; queue := q; accepting := a; latest_overflow := o;
     relay_error := e; emitted := em |}.

(** [src: travis/agent/tool_updates.py:41-47 ToolUpdateRelay._offer] *)
Definition offer (update : T) (r : ToolUpdateRelay) : ToolUpdateRelay :=
  if negb (accepting r) then r
  else if (length (queue r) <? max_pending r)%nat
  then relay_with (queue r ++ [update]) (accepting r) (latest_overflow r) (relay_error r) (emitted r) r
  else relay_with (queue r) (accepting r) (Some update) (relay_error r) (emitted r) r.

(** [src: travis/agent/tool_updates.py:49-52 ToolUpdateRelay._publish_with_backpressure]:
    [None] while the queue is full (the publisher waits). *)
Definition publish_with_backpressure (update : T) (r : ToolUpdateRelay) : option ToolUpdateRelay :=
  if negb (accepting r) then Some r
  else if (length (queue r) <? max_pending r)%nat
  then Some (relay_with (queue r ++ [update]) (accepting r) (latest_overflow r) (relay_error r)
               (emitted r) r)
  else None.

Variable emit : T → option E.

Definition relay_deliver (item : T) (r : ToolUpdateRelay) : ToolUpdateRelay :=
  match relay_error r with
  | None => relay_with (queue r) (accepting r) (latest_overflow r) (emit item) (emitted r ++ [item]) r
  | Some _ => r
  end.

(** [src: travis/agent/tool_updates.py:54-66 ToolUpdateRelay._consume]: one iteration. *)
Definition consume (r : ToolUpdateRelay) : ToolUpdateRelay :=
  match queue r with
  | [] => r
  | item :: rest =>
      relay_deliver item (relay_with rest (accepting r) (latest_overflow r) (relay_error r) (emitted r) r)
  end.

Fixpoint drain_queue (n : nat) (r : ToolUpdateRelay) : ToolUpdateRelay :=
  match n with
  | O => r
  | S n => drain_queue n (consume r)
  end.

(** [src: travis/agent/tool_updates.py:68-86 ToolUpdateRelay.close]: the queue is joined,
    then the overflow slot is delivered; the recorded error is raised. *)
Definition close (r : ToolUpdateRelay) : option E * ToolUpdateRelay :=
  if negb (accepting r) then (relay_error r, r)
  else
    let r := relay_with (queue r) false (latest_overflow r) (relay_error r) (emitted r) r in
    let r := drain_queue (length (queue r)) r in
    let latest := latest_overflow r in
    let r := relay_with (queue r) (accepting r) None (relay_error r) (emitted r) r in
    let r := match latest with Some update => relay_deliver update r | None => r end in
    (relay_error r, r).

(** What happens at a relay, in order: the tool offers an update on the owner
    loop, or the consumer task runs. *)
Inductive relay_action : Type :=
  | Offer (update : T)
  | Consume.

Definition relay_step (r : ToolUpdateRelay) (a : relay_action) : ToolUpdateRelay :=
  match a with Offer u => offer u r | Consume => consume r end.

Definition relay_run (actions : list relay_action) (r : ToolUpdateRelay) : ToolUpdateRelay :=
  foldl relay_step r actions.

Definition offers (actions : list relay_action) : list T :=
  omap (λ a, match a with Offer u => Some u | Consume => None end) actions.
End relay.
End UpdateRelay.

(** ** The run lease *)

Module Lease.

(** [src: travis/agent/run_lease.py:8-12 RunLease]; a token is the number of the
    acquisition that made it. *)
Record RunLease : Type := {
  active_token : option nat;
  owner_thread_id : option Z;
  next_token : nat
}.

(** [src: travis/agent/run_lease.py:46-50 RunLeaseToken] *)
Record RunLeaseToken : Type := {
  token : nat;
  released : bool
}.

Definition new_lease : RunLease :=
  {| active_token := None; owner_thread_id := None; next_token := 0 |}.

(** [src: travis/agent/run_lease.py:14-17 RunLease.active] *)
Definition active (l : RunLease) : bool := bool_decide (active_token l ≠ None).

(** [src: travis/agent/run_lease.py:19-22 RunLease.owned_by_current_thread] *)
Definition owned_by_current_thread (thread : Z) (l : RunLease) : bool :=
  active l && bool_decide (owner_thread_id l = Some thread).

(** [src: travis/agent/run_lease.py:24-31 RunLease.acquire] *)
Definition acquire (thread : Z) (error_message : string) (l : RunLease)
    : result exn RunLeaseToken * RunLease :=
  if active l then (Err (OtherError error_message), l)
  else (Ok {| token := next_token l; released := false |},
        {| active_token := Some (next_token l); owner_thread_id := Some thread;
           next_token := S (next_token l) |}).

(** [src: travis/agent/run_lease.py:37-43 RunLease._release] *)
Definition release_token (t : nat) (l : RunLease) : RunLease :=
  if bool_decide (active_token l ≠ Some t) then l
  else {| active_token := None; owner_thread_id := None; next_token := next_token l |}.

(** [src: travis/agent/run_lease.py:52-56 RunLeaseToken.release] *)
Definition release (t : RunLeaseToken) (l : RunLease) : RunLeaseToken * RunLease :=
  if released t then (t, l)
  else ({| token := token t; released := true |}, release_token (token t) l).

(** [src: travis/agent/run_lease.py:33-35 RunLease.wait]: whether a waiter may go on. *)
Definition may_proceed (l : RunLease) : bool := negb (active l).

End Lease.

(** ** The pending message queue *)

Module PendingQueue.

(** [src: travis/agent/agent.py:39-43 PendingMessageQueue] *)
Record PendingMessageQueue (M : Type) : Type := {
  messages : list M;
  mode_all : bool
}.
Arguments messages {M}.
Arguments mode_all {M}.

(** [src: travis/agent/agent.py:45-47 PendingMessageQueue.enqueue] *)
Definition enqueue {M} (m : M) (q : PendingMessageQueue M) : PendingMessageQueue M :=
  {| messages := messages q ++ [m]; mode_all := mode_all q |}.

(** [src: travis/agent/agent.py:49-51 PendingMessageQueue.has_items] *)
Definition has_items {M} (q : PendingMessageQueue M) : bool := match messages q with [] => false | _ => true end.

(** [src: travis/agent/agent.py:53-63 PendingMessageQueue.drain] *)
Definition drain {M} (q : PendingMessageQueue M) : list M * PendingMessageQueue M :=
  if mode_all q then (messages q, {| messages := []; mode_all := mode_all q |})
  else match messages q with
  | [] => ([], q)
  | first :: rest => ([first], {| messages := rest; mode_all := mode_all q |})
  end.

(** [src: travis/agent/agent.py:65-67 PendingMessageQueue.clear] *)
Definition clear {M} (q : PendingMessageQueue M) : PendingMessageQueue M :=
  {| messages := []; mode_all := mode_all q |}.

(** [src: travis/agent/agent.py:69-76 PendingMessageQueue.remove_where] *)
Definition remove_where {M} (p : M → bool) (q : PendingMessageQueue M)
    : list M * PendingMessageQueue M :=
  (List.filter p (messages q),
   {| messages := List.filter (λ m, negb (p m)) (messages q); mode_all := mode_all q |}).

(** Drain until nothing is left. *)
Fixpoint drain_times {M} (n : nat) (q : PendingMessageQueue M) : list M * PendingMessageQueue M :=
  match n with
  | O => ([], q)
  | S n => let (ms, q) := drain q in let (rest, q) := drain_times n q in (ms ++ rest, q)
  end.

End PendingQueue.
