(* ===== verification/AgentPartsSpec.v ===== *)
(** What the small machines around the agent loop promise: the language the stream
    guard accepts, what the progress relay delivers and in which order, that the
    run lease is exclusive, and that the pending queue loses nothing. *)

From S2P Require Import Prelude Json PyFloat AgentTypes AgentParts.
Open Scope Z_scope.

(** ** The stream protocol *)

Section protocol.
Import StreamProtocol.

Definition is_start (t : string) : Prop := t = "start".
Definition is_update (t : string) : Prop := t ∈ UPDATE_EVENTS.
Definition is_terminal (t : string) : Prop := t = "done" ∨ t = "error".

(** An event type the guard knows nothing about. *)
Definition is_other (t : string) : Prop := ¬ is_start t ∧ ¬ is_update t ∧ ¬ is_terminal t.

(** What may follow a start: updates and unknown events, then at most one terminal
    event, last. *)
Inductive body_language : list string → Prop :=
  | body_nil : body_language []
  | body_terminal t : is_terminal t → body_language [t]
  | body_cons t types : is_update t ∨ is_other t → body_language types → body_language (t :: types).

(** A stream: unknown events, then a start and a body, or a lone terminal event. *)
Inductive stream_language : list string → Prop :=
  | stream_nil : stream_language []
  | stream_terminal t : is_terminal t → stream_language [t]
  | stream_start types : body_language types → stream_language ("start"%string :: types)
  | stream_other t types : is_other t → stream_language types → stream_language (t :: types).

(** What the guard in state [p] still accepts. *)
Definition accepts_from (p : AssistantStreamProtocol) (types : list string) : Prop :=
  if terminal p then types = [] else if started p then body_language types else stream_language types.

Lemma is_terminal_not_start t : is_terminal t → ¬ is_start t.
Proof. by intros [->| ->]. Qed.

Lemma is_terminal_not_update t : is_terminal t → ¬ is_update t.
Proof. intros [->| ->].
  - refine (bool_decide_eq_false_1 ("done" ∈ UPDATE_EVENTS) _). reflexivity.
  - refine (bool_decide_eq_false_1 ("error" ∈ UPDATE_EVENTS) _). reflexivity.
 Qed.

Lemma start_not_update : ¬ is_update "start".
Proof. refine (bool_decide_eq_false_1 ("start" ∈ UPDATE_EVENTS) _). reflexivity. Qed.

(** The kinds of event types, exclusive. *)
Lemma event_kind t : is_start t ∨ is_update t ∨ is_terminal t ∨ is_other t.
Proof.
  destruct (decide (is_start t)) as [|Hs]; [by left|].
  destruct (decide (is_update t)) as [|Hu]; [by right; left|].
  destruct (decide (is_terminal t)) as [|Ht]; [by right; right; left|].
  right; right; right. done.
Qed.

Lemma accept_start p t : is_start t → terminal p = false →
  accept p t = if started p then Err (ProviderStreamProtocolError "duplicate start event")
               else Ok {| started := true; terminal := false |}.
Proof. intros -> Hp. unfold accept. rewrite Hp. by destruct (started p). Qed.

Lemma accept_update p t : is_update t → terminal p = false →
  accept p t = if started p then Ok p
    else Err (ProviderStreamProtocolError (t +:+ " event emitted before start event")).
Proof.
  intros Ht Hp. unfold accept. rewrite Hp. rewrite bool_decide_eq_false_2.
  - rewrite bool_decide_eq_true_2 by done. by destruct (started p).
  - intros ->. by apply start_not_update.
Qed.

Lemma accept_terminal p t : is_terminal t → terminal p = false →
  accept p t = Ok {| started := started p; terminal := true |}.
Proof.
  intros Ht Hp. unfold accept. rewrite Hp.
  rewrite bool_decide_eq_false_2 by by apply is_terminal_not_start.
  rewrite bool_decide_eq_false_2 by by apply is_terminal_not_update.
  by destruct Ht as [->| ->].
Qed.

Lemma accept_other p t : is_other t → terminal p = false → accept p t = Ok p.
Proof.
  intros (Hs & Hu & Ht) Hp. unfold accept. rewrite Hp.
  rewrite bool_decide_eq_false_2 by done. rewrite bool_decide_eq_false_2 by done.
  rewrite (bool_decide_eq_false_2 (t = "done")) by (intros ->; apply Ht; by left).
  by rewrite bool_decide_eq_false_2 by (intros ->; apply Ht; by right).
Qed.

(** One event at a time, the accepted language. *)
Lemma body_language_cons t types :
  body_language (t :: types) ↔
  (is_terminal t ∧ types = []) ∨ ((is_update t ∨ is_other t) ∧ body_language types).
Proof.
  split.
  - inversion 1; subst; [by left|by right].
  - intros [[Ht ->]|[Ht H]]; by constructor.
Qed.

Lemma stream_language_cons t types :
  stream_language (t :: types) ↔
  (is_terminal t ∧ types = []) ∨ (is_start t ∧ body_language types) ∨
  (is_other t ∧ stream_language types).
Proof.
  split.
  - inversion 1; subst; [by left|right; by left|right; by right].
  - intros [[Ht ->]|[[-> H]|[Ht H]]]; by constructor.
Qed.

Lemma accepts_from_cons p t types :
  accepts_from p (t :: types) ↔ ∃ p', accept p t = Ok p' ∧ accepts_from p' types.
Proof.
  unfold accepts_from at 1. destruct (terminal p) eqn:Hterm.
  { split; [done|]. intros (p' & Ha & _). unfold accept in Ha. by rewrite Hterm in Ha. }
  pose proof (is_terminal_not_start t). pose proof (is_terminal_not_update t).
  assert (is_start t → ¬ is_update t) by (intros ->; apply start_not_update).
  assert (is_other t → ¬ is_start t ∧ ¬ is_update t ∧ ¬ is_terminal t) by done.
  pose proof (body_language_cons t types). pose proof (stream_language_cons t types).
  destruct (event_kind t) as [Ht|[Ht|[Ht|Ht]]].
  - rewrite accept_start by done. destruct (started p).
    + split; [tauto|naive_solver].
    + split; [intros ?; eexists; split; [done|]; cbn; tauto|]. intros (p' & [= <-] & Hp). cbn in Hp. tauto.
  - rewrite accept_update by done. destruct (started p) eqn:Hst.
    + split; [intros ?; eexists; split; [done|]; unfold accepts_from; rewrite Hterm, Hst; tauto|].
      intros (p' & [= <-] & Hp). unfold accepts_from in Hp. rewrite Hterm, Hst in Hp. tauto.
    + split; [tauto|naive_solver].
  - rewrite accept_terminal by done. split.
    + intros ?. eexists. split; [done|]. cbn. destruct (started p); tauto.
    + intros (p' & [= <-] & Hp). cbn in Hp. destruct (started p); tauto.
  - rewrite accept_other by done. split.
    + intros ?. eexists. split; [done|]. unfold accepts_from. rewrite Hterm. destruct (started p); tauto.
    + intros (p' & [= <-] & Hp). unfold accepts_from in Hp. rewrite Hterm in Hp.
      destruct (started p); tauto.
Qed.

Lemma accept_all_spec types : ∀ p, (∃ p', accept_all p types = Ok p') ↔ accepts_from p types.
Proof.
  induction types as [|t types IH]; intros p.
  - cbn. unfold accepts_from. split; [|intros; by eexists]. intros _.
    destruct (terminal p); [done|]. destruct (started p); constructor.
  - rewrite accepts_from_cons. cbn. destruct (accept p t) as [p1|e].
    + split; [intros H'%IH; by eexists|]. intros (p' & [= <-] & H'). by apply IH.
    + split; [by intros [? ?]|by intros (? & ? & _)].
Qed.

(** The guard accepts exactly the streams of the protocol: unknown event types
    anywhere but after the end, at most one start, updates only after it, and
    nothing after a terminal event. *)
Theorem accepts_stream_language types :
  (∃ p, accept_all initial types = Ok p) ↔ stream_language types.
Proof. apply accept_all_spec. Qed.
End protocol.

(** ** The relay *)

Section relay.
Import UpdateRelay.
Context {T E : Type}.
Variable emit : T → option E.

#[local] Notation relay := (@ToolUpdateRelay T E).

(** What an open relay, reached by these actions, holds: nothing is lost or out of
    order among the updates that found room in the queue. *)
Record relay_inv (bound : Z) (offered : list T) (r : relay) : Prop := {
  ri_bound : max_pending r = Z.to_nat (Z.max 1 bound);
  ri_queue : (length (queue r) ≤ max_pending r)%nat;
  ri_accepting : accepting r = true;
  ri_silent : relay_error r = None;
  ri_sublist : (emitted r ++ queue r) `sublist_of` offered;
  ri_overflow u : latest_overflow r = Some u → u ∈ offered;
  ri_complete : latest_overflow r = None → emitted r ++ queue r = offered
}.

Hypothesis emit_ok : ∀ u, emit u = None.

Lemma relay_step_inv bound offered r a :
  relay_inv bound offered r →
  relay_inv bound (offered ++ offers [a]) (relay_step emit r a).
Proof.
  intros [Hb Hq Ha He Hs Ho Hc]. destruct a as [u|]; cbn.
  - unfold offer. rewrite Ha. cbn [negb]. destruct (Nat.ltb_spec (length (queue r)) (max_pending r)) as [Hlt|Hge].
    + split; [exact Hb|cbn|done|done|cbn|cbn|cbn].
      * rewrite length_app. cbn. lia.
      * rewrite (assoc_L (++)). by apply sublist_app.
      * intros x Hx%Ho. apply elem_of_app. by left.
      * intros Hn%Hc. by rewrite (assoc_L (++)), Hn.
    + split; cbn -[Z.to_nat Z.max]; [done|done|done|done|by apply sublist_inserts_r| |done].
      intros x [= ->]. apply elem_of_app. right. apply list_elem_of_here.
  - rewrite app_nil_r. unfold consume. destruct (queue r) as [|item rest] eqn:Hqr.
    + split; rewrite ?Hqr in *; done.
    + unfold relay_deliver. cbn. rewrite He, emit_ok. split; cbn -[Z.to_nat Z.max]; try done.
      * cbn in Hq. lia.
      * by rewrite <- (assoc_L (++)).
      * intros Hn%Hc. by rewrite <- (assoc_L (++)).
Qed.

Lemma relay_run_inv bound actions : ∀ offered r,
  relay_inv bound offered r → relay_inv bound (offered ++ offers actions) (relay_run emit actions r).
Proof.
  induction actions as [|a actions IH]; intros offered r Hr.
  - unfold offers. cbn. by rewrite app_nil_r.
  - assert (offers (a :: actions) = offers [a] ++ offers actions) as -> by by destruct a.
    rewrite (assoc_L (++)). apply (IH _ (relay_step emit r a)). by apply relay_step_inv.
Qed.

Lemma new_relay_inv bound : relay_inv bound [] (new_relay bound).
Proof. split; cbn -[Z.to_nat Z.max]; try done. lia. Qed.

(** Draining delivers the whole queue, in order. *)
Lemma drain_all n : ∀ r : relay,
  relay_error r = None → length (queue r) = n →
  drain_queue emit n r = relay_with [] (accepting r) (latest_overflow r) None (emitted r ++ queue r) r.
Proof.
  induction n as [|n IH]; intros r He Hn; cbn.
  - destruct (queue r) eqn:Hq; [|done]. rewrite app_nil_r. destruct r; cbn in *. by subst.
  - destruct (queue r) as [|u rest] eqn:Hq; [done|]. cbn in Hn. rewrite IH; unfold consume; rewrite Hq;
      unfold relay_deliver; cbn; rewrite ?He; cbn; [|by rewrite emit_ok|lia].
    by rewrite <- (assoc_L (++)).
Qed.

(** With a sink that does not fail, closing a relay delivers everything that found
    room in its bounded queue in the order it was offered, then the last update that
    did not find room; when every update found room, all of them are delivered, in
    order, and nothing twice. *)
Theorem relay_close_delivers bound actions :
  let r := relay_run emit actions (new_relay bound) in
  (length (queue r) ≤ Z.to_nat (Z.max 1 bound))%nat ∧
  ∃ kept, kept `sublist_of` offers actions ∧
    (close emit r).1 = None ∧ queue (close emit r).2 = [] ∧ accepting (close emit r).2 = false ∧
    emitted (close emit r).2 = kept ++ option_list (latest_overflow r) ∧
    (∀ u, latest_overflow r = Some u → u ∈ offers actions) ∧
    (latest_overflow r = None → kept = offers actions).
Proof.
  intros r. pose proof (relay_run_inv bound actions [] _ (new_relay_inv bound)) as Hr.
  fold r in Hr. cbn [app] in Hr. destruct Hr as [Hb Hq Ha He Hs Ho Hc].
  split; [by rewrite <- Hb|]. exists (emitted r ++ queue r). split; [done|].
  assert (close emit r = (None, relay_with [] false None None
    ((emitted r ++ queue r) ++ option_list (latest_overflow r)) r)) as ->.
  { unfold close. rewrite Ha. cbn. rewrite drain_all by done. cbn.
    destruct (latest_overflow r) as [u|]; cbn; unfold relay_deliver; cbn; rewrite ?emit_ok, ?app_nil_r; done. }
  done.
Qed.
End relay.

Lemma relay_close_delivers_witness :
  ∃ kept, kept `sublist_of` [1; 2; 3] ∧
    UpdateRelay.emitted (UpdateRelay.close (E:=exn) (λ _, None)
      (UpdateRelay.relay_run (λ _, None)
         [UpdateRelay.Offer 1; UpdateRelay.Offer 2; UpdateRelay.Consume; UpdateRelay.Offer 3]
         (UpdateRelay.new_relay 1))).2 = kept ++ [2].
Proof.
  pose proof (relay_close_delivers (E:=exn) (λ _, None) (λ _, eq_refl) 1
    [UpdateRelay.Offer 1; UpdateRelay.Offer 2; UpdateRelay.Consume; UpdateRelay.Offer 3])
    as (_ & kept & Hs & _ & _ & _ & He & _).
  exists kept. split; [exact Hs|exact He].
Defined.

(** The overflow slot is delivered last even when newer updates have been queued
    since: with room for one update, the second of three updates arrives last. *)
Example relay_stale_last :
  UpdateRelay.emitted (UpdateRelay.close (E:=exn) (λ _, None)
    (UpdateRelay.relay_run (λ _, None)
       [UpdateRelay.Offer 1; UpdateRelay.Offer 2; UpdateRelay.Consume; UpdateRelay.Offer 3]
       (UpdateRelay.new_relay 1))).2 = [1; 3; 2].
Proof. reflexivity. Qed.

(** ** The run lease *)

Section lease.
Import Lease.

(** The operations of any number of runs, on one lease: a run acquires it, or
    releases the token of the [k]th successful acquisition. *)
Inductive lease_call : Type :=
  | Acquire (thread : Z)
  | Release (k : nat).

Record lease_state : Type := {
  lst_lease : RunLease;
  lst_tokens : list RunLeaseToken
}.

Definition lease_call_step (s : lease_state) (c : lease_call) : lease_state :=
  match c with
  | Acquire thread =>
      match acquire thread "busy" (lst_lease s) with
      | (Ok t, l) => {| lst_lease := l; lst_tokens := lst_tokens s ++ [t] |}
      | (Err _, l) => {| lst_lease := l; lst_tokens := lst_tokens s |}
      end
  | Release k =>
      match lst_tokens s !! k with
      | Some t => let (t', l) := release t (lst_lease s) in
                  {| lst_lease := l; lst_tokens := <[k := t']> (lst_tokens s) |}
      | None => s
      end
  end.

Definition lease_calls (cs : list lease_call) : lease_state :=
  foldl lease_call_step {| lst_lease := new_lease; lst_tokens := [] |} cs.

(** Token [k] is the number [k]; the active token is the one not yet released. *)
Record lease_inv (s : lease_state) : Prop := {
  li_next : next_token (lst_lease s) = length (lst_tokens s);
  li_tokens k t : lst_tokens s !! k = Some t → token t = k;
  li_active k t : lst_tokens s !! k = Some t →
    released t = false ↔ active_token (lst_lease s) = Some k;
  li_bound k : active_token (lst_lease s) = Some k → (k < length (lst_tokens s))%nat;
  li_owner : is_Some (active_token (lst_lease s)) ↔ is_Some (owner_thread_id (lst_lease s))
}.

Lemma acquire_eq thread message l :
  acquire thread message l =
  match active_token l with
  | Some _ => (Err (OtherError message), l)
  | None => (Ok {| token := next_token l; released := false |},
             {| active_token := Some (next_token l); owner_thread_id := Some thread;
                next_token := S (next_token l) |})
  end.
Proof.
  unfold acquire, active. destruct (active_token l) as [a|].
  - by rewrite bool_decide_eq_true_2.
  - rewrite bool_decide_eq_false_2; [done|auto].
Qed.

Lemma lease_step_inv s c : lease_inv s → lease_inv (lease_call_step s c).
Proof.
  intros [Hn Ht Ha Hb Ho]. destruct c as [thread|k]; cbn.
  - rewrite acquire_eq. destruct (active_token (lst_lease s)) as [a|] eqn:Hact; cbn.
    { split; cbn; by rewrite ?Hact. }
    split; cbn.
    + rewrite length_app, Hn. cbn. lia.
    + intros k t [[_ Hk]|[-> <-]]%lookup_snoc_Some; [by apply Ht|done].
    + intros k t [[Hl Hk]|[-> <-]]%lookup_snoc_Some; cbn; [|by rewrite Hn].
      rewrite (Ha _ _ Hk). split; [done|]. intros [= <-]. apply lookup_lt_Some in Hk. lia.
    + intros k [= <-]. rewrite length_app, Hn. cbn. lia.
    + split; intros _; by eexists.
  - destruct (lst_tokens s !! k) as [t|] eqn:Hk; [|by split].
    unfold release. destruct (released t) eqn:Hr.
    + cbn. rewrite list_insert_id by done. by split.
    + assert (active_token (lst_lease s) = Some k) as Hact by by apply (Ha _ _ Hk).
      cbn. unfold release_token. rewrite (Ht _ _ Hk), bool_decide_eq_false_2 by (rewrite Hact; auto).
      pose proof (lookup_lt_Some _ _ _ Hk) as Hlt.
      split; cbn; rewrite ?length_insert; try done.
      * intros j t' [(-> & <- & _)|[Hne Hj]]%list_lookup_insert_Some; [done|by apply Ht].
      * intros j t' [(-> & <- & _)|[Hne Hj]]%list_lookup_insert_Some; [done|].
        rewrite (Ha _ _ Hj), Hact. split; [|done]. by intros [= ->].
Qed.

Lemma lease_calls_inv cs : lease_inv (lease_calls cs).
Proof.
  unfold lease_calls. assert (lease_inv {| lst_lease := new_lease; lst_tokens := [] |}) as Hi.
  { split; cbn; try done. }
  revert Hi. generalize {| lst_lease := new_lease; lst_tokens := [] |}.
  induction cs as [|c cs IH]; intros s Hs; cbn; [done|]. by apply IH, lease_step_inv.
Qed.

(** After any sequence of acquisitions and releases (repeated releases of stale
    tokens included) at most one token is unreleased, and it is the lease's: an
    acquisition succeeds exactly when every token handed out so far has been
    released, and only releasing the current token ends the lease. *)
Theorem lease_exclusive cs thread :
  let s := lease_calls cs in
  (∀ j k t u, lst_tokens s !! j = Some t → lst_tokens s !! k = Some u →
     released t = false → released u = false → j = k) ∧
  ((∃ t, (acquire thread "busy" (lst_lease s)).1 = Ok t) ↔ Forall (λ t, released t = true) (lst_tokens s)) ∧
  (∀ k t, lst_tokens s !! k = Some t →
     (release t (lst_lease s)).2 = if released t then lst_lease s
                                   else {| active_token := None; owner_thread_id := None;
                                           next_token := next_token (lst_lease s) |}).
Proof.
  intros s. destruct (lease_calls_inv cs) as [Hn Ht Ha Hb _]. fold s in Hn, Ht, Ha, Hb. split_and!.
  - intros j k t u Hj Hk Htr Hur. apply (Ha _ _ Hj) in Htr. apply (Ha _ _ Hk) in Hur. congruence.
  - rewrite acquire_eq. destruct (active_token (lst_lease s)) as [a|] eqn:Hact; cbn.
    + split; [by intros [? ?]|]. intros Hall. destruct (lookup_lt_is_Some_2 (lst_tokens s) a) as [t Hta]; [auto|].
      rewrite Forall_lookup in Hall. pose proof (Hall _ _ Hta) as Hr.
      pose proof (proj2 (Ha _ _ Hta) eq_refl). congruence.
    + split; [|intros _; by eexists]. intros _. apply Forall_lookup. intros k t Hk.
      destruct (released t) eqn:Hr; [done|]. by apply (Ha _ _ Hk) in Hr.
  - intros k t Hk. unfold release. destruct (released t) eqn:Hr; [done|].
    cbn. unfold release_token. rewrite (Ht _ _ Hk). apply (Ha _ _ Hk) in Hr.
    by rewrite bool_decide_eq_false_2 by (rewrite Hr; auto).
Qed.
End lease.

(** ** The pending queue *)

Section pending.
Import PendingQueue.
Context {M : Type}.

Inductive queue_call : Type :=
  | Enqueue (m : M)
  | Drain
  | SetMode (all : bool).

(** The queue and everything drained so far. *)
Definition queue_step (s : list M * PendingMessageQueue M) (c : queue_call)
    : list M * PendingMessageQueue M :=
  match c with
  | Enqueue m => (s.1, enqueue m s.2)
  | Drain => (s.1 ++ (drain s.2).1, (drain s.2).2)
  | SetMode all => (s.1, {| messages := messages s.2; mode_all := all |})
  end.

Definition queue_run (cs : list queue_call) : list M * PendingMessageQueue M :=
  foldl queue_step ([], {| messages := []; mode_all := false |}) cs.

Definition enqueued (cs : list queue_call) : list M :=
  omap (λ c, match c with Enqueue m => Some m | _ => None end) cs.

Lemma drain_split (q : PendingMessageQueue M) : (drain q).1 ++ messages (drain q).2 = messages q.
Proof. destruct q as [[|m ms] [|]]; cbn; by rewrite ?app_nil_r. Qed.

Lemma queue_run_app cs : ∀ s : list M * PendingMessageQueue M,
  (foldl queue_step s cs).1 ++ messages (foldl queue_step s cs).2 =
  (s.1 ++ messages s.2) ++ enqueued cs.
Proof.
  induction cs as [|c cs IH]; intros s; [by rewrite app_nil_r|].
  assert (enqueued (c :: cs) = enqueued [c] ++ enqueued cs) as -> by by destruct c.
  cbn [foldl]. rewrite IH, (assoc_L (++)). f_equal. destruct c as [m| |all]; cbn.
  - by rewrite (assoc_L (++)).
  - by rewrite app_nil_r, <- (assoc_L (++)), drain_split.
  - by rewrite app_nil_r.
Qed.

(** Whatever the mode and its changes, every queued message is drained exactly
    once, in the order of arrival: what has been drained followed by what is left
    is what was queued; a drain in one-at-a-time mode yields one message while
    there is one; and draining as often as there are messages empties the queue. *)
Theorem queue_fifo cs :
  let s := queue_run cs in
  s.1 ++ messages s.2 = enqueued cs ∧
  (mode_all s.2 = true → messages (drain s.2).2 = []) ∧
  (mode_all s.2 = false → length (drain s.2).1 = Nat.min 1 (length (messages s.2))) ∧
  (drain_times (length (messages s.2)) s.2).1 = messages s.2.
Proof.
  intros s. split_and!.
  - by apply (queue_run_app cs ([], {| messages := []; mode_all := false |})).
  - unfold drain. by intros ->.
  - unfold drain. intros ->. by destruct (messages s.2).
  - generalize (s.2). intros q. destruct q as [ms mode]. cbn. induction ms as [|m ms IH]; cbn; [done|].
    destruct mode; cbn.
    + assert (∀ n, (drain_times n {| messages := [] : list M; mode_all := true |}).1 = []) as Hnil.
      { induction n as [|n IHn]; cbn; [done|]. by destruct (drain_times n _). }
      specialize (Hnil (length ms)). destruct (drain_times (length ms) {| messages := []; mode_all := true |}).
      cbn in *. by rewrite Hnil, app_nil_r.
    + destruct (drain_times _ _). cbn in *. by f_equal.
Qed.
End pending.
