(* ===== verification/ChatStream.v ===== *)
(** The stream of an OpenAI-compatible provider (travis/ai/providers/chat_stream.py,
    sse_common.py): server-sent lines become the events of an assistant message.

    A tool call is known by its place in the content, which only grows: that is what
    [content_index_of] finds for the block.  An event holds the message as it is when
    the event is yielded.  The events that were yielded before an exception stay. *)

From S2P Require Import Prelude PyDict PyFloat Utf8 PyText PyValue JsonLoads StreamingJson.
Open Scope Z_scope.
Local Notation text := Utf8.text.

Inductive chat_error : Type :=
  | AttributeError
  | TypeError
  | ValueError
  | KeyError
  | OverflowError
  | TimeoutError (seconds : Z).

(** ** Messages and events *)

(** [src: travis/ai/types.py:21-49 TextContent, ThinkingContent, ToolCall]: the identifier
    of a call is what the provider sends. *)
Inductive Block : Type :=
  | TextContent (body : text)
  | ThinkingContent (thinking : text) (thinking_signature : text)
  | ToolCall (id : pv) (name : text) (arguments : list (text * pv)) (thought_signature : option text).

(** [src: travis/ai/types.py:74-83 Usage] *)
Record Usage : Type := {
  u_input : Z;
  u_output : Z;
  u_cache_read : Z;
  u_cache_write : Z;
  u_reasoning : Z;
  u_total_tokens : Z
}.

Definition empty_usage : Usage :=
  {| u_input := 0; u_output := 0; u_cache_read := 0; u_cache_write := 0; u_reasoning := 0; u_total_tokens := 0 |}.

Record Model : Type := { md_id : text; md_provider : text }.

(** [src: travis/ai/types.py:97-110 AssistantMessage] *)
Record AssistantMessage : Type := {
  m_content : list Block;
  m_usage : Usage;
  m_stop_reason : string;
  m_response_model : option text;
  m_response_id : option text;
  m_error_message : option text
}.

(** [src: travis/ai/providers/_shared.py:12-21 blank_assistant_message] *)
Definition blank_assistant_message : AssistantMessage :=
  {| m_content := []; m_usage := empty_usage; m_stop_reason := "stop"; m_response_model := None; m_response_id := None;
     m_error_message := None |}.

(** [src: travis/ai/types.py:193-292 StartEvent, TextStartEvent, ToolcallEndEvent, DoneEvent, ErrorEvent] *)
Inductive event : Type :=
  | StartEvent
  | TextStartEvent (content_index : nat)
  | TextDeltaEvent (content_index : nat) (delta : text)
  | TextEndEvent (content_index : nat) (content : text)
  | ThinkingStartEvent (content_index : nat)
  | ThinkingDeltaEvent (content_index : nat) (delta : text)
  | ThinkingEndEvent (content_index : nat) (content : text)
  | ToolcallStartEvent (content_index : nat)
  | ToolcallDeltaEvent (content_index : nat) (delta : text)
  | ToolcallEndEvent (content_index : nat) (tool_call : Block)
  | DoneEvent (reason : string)
  | ErrorEvent.

Definition event_type (e : event) : string :=
  match e with
  | StartEvent => "start"
  | TextStartEvent _ => "text_start"
  | TextDeltaEvent _ _ => "text_delta"
  | TextEndEvent _ _ => "text_end"
  | ThinkingStartEvent _ => "thinking_start"
  | ThinkingDeltaEvent _ _ => "thinking_delta"
  | ThinkingEndEvent _ _ => "thinking_end"
  | ToolcallStartEvent _ => "toolcall_start"
  | ToolcallDeltaEvent _ _ => "toolcall_delta"
  | ToolcallEndEvent _ _ => "toolcall_end"
  | DoneEvent _ => "done"
  | ErrorEvent => "error"
  end.

(** An event with the message it carries, as [partial], [message] or [error]. *)
Record Yielded : Type := { y_event : event; y_message : AssistantMessage }.

(** [src: travis/ai/providers/chat_stream.py:47-60 _ChatStreamState]: with the message, the
    flag of [_StartEventState] and the events so far; [by_index] and [by_id] lead to places
    of the content. *)
Record ChatStreamState : Type := {
  message : AssistantMessage;
  started : bool;
  text_index : option nat;
  text_buf : text;
  thinking_index : option nat;
  by_index : list (Z * nat);
  by_id : list (pv * nat);
  pending_reasoning : list (pv * text);
  tool_arg_bufs : list (nat * text);
  tool_arg_previews : list (nat * list (text * pv));
  usage : Usage;
  finish_reason : pv;
  out : list Yielded
}.

Definition chat (A : Type) : Type := st ChatStreamState chat_error A.

Definition on_message (f : AssistantMessage → AssistantMessage) (s : ChatStreamState) : ChatStreamState :=
  {| message := f (message s); started := started s; text_index := text_index s; text_buf := text_buf s;
     thinking_index := thinking_index s; by_index := by_index s; by_id := by_id s; pending_reasoning := pending_reasoning s;
     tool_arg_bufs := tool_arg_bufs s; tool_arg_previews := tool_arg_previews s; usage := usage s;
     finish_reason := finish_reason s; out := out s |}.

Definition with_content (f : list Block → list Block) (m : AssistantMessage) : AssistantMessage :=
  {| m_content := f (m_content m); m_usage := m_usage m; m_stop_reason := m_stop_reason m; m_response_model := m_response_model m;
     m_response_id := m_response_id m; m_error_message := m_error_message m |}.

Definition with_response (i : option text) (model : option text) (m : AssistantMessage) : AssistantMessage :=
  {| m_content := m_content m; m_usage := m_usage m; m_stop_reason := m_stop_reason m; m_response_model := model;
     m_response_id := i; m_error_message := m_error_message m |}.

Definition with_usage (u : Usage) (m : AssistantMessage) : AssistantMessage :=
  {| m_content := m_content m; m_usage := u; m_stop_reason := m_stop_reason m; m_response_model := m_response_model m;
     m_response_id := m_response_id m; m_error_message := m_error_message m |}.

Definition with_stop (reason : string) (error : option text) (m : AssistantMessage) : AssistantMessage :=
  {| m_content := m_content m; m_usage := m_usage m; m_stop_reason := reason; m_response_model := m_response_model m;
     m_response_id := m_response_id m; m_error_message := error |}.

(** [yield event] *)
Definition emit (e : event) : chat unit := st_modify (λ s,
  {| message := message s; started := started s; text_index := text_index s; text_buf := text_buf s;
     thinking_index := thinking_index s; by_index := by_index s; by_id := by_id s; pending_reasoning := pending_reasoning s;
     tool_arg_bufs := tool_arg_bufs s; tool_arg_previews := tool_arg_previews s; usage := usage s;
     finish_reason := finish_reason s; out := out s ++ [{| y_event := e; y_message := message s |}] |}).

Definition set_text (i : option nat) (b : text) (s : ChatStreamState) : ChatStreamState :=
  {| message := message s; started := started s; text_index := i; text_buf := b;
     thinking_index := thinking_index s; by_index := by_index s; by_id := by_id s; pending_reasoning := pending_reasoning s;
     tool_arg_bufs := tool_arg_bufs s; tool_arg_previews := tool_arg_previews s; usage := usage s;
     finish_reason := finish_reason s; out := out s |}.

Definition set_thinking (i : option nat) (s : ChatStreamState) : ChatStreamState :=
  {| message := message s; started := started s; text_index := text_index s; text_buf := text_buf s;
     thinking_index := i; by_index := by_index s; by_id := by_id s; pending_reasoning := pending_reasoning s;
     tool_arg_bufs := tool_arg_bufs s; tool_arg_previews := tool_arg_previews s; usage := usage s;
     finish_reason := finish_reason s; out := out s |}.

Definition set_identities (bi : list (Z * nat)) (bd : list (pv * nat)) (p : list (pv * text)) (s : ChatStreamState) : ChatStreamState :=
  {| message := message s; started := started s; text_index := text_index s; text_buf := text_buf s;
     thinking_index := thinking_index s; by_index := bi; by_id := bd; pending_reasoning := p;
     tool_arg_bufs := tool_arg_bufs s; tool_arg_previews := tool_arg_previews s; usage := usage s;
     finish_reason := finish_reason s; out := out s |}.

Definition set_buffers (b : list (nat * text)) (p : list (nat * list (text * pv))) (s : ChatStreamState) : ChatStreamState :=
  {| message := message s; started := started s; text_index := text_index s; text_buf := text_buf s;
     thinking_index := thinking_index s; by_index := by_index s; by_id := by_id s; pending_reasoning := pending_reasoning s;
     tool_arg_bufs := b; tool_arg_previews := p; usage := usage s; finish_reason := finish_reason s; out := out s |}.

Definition set_totals (u : Usage) (r : pv) (b : bool) (s : ChatStreamState) : ChatStreamState :=
  {| message := message s; started := b; text_index := text_index s; text_buf := text_buf s;
     thinking_index := thinking_index s; by_index := by_index s; by_id := by_id s; pending_reasoning := pending_reasoning s;
     tool_arg_bufs := tool_arg_bufs s; tool_arg_previews := tool_arg_previews s; usage := u; finish_reason := r; out := out s |}.

(** ** Dynamic values *)

(** [value.get], of a dict only. *)
Definition as_dict (value : pv) : chat (list (text * pv)) :=
  match value with PDict d => mret d | _ => mthrow AttributeError end.

Definition get (key : string) (d : list (text * pv)) : pv := default PNone (p_get key d).

(** [a or b] *)
Definition or_else (a b : pv) : pv := if p_truthy a then a else b.

(** [int(value)] *)
Definition int_of (value : pv) : chat Z :=
  match value with
  | PBool b => mret (if b then 1 else 0)
  | PInt z => mret z
  | PFloat f => if fl_finite f then mret (fl_trunc f)
                else mthrow (match f with SpecFloat.S754_nan => ValueError | _ => OverflowError end)
  | PStr s => match py_int s with Some z => mret z | None => mthrow ValueError end
  | _ => mthrow TypeError
  end.

(** The key of a dict a value stands for: equal numbers are one key.  [None] for a value
    that cannot be hashed. *)
Definition hash_key (value : pv) : option pv :=
  match value with
  | PList _ | PDict _ => None
  | PBool b => Some (PInt (if b then 1 else 0))
  | PFloat f => if fl_is_integer f then Some (PInt (fl_trunc f)) else Some value
  | _ => Some value
  end.

Definition hashed (value : pv) : chat pv := match hash_key value with Some k => mret k | None => mthrow TypeError end.

(** ** Events of a chunk *)

(** [src: travis/ai/providers/sse_common.py:15-19 _StartEventState.ensure]: with the yield
    of the caller. *)
Definition ensure_start : chat unit :=
  s ← st_get;
  if started s then mret tt
  else _ ← st_modify (set_totals (usage s) (finish_reason s) true); emit StartEvent.

Section stream.
(** [str] of a value that is no string, the printing of floats. *)
Variable repr : pv → text.
Variable float_repr : SpecFloat.spec_float → text.
Variable model : Model.

(** [src: travis/ai/providers/chat_stream.py:224-234 _record_chat_response_metadata] *)
Definition _record_chat_response_metadata (chunk : pv) : chat unit :=
  d ← as_dict chunk;
  st_modify (on_message (λ m,
    let known o := match o with Some (_ :: _) => true | _ => false end in
    let i := if known (m_response_id m) then m_response_id m
             else match get "id" d with PStr ((_ :: _) as t) => Some t | _ => m_response_id m end in
    let r := if known (m_response_model m) then m_response_model m
             else match get "model" d with
                  | PStr ((_ :: _) as t) => if bool_decide (t = md_id model) then m_response_model m else Some t
                  | _ => m_response_model m
                  end in
    with_response i r m)).

(** [src: travis/ai/providers/chat_stream.py:28-28 _REASONING_FIELDS] *)
Definition _REASONING_FIELDS : list string := ["reasoning_content"; "reasoning"; "reasoning_text"].

(** [src: travis/ai/providers/chat_stream.py:237-242 _reasoning_field]: with the value of the
    field. *)
Definition _reasoning_field (delta : list (text * pv)) : option (string * text) :=
  match omap (λ f, match get f delta with PStr ((_ :: _) as t) => Some (f, t) | _ => None end) _REASONING_FIELDS with
  | x :: _ => Some x
  | [] => None
  end.

(** [message.content[i] = ...] of the block that is there. *)
Definition update_block (i : nat) (f : Block → Block) : chat unit := st_modify (on_message (with_content (alter f i))).

Definition append_block (b : Block) : chat nat :=
  s ← st_get;
  _ ← st_modify (on_message (with_content (λ c, c ++ [b])));
  mret (length (m_content (message s))).

(** [src: travis/ai/providers/chat_stream.py:245-275 _emit_reasoning_delta] *)
Definition _emit_reasoning_delta (field : string) (reasoning : text) : chat unit :=
  let thinking_signature := lit (if bool_decide (md_provider model = lit "opencode-go") && bool_decide (field = "reasoning")%string
                                 then "reasoning_content" else field) in
  _ ← ensure_start;
  s ← st_get;
  i ← match thinking_index s with
      | Some i => mret i
      | None =>
          i ← append_block (ThinkingContent [] thinking_signature);
          _ ← st_modify (set_thinking (Some i));
          _ ← emit (ThinkingStartEvent i);
          mret i
      end;
  s ← st_get;
  match m_content (message s) !! i with
  | Some (ThinkingContent thinking sign) =>
      _ ← update_block i (λ _, ThinkingContent (thinking ++ reasoning) sign);
      emit (ThinkingDeltaEvent i reasoning)
  | _ => mret tt
  end.

(** [src: travis/ai/providers/chat_stream.py:278-299 _emit_text_delta] *)
Definition _emit_text_delta (content_piece : pv) : chat unit :=
  _ ← ensure_start;
  s ← st_get;
  i ← match text_index s with
      | Some i => mret i
      | None =>
          i ← append_block (TextContent []);
          _ ← st_modify (λ s, set_text (Some i) (text_buf s) s);
          _ ← emit (TextStartEvent i);
          mret i
      end;
  match content_piece with
  | PStr piece =>
      _ ← st_modify (λ s, set_text (text_index s) (text_buf s ++ piece) s);
      s ← st_get;
      match m_content (message s) !! i with
      | Some (TextContent _) =>
          _ ← update_block i (λ _, TextContent (text_buf s));
          emit (TextDeltaEvent i piece)
      | _ => mret tt
      end
  | _ => mthrow TypeError
  end.

(** [src: travis/ai/providers/chat_stream.py:302-316 _tool_call_fragments] *)
Definition _tool_call_fragments (tool_call_delta : pv) : chat (option Z * pv * text * text) :=
  d ← as_dict tool_call_delta;
  let stream_index := match get "index" d with
                      | PInt z => Some z
                      | PBool b => Some (if b then 1 else 0)
                      | _ => None
                      end in
  let tool_call_id := or_else (get "id" d) (PStr []) in
  let function := match or_else (get "function" d) (PDict []) with PDict f => f | _ => [] end in
  let str key := match get key function with PStr t => t | _ => [] end in
  mret (stream_index, tool_call_id, str "name"%string, str "arguments"%string).

(** [src: travis/ai/providers/chat_stream.py:319-331 _existing_tool_call] *)
Definition _existing_tool_call (stream_index : option Z) (tool_call_id : pv) : chat (option nat) :=
  s ← st_get;
  match (match stream_index with Some z => od_get z (by_index s) | None => None end) with
  | Some i => mret (Some i)
  | None => if p_truthy tool_call_id then k ← hashed tool_call_id; mret (od_get k (by_id s)) else mret None
  end.

Definition set_signature (t : text) (b : Block) : Block :=
  match b with ToolCall i n a _ => ToolCall i n a (Some t) | _ => b end.
Definition set_id (id : pv) (b : Block) : Block := match b with ToolCall _ n a s => ToolCall id n a s | _ => b end.
Definition set_name (name : text) (b : Block) : Block := match b with ToolCall i _ a s => ToolCall i name a s | _ => b end.
Definition set_arguments (a : list (text * pv)) (b : Block) : Block := match b with ToolCall i n _ s => ToolCall i n a s | _ => b end.

(** [src: travis/ai/providers/chat_stream.py:334-344 _attach_pending_reasoning] *)
Definition _attach_pending_reasoning (i : nat) (tool_call_id : pv) : chat unit :=
  k ← hashed tool_call_id;
  s ← st_get;
  _ ← st_modify (set_identities (by_index s) (by_id s) (od_del k (pending_reasoning s)));
  match od_get k (pending_reasoning s) with
  | Some ((_ :: _) as detail) => update_block i (set_signature detail)
  | _ => mret tt
  end.

(** The identifier of the call at a place of the content. *)
Definition call_id (i : nat) (s : ChatStreamState) : pv :=
  match m_content (message s) !! i with Some (ToolCall id _ _ _) => id | _ => PStr [] end.
Definition call_name (i : nat) (s : ChatStreamState) : text :=
  match m_content (message s) !! i with Some (ToolCall _ name _ _) => name | _ => [] end.

(** [src: travis/ai/providers/chat_stream.py:347-359 _register_tool_call_identity] *)
Definition _register_tool_call_identity (i : nat) (stream_index : option Z) (tool_call_id : pv) : chat unit :=
  _ ← st_modify (λ s, set_identities (match stream_index with Some z => od_set z i (by_index s) | None => by_index s end)
                        (by_id s) (pending_reasoning s) s);
  if p_truthy tool_call_id then
    k ← hashed tool_call_id;
    _ ← st_modify (λ s, set_identities (by_index s) (od_set k i (by_id s)) (pending_reasoning s) s);
    s ← st_get;
    if p_truthy (call_id i s) then mret tt
    else
      _ ← update_block i (set_id tool_call_id);
      _attach_pending_reasoning i tool_call_id
  else mret tt.

(** [src: travis/ai/providers/chat_stream.py:362-410 _emit_tool_call_delta] *)
Definition _emit_tool_call_delta (tool_call_delta : pv) : chat unit :=
  '(stream_index, tool_call_id, name_fragment, arg_fragment) ← _tool_call_fragments tool_call_delta;
  existing ← _existing_tool_call stream_index tool_call_id;
  _ ← ensure_start;
  i ← match existing with
      | None =>
          i ← append_block (ToolCall tool_call_id name_fragment [] None);
          _ ← st_modify (λ s, set_buffers (od_set i [] (tool_arg_bufs s)) (od_set i [] (tool_arg_previews s)) s);
          _ ← _register_tool_call_identity i stream_index tool_call_id;
          _ ← (if p_truthy tool_call_id then _attach_pending_reasoning i tool_call_id else mret tt);
          _ ← emit (ToolcallStartEvent i);
          mret i
      | Some i => _ ← _register_tool_call_identity i stream_index tool_call_id; mret i
      end;
  s ← st_get;
  _ ← (match name_fragment, call_name i s with
       | _ :: _, [] => update_block i (set_name name_fragment)
       | _, _ => mret tt
       end);
  _ ← (match arg_fragment with
       | [] => mret tt
       | _ =>
           let buf := default [] (od_get i (tool_arg_bufs s)) ++ arg_fragment in
           let preview := _parse_streaming_json_preview (Some buf) (od_get i (tool_arg_previews s)) in
           _ ← st_modify (λ s, set_buffers (od_set i buf (tool_arg_bufs s)) (od_set i preview (tool_arg_previews s)) s);
           update_block i (set_arguments preview)
       end);
  emit (ToolcallDeltaEvent i arg_fragment).

(** One turn of the loop of [_apply_reasoning_details]. *)
Definition apply_reasoning_detail (detail : pv) : chat unit :=
  match detail with
  | PDict d =>
      match get "type" d, get "id" d, get "data" d with
      | PStr t, PStr ((_ :: _) as detail_id), PStr (_ :: _) =>
          if bool_decide (t = lit "reasoning.encrypted") then
            let serialized := dumps_compact float_repr detail in
            s ← st_get;
            match od_get (PStr detail_id) (by_id s) with
            | Some i => update_block i (set_signature serialized)
            | None => st_modify (set_identities (by_index s) (by_id s) (od_set (PStr detail_id) serialized (pending_reasoning s)))
            end
          else mret tt
      | _, _, _ => mret tt
      end
  | _ => mret tt
  end.

(** [src: travis/ai/providers/chat_stream.py:413-434 _apply_reasoning_details] *)
Definition _apply_reasoning_details (delta : list (text * pv)) : chat unit :=
  match get "reasoning_details" delta with PList details => st_iter apply_reasoning_detail details | _ => mret tt end.

(** [src: travis/ai/providers/chat_stream.py:478-501 _merge_usage] *)
Definition _merge_usage (u : Usage) (raw : pv) : chat Usage :=
  if negb (p_truthy raw) then mret u
  else
    raw ← as_dict raw;
    let number d key := int_of (or_else (get key d) (PInt 0)) in
    let details key := match get key raw with PDict d => d | _ => [] end in
    prompt ← number raw "prompt_tokens"%string;
    completion ← number raw "completion_tokens"%string;
    let prompt_details := details "prompt_tokens_details"%string in
    cache_read ← int_of (or_else (get "cached_tokens" prompt_details) (or_else (get "prompt_cache_hit_tokens" raw) (PInt 0)));
    cache_write ← number prompt_details "cache_write_tokens"%string;
    let non_zero a b := if a =? 0 then b else a in
    let input := if prompt =? 0 then u_input u else Z.max 0 (prompt - cache_read - cache_write) in
    let output := non_zero completion (u_output u) in
    let cr := non_zero cache_read (u_cache_read u) in
    let cw := non_zero cache_write (u_cache_write u) in
    reasoning ← number (details "completion_tokens_details"%string) "reasoning_tokens"%string;
    mret {| u_input := input; u_output := output; u_cache_read := cr; u_cache_write := cw;
            u_reasoning := non_zero reasoning (u_reasoning u);
            u_total_tokens := if (prompt =? 0) && (completion =? 0) then u_total_tokens u else input + output + cr + cw |}.

(** [choices[0]] *)
Definition first_choice (choices : pv) : chat pv :=
  match choices with
  | PList (c :: _) => mret c
  | PDict _ => mthrow KeyError
  | PStr (c :: _) => mret (PStr [c])
  | _ => mthrow TypeError
  end.

(** [for x in value] of a truthy value. *)
Definition iterate (value : pv) : chat (list pv) :=
  match value with
  | PList l => mret l
  | PDict d => mret (map (λ p, PStr p.1) d)
  | PStr t => mret (map (λ c, PStr [c]) t)
  | _ => mthrow TypeError
  end.

(** [state.usage = _merge_usage(state.usage, raw)] *)
Definition add_usage (raw : pv) : chat unit :=
  s ← st_get;
  u ← _merge_usage (usage s) raw;
  st_modify (λ s, set_totals u (finish_reason s) (started s) s).

(** [src: travis/ai/providers/chat_stream.py:437-475 _parse_sse_payload] *)
Definition _parse_sse_payload (include_reasoning : bool) (payload : text) : chat unit :=
  match loads payload with
  | Err JSONDecodeError => mret tt
  | Err IntTooLong => mthrow ValueError
  | Ok chunk =>
      _ ← _record_chat_response_metadata chunk;
      d ← as_dict chunk;
      _ ← add_usage (get "usage" d);
      let choices := get "choices" d in
      if negb (p_truthy choices) then mret tt
      else
        choice ← first_choice choices;
        choice ← as_dict choice;
        _ ← (if p_truthy (get "usage" d) then mret tt else add_usage (get "usage" choice));
        delta ← as_dict (or_else (get "delta" choice) (PDict []));
        _ ← (match _reasoning_field delta with
             | Some (field, reasoning) => if include_reasoning : bool then _emit_reasoning_delta field reasoning else mret tt
             | None => mret tt
             end);
        let content_piece := get "content" delta in
        _ ← (if p_truthy content_piece then _emit_text_delta content_piece else mret tt);
        calls ← iterate (or_else (get "tool_calls" delta) (PList []));
        _ ← st_iter _emit_tool_call_delta calls;
        _ ← _apply_reasoning_details delta;
        let reason := get "finish_reason" choice in
        if p_truthy reason then st_modify (λ s, set_totals (usage s) reason (started s) s) else mret tt
  end.

(** ** The end of the stream *)

(** [src: travis/ai/providers/sse_common.py:22-33 _map_stop_reason] *)
Definition _map_stop_reason (reason : pv) : string * option text :=
  if existsb (λ w, bool_decide (reason = PStr (lit w))) ["stop"; "end"]%string then ("stop", None)%string
  else if bool_decide (reason = PStr (lit "length")) then ("length", None)%string
  else if existsb (λ w, bool_decide (reason = PStr (lit w))) ["function_call"; "tool_calls"]%string then ("toolUse", None)%string
  else ("error"%string, Some (lit "Provider finish_reason: " ++ py_str repr reason)).

(** The end event of the block at a place. *)
Definition end_block (i : nat) : chat unit :=
  s ← st_get;
  match m_content (message s) !! i with
  | Some (TextContent t) => emit (TextEndEvent i t)
  | Some (ThinkingContent t _) => emit (ThinkingEndEvent i t)
  | Some (ToolCall id name _ sign) =>
      let call := ToolCall id name (_parse_streaming_json (Some (default [] (od_get i (tool_arg_bufs s))))) sign in
      _ ← update_block i (λ _, call);
      emit (ToolcallEndEvent i call)
  | None => mret tt
  end.

(** [src: travis/ai/providers/chat_stream.py:138-150 parse_sse_chunks.end_content_events] *)
Definition end_content_events : chat unit :=
  s ← st_get;
  _ ← st_iter end_block (seq 0 (length (m_content (message s))));
  s ← st_get;
  _ ← (if started s then mret tt else emit StartEvent);
  st_modify (on_message (with_usage (usage s))).

(** [message.stop_reason = "error"; message.error_message = ...; yield ErrorEvent(...)] *)
Definition fail_with (error : option text) : chat unit :=
  _ ← st_modify (on_message (with_stop "error" error)); emit ErrorEvent.

Definition is_call (b : Block) : bool := match b with ToolCall _ _ _ _ => true | _ => false end.
Definition is_visible (b : Block) : bool :=
  match b with ToolCall _ _ _ _ => true | TextContent t => match strip t with [] => false | _ => true end | _ => false end.

(** [src: travis/ai/providers/chat_stream.py:152-180 parse_sse_chunks.final_events] *)
Definition final_events : chat unit :=
  _ ← end_content_events;
  s ← st_get;
  if negb (p_truthy (finish_reason s)) then fail_with (Some (lit "Stream ended without finish_reason"))
  else
    let content := m_content (message s) in
    let '(reason, error_message) := _map_stop_reason (finish_reason s) in
    let reason := if bool_decide (reason = "toolUse"%string) && negb (existsb is_call content) then "stop"%string else reason in
    _ ← st_modify (on_message (λ m, with_stop reason (m_error_message m) m));
    if bool_decide (reason = "error"%string) then fail_with error_message
    else if bool_decide (reason = "length"%string) && negb (existsb is_visible content) then
      fail_with (Some (lit "Provider output token limit reached before producing user-visible text or a tool call"))
    else emit (DoneEvent reason).

(** ** The lines *)

(** What a line is: its payload, the end, or nothing. *)
Inductive sse_line : Type :=
  | Payload (t : text)
  | EndOfData
  | OtherLine.

Definition read_line (raw : text) : sse_line :=
  let line := strip raw in
  if is_prefix (lit "data:") line then
    let payload := strip (drop 5 line) in
    if bool_decide (payload = lit "[DONE]") then EndOfData else Payload payload
  else OtherLine.

(** [clock() - last_data_at > data_idle_timeout_seconds] *)
Definition idle (timeout : option float64) (now last_data_at : float64) : bool :=
  match timeout with
  | Some limit => fl_ltb fl_zero limit && fl_ltb limit (fl_sub now last_data_at)
  | None => false
  end.

(** [src: travis/ai/providers/sse_common.py:35-57 _iter_sse_data], with the loop of
    [parse_sse_chunks] over the payloads.  [clock (2 * n)] is read before line [n] is looked
    at, and [clock (2 * n + 1)] when its payload has been found. *)
Fixpoint read_lines (include_reasoning wait_for_usage : bool) (timeout : option float64) (clock : nat → float64)
    (last_data_at : float64) (n : nat) (lines : list text) : chat unit :=
  match lines with
  | [] => mret tt
  | raw :: rest =>
      _ ← (if idle timeout (clock (2 * n)%nat) last_data_at then mthrow (TimeoutError (fl_trunc (default fl_zero timeout))) else mret tt);
      match read_line raw with
      | OtherLine => read_lines include_reasoning wait_for_usage timeout clock last_data_at (S n) rest
      | EndOfData => mret tt
      | Payload payload =>
          _ ← _parse_sse_payload include_reasoning payload;
          s ← st_get;
          if p_truthy (finish_reason s) && negb wait_for_usage then mret tt
          else read_lines include_reasoning wait_for_usage timeout clock (clock (2 * n + 1)%nat) (S n) rest
      end
  end.

Definition initial : ChatStreamState :=
  {| message := blank_assistant_message; started := false; text_index := None; text_buf := []; thinking_index := None;
     by_index := []; by_id := []; pending_reasoning := []; tool_arg_bufs := []; tool_arg_previews := []; usage := empty_usage;
     finish_reason := PNone; out := [] |}.

(** [src: travis/ai/providers/chat_stream.py:62-222 parse_sse_chunks]: in the mode
    [chat_completions]. *)
Definition parse_sse_chunks (include_reasoning wait_for_usage : bool) (timeout : option float64) (clock : nat → float64)
    (lines : list text) : chat unit :=
  λ s,
    match (_ ← ensure_start;
           read_lines include_reasoning wait_for_usage timeout clock (clock 0%nat) 1 lines) s with
    | (Ok _, s) => final_events s
    | (Err (TimeoutError seconds), s) =>
        (_ ← end_content_events;
         fail_with (Some (lit "SSE stream received no data events for " ++ decimal seconds ++ lit " seconds"))) s
    | (Err e, s) => (Err e, s)
    end.
End stream.

(** A stream with text, a call in two fragments, and its end; written as in [StreamingJson.quoted]. *)
Definition sample_lines : list text := map quoted
  ["data: {#id#: #r1#, #choices#: [{#delta#: {#content#: #Hel#}}]}";
   "data: {#choices#: [{#delta#: {#content#: #lo#}}]}";
   ": keep-alive";
   "data: {#choices#: [{#delta#: {#tool_calls#: [{#index#: 0, #id#: #c1#, #function#: {#name#: #read#, #arguments#: #{@#pa#}}]}}]}";
   "data: not json";
   "data: {#choices#: [{#delta#: {#tool_calls#: [{#index#: 0, #function#: {#arguments#: #th@#:1}#}}]}, #finish_reason#: #tool_calls#}]}"].

Example sample_stream :
  let '(r, s) := parse_sse_chunks (λ _, []) (λ _, []) {| md_id := []; md_provider := [] |} true false None (λ _, fl_zero) sample_lines initial in
  r = Ok tt ∧ map y_event (out s) =
    [StartEvent; TextStartEvent 0; TextDeltaEvent 0 (lit "Hel"); TextDeltaEvent 0 (lit "lo");
     ToolcallStartEvent 1; ToolcallDeltaEvent 1 (quoted "{#pa"); ToolcallDeltaEvent 1 (quoted "th#:1}");
     TextEndEvent 0 (lit "Hello"); ToolcallEndEvent 1 (ToolCall (PStr (lit "c1")) (lit "read") [(lit "path", PInt 1)] None);
     DoneEvent "toolUse"].
Proof. vm_compute. done. Qed.
