(* ===== verification/ChatStreamSpec.v ===== *)
(** Properties of the provider stream: whatever the lines say, the events follow the
    protocol of a message, block by block, the guard of the agent accepts them, and the
    message is what the deltas add up to. *)

From S2P Require Import Prelude PyDict PyFloat Utf8 PyText PyValue JsonLoads StreamingJson AgentParts ChatStream.
Open Scope Z_scope.
Local Notation text := Utf8.text.

(** ** The protocol of a message *)

Inductive kind : Type := KText | KThinking | KTool.
#[export] Instance kind_eq_dec : EqDecision kind.
Proof. solve_decision. Defined.

Definition kind_of (b : Block) : kind :=
  match b with TextContent _ => KText | ThinkingContent _ _ => KThinking | ToolCall _ _ _ _ => KTool end.

(** Before the start; blocks opened; the first [n] of the blocks ended; after the end. *)
Inductive phase : Type :=
  | NotStarted
  | Open (ks : list kind)
  | Closing (ks : list kind) (n : nat)
  | Finished.

Definition opened (k : kind) (i : nat) (p : phase) : option phase :=
  match p with Open ks => if bool_decide (i = length ks) then Some (Open (ks ++ [k])) else None | _ => None end.
Definition continued (k : kind) (i : nat) (p : phase) : option phase :=
  match p with Open ks => if bool_decide (ks !! i = Some k) then Some p else None | _ => None end.
Definition ended (k : kind) (i : nat) (p : phase) : option phase :=
  match p with
  | Open ks => if bool_decide (i = 0%nat ∧ ks !! 0%nat = Some k) then Some (Closing ks 1) else None
  | Closing ks n => if bool_decide (i = n ∧ ks !! n = Some k) then Some (Closing ks (S n)) else None
  | _ => None
  end.
Definition finished (p : phase) : option phase :=
  match p with
  | Open [] => Some Finished
  | Closing ks n => if bool_decide (n = length ks) then Some Finished else None
  | _ => None
  end.

(** A message starts; its blocks are opened in the order of their indices, and grow; then
    each is ended, in order; then the message ends. *)
Definition protocol_step (p : phase) (e : event) : option phase :=
  match e with
  | StartEvent => match p with NotStarted => Some (Open []) | _ => None end
  | TextStartEvent i => opened KText i p
  | ThinkingStartEvent i => opened KThinking i p
  | ToolcallStartEvent i => opened KTool i p
  | TextDeltaEvent i _ => continued KText i p
  | ThinkingDeltaEvent i _ => continued KThinking i p
  | ToolcallDeltaEvent i _ => continued KTool i p
  | TextEndEvent i _ => ended KText i p
  | ThinkingEndEvent i _ => ended KThinking i p
  | ToolcallEndEvent i _ => ended KTool i p
  | DoneEvent _ | ErrorEvent => finished p
  end.

Fixpoint protocol (p : phase) (es : list event) : option phase :=
  match es with [] => Some p | e :: es => p ← protocol_step p e; protocol p es end.

Lemma protocol_snoc es : ∀ p e, protocol p (es ++ [e]) = protocol p es ≫= λ p, protocol_step p e.
Proof.
  induction es as [|x es IH]; intros p e; cbn; [by destruct (protocol_step p e)|]. destruct (protocol_step p x); cbn; [apply IH|done].
Qed.

(** What the deltas of a block add up to. *)
Definition delta_of (i : nat) (e : event) : text :=
  match e with
  | TextDeltaEvent j d | ThinkingDeltaEvent j d | ToolcallDeltaEvent j d => if bool_decide (j = i) then d else []
  | _ => []
  end.
Definition deltas (i : nat) (es : list event) : text := flat_map (delta_of i) es.
#[local] Arguments deltas : simpl never.

Lemma deltas_snoc i es e : deltas i (es ++ [e]) = deltas i es ++ delta_of i e.
Proof. unfold deltas. rewrite flat_map_app. cbn. by rewrite app_nil_r. Qed.

Definition events (s : ChatStreamState) : list event := map y_event (out s).

(** ** The invariant *)

Definition is_tool (s : ChatStreamState) (i : nat) : Prop := kind_of <$> m_content (message s) !! i = Some KTool.

(** While chunks are read: the first [n] blocks have been opened, and what has come in
    for each is in its place. *)
Record Inv (n : nat) (s : ChatStreamState) : Prop := {
  inv_started : started s = true;
  inv_known : (n <= length (m_content (message s)))%nat;
  inv_protocol : protocol NotStarted (events s) = Some (Open (kind_of <$> take n (m_content (message s))));
  inv_text : ∀ i body, m_content (message s) !! i = Some (TextContent body) →
    body = deltas i (events s) ∧ text_index s = Some i ∧ text_buf s = body;
  inv_thinking : ∀ i t sign, m_content (message s) !! i = Some (ThinkingContent t sign) → t = deltas i (events s);
  inv_tool : ∀ i, is_tool s i → default [] (od_get i (tool_arg_bufs s)) = deltas i (events s);
  inv_new : ∀ i, (n <= i)%nat → deltas i (events s) = [] ∧ default [] (od_get i (tool_arg_bufs s)) = [];
  inv_text_index : match text_index s with
                   | Some i => kind_of <$> m_content (message s) !! i = Some KText
                   | None => text_buf s = []
                   end;
  inv_thinking_index : ∀ i, thinking_index s = Some i → kind_of <$> m_content (message s) !! i = Some KThinking;
  inv_by_index : ∀ z i, od_get z (by_index s) = Some i → is_tool s i;
  inv_by_id : ∀ k i, od_get k (by_id s) = Some i → is_tool s i
}.

(** All the blocks have been opened. *)
Definition Steady (s : ChatStreamState) : Prop := Inv (length (m_content (message s))) s.

(** A call that keeps [P], however it ends. *)
Definition keeps {A} (P : ChatStreamState → Prop) (m : chat A) : Prop := ∀ s, P s → wpe m (λ _, P) (λ _, P) s.

Lemma keeps_bind {A B} P (m : chat A) (f : A → chat B) : keeps P m → (∀ a, keeps P (f a)) → keeps P (m ≫= f).
Proof. intros Hm Hf s Hs. apply wpe_bind. eapply wpe_mono; [by apply Hm|intros a s' Hs'; by apply Hf|done]. Qed.

Lemma keeps_ret {A} P (a : A) : keeps P (mret a).
Proof. by intros s Hs. Qed.

Lemma keeps_throw {A} P (e : chat_error) : keeps P (mthrow e : chat A).
Proof. by intros s Hs. Qed.

Lemma keeps_get P : keeps P (st_get : chat _).
Proof. by intros s Hs. Qed.

Lemma keeps_modify P f : (∀ s, P s → P (f s)) → keeps P (st_modify f : chat unit).
Proof. intros H s Hs. by apply H. Qed.

Lemma keeps_iter {A} P (f : A → chat unit) l : (∀ x, keeps P (f x)) → keeps P (st_iter f l).
Proof. intros H. induction l as [|x l IH]; cbn; [apply keeps_ret|]. by apply keeps_bind. Qed.

#[local] Hint Resolve keeps_ret keeps_throw keeps_get : keeps.

(** Changes that the invariant does not look at. *)
Lemma Inv_frame n s s' : m_content (message s') = m_content (message s) → started s' = started s → out s' = out s →
  text_index s' = text_index s → text_buf s' = text_buf s → thinking_index s' = thinking_index s → by_index s' = by_index s →
  by_id s' = by_id s → tool_arg_bufs s' = tool_arg_bufs s → Inv n s → Inv n s'.
Proof.
  destruct s, s'. cbn. intros ? -> -> -> -> -> -> -> -> []. unfold is_tool, events in *. cbn in *.
  split; unfold is_tool, events; cbn; by rewrite ?H.
Qed.

(** A change of one tool call. *)
Lemma Inv_update n s i f : Inv n s → is_tool s i → (∀ b, kind_of b = KTool → kind_of (f b) = KTool) →
  Inv n (on_message (with_content (alter f i)) s).
Proof.
  intros [] Hi Hf. unfold is_tool, events in *.
  assert (∀ j, kind_of <$> alter f i (m_content (message s)) !! j = kind_of <$> m_content (message s) !! j) as Hk.
  { intros j. destruct (decide (i = j)) as [<-|Hne]; [|by rewrite list_lookup_alter_ne].
    rewrite list_lookup_alter_eq. destruct (m_content (message s) !! i) as [b|]; [|done]. cbn in *. f_equal.
    injection Hi as Hi. rewrite Hi. by apply Hf. }
  assert (∀ j b, kind_of b ≠ KTool → alter f i (m_content (message s)) !! j = Some b → m_content (message s) !! j = Some b) as Hsame.
  { intros j b Hb. destruct (decide (i = j)) as [<-|Hne]; [|by rewrite list_lookup_alter_ne].
    rewrite list_lookup_alter_eq. destruct (m_content (message s) !! i) as [b'|]; [|done]. cbn in *. intros [= <-]. exfalso. apply Hb.
    injection Hi as Hi. by apply Hf. }
  split; cbn -[alter]; unfold is_tool, events; cbn -[alter]; try done.
  - by rewrite length_alter.
  - rewrite inv_protocol0. f_equal. f_equal. apply list_eq. intros j. rewrite !list_lookup_fmap.
    destruct (decide (j < n)%nat); [rewrite !lookup_take_lt by done; by rewrite Hk|by rewrite !lookup_take_ge by lia].
  - intros j body Hj. by apply inv_text0, Hsame.
  - intros j t sign Hj. by eapply inv_thinking0, Hsame.
  - intros j. rewrite Hk. apply inv_tool0.
  - destruct (text_index s); [by rewrite Hk|done].
  - intros j Hj. rewrite Hk. by apply inv_thinking_index0.
  - intros z j Hj. rewrite Hk. by eapply inv_by_index0.
  - intros z j Hj. rewrite Hk. by eapply inv_by_id0.
Qed.

(** ** Blocks *)

Definition appended (b : Block) (s : ChatStreamState) : ChatStreamState := on_message (with_content (λ c, c ++ [b])) s.

Lemma is_tool_app c b i : kind_of <$> (c : list Block) !! i = Some KTool → kind_of <$> (c ++ [b]) !! i = Some KTool.
Proof. intros H. rewrite lookup_app_l; [done|]. destruct (c !! i) eqn:Hc; [by eapply lookup_lt_Some|done]. Qed.

Lemma kind_app k c b i : kind_of <$> (c : list Block) !! i = Some k → kind_of <$> (c ++ [b]) !! i = Some k.
Proof. intros H. rewrite lookup_app_l; [done|]. destruct (c !! i) eqn:Hc; [by eapply lookup_lt_Some|done]. Qed.

Lemma kind_snoc k c b i : kind_of <$> ((c ++ [b]) : list Block) !! i = Some k →
  kind_of <$> c !! i = Some k ∨ i = length c ∧ kind_of b = k.
Proof.
  intros (x & Hx & ->)%fmap_Some. apply lookup_snoc_Some in Hx as [[_ Hx]|[-> ->]]; [left; by rewrite Hx|by right].
Qed.

Lemma take_announced {A} n (l : list A) x : n = length l → take n (l ++ [x]) = take n l.
Proof. intros ->. by rewrite take_app_length, firstn_all. Qed.

(** A new block, not yet announced. *)
Lemma Inv_append_text s : Steady s → text_index s = None →
  Inv (length (m_content (message s))) (set_text (Some (length (m_content (message s)))) (text_buf s) (appended (TextContent []) s)).
Proof.
  intros [] Hnone. rewrite Hnone in inv_text_index0. unfold is_tool, events in *.
  split; unfold is_tool, events; cbn; try done.
  - rewrite length_app. cbn. lia.
  - by rewrite take_announced.
  - intros i body [[_ Hi]|[-> [= <-]]]%lookup_snoc_Some.
    + apply inv_text0 in Hi as (_ & Hi & _). congruence.
    + destruct (inv_new0 (length (m_content (message s)))) as [-> _]; [done|]. done.
  - intros i t sign [[_ Hi]|[_ [=]]]%lookup_snoc_Some. by eapply inv_thinking0.
  - intros i [Hi|[_ [=]]]%kind_snoc. by apply inv_tool0.
  - by rewrite lookup_app_r, Nat.sub_diag by done.
  - intros i Hi. by apply kind_app, inv_thinking_index0.
  - intros z i Hi. by eapply is_tool_app, inv_by_index0.
  - intros z i Hi. by eapply is_tool_app, inv_by_id0.
Qed.

Lemma Inv_append_thinking sign s : Steady s → thinking_index s = None →
  Inv (length (m_content (message s))) (set_thinking (Some (length (m_content (message s)))) (appended (ThinkingContent [] sign) s)).
Proof.
  intros [] Hnone. unfold is_tool, events in *. split; unfold is_tool, events; cbn; try done.
  - rewrite length_app. cbn. lia.
  - by rewrite take_announced.
  - intros i body [[_ Hi]|[_ [=]]]%lookup_snoc_Some. by apply inv_text0.
  - intros i t sign' [[_ Hi]|[-> [= <- <-]]]%lookup_snoc_Some; [by eapply inv_thinking0|].
    by destruct (inv_new0 (length (m_content (message s)))) as [-> _].
  - intros i [Hi|[_ [=]]]%kind_snoc. by apply inv_tool0.
  - destruct (text_index s) as [i|]; [|done]. by apply kind_app.
  - intros i [= <-]. by rewrite lookup_app_r, Nat.sub_diag by done.
  - intros z i Hi. by eapply is_tool_app, inv_by_index0.
  - intros z i Hi. by eapply is_tool_app, inv_by_id0.
Qed.

Lemma Inv_append_tool id name p s : Steady s →
  let i := length (m_content (message s)) in
  Inv i (set_buffers (od_set i [] (tool_arg_bufs s)) p (appended (ToolCall id name [] None) s)) ∧
  is_tool (set_buffers (od_set i [] (tool_arg_bufs s)) p (appended (ToolCall id name [] None) s)) i.
Proof.
  intros []. unfold is_tool, events in *. split; [split; unfold is_tool, events; cbn; try done|].
  - rewrite length_app. cbn. lia.
  - by rewrite take_announced.
  - intros i body [[_ Hi]|[_ [=]]]%lookup_snoc_Some. by apply inv_text0.
  - intros i t sign [[_ Hi]|[_ [=]]]%lookup_snoc_Some. by eapply inv_thinking0.
  - intros i [Hi|[-> _]]%kind_snoc; rewrite od_get_set.
    + rewrite decide_False; [by apply inv_tool0|]. intros <-. by rewrite lookup_ge_None_2 in Hi.
    + rewrite decide_True by done. by destruct (inv_new0 (length (m_content (message s)))) as [-> _].
  - intros i Hi. rewrite od_get_set. destruct (inv_new0 i Hi) as [-> Hb]. split; [done|]. by case_decide.
  - destruct (text_index s) as [i|]; [|done]. by apply kind_app.
  - intros i Hi. by apply kind_app, inv_thinking_index0.
  - intros z i Hi. by eapply is_tool_app, inv_by_index0.
  - intros z i Hi. by eapply is_tool_app, inv_by_id0.
  - cbn. by rewrite lookup_app_r, Nat.sub_diag by done.
Qed.

Definition emitted (e : event) (s : ChatStreamState) : ChatStreamState := (emit e s).2.

Lemma events_emitted e s : events (emitted e s) = events s ++ [e].
Proof. unfold events, emitted. cbn. by rewrite map_app. Qed.

(** The start event of a kind. *)
Definition start_of (k : kind) (i : nat) : event :=
  match k with KText => TextStartEvent i | KThinking => ThinkingStartEvent i | KTool => ToolcallStartEvent i end.

Lemma Inv_announce n s b : Inv n s → length (m_content (message s)) = S n → m_content (message s) !! n = Some b →
  Steady (emitted (start_of (kind_of b) n) s).
Proof.
  intros [] Hlen Hb. unfold Steady. change (message (emitted _ s)) with (message s). rewrite Hlen.
  assert (∀ i, deltas i (events (emitted (start_of (kind_of b) n) s)) = deltas i (events s)) as Hd.
  { intros i. rewrite events_emitted, deltas_snoc. destruct (kind_of b); apply app_nil_r. }
  split; change (message (emitted _ s)) with (message s); [done|lia| | | | | |done|done|done|done].
  - rewrite events_emitted, protocol_snoc, inv_protocol0. cbn [mbind option_bind].
    rewrite (take_S_r _ _ _ Hb), fmap_app.
    assert (n = length (kind_of <$> take n (m_content (message s)))) as Hn by (rewrite length_fmap, length_take; lia).
    cbn [fmap list_fmap]. destruct (kind_of b) eqn:Hk; cbn [start_of protocol_step opened]; by rewrite bool_decide_true.
  - intros i body Hi. rewrite Hd. by apply inv_text0.
  - intros i t sign Hi. rewrite Hd. by eapply inv_thinking0.
  - intros i Hi. rewrite Hd. by apply inv_tool0.
  - intros i Hi. rewrite Hd. apply inv_new0. lia.
Qed.

(** ** Deltas *)

Definition delta_event (k : kind) (i : nat) (d : text) : event :=
  match k with KText => TextDeltaEvent i d | KThinking => ThinkingDeltaEvent i d | KTool => ToolcallDeltaEvent i d end.

Lemma protocol_delta s k i d : Steady s → kind_of <$> m_content (message s) !! i = Some k →
  protocol NotStarted (events s ++ [delta_event k i d]) = Some (Open (kind_of <$> m_content (message s))).
Proof.
  intros [] Hk. rewrite protocol_snoc, inv_protocol0, firstn_all. cbn [mbind option_bind].
  destruct k; cbn; by rewrite bool_decide_true by (rewrite list_lookup_fmap; done).
Qed.

Lemma deltas_delta j k i d es : deltas j (es ++ [delta_event k i d]) = deltas j es ++ if bool_decide (i = j) then d else [].
Proof. rewrite deltas_snoc. by destruct k. Qed.

Lemma insert_kind (c : list Block) i b b' j : c !! i = Some b → kind_of b' = kind_of b →
  kind_of <$> alter (λ _, b') i c !! j = kind_of <$> c !! j.
Proof.
  intros Hi Hk. destruct (decide (i = j)) as [<-|Hne]; [|by rewrite list_lookup_alter_ne].
  rewrite list_lookup_alter_eq, Hi. cbn. by rewrite Hk.
Qed.

Lemma insert_kinds (c : list Block) i b b' : c !! i = Some b → kind_of b' = kind_of b → kind_of <$> alter (λ _, b') i c = kind_of <$> c.
Proof. intros Hi Hk. apply list_eq. intros j. rewrite !list_lookup_fmap. by eapply insert_kind. Qed.

Lemma lookup_replaced (c : list Block) i b' j x : alter (λ _, b') i c !! j = Some x → (j = i ∧ x = b') ∨ (j ≠ i ∧ c !! j = Some x).
Proof.
  destruct (decide (i = j)) as [<-|Hne]; [|rewrite list_lookup_alter_ne by done; auto].
  rewrite list_lookup_alter_eq. destruct (c !! i); [|done]. intros [= <-]. auto.
Qed.

Lemma kind_text (c : list Block) i : kind_of <$> c !! i = Some KText → ∃ body, c !! i = Some (TextContent body).
Proof. destruct (c !! i) as [[]|] eqn:?; cbn; intros [=]; eauto. Qed.

Lemma kind_thinking (c : list Block) i : kind_of <$> c !! i = Some KThinking → ∃ t sign, c !! i = Some (ThinkingContent t sign).
Proof. destruct (c !! i) as [[]|] eqn:?; cbn; intros [=]; eauto. Qed.

Lemma kind_tool (c : list Block) i : kind_of <$> c !! i = Some KTool → ∃ id name a sign, c !! i = Some (ToolCall id name a sign).
Proof. destruct (c !! i) as [[]|] eqn:?; cbn; intros [=]; eauto 6. Qed.

Lemma deltas_other s k k' i d j : kind_of <$> m_content (message s) !! j = Some k' → k' ≠ k →
  kind_of <$> m_content (message s) !! i = Some k → deltas j (events s ++ [delta_event k i d]) = deltas j (events s).
Proof.
  intros Hj Hne Hi. rewrite deltas_delta, bool_decide_false; [apply app_nil_r|]. intros <-. rewrite Hj in Hi. by injection Hi.
Qed.

Lemma deltas_beyond s i d k j : (length (m_content (message s)) <= j)%nat → is_Some (m_content (message s) !! i) →
  deltas j (events s ++ [delta_event k i d]) = deltas j (events s).
Proof. intros Hj Hi%lookup_lt_is_Some. rewrite deltas_delta, bool_decide_false by lia. apply app_nil_r. Qed.

(** The text or the thinking grows. *)
Lemma Steady_delta s s' i d b b' : Steady s → m_content (message s) !! i = Some b → kind_of b' = kind_of b → kind_of b ≠ KTool →
  m_content (message s') = alter (λ _, b') i (m_content (message s)) → events s' = events s ++ [delta_event (kind_of b) i d] →
  (started s', text_index s', thinking_index s', by_index s', by_id s', tool_arg_bufs s') =
    (started s, text_index s, thinking_index s, by_index s, by_id s, tool_arg_bufs s) →
  match b' with
  | TextContent body => body = deltas i (events s) ++ d ∧ text_index s = Some i ∧ text_buf s' = body
  | ThinkingContent t _ => t = deltas i (events s) ++ d ∧ text_buf s' = text_buf s
  | _ => True
  end →
  Steady s'.
Proof.
  intros Hs Hb Hk' Htool Hc He [= E1 E2 E3 E4 E5 E6] Hgrow. pose proof Hs as [].
  assert (kind_of <$> m_content (message s) !! i = Some (kind_of b)) as Hik by by rewrite Hb.
  assert (∀ j, kind_of <$> m_content (message s') !! j = kind_of <$> m_content (message s) !! j) as Hk
    by (intros j; rewrite Hc; by eapply insert_kind).
  assert (length (m_content (message s')) = length (m_content (message s))) as Hlen by by rewrite Hc, length_alter.
  split; unfold is_tool; rewrite ?E1, ?E2, ?E3, ?E4, ?E5, ?E6, ?Hlen; try done.
  - rewrite He, (protocol_delta s) by done. rewrite <-Hlen, firstn_all, Hc. by rewrite (insert_kinds _ _ _ _ Hb).
  - intros j body. rewrite Hc, He. intros [[-> <-]|[Hne Hj]]%lookup_replaced; rewrite deltas_delta.
    + by rewrite bool_decide_true.
    + rewrite bool_decide_false, app_nil_r by done. destruct (inv_text0 _ _ Hj) as (? & Hi & Hbuf). split; [done|]. split; [done|].
      rewrite <-Hbuf. destruct b'; [destruct Hgrow as (_ & Hi' & _); congruence|by destruct Hgrow|by rewrite <-Hk' in Htool].
  - intros j t sign. rewrite Hc, He. intros [[-> <-]|[Hne Hj]]%lookup_replaced; rewrite deltas_delta.
    + rewrite bool_decide_true by done. by destruct Hgrow.
    + rewrite bool_decide_false, app_nil_r by done. by eapply inv_thinking0.
  - intros j. rewrite Hk, He. intros Hj. rewrite (deltas_other s (kind_of b) KTool) by (done || auto). by apply inv_tool0.
  - intros j Hj. rewrite He, (deltas_beyond s) by (done || by rewrite Hb). by apply inv_new0.
  - destruct (text_index s) as [j|] eqn:Hj; [by rewrite Hk|].
    destruct b'; [by destruct Hgrow as (_ & ? & _)|by destruct Hgrow as [_ ->]|by rewrite <-Hk' in Htool].
  - intros j. rewrite Hk. apply inv_thinking_index0.
  - intros z j. rewrite Hk. apply inv_by_index0.
  - intros z j. rewrite Hk. apply inv_by_id0.
Qed.

(** The arguments of a call grow; the call itself is in place. *)
Lemma Steady_arguments s i d b p : Steady s → is_tool s i →
  default [] (od_get i b) = default [] (od_get i (tool_arg_bufs s)) ++ d →
  (∀ j, j ≠ i → od_get j b = od_get j (tool_arg_bufs s)) →
  Steady (emitted (ToolcallDeltaEvent i d) (set_buffers b p s)).
Proof.
  intros Hs Hi Hgrow Hother. pose proof Hs as [].
  assert (events (emitted (ToolcallDeltaEvent i d) (set_buffers b p s)) = events s ++ [delta_event KTool i d]) as He
    by exact (events_emitted (ToolcallDeltaEvent i d) (set_buffers b p s)).
  split; unfold is_tool; change (message (emitted _ (set_buffers b p s))) with (message s);
    change (tool_arg_bufs (emitted _ (set_buffers b p s))) with b; try done.
  - by rewrite He, (protocol_delta s), firstn_all.
  - intros j body Hj. rewrite He, (deltas_other s _ KText); [by apply inv_text0|by rewrite Hj|done|done].
  - intros j t sign Hj. rewrite He, (deltas_other s _ KThinking); [by eapply inv_thinking0|by rewrite Hj|done|done].
  - intros j Hj. rewrite He, deltas_delta. case_bool_decide as Hne; [subst j; etrans; [exact Hgrow|by rewrite inv_tool0]|].
    rewrite Hother, app_nil_r by done. by apply inv_tool0.
  - intros j Hj. assert (is_Some (m_content (message s) !! i)) as Hx by by apply kind_tool in Hi as (? & ? & ? & ? & ->).
    rewrite He, (deltas_beyond s) by done. rewrite Hother; [by apply inv_new0|].
    intros ->. apply lookup_lt_is_Some in Hx. lia.
Qed.

(** ** The handlers *)

Lemma ensure_started s : started s = true → ensure_start s = (Ok tt, s).
Proof. intros H. unfold ensure_start. st_eval. by rewrite H. Qed.

Lemma wpe_ensure {A} (f : unit → chat A) s Q R : started s = true → wpe (f tt) Q R s → wpe (ensure_start ≫= f) Q R s.
Proof. intros Hs Hf. apply wpe_bind. unfold wpe at 1. by rewrite ensure_started. Qed.

Lemma Steady_opened_text s : Steady s → text_index s = None →
  Steady (emitted (TextStartEvent (length (m_content (message s))))
    (set_text (Some (length (m_content (message s)))) (text_buf s) (appended (TextContent []) s))).
Proof.
  intros Hs Hn. apply (Inv_announce _ _ (TextContent []) (Inv_append_text s Hs Hn)); cbn.
  - rewrite length_app. cbn. lia.
  - by rewrite lookup_app_r, Nat.sub_diag by done.
Qed.

Lemma Steady_opened_thinking sign s : Steady s → thinking_index s = None →
  Steady (emitted (ThinkingStartEvent (length (m_content (message s))))
    (set_thinking (Some (length (m_content (message s)))) (appended (ThinkingContent [] sign) s))).
Proof.
  intros Hs Hn. apply (Inv_announce _ _ (ThinkingContent [] sign) (Inv_append_thinking sign s Hs Hn)); cbn.
  - rewrite length_app. cbn. lia.
  - by rewrite lookup_app_r, Nat.sub_diag by done.
Qed.

Lemma Steady_text i d s : Steady s → text_index s = Some i →
  Steady (emitted (TextDeltaEvent i d)
    (on_message (with_content (alter (λ _, TextContent (text_buf s ++ d)) i)) (set_text (Some i) (text_buf s ++ d) s))).
Proof.
  intros Hs Hi. pose proof (inv_text_index _ _ Hs) as Hk. rewrite Hi in Hk. destruct (kind_text _ _ Hk) as [body Hb].
  destruct (inv_text _ _ Hs _ _ Hb) as (Hbody & _ & Hbuf).
  apply (Steady_delta s _ i d _ (TextContent (text_buf s ++ d)) Hs Hb); try done.
  - exact (events_emitted (TextDeltaEvent i d) _).
  - by rewrite <-Hi.
  - cbn. by rewrite Hbuf, <-Hbody.
Qed.

Lemma Steady_thinking i d t sign s : Steady s → m_content (message s) !! i = Some (ThinkingContent t sign) →
  Steady (emitted (ThinkingDeltaEvent i d) (on_message (with_content (alter (λ _, ThinkingContent (t ++ d) sign) i)) s)).
Proof.
  intros Hs Hb. apply (Steady_delta s _ i d _ (ThinkingContent (t ++ d) sign) Hs Hb); try done.
  - exact (events_emitted (ThinkingDeltaEvent i d) _).
  - cbn. by rewrite <-(inv_thinking _ _ Hs _ _ _ Hb).
Qed.

Lemma reasoning_grows i reasoning s : Steady s → thinking_index s = Some i →
  wpe (s ← st_get;
       match m_content (message s) !! i with
       | Some (ThinkingContent thinking sign) =>
           _ ← update_block i (λ _, ThinkingContent (thinking ++ reasoning) sign); emit (ThinkingDeltaEvent i reasoning)
       | _ => mret tt
       end) (λ _, Steady) (λ _, Steady) s.
Proof.
  intros Hs Hi. pose proof (inv_thinking_index _ _ Hs _ Hi) as Hk. destruct (kind_thinking _ _ Hk) as (t & sign & Hb).
  unfold wpe. st_eval. rewrite Hb. by apply (Steady_thinking i reasoning t sign).
Qed.

Lemma keeps_reasoning model field reasoning : keeps Steady (_emit_reasoning_delta model field reasoning).
Proof.
  intros s Hs. unfold _emit_reasoning_delta. cbn zeta. apply wpe_ensure; [apply Hs|]. apply wpe_bind. unfold wpe at 1. st_eval.
  destruct (thinking_index s) as [i|] eqn:Hi; [by apply reasoning_grows|].
  by apply (reasoning_grows _ _ _ (Steady_opened_thinking _ _ Hs Hi)).
Qed.

Lemma text_grows i (piece : pv) s : Steady s → text_index s = Some i →
  wpe (match piece with
       | PStr piece =>
           _ ← st_modify (λ s, set_text (text_index s) (text_buf s ++ piece) s);
           s ← st_get;
           match m_content (message s) !! i with
           | Some (TextContent _) => _ ← update_block i (λ _, TextContent (text_buf s)); emit (TextDeltaEvent i piece)
           | _ => mret tt
           end
       | _ => mthrow TypeError
       end) (λ _, Steady) (λ _, Steady) s.
Proof.
  intros Hs Hi. pose proof (inv_text_index _ _ Hs) as Hk. rewrite Hi in Hk. destruct (kind_text _ _ Hk) as [body Hb].
  destruct piece as [| | | |piece| |]; try done. unfold wpe. st_eval. cbn [set_text message]. rewrite Hb.
  pose proof (Steady_text i piece s Hs Hi) as H. by rewrite <-Hi in H.
Qed.

Lemma keeps_text piece : keeps Steady (_emit_text_delta piece).
Proof.
  intros s Hs. unfold _emit_text_delta. apply wpe_ensure; [apply Hs|]. apply wpe_bind. unfold wpe at 1. st_eval.
  destruct (text_index s) as [i|] eqn:Hi; [by apply text_grows|].
  by apply (text_grows _ _ _ (Steady_opened_text _ Hs Hi)).
Qed.

(** [n] blocks announced, of [l], and a call at [i]. *)
Definition At (n i l : nat) (s : ChatStreamState) : Prop := Inv n s ∧ is_tool s i ∧ length (m_content (message s)) = l.

Lemma At_update n i l f s : (∀ b, kind_of b = KTool → kind_of (f b) = KTool) → At n i l s →
  At n i l (on_message (with_content (alter f i)) s).
Proof.
  intros Hf (H1 & H2 & H3). split; [by apply Inv_update|]. split; [|cbn -[alter]; by rewrite length_alter].
  unfold is_tool in *. cbn -[alter]. rewrite list_lookup_alter_eq. destruct (m_content (message s) !! i); [|done]. cbn in *.
  injection H2 as H2. by rewrite Hf.
Qed.

Lemma At_frame n i l s s' : m_content (message s') = m_content (message s) → started s' = started s → out s' = out s →
  text_index s' = text_index s → text_buf s' = text_buf s → thinking_index s' = thinking_index s → by_index s' = by_index s →
  by_id s' = by_id s → tool_arg_bufs s' = tool_arg_bufs s → At n i l s → At n i l s'.
Proof.
  intros E1 E2 E3 E4 E5 E6 E7 E8 E9 (H1 & H2 & H3). split; [by apply (Inv_frame n s)|]. unfold is_tool. by rewrite E1.
Qed.

Lemma At_identities n i l s k z p : At n i l s → At n i l (set_identities (match z with Some z => od_set z i (by_index s) | None => by_index s end)
  (match k with Some k => od_set k i (by_id s) | None => by_id s end) p s).
Proof.
  intros ([] & H2 & H3). split; [|done]. split; cbn; try done.
  - intros z' j. destruct z as [z|]; [|apply inv_by_index0]. rewrite od_get_set. case_decide; [by intros [= <-]|apply inv_by_index0].
  - intros z' j. destruct k as [k|]; [|apply inv_by_id0]. rewrite od_get_set. case_decide; [by intros [= <-]|apply inv_by_id0].
Qed.

Lemma kind_set_signature t b : kind_of b = KTool → kind_of (set_signature t b) = KTool.
Proof. by destruct b. Qed.
Lemma kind_set_id t b : kind_of b = KTool → kind_of (set_id t b) = KTool.
Proof. by destruct b. Qed.
Lemma kind_set_name t b : kind_of b = KTool → kind_of (set_name t b) = KTool.
Proof. by destruct b. Qed.
Lemma kind_set_arguments t b : kind_of b = KTool → kind_of (set_arguments t b) = KTool.
Proof. by destruct b. Qed.
#[local] Hint Resolve kind_set_signature kind_set_id kind_set_name kind_set_arguments : core.

Lemma attach_spec n i l id s : At n i l s →
  wpe (_attach_pending_reasoning i id) (λ _, At n i l) (λ _ s', At n i l s' ∧ hash_key id = None) s.
Proof.
  intros Hs. unfold _attach_pending_reasoning, hashed, wpe. st_eval. destruct (hash_key id) as [k|]; [|done].
  assert (At n i l (set_identities (by_index s) (by_id s) (od_del k (pending_reasoning s)) s)) as H
    by exact (At_identities n i l s None None _ Hs).
  destruct (od_get k (pending_reasoning s)) as [[|c t]|]; [exact H| |exact H]. apply At_update; auto.
Qed.

Lemma register_spec n i l z id s : At n i l s →
  wpe (_register_tool_call_identity i z id) (λ _, At n i l) (λ _ s', At n i l s' ∧ p_truthy id = true ∧ hash_key id = None) s.
Proof.
  intros Hs. unfold _register_tool_call_identity. wpe_step. apply wpe_modify.
  pose proof (At_identities n i l s None z (pending_reasoning s) Hs) as H1. cbn beta iota in H1. revert H1.
  generalize (set_identities (match z with Some z => od_set z i (by_index s) | None => by_index s end) (by_id s) (pending_reasoning s) s).
  clear s Hs. intros s Hs. destruct (p_truthy id) eqn:Hid; [|done]. apply wpe_bind. unfold hashed.
  destruct (hash_key id) as [k|] eqn:Hk; [|done]. apply wpe_ret. wpe_step. apply wpe_modify.
  pose proof (At_identities n i l s (Some k) None (pending_reasoning s) Hs) as H1. cbn beta iota in H1. revert H1.
  generalize (set_identities (by_index s) (od_set k i (by_id s)) (pending_reasoning s) s). clear s Hs. intros s Hs.
  apply wpe_bind. unfold st_get, wpe at 1. destruct (p_truthy (call_id i s)); [done|].
  apply wpe_bind. unfold update_block. apply wpe_modify. eapply wpe_mono; [by apply attach_spec, At_update; auto|done|].
  cbn beta. intros _ s' [? ?]. congruence.
Qed.

Lemma existing_spec z id s : Steady s →
  wpe (_existing_tool_call z id)
    (λ o s', s' = s ∧ match o with Some i => is_tool s i | None => p_truthy id = true → is_Some (hash_key id) end)
    (λ _, Steady) s.
Proof.
  intros Hs. unfold _existing_tool_call, wpe. st_eval.
  destruct (match z with Some z => od_get z (by_index s) | None => None end) as [i|] eqn:Hz.
  - split; [done|]. destruct z as [z|]; [|done]. by eapply inv_by_index.
  - destruct (p_truthy id); [|done]. unfold hashed. destruct (hash_key id) as [k|] eqn:Hk; [|done]. st_eval. split; [done|].
    destruct (od_get k (by_id s)) as [i|] eqn:Hi; [by eapply inv_by_id|done].
Qed.

Lemma set_buffers_same s : set_buffers (tool_arg_bufs s) (tool_arg_previews s) s = s.
Proof. by destruct s. Qed.

Lemma At_steady i s : Steady s → is_tool s i → At (length (m_content (message s))) i (length (m_content (message s))) s.
Proof. done. Qed.

Lemma steady_at n i s : At n i n s → Steady s ∧ is_tool s i.
Proof. by intros (H1 & H2 & <-). Qed.

(** The arguments of a fragment. *)
Definition grow_arguments (i : nat) (fragment : text) (s : ChatStreamState) : chat unit :=
  match fragment with
  | [] => mret tt
  | _ =>
      let buf := default [] (od_get i (tool_arg_bufs s)) ++ fragment in
      let preview := _parse_streaming_json_preview (Some buf) (od_get i (tool_arg_previews s)) in
      _ ← st_modify (λ s, set_buffers (od_set i buf (tool_arg_bufs s)) (od_set i preview (tool_arg_previews s)) s);
      update_block i (set_arguments preview)
  end.

Lemma arguments_grow i fragment s0 s : Steady s → is_tool s i → tool_arg_bufs s0 = tool_arg_bufs s →
  wpe (_ ← grow_arguments i fragment s0; emit (ToolcallDeltaEvent i fragment)) (λ _, Steady) (λ _, Steady) s.
Proof.
  intros Hs Hi E. destruct fragment as [|c fragment].
  - pose proof (Steady_arguments s i [] (tool_arg_bufs s) (tool_arg_previews s) Hs Hi) as H. rewrite set_buffers_same in H.
    apply H; [by rewrite app_nil_r|done].
  - unfold grow_arguments, update_block, wpe. st_eval. rewrite E.
    set (preview := _parse_streaming_json_preview _ _).
    destruct (steady_at (length (m_content (message s))) i
      (on_message (with_content (alter (set_arguments preview) i)) s)) as [Hs' Hi'].
    { apply At_update; auto. by apply At_steady. }
    apply (Steady_arguments _ i (c :: fragment)
      (od_set i (default [] (od_get i (tool_arg_bufs s)) ++ c :: fragment) (tool_arg_bufs s))
      (od_set i preview (tool_arg_previews s)) Hs' Hi').
    + rewrite od_get_set, decide_True by done. done.
    + intros j Hj. by rewrite od_get_set, decide_False by done.
Qed.

Lemma call_grows i (name fragment : text) s : Steady s → is_tool s i →
  wpe (s ← st_get;
       _ ← (match name, call_name i s with _ :: _, [] => update_block i (set_name name) | _, _ => mret tt end);
       _ ← grow_arguments i fragment s;
       emit (ToolcallDeltaEvent i fragment)) (λ _, Steady) (λ _, Steady) s.
Proof.
  intros Hs Hi. apply wpe_bind. unfold st_get, wpe at 1. apply wpe_bind.
  destruct name as [|c name]; [apply wpe_ret; by apply arguments_grow|].
  destruct (call_name i s); [|apply wpe_ret; by apply arguments_grow].
  destruct (steady_at (length (m_content (message s))) i (on_message (with_content (alter (set_name (c :: name)) i)) s)) as [Hs' Hi'].
  { apply At_update; auto. by apply At_steady. }
  apply wpe_modify. by apply arguments_grow.
Qed.

Lemma At_opened id name p s : Steady s → let n := length (m_content (message s)) in
  At n n (S n) (set_buffers (od_set n [] (tool_arg_bufs s)) p (appended (ToolCall id name [] None) s)).
Proof.
  intros Hs. cbn. destruct (Inv_append_tool id name p s Hs) as [H1 H2]. split; [done|]. split; [done|]. cbn. rewrite length_app. cbn. lia.
Qed.

Lemma At_announced n s : At n n (S n) s → Steady (emitted (ToolcallStartEvent n) s) ∧ is_tool (emitted (ToolcallStartEvent n) s) n.
Proof.
  intros (H1 & H2 & H3). split; [|done]. destruct (kind_tool _ _ H2) as (id & name & a & sign & Hb).
  by apply (Inv_announce n s _ H1 H3 Hb).
Qed.

Lemma keeps_tool_call call : keeps Steady (_emit_tool_call_delta call).
Proof.
  intros s Hs. unfold _emit_tool_call_delta. apply wpe_bind. unfold _tool_call_fragments.
  destruct call as [| | | | | |d]; try done. cbn [as_dict]. apply wpe_bind, wpe_ret. apply wpe_ret.
  set (name := match get "name" _ with PStr t => t | _ => [] end).
  set (fragment := match get "arguments" _ with PStr t => t | _ => [] end).
  set (z := match get "index" d with PInt z => Some z | PBool b => _ | _ => None end).
  set (id := or_else (get "id" d) (PStr [])). clearbody name fragment z id. cbn beta iota.
  apply wpe_bind. eapply wpe_mono; [by apply existing_spec| |done]. cbn beta. intros o _ [-> Ho].
  apply wpe_ensure; [apply Hs|]. apply wpe_bind. destruct o as [i|].
  - apply wpe_bind. eapply wpe_mono; [by apply register_spec, At_steady| |by intros _ s' [[] _]; cbn; apply (steady_at (length (m_content (message s))) i)].
    cbn beta. intros _ s' H. apply wpe_ret. apply steady_at in H as []. by apply call_grows.
  - apply wpe_bind. unfold append_block. apply wpe_bind. unfold st_get, wpe at 1. apply wpe_bind, wpe_modify, wpe_ret. apply wpe_bind, wpe_modify.
    set (n := length (m_content (message s))).
    pose proof (At_opened id name (od_set n [] (tool_arg_previews s)) s Hs) as H. cbn zeta in H. fold n in H.
    apply wpe_bind. eapply wpe_mono; [by apply register_spec, H| |].
    2:{ cbn beta. intros _ s' (_ & Hid & Hkey). rewrite Hkey in Ho. by destruct (Ho Hid). }
    clear H. cbn beta. intros _ s' H. apply wpe_bind.
    apply (wpe_mono _ (λ _, At n n (S n)) _ (λ _ _, False)); [| |done].
    { destruct (p_truthy id) eqn:Hid; [|done]. eapply wpe_mono; [by apply attach_spec|done|].
      cbn beta. intros _ s'' [_ Hkey]. rewrite Hkey in Ho. by destruct (Ho eq_refl). }
    clear s' H. intros _ s' [H1 H2]%At_announced. apply wpe_bind, wpe_modify, wpe_ret. by apply call_grows.
Qed.

(** ** A payload, the lines *)

(** A computation that leaves the state alone. *)
Definition reads {A} (m : chat A) : Prop := ∀ s, (m s).2 = s.

Lemma reads_keeps {A} P (m : chat A) : reads m → keeps P m.
Proof. intros H s Hs. unfold wpe. specialize (H s). destruct (m s) as [[a|e] s']; cbn in H; by subst. Qed.

Lemma reads_bind {A B} (m : chat A) (f : A → chat B) : reads m → (∀ a, reads (f a)) → reads (m ≫= f).
Proof. intros Hm Hf s. st_eval. specialize (Hm s). destruct (m s) as [[a|e] s']; cbn in *; subst; [apply Hf|done]. Qed.

Lemma reads_as_dict v : reads (as_dict v).
Proof. by destruct v. Qed.
Lemma reads_int_of v : reads (int_of v).
Proof. intros s. destruct v; try done; cbn; [by destruct (fl_finite f)|by destruct (py_int s0)]. Qed.
Lemma reads_first_choice v : reads (first_choice v).
Proof. by destruct v as [| | | |[]|[]|]. Qed.
Lemma reads_iterate v : reads (iterate v).
Proof. by destruct v. Qed.
Lemma reads_ret {A} (a : A) : reads (mret a).
Proof. done. Qed.
#[local] Hint Resolve reads_as_dict reads_int_of reads_first_choice reads_iterate reads_ret : keeps.

Lemma reads_merge_usage u raw : reads (_merge_usage u raw).
Proof.
  unfold _merge_usage. destruct (negb _); [done|]. cbn zeta.
  repeat first [apply reads_bind; [by auto with keeps|intros ?] | by auto with keeps].
Qed.

Lemma keeps_frame f : (∀ s, let s' := f s in
    (m_content (message s'), started s', out s', text_index s', text_buf s', thinking_index s', by_index s', by_id s', tool_arg_bufs s') =
    (m_content (message s), started s, out s, text_index s, text_buf s, thinking_index s, by_index s, by_id s, tool_arg_bufs s)) →
  keeps Steady (st_modify f : chat unit).
Proof.
  intros H. apply keeps_modify. intros s Hs. destruct (H s) as []. specialize (H s). cbn zeta in H. injection H as E1 E2 E3 E4 E5 E6 E7 E8 E9.
  unfold Steady. rewrite E1. by apply (Inv_frame _ s).
Qed.

Lemma keeps_add_usage raw : keeps Steady (add_usage raw).
Proof.
  intros s Hs. unfold add_usage. apply wpe_bind. unfold st_get, wpe at 1. revert s Hs. cut (∀ u, keeps Steady
    (u0 ← _merge_usage u raw; st_modify (λ s, set_totals u0 (finish_reason s) (started s) s))); [intros H s Hs; by apply H|].
  intros u. apply keeps_bind; [apply reads_keeps, reads_merge_usage|]. intros u'. by apply keeps_frame.
Qed.

Lemma keeps_metadata model chunk : keeps Steady (_record_chat_response_metadata model chunk).
Proof.
  apply keeps_bind; [apply reads_keeps, reads_as_dict|]. intros d. by apply keeps_frame.
Qed.

Lemma keeps_detail float_repr detail : keeps Steady (apply_reasoning_detail float_repr detail).
Proof.
  unfold apply_reasoning_detail. destruct detail as [| | | | | |d]; try apply keeps_ret.
  destruct (get "type" d) as [| | | |t| |]; try apply keeps_ret. destruct (get "id" d) as [| | | |[|c id]| |]; try apply keeps_ret.
  destruct (get "data" d) as [| | | |[|c' data]| |]; try apply keeps_ret. destruct (bool_decide _); [|apply keeps_ret].
  cbn zeta. intros s Hs. apply wpe_bind. unfold st_get, wpe at 1. destruct (od_get _ (by_id s)) as [i|] eqn:Hi.
  - apply wpe_modify. pose proof (inv_by_id _ _ Hs _ _ Hi) as Htool.
    apply (steady_at (length (m_content (message s))) i), At_update; auto. by apply At_steady.
  - apply wpe_modify. by apply (Inv_frame _ s).
Qed.

Lemma keeps_payload float_repr model include_reasoning payload : keeps Steady (_parse_sse_payload float_repr model include_reasoning payload).
Proof.
  unfold _parse_sse_payload. destruct (loads payload) as [chunk|[]]; [|apply keeps_ret|apply keeps_throw].
  apply keeps_bind; [apply keeps_metadata|intros _]. apply keeps_bind; [apply reads_keeps, reads_as_dict|intros d].
  apply keeps_bind; [apply keeps_add_usage|intros _]. cbn zeta. destruct (negb _); [apply keeps_ret|].
  apply keeps_bind; [apply reads_keeps, reads_first_choice|intros choice0]. apply keeps_bind; [apply reads_keeps, reads_as_dict|intros choice].
  apply keeps_bind; [destruct (p_truthy _); [apply keeps_ret|apply keeps_add_usage]|intros _].
  apply keeps_bind; [apply reads_keeps, reads_as_dict|intros delta].
  apply keeps_bind; [destruct (_reasoning_field delta) as [[]|]; [destruct include_reasoning; [apply keeps_reasoning|]|]; apply keeps_ret|intros _].
  apply keeps_bind; [destruct (p_truthy _); [apply keeps_text|apply keeps_ret]|intros _].
  apply keeps_bind; [apply reads_keeps, reads_iterate|intros calls].
  apply keeps_bind; [apply keeps_iter, keeps_tool_call|intros _].
  apply keeps_bind; [unfold _apply_reasoning_details; destruct (get _ delta); try apply keeps_ret; apply keeps_iter, keeps_detail|intros _].
  destruct (p_truthy _); [by apply keeps_frame|apply keeps_ret].
Qed.

Lemma keeps_lines float_repr model include_reasoning wait_for_usage timeout clock lines : ∀ last n,
  keeps Steady (read_lines float_repr model include_reasoning wait_for_usage timeout clock last n lines).
Proof.
  induction lines as [|raw lines IH]; intros last n; cbn [read_lines]; [apply keeps_ret|].
  apply keeps_bind; [destruct (idle _ _ _); [apply keeps_throw|apply keeps_ret]|intros _].
  destruct (read_line raw) as [payload| |]; [|apply keeps_ret|apply IH].
  apply keeps_bind; [apply keeps_payload|intros _]. apply keeps_bind; [apply keeps_get|intros s].
  destruct (_ && _); [apply keeps_ret|apply IH].
Qed.

(** ** The end *)

Definition after_ends (ks : list kind) (n : nat) : phase := match n with O => Open ks | _ => Closing ks n end.

Lemma after_ends_step k ks n : ks !! n = Some k → ended k n (after_ends ks n) = Some (after_ends ks (S n)).
Proof. intros Hk. destruct n; cbn; by rewrite bool_decide_true. Qed.

Lemma finished_after ks : finished (after_ends ks (length ks)) = Some Finished.
Proof. destruct ks; cbn; [done|]. by rewrite bool_decide_true. Qed.

(** An end event says what its block holds. *)
Definition end_agrees (content : list Block) (es : list event) (e : event) : Prop :=
  match e with
  | TextEndEvent i t | ThinkingEndEvent i t => t = deltas i es
  | ToolcallEndEvent i call => content !! i = Some call
  | _ => True
  end.

(** A block is what its deltas add up to; the arguments of a call are what the text says. *)
Definition assembled (i : nat) (es : list event) (b : Block) : Prop :=
  match b with
  | TextContent t | ThinkingContent t _ => t = deltas i es
  | ToolCall _ _ a _ => a = _parse_streaming_json (Some (deltas i es))
  end.

(** The first [n] blocks have been ended. *)
Record Ended (l n : nat) (s : ChatStreamState) : Prop := {
  en_started : started s = true;
  en_length : length (m_content (message s)) = l;
  en_protocol : protocol NotStarted (events s) = Some (after_ends (kind_of <$> m_content (message s)) n);
  en_blocks : ∀ i b, m_content (message s) !! i = Some b → (i < n)%nat ∨ kind_of b ≠ KTool → assembled i (events s) b;
  en_buffers : ∀ i, is_tool s i → default [] (od_get i (tool_arg_bufs s)) = deltas i (events s);
  en_events : Forall (end_agrees (m_content (message s)) (events s)) (events s);
  en_calls : ∀ i b, ToolcallEndEvent i b ∈ events s → (i < n)%nat
}.

Definition is_end (e : event) : bool :=
  match e with TextEndEvent _ _ | ThinkingEndEvent _ _ | ToolcallEndEvent _ _ => true | _ => false end.

(** While blocks are opened, none has been ended. *)
Lemma open_no_ends es p : protocol NotStarted es = Some p → match p with NotStarted | Open _ => true | _ => false end = true →
  Forall (λ e, is_end e = false) es.
Proof.
  revert p. induction es as [|e es IH] using rev_ind; intros p'; [constructor|]. rewrite protocol_snoc.
  destruct (protocol NotStarted es) as [p|]; [|done]. cbn. intros Hp Hopen. specialize (IH _ eq_refl).
  apply Forall_app. destruct e, p as [|ks|ks n|]; cbn in Hp; repeat case_bool_decide; try done; simplify_eq/=; try done;
    (split; [by apply IH|by repeat constructor]) || by destruct ks; simplify_eq/=.
Qed.

Lemma Ended_begin s : Steady s → Ended (length (m_content (message s))) 0 s.
Proof.
  intros []. pose proof inv_protocol0 as Hp. rewrite firstn_all in Hp. pose proof (open_no_ends _ _ Hp eq_refl) as Hno.
  split; try done.
  - intros i [body|t sign|] Hi [Hlt|Hk]; try lia; cbn; [by apply inv_text0|by eapply inv_thinking0|done].
  - eapply Forall_impl; [done|]. by intros [].
  - intros i b Hin. rewrite Forall_forall in Hno. by specialize (Hno _ Hin).
Qed.

Lemma alter_here (c : list Block) i b : c !! i = Some b → alter (λ _, b) i c = c.
Proof.
  intros Hb. apply list_eq. intros j. destruct (decide (i = j)) as [<-|Hne]; [|by rewrite list_lookup_alter_ne].
  by rewrite list_lookup_alter_eq, Hb.
Qed.

(** The end event of a kind. *)
Definition end_event (i : nat) (b : Block) : event :=
  match b with
  | TextContent t => TextEndEvent i t
  | ThinkingContent t _ => ThinkingEndEvent i t
  | ToolCall _ _ _ _ => ToolcallEndEvent i b
  end.

Lemma deltas_end j i b es : deltas j (es ++ [end_event i b]) = deltas j es.
Proof. rewrite deltas_snoc. destruct b; apply app_nil_r. Qed.

Lemma Ended_step l n b b' s s' : Ended l n s → m_content (message s) !! n = Some b → kind_of b' = kind_of b →
  assembled n (events s) b' → m_content (message s') = alter (λ _, b') n (m_content (message s)) →
  events s' = events s ++ [end_event n b'] → started s' = started s → tool_arg_bufs s' = tool_arg_bufs s → Ended l (S n) s'.
Proof.
  intros [] Hb Hkind Hwhole Hc He E1 E2.
  assert (∀ j, kind_of <$> m_content (message s') !! j = kind_of <$> m_content (message s) !! j) as Hk
    by (intros j; rewrite Hc; by eapply insert_kind).
  split.
  - by rewrite E1.
  - by rewrite Hc, length_alter.
  - rewrite He, protocol_snoc, en_protocol0, Hc, (insert_kinds _ _ _ _ Hb) by done. cbn [mbind option_bind].
    transitivity (ended (kind_of b) n (after_ends (kind_of <$> m_content (message s)) n)).
    + rewrite <-Hkind. by destruct b'.
    + apply after_ends_step. by rewrite list_lookup_fmap, Hb.
  - intros i x. rewrite Hc, He. intros [[-> ->]|[Hne Hi]]%lookup_replaced Hor.
    + destruct b'; cbn in *; by rewrite ?deltas_snoc, ?app_nil_r.
    + assert (assembled i (events s) x) as H by (apply en_blocks0; [done|]; destruct Hor; [left; lia|by right]).
      destruct x; cbn in *; by rewrite deltas_end.
  - intros i. unfold is_tool. rewrite Hk, E2, He, deltas_end. apply en_buffers0.
  - rewrite Hc, He. apply Forall_app. split.
    + rewrite Forall_forall in *. intros e Hin. specialize (en_events0 e Hin).
      destruct e; cbn in *; rewrite ?deltas_end; try done.
      rewrite list_lookup_alter_ne; [done|]. apply en_calls0 in Hin. lia.
    + constructor; [|done]. destruct b'; cbn in *; [by rewrite deltas_snoc, app_nil_r..|].
      by rewrite list_lookup_alter_eq, Hb.
  - intros i x. rewrite He. intros [Hin|Hin%list_elem_of_singleton]%elem_of_app; [apply en_calls0 in Hin; lia|].
    destruct b'; cbn in Hin; simplify_eq. lia.
Qed.

Lemma Ended_block l n s : (n < l)%nat → Ended l n s → wpe (end_block n) (λ _, Ended l (S n)) (λ _ _, False) s.
Proof.
  intros Hn Hs. pose proof Hs as []. destruct (lookup_lt_is_Some_2 (m_content (message s)) n) as [b Hb]; [lia|].
  unfold end_block, wpe. st_eval. rewrite Hb. destruct b as [t|t sign|id name a sign].
  1, 2: eapply (Ended_step _ _ _ _ _ _ Hs Hb eq_refl);
    [apply (en_blocks0 _ _ Hb); right; discriminate|by rewrite (alter_here _ _ _ Hb)|exact (events_emitted _ s)|done|done].
  eapply (Ended_step _ _ _ (ToolCall id name (_parse_streaming_json (Some (default [] (od_get n (tool_arg_bufs s))))) sign) _ _ Hs Hb eq_refl);
    [|done|exact (events_emitted _ (on_message _ s))|done|done].
  cbn. assert (is_tool s n) as ->%en_buffers0 by (unfold is_tool; by rewrite Hb). done.
Qed.

Lemma Ended_blocks l k n s : (n + k = l)%nat → Ended l n s → wpe (st_iter end_block (seq n k)) (λ _, Ended l l) (λ _ _, False) s.
Proof.
  revert n s. induction k as [|k IH]; intros n s Hn Hs; cbn [seq st_iter].
  - apply wpe_ret. assert (n = l) as -> by lia. done.
  - apply wpe_bind. eapply wpe_mono; [apply (Ended_block l); [lia|done]| |done]. cbn beta. intros _ s' Hs'. apply IH; [lia|done].
Qed.

Lemma Ended_all s : Steady s →
  wpe end_content_events (λ _, Ended (length (m_content (message s))) (length (m_content (message s)))) (λ _ _, False) s.
Proof.
  intros Hs. unfold end_content_events. apply wpe_bind. unfold st_get, wpe at 1. apply wpe_bind.
  eapply wpe_mono; [apply (Ended_blocks (length (m_content (message s))) _ 0); [done|by apply Ended_begin]| |done].
  cbn beta.   intros _ s' Hs'. unfold wpe. st_eval. rewrite (en_started _ _ _ Hs').
  by destruct Hs'.
Qed.

(** The message has been finished by the last event [e]. *)
Record Complete (s : ChatStreamState) : Prop := {
  co_protocol : protocol NotStarted (events s) = Some Finished;
  co_blocks : ∀ i b, m_content (message s) !! i = Some b → assembled i (events s) b;
  co_ends : Forall (end_agrees (m_content (message s)) (events s)) (events s);
  co_last : ∃ e, last (out s) = Some {| y_event := e; y_message := message s |} ∧
    match e with
    | DoneEvent reason => m_stop_reason (message s) = reason ∧
        (reason = "stop"%string ∨ (reason = "length"%string ∧ existsb is_visible (m_content (message s)) = true) ∨
         (reason = "toolUse"%string ∧ existsb is_call (m_content (message s)) = true))
    | ErrorEvent => m_stop_reason (message s) = "error"%string ∧ is_Some (m_error_message (message s))
    | _ => False
    end
}.

(** The last event. *)
Lemma Ended_last l s s' e : Ended l l s → m_content (message s') = m_content (message s) →
  out s' = out s ++ [{| y_event := e; y_message := message s' |}] →
  match e with
  | DoneEvent reason => m_stop_reason (message s') = reason ∧
      (reason = "stop"%string ∨ (reason = "length"%string ∧ existsb is_visible (m_content (message s')) = true) ∨
       (reason = "toolUse"%string ∧ existsb is_call (m_content (message s')) = true))
  | ErrorEvent => m_stop_reason (message s') = "error"%string ∧ is_Some (m_error_message (message s'))
  | _ => False
  end → Complete s'.
Proof.
  intros [] Hc Ho He.
  assert (events s' = events s ++ [e]) as Hev by (unfold events; by rewrite Ho, map_app).
  assert (∀ i, deltas i (events s') = deltas i (events s)) as Hd.
  { intros i. rewrite Hev, deltas_snoc. destruct e; try done; apply app_nil_r. }
  split.
  - rewrite Hev, protocol_snoc, en_protocol0. cbn [mbind option_bind].
    assert (finished (after_ends (kind_of <$> m_content (message s)) l) = Some Finished) as Hf.
    { rewrite <-en_length0, <-(length_fmap kind_of). apply finished_after. }
    by destruct e.
  - intros i b. rewrite Hc. intros Hb. assert (assembled i (events s) b) as H.
    { apply en_blocks0; [done|]. left. rewrite <-en_length0. by eapply lookup_lt_Some. }
    destruct b; cbn in *; by rewrite Hd.
  - rewrite Hc, Hev. apply Forall_app. split; [|constructor; [by destruct e|done]].
    eapply Forall_impl; [exact en_events0|]. intros x. rewrite <-Hev. destruct x; cbn; by rewrite ?Hd.
  - exists e. by rewrite Ho, last_snoc.
Qed.

Lemma Complete_failed l s error : Ended l l s → is_Some error → wpe (fail_with error) (λ _, Complete) (λ _ _, False) s.
Proof. intros Hs He. unfold fail_with, wpe. st_eval. by eapply (Ended_last l s _ ErrorEvent). Qed.

Lemma stop_reason_cases repr reason : let '(r, e) := _map_stop_reason repr reason in
  (r = "stop" ∨ r = "length" ∨ r = "toolUse" ∨ (r = "error" ∧ is_Some e))%string.
Proof.
  unfold _map_stop_reason. destruct (existsb _ _); [auto|]. destruct (bool_decide _); [auto|]. destruct (existsb _ _); [auto|].
  right. right. right. eauto.
Qed.

Lemma Complete_final repr s : Steady s → wpe (final_events repr) (λ _, Complete) (λ _ _, False) s.
Proof.
  intros Hs. unfold final_events. apply wpe_bind. eapply wpe_mono; [by apply Ended_all| |done]. cbn beta.
  generalize (length (m_content (message s))). clear s Hs. intros l _ s Hs. apply wpe_bind. unfold st_get, wpe at 1.
  destruct (negb _); [by eapply Complete_failed|]. pose proof (stop_reason_cases repr (finish_reason s)) as Hr.
  destruct (_map_stop_reason repr (finish_reason s)) as [r e]. set (r' := if _ && _ then "stop"%string else r).
  apply wpe_bind, wpe_modify.
  assert (Ended l l (on_message (λ m, with_stop r' (m_error_message m) m) s)) as Hs' by by destruct Hs.
  assert ((r' = "stop" ∨ r' = "length" ∨ (r' = "toolUse" ∧ existsb is_call (m_content (message s)) = true) ∨ (r' = "error" ∧ is_Some e))%string) as Hr'.
  { subst r'. destruct Hr as [-> | [-> | [-> | [-> He]]]]; cbn; auto. destruct (existsb is_call _) eqn:Hc; cbn; auto 6. }
  clearbody r'. clear Hr Hs r. case_bool_decide as He.
  - apply (Complete_failed l); [done|]. destruct Hr' as [? | [? | [[? ?] | [? ?]]]]; congruence || done.
  - destruct (bool_decide (r' = "length"%string) && _) eqn:Hl; [by eapply Complete_failed|].
    apply wpe_modify. eapply (Ended_last l _ _ (DoneEvent r') Hs'); [done|done|]. split; [done|]. cbn.
    destruct Hr' as [-> | [-> | [[-> Hc] | [? ?]]]]; [by left| |by right; right|done].
    right. left. split; [done|]. cbn in Hl. by apply negb_false_iff in Hl.
Qed.

(** ** The guard of the agent *)

Definition guard_of (p : phase) : StreamProtocol.AssistantStreamProtocol :=
  {| StreamProtocol.started := match p with NotStarted => false | _ => true end;
     StreamProtocol.terminal := match p with Finished => true | _ => false end |}.

Lemma guard_accepts e p p' : protocol_step p e = Some p' → StreamProtocol.accept (guard_of p) (event_type e) = Ok (guard_of p').
Proof.
  unfold StreamProtocol.accept. destruct e; cbn -[bool_decide]; rewrite ?bool_decide_true, ?bool_decide_false by (done || set_solver).
  all: cbn; destruct p as [|[|k ks]|ks n|]; cbn; repeat case_bool_decide; cbn; intros [=]; simplify_eq; done.
Qed.

Lemma guard_accepts_all es : ∀ p p', protocol p es = Some p' →
  StreamProtocol.accept_all (guard_of p) (map event_type es) = Ok (guard_of p').
Proof.
  induction es as [|e es IH]; cbn; intros p p'; [by intros [= <-]|].
  destruct (protocol_step p e) as [p1|] eqn:He; [|done]. cbn. intros H. rewrite (guard_accepts _ _ _ He). cbn. by apply IH.
Qed.

Lemma Steady_started : Steady (ensure_start initial).2.
Proof.
  split; cbn; try done; try lia.
Qed.

(** C28: Whatever the lines of a chat-completions response hold, and whenever they stop: if
    the decoder ends normally, its events are one message of the protocol (started, its
    blocks opened in the order of their indices, then each ended in order, then the end), the
    agent's own guard accepts them and knows the end; every text block is the concatenation of its
    deltas, every tool call's arguments are what the concatenation of its deltas parses to,
    and the end events say so; the last event carries the final message: done with a reason that the content
    bears out, or an error with a message.  If an exception escapes, it is not a timeout, and
    the guard accepts what was yielded, which is not ended. *)
Theorem chat_stream_follows_protocol repr float_repr model include_reasoning wait_for_usage timeout clock lines :
  match parse_sse_chunks repr float_repr model include_reasoning wait_for_usage timeout clock lines initial with
  | (Ok _, s) => Complete s ∧
      StreamProtocol.accept_all StreamProtocol.initial (map event_type (events s)) =
        Ok {| StreamProtocol.started := true; StreamProtocol.terminal := true |}
  | (Err e, s) => (∀ seconds, e ≠ TimeoutError seconds) ∧
      StreamProtocol.accept_all StreamProtocol.initial (map event_type (events s)) =
        Ok {| StreamProtocol.started := true; StreamProtocol.terminal := false |}
  end.
Proof.
  unfold parse_sse_chunks. change (StreamProtocol.initial) with (guard_of NotStarted).
  change ((_ ← ensure_start; read_lines float_repr model include_reasoning wait_for_usage timeout clock (clock 0%nat) 1 lines) initial)
    with (read_lines float_repr model include_reasoning wait_for_usage timeout clock (clock 0%nat) 1 lines (ensure_start initial).2).
  assert (∀ m s, Steady s → wpe m (λ _ : unit, Complete) (λ _ _, False) s → match m s with
    | (Ok _, s) => Complete s ∧ StreamProtocol.accept_all (guard_of NotStarted) (map event_type (events s)) = Ok (guard_of Finished)
    | (Err e, s) => (∀ seconds, e ≠ TimeoutError seconds) ∧ StreamProtocol.accept_all (guard_of NotStarted) (map event_type (events s)) =
        Ok {| StreamProtocol.started := true; StreamProtocol.terminal := false |}
    end) as Hend.
  { intros m s Hs. unfold wpe. destruct (m s) as [[a|e] s']; [|done]. intros H. split; [done|]. apply guard_accepts_all, H. }
  pose proof (keeps_lines float_repr model include_reasoning wait_for_usage timeout clock lines (clock 0%nat) 1 _ Steady_started) as H.
  unfold wpe in H. destruct (read_lines _ _ _ _ _ _ _ _ _ _) as [[[]|e] s]; [by apply Hend; [|apply Complete_final]|].
  destruct e as [| | | | |seconds].
  1-5: split; [done|]; apply (guard_accepts_all _ _ _ (inv_protocol _ _ H)).
  apply Hend; [done|]. apply wpe_bind. eapply wpe_mono; [by apply Ended_all| |done]. cbn beta. intros _ s' Hs'. by eapply Complete_failed.
Qed.
