(* ===== verification/AgentLoop.v ===== *)
(** The agent loop (travis/agent/agent_loop.py).

    Everything the loop calls (the provider's stream, the tools, the hooks, the
    event sink, the abort flag, the clock, the scheduler of the asyncio loop) is a
    field of the environment [Env] over a world [W]; each may change the world and
    raise.  The loop's functions are computations on the world, the list of
    context messages, the list of new messages and the trace of events handed to
    the sink.  [await] points are the calls themselves; only the workers of
    [_execute_parallel] interleave, and they do so under an arbitrary schedule. *)

From S2P Require Import Prelude Json PyFloat AgentTypes AgentParts.
Open Scope Z_scope.

(** What a tool's [execute] gives: the updates it published, as the relay
    delivers them, and how it ended. *)
Inductive tool_outcome : Type :=
  | ToolReturned (r : AgentToolResult)
  | ToolReturnedOther (type_name : string)
  | ToolReturnedBadContent
  | ToolReturnedBadMetadata
  | ToolAborted
  | ToolRaised (message : string).

(** What [response.result()] gives. *)
Inductive response_result : Type :=
  | ResponseMessage (m : AssistantMessage)
  | ResponseOther (type_name : string).

(** The steps the asyncio loop can take while [_execute_parallel] runs: the producer
    announces a call, or prepares the one it announced; a worker takes a prepared
    call; the tool of the [k]th busy worker has an update delivered, or ends; that
    worker reports the end. *)
Inductive par_action : Type :=
  | Announce
  | Prepare
  | Take
  | Deliver (k : nat)
  | EndTool (k : nat)
  | Report (k : nat).

(** The environment.  [env_request] covers [transform_context], [convert_to_llm],
    [get_api_key] and the provider call; it returns the events that iterating the
    response delivers, and how the iteration ends (normally or by raising). *)
Record Env (W : Type) : Type := {
  env_aborted : W → bool * W;
  env_now : W → Z * W;
  env_emit : AgentEvent → st W exn unit;
  env_steering : st W exn (list AgentMessage);
  env_follow_up : st W exn (list AgentMessage);
  env_request : AgentLoopConfig → AgentContext → st W exn (list StreamEvent * option exn);
  env_response_result : st W exn response_result;
  env_response_close : W → W;
  env_prepare_arguments : option (AgentTool → json → st W exn json);
  env_validate : AgentTool → ToolCall → st W exn json;
  env_before : option (AssistantMessage → ToolCall → json → st W exn (option BeforeToolCallResult));
  env_execute : PreparedToolCall → W → (list AgentToolResult * tool_outcome) * W;
  env_after : option (AssistantMessage → PreparedToolCall → AgentToolResult → bool →
                      st W exn (option AfterToolCallResult));
  env_prepare_next_turn : option (AssistantMessage → list ToolResultMessage → AgentContext →
                                  st W exn (option AgentLoopTurnUpdate));
  env_should_stop : option (AssistantMessage → list ToolResultMessage → AgentContext →
                            st W exn bool);
  env_schedule : W → list par_action * W
}.
Arguments env_aborted {W}. Arguments env_now {W}. Arguments env_emit {W}.
Arguments env_steering {W}. Arguments env_follow_up {W}. Arguments env_request {W}.
Arguments env_response_result {W}. Arguments env_response_close {W}.
Arguments env_prepare_arguments {W}. Arguments env_validate {W}. Arguments env_before {W}.
Arguments env_execute {W}. Arguments env_after {W}. Arguments env_prepare_next_turn {W}.
Arguments env_should_stop {W}. Arguments env_schedule {W}.

(** ** Pure helpers *)

(** [src: travis/agent/agent_loop.py:906-909 _error_result] *)
Definition error_result (message : string) : AgentToolResult :=
  {| res_content := [TextContent message None]; res_details := JObj [];
     res_terminate := None; res_added_tool_names := None |}.

Fixpoint dedup_names (seen : list string) (tools : list AgentTool) : list string :=
  match tools with
  | [] => []
  | t :: rest =>
      if bool_decide (tool_name t ∈ seen) then dedup_names seen rest
      else tool_name t :: dedup_names (tool_name t :: seen) rest
  end.

(** [src: travis/agent/agent_loop.py:912-923 _unknown_tool_message] *)
Definition unknown_tool_message (name : string) (tools : list AgentTool) : string :=
  let message := "Tool " +:+ name +:+ " not found" in
  match dedup_names [] tools with
  | [] => message
  | available => message +:+ ". Available tools: " +:+ String.concat ", " available
  end.

(** A finished call, the dict of the code. *)
Record Finalized : Type := {
  fin_tool_call : ToolCall;
  fin_args : json;
  fin_result : AgentToolResult;
  fin_is_error : bool;
  fin_reason_code : option string
}.

(** [src: travis/agent/agent_loop.py:896-903 _finalize_immediate] *)
Definition finalize_immediate (o : ImmediateToolOutcome) : Finalized :=
  {| fin_tool_call := imm_tool_call o; fin_args := tc_arguments (imm_tool_call o);
     fin_result := imm_result o; fin_is_error := imm_is_error o;
     fin_reason_code := Some (imm_reason_code o) |}.

(** [src: travis/agent/agent_loop.py:681-682 _should_terminate] *)
Definition should_terminate (calls : list Finalized) : bool :=
  match calls with
  | [] => false
  | _ => forallb (λ f, bool_decide (res_terminate (fin_result f) = Some true)) calls
  end.

(** [src: travis/agent/agent_loop.py:519-522 _ExecutedBatch] *)
Record ExecutedBatch : Type := {
  batch_messages : list ToolResultMessage;
  batch_terminate : bool
}.

Record executed : Type := {
  ex_result : AgentToolResult;
  ex_is_error : bool;
  ex_reason_code : option string
}.

(** [src: travis/agent/agent_loop.py:791-836 _execute_prepared]: how the outcome of a
    tool becomes a result. *)
Definition classify_outcome (name : string) (o : tool_outcome) : executed :=
  let invalid message := {| ex_result := error_result message; ex_is_error := true;
                            ex_reason_code := Some "invalid_tool_result" |} in
  match o with
  | ToolReturned r => {| ex_result := r; ex_is_error := false; ex_reason_code := None |}
  | ToolReturnedOther type_name =>
      invalid ("Tool " +:+ name +:+ " returned invalid result type " +:+ type_name
               +:+ "; expected AgentToolResult")
  | ToolReturnedBadContent =>
      invalid ("Tool " +:+ name +:+ " returned AgentToolResult with invalid content; "
               +:+ "expected TextContent or ImageContent items")
  | ToolReturnedBadMetadata =>
      invalid ("Tool " +:+ name +:+ " returned AgentToolResult with invalid metadata")
  | ToolAborted => {| ex_result := error_result "Operation aborted"; ex_is_error := true;
                      ex_reason_code := Some "aborted" |}
  | ToolRaised m => {| ex_result := error_result m; ex_is_error := true; ex_reason_code := None |}
  end.

Section loop.
Context {W : Type}.
Variable env : Env W.

(** The state of a run. *)
Record LoopState : Type := {
  ls_world : W;
  ls_context : AgentContext;
  ls_new : list AgentMessage;
  ls_trace : list AgentEvent
}.

Definition loop_m (A : Type) : Type := st LoopState exn A.

Definition set_world (w : W) (s : LoopState) : LoopState :=
  {| ls_world := w; ls_context := ls_context s; ls_new := ls_new s; ls_trace := ls_trace s |}.
Definition set_messages (ms : list AgentMessage) (s : LoopState) : LoopState :=
  {| ls_world := ls_world s;
     ls_context := {| ctx_system_prompt := ctx_system_prompt (ls_context s);
                      ctx_messages := ms; ctx_tools := ctx_tools (ls_context s) |};
     ls_new := ls_new s; ls_trace := ls_trace s |}.
Definition set_context (c : AgentContext) (s : LoopState) : LoopState :=
  {| ls_world := ls_world s; ls_context := c; ls_new := ls_new s; ls_trace := ls_trace s |}.
Definition add_new (m : AgentMessage) (s : LoopState) : LoopState :=
  {| ls_world := ls_world s; ls_context := ls_context s; ls_new := ls_new s ++ [m];
     ls_trace := ls_trace s |}.
Definition add_event (e : AgentEvent) (s : LoopState) : LoopState :=
  {| ls_world := ls_world s; ls_context := ls_context s; ls_new := ls_new s;
     ls_trace := ls_trace s ++ [e] |}.

(** Run a part of the environment on the world. *)
Definition lift {A} (m : st W exn A) : loop_m A := λ s,
  let (r, w) := m (ls_world s) in (r, set_world w s).
Definition lift_pure {A} (f : W → A * W) : loop_m A := λ s,
  let (a, w) := f (ls_world s) in (Ok a, set_world w s).

Definition aborted : loop_m bool := lift_pure (env_aborted env).
Definition now_ms : loop_m Z := lift_pure (env_now env).
Definition get_context : loop_m AgentContext := λ s, (Ok (ls_context s), s).
Definition get_new : loop_m (list AgentMessage) := λ s, (Ok (ls_new s), s).

(** [src: travis/agent/agent_loop.py:841-851 _emit_event]: the event is handed to the
    sink and awaited; an exception of the sink propagates. *)
Definition emit (e : AgentEvent) : loop_m unit :=
  _ ← st_modify (add_event e); lift (env_emit env e).

(** [context.messages.append(m)] and [context.messages[-1] = m]. *)
Definition append_message (m : AgentMessage) : loop_m unit :=
  c ← get_context; st_modify (set_messages (ctx_messages c ++ [m])).
Definition replace_last (m : AgentMessage) : loop_m unit :=
  c ← get_context;
  match ctx_messages c with
  | [] => mthrow (OtherError "list assignment index out of range")
  | ms => st_modify (set_messages (removelast ms ++ [m]))
  end.

(** [try: m except Exception: h]. *)
Definition try_catch {A} (m : loop_m A) (h : exn → loop_m A) : loop_m A := λ s,
  match m s with
  | (Err e, s') => h e s'
  | r => r
  end.

(** ** Streaming one assistant response *)

(** [src: travis/agent/agent_loop.py:435-465 _finalize_aborted_stream_response] and
    [_finalize_failed_stream_response] (468-499), which differ in the stop reason
    and the error message. *)
Definition finalize_stream (cfg : AgentLoopConfig) (stop_reason error_message : string)
    (partial : option AssistantMessage) : loop_m AssistantMessage :=
  now ← now_ms;
  match partial with
  | Some p =>
      let final := {| am_content := am_content p; am_api := am_api p; am_provider := am_provider p;
        am_model := am_model p; am_usage := am_usage p; am_stop_reason := stop_reason;
        am_response_model := am_response_model p; am_response_id := am_response_id p;
        am_diagnostics := am_diagnostics p; am_error_message := Some error_message;
        am_timestamp := now |} in
      _ ← replace_last (AssistantMsg final);
      _ ← emit (MessageEndEvent (AssistantMsg final));
      mret final
  | None =>
      let final := {| am_content := [TextContent "" None]; am_api := model_api (cfg_model cfg);
        am_provider := model_provider (cfg_model cfg); am_model := model_id (cfg_model cfg);
        am_usage := empty_usage; am_stop_reason := stop_reason; am_response_model := None;
        am_response_id := None; am_diagnostics := None; am_error_message := Some error_message;
        am_timestamp := now |} in
      _ ← append_message (AssistantMsg final);
      _ ← emit (MessageStartEvent (AssistantMsg final));
      _ ← emit (MessageEndEvent (AssistantMsg final));
      mret final
  end.

Definition finalize_aborted (cfg : AgentLoopConfig) (partial : option AssistantMessage) :=
  finalize_stream cfg "aborted" "Operation aborted" partial.

(** [src: travis/agent/agent_loop.py:468-499 _finalize_failed_stream_response] *)
Definition finalize_failed (cfg : AgentLoopConfig) (error_message : string)
    (partial : option AssistantMessage) :=
  finalize_stream cfg "error" error_message partial.

(** [src: travis/agent/agent_loop.py:421-432 _response_result] *)
Definition response_message : loop_m AssistantMessage :=
  r ← lift (env_response_result env);
  match r with
  | ResponseMessage m => mret m
  | ResponseOther type_name =>
      mthrow (ProviderStreamProtocolError
        ("invalid result type " +:+ type_name +:+ "; expected AssistantMessage"))
  end.

(** [src: travis/agent/agent_loop.py:343-351 _stream_assistant_response] (and 370-377):
    the final message replaces the partial one, or is added. *)
Definition finish_response (partial : option AssistantMessage) : loop_m AssistantMessage :=
  final ← response_message;
  _ ← match partial with
      | Some _ => replace_last (AssistantMsg final)
      | None =>
          _ ← append_message (AssistantMsg final);
          emit (MessageStartEvent (AssistantMsg final))
      end;
  _ ← emit (MessageEndEvent (AssistantMsg final));
  mret final.

(** The value of the stream loop: what is left for the exception handler is the
    partial snapshot in force when an exception was raised. *)
Inductive stream_outcome : Type :=
  | StreamDone (m : AssistantMessage)
  | StreamRaised (e : exn) (partial : option AssistantMessage).

(** Run a step of the stream loop that may raise. *)
Definition guard_stream {A} (partial : option AssistantMessage) (m : loop_m A)
    (k : A → loop_m stream_outcome) : loop_m stream_outcome := λ s,
  match m s with
  | (Ok a, s') => k a s'
  | (Err e, s') => (Ok (StreamRaised e partial), s')
  end.

(** [src: travis/agent/agent_loop.py:315-377 _stream_assistant_response]: the loop over
    the response's events, followed by what comes after the iteration. *)
Fixpoint stream_events (cfg : AgentLoopConfig) (p : StreamProtocol.AssistantStreamProtocol)
    (partial : option AssistantMessage) (events : list StreamEvent) (ending : option exn)
    : loop_m stream_outcome :=
  match events with
  | [] =>
      match ending with
      | Some e => mret (StreamRaised e partial)
      | None =>
          guard_stream partial aborted (λ a,
            guard_stream partial (if a : bool then finalize_aborted cfg partial
                                  else finish_response partial)
              (λ m, mret (StreamDone m)))
      end
  | ev :: rest =>
      guard_stream partial aborted (λ a,
        if a : bool then
          guard_stream partial (finalize_aborted cfg partial) (λ m, mret (StreamDone m))
        else
          guard_stream partial (st_lift (StreamProtocol.accept p (se_type ev))) (λ p',
            let after partial' :=
              guard_stream partial' aborted (λ a',
                if a' : bool then
                  guard_stream partial' (finalize_aborted cfg partial') (λ m, mret (StreamDone m))
                else stream_events cfg p' partial' rest ending) in
            if bool_decide (se_type ev = "start") then
              let snapshot := Some (se_partial ev) in
              guard_stream snapshot
                (_ ← append_message (AssistantMsg (se_partial ev));
                 emit (MessageStartEvent (AssistantMsg (se_partial ev))))
                (λ _, after snapshot)
            else if bool_decide (se_type ev ∈ StreamProtocol.UPDATE_EVENTS) then
              let snapshot := Some (se_partial ev) in
              guard_stream snapshot
                (_ ← replace_last (AssistantMsg (se_partial ev));
                 emit (MessageUpdateEvent (AssistantMsg (se_partial ev)) ev))
                (λ _, after snapshot)
            else if bool_decide (se_type ev = "done") || bool_decide (se_type ev = "error") then
              guard_stream partial (finish_response partial) (λ m, mret (StreamDone m))
            else after partial))
  end.

(** The [except ProviderStreamProtocolError] and [finally] clauses. *)
Definition stream_handlers (cfg : AgentLoopConfig) (outcome : stream_outcome)
    : loop_m AssistantMessage := λ s,
  let (r, s') :=
    match outcome with
    | StreamDone m => (Ok m, s)
    | StreamRaised (ProviderStreamProtocolError message) partial =>
        finalize_failed cfg ("Provider stream protocol error: " +:+ message) partial s
    | StreamRaised e _ => (Err e, s)
    end in
  (r, set_world (env_response_close env (ls_world s')) s').

(** [src: travis/agent/agent_loop.py:277-388 _stream_assistant_response] *)
Definition stream_assistant_response (cfg : AgentLoopConfig) : loop_m AssistantMessage :=
  c ← get_context;
  request ← lift (env_request env cfg c);
  outcome ← stream_events cfg StreamProtocol.initial None request.1 request.2;
  stream_handlers cfg outcome.

(** ** Tool calls *)

(** [src: travis/agent/agent_loop.py:748-756 _prepare_arguments]: a clone keeps the
    call's id and name. *)
Definition prepare_arguments (tool : AgentTool) (call : ToolCall) : loop_m ToolCall :=
  match env_prepare_arguments env with
  | None => mret call
  | Some f =>
      prepared ← lift (f tool (tc_arguments call));
      mret {| tc_id := tc_id call; tc_name := tc_name call; tc_arguments := prepared;
              tc_thought_signature := tc_thought_signature call |}
  end.

Definition immediate (call : ToolCall) (message reason : string) : PreparedToolCall + ImmediateToolOutcome :=
  inr {| imm_tool_call := call; imm_result := error_result message; imm_is_error := true;
         imm_reason_code := reason |}.

(** [src: travis/agent/agent_loop.py:696-745 _prepare_tool_call] *)
Definition prepare_tool_call (message : AssistantMessage) (call : ToolCall)
    : loop_m (PreparedToolCall + ImmediateToolOutcome) :=
  c ← get_context;
  match List.find (λ t, bool_decide (tool_name t = tc_name call)) (ctx_tools c) with
  | None =>
      mret (immediate call (unknown_tool_message (tc_name call) (ctx_tools c)) "unknown_tool")
  | Some tool =>
      try_catch
        (prepared ← prepare_arguments tool call;
         try_catch
           (args ← lift (env_validate env tool prepared);
            before ← (match env_before env with
                      | None => mret None
                      | Some f =>
                          before ← lift (f message call args);
                          a ← aborted;
                          mret (Some (before, a))
                      end : loop_m (option (option BeforeToolCallResult * bool)));
            match before with
            | Some (_, true) => mret (immediate prepared "Operation aborted" "aborted")
            | Some (Some {| before_block := true; before_reason := reason |}, false) =>
                mret (immediate prepared
                  match reason with
                  | Some r => if bool_decide (r = "") then "Tool execution was blocked" else r
                  | None => "Tool execution was blocked"
                  end "before_hook_block")
            | _ =>
                a ← aborted;
                if a : bool then mret (immediate prepared "Operation aborted" "aborted")
                else mret (inl {| prep_tool_call := prepared; prep_tool := tool; prep_args := args |})
            end)
           (λ e, mret (immediate prepared (exn_str e) "invalid_arguments")))
        (λ e, mret (immediate call (exn_str e) "invalid_arguments"))
  end.

(** [src: travis/agent/agent_loop.py:854-893 _finalize] *)
Definition finalize (message : AssistantMessage) (p : PreparedToolCall) (ex : executed)
    : loop_m Finalized :=
  let mk result is_error :=
    {| fin_tool_call := prep_tool_call p; fin_args := prep_args p; fin_result := result;
       fin_is_error := is_error; fin_reason_code := ex_reason_code ex |} in
  match env_after env with
  | None => mret (mk (ex_result ex) (ex_is_error ex))
  | Some f =>
      try_catch
        (after ← lift (f message p (ex_result ex) (ex_is_error ex));
         match after with
         | None => mret (mk (ex_result ex) (ex_is_error ex))
         | Some a =>
             mret (mk
               {| res_content := default (res_content (ex_result ex)) (after_content a);
                  res_details := default (res_details (ex_result ex)) (after_details a);
                  res_terminate := match after_terminate a with
                                   | Some t => Some t
                                   | None => res_terminate (ex_result ex)
                                   end;
                  res_added_tool_names := res_added_tool_names (ex_result ex) |}
               (default (ex_is_error ex) (after_is_error a)))
         end)
        (λ e, mret (mk (error_result (exn_str e)) true))
  end.

(** [src: travis/agent/agent_loop.py:926-937 _emit_tool_end] *)
Definition emit_tool_end (f : Finalized) : loop_m unit :=
  emit (ToolExecutionEndEvent (tc_id (fin_tool_call f)) (tc_name (fin_tool_call f))
          (fin_result f) (fin_is_error f) (fin_args f) (fin_reason_code f)).

(** [src: travis/agent/agent_loop.py:940-949 _tool_result_message] *)
Definition tool_result_message (f : Finalized) : loop_m ToolResultMessage :=
  now ← now_ms;
  mret {| tr_tool_call_id := tc_id (fin_tool_call f); tr_tool_name := tc_name (fin_tool_call f);
          tr_content := res_content (fin_result f); tr_is_error := fin_is_error f;
          tr_details := res_details (fin_result f);
          tr_added_tool_names := res_added_tool_names (fin_result f); tr_timestamp := now |}.

(** [src: travis/agent/agent_loop.py:952-954 _emit_tool_result_message] *)
Definition emit_tool_result_message (m : ToolResultMessage) : loop_m unit :=
  _ ← emit (MessageStartEvent (ToolResultMsg m));
  emit (MessageEndEvent (ToolResultMsg m)).

Definition emit_tool_start (call : ToolCall) : loop_m unit :=
  emit (ToolExecutionStartEvent (tc_id call) (tc_name call) (tc_arguments call)).

(** [src: travis/agent/agent_loop.py:525-546 _fail_tool_calls_from_truncated_message]:
    the messages of its batch, which never terminates the run. *)
Fixpoint fail_truncated (calls : list ToolCall) : loop_m (list ToolResultMessage) :=
  match calls with
  | [] => mret []
  | call :: rest =>
      _ ← emit_tool_start call;
      let f := {| fin_tool_call := call; fin_args := tc_arguments call;
        fin_result := error_result
          ("Tool call " +:+ quote +:+ tc_name call +:+ quote +:+ " was not executed: "
           +:+ "the response hit the output token limit, so its arguments may be truncated. "
           +:+ "Re-issue the tool call with complete arguments.");
        fin_is_error := true; fin_reason_code := None |} in
      _ ← emit_tool_end f;
      m ← tool_result_message f;
      _ ← emit_tool_result_message m;
      ms ← fail_truncated rest;
      mret (m :: ms)
  end.

(** A tool in execution: its call, the updates still to be delivered, how it ends,
    and the exception its relay has recorded. *)
Record Running : Type := {
  run_index : nat;
  run_prepared : PreparedToolCall;
  run_updates : list AgentToolResult;
  run_outcome : tool_outcome;
  run_error : option exn
}.

(** [src: travis/agent/tool_coordinator.py:32-45 ToolCoordinator.execute]: an aborted
    call is not executed. *)
Definition start_tool (index : nat) (p : PreparedToolCall) : loop_m Running :=
  a ← aborted;
  if a : bool
  then mret {| run_index := index; run_prepared := p; run_updates := [];
               run_outcome := ToolAborted; run_error := None |}
  else
    r ← lift_pure (env_execute env p);
    mret {| run_index := index; run_prepared := p; run_updates := r.1;
            run_outcome := r.2; run_error := None |}.

(** Deliver one update of a running tool; an exception of the sink is recorded and
    the following updates are dropped. *)
Definition deliver_update (r : Running) : loop_m Running := λ s,
  match run_updates r with
  | [] => (Ok r, s)
  | u :: rest =>
      let next error := {| run_index := run_index r; run_prepared := run_prepared r;
        run_updates := rest; run_outcome := run_outcome r; run_error := error |} in
      match run_error r with
      | Some e => (Ok (next (Some e)), s)
      | None =>
          let call := prep_tool_call (run_prepared r) in
          match emit (ToolExecutionUpdateEvent (tc_id call) (tc_name call) (tc_arguments call) u) s with
          | (Ok _, s') => (Ok (next None), s')
          | (Err e, s') => (Ok (next (Some e)), s')
          end
      end
  end.

Fixpoint deliver_updates (n : nat) (r : Running) : loop_m Running :=
  match n with
  | O => mret r
  | S n => r ← deliver_update r; deliver_updates n r
  end.

(** [src: travis/agent/agent_loop.py:759-838 _execute_prepared]: its end, when the
    relay has delivered everything; the relay's recorded exception is raised. *)
Definition finish_tool (r : Running) : loop_m executed :=
  r ← deliver_updates (length (run_updates r)) r;
  match run_error r with
  | Some e => mthrow e
  | None => mret (classify_outcome (tc_name (prep_tool_call (run_prepared r))) (run_outcome r))
  end.

(** [src: travis/agent/agent_loop.py:685-693 _execute_and_finalize]: after the tool
    has started. *)
Definition finish_and_finalize (message : AssistantMessage) (r : Running) : loop_m Finalized :=
  ex ← finish_tool r;
  f ← finalize message (run_prepared r) ex;
  _ ← emit_tool_end f;
  mret f.

(** [src: travis/agent/agent_loop.py:579-606 _execute_sequential]: the finished calls
    with their messages. *)
Fixpoint execute_sequential (message : AssistantMessage) (calls : list ToolCall)
    : loop_m (list (Finalized * ToolResultMessage)) :=
  match calls with
  | [] => mret []
  | call :: rest =>
      _ ← emit_tool_start call;
      p ← prepare_tool_call message call;
      f ← match p with
          | inr o => let f := finalize_immediate o in _ ← emit_tool_end f; mret f
          | inl p => r ← start_tool 0 p; finish_and_finalize message r
          end;
      m ← tool_result_message f;
      _ ← emit_tool_result_message m;
      a ← aborted;
      if a : bool then mret [(f, m)]
      else ms ← execute_sequential message rest; mret ((f, m) :: ms)
  end.

(** ** Parallel execution *)

(** A busy worker: its tool is running, or has ended and is not yet reported. *)
Inductive Worker : Type :=
  | Busy (r : Running)
  | Ended (index : nat) (f : Finalized).

(** [src: travis/agent/agent_loop.py:612-633 _execute_parallel]: the producer's calls
    still to be announced and the one announced, the work queue, the busy workers,
    how many workers are left, the slots, and the exception of a worker that
    died while the producer was at work. *)
Record ParState : Type := {
  ps_todo : list (nat * ToolCall);
  ps_announced : option (nat * ToolCall);
  ps_scheduled : nat;
  ps_queue : list (nat * PreparedToolCall);
  ps_workers : list Worker;
  ps_capacity : nat;
  ps_slots : gmap nat Finalized;
  ps_failed : option exn
}.

Definition par_initial (capacity : nat) (calls : list ToolCall) : ParState :=
  {| ps_todo := zip (seq 0 (length calls)) calls; ps_announced := None; ps_scheduled := 0;
     ps_queue := []; ps_workers := []; ps_capacity := capacity; ps_slots := ∅;
     ps_failed := None |}.

Definition producing (p : ParState) : bool :=
  match ps_todo p, ps_announced p with [], None => false | _, _ => true end.

Definition with_workers (ws : list Worker) (p : ParState) : ParState :=
  {| ps_todo := ps_todo p; ps_announced := ps_announced p; ps_scheduled := ps_scheduled p;
     ps_queue := ps_queue p; ps_workers := ws; ps_capacity := ps_capacity p;
     ps_slots := ps_slots p; ps_failed := ps_failed p |}.

(** A worker died: [gather] raises its exception once the producer is done. *)
Definition worker_died (k : nat) (e : exn) (p : ParState) : loop_m ParState :=
  if producing p then
    mret {| ps_todo := ps_todo p; ps_announced := ps_announced p; ps_scheduled := ps_scheduled p;
            ps_queue := ps_queue p; ps_workers := delete k (ps_workers p);
            ps_capacity := Nat.pred (ps_capacity p); ps_slots := ps_slots p;
            ps_failed := Some (default e (ps_failed p)) |}
  else mthrow e.

(** Run a worker's step; its exception kills the worker, not the producer. *)
Definition worker_step {A} (k : nat) (p : ParState) (m : loop_m A) (f : A → ParState)
    : loop_m ParState := λ s,
  match m s with
  | (Ok a, s') => (Ok (f a), s')
  | (Err e, s') => worker_died k e p s'
  end.

(** [src: travis/agent/agent_loop.py:635-655 _execute_parallel]: the producer's loop
    body, up to the announcement. *)
Definition announce (p : ParState) : loop_m ParState :=
  match ps_announced p, ps_todo p with
  | None, (i, call) :: rest =>
      _ ← emit_tool_start call;
      mret {| ps_todo := rest; ps_announced := Some (i, call); ps_scheduled := ps_scheduled p;
              ps_queue := ps_queue p; ps_workers := ps_workers p; ps_capacity := ps_capacity p;
              ps_slots := ps_slots p; ps_failed := ps_failed p |}
  | _, _ => mret p
  end.

(** [src: travis/agent/agent_loop.py:644-660 _execute_parallel]: the rest of the
    producer's loop body; after the last call, [gather] raises the exception of a
    worker that has died. *)
Definition prepare_announced (message : AssistantMessage) (p : ParState) : loop_m ParState :=
  match ps_announced p with
  | None => mret p
  | Some (i, call) =>
      preparation ← prepare_tool_call message call;
      done ← match preparation with
             | inr o =>
                 let f := finalize_immediate o in
                 _ ← emit_tool_end f;
                 mret (ps_queue p, <[i := f]> (ps_slots p))
             | inl prep => mret (ps_queue p ++ [(i, prep)], ps_slots p)
             end;
      a ← aborted;
      let p' := {| ps_todo := if a : bool then [] else ps_todo p; ps_announced := None;
                   ps_scheduled := S i; ps_queue := done.1; ps_workers := ps_workers p;
                   ps_capacity := ps_capacity p; ps_slots := done.2; ps_failed := ps_failed p |} in
      match ps_failed p with
      | Some e => if producing p' then mret p' else mthrow e
      | None => mret p'
      end
  end.

(** [src: travis/agent/agent_loop.py:615-629 _execute_parallel.worker]: taking work. *)
Definition take_work (p : ParState) : loop_m ParState :=
  match ps_queue p with
  | (i, prep) :: rest =>
      if (length (ps_workers p) <? ps_capacity p)%nat then
        r ← start_tool i prep;
        mret {| ps_todo := ps_todo p; ps_announced := ps_announced p;
                ps_scheduled := ps_scheduled p; ps_queue := rest;
                ps_workers := ps_workers p ++ [Busy r]; ps_capacity := ps_capacity p;
                ps_slots := ps_slots p; ps_failed := ps_failed p |}
      else mret p
  | [] => mret p
  end.

Definition deliver_one (k : nat) (p : ParState) : loop_m ParState :=
  match ps_workers p !! k with
  | Some (Busy r) => r ← deliver_update r; mret (with_workers (<[k := Busy r]> (ps_workers p)) p)
  | _ => mret p
  end.

Definition end_tool (message : AssistantMessage) (k : nat) (p : ParState) : loop_m ParState :=
  match ps_workers p !! k with
  | Some (Busy r) =>
      worker_step k p (ex ← finish_tool r; finalize message (run_prepared r) ex)
        (λ f, with_workers (<[k := Ended (run_index r) f]> (ps_workers p)) p)
  | _ => mret p
  end.

Definition report_end (k : nat) (p : ParState) : loop_m ParState :=
  match ps_workers p !! k with
  | Some (Ended i f) =>
      worker_step k p (emit_tool_end f)
        (λ _, {| ps_todo := ps_todo p; ps_announced := ps_announced p;
                 ps_scheduled := ps_scheduled p; ps_queue := ps_queue p;
                 ps_workers := delete k (ps_workers p); ps_capacity := ps_capacity p;
                 ps_slots := <[i := f]> (ps_slots p); ps_failed := ps_failed p |})
  | _ => mret p
  end.

(** One step of the schedule; a step that is not possible does nothing. *)
Definition par_step (message : AssistantMessage) (a : par_action) (p : ParState)
    : loop_m ParState :=
  match a with
  | Announce => announce p
  | Prepare => prepare_announced message p
  | Take => take_work p
  | Deliver k => deliver_one k p
  | EndTool k => end_tool message k p
  | Report k => report_end k p
  end.

Fixpoint par_run (message : AssistantMessage) (schedule : list par_action) (p : ParState)
    : loop_m ParState :=
  match schedule with
  | [] => mret p
  | a :: rest => p ← par_step message a p; par_run message rest p
  end.

(** What remains when the given schedule is used up, in a fixed order: the producer
    finishes, then the busy workers, then the queue is worked off one by one. *)
Fixpoint repeat_action (n : nat) (schedule : list par_action) : list par_action :=
  match n with
  | O => []
  | S n => schedule ++ repeat_action n schedule
  end.

Definition par_complete (message : AssistantMessage) (p : ParState) : loop_m ParState :=
  p ← par_run message (Prepare :: repeat_action (length (ps_todo p)) [Announce; Prepare]) p;
  p ← par_run message (repeat_action (length (ps_workers p)) [EndTool 0; Report 0]) p;
  par_run message (repeat_action (length (ps_queue p)) [Take; EndTool 0; Report 0]) p.

(** Build the messages of the finished calls, in the order of the calls. *)
Fixpoint result_messages (ordered : list Finalized) : loop_m (list ToolResultMessage) :=
  match ordered with
  | [] => mret []
  | f :: rest =>
      m ← tool_result_message f;
      _ ← emit_tool_result_message m;
      ms ← result_messages rest;
      mret (m :: ms)
  end.

(** [src: travis/agent/agent_loop.py:609-678 _execute_parallel] *)
Definition execute_parallel (message : AssistantMessage) (capacity : nat) (calls : list ToolCall)
    : loop_m ExecutedBatch :=
  schedule ← lift_pure (env_schedule env);
  p ← par_run message schedule (par_initial (Nat.min capacity (length calls)) calls);
  p ← par_complete message p;
  let ordered := omap (λ i, ps_slots p !! i) (seq 0 (ps_scheduled p)) in
  ms ← result_messages ordered;
  mret {| batch_messages := ms; batch_terminate := should_terminate ordered |}.

(** [tool_by_name.get(name)]: the last tool of that name. *)
Definition tool_by_name (name : string) (tools : list AgentTool) : option AgentTool :=
  last (List.filter (λ t, bool_decide (tool_name t = name)) tools).

(** [src: travis/agent/agent_loop.py:549-576 _execute_tool_calls] *)
Definition execute_tool_calls (cfg : AgentLoopConfig) (message : AssistantMessage)
    : loop_m ExecutedBatch :=
  let calls := tool_calls_of (am_content message) in
  let capacity := if cfg_tool_execution_sequential cfg then 1%nat
                  else Z.to_nat (Z.max 1 (cfg_max_parallel_tools cfg)) in
  c ← get_context;
  let sequential := existsb (λ call,
    match tool_by_name (tc_name call) (ctx_tools c) with
    | Some t => tool_sequential t
    | None => false
    end) calls in
  if cfg_tool_execution_sequential cfg || sequential then
    fms ← execute_sequential message calls;
    mret {| batch_messages := fms.*2; batch_terminate := should_terminate fms.*1 |}
  else execute_parallel message capacity calls.

(** ** The run *)

Fixpoint emit_messages (pending : list AgentMessage) : loop_m unit :=
  match pending with
  | [] => mret tt
  | m :: rest =>
      _ ← emit (MessageStartEvent m);
      _ ← emit (MessageEndEvent m);
      emit_messages rest
  end.

(** The pending messages of a turn: each is announced, then added. *)
Fixpoint add_pending (pending : list AgentMessage) : loop_m unit :=
  match pending with
  | [] => mret tt
  | m :: rest =>
      _ ← emit (MessageStartEvent m);
      _ ← emit (MessageEndEvent m);
      _ ← append_message m;
      _ ← st_modify (add_new m);
      add_pending rest
  end.

Fixpoint add_results (results : list ToolResultMessage) : loop_m unit :=
  match results with
  | [] => mret tt
  | m :: rest =>
      _ ← append_message (ToolResultMsg m);
      _ ← st_modify (add_new (ToolResultMsg m));
      add_results rest
  end.

Definition emit_agent_end : loop_m unit :=
  ms ← get_new; emit (AgentEndEvent ms).

(** The end of a turn: go on with this configuration and these pending messages,
    or the run is over. *)
Inductive turn_outcome : Type :=
  | TurnOver
  | TurnNext (cfg : AgentLoopConfig) (has_more_tool_calls : bool) (pending : list AgentMessage).

(** [src: travis/agent/agent_loop.py:237-251 _run_loop]: [prepare_next_turn]. *)
Definition prepare_next_turn (cfg : AgentLoopConfig) (message : AssistantMessage)
    (results : list ToolResultMessage) : loop_m AgentLoopConfig :=
  match env_prepare_next_turn env with
  | None => mret cfg
  | Some f =>
      c ← get_context;
      snapshot ← lift (f message results c);
      match snapshot with
      | None => mret cfg
      | Some u =>
          _ ← match turn_context u with
              | Some c' => st_modify (set_context c')
              | None => mret tt
              end;
          mret {| cfg_model := default (cfg_model cfg) (turn_model u);
                  cfg_tool_execution_sequential := cfg_tool_execution_sequential cfg;
                  cfg_max_parallel_tools := cfg_max_parallel_tools cfg;
                  cfg_reasoning := match turn_thinking_level u with
                                   | None => cfg_reasoning cfg
                                   | Some l => if bool_decide (l = "off") then None else Some l
                                   end |}
      end
  end.

(** [src: travis/agent/agent_loop.py:194-260 _run_loop]: one iteration of the inner
    loop. *)
Definition run_turn (cfg : AgentLoopConfig) (first_turn : bool) (pending : list AgentMessage)
    : loop_m turn_outcome :=
  _ ← (if first_turn then mret tt else emit TurnStartEvent);
  _ ← add_pending pending;
  message ← stream_assistant_response cfg;
  _ ← st_modify (add_new (AssistantMsg message));
  if bool_decide (am_stop_reason message = "error") ||
     bool_decide (am_stop_reason message = "aborted")
  then
    _ ← emit (TurnEndEvent (AssistantMsg message) []);
    _ ← emit_agent_end;
    mret TurnOver
  else
    let calls := tool_calls_of (am_content message) in
    batch ← match calls with
            | [] => mret {| batch_messages := []; batch_terminate := true |}
            | _ =>
                if bool_decide (am_stop_reason message = "length") then
                  ms ← fail_truncated calls;
                  mret {| batch_messages := ms; batch_terminate := false |}
                else execute_tool_calls cfg message
            end;
    _ ← add_results (batch_messages batch);
    _ ← emit (TurnEndEvent (AssistantMsg message) (batch_messages batch));
    a ← aborted;
    if a : bool then _ ← emit_agent_end; mret TurnOver
    else
      cfg' ← prepare_next_turn cfg message (batch_messages batch);
      stop ← match env_should_stop env with
             | None => mret false
             | Some f => c ← get_context; lift (f message (batch_messages batch) c)
             end;
      if stop : bool then _ ← emit_agent_end; mret TurnOver
      else
        pending ← lift (env_steering env);
        mret (TurnNext cfg' (negb (batch_terminate batch)) pending).

(** [src: travis/agent/agent_loop.py:191-268 _run_loop]: the two nested loops; [fuel]
    bounds the number of turns, and the value is [None] when it does not suffice. *)
Fixpoint run_turns (fuel : nat) (cfg : AgentLoopConfig) (first_turn has_more : bool)
    (pending : list AgentMessage) : loop_m (option unit) :=
  match fuel with
  | O => mret None
  | S fuel =>
      if has_more || negb (bool_decide (length pending = 0%nat)) then
        outcome ← run_turn cfg first_turn pending;
        match outcome with
        | TurnOver => mret (Some tt)
        | TurnNext cfg' has_more' pending' => run_turns fuel cfg' false has_more' pending'
        end
      else
        follow_up ← lift (env_follow_up env);
        match follow_up with
        | [] => _ ← emit_agent_end; mret (Some tt)
        | _ =>
            outcome ← run_turn cfg first_turn follow_up;
            match outcome with
            | TurnOver => mret (Some tt)
            | TurnNext cfg' has_more' pending' => run_turns fuel cfg' false has_more' pending'
            end
        end
  end.

(** [src: travis/agent/agent_loop.py:178-268 _run_loop] *)
Definition run_loop (fuel : nat) (cfg : AgentLoopConfig) : loop_m (option unit) :=
  pending ← lift (env_steering env);
  run_turns fuel cfg true true pending.

(** [src: travis/agent/agent_loop.py:119-141 run_agent_loop_async]: the messages
    returned. *)
Definition run_agent_loop (fuel : nat) (prompts : list AgentMessage) (context : AgentContext)
    (cfg : AgentLoopConfig) (w : W) : result exn (option (list AgentMessage)) * LoopState :=
  (_ ← emit AgentStartEvent;
   _ ← emit TurnStartEvent;
   _ ← emit_messages prompts;
   ended ← run_loop fuel cfg;
   ms ← get_new;
   mret ((λ _, ms) <$> ended))
  {| ls_world := w;
     ls_context := {| ctx_system_prompt := ctx_system_prompt context;
                      ctx_messages := ctx_messages context ++ prompts;
                      ctx_tools := ctx_tools context |};
     ls_new := prompts; ls_trace := [] |}.

(** [src: travis/agent/agent_loop.py:154-175 run_agent_loop_continue_async].  The list
    of the caller's context is used as it is: [ls_context] of the final state is
    what the caller's list has become, unless a turn update replaced it. *)
Definition run_agent_loop_continue (fuel : nat) (context : AgentContext) (cfg : AgentLoopConfig)
    (w : W) : result exn (option (list AgentMessage)) * LoopState :=
  let s := {| ls_world := w; ls_context := context; ls_new := []; ls_trace := [] |} in
  match last (ctx_messages context) with
  | None => (Err (OtherError "Cannot continue: no messages in context"), s)
  | Some m =>
      if bool_decide (role_of m = "assistant")
      then (Err (OtherError "Cannot continue from message role: assistant"), s)
      else
        (_ ← emit AgentStartEvent;
         _ ← emit TurnStartEvent;
         ended ← run_loop fuel cfg;
         ms ← get_new;
         mret ((λ _, ms) <$> ended)) s
  end.
End loop.
