(* ===== verification/AgentLoopSpec.v ===== *)
(** What the agent loop promises, for every environment: the events handed to the
    sink follow the grammar of [trace_ok], the messages returned are the messages
    announced, every turn's tool results answer its tool calls in order, parallel
    execution answers them under every schedule. *)

From S2P Require Import Prelude Json PyFloat AgentTypes AgentParts AgentLoop.
Open Scope Z_scope.

(** ** The grammar of events *)

Inductive trace_phase : Type :=
  | BeforeRun
  | BetweenTurns
  | InTurn
  | InMessage (role : string)
  | AfterRun.

(** Where a trace stands: its phase, the identifiers of the tools in execution, and
    the messages that have ended. *)
Record TraceState : Type := {
  t_phase : trace_phase;
  t_tools : list string;
  t_done : list AgentMessage
}.

(** The results of a turn answer the message's tool calls, in order, from the
    first. *)
Definition answers (m : AssistantMessage) (results : list ToolResultMessage) : Prop :=
  map tr_tool_call_id results `prefix_of` map tc_id (tool_calls_of (am_content m)).

Inductive trace_step : TraceState → AgentEvent → TraceState → Prop :=
  | step_agent_start :
      trace_step {| t_phase := BeforeRun; t_tools := []; t_done := [] |} AgentStartEvent
                 {| t_phase := BetweenTurns; t_tools := []; t_done := [] |}
  | step_turn_start done :
      trace_step {| t_phase := BetweenTurns; t_tools := []; t_done := done |} TurnStartEvent
                 {| t_phase := InTurn; t_tools := []; t_done := done |}
  | step_message_start m done :
      trace_step {| t_phase := InTurn; t_tools := []; t_done := done |} (MessageStartEvent m)
                 {| t_phase := InMessage (role_of m); t_tools := []; t_done := done |}
  | step_message_update m ev done :
      trace_step {| t_phase := InMessage "assistant"; t_tools := []; t_done := done |}
                 (MessageUpdateEvent (AssistantMsg m) ev)
                 {| t_phase := InMessage "assistant"; t_tools := []; t_done := done |}
  | step_message_end m done :
      trace_step {| t_phase := InMessage (role_of m); t_tools := []; t_done := done |}
                 (MessageEndEvent m)
                 {| t_phase := InTurn; t_tools := []; t_done := done ++ [m] |}
  | step_tool_start id name args tools done :
      trace_step {| t_phase := InTurn; t_tools := tools; t_done := done |}
                 (ToolExecutionStartEvent id name args)
                 {| t_phase := InTurn; t_tools := tools ++ [id]; t_done := done |}
  | step_tool_update id name args partial tools done :
      id ∈ tools →
      trace_step {| t_phase := InTurn; t_tools := tools; t_done := done |}
                 (ToolExecutionUpdateEvent id name args partial)
                 {| t_phase := InTurn; t_tools := tools; t_done := done |}
  | step_tool_end id name r err args reason tools tools' done :
      tools ≡ₚ id :: tools' →
      trace_step {| t_phase := InTurn; t_tools := tools; t_done := done |}
                 (ToolExecutionEndEvent id name r err args reason)
                 {| t_phase := InTurn; t_tools := tools'; t_done := done |}
  | step_turn_end m results earlier :
      answers m results →
      trace_step {| t_phase := InTurn; t_tools := [];
                    t_done := earlier ++ AssistantMsg m :: map ToolResultMsg results |}
                 (TurnEndEvent (AssistantMsg m) results)
                 {| t_phase := BetweenTurns; t_tools := [];
                    t_done := earlier ++ AssistantMsg m :: map ToolResultMsg results |}
  | step_agent_end done :
      trace_step {| t_phase := BetweenTurns; t_tools := []; t_done := done |} (AgentEndEvent done)
                 {| t_phase := AfterRun; t_tools := []; t_done := done |}.

(** The traces the grammar accepts, with the state they end in. *)
Inductive trace_ok : list AgentEvent → TraceState → Prop :=
  | trace_nil : trace_ok [] {| t_phase := BeforeRun; t_tools := []; t_done := [] |}
  | trace_snoc trace q e q' :
      trace_ok trace q → trace_step q e q' → trace_ok (trace ++ [e]) q'.

Section spec.
Context {W : Type}.
Variable env : Env W.

(** The sink raises no protocol error of the provider's stream. *)
Definition sink_ok : Prop :=
  ∀ e w m, (env_emit env e w).1 ≠ Err (ProviderStreamProtocolError m).

#[local] Notation state := (LoopState (W:=W)).
#[local] Notation m_of A := (loop_m (W:=W) A).

Definition at_state (q : TraceState) (s : state) : Prop := trace_ok (ls_trace s) q.

(** An exceptional end: the trace is still one of the grammar's. *)
Definition raised (e : exn) (s : state) : Prop := ∃ q, at_state q s.

(** [in_turn tools done s]: within a turn, with these tools and messages. *)
Definition in_turn (tools : list string) (done : list AgentMessage) (s : state) : Prop :=
  at_state {| t_phase := InTurn; t_tools := tools; t_done := done |} s.

Definition not_protocol (e : exn) : Prop := ∀ m, e ≠ ProviderStreamProtocolError m.

(** What a step leaves as it was. *)
Definition same_lists (s s' : state) : Prop :=
  ls_context s' = ls_context s ∧ ls_new s' = ls_new s.

Lemma emit_wpe e q q' s :
  at_state q s → trace_step q e q' →
  wpe (emit env e) (λ _ s', at_state q' s' ∧ same_lists s s')
    (λ err s', at_state q' s' ∧ same_lists s s' ∧ (sink_ok → not_protocol err)) s.
Proof.
  intros Hs Hq. unfold wpe, emit, lift. st_eval. cbn.
  destruct (env_emit env e (ls_world s)) as [r w] eqn:He.
  assert (trace_ok (ls_trace s ++ [e]) q') by by eapply trace_snoc.
  destruct r as [[]|err]; [done|]. split_and!; [done|done|].
  intros Hok m ->. apply (Hok e (ls_world s) m). by rewrite He.
Qed.

(** A part of the environment: it touches neither the trace nor the lists. *)
Lemma lift_wpe {A} (m : st W exn A) (Q : A → state → Prop) (R : exn → state → Prop) s :
  (∀ a w, Q a (set_world w s)) → (∀ e w, R e (set_world w s)) → wpe (lift m) Q R s.
Proof. intros HQ HR. unfold wpe, lift. destruct (m (ls_world s)) as [[a|e] w]; auto. Qed.

Lemma lift_pure_wpe {A} (f : W → A * W) (Q : A → state → Prop) (R : exn → state → Prop) s :
  (∀ a w, Q a (set_world w s)) → wpe (lift_pure f) Q R s.
Proof. intros HQ. unfold wpe, lift_pure. destruct (f (ls_world s)) as [a w]. auto. Qed.

Lemma get_context_wpe (Q : AgentContext → state → Prop) R s :
  Q (ls_context s) s → wpe get_context Q R s.
Proof. done. Qed.

Lemma get_new_wpe (Q : list AgentMessage → state → Prop) R s : Q (ls_new s) s → wpe get_new Q R s.
Proof. done. Qed.

Lemma try_catch_wpe {A} (m : m_of A) h Q R s :
  wpe m Q (λ e s', wpe (h e) Q R s') s → wpe (try_catch m h) Q R s.
Proof. unfold wpe, try_catch. by destruct (m s) as [[a|e] s']. Qed.

Lemma append_message_wpe m (Q : unit → state → Prop) R s :
  Q tt (set_messages (ctx_messages (ls_context s) ++ [m]) s) → wpe (append_message m) Q R s.
Proof. done. Qed.

Lemma replace_last_wpe m base x (Q : unit → state → Prop) R s :
  ctx_messages (ls_context s) = base ++ [x] → Q tt (set_messages (base ++ [m]) s) →
  wpe (replace_last m) Q R s.
Proof.
  intros Hc HQ. unfold wpe, replace_last, get_context. st_eval. rewrite Hc.
  destruct (base ++ [x]) as [|y l] eqn:Hb; [by destruct base|].
  rewrite <- Hb, removelast_last. done.
Qed.

(** ** Streaming a response *)

Section stream.
Variable c0 : AgentContext.
Variable n0 : list AgentMessage.
Variable done : list AgentMessage.

(** The lists of the run: the context with these messages, the new messages. *)
Definition lists (c : AgentContext) (ms new : list AgentMessage) (s : state) : Prop :=
  ls_context s = {| ctx_system_prompt := ctx_system_prompt c; ctx_messages := ms;
                    ctx_tools := ctx_tools c |} ∧ ls_new s = new.

Definition partial_state (partial : option AssistantMessage) (s : state) : Prop :=
  match partial with
  | None => in_turn [] done s ∧ lists c0 (ctx_messages c0) n0 s
  | Some p => at_state {| t_phase := InMessage "assistant"; t_tools := []; t_done := done |} s ∧
              lists c0 (ctx_messages c0 ++ [AssistantMsg p]) n0 s
  end.

Definition response_state (m : AssistantMessage) (s : state) : Prop :=
  in_turn [] (done ++ [AssistantMsg m]) s ∧ lists c0 (ctx_messages c0 ++ [AssistantMsg m]) n0 s.

Definition stream_state (o : stream_outcome) (s : state) : Prop :=
  match o with
  | StreamDone m => response_state m s
  | StreamRaised e partial =>
      (∃ q, at_state q s) ∧ (¬ not_protocol e → partial_state partial s)
  end.

Lemma guard_stream_wpe {A} partial (m : m_of A) k (Q : stream_outcome → state → Prop) R s :
  wpe m (λ a s', wpe (k a) Q R s') (λ e s', Q (StreamRaised e partial) s') s →
  wpe (guard_stream partial m k) Q R s.
Proof. unfold wpe, guard_stream. by destruct (m s) as [[a|e] s']. Qed.

Lemma partial_state_at partial s : partial_state partial s → ∃ q, at_state q s.
Proof. destruct partial; intros [H _]; by eexists. Qed.

Lemma partial_state_world w partial s : partial_state partial s → partial_state partial (set_world w s).
Proof. by destruct partial. Qed.

Hypothesis Hsink : sink_ok.

(** Close a message: the final message takes the partial one's place, or is added. *)
Lemma put_final_wpe partial m s :
  partial_state partial s →
  wpe (_ ← match partial with
           | Some _ => replace_last (AssistantMsg m)
           | None => _ ← append_message (AssistantMsg m); emit env (MessageStartEvent (AssistantMsg m))
           end;
       _ ← emit env (MessageEndEvent (AssistantMsg m));
       mret m)
    (λ r s', r = m ∧ response_state m s')
    (λ e s', (∃ q, at_state q s') ∧ not_protocol e) s.
Proof.
  intros Hs. assert (∀ s1, at_state {| t_phase := InMessage "assistant"; t_tools := []; t_done := done |} s1 →
    lists c0 (ctx_messages c0 ++ [AssistantMsg m]) n0 s1 →
    wpe (_ ← emit env (MessageEndEvent (AssistantMsg m)); mret m)
      (λ r s', r = m ∧ response_state m s') (λ e s', (∃ q, at_state q s') ∧ not_protocol e) s1) as Hend.
  { intros s1 Hq [Hc Hn]. wpe_step. eapply wpe_mono; [eapply emit_wpe; [exact Hq|]| |].
    - apply (step_message_end (AssistantMsg m)).
    - intros [] s2 (Hq2 & Hc2 & Hn2). split; [done|]. split; [done|]. split; congruence.
    - intros e s2 (Hq2 & _ & Hnp). split; [by eexists|auto]. }
  destruct partial as [p|]; destruct Hs as [Hq [Hc Hn]]; wpe_step.
  - eapply replace_last_wpe; [by rewrite Hc|]. apply Hend; [done|]. split; cbn; [by rewrite Hc|done].
  - wpe_step. apply append_message_wpe. eapply wpe_mono.
    + eapply emit_wpe; [|apply (step_message_start (AssistantMsg m))]. exact Hq.
    + intros [] s1 (Hq1 & Hc1 & Hn1). apply Hend; [done|]. split; [|by rewrite Hn1].
      rewrite Hc1. cbn. by rewrite Hc.
    + intros e s1 (Hq1 & _ & Hnp). split; [by eexists|auto].
Qed.

Lemma finalize_stream_wpe cfg reason message partial s :
  partial_state partial s →
  wpe (finalize_stream env cfg reason message partial) response_state
    (λ e s', (∃ q, at_state q s') ∧ not_protocol e) s.
Proof.
  intros Hs. unfold finalize_stream. wpe_step. apply lift_pure_wpe. intros now w.
  apply (partial_state_world w) in Hs. destruct partial as [p|].
  - match goal with |- context [mret ?f] => set (final := f) end.
    eapply wpe_mono; [apply (put_final_wpe (Some p) final); exact Hs| |done].
    by intros r s' [-> ?].
  - match goal with |- context [mret ?f] => set (final := f) end.
    apply (wpe_assoc (append_message (AssistantMsg final))
      (λ _, emit env (MessageStartEvent (AssistantMsg final)))).
    eapply wpe_mono; [apply (put_final_wpe None final); exact Hs| |done].
    by intros r s' [-> ?].
Qed.

Lemma finish_response_wpe partial s :
  partial_state partial s →
  wpe (finish_response env partial) response_state
    (λ e s', (∃ q, at_state q s') ∧ (¬ not_protocol e → partial_state partial s')) s.
Proof.
  intros Hs. unfold finish_response, response_message. wpe_step. wpe_step.
  apply lift_wpe; intros r w; apply (partial_state_world w) in Hs.
  - destruct r as [m|n].
    + wpe_step. eapply wpe_mono; [apply (put_final_wpe partial m); exact Hs| |].
      * by intros r s' [-> ?].
      * intros e s' [? Hn]. split; [done|]. by intros [].
    + wpe_step. split; [by eapply partial_state_at|done].
  - split; [by eapply partial_state_at|done].
Qed.

Lemma raised_stream e partial s :
  (∃ q, at_state q s) → (¬ not_protocol e → partial_state partial s) →
  stream_state (StreamRaised e partial) s.
Proof. done. Qed.

(** A step of the stream loop that ends in [response_state] ends the loop. *)
Lemma guard_final_wpe partial (m : m_of AssistantMessage) R s :
  wpe m response_state
    (λ e s', (∃ q, at_state q s') ∧ (¬ not_protocol e → partial_state partial s')) s →
  wpe (guard_stream partial m (λ r, mret (StreamDone r))) stream_state R s.
Proof.
  intros Hm. apply guard_stream_wpe. eapply wpe_mono; [exact Hm| |].
  - intros r s' Hr. by wpe_step.
  - done.
Qed.

Lemma guard_aborted_wpe cfg partial R s :
  partial_state partial s →
  wpe (guard_stream partial (finalize_aborted env cfg partial) (λ r, mret (StreamDone r)))
    stream_state R s.
Proof.
  intros Hs. apply guard_final_wpe. eapply wpe_mono; [by apply finalize_stream_wpe|done|].
  intros e s' [? Hn]. split; [done|]. by intros [].
Qed.

Lemma stream_events_wpe cfg R events : ∀ p partial ending s,
  partial_state partial s → StreamProtocol.started p = bool_decide (is_Some partial) →
  wpe (stream_events env cfg p partial events ending) stream_state R s.
Proof.
  induction events as [|ev rest IH]; intros p partial ending s Hs Hp; cbn [stream_events].
  - destruct ending as [e|].
    + wpe_step. split; [by eapply partial_state_at|done].
    + apply guard_stream_wpe, lift_pure_wpe. intros a w. apply (partial_state_world w) in Hs.
      destruct a; [by apply guard_aborted_wpe|]. apply guard_final_wpe.
      eapply wpe_mono; [by apply finish_response_wpe|done|done].
  - apply guard_stream_wpe, lift_pure_wpe. intros a w. apply (partial_state_world w) in Hs.
    destruct a; [by apply guard_aborted_wpe|]. apply guard_stream_wpe, wpe_lift; cycle 1.
    { intros e _. split; [by eapply partial_state_at|done]. }
    intros p' Hacc. cbv zeta.
    assert (∀ partial' s', partial_state partial' s' →
      StreamProtocol.started p' = bool_decide (is_Some partial') →
      wpe (guard_stream partial' (aborted env) (λ a', if a' : bool
            then guard_stream partial' (finalize_aborted env cfg partial') (λ m, mret (StreamDone m))
            else stream_events env cfg p' partial' rest ending)) stream_state R s') as Hafter.
    { intros partial' s' Hs' Hp'. apply guard_stream_wpe, lift_pure_wpe. intros a' w'.
      apply (partial_state_world w') in Hs'. destruct a'; [by apply guard_aborted_wpe|].
      by apply IH. }
    unfold StreamProtocol.accept in Hacc. destruct (StreamProtocol.terminal p); [done|].
    destruct (bool_decide (se_type ev = "start")) eqn:Hstart.
    { destruct (StreamProtocol.started p) eqn:Hst; [done|]. injection Hacc as <-.
      destruct partial as [pm|]; [by rewrite bool_decide_eq_true_2 in Hp|].
      destruct Hs as [Hq [Hc Hn]]. cbn in Hc, Hn. apply guard_stream_wpe. wpe_step. apply append_message_wpe.
      eapply wpe_mono; [eapply emit_wpe; [exact Hq|apply step_message_start]| |].
      - intros [] s1 (Hq1 & Hc1 & Hn1). apply Hafter; [|done]. split; [done|].
        split; [|by rewrite Hn1]. rewrite Hc1. cbn. by rewrite Hc.
      - intros e s1 (Hq1 & _ & Hnp). split; [by eexists|]. intros []. auto. }
    destruct (bool_decide (se_type ev ∈ StreamProtocol.UPDATE_EVENTS)) eqn:Hupd.
    { destruct (StreamProtocol.started p) eqn:Hst; [|done]. injection Hacc as <-.
      destruct partial as [pm|]; [|by rewrite bool_decide_eq_false_2 in Hp by (by intros [])].
      destruct Hs as [Hq [Hc Hn]]. cbn in Hc, Hn. apply guard_stream_wpe. wpe_step.
      eapply replace_last_wpe; [cbn; by rewrite Hc|].
      eapply wpe_mono; [eapply emit_wpe; [exact Hq|apply step_message_update]| |].
      - intros [] s1 (Hq1 & Hc1 & Hn1). apply Hafter; [|by rewrite bool_decide_eq_true_2].
        split; [done|]. split; [|by rewrite Hn1]. rewrite Hc1. cbn. by rewrite Hc.
      - intros e s1 (Hq1 & _ & Hnp). split; [by eexists|]. intros []. auto. }
    destruct (_ || _) eqn:Hend.
    + apply guard_final_wpe. eapply wpe_mono; [by apply finish_response_wpe|done|done].
    + injection Hacc as <-. by apply Hafter.
Qed.

Lemma stream_response_wpe cfg s :
  in_turn [] done s → lists c0 (ctx_messages c0) n0 s →
  wpe (stream_assistant_response env cfg) response_state raised s.
Proof.
  intros Hq Hl. unfold stream_assistant_response. wpe_step. apply get_context_wpe. wpe_step.
  apply lift_wpe; [|intros e w; by eexists]. intros [events ending] w. wpe_step.
  eapply wpe_mono; [apply (stream_events_wpe cfg raised events _ None)| |]; [by split|done| |done].
  intros o s' Ho. unfold wpe, stream_handlers. destruct o as [m|e partial].
  - done.
  - destruct Ho as [Hat Hpart]. destruct e as [msg|msg]; [|done].
    pose proof (finalize_stream_wpe cfg "error" ("Provider stream protocol error: " +:+ msg)
      partial s' (Hpart (λ H, H msg eq_refl))) as Hf.
    unfold wpe in Hf. unfold finalize_failed.
    destruct (finalize_stream _ _ _ _ _ _) as [[m|e] s2]; [done|].
    by destruct Hf as [? _].
Qed.
End stream.

(** ** Tool execution *)

Section tools.
Variable c0 : AgentContext.
Variable ms0 n0 : list AgentMessage.

(** In a turn, with these tools open and these messages ended; the lists are not
    touched by tool execution. *)
Definition pt (tools : list string) (done : list AgentMessage) (s : state) : Prop :=
  in_turn tools done s ∧ lists c0 ms0 n0 s.

Lemma pt_world tools done w s : pt tools done s → pt tools done (set_world w s).
Proof. done. Qed.

Lemma pt_raised tools done e s : pt tools done s → raised e s.
Proof. intros [? _]. by eexists. Qed.

Lemma emit_pt e tools done tools' done' s :
  pt tools done s →
  trace_step {| t_phase := InTurn; t_tools := tools; t_done := done |} e
    {| t_phase := InTurn; t_tools := tools'; t_done := done' |} →
  wpe (emit env e) (λ _, pt tools' done') (λ _, pt tools' done') s.
Proof.
  intros [Hq [Hc Hn]] Hstep. eapply wpe_mono; [by eapply emit_wpe| |].
  - intros _ s' (Hq' & Hc' & Hn'). split; [done|]. split; congruence.
  - intros _ s' (Hq' & (Hc' & Hn') & _). split; [done|]. split; congruence.
Qed.

(** Computations that only use the environment keep the point of the run. *)
Lemma prepare_arguments_wpe tool call tools done s :
  pt tools done s →
  wpe (prepare_arguments env tool call)
    (λ call' s', tc_id call' = tc_id call ∧ pt tools done s') (λ _, pt tools done) s.
Proof.
  intros Hs. unfold prepare_arguments. destruct (env_prepare_arguments env) as [f|]; [|by wpe_step].
  wpe_step. apply lift_wpe; [|done]. intros a w. by wpe_step.
Qed.

Definition prepared_call (p : PreparedToolCall + ImmediateToolOutcome) : ToolCall :=
  match p with inl p => prep_tool_call p | inr o => imm_tool_call o end.

Lemma prepare_tool_call_wpe message call tools done s :
  pt tools done s →
  wpe (prepare_tool_call env message call)
    (λ p s', tc_id (prepared_call p) = tc_id call ∧ pt tools done s') (λ _ _, False) s.
Proof.
  intros Hs. unfold prepare_tool_call. wpe_step. apply get_context_wpe.
  destruct (List.find _ _) as [tool|]; [|by wpe_step].
  apply try_catch_wpe. wpe_step.
  eapply wpe_mono; [by apply prepare_arguments_wpe| |by intros; wpe_step].
  intros call' s1 [Hid Hs1]. apply try_catch_wpe. wpe_step.
  apply lift_wpe; [|by intros; wpe_step]. intros args w1. apply (pt_world _ _ w1) in Hs1. wpe_step.
  apply (wpe_mono _ (λ _, pt tools done) _ (λ _, pt tools done)).
  - destruct (env_before env) as [f|]; [|by wpe_step]. wpe_step.
    apply lift_wpe; [|done]. intros b w2. wpe_step. apply lift_pure_wpe. intros a w3. by wpe_step.
  - intros before s2 Hs2.
    destruct before as [[[[[] r]|] []]|]; try (by wpe_step);
      wpe_step; apply lift_pure_wpe; intros [] w; by wpe_step.
  - intros e s2 Hs2. by wpe_step.
Qed.

Lemma finalize_wpe message p ex tools done s :
  pt tools done s →
  wpe (finalize env message p ex)
    (λ f s', fin_tool_call f = prep_tool_call p ∧ pt tools done s') (λ _ _, False) s.
Proof.
  intros Hs. unfold finalize. cbv zeta. destruct (env_after env) as [f|]; [|by wpe_step].
  apply try_catch_wpe. wpe_step. apply lift_wpe; [|by intros; wpe_step].
  intros [a|] w; by wpe_step.
Qed.

Lemma deliver_update_wpe r tools done s :
  pt tools done s → tc_id (prep_tool_call (run_prepared r)) ∈ tools →
  wpe (deliver_update env r)
    (λ r' s', run_prepared r' = run_prepared r ∧ run_index r' = run_index r ∧ pt tools done s')
    (λ _ _, False) s.
Proof.
  intros Hs Hin. unfold wpe, deliver_update. destruct (run_updates r) as [|u rest]; [done|].
  destruct (run_error r) as [e|]; [done|].
  match goal with |- context [emit env ?e s] =>
    pose proof (emit_pt e tools done tools done s Hs (step_tool_update _ _ _ _ _ _ Hin)) as He;
    unfold wpe in He; destruct (emit env e s) as [[[]|err] s'] end; done.
Qed.

Lemma deliver_updates_wpe n : ∀ r tools done s,
  pt tools done s → tc_id (prep_tool_call (run_prepared r)) ∈ tools →
  wpe (deliver_updates env n r)
    (λ r' s', run_prepared r' = run_prepared r ∧ run_index r' = run_index r ∧ pt tools done s')
    (λ _ _, False) s.
Proof.
  induction n as [|n IH]; intros r tools done s Hs Hin; cbn [deliver_updates]; [by wpe_step|].
  wpe_step. eapply wpe_mono; [by apply deliver_update_wpe| |done].
  intros r1 s1 (Hp & Hi & Hs1). eapply wpe_mono; [apply IH; [done|by rewrite Hp]| |done].
  intros r2 s2 (-> & -> & ?). done.
Qed.

Lemma finish_tool_wpe r tools done s :
  pt tools done s → tc_id (prep_tool_call (run_prepared r)) ∈ tools →
  wpe (finish_tool env r) (λ _, pt tools done) (λ _, pt tools done) s.
Proof.
  intros Hs Hin. unfold finish_tool. wpe_step.
  eapply wpe_mono; [by apply deliver_updates_wpe| |done]. intros r' s' (_ & _ & Hs').
  unfold wpe. by destruct (run_error r').
Qed.

Lemma end_call_wpe message r tools done s :
  pt tools done s → tc_id (prep_tool_call (run_prepared r)) ∈ tools →
  wpe (ex ← finish_tool env r; finalize env message (run_prepared r) ex)
    (λ f s', fin_tool_call f = prep_tool_call (run_prepared r) ∧ pt tools done s')
    (λ _, pt tools done) s.
Proof.
  intros Hs Hin. wpe_step. eapply wpe_mono; [by apply finish_tool_wpe| |done].
  intros ex s1 Hs1. eapply wpe_mono; [eapply finalize_wpe; exact Hs1|done|done].
Qed.

Lemma emit_tool_end_wpe f tools tools' done s :
  pt tools done s → tools ≡ₚ tc_id (fin_tool_call f) :: tools' →
  wpe (emit_tool_end env f) (λ _, pt tools' done) (λ _, pt tools' done) s.
Proof. intros Hs Hp. eapply emit_pt; [done|by constructor]. Qed.

Lemma start_tool_wpe i p tools done s :
  pt tools done s →
  wpe (start_tool env i p) (λ r s', run_prepared r = p ∧ run_index r = i ∧ pt tools done s')
    (λ _ _, False) s.
Proof.
  intros Hs. unfold start_tool. wpe_step. apply lift_pure_wpe. intros [] w; [by wpe_step|].
  wpe_step. apply lift_pure_wpe. intros r w'. by wpe_step.
Qed.

(** The message of a finished call, announced, and what follows. *)
Lemma result_message_wpe {A} f done s (k : ToolResultMessage → m_of A) (Q : A → state → Prop) R :
  pt [] done s →
  (∀ m s', tr_tool_call_id m = tc_id (fin_tool_call f) → pt [] (done ++ [ToolResultMsg m]) s' →
     wpe (k m) Q R s') →
  (∀ e s', raised e s' → R e s') →
  wpe (m ← tool_result_message env f; _ ← emit_tool_result_message env m; k m) Q R s.
Proof.
  intros Hs Hk HR. wpe_step. unfold tool_result_message. wpe_step. apply lift_pure_wpe.
  intros now w. wpe_step. match goal with |- context [k ?x] => set (m := x) end.
  apply (pt_world _ _ w) in Hs. destruct Hs as [Hq [Hc Hn]]. wpe_step.
  unfold emit_tool_result_message. wpe_step.
  eapply wpe_mono; [eapply emit_wpe; [exact Hq|apply (step_message_start (ToolResultMsg m))]| |].
  - intros [] s1 (Hq1 & Hc1 & Hn1).
    eapply wpe_mono; [eapply emit_wpe; [exact Hq1|apply (step_message_end (ToolResultMsg m))]| |].
    + intros [] s2 (Hq2 & Hc2 & Hn2). apply Hk; [done|]. split; [done|]. split; congruence.
    + intros e s2 (Hq2 & _). apply HR. by eexists.
  - intros e s1 (Hq1 & _). apply HR. by eexists.
Qed.

Lemma emit_tool_start_wpe call tools done s :
  pt tools done s →
  wpe (emit_tool_start env call) (λ _, pt (tools ++ [tc_id call]) done)
    (λ _, pt (tools ++ [tc_id call]) done) s.
Proof. intros Hs. eapply emit_pt; [done|constructor]. Qed.

Lemma fail_truncated_wpe calls : ∀ done s,
  pt [] done s →
  wpe (fail_truncated env calls)
    (λ ms s', map tr_tool_call_id ms = map tc_id calls ∧
              pt [] (done ++ map ToolResultMsg ms) s') raised s.
Proof.
  induction calls as [|call calls IH]; intros done s Hs; cbn [fail_truncated].
  - wpe_step. by rewrite app_nil_r.
  - wpe_step. eapply wpe_mono; [by eapply emit_tool_start_wpe| |intros ? ? Hraise; exact (pt_raised _ _ _ _ Hraise)].
    intros [] s1 Hs1. wpe_step.
    eapply wpe_mono; [eapply (emit_tool_end_wpe _ [tc_id call] []); [exact Hs1|done]| |
      intros ? ? Hraise; exact (pt_raised _ _ _ _ Hraise)].
    intros [] s2 Hs2. eapply result_message_wpe; [done| |done].
    intros m s3 Hid Hs3. wpe_step. eapply wpe_mono; [by apply IH| |done].
    intros ms s4 [Hms Hs4]. wpe_step. cbn. rewrite Hid, Hms. split; [done|].
    by rewrite <- app_assoc in Hs4.
Qed.

Definition never_aborts : Prop := ∀ w, (env_aborted env w).1 = false.

Lemma aborted_wpe (Q : bool → state → Prop) R s :
  (∀ a w, (never_aborts → a = false) → Q a (set_world w s)) → wpe (aborted env) Q R s.
Proof.
  intros HQ. unfold wpe, aborted, lift_pure. destruct (env_aborted env (ls_world s)) as [a w] eqn:Ha.
  apply HQ. intros Hn. specialize (Hn (ls_world s)). by rewrite Ha in Hn.
Qed.

Lemma execute_sequential_wpe message calls : ∀ done s,
  pt [] done s →
  wpe (execute_sequential env message calls)
    (λ fms s', map tr_tool_call_id fms.*2 `prefix_of` map tc_id calls ∧
               (never_aborts → map tr_tool_call_id fms.*2 = map tc_id calls) ∧
               pt [] (done ++ map ToolResultMsg fms.*2) s') raised s.
Proof.
  induction calls as [|call calls IH]; intros done s Hs; cbn [execute_sequential].
  - wpe_step. by rewrite app_nil_r.
  - wpe_step. eapply wpe_mono; [by eapply emit_tool_start_wpe| |intros ? ? Hraise; exact (pt_raised _ _ _ _ Hraise)].
    intros [] s1 Hs1. cbn [app] in Hs1. wpe_step.
    eapply wpe_mono; [by apply prepare_tool_call_wpe| |done].
    intros p s2 [Hid Hs2]. wpe_step.
    apply (wpe_mono _ (λ f s', tc_id (fin_tool_call f) = tc_id call ∧ pt [] done s') _ raised).
    { destruct p as [p|o]; cbn [prepared_call] in Hid.
      - wpe_step. eapply wpe_mono; [by apply start_tool_wpe| |done].
        intros r s3 (Hr & _ & Hs3). unfold finish_and_finalize.
        assert (tc_id (prep_tool_call (run_prepared r)) = tc_id call) as Hrid by congruence.
        apply (wpe_assoc (finish_tool env r) (λ ex, finalize env message (run_prepared r) ex)).
        wpe_step. eapply wpe_mono; [eapply end_call_wpe; [done|]| |intros ? ? Hraise; exact (pt_raised _ _ _ _ Hraise)].
        { rewrite Hrid. by apply list_elem_of_singleton. }
        intros f s4 [Hf Hs4]. wpe_step.
        eapply wpe_mono; [eapply (emit_tool_end_wpe _ [tc_id call] []); [done|by rewrite Hf, Hrid]| |
          intros ? ? Hraise; exact (pt_raised _ _ _ _ Hraise)].
        intros [] s5 Hs5. wpe_step. split; [congruence|done].
      - wpe_step.
        eapply wpe_mono; [eapply (emit_tool_end_wpe _ [tc_id call] []); [done|cbn; by rewrite Hid]| |
          intros ? ? Hraise; exact (pt_raised _ _ _ _ Hraise)].
        intros [] s3 Hs3. by wpe_step. }
    2: done.
    intros f s3 [Hf Hs3]. eapply result_message_wpe; [done| |done].
    intros m s4 Hm Hs4. wpe_step. apply aborted_wpe. intros a w Ha.
    apply (pt_world _ _ w) in Hs4. destruct a; cbv iota.
    + wpe_step. cbn. split_and!; [|by intros ?%Ha|done].
      rewrite Hm, Hf. by apply prefix_cons, prefix_nil.
    + wpe_step. eapply wpe_mono; [by apply IH| |done].
      intros fms s5 (Hpre & Heq & Hs5). wpe_step. cbn. rewrite Hm, Hf. split_and!.
      * by apply prefix_cons.
      * intros Hn. by rewrite Heq.
      * by rewrite <- app_assoc in Hs5.
Qed.

Lemma result_messages_wpe ordered : ∀ done s,
  pt [] done s →
  wpe (result_messages env ordered)
    (λ ms s', map tr_tool_call_id ms = map (λ f, tc_id (fin_tool_call f)) ordered ∧
              pt [] (done ++ map ToolResultMsg ms) s') raised s.
Proof.
  induction ordered as [|f ordered IH]; intros done s Hs; cbn [result_messages].
  - wpe_step. by rewrite app_nil_r.
  - eapply result_message_wpe; [done| |done]. intros m s1 Hm Hs1. wpe_step.
    eapply wpe_mono; [by apply IH| |done]. intros ms s2 [Hms Hs2]. wpe_step. cbn.
    rewrite Hm, Hms. split; [done|]. by rewrite <- app_assoc in Hs2.
Qed.

(** ** Parallel execution *)

Section parallel.
Variable message : AssistantMessage.
Variable calls : list ToolCall.
Variable capacity : nat.
Variable done : list AgentMessage.

Definition queue_entry (x : nat * PreparedToolCall) : nat * string :=
  (x.1, tc_id (prep_tool_call x.2)).

Definition worker_entry (w : Worker) : nat * string :=
  match w with
  | Busy r => (run_index r, tc_id (prep_tool_call (run_prepared r)))
  | Ended i f => (i, tc_id (fin_tool_call f))
  end.

(** The calls prepared and not yet reported, with their identifiers. *)
Definition inflight (p : ParState) : list (nat * string) :=
  map queue_entry (ps_queue p) ++ map worker_entry (ps_workers p).

Definition announced_ids (p : ParState) : list string :=
  match ps_announced p with Some (_, c) => [tc_id c] | None => [] end.

Definition call_has_id (i : nat) (id : string) : Prop := tc_id <$> calls !! i = Some id.

(** The calls still to be announced are those from index [n] on, unless the run was
    aborted. *)
Definition todo_from (p : ParState) (n : nat) : Prop :=
  (n ≤ length calls)%nat ∧
  (ps_todo p = zip (seq n (length calls - n)) (drop n calls) ∨
   (ps_todo p = [] ∧ ¬ never_aborts)).

Record par_inv (p : ParState) (tools : list string) : Prop := {
  pi_todo : match ps_announced p with
            | Some (i, c) => i = ps_scheduled p ∧ calls !! i = Some c ∧ todo_from p (S i)
            | None => todo_from p (ps_scheduled p)
            end;
  pi_entries : Forall (λ e, call_has_id e.1 e.2) (inflight p);
  pi_slots : map_Forall (λ i f, call_has_id i (tc_id (fin_tool_call f))) (ps_slots p);
  pi_covered : ps_failed p = None → ∀ i, (i < ps_scheduled p)%nat →
    is_Some (ps_slots p !! i) ∨ i ∈ (inflight p).*1;
  pi_tools : ∃ dead, tools ≡ₚ announced_ids p ++ (inflight p).*2 ++ dead ∧
    (ps_failed p = None → dead = []);
  pi_failed : ps_failed p ≠ None → producing p = true;
  pi_capacity : ps_failed p = None → ps_capacity p = capacity
}.

Definition pstate (p : ParState) (s : state) : Prop :=
  ∃ tools, pt tools done s ∧ par_inv p tools.

Lemma pstate_raised e p s : pstate p s → raised e s.
Proof. intros (tools & Hs & _). by eapply pt_raised. Qed.

Lemma zip_todo n c rest i :
  zip (seq n (length calls - n)) (drop n calls) = (i, c) :: rest →
  (n < length calls)%nat ∧ i = n ∧ calls !! n = Some c ∧
  rest = zip (seq (S n) (length calls - S n)) (drop (S n) calls).
Proof.
  intros H. assert (n < length calls)%nat as Hn.
  { destruct (decide (n < length calls)%nat); [done|].
    rewrite drop_ge in H by lia. by rewrite zip_with_nil_r in H. }
  destruct (lookup_lt_is_Some_2 calls n Hn) as [d Hd].
  rewrite (drop_S _ d) in H by done.
  replace (length calls - n)%nat with (S (length calls - S n)) in H by lia.
  cbn in H. injection H as <- <- <-. done.
Qed.

Lemma announce_wpe p s :
  pstate p s →
  wpe (announce env p)
    (λ p' s', pstate p' s' ∧ ps_workers p' = ps_workers p ∧ ps_queue p' = ps_queue p ∧
       (ps_announced p = None → length (ps_todo p') = Nat.pred (length (ps_todo p)) ∧
          (ps_todo p = [] → ps_announced p' = None)))
    raised s.
Proof.
  intros (tools & Hs & Hp). unfold announce.
  destruct (ps_announced p) as [[i c]|] eqn:Ha.
  { wpe_step. split_and!; [by exists tools|done|done|done]. }
  destruct (ps_todo p) as [|[i c] rest] eqn:Ht.
  { wpe_step. split_and!; [by exists tools|done|done|]. intros _. by rewrite Ht. }
  wpe_step. eapply wpe_mono; [by eapply emit_tool_start_wpe| |
    intros ? ? Hraise; exact (pt_raised _ _ _ _ Hraise)].
  intros [] s1 Hs1. wpe_step. split_and!; [|done|done|done].
  exists (tools ++ [tc_id c]). split; [done|]. destruct Hp. rewrite Ha in pi_todo0.
  destruct pi_todo0 as [Hle [Hzip|[Hnil _]]]; [|by rewrite Ht in Hnil].
  rewrite Ht in Hzip. symmetry in Hzip. apply zip_todo in Hzip as (Hn & -> & Hc & ->).
  constructor; cbn; try done.
  - split_and!; [done|done|]. split; [lia|by left].
  - destruct pi_tools0 as (dead & Htools & Hdead). exists dead. split; [|done].
    unfold announced_ids in *. rewrite Ha in Htools. cbn in *. rewrite Htools.
    by rewrite <- Permutation_cons_append.
  - intros _. unfold producing. cbn. by case_match.
Qed.

Lemma todo_from_nil p p' n m :
  todo_from p n → ps_todo p' = [] → (m ≤ length calls)%nat → ¬ never_aborts → todo_from p' m.
Proof. intros _ Ht Hm Hn. split; [done|]. by right. Qed.

(** What the workers' steps leave as it was. *)
Definition producer_same (p p' : ParState) : Prop :=
  ps_todo p' = ps_todo p ∧ ps_announced p' = ps_announced p.

(** The state after the [k]th busy worker has died. *)
Definition died_state (k : nat) (e : exn) (p : ParState) : ParState :=
  {| ps_todo := ps_todo p; ps_announced := ps_announced p; ps_scheduled := ps_scheduled p;
     ps_queue := ps_queue p; ps_workers := delete k (ps_workers p);
     ps_capacity := Nat.pred (ps_capacity p); ps_slots := ps_slots p;
     ps_failed := Some (default e (ps_failed p)) |}.

(** Its tool may stay open, or be closed by the event whose delivery failed. *)
Lemma died_inv k w e p tools tools' :
  par_inv p tools → ps_workers p !! k = Some w → producing p = true →
  (tools' = tools ∨ tools ≡ₚ (worker_entry w).2 :: tools') → par_inv (died_state k e p) tools'.
Proof.
  intros Hp Hk Hprod Htools'. pose proof (delete_Permutation _ _ _ Hk) as Hperm.
  assert (inflight p ≡ₚ worker_entry w :: inflight (died_state k e p)) as Hin.
  { unfold inflight. cbn. change (map worker_entry) with (fmap (M:=list) worker_entry).
    rewrite Hperm at 1. cbn. by rewrite <- Permutation_middle. }
  destruct Hp. constructor; try done.
  - rewrite Hin in pi_entries0. by apply Forall_cons in pi_entries0 as [_ ?].
  - destruct pi_tools0 as (dead & Htools & _). rewrite Hin in Htools. cbn in Htools.
    rewrite <- Permutation_middle in Htools. destruct Htools' as [->|Hopen].
    + exists ((worker_entry w).2 :: dead). split; [|done]. rewrite Htools. unfold announced_ids.
      cbn. rewrite !Permutation_middle. done.
    + exists dead. split; [|done]. rewrite Hopen in Htools. by apply Permutation_cons_inv in Htools.
Qed.

Lemma worker_died_wpe k w e p tools tools' s :
  par_inv p tools → ps_workers p !! k = Some w → pt tools' done s →
  (tools' = tools ∨ tools ≡ₚ (worker_entry w).2 :: tools') →
  wpe (worker_died k e p)
    (λ p' s', pstate p' s' ∧ producer_same p p' ∧ producing p = true) raised s.
Proof.
  intros Hp Hk Hs Htools'. unfold worker_died.
  destruct (producing p) eqn:Hprod; wpe_step; [|by eapply pt_raised].
  split_and!; [|done|done]. exists tools'. split; [done|]. by eapply died_inv.
Qed.

(** The state after the producer has prepared the call it announced. *)
Definition prepared_state (p : ParState) (i : nat) (stop : bool)
    (queue : list (nat * PreparedToolCall)) (slots : gmap nat Finalized) : ParState :=
  {| ps_todo := if stop then [] else ps_todo p; ps_announced := None; ps_scheduled := S i;
     ps_queue := queue; ps_workers := ps_workers p; ps_capacity := ps_capacity p;
     ps_slots := slots; ps_failed := ps_failed p |}.

Lemma prepared_todo p i c stop queue slots tools :
  par_inv p tools → ps_announced p = Some (i, c) → (never_aborts → stop = false) →
  todo_from (prepared_state p i stop queue slots) (S i).
Proof.
  intros Hp Ha Hstop. destruct Hp. rewrite Ha in pi_todo0.
  destruct pi_todo0 as (-> & _ & Hle & Htodo). split; [done|]. cbn.
  destruct stop; [right; split; [done|by intros ?%Hstop]|done].
Qed.

Lemma prepared_slot p i c stop f tools tools' :
  par_inv p tools → ps_announced p = Some (i, c) → tc_id (fin_tool_call f) = tc_id c →
  (never_aborts → stop = false) → tools ≡ₚ tc_id c :: tools' →
  (ps_failed p ≠ None → producing (prepared_state p i stop (ps_queue p) (<[i := f]> (ps_slots p))) = true) →
  par_inv (prepared_state p i stop (ps_queue p) (<[i := f]> (ps_slots p))) tools'.
Proof.
  intros Hp Ha Hid Hstop Htools Hprod.
  pose proof (prepared_todo p i c stop (ps_queue p) (<[i := f]> (ps_slots p)) tools Hp Ha Hstop) as Ht.
  destruct Hp. rewrite Ha in pi_todo0. destruct pi_todo0 as (-> & Hc & _).
  constructor; try done.
  - apply map_Forall_insert_2; [|done]. unfold call_has_id. by rewrite Hc, Hid.
  - cbn. intros Hf j Hj. destruct (decide (j = ps_scheduled p)) as [->|Hne].
    + left. rewrite lookup_insert_eq. by eexists.
    + rewrite lookup_insert_ne by done. apply pi_covered0; [done|lia].
  - destruct pi_tools0 as (dead & Hd & Hdead). exists dead. split; [|done].
    unfold announced_ids in Hd. rewrite Ha, Htools in Hd. cbn in *.
    by apply Permutation_cons_inv in Hd.
Qed.

Lemma prepared_queue p i c stop prep tools :
  par_inv p tools → ps_announced p = Some (i, c) → tc_id (prep_tool_call prep) = tc_id c →
  (never_aborts → stop = false) →
  (ps_failed p ≠ None →
     producing (prepared_state p i stop (ps_queue p ++ [(i, prep)]) (ps_slots p)) = true) →
  par_inv (prepared_state p i stop (ps_queue p ++ [(i, prep)]) (ps_slots p)) tools.
Proof.
  intros Hp Ha Hid Hstop Hprod.
  pose proof (prepared_todo p i c stop (ps_queue p ++ [(i, prep)]) (ps_slots p) tools Hp Ha Hstop) as Ht.
  destruct Hp. rewrite Ha in pi_todo0. destruct pi_todo0 as (-> & Hc & _).
  assert (inflight (prepared_state p (ps_scheduled p) stop (ps_queue p ++ [(ps_scheduled p, prep)])
    (ps_slots p)) ≡ₚ (ps_scheduled p, tc_id c) :: inflight p) as Hin.
  { unfold inflight. cbn. rewrite map_app. cbn. unfold queue_entry at 2. cbn. rewrite Hid.
    rewrite <- (assoc_L (++)). cbn. by rewrite <- Permutation_middle. }
  constructor; try done.
  - rewrite Hin. constructor; [|done]. unfold call_has_id. cbn. by rewrite Hc.
  - cbn. intros Hf j Hj. rewrite Hin. cbn. destruct (decide (j = ps_scheduled p)) as [->|Hne].
    + right. apply list_elem_of_here.
    + destruct (pi_covered0 Hf j); [lia|by left|right; by apply list_elem_of_further].
  - destruct pi_tools0 as (dead & Hd & Hdead). exists dead. split; [|done].
    unfold announced_ids in *. rewrite Ha in Hd. cbn in *. by rewrite Hin, Hd.
Qed.

Lemma prepare_announced_wpe p s :
  pstate p s →
  wpe (prepare_announced env message p)
    (λ p' s', pstate p' s' ∧ ps_workers p' = ps_workers p ∧ ps_announced p' = None ∧
       (ps_todo p' = ps_todo p ∨ ps_todo p' = [])) raised s.
Proof.
  intros (tools & Hs & Hp). unfold prepare_announced.
  destruct (ps_announced p) as [[i c]|] eqn:Ha.
  2:{ wpe_step. split_and!; [by exists tools|done|done|by left]. }
  wpe_step. eapply wpe_mono; [by apply prepare_tool_call_wpe| |done].
  intros preparation s1 [Hid Hs1]. wpe_step.
  apply (wpe_mono _ (λ d s', ∃ tools', pt tools' done s' ∧
    ∀ stop, (never_aborts → stop = false) →
      (ps_failed p ≠ None → producing (prepared_state p i stop d.1 d.2) = true) →
      par_inv (prepared_state p i stop d.1 d.2) tools') _ raised).
  - destruct preparation as [prep|o]; cbn [prepared_call] in Hid.
    + wpe_step. exists tools. split; [done|]. intros stop Hstop Hprod. by eapply prepared_queue.
    + wpe_step. assert (∃ tools', tools ≡ₚ tc_id c :: tools') as [tools' Htools].
      { destruct Hp. destruct pi_tools0 as (dead & Hd & _). unfold announced_ids in Hd.
        rewrite Ha in Hd. by eexists. }
      eapply wpe_mono; [eapply emit_tool_end_wpe; [exact Hs1|cbn; rewrite Hid; exact Htools]| |
        intros ? ? Hraise; exact (pt_raised _ _ _ _ Hraise)].
      intros [] s2 Hs2. wpe_step. exists tools'. split; [done|]. intros stop Hstop Hprod.
      by eapply prepared_slot.
  - intros [queue slots] s2 (tools' & Hs2 & Hinv). wpe_step. apply aborted_wpe. intros a w Hab.
    apply (pt_world _ _ w) in Hs2. cbv beta zeta.
    change {| ps_todo := _ |} with (prepared_state p i a queue slots).
    destruct (ps_failed p) as [e|] eqn:Hf.
    + destruct (producing (prepared_state p i a queue slots)) eqn:Hprod; wpe_step;
        [|by eapply pt_raised].
      split_and!; [|done|done|cbn; destruct a; auto]. exists tools'. split; [done|]. by apply Hinv.
    + wpe_step. split_and!; [|done|done|cbn; destruct a; auto]. exists tools'. split; [done|].
      by apply Hinv.
  - done.
Qed.

Lemma take_work_wpe p s :
  pstate p s →
  wpe (take_work env p)
    (λ p' s', pstate p' s' ∧ producer_same p p' ∧
       (ps_queue p = [] → p' = p) ∧
       (ps_workers p = [] → (0 < ps_capacity p)%nat → ps_queue p ≠ [] →
          length (ps_workers p') = 1%nat ∧ ps_queue p' = tail (ps_queue p))) raised s.
Proof.
  intros (tools & Hs & Hp). unfold take_work.
  destruct (ps_queue p) as [|[i prep] rest] eqn:Hq.
  { wpe_step. split_and!; [by exists tools|done|done|done]. }
  destruct (Nat.ltb_spec (length (ps_workers p)) (ps_capacity p)) as [Hlt|Hge].
  2:{ wpe_step. split_and!; [by exists tools|done|done|]. intros Hw Hc _. rewrite Hw in Hge. cbn in Hge. lia. }
  wpe_step. eapply wpe_mono; [by apply start_tool_wpe| |done].
  intros r s1 (Hr & Hi & Hs1). wpe_step. split_and!; [|done|done|intros ->; done].
  exists tools. split; [done|].
  assert (inflight {| ps_todo := ps_todo p; ps_announced := ps_announced p;
    ps_scheduled := ps_scheduled p; ps_queue := rest; ps_workers := ps_workers p ++ [Busy r];
    ps_capacity := ps_capacity p; ps_slots := ps_slots p; ps_failed := ps_failed p |} ≡ₚ inflight p) as Hin.
  { unfold inflight. cbn. rewrite Hq, map_app. cbn. rewrite Hr, Hi. unfold queue_entry at 2. cbn.
    rewrite (assoc_L (++)). by rewrite <- Permutation_cons_append. }
  destruct Hp. constructor; try done; cbn [ps_scheduled ps_failed ps_slots].
  - by rewrite Hin.
  - intros Hf j Hj. rewrite Hin. by apply pi_covered0.
  - destruct pi_tools0 as (dead & Hd & Hdead). exists dead. split; [|done].
    by rewrite Hin, Hd.
Qed.

Lemma insert_worker_inv p k w w' tools :
  par_inv p tools → ps_workers p !! k = Some w → worker_entry w' = worker_entry w →
  par_inv (with_workers (<[k := w']> (ps_workers p)) p) tools.
Proof.
  intros Hp Hk Hw.
  assert (inflight (with_workers (<[k := w']> (ps_workers p)) p) = inflight p) as Hin.
  { unfold inflight. cbn. f_equal. change (map worker_entry) with (fmap (M:=list) worker_entry).
    rewrite list_fmap_insert, Hw. apply list_insert_id. by rewrite list_lookup_fmap, Hk. }
  destruct Hp. constructor; try done; rewrite ?Hin; done.
Qed.

Lemma worker_open p k w tools :
  par_inv p tools → ps_workers p !! k = Some w → (worker_entry w).2 ∈ tools.
Proof.
  intros Hp Hk. destruct Hp. destruct pi_tools0 as (dead & -> & _).
  apply elem_of_app. right. apply elem_of_app. left. apply list_elem_of_fmap_2.
  unfold inflight. apply elem_of_app. right.
  apply (list_elem_of_fmap_2 worker_entry). by eapply list_elem_of_lookup_2.
Qed.

Lemma deliver_one_wpe k p s :
  pstate p s →
  wpe (deliver_one env k p)
    (λ p' s', pstate p' s' ∧ producer_same p p') raised s.
Proof.
  intros (tools & Hs & Hp). unfold deliver_one.
  destruct (ps_workers p !! k) as [[r|i f]|] eqn:Hk; try (wpe_step; split; [by exists tools|done]).
  wpe_step. eapply wpe_mono; [eapply deliver_update_wpe; [exact Hs|]| |done].
  { by apply (worker_open _ _ _ _ Hp Hk). }
  intros r' s1 (Hr & Hi & Hs1). wpe_step. split; [|done]. exists tools. split; [done|].
  eapply insert_worker_inv; [done..|]. cbn. by rewrite Hr, Hi.
Qed.

Lemma end_tool_wpe k p s :
  pstate p s →
  wpe (end_tool env message k p)
    (λ p' s', pstate p' s' ∧ producer_same p p' ∧
       (producing p = false → ps_queue p' = ps_queue p ∧ length (ps_workers p') = length (ps_workers p) ∧
          ∀ w, ps_workers p' !! k = Some w → ∃ i f, w = Ended i f)) raised s.
Proof.
  intros (tools & Hs & Hp). unfold end_tool.
  destruct (ps_workers p !! k) as [[r|i f]|] eqn:Hk;
    try (wpe_step; split_and!; [by exists tools|done|]; intros _; split_and!; [done..|];
         intros w Hw; rewrite Hk in Hw; simplify_eq; eauto).
  pose proof (worker_open _ _ _ _ Hp Hk) as Hopen. cbn in Hopen.
  pose proof (end_call_wpe message r tools done s Hs Hopen) as Hend.
  unfold wpe, worker_step in *.
  match type of Hend with context [match ?x with _ => _ end] => destruct x as [[f|e] s1] end.
  - destruct Hend as [Hf Hs1]. split_and!; [|done|].
    + exists tools. split; [done|]. eapply insert_worker_inv; [done..|]. cbn. by rewrite Hf.
    + intros _. cbn. rewrite length_insert. split_and!; [done..|]. intros w.
      rewrite list_lookup_insert_eq by (by eapply lookup_lt_Some). intros [= <-]. eauto.
  - eapply wpe_mono; [eapply (worker_died_wpe k (Busy r)); [done..|by left]| |done].
    intros p' s' (? & ? & ->). by split_and!.
Qed.

Lemma report_end_wpe k p s :
  pstate p s →
  wpe (report_end env k p)
    (λ p' s', pstate p' s' ∧ producer_same p p' ∧
       (producing p = false → ps_queue p' = ps_queue p ∧ (ps_workers p = [] → p' = p) ∧
          ∀ i f, ps_workers p !! k = Some (Ended i f) →
            length (ps_workers p') = Nat.pred (length (ps_workers p)))) raised s.
Proof.
  intros (tools & Hs & Hp). unfold report_end.
  destruct (ps_workers p !! k) as [[r|i f]|] eqn:Hk;
    try (wpe_step; split_and!; [by exists tools|done|]; intros _; by split_and!).
  pose proof (worker_open _ _ _ _ Hp Hk) as Hopen. cbn in Hopen.
  apply elem_of_Permutation in Hopen as [tools' Htools].
  pose proof (emit_tool_end_wpe f tools tools' done s Hs Htools) as Hend.
  pose proof (delete_Permutation _ _ _ Hk) as Hperm.
  unfold wpe, worker_step in *. destruct (emit_tool_end env f s) as [[[]|e] s1].
  - split_and!; [|done|].
    2:{ intros _. cbn. split_and!; [done|by intros Hnil; rewrite Hnil in Hk|]. intros ? ? _. apply lookup_lt_Some in Hk.
        rewrite length_delete by (by eapply lookup_lt_is_Some_2). lia. }
    exists tools'. split; [done|].
    match goal with |- par_inv ?q _ => set (p' := q) end.
    assert (inflight p ≡ₚ (i, tc_id (fin_tool_call f)) :: inflight p') as Hin.
    { unfold inflight. cbn. change (map worker_entry) with (fmap (M:=list) worker_entry).
      rewrite Hperm at 1. cbn. by rewrite <- Permutation_middle. }
    destruct Hp. rewrite Hin in pi_entries0. apply Forall_cons in pi_entries0 as [Hi Hrest].
    constructor; try done.
    + by apply map_Forall_insert_2.
    + cbn. intros Hf j Hj. destruct (decide (j = i)) as [->|Hne].
      * left. rewrite lookup_insert_eq. by eexists.
      * rewrite lookup_insert_ne by done. destruct (pi_covered0 Hf j Hj) as [?|Hj']; [by left|right].
        rewrite Hin in Hj'. cbn in Hj'. by apply elem_of_cons in Hj' as [->|?].
    + destruct pi_tools0 as (dead & Hd & Hdead). exists dead. split; [|done].
      rewrite Hin, Htools in Hd. cbn in Hd. rewrite <- Permutation_middle in Hd.
      by apply Permutation_cons_inv in Hd.
  - eapply wpe_mono; [eapply (worker_died_wpe k (Ended i f)); [done..|by right]| |done].
    intros p' s' (? & ? & ->). by split_and!.
Qed.

Lemma par_step_wpe a p s :
  pstate p s → wpe (par_step env message a p) pstate raised s.
Proof.
  intros Hs. destruct a; cbn [par_step]; eapply wpe_mono;
    first [by apply announce_wpe | by apply prepare_announced_wpe | by apply take_work_wpe
          | by apply deliver_one_wpe | by apply end_tool_wpe | by apply report_end_wpe | done | idtac].
  all: intros p' s' Hpost; exact (proj1 Hpost).
Qed.

Lemma par_run_wpe schedule : ∀ p s,
  pstate p s → wpe (par_run env message schedule p) pstate raised s.
Proof.
  induction schedule as [|a rest IH]; intros p s Hs; cbn [par_run]; [by wpe_step|].
  wpe_step. eapply wpe_mono; [by apply par_step_wpe| |done]. intros p' s' Hs'. by apply IH.
Qed.

Lemma par_run_app l1 l2 p (Q : ParState → state → Prop) R s :
  wpe (par_run env message l1 p) (λ p' s', wpe (par_run env message l2 p') Q R s') R s →
  wpe (par_run env message (l1 ++ l2) p) Q R s.
Proof.
  revert p s. induction l1 as [|a l1 IH]; intros p s; cbn [par_run app]; [done|].
  unfold wpe at 1 3, mbind, st_bind. intros H.
  destruct (par_step env message a p s) as [[p'|e] s']; [by apply IH|done].
Qed.

Lemma producing_false p : producing p = false ↔ ps_todo p = [] ∧ ps_announced p = None.
Proof. unfold producing. destruct (ps_todo p), (ps_announced p); split; try done; by intros []. Qed.

Lemma producer_same_producing p p' : producer_same p p' → producing p' = producing p.
Proof. intros [H1 H2]. unfold producing. by rewrite H1, H2. Qed.

Lemma complete_producer n : ∀ p s,
  pstate p s → ps_announced p = None → (length (ps_todo p) ≤ n)%nat →
  wpe (par_run env message (repeat_action n [Announce; Prepare]) p)
    (λ p' s', pstate p' s' ∧ producing p' = false) raised s.
Proof.
  induction n as [|n IH]; intros p s Hs Ha Hn; cbn [repeat_action app par_run].
  - wpe_step. split; [done|]. apply producing_false. by destruct (ps_todo p); [|cbn in Hn; lia].
  - wpe_step. eapply wpe_mono; [by apply announce_wpe| |done].
    intros p1 s1 (Hs1 & _ & _ & Hann). destruct (Hann Ha) as [Hlen _]. wpe_step.
    eapply wpe_mono; [by apply prepare_announced_wpe| |done].
    intros p2 s2 (Hs2 & _ & Ha2 & Htodo). apply IH; [done|done|].
    destruct Htodo as [->| ->]; cbn; lia.
Qed.

Lemma complete_workers n : ∀ p s,
  pstate p s → producing p = false → (length (ps_workers p) ≤ n)%nat →
  wpe (par_run env message (repeat_action n [EndTool 0; Report 0]) p)
    (λ p' s', pstate p' s' ∧ producing p' = false ∧ ps_workers p' = [] ∧ ps_queue p' = ps_queue p)
    raised s.
Proof.
  induction n as [|n IH]; intros p s Hs Hp Hn; cbn [repeat_action app par_run].
  - wpe_step. split_and!; [done|done| |done]. by destruct (ps_workers p); [|cbn in Hn; lia].
  - wpe_step. eapply wpe_mono; [by apply end_tool_wpe| |done].
    intros p1 s1 (Hs1 & Hsame1 & H1). destruct (H1 Hp) as (Hq1 & Hl1 & Hw1).
    assert (producing p1 = false) as Hp1 by (by rewrite (producer_same_producing _ _ Hsame1)).
    wpe_step. eapply wpe_mono; [by apply report_end_wpe| |done].
    intros p2 s2 (Hs2 & Hsame2 & H2). destruct (H2 Hp1) as (Hq2 & Hnil & Hl2).
    assert (producing p2 = false) as Hp2 by (by rewrite (producer_same_producing _ _ Hsame2)).
    eapply wpe_mono; [apply IH; [done|done|]| |done].
    + destruct (ps_workers p1) as [|w ws] eqn:Hw; [rewrite Hnil by done; rewrite Hw; cbn; lia|].
      destruct (Hw1 w eq_refl) as (i & f & ->). rewrite (Hl2 i f eq_refl). cbn in *. lia.
    + intros p' s' (? & ? & ? & Hq). split_and!; [done..|congruence].
Qed.

Lemma par_run_one p (Q : ParState → state → Prop) R s : Q p s → wpe (par_run env message [] p) Q R s.
Proof. done. Qed.

Lemma complete_queue n : ∀ p s,
  (0 < capacity)%nat →
  pstate p s → producing p = false → ps_workers p = [] → (length (ps_queue p) ≤ n)%nat →
  wpe (par_run env message (repeat_action n [Take; EndTool 0; Report 0]) p)
    (λ p' s', pstate p' s' ∧ producing p' = false ∧ inflight p' = []) raised s.
Proof.
  intros p s Hcap. revert p s.
  induction n as [|n IH]; intros p s Hs Hp Hw Hn.
  - split_and!; [done|done|]. unfold inflight. rewrite Hw.
    by destruct (ps_queue p); [|cbn in Hn; lia].
  - assert (ps_capacity p = capacity) as Hpc.
    { destruct Hs as (tools & _ & []). apply pi_capacity0.
      destruct (ps_failed p); [|done]. by rewrite pi_failed0 in Hp. }
    change (repeat_action (S n) [Take; EndTool 0; Report 0]) with
      ([Take] ++ repeat_action 1 [EndTool 0; Report 0] ++ repeat_action n [Take; EndTool 0; Report 0]).
    apply par_run_app. cbn [par_run]. wpe_step. eapply wpe_mono; [by apply take_work_wpe| |done].
    intros p1 s1 (Hs1 & Hsame1 & Hempty & Htake). wpe_step.
    assert (producing p1 = false) as Hp1 by (by rewrite (producer_same_producing _ _ Hsame1)).
    assert (length (ps_workers p1) ≤ 1 ∧ length (ps_queue p1) ≤ n)%nat as [Hw1 Hq1].
    { destruct (ps_queue p) as [|x q] eqn:Hq.
      - rewrite Hempty by done. rewrite Hw, Hq. cbn. lia.
      - destruct (Htake Hw ltac:(lia) ltac:(done)) as [-> ->]. cbn in *. lia. }
    apply par_run_app. eapply wpe_mono; [by apply complete_workers| |done].
    intros p2 s2 (Hs2 & Hp2 & Hw2 & Hq2). apply IH; [done..|]. by rewrite Hq2.
Qed.

Lemma ordered_ids (slots : gmap nat Finalized) n :
  (n ≤ length calls)%nat →
  map_Forall (λ i f, call_has_id i (tc_id (fin_tool_call f))) slots →
  (∀ i, (i < n)%nat → is_Some (slots !! i)) →
  map (λ f, tc_id (fin_tool_call f)) (omap (λ i, slots !! i) (seq 0 n)) = map tc_id (take n calls).
Proof.
  intros Hn Hslots. induction n as [|n IH]; intros Hall; [done|].
  rewrite seq_S, omap_app, map_app, IH; [|lia|intros i Hi; apply Hall; lia].
  destruct (Hall n ltac:(lia)) as [f Hf]. cbn. rewrite Hf. cbn.
  specialize (Hslots _ _ Hf). unfold call_has_id in Hslots.
  destruct (calls !! n) as [c|] eqn:Hc; [|done]. cbn in Hslots. injection Hslots as Hslots.
  rewrite (take_S_r _ _ c) by done. rewrite map_app. cbn. by rewrite Hslots.
Qed.

Lemma par_complete_wpe p s :
  (0 < capacity)%nat → pstate p s →
  wpe (par_complete env message p)
    (λ p' s', pstate p' s' ∧ producing p' = false ∧ inflight p' = []) raised s.
Proof.
  intros Hcap Hs. unfold par_complete. wpe_step. cbn [par_run]. wpe_step.
  eapply wpe_mono; [by apply prepare_announced_wpe| |done].
  intros p1 s1 (Hs1 & _ & Ha1 & Htodo).
  eapply wpe_mono; [apply complete_producer; [done|done|]| |done].
  { destruct Htodo as [->| ->]; cbn; lia. }
  intros p2 s2 (Hs2 & Hp2). wpe_step. eapply wpe_mono; [by apply complete_workers| |done].
  intros p3 s3 (Hs3 & Hp3 & Hw3 & _). by apply complete_queue.
Qed.

Lemma par_initial_inv : par_inv (par_initial capacity calls) [].
Proof.
  constructor; cbn; try done.
  - split; [lia|]. left. by rewrite Nat.sub_0_r.
  - intros _ i Hi. lia.
  - by exists [].
Qed.

Lemma par_done_inv p tools :
  par_inv p tools → producing p = false → inflight p = [] →
  tools = [] ∧
  let ordered := omap (λ i, ps_slots p !! i) (seq 0 (ps_scheduled p)) in
  map (λ f, tc_id (fin_tool_call f)) ordered = map tc_id (take (ps_scheduled p) calls) ∧
  (never_aborts → ps_scheduled p = length calls).
Proof.
  intros Hp Hprod Hin. apply producing_false in Hprod as Hpr. destruct Hpr as [Ht Ha].
  destruct Hp. assert (ps_failed p = None) as Hf.
  { destruct (ps_failed p); [|done]. by rewrite pi_failed0 in Hprod. }
  rewrite Ha in pi_todo0. destruct pi_todo0 as [Hle Htodo]. split; [|split].
  - destruct pi_tools0 as (dead & Htools & Hdead). unfold announced_ids in Htools.
    rewrite Ha, Hin, Hdead in Htools by done. cbn in Htools. by apply Permutation_nil_r in Htools.
  - apply ordered_ids; [done|done|]. intros i Hi. destruct (pi_covered0 Hf i Hi) as [?|Hi']; [done|].
    rewrite Hin in Hi'. by apply not_elem_of_nil in Hi'.
  - intros Hn. destruct Htodo as [Hz|[_ Hno]]; [|done]. rewrite Ht in Hz.
    apply (f_equal length) in Hz. rewrite length_zip_with, length_seq, length_drop in Hz. cbn in Hz. lia.
Qed.
End parallel.

Lemma execute_parallel_wpe message capacity calls done s :
  (0 < capacity)%nat → calls ≠ [] → pt [] done s →
  wpe (execute_parallel env message capacity calls)
    (λ b s', map tr_tool_call_id (batch_messages b) `prefix_of` map tc_id calls ∧
             (never_aborts → map tr_tool_call_id (batch_messages b) = map tc_id calls) ∧
             pt [] (done ++ map ToolResultMsg (batch_messages b)) s') raised s.
Proof.
  intros Hcap Hcalls Hs. unfold execute_parallel. wpe_step. apply lift_pure_wpe.
  intros schedule w. apply (pt_world _ _ w) in Hs.
  set (cap := Nat.min capacity (length calls)).
  assert (0 < cap)%nat by (destruct calls; [done|]; cbn in cap; lia).
  wpe_step. eapply wpe_mono; [apply (par_run_wpe message calls cap done)| |done].
  { exists []. split; [exact Hs|apply par_initial_inv]. }
  intros p s1 Hs1. wpe_step. eapply wpe_mono; [by apply par_complete_wpe| |done].
  intros p' s2 ((tools & Hs2 & Hp) & Hprod & Hin). cbv zeta. wpe_step.
  destruct (par_done_inv _ _ _ _ Hp Hprod Hin) as (-> & Hids & Hn).
  eapply wpe_mono; [by apply result_messages_wpe| |done].
  intros ms s3 [Hms Hs3]. wpe_step. cbn [batch_messages]. rewrite Hms. cbv zeta in Hids.
  rewrite Hids. split_and!; [|by intros ->%Hn; rewrite take_ge|done].
  exists (map tc_id (drop (ps_scheduled p') calls)). by rewrite <- map_app, take_drop.
Qed.

Lemma execute_tool_calls_wpe cfg message done s :
  tool_calls_of (am_content message) ≠ [] → pt [] done s →
  wpe (execute_tool_calls env cfg message)
    (λ b s', answers message (batch_messages b) ∧
             (never_aborts → map tr_tool_call_id (batch_messages b) =
                             map tc_id (tool_calls_of (am_content message))) ∧
             pt [] (done ++ map ToolResultMsg (batch_messages b)) s') raised s.
Proof.
  intros Hcalls Hs. unfold execute_tool_calls. cbv zeta. wpe_step. apply get_context_wpe.
  destruct (_ || _).
  - wpe_step. eapply wpe_mono; [by apply execute_sequential_wpe| |done].
    intros fms s' ?. by wpe_step.
  - eapply wpe_mono; [apply execute_parallel_wpe; [|done|exact Hs]|done|done].
    destruct (cfg_tool_execution_sequential cfg); lia.
Qed.
End tools.

(** ** The run *)

Section run.
Hypothesis Hsink : sink_ok.
Variable base : list AgentMessage.

(** No turn update replaces the context. *)
Definition no_swap : Prop := env_prepare_next_turn env = None.

(** Between the steps of the run: nothing open but the phase, the new messages are
    the messages that have ended, and the context has been extended by them. *)
Definition run_state (phase : trace_phase) (done : list AgentMessage) (s : state) : Prop :=
  at_state {| t_phase := phase; t_tools := []; t_done := done |} s ∧ ls_new s = done ∧
  (no_swap → ctx_messages (ls_context s) = base ++ done).

Lemma run_state_world w phase done s : run_state phase done s → run_state phase done (set_world w s).
Proof. done. Qed.

Lemma run_state_raised e phase done s : run_state phase done s → raised e s.
Proof. intros [? _]. by eexists. Qed.

Lemma emit_run_wpe e phase phase' done s (Q : unit → state → Prop) :
  run_state phase done s →
  trace_step {| t_phase := phase; t_tools := []; t_done := done |} e
    {| t_phase := phase'; t_tools := []; t_done := done |} →
  (∀ s', run_state phase' done s' → Q tt s') →
  wpe (emit env e) Q raised s.
Proof.
  intros (Hq & Hn & Hc) Hstep HQ. eapply wpe_mono; [by eapply emit_wpe| |].
  - intros [] s' (Hq' & Hc' & Hn'). apply HQ. split; [done|]. rewrite Hc', Hn'. done.
  - intros e' s' (Hq' & _). by eexists.
Qed.

(** A message announced at once. *)
Lemma emit_message_wpe m done s (Q : unit → state → Prop) :
  at_state {| t_phase := InTurn; t_tools := []; t_done := done |} s →
  (∀ s', at_state {| t_phase := InTurn; t_tools := []; t_done := done ++ [m] |} s' →
     same_lists s s' → Q tt s') →
  wpe (_ ← emit env (MessageStartEvent m); emit env (MessageEndEvent m)) Q raised s.
Proof.
  intros Hq HQ. wpe_step. eapply wpe_mono; [eapply emit_wpe; [exact Hq|apply step_message_start]| |].
  - intros [] s1 (Hq1 & Hc1 & Hn1).
    eapply wpe_mono; [eapply emit_wpe; [exact Hq1|apply step_message_end]| |].
    + intros [] s2 (Hq2 & Hc2 & Hn2). apply HQ; [done|]. split; congruence.
    + intros e s2 (Hq2 & _). by eexists.
  - intros e s1 (Hq1 & _). by eexists.
Qed.

Lemma emit_message_then_wpe {A} m done s (k : m_of A) (Q : A → state → Prop) :
  at_state {| t_phase := InTurn; t_tools := []; t_done := done |} s →
  (∀ s', at_state {| t_phase := InTurn; t_tools := []; t_done := done ++ [m] |} s' →
     same_lists s s' → wpe k Q raised s') →
  wpe (_ ← emit env (MessageStartEvent m); _ ← emit env (MessageEndEvent m); k) Q raised s.
Proof.
  intros Hq Hk. apply (wpe_assoc (emit env (MessageStartEvent m)) (λ _, emit env (MessageEndEvent m))).
  wpe_step. by eapply emit_message_wpe.
Qed.

Lemma add_pending_wpe pending : ∀ done s,
  run_state InTurn done s →
  wpe (add_pending env pending) (λ _, run_state InTurn (done ++ pending)) raised s.
Proof.
  induction pending as [|m pending IH]; intros done s Hs; cbn [add_pending].
  - wpe_step. by rewrite app_nil_r.
  - destruct Hs as (Hq & Hn & Hc). eapply emit_message_then_wpe; [exact Hq|].
    intros s1 Hq1 [Hc1 Hn1]. wpe_step. apply append_message_wpe. wpe_step. wpe_step.
    eapply wpe_mono; [apply (IH (done ++ [m]))| |done].
    + split_and!; [done|cbn; congruence|]. intros Hno. cbn. rewrite Hc1, Hc by done.
      by rewrite (assoc_L (++)).
    + intros [] s2. by rewrite <- (assoc_L (++)).
Qed.

Lemma emit_messages_wpe ms : ∀ done s,
  at_state {| t_phase := InTurn; t_tools := []; t_done := done |} s →
  wpe (emit_messages env ms)
    (λ _ s', at_state {| t_phase := InTurn; t_tools := []; t_done := done ++ ms |} s' ∧ same_lists s s')
    raised s.
Proof.
  induction ms as [|m ms IH]; intros done s Hq; cbn [emit_messages].
  - wpe_step. by rewrite app_nil_r.
  - eapply emit_message_then_wpe; [exact Hq|]. intros s1 Hq1 [Hc1 Hn1].
    eapply wpe_mono; [by apply IH| |done]. intros [] s2 (Hq2 & Hc2 & Hn2).
    rewrite <- (assoc_L (++)) in Hq2. split; [done|]. split; congruence.
Qed.

Lemma add_results_wpe results (Q : unit → state → Prop) R : ∀ s,
  (∀ s', ls_trace s' = ls_trace s →
     ls_new s' = ls_new s ++ map ToolResultMsg results →
     ctx_messages (ls_context s') = ctx_messages (ls_context s) ++ map ToolResultMsg results →
     Q tt s') →
  wpe (add_results results) Q R s.
Proof.
  induction results as [|m results IH]; intros s HQ; cbn [add_results].
  - wpe_step. apply HQ; by rewrite ?app_nil_r.
  - wpe_step. apply append_message_wpe. wpe_step. wpe_step. apply IH.
    intros s' Ht Hn Hc. apply HQ; [done| |]; cbn in *; [rewrite Hn|rewrite Hc];
      by rewrite <- (assoc_L (++)).
Qed.

Definition turn_over (o : turn_outcome) (s : state) : Prop :=
  match o with
  | TurnOver => ∃ done, run_state AfterRun done s
  | TurnNext _ _ _ => ∃ done, run_state BetweenTurns done s
  end.

Lemma emit_agent_end_wpe {A} (a : A) done s (Q : A → state → Prop) :
  run_state BetweenTurns done s →
  (∀ s', run_state AfterRun done s' → Q a s') →
  wpe (_ ← emit_agent_end env; mret a) Q raised s.
Proof.
  intros Hs HQ. unfold emit_agent_end. wpe_step. wpe_step. apply get_new_wpe.
  rewrite (proj1 (proj2 Hs)).
  eapply emit_run_wpe; [done|constructor|]. intros s' Hs'. wpe_step. by apply HQ.
Qed.

(** What follows the end of a turn's tools. *)
Lemma after_turn_wpe cfg message batch done s :
  run_state BetweenTurns done s →
  wpe (a ← aborted env;
       if a : bool then _ ← emit_agent_end env; mret TurnOver
       else
         cfg' ← prepare_next_turn env cfg message (batch_messages batch);
         stop ← match env_should_stop env with
                | None => mret false
                | Some f => c ← get_context; lift (f message (batch_messages batch) c)
                end;
         if stop : bool then _ ← emit_agent_end env; mret TurnOver
         else
           pending ← lift (env_steering env);
           mret (TurnNext cfg' (negb (batch_terminate batch)) pending))
    turn_over raised s.
Proof.
  intros Hs. wpe_step. apply lift_pure_wpe. intros a w. apply (run_state_world w) in Hs.
  destruct a.
  { eapply emit_agent_end_wpe; [done|]. intros s' Hs'. by exists done. }
  wpe_step. apply (wpe_mono _ (λ _, run_state BetweenTurns done) _ raised).
  { unfold prepare_next_turn. destruct (env_prepare_next_turn env) as [f|] eqn:Hf; [|by wpe_step].
    wpe_step. apply get_context_wpe. wpe_step. apply lift_wpe; [|intros; by eapply run_state_raised].
    intros [u|] w'; [|by wpe_step]. wpe_step.
    assert (run_state BetweenTurns done (set_world w' (set_world w s))) as Hs' by done.
    destruct (turn_context u) as [c|]; wpe_step; wpe_step; [|done].
    destruct Hs' as (Hq & Hn & _). split_and!; [done|done|]. unfold no_swap. by rewrite Hf. }
  2: done.
  intros cfg' s1 Hs1. wpe_step. apply (wpe_mono _ (λ _, run_state BetweenTurns done) _ raised).
  { destruct (env_should_stop env) as [f|]; [|by wpe_step]. wpe_step. apply get_context_wpe.
    apply lift_wpe; [done|intros; by eapply run_state_raised]. }
  2: done.
  intros stop s2 Hs2. destruct stop; cbv iota.
  { eapply emit_agent_end_wpe; [done|]. intros s' Hs'. by exists done. }
  wpe_step. apply lift_wpe; [|intros; by eapply run_state_raised].
  intros pending w2. wpe_step. by exists done.
Qed.

(** The results of a turn are added and the turn ends. *)
Lemma close_turn_wpe c0 ms0 message results earlier s (k : unit → m_of turn_outcome) Q :
  let done := earlier ++ [AssistantMsg message] in
  pt c0 ms0 done [] (done ++ map ToolResultMsg results) s →
  (no_swap → ms0 = base ++ done) →
  answers message results →
  (∀ s', run_state BetweenTurns (done ++ map ToolResultMsg results) s' → wpe (k tt) Q raised s') →
  wpe (_ ← add_results results; x ← emit env (TurnEndEvent (AssistantMsg message) results); k x) Q raised s.
Proof.
  intros done [Hq [Hc Hn]] Hbase Hans Hk. wpe_step. apply add_results_wpe. intros s1 Ht1 Hn1 Hc1.
  unfold in_turn, at_state in Hq. rewrite <- Ht1 in Hq. unfold done in Hq.
  rewrite <- (assoc_L (++)) in Hq. cbn [app] in Hq. wpe_step.
  eapply wpe_mono; [eapply emit_wpe; [exact Hq|by apply step_turn_end]| |].
  - intros [] s2 (Hq2 & Hc2 & Hn2). apply Hk. unfold done. rewrite <- (assoc_L (++)). cbn [app].
    split; [exact Hq2|]. rewrite Hc2, Hn2, Hc1, Hn1, Hc, Hn. cbn. unfold done.
    rewrite <- (assoc_L (++)). split; [done|]. intros Hno. rewrite Hbase by done. unfold done.
    by rewrite <- !(assoc_L (++)).
  - intros e s2 (Hq2 & _). by eexists.
Qed.

Lemma run_turn_wpe cfg first_turn pending done s :
  run_state (if first_turn : bool then InTurn else BetweenTurns) done s →
  wpe (run_turn env cfg first_turn pending) turn_over raised s.
Proof.
  intros Hs. unfold run_turn. wpe_step.
  apply (wpe_mono _ (λ _, run_state InTurn done) _ raised); [|clear Hs|done].
  { destruct first_turn; [by wpe_step|]. eapply emit_run_wpe; [done|constructor|done]. }
  intros [] s1 Hs1. wpe_step. eapply wpe_mono; [by apply add_pending_wpe| |done].
  intros [] s2 Hs2. wpe_step. destruct Hs2 as (Hq & Hn & Hc).
  eapply wpe_mono; [apply (stream_response_wpe (ls_context s2) (done ++ pending) (done ++ pending) Hsink);
    [exact Hq|by split; [destruct (ls_context s2)|]]| |done].
  intros message s3 [Hq3 [Hc3 Hn3]]. wpe_step. wpe_step.
  set (c0 := ls_context s2) in *. set (ms0 := ctx_messages c0 ++ [AssistantMsg message]) in *.
  set (d := (done ++ pending) ++ [AssistantMsg message]) in *.
  assert (no_swap → ms0 = base ++ d) as Hbase.
  { intros Hno. unfold ms0, d. rewrite Hc by done. by rewrite <- (assoc_L (++)). }
  assert (pt c0 ms0 d [] d (add_new (AssistantMsg message) s3)) as Hpt.
  { split; [done|]. split; [done|]. cbn. by rewrite Hn3. }
  generalize dependent (add_new (AssistantMsg message) s3). intros s4 Hpt. clear s3 Hq3 Hc3 Hn3.
  destruct (_ || _).
  - assert (pt c0 ms0 d [] (d ++ map ToolResultMsg []) s4) as Hpt0 by (cbn; by rewrite app_nil_r).
    apply (close_turn_wpe c0 ms0 message [] _ s4
             (λ _, _ ← emit_agent_end env; mret TurnOver) turn_over Hpt0 Hbase).
    + apply prefix_nil.
    + intros s5 Hs5. eapply emit_agent_end_wpe; [done|]. intros s6 Hs6. by eexists.
  - cbv zeta. wpe_step.
    apply (wpe_mono _ (λ b s', answers message (batch_messages b) ∧
      pt c0 ms0 d [] (d ++ map ToolResultMsg (batch_messages b)) s') _ raised); [| |done].
    { destruct (tool_calls_of (am_content message)) as [|c calls] eqn:Hcalls.
      - wpe_step. cbn. rewrite app_nil_r. split; [apply prefix_nil|done].
      - destruct (bool_decide (am_stop_reason message = "length")).
        + wpe_step. eapply wpe_mono; [by apply (fail_truncated_wpe c0 ms0 d)| |done].
          intros ms s5 [Hids Hs5]. wpe_step. split; [|done]. unfold answers. cbn [batch_messages].
          by rewrite Hids, Hcalls.
        + eapply wpe_mono; [apply (execute_tool_calls_wpe c0 ms0 d); [by rewrite Hcalls|done]| |done].
          by intros b s5 (? & _ & ?). }
    intros batch s5 [Hans Hs5].
    eapply close_turn_wpe; [exact Hs5|done|done|].
    intros s6 Hs6. eapply after_turn_wpe. exact Hs6.
Qed.

Definition run_over (ended : option unit) (s : state) : Prop :=
  match ended with
  | Some _ => ∃ done, run_state AfterRun done s
  | None => ∃ q, at_state q s
  end.

Lemma run_turns_wpe fuel : ∀ cfg first_turn has_more pending done s,
  run_state (if first_turn : bool then InTurn else BetweenTurns) done s →
  (first_turn = true → has_more = true) →
  wpe (run_turns env fuel cfg first_turn has_more pending) run_over raised s.
Proof.
  induction fuel as [|fuel IH]; intros cfg first_turn has_more pending done s Hs Hfirst; cbn [run_turns].
  { wpe_step. by eapply (run_state_raised (OtherError "")). }
  assert (∀ pending' s', run_state (if first_turn : bool then InTurn else BetweenTurns) done s' →
    wpe (outcome ← run_turn env cfg first_turn pending';
         match outcome with
         | TurnOver => mret (Some tt)
         | TurnNext cfg' has_more' pending' => run_turns env fuel cfg' false has_more' pending'
         end) run_over raised s') as Hturn.
  { intros pending' s' Hs'. wpe_step. eapply wpe_mono; [by eapply run_turn_wpe| |done].
    intros [|cfg' has_more' pending''] s1 [done1 Hs1]; [wpe_step; by eexists|]. by eapply IH. }
  destruct (has_more || _) eqn:Hmore; [by apply Hturn|].
  destruct first_turn; [by rewrite Hfirst in Hmore|].
  wpe_step. apply lift_wpe; [|intros; by eapply run_state_raised]. intros [|m fu] w.
  - eapply (emit_agent_end_wpe (Some tt)); [by apply run_state_world|]. intros s1 Hs1. by exists done.
  - apply Hturn. by apply run_state_world.
Qed.
End run.
End spec.

(** ** A sample environment *)

(** A provider that answers from a script, one message per request, and then fails;
    a tool that reports once and returns. *)
Record script_world : Type := {
  sw_script : list AssistantMessage;
  sw_answer : option AssistantMessage
}.

Definition sample_message (content : list ContentBlock) (stop_reason : string) : AssistantMessage :=
  {| am_content := content; am_api := "api"; am_provider := "p"; am_model := "m";
     am_usage := empty_usage; am_stop_reason := stop_reason; am_response_model := None;
     am_response_id := None; am_diagnostics := None; am_error_message := None; am_timestamp := 1 |}.

Definition sample_call (id : string) : ContentBlock :=
  ToolCallContent {| tc_id := id; tc_name := "echo"; tc_arguments := JObj [];
                     tc_thought_signature := None |}.

Definition script_request (_ : AgentLoopConfig) (_ : AgentContext)
    : st script_world exn (list StreamEvent * option exn) := λ w,
  match sw_script w with
  | [] => (Err (OtherError "no more answers"), w)
  | m :: rest =>
      (Ok ([{| se_type := "start"; se_partial := sample_message [] "stop" |};
            {| se_type := "text_delta"; se_partial := sample_message [TextContent "a" None] "stop" |};
            {| se_type := "done"; se_partial := m |}], None),
       {| sw_script := rest; sw_answer := Some m |})
  end.

Definition script_env : Env script_world := {|
  env_aborted w := (false, w);
  env_now w := (1, w);
  env_emit _ := mret tt;
  env_steering := mret [];
  env_follow_up := mret [];
  env_request := script_request;
  env_response_result w :=
    match sw_answer w with
    | Some m => (Ok (ResponseMessage m), w)
    | None => (Ok (ResponseOther "NoneType"), w)
    end;
  env_response_close w := w;
  env_prepare_arguments := None;
  env_validate _ c := mret (tc_arguments c);
  env_before := None;
  env_execute _ w := (([error_result "half"], ToolReturned (error_result "full")), w);
  env_after := None;
  env_prepare_next_turn := None;
  env_should_stop := None;
  env_schedule w := ([Announce; Prepare; Take; Announce; Prepare; Take; EndTool 1; Report 1], w)
|}.

Definition script_config : AgentLoopConfig :=
  {| cfg_model := {| model_id := "m"; model_api := "api"; model_provider := "p" |};
     cfg_tool_execution_sequential := false; cfg_max_parallel_tools := 2; cfg_reasoning := None |}.

Definition script_context : AgentContext :=
  {| ctx_system_prompt := ""; ctx_messages := []; ctx_tools := [{| tool_name := "echo"; tool_sequential := false |}] |}.

Definition script_prompt : AgentMessage := UserMsg {| um_content := [TextContent "hi" None]; um_timestamp := 0 |}.

(** A turn with two parallel tool calls, then a turn without. *)
Definition script_start : script_world :=
  {| sw_script := [sample_message [sample_call "1"; sample_call "2"] "toolUse";
                   sample_message [TextContent "done" None] "stop"];
     sw_answer := None |}.

Lemma script_sink_ok : sink_ok script_env.
Proof. done. Qed.

(** The script's run emits, among others, these events. *)
Example script_run_order :
  omap (λ e, match e with
             | ToolExecutionStartEvent id _ _ => Some ("start " +:+ id)
             | ToolExecutionEndEvent id _ _ _ _ _ => Some ("end " +:+ id)
             | MessageEndEvent (ToolResultMsg m) => Some ("result " +:+ tr_tool_call_id m)
             | AgentEndEvent _ => Some "agent_end"
             | _ => None
             end)
    (ls_trace (run_agent_loop script_env 5 [script_prompt] script_context script_config script_start).2)
  = ["start 1"; "start 2"; "end 2"; "end 1"; "result 1"; "result 2"; "agent_end"]%string.
Proof. vm_compute. reflexivity. Qed.

(** ** The theorems *)

(** What a finished or a failed run leaves, from the messages [base] on. *)
Definition run_result_ok {W} (env : Env W) (base : list AgentMessage)
    (r : result exn (option (list AgentMessage))) (s : LoopState (W:=W)) : Prop :=
  match r with
  | Ok (Some messages) =>
      trace_ok (ls_trace s) {| t_phase := AfterRun; t_tools := []; t_done := messages |} ∧
      (no_swap env → ctx_messages (ls_context s) = base ++ messages)
  | _ => ∃ q, trace_ok (ls_trace s) q
  end.

Lemma loop_result_wpe {W} (env : Env W) base fuel cfg done s :
  sink_ok env →
  run_state env base InTurn done s →
  wpe (ended ← run_loop env fuel cfg; ms ← get_new; mret ((λ _, ms) <$> ended))
    (λ r s', run_result_ok env base (Ok r) s') raised s.
Proof.
  intros Hsink Hs. wpe_step. unfold run_loop. wpe_step. apply lift_wpe; [|intros; by eapply run_state_raised].
  intros pending w. eapply wpe_mono; [eapply (run_turns_wpe env Hsink base fuel cfg true); [|done]| |done].
  - apply (run_state_world _ _ _ _ _ _ Hs).
  - intros [[]|] s1 Hs1; wpe_step; apply get_new_wpe; wpe_step; [|done].
    destruct Hs1 as [done1 (Hq & Hn & Hc)]. cbn. rewrite Hn. done.
Qed.

(** Read a [wpe] at a given end. *)
Lemma run_result_of_wpe {W} (env : Env W) base (m : loop_m (W:=W) (option (list AgentMessage))) s :
  wpe m (λ r s', run_result_ok env base (Ok r) s') raised s →
  run_result_ok env base (m s).1 (m s).2.
Proof. unfold wpe. by destruct (m s) as [[o|e] s']. Qed.

Lemma start_events_wpe {W} (env : Env W) {A} (k : loop_m (W:=W) A) base new s Q :
  ls_trace s = [] → ls_new s = new → ctx_messages (ls_context s) = base ++ new →
  (∀ s', at_state {| t_phase := InTurn; t_tools := []; t_done := [] |} s' → same_lists s s' →
     wpe k Q raised s') →
  wpe (_ ← emit env AgentStartEvent; _ ← emit env TurnStartEvent; k) Q raised s.
Proof.
  intros Ht Hn Hc Hk. wpe_step. eapply wpe_mono;
    [eapply (emit_wpe env AgentStartEvent); [|apply step_agent_start]| |].
  - unfold at_state. rewrite Ht. constructor.
  - intros [] s1 (Hq1 & Hc1 & Hn1). wpe_step. eapply wpe_mono;
      [eapply (emit_wpe env TurnStartEvent); [exact Hq1|apply step_turn_start]| |].
    + intros [] s2 (Hq2 & Hc2 & Hn2). apply Hk; [done|]. split; congruence.
    + intros e s2 (Hq2 & _). by eexists.
  - intros e s1 (Hq1 & _). by eexists.
Qed.

Lemma run_agent_loop_trace_at {W} (env : Env W) fuel prompts context cfg w :
  sink_ok env →
  run_result_ok env (ctx_messages context)
    (run_agent_loop env fuel prompts context cfg w).1 (run_agent_loop env fuel prompts context cfg w).2.
Proof.
  intros Hsink. unfold run_agent_loop.
  apply (run_result_of_wpe env), (start_events_wpe env _ (ctx_messages context) prompts); [done..|].
  intros s1 Hq1 [Hc1 Hn1]. wpe_step. eapply wpe_mono; [by apply (emit_messages_wpe env)| |done].
  intros [] s2 (Hq2 & Hc2 & Hn2). apply (loop_result_wpe env _ _ _ prompts); [done|].
  split; [done|]. by rewrite Hc2, Hc1, Hn2, Hn1.
Qed.



(** Continuing a conversation fails without an event or a change when there is no
    message or the last is the assistant's; otherwise its events follow the same
    grammar, and the caller's message list grows by the messages it returns. *)
Theorem run_agent_loop_continue_trace {W} (env : Env W) fuel context cfg w :
  sink_ok env →
  let r := run_agent_loop_continue env fuel context cfg w in
  ((∀ m, last (ctx_messages context) = Some m → role_of m = "assistant"%string) →
   (∃ message, r.1 = Err (OtherError message)) ∧
   r.2 = {| ls_world := w; ls_context := context; ls_new := []; ls_trace := [] |}) ∧
  (∀ m, last (ctx_messages context) = Some m → role_of m ≠ "assistant"%string →
   run_result_ok env (ctx_messages context) r.1 r.2).
Proof.
  intros Hsink r. subst r. unfold run_agent_loop_continue. split.
  - intros Hlast. destruct (last (ctx_messages context)) as [m|]; [|by split; [eexists|]].
    rewrite bool_decide_eq_true_2 by auto. by split; [eexists|].
  - intros m -> Hm. rewrite bool_decide_eq_false_2 by done.
    apply (run_result_of_wpe env), (start_events_wpe env _ (ctx_messages context) []);
      [done|done|by rewrite app_nil_r|].
    intros s1 Hq1 [Hc1 Hn1]. apply (loop_result_wpe env _ _ _ []); [done|].
    split; [done|]. rewrite Hc1, Hn1. split; [done|]. intros _. by rewrite app_nil_r.
Qed.

Definition script_continued : AgentContext :=
  {| ctx_system_prompt := ""; ctx_messages := [script_prompt]; ctx_tools := [] |}.

Lemma run_agent_loop_continue_trace_witness :
  let r := run_agent_loop_continue script_env 5 script_continued script_config script_start in
  run_result_ok script_env (ctx_messages script_continued) r.1 r.2.
Proof.
  exact (proj2 (run_agent_loop_continue_trace script_env 5 script_continued
    script_config script_start script_sink_ok) script_prompt eq_refl
    (λ H, ltac:(vm_compute in H; discriminate H))).
Defined.

(** C18: Within a turn, executing a message's tool calls (sequentially or in parallel,
    under any schedule) gives result messages that answer the calls in their
    order, from the first call on; all of them when no abort is requested.  The
    results are announced in that order, no tool stays open, and the run's lists
    are untouched. *)
Theorem tool_results_answer_calls {W} (env : Env W) cfg message done s batch s' :
  tool_calls_of (am_content message) ≠ [] →
  trace_ok (ls_trace s) {| t_phase := InTurn; t_tools := []; t_done := done |} →
  execute_tool_calls env cfg message s = (Ok batch, s') →
  answers message (batch_messages batch) ∧
  (never_aborts env → map tr_tool_call_id (batch_messages batch) =
                      map tc_id (tool_calls_of (am_content message))) ∧
  trace_ok (ls_trace s') {| t_phase := InTurn; t_tools := [];
                            t_done := done ++ map ToolResultMsg (batch_messages batch) |} ∧
  ls_context s' = ls_context s ∧ ls_new s' = ls_new s.
Proof.
  intros Hcalls Hs Hr.
  assert (pt (ls_context s) (ctx_messages (ls_context s)) (ls_new s) [] done s) as Hpt
    by (split; [exact Hs|split; [by destruct (ls_context s)|done]]).
  pose proof (execute_tool_calls_wpe env _ _ _ cfg message done s Hcalls Hpt) as Hw.
  eapply wpe_ok in Hw; [|exact Hr]. destruct Hw as (Ha & Hall & Ht & Hc & Hn).
  split_and!; [done|done|done| |done]. rewrite Hc. by destruct (ls_context s).
Qed.

Definition script_in_turn : LoopState (W:=script_world) :=
  {| ls_world := script_start; ls_context := script_context; ls_new := [];
     ls_trace := [AgentStartEvent; TurnStartEvent] |}.

Definition script_message : AssistantMessage :=
  sample_message [sample_call "1"; sample_call "2"] "toolUse".

Lemma script_in_turn_ok :
  trace_ok (ls_trace script_in_turn) {| t_phase := InTurn; t_tools := []; t_done := [] |}.
Proof.
  apply (trace_snoc [AgentStartEvent] {| t_phase := BetweenTurns; t_tools := []; t_done := [] |});
    [|apply step_turn_start].
  eapply (trace_snoc []); [apply trace_nil|apply step_agent_start].
Qed.

Lemma tool_results_answer_calls_witness :
  ∃ batch s', execute_tool_calls script_env script_config script_message script_in_turn = (Ok batch, s') ∧
    map tr_tool_call_id (batch_messages batch) = map tc_id (tool_calls_of (am_content script_message)).
Proof.
  eexists _, _. split; [vm_compute; reflexivity|].
  refine (proj1 (proj2 (tool_results_answer_calls script_env script_config script_message []
    script_in_turn _ _ _ script_in_turn_ok _)) _);
    [discriminate|vm_compute; reflexivity|by intros w].
Defined.
