(* ===== verification/AgentFrame.v ===== *)
(** Frames of the agent loop: a property of the run's state that the parts of the
    environment and the emission of events keep is kept by the whole loop.  Used for
    termination (the provider's budget) and for the agent's own state (Agent.v). *)

From S2P Require Import Prelude Json PyFloat AgentTypes AgentParts AgentLoop AgentLoopSpec.
Open Scope Z_scope.

Section frame.
Context {W : Type}.
Variable env : Env W.

#[local] Notation state := (LoopState (W:=W)).
#[local] Notation m_of A := (loop_m (W:=W) A).

Variable P : state → Prop.

(** A part of the environment keeps [P]. *)
Definition keeps_world (f : W → W) : Prop := ∀ s, P s → P (set_world (f (ls_world s)) s).

(** Everything the loop calls, the provider's request apart, keeps [P], which does
    not depend on the lists of the run. *)
Record frame : Prop := {
  fr_lists s s' : ls_world s' = ls_world s → ls_trace s' = ls_trace s → P s → P s';
  fr_emit e s : P s → P (emit env e s).2;
  fr_aborted : keeps_world (λ w, (env_aborted env w).2);
  fr_now : keeps_world (λ w, (env_now env w).2);
  fr_steering : keeps_world (λ w, (env_steering env w).2);
  fr_follow_up : keeps_world (λ w, (env_follow_up env w).2);
  fr_response_result : keeps_world (λ w, (env_response_result env w).2);
  fr_response_close : keeps_world (env_response_close env);
  fr_prepare_arguments f t j : env_prepare_arguments env = Some f → keeps_world (λ w, (f t j w).2);
  fr_validate t c : keeps_world (λ w, (env_validate env t c w).2);
  fr_before f m c j : env_before env = Some f → keeps_world (λ w, (f m c j w).2);
  fr_execute p : keeps_world (λ w, (env_execute env p w).2);
  fr_after f m p r b : env_after env = Some f → keeps_world (λ w, (f m p r b w).2);
  fr_next f m l c : env_prepare_next_turn env = Some f → keeps_world (λ w, (f m l c w).2);
  fr_stop f m l c : env_should_stop env = Some f → keeps_world (λ w, (f m l c w).2);
  fr_schedule : keeps_world (λ w, (env_schedule env w).2)
}.

Hypothesis Hf : frame.

(** A computation that keeps [P], however it ends. *)
Definition steady {A} (m : m_of A) : Prop := ∀ s, P s → P (m s).2.

Lemma steady_ret {A} (a : A) : steady (mret a : st state exn A).
Proof. intros s Hs. exact Hs. Qed.

Lemma steady_throw {A} (e : exn) : steady (mthrow e : st state exn A).
Proof. intros s Hs. exact Hs. Qed.

Lemma steady_bind {A B} (m : m_of A) (f : A → m_of B) :
  steady m → (∀ a, steady (f a)) → steady (m ≫= f : st state exn B).
Proof.
  intros Hm Hk s Hs. specialize (Hm s Hs). unfold mbind, st_bind.
  destruct (m s) as [[a|e] s1]; [|done]. by apply (Hk a s1).
Qed.

Lemma steady_modify f :
  (∀ s, ls_world (f s) = ls_world s) → (∀ s, ls_trace (f s) = ls_trace s) → steady (st_modify f).
Proof. intros Hw Ht s Hs. apply (fr_lists Hf s); [apply Hw|apply Ht|exact Hs]. Qed.

Lemma steady_st_lift {A} (r : result exn A) : steady (st_lift r).
Proof. intros s Hs. exact Hs. Qed.

Lemma steady_lift {A} (m : st W exn A) : keeps_world (λ w, (m w).2) → steady (lift m).
Proof. intros Hm s Hs%Hm. unfold lift. by destruct (m (ls_world s)). Qed.

Lemma steady_lift_pure {A} (f : W → A * W) : keeps_world (λ w, (f w).2) → steady (lift_pure f).
Proof. intros Hm s Hs%Hm. unfold lift_pure. by destruct (f (ls_world s)). Qed.

Lemma steady_get_context : steady get_context.
Proof. intros s Hs. exact Hs. Qed.

Lemma steady_get_new : steady get_new.
Proof. intros s Hs. exact Hs. Qed.

Lemma steady_try_catch {A} (m : m_of A) h : steady m → (∀ e, steady (h e)) → steady (try_catch m h).
Proof.
  intros Hm Hh s Hs. specialize (Hm s Hs). unfold try_catch.
  destruct (m s) as [[a|e] s1]; [done|]. by apply (Hh e s1).
Qed.

Lemma steady_guard {A} partial (m : m_of A) k :
  steady m → (∀ a, steady (k a)) → steady (guard_stream partial m k).
Proof.
  intros Hm Hk s Hs. specialize (Hm s Hs). unfold guard_stream.
  destruct (m s) as [[a|e] s1]; [|done]. by apply (Hk a s1).
Qed.

Lemma steady_worker_step {A} k p (m : m_of A) f : steady m → steady (worker_step k p m f).
Proof.
  intros Hm s Hs. specialize (Hm s Hs). unfold worker_step, worker_died.
  destruct (m s) as [[a|e] s1]; [done|]. by destruct (producing p).
Qed.

#[local] Hint Resolve steady_ret steady_throw steady_st_lift steady_get_context steady_get_new : steady.

(** Apply the rules; case on what the computation matches on. *)
Ltac steady :=
  repeat first
    [ solve [eauto 2 with steady]
    | match goal with |- ∀ _, _ => intro end
    | progress cbn zeta
    | apply steady_bind
    | apply steady_try_catch
    | apply steady_guard
    | apply steady_worker_step
    | apply steady_modify; [done|done]
    | apply steady_lift; eauto using fr_steering, fr_follow_up, fr_response_result, fr_validate
    | match goal with |- steady (match ?x with _ => _ end) => destruct x eqn:? end ].

Lemma steady_aborted : steady (aborted env).
Proof. apply steady_lift_pure, fr_aborted, Hf. Qed.

Lemma steady_now : steady (now_ms env).
Proof. apply steady_lift_pure, fr_now, Hf. Qed.

Lemma steady_emit e : steady (emit env e).
Proof. intros s. apply (fr_emit Hf). Qed.
#[local] Hint Resolve steady_aborted steady_now steady_emit : steady.

Lemma steady_append m : steady (append_message m).
Proof. unfold append_message. steady. Qed.

Lemma steady_replace m : steady (replace_last m).
Proof. unfold replace_last. steady. Qed.
#[local] Hint Resolve steady_append steady_replace : steady.

Lemma steady_finalize_stream cfg reason message partial :
  steady (finalize_stream env cfg reason message partial).
Proof. unfold finalize_stream. steady. Qed.

Lemma steady_finish_response partial : steady (finish_response env partial).
Proof. unfold finish_response, response_message. steady. Qed.
#[local] Hint Resolve steady_finalize_stream steady_finish_response : steady.

Lemma steady_stream_events cfg events : ∀ p partial ending,
  steady (stream_events env cfg p partial events ending).
Proof.
  induction events as [|ev rest IH]; intros p partial ending; cbn [stream_events]; unfold finalize_aborted;
    steady.
Qed.

Lemma steady_stream_handlers cfg o : steady (stream_handlers env cfg o).
Proof.
  intros s Hs. unfold stream_handlers.
  assert (∀ (r : result exn AssistantMessage * state), P r.2 →
    P (let (r, s') := r in (r, set_world (env_response_close env (ls_world s')) s')).2) as Hr.
  { intros [r s'] Hs'. by apply (fr_response_close Hf). }
  destruct o as [m|[msg|msg] partial];
    [apply (Hr (Ok m, s)); done| |apply (Hr (Err (OtherError msg), s)); done].
  apply (Hr (finalize_failed env cfg ("Provider stream protocol error: " +:+ msg) partial s)).
  by apply steady_finalize_stream.
Qed.

Lemma steady_prepare_tool_call message call : steady (prepare_tool_call env message call).
Proof.
  unfold prepare_tool_call, prepare_arguments. steady; eauto using fr_prepare_arguments, fr_before.
Qed.

Lemma steady_finalize message p ex : steady (finalize env message p ex).
Proof. unfold finalize. steady; eauto using fr_after. Qed.
#[local] Hint Resolve steady_prepare_tool_call steady_finalize : steady.

Lemma steady_deliver r : steady (deliver_update env r).
Proof.
  intros s Hs. unfold deliver_update. destruct (run_updates r) as [|u rest]; [done|].
  destruct (run_error r) as [e|]; [done|].
  match goal with |- context [emit env ?ev s] => pose proof (steady_emit ev s Hs) as He;
    destruct (emit env ev s) as [[[]|e] s'] end; done.
Qed.
#[local] Hint Resolve steady_deliver : steady.

Lemma steady_delivers n : ∀ r, steady (deliver_updates env n r).
Proof. induction n as [|n IH]; intros r; cbn [deliver_updates]; steady. Qed.
#[local] Hint Resolve steady_delivers : steady.

Lemma steady_finish_tool r : steady (finish_tool env r).
Proof. unfold finish_tool. steady. Qed.

Lemma steady_emit_tool_end f : steady (emit_tool_end env f).
Proof. unfold emit_tool_end. steady. Qed.

Lemma steady_emit_tool_start c : steady (emit_tool_start env c).
Proof. unfold emit_tool_start. steady. Qed.

Lemma steady_start_tool i p : steady (start_tool env i p).
Proof.
  unfold start_tool. steady. apply steady_lift_pure, fr_execute, Hf.
Qed.

Lemma steady_result_message f : steady (tool_result_message env f).
Proof. unfold tool_result_message. steady. Qed.

Lemma steady_emit_result m : steady (emit_tool_result_message env m).
Proof. unfold emit_tool_result_message. steady. Qed.
#[local] Hint Resolve steady_finish_tool steady_emit_tool_end steady_emit_tool_start steady_start_tool
  steady_result_message steady_emit_result : steady.

Lemma steady_fail_truncated calls : steady (fail_truncated env calls).
Proof. induction calls; cbn [fail_truncated]; steady. Qed.

Lemma steady_sequential message calls : steady (execute_sequential env message calls).
Proof. induction calls; cbn [execute_sequential]; unfold finish_and_finalize; steady. Qed.

Lemma steady_par_step message a p : steady (par_step env message a p).
Proof.
  destruct a; cbn [par_step];
    unfold announce, prepare_announced, take_work, deliver_one, end_tool, report_end; steady.
Qed.
#[local] Hint Resolve steady_par_step : steady.

Lemma steady_par_run message schedule : ∀ p, steady (par_run env message schedule p).
Proof. induction schedule; intros p; cbn [par_run]; steady. Qed.

Lemma steady_result_messages ordered : steady (result_messages env ordered).
Proof. induction ordered; cbn [result_messages]; steady. Qed.
#[local] Hint Resolve steady_fail_truncated steady_sequential steady_par_run steady_result_messages : steady.

Lemma steady_execute cfg message : steady (execute_tool_calls env cfg message).
Proof.
  unfold execute_tool_calls, execute_parallel, par_complete. steady.
  apply steady_lift_pure, fr_schedule, Hf.
Qed.

Lemma steady_add_pending pending : steady (add_pending env pending).
Proof. induction pending; cbn [add_pending]; steady. Qed.

Lemma steady_emit_messages ms : steady (emit_messages env ms).
Proof. induction ms; cbn [emit_messages]; steady. Qed.

Lemma steady_add_results results : steady (add_results (W:=W) results).
Proof. induction results; cbn [add_results]; steady. Qed.
#[local] Hint Resolve steady_execute steady_add_pending steady_emit_messages steady_add_results : steady.

Lemma steady_agent_end : steady (emit_agent_end env).
Proof. unfold emit_agent_end. steady. Qed.

Lemma steady_next_turn cfg message results : steady (prepare_next_turn env cfg message results).
Proof. unfold prepare_next_turn. steady; eauto using fr_next. Qed.
#[local] Hint Resolve steady_agent_end steady_next_turn : steady.

(** The part of a turn that follows the response. *)
Lemma steady_turn_rest cfg message :
  steady (
  _ ← st_modify (add_new (AssistantMsg message));
    if bool_decide (am_stop_reason message = "error") ||
       bool_decide (am_stop_reason message = "aborted")
    then
      _ ← emit env (TurnEndEvent (AssistantMsg message) []);
      _ ← emit_agent_end env;
      mret TurnOver
    else
      let calls := tool_calls_of (am_content message) in
      batch ← match calls with
              | [] => mret {| batch_messages := []; batch_terminate := true |}
              | _ =>
                  if bool_decide (am_stop_reason message = "length") then
                    ms ← fail_truncated env calls;
                    mret {| batch_messages := ms; batch_terminate := false |}
                  else execute_tool_calls env cfg message
              end;
      _ ← add_results (batch_messages batch);
      _ ← emit env (TurnEndEvent (AssistantMsg message) (batch_messages batch));
      a ← aborted env;
      if a : bool then _ ← emit_agent_end env; mret TurnOver
      else
        cfg' ← prepare_next_turn env cfg message (batch_messages batch);
        stop ← match env_should_stop env with
               | None => mret false
               | Some f => c ← get_context; lift (f message (batch_messages batch) c)
               end;
        if stop : bool then _ ← emit_agent_end env; mret TurnOver
        else
          pending ← lift (env_steering env);
          mret (TurnNext cfg' (negb (batch_terminate batch)) pending) : st state exn turn_outcome).
Proof. steady; eauto using fr_stop. Qed.
#[local] Hint Resolve steady_turn_rest : steady.

#[local] Hint Resolve steady_stream_events steady_stream_handlers : steady.

(** The whole loop, when the provider's request keeps [P] too. *)
Section whole.
Hypothesis Hrequest : ∀ cfg c, keeps_world (λ w, (env_request env cfg c w).2).

Lemma steady_response cfg : steady (stream_assistant_response env cfg).
Proof.
  unfold stream_assistant_response. apply steady_bind; [steady|]. intros c.
  apply steady_bind; [apply steady_lift, Hrequest|]. intros r. steady.
Qed.
#[local] Hint Resolve steady_response : steady.

Lemma steady_turn cfg first_turn pending : steady (run_turn env cfg first_turn pending).
Proof. unfold run_turn. steady; eauto using fr_stop. Qed.
#[local] Hint Resolve steady_turn : steady.

Lemma steady_turns fuel : ∀ cfg first_turn has_more pending,
  steady (run_turns env fuel cfg first_turn has_more pending).
Proof. induction fuel as [|fuel IH]; intros; cbn [run_turns]; steady. Qed.

Lemma steady_loop fuel cfg : steady (run_loop env fuel cfg).
Proof. unfold run_loop. steady. apply steady_turns. Qed.
#[local] Hint Resolve steady_loop : steady.

(** The entry points, from a state of the run in which [P] holds. *)
Lemma steady_run fuel prompts context cfg w :
  (∀ c, P {| ls_world := w; ls_context := c; ls_new := prompts; ls_trace := [] |}) →
  P (run_agent_loop env fuel prompts context cfg w).2.
Proof.
  intros HP. unfold run_agent_loop.
  match goal with |- P (?m _).2 => assert (steady m) as Hm by steady end. apply Hm, HP.
Qed.

Lemma steady_continue fuel context cfg w :
  P {| ls_world := w; ls_context := context; ls_new := []; ls_trace := [] |} →
  P (run_agent_loop_continue env fuel context cfg w).2.
Proof.
  intros HP. unfold run_agent_loop_continue. destruct (last _) as [m|]; [|done].
  destruct (bool_decide _); [done|].
  match goal with |- P (?m _).2 => assert (steady m) as Hm by steady end. by apply Hm.
Qed.
End whole.
End frame.

(** ** Termination *)

Section budget.
Context {W : Type}.
Variable env : Env W.
Variable μ : W → nat.

#[local] Notation state := (LoopState (W:=W)).
#[local] Notation m_of A := (loop_m (W:=W) A).

(** At most [n] requests are left. *)
Definition within (n : nat) (s : state) : Prop := (μ (ls_world s) ≤ n)%nat.

(** The provider answers at most [μ w] requests from the world [w] on, and nothing
    else the loop calls raises that number. *)
Definition bounded_provider : Prop :=
  (∀ n, frame env (within n)) ∧
  (∀ cfg c w r w', env_request env cfg c w = (Ok r, w') → (μ w' < μ w)%nat).

Hypothesis Hb : bounded_provider.

(** The rest of the loop leaves the budget or lowers it. *)
Definition thrifty {A} (m : m_of A) : Prop := ∀ n, steady (within n) m.

(** A computation that lowers the budget when it returns. *)
Definition spends {A} (m : m_of A) : Prop :=
  ∀ s a s', m s = (Ok a, s') → (μ (ls_world s') < μ (ls_world s))%nat.

Lemma spends_after {A B} (m : m_of A) (f : A → m_of B) :
  thrifty m → (∀ a, spends (f a)) → spends (m ≫= f : st state exn B).
Proof.
  intros Hm Hf s b s'. specialize (Hm _ s (le_n _)). unfold mbind, st_bind, within in *.
  destruct (m s) as [[a|e] s1]; [|done]. intros Hr%Hf. cbn in *. lia.
Qed.

Lemma spends_before {A B} (m : m_of A) (f : A → m_of B) :
  spends m → (∀ a, thrifty (f a)) → spends (m ≫= f : st state exn B).
Proof.
  intros Hm Hf s b s'. specialize (Hm s). unfold mbind, st_bind.
  destruct (m s) as [[a|e] s1]; [|done]. intros Hr. specialize (Hf a _ s1 (le_n _)). rewrite Hr in Hf.
  specialize (Hm a s1 eq_refl). unfold within in *. cbn in *. lia.
Qed.

Lemma spends_response cfg : spends (stream_assistant_response env cfg).
Proof.
  destruct Hb as [Hf Hr]. unfold stream_assistant_response. apply spends_after; [by intros n s|].
  intros c. apply spends_before.
  - intros s a s'. unfold lift. destruct (env_request env cfg c (ls_world s)) as [[r|e] w] eqn:Hreq; [|done].
    intros [= <- <-]. by eapply Hr.
  - intros r n. apply steady_bind; [by apply steady_stream_events|]. intros o.
    by apply steady_stream_handlers.
Qed.

Lemma spends_turn cfg first_turn pending : spends (run_turn env cfg first_turn pending).
Proof.
  destruct Hb as [Hf _]. unfold run_turn. apply spends_after.
  { intros n. destruct first_turn; [by intros s|]. by apply steady_emit. }
  intros _. apply spends_after; [intros n; by apply steady_add_pending|]. intros _.
  apply spends_before; [apply spends_response|]. intros m n. by apply steady_turn_rest.
Qed.

Lemma run_turns_ends fuel : ∀ cfg first_turn has_more pending s,
  (μ (ls_world s) < fuel)%nat → (run_turns env fuel cfg first_turn has_more pending s).1 ≠ Ok None.
Proof.
  induction fuel as [|fuel IH]; intros cfg first_turn has_more pending s Hfuel; [lia|]. cbn [run_turns].
  assert (∀ pending' s', (μ (ls_world s') ≤ μ (ls_world s))%nat →
    ((outcome ← run_turn env cfg first_turn pending';
      match outcome with
      | TurnOver => mret (Some tt)
      | TurnNext cfg' has_more' pending' => run_turns env fuel cfg' false has_more' pending'
      end) s').1 ≠ Ok None) as Hturn.
  { intros pending' s' Hle. unfold mbind, st_bind.
    pose proof (spends_turn cfg first_turn pending' s') as Hspend.
    destruct (run_turn env cfg first_turn pending' s') as [[[|cfg' hm' p']|e] s1]; [done| |done].
    apply IH. specialize (Hspend _ _ eq_refl). lia. }
  destruct (_ || _); [by apply Hturn|].
  unfold mbind at 1, st_bind, lift. pose proof (fr_follow_up _ _ (proj1 Hb _) s (le_n _)) as Hf. unfold within in Hf. cbn in Hf.
  destruct (env_follow_up env (ls_world s)) as [[[|m ms]|e] w]; [| |done].
  - unfold mbind, st_bind. by destruct (emit_agent_end env (set_world w s)) as [[[]|e] s1].
  - by apply Hturn.
Qed.

Lemma run_loop_ends fuel cfg s :
  (μ (ls_world s) < fuel)%nat → (run_loop env fuel cfg s).1 ≠ Ok None.
Proof.
  intros Hfuel. unfold run_loop, mbind, st_bind, lift. pose proof (fr_steering _ _ (proj1 Hb _) s (le_n _)) as Hs. unfold within in Hs. cbn in Hs.
  destruct (env_steering env (ls_world s)) as [[p|e] w]; [|done]. apply run_turns_ends. cbn in *. lia.
Qed.

(** A prefix of the run that leaves the budget, followed by the loop. *)
Lemma ends_after {A B} (m : m_of A) (f : A → m_of (option B)) s n :
  thrifty m → (μ (ls_world s) < n)%nat →
  (∀ a s', (μ (ls_world s') < n)%nat → (f a s').1 ≠ Ok None) → ((m ≫= f) s).1 ≠ Ok None.
Proof.
  intros Hm Hn Hf. specialize (Hm _ s (le_n _)). unfold mbind, st_bind, within in *. destruct (m s) as [[a|e] s1]; [|done].
  apply Hf. cbn in *. lia.
Qed.

Lemma loop_result_ends fuel cfg s :
  (μ (ls_world s) < fuel)%nat →
  ((ended ← run_loop env fuel cfg; ms ← get_new; mret ((λ _, ms) <$> ended)) s).1 ≠ Ok None.
Proof.
  intros Hfuel. pose proof (run_loop_ends fuel cfg s Hfuel) as Hl. unfold mbind, st_bind.
  destruct (run_loop env fuel cfg s) as [[[[]|]|e] s1]; done.
Qed.
End budget.

Lemma script_bounded : bounded_provider script_env (λ w, length (sw_script w)).
Proof.
  split.
  - intros n. split; intros; try discriminate; try (intros s Hs; exact Hs); try done.
    + unfold within in *. congruence.
    + intros s Hs. unfold within in *. cbn in *. by destruct (sw_answer (ls_world s)).
  - intros cfg c w r w'. cbn. unfold script_request. destruct (sw_script w) as [|m ms] eqn:Hw; [done|].
    intros [= <- <-]. cbn. lia.
Qed.

(** C19: A run ends: when the provider answers at most [μ w] requests and the rest of
    the environment does not raise that number, [μ w + 1] turns of fuel are enough,
    whatever the tools, the hooks and the follow-up queue do. *)
Theorem run_agent_loop_ends {W} (env : Env W) (μ : W → nat) fuel prompts context cfg w :
  bounded_provider env μ → (μ w < fuel)%nat →
  (run_agent_loop env fuel prompts context cfg w).1 ≠ Ok None ∧
  (run_agent_loop_continue env fuel context cfg w).1 ≠ Ok None.
Proof.
  intros Hb Hfuel. split.
  - unfold run_agent_loop.
    apply (ends_after μ _ _ _ fuel); [intros n; by apply steady_emit, Hb|done|]. intros _ s1 Hs1.
    apply (ends_after μ _ _ _ fuel); [intros n; by apply steady_emit, Hb|done|]. intros _ s2 Hs2.
    apply (ends_after μ _ _ _ fuel); [intros n; by apply steady_emit_messages, Hb|done|]. intros _ s3 Hs3.
    by apply (loop_result_ends env μ).
  - unfold run_agent_loop_continue. destruct (last _) as [m|]; [|done].
    destruct (bool_decide _); [done|].
    apply (ends_after μ _ _ _ fuel); [intros n; by apply steady_emit, Hb|done|]. intros _ s1 Hs1.
    apply (ends_after μ _ _ _ fuel); [intros n; by apply steady_emit, Hb|done|]. intros _ s2 Hs2.
    by apply (loop_result_ends env μ).
Qed.

Lemma run_agent_loop_ends_witness :
  (run_agent_loop script_env 3 [script_prompt] script_context script_config script_start).1 ≠ Ok None ∧
  (run_agent_loop_continue script_env 3 script_context script_config script_start).1 ≠ Ok None.
Proof.
  apply (run_agent_loop_ends script_env (λ w, length (sw_script w)) 3 [script_prompt] script_context
    script_config script_start script_bounded). cbn. lia.
Defined.
