(* ===== verification/Agent.v ===== *)
(** The stateful agent (travis/agent/agent.py) around the agent loop: its state,
    its queues, the lease and the event sink.

    What other parties can reach while a run is in progress (the queues, the abort
    signal, and the world [W] of providers, tools and listeners) is [Shared]; the
    parts of the environment may change it at will, which covers calls of
    [steer], [follow_up] and [abort] from other threads between the loop's steps.
    The rest of [AgentWorld] is the agent's own. *)

From S2P Require Import Prelude Json PyFloat AgentTypes AgentParts AgentLoop.
Open Scope Z_scope.

(** [src: travis/agent/agent.py:79-89 AgentState] *)
Record AgentState : Type := {
  as_system_prompt : string;
  as_model : Model;
  as_thinking_level : string;
  as_tools : list AgentTool;
  as_messages : list AgentMessage;
  as_is_streaming : bool;
  as_streaming_message : option AgentMessage;
  as_pending_tool_calls : gset string;
  as_error_message : option string
}.

(** What the environment of a run can reach. *)
Record Shared (W : Type) : Type := {
  sh_world : W;
  sh_steering : PendingQueue.PendingMessageQueue AgentMessage;
  sh_follow_up : PendingQueue.PendingMessageQueue AgentMessage;
  sh_aborted : bool
}.
Arguments sh_world {W}. Arguments sh_steering {W}. Arguments sh_follow_up {W}.
Arguments sh_aborted {W}.

(** [src: travis/agent/agent.py:122-154 Agent.__init__]: the mutable attributes;
    [aw_skip_steering] is the cell of [_build_config]. *)
Record AgentWorld (W : Type) : Type := {
  aw_shared : Shared W;
  aw_state : AgentState;
  aw_lease : Lease.RunLease;
  aw_token : option Lease.RunLeaseToken;
  aw_idle : bool;
  aw_skip_steering : bool
}.
Arguments aw_shared {W}. Arguments aw_state {W}. Arguments aw_lease {W}.
Arguments aw_token {W}. Arguments aw_idle {W}. Arguments aw_skip_steering {W}.

(** The options fixed at construction that the loop reads. *)
Record AgentOptions : Type := {
  opt_tool_execution_sequential : bool;
  opt_max_parallel_tools : Z
}.

(** [src: travis/agent/agent.py:453-469 Agent._process_event] *)
Definition process_event (e : AgentEvent) (s : AgentState) : AgentState :=
  let with_streaming m := {| as_system_prompt := as_system_prompt s; as_model := as_model s;
    as_thinking_level := as_thinking_level s; as_tools := as_tools s; as_messages := as_messages s;
    as_is_streaming := as_is_streaming s; as_streaming_message := Some m;
    as_pending_tool_calls := as_pending_tool_calls s; as_error_message := as_error_message s |} in
  let with_pending calls := {| as_system_prompt := as_system_prompt s; as_model := as_model s;
    as_thinking_level := as_thinking_level s; as_tools := as_tools s; as_messages := as_messages s;
    as_is_streaming := as_is_streaming s; as_streaming_message := as_streaming_message s;
    as_pending_tool_calls := calls; as_error_message := as_error_message s |} in
  match e with
  | MessageStartEvent m => if bool_decide (role_of m = "assistant") then with_streaming m else s
  | MessageUpdateEvent m _ => with_streaming m
  | MessageEndEvent m =>
      {| as_system_prompt := as_system_prompt s; as_model := as_model s;
         as_thinking_level := as_thinking_level s; as_tools := as_tools s;
         as_messages := as_messages s ++ [m]; as_is_streaming := as_is_streaming s;
         as_streaming_message := if bool_decide (role_of m = "assistant") then None
                                 else as_streaming_message s;
         as_pending_tool_calls := as_pending_tool_calls s;
         as_error_message :=
           match m with
           | AssistantMsg a =>
               if bool_decide (am_stop_reason a = "error") || bool_decide (am_stop_reason a = "aborted")
               then am_error_message a else as_error_message s
           | _ => as_error_message s
           end |}
  | ToolExecutionStartEvent id _ _ => with_pending ({[id]} ∪ as_pending_tool_calls s)
  | ToolExecutionEndEvent id _ _ _ _ _ => with_pending (as_pending_tool_calls s ∖ {[id]})
  | _ => s
  end.

Section agent.
Context {W : Type}.

#[local] Notation shared := (Shared W).
#[local] Notation world := (AgentWorld W).

Definition set_shared (sh : shared) (w : world) : world :=
  {| aw_shared := sh; aw_state := aw_state w; aw_lease := aw_lease w; aw_token := aw_token w;
     aw_idle := aw_idle w; aw_skip_steering := aw_skip_steering w |}.
Definition set_state (s : AgentState) (w : world) : world :=
  {| aw_shared := aw_shared w; aw_state := s; aw_lease := aw_lease w; aw_token := aw_token w;
     aw_idle := aw_idle w; aw_skip_steering := aw_skip_steering w |}.
Definition set_skip (b : bool) (w : world) : world :=
  {| aw_shared := aw_shared w; aw_state := aw_state w; aw_lease := aw_lease w; aw_token := aw_token w;
     aw_idle := aw_idle w; aw_skip_steering := b |}.

(** ** Queues and the abort signal *)

Definition set_steering (q : PendingQueue.PendingMessageQueue AgentMessage) (sh : shared) : shared :=
  {| sh_world := sh_world sh; sh_steering := q; sh_follow_up := sh_follow_up sh;
     sh_aborted := sh_aborted sh |}.
Definition set_follow_up (q : PendingQueue.PendingMessageQueue AgentMessage) (sh : shared) : shared :=
  {| sh_world := sh_world sh; sh_steering := sh_steering sh; sh_follow_up := q;
     sh_aborted := sh_aborted sh |}.
Definition set_aborted (b : bool) (sh : shared) : shared :=
  {| sh_world := sh_world sh; sh_steering := sh_steering sh; sh_follow_up := sh_follow_up sh;
     sh_aborted := b |}.

(** [src: travis/agent/agent.py:202-203 Agent.steer] *)
Definition steer (m : AgentMessage) (sh : shared) : shared :=
  set_steering (PendingQueue.enqueue m (sh_steering sh)) sh.

(** [src: travis/agent/agent.py:205-206 Agent.follow_up] *)
Definition follow_up (m : AgentMessage) (sh : shared) : shared :=
  set_follow_up (PendingQueue.enqueue m (sh_follow_up sh)) sh.

(** [src: travis/agent/agent.py:208-216 Agent.clear_all_queues] *)
Definition clear_all_queues (sh : shared) : shared :=
  set_follow_up (PendingQueue.clear (sh_follow_up sh))
    (set_steering (PendingQueue.clear (sh_steering sh)) sh).

(** [src: travis/agent/agent.py:218-219 Agent.has_queued_messages] *)
Definition has_queued_messages (sh : shared) : bool :=
  PendingQueue.has_items (sh_steering sh) || PendingQueue.has_items (sh_follow_up sh).

(** [src: travis/agent/agent.py:221-222 Agent.abort] *)
Definition abort (sh : shared) : shared := set_aborted true sh.

(** [src: travis/agent/agent.py:224-229 Agent.reset_abort_signal] *)
Definition reset_abort_signal (w : world) : world :=
  if as_is_streaming (aw_state w) then w
  else if sh_aborted (aw_shared w) then set_shared (set_aborted false (aw_shared w)) w
  else w.

(** [src: travis/agent/agent.py:235-243 Agent.reset] *)
Definition reset (w : world) : result exn unit * world :=
  if Lease.active (aw_lease w) then
    (Err (OtherError ("Cannot reset Agent while an active run is in progress; "
                      +:+ "abort and wait for idle first")), w)
  else
    let s := aw_state w in
    (Ok tt, set_shared (clear_all_queues (aw_shared w))
       (set_state {| as_system_prompt := as_system_prompt s; as_model := as_model s;
          as_thinking_level := as_thinking_level s; as_tools := as_tools s; as_messages := [];
          as_is_streaming := false; as_streaming_message := None; as_pending_tool_calls := ∅;
          as_error_message := None |} w)).

(** ** A run's environment *)

(** Run a part of the outer environment on what it can reach. *)
Definition on_shared {A} (f : shared → A * shared) (w : world) : A * world :=
  let (a, sh) := f (aw_shared w) in (a, set_shared sh w).

(** [src: travis/agent/agent.py:286-287 Agent._drain_steering] (and
    [_drain_follow_up]). *)
Definition drain_steering (w : world) : list AgentMessage * world :=
  let (ms, q) := PendingQueue.drain (sh_steering (aw_shared w)) in
  (ms, set_shared (set_steering q (aw_shared w)) w).
Definition drain_follow_up (w : world) : list AgentMessage * world :=
  let (ms, q) := PendingQueue.drain (sh_follow_up (aw_shared w)) in
  (ms, set_shared (set_follow_up q (aw_shared w)) w).

(** [src: travis/agent/agent.py:248-252 Agent._build_config.get_steering_messages] *)
Definition get_steering_messages (w : world) : list AgentMessage * world :=
  if aw_skip_steering w then ([], set_skip false w) else drain_steering w.

(** The outer environment; its steering and follow-up fields are not used, and its
    [env_emit] runs the listeners (the public ones cannot fail the run). *)
Variable ext : Env shared.

(** [src: travis/agent/agent.py:429-451 Agent._make_sink] *)
Definition sink (e : AgentEvent) : st world exn unit := λ w,
  on_shared (env_emit ext e) (set_state (process_event e (aw_state w)) w).

(** [src: travis/agent/agent.py:245-284 Agent._build_config]: the callbacks. *)
Definition agent_env : Env world := {|
  env_aborted w :=
    let (_, sh) := env_aborted ext (aw_shared w) in (sh_aborted sh, set_shared sh w);
  env_now := on_shared (env_now ext);
  env_emit := sink;
  env_steering w := let (ms, w) := get_steering_messages w in (Ok ms, w);
  env_follow_up w := let (ms, w) := drain_follow_up w in (Ok ms, w);
  env_request cfg c := on_shared (env_request ext cfg c);
  env_response_result := on_shared (env_response_result ext);
  env_response_close w := set_shared (env_response_close ext (aw_shared w)) w;
  env_prepare_arguments := (λ f t j, on_shared (f t j)) <$> env_prepare_arguments ext;
  env_validate t c := on_shared (env_validate ext t c);
  env_before := (λ f m c j, on_shared (f m c j)) <$> env_before ext;
  env_execute p := on_shared (env_execute ext p);
  env_after := (λ f m p r b, on_shared (f m p r b)) <$> env_after ext;
  env_prepare_next_turn := (λ f m l c, on_shared (f m l c)) <$> env_prepare_next_turn ext;
  env_should_stop := (λ f m l c, on_shared (f m l c)) <$> env_should_stop ext;
  env_schedule := on_shared (env_schedule ext)
|}.

Variable options : AgentOptions.

(** [src: travis/agent/agent.py:263-284 Agent._build_config]: the values. *)
Definition build_config (s : AgentState) : AgentLoopConfig :=
  {| cfg_model := as_model s;
     cfg_tool_execution_sequential := opt_tool_execution_sequential options;
     cfg_max_parallel_tools := Z.max 1 (opt_max_parallel_tools options);
     cfg_reasoning := if bool_decide (as_thinking_level s = "off") then None
                      else Some (as_thinking_level s) |}.

(** [src: travis/agent/agent.py:292-297 Agent._context] *)
Definition agent_context (s : AgentState) : AgentContext :=
  {| ctx_system_prompt := as_system_prompt s; ctx_messages := as_messages s;
     ctx_tools := as_tools s |}.

(** ** Runs *)

(** [src: travis/agent/agent.py:408-416 Agent._begin_run] *)
Definition begin_run (thread : Z) (active_error : string) (w : world) : result exn unit * world :=
  match Lease.acquire thread active_error (aw_lease w) with
  | (Err e, _) => (Err e, w)
  | (Ok token, lease) =>
      let s := aw_state w in
      (Ok tt,
       {| aw_shared := set_aborted false (aw_shared w);
          aw_state := {| as_system_prompt := as_system_prompt s; as_model := as_model s;
            as_thinking_level := as_thinking_level s; as_tools := as_tools s;
            as_messages := as_messages s; as_is_streaming := true; as_streaming_message := None;
            as_pending_tool_calls := as_pending_tool_calls s; as_error_message := None |};
          aw_lease := lease; aw_token := Some token; aw_idle := false;
          aw_skip_steering := aw_skip_steering w |})
  end.

(** [src: travis/agent/agent.py:418-427 Agent._finish_run] *)
Definition finish_run (w : world) : world :=
  let s := aw_state w in
  {| aw_shared := aw_shared w;
     aw_state := {| as_system_prompt := as_system_prompt s; as_model := as_model s;
       as_thinking_level := as_thinking_level s; as_tools := as_tools s;
       as_messages := as_messages s; as_is_streaming := false; as_streaming_message := None;
       as_pending_tool_calls := ∅; as_error_message := as_error_message s |};
     aw_lease := match aw_token w with
                 | Some token => (Lease.release token (aw_lease w)).2
                 | None => aw_lease w
                 end;
     aw_token := None; aw_idle := true; aw_skip_steering := aw_skip_steering w |}.

(** The message of a failed run. *)
Definition failure_message (error : string) (was_aborted : bool) (now : Z) (m : Model)
    : AssistantMessage :=
  {| am_content := [TextContent "" None]; am_api := model_api m; am_provider := model_provider m;
     am_model := model_id m; am_usage := empty_usage;
     am_stop_reason := if was_aborted then "aborted" else "error"; am_response_model := None;
     am_response_id := None; am_diagnostics := None; am_error_message := Some error;
     am_timestamp := now |}.

(** [src: travis/agent/agent.py:390-406 Agent._handle_run_failure] *)
Definition handle_run_failure (error : exn) (was_aborted : bool)
    : st world exn (option (list AgentMessage)) := λ w,
  let (now, w) := on_shared (env_now ext) w in
  let m := AssistantMsg (failure_message (exn_str error) was_aborted now (as_model (aw_state w))) in
  (_ ← sink (MessageStartEvent m);
   _ ← sink (MessageEndEvent m);
   _ ← sink (TurnEndEvent m []);
   _ ← sink (AgentEndEvent [m]);
   mret (Some [m])) w.

(** [except Exception: ... _handle_run_failure]. *)
Definition recover (r : result exn (option (list AgentMessage)) * LoopState (W:=world))
    : result exn (option (list AgentMessage)) * world :=
  match r with
  | (Ok ms, s) => (Ok ms, ls_world s)
  | (Err e, s) => handle_run_failure e (sh_aborted (aw_shared (ls_world s))) (ls_world s)
  end.

(** The argument of [prompt]. *)
Inductive Prompt : Type :=
  | PromptText (text : string) (images : list ContentBlock)
  | PromptMessages (ms : list AgentMessage)
  | PromptMessage (m : AgentMessage).

Definition prompt_messages (p : Prompt) (w : world) : list AgentMessage * world :=
  match p with
  | PromptText text images =>
      let (now, w) := on_shared (env_now ext) w in
      ([UserMsg {| um_content := TextContent text None :: images; um_timestamp := now |}], w)
  | PromptMessages ms => (ms, w)
  | PromptMessage m => ([m], w)
  end.

(** The body of a run started with messages, before [finally]. *)
Definition start_run (fuel : nat) (skip_initial_steering_poll : bool) (ms : list AgentMessage)
    (w : world) : result exn (option (list AgentMessage)) * world :=
  recover (run_agent_loop agent_env fuel ms (agent_context (aw_state w)) (build_config (aw_state w))
             (set_skip skip_initial_steering_poll w)).

(** [src: travis/agent/agent.py:307-338 Agent.async_prompt] *)
Definition async_prompt (fuel : nat) (thread : Z) (p : Prompt) (w : world)
    : result exn (option (list AgentMessage)) * world :=
  match begin_run thread ("Agent is already processing a prompt. Use steer() or follow_up() to "
    +:+ "queue messages, or wait for completion.") w with
  | (Err e, w) => (Err e, w)
  | (Ok _, w) =>
      let (ms, w) := prompt_messages p w in
      let (r, w) := start_run fuel false ms w in
      (r, finish_run w)
  end.

(** [src: travis/agent/agent.py:343-388 Agent.async_continue] *)
Definition async_continue (fuel : nat) (thread : Z) (w : world)
    : result exn (option (list AgentMessage)) * world :=
  match begin_run thread "Agent is already processing. Wait for completion before continuing." w with
  | (Err e, w) => (Err e, w)
  | (Ok _, w) =>
      let (r, w) :=
        match last (as_messages (aw_state w)) with
        | None => (Err (OtherError "No messages to continue from"), w)
        | Some m =>
            if bool_decide (role_of m = "assistant") then
              let (queued, w) := drain_steering w in
              match queued with
              | _ :: _ => start_run fuel true queued w
              | [] =>
                  let (queued, w) := drain_follow_up w in
                  match queued with
                  | _ :: _ => start_run fuel false queued w
                  | [] => (Err (OtherError "Cannot continue from message role: assistant"), w)
                  end
              end
            else
              recover (run_agent_loop_continue agent_env fuel (agent_context (aw_state w))
                         (build_config (aw_state w)) (set_skip false w))
        end in
      (r, finish_run w)
  end.

End agent.
