(* ===== verification/AgentSpec.v ===== *)
(** What the agent promises around its runs: at most one run at a time, the agent at
    rest again after every run however it ended, the conversation extended by
    exactly the messages whose end was announced, and failed runs recorded. *)

From S2P Require Import Prelude Json PyFloat AgentTypes AgentParts AgentLoop AgentLoopSpec AgentFrame Agent.
Open Scope Z_scope.

(** The messages whose end a trace announces. *)
Definition ended_messages (trace : list AgentEvent) : list AgentMessage :=
  omap (λ e, match e with MessageEndEvent m => Some m | _ => None end) trace.

(** The tool calls that are open after a trace: started and not ended. *)
Definition pending_step (calls : gset string) (e : AgentEvent) : gset string :=
  match e with
  | ToolExecutionStartEvent id _ _ => {[id]} ∪ calls
  | ToolExecutionEndEvent id _ _ _ _ _ => calls ∖ {[id]}
  | _ => calls
  end.
Definition pending_after (trace : list AgentEvent) : gset string := foldl pending_step ∅ trace.

Lemma ended_snoc trace e : ended_messages (trace ++ [e]) = ended_messages trace ++ ended_messages [e].
Proof. apply omap_app. Qed.

Lemma pending_snoc trace e : pending_after (trace ++ [e]) = pending_step (pending_after trace) e.
Proof. unfold pending_after. by rewrite foldl_app. Qed.

(** What an event changes in the agent's state. *)
Lemma process_event_messages e s :
  as_messages (process_event e s) = as_messages s ++ ended_messages [e].
Proof. destruct e; cbn; rewrite ?app_nil_r; try done. by destruct (bool_decide _). Qed.

Lemma process_event_pending e s :
  as_pending_tool_calls (process_event e s) = pending_step (as_pending_tool_calls s) e.
Proof. destruct e; cbn; try done. by destruct (bool_decide _). Qed.

Lemma process_event_fixed e s :
  as_is_streaming (process_event e s) = as_is_streaming s ∧
  as_system_prompt (process_event e s) = as_system_prompt s ∧
  as_tools (process_event e s) = as_tools s ∧ as_model (process_event e s) = as_model s.
Proof. destruct e; cbn; try done. by destruct (bool_decide _). Qed.

Lemma trace_ended trace q : trace_ok trace q → ended_messages trace = t_done q.
Proof.
  induction 1 as [|trace q e q' _ IH Hstep]; [done|]. rewrite ended_snoc, IH.
  destruct Hstep; cbn; by rewrite ?app_nil_r.
Qed.

Section agent_spec.
Context {W : Type}.
Variable ext : Env (Shared W).
Variable options : AgentOptions.

#[local] Notation world := (AgentWorld W).

(** No run is in progress. *)
Record at_rest (w : world) : Prop := {
  rest_lease : Lease.active_token (aw_lease w) = None;
  rest_owner : Lease.owner_thread_id (aw_lease w) = None;
  rest_token : aw_token w = None;
  rest_idle : aw_idle w = true;
  rest_streaming : as_is_streaming (aw_state w) = false;
  rest_message : as_streaming_message (aw_state w) = None;
  rest_pending : as_pending_tool_calls (aw_state w) = ∅
}.

(** A run in progress on an agent that was [w0] when the run began. *)
Record running (w0 : world) (trace : list AgentEvent) (w : world) : Prop := {
  run_lease : aw_lease w = aw_lease w0;
  run_token : aw_token w = aw_token w0;
  run_streaming : as_is_streaming (aw_state w) = true;
  run_messages : as_messages (aw_state w) = as_messages (aw_state w0) ++ ended_messages trace;
  run_pending : as_pending_tool_calls (aw_state w) = pending_after trace;
  run_fixed : as_system_prompt (aw_state w) = as_system_prompt (aw_state w0) ∧
              as_tools (aw_state w) = as_tools (aw_state w0) ∧
              as_model (aw_state w) = as_model (aw_state w0)
}.

Definition running_state (w0 : world) (s : LoopState (W:=world)) : Prop :=
  running w0 (ls_trace s) (ls_world s).

Lemma running_shared w0 trace sh w : running w0 trace w → running w0 trace (set_shared sh w).
Proof. intros []. by split. Qed.

Lemma running_skip w0 trace b w : running w0 trace w → running w0 trace (set_skip b w).
Proof. intros []. by split. Qed.

Lemma running_on_shared {A} w0 trace (f : Shared W → A * Shared W) w :
  running w0 trace w → running w0 trace (on_shared f w).2.
Proof. intros Hw. unfold on_shared. destruct (f (aw_shared w)). by apply running_shared. Qed.

Lemma running_event w0 trace e w :
  running w0 trace w → running w0 (trace ++ [e]) (set_state (process_event e (aw_state w)) w).
Proof.
  intros [Hl Ht Hs Hm Hp Hf]. destruct (process_event_fixed e (aw_state w)) as (H1 & H2 & H3 & H4).
  split; cbn [set_state aw_lease aw_token aw_state].
  - done.
  - done.
  - by rewrite H1.
  - by rewrite process_event_messages, Hm, ended_snoc, (assoc_L (++)).
  - by rewrite process_event_pending, Hp, pending_snoc.
  - by rewrite H2, H3, H4.
Qed.

Lemma running_sink w0 trace e w :
  running w0 trace w → running w0 (trace ++ [e]) (sink ext e w).2.
Proof. intros Hw. unfold sink. by apply running_on_shared, running_event. Qed.

Lemma running_frame w0 : frame (agent_env ext) (running_state w0).
Proof.
  split; unfold keeps_world, running_state; cbn.
  - intros s s' -> ->. done.
  - intros e s Hs. unfold emit, lift. st_eval. cbn.
    pose proof (running_sink w0 _ e _ Hs) as Hsink.
    by destruct (sink ext e (ls_world s)).
  - intros s Hs. destruct (env_aborted ext _). by apply running_shared.
  - intros s Hs. by apply running_on_shared.
  - intros s Hs. unfold get_steering_messages, drain_steering. destruct (aw_skip_steering _).
    + by apply running_skip.
    + destruct (PendingQueue.drain _). by apply running_shared.
  - intros s Hs. unfold drain_follow_up. destruct (PendingQueue.drain _). by apply running_shared.
  - intros s Hs. by apply running_on_shared.
  - intros s Hs. by apply running_shared.
  - intros f t j Hf s Hs. destruct (env_prepare_arguments ext); simplify_eq/=. by apply running_on_shared.
  - intros t c s Hs. by apply running_on_shared.
  - intros f m c j Hf s Hs. destruct (env_before ext); simplify_eq/=. by apply running_on_shared.
  - intros p s Hs. by apply running_on_shared.
  - intros f m p r b Hf s Hs. destruct (env_after ext); simplify_eq/=. by apply running_on_shared.
  - intros f m l c Hf s Hs. destruct (env_prepare_next_turn ext); simplify_eq/=. by apply running_on_shared.
  - intros f m l c Hf s Hs. destruct (env_should_stop ext); simplify_eq/=. by apply running_on_shared.
  - intros s Hs. by apply running_on_shared.
Qed.

Lemma running_request w0 cfg c : keeps_world (running_state w0) (λ w, (env_request (agent_env ext) cfg c w).2).
Proof. intros s Hs. by apply running_on_shared. Qed.

(** The loop, then the recording of a failure. *)
Lemma running_recover w0 r (s : LoopState (W:=world)) :
  running_state w0 s → ∃ trace, running w0 trace (recover ext (r, s)).2.
Proof.
  intros Hs. unfold recover. destruct r as [ms|e]; [by eexists|].
  unfold handle_run_failure.
  pose proof (running_on_shared w0 _ (env_now ext) _ Hs) as Hnow.
  destruct (on_shared (env_now ext) (ls_world s)) as [now w1]. cbn [snd] in Hnow.
  match goal with |- context [MessageStartEvent ?x] => set (m := x) end.
  assert (∀ es w trace, running w0 trace w →
    ∃ trace', running w0 trace' ((st_iter (sink ext) es ≫= λ _, mret (Some [m])) w).2) as Hiter.
  { induction es as [|e1 es IH]; intros w trace Hw; [by eexists|].
    pose proof (running_sink w0 _ e1 _ Hw) as Hk. cbn [st_iter]. unfold mbind, st_bind in *.
    destruct (sink ext e1 w) as [[[]|e2] w2]; [|by eexists]. by eapply IH. }
  destruct (Hiter [MessageStartEvent m; MessageEndEvent m; TurnEndEvent m []; AgentEndEvent [m]] w1 _ Hnow)
    as [trace Ht]. exists trace. revert Ht. cbn [st_iter]. unfold mbind, st_bind.
  repeat (destruct (sink ext _ _) as [[[]|?] ?]; [|done]). done.
Qed.

(** The beginning and the end of a run. *)
Definition begun (thread : Z) (w : world) : world := (begin_run thread "" w).2.

Lemma begin_run_eq thread message w :
  begin_run thread message w =
  match Lease.active_token (aw_lease w) with
  | Some _ => (Err (OtherError message), w)
  | None => (Ok tt, begun thread w)
  end.
Proof.
  unfold begun, begin_run, Lease.acquire, Lease.active. destruct (Lease.active_token (aw_lease w)).
  - by rewrite bool_decide_eq_true_2.
  - rewrite bool_decide_eq_false_2; [done|auto].
Qed.

Lemma begun_running thread w :
  Lease.active_token (aw_lease w) = None → as_pending_tool_calls (aw_state w) = ∅ →
  running (begun thread w) [] (begun thread w).
Proof.
  intros Hl Hp. unfold begun, begin_run, Lease.acquire, Lease.active. rewrite Hl.
  rewrite bool_decide_eq_false_2 by auto. split; cbn; try done. by rewrite app_nil_r.
Qed.

Lemma finish_at_rest thread w trace w' :
  Lease.active_token (aw_lease w) = None → running (begun thread w) trace w' → at_rest (finish_run w').
Proof.
  intros Hl [Hlease Htok _ _ _ _]. unfold begun, begin_run, Lease.acquire, Lease.active in *.
  rewrite Hl in *. rewrite bool_decide_eq_false_2 in * by auto. cbn in *.
  unfold finish_run. rewrite Htok, Hlease. split; cbn; try done.
  all: unfold Lease.release_token; cbn; rewrite bool_decide_eq_false_2; [done|auto].
Qed.

Lemma start_run_running fuel thread skip ms w0 w :
  running (begun thread w0) [] w →
  ∃ trace, running (begun thread w0) trace (start_run ext options fuel skip ms w).2.
Proof.
  intros Hw. unfold start_run.
  match goal with |- context [run_agent_loop ?e ?f ?p ?c ?g ?w1] =>
    pose proof (steady_run e _ (running_frame (begun thread w0)) (running_request _) f p c g w1
      (λ _, running_skip _ _ _ _ Hw)) as Hs;
    destruct (run_agent_loop e f p c g w1) as [r s] end.
  by apply running_recover.
Qed.

Lemma continue_run_running fuel thread context cfg w0 w :
  running (begun thread w0) [] w →
  ∃ trace, running (begun thread w0) trace
    (recover ext (run_agent_loop_continue (agent_env ext) fuel context cfg (set_skip false w))).2.
Proof.
  intros Hw.
  match goal with |- context [run_agent_loop_continue ?e ?f ?c ?g ?w1] =>
    pose proof (steady_continue e _ (running_frame (begun thread w0)) (running_request _) f c g w1
      (running_skip _ _ _ _ Hw)) as Hs;
    destruct (run_agent_loop_continue e f c g w1) as [r s] end.
  by apply running_recover.
Qed.

(** C20: Runs exclude each other and always end: while a run is in progress, [prompt]
    and [continue_] fail and change nothing; otherwise, however the run ends (a
    result, an exception of the provider, a hook or a listener, even one raised
    while the failure is being recorded), the agent is at rest again: lease and
    token released, idle, not streaming, no pending tool call. *)
Theorem runs_end_at_rest fuel thread prompt w :
  (is_Some (Lease.active_token (aw_lease w)) →
   (∃ m, async_prompt ext options fuel thread prompt w = (Err (OtherError m), w)) ∧
   (∃ m, async_continue ext options fuel thread w = (Err (OtherError m), w))) ∧
  (at_rest w →
   at_rest (async_prompt ext options fuel thread prompt w).2 ∧
   at_rest (async_continue ext options fuel thread w).2).
Proof.
  split.
  { intros [t Ht]. unfold async_prompt, async_continue. rewrite !begin_run_eq, Ht. split; by eexists. }
  intros [Hl _ _ _ _ _ Hp]. pose proof (begun_running thread w Hl Hp) as Hw.
  unfold async_prompt, async_continue. rewrite !begin_run_eq, Hl. split.
  - destruct (prompt_messages ext prompt (begun thread w)) as [ms w1] eqn:Hms.
    assert (running (begun thread w) [] w1) as Hw1.
    { unfold prompt_messages in Hms. destruct prompt; simplify_eq; [|done..].
      pose proof (running_on_shared _ _ (env_now ext) _ Hw) as Hn.
      destruct (on_shared (env_now ext) (begun thread w)). by simplify_eq. }
    destruct (start_run_running fuel thread false ms w w1 Hw1) as [trace Ht].
    destruct (start_run ext options fuel false ms w1) as [r w2]. by eapply finish_at_rest.
  - assert (∀ x : result exn (option (list AgentMessage)) * world,
      (∃ trace, running (begun thread w) trace x.2) →
      at_rest (let (r, w') := x in (r, finish_run w')).2) as Hfin.
    { intros [r w'] [trace Ht]. by eapply finish_at_rest. }
    apply Hfin. destruct (last _) as [m|]; [|by eexists].
    destruct (bool_decide _); [|by apply continue_run_running].
    unfold drain_steering, drain_follow_up. destruct (PendingQueue.drain _) as [[|m1 ms1] q].
    2: { apply start_run_running. by apply running_shared. }
    destruct (PendingQueue.drain _) as [[|m2 ms2] q2].
    + cbn. exists []. by do 2 apply running_shared.
    + apply start_run_running. by do 2 apply running_shared.
Qed.

(** The listeners accept every event. *)
Definition listeners_ok : Prop := ∀ e sh, (env_emit ext e sh).1 = Ok tt.

Lemma sink_listeners_ok e w : listeners_ok →
  ∃ sh, sink ext e w = (Ok tt, set_shared sh (set_state (process_event e (aw_state w)) w)).
Proof.
  intros Hok. unfold sink, on_shared. specialize (Hok e (aw_shared w)). cbn.
  destruct (env_emit ext e (aw_shared w)) as [r sh]. cbn in Hok. subst. by eexists.
Qed.

(** What recording a failure leaves. *)
Lemma handle_run_failure_ok e was_aborted w : listeners_ok →
  ∃ now w', let m := failure_message (exn_str e) was_aborted now (as_model (aw_state w)) in
    handle_run_failure ext e was_aborted w = (Ok (Some [AssistantMsg m]), w') ∧
    as_messages (aw_state w') = as_messages (aw_state w) ++ [AssistantMsg m] ∧
    as_error_message (aw_state w') = Some (exn_str e).
Proof.
  intros Hok. unfold handle_run_failure, on_shared. destruct (env_now ext (aw_shared w)) as [now sh].
  exists now. cbv zeta. cbn [aw_state set_shared]. set (m := failure_message _ _ _ _).
  unfold mbind, st_bind.
  edestruct (sink_listeners_ok (MessageStartEvent (AssistantMsg m))) as [sh1 ->]; [done|].
  edestruct (sink_listeners_ok (MessageEndEvent (AssistantMsg m))) as [sh2 ->]; [done|].
  edestruct (sink_listeners_ok (TurnEndEvent (AssistantMsg m) [])) as [sh3 ->]; [done|].
  edestruct (sink_listeners_ok (AgentEndEvent [AssistantMsg m])) as [sh4 ->]; [done|].
  eexists. split_and!; [reflexivity|done|]. cbn. by destruct was_aborted.
Qed.

Lemma prompt_messages_running thread prompt w : at_rest w →
  running (begun thread w) [] (prompt_messages ext prompt (begun thread w)).2.
Proof.
  intros [Hl _ _ _ _ _ Hp]. pose proof (begun_running thread w Hl Hp) as Hw.
  unfold prompt_messages. destruct prompt; [|done..].
  pose proof (running_on_shared _ _ (env_now ext) _ Hw) as Hn.
  by destruct (on_shared (env_now ext) (begun thread w)).
Qed.

(** What a prompt leaves in the conversation.  When the loop returns, [prompt]
    returns the loop's messages and the conversation is extended by exactly them,
    so that it equals the context the loop ended with; when the loop raises, the
    conversation keeps every message whose end was announced, a message that
    records the failure is added and returned, and the agent shows the error. *)
Theorem prompt_records fuel thread prompt w :
  at_rest w → sink_ok (agent_env ext) →
  let start := prompt_messages ext prompt (begun thread w) in
  let run := run_agent_loop (agent_env ext) fuel start.1 (agent_context (aw_state start.2))
               (build_config options (aw_state start.2)) (set_skip false start.2) in
  let final := async_prompt ext options fuel thread prompt w in
  let messages := as_messages (aw_state final.2) in
  match run.1 with
  | Ok (Some new) =>
      final.1 = Ok (Some new) ∧ messages = as_messages (aw_state w) ++ new ∧
      (no_swap (agent_env ext) → ctx_messages (ls_context run.2) = messages)
  | Ok None => final.1 = Ok None
  | Err e => listeners_ok →
      ∃ failure, final.1 = Ok (Some [AssistantMsg failure]) ∧
        messages = as_messages (aw_state w) ++ ended_messages (ls_trace run.2) ++ [AssistantMsg failure] ∧
        am_error_message failure = Some (exn_str e) ∧
        as_error_message (aw_state final.2) = Some (exn_str e)
  end.
Proof.
  intros Hrest Hsink start run final messages. pose proof (prompt_messages_running thread prompt w Hrest) as Hw.
  fold start in Hw. assert (as_messages (aw_state (begun thread w)) = as_messages (aw_state w)) as Hbegun.
  { unfold begun, begin_run, Lease.acquire, Lease.active. by destruct (bool_decide _). }
  assert (final = (let (r, w') := recover ext run in (r, finish_run w'))) as Hfinal.
  { unfold final, async_prompt. rewrite begin_run_eq, (rest_lease _ Hrest).
    unfold run, start, start_run. by destruct (prompt_messages ext prompt (begun thread w)). }
  assert (running_state (begun thread w) run.2) as Hrun.
  { apply (steady_run (agent_env ext) _ (running_frame _) (running_request _)).
    intros c. by apply running_skip. }
  pose proof (run_messages _ _ _ Hw) as Hstart. cbn in Hstart. rewrite app_nil_r in Hstart.
  pose proof (run_messages _ _ _ Hrun) as Hend. rewrite Hbegun in Hend, Hstart.
  pose proof (run_agent_loop_trace_at (agent_env ext) fuel start.1 (agent_context (aw_state start.2))
    (build_config options (aw_state start.2)) (set_skip false start.2) Hsink) as Htrace.
  fold run in Htrace. unfold messages. rewrite Hfinal. clearbody run. clear final messages Hfinal.
  destruct run as [[[new|]|e] s]; cbn [fst snd recover] in *.
  - destruct Htrace as [Hok Hctx]. apply trace_ended in Hok. cbn in Hok. subst new.
    cbn [finish_run aw_state as_messages]. rewrite Hend.
    split_and!; [done|done|]. intros Hno. rewrite Hctx by done. cbn [agent_context ctx_messages].
    by rewrite Hstart.
  - done.
  - intros Hok. edestruct (handle_run_failure_ok e) as (now & w' & -> & Hm & He); [done|].
    eexists. cbn. split_and!; [done| |done|done]. by rewrite Hm, Hend, (assoc_L (++)).
Qed.
End agent_spec.

(** ** Samples *)

(** An environment that touches only its own world. *)
Section embed.
Context {W : Type}.
Variable env : Env W.

Definition on_world {A} (f : W → A * W) (sh : Shared W) : A * Shared W :=
  let (a, w) := f (sh_world sh) in
  (a, {| sh_world := w; sh_steering := sh_steering sh; sh_follow_up := sh_follow_up sh;
         sh_aborted := sh_aborted sh |}).

Definition embed_env : Env (Shared W) := {|
  env_aborted := on_world (env_aborted env);
  env_now := on_world (env_now env);
  env_emit e := on_world (env_emit env e);
  env_steering := on_world (env_steering env);
  env_follow_up := on_world (env_follow_up env);
  env_request cfg c := on_world (env_request env cfg c);
  env_response_result := on_world (env_response_result env);
  env_response_close sh := (on_world (λ w, (tt, env_response_close env w)) sh).2;
  env_prepare_arguments := None;
  env_validate t c := on_world (env_validate env t c);
  env_before := None;
  env_execute p := on_world (env_execute env p);
  env_after := None;
  env_prepare_next_turn := None;
  env_should_stop := None;
  env_schedule := on_world (env_schedule env)
|}.
End embed.

Definition sample_options : AgentOptions :=
  {| opt_tool_execution_sequential := false; opt_max_parallel_tools := 2 |}.

(** An agent at rest with one steering and one follow-up message queued. *)
Definition sample_agent : AgentWorld script_world :=
  {| aw_shared := {| sh_world := script_start;
       sh_steering := {| PendingQueue.messages := [CustomMessage "user" JNull];
                         PendingQueue.mode_all := false |};
       sh_follow_up := {| PendingQueue.messages := []; PendingQueue.mode_all := false |};
       sh_aborted := false |};
     aw_state := {| as_system_prompt := ""; as_model := cfg_model script_config;
       as_thinking_level := "off"; as_tools := ctx_tools script_context; as_messages := [];
       as_is_streaming := false; as_streaming_message := None; as_pending_tool_calls := ∅;
       as_error_message := None |};
     aw_lease := Lease.new_lease; aw_token := None; aw_idle := true; aw_skip_steering := false |}.

Lemma sample_agent_rest : at_rest sample_agent.
Proof. by split. Qed.

Lemma runs_end_at_rest_witness :
  at_rest (async_prompt (embed_env script_env) sample_options 5 1 (PromptText "hi" []) sample_agent).2.
Proof.
  exact (proj1 (proj2 (runs_end_at_rest (embed_env script_env) sample_options 5 1 (PromptText "hi" [])
    sample_agent) sample_agent_rest)).
Defined.

Lemma sample_sink_ok : sink_ok (agent_env (embed_env script_env)).
Proof. done. Qed.

Lemma prompt_records_witness :
  ∃ new, length new = 6%nat ∧
    (async_prompt (embed_env script_env) sample_options 5 1 (PromptText "hi" []) sample_agent).1 = Ok (Some new).
Proof.
  pose proof (prompt_records (embed_env script_env) sample_options 5 1 (PromptText "hi" []) sample_agent
    sample_agent_rest sample_sink_ok) as H.
  cbv zeta in H.
  destruct (run_agent_loop _ _ _ _ _ _) as [r s] eqn:Hr in H.
  cbn [fst] in H.
  vm_compute in Hr. injection Hr as Hr _. subst r.
  destruct H as [H _]. eexists. split; [|exact H]. reflexivity.
Defined.
