(* ===== verification/SessionStore.v ===== *)
(** The append-only session store (travis/coding_agent/session_store.py): the session
    file as bytes, the entries in memory, appends under the file lock, recovery of a
    truncated tail, and the tree of entries.

    An entry is a dictionary of JSON values; identifiers are JSON values as the file
    has them, [JNull] standing for [None].  The file lock makes each operation one
    step on the disk; what other processes append between two steps is a change of
    the disk.  I/O errors are modelled where the code survives them: in the write of
    an append.  Bytes of 128 and more count as undecodable (the program writes
    ASCII); the session index is not modelled (its errors are swallowed). *)

From S2P Require Import Prelude Json JsonText.
Open Scope Z_scope.

Definition entry : Type := list (string * json).

(** [entry.get(k)]. *)
Definition eget (k : string) (e : entry) : json := default JNull (dict_get k e).

(** [bool(value)]; a float zero is its [repr]. *)
Definition truthy (j : json) : bool :=
  match j with
  | JNull => false
  | JBool b => b
  | JInt z => negb (z =? 0)
  | JFloat r => negb (bool_decide (r ∈ ["0.0"; "-0.0"]%string))
  | JStr s => negb (bool_decide (s = ""%string))
  | JList l => match l with [] => false | _ => true end
  | JObj d => match d with [] => false | _ => true end
  end.

Definition hashable (j : json) : bool :=
  match j with JList _ | JObj _ => false | _ => true end.

Inductive store_error : Type :=
  | SessionCorruptionError (line_number : nat)
  | ValueError (message : string)
  | TypeError (message : string)
  | AttributeError (message : string)
  | OSError
  | ModelLimit (what : string).

(** ** Lines of a file *)

Definition is_newline (c : ascii) : bool := (code c =? 10) || (code c =? 13).

(** [raw.splitlines(keepends=True)]. *)
Fixpoint split_lines (raw : text) : list text :=
  match raw with
  | [] => []
  | c :: rest =>
      if code c =? 10 then [c] :: split_lines rest
      else if code c =? 13 then
        match rest with
        | d :: rest' => if code d =? 10 then [c; d] :: split_lines rest' else [c] :: split_lines rest
        | [] => [[c]]
        end
      else match split_lines rest with
           | [] => [[c]]
           | line :: ls => (c :: line) :: ls
           end
  end.

(** [raw.endswith((b"\n", b"\r"))]. *)
Definition ends_line (raw : text) : bool :=
  match last raw with Some c => is_newline c | None => false end.

(** [not raw.strip()]. *)
Definition blank (raw : text) : bool :=
  forallb (λ c, (code c =? 32) || in_range 9 13 (code c)) raw.

(** [json.loads(raw.decode("utf-8"))]. *)
Definition loads_bytes (raw : text) : option json :=
  if forallb (λ c, code c <? 128) raw then json_loads raw else None.

(** ** State *)

(** What reading a file gives. *)
Record View : Type := {
  v_entries : list entry;
  v_by_id : list (json * entry);
  v_leaf : json
}.

Definition empty_view : View := {| v_entries := []; v_by_id := []; v_leaf := JNull |}.

(** [d[k] = v] and [d.get(k)]. *)
Fixpoint by_id_set (k : json) (e : entry) (d : list (json * entry)) : list (json * entry) :=
  match d with
  | [] => [(k, e)]
  | (k', e') :: rest => if bool_decide (k' = k) then (k, e) :: rest else (k', e') :: by_id_set k e rest
  end.
Definition by_id_get (k : json) (d : list (json * entry)) : option entry :=
  snd <$> List.find (λ p, bool_decide (p.1 = k)) d.

(** [src: travis/coding_agent/session_store.py:228-233 SessionStore._apply_loaded_entry] *)
Definition apply_loaded_entry (j : json) (v : View) : result store_error View :=
  match j with
  | JObj e =>
      let entries := v_entries v ++ [e] in
      let id := eget "id" e in
      if bool_decide (eget "type" e = JStr "session") || negb (truthy id)
      then Ok {| v_entries := entries; v_by_id := v_by_id v; v_leaf := v_leaf v |}
      else if hashable id
      then Ok {| v_entries := entries; v_by_id := by_id_set id e (v_by_id v); v_leaf := id |}
      else Err (TypeError "unhashable type")
  | _ => Err (AttributeError "get")
  end.

(** The disk: the session file's identity (device and inode) and bytes, the next
    identity, and the truncated tails put aside. *)
Record Disk : Type := {
  d_identity : nat;
  d_bytes : text;
  d_next_identity : nat;
  d_quarantine : list text
}.

(** [src: travis/coding_agent/session_store.py:110-135 SessionStore.__init__]: the fields. *)
Record SessionStore : Type := {
  ss_view : View;
  ss_disk_leaf : json;
  ss_disk_offset : nat;
  ss_disk_identity : option nat;
  ss_explicit : bool;
  ss_recovered_tail : option text
}.

Record State : Type := {
  store : SessionStore;
  disk : Disk
}.

Definition op (A : Type) : Type := st State store_error A.

Definition put_view (v : View) (s : State) : State :=
  let x := store s in
  {| store := {| ss_view := v; ss_disk_leaf := ss_disk_leaf x; ss_disk_offset := ss_disk_offset x;
       ss_disk_identity := ss_disk_identity x; ss_explicit := ss_explicit x;
       ss_recovered_tail := ss_recovered_tail x |};
     disk := disk s |}.

(** [self.leaf_id = leaf; self._explicit_parent_selection = explicit]. *)
Definition select_leaf (leaf : json) (explicit : bool) (s : State) : State :=
  let x := store s in
  let v := ss_view x in
  {| store := {| ss_view := {| v_entries := v_entries v; v_by_id := v_by_id v; v_leaf := leaf |};
       ss_disk_leaf := ss_disk_leaf x; ss_disk_offset := ss_disk_offset x;
       ss_disk_identity := ss_disk_identity x; ss_explicit := explicit;
       ss_recovered_tail := ss_recovered_tail x |};
     disk := disk s |}.

(** The bookkeeping after reading or writing up to [offset]. *)
Definition note_disk (offset : nat) (explicit : bool) (s : State) : State :=
  let x := store s in
  {| store := {| ss_view := ss_view x; ss_disk_leaf := v_leaf (ss_view x); ss_disk_offset := offset;
       ss_disk_identity := Some (d_identity (disk s)); ss_explicit := explicit;
       ss_recovered_tail := ss_recovered_tail x |};
     disk := disk s |}.

Definition put_bytes (bytes : text) (s : State) : State :=
  {| store := store s;
     disk := {| d_identity := d_identity (disk s); d_bytes := bytes;
                d_next_identity := d_next_identity (disk s); d_quarantine := d_quarantine (disk s) |} |}.

Definition apply_line (j : json) : op unit := λ s,
  match apply_loaded_entry j (ss_view (store s)) with
  | Ok v => (Ok tt, put_view v s)
  | Err e => (Err e, s)
  end.

(** [src: travis/coding_agent/session_store.py:235-261 SessionStore._recover_truncated_tail]:
    the tail is put aside and the file replaced by the valid prefix. *)
Definition recover_truncated_tail (valid_prefix tail : text) (s : State) : State :=
  let x := store s in
  let d := disk s in
  {| store := {| ss_view := ss_view x; ss_disk_leaf := ss_disk_leaf x;
       ss_disk_offset := ss_disk_offset x; ss_disk_identity := ss_disk_identity x;
       ss_explicit := ss_explicit x; ss_recovered_tail := Some tail |};
     disk := {| d_identity := d_next_identity d; d_bytes := valid_prefix;
                d_next_identity := S (d_next_identity d);
                d_quarantine := d_quarantine d ++ [tail] |} |}.

Fixpoint load_lines (index : nat) (before : text) (lines : list text) : op unit :=
  match lines with
  | [] => mret tt
  | line :: rest =>
      if blank line then load_lines (S index) (before ++ line) rest
      else match loads_bytes line with
      | Some j => _ ← apply_line j; load_lines (S index) (before ++ line) rest
      | None =>
          match rest with
          | [] => if ends_line line then mthrow (SessionCorruptionError (S index))
                  else st_modify (recover_truncated_tail before line)
          | _ => mthrow (SessionCorruptionError (S index))
          end
      end
  end.

Definition reset_view (s : State) : State :=
  let x := store s in
  {| store := {| ss_view := empty_view; ss_disk_leaf := ss_disk_leaf x;
       ss_disk_offset := ss_disk_offset x; ss_disk_identity := ss_disk_identity x;
       ss_explicit := ss_explicit x; ss_recovered_tail := None |};
     disk := disk s |}.

(** [src: travis/coding_agent/session_store.py:163-192 SessionStore._rebuild_from_bytes] (and
    [_load], whose bookkeeping is [note_disk]). *)
Definition load : op unit :=
  s ← st_get;
  _ ← st_modify reset_view;
  _ ← load_lines 0 [] (split_lines (d_bytes (disk s)));
  s ← st_get;
  st_modify (note_disk (length (d_bytes (disk s))) false).

Fixpoint sync_lines (line_number : nat) (lines : list text) : op unit :=
  match lines with
  | [] => mret tt
  | line :: rest =>
      if blank line then sync_lines (S line_number) rest
      else match loads_bytes line with
      | Some j => _ ← apply_line j; sync_lines (S line_number) rest
      | None => mthrow (SessionCorruptionError line_number)
      end
  end.

(** [src: travis/coding_agent/session_store.py:199-226 SessionStore._sync_from_disk] *)
Definition sync_from_disk : op unit :=
  s ← st_get;
  let x := store s in
  let bytes := d_bytes (disk s) in
  if bool_decide (ss_disk_identity x ≠ Some (d_identity (disk s))) ||
     (length bytes <? ss_disk_offset x)%nat then load
  else if (length bytes =? ss_disk_offset x)%nat then mret tt
  else
    let suffix := drop (ss_disk_offset x) bytes in
    if negb (ends_line suffix) then load
    else
      _ ← sync_lines (S (length (v_entries (ss_view x)))) (split_lines suffix);
      st_modify (note_disk (length bytes) (ss_explicit x)).

(** How a write to the file ends: complete, or with an error after some bytes have
    reached the file (all of them when only [fsync] fails). *)
Inductive write_outcome : Type :=
  | WriteAll
  | WriteFails (written : nat).

(** [src: travis/coding_agent/session_store.py:627-651 SessionStore._write_record] *)
Definition write_record (o : write_outcome) (payload : text) : op unit :=
  s ← st_get;
  match o with
  | WriteAll => st_modify (put_bytes (d_bytes (disk s) ++ payload))
  | WriteFails n =>
      _ ← st_modify (put_bytes (d_bytes (disk s) ++ take n payload));
      mthrow OSError
  end.

(** [src: travis/coding_agent/session_store.py:659-663 SessionStore._generate_id]: the first
    of the identifiers drawn that is not in use. *)
Definition generate_id (draws : list string) (by_id : list (json * entry)) : result store_error string :=
  match List.find (λ d, bool_decide (by_id_get (JStr d) by_id = None)) draws with
  | Some d => Ok d
  | None => Err (ModelLimit "draws")
  end.

(** [src: travis/coding_agent/session_store.py:687-688 _record_payload] *)
Definition record_payload (e : entry) : text := print_json (JObj e) ++ [ch 10].

(** [src: travis/coding_agent/session_store.py:653-657 SessionStore._apply_committed_entry] *)
Definition apply_committed_entry (id : json) (e : entry) (v : View) : View :=
  {| v_entries := v_entries v ++ [e]; v_by_id := by_id_set id e (v_by_id v); v_leaf := id |}.

(** [{**entry, "id": ..., "parentId": ..., "timestamp": ...}]. *)
Definition commit (e : entry) (id parent timestamp : json) : entry :=
  dict_set "timestamp" timestamp (dict_set "parentId" parent (dict_set "id" id e)).

(** What an operation draws from outside: identifiers, the clock, the write. *)
Record Draw : Type := {
  dr_ids : list string;
  dr_now : string;
  dr_write : write_outcome
}.

(** [src: travis/coding_agent/session_store.py:604-625 SessionStore._append_entry] *)
Definition append_entry (dr : Draw) (e : entry) : op string :=
  s ← st_get;
  let selected_parent := v_leaf (ss_view (store s)) in
  let follows_disk_leaf :=
    negb (ss_explicit (store s)) && bool_decide (selected_parent = ss_disk_leaf (store s)) in
  _ ← sync_from_disk;
  s ← st_get;
  let parent_id := if follows_disk_leaf then v_leaf (ss_view (store s)) else selected_parent in
  id ← st_lift (generate_id (dr_ids dr) (v_by_id (ss_view (store s))));
  let committed := commit e (JStr id) parent_id (JStr (dr_now dr)) in
  let payload := record_payload committed in
  _ ← write_record (dr_write dr) payload;
  _ ← st_modify (λ s, put_view (apply_committed_entry (JStr id) committed (ss_view (store s))) s);
  _ ← st_modify (λ s, note_disk (ss_disk_offset (store s) + length payload) false s);
  mret id.

(** [src: travis/coding_agent/session_store.py:137-161 SessionStore._write_header]: the file
    is replaced atomically by the header. *)
Definition write_header (cwd : string) (parent_session : option string) (session_id now : string)
    : op unit :=
  let header := [("type", JStr "session"); ("version", JInt 3); ("id", JStr session_id);
                 ("timestamp", JStr now); ("cwd", JStr cwd)]%string ++
                match parent_session with
                | Some p => if bool_decide (p = ""%string) then [] else [("parentSession", JStr p)]%string
                | None => []
                end in
  let payload := record_payload header in
  _ ← st_modify (λ s,
    {| store := store s;
       disk := {| d_identity := d_next_identity (disk s); d_bytes := payload;
                  d_next_identity := S (d_next_identity (disk s));
                  d_quarantine := d_quarantine (disk s) |} |});
  _ ← st_modify (put_view {| v_entries := [header]; v_by_id := []; v_leaf := JNull |});
  st_modify (note_disk (length payload) false).

Definition fresh_store : SessionStore :=
  {| ss_view := empty_view; ss_disk_leaf := JNull; ss_disk_offset := 0; ss_disk_identity := None;
     ss_explicit := false; ss_recovered_tail := None |}.

(** [src: travis/coding_agent/session_store.py:110-135 SessionStore.__init__] *)
Definition open_store (cwd : string) (parent_session : option string) (session_id now : string) (d : Disk)
    : result store_error unit * State :=
  (match d_bytes d with
   | [] => write_header cwd parent_session session_id now
   | _ => load
   end) {| store := fresh_store; disk := d |}.

(** ** Reading *)

(** [src: travis/coding_agent/session_store.py:262-264 SessionStore.entries] *)
Definition entries (v : View) : list entry :=
  List.filter (λ e, negb (bool_decide (eget "type" e = JStr "session"))) (v_entries v).

(** [src: travis/coding_agent/session_store.py:266-267 SessionStore.get_entry] *)
Definition get_entry (id : json) (v : View) : option entry := by_id_get id (v_by_id v).

(** [src: travis/coding_agent/session_store.py:273-274 SessionStore.get_children] *)
Definition get_children (parent : json) (v : View) : list entry :=
  List.filter (λ e, bool_decide (eget "parentId" e = parent)) (v_by_id v).*2.

(** [src: travis/coding_agent/session_store.py:277-283 SessionStore.get_label]: the value of
    the last label entry for the target. *)
Definition get_label (id : json) (v : View) : json :=
  foldl (λ label e,
    if bool_decide (eget "type" e = JStr "label") && bool_decide (eget "targetId" e = id)
    then (if truthy (eget "label" e) then eget "label" e else JNull)
    else label) JNull (v_entries v).

(** [src: travis/coding_agent/session_store.py:550-555 SessionStore.header] *)
Definition header (v : View) : entry :=
  match List.find (λ e, bool_decide (eget "type" e = JStr "session")) (v_entries v) with
  | Some e => e
  | None => []
  end.

(** [self.by_id.get(id) if id else None]. *)
Definition lookup_id (id : json) (v : View) : result store_error (option entry) :=
  if negb (truthy id) then Ok None
  else if hashable id then Ok (by_id_get id (v_by_id v))
  else Err (TypeError "unhashable type").

(** The loop of [get_branch]: [path] is what has been collected. *)
Fixpoint branch_from (fuel : nat) (v : View) (id : json) (path : list entry)
    : result store_error (list entry) :=
  match fuel with
  | O => Err (ModelLimit "fuel")
  | S fuel =>
      current ← lookup_id id v;
      match current with
      | None => Ok path
      | Some e => branch_from fuel v (eget "parentId" e) (e :: path)
      end
  end.

(** [src: travis/coding_agent/session_store.py:557-565 SessionStore.get_branch]: the fuel is
    one more than the number of identifiers, enough when no parents form a cycle. *)
Definition get_branch (v : View) (from_id : json) : result store_error (list entry) :=
  branch_from (S (length (v_by_id v))) v (if truthy from_id then from_id else v_leaf v) [].

(** ** The operations that append *)

(** [src: travis/coding_agent/session_store.py:338-339 SessionStore.append_message]: with the
    serialized message. *)
Definition append_message (dr : Draw) (message : json) : op string :=
  append_entry dr [("type", JStr "message"); ("message", message)]%string.

(** [src: travis/coding_agent/session_store.py:341-342 SessionStore.append_thinking_level_change] *)
Definition append_thinking_level_change (dr : Draw) (level : string) : op string :=
  append_entry dr [("type", JStr "thinking_level_change"); ("thinkingLevel", JStr level)]%string.

(** [src: travis/coding_agent/session_store.py:344-351 SessionStore.append_generation_params_change] *)
Definition append_generation_params_change (dr : Draw) (params : json) : op string :=
  append_entry dr [("type", JStr "generation_params_change"); ("params", params)]%string.

(** [src: travis/coding_agent/session_store.py:353-354 SessionStore.append_model_change] *)
Definition append_model_change (dr : Draw) (provider model_id : string) : op string :=
  append_entry dr [("type", JStr "model_change"); ("provider", JStr provider);
                   ("modelId", JStr model_id)]%string.

(** [src: travis/coding_agent/session_store.py:390-394 SessionStore.append_custom_entry] *)
Definition append_custom_entry (dr : Draw) (custom_type : string) (data : option json) : op string :=
  append_entry dr ([("type", JStr "custom"); ("customType", JStr custom_type)]%string ++
                   match data with Some d => [("data", d)]%string | None => [] end).

(** [src: travis/coding_agent/session_store.py:397-412 SessionStore.append_custom_message_entry] *)
Definition append_custom_message_entry (dr : Draw) (custom_type : string) (content : json)
    (display : bool) (details : option json) : op string :=
  append_entry dr ([("type", JStr "custom_message"); ("customType", JStr custom_type);
                    ("content", content); ("display", JBool display)]%string ++
                   match details with Some d => [("details", d)]%string | None => [] end).

Definition known_id (id : string) (s : State) : bool :=
  bool_decide (is_Some (by_id_get (JStr id) (v_by_id (ss_view (store s))))).

(** [src: travis/coding_agent/session_store.py:415-418 SessionStore.append_label_change] *)
Definition append_label_change (dr : Draw) (target : string) (label : option string) : op string :=
  s ← st_get;
  if negb (known_id target s) then mthrow (ValueError ("Entry " +:+ target +:+ " not found"))
  else append_entry dr [("type", JStr "label"); ("targetId", JStr target);
    ("label", match label with
              | Some l => if bool_decide (l = ""%string) then JNull else JStr l
              | None => JNull
              end)]%string.

(** [try: m except Exception: ...; raise]. *)
Definition on_error {A} (m : op A) (undo : State → State) : op A := λ s,
  match m s with
  | (Err e, s') => (Err e, undo s')
  | r => r
  end.

(** [src: travis/coding_agent/session_store.py:359-388 SessionStore.append_compaction] *)
Definition append_compaction (dr : Draw) (summary first_kept : string) (tokens_before : Z)
    (details : option json) (parent : option string) : op string :=
  let e := [("type", JStr "compaction"); ("summary", JStr summary);
            ("firstKeptEntryId", JStr first_kept); ("tokensBefore", JInt tokens_before)]%string ++
           match details with Some d => [("details", d)]%string | None => [] end in
  s ← st_get;
  let previous_leaf := v_leaf (ss_view (store s)) in
  let previous_explicit := ss_explicit (store s) in
  _ ← match parent with
      | None => mret tt
      | Some p =>
          if negb (known_id p s) then mthrow (ValueError ("Entry " +:+ p +:+ " not found"))
          else st_modify (select_leaf (JStr p) true)
      end;
  on_error (append_entry dr e) (select_leaf previous_leaf previous_explicit).

(** [src: travis/coding_agent/session_store.py:421-425 SessionStore.branch] *)
Definition branch (id : string) : op unit :=
  s ← st_get;
  if negb (known_id id s) then mthrow (ValueError ("Invalid entry ID for branching: " +:+ id))
  else st_modify (select_leaf (JStr id) true).

(** [src: travis/coding_agent/session_store.py:427-429 SessionStore.reset_leaf] *)
Definition reset_leaf : op unit := st_modify (select_leaf JNull true).

(** [src: travis/coding_agent/session_store.py:432-452 SessionStore.branch_with_summary] *)
Definition branch_with_summary (dr : Draw) (branch_from_id : option string) (summary : string)
    (details : option json) (from_hook : option bool) : op string :=
  s ← st_get;
  _ ← match branch_from_id with
      | Some id => if negb (known_id id s) then mthrow (ValueError ("Entry " +:+ id +:+ " not found"))
                   else mret tt
      | None => mret tt
      end;
  _ ← st_modify (select_leaf (match branch_from_id with Some id => JStr id | None => JNull end) true);
  append_entry dr ([("type", JStr "branch_summary");
    ("fromId", JStr match branch_from_id with
                    | Some id => if bool_decide (id = ""%string) then "root" else id
                    | None => "root"
                    end);
    ("summary", JStr summary)]%string ++
    match details with Some d => [("details", d)]%string | None => [] end ++
    match from_hook with Some b => [("fromHook", JBool b)]%string | None => [] end).

(** [src: travis/coding_agent/session_store.py:601-602 SessionStore.append_checkpoint] *)
Definition append_checkpoint (dr : Draw) (e : entry) : op string := append_entry dr e.

(** [str.strip] for code points below 256. *)
Definition is_py_space (c : ascii) : bool :=
  let n := code c in
  in_range 9 13 n || in_range 28 32 n || (n =? 133) || (n =? 160).
Fixpoint drop_spaces (s : text) : text :=
  match s with
  | c :: rest => if is_py_space c then drop_spaces rest else s
  | [] => []
  end.
Definition py_strip (s : string) : string :=
  String.string_of_list_ascii (rev (drop_spaces (rev (drop_spaces (chars s))))).

(** [src: travis/coding_agent/session_store.py:356-357 SessionStore.append_session_info] *)
Definition append_session_info (dr : Draw) (name : option string) : op string :=
  append_entry dr [("type", JStr "session_info"); ("name", JStr (py_strip (default ""%string name)))]%string.

(** ** Copies of a branch *)

(** The entries of a branch without the labels, each the child of the one before. *)
Fixpoint relink (parent : json) (es : list entry) : list entry :=
  match es with
  | [] => []
  | e :: rest =>
      if bool_decide (eget "type" e = JStr "label") then relink parent rest
      else dict_set "parentId" parent e :: relink (eget "id" e) rest
  end.

(** The label entry in force for a target. *)
Definition resolved_label (target : string) (all : list entry) : option entry :=
  foldl (λ found e,
    if bool_decide (eget "type" e = JStr "label") && bool_decide (eget "targetId" e = JStr target)
    then (if truthy (eget "label" e) then Some e else None)
    else found) None all.

(** The first identifier drawn that is not retained, and the draws that are left. *)
Fixpoint draw_unused (draws retained : list string) : result store_error (string * list string) :=
  match draws with
  | [] => Err (ModelLimit "draws")
  | d :: rest => if bool_decide (d ∈ retained) then draw_unused rest retained else Ok (d, rest)
  end.

(** The labels of the copied entries, appended to the chain. *)
Fixpoint copy_labels (all : list entry) (now : string) (draws retained : list string) (parent : json)
    (copied : list entry) : result store_error (list entry) :=
  match copied with
  | [] => Ok []
  | e :: rest =>
      match eget "id" e with
      | JStr target =>
          match resolved_label target all with
          | None => copy_labels all now draws retained parent rest
          | Some source =>
              '(id, draws) ← draw_unused draws retained;
              ls ← copy_labels all now draws (id :: retained) (JStr id) rest;
              Ok ([("type", JStr "label"); ("id", JStr id); ("parentId", parent);
                   ("timestamp", if truthy (eget "timestamp" source) then eget "timestamp" source
                                 else JStr now);
                   ("targetId", JStr target); ("label", eget "label" source)]%string :: ls)
          end
      | _ => Err (ModelLimit "id")
      end
  end.

Definition string_ids (es : list entry) : list string :=
  omap (λ e, match eget "id" e with JStr s => Some s | _ => None end) es.

(** [src: travis/coding_agent/session_store.py:457-518 SessionStore.create_branched_session]:
    the entries of the new file; [session_id] and [draws] are the identifiers drawn. *)
Definition create_branched_session (path session_id now : string) (draws : list string)
    (leaf : json) (v : View) : result store_error (list entry) :=
  branch_entries ← get_branch v leaf;
  match branch_entries with
  | [] => Err (ValueError "Entry not found")
  | _ =>
      let head := [("type", JStr "session"); ("version", JInt 3); ("id", JStr session_id);
                   ("timestamp", JStr now); ("cwd", default (JStr "") (dict_get "cwd" (header v)));
                   ("parentSession", JStr path)]%string in
      let copied := relink JNull branch_entries in
      let parent := match last copied with Some e => eget "id" e | None => JNull end in
      ls ← copy_labels (v_entries v) now draws (string_ids copied) parent copied;
      Ok (head :: copied ++ ls)
  end.

Fixpoint linearize (previous : json) (es : list entry) : list entry :=
  match es with
  | [] => []
  | e :: rest => dict_set "parentId" previous e :: linearize (eget "id" e) rest
  end.

(** [src: travis/coding_agent/session_store.py:520-547 SessionStore.export_to_jsonl]: the
    entries of the exported file. *)
Definition export_to_jsonl (now : string) (v : View) : result store_error (list entry) :=
  branch_entries ← get_branch v JNull;
  let head := [("type", JStr "session"); ("version", JInt 3);
               ("id", default (JStr "") (dict_get "id" (header v))); ("timestamp", JStr now);
               ("cwd", default (JStr "") (dict_get "cwd" (header v)))]%string in
  Ok (head :: linearize JNull branch_entries).

(** The bytes of a file of entries. *)
Definition file_bytes (es : list entry) : text := concat (map record_payload es).
