(* ===== verification/SessionStoreSpec.v ===== *)
(** What the session store promises: an append is on disk exactly as it is in memory
    and follows what other processes appended; a truncated append is recovered to
    what was there before; branches of the entry tree end at a root; copies of a
    branch are linear. *)

From S2P Require Import Prelude Json JsonText SessionStore.
Open Scope Z_scope.

(** ** Files of entries *)

Definition entry_ok (e : entry) : bool := json_ok (JObj e).

(** Reading entries one after the other. *)
Fixpoint read_entries (es : list entry) (v : View) : result store_error View :=
  match es with
  | [] => Ok v
  | e :: rest => v ← apply_loaded_entry (JObj e) v; read_entries rest v
  end.

(** A file of these entries, and what reading it gives. *)
Definition written (es : list entry) (v : View) : Prop :=
  Forall (λ e, entry_ok e = true) es ∧ read_entries es empty_view = Ok v.

Lemma read_app es1 : ∀ es2 v, read_entries (es1 ++ es2) v = (v ← read_entries es1 v; read_entries es2 v).
Proof.
  induction es1 as [|e es1 IH]; intros es2 v; [done|]. rewrite <- app_comm_cons. cbn [read_entries].
  destruct (apply_loaded_entry (JObj e) v) as [v1|]; [apply IH|done].
Qed.

Lemma read_snoc es e v v1 : read_entries es v = Ok v1 →
  read_entries (es ++ [e]) v = apply_loaded_entry (JObj e) v1.
Proof. intros H. rewrite read_app, H. cbn [read_entries]. unfold mbind, result_bind.
  by destruct (apply_loaded_entry (JObj e) v1). Qed.

Lemma file_bytes_app es1 es2 : file_bytes (es1 ++ es2) = file_bytes es1 ++ file_bytes es2.
Proof. unfold file_bytes. by rewrite map_app, concat_app. Qed.

Lemma file_bytes_one e : file_bytes [e] = record_payload e.
Proof. unfold file_bytes. cbn [map concat]. apply app_nil_r. Qed.

(** A line: no line end but the last character. *)
Definition one_line (l : text) : Prop := forallb (λ c, negb (is_newline c)) l = true.

Lemma split_line l rest : one_line l → split_lines (l ++ ch 10 :: rest) = (l ++ [ch 10]) :: split_lines rest.
Proof.
  intros Hl. induction l as [|c l IH]; [done|]. unfold one_line in Hl. cbn in Hl.
  apply andb_true_iff in Hl as [Hc Hl]. change ((c :: l) ++ ch 10 :: rest) with (c :: (l ++ ch 10 :: rest)).
  cbn [split_lines]. rewrite IH by done. apply negb_true_iff, orb_false_iff in Hc as [-> ->]. done.
Qed.

Lemma split_tail l : one_line l → l ≠ [] → split_lines l = [l].
Proof.
  intros Hl Hne. induction l as [|c l IH]; [done|]. unfold one_line in Hl. cbn in Hl.
  apply andb_true_iff in Hl as [Hc Hl]. cbn [split_lines].
  apply negb_true_iff, orb_false_iff in Hc as [-> ->]. destruct l as [|d l]; [done|].
  by rewrite IH.
Qed.

Lemma printable_one_line l : forallb printable l = true → one_line l.
Proof.
  assert (∀ c, implb (printable c) (negb (is_newline c)) = true) as H by (apply all_chars; vm_compute; reflexivity).
  unfold one_line. rewrite !forallb_forall. intros Hl c Hc. specialize (H c). by rewrite (Hl c Hc) in H.
Qed.

Lemma print_entry_one_line e : entry_ok e = true → one_line (print_json (JObj e)).
Proof. intros H. by apply printable_one_line, print_printable. Qed.

Lemma one_line_prefix p q : one_line (p ++ q) → one_line p.
Proof. unfold one_line. rewrite forallb_app. by intros [? _]%andb_true_iff. Qed.

Lemma split_file es p : Forall (λ e, entry_ok e = true) es → one_line p →
  split_lines (file_bytes es ++ p) = map record_payload es ++ (match p with [] => [] | _ => [p] end).
Proof.
  intros Hes Hp. induction Hes as [|e es He Hes IH].
  - cbn. destruct p; [done|]. by apply split_tail.
  - change (file_bytes (e :: es)) with (record_payload e ++ file_bytes es). unfold record_payload at 1.
    rewrite <- !(assoc_L (++)). change ([ch 10] ++ ?x) with (ch 10 :: x).
    rewrite split_line, IH by by apply print_entry_one_line. done.
Qed.

(** Reading one line of the file. *)
Lemma forallb_printable_ascii l : forallb printable l = true → forallb (λ c, code c <? 128) l = true.
Proof.
  assert (∀ c, implb (printable c) (code c <? 128) = true) as H by (apply all_chars; vm_compute; reflexivity).
  rewrite !forallb_forall. intros Hl c Hc. specialize (H c). by rewrite (Hl c Hc) in H.
Qed.

Lemma loads_bytes_print e t : entry_ok e = true → forallb (λ c, code c <? 128) t = true →
  loads_bytes (print_json (JObj e) ++ t) = json_loads (print_json (JObj e) ++ t).
Proof.
  intros He Ht. unfold loads_bytes. rewrite forallb_app, Ht.
  by rewrite forallb_printable_ascii by by apply print_printable.
Qed.

Lemma loads_payload e : entry_ok e = true → loads_bytes (record_payload e) = Some (JObj e).
Proof. intros He. unfold record_payload. rewrite loads_bytes_print by done. by apply loads_print. Qed.

Lemma blank_print e t : blank (print_json (JObj e) ++ t) = false.
Proof. done. Qed.

Lemma ends_payload raw e : ends_line (raw ++ record_payload e) = true.
Proof.
  unfold ends_line, record_payload. rewrite (assoc_L (++)). rewrite last_snoc. done.
Qed.

Lemma file_bytes_ends es : es ≠ [] → ends_line (file_bytes es) = true.
Proof.
  intros Hne. destruct es as [|e es _] using rev_ind; [done|].
  rewrite file_bytes_app, file_bytes_one. apply ends_payload.
Qed.

Lemma file_bytes_nonempty es : es ≠ [] → file_bytes es ≠ [].
Proof. intros Hne. by destruct es. Qed.

(** ** Loading *)

Lemma put_view_twice v1 v2 s : put_view v2 (put_view v1 s) = put_view v2 s.
Proof. done. Qed.

Lemma put_view_same s : put_view (ss_view (store s)) s = s.
Proof. by destruct s as [[] ?]. Qed.

Lemma apply_line_eq j s : apply_line j s =
  match apply_loaded_entry j (ss_view (store s)) with
  | Ok v => (Ok tt, put_view v s)
  | Err e => (Err e, s)
  end.
Proof. done. Qed.

Lemma load_lines_entry i before e rest s v : entry_ok e = true →
  apply_loaded_entry (JObj e) (ss_view (store s)) = Ok v →
  load_lines i before (record_payload e :: rest) s =
  load_lines (S i) (before ++ record_payload e) rest (put_view v s).
Proof.
  intros He Hv. cbn [load_lines]. rewrite loads_payload by done.
  change (blank (record_payload e)) with false. cbv iota. unfold mbind at 1, st_bind.
  by rewrite apply_line_eq, Hv.
Qed.

Lemma load_lines_written es tl : Forall (λ e, entry_ok e = true) es → ∀ i before s v,
  read_entries es (ss_view (store s)) = Ok v →
  load_lines i before (map record_payload es ++ tl) s =
  load_lines (i + length es) (before ++ file_bytes es) tl (put_view v s).
Proof.
  induction 1 as [|e es He Hes IH]; intros i before s v Hread.
  - cbn in Hread. injection Hread as <-. rewrite put_view_same.
    change (file_bytes []) with (@nil ascii). by rewrite app_nil_r, Nat.add_0_r.
  - cbn [read_entries] in Hread. change (map record_payload (e :: es) ++ tl) with
      (record_payload e :: (map record_payload es ++ tl)).
    destruct (apply_loaded_entry (JObj e) (ss_view (store s))) as [v1|] eqn:Hv1; [|discriminate Hread].
    rewrite (load_lines_entry _ _ _ _ _ v1) by done. rewrite (IH _ _ _ v) by exact Hread.
    rewrite put_view_twice, <- (assoc_L (++)). cbn [length]. by rewrite Nat.add_succ_r.
Qed.

(** A store that has just read the disk. *)
Definition loaded (v : View) (recovered : option text) (d : Disk) : State :=
  {| store := {| ss_view := v; ss_disk_leaf := v_leaf v; ss_disk_offset := length (d_bytes d);
       ss_disk_identity := Some (d_identity d); ss_explicit := false;
       ss_recovered_tail := recovered |};
     disk := d |}.

(** The disk after the recovery of a truncated tail. *)
Definition recovered_disk (prefix tail : text) (d : Disk) : Disk :=
  {| d_identity := d_next_identity d; d_bytes := prefix; d_next_identity := S (d_next_identity d);
     d_quarantine := d_quarantine d ++ [tail] |}.

Lemma load_eq s : load s =
  match load_lines 0 [] (split_lines (d_bytes (disk s))) (reset_view s) with
  | (Ok _, s') => (Ok tt, note_disk (length (d_bytes (disk s'))) false s')
  | (Err e, s') => (Err e, s')
  end.
Proof.
  unfold load. unfold mbind, st_bind. cbn [st_get st_modify].
  by destruct (load_lines 0 [] (split_lines (d_bytes (disk s))) (reset_view s)) as [[[]|] ?].
Qed.

Lemma load_written es v s : written es v → d_bytes (disk s) = file_bytes es →
  load s = (Ok tt, loaded v None (disk s)).
Proof.
  intros [Hes Hread] Hbytes. rewrite load_eq, Hbytes, <- (app_nil_r (file_bytes es)).
  rewrite split_file by done. rewrite (load_lines_written es [] Hes _ _ _ v) by done.
  cbn [load_lines]. done.
Qed.

(** A tail that is cut off is put aside. *)
Lemma load_truncated es v s p : written es v → d_bytes (disk s) = file_bytes es ++ p →
  p ≠ [] → one_line p → blank p = false → loads_bytes p = None →
  load s = (Ok tt, loaded v (Some p) (recovered_disk (file_bytes es) p (disk s))).
Proof.
  intros [Hes Hread] Hbytes Hne Hp Hblank Hloads. rewrite load_eq, Hbytes.
  rewrite split_file by done. rewrite (load_lines_written es _ Hes _ _ _ v) by done.
  assert (ends_line p = false) as Hend.
  { unfold ends_line. destruct p as [|c p _] using rev_ind; [done|]. rewrite last_snoc.
    unfold one_line in Hp. rewrite forallb_app in Hp. apply andb_true_iff in Hp as [_ Hp].
    cbn in Hp. rewrite andb_true_r in Hp. by apply negb_true_iff. }
  destruct p as [|c p]; [done|]. cbn [load_lines]. rewrite Hblank, Hloads, Hend. done.
Qed.

(** A tail that is a whole entry, without the end of its line, is read. *)
Lemma load_lost_newline es v s e v' : written es v → entry_ok e = true →
  apply_loaded_entry (JObj e) v = Ok v' →
  d_bytes (disk s) = file_bytes es ++ print_json (JObj e) →
  load s = (Ok tt, loaded v' None (disk s)).
Proof.
  intros [Hes Hread] He Hv Hbytes. rewrite load_eq, Hbytes.
  rewrite split_file by (done || by apply print_entry_one_line).
  rewrite (load_lines_written es _ Hes _ _ _ v) by done.
  assert (loads_bytes (print_json (JObj e)) = Some (JObj e)) as Hloads.
  { rewrite <- (app_nil_r (print_json (JObj e))), loads_bytes_print by done. by apply loads_print. }
  assert (∀ l : text, l = print_json (JObj e) → (match l with [] => [] | _ => [l] end) = [l]) as ->
    by (by intros l ->); [|done].
  cbn [load_lines]. change (blank (print_json (JObj e))) with false. rewrite Hloads. cbv iota.
  unfold mbind, st_bind. rewrite apply_line_eq.
  change (ss_view (store (put_view v (reset_view s)))) with v. rewrite Hv. done.
Qed.

(** Two entries on one line cannot be read. *)
Lemma load_glued es v s e e2 : written es v → entry_ok e = true → entry_ok e2 = true →
  d_bytes (disk s) = file_bytes es ++ print_json (JObj e) ++ record_payload e2 →
  (load s).1 = Err (SessionCorruptionError (S (length es))).
Proof.
  intros [Hes Hread] He He2 Hbytes. rewrite load_eq, Hbytes. unfold record_payload at 1.
  assert (split_lines (file_bytes es ++ print_json (JObj e) ++ print_json (JObj e2) ++ [ch 10]) =
          map record_payload es ++ [print_json (JObj e) ++ record_payload e2]) as ->.
  { clear Hread Hbytes. induction Hes as [|e0 es He0 Hes IH].
    - change (file_bytes []) with (@nil ascii). cbn [app map]. rewrite (assoc_L (++)), split_line;
        [unfold record_payload; by rewrite <- (assoc_L (++))|].
      unfold one_line. rewrite forallb_app. apply andb_true_iff.
      split; by apply print_entry_one_line.
    - change (file_bytes (e0 :: es)) with (record_payload e0 ++ file_bytes es). unfold record_payload at 1.
      rewrite <- !(assoc_L (++)). change ([ch 10] ++ ?x) with (ch 10 :: x).
      rewrite split_line by by apply print_entry_one_line. rewrite IH. done. }
  rewrite (load_lines_written es _ Hes _ _ _ v) by done. cbn [load_lines].
  rewrite blank_print. unfold record_payload. rewrite loads_bytes_print; [|done|].
  - rewrite loads_more; [|done|].
    + rewrite (assoc_L (++)). unfold ends_line. rewrite last_snoc. done.
    + done.
  - rewrite forallb_app. apply andb_true_iff. split; [|done].
    by apply forallb_printable_ascii, print_printable.
Qed.

(** ** Histories *)

(** The identifiers of the entries after the header. *)
Definition ids (es : list entry) : list json := map (eget "id") (tail es).

(** What appends write: a header, then entries with new identifiers whose parent, if
    any, is an earlier entry. *)
Inductive linked : list entry → Prop :=
  | linked_header h : entry_ok h = true → eget "type" h = JStr "session" → linked [h]
  | linked_entry es e id :
      linked es → entry_ok e = true → eget "type" e ≠ JStr "session" →
      eget "id" e = JStr id → id ≠ ""%string → JStr id ∉ ids es →
      (eget "parentId" e = JNull ∨ eget "parentId" e ∈ ids es) →
      linked (es ++ [e]).

(** What reading such a file gives. *)
Definition view_of (es : list entry) : View :=
  {| v_entries := es;
     v_by_id := map (λ e, (eget "id" e, e)) (tail es);
     v_leaf := match last (tail es) with Some e => eget "id" e | None => JNull end |}.

Lemma linked_nonempty es : linked es → es ≠ [].
Proof. destruct 1; [done|]. by destruct es. Qed.

Lemma tail_snoc {A} (l : list A) x : l ≠ [] → tail (l ++ [x]) = tail l ++ [x].
Proof. by destruct l. Qed.

Lemma ids_snoc es e : es ≠ [] → ids (es ++ [e]) = ids es ++ [eget "id" e].
Proof. intros H. unfold ids. by rewrite tail_snoc, map_app. Qed.

Lemma linked_ok es : linked es → Forall (λ e, entry_ok e = true) es.
Proof. induction 1; [by repeat constructor|]. apply Forall_app. split; [done|by repeat constructor]. Qed.

Lemma snoc_inj {A} (l1 l2 : list A) x y : l1 ++ [x] = l2 ++ [y] → l1 = l2 ∧ x = y.
Proof. intros H. by apply app_inj_tail. Qed.

(** The last entry of a history, and what is before it. *)
Lemma linked_snoc_inv es e : linked (es ++ [e]) → es ≠ [] →
  linked es ∧ entry_ok e = true ∧ eget "type" e ≠ JStr "session" ∧
  ∃ id, eget "id" e = JStr id ∧ id ≠ ""%string ∧ JStr id ∉ ids es ∧
    (eget "parentId" e = JNull ∨ eget "parentId" e ∈ ids es).
Proof.
  intros H Hne. inversion H as [h Hh Ht Heq|es' e' id Hes He Ht Hid Hn Hf Hp Heq].
  - by destruct es as [|? []].
  - apply snoc_inj in Heq as [-> ->]. split_and!; [done|done|done|]. by exists id.
Qed.

Lemma linked_prefix es1 es2 : linked (es1 ++ es2) → es1 ≠ [] → linked es1.
Proof.
  induction es2 as [|e es2 IH] using rev_ind; [by rewrite app_nil_r|].
  rewrite (assoc_L (++)). intros H Hne. apply linked_snoc_inv in H as [H _]; [by apply IH|by destruct es1].
Qed.

Lemma by_id_get_keys k (d : list (json * entry)) : by_id_get k d = None ↔ k ∉ map fst d.
Proof.
  unfold by_id_get. induction d as [|[k' e] d IH]; cbn; [split; [intros _; apply not_elem_of_nil|done]|].
  case_bool_decide as Hk; cbn.
  - split; [done|]. intros H. exfalso. apply H. subst. apply list_elem_of_here.
  - rewrite IH, not_elem_of_cons. split; [intros ?; split; [by intros ->|done]|by intros []].
Qed.

Lemma by_id_set_fresh k e (d : list (json * entry)) : k ∉ map fst d → by_id_set k e d = d ++ [(k, e)].
Proof.
  induction d as [|[k' e'] d IH]; cbn; [done|]. intros [Hk Hd]%not_elem_of_cons.
  rewrite bool_decide_eq_false_2 by done. by rewrite IH.
Qed.

Lemma view_keys es : map fst (v_by_id (view_of es)) = ids es.
Proof. unfold view_of, ids. cbn. by rewrite map_map. Qed.

(** Reading one more entry, whatever the selected leaf was. *)
Definition with_leaf (leaf : json) (v : View) : View :=
  {| v_entries := v_entries v; v_by_id := v_by_id v; v_leaf := leaf |}.

Lemma view_snoc es e : es ≠ [] →
  view_of (es ++ [e]) =
  {| v_entries := es ++ [e]; v_by_id := v_by_id (view_of es) ++ [(eget "id" e, e)];
     v_leaf := eget "id" e |}.
Proof. intros Hne. unfold view_of. cbn. by rewrite tail_snoc, map_app, last_snoc. Qed.

Lemma apply_linked es e leaf : linked (es ++ [e]) → es ≠ [] →
  apply_loaded_entry (JObj e) (with_leaf leaf (view_of es)) = Ok (view_of (es ++ [e])).
Proof.
  intros H Hne. apply linked_snoc_inv in H as (_ & _ & Ht & id & Hid & Hn & Hf & _); [|done].
  rewrite view_snoc by done. unfold apply_loaded_entry. rewrite Hid.
  rewrite bool_decide_eq_false_2 by done. cbn [truthy orb]. rewrite bool_decide_eq_false_2 by done.
  cbn [negb orb hashable with_leaf v_entries v_by_id]. rewrite by_id_set_fresh by by rewrite view_keys. done.
Qed.

Lemma read_linked_from rest : ∀ es leaf, es ≠ [] → linked (es ++ rest) →
  read_entries rest (with_leaf leaf (view_of es)) =
  Ok (match rest with [] => with_leaf leaf (view_of es) | _ => view_of (es ++ rest) end).
Proof.
  induction rest as [|e rest IH]; intros es leaf Hne H; [done|].
  assert (es ++ e :: rest = (es ++ [e]) ++ rest) as Heq by by rewrite <- (assoc_L (++)).
  rewrite Heq in H. cbn [read_entries]. rewrite apply_linked; [|by eapply linked_prefix; [|destruct es]|done].
  unfold mbind, result_bind.
  replace (view_of (es ++ [e])) with (with_leaf (v_leaf (view_of (es ++ [e]))) (view_of (es ++ [e]))) at 1
    by done.
  rewrite IH by (done || by destruct es). rewrite Heq. by destruct rest; [rewrite app_nil_r|].
Qed.

Lemma linked_head h : linked [h] → eget "type" h = JStr "session".
Proof.
  intros H. remember [h] as es eqn:Heq. destruct H as [h' _ Ht|es' e id Hes]; [by simplify_eq|].
  apply linked_nonempty in Hes. by destruct es' as [|? []].
Qed.

Lemma read_linked es : linked es → read_entries es empty_view = Ok (view_of es).
Proof.
  intros H. destruct es as [|h rest]; [by apply linked_nonempty in H|].
  assert (linked [h]) as Hh by by apply (linked_prefix [h] rest).
  cbn [read_entries].
  assert (apply_loaded_entry (JObj h) empty_view = Ok (view_of [h])) as ->.
  { unfold apply_loaded_entry. rewrite bool_decide_eq_true_2; [done|]. by apply linked_head. }
  unfold mbind, result_bind.
  replace (view_of [h]) with (with_leaf (v_leaf (view_of [h])) (view_of [h])) by done.
  rewrite read_linked_from by done. by destruct rest.
Qed.

Lemma linked_written es : linked es → written es (view_of es).
Proof. split; [by apply linked_ok|by apply read_linked]. Qed.

(** ** Synchronisation with the disk *)

(** The store has read the first [k] entries of the file, which holds [es]. *)
Record tracks (es : list entry) (k : nat) (s : State) : Prop := {
  tk_linked : linked es;
  tk_k : (1 ≤ k ≤ length es)%nat;
  tk_bytes : d_bytes (disk s) = file_bytes es;
  tk_entries : v_entries (ss_view (store s)) = take k es;
  tk_by_id : v_by_id (ss_view (store s)) = v_by_id (view_of (take k es));
  tk_leaf : v_leaf (ss_view (store s)) = JNull ∨ v_leaf (ss_view (store s)) ∈ ids (take k es);
  tk_disk_leaf : ss_disk_leaf (store s) = v_leaf (view_of (take k es));
  tk_offset : ss_disk_offset (store s) = length (file_bytes (take k es));
  tk_identity : ss_disk_identity (store s) = Some (d_identity (disk s))
}.

Lemma sync_lines_written es : Forall (λ e, entry_ok e = true) es → ∀ i s v,
  read_entries es (ss_view (store s)) = Ok v →
  sync_lines i (map record_payload es) s = (Ok tt, put_view v s).
Proof.
  induction 1 as [|e es He Hes IH]; intros i s v Hread.
  - cbn in Hread. injection Hread as <-. by rewrite put_view_same.
  - cbn [read_entries map sync_lines] in *. rewrite loads_payload by done.
    change (blank (record_payload e)) with false. cbv iota. unfold mbind at 1, st_bind.
    rewrite apply_line_eq. destruct (apply_loaded_entry _ _) as [v1|]; [|discriminate Hread].
    by rewrite (IH _ _ v).
Qed.

Lemma ids_leaf es : linked es → v_leaf (view_of es) = JNull ∨ v_leaf (view_of es) ∈ ids es.
Proof.
  intros _. unfold view_of, ids. cbn. destruct (last (tail es)) as [e|] eqn:Hl; [|by left].
  right. apply list_elem_of_fmap. exists e. split; [done|]. apply last_Some in Hl as [l ->].
  apply elem_of_app. right. apply list_elem_of_here.
Qed.

Lemma take_linked es k : linked es → (1 ≤ k)%nat → linked (take k es).
Proof.
  intros H Hk. apply (linked_prefix _ (drop k es)); [by rewrite take_drop|].
  pose proof (linked_nonempty _ H). destruct es, k; try done. lia.
Qed.

(** After synchronising, the store has read the whole file; its selected leaf is its
    own, or the last entry another process appended. *)
Lemma sync_tracks es k s : tracks es k s →
  ∃ s', sync_from_disk s = (Ok tt, s') ∧ tracks es (length es) s' ∧ disk s' = disk s ∧
    ss_explicit (store s') = ss_explicit (store s) ∧
    ss_recovered_tail (store s') = ss_recovered_tail (store s) ∧
    v_leaf (ss_view (store s')) = if (k <? length es)%nat then v_leaf (view_of es)
                                  else v_leaf (ss_view (store s)).
Proof.
  intros [Hl [Hk1 Hk] Hb He Hi Hleaf Hd Ho Hid].
  assert (file_bytes es = file_bytes (take k es) ++ file_bytes (drop k es)) as Hsplit
    by by rewrite <- file_bytes_app, take_drop.
  unfold sync_from_disk. unfold mbind at 1, st_bind. cbn [st_get]. cbv zeta.
  rewrite Hid, Hb, Ho. rewrite bool_decide_eq_false_2 by auto. cbn [orb].
  assert ((length (file_bytes es) <? length (file_bytes (take k es)))%nat = false) as ->.
  { apply Nat.ltb_ge. rewrite Hsplit, length_app. lia. }
  destruct (Nat.ltb_spec k (length es)) as [Hlt|Hge].
  - assert (drop k es ≠ []) as Hne by (intros Hd0%(f_equal length); rewrite length_drop in Hd0; cbn in Hd0; lia).
    assert ((length (file_bytes es) =? length (file_bytes (take k es)))%nat = false) as ->.
    { apply Nat.eqb_neq. rewrite Hsplit, length_app. pose proof (file_bytes_nonempty _ Hne).
      destruct (file_bytes (drop k es)); [done|]. cbn. lia. }
    assert (drop (length (file_bytes (take k es))) (file_bytes es) = file_bytes (drop k es)) as ->
      by by rewrite Hsplit, drop_app_length.
    rewrite file_bytes_ends by done. cbn [negb].
    assert (split_lines (file_bytes (drop k es)) = map record_payload (drop k es)) as ->.
    { rewrite <- (app_nil_r (file_bytes _)), split_file; [by rewrite app_nil_r| |done].
      apply Forall_drop. by apply linked_ok. }
    unfold mbind, st_bind. rewrite (sync_lines_written _ ltac:(by apply Forall_drop, linked_ok) _ s (view_of es)).
    + eexists. split; [reflexivity|]. split_and!; [|done|done|done|done].
      split; cbn; rewrite ?take_ge by lia; try done; [lia|by apply ids_leaf].
    + pose proof (read_linked_from (drop k es) (take k es) (v_leaf (ss_view (store s)))
        (linked_nonempty _ (take_linked _ _ Hl Hk1))) as Hr.
      rewrite take_drop in Hr. specialize (Hr Hl).
      assert (with_leaf (v_leaf (ss_view (store s))) (view_of (take k es)) = ss_view (store s)) as Hv.
      { unfold with_leaf. rewrite <- Hi. destruct (ss_view (store s)); cbn in *. by subst. }
      rewrite Hv in Hr. rewrite Hr. by destruct (drop k es).
  - rewrite take_ge in * by lia. rewrite Nat.eqb_refl. exists s. split; [done|].
    split_and!; [|done|done|done|done]. split; rewrite ?take_ge by lia; try done. lia.
Qed.

(** ** Appending *)

Lemma dict_get_set k v d k' :
  dict_get k' (dict_set k v d) = if bool_decide (k = k') then Some v else dict_get k' d.
Proof.
  unfold dict_get. induction d as [|[k1 v1] d IH]; cbn; [by destruct (bool_decide (k = k'))|].
  destruct (bool_decide_reflect (k1 = k)) as [->|Hk]; cbn.
  - by destruct (bool_decide (k = k')).
  - destruct (bool_decide_reflect (k1 = k')) as [->|Hk']; cbn; [|exact IH].
    by rewrite bool_decide_eq_false_2.
Qed.

Lemma eget_set k v e k' : eget k' (dict_set k v e) = if bool_decide (k = k') then v else eget k' e.
Proof. unfold eget. rewrite dict_get_set. by destruct (bool_decide (k = k')). Qed.

Lemma dict_set_keys k v d : ∀ x, x ∈ (dict_set k v d).*1 ↔ x = k ∨ x ∈ d.*1.
Proof.
  induction d as [|[k1 v1] d IH]; intros x; cbn.
  - rewrite elem_of_cons. split; [by intros [->|?]; [left|right]|by intros [->|?]; [left|right]].
  - case_bool_decide as Hk; cbn; rewrite !elem_of_cons; [by subst; naive_solver|]. rewrite IH. naive_solver.
Qed.

Lemma entry_ok_set k v e : entry_ok e = true → json_ok v = true → entry_ok (dict_set k v e) = true.
Proof.
  unfold entry_ok. cbn. rewrite !andb_true_iff, !bool_decide_eq_true. intros [Hnd Hok] Hv.
  induction e as [|[k1 v1] e IH]; cbn in *; [by rewrite Hv; repeat constructor; apply not_elem_of_nil|].
  apply NoDup_cons in Hnd as [Hk1 Hnd]. apply andb_true_iff in Hok as [Hv1 Hok].
  destruct (IH Hnd Hok) as [Hnd' Hok'].
  case_bool_decide as Hk; cbn.
  - subst. split; [by apply NoDup_cons|by rewrite Hv].
  - split; [|by rewrite Hv1]. apply NoDup_cons. split; [|done].
    rewrite dict_set_keys. by intros [->|?].
Qed.

Lemma commit_spec e id parent now :
  eget "id" (commit e id parent now) = id ∧ eget "parentId" (commit e id parent now) = parent ∧
  (∀ k, k ∉ ["id"; "parentId"; "timestamp"]%string → eget k (commit e id parent now) = eget k e).
Proof.
  unfold commit. split_and!; [by rewrite !eget_set..|]. intros k Hk. rewrite !eget_set.
  rewrite !bool_decide_eq_false_2; [done|..]; intros <-; apply Hk; set_solver.
Qed.

Lemma linked_snoc es e id parent now :
  linked es → entry_ok e = true → eget "type" e ≠ JStr "session" → id ≠ ""%string → JStr id ∉ ids es →
  (parent = JNull ∨ parent ∈ ids es) → json_ok parent = true →
  linked (es ++ [commit e (JStr id) parent (JStr now)]).
Proof.
  intros Hl He Ht Hid Hf Hp Hpok.
  destruct (commit_spec e (JStr id) parent (JStr now)) as (H1 & H2 & H3).
  eapply linked_entry; [done| | |exact H1|done|done|by rewrite H2].
  - unfold commit. by repeat apply entry_ok_set.
  - rewrite H3; [done|]. intros H. repeat (apply elem_of_cons in H as [H|H]; [discriminate|]). by apply not_elem_of_nil in H.
Qed.

Lemma ids_strings es : linked es → ∀ x, x ∈ ids es → ∃ s, x = JStr s ∧ s ≠ ""%string.
Proof.
  induction 1 as [h|es e id Hes IH _ _ Hid Hn]; intros x; [by intros ?%not_elem_of_nil|].
  rewrite ids_snoc by by apply linked_nonempty. rewrite elem_of_app, list_elem_of_singleton, Hid.
  intros [?| ->]; [by apply IH|by exists id].
Qed.

(** The parent an append gives its entry. *)
Definition append_parent (es : list entry) (s : State) : json :=
  if negb (ss_explicit (store s)) && bool_decide (v_leaf (ss_view (store s)) = ss_disk_leaf (store s))
  then v_leaf (view_of es) else v_leaf (ss_view (store s)).

Lemma append_parent_known es k s : tracks es k s →
  append_parent es s = JNull ∨ append_parent es s ∈ ids es.
Proof.
  intros [Hl [Hk1 Hk] _ _ _ Hleaf _ _ _]. unfold append_parent.
  destruct (_ && _); [by apply ids_leaf|]. destruct Hleaf as [->|Hin]; [by left|right].
  unfold ids in *. rewrite <- (take_drop k es). pose proof (linked_nonempty _ (take_linked _ _ Hl Hk1)).
  destruct (take k es) as [|h t]; [done|]. cbn in *. rewrite map_app, elem_of_app. by left.
Qed.

Lemma append_parent_ok es k s : tracks es k s → json_ok (append_parent es s) = true.
Proof.
  intros Ht. destruct (append_parent_known es k s Ht) as [->|Hin]; [done|].
  by destruct (ids_strings es (tk_linked _ _ _ Ht) _ Hin) as (x & -> & _).
Qed.

(** The entry an append adds. *)
Definition appended (dr : Draw) (e : entry) (id : string) (es : list entry) (s : State) : entry :=
  commit e (JStr id) (append_parent es s) (JStr (dr_now dr)).

(** What an append needs: an identifier that is not in use, and an entry that is not
    a header. *)
Record appendable (dr : Draw) (e : entry) (id : string) (es : list entry) : Prop := {
  ap_ok : entry_ok e = true;
  ap_type : eget "type" e ≠ JStr "session";
  ap_id : List.find (λ d, bool_decide (JStr d ∉ ids es)) (dr_ids dr) = Some id;
  ap_nonempty : id ≠ ""%string
}.

Lemma appended_linked dr e id es k s : tracks es k s → appendable dr e id es →
  linked (es ++ [appended dr e id es s]).
Proof.
  intros Ht [He Hty Hid Hn]. unfold appended. apply linked_snoc; try done.
  - by apply Ht.
  - apply find_some in Hid as [_ Hid]. by apply bool_decide_eq_true in Hid.
  - by eapply append_parent_known.
  - by eapply append_parent_ok.
Qed.

Lemma find_ext {A} (p q : A → bool) l : (∀ x, p x = q x) → List.find p l = List.find q l.
Proof. intros H. induction l as [|x l IH]; cbn; [done|]. by rewrite H, IH. Qed.

Lemma generate_id_eq draws es by_id : by_id = v_by_id (view_of es) →
  generate_id draws by_id =
  match List.find (λ d, bool_decide (JStr d ∉ ids es)) draws with
  | Some d => Ok d
  | None => Err (ModelLimit "draws")
  end.
Proof.
  intros ->. unfold generate_id. erewrite find_ext; [done|]. intros d. cbv beta.
  apply bool_decide_ext. by rewrite by_id_get_keys, view_keys.
Qed.

(** The state after an append that reached the disk. *)
Definition after_append (c : entry) (es : list entry) (s : State) : State :=
  {| store := {| ss_view := view_of (es ++ [c]); ss_disk_leaf := eget "id" c;
       ss_disk_offset := length (file_bytes (es ++ [c]));
       ss_disk_identity := Some (d_identity (disk s)); ss_explicit := false;
       ss_recovered_tail := ss_recovered_tail (store s) |};
     disk := disk (put_bytes (file_bytes (es ++ [c])) s) |}.

Lemma apply_committed_eq es c id leaf : linked (es ++ [c]) → es ≠ [] → eget "id" c = JStr id →
  apply_committed_entry (JStr id) c (with_leaf leaf (view_of es)) = view_of (es ++ [c]).
Proof.
  intros Hl Hne Hid. rewrite view_snoc, Hid by done. unfold apply_committed_entry. cbn [with_leaf v_entries v_by_id].
  rewrite by_id_set_fresh; [done|]. rewrite view_keys.
  apply linked_snoc_inv in Hl as (_ & _ & _ & id' & Hid' & _ & Hf & _); [|done].
  rewrite Hid in Hid'. by simplify_eq.
Qed.

(** An append synchronises, then writes one line; a complete write is followed by the
    change of the memory. *)
Lemma append_spec es k s dr e id : tracks es k s → appendable dr e id es →
  let c := appended dr e id es s in
  match dr_write dr with
  | WriteAll => append_entry dr e s = (Ok id, after_append c es s)
  | WriteFails n => ∃ s', append_entry dr e s = (Err OSError, s') ∧
      disk s' = disk (put_bytes (file_bytes es ++ take n (record_payload c)) s) ∧
      tracks es (length es) {| store := store s'; disk := disk s |}
  end.
Proof.
  intros Ht Ha c. pose proof (appended_linked dr e id es k s Ht Ha) as Hlc. fold c in Hlc.
  destruct (sync_tracks es k s Ht) as (s1 & Hsync & Ht1 & Hd1 & Hx1 & Hr1 & Hleaf1).
  pose proof (linked_nonempty _ (tk_linked _ _ _ Ht)) as Hne.
  assert (v_by_id (ss_view (store s1)) = v_by_id (view_of es)) as Hby
    by by rewrite (tk_by_id _ _ _ Ht1), take_ge.
  assert (v_entries (ss_view (store s1)) = es) as Hes by by rewrite (tk_entries _ _ _ Ht1), take_ge.
  assert ((if negb (ss_explicit (store s)) && bool_decide (v_leaf (ss_view (store s)) = ss_disk_leaf (store s))
           then v_leaf (ss_view (store s1)) else v_leaf (ss_view (store s))) = append_parent es s) as Hparent.
  { unfold append_parent. destruct (negb _ && bool_decide _) eqn:Hf; [|done].
    rewrite Hleaf1. destruct (Nat.ltb_spec k (length es)); [done|].
    apply andb_true_iff in Hf as [_ Hf%bool_decide_eq_true]. rewrite Hf, (tk_disk_leaf _ _ _ Ht).
    by rewrite take_ge. }
  assert (append_entry dr e s =
    (_ ← write_record (dr_write dr) (record_payload c);
     _ ← st_modify (λ s, put_view (apply_committed_entry (JStr id) c (ss_view (store s))) s);
     _ ← st_modify (λ s, note_disk (ss_disk_offset (store s) + length (record_payload c)) false s);
     mret id : op string) s1) as ->.
  { unfold append_entry. unfold mbind at 1, st_bind. cbn [st_get]. cbv zeta.
    unfold mbind at 1, st_bind. rewrite Hsync. unfold mbind at 1, st_bind. cbn [st_get].
    unfold mbind at 1, st_bind, st_lift. rewrite (generate_id_eq _ es) by done.
    rewrite (ap_id _ _ _ _ Ha), Hparent. done. }
  unfold write_record. destruct (dr_write dr) as [|n].
  - unfold mbind, st_bind. cbn [st_get st_modify]. unfold mret, st_ret. f_equal.
    unfold after_append, put_bytes, put_view, note_disk. cbn [store disk ss_view ss_disk_offset].
    assert (ss_view (store s1) = with_leaf (v_leaf (ss_view (store s1))) (view_of es)) as Hview.
    { unfold with_leaf. rewrite <- Hby. cbn [view_of v_entries]. rewrite <- Hes at 1.
      by destruct (ss_view (store s1)). }
    rewrite Hview, apply_committed_eq; [|done|done|by apply commit_spec].
    rewrite (tk_bytes _ _ _ Ht1), (tk_offset _ _ _ Ht1), (take_ge es) by lia.
    rewrite file_bytes_app, file_bytes_one, length_app, Hd1, Hr1. rewrite view_snoc by done. done.
  - unfold mbind, st_bind. cbn [st_get st_modify]. eexists. split; [reflexivity|]. split.
    + unfold put_bytes. cbn. by rewrite (tk_bytes _ _ _ Ht1), Hd1.
    + destruct Ht1. split; cbn; rewrite <- ?Hd1; done.
Qed.

Lemma after_append_tracks es k s c : tracks es k s → linked (es ++ [c]) →
  tracks (es ++ [c]) (S (length es)) (after_append c es s).
Proof.
  intros Ht Hl. assert (length (es ++ [c]) = S (length es)) as Hlen by (rewrite length_app; cbn; lia).
  split; rewrite ?Hlen; rewrite ?take_ge by lia; try done; [lia| |].
  - right. cbn. unfold ids. rewrite (tail_snoc _ _ (linked_nonempty _ (tk_linked _ _ _ Ht))), map_app, last_snoc.
    apply elem_of_app. right. apply list_elem_of_here.
  - cbn. by rewrite (tail_snoc _ _ (linked_nonempty _ (tk_linked _ _ _ Ht))), last_snoc.
Qed.

(** Opening a file that was written. *)
Lemma open_written es v d cwd parent sid now : written es v → es ≠ [] → d_bytes d = file_bytes es →
  open_store cwd parent sid now d = (Ok tt, loaded v None d).
Proof.
  intros Hw Hne Hb. unfold open_store. pose proof (file_bytes_nonempty _ Hne) as Hfne.
  destruct (d_bytes d) as [|c t] eqn:Hd; [by rewrite Hb in Hfne|].
  rewrite (load_written es v); [done|done|]. cbn. by rewrite Hd, Hb.
Qed.

Lemma loaded_tracks es d : linked es → d_bytes d = file_bytes es →
  tracks es (length es) (loaded (view_of es) None d).
Proof.
  intros Hl Hb. pose proof (linked_nonempty _ Hl).
  split; cbn; rewrite ?take_ge by lia; try done; [by destruct es; [|cbn; lia]|by apply ids_leaf|by rewrite Hb].
Qed.

(** ** Branches *)

(** [branch_path es id chain]: the entries from a root to the entry [id]. *)
Inductive branch_path (es : list entry) : json → list entry → Prop :=
  | path_root : branch_path es JNull []
  | path_entry e chain :
      e ∈ tail es → branch_path es (eget "parentId" e) chain →
      branch_path es (eget "id" e) (chain ++ [e]).

Lemma branch_path_more es c id chain : es ≠ [] → branch_path es id chain → branch_path (es ++ [c]) id chain.
Proof.
  intros Hne. induction 1 as [|e chain He _ IH]; [constructor|]. constructor; [|done].
  rewrite tail_snoc, elem_of_app by done. by left.
Qed.

(** Every known entry has a branch; a branch is ordered by age. *)
Lemma linked_branch es : linked es → ∀ id, id = JNull ∨ id ∈ ids es →
  ∃ chain, branch_path es id chain ∧ chain `sublist_of` tail es.
Proof.
  induction 1 as [h|es e id Hes IH He Ht Hid Hn Hf Hp]; intros x Hx.
  - destruct Hx as [->|Hx]; [|by apply not_elem_of_nil in Hx]. exists []. split; [constructor|done].
  - pose proof (linked_nonempty _ Hes) as Hne. rewrite ids_snoc, tail_snoc in * by done.
    assert (x = JNull ∨ x ∈ ids es ∨ x = eget "id" e) as [Hx'|[Hx'| ->]].
    { destruct Hx as [?|[?|?%list_elem_of_singleton]%elem_of_app]; auto. }
    1,2: destruct (IH x) as (chain & Hc & Hsub); [auto|]; exists chain;
      (split; [by apply branch_path_more|by apply sublist_inserts_r]).
    destruct (IH (eget "parentId" e) Hp) as (chain & Hc & Hsub). exists (chain ++ [e]). split.
    + constructor; [|by apply branch_path_more]. rewrite tail_snoc by done.
      apply elem_of_app. right. apply list_elem_of_here.
    + by apply sublist_app.
Qed.

Lemma ids_nodup es : linked es → NoDup (ids es).
Proof.
  induction 1 as [h|es e id Hes IH He Ht Hid Hn Hf Hp]; [constructor|].
  rewrite ids_snoc by by apply linked_nonempty. apply NoDup_app. split_and!; [done| |apply NoDup_singleton].
  intros x Hx ->%list_elem_of_singleton. by rewrite Hid in Hx.
Qed.

Lemma by_id_get_in e d : NoDup (map (eget "id") d) → e ∈ d →
  by_id_get (eget "id" e) (map (λ e, (eget "id" e, e)) d) = Some e.
Proof.
  unfold by_id_get. induction d as [|e1 d IH]; cbn; [by intros _ ?%not_elem_of_nil|].
  intros [Hf Hnd]%NoDup_cons. case_bool_decide as Hid; cbn.
  - intros [->|He]%elem_of_cons; [done|]. exfalso. apply Hf. apply list_elem_of_fmap. by exists e.
  - intros [->|He]%elem_of_cons; [done|]. by apply IH.
Qed.

Lemma lookup_linked es leaf e : linked es → e ∈ tail es →
  lookup_id (eget "id" e) (with_leaf leaf (view_of es)) = Ok (Some e).
Proof.
  intros Hl He. assert (eget "id" e ∈ ids es) as Hid by (apply list_elem_of_fmap; by exists e).
  destruct (ids_strings es Hl _ Hid) as (x & Hx & Hn). unfold lookup_id.
  cbn [with_leaf v_by_id view_of]. rewrite by_id_get_in by (done || by apply ids_nodup).
  rewrite Hx. cbn [truthy hashable]. by rewrite bool_decide_eq_false_2.
Qed.

Lemma branch_from_path es leaf id chain : linked es → branch_path es id chain →
  ∀ fuel path, (length chain < fuel)%nat →
  branch_from fuel (with_leaf leaf (view_of es)) id path = Ok (chain ++ path).
Proof.
  intros Hl. induction 1 as [|e chain He _ IH]; intros [|fuel] path Hf; try (cbn in Hf; lia); [done|].
  rewrite length_app in Hf. cbn [length] in Hf. cbn [branch_from]. rewrite lookup_linked by done.
  unfold mbind, result_bind. rewrite IH by lia. by rewrite <- (assoc_L (++)).
Qed.

Lemma get_branch_path es leaf id chain : linked es → branch_path es id chain →
  chain `sublist_of` tail es → id ≠ JNull ∨ leaf = JNull →
  get_branch (with_leaf leaf (view_of es)) id = Ok chain.
Proof.
  intros Hl Hp Hs Hid. unfold get_branch. apply sublist_length in Hs.
  cbn [with_leaf v_leaf]. assert ((if truthy id then id else leaf) = id) as ->.
  { destruct Hp as [|e chain He _]; [destruct Hid as [|Hid]; done|].
    assert (eget "id" e ∈ ids es) as Hin by (apply list_elem_of_fmap; by exists e).
    destruct (ids_strings es Hl _ Hin) as (x & -> & Hn). cbn. by rewrite bool_decide_eq_false_2. }
  rewrite <- (app_nil_r chain). apply branch_from_path; [done|done|].
  cbn [with_leaf v_by_id view_of]. rewrite length_map. lia.
Qed.

(** ** Any number of stores on one file *)

(** A call on a store. *)
Inductive session_call : Type :=
  | CallCheckpoint (dr : Draw) (e : entry)
  | CallMessage (dr : Draw) (message : json)
  | CallThinkingLevel (dr : Draw) (level : string)
  | CallParams (dr : Draw) (params : json)
  | CallModel (dr : Draw) (provider model_id : string)
  | CallInfo (dr : Draw) (name : option string)
  | CallCustom (dr : Draw) (custom_type : string) (data : option json)
  | CallCustomMessage (dr : Draw) (custom_type : string) (content : json) (display : bool) (details : option json)
  | CallLabel (dr : Draw) (target : string) (label : option string)
  | CallCompaction (dr : Draw) (summary first_kept : string) (tokens_before : Z)
      (details : option json) (parent : option string)
  | CallBranchSummary (dr : Draw) (branch_from_id : option string) (summary : string)
      (details : option json) (from_hook : option bool)
  | CallBranch (id : string)
  | CallResetLeaf.

Definition with_id (m : op string) : op (option string) := id ← m; mret (Some id).

Definition run_call (c : session_call) : op (option string) :=
  match c with
  | CallCheckpoint dr e => with_id (append_checkpoint dr e)
  | CallMessage dr m => with_id (append_message dr m)
  | CallThinkingLevel dr l => with_id (append_thinking_level_change dr l)
  | CallParams dr p => with_id (append_generation_params_change dr p)
  | CallModel dr p m => with_id (append_model_change dr p m)
  | CallInfo dr n => with_id (append_session_info dr n)
  | CallCustom dr t d => with_id (append_custom_entry dr t d)
  | CallCustomMessage dr t c b d => with_id (append_custom_message_entry dr t c b d)
  | CallLabel dr t l => with_id (append_label_change dr t l)
  | CallCompaction dr s f t d p => with_id (append_compaction dr s f t d p)
  | CallBranchSummary dr b s d f => with_id (branch_with_summary dr b s d f)
  | CallBranch id => _ ← branch id; mret None
  | CallResetLeaf => _ ← reset_leaf; mret None
  end.

(** Identifiers are not empty, and a write is complete or fails before its first
    byte; what follows a partial write is [truncated_append_recovers]. *)
Definition draw_ok (dr : Draw) : Prop :=
  Forall (λ d, d ≠ ""%string) (dr_ids dr) ∧ (dr_write dr = WriteAll ∨ dr_write dr = WriteFails 0).

Definition opt_ok (j : option json) : Prop := match j with Some j => json_ok j = true | None => True end.

(** The values a call records can be printed and read back. *)
Definition call_ok (c : session_call) : Prop :=
  match c with
  | CallCheckpoint dr e => draw_ok dr ∧ entry_ok e = true ∧ eget "type" e ≠ JStr "session"
  | CallMessage dr j | CallParams dr j => draw_ok dr ∧ json_ok j = true
  | CallThinkingLevel dr _ | CallModel dr _ _ | CallInfo dr _ | CallLabel dr _ _ => draw_ok dr
  | CallCustom dr _ d => draw_ok dr ∧ opt_ok d
  | CallCustomMessage dr _ c _ d => draw_ok dr ∧ json_ok c = true ∧ opt_ok d
  | CallCompaction dr _ _ _ d _ => draw_ok dr ∧ opt_ok d
  | CallBranchSummary dr _ _ d _ => draw_ok dr ∧ opt_ok d
  | CallBranch _ | CallResetLeaf => True
  end.

(** What a call does to the file: nothing, or one more entry. *)
Definition extends (es es' : list entry) : Prop := es' = es ∨ ∃ c, es' = es ++ [c].

Definition step_ok (es : list entry) (k : nat) (s s' : State) : Prop :=
  ∃ es' k', tracks es' k' s' ∧ extends es es' ∧ (k ≤ k')%nat ∧
    d_identity (disk s') = d_identity (disk s).

Lemma step_same es k s : tracks es k s → step_ok es k s s.
Proof. intros Ht. exists es, k. split_and!; [done|by left|lia|done]. Qed.

Lemma find_missing {A} (p : A → bool) l x : List.find p l = Some x → x ∈ l ∧ p x = true.
Proof. intros [H ?]%find_some. split; [by apply list_elem_of_In|done]. Qed.

(** Without an unused identifier, the store only synchronises. *)
Lemma append_no_draw es k s dr e : tracks es k s →
  List.find (λ d, bool_decide (JStr d ∉ ids es)) (dr_ids dr) = None →
  ∃ s1, append_entry dr e s = (Err (ModelLimit "draws"), s1) ∧ tracks es (length es) s1 ∧
    disk s1 = disk s.
Proof.
  intros Ht Hid. destruct (sync_tracks es k s Ht) as (s1 & Hsync & Ht1 & Hd1 & _). exists s1.
  split_and!; [|done|done].
  unfold append_entry. unfold mbind at 1, st_bind. cbn [st_get]. cbv zeta.
  unfold mbind at 1, st_bind. rewrite Hsync. unfold mbind at 1, st_bind. cbn [st_get].
  unfold mbind at 1, st_bind, st_lift. rewrite (generate_id_eq _ es).
  - by rewrite Hid.
  - by rewrite (tk_by_id _ _ _ Ht1), take_ge.
Qed.

Lemma append_step es k s dr e : tracks es k s → draw_ok dr → entry_ok e = true →
  eget "type" e ≠ JStr "session" → step_ok es k s (append_entry dr e s).2.
Proof.
  intros Ht [Hids Hw] He Hty. pose proof (tk_k _ _ _ Ht) as Hk.
  destruct (List.find (λ d, bool_decide (JStr d ∉ ids es)) (dr_ids dr)) as [id|] eqn:Hid.
  - assert (appendable dr e id es) as Ha.
    { split; try done. apply find_missing in Hid as [Hin _]. rewrite Forall_forall in Hids. by apply Hids. }
    pose proof (append_spec es k s dr e id Ht Ha) as Hspec. cbv zeta in Hspec.
    destruct Hw as [Hw|Hw]; rewrite Hw in Hspec.
    + rewrite Hspec. exists (es ++ [appended dr e id es s]), (S (length es)).
      split_and!; [|right; by eexists|lia|done]. apply (after_append_tracks es k); [done|].
      by apply (appended_linked dr e id es k).
    + destruct Hspec as (s' & -> & Hd & Ht'). exists es, (length es). cbn [snd]. split_and!; [|by left|lia|by rewrite Hd].
      destruct s' as [st d]. cbn in *. rewrite app_nil_r in Hd.
      assert (d = disk s) as ->; [|done]. rewrite Hd. unfold put_bytes. rewrite <- (tk_bytes _ _ _ Ht).
      by destruct (disk s).
  - destruct (append_no_draw es k s dr e Ht Hid) as (s1 & -> & Ht1 & Hd1).
    exists es, (length es). cbn [snd]. split_and!; [done|by left|lia|by rewrite Hd1].
Qed.

(** Selecting a known leaf. *)
Lemma select_tracks es k s leaf explicit : tracks es k s → leaf = JNull ∨ leaf ∈ ids (take k es) →
  tracks es k (select_leaf leaf explicit s).
Proof. intros [] Hleaf. by split. Qed.

Lemma known_id_in es k s id : tracks es k s → known_id id s = true → JStr id ∈ ids (take k es).
Proof.
  intros Ht H. unfold known_id in H. apply bool_decide_eq_true in H. rewrite (tk_by_id _ _ _ Ht) in H.
  destruct (decide (JStr id ∈ ids (take k es))) as [|Hn]; [done|].
  rewrite <- view_keys in Hn. apply by_id_get_keys in Hn. rewrite Hn in H. destruct H as [y Hy].
  discriminate Hy.
Qed.

Lemma ids_take es k k' x : (1 ≤ k ≤ k')%nat → x ∈ ids (take k es) → x ∈ ids (take k' es).
Proof.
  intros Hk. rewrite <- (take_drop k (take k' es)), take_take, Nat.min_l by lia. unfold ids.
  destruct (take k es) as [|h t]; [by intros ?%not_elem_of_nil|]. cbn.
  rewrite map_app, elem_of_app. by left.
Qed.

Lemma with_id_state (m : op string) s : (with_id m s).2 = (m s).2.
Proof. unfold with_id, mbind, st_bind. by destruct (m s) as [[a|e] s']. Qed.

Lemma append_after_select es k s dr e leaf explicit :
  tracks es k s → leaf = JNull ∨ leaf ∈ ids (take k es) → draw_ok dr → entry_ok e = true →
  eget "type" e ≠ JStr "session" →
  step_ok es k s (append_entry dr e (select_leaf leaf explicit s)).2.
Proof. intros Ht Hl Hd He Hty. apply (append_step es k (select_leaf leaf explicit s)); try done. by apply select_tracks. Qed.

Lemma leaf_kept es k es' k' s s' leaf : tracks es k s → tracks es' k' s' → extends es es' → (k ≤ k')%nat →
  leaf = JNull ∨ leaf ∈ ids (take k es) → leaf = JNull ∨ leaf ∈ ids (take k' es').
Proof.
  intros Ht Ht' Hx Hk [->|Hin]; [by left|right]. pose proof (tk_k _ _ _ Ht) as Hk1.
  apply (ids_take _ k); [lia|]. destruct Hx as [->|[c ->]]; [done|]. by rewrite take_app_le by lia.
Qed.

Lemma compaction_step es k s dr summary first_kept tokens details parent :
  tracks es k s → draw_ok dr → opt_ok details →
  step_ok es k s (append_compaction dr summary first_kept tokens details parent s).2.
Proof.
  intros Ht Hd Hj. unfold append_compaction. unfold mbind at 1, st_bind. cbn [st_get]. cbv zeta.
  match goal with |- context [on_error (append_entry dr ?x) _] => set (e := x) end.
  assert (entry_ok e = true ∧ eget "type" e ≠ JStr "session") as [He Hty].
  { unfold e. destruct details; cbn in *; by rewrite ?Hj. }
  assert (∀ leaf explicit, leaf = JNull ∨ leaf ∈ ids (take k es) →
    step_ok es k s (on_error (append_entry dr e)
      (select_leaf (v_leaf (ss_view (store s))) (ss_explicit (store s)))
      (select_leaf leaf explicit s)).2) as Hstep.
  { intros leaf explicit Hleaf. unfold on_error.
    pose proof (append_after_select es k s dr e leaf explicit Ht Hleaf Hd He Hty) as Hs.
    destruct (append_entry dr e (select_leaf leaf explicit s)) as [[id|err] s1]; [done|].
    destruct Hs as (es' & k' & Ht' & Hx & Hk & Hid). exists es', k'. cbn [snd] in *. split_and!; [|done|done|done].
    apply select_tracks; [done|]. by eapply leaf_kept; [exact Ht|exact Ht'|..|exact (tk_leaf _ _ _ Ht)]. }
  destruct parent as [p|]; cbv beta iota.
  - destruct (known_id p s) eqn:Hp; cbn [negb]; unfold mbind, st_bind; [|by apply step_same].
    apply Hstep. right. by apply (known_id_in es k s).
  - unfold mbind, st_bind. specialize (Hstep _ (ss_explicit (store s)) (tk_leaf _ _ _ Ht)).
    assert (select_leaf (v_leaf (ss_view (store s))) (ss_explicit (store s)) s = s) as Hsame
      by by destruct s as [[[]] ?].
    by rewrite Hsame in Hstep.
Qed.

Lemma branch_summary_step es k s dr from summary details hook :
  tracks es k s → draw_ok dr → opt_ok details →
  step_ok es k s (branch_with_summary dr from summary details hook s).2.
Proof.
  intros Ht Hd Hj. unfold branch_with_summary. unfold mbind at 1, st_bind. cbn [st_get].
  match goal with |- context [append_entry dr ?x] => set (e := x) end.
  assert (entry_ok e = true ∧ eget "type" e ≠ JStr "session") as [He Hty].
  { unfold e. destruct details, hook; cbn in *; by rewrite ?Hj. }
  clearbody e. destruct from as [id|].
  - destruct (known_id id s) eqn:Hid; cbn [negb]; unfold mbind, st_bind; [|by apply step_same].
    apply append_after_select; try done. right. by apply (known_id_in es k s).
  - unfold mbind, st_bind. apply append_after_select; try done. by left.
Qed.

(** The invariant of a store that shares its file with others: it has read a prefix
    of a history. *)
Lemma call_step es k s c : tracks es k s → call_ok c → step_ok es k s (run_call c s).2.
Proof.
  intros Ht Hc. destruct c; cbn [run_call call_ok] in *; rewrite ?with_id_state.
  - destruct Hc as (Hd & He & Hty). by apply append_step.
  - destruct Hc as (Hd & Hj). apply append_step; try done. cbn. by rewrite Hj.
  - by apply append_step.
  - destruct Hc as (Hd & Hj). apply append_step; try done. cbn. by rewrite Hj.
  - by apply append_step.
  - by apply append_step.
  - destruct Hc as (Hd & Hj). apply append_step; try done; destruct data; try done.
    cbn in *. by rewrite Hj.
  - destruct Hc as (Hd & Hj & Hj'). apply append_step; try done; destruct details; try done;
      cbn in *; by rewrite ?Hj, ?Hj'.
  - unfold append_label_change, mbind, st_bind. cbn [st_get]. destruct (known_id target s); cbn [negb].
    + apply append_step; try done. destruct label as [l|]; [|done]. by destruct (bool_decide _).
    + by apply step_same.
  - destruct Hc. by apply compaction_step.
  - destruct Hc. by apply branch_summary_step.
  - unfold branch, mbind, st_bind. cbn [st_get]. destruct (known_id id s) eqn:Hid; cbn [negb].
    + destruct (step_same es k s Ht) as (es' & k' & _). exists es, k.
      split_and!; [|by left|lia|done]. apply select_tracks; [done|]. right. by apply (known_id_in es k s).
    + by apply step_same.
  - unfold reset_leaf, mbind, st_bind. exists es, k. split_and!; [|by left|lia|done].
    apply select_tracks; [done|by left].
Qed.

(** The stores (of any number of processes) on one file; the file lock makes each
    call one step. *)
Record System : Type := {
  sys_disk : Disk;
  sys_stores : list SessionStore
}.

Inductive sys_step : System → System → Prop :=
  | sys_open y cwd parent sid now r s :
      open_store cwd parent sid now (sys_disk y) = (r, s) →
      sys_step y {| sys_disk := disk s; sys_stores := sys_stores y ++ [store s] |}
  | sys_call y i x c r s :
      sys_stores y !! i = Some x → call_ok c →
      run_call c {| store := x; disk := sys_disk y |} = (r, s) →
      sys_step y {| sys_disk := disk s; sys_stores := <[i := store s]> (sys_stores y) |}.

(** Everything that can happen from an empty file on. *)
Inductive sys_reachable : System → Prop :=
  | reach_start identity :
      sys_reachable {| sys_disk := {| d_identity := identity; d_bytes := []; d_next_identity := S identity;
                                      d_quarantine := [] |}; sys_stores := [] |}
  | reach_step y y' : sys_reachable y → sys_step y y' → sys_reachable y'.

Definition sys_tracks (es : list entry) (y : System) : Prop :=
  linked es ∧ d_bytes (sys_disk y) = file_bytes es ∧
  Forall (λ x, ∃ k, tracks es k {| store := x; disk := sys_disk y |}) (sys_stores y).

(** What other stores know when the file grows. *)
Lemma tracks_other es k x d es' d' : tracks es k {| store := x; disk := d |} →
  linked es' → extends es es' → d_bytes d' = file_bytes es' → d_identity d' = d_identity d →
  tracks es' k {| store := x; disk := d' |}.
Proof.
  intros [Hl [Hk1 Hk] Hb He Hi Hleaf Hd Ho Hid] Hl' Hx Hb' Hid'. cbn in *.
  assert (take k es' = take k es) as Htake.
  { destruct Hx as [->|[c ->]]; [done|]. by apply take_app_le. }
  assert (length es ≤ length es')%nat by (destruct Hx as [->|[c ->]]; rewrite ?length_app; lia).
  split; cbn; rewrite ?Htake, ?Hid'; try done. lia.
Qed.

Lemma step_others es k x d s stores : step_ok es k {| store := x; disk := d |} s →
  Forall (λ x, ∃ k, tracks es k {| store := x; disk := d |}) stores →
  ∃ es', linked es' ∧ d_bytes (disk s) = file_bytes es' ∧
    (∃ k, tracks es' k {| store := store s; disk := disk s |}) ∧
    Forall (λ x, ∃ k, tracks es' k {| store := x; disk := disk s |}) stores.
Proof.
  intros (es' & k' & Ht & Hx & _ & Hid) Hall. exists es'.
  assert ({| store := store s; disk := disk s |} = s) as Heta by by destruct s.
  split_and!; [apply Ht|apply Ht|exists k'; by rewrite Heta|].
  eapply Forall_impl; [exact Hall|]. intros x' [k1 Ht1]. exists k1.
  eapply tracks_other; [exact Ht1|apply Ht|done|apply Ht|done].
Qed.

Lemma write_header_spec cwd parent sid now d : d_bytes d = [] →
  ∃ es s, open_store cwd parent sid now d = (Ok tt, s) ∧ tracks es (length es) s.
Proof.
  intros Hb. unfold open_store. rewrite Hb. unfold write_header.
  match goal with |- context [record_payload ?x] => set (h := x) end.
  assert (linked [h]) as Hl.
  { constructor; unfold h; destruct parent as [p|]; try done; by destruct (bool_decide _). }
  exists [h]. unfold mbind, st_bind. eexists. split; [reflexivity|].
  assert (file_bytes [h] = record_payload h) as Hf by apply file_bytes_one.
  split; cbn [length take]; first [done|lia|by left|idtac].
  cbn [note_disk store ss_disk_offset]. by rewrite file_bytes_one.
Qed.

Lemma reachable_tracks y : sys_reachable y →
  (d_bytes (sys_disk y) = [] ∧ sys_stores y = []) ∨ ∃ es, sys_tracks es y.
Proof.
  induction 1 as [identity|y y' _ IH Hstep]; [by left|]. right. destruct Hstep as [y cwd parent sid now r s Ho|y i x c r s Hx Hc Hr].
  - destruct IH as [[Hb Hs]|[es (Hl & Hb & Hall)]].
    + destruct (write_header_spec cwd parent sid now _ Hb) as (es & s' & Ho' & Ht).
      rewrite Ho in Ho'. simplify_eq. exists es. rewrite Hs. split_and!; [apply Ht|apply Ht|].
      constructor; [|done]. exists (length es). by destruct s'.
    + rewrite (open_written es _ _ _ _ _ _ (linked_written _ Hl) (linked_nonempty _ Hl) Hb) in Ho.
      injection Ho as _ <-. exists es. split_and!; [done|done|]. apply Forall_app. split; [done|].
      constructor; [|done]. exists (length es). by apply loaded_tracks.
  - destruct IH as [[_ Hs]|[es (Hl & Hb & Hall)]]; [by rewrite Hs in Hx|].
    pose proof (proj1 (Forall_lookup _ _) Hall i x Hx) as [k Ht].
    pose proof (call_step es k _ c Ht Hc) as Hstep. rewrite Hr in Hstep. cbn [snd] in Hstep.
    destruct (step_others _ _ _ _ _ _ Hstep Hall) as (es' & Hl' & Hb' & Hown & Hall').
    exists es'. split_and!; [done|done|]. apply Forall_insert; [done|]. exact Hown.
Qed.

Lemma reachable_store y x : sys_reachable y → x ∈ sys_stores y →
  ∃ es k, sys_tracks es y ∧ tracks es k {| store := x; disk := sys_disk y |}.
Proof.
  intros Hr Hx. destruct (reachable_tracks y Hr) as [[_ Hs]|[es Ht]].
  - rewrite Hs in Hx. by apply not_elem_of_nil in Hx.
  - destruct Ht as (Hl & Hb & Hall). rewrite Forall_forall in Hall. destruct (Hall x Hx) as [k Ht].
    exists es, k. split; [|done]. split_and!; [done|done|by apply Forall_forall].
Qed.

(** ** Theorems *)

(** C4: Whatever any number of processes do to one session file (open it, append
    entries of any kind, select branches, fail before writing), under the file lock
    the file stays a history: a header, then entries with distinct identifiers whose
    parents are earlier entries.  Each store's memory is a prefix of that history,
    in order, and opening the file gives the whole of it. *)
Theorem session_file_is_history y x :
  sys_reachable y → x ∈ sys_stores y →
  ∃ es k, linked es ∧ d_bytes (sys_disk y) = file_bytes es ∧
    v_entries (ss_view x) = take k es ∧
    (∀ id e, by_id_get id (v_by_id (ss_view x)) = Some e → e ∈ take k es ∧ eget "id" e = id) ∧
    ∀ cwd parent sid now,
      open_store cwd parent sid now (sys_disk y) = (Ok tt, loaded (view_of es) None (sys_disk y)).
Proof.
  intros Hr Hx. destruct (reachable_store y x Hr Hx) as (es & k & (Hl & Hb & _) & Ht).
  exists es, k. split_and!; [done|done|by apply Ht| |].
  - intros id e Hid. cbn in *. pose proof (tk_by_id _ _ _ Ht) as Hby. cbn in Hby. rewrite Hby in Hid.
    unfold by_id_get in Hid. destruct (List.find _ _) as [[i e']|] eqn:Hf; [|discriminate Hid].
    apply find_some in Hf as [Hin Heq%bool_decide_eq_true]. cbn in Hid, Heq. simplify_eq.
    apply in_map_iff in Hin as (e' & [= Heq ->] & Hin). split; [|done].
    apply list_elem_of_In in Hin. destruct (take k es) as [|h t]; [by apply not_elem_of_nil in Hin|].
    by right.
  - intros. apply (open_written es); [by apply linked_written|by apply linked_nonempty|done].
Qed.

(** C15: An append by one of several processes puts exactly one line at the end of the
    file and nothing else; the entry has a new identifier; its parent is the last
    entry of the file, however many entries other processes have appended meanwhile,
    unless the store had selected another leaf, which is then the parent; and the
    store's memory afterwards is what opening the file gives. *)
Theorem append_is_durable y x dr e id s' :
  sys_reachable y → x ∈ sys_stores y → draw_ok dr → dr_write dr = WriteAll →
  entry_ok e = true → eget "type" e ≠ JStr "session" →
  append_entry dr e {| store := x; disk := sys_disk y |} = (Ok id, s') →
  ∃ es c, d_bytes (sys_disk y) = file_bytes es ∧ linked (es ++ [c]) ∧
    c = commit e (JStr id)
          (if negb (ss_explicit x) && bool_decide (v_leaf (ss_view x) = ss_disk_leaf x)
           then v_leaf (view_of es) else v_leaf (ss_view x)) (JStr (dr_now dr)) ∧
    d_bytes (disk s') = d_bytes (sys_disk y) ++ record_payload c ∧
    ∀ cwd parent sid now, ∃ s2, open_store cwd parent sid now (disk s') = (Ok tt, s2) ∧
      ss_view (store s2) = ss_view (store s') ∧ disk s2 = disk s'.
Proof.
  intros Hr Hx [Hids _] Hw He Hty Happ. destruct (reachable_store y x Hr Hx) as (es & k & (Hl & Hb & _) & Ht).
  destruct (List.find (λ d, bool_decide (JStr d ∉ ids es)) (dr_ids dr)) as [id'|] eqn:Hid.
  2: { destruct (append_no_draw es k _ dr e Ht Hid) as (s1 & Hno & _). by rewrite Happ in Hno. }
  assert (appendable dr e id' es) as Ha.
  { split; try done. apply find_missing in Hid as [Hin _]. rewrite Forall_forall in Hids. by apply Hids. }
  pose proof (append_spec es k _ dr e id' Ht Ha) as Hspec. cbv zeta in Hspec. rewrite Hw, Happ in Hspec.
  injection Hspec as -> ->. pose proof (appended_linked dr e id' es k _ Ht Ha) as Hlc.
  eexists es, _. split_and!; [done|exact Hlc|reflexivity| |].
  - cbn. by rewrite Hb, file_bytes_app, file_bytes_one.
  - intros. eexists. split; [apply (open_written (es ++ [appended dr e id' es {| store := x; disk := sys_disk y |}]));
      [by apply linked_written|by destruct es|done]|done].
Qed.

Lemma open_nonempty cwd parent sid now d : d_bytes d ≠ [] →
  open_store cwd parent sid now d = load {| store := fresh_store; disk := d |}.
Proof. unfold open_store. by destruct (d_bytes d). Qed.

(** Opening a file that ends in a part of a line. *)
Lemma open_truncated es c n d cwd parent sid now : linked (es ++ [c]) → es ≠ [] →
  d_bytes d = file_bytes es ++ take n (record_payload c) →
  open_store cwd parent sid now d =
  (Ok tt,
   if decide (n = 0)%nat then loaded (view_of es) None d
   else if decide (n < length (print_json (JObj c)))%nat
   then loaded (view_of es) (Some (take n (record_payload c)))
          (recovered_disk (file_bytes es) (take n (record_payload c)) d)
   else loaded (view_of (es ++ [c])) None d).
Proof.
  intros Hl Hne Hb. pose proof (linked_prefix es [c] Hl Hne) as Hles.
  destruct (linked_snoc_inv es c Hl Hne) as (_ & Hc & _).
  pose proof (linked_written es Hles) as Hw.
  assert (apply_loaded_entry (JObj c) (view_of es) = Ok (view_of (es ++ [c]))) as Happly.
  { apply (apply_linked es c (v_leaf (view_of es)) Hl Hne). }
  rewrite open_nonempty by (rewrite Hb; pose proof (file_bytes_nonempty _ Hne); by destruct (file_bytes es)).
  destruct (decide (n = 0)%nat) as [->|Hn].
  { rewrite take_0, app_nil_r in Hb. by apply load_written with (es := es). }
  unfold record_payload in *. destruct (decide (n < length (print_json (JObj c)))%nat) as [Hlt|Hge].
  - rewrite take_app_le in * by lia.
    assert (print_json (JObj c) = take n (print_json (JObj c)) ++ drop n (print_json (JObj c))) as Hsplit
      by by rewrite take_drop.
    assert (drop n (print_json (JObj c)) ≠ []) as Hdrop.
    { intros Hd%(f_equal length). rewrite length_drop in Hd. cbn [length] in Hd. lia. }
    assert (one_line (take n (print_json (JObj c)))) as Hone.
    { apply (one_line_prefix _ (drop n (print_json (JObj c)))). rewrite take_drop. by apply print_entry_one_line. }
    apply load_truncated; [done|done| |done| |].
    + destruct n; [done|]. by rewrite print_obj.
    + destruct n; [done|]. by rewrite print_obj.
    + unfold loads_bytes. rewrite (loads_cut c _ _ Hc Hsplit Hdrop). by destruct (forallb _ _).
  - destruct (decide (n = length (print_json (JObj c)))%nat) as [->|Hne'].
    + rewrite take_app_length in Hb. by apply load_lost_newline with (es := es) (v := view_of es) (e := c).
    + rewrite take_ge in Hb by (rewrite length_app; cbn [length]; lia).
      apply load_written with (es := es ++ [c]); [by apply linked_written|].
      cbn [disk]. rewrite Hb, file_bytes_app, file_bytes_one. done.
Qed.

(** C16: A crash or an I/O error in the middle of an append, after any number of bytes,
    loses at most the entry being appended: opening the file again succeeds and gives
    either the history before the append (the part of a line that reached the disk
    is put aside and removed from the file) or that history with the new entry. *)
Theorem truncated_append_recovers y x dr e n s' cwd parent sid now :
  sys_reachable y → x ∈ sys_stores y → Forall (λ d, d ≠ ""%string) (dr_ids dr) →
  dr_write dr = WriteFails n → entry_ok e = true → eget "type" e ≠ JStr "session" →
  append_entry dr e {| store := x; disk := sys_disk y |} = (Err OSError, s') →
  ∃ es c s2, d_bytes (sys_disk y) = file_bytes es ∧ linked (es ++ [c]) ∧
    open_store cwd parent sid now (disk s') = (Ok tt, s2) ∧
    ((ss_view (store s2) = view_of es ∧ d_bytes (disk s2) = file_bytes es) ∨
     (ss_view (store s2) = view_of (es ++ [c]) ∧ (length (print_json (JObj c)) ≤ n)%nat)).
Proof.
  intros Hr Hx Hids Hw He Hty Happ. destruct (reachable_store y x Hr Hx) as (es & k & (Hl & Hb & _) & Ht).
  destruct (List.find (λ d, bool_decide (JStr d ∉ ids es)) (dr_ids dr)) as [id|] eqn:Hid.
  2: { destruct (append_no_draw es k _ dr e Ht Hid) as (s1 & Hno & _). by rewrite Happ in Hno. }
  assert (appendable dr e id es) as Ha.
  { split; try done. apply find_missing in Hid as [Hin _]. rewrite Forall_forall in Hids. by apply Hids. }
  pose proof (append_spec es k _ dr e id Ht Ha) as Hspec. cbv zeta in Hspec. rewrite Hw, Happ in Hspec.
  destruct Hspec as (s1 & [= <-] & Hd & _). pose proof (appended_linked dr e id es k _ Ht Ha) as Hlc.
  pose proof (open_truncated es _ n (disk s') cwd parent sid now Hlc (linked_nonempty _ Hl)) as Ho.
  specialize (Ho ltac:(by rewrite Hd)). eexists es, _, _. split_and!; [done|exact Hlc|exact Ho|].
  destruct (decide (n = 0)%nat) as [->|Hn].
  - left. split; [done|]. cbn. rewrite Hd. cbn. by rewrite app_nil_r.
  - destruct (decide _); [by left|]. right. split; [done|lia].
Qed.

(** The one place where recovery is not enough: when the write stops exactly before
    the line's end, the file is opened with the entry but without the line's end, the
    next append is put on the same line, and the file can no longer be opened. *)
Theorem lost_newline_corrupts es c d dr e id s' cwd parent sid now :
  linked (es ++ [c]) → es ≠ [] → d_bytes d = file_bytes es ++ print_json (JObj c) →
  appendable dr e id (es ++ [c]) → dr_write dr = WriteAll →
  append_entry dr e (loaded (view_of (es ++ [c])) None d) = (Ok id, s') →
  open_store cwd parent sid now d = (Ok tt, loaded (view_of (es ++ [c])) None d) ∧
  (open_store cwd parent sid now (disk s')).1 = Err (SessionCorruptionError (S (length es))).
Proof.
  intros Hl Hne Hb [He Hty Hid Hnid] Hw Happ. split.
  { pose proof (open_truncated es c (length (print_json (JObj c))) d cwd parent sid now Hl Hne) as Ho.
    unfold record_payload in Ho. rewrite take_app_length in Ho. specialize (Ho Hb). rewrite Ho.
    rewrite decide_False by (by rewrite print_obj). rewrite decide_False by lia. done. }
  destruct (linked_snoc_inv es c Hl Hne) as (Hles & Hc & _).
  revert Happ. unfold append_entry. unfold mbind at 1, st_bind. cbn [st_get]. cbv zeta.
  unfold mbind at 1, st_bind.
  assert (sync_from_disk (loaded (view_of (es ++ [c])) None d) = (Ok tt, loaded (view_of (es ++ [c])) None d)) as ->.
  { unfold sync_from_disk. unfold mbind at 1, st_bind. cbn [st_get]. cbv zeta. cbn [loaded store disk ss_disk_identity ss_disk_offset].
    rewrite bool_decide_eq_false_2 by auto. rewrite Nat.ltb_irrefl, Nat.eqb_refl. done. }
  unfold mbind at 1, st_bind. cbn [st_get]. unfold mbind at 1, st_bind, st_lift.
  rewrite (generate_id_eq _ (es ++ [c])), Hid by done. rewrite Hw. unfold write_record.
  unfold mbind, st_bind. cbn [st_get st_modify]. intros [= <-]. cbn [disk note_disk put_view put_bytes].
  rewrite open_nonempty.
  2: { cbn. rewrite Hb. pose proof (file_bytes_nonempty _ Hne). by destruct (file_bytes es). }
  eapply load_glued; [by apply linked_written|exact Hc| |cbn; rewrite Hb, <- (assoc_L (++)); reflexivity].
  unfold commit. assert (json_ok (v_leaf (view_of (es ++ [c]))) = true) as Hleaf.
  { destruct (ids_leaf _ Hl) as [->|Hin]; [done|]. by destruct (ids_strings _ Hl _ Hin) as (z & -> & _). }
  cbn [loaded store ss_view ss_explicit ss_disk_leaf negb andb].
  repeat apply entry_ok_set; try done. by destruct (bool_decide _).
Qed.

(** The branch of any entry is found in as many steps as it has entries: for every
    leaf a store can select and every known identifier, [get_branch] returns the
    entries from a root to it, each the parent of the next, in the order in which
    they were appended; for an unknown identifier it returns nothing. *)
Theorem get_branch_total y x id :
  sys_reachable y → x ∈ sys_stores y → hashable id = true →
  ∃ chain, get_branch (ss_view x) id = Ok chain ∧ chain `sublist_of` v_entries (ss_view x) ∧
    (truthy id = true → by_id_get id (v_by_id (ss_view x)) = None → chain = []) ∧
    ∀ i e, chain !! i = Some e →
      eget "parentId" e = match i with
                          | O => JNull
                          | S j => match chain !! j with Some e' => eget "id" e' | None => JNull end
                          end.
Proof.
  intros Hr Hx Hh. destruct (reachable_store y x Hr Hx) as (es & k & _ & Ht).
  pose proof (take_linked es k (tk_linked _ _ _ Ht) (proj1 (tk_k _ _ _ Ht))) as Hl.
  set (fs := take k es) in *. destruct Ht as [_ _ _ He Hi Hleaf _ _ _]. cbn [store] in *. fold fs in He, Hi, Hleaf.
  assert (ss_view x = with_leaf (v_leaf (ss_view x)) (view_of fs)) as Hview.
  { unfold with_leaf. rewrite <- Hi. cbn [view_of v_entries]. rewrite <- He. by destruct (ss_view x). }
  assert (∀ id chain, branch_path fs id chain → ∀ i e, chain !! i = Some e →
    eget "parentId" e = match i with
                        | O => JNull
                        | S j => match chain !! j with Some e' => eget "id" e' | None => JNull end
                        end) as Hlinks.
  { clear. induction 1 as [|e chain He Hp IH]; intros i e'; [done|]. intros [Hi|[Hi ->]]%lookup_snoc_Some.
    - destruct Hi as [Hlt Hi]. rewrite (IH _ _ Hi). destruct i as [|j]; [done|].
      by rewrite lookup_app_l by lia.
    - inversion Hp as [Heq Hc|e2 chain2 He2 Hp2 Heq Hc]; subst; [done|].
      rewrite length_app. cbn [length]. rewrite Nat.add_1_r.
      rewrite lookup_app_l by (rewrite length_app; cbn; lia). by rewrite lookup_app_r, Nat.sub_diag by lia. }
  assert (∀ chain, chain `sublist_of` tail fs → chain `sublist_of` fs) as Htail.
  { intros chain Hs. pose proof (linked_nonempty _ Hl). destruct fs; [done|]. by constructor. }
  destruct (truthy id) eqn:Htr.
  - destruct (by_id_get id (v_by_id (ss_view x))) as [e|] eqn:Hg.
    + assert (id ∈ ids fs) as Hin.
      { rewrite <- view_keys, <- Hi. destruct (decide (id ∈ map fst (v_by_id (ss_view x)))) as [|Hn]; [done|].
        apply by_id_get_keys in Hn. congruence. }
      destruct (linked_branch fs Hl id) as (chain & Hp & Hs); [by right|]. exists chain.
      rewrite Hview, (get_branch_path fs _ id chain); [|done..|left; by intros ->].
      cbn [with_leaf v_entries view_of]. split_and!; [done|by apply Htail|done|by eapply Hlinks].
    + exists []. unfold get_branch. rewrite Htr. cbn [branch_from]. unfold lookup_id.
      rewrite Htr, Hh, Hg. cbn. split_and!; [done|apply sublist_nil_l|done|done].
  - destruct (linked_branch fs Hl (v_leaf (ss_view x)) Hleaf) as (chain & Hp & Hs). exists chain.
    assert (get_branch (ss_view x) id = Ok chain) as ->.
    { rewrite Hview. unfold get_branch. rewrite Htr. rewrite <- (app_nil_r chain).
      apply branch_from_path; [done|exact Hp|]. apply sublist_length in Hs.
      cbn [with_leaf v_by_id view_of]. rewrite length_map. lia. }
    split_and!; [done|by rewrite He; apply Htail|done|by eapply Hlinks].
Qed.

(** ** Exported branches *)

Definition same_but_parent (e e' : entry) : Prop := ∀ k, k ≠ "parentId"%string → eget k e' = eget k e.

Lemma linearize_snoc chain e : ∀ prev,
  linearize prev (chain ++ [e]) =
  linearize prev chain ++ [dict_set "parentId" (match last chain with
                                                | Some e' => eget "id" e'
                                                | None => prev
                                                end) e].
Proof.
  induction chain as [|e1 chain IH]; intros prev; [done|]. rewrite <- app_comm_cons. cbn [linearize].
  rewrite IH. rewrite <- app_comm_cons. do 4 f_equal. rewrite last_cons. by destruct (last chain).
Qed.

Lemma linearize_ids chain prev : map (eget "id") (linearize prev chain) = map (eget "id") chain.
Proof.
  revert prev. induction chain as [|e chain IH]; intros prev; cbn [linearize map]; [done|].
  by rewrite IH, eget_set.
Qed.

Lemma linearize_same chain prev : Forall2 same_but_parent chain (linearize prev chain).
Proof.
  revert prev. induction chain as [|e chain IH]; intros prev; cbn [linearize]; constructor; [|apply IH].
  intros k Hk. rewrite eget_set, bool_decide_eq_false_2; congruence.
Qed.

(** An entry that can be put after a header. *)
Record node_ok (e : entry) : Prop := {
  node_entry : entry_ok e = true;
  node_type : eget "type" e ≠ JStr "session";
  node_id : ∃ id, eget "id" e = JStr id ∧ id ≠ ""%string
}.

Lemma linked_nodes es : linked es → Forall node_ok (tail es).
Proof.
  induction 1 as [h|es e id Hes IH He Ht Hid Hn Hf Hp]; [constructor|].
  rewrite tail_snoc by by apply linked_nonempty. apply Forall_app. split; [done|].
  constructor; [|done]. split; [done|done|by exists id].
Qed.

Lemma linearize_linked h chain : linked [h] → Forall node_ok chain → NoDup (map (eget "id") chain) →
  linked (h :: linearize JNull chain) ∧
  branch_path (h :: linearize JNull chain)
    (match last chain with Some e => eget "id" e | None => JNull end) (linearize JNull chain).
Proof.
  intros Hh. induction chain as [|e chain IH] using rev_ind; [by split; [|constructor]|].
  intros [Hnodes [[He Ht (id & Hid & Hn)] _]%Forall_cons]%Forall_app Hnd.
  rewrite map_app in Hnd. apply NoDup_app in Hnd as (Hnd & Hfresh & _).
  destruct (IH Hnodes Hnd) as [Hl Hp]. rewrite linearize_snoc, last_snoc. cbv iota beta.
  set (parent := match last chain with Some e' => eget "id" e' | None => JNull end) in *.
  change (h :: linearize JNull chain ++ [dict_set "parentId" parent e])
    with ((h :: linearize JNull chain) ++ [dict_set "parentId" parent e]).
  assert (parent = JNull ∨ parent ∈ ids (h :: linearize JNull chain)) as Hparent.
  { unfold parent, ids. cbn [tail]. rewrite linearize_ids. destruct (last chain) as [e'|] eqn:Hlast; [|by left].
    right. apply last_Some in Hlast as [l ->]. apply list_elem_of_fmap. exists e'. split; [done|].
    apply elem_of_app. right. apply list_elem_of_here. }
  assert (json_ok parent = true) as Hpok.
  { destruct Hparent as [->|Hin]; [done|]. by destruct (ids_strings _ Hl _ Hin) as (z & -> & _). }
  split.
  - eapply linked_entry; [done|by apply entry_ok_set|by rewrite eget_set|rewrite eget_set; exact Hid|done| |
      by rewrite eget_set].
    unfold ids. cbn [tail]. rewrite linearize_ids. intros Hin. apply (Hfresh _ Hin). cbn. rewrite Hid.
    apply list_elem_of_here.
  - replace (eget "id" e) with (eget "id" (dict_set "parentId" parent e)) by by rewrite eget_set.
    constructor.
    + cbn [tail]. rewrite <- app_comm_cons. cbn [tail]. apply elem_of_app. right. apply list_elem_of_here.
    + rewrite eget_set, bool_decide_eq_true_2 by done. by apply (branch_path_more (h :: linearize JNull chain)).
Qed.

(** Exporting a branch and reading the file back: the exported file is a history of
    its own, with one line of descent that [get_branch] returns, and its entries are
    those of the branch in the same order, changed in nothing but their parents. *)
Theorem export_is_linear y x now es' :
  sys_reachable y → x ∈ sys_stores y → export_to_jsonl now (ss_view x) = Ok es' →
  ∃ chain copied, get_branch (ss_view x) JNull = Ok chain ∧ linked es' ∧
    read_entries es' empty_view = Ok (view_of es') ∧
    get_branch (view_of es') JNull = Ok copied ∧ Forall2 same_but_parent chain copied ∧
    eget "id" (header (view_of es')) = default (JStr "") (dict_get "id" (header (ss_view x))).
Proof.
  intros Hr Hx Hexp. destruct (reachable_store y x Hr Hx) as (es & k & _ & Ht).
  pose proof (take_linked es k (tk_linked _ _ _ Ht) (proj1 (tk_k _ _ _ Ht))) as Hl.
  set (fs := take k es) in *. destruct Ht as [_ _ _ He Hi Hleaf _ _ _]. cbn [store] in *. fold fs in He, Hi, Hleaf.
  assert (ss_view x = with_leaf (v_leaf (ss_view x)) (view_of fs)) as Hview.
  { unfold with_leaf. rewrite <- Hi. cbn [view_of v_entries]. rewrite <- He. by destruct (ss_view x). }
  destruct (linked_branch fs Hl (v_leaf (ss_view x)) Hleaf) as (chain & Hp & Hs).
  assert (get_branch (ss_view x) JNull = Ok chain) as Hchain.
  { rewrite Hview. unfold get_branch. cbn [truthy]. rewrite <- (app_nil_r chain).
    apply branch_from_path; [done|exact Hp|]. apply sublist_length in Hs.
    cbn [with_leaf v_by_id view_of]. rewrite length_map. lia. }
  unfold export_to_jsonl in Hexp. rewrite Hchain in Hexp. cbn in Hexp.
  match type of Hexp with Ok (?h :: _) = _ => set (head := h) in Hexp end. injection Hexp as <-.
  assert (entry_ok (header (ss_view x)) = true) as Hhead.
  { unfold header. rewrite He. destruct (List.find _ fs) as [h|] eqn:Hf; [|done].
    apply find_some in Hf as [Hin%list_elem_of_In _]. pose proof (linked_ok _ Hl) as Hall.
    rewrite Forall_forall in Hall. by apply Hall. }
  assert (∀ key, json_ok (default (JStr "") (dict_get key (header (ss_view x)))) = true) as Hget.
  { intros key. unfold dict_get. destruct (List.find _ _) as [p|] eqn:Hf; [|done].
    apply find_some in Hf as [Hin _]. cbn. unfold entry_ok in Hhead. cbn in Hhead.
    apply andb_true_iff in Hhead as [_ Hall]. rewrite forallb_forall in Hall. by apply (Hall p). }
  assert (linked [head]) as Hh.
  { constructor; [|done]. unfold head, entry_ok. cbn -[default dict_get]. by rewrite !Hget. }
  assert (Forall node_ok chain) as Hnodes.
  { pose proof (linked_nodes _ Hl) as Hall. rewrite Forall_forall in Hall |- *. intros e Hin.
    apply Hall. by eapply sublist_subseteq. }
  assert (NoDup (map (eget "id") chain)) as Hnd.
  { pose proof (ids_nodup _ Hl) as Hids. unfold ids in Hids.
    eapply sublist_NoDup; [exact Hids|]. by apply (fmap_sublist (eget "id")). }
  destruct (linearize_linked head chain Hh Hnodes Hnd) as [Hl' Hp'].
  exists chain, (linearize JNull chain). split_and!; [done|done|by apply read_linked| |apply linearize_same|done].
  replace (view_of (head :: linearize JNull chain)) with
    (with_leaf (v_leaf (view_of (head :: linearize JNull chain))) (view_of (head :: linearize JNull chain))) by done.
  unfold get_branch. cbn [truthy].
  match goal with |- branch_from ?n ?v ?i [] = _ =>
    enough (branch_from n v i [] = Ok (linearize JNull chain ++ [])) as Hgoal
      by (by rewrite app_nil_r in Hgoal) end.
  apply branch_from_path; [done| |].
  - cbn [with_leaf v_leaf view_of tail].
    assert (match last (linearize JNull chain) with Some e => eget "id" e | None => JNull end =
            match last chain with Some e => eget "id" e | None => JNull end) as ->; [|done].
    destruct chain as [|e chain _] using rev_ind; [done|]. rewrite linearize_snoc, !last_snoc. by rewrite eget_set.
  - cbn [with_leaf v_by_id view_of tail]. rewrite length_map. lia.
Qed.

(** ** Samples *)

Definition sample_draw (id : string) (w : write_outcome) : Draw :=
  {| dr_ids := [id]; dr_now := "t"; dr_write := w |}.

Definition sample_start : System :=
  {| sys_disk := {| d_identity := 0; d_bytes := []; d_next_identity := 1; d_quarantine := [] |};
     sys_stores := [] |}.

Definition open_sys (y : System) : System :=
  let s := (open_store "/w" None "sid" "t0" (sys_disk y)).2 in
  {| sys_disk := disk s; sys_stores := sys_stores y ++ [store s] |}.

Definition call_sys (i : nat) (c : session_call) (y : System) : System :=
  match sys_stores y !! i with
  | Some x =>
      let s := (run_call c {| store := x; disk := sys_disk y |}).2 in
      {| sys_disk := disk s; sys_stores := <[i := store s]> (sys_stores y) |}
  | None => y
  end.

Lemma open_sys_reachable y : sys_reachable y → sys_reachable (open_sys y).
Proof. intros H. eapply reach_step; [exact H|]. eapply sys_open. apply surjective_pairing. Qed.

Lemma call_sys_reachable i c y : sys_reachable y → call_ok c → sys_reachable (call_sys i c y).
Proof.
  intros H Hc. unfold call_sys. destruct (sys_stores y !! i) as [x|] eqn:Hx; [|done].
  eapply reach_step; [exact H|]. eapply sys_call; [exact Hx|exact Hc|]. apply surjective_pairing.
Qed.

Lemma sample_draw_ok id w : id ≠ ""%string → w = WriteAll ∨ w = WriteFails 0 → draw_ok (sample_draw id w).
Proof. intros Hid Hw. split; [by constructor|done]. Qed.

(** Two processes: the first appends two messages and goes back to the first of them,
    the second appends a third. *)
Definition sample_message (id : string) : session_call :=
  CallMessage (sample_draw id WriteAll) (JObj [("role", JStr "user")]%string).

Definition sample_system : System :=
  call_sys 1 (sample_message "c") (call_sys 0 (CallBranch "a") (call_sys 0 (sample_message "b")
    (call_sys 0 (sample_message "a") (open_sys (open_sys sample_start))))).

Lemma sample_session_reachable : sys_reachable sample_system.
Proof.
  unfold sample_system. repeat first [apply call_sys_reachable | apply open_sys_reachable];
    try done; try (split; [by apply sample_draw_ok; [|left]|reflexivity]).
  apply (reach_start 0).
Qed.

Definition sample_store : SessionStore := default fresh_store (sys_stores sample_system !! 0%nat).

Lemma sample_store_in : sample_store ∈ sys_stores sample_system.
Proof. apply (list_elem_of_lookup_2 _ 0%nat). vm_compute. reflexivity. Qed.

Definition sample_entry : entry := [("type", JStr "note")]%string.

Definition sample_append (w : write_outcome) : result store_error string * State :=
  append_entry (sample_draw "d" w) sample_entry {| store := sample_store; disk := sys_disk sample_system |}.

Lemma run_pair {A B} (p : A * B) a : p.1 = a → p = (a, p.2).
Proof. by intros <-; destruct p. Qed.

Lemma sample_ids_ok : Forall (λ d, d ≠ ""%string) (dr_ids (sample_draw "d" (WriteFails 7))).
Proof. by constructor. Qed.

Lemma sample_append_all :
  append_entry (sample_draw "d" WriteAll) sample_entry {| store := sample_store; disk := sys_disk sample_system |} =
  (Ok "d"%string, (sample_append WriteAll).2).
Proof. unfold sample_append. apply run_pair. vm_compute. reflexivity. Qed.

Lemma sample_append_fails :
  append_entry (sample_draw "d" (WriteFails 7)) sample_entry {| store := sample_store; disk := sys_disk sample_system |} =
  (Err OSError, (sample_append (WriteFails 7)).2).
Proof. unfold sample_append. apply run_pair. vm_compute. reflexivity. Qed.

Lemma session_file_is_history_witness :
  ∃ es k, d_bytes (sys_disk sample_system) = file_bytes es ∧ v_entries (ss_view sample_store) = take k es.
Proof.
  destruct (session_file_is_history sample_system sample_store sample_session_reachable sample_store_in)
    as (es & k & _ & Hb & He & _).
  exists es, k. split; [exact Hb|exact He].
Defined.

Lemma append_is_durable_witness :
  ∃ es c, d_bytes (sys_disk sample_system) = file_bytes es ∧ eget "parentId" c = JStr "a" ∧
    linked (es ++ [c]).
Proof.
  destruct (append_is_durable sample_system sample_store (sample_draw "d" WriteAll) sample_entry "d"
    (sample_append WriteAll).2
    sample_session_reachable sample_store_in (sample_draw_ok "d" WriteAll ltac:(discriminate) (or_introl eq_refl))
    eq_refl eq_refl ltac:(discriminate) sample_append_all)
    as (es & c & Hb & Hl & Hc & _).
  exists es, c. split; [exact Hb|]. split; [|exact Hl]. rewrite Hc. vm_compute. reflexivity.
Defined.

Lemma truncated_append_recovers_witness :
  ∃ es s2, d_bytes (sys_disk sample_system) = file_bytes es ∧
    open_store "/w" None "sid" "t0" (disk (sample_append (WriteFails 7)).2) = (Ok tt, s2).
Proof.
  destruct (truncated_append_recovers sample_system sample_store (sample_draw "d" (WriteFails 7)) sample_entry 7
    (sample_append (WriteFails 7)).2 "/w" None "sid" "t0"
    sample_session_reachable sample_store_in sample_ids_ok
    eq_refl eq_refl ltac:(discriminate) sample_append_fails)
    as (es & c & s2 & Hb & _ & Ho & _).
  exists es, s2. split; [exact Hb|exact Ho].
Defined.

Definition sample_header : entry := [("type", JStr "session")]%string.
Definition sample_note : entry := commit sample_entry (JStr "a") JNull (JStr "t").

Lemma sample_note_linked : linked ([sample_header] ++ [sample_note]).
Proof.
  apply linked_snoc; try done; [by constructor|by apply not_elem_of_nil|by left].
Qed.

Definition sample_cut : Disk :=
  {| d_identity := 0; d_bytes := file_bytes [sample_header] ++ print_json (JObj sample_note);
     d_next_identity := 1; d_quarantine := [] |}.

Lemma lost_newline_corrupts_witness :
  (open_store "/w" None "sid" "t0"
     (disk (append_entry (sample_draw "b" WriteAll) sample_entry
        (loaded (view_of ([sample_header] ++ [sample_note])) None sample_cut)).2)).1 =
  Err (SessionCorruptionError 2).
Proof.
  refine (proj2 (lost_newline_corrupts [sample_header] sample_note sample_cut (sample_draw "b" WriteAll)
    sample_entry "b" _ "/w" None "sid" "t0" sample_note_linked _ eq_refl _ eq_refl
    (run_pair _ (Ok "b"%string) _))); [discriminate| |vm_compute; reflexivity].
  split; [reflexivity|discriminate|vm_compute; reflexivity|discriminate].
Defined.

Lemma get_branch_total_witness :
  ∃ chain, get_branch (ss_view sample_store) JNull = Ok chain ∧
    chain `sublist_of` v_entries (ss_view sample_store).
Proof.
  destruct (get_branch_total sample_system sample_store JNull sample_session_reachable sample_store_in eq_refl)
    as (chain & Hg & Hs & _).
  exists chain. split; [exact Hg|exact Hs].
Defined.

Lemma export_is_linear_witness :
  ∃ es', export_to_jsonl "t1" (ss_view sample_store) = Ok es' ∧ linked es'.
Proof.
  assert (is_ok (export_to_jsonl "t1" (ss_view sample_store)) = true) as Hok by (vm_compute; reflexivity).
  destruct (export_to_jsonl "t1" (ss_view sample_store)) as [es'|e] eqn:Hexp; [|discriminate Hok].
  destruct (export_is_linear sample_system sample_store "t1" es' sample_session_reachable sample_store_in Hexp)
    as (chain & copied & _ & Hl & _).
  exists es'. split; [reflexivity|exact Hl].
Defined.
