(* ===== verification/SessionContext.v ===== *)
(** From a session file back to a conversation (travis/coding_agent/session_store.py):
    the JSON of a message and the message read from it, the context of a branch, and
    the tree of the session.

    Reading checks no types, so the fields of a message read from a file are JSON
    values.  [now] is the clock: the reading made for an entry that has no timestamp.
    [fromisoformat_ms] is [int(datetime.fromisoformat(s).timestamp() * 1000)], [None]
    for [ValueError]; [repr] the [str] of values that are neither strings nor
    integers. *)

From S2P Require Import Prelude PyDict Json JsonText PyFloat Utf8 PyText PyValue Params SessionStore.
Open Scope Z_scope.

(** ** JSON values as Python values *)

Definition str_text (s : string) : Utf8.text := map code (chars s).

Fixpoint pv_of_json (j : json) : pv :=
  match j with
  | JNull => PNone
  | JBool b => PBool b
  | JInt z => PInt z
  | JFloat r => PFloat (default SpecFloat.S754_nan (py_float (str_text r)))
  | JStr s => PStr (str_text s)
  | JList l => PList (map pv_of_json l)
  | JObj d => PDict (map (λ p, (str_text p.1, pv_of_json p.2)) d)
  end.

(** ** Messages *)

(** [src: travis/ai/types.py:21-49 TextContent, ThinkingContent, ImageContent, ToolCall] *)
Inductive Block : Type :=
  | TextContent (txt text_signature : json)
  | ImageContent (data mime_type : json)
  | ThinkingContent (thinking thinking_signature : json) (redacted : bool)
  | ToolCall (call_id name arguments thought_signature : json).

Inductive Content : Type :=
  | Plain (s : string)
  | Blocks (blocks : list Block).

(** [src: travis/ai/types.py:64-83 Cost, Usage] *)
Record Usage : Type := {
  u_input : json; u_output : json; u_cache_read : json; u_cache_write : json;
  u_cache_write_1h : json; u_reasoning : json; u_total_tokens : json;
  u_cost_input : json; u_cost_output : json; u_cost_cache_read : json; u_cost_cache_write : json;
  u_cost_total : json; u_cost_tiers : list json
}.

(** [src: travis/ai/types.py:86-87 empty_usage] *)
Definition empty_usage : Usage :=
  {| u_input := JInt 0; u_output := JInt 0; u_cache_read := JInt 0; u_cache_write := JInt 0;
     u_cache_write_1h := JInt 0; u_reasoning := JInt 0; u_total_tokens := JInt 0;
     u_cost_input := JFloat "0.0"; u_cost_output := JFloat "0.0"; u_cost_cache_read := JFloat "0.0";
     u_cost_cache_write := JFloat "0.0"; u_cost_total := JFloat "0.0"; u_cost_tiers := [] |}.

(** [src: travis/ai/types.py:97-110 AssistantMessage] *)
Record AssistantMessage : Type := {
  a_content : list Block; a_api : json; a_provider : json; a_model : json; a_usage : Usage;
  a_stop_reason : json; a_response_model : json; a_response_id : json; a_diagnostics : json;
  a_error_message : json; a_timestamp : json
}.

(** [src: travis/ai/types.py:113-122 ToolResultMessage] *)
Record ToolResultMessage : Type := {
  t_tool_call_id : json; t_tool_name : json; t_content : list Block; t_is_error : bool;
  t_details : json; t_added_tool_names : json; t_timestamp : json
}.

(** [src: travis/coding_agent/session_store.py:77-87 BashExecutionMessage] *)
Record BashExecutionMessage : Type := {
  b_command : json; b_output : json; b_exit_code : json; b_cancelled : bool; b_truncated : bool;
  b_full_output_path : json; b_timestamp : json; b_exclude_from_context : json
}.

(** The messages of a context: the four that a file stores, and the three made from
    other entries.
    [src: travis/coding_agent/session_store.py:57-101 BranchSummaryMessage, CompactionSummaryMessage, CustomMessage] *)
Inductive Message : Type :=
  | UserMsg (content : Content) (timestamp : json)
  | AssistantMsg (m : AssistantMessage)
  | ToolResultMsg (m : ToolResultMessage)
  | BashMsg (m : BashExecutionMessage)
  | CustomMsg (custom_type : json) (content : Content) (display : bool) (details : json) (timestamp : Z)
  | BranchSummaryMsg (summary from_id : json) (timestamp : Z)
  | CompactionSummaryMsg (summary : json) (tokens_before : Z) (details : json) (timestamp : Z).

(** ** Exceptions *)

Inductive context_error : Type :=
  | StoreError (e : store_error)
  | KeyError
  | OverflowError.

Definition type_error {A} (m : string) : result context_error A := Err (StoreError (TypeError m)).
Definition attribute_error {A} (m : string) : result context_error A := Err (StoreError (AttributeError m)).

(** [data.get], when [data] is a dict. *)
Definition as_dict (j : json) : result context_error (list (string * json)) :=
  match j with JObj d => Ok d | _ => attribute_error "get" end.

(** [data.get(key, default)] *)
Definition get_or (key : string) (dflt : json) (d : list (string * json)) : json := default dflt (dict_get key d).

(** [for item in value]. *)
Definition iterate (j : json) : result context_error (list json) :=
  match j with
  | JList l => Ok l
  | JStr s => Ok (map (λ c, JStr (String c "")) (chars s))
  | JObj d => Ok (map (λ p, JStr p.1) d)
  | _ => type_error "object is not iterable"
  end.

(** ** Writing *)

(** [src: travis/coding_agent/session_store.py:945-965 _serialize_block] *)
Definition _serialize_block (block : Block) : json :=
  JObj match block with
       | TextContent t s => [("type", JStr "text"); ("text", t); ("textSignature", s)]
       | ImageContent d m => [("type", JStr "image"); ("data", d); ("mimeType", m)]
       | ThinkingContent t s r =>
           [("type", JStr "thinking"); ("thinking", t); ("thinkingSignature", s); ("redacted", JBool r)]
       | ToolCall i n a s =>
           [("type", JStr "toolCall"); ("id", i); ("name", n); ("arguments", a); ("thoughtSignature", s)]
       end%string.

(** [src: travis/coding_agent/session_store.py:933-936 _serialize_content] *)
Definition _serialize_content (content : Content) : json :=
  match content with
  | Plain s => JStr s
  | Blocks l => JList (map _serialize_block l)
  end.

(** [src: travis/coding_agent/session_store.py:997-1012 _serialize_usage] *)
Definition _serialize_usage (usage : Usage) : json :=
  JObj [("input", u_input usage); ("output", u_output usage); ("cacheRead", u_cache_read usage);
        ("cacheWrite", u_cache_write usage); ("cacheWrite1h", u_cache_write_1h usage);
        ("totalTokens", u_total_tokens usage);
        ("cost", JObj [("input", u_cost_input usage); ("output", u_cost_output usage);
                       ("cacheRead", u_cost_cache_read usage); ("cacheWrite", u_cost_cache_write usage);
                       ("total", u_cost_total usage)])]%string.

(** [src: travis/coding_agent/session_store.py:826-872 serialize_message] *)
Definition serialize_message (message : Message) : result context_error json :=
  match message with
  | BashMsg m => Ok (JObj [("role", JStr "bashExecution"); ("command", b_command m); ("output", b_output m);
      ("exitCode", b_exit_code m); ("cancelled", JBool (b_cancelled m)); ("truncated", JBool (b_truncated m));
      ("fullOutputPath", b_full_output_path m); ("timestamp", b_timestamp m);
      ("excludeFromContext", b_exclude_from_context m)]%string)
  | UserMsg content timestamp => Ok (JObj [("role", JStr "user"); ("content", _serialize_content content);
      ("timestamp", timestamp)]%string)
  | AssistantMsg m => Ok (JObj [("role", JStr "assistant"); ("content", JList (map _serialize_block (a_content m)));
      ("api", a_api m); ("provider", a_provider m); ("model", a_model m); ("usage", _serialize_usage (a_usage m));
      ("stopReason", a_stop_reason m); ("responseModel", a_response_model m); ("responseId", a_response_id m);
      ("diagnostics", a_diagnostics m); ("errorMessage", a_error_message m); ("timestamp", a_timestamp m)]%string)
  | ToolResultMsg m => Ok (JObj [("role", JStr "toolResult"); ("toolCallId", t_tool_call_id m);
      ("toolName", t_tool_name m); ("content", JList (map _serialize_block (t_content m)));
      ("isError", JBool (t_is_error m)); ("details", t_details m); ("addedToolNames", t_added_tool_names m);
      ("timestamp", t_timestamp m)]%string)
  | _ => type_error "Unsupported session message role"
  end.

(** ** Reading *)

(** [src: travis/coding_agent/session_store.py:968-987 _deserialize_block] *)
Definition _deserialize_block (data : json) : result context_error Block :=
  d ← as_dict data;
  let block_type := get_or "type" JNull d in
  if bool_decide (block_type = JStr "text")
  then Ok (TextContent (get_or "text" (JStr "") d) (get_or "textSignature" JNull d))
  else if bool_decide (block_type = JStr "image")
  then Ok (ImageContent (get_or "data" (JStr "") d) (get_or "mimeType" (get_or "mime_type" (JStr "") d) d))
  else if bool_decide (block_type = JStr "thinking")
  then Ok (ThinkingContent (get_or "thinking" (JStr "") d) (get_or "thinkingSignature" JNull d)
             (truthy (get_or "redacted" (JBool false) d)))
  else if bool_decide (block_type = JStr "toolCall")
  then Ok (ToolCall (get_or "id" (JStr "") d) (get_or "name" (JStr "") d) (get_or "arguments" (JObj []) d)
             (get_or "thoughtSignature" JNull d))
  else type_error "Unsupported content block type".

(** [src: travis/coding_agent/session_store.py:990-994 _deserialize_message_block] *)
Definition _deserialize_message_block (data : json) : result context_error Block :=
  block ← _deserialize_block data;
  match block with
  | TextContent _ _ | ImageContent _ _ => Ok block
  | _ => type_error "Unsupported content block type"
  end.

(** [src: travis/coding_agent/session_store.py:939-942 _deserialize_content] *)
Definition _deserialize_content (content : json) : result context_error Content :=
  match content with
  | JStr s => Ok (Plain s)
  | _ => items ← iterate (if truthy content then content else JList []);
         Blocks <$> try_map _deserialize_message_block items
  end.

(** [src: travis/coding_agent/session_store.py:1015-1033 _deserialize_usage] *)
Definition _deserialize_usage (data : json) : result context_error Usage :=
  if negb (truthy data) then Ok empty_usage
  else
    d ← as_dict data;
    let cost := get_or "cost" JNull d in
    c ← as_dict (if truthy cost then cost else JObj []);
    Ok {| u_input := get_or "input" (JInt 0) d; u_output := get_or "output" (JInt 0) d;
          u_cache_read := get_or "cacheRead" (get_or "cache_read" (JInt 0) d) d;
          u_cache_write := get_or "cacheWrite" (get_or "cache_write" (JInt 0) d) d;
          u_cache_write_1h := get_or "cacheWrite1h" (get_or "cache_write_1h" (JInt 0) d) d;
          u_reasoning := JInt 0;
          u_total_tokens := get_or "totalTokens" (get_or "total_tokens" (JInt 0) d) d;
          u_cost_input := get_or "input" (JFloat "0.0") c; u_cost_output := get_or "output" (JFloat "0.0") c;
          u_cost_cache_read := get_or "cacheRead" (get_or "cache_read" (JFloat "0.0") c) c;
          u_cost_cache_write := get_or "cacheWrite" (get_or "cache_write" (JFloat "0.0") c) c;
          u_cost_total := get_or "total" (JFloat "0.0") c; u_cost_tiers := [] |}%string.

(** [src: travis/coding_agent/session_store.py:891-930 deserialize_message] *)
Definition deserialize_message (now : Z) (data : json) : result context_error Message :=
  d ← as_dict data;
  let role := get_or "role" JNull d in
  let timestamp := get_or "timestamp" (JInt now) d in
  if bool_decide (role = JStr "bashExecution") then
    Ok (BashMsg {| b_command := get_or "command" (JStr "") d; b_output := get_or "output" (JStr "") d;
      b_exit_code := get_or "exitCode" JNull d; b_cancelled := truthy (get_or "cancelled" (JBool false) d);
      b_truncated := truthy (get_or "truncated" (JBool false) d); b_full_output_path := get_or "fullOutputPath" JNull d;
      b_timestamp := timestamp; b_exclude_from_context := get_or "excludeFromContext" JNull d |})
  else if bool_decide (role = JStr "user") then
    content ← _deserialize_content (get_or "content" JNull d); Ok (UserMsg content timestamp)
  else if bool_decide (role = JStr "assistant") then
    items ← iterate (get_or "content" (JList []) d);
    content ← try_map _deserialize_block items;
    usage ← _deserialize_usage (get_or "usage" JNull d);
    Ok (AssistantMsg {| a_content := content; a_api := get_or "api" (JStr "") d;
      a_provider := get_or "provider" (JStr "") d; a_model := get_or "model" (JStr "") d; a_usage := usage;
      a_stop_reason := get_or "stopReason" (get_or "stop_reason" (JStr "stop") d) d;
      a_response_model := get_or "responseModel" JNull d; a_response_id := get_or "responseId" JNull d;
      a_diagnostics := get_or "diagnostics" JNull d; a_error_message := get_or "errorMessage" JNull d;
      a_timestamp := timestamp |})
  else if bool_decide (role = JStr "toolResult") then
    items ← iterate (get_or "content" (JList []) d);
    content ← try_map _deserialize_message_block items;
    Ok (ToolResultMsg {| t_tool_call_id := get_or "toolCallId" (JStr "") d; t_tool_name := get_or "toolName" (JStr "") d;
      t_content := content; t_is_error := truthy (get_or "isError" (JBool false) d);
      t_details := get_or "details" JNull d; t_added_tool_names := get_or "addedToolNames" JNull d;
      t_timestamp := timestamp |})
  else type_error "Unsupported session message role".

(** ** Entries *)
Section context.
Variable fromisoformat_ms : string → option Z.
Variable repr : pv → Utf8.text.
Variable json_loads_text : Utf8.text → option pv.

(** [value.replace("Z", "+00:00")] *)
Definition replace_z (s : string) : string :=
  String.concat "" (map (λ c, if code c =? 90 then "+00:00"%string else String c "") (chars s)).

(** [src: travis/coding_agent/session_store.py:1040-1046 _timestamp_to_ms] *)
Definition _timestamp_to_ms (now : Z) (value : json) : result context_error Z :=
  if negb (truthy value) then Ok now
  else match value with
       | JStr s => Ok (default now (fromisoformat_ms (replace_z s)))
       | _ => attribute_error "replace"
       end.

(** [int(value)] *)
Definition int_of_json (value : json) : result context_error Z :=
  match pv_of_json value with
  | PInt z => Ok z
  | PBool b => Ok (if b then 1 else 0)
  | PStr s => match py_int s with Some z => Ok z | None => Err (StoreError (ValueError "int")) end
  | PFloat f =>
      match f with
      | SpecFloat.S754_nan => Err (StoreError (ValueError "int"))
      | SpecFloat.S754_infinity _ => Err OverflowError
      | _ => Ok (fl_trunc f)
      end
  | _ => type_error "int"
  end.

(** [src: travis/coding_agent/session_store.py:745-770 _entry_to_message] *)
Definition _entry_to_message (now : Z) (e : entry) : result context_error (option Message) :=
  let entry_type := eget "type" e in
  if bool_decide (entry_type = JStr "message") then
    match dict_get "message" e with
    | None => Err KeyError
    | Some data => Some <$> deserialize_message now data
    end
  else if bool_decide (entry_type = JStr "custom_message") then
    content ← _deserialize_content (eget "content" e);
    timestamp ← _timestamp_to_ms now (eget "timestamp" e);
    Ok (Some (CustomMsg (get_or "customType" (JStr "") e) content (truthy (get_or "display" (JBool true) e))
                (eget "details" e) timestamp))
  else if bool_decide (entry_type = JStr "branch_summary") && truthy (eget "summary" e) then
    timestamp ← _timestamp_to_ms now (eget "timestamp" e);
    Ok (Some (BranchSummaryMsg (eget "summary" e) (get_or "fromId" (JStr "root") e) timestamp))
  else if bool_decide (entry_type = JStr "compaction") && truthy (eget "summary" e) then
    let tokens := get_or "tokensBefore" (JInt 0) e in
    tokens_before ← int_of_json (if truthy tokens then tokens else JInt 0);
    timestamp ← _timestamp_to_ms now (eget "timestamp" e);
    Ok (Some (CompactionSummaryMsg (eget "summary" e) tokens_before (eget "details" e) timestamp))
  else Ok None.

(** [src: travis/coding_agent/session_store.py:776-783 _context_messages_and_entry_ids]: ** The context of a branch *)
Definition is_compaction (e : entry) : bool :=
  bool_decide (eget "type" e = JStr "compaction") && truthy (eget "summary" e).

(** [src: travis/coding_agent/session_store.py:792-796 _context_messages_and_entry_ids]: The entries before a compaction that it keeps: from the first kept one on. *)
Fixpoint kept_before (first_kept_id : json) (found_first_kept : bool) (es : list entry) : list entry :=
  match es with
  | [] => []
  | e :: rest =>
      let found := found_first_kept || bool_decide (eget "id" e = first_kept_id) in
      (if found then [e] else []) ++ kept_before first_kept_id found rest
  end.

(** [branch.index(entry)] *)
Fixpoint index_of (x : entry) (es : list entry) : nat :=
  match es with
  | [] => 0
  | e :: rest => if bool_decide (e = x) then 0 else S (index_of x rest)
  end.

(** [src: travis/coding_agent/session_store.py:776-797 _context_messages_and_entry_ids]: The entries that make the context. *)
Definition selected_entries (branch : list entry) : list entry :=
  match List.find is_compaction (rev branch) with
  | None => branch
  | Some compaction =>
      let compaction_index := index_of compaction branch in
      let first_kept_id := eget "firstKeptEntryId" compaction in
      compaction :: kept_before first_kept_id (bool_decide (first_kept_id = JNull)) (take compaction_index branch)
        ++ drop (S compaction_index) branch
  end.

(** [str(entry.get("id") or "")] *)
Definition entry_id_text (e : entry) : Utf8.text :=
  let i := eget "id" e in if truthy i then py_str repr (pv_of_json i) else [].

(** [src: travis/coding_agent/session_store.py:804-810 _context_messages_and_entry_ids]: The identifiers of the calls a message makes. *)
Definition call_ids (m : Message) : list json :=
  match m with
  | AssistantMsg a => omap (λ b, match b with ToolCall i _ _ _ => if truthy i then Some i else None | _ => None end) (a_content a)
  | _ => []
  end.

(** The call a message answers. *)
Definition answered_id (m : Message) : option json :=
  match m with
  | ToolResultMsg t => if truthy (t_tool_call_id t) then Some (t_tool_call_id t) else None
  | _ => None
  end.

(** [src: travis/coding_agent/session_store.py:799-803 _context_messages_and_entry_ids]: The messages of the selected entries, with their entries' identifiers. *)
Fixpoint message_pairs (now : entry → Z) (es : list entry) : result context_error (list (Message * Utf8.text)) :=
  match es with
  | [] => Ok []
  | e :: rest =>
      m ← _entry_to_message (now e) e;
      pairs ← message_pairs now rest;
      Ok (match m with Some m => [(m, entry_id_text e)] | None => [] end ++ pairs)
  end.

(** [src: travis/coding_agent/session_store.py:811-819 _context_messages_and_entry_ids]: [message.tool_call_id not in tool_call_ids], negated, for a tool result with an
    identifier. *)
Definition answers_known (ids : list json) (m : Message) : bool :=
  match answered_id m with Some i => bool_decide (i ∈ ids) | None => true end.

(** [src: travis/coding_agent/session_store.py:773-823 _context_messages_and_entry_ids] *)
Definition _context_messages_and_entry_ids (now : entry → Z) (branch : list entry)
    : result context_error (list Message * list Utf8.text) :=
  pairs ← message_pairs now (selected_entries branch);
  let tool_call_ids := flat_map (λ p, call_ids p.1) pairs in
  _ ← (if forallb hashable tool_call_ids && forallb hashable (omap (λ p, answered_id p.1) pairs)
       then Ok tt else type_error "unhashable type");
  let safe_pairs := List.filter (λ p, answers_known tool_call_ids p.1) pairs in
  Ok (safe_pairs.*1, safe_pairs.*2).

(** [src: travis/coding_agent/session_store.py:49-55 SessionContextSnapshot] *)
Record SessionContextSnapshot : Type := {
  sn_messages : list Message;
  sn_thinking_level : json;
  sn_model : option (json * json);
  sn_session_name : option Utf8.text;
  sn_generation_params : GenerationParams
}.

(** [src: travis/coding_agent/session_store.py:574-585 SessionStore.build_context]: The settings in force after an entry. *)
Definition apply_setting (s : SessionContextSnapshot) (e : entry) : result context_error SessionContextSnapshot :=
  let entry_type := eget "type" e in
  if bool_decide (entry_type = JStr "thinking_level_change") then
    Ok {| sn_messages := sn_messages s; sn_thinking_level := get_or "thinkingLevel" (sn_thinking_level s) e;
          sn_model := sn_model s; sn_session_name := sn_session_name s; sn_generation_params := sn_generation_params s |}
  else if bool_decide (entry_type = JStr "model_change") then
    Ok {| sn_messages := sn_messages s; sn_thinking_level := sn_thinking_level s;
          sn_model := Some (get_or "provider" (JStr "") e, get_or "modelId" (JStr "") e);
          sn_session_name := sn_session_name s; sn_generation_params := sn_generation_params s |}
  else if bool_decide (entry_type = JStr "session_info") then
    name ← (if truthy (eget "name" e)
            then match eget "name" e with JStr n => Ok (strip (str_text n)) | _ => attribute_error "strip" end
            else Ok []);
    Ok {| sn_messages := sn_messages s; sn_thinking_level := sn_thinking_level s; sn_model := sn_model s;
          sn_session_name := match name with [] => None | _ => Some name end;
          sn_generation_params := sn_generation_params s |}
  else if bool_decide (entry_type = JStr "generation_params_change") then
    match generation_params_from_session_mapping repr json_loads_text (pv_of_json (eget "params" e)) with
    | Err _ => Err OverflowError
    | Ok restored =>
        Ok {| sn_messages := sn_messages s; sn_thinking_level := sn_thinking_level s; sn_model := sn_model s;
              sn_session_name := sn_session_name s;
              sn_generation_params := default (sn_generation_params s) restored |}
    end
  else Ok s.

Fixpoint apply_settings (s : SessionContextSnapshot) (es : list entry) : result context_error SessionContextSnapshot :=
  match es with
  | [] => Ok s
  | e :: rest => s ← apply_setting s e; apply_settings s rest
  end.

(** [self.get_branch()] *)
Definition current_branch (v : View) : result context_error (list entry) :=
  match get_branch v JNull with Ok b => Ok b | Err e => Err (StoreError e) end.

(** [src: travis/coding_agent/session_store.py:567-594 SessionStore.build_context] *)
Definition build_context (default_thinking_level : string) (now : entry → Z) (v : View)
    : result context_error SessionContextSnapshot :=
  branch ← current_branch v;
  s ← apply_settings {| sn_messages := []; sn_thinking_level := JStr default_thinking_level; sn_model := None;
                        sn_session_name := None; sn_generation_params := default_params |} branch;
  '(messages, _) ← _context_messages_and_entry_ids now branch;
  Ok {| sn_messages := messages; sn_thinking_level := sn_thinking_level s; sn_model := sn_model s;
        sn_session_name := sn_session_name s; sn_generation_params := sn_generation_params s |}.

(** [src: travis/coding_agent/session_store.py:596-599 SessionStore.context_message_entry_ids] *)
Definition context_message_entry_ids (now : entry → Z) (v : View) : result context_error (list Utf8.text) :=
  branch ← current_branch v;
  '(_, entry_ids) ← _context_messages_and_entry_ids now branch;
  Ok entry_ids.

(** ** The tree *)

(** [text.split()]: [word] is what has been read of a word, reversed. *)
Fixpoint split_words (word : Utf8.text) (t : Utf8.text) : list Utf8.text :=
  match t with
  | [] => match word with [] => [] | _ => [rev word] end
  | c :: rest =>
      if is_space c then match word with [] => split_words [] rest | _ => rev word :: split_words [] rest end
      else split_words (c :: word) rest
  end.

(** [" ".join(words)] *)
Fixpoint join_words (words : list Utf8.text) : Utf8.text :=
  match words with
  | [] => []
  | [w] => w
  | w :: rest => w ++ [32] ++ join_words rest
  end.

(** [src: travis/coding_agent/session_store.py:733-737 _bounded_tree_text] *)
Definition _bounded_tree_text (t : Utf8.text) (limit : nat) : Utf8.text :=
  let normalized := join_words (split_words [] t) in
  if (length normalized <=? limit)%nat then normalized
  else rstrip (take (limit - 3) normalized) ++ lit "...".

(** [src: travis/coding_agent/session_store.py:721-730 serialized_content_text] *)
Definition serialized_content_text (content : json) : Utf8.text :=
  match content with
  | JStr s => str_text s
  | JList blocks =>
      concat (omap (λ block, match block with
        | JObj d => if bool_decide (get_or "type" JNull d = JStr "text")
                    then match get_or "text" JNull d with JStr t => Some (str_text t) | _ => None end
                    else None
        | _ => None
        end) blocks)
  | _ => []
  end.

(** [f"{value}"] and [f"{value or dflt}"]. *)
Definition shown (value : json) : Utf8.text := py_str repr (pv_of_json value).
Definition shown_or (value : json) (dflt : string) : Utf8.text := if truthy value then shown value else lit dflt.

(** [f"{name}: {text}" if text else name] *)
Definition labelled (name t : Utf8.text) : Utf8.text := match t with [] => name | _ => name ++ lit ": " ++ t end.

(** [src: travis/coding_agent/session_store.py:691-718 _tree_entry_summary] *)
Definition _tree_entry_summary (e : entry) (limit : nat) : Utf8.text :=
  let entry_type := shown_or (eget "type" e) "unknown" in
  let named name := bool_decide (entry_type = lit name) in
  _bounded_tree_text
    (if named "message" then
       match eget "message" e with
       | JObj message => labelled (shown_or (get_or "role" JNull message) "message")
                                  (serialized_content_text (get_or "content" JNull message))
       | _ => entry_type
       end
     else if named "custom_message" then
       labelled (shown_or (eget "customType" e) "custom") (serialized_content_text (eget "content" e))
     else if named "model_change" then
       lit "model: " ++ shown (get_or "provider" (JStr "") e) ++ lit "/" ++ shown (get_or "modelId" (JStr "") e)
     else if named "thinking_level_change" then lit "thinking: " ++ shown (get_or "thinkingLevel" (JStr "") e)
     else if named "session_info" then lit "session: " ++ shown_or (eget "name" e) "(unnamed)"
     else if named "label" then lit "label: " ++ shown_or (eget "label" e) "(cleared)"
     else if named "compaction" || named "branch_summary" then entry_type ++ lit ": " ++ shown_or (eget "summary" e) ""
     else if named "custom" then lit "custom: " ++ shown_or (eget "customType" e) ""
     else entry_type) limit.

Record TreeNode : Type := {
  n_id : string;
  n_parent_id : json;
  n_type : Utf8.text;
  n_depth : nat;
  n_active : bool;
  n_in_active_branch : bool;
  n_label : json;
  n_summary : Utf8.text;
  n_entry : entry
}.

(** An identifier that is a string. *)
Definition string_id (e : entry) : option string := match eget "id" e with JStr s => Some s | _ => None end.

(** [src: travis/coding_agent/session_store.py:289-293 SessionStore.session_tree] *)
Definition known_ids (es : list entry) : list string :=
  List.filter (λ s, negb (bool_decide (s = ""%string))) (omap string_id es).

(** [src: travis/coding_agent/session_store.py:299-301 SessionStore.session_tree]: The parent an entry is shown under. *)
Definition tree_parent (known : list string) (e : entry) : option string :=
  match eget "parentId" e with
  | JStr p => if bool_decide (p ∈ known) then Some p else None
  | _ => None
  end.

(** [src: travis/coding_agent/session_store.py:294-302 SessionStore.session_tree]: [children], in the order of the file. *)
Definition tree_children (es : list entry) : list (option string * list entry) :=
  fold_left (λ children e,
    match string_id e with
    | Some id => if bool_decide (id = ""%string) then children
                 else od_push (tree_parent (known_ids es) e) e children
    | None => children
    end) es [].

Definition children_of (children : list (option string * list entry)) (key : option string) : list entry :=
  default [] (od_get key children).

(** [src: travis/coding_agent/session_store.py:308-327 SessionStore.session_tree]: The walk: the identifiers visited and the nodes so far.  The fuel bounds the depth
    of the recursion. *)
Fixpoint visit (node : nat → entry → string → TreeNode) (children : list (option string * list entry))
    (fuel depth : nat) (acc : list string * list TreeNode) (e : entry) : list string * list TreeNode :=
  match fuel, string_id e with
  | S fuel, Some entry_id =>
      if bool_decide (entry_id ∈ acc.1) then acc
      else fold_left (visit node children fuel (S depth)) (children_of children (Some entry_id))
             (entry_id :: acc.1, acc.2 ++ [node depth e entry_id])
  | _, _ => acc
  end.

(** [src: travis/coding_agent/session_store.py:329-334 SessionStore.session_tree]: The roots, then the entries that no root leads to. *)
Definition visit_all (node : nat → entry → string → TreeNode) (fuel : nat) (es : list entry)
    : list string * list TreeNode :=
  let children := tree_children es in
  let acc := fold_left (visit node children fuel 0) (children_of children None) ([], []) in
  fold_left (visit node children fuel 0) es acc.

(** [src: travis/coding_agent/session_store.py:285-335 SessionStore.session_tree] *)
Definition session_tree (v : View) : result context_error (list TreeNode) :=
  let es := entries v in
  active ← current_branch v;
  let active_ids := map entry_id_text active in
  let node depth e entry_id :=
    {| n_id := entry_id; n_parent_id := eget "parentId" e; n_type := shown_or (eget "type" e) "unknown";
       n_depth := depth; n_active := bool_decide (v_leaf v = JStr entry_id);
       n_in_active_branch := bool_decide (str_text entry_id ∈ active_ids);
       n_label := get_label (JStr entry_id) v; n_summary := _tree_entry_summary e 120; n_entry := e |} in
  Ok (visit_all node (S (length es)) es).2.

End context.

(** [src: travis/coding_agent/session_store.py:338-339 SessionStore.append_message] *)
Definition append_serialized (dr : Draw) (message : Message) : op string :=
  match serialize_message message with
  | Ok data => append_message dr data
  | Err (StoreError e) => mthrow e
  | Err _ => mthrow (ModelLimit "serialize_message raises nothing else")
  end.
