(* ===== verification/SessionContextSpec.v ===== *)
(** Properties of the way from the session file to the conversation: a message is read
    back as it was stored, a context holds no unanswered pairing, an appended message
    is the next one of the context, a compaction keeps the entries from the first kept
    one on, and the tree lists every entry once. *)

From S2P Require Import Prelude PyDict Json JsonText PyFloat Utf8 PyText PyValue Params SessionStore SessionStoreSpec SessionContext.
Open Scope Z_scope.

(** ** Round trips *)

Definition plain_block (b : Block) : bool :=
  match b with TextContent _ _ | ImageContent _ _ => true | _ => false end.

(** A message that the store can hold: one of the four roles, with the kinds of
    content block its role may have. *)
Definition storable (m : Message) : bool :=
  match m with
  | UserMsg (Plain _) _ | AssistantMsg _ | BashMsg _ => true
  | UserMsg (Blocks l) _ => forallb plain_block l
  | ToolResultMsg t => forallb plain_block (t_content t)
  | _ => false
  end.

(** What the file does not keep: the reasoning tokens of the usage and the tiers of
    its cost. *)
Definition stored_usage (u : Usage) : Usage :=
  {| u_input := u_input u; u_output := u_output u; u_cache_read := u_cache_read u;
     u_cache_write := u_cache_write u; u_cache_write_1h := u_cache_write_1h u; u_reasoning := JInt 0;
     u_total_tokens := u_total_tokens u; u_cost_input := u_cost_input u; u_cost_output := u_cost_output u;
     u_cost_cache_read := u_cost_cache_read u; u_cost_cache_write := u_cost_cache_write u;
     u_cost_total := u_cost_total u; u_cost_tiers := [] |}.

Definition stored_message (m : Message) : Message :=
  match m with
  | AssistantMsg a =>
      AssistantMsg {| a_content := a_content a; a_api := a_api a; a_provider := a_provider a; a_model := a_model a;
        a_usage := stored_usage (a_usage a); a_stop_reason := a_stop_reason a; a_response_model := a_response_model a;
        a_response_id := a_response_id a; a_diagnostics := a_diagnostics a; a_error_message := a_error_message a;
        a_timestamp := a_timestamp a |}
  | m => m
  end.

Lemma block_roundtrip b : _deserialize_block (_serialize_block b) = Ok b.
Proof. by destruct b. Qed.

Lemma message_block_roundtrip b : plain_block b = true → _deserialize_message_block (_serialize_block b) = Ok b.
Proof. intros Hb. unfold _deserialize_message_block. rewrite block_roundtrip. by destruct b. Qed.

Lemma blocks_roundtrip l : try_map _deserialize_block (map _serialize_block l) = Ok l.
Proof. apply try_map_map_id, Forall_true, block_roundtrip. Qed.

Lemma message_blocks_roundtrip l : forallb plain_block l = true →
  try_map _deserialize_message_block (map _serialize_block l) = Ok l.
Proof.
  intros Hl. apply try_map_map_id, Forall_forall. intros b Hb%list_elem_of_In.
  apply message_block_roundtrip. by eapply forallb_forall in Hl.
Qed.

Lemma usage_roundtrip u : _deserialize_usage (_serialize_usage u) = Ok (stored_usage u).
Proof. done. Qed.

Lemma content_roundtrip c : (match c with Plain _ => true | Blocks l => forallb plain_block l end) = true →
  _deserialize_content (_serialize_content c) = Ok c.
Proof.
  destruct c as [s|l]; intros Hl; [done|]. cbn [_serialize_content _deserialize_content].
  assert (iterate (if truthy (JList (map _serialize_block l)) then JList (map _serialize_block l) else JList []) =
    Ok (map _serialize_block l)) as -> by (by destruct l).
  cbn [mbind result_bind]. by rewrite message_blocks_roundtrip.
Qed.

Lemma message_roundtrip now m : storable m = true →
  ∃ data, serialize_message m = Ok data ∧ deserialize_message now data = Ok (stored_message m).
Proof.
  destruct m as [c t|a|t|b| | |]; try done; intros Hs; eexists; (split; [reflexivity|]).
  - change (deserialize_message now _) with
      (content ← _deserialize_content (_serialize_content c); Ok (UserMsg content t) : result context_error Message).
    rewrite content_roundtrip; [done|]. by destruct c.
  - change (deserialize_message now _) with
      (content ← try_map _deserialize_block (map _serialize_block (a_content a));
       usage ← _deserialize_usage (_serialize_usage (a_usage a));
       Ok (AssistantMsg {| a_content := content; a_api := a_api a; a_provider := a_provider a; a_model := a_model a;
         a_usage := usage; a_stop_reason := a_stop_reason a; a_response_model := a_response_model a;
         a_response_id := a_response_id a; a_diagnostics := a_diagnostics a; a_error_message := a_error_message a;
         a_timestamp := a_timestamp a |}) : result context_error Message).
    by rewrite blocks_roundtrip, usage_roundtrip.
  - change (deserialize_message now _) with
      (content ← try_map _deserialize_message_block (map _serialize_block (t_content t));
       Ok (ToolResultMsg {| t_tool_call_id := t_tool_call_id t; t_tool_name := t_tool_name t; t_content := content;
         t_is_error := t_is_error t; t_details := t_details t; t_added_tool_names := t_added_tool_names t;
         t_timestamp := t_timestamp t |}) : result context_error Message).
    rewrite message_blocks_roundtrip by done. by destruct t.
  - by destruct b.
Qed.

(** ** Contexts *)
Section context.
Variable fromisoformat_ms : string → option Z.
Variable repr : pv → Utf8.text.
Variable json_loads_text : Utf8.text → option pv.
Local Notation _entry_to_message := (_entry_to_message fromisoformat_ms).
Local Notation message_pairs := (message_pairs fromisoformat_ms repr).
Local Notation entry_id_text := (entry_id_text repr).
Local Notation context_of := (_context_messages_and_entry_ids fromisoformat_ms repr).
Local Notation build_context := (build_context fromisoformat_ms repr json_loads_text).
Local Notation context_message_entry_ids := (context_message_entry_ids fromisoformat_ms repr).
Implicit Types (now : entry → Z) (e : entry) (es branch : list entry).

Lemma message_pairs_app now es1 es2 : message_pairs now (es1 ++ es2) =
  (p ← message_pairs now es1; q ← message_pairs now es2; Ok (p ++ q)).
Proof.
  induction es1 as [|e es1 IH]; cbn [app SessionContext.message_pairs].
  - cbn. by destruct (message_pairs now es2).
  - destruct (_entry_to_message (now e) e) as [m|]; cbn [mbind result_bind]; [|done]. rewrite IH.
    destruct (message_pairs now es1); cbn [mbind result_bind]; [|done].
    destruct (message_pairs now es2); cbn [mbind result_bind]; [|done]. by rewrite <-app_assoc.
Qed.

(** An entry that is a message of the context, when no pairing is missing. *)
Definition entry_message now e (m : Message) : Prop := _entry_to_message (now e) e = Ok (Some m).

Lemma message_pairs_entries now es pairs : message_pairs now es = Ok pairs →
  ∃ es', es' `sublist_of` es ∧ Forall2 (λ e p, entry_message now e p.1 ∧ p.2 = entry_id_text e) es' pairs ∧
    ∀ e m, e ∈ es → entry_message now e m → e ∈ es'.
Proof.
  revert pairs. induction es as [|e es IH]; cbn; intros pairs H.
  - injection H as <-. exists []. split; [done|]. split; [constructor|]. by intros e m ?%not_elem_of_nil.
  - destruct (_entry_to_message (now e) e) as [m|] eqn:He; cbn in H; [|done].
    destruct (message_pairs now es) as [rest|]; cbn in H; [|done]. injection H as <-.
    destruct (IH rest eq_refl) as (es' & Hsub & Hf & Hall). destruct m as [m|]; cbn.
    + exists (e :: es'). split; [by apply sublist_skip|]. split; [by constructor|].
      intros e' m' [->|He']%elem_of_cons Hm; [by left|right; by eapply Hall].
    + exists es'. split; [by apply sublist_cons|]. split; [done|].
      intros e' m' [->|He']%elem_of_cons Hm; [|by eapply Hall]. unfold entry_message in Hm. congruence.
Qed.

Lemma call_ids_answer m i : answered_id m = Some i → call_ids m = [].
Proof. by destruct m. Qed.

(** Dropping unanswered pairings drops no call. *)
Lemma safe_call_ids (pairs : list (Message * Utf8.text)) ids :
  flat_map (λ p, call_ids p.1) (List.filter (λ p, answers_known ids p.1) pairs) = flat_map (λ p, call_ids p.1) pairs.
Proof.
  induction pairs as [|[m t] pairs IH]; [done|]. cbn [List.filter fst]. destruct (answers_known ids m) eqn:Hk; cbn.
  - by rewrite IH.
  - rewrite IH. unfold answers_known in Hk. destruct (answered_id m) eqn:Hm; [|done]. by erewrite call_ids_answer.
Qed.

Lemma context_of_ok now branch ms ts : context_of now branch = Ok (ms, ts) →
  ∃ pairs, message_pairs now (selected_entries branch) = Ok pairs ∧
    forallb hashable (flat_map (λ p, call_ids p.1) pairs) = true ∧
    forallb hashable (omap (λ p, answered_id p.1) pairs) = true ∧
    ms = (List.filter (λ p, answers_known (flat_map (λ p, call_ids p.1) pairs) p.1) pairs).*1 ∧
    ts = (List.filter (λ p, answers_known (flat_map (λ p, call_ids p.1) pairs) p.1) pairs).*2.
Proof.
  unfold _context_messages_and_entry_ids. destruct (message_pairs now _) as [pairs|]; cbn [mbind result_bind]; [|done].
  destruct (forallb hashable _ && forallb hashable _) eqn:Hh; cbn [mbind result_bind]; [|done].
  intros [= <- <-]. apply andb_true_iff in Hh as [H1 H2]. by exists pairs.
Qed.

(** C22: the context of a branch is made of the messages of its selected entries, in
    order, with the identifiers of exactly these entries beside them; a tool result is
    among them exactly when a message of the context makes the call it answers (or it
    names no call), so no result without its call reaches the model. *)
Theorem context_is_paired now branch ms ts : context_of now branch = Ok (ms, ts) →
  ∃ es, es `sublist_of` selected_entries branch ∧ ts = map entry_id_text es ∧
    Forall2 (entry_message now) es ms ∧
    (∀ m i, m ∈ ms → answered_id m = Some i → ∃ c, c ∈ ms ∧ i ∈ call_ids c) ∧
    (∀ e m, e ∈ selected_entries branch → entry_message now e m →
      (∀ i, answered_id m = Some i → ∃ c, c ∈ ms ∧ i ∈ call_ids c) → e ∈ es).
Proof.
  intros (pairs & Hp & _ & _ & Hms & Hts)%context_of_ok.
  destruct (message_pairs_entries now _ pairs Hp) as (all & Hsub & Hf & Hall).
  set (ids := flat_map _ pairs) in *.
  assert (∀ i, i ∈ ids ↔ ∃ c, c ∈ ms ∧ i ∈ call_ids c) as Hids.
  { intros i. unfold ids. rewrite <-(safe_call_ids pairs ids), list_elem_of_In, in_flat_map. rewrite Hms. split.
    - intros (p & Hin & Hi). exists p.1. split; [|by apply list_elem_of_In].
      apply (list_elem_of_fmap_2 fst). by apply list_elem_of_In.
    - intros (c & (p & -> & Hin)%list_elem_of_fmap & Hi). exists p. by rewrite <-!list_elem_of_In. }
  assert (∃ es, es `sublist_of` all ∧ Forall2 (λ e p, entry_message now e p.1 ∧ p.2 = entry_id_text e) es
      (List.filter (λ p, answers_known ids p.1) pairs) ∧
      ∀ e m, e ∈ all → entry_message now e m → answers_known ids m = true → e ∈ es) as (es & Hes & Hfes & Hkeep).
  { clear -Hf. clearbody ids. induction Hf as [|e [m t] all pairs [He Ht] Hf (es & Hsub & Hfes & Hkeep)].
    - exists []. split; [done|]. split; [constructor|]. by intros e m ?%not_elem_of_nil.
    - cbn [List.filter fst]. destruct (answers_known ids m) eqn:Hk.
      + exists (e :: es). split; [by apply sublist_skip|]. split; [by constructor|].
        intros e' m' [->|He']%elem_of_cons Hm Hk'; [by left|right; by eapply Hkeep].
      + exists es. split; [by apply sublist_cons|]. split; [done|].
        intros e' m' [->|He']%elem_of_cons Hm Hk'; [|by eapply Hkeep]. unfold entry_message in *. cbn in He. congruence. }
  exists es. split; [by etrans|]. split; [|split; [|split]].
  - rewrite Hts. clear -Hfes. induction Hfes as [|e p es ps [_ Hp] _ IH]; [done|]. cbn. by rewrite Hp, IH.
  - rewrite Hms. clear -Hfes. induction Hfes as [|e p es ps [Hp _] _ IH]; [constructor|]. by constructor.
  - intros m i Hm Hi. apply Hids. rewrite Hms in Hm. apply list_elem_of_fmap in Hm as (p & -> & Hm).
    apply list_elem_of_In, filter_In in Hm as [_ Hk]. unfold answers_known in Hk. rewrite Hi in Hk.
    by apply bool_decide_eq_true in Hk.
  - intros e m He Hm Hans. apply (Hkeep e m); [by eapply Hall|done|]. unfold answers_known.
    destruct (answered_id m) as [i|]; [|done]. apply bool_decide_eq_true, Hids. by apply Hans.
Qed.
End context.

(** ** The branch of an append *)

Lemma current_chain es leaf : linked es → leaf = JNull ∨ leaf ∈ ids es →
  ∃ chain, branch_path es leaf chain ∧ chain `sublist_of` tail es ∧
    get_branch (with_leaf leaf (view_of es)) JNull = Ok chain.
Proof.
  intros Hl Hleaf. destruct (linked_branch es Hl leaf Hleaf) as (chain & Hp & Hs). exists chain. split; [done|]. split; [done|].
  rewrite <-(get_branch_path es leaf leaf chain Hl Hp Hs); [|by destruct leaf; [right|left..]].
  unfold get_branch. cbn. by destruct (truthy leaf).
Qed.

(** A store that has read the whole file. *)
Definition up_to_date (y : System) (x : SessionStore) : Prop :=
  d_bytes (sys_disk y) = file_bytes (v_entries (ss_view x)).

Lemma up_to_date_all es k y x : tracks es k {| store := x; disk := sys_disk y |} → up_to_date y x →
  v_entries (ss_view x) = es ∧ ss_view x = with_leaf (v_leaf (ss_view x)) (view_of es) ∧
  (v_leaf (ss_view x) = JNull ∨ v_leaf (ss_view x) ∈ ids es) ∧ ss_disk_leaf x = v_leaf (view_of es).
Proof.
  intros Ht Hu. unfold up_to_date in Hu. pose proof (tk_bytes _ _ _ Ht) as Hb. pose proof (tk_entries _ _ _ Ht) as He.
  pose proof (tk_by_id _ _ _ Ht) as Hby. pose proof (tk_leaf _ _ _ Ht) as Hleaf. pose proof (tk_disk_leaf _ _ _ Ht) as Hd.
  cbn in *. rewrite He, Hb in Hu.
  assert (drop k es = []) as Hk.
  { destruct (drop k es) eqn:Hdrop; [done|]. rewrite <-(take_drop k es), Hdrop, file_bytes_app in Hu at 1.
    apply (f_equal length) in Hu. rewrite length_app in Hu.
    assert (file_bytes (e :: l) ≠ []) as Hne by (by apply file_bytes_nonempty).
    destruct (file_bytes (e :: l)); [done|]. cbn in Hu. lia. }
  assert (take k es = es) as Htk by (rewrite <-(take_drop k es) at 2; by rewrite Hk, app_nil_r).
  rewrite Htk in *. split; [done|]. split; [|done].
  unfold with_leaf. destruct (ss_view x) as [ves vby vl]. cbn in *. by rewrite Hby, He.
Qed.

(** An append by a store that has read the whole file extends its branch by one
    entry. *)
Lemma append_extends_branch y x dr e id s' :
  sys_reachable y → x ∈ sys_stores y → up_to_date y x → draw_ok dr → dr_write dr = WriteAll →
  entry_ok e = true → eget "type" e ≠ JStr "session" →
  append_entry dr e {| store := x; disk := sys_disk y |} = (Ok id, s') →
  ∃ chain c, get_branch (ss_view x) JNull = Ok chain ∧ get_branch (ss_view (store s')) JNull = Ok (chain ++ [c]) ∧
    c = commit e (JStr id) (v_leaf (ss_view x)) (JStr (dr_now dr)) ∧ id ≠ ""%string ∧
    NoDup (map (eget "id") (chain ++ [c])) ∧
    ∀ cwd parent sid now, ∃ s2, open_store cwd parent sid now (disk s') = (Ok tt, s2) ∧
      ss_view (store s2) = ss_view (store s').
Proof.
  intros Hr Hx Hu [Hids _] Hw He Hty Happ. destruct (reachable_store y x Hr Hx) as (es & k & _ & Ht).
  destruct (up_to_date_all es k y x Ht Hu) as (_ & Hv & Hleaf & Hdl).
  destruct (List.find (λ d, bool_decide (JStr d ∉ ids es)) (dr_ids dr)) as [id'|] eqn:Hid.
  2: { destruct (append_no_draw es k _ dr e Ht Hid) as (s1 & Hno & _). by rewrite Happ in Hno. }
  assert (appendable dr e id' es) as Ha.
  { split; try done. apply find_missing in Hid as [Hin _]. rewrite Forall_forall in Hids. by apply Hids. }
  pose proof (append_spec es k _ dr e id' Ht Ha) as Hspec. cbv zeta in Hspec. rewrite Hw, Happ in Hspec.
  injection Hspec as -> ->. pose proof (appended_linked dr e id' es k _ Ht Ha) as Hlc.
  pose proof (tk_linked _ _ _ Ht) as Hl. pose proof (linked_nonempty _ Hl) as Hne.
  destruct (current_chain es _ Hl Hleaf) as (chain & Hp & Hsub & Hb).
  set (c := appended dr e id' es {| store := x; disk := sys_disk y |}) in *.
  assert (c = commit e (JStr id') (v_leaf (ss_view x)) (JStr (dr_now dr))) as Hc.
  { unfold c, appended, append_parent. cbn. destruct (negb _ && bool_decide _) eqn:Hf; [|done].
    apply andb_true_iff in Hf as [_ Hf%bool_decide_eq_true]. by rewrite Hf, Hdl. }
  destruct (commit_spec e (JStr id') (v_leaf (ss_view x)) (JStr (dr_now dr))) as (Hci & Hcp & _). rewrite <-Hc in Hci, Hcp.
  assert (branch_path (es ++ [c]) (eget "id" c) (chain ++ [c])) as Hpath.
  { constructor; [rewrite tail_snoc by done; apply elem_of_app; right; apply list_elem_of_here|].
    rewrite Hcp. by apply branch_path_more. }
  assert ((chain ++ [c]) `sublist_of` tail (es ++ [c])) as Hsub' by (rewrite tail_snoc by done; by apply sublist_app).
  exists chain, c. split; [by rewrite Hv|]. split; [|split; [done|split; [by apply Ha|split]]].
  - cbn [after_append store ss_view].
    assert (view_of (es ++ [c]) = with_leaf (eget "id" c) (view_of (es ++ [c]))) as -> by (by rewrite view_snoc).
    rewrite <-(get_branch_path (es ++ [c]) (eget "id" c) (eget "id" c) (chain ++ [c]) Hlc Hpath Hsub') by (rewrite Hci; by left).
    unfold get_branch. cbn. by destruct (truthy _).
  - eapply sublist_NoDup; [apply (ids_nodup (es ++ [c]) Hlc)|]. unfold ids. by apply (fmap_sublist (eget "id")).
  - intros. eexists. split; [apply (open_written (es ++ [c])); [by apply linked_written|by destruct es|done]|done].
Qed.

(** ** Selected entries *)

Lemma index_of_in x es es2 : x ∈ es → index_of x (es ++ es2) = index_of x es ∧ (index_of x es < length es)%nat.
Proof.
  induction es as [|e es IH]; intros Hx; [by apply not_elem_of_nil in Hx|]. cbn. case_bool_decide; [split; [done|lia]|].
  apply elem_of_cons in Hx as [->|Hx]; [done|]. destruct (IH Hx). split; [by f_equal|lia].
Qed.

Lemma index_of_snoc x es : x ∉ es → index_of x (es ++ [x]) = length es.
Proof.
  induction es as [|e es IH]; cbn; intros Hx; [by rewrite bool_decide_eq_true_2|].
  apply not_elem_of_cons in Hx as [Hne Hx]. rewrite bool_decide_eq_false_2 by congruence. by rewrite IH.
Qed.

(** An entry that is no compaction is selected after the others. *)
Lemma selected_snoc es c : is_compaction c = false → selected_entries (es ++ [c]) = selected_entries es ++ [c].
Proof.
  intros Hc. unfold selected_entries. rewrite rev_app_distr. cbn. rewrite Hc.
  destruct (List.find is_compaction (rev es)) as [x|] eqn:Hf; [|done].
  apply find_some in Hf as [Hx%in_rev%list_elem_of_In _]. destruct (index_of_in x es [c] Hx) as [-> Hlt].
  rewrite take_app_le by lia. rewrite drop_app_le by lia.
  by rewrite <-app_comm_cons, <-app_assoc.
Qed.

(** A compaction keeps the entries from the first kept one on. *)
Lemma kept_before_all id es : kept_before id true es = es.
Proof. induction es as [|e es IH]; [done|]. cbn. by rewrite IH. Qed.

Lemma kept_before_from id before kept rest : (∀ e, e ∈ before → eget "id" e ≠ id) → eget "id" kept = id →
  kept_before id false (before ++ kept :: rest) = kept :: rest.
Proof.
  intros Hb Hk. induction before as [|e before IH]; cbn.
  - by rewrite bool_decide_eq_true_2, kept_before_all.
  - rewrite bool_decide_eq_false_2 by (apply Hb; by left). apply IH. intros e' He'. apply Hb. by right.
Qed.

Lemma kept_before_none id es : (∀ e, e ∈ es → eget "id" e ≠ id) → kept_before id false es = [].
Proof.
  intros H. induction es as [|e es IH]; [done|]. cbn. rewrite bool_decide_eq_false_2 by (apply H; by left).
  apply IH. intros e' He'. apply H. by right.
Qed.

Lemma selected_compaction es c : is_compaction c = true → c ∉ es →
  selected_entries (es ++ [c]) =
    c :: kept_before (eget "firstKeptEntryId" c) (bool_decide (eget "firstKeptEntryId" c = JNull)) es.
Proof.
  intros Hc Hn. unfold selected_entries. rewrite rev_app_distr. cbn. rewrite Hc, index_of_snoc by done.
  rewrite take_app_length, drop_ge by (rewrite length_app; cbn; lia). by rewrite app_nil_r.
Qed.

Lemma commit_get_type e id parent now : eget "type" (commit e id parent now) = eget "type" e.
Proof. apply commit_spec. set_solver. Qed.

Lemma commit_dict_get e id parent now k : k ∉ ["id"; "parentId"; "timestamp"]%string →
  dict_get k (commit e id parent now) = dict_get k e.
Proof.
  intros Hk. unfold commit. rewrite !dict_get_set. rewrite !bool_decide_eq_false_2; [done|..]; intros <-; apply Hk; set_solver.
Qed.

(** The settings of an entry that sets none. *)
Lemma apply_settings_snoc repr json_loads_text es c s s' :
  apply_settings repr json_loads_text s es = Ok s' →
  (∀ t, t ∈ ["thinking_level_change"; "model_change"; "session_info"; "generation_params_change"]%string →
    eget "type" c ≠ JStr t) →
  apply_settings repr json_loads_text s (es ++ [c]) = Ok s'.
Proof.
  intros Hes Hc. revert s Hes. induction es as [|e es IH]; cbn; intros s Hes.
  - injection Hes as ->. unfold apply_setting. by rewrite !bool_decide_eq_false_2 by (apply Hc; set_solver).
  - destruct (apply_setting _ _ s e) as [s1|]; cbn in *; [|done]. by apply IH.
Qed.

(** ** An append and the context *)
Section appended.
Variable fromisoformat_ms : string → option Z.
Variable repr : pv → Utf8.text.
Variable json_loads_text : Utf8.text → option pv.
Local Notation _entry_to_message := (_entry_to_message fromisoformat_ms).
Local Notation message_pairs := (message_pairs fromisoformat_ms repr).
Local Notation entry_id_text := (entry_id_text repr).
Local Notation context_of := (_context_messages_and_entry_ids fromisoformat_ms repr).
Local Notation build_context := (build_context fromisoformat_ms repr json_loads_text).
Local Notation context_message_entry_ids := (context_message_entry_ids fromisoformat_ms repr).
Local Notation entry_message := (entry_message fromisoformat_ms).
Implicit Types (now : entry → Z) (e : entry) (es branch : list entry).

(** What a message needs to be the next one of a context: the call it answers is made
    in the context, and no result for its own calls is on the branch already. *)
Record fits now branch (messages : list Message) (m : Message) : Prop := {
  fit_calls : forallb hashable (call_ids m) = true;
  fit_answers : ∀ i, answered_id m = Some i → hashable i = true ∧ ∃ c, c ∈ messages ∧ i ∈ call_ids c;
  fit_fresh : ∀ i e r, i ∈ call_ids m → e ∈ selected_entries branch → entry_message now e r → answered_id r ≠ Some i
}.

Lemma stored_ids m : call_ids (stored_message m) = call_ids m ∧ answered_id (stored_message m) = answered_id m.
Proof. by destruct m. Qed.

(** A new message extends the context by itself. *)
Lemma context_snoc now branch ms ts c m : context_of now branch = Ok (ms, ts) → is_compaction c = false →
  entry_message now c m → fits now branch ms m →
  context_of now (branch ++ [c]) = Ok (ms ++ [m], ts ++ [entry_id_text c]).
Proof.
  intros (pairs & Hp & Hh1 & Hh2 & Hms & Hts)%context_of_ok Hc Hm [Hfh Hfa Hff].
  unfold _context_messages_and_entry_ids. rewrite selected_snoc, message_pairs_app, Hp by done.
  cbn [mbind result_bind SessionContext.message_pairs]. rewrite Hm. cbn [mbind result_bind app].
  set (ids := flat_map (λ p, call_ids p.1) pairs) in *.
  assert (flat_map (λ p, call_ids p.1) (pairs ++ [(m, entry_id_text c)]) = ids ++ call_ids m) as ->.
  { rewrite flat_map_app. cbn. by rewrite app_nil_r. }
  assert (forallb hashable (omap (λ p, answered_id p.1) (pairs ++ [(m, entry_id_text c)])) = true) as ->.
  { rewrite omap_app, forallb_app, Hh2. cbn. destruct (answered_id m) as [i|] eqn:Hi; [|done]. cbn.
    by destruct (Hfa i eq_refl) as [-> _]. }
  rewrite forallb_app, Hh1, Hfh. cbn [andb mbind result_bind].
  assert (answers_known (ids ++ call_ids m) m = true) as Hkm.
  { unfold answers_known. destruct (answered_id m) as [i|] eqn:Hi; [|done]. apply bool_decide_eq_true, elem_of_app. left.
    destruct (Hfa i eq_refl) as [_ (d & Hd & Hdi)]. rewrite Hms in Hd. apply list_elem_of_fmap in Hd as (p & -> & Hd).
    unfold ids. rewrite <-(safe_call_ids pairs ids), list_elem_of_In, in_flat_map. exists p. by rewrite <-!list_elem_of_In. }
  assert (∀ p, p ∈ pairs → answers_known (ids ++ call_ids m) p.1 = answers_known ids p.1) as Hsame.
  { destruct (message_pairs_entries _ _ now _ pairs Hp) as (all & Hsub & Hf & _). intros p Hpin.
    unfold answers_known. destruct (answered_id p.1) as [i|] eqn:Hi; [|done]. apply bool_decide_ext.
    rewrite elem_of_app. split; [|by left]. intros [?|Him]; [done|]. exfalso.
    apply list_elem_of_lookup in Hpin as [n Hn]. destruct (Forall2_lookup_r _ _ _ _ _ Hf Hn) as (e & He & Hem & _).
    eapply (Hff i e p.1); [done| |done|done]. eapply elem_of_submseteq; [by eapply list_elem_of_lookup_2|].
    by apply sublist_submseteq. }
  rewrite List.filter_app. cbn [List.filter fst]. rewrite Hkm.
  assert (List.filter (λ p, answers_known (ids ++ call_ids m) p.1) pairs = List.filter (λ p, answers_known ids p.1) pairs) as ->.
  { apply filter_ext_in. intros p Hpin. by apply Hsame, list_elem_of_In. }
  rewrite !fmap_app. cbn [fmap list_fmap fst snd]. by rewrite Hms, Hts.
Qed.

(** a message that a store appends (having read the whole file) becomes the next
    message of the context, in the process itself and in any process that opens the
    file afterwards: the messages, their identifiers and the settings before it are
    as they were, and it is read back as it was, but for the reasoning tokens and the
    cost tiers of its usage. *)
Theorem appended_message_in_context y x dr m data id s' level now snap ts :
  sys_reachable y → x ∈ sys_stores y → up_to_date y x → draw_ok dr → dr_write dr = WriteAll →
  storable m = true → serialize_message m = Ok data → json_ok data = true →
  append_serialized dr m {| store := x; disk := sys_disk y |} = (Ok id, s') →
  build_context level now (ss_view x) = Ok snap → context_message_entry_ids now (ss_view x) = Ok ts →
  (∀ branch, get_branch (ss_view x) JNull = Ok branch → fits now branch (sn_messages snap) m) →
  ∀ cwd parent sid t, ∃ s2, open_store cwd parent sid t (disk s') = (Ok tt, s2) ∧
    ss_view (store s2) = ss_view (store s') ∧
    build_context level now (ss_view (store s')) =
      Ok {| sn_messages := sn_messages snap ++ [stored_message m]; sn_thinking_level := sn_thinking_level snap;
            sn_model := sn_model snap; sn_session_name := sn_session_name snap;
            sn_generation_params := sn_generation_params snap |} ∧
    context_message_entry_ids now (ss_view (store s')) = Ok (ts ++ [str_text id]).
Proof.
  intros Hr Hx Hu Hdr Hw Hs Hdata Hok Happ Hctx Hts Hfit cwd parent sid t.
  unfold append_serialized in Happ. rewrite Hdata in Happ. unfold append_message in Happ.
  assert (entry_ok [("type", JStr "message"); ("message", data)]%string = true) as Heok by (cbn; by rewrite Hok).
  destruct (append_extends_branch y x dr _ id s' Hr Hx Hu Hdr Hw Heok ltac:(done) Happ)
    as (chain & c & Hb & Hb' & Hc & Hid & _ & Hopen).
  destruct (Hopen cwd parent sid t) as (s2 & Ho & Hv). exists s2. split; [done|]. split; [done|].
  specialize (Hfit chain Hb).
  assert (entry_message now c (stored_message m)) as Hm.
  { unfold SessionContextSpec.entry_message, SessionContext._entry_to_message.
    rewrite (bool_decide_eq_true_2 (_ = JStr "message")) by (by rewrite Hc, commit_get_type).
    assert (dict_get "message" c = Some data) as -> by (rewrite Hc, commit_dict_get by set_solver; done).
    destruct (message_roundtrip (now c) m Hs) as (data' & Hd & Hread). rewrite Hdata in Hd. injection Hd as <-.
    by rewrite Hread. }
  assert (is_compaction c = false) as Hnc by (unfold is_compaction; by rewrite Hc, commit_get_type).
  assert (entry_id_text c = str_text id) as Hit.
  { unfold SessionContext.entry_id_text. destruct (commit_spec [("type", JStr "message"); ("message", data)]%string
      (JStr id) (v_leaf (ss_view x)) (JStr (dr_now dr))) as (Hci & _). rewrite Hc, Hci. cbn.
    by rewrite bool_decide_eq_false_2. }
  unfold SessionContext.build_context, SessionContext.context_message_entry_ids, current_branch in *.
  rewrite Hb in Hctx, Hts. rewrite Hb'. cbn [mbind result_bind] in *.
  destruct (apply_settings _ _ _ chain) as [s1|] eqn:Hset; cbn [mbind result_bind] in *; [|done].
  destruct (context_of now chain) as [[ms ts']|] eqn:Hco; cbn [mbind result_bind] in *; [|done].
  injection Hctx as <-. injection Hts as ->. cbn in Hfit.
  assert (fits now chain ms (stored_message m)) as Hfit'.
  { destruct (stored_ids m) as [H1 H2]. destruct Hfit. split; rewrite ?H1, ?H2; auto. }
  rewrite (apply_settings_snoc _ _ chain c _ s1 Hset).
  - cbn [mbind result_bind]. rewrite (context_snoc now chain ms ts c _ Hco Hnc Hm Hfit'). cbn [mbind result_bind].
    by rewrite Hit.
  - intros k Hk. rewrite Hc, commit_get_type. cbn. intros [= <-]. 
    repeat (apply elem_of_cons in Hk as [Hk|Hk]; [discriminate|]). by apply not_elem_of_nil in Hk.
Qed.
End appended.

(** ** A compaction and the context *)

Lemma append_compaction_entry dr summary first_kept tokens details s id s' :
  append_compaction dr summary first_kept tokens details None s = (Ok id, s') →
  append_entry dr ([("type", JStr "compaction"); ("summary", JStr summary);
    ("firstKeptEntryId", JStr first_kept); ("tokensBefore", JInt tokens)]%string ++
    match details with Some d => [("details", d)]%string | None => [] end) s = (Ok id, s').
Proof.
  unfold append_compaction, on_error. st_eval. cbn. destruct (append_entry _ _ s) as [[a|e] s1]; [done|by intros [=]].
Qed.

Lemma int_of_tokens tokens : int_of_json (if truthy (JInt tokens) then JInt tokens else JInt 0) = Ok tokens.
Proof. cbn. by destruct (Z.eqb_spec tokens 0) as [->|]. Qed.

(** after a compaction of a store that has read the whole file, the context is made
    of the compaction's summary (with the tokens and details recorded), then the
    entries of the branch from the first kept one on; when the first kept entry is not
    on the branch, nothing but the summary is left. *)
Theorem compacted_context fromisoformat_ms now y x dr summary first_kept tokens details id s' branch :
  sys_reachable y → x ∈ sys_stores y → up_to_date y x → draw_ok dr → dr_write dr = WriteAll →
  opt_ok details → summary ≠ ""%string → dr_now dr ≠ ""%string →
  get_branch (ss_view x) JNull = Ok branch →
  append_compaction dr summary first_kept tokens details None {| store := x; disk := sys_disk y |} = (Ok id, s') →
  ∃ c, get_branch (ss_view (store s')) JNull = Ok (branch ++ [c]) ∧
    entry_message fromisoformat_ms now c (CompactionSummaryMsg (JStr summary) tokens (default JNull details)
      (default (now c) (fromisoformat_ms (replace_z (dr_now dr))))) ∧
    (∀ before kept rest, branch = before ++ kept :: rest → eget "id" kept = JStr first_kept →
      selected_entries (branch ++ [c]) = c :: kept :: rest) ∧
    (JStr first_kept ∉ map (eget "id") branch → selected_entries (branch ++ [c]) = [c]).
Proof.
  intros Hr Hx Hu Hdr Hw Hd Hsum Hnow Hb Happ%append_compaction_entry.
  set (e := _ ++ _) in Happ.
  assert (entry_ok e = true) as Heok by (unfold e; destruct details as [d|]; cbn in *; rewrite ?Hd; done).
  assert (eget "type" e ≠ JStr "session") as Hty by done.
  destruct (append_extends_branch y x dr e id s' Hr Hx Hu Hdr Hw Heok Hty Happ)
    as (chain & c & Hb1 & Hb' & Hc & Hid & Hnd & _).
  rewrite Hb in Hb1. injection Hb1 as <-. exists c. split; [done|].
  assert (∀ k, k ∉ ["id"; "parentId"; "timestamp"]%string → eget k c = eget k e) as Hget.
  { intros k Hk. rewrite Hc. by apply commit_spec. }
  assert (eget "type" c = JStr "compaction" ∧ eget "summary" c = JStr summary ∧ eget "firstKeptEntryId" c = JStr first_kept ∧
    eget "details" c = default JNull details ∧ get_or "tokensBefore" (JInt 0) c = JInt tokens) as (H1 & H2 & H3 & H4 & H5).
  { rewrite !Hget by set_solver. split_and!; try done; [by destruct details|].
    unfold get_or. rewrite Hc, commit_dict_get by set_solver. done. }
  assert (eget "timestamp" c = JStr (dr_now dr)) as H6 by (rewrite Hc; unfold commit; by rewrite eget_set).
  assert (truthy (JStr summary) = true) as H7 by (cbn; by rewrite bool_decide_eq_false_2).
  assert (is_compaction c = true) as Hcomp by (unfold is_compaction; by rewrite H1, H2, H7).
  assert (c ∉ branch) as Hfresh.
  { rewrite map_app in Hnd. apply NoDup_app in Hnd as (_ & Hnd & _). intros Hin.
    apply (Hnd (eget "id" c)); [by apply (list_elem_of_fmap_2 (eget "id"))|]. apply list_elem_of_here. }
  split; [|split].
  - unfold entry_message, _entry_to_message. rewrite H1. cbn [bool_decide decide]. rewrite !(bool_decide_eq_false_2 (JStr _ = _)) by done.
    cbn [andb]. rewrite bool_decide_eq_true_2 by done. rewrite H2, H7. cbn [andb]. rewrite H5, int_of_tokens.
    cbn [mbind result_bind]. rewrite H6. unfold _timestamp_to_ms. cbn [truthy].
    rewrite bool_decide_eq_false_2 by done. cbn [negb mbind result_bind]. by rewrite H4.
  - intros before kept rest -> Hk. rewrite selected_compaction, H3 by done. rewrite bool_decide_eq_false_2 by done.
    rewrite kept_before_from; [done| |done]. intros e' He' Heq. rewrite map_app, map_app in Hnd. cbn in Hnd.
    apply NoDup_app in Hnd as (Hnd & _). apply NoDup_app in Hnd as (_ & Hnd & _).
    apply (Hnd (eget "id" e')); [by apply (list_elem_of_fmap_2 (eget "id"))|]. rewrite Heq, <-Hk. apply list_elem_of_here.
  - intros Hn. rewrite selected_compaction, H3 by done. rewrite bool_decide_eq_false_2 by done.
    rewrite kept_before_none; [done|]. intros e' He' Heq. apply Hn. rewrite <-Heq. by apply (list_elem_of_fmap_2 (eget "id")).
Qed.

(** ** The tree *)
Section tree.
Variable node : nat → entry → string → TreeNode.
Hypothesis node_id : ∀ d e i, n_id (node d e i) = i.
Hypothesis node_depth : ∀ d e i, n_depth (node d e i) = d.
Hypothesis node_entry : ∀ d e i, n_entry (node d e i) = e.
Variable es : list entry.
(** What is listed at the top. *)
Variable top : entry → Prop.
Local Notation children := (tree_children es).
Local Notation visit := (visit node children).
Implicit Types acc : list string * list TreeNode.

Lemma children_spec key e : e ∈ children_of children key → e ∈ es ∧ tree_parent (known_ids es) e = key.
Proof.
  unfold tree_children, children_of. generalize (known_ids es). intros known.
  assert (∀ d, (e ∈ default [] (od_get key d) → e ∈ es ∧ tree_parent known e = key) → ∀ l, (∀ x, x ∈ l → x ∈ es) →
    e ∈ default [] (od_get key (fold_left (λ children e, match string_id e with
      | Some id => if bool_decide (id = ""%string) then children else od_push (tree_parent known e) e children
      | None => children end) l d)) → e ∈ es ∧ tree_parent known e = key) as H.
  { intros d Hd l. revert d Hd. induction l as [|x l IH]; intros d Hd Hl He; [by apply Hd|]. cbn [fold_left] in He.
    eapply IH; [|intros; apply Hl; by right|exact He]. clear He IH.
    destruct (string_id x); [|done]. case_bool_decide; [done|]. intros He. rewrite od_get_push in He.
    apply elem_of_app in He as [He|He]; [by apply Hd|]. destruct (decide _) as [Hk|]; [|by apply not_elem_of_nil in He].
    apply list_elem_of_singleton in He as ->. split; [apply Hl; by left|done]. }
  intros He. eapply (H []); [by intros ?%not_elem_of_nil|intros x Hx; exact Hx|exact He].
Qed.

(** Where a visit may put an entry: at the top, or below a node listed before. *)
Definition placed acc (depth : nat) (e : entry) : Prop :=
  match depth with
  | O => top e
  | S d => ∃ p, p ∈ acc.2 ∧ n_depth p = d ∧ tree_parent (known_ids es) e = Some (n_id p)
  end.

Record walk acc : Prop := {
  walk_ids : acc.1 = rev (map n_id acc.2);
  walk_nodup : NoDup (map n_id acc.2);
  walk_nodes : Forall (λ n, n_entry n ∈ es ∧ string_id (n_entry n) = Some (n_id n)) acc.2;
  walk_depths : ∀ before n rest, acc.2 = before ++ n :: rest → placed ([], before) (n_depth n) (n_entry n)
}.

Lemma walk_visited acc i : walk acc → i ∈ acc.1 ↔ i ∈ map n_id acc.2.
Proof. intros [-> _ _ _]. by rewrite !list_elem_of_In, <-in_rev. Qed.

(** One node more. *)
Lemma walk_snoc acc depth e i : walk acc → e ∈ es → string_id e = Some i → i ∉ acc.1 → placed acc depth e →
  walk (i :: acc.1, acc.2 ++ [node depth e i]).
Proof.
  intros Hw He Hi Hn Hp. pose proof (walk_visited acc i Hw) as Hv. destruct Hw as [H1 H2 H3 H4]. split; cbn.
  - by rewrite map_app, rev_app_distr, H1; cbn; rewrite node_id.
  - rewrite map_app. cbn. rewrite node_id. apply NoDup_app. split; [done|]. split; [|apply NoDup_singleton].
    intros x Hx ->%list_elem_of_singleton. by apply Hn, Hv.
  - apply Forall_app. split; [done|]. constructor; [|constructor]. by rewrite node_entry, node_id.
  - intros before n rest Hs. destruct rest as [|r rest _] using rev_ind.
    + apply app_inj_tail in Hs as [<- <-]. rewrite node_entry, node_depth. by destruct depth.
    + rewrite app_comm_cons, app_assoc in Hs. apply app_inj_tail in Hs as [Hs _]. by eapply H4.
Qed.

(** Visits of the children of a node that is listed. *)
Lemma children_walk (v : list string * list TreeNode → entry → list string * list TreeNode) depth i l acc :
  (∀ a e, walk a → e ∈ es → placed a (S depth) e → walk (v a e) ∧ a.2 `prefix_of` (v a e).2) →
  walk acc → (∃ n, n ∈ acc.2 ∧ n_depth n = depth ∧ n_id n = i) → (∀ x, x ∈ l → x ∈ children_of children (Some i)) →
  walk (fold_left v l acc) ∧ acc.2 `prefix_of` (fold_left v l acc).2.
Proof.
  intros Hv. revert acc. induction l as [|x l IH]; intros acc Hw (n & Hn & Hd & Hni) Hl; [done|]. cbn [fold_left].
  destruct (children_spec (Some i) x (Hl x ltac:(by left))) as [Hx Hpx].
  destruct (Hv acc x Hw Hx) as [Hw' Hpre]; [exists n; by rewrite Hni|].
  destruct (IH (v acc x) Hw') as [Hw'' Hpre'].
  - exists n. split; [|done]. destruct Hpre as [t ->]. apply elem_of_app. by left.
  - intros y Hy. apply Hl. by right.
  - split; [done|by etrans].
Qed.

(** A visit keeps the walk and only adds to it. *)
Lemma visit_walk fuel : ∀ depth acc e, walk acc → e ∈ es → placed acc depth e →
  walk (visit fuel depth acc e) ∧ acc.2 `prefix_of` (visit fuel depth acc e).2.
Proof.
  induction fuel as [|fuel IH]; intros depth acc e Hw He Hp; [done|]. cbn [SessionContext.visit].
  destruct (string_id e) as [i|] eqn:Hi; [|done]. case_bool_decide as Hn; [done|].
  destruct (children_walk (visit fuel (S depth)) depth i (children_of children (Some i))
    (i :: acc.1, acc.2 ++ [node depth e i])) as [Hw' Hpre].
  - intros a e' Ha He' Hp'. by apply IH.
  - by apply walk_snoc.
  - exists (node depth e i). split; [|done]. apply elem_of_app. right. apply list_elem_of_here.
  - done.
  - split; [done|]. etrans; [|exact Hpre]. by eexists.
Qed.

Lemma visit_top_walk fuel l acc : walk acc → (∀ x, x ∈ l → x ∈ es ∧ top x) →
  walk (fold_left (visit fuel 0) l acc) ∧ acc.2 `prefix_of` (fold_left (visit fuel 0) l acc).2.
Proof.
  revert acc. induction l as [|x l IH]; intros acc Hw Hl; [done|]. cbn [fold_left].
  destruct (visit_walk fuel 0 acc x Hw) as [Hw' Hp]; [apply Hl; by left..|].
  destruct (IH _ Hw') as [Hw'' Hp'']; [intros; apply Hl; by right|]. split; [done|by etrans].
Qed.

Lemma visited_prefix acc acc' i : walk acc → walk acc' → acc.2 `prefix_of` acc'.2 → i ∈ acc.1 → i ∈ acc'.1.
Proof.
  intros Hw Hw' [t Ht] Hi. apply walk_visited; [done|]. apply (walk_visited acc) in Hi; [|done].
  rewrite Ht, map_app. apply elem_of_app. by left.
Qed.

(** A visit lists its entry. *)
Lemma visit_lists fuel depth acc e i : walk acc → e ∈ es → placed acc depth e → string_id e = Some i →
  i ∈ (visit (S fuel) depth acc e).1.
Proof.
  intros Hw He Hp Hi. destruct (visit_walk (S fuel) depth acc e Hw He Hp) as [Hw' Hpre].
  destruct (decide (i ∈ acc.1)) as [Hin|Hin]; [exact (visited_prefix acc _ i Hw Hw' Hpre Hin)|].
  cbn [SessionContext.visit] in *. rewrite Hi, bool_decide_eq_false_2 in * by done.
  destruct (children_walk (visit fuel (S depth)) depth i (children_of children (Some i))
    (i :: acc.1, acc.2 ++ [node depth e i])) as [_ Hpre1].
  - intros a e' Ha He' Hp'. by apply visit_walk.
  - by apply walk_snoc.
  - exists (node depth e i). split; [|done]. apply elem_of_app. right. apply list_elem_of_here.
  - done.
  - eapply visited_prefix; [by apply (walk_snoc acc depth e i)|done|exact Hpre1|by left].
Qed.

(** ** Enough fuel *)

Lemma visit_mono fuel : ∀ depth acc e i, i ∈ acc.1 → i ∈ (visit fuel depth acc e).1.
Proof.
  induction fuel as [|fuel IH]; intros depth acc e i Hi; [done|]. cbn [SessionContext.visit].
  destruct (string_id e) as [j|]; [|done]. case_bool_decide; [done|].
  assert (∀ l a, i ∈ a.1 → i ∈ (fold_left (visit fuel (S depth)) l a).1) as H'.
  { induction l as [|x l IHl]; intros a Ha; [done|]. apply IHl. by apply IH. }
  apply H'. by right.
Qed.

Lemma fold_mono fuel depth l : ∀ acc i, i ∈ acc.1 → i ∈ (fold_left (visit fuel depth) l acc).1.
Proof. induction l as [|x l IH]; intros acc i Hi; [done|]. apply IH. by apply visit_mono. Qed.

(** The entries not visited yet. *)
Definition unvisited acc : nat := length (List.filter (λ i, bool_decide (i ∉ acc.1)) (omap string_id es)).

Lemma unvisited_less acc acc' i : (∀ j, j ∈ acc.1 → j ∈ acc'.1) → i ∉ acc.1 → i ∈ acc'.1 → i ∈ omap string_id es →
  (unvisited acc' < unvisited acc)%nat.
Proof.
  intros Hsub Hn Hi. unfold unvisited.
  assert (∀ l, length (List.filter (λ i, bool_decide (i ∉ acc'.1)) l) ≤ length (List.filter (λ i, bool_decide (i ∉ acc.1)) l) ∧
    (i ∈ l → length (List.filter (λ i, bool_decide (i ∉ acc'.1)) l) < length (List.filter (λ i, bool_decide (i ∉ acc.1)) l)))%nat as H.
  { induction l as [|j l [IH1 IH2]]; [split; [done|by intros ?%not_elem_of_nil]|]. cbn [List.filter].
    case_bool_decide as H1; case_bool_decide as H2; cbn [length].
    - split; [lia|]. intros [->|Hl]%elem_of_cons; [done|]. specialize (IH2 Hl). lia.
    - exfalso. by apply H1, Hsub.
    - split; [lia|]. intros _. lia.
    - split; [lia|]. intros [->|Hl]%elem_of_cons; [done|by apply IH2]. }
  apply H.
Qed.

Lemma unvisited_mono acc acc' : (∀ j, j ∈ acc.1 → j ∈ acc'.1) → (unvisited acc' ≤ unvisited acc)%nat.
Proof.
  intros Hsub. unfold unvisited. induction (omap string_id es) as [|j l IH]; [done|]. cbn [List.filter].
  case_bool_decide as H1; case_bool_decide as H2; cbn [length]; try lia. exfalso. by apply H1, Hsub.
Qed.

(** The children of what a visit lists are listed too. *)
Definition closed acc acc' : Prop :=
  ∀ i x j, i ∈ acc'.1 → i ∉ acc.1 → x ∈ children_of children (Some i) → string_id x = Some j → j ∈ acc'.1.

Lemma closed_trans acc1 acc2 acc3 : closed acc1 acc2 → closed acc2 acc3 → (∀ j, j ∈ acc2.1 → j ∈ acc3.1) → closed acc1 acc3.
Proof.
  intros H12 H23 Hsub i x j Hi Hn Hx Hj. destruct (decide (i ∈ acc2.1)) as [Hi2|Hi2].
  - apply Hsub. by eapply H12.
  - by eapply H23.
Qed.

(** With fuel for every entry not visited, a visit is complete. *)
Lemma visit_complete fuel : ∀ depth acc e, e ∈ es → (unvisited acc < fuel)%nat →
  closed acc (visit fuel depth acc e) ∧ (∀ j, string_id e = Some j → j ∈ (visit fuel depth acc e).1).
Proof.
  induction fuel as [|fuel IH]; intros depth acc e He Hf; [lia|]. cbn [SessionContext.visit].
  destruct (string_id e) as [i|] eqn:Hi; [|split; [intros i x j Hx Hn; done|done]].
  case_bool_decide as Hn; [split; [intros i' x j Hx Hn'; done|by intros j [= <-]]|].
  set (acc1 := (i :: acc.1, acc.2 ++ [node depth e i])).
  assert (unvisited acc1 < unvisited acc)%nat as Hless.
  { apply (unvisited_less _ _ i); [by right|done|by left|]. apply list_elem_of_omap. by exists e. }
  assert (∀ l a, (∀ j, j ∈ acc1.1 → j ∈ a.1) → (∀ x, x ∈ l → x ∈ es) →
    closed a (fold_left (visit fuel (S depth)) l a) ∧
    ∀ x j, x ∈ l → string_id x = Some j → j ∈ (fold_left (visit fuel (S depth)) l a).1) as H.
  { induction l as [|x l IHl]; intros a Ha Hl.
    - split; [intros i' x j Hx Hn'; done|by intros x j ?%not_elem_of_nil].
    - cbn [fold_left]. pose proof (unvisited_mono acc1 a Ha).
      destruct (IH (S depth) a x) as [Hc1 Hx1]; [apply Hl; by left|lia|].
      destruct (IHl (visit fuel (S depth) a x)) as [Hc2 Hx2].
      { intros j Hj. by apply visit_mono, Ha. } { intros y Hy. apply Hl. by right. }
      split; [eapply closed_trans; [done..|]; by intros j; apply fold_mono|].
      intros y j [->|Hy]%elem_of_cons Hj; [|by eapply Hx2]. apply fold_mono. by apply Hx1. }
  destruct (H (children_of children (Some i)) acc1) as [Hc Hx]; [done| |].
  { intros x Hx. by apply (children_spec (Some i)). }
  split.
  - intros i' x j Hi' Hn' Hx' Hj. destruct (decide (i' = i)) as [->|Hne]; [by eapply Hx|].
    eapply Hc; [done| |done|done]. by intros [->|?]%elem_of_cons.
  - intros j [= <-]. apply fold_mono. by left.
Qed.

Lemma fold_complete fuel depth l acc : (∀ x, x ∈ l → x ∈ es) → (unvisited acc < fuel)%nat →
  closed acc (fold_left (visit fuel depth) l acc) ∧
  ∀ x j, x ∈ l → string_id x = Some j → j ∈ (fold_left (visit fuel depth) l acc).1.
Proof.
  revert acc. induction l as [|x l IH]; intros acc Hl Hf.
  - split; [intros i' x j Hx Hn'; done|by intros x j ?%not_elem_of_nil].
  - cbn [fold_left]. destruct (visit_complete fuel depth acc x) as [Hc1 Hx1]; [apply Hl; by left|done|].
    destruct (IH (visit fuel depth acc x)) as [Hc2 Hx2]; [intros y Hy; apply Hl; by right| |].
    { pose proof (unvisited_mono acc (visit fuel depth acc x) (visit_mono fuel depth acc x)). lia. }
    split; [eapply closed_trans; [done..|]; by intros j; apply fold_mono|].
    intros y j [->|Hy]%elem_of_cons Hj; [|by eapply Hx2]. apply fold_mono. by apply Hx1.
Qed.

Lemma children_complete e i : e ∈ es → string_id e = Some i → i ≠ ""%string →
  e ∈ children_of children (tree_parent (known_ids es) e).
Proof.
  intros He Hi Hne. unfold tree_children, children_of. generalize (known_ids es). intros known.
  assert (∀ l d, e ∈ l ∨ e ∈ default [] (od_get (tree_parent known e) d) →
    e ∈ default [] (od_get (tree_parent known e) (fold_left (λ children e, match string_id e with
      | Some id => if bool_decide (id = ""%string) then children else od_push (tree_parent known e) e children
      | None => children end) l d))) as H; [|apply H; by left].
  induction l as [|x l IH]; intros d Hd; [by destruct Hd as [?%not_elem_of_nil|]|]. cbn [fold_left]. apply IH.
  destruct Hd as [[->|Hl]%elem_of_cons|Hd]; [right|by left|right].
  - rewrite Hi, bool_decide_eq_false_2, od_get_push, decide_True by done. apply elem_of_app. right. apply list_elem_of_here.
  - destruct (string_id x); [|done]. case_bool_decide; [done|]. rewrite od_get_push. apply elem_of_app. by left.
Qed.

(** Visits of what is visited change nothing. *)
Lemma fold_visited fuel l acc : (∀ x i, x ∈ l → string_id x = Some i → i ∈ acc.1) → fold_left (visit fuel 0) l acc = acc.
Proof.
  induction l as [|x l IH]; intros H; [done|]. cbn [fold_left].
  assert (visit fuel 0 acc x = acc) as ->.
  { destruct fuel as [|fuel]; [done|]. cbn. destruct (string_id x) as [i|] eqn:Hi; [|done].
    by rewrite bool_decide_eq_true_2 by (eapply H; [by left|done]). }
  apply IH. intros y i Hy. apply H. by right.
Qed.
End tree.

(** ** The tree of a history *)

Lemma entries_linked es leaf : linked es → entries (with_leaf leaf (view_of es)) = tail es.
Proof.
  intros Hl. unfold entries. cbn [with_leaf view_of v_entries].
  induction Hl as [h Hh Ht|es e id Hes IH He Ht Hid Hn Hf Hp].
  - cbn. by rewrite bool_decide_eq_true_2.
  - rewrite List.filter_app, IH, tail_snoc by by apply linked_nonempty. cbn. by rewrite bool_decide_eq_false_2.
Qed.

Lemma linked_string_id es e : linked es → e ∈ tail es → ∃ i, eget "id" e = JStr i ∧ string_id e = Some i ∧ i ≠ ""%string.
Proof.
  intros Hl He. destruct (ids_strings es Hl (eget "id" e)) as (i & Hi & Hn).
  { by apply (list_elem_of_fmap_2 (eget "id")). }
  exists i. unfold string_id. by rewrite Hi.
Qed.

Lemma known_in es i : linked es → i ∈ known_ids (tail es) ↔ JStr i ∈ ids es.
Proof.
  intros Hl. unfold known_ids. rewrite list_elem_of_In, filter_In, <-list_elem_of_In. unfold ids. split.
  - intros [(e & He & Hi)%list_elem_of_omap _]. unfold string_id in Hi. destruct (eget "id" e) eqn:Hid; try done.
    injection Hi as <-. rewrite <-Hid. by apply (list_elem_of_fmap_2 (eget "id")).
  - intros (e & He & Hin)%list_elem_of_fmap. destruct (linked_string_id es e Hl Hin) as (j & Hj & Hsj & Hne).
    assert (j = i) as -> by congruence. split; [|by rewrite bool_decide_eq_false_2]. apply list_elem_of_omap. by exists e.
Qed.

(** The parent in the tree is the parent in the file. *)
Lemma tree_parent_linked es e : linked es → eget "parentId" e = JNull ∨ eget "parentId" e ∈ ids es →
  match tree_parent (known_ids (tail es)) e with
  | None => eget "parentId" e = JNull
  | Some p => eget "parentId" e = JStr p
  end.
Proof.
  intros Hl [Hp|Hp]; unfold tree_parent; [by rewrite Hp|].
  destruct (ids_strings es Hl _ Hp) as (p & Hps & _). rewrite Hps in *.
  by rewrite bool_decide_eq_true_2 by (by apply known_in).
Qed.

Lemma linked_parent es e : linked es → e ∈ tail es → eget "parentId" e = JNull ∨ eget "parentId" e ∈ ids es.
Proof.
  induction 1 as [h Hh Ht|es e' id Hes IH He' Ht Hid Hn Hf Hp]; intros He; [by apply not_elem_of_nil in He|].
  pose proof (linked_nonempty _ Hes) as Hne. rewrite tail_snoc in He by done. rewrite ids_snoc by done.
  setoid_rewrite elem_of_app. apply elem_of_app in He as [He|He%list_elem_of_singleton].
  - destruct (IH He); auto.
  - subst. destruct Hp; auto.
Qed.

Section history_tree.
Variable node : nat → entry → string → TreeNode.
Hypothesis node_id : ∀ d e i, n_id (node d e i) = i.
Hypothesis node_depth : ∀ d e i, n_depth (node d e i) = d.
Hypothesis node_entry : ∀ d e i, n_entry (node d e i) = e.
Variable es : list entry.
Hypothesis Hl : linked es.
Local Notation history := (tail es).
Local Notation top := (λ e, tree_parent (known_ids history) e = None).

Definition root_pass : list string * list TreeNode :=
  fold_left (visit node (tree_children history) (S (length history)) 0)
    (children_of (tree_children history) None) ([], []).

Lemma root_pass_walk : walk history top root_pass.
Proof.
  apply (visit_top_walk node node_id node_depth node_entry history top).
  - split; cbn; [done|constructor|constructor|]. by intros [] n rest.
  - intros x Hx. by apply children_spec in Hx.
Qed.

Lemma root_pass_complete : closed history ([], []) root_pass ∧
  ∀ x j, x ∈ children_of (tree_children history) None → string_id x = Some j → j ∈ root_pass.1.
Proof.
  apply (fold_complete node history).
  - intros x Hx. by apply children_spec in Hx as [Hx _].
  - apply Nat.lt_succ_r. unfold unvisited. etrans; [apply filter_length_le|]. clear. generalize history. intros l.
    induction l as [|e l IH]; [done|]. cbn. destruct (string_id e); cbn; lia.
Qed.

(** The roots lead to every entry. *)
Lemma root_pass_all e i : e ∈ history → string_id e = Some i → i ∈ root_pass.1.
Proof.
  destruct root_pass_complete as [Hc Hroots].
  assert (∀ es1 es2, linked es1 → es = es1 ++ es2 → ∀ e i, e ∈ tail es1 → string_id e = Some i → i ∈ root_pass.1) as H.
  { intros es1 es2 Hl1. revert es2. induction Hl1 as [h Hh Ht|es1 e1 id Hes IH He Ht Hid Hn Hf Hp]; intros es2 Hes2 e' j He' Hj.
    - by apply not_elem_of_nil in He'.
    - pose proof (linked_nonempty _ Hes) as Hne. rewrite tail_snoc in He' by done.
      rewrite <-app_assoc in Hes2. cbn in Hes2. apply elem_of_app in He' as [He'|He'%list_elem_of_singleton]; [by eapply IH|].
      subst e'. assert (e1 ∈ history) as Hin.
      { rewrite Hes2. destruct es1; [done|]. cbn. apply elem_of_app. right. by left. }
      destruct (linked_string_id es e1 Hl Hin) as (j' & Hj1 & Hj2 & Hj3).
      pose proof (children_complete history e1 j' Hin Hj2 Hj3) as Hch.
      pose proof (tree_parent_linked es e1 Hl (linked_parent es e1 Hl Hin)) as Htp.
      destruct (tree_parent (known_ids history) e1) as [p|]; [|by eapply Hroots].
      destruct Hp as [Hp|Hp]; [congruence|]. apply list_elem_of_fmap in Hp as (pe & Hpe & Hpin).
      assert (string_id pe = Some p) as Hps by (unfold string_id; rewrite <-Hpe, Htp; done).
      eapply (Hc p); [|by apply not_elem_of_nil|done|done]. by eapply IH. }
  intros He Hi. eapply (H es []); [done|by rewrite app_nil_r|done|done].
Qed.

Lemma visit_all_root_pass : visit_all node (S (length history)) history = root_pass.
Proof. unfold visit_all. apply fold_visited. intros x i. apply root_pass_all. Qed.

Lemma root_pass_entries : map n_entry root_pass.2 ≡ₚ history.
Proof.
  pose proof root_pass_walk as Hw. destruct Hw as [Hids Hnd Hnodes _]. rewrite Forall_forall in Hnodes.
  pose proof (ids_nodup es Hl) as Hnid.
  apply NoDup_Permutation.
  - revert Hnd Hnodes. generalize root_pass.2. clear. intros l. induction l as [|n l IH]; cbn; intros Hnd Hnodes; [constructor|].
    apply NoDup_cons in Hnd as [Hn Hnd]. constructor; [|apply IH; [done|intros; apply Hnodes; by right]].
    intros (m & Hm & Hin)%list_elem_of_fmap. apply Hn. apply list_elem_of_fmap. exists m. split; [|done].
    destruct (Hnodes n ltac:(by left)) as [_ H1]. destruct (Hnodes m ltac:(by right)) as [_ H2]. congruence.
  - revert Hnid. unfold ids. generalize history. clear. intros l. induction l as [|e l IH]; cbn [map]; intros H; [constructor|].
    apply NoDup_cons in H as [He H]. constructor; [|by apply IH]. intros Hin. apply He. by apply (list_elem_of_fmap_2 (eget "id")).
  - intros e. split.
    + intros (n & -> & Hn)%list_elem_of_fmap. by apply Hnodes.
    + intros He. destruct (linked_string_id es e Hl He) as (i & Hi & Hsi & _).
      pose proof (root_pass_all e i He Hsi) as Hv. rewrite Hids, list_elem_of_In, <-in_rev, <-list_elem_of_In in Hv.
      apply list_elem_of_fmap in Hv as (n & Hni & Hn). destruct (Hnodes n Hn) as [Hne Hns].
      apply list_elem_of_fmap. exists n. split; [|done].
      assert (eget "id" (n_entry n) = eget "id" e) as Hsame.
      { rewrite Hi. unfold string_id in Hns. destruct (eget "id" (n_entry n)); try done. congruence. }
      clear -Hnid Hne He Hsame. revert Hnid Hne He. unfold ids. generalize history. intros l.
      induction l as [|x l IH]; cbn [map]; intros Hnd H1 H2; [by apply not_elem_of_nil in H1|]. apply NoDup_cons in Hnd as [Hx Hnd].
      apply elem_of_cons in H1 as [H1|H1], H2 as [H2|H2]; [congruence| | |by apply IH]; exfalso; apply Hx; subst x.
      * rewrite Hsame. by apply (list_elem_of_fmap_2 (eget "id")).
      * rewrite <-Hsame. by apply (list_elem_of_fmap_2 (eget "id")).
Qed.
End history_tree.

(** whatever processes did to the session file, the tree of a store lists each of
    its entries exactly once, a parent before its children; an entry without a parent
    is at depth 0, any other one level below its parent. *)
Theorem session_tree_shows_history repr y x : sys_reachable y → x ∈ sys_stores y →
  ∃ nodes, session_tree repr (ss_view x) = Ok nodes ∧ NoDup (map n_id nodes) ∧
    map n_entry nodes ≡ₚ entries (ss_view x) ∧
    ∀ before n rest, nodes = before ++ n :: rest → eget "id" (n_entry n) = JStr (n_id n) ∧
      ((n_depth n = 0%nat ∧ eget "parentId" (n_entry n) = JNull) ∨
       ∃ p, p ∈ before ∧ n_depth n = S (n_depth p) ∧ eget "parentId" (n_entry n) = JStr (n_id p)).
Proof.
  intros Hr Hx. destruct (reachable_store y x Hr Hx) as (all & k & _ & Ht).
  pose proof (take_linked all k (tk_linked _ _ _ Ht) (proj1 (tk_k _ _ _ Ht))) as Hl.
  assert (ss_view x = with_leaf (v_leaf (ss_view x)) (view_of (take k all))) as Hv.
  { pose proof (tk_entries _ _ _ Ht) as H1. pose proof (tk_by_id _ _ _ Ht) as H2. cbn in *.
    destruct (ss_view x). unfold with_leaf. cbn in *. by rewrite H1, H2. }
  pose proof (tk_leaf _ _ _ Ht) as Hleaf. cbn in Hleaf. rewrite Hv.
  set (es := take k all) in *. set (leaf := v_leaf (ss_view x)) in *. clearbody es leaf. clear Hv Ht.
  destruct (current_chain es leaf Hl Hleaf) as (chain & _ & _ & Hb).
  unfold session_tree, current_branch. rewrite Hb. cbn [mbind result_bind]. rewrite entries_linked by done.
  eexists. split; [reflexivity|].
  match goal with |- context [visit_all ?node _ _] => set (nd := node) end.
  assert (∀ d e i, n_id (nd d e i) = i ∧ n_depth (nd d e i) = d ∧ n_entry (nd d e i) = e) as Hnd by done.
  rewrite (visit_all_root_pass nd es Hl).
  pose proof (root_pass_walk nd (λ d e i, proj1 (Hnd d e i)) (λ d e i, proj1 (proj2 (Hnd d e i)))
    (λ d e i, proj2 (proj2 (Hnd d e i))) es) as [_ Hn Hnodes Hd].
  split; [done|]. split; [apply root_pass_entries; [apply Hnd..|done]|].
  intros before n rest Heq. rewrite Forall_forall in Hnodes.
  destruct (Hnodes n) as [Hin Hid]; [rewrite Heq; apply elem_of_app; right; by left|]. split.
  { unfold string_id in Hid. destruct (eget "id" (n_entry n)); try done. by injection Hid as ->. }
  specialize (Hd before n rest Heq). pose proof (tree_parent_linked es _ Hl (linked_parent es _ Hl Hin)) as Htp.
  destruct (n_depth n) as [|d]; cbn in Hd.
  - left. by rewrite Hd in Htp.
  - right. destruct Hd as (p & Hp & Hpd & Hpp). rewrite Hpp in Htp. exists p. by rewrite Hpd.
Qed.

(** ** Concrete contexts *)

Definition sample_iso : string → option Z := λ _, None.
Definition sample_repr : pv → Utf8.text := λ _, lit "?".
Definition sample_loads : Utf8.text → option pv := λ _, None.
Definition sample_now : entry → Z := λ _, 7.

(** The second process of [sample_system]: it appended the last entry. *)
Definition sample_reader : SessionStore := default fresh_store (sys_stores sample_system !! 1%nat).

Lemma sample_reader_in : sample_reader ∈ sys_stores sample_system.
Proof. apply (list_elem_of_lookup_2 _ 1%nat). vm_compute. reflexivity. Qed.

Lemma sample_reader_up_to_date : up_to_date sample_system sample_reader.
Proof. unfold up_to_date. vm_compute. reflexivity. Qed.

(** Two calls of which one is answered, and an answer to a call that is not there. *)
Definition sample_entry_of (id : string) (m : Message) : entry :=
  [("type", JStr "message"); ("id", JStr id);
   ("message", match serialize_message m with Ok j => j | Err _ => JNull end)]%string.

Definition sample_call (i : string) : Message :=
  AssistantMsg {| a_content := [ToolCall (JStr i) (JStr "read") (JObj []) JNull]; a_api := JStr "api";
    a_provider := JStr "p"; a_model := JStr "m"; a_usage := empty_usage; a_stop_reason := JStr "toolUse";
    a_response_model := JNull; a_response_id := JNull; a_diagnostics := JNull; a_error_message := JNull; a_timestamp := JInt 1 |}.

Definition sample_answer (i : string) : Message :=
  ToolResultMsg {| t_tool_call_id := JStr i; t_tool_name := JStr "read"; t_content := [TextContent (JStr "ok") JNull];
    t_is_error := false; t_details := JNull; t_added_tool_names := JNull; t_timestamp := JInt 2 |}.

Definition sample_branch : list entry :=
  [sample_entry_of "a" (sample_call "x"); sample_entry_of "b" (sample_answer "x"); sample_entry_of "c" (sample_answer "y")].

Lemma context_is_paired_witness :
  ∃ es, es `sublist_of` sample_branch ∧ [str_text "a"; str_text "b"] = map (entry_id_text sample_repr) es ∧
    Forall2 (entry_message sample_iso sample_now) es [sample_call "x"; sample_answer "x"].
Proof.
  destruct (context_is_paired sample_iso sample_repr sample_now sample_branch [sample_call "x"; sample_answer "x"]
    [str_text "a"; str_text "b"] ltac:(vm_compute; reflexivity)) as (es & H1 & H2 & H3 & _).
  exists es. split; [exact H1|]. split; [exact H2|exact H3].
Defined.

Definition sample_said : Message := UserMsg (Plain "hi") (JInt 5).

Definition sample_snapshot : SessionContextSnapshot :=
  match build_context sample_iso sample_repr sample_loads "off" sample_now (ss_view sample_reader) with
  | Ok s => s
  | Err _ => {| sn_messages := []; sn_thinking_level := JNull; sn_model := None; sn_session_name := None;
                sn_generation_params := default_params |}
  end.

Definition sample_said_append : result store_error string * State :=
  append_serialized (sample_draw "d" WriteAll) sample_said {| store := sample_reader; disk := sys_disk sample_system |}.

Lemma appended_message_in_context_witness :
  length (sn_messages sample_snapshot) = 3%nat ∧
  ∃ snap, build_context sample_iso sample_repr sample_loads "off" sample_now (ss_view (store sample_said_append.2)) = Ok snap ∧
    sn_messages snap = sn_messages sample_snapshot ++ [sample_said].
Proof.
  split; [vm_compute; reflexivity|].
  destruct (appended_message_in_context sample_iso sample_repr sample_loads sample_system sample_reader
    (sample_draw "d" WriteAll) sample_said (JObj [("role", JStr "user"); ("content", JStr "hi"); ("timestamp", JInt 5)]%string)
    "d" sample_said_append.2 "off" sample_now sample_snapshot (map str_text ["a"; "b"; "c"]%string)
    sample_session_reachable sample_reader_in sample_reader_up_to_date
    (sample_draw_ok "d" WriteAll ltac:(discriminate) (or_introl eq_refl)) eq_refl eq_refl eq_refl eq_refl
    ltac:(unfold sample_said_append; apply run_pair; vm_compute; reflexivity)
    ltac:(vm_compute; reflexivity) ltac:(vm_compute; reflexivity)
    ltac:(intros branch _; split; [reflexivity|intros i Hi; discriminate Hi|intros i e r Hi; by apply not_elem_of_nil in Hi])
    "/w"%string None "sid"%string "t0"%string) as (s2 & _ & _ & Hb & _).
  eexists. split; [exact Hb|reflexivity].
Defined.

Definition sample_compaction : result store_error string * State :=
  append_compaction (sample_draw "d" WriteAll) "what was said" "b" 100 None None
    {| store := sample_reader; disk := sys_disk sample_system |}.

Definition sample_reader_branch : list entry :=
  match get_branch (ss_view sample_reader) JNull with Ok b => b | Err _ => [] end.

Lemma compacted_context_witness :
  map (eget "id") sample_reader_branch = map JStr ["a"; "b"; "c"]%string ∧
  ∃ c, map (eget "id") (selected_entries (sample_reader_branch ++ [c])) = eget "id" c :: map JStr ["b"; "c"]%string.
Proof.
  split; [vm_compute; reflexivity|].
  destruct (compacted_context sample_iso sample_now sample_system sample_reader (sample_draw "d" WriteAll) "what was said" "b" 100
    None "d" sample_compaction.2 sample_reader_branch sample_session_reachable sample_reader_in sample_reader_up_to_date
    (sample_draw_ok "d" WriteAll ltac:(discriminate) (or_introl eq_refl)) eq_refl I ltac:(discriminate) ltac:(discriminate)
    ltac:(vm_compute; reflexivity) ltac:(unfold sample_compaction; apply run_pair; vm_compute; reflexivity))
    as (c & _ & _ & Hkept & _).
  exists c. rewrite (Hkept (take 1 sample_reader_branch) (List.nth 1 sample_reader_branch []) (drop 2 sample_reader_branch)
    ltac:(vm_compute; reflexivity) ltac:(vm_compute; reflexivity)).
  vm_compute. reflexivity.
Defined.

Lemma session_tree_shows_history_witness :
  ∃ nodes, session_tree sample_repr (ss_view sample_reader) = Ok nodes ∧ NoDup (map n_id nodes) ∧
    map n_entry nodes ≡ₚ entries (ss_view sample_reader).
Proof.
  destruct (session_tree_shows_history sample_repr sample_system sample_reader sample_session_reachable sample_reader_in)
    as (nodes & H1 & H2 & H3 & _).
  exists nodes. split; [exact H1|]. split; [exact H2|exact H3].
Defined.

(** The reasoning tokens of an answer are written nowhere: after a restart its usage
    says zero. *)
Example reasoning_tokens_lost : ∀ now,
  (data ← serialize_message (AssistantMsg {| a_content := []; a_api := JNull; a_provider := JNull; a_model := JNull;
     a_usage := {| u_input := JInt 1; u_output := JInt 2; u_cache_read := JInt 0; u_cache_write := JInt 0;
       u_cache_write_1h := JInt 0; u_reasoning := JInt 900; u_total_tokens := JInt 3; u_cost_input := JNull;
       u_cost_output := JNull; u_cost_cache_read := JNull; u_cost_cache_write := JNull; u_cost_total := JNull; u_cost_tiers := [] |};
     a_stop_reason := JNull; a_response_model := JNull; a_response_id := JNull; a_diagnostics := JNull;
     a_error_message := JNull; a_timestamp := JInt 0 |});
   m ← deserialize_message now data;
   Ok (match m with AssistantMsg a => u_reasoning (a_usage a) | _ => JNull end)) = Ok (JInt 0) :> result context_error json.
Proof. reflexivity. Qed.

(** A compaction is not asked whether its first kept entry is on the branch. *)
Example unknown_first_kept_forgets :
  match (append_compaction (sample_draw "d" WriteAll) "what was said" "nowhere" 100 None None
    {| store := sample_reader; disk := sys_disk sample_system |}).2 with
  | s => match get_branch (ss_view (store s)) JNull with
         | Ok b => map (eget "type") (selected_entries b)
         | Err _ => []
         end
  end = [JStr "compaction"].
Proof. vm_compute. reflexivity. Qed.

(** A usage that names a cost that is no object, or a message that is no object,
    stops the reading of the whole session. *)
Example bad_message_stops_reading :
  deserialize_message 0 (JStr "hello") = attribute_error "get" ∧
  deserialize_message 0 (JObj [("role", JStr "user"); ("content", JInt 3)]%string) = type_error "object is not iterable".
Proof. split; reflexivity. Qed.
