(* ===== verification/Capability.v ===== *)
(** Capabilities: the typed records of [capabilities/types.py] and the
    registry of [capabilities/registry.py], which loads every enabled
    provider, ranks the records, and swaps snapshots atomically.

    A [CapabilityProviderResult] is a frozen dataclass that the registry
    compares by identity ([id(result)]): here a result is a reference (a
    number) into a heap of results that never changes.  Calling the [dispose]
    callback of a result is recorded in the log [disposed]; its exceptions are
    swallowed by the code.  Every method holds [_reload_lock] (or only reads
    the snapshot), so a method is one step of the state. *)

From S2P Require Import Prelude PyDict.
Open Scope Z_scope.

(** A string between double quotes, in a message. *)
Definition quoted (s : string) : string :=
  String (Ascii.ascii_of_nat 34) (s ++ String (Ascii.ascii_of_nat 34) "").

(** ** Values *)

(** [src: travis/coding_agent/capabilities/types.py:17-24 CapabilityKind] *)
Inductive CapabilityKind : Type :=
  | CONTEXT_FILE | SKILL | PROMPT_TEMPLATE | THEME | EXTENSION | TOOL | AGENT_ROLE.
#[export] Instance CapabilityKind_eq_dec : EqDecision CapabilityKind.
Proof. solve_decision. Defined.

(** [src: travis/coding_agent/capabilities/types.py:17-24 CapabilityKind values] *)
Definition kind_value (k : CapabilityKind) : string :=
  match k with
  | CONTEXT_FILE => "context_file" | SKILL => "skill" | PROMPT_TEMPLATE => "prompt_template"
  | THEME => "theme" | EXTENSION => "extension" | TOOL => "tool" | AGENT_ROLE => "agent_role"
  end.

(** The characters [str.strip] removes from ASCII text: the names of providers
    and capabilities are ASCII strings here. *)
Definition is_strip_char (c : ascii) : bool := in_range 9 13 (code c) || in_range 28 32 (code c).

(** [src: travis/coding_agent/capabilities/types.py:12-14 _require_name] ([value.strip()] is
    empty exactly when every character is white space) *)
Definition _require_name (value label : string) : result string unit :=
  require (negb (forallb is_strip_char (chars value))) (label ++ " must be a non-empty string")%string.

(** [src: travis/coding_agent/capabilities/types.py:39-46 CapabilitySource] *)
Record CapabilitySource := {
  cs_provider : string;
  cs_path : option string;
  cs_source : string;
  cs_scope : string;
  cs_origin : string;
}.
#[export] Instance CapabilitySource_eq_dec : EqDecision CapabilitySource.
Proof. solve_decision. Defined.

(** [src: travis/coding_agent/capabilities/types.py:47-48 CapabilitySource.__post_init__] *)
Definition make_source (s : CapabilitySource) : result string CapabilitySource :=
  _ ← _require_name (cs_provider s) "capability provider"; Ok s.

(** [src: travis/coding_agent/capabilities/types.py:66-73 CapabilityDiagnostic] *)
Record CapabilityDiagnostic := {
  cd_severity : string;
  cd_provider : string;
  cd_code : string;
  cd_message : string;
  cd_source : option CapabilitySource;
}.

(** [src: travis/coding_agent/capabilities/types.py:74-75 CapabilityDiagnostic.__post_init__] *)
Definition make_diagnostic (d : CapabilityDiagnostic) : result string CapabilityDiagnostic :=
  _ ← _require_name (cd_provider d) "capability provider"; Ok d.

(** [src: travis/coding_agent/capabilities/registry.py:26-29 CapabilityReloadError] and the
    exceptions of the guards. *)
Inductive registry_exn : Type :=
  | RegistryValueError (message : string)
  | CapabilityReloadError (message : string) (diagnostic : CapabilityDiagnostic).

(** [src: travis/coding_agent/capabilities/types.py:86-89 CapabilityProvider]: [load] is code of
    the provider, an argument of [reload]. *)
Record CapabilityProvider := {
  cp_name : string;
  cp_priority : Z;
}.

Section registry.
(** The values of records and the states of providers are opaque objects. *)
Context {V : Type}.

(** [src: travis/coding_agent/capabilities/types.py:27-36 CapabilityLoadContext] *)
Record CapabilityLoadContext := {
  lc_cwd : string;
  lc_agent_dir : string;
  lc_project_trusted : bool;
  lc_offline : bool;
  lc_generation : Z;
  lc_data : list (string * V);
}.

(** [src: travis/coding_agent/capabilities/types.py:51-59 CapabilityRecord] *)
Record CapabilityRecord := {
  cr_kind : CapabilityKind;
  cr_key : string;
  cr_value : V;
  cr_source : CapabilitySource;
  cr_priority : Z;
  cr_enabled : bool;
}.

(** [src: travis/coding_agent/capabilities/types.py:60-63 CapabilityRecord.__post_init__] (the
    second guard, that the priority is an integer, is its type here) *)
Definition make_record (r : CapabilityRecord) : result string CapabilityRecord :=
  _ ← _require_name (cr_key r) "capability key"; Ok r.

(** [src: travis/coding_agent/capabilities/types.py:78-83 CapabilityProviderResult]: of the
    callback [dispose] only its presence matters to the registry. *)
Record CapabilityProviderResult := {
  pr_records : list CapabilityRecord;
  pr_diagnostics : list CapabilityDiagnostic;
  pr_state : option V;
  pr_dispose : bool;
}.

(** The heap of results: [heap i] is the frozen object with identity [i]. *)
Variable heap : nat → CapabilityProviderResult.

(** [src: travis/coding_agent/capabilities/registry.py:20-23 CapabilityResolution] *)
Record CapabilityResolution := {
  winner : option CapabilityRecord;
  candidates : list CapabilityRecord;
}.

(** The identity of a capability: its kind and key. *)
Local Notation identity := (CapabilityKind * string)%type.

(** [src: travis/coding_agent/capabilities/registry.py:32-43 CapabilitySnapshot] *)
Record CapabilitySnapshot := {
  generation : Z;
  diagnostics : list CapabilityDiagnostic;
  records_by_kind : list (CapabilityKind * list CapabilityRecord);
  resolutions : list (identity * CapabilityResolution);
  provider_states : list (string * V);
}.

(** [src: travis/coding_agent/capabilities/registry.py:72-73 CapabilitySnapshot.records] *)
Definition snapshot_records (s : CapabilitySnapshot) (kind : CapabilityKind) : list CapabilityRecord :=
  default [] (od_get kind (records_by_kind s)).

(** [src: travis/coding_agent/capabilities/registry.py:75-76 CapabilitySnapshot.resolve] *)
Definition resolve (s : CapabilitySnapshot) (kind : CapabilityKind) (key : string) : CapabilityResolution :=
  default {| winner := None; candidates := [] |} (od_get (kind, key) (resolutions s)).

(** [src: travis/coding_agent/capabilities/registry.py:78-79 CapabilitySnapshot.provider_state] *)
Definition provider_state (s : CapabilitySnapshot) (name : string) : option V :=
  od_get name (provider_states s).

(** [src: travis/coding_agent/capabilities/registry.py:82-83 _empty_snapshot] *)
Definition _empty_snapshot (g : Z) : CapabilitySnapshot :=
  {| generation := g; diagnostics := []; records_by_kind := []; resolutions := [];
     provider_states := [] |}.

(** An item of the list [loaded]: registration order, provider, its result. *)
Record loaded_item := { lo_order : Z; lo_provider : CapabilityProvider; lo_result : nat }.

(** [src: travis/coding_agent/capabilities/registry.py:96-98 key of the sort of loaded]
    The tuple [(-priority, order)], compared lexicographically. *)
Definition item_leb (a b : loaded_item) : bool :=
  let pa := cp_priority (lo_provider a) in
  let pb := cp_priority (lo_provider b) in
  (- pa <? - pb) || ((- pa =? - pb) && (lo_order a <=? lo_order b)).

(** [src: travis/coding_agent/capabilities/registry.py:103-106 key of the sort of records] *)
Definition record_leb (a b : CapabilityRecord) : bool := - cr_priority a <=? - cr_priority b.

(** [src: travis/coding_agent/capabilities/registry.py:103-106 the records of one result, ranked] *)
Definition ranked_records (result : nat) : list CapabilityRecord :=
  py_sorted record_leb (List.filter cr_enabled (pr_records (heap result))).

(** The accumulators of the first loop of [_build_snapshot]. *)
Record gathering := {
  ga_diagnostics : list CapabilityDiagnostic;
  ga_candidates : list (identity * list CapabilityRecord);
  ga_states : list (string * V);
}.

(** [src: travis/coding_agent/capabilities/registry.py:107-108 candidates.setdefault().append()] *)
Definition add_candidate (c : list (identity * list CapabilityRecord)) (r : CapabilityRecord)
    : list (identity * list CapabilityRecord) :=
  od_push (cr_kind r, cr_key r) r c.

(** [src: travis/coding_agent/capabilities/registry.py:99-108 body of the first loop] *)
Definition gather_item (g : gathering) (item : loaded_item) : gathering :=
  let res := heap (lo_result item) in
  {| ga_diagnostics := ga_diagnostics g ++ pr_diagnostics res;
     ga_candidates := fold_left add_candidate (ranked_records (lo_result item)) (ga_candidates g);
     ga_states := match pr_state res with
                  | Some state => od_set (cp_name (lo_provider item)) state (ga_states g)
                  | None => ga_states g
                  end |}.

(** [src: travis/coding_agent/capabilities/registry.py:117-126 the collision of a shadowed record] *)
Definition collision (i : identity) (shadowed : CapabilityRecord) : CapabilityDiagnostic :=
  {| cd_severity := "collision"; cd_provider := cs_provider (cr_source shadowed);
     cd_code := "capability_collision";
     cd_message := kind_value i.1 ++ " " ++ quoted i.2 ++ " was shadowed";
     cd_source := Some (cr_source shadowed) |}%string.

(** The accumulators of the second loop of [_build_snapshot]. *)
Record resolving := {
  re_diagnostics : list CapabilityDiagnostic;
  re_by_kind : list (CapabilityKind * list CapabilityRecord);
  re_resolutions : list (identity * CapabilityResolution);
}.

(** [src: travis/coding_agent/capabilities/registry.py:112-126 body of the second loop] (a list of
    candidates is never empty: it is created by an append) *)
Definition resolve_item (s : resolving) (c : identity * list CapabilityRecord) : resolving :=
  match c.2 with
  | [] => s
  | w :: shadowed =>
      {| re_diagnostics := re_diagnostics s ++ map (collision c.1) shadowed;
         re_by_kind := od_push c.1.1 w (re_by_kind s);
         re_resolutions := od_set c.1 {| winner := Some w; candidates := c.2 |} (re_resolutions s) |}
  end.

(** [src: travis/coding_agent/capabilities/registry.py:86-134 _build_snapshot] *)
Definition _build_snapshot (g : Z) (loaded : list loaded_item) : CapabilitySnapshot :=
  let gathered := fold_left gather_item (py_sorted item_leb loaded)
    {| ga_diagnostics := []; ga_candidates := []; ga_states := [] |} in
  let resolved := fold_left resolve_item (ga_candidates gathered)
    {| re_diagnostics := ga_diagnostics gathered; re_by_kind := []; re_resolutions := [] |} in
  {| generation := g; diagnostics := re_diagnostics resolved;
     records_by_kind := re_by_kind resolved; resolutions := re_resolutions resolved;
     provider_states := ga_states gathered |}.

(** ** The registry *)

(** [src: travis/coding_agent/capabilities/registry.py:157-166 CapabilityRegistry.__init__] *)
Record CapabilityRegistry := {
  providers : list CapabilityProvider;
  provider_names : list string;
  enabled : list (string * bool);
  seeded : list (string * nat);
  results : list (string * nat);
  snapshot : CapabilitySnapshot;
  has_reloaded : bool;
  (** the calls of [dispose] made so far, oldest first *)
  disposed : list nat;
}.

(** [src: travis/coding_agent/capabilities/registry.py:157-166 CapabilityRegistry.__init__] *)
Definition new_registry : CapabilityRegistry :=
  {| providers := []; provider_names := []; enabled := []; seeded := []; results := [];
     snapshot := _empty_snapshot 0; has_reloaded := false; disposed := [] |}.

(** [src: travis/coding_agent/capabilities/registry.py:143-153 loop of _dispose_results]: the
    references whose [dispose] is called. *)
Fixpoint dispose_loop (retained seen : list nat) (rs : list nat) : list nat :=
  match rs with
  | [] => []
  | i :: rs' =>
      if decide (i ∈ seen) then dispose_loop retained seen rs'
      else if decide (i ∈ retained) then dispose_loop retained seen rs'
      else (if pr_dispose (heap i) then [i] else []) ++ dispose_loop retained (i :: seen) rs'
  end.

(** [src: travis/coding_agent/capabilities/registry.py:137-153 _dispose_results] *)
Definition _dispose_results (rs : list (string * nat)) (retained : list (string * nat))
    (r : CapabilityRegistry) : CapabilityRegistry :=
  {| providers := providers r; provider_names := provider_names r; enabled := enabled r;
     seeded := seeded r; results := results r; snapshot := snapshot r;
     has_reloaded := has_reloaded r;
     disposed := disposed r ++ dispose_loop (retained.*2) [] (rs.*2) |}.

Definition set_results (rs : list (string * nat)) (s : CapabilitySnapshot) (r : CapabilityRegistry)
    : CapabilityRegistry :=
  {| providers := providers r; provider_names := provider_names r; enabled := enabled r;
     seeded := seeded r; results := rs; snapshot := s; has_reloaded := has_reloaded r;
     disposed := disposed r |}.

Definition set_reloaded (r : CapabilityRegistry) : CapabilityRegistry :=
  {| providers := providers r; provider_names := provider_names r; enabled := enabled r;
     seeded := seeded r; results := results r; snapshot := snapshot r; has_reloaded := true;
     disposed := disposed r |}.

Notation M := (st CapabilityRegistry registry_exn).

(** [src: travis/coding_agent/capabilities/registry.py:283-287 CapabilityRegistry._find_provider] *)
Definition _find_provider (name : string) : M CapabilityProvider :=
  r ← st_get;
  match List.find (λ p, bool_decide (cp_name p = name)) (providers r) with
  | Some p => mret p
  | None => mthrow (RegistryValueError ("unknown capability provider " ++ quoted name))
  end.

(** [src: travis/coding_agent/capabilities/registry.py:168-182 CapabilityRegistry.register] (the
    guard on the type of the priority is its type here) *)
Definition register (p : CapabilityProvider) : M unit :=
  st_require (negb (forallb is_strip_char (chars (cp_name p))))
    (RegistryValueError "capability provider name must be a non-empty string");;
  r ← st_get;
  st_require (negb (has_reloaded r))
    (RegistryValueError "providers cannot be registered after the first reload");;
  st_require (negb (bool_decide (cp_name p ∈ provider_names r)))
    (RegistryValueError ("capability provider " ++ quoted (cp_name p) ++ " is already registered"));;
  st_put {| providers := providers r ++ [p]; provider_names := cp_name p :: provider_names r;
            enabled := od_set (cp_name p) true (enabled r); seeded := seeded r;
            results := results r; snapshot := snapshot r; has_reloaded := has_reloaded r;
            disposed := disposed r |}.

(** [enumerate] *)
Fixpoint enumerate_from {A} (i : Z) (l : list A) : list (Z * A) :=
  match l with
  | [] => []
  | x :: l' => (i, x) :: enumerate_from (i + 1) l'
  end.

(** [src: travis/coding_agent/capabilities/registry.py:195-199 the seeded items]
    ([self._enabled[item.name]] is defined for every registered provider) *)
Definition seeded_items (r : CapabilityRegistry) : list loaded_item :=
  flat_map (λ op : Z * CapabilityProvider,
    match od_get (cp_name op.2) (seeded r), od_get (cp_name op.2) (enabled r) with
    | Some res, Some true => [{| lo_order := op.1; lo_provider := op.2; lo_result := res |}]
    | _, _ => []
    end) (enumerate_from 0 (providers r)).

(** [src: travis/coding_agent/capabilities/registry.py:184-201 CapabilityRegistry.seed] *)
Definition seed (name : string) (result : nat) : M unit :=
  r ← st_get;
  st_require (negb (has_reloaded r))
    (RegistryValueError "capabilities cannot be seeded after the first reload");;
  _ ← _find_provider name;
  st_require (negb (bool_decide (is_Some (od_get name (seeded r)))))
    (RegistryValueError ("capability provider " ++ quoted name ++ " was already seeded"));;
  let r' := {| providers := providers r; provider_names := provider_names r; enabled := enabled r;
               seeded := od_set name result (seeded r); results := od_set name result (results r);
               snapshot := snapshot r; has_reloaded := has_reloaded r; disposed := disposed r |} in
  st_put (set_results (results r') (_build_snapshot 0 (seeded_items r')) r').

(** [src: travis/coding_agent/capabilities/registry.py:203-206 CapabilityRegistry.set_enabled] *)
Definition set_enabled (name : string) (b : bool) : M unit :=
  _ ← _find_provider name;
  st_modify (λ r, {| providers := providers r; provider_names := provider_names r;
                     enabled := od_set name b (enabled r); seeded := seeded r;
                     results := results r; snapshot := snapshot r;
                     has_reloaded := has_reloaded r; disposed := disposed r |}).

(** The outcome of the loading loop: every enabled provider was loaded, or
    one of them raised; with the results obtained until then. *)
Inductive loading : Type :=
  | Loaded (items : list loaded_item) (obtained : list (string * nat))
  | LoadFailed (provider : CapabilityProvider) (error : string) (obtained : list (string * nat)).

(** [src: travis/coding_agent/capabilities/registry.py:221-242 the loading loop of reload]
    ([self._enabled[provider.name]] is defined for every registered provider) *)
Fixpoint load_providers (load : CapabilityProvider → result string nat)
    (en : list (string * bool)) (ps : list (Z * CapabilityProvider))
    (items : list loaded_item) (obtained : list (string * nat)) : loading :=
  match ps with
  | [] => Loaded items obtained
  | (order, p) :: ps' =>
      match od_get (cp_name p) en with
      | Some true =>
          match load p with
          | Err error => LoadFailed p error obtained
          | Ok res =>
              load_providers load en ps'
                (items ++ [{| lo_order := order; lo_provider := p; lo_result := res |}])
                (od_set (cp_name p) res obtained)
          end
      | _ => load_providers load en ps' items obtained
      end
  end.

(** [src: travis/coding_agent/capabilities/registry.py:232-241 the error of a failed load] *)
Definition load_error (p : CapabilityProvider) (error : string) : registry_exn :=
  let message := ("capability provider " ++ quoted (cp_name p) ++ " failed: " ++ error)%string in
  CapabilityReloadError message
    {| cd_severity := "error"; cd_provider := cp_name p; cd_code := "provider_load_failed";
       cd_message := message; cd_source := None |}.

(** [src: travis/coding_agent/capabilities/registry.py:261-270 the error of a failed commit] *)
Definition commit_error (error : string) : registry_exn :=
  let message := ("capability snapshot commit failed: " ++ error)%string in
  CapabilityReloadError message
    {| cd_severity := "error"; cd_provider := "registry"; cd_code := "snapshot_commit_failed";
       cd_message := message; cd_source := None |}.

(** [src: travis/coding_agent/capabilities/registry.py:213-273 CapabilityRegistry.reload]
    [load p] is what [p.load(context)] returns or raises in this call, [on_commit] the callback,
    whose exception is [Some error]. *)
Definition reload (context : CapabilityLoadContext) (load : CapabilityProvider → result string nat)
    (on_commit : CapabilitySnapshot → option string) : M CapabilitySnapshot :=
  st_modify set_reloaded;;
  r ← st_get;
  match load_providers load (enabled r) (enumerate_from 0 (providers r)) [] [] with
  | LoadFailed p error obtained =>
      st_modify (_dispose_results obtained (results r));;
      mthrow (load_error p error)
  | Loaded items obtained =>
      let candidate := _build_snapshot (lc_generation context) items in
      let old_snapshot := snapshot r in
      let old_results := results r in
      st_modify (set_results obtained candidate);;
      match on_commit candidate with
      | Some error =>
          st_modify (set_results old_results old_snapshot);;
          st_modify (_dispose_results obtained old_results);;
          mthrow (commit_error error)
      | None =>
          st_modify (_dispose_results old_results obtained);;
          mret candidate
      end
  end.

(** [src: travis/coding_agent/capabilities/registry.py:275-281 CapabilityRegistry.close] *)
Definition close : M unit :=
  r ← st_get;
  st_modify (set_results [] (_empty_snapshot (generation (snapshot r))));;
  st_modify (_dispose_results (results r) []).

(** ** Histories *)
Inductive registry_call : Type :=
  | CallRegister (p : CapabilityProvider)
  | CallSeed (name : string) (result : nat)
  | CallEnable (name : string) (b : bool)
  | CallReload (context : CapabilityLoadContext) (load : CapabilityProvider → result string nat)
      (on_commit : CapabilitySnapshot → option string)
  | CallClose.

Definition run_registry_call (c : registry_call) (r : CapabilityRegistry) : CapabilityRegistry :=
  match c with
  | CallRegister p => (register p r).2
  | CallSeed name res => (seed name res r).2
  | CallEnable name b => (set_enabled name b r).2
  | CallReload context load on_commit => (reload context load on_commit r).2
  | CallClose => (close r).2
  end.

(** The results a call hands over to the registry. *)
Definition loading_results (l : loading) : list nat :=
  match l with Loaded _ o => o.*2 | LoadFailed _ _ o => o.*2 end.

Definition obtained_by (c : registry_call) (r : CapabilityRegistry) : list nat :=
  match c with
  | CallSeed name res => if is_ok (seed name res r).1 then [res] else []
  | CallReload _ load _ =>
      loading_results (load_providers load (enabled r) (enumerate_from 0 (providers r)) [] [])
  | _ => []
  end.
End registry.
Arguments CapabilityRecord V : clear implicits.
Arguments CapabilityProviderResult V : clear implicits.
Arguments CapabilitySnapshot V : clear implicits.
Arguments CapabilityResolution V : clear implicits.
Arguments CapabilityRegistry V : clear implicits.
Arguments CapabilityLoadContext V : clear implicits.
Arguments registry_call V : clear implicits.
