(* ===== verification/CapabilitySpec.v ===== *)
(** The registry of capabilities, correct.

    A snapshot resolves an identity to the ranking of everything the loaded
    providers offer for it: the ranking is declared (a sorted permutation of
    the offers, for a lexicographic order), the code's two nested sorts and
    its insertion-ordered dicts compute it.  A reload either commits a
    snapshot built from every enabled provider or leaves the registry as it
    was; and over every history each result is disposed at most once, never
    while it is in use, and not forgotten. *)

From S2P Require Import Prelude PyDict Capability.
Open Scope Z_scope.
Local Notation identity := (CapabilityKind * string)%type.

(** ** Sorted lists *)
Section sorted_lists.
Context {A B : Type}.

Lemma filter_sorted (R : A → A → Prop) f l :
  StronglySorted R l → StronglySorted R (List.filter f l).
Proof.
  induction 1 as [|x l Hl IH Hx]; cbn; [constructor|]. destruct (f x); [|done].
  constructor; [done|]. rewrite Forall_forall in Hx |- *. intros y Hy. apply Hx.
  apply list_elem_of_In in Hy. apply filter_In in Hy as [Hy _]. by apply list_elem_of_In.
Qed.

Lemma map_sorted (R : A → A → Prop) (Q : B → B → Prop) (f : A → B) l :
  (∀ x y, R x y → Q (f x) (f y)) → StronglySorted R l → StronglySorted Q (map f l).
Proof.
  intros Hf. induction 1 as [|x l Hl IH Hx]; cbn; constructor; [done|].
  apply Forall_map. eapply Forall_impl; [exact Hx|]. eauto.
Qed.

Lemma flat_map_sorted (R : A → A → Prop) (Q : B → B → Prop) (f : A → list B) l :
  StronglySorted R l → (∀ x, x ∈ l → StronglySorted Q (f x)) →
  (∀ x y a b, R x y → a ∈ f x → b ∈ f y → Q a b) → StronglySorted Q (flat_map f l).
Proof.
  induction 1 as [|x l Hl IH Hx]; cbn; intros Hf Hq; [constructor|].
  apply StronglySorted_app. split_and!.
  - intros a b Ha Hb. apply list_elem_of_In, in_flat_map in Hb as (y & Hy & Hb).
    apply list_elem_of_In in Hy, Hb. rewrite Forall_forall in Hx. eauto.
  - apply Hf. set_solver.
  - apply IH; [|done]. intros y Hy. apply Hf. set_solver.
Qed.

Lemma flat_map_perm (f g : A → list B) l l' :
  l ≡ₚ l' → (∀ x, f x ≡ₚ g x) → flat_map f l ≡ₚ flat_map g l'.
Proof.
  intros Hl Hf. rewrite Hl. clear l Hl. induction l' as [|x l IH]; cbn; [done|]. by rewrite Hf, IH.
Qed.

Lemma py_sorted_map (leb : B → B → bool) (f : A → B) l :
  py_sorted leb (map f l) = map f (py_sorted (λ x y, leb (f x) (f y)) l).
Proof.
  induction l as [|x l IH]; cbn; [done|]. rewrite IH. generalize (py_sorted (λ x y, leb (f x) (f y)) l).
  intros m. induction m as [|y m IHm]; cbn; [done|]. destruct (leb (f x) (f y)); cbn; [done|].
  by rewrite IHm.
Qed.

(** Two orders that agree on every element and the later ones sort alike. *)
Lemma py_sorted_agree (leb leb' : A → A → bool) l :
  StronglySorted (λ x y, leb x y = leb' x y) l → py_sorted leb l = py_sorted leb' l.
Proof.
  induction 1 as [|x l Hl IH Hx]; cbn; [done|]. rewrite IH.
  assert (Forall (λ y, leb x y = leb' x y) (py_sorted leb' l)) as Hs
    by by rewrite py_sorted_perm.
  clear -Hs. induction Hs as [|y m Hy Hm IHm]; cbn; [done|]. rewrite Hy, IHm. done.
Qed.

Lemma filter_map (p : B → bool) (f : A → B) l :
  List.filter p (map f l) = map f (List.filter (λ x, p (f x)) l).
Proof. induction l as [|x l IH]; cbn; [done|]. rewrite IH. by destruct (p (f x)). Qed.

Lemma filter_perm (p : A → bool) l l' : l ≡ₚ l' → List.filter p l ≡ₚ List.filter p l'.
Proof.
  induction 1 as [|x l l' _ IH|x y l|l l1 l2 _ IH1 _ IH2]; cbn; [done| | |by rewrite IH1].
  - destruct (p x); by rewrite IH.
  - destruct (p x), (p y); try done. apply perm_swap.
Qed.

Lemma flat_map_map {C} (f : B → list C) (g : A → B) l :
  flat_map f (map g l) = flat_map (λ x, f (g x)) l.
Proof. induction l as [|x l IH]; cbn; [done|]. by rewrite IH. Qed.

Lemma map_flat_map {C} (f : B → C) (g : A → list B) l :
  map f (flat_map g l) = flat_map (λ x, map f (g x)) l.
Proof. induction l as [|x l IH]; cbn; [done|]. by rewrite map_app, IH. Qed.

End sorted_lists.

Lemma enumerate_snd {A} i (l : list A) : map snd (enumerate_from i l) = l.
Proof. revert i; induction l as [|x l IH]; intros i; cbn; [done|]. by rewrite IH. Qed.

Lemma enumerate_sorted {A} i (l : list A) :
  StronglySorted (λ a b, a.1 < b.1) (enumerate_from i l) ∧ Forall (λ a, i <= a.1) (enumerate_from i l).
Proof.
  revert i; induction l as [|x l IH]; intros i; cbn; [split; constructor|].
  destruct (IH (i + 1)) as [Hs Hf]. split; constructor; cbn; try done; try lia.
  - eapply Forall_impl; [exact Hf|]. cbn. lia.
  - eapply Forall_impl; [exact Hf|]. cbn. lia.
Qed.

(** ** The declared ranking *)
Section ranking.
Context {V : Type} (heap : nat → CapabilityProviderResult V).

(** An offer: a loaded provider, and a record of its result with its place. *)
Definition placed_offer : Type := loaded_item * (Z * CapabilityRecord V).

Definition offered (o : placed_offer) : CapabilityRecord V := o.2.2.

(** Everything enabled that the loaded providers offer under an identity. *)
Definition offers (loaded : list loaded_item) (i : identity) : list placed_offer :=
  flat_map (λ it, map (pair it)
    (List.filter (λ r : Z * CapabilityRecord V,
        cr_enabled r.2 && bool_decide ((cr_kind r.2, cr_key r.2) = i))
      (enumerate_from 0 (pr_records (heap (lo_result it)))))) loaded.

(** Which of two providers comes first, which of two records of one result. *)
Definition item_before (a b : loaded_item) : Prop :=
  cp_priority (lo_provider b) < cp_priority (lo_provider a) ∨
  cp_priority (lo_provider b) = cp_priority (lo_provider a) ∧ lo_order a < lo_order b.

Definition record_before (a b : Z * CapabilityRecord V) : Prop :=
  cr_priority b.2 < cr_priority a.2 ∨ cr_priority b.2 = cr_priority a.2 ∧ a.1 < b.1.

Definition before (a b : placed_offer) : Prop :=
  item_before a.1 b.1 ∨ a.1 = b.1 ∧ record_before a.2 b.2.

(** *** The sorts of the code against the order *)
Lemma item_leb_before a b : item_leb a b = true → lo_order a ≠ lo_order b → item_before a b.
Proof.
  unfold item_leb, item_before. intros H Hne.
  apply orb_true_iff in H as [H|H]; [|apply andb_true_iff in H as [H1 H2]]; bool_prop; [left; lia|].
  apply Z.ltb_lt in H || idtac. lia.
Qed.

Lemma item_leb_total a b : item_leb a b = true ∨ item_leb b a = true.
Proof.
  unfold item_leb.
  destruct (Z.ltb_spec (- cp_priority (lo_provider a)) (- cp_priority (lo_provider b))); [by left|].
  destruct (Z.ltb_spec (- cp_priority (lo_provider b)) (- cp_priority (lo_provider a))); [by right|].
  rewrite !(proj2 (Z.eqb_eq _ _)) by lia. cbn. rewrite !Z.leb_le. lia.
Qed.

Lemma item_leb_trans a b c : item_leb a b = true → item_leb b c = true → item_leb a c = true.
Proof.
  unfold item_leb. rewrite !orb_true_iff, !andb_true_iff, !Z.ltb_lt, !Z.eqb_eq, !Z.leb_le. lia.
Qed.

Lemma strictly_sorted loaded :
  NoDup (map lo_order loaded) → StronglySorted item_before (py_sorted item_leb loaded).
Proof.
  intros Hnd. rewrite <- (py_sorted_perm item_leb) in Hnd.
  pose proof (py_sorted_sorted item_leb item_leb_total item_leb_trans loaded) as Hs.
  induction Hs as [|x l Hl IH Hx]; [constructor|]. cbn in Hnd. apply NoDup_cons in Hnd as [Hx' Hnd].
  constructor; [auto|]. rewrite Forall_forall in Hx |- *. intros y Hy.
  apply item_leb_before; [auto|]. intros Heq. apply Hx'. rewrite Heq. by apply (list_elem_of_fmap_2 lo_order).
Qed.

Definition placed_leb (a b : Z * CapabilityRecord V) : bool :=
  (- cr_priority a.2 <? - cr_priority b.2) ||
  ((- cr_priority a.2 =? - cr_priority b.2) && (a.1 <=? b.1)).

Lemma placed_leb_total a b : placed_leb a b = true ∨ placed_leb b a = true.
Proof.
  unfold placed_leb.
  destruct (Z.ltb_spec (- cr_priority a.2) (- cr_priority b.2)); [by left|].
  destruct (Z.ltb_spec (- cr_priority b.2) (- cr_priority a.2)); [by right|].
  rewrite !(proj2 (Z.eqb_eq _ _)) by lia. cbn. rewrite !Z.leb_le. lia.
Qed.

Lemma placed_leb_trans a b c :
  placed_leb a b = true → placed_leb b c = true → placed_leb a c = true.
Proof.
  unfold placed_leb. rewrite !orb_true_iff, !andb_true_iff, !Z.ltb_lt, !Z.eqb_eq, !Z.leb_le. lia.
Qed.

Definition placed_records (res : nat) : list (Z * CapabilityRecord V) :=
  List.filter (λ r, cr_enabled r.2) (enumerate_from 0 (pr_records (heap res))).

Lemma placed_sorted res : StronglySorted (λ a b, a.1 < b.1) (placed_records res).
Proof. apply filter_sorted, enumerate_sorted. Qed.

Lemma ranked_placed res : ranked_records heap res = map snd (py_sorted placed_leb (placed_records res)).
Proof.
  unfold ranked_records. rewrite <- (enumerate_snd 0 (pr_records (heap res))) at 1.
  rewrite filter_map, py_sorted_map. fold (placed_records res). f_equal. apply py_sorted_agree.
  rewrite <- (map_id (placed_records res)).
  eapply (map_sorted (λ a b, a.1 < b.1)); [|apply placed_sorted]. intros a b Hab. cbn.
  unfold record_leb, placed_leb. cbn in Hab. destruct (Z.leb_spec a.1 b.1); [|lia].
  destruct (Z.leb_spec (- cr_priority a.2) (- cr_priority b.2)),
    (Z.ltb_spec (- cr_priority a.2) (- cr_priority b.2)),
    (Z.eqb_spec (- cr_priority a.2) (- cr_priority b.2)); cbn; try done; lia.
Qed.

Lemma placed_strict res : StronglySorted record_before (py_sorted placed_leb (placed_records res)).
Proof.
  pose proof (py_sorted_sorted placed_leb placed_leb_total placed_leb_trans (placed_records res)) as Hs.
  assert (NoDup (py_sorted placed_leb (placed_records res)).*1) as Hnd.
  { rewrite (py_sorted_perm placed_leb). pose proof (placed_sorted res) as Hp.
    clear Hs. induction Hp as [|x l Hl IH Hx]; cbn; [constructor|]. constructor; [|done].
    intros (y & Hy & Hin)%list_elem_of_fmap. rewrite Forall_forall in Hx. specialize (Hx _ Hin). lia. }
  induction Hs as [|x l Hl IH Hx]; [constructor|]. cbn in Hnd. apply NoDup_cons in Hnd as [Hn Hnd].
  constructor; [auto|]. rewrite Forall_forall in Hx |- *. intros y Hy. specialize (Hx y Hy).
  assert (x.1 ≠ y.1) as Hne.
  { intros He. apply Hn. rewrite He. by apply list_elem_of_fmap_2. }
  unfold placed_leb in Hx. unfold record_before.
  rewrite orb_true_iff, andb_true_iff, Z.ltb_lt, Z.eqb_eq, Z.leb_le in Hx. lia.
Qed.

(** The ranking as the code computes it, with the places kept. *)
Definition ranking (loaded : list loaded_item) (i : identity) : list placed_offer :=
  flat_map (λ it, map (pair it)
    (List.filter (λ r : Z * CapabilityRecord V, bool_decide ((cr_kind r.2, cr_key r.2) = i))
      (py_sorted placed_leb (placed_records (lo_result it))))) (py_sorted item_leb loaded).

Lemma ranking_perm loaded i : ranking loaded i ≡ₚ offers loaded i.
Proof.
  unfold ranking, offers. apply flat_map_perm; [apply py_sorted_perm|]. intros it. apply Permutation_map.
  rewrite (filter_perm _ _ _ (py_sorted_perm placed_leb _)). unfold placed_records.
  induction (enumerate_from 0 _) as [|x l IH]; cbn; [done|].
  destruct (cr_enabled x.2); cbn; [|done]. destruct (bool_decide _); by rewrite IH.
Qed.

Lemma ranking_sorted loaded i :
  NoDup (map lo_order loaded) → StronglySorted before (ranking loaded i).
Proof.
  intros Hnd. eapply flat_map_sorted; [by apply strictly_sorted| |].
  - intros it _. eapply map_sorted; [|apply filter_sorted, placed_strict]. intros a b Hab. right. done.
  - intros x y a b Hxy Ha Hb. apply list_elem_of_fmap in Ha as (a' & -> & _), Hb as (b' & -> & _).
    by left.
Qed.

Lemma ranking_records loaded i :
  map offered (ranking loaded i) =
    flat_map (λ it, List.filter (λ r, bool_decide ((cr_kind r, cr_key r) = i))
                      (ranked_records heap (lo_result it))) (py_sorted item_leb loaded).
Proof.
  unfold ranking. rewrite map_flat_map. apply flat_map_ext. intros it.
  rewrite map_map. cbn. by rewrite ranked_placed, filter_map.
Qed.

(** *** The first loop *)
Lemma add_candidates_get rs c i :
  default [] (od_get i (fold_left add_candidate rs c)) =
    default [] (od_get i c) ++
      List.filter (λ r : CapabilityRecord V, bool_decide ((cr_kind r, cr_key r) = i)) rs.
Proof.
  revert c; induction rs as [|r rs IH]; intros c; cbn; [by rewrite app_nil_r|].
  rewrite IH. unfold add_candidate. rewrite od_get_push, <- (assoc_L (++)). f_equal.
  case_decide; case_bool_decide; done.
Qed.

(** The dict of candidates: distinct keys, no empty list. *)
Definition candidates_ok (c : list (identity * list (CapabilityRecord V))) : Prop :=
  NoDup c.*1 ∧ Forall (λ l, l ≠ []) c.*2.

Lemma od_push_ok k r c : candidates_ok c → candidates_ok (od_push k r c).
Proof.
  intros [Hk Hv]. split; [by apply od_set_nodup|]. rewrite Forall_forall in Hv |- *.
  intros l [->|Hl]%od_set_values; [|auto]. by destruct (default [] (od_get k c)).
Qed.

Lemma add_candidates_ok rs c : candidates_ok c → candidates_ok (fold_left add_candidate rs c).
Proof.
  revert c; induction rs as [|r rs IH]; intros c Hc; cbn; [done|]. by apply IH, od_push_ok.
Qed.

Definition gathered (items : list loaded_item) : gathering :=
  fold_left (gather_item heap) items {| ga_diagnostics := []; ga_candidates := []; ga_states := [] |}.

Lemma gather_snoc items it : gathered (items ++ [it]) = gather_item heap (gathered items) it.
Proof. unfold gathered. by rewrite fold_left_app. Qed.

Lemma gathered_get items i :
  default [] (od_get i (ga_candidates (gathered items))) =
    flat_map (λ it, List.filter (λ r, bool_decide ((cr_kind r, cr_key r) = i))
                      (ranked_records heap (lo_result it))) items.
Proof.
  induction items as [|it items IH] using rev_ind; [done|].
  rewrite gather_snoc, flat_map_app. cbn. rewrite add_candidates_get, IH. by rewrite app_nil_r.
Qed.

Lemma gathered_ok items : candidates_ok (ga_candidates (gathered items)).
Proof.
  induction items as [|it items IH] using rev_ind; [split; constructor|].
  rewrite gather_snoc. by apply add_candidates_ok.
Qed.

Lemma gathered_diagnostics items :
  ga_diagnostics (gathered items) = flat_map (λ it, pr_diagnostics (heap (lo_result it))) items.
Proof.
  induction items as [|it items IH] using rev_ind; [done|].
  rewrite gather_snoc, flat_map_app. cbn. by rewrite IH, app_nil_r.
Qed.

Lemma gathered_states items name :
  NoDup (map (λ it, cp_name (lo_provider it)) items) →
  (∀ it, it ∈ items → cp_name (lo_provider it) = name →
     od_get name (ga_states (gathered items)) = pr_state (heap (lo_result it))) ∧
  ((∀ it, it ∈ items → cp_name (lo_provider it) ≠ name) → od_get name (ga_states (gathered items)) = None).
Proof.
  induction items as [|it items IH] using rev_ind; [split; [set_solver|done]|].
  rewrite map_app, NoDup_app. cbn. intros (Hnd & Hdis & _). destruct (IH Hnd) as [IH1 IH2].
  rewrite gather_snoc. cbn. split.
  - intros it' [Hin| ->%list_elem_of_singleton]%elem_of_app Hname.
    + assert (cp_name (lo_provider it) ≠ name) as Hne.
      { intros He. eapply (Hdis name); [|by rewrite He; left].
        rewrite <- Hname. by apply (list_elem_of_fmap_2 (λ it, cp_name (lo_provider it))). }
      destruct (pr_state _); [rewrite od_get_set, decide_False by done|]; eauto.
    + assert (od_get name (ga_states (gathered items)) = None) as Hnone.
      { apply IH2. intros it1 Hin He. eapply (Hdis name); [|by rewrite Hname; left].
        rewrite <- He. by apply (list_elem_of_fmap_2 (λ it, cp_name (lo_provider it))). }
      destruct (pr_state _); [by rewrite od_get_set, decide_True|done].
  - intros Hno. assert (cp_name (lo_provider it) ≠ name) by (apply Hno; set_solver).
    destruct (pr_state _); [rewrite od_get_set, decide_False by done|];
      apply IH2; intros it' Hin; apply Hno; set_solver.
Qed.

(** *** The second loop *)
Definition resolved (c : list (identity * list (CapabilityRecord V))) (ds : list CapabilityDiagnostic)
    : resolving :=
  fold_left resolve_item c {| re_diagnostics := ds; re_by_kind := []; re_resolutions := [] |}.

Lemma resolved_snoc c x ds : resolved (c ++ [x]) ds = resolve_item (resolved c ds) x.
Proof. unfold resolved. by rewrite fold_left_app. Qed.

Definition resolution_of (l : list (CapabilityRecord V)) : CapabilityResolution V :=
  {| winner := head l; candidates := l |}.

Lemma candidates_ok_snoc c x : candidates_ok (c ++ [x]) → candidates_ok c ∧ x.1 ∉ c.*1 ∧ x.2 ≠ [].
Proof.
  intros [Hk Hv]. rewrite fmap_app in Hk. rewrite fmap_app in Hv.
  apply NoDup_app in Hk as (Hk & Hx & _). apply Forall_app in Hv as [Hv Hxv].
  apply Forall_inv in Hxv. split_and!; [by split|intros Hin; eapply Hx; [exact Hin|by left]|done].
Qed.

Lemma resolved_get c ds i :
  candidates_ok c → od_get i (re_resolutions (resolved c ds)) = resolution_of <$> od_get i c.
Proof.
  induction c as [|x c IH] using rev_ind; intros Hc; [done|].
  apply candidates_ok_snoc in Hc as (Hc & Hn & Hxv). rewrite resolved_snoc, od_get_snoc by done.
  unfold resolve_item. destruct x as [k [|w l]]; cbn; [done|].
  rewrite od_get_set, IH by done. by destruct (decide (k = i)).
Qed.

Lemma resolved_records c ds kind r :
  candidates_ok c →
  r ∈ default [] (od_get kind (re_by_kind (resolved c ds))) ↔
    ∃ key l, od_get (kind, key) c = Some (r :: l).
Proof.
  induction c as [|x c IH] using rev_ind; intros Hc.
  { cbn. split; [set_solver|]. by intros (? & ? & ?). }
  apply candidates_ok_snoc in Hc as (Hc & Hn & Hxv). rewrite resolved_snoc.
  setoid_rewrite (od_get_snoc _ x c Hn). unfold resolve_item. destruct x as [[k key] [|w l]]; cbn; [done|].
  rewrite od_get_push, elem_of_app, IH by done. cbn in Hn. split.
  - intros [(key' & l' & Hg)|Hw].
    + exists key', l'. rewrite decide_False; [done|]. intros [= -> ->]. apply Hn.
      apply od_get_in in Hg; [|apply Hc]. by apply (list_elem_of_fmap_2 fst) in Hg.
    + destruct (decide (k = kind)) as [->|]; [|set_solver].
      apply list_elem_of_singleton in Hw as ->. exists key, l. by rewrite decide_True.
  - intros (key' & l' & Hg). case_decide as Hd.
    + injection Hd as -> ->. injection Hg as -> ->. right. rewrite decide_True by done. by left.
    + left. by exists key', l'.
Qed.

Lemma resolved_diagnostics c ds d :
  candidates_ok c →
  d ∈ re_diagnostics (resolved c ds) ↔
    d ∈ ds ∨ ∃ i l r, od_get i c = Some l ∧ r ∈ tail l ∧ d = collision i r.
Proof.
  induction c as [|x c IH] using rev_ind; intros Hc.
  { cbn. split; [by left|]. intros [|(? & ? & ? & ? & _)]; done. }
  apply candidates_ok_snoc in Hc as (Hc & Hn & Hxv). rewrite resolved_snoc.
  setoid_rewrite (od_get_snoc _ x c Hn). unfold resolve_item. destruct x as [k [|w l]]; cbn; [done|].
  rewrite elem_of_app, IH by done. cbn in Hn. split.
  - intros [[Hd|(i & l' & r & Hg & Hr & ->)]|(r & -> & Hr)%list_elem_of_fmap]; [by left| |].
    + right. exists i, l', r. rewrite decide_False; [done|]. intros ->. apply Hn.
      apply od_get_in in Hg; [|apply Hc]. by apply (list_elem_of_fmap_2 fst) in Hg.
    + right. exists k, (w :: l), r. by rewrite decide_True.
  - intros [Hd|(i & l' & r & Hg & Hr & ->)]; [by left; left|]. case_decide as Hd.
    + subst i. injection Hg as <-. right. cbn in Hr. by apply list_elem_of_fmap_2.
    + left. right. by exists i, l', r.
Qed.

(** *** The snapshot *)
Lemma build_snapshot_candidates g loaded i :
  candidates (resolve (_build_snapshot heap g loaded) i.1 i.2) = map offered (ranking loaded i) ∧
  winner (resolve (_build_snapshot heap g loaded) i.1 i.2) = head (map offered (ranking loaded i)).
Proof.
  destruct i as [kind key]. unfold resolve, _build_snapshot. cbn [resolutions fst snd].
  change (od_get (kind, key) _) with
    (od_get (kind, key) (re_resolutions (resolved (ga_candidates (gathered (py_sorted item_leb loaded)))
      (ga_diagnostics (gathered (py_sorted item_leb loaded)))))).
  rewrite resolved_get by apply gathered_ok.
  rewrite ranking_records, <- gathered_get. by destruct (od_get _ _).
Qed.
End ranking.

(** ** Loading and disposing *)
Section loading.
Context {V : Type} (heap : nat → CapabilityProviderResult V).

(** The providers a reload loads, in order. *)
Definition to_load (r : CapabilityRegistry V) : list (Z * CapabilityProvider) :=
  List.filter (λ op : Z * CapabilityProvider, bool_decide (od_get (cp_name op.2) (enabled r) = Some true))
    (enumerate_from 0 (providers r)).

(** [item] is what loading the numbered provider [op] gave. *)
Definition loads (load : CapabilityProvider → result string nat) (op : Z * CapabilityProvider)
    (it : loaded_item) : Prop :=
  lo_order it = op.1 ∧ lo_provider it = op.2 ∧ load op.2 = Ok (lo_result it).

Definition result_entry (it : loaded_item) : string * nat := (cp_name (lo_provider it), lo_result it).

(** The providers of a registry have distinct names. *)
Definition registry_wf (r : CapabilityRegistry V) : Prop :=
  NoDup (map cp_name (providers r)) ∧ (∀ p, p ∈ providers r → cp_name p ∈ provider_names r).

Definition names_of (ops : list (Z * CapabilityProvider)) : list string := map (λ op, cp_name op.2) ops.

Lemma loads_names load ops its : Forall2 (loads load) ops its → (map result_entry its).*1 = names_of ops.
Proof.
  induction 1 as [|op it ops its (_ & Hp & _) _ IH]; cbn; [done|]. by rewrite Hp, IH.
Qed.

Lemma load_providers_spec load en ops items :
  NoDup (map (λ it, cp_name (lo_provider it)) items ++ names_of ops) →
  let todo := List.filter (λ op : Z * CapabilityProvider,
                bool_decide (od_get (cp_name op.2) en = Some true)) ops in
  match load_providers load en ops items (map result_entry items) with
  | Loaded its obtained =>
      ∃ new, its = items ++ new ∧ Forall2 (loads load) todo new ∧ obtained = map result_entry its
  | LoadFailed p error obtained =>
      ∃ pre o rest new, todo = pre ++ (o, p) :: rest ∧ Forall2 (loads load) pre new ∧
        load p = Err error ∧ obtained = map result_entry (items ++ new)
  end.
Proof.
  revert items; induction ops as [|[o p] ops IH]; intros items Hnd; cbn.
  { exists []. rewrite app_nil_r. by repeat constructor. }
  cbn in Hnd.
  assert (NoDup (map (λ it, cp_name (lo_provider it)) items ++ names_of ops)) as Hnd'.
  { rewrite NoDup_app in Hnd |- *. rewrite NoDup_cons in Hnd.
    destruct Hnd as (H1 & H2 & _ & H3). split_and!; [done| |done]. intros x Hx Hy. apply (H2 x Hx). by right. }
  destruct (od_get (cp_name p) en) as [[|]|] eqn:He; cbn.
  - rewrite bool_decide_true by done. destruct (load p) as [res|error] eqn:Hl.
    + assert (od_set (cp_name p) res (map result_entry items) =
        map result_entry (items ++ [{| lo_order := o; lo_provider := p; lo_result := res |}])) as Hset.
      { rewrite od_set_fresh, map_app; [done|]. intros (x & Hx & Hin)%list_elem_of_fmap.
        apply list_elem_of_fmap in Hin as (it & -> & Hin). cbn in Hx.
        apply NoDup_app in Hnd as (_ & Hdis & _). eapply (Hdis (cp_name p)); [|by left].
        rewrite Hx. by apply (list_elem_of_fmap_2 (λ it, cp_name (lo_provider it))). }
      rewrite Hset. specialize (IH (items ++ [{| lo_order := o; lo_provider := p; lo_result := res |}])).
      rewrite map_app, <- (assoc_L (++)) in IH. specialize (IH Hnd).
      destruct (load_providers _ _ _ _ _) as [its obtained|q error obtained].
      * destruct IH as (new & -> & Hnew & Hob). eexists (_ :: new). rewrite <- (assoc_L (++)).
        split_and!; [done| |by rewrite <- (assoc_L (++)) in Hob]. constructor; [by split_and!|done].
      * destruct IH as (pre & o' & rest & new & Htodo & Hnew & Herr & Hob).
        exists ((o, p) :: pre), o', rest, ({| lo_order := o; lo_provider := p; lo_result := res |} :: new).
        cbn. rewrite Htodo, <- (assoc_L (++)) in *. split_and!; try done. constructor; [by split_and!|done].
    + exists [], o, (List.filter (λ op : Z * CapabilityProvider,
        bool_decide (od_get (cp_name op.2) en = Some true)) ops), []. rewrite app_nil_r.
      by repeat constructor.
  - rewrite bool_decide_false by congruence. by apply IH.
  - rewrite bool_decide_false by congruence. by apply IH.
Qed.

Lemma enumerate_names i ps : names_of (enumerate_from i ps) = map cp_name ps.
Proof. revert i; induction ps as [|p ps IH]; intros i; cbn; [done|]. f_equal. apply IH. Qed.

(** What a reload finds: everything enabled loaded, or the first failure. *)
Lemma reload_loads load r :
  registry_wf r →
  match load_providers load (enabled r) (enumerate_from 0 (providers r)) [] [] with
  | Loaded its obtained => Forall2 (loads load) (to_load r) its ∧ obtained = map result_entry its
  | LoadFailed p error obtained =>
      ∃ pre o rest new, to_load r = pre ++ (o, p) :: rest ∧ Forall2 (loads load) pre new ∧
        load p = Err error ∧ obtained = map result_entry new
  end.
Proof.
  intros [Hnd _]. pose proof (load_providers_spec load (enabled r) (enumerate_from 0 (providers r)) []) as H.
  cbn in H. rewrite enumerate_names in H. specialize (H Hnd). fold (to_load r) in H.
  destruct (load_providers _ _ _ _ _); [|done]. by destruct H as (new & -> & ? & ?).
Qed.

(** The disposals of one call of [_dispose_results]. *)
Lemma dispose_loop_spec retained seen rs :
  NoDup (dispose_loop heap retained seen rs) ∧
  ∀ i, i ∈ dispose_loop heap retained seen rs ↔
    i ∈ rs ∧ i ∉ seen ∧ i ∉ retained ∧ pr_dispose (heap i) = true.
Proof.
  revert seen; induction rs as [|x rs IH]; intros seen; cbn; [split; [constructor|set_solver]|].
  destruct (decide (x ∈ seen)) as [Hs|Hs].
  { destruct (IH seen) as [Hnd Hi]. split; [done|]. intros i. rewrite Hi, elem_of_cons.
    split; [tauto|]. by intros ([->|] & ? & ?). }
  destruct (decide (x ∈ retained)) as [Hr|Hr].
  { destruct (IH seen) as [Hnd Hi]. split; [done|]. intros i. rewrite Hi, elem_of_cons.
    split; [tauto|]. by intros ([->|] & ? & ? & ?). }
  destruct (IH (x :: seen)) as [Hnd Hi].
  destruct (pr_dispose (heap x)) eqn:Hd; cbn; (split; [|intros i]).
  - constructor; [|done]. rewrite Hi, elem_of_cons. tauto.
  - rewrite !elem_of_cons, Hi, elem_of_cons. destruct (decide (i = x)) as [->|]; tauto.
  - done.
  - rewrite Hi, !elem_of_cons. destruct (decide (i = x)) as [->|]; [|tauto].
    split; [tauto|]. intros (_ & _ & _ & Ht). congruence.
Qed.

Lemma dispose_results_disposed rs retained r :
  disposed (_dispose_results heap rs retained r) = disposed r ++ dispose_loop heap retained.*2 [] rs.*2.
Proof. done. Qed.
End loading.

(** ** Reloads and histories *)
Section registry_theorems.
Context {V : Type} (heap : nat → CapabilityProviderResult V).
Notation reg := (CapabilityRegistry V).

(** What every call keeps: the registered names are distinct and known. *)
Lemma find_provider_state name (r : reg) : (_find_provider name r).2 = r.
Proof. unfold _find_provider. st_eval. cbn. by destruct (List.find _ _). Qed.

(** What one call of [_dispose_results] adds to the log. *)
Definition disposals (rs kept : list nat) (ds : list nat) : Prop :=
  NoDup ds ∧ ∀ i, i ∈ ds ↔ i ∈ rs ∧ i ∉ kept ∧ pr_dispose (heap i) = true.

Lemma dispose_loop_disposals rs kept : disposals rs kept (dispose_loop heap kept [] rs).
Proof.
  destruct (dispose_loop_spec heap kept [] rs) as [Hnd Hi]. split; [done|].
  intros i. rewrite Hi. set_solver.
Qed.

(** The two outcomes of a reload, from what its loading loop found. *)
Definition reload_outcome (context : CapabilityLoadContext V) load on_commit (r : reg)
    (out : result registry_exn (CapabilitySnapshot V)) (r' : reg) : Prop :=
  match out with
  | Ok s =>
      ∃ items, Forall2 (loads load) (to_load r) items ∧
        s = _build_snapshot heap (lc_generation context) items ∧ on_commit s = None ∧
        snapshot r' = s ∧ results r' = map result_entry items ∧
        ∃ ds, disposed r' = disposed r ++ ds ∧ disposals ((results r).*2) (map lo_result items) ds
  | Err e =>
      snapshot r' = snapshot r ∧ results r' = results r ∧
      ∃ new ds, disposed r' = disposed r ++ ds ∧ disposals (map lo_result new) ((results r).*2) ds ∧
        ((∃ pre o p rest error, to_load r = pre ++ (o, p) :: rest ∧ Forall2 (loads load) pre new ∧
            load p = Err error ∧ e = load_error p error) ∨
         (∃ error, Forall2 (loads load) (to_load r) new ∧
            on_commit (_build_snapshot heap (lc_generation context) new) = Some error ∧
            e = commit_error error))
  end.

Lemma result_entries items : (map result_entry items).*2 = map lo_result items.
Proof. induction items as [|it items IH]; cbn; [done|]. by rewrite IH. Qed.

Lemma reload_wpe context load on_commit (r : reg) :
  registry_wf r →
  let out := reload heap context load on_commit r in
  reload_outcome context load on_commit r out.1 out.2 ∧
  providers out.2 = providers r ∧ provider_names out.2 = provider_names r ∧
  enabled out.2 = enabled r ∧ seeded out.2 = seeded r ∧ has_reloaded out.2 = true.
Proof.
  intros Hwf. pose proof (reload_loads load r Hwf) as Hl. unfold reload. st_eval. cbn.
  destruct (load_providers _ _ _ _ _) as [items obtained|p error obtained].
  - destruct Hl as [Hl ->]. cbn. destruct (on_commit _) as [error|] eqn:Hc; cbn.
    + split_and!; try done. exists items. eexists. split; [reflexivity|]. rewrite result_entries.
      split; [apply dispose_loop_disposals|]. right. by exists error.
    + split_and!; try done. exists items. split_and!; try done. eexists. split; [reflexivity|].
      rewrite result_entries. apply dispose_loop_disposals.
  - destruct Hl as (pre & o & rest & new & Htodo & Hnew & Hload & ->). cbn. split_and!; try done.
    exists new. eexists. split; [reflexivity|]. rewrite result_entries.
    split; [apply dispose_loop_disposals|]. left. by exists pre, o, p, rest, error.
Qed.

(** *** Histories *)
Inductive registry_reachable : reg → list nat → Prop :=
  | reach_new : registry_reachable new_registry []
  | reach_call r obt c :
      registry_reachable r obt →
      (∀ i, i ∈ obtained_by heap c r → i ∉ disposed r) →
      registry_reachable (run_registry_call heap c r) (obt ++ obtained_by heap c r).

(** Each result was disposed of at most once, and not while it is held;
    what was obtained is held, disposed of, or has nothing to dispose. *)
Definition accounted (r : reg) (obt : list nat) : Prop :=
  NoDup (disposed r) ∧
  (∀ i, i ∈ disposed r → i ∈ obt ∧ i ∉ (results r).*2 ∧ pr_dispose (heap i) = true) ∧
  (∀ i, i ∈ (results r).*2 → i ∈ obt) ∧
  (∀ i, i ∈ obt → pr_dispose (heap i) = true → i ∈ (results r).*2 ∨ i ∈ disposed r).

(** A step that disposes of [ds] and then holds [held]. *)
Lemma accounted_step r obt r' new ds old kept :
  accounted r obt → (∀ i, i ∈ new → i ∉ disposed r) →
  disposed r' = disposed r ++ ds → disposals old kept ds →
  (∀ i, i ∈ old ∨ i ∈ kept ↔ i ∈ (results r).*2 ∨ i ∈ new) →
  (∀ i, i ∈ (results r').*2 ↔ i ∈ kept) →
  accounted r' (obt ++ new).
Proof.
  intros (Hnd & Hdis & Hheld & Hall) Hnew Hd [Hds Hi] Hcover Hkept.
  unfold accounted. rewrite Hd. split_and!.
  - apply NoDup_app. split_and!; [done| |done]. intros i Hin Hin'. apply Hi in Hin' as (Hold & _ & _).
    destruct (Hdis i Hin) as (_ & Hn & _). destruct (proj1 (Hcover i) (or_introl Hold)) as [|Hn']; [done|].
    by apply (Hnew i).
  - intros i [Hin|Hin]%elem_of_app; rewrite elem_of_app, Hkept.
    + destruct (Hdis i Hin) as (Ho & Hn & Hp). split_and!; [by left| |done]. intros Hk.
      destruct (proj1 (Hcover i) (or_intror Hk)) as [|Hn']; [done|]. by apply (Hnew i).
    + apply Hi in Hin as (Hold & Hk & Hp). split_and!; [|done|done].
      destruct (proj1 (Hcover i) (or_introl Hold)) as [Hh|]; [left; auto|by right].
  - intros i. rewrite Hkept, elem_of_app. intros Hk.
    destruct (proj1 (Hcover i) (or_intror Hk)) as [Hh|]; [left; auto|by right].
  - intros i Ho Hp. rewrite Hkept, elem_of_app.
    assert (i ∈ disposed r ∨ i ∈ (results r).*2 ∨ i ∈ new) as [Hin|Hin].
    { apply elem_of_app in Ho as [Ho|Ho]; [destruct (Hall i Ho Hp); eauto|eauto]. }
    + auto.
    + destruct (proj2 (Hcover i) Hin) as [Hold|Hk]; [|by left].
      destruct (decide (i ∈ kept)); [by left|]. right. right. by apply Hi.
Qed.


(** A step that disposes of nothing. *)
Lemma accounted_quiet r obt r' new :
  accounted r obt → (∀ i, i ∈ new → i ∉ disposed r) → disposed r' = disposed r →
  (∀ i, i ∈ (results r').*2 ↔ i ∈ (results r).*2 ∨ i ∈ new) → accounted r' (obt ++ new).
Proof.
  intros Ha Hnew Hd Hk.
  apply (accounted_step r obt r' new [] [] ((results r').*2)); try done.
  - by rewrite app_nil_r.
  - split; [constructor|]. set_solver.
  - intros i. rewrite Hk. set_solver.
Qed.

Lemma accounted_reload context load on_commit r obt :
  registry_wf r → accounted r obt →
  (∀ i, i ∈ obtained_by heap (CallReload context load on_commit) r → i ∉ disposed r) →
  accounted (run_registry_call heap (CallReload context load on_commit) r)
    (obt ++ obtained_by heap (CallReload context load on_commit) r).
Proof.
  intros Hwf Ha Hnew. pose proof (reload_loads load r Hwf) as Hl. cbn in *.
  unfold reload. st_eval. cbn.
  destruct (load_providers _ _ _ _ _) as [items obtained|p error obtained]; cbn in *.
  - destruct Hl as [_ ->]. destruct (on_commit _) as [error|] eqn:Hc; cbn in *; rewrite result_entries in *.
    + eapply (accounted_step r obt); [exact Ha|exact Hnew|reflexivity|apply dispose_loop_disposals| |cbn; done]; cbn.
      intros i. rewrite ?result_entries. tauto.
    + eapply (accounted_step r obt); [exact Ha|exact Hnew|reflexivity|apply dispose_loop_disposals| |]; cbn.
      * intros i. rewrite ?result_entries. tauto.
      * intros i. by rewrite result_entries.
  - destruct Hl as (pre & o & rest & new & _ & _ & _ & ->). rewrite result_entries in *.
    eapply (accounted_step r obt); [exact Ha|exact Hnew|reflexivity|apply dispose_loop_disposals| |cbn; done]; cbn.
    intros i. rewrite ?result_entries. tauto.
Qed.

Lemma accounted_close r obt : accounted r obt → accounted (run_registry_call heap CallClose r) (obt ++ []).
Proof.
  intros Ha.
  eapply (accounted_step r obt); [exact Ha|by intros i Hi%elem_of_nil|reflexivity|apply dispose_loop_disposals| |done].
  intros i. cbn. by rewrite !elem_of_nil.
Qed.

Lemma od_set_in_values {K A} `{EqDecision K} (k : K) (v : A) d :
  od_get k d = None → ∀ w, w ∈ (od_set k v d).*2 ↔ w ∈ d.*2 ∨ w ∈ [v].
Proof.
  induction d as [|[k1 v1] d IH]; cbn; [set_solver|]. destruct (decide (k1 = k)) as [->|]; [done|].
  intros Hg w. cbn. rewrite !elem_of_cons, IH, !elem_of_cons by done. tauto.
Qed.

(** Only names that were seeded hold a result before the first reload. *)
Definition seeds_held (r : reg) : Prop :=
  has_reloaded r = false → ∀ name, od_get name (seeded r) = None → od_get name (results r) = None.

Lemma seed_cases name res (r : reg) :
  (seed heap name res r).2 = r ∧ is_ok (seed heap name res r).1 = false ∨
  is_ok (seed heap name res r).1 = true ∧ has_reloaded r = false ∧ od_get name (seeded r) = None ∧
  ∃ s, (seed heap name res r).2 =
    {| providers := providers r; provider_names := provider_names r; enabled := enabled r;
       seeded := od_set name res (seeded r); results := od_set name res (results r); snapshot := s;
       has_reloaded := false; disposed := disposed r |}.
Proof.
  unfold seed, _find_provider. st_eval. unfold require.
  destruct (has_reloaded r) eqn:Hr; cbn; [by left|]. destruct (List.find _ _); cbn; [|by left].
  case_bool_decide as Hs; cbn; [by left|]. right. split_and!; [done|done| |].
  - destruct (od_get name (seeded r)); [|done]. exfalso. apply Hs. by eexists.
  - eexists. reflexivity.
Qed.

Lemma register_cases p (r : reg) :
  (register p r).2 = r ∨
  cp_name p ∉ provider_names r ∧ (register p r).2 =
    {| providers := providers r ++ [p]; provider_names := cp_name p :: provider_names r;
       enabled := od_set (cp_name p) true (enabled r); seeded := seeded r; results := results r;
       snapshot := snapshot r; has_reloaded := has_reloaded r; disposed := disposed r |}.
Proof.
  unfold register. st_eval. unfold require.
  destruct (negb _); cbn; [|by left]. destruct (has_reloaded r); cbn; [by left|].
  case_bool_decide as Hn; cbn; [by left|]. by right.
Qed.

Lemma set_enabled_cases name b (r : reg) :
  (set_enabled name b r).2 = r ∨
  (set_enabled name b r).2 =
    {| providers := providers r; provider_names := provider_names r;
       enabled := od_set name b (enabled r); seeded := seeded r; results := results r;
       snapshot := snapshot r; has_reloaded := has_reloaded r; disposed := disposed r |}.
Proof.
  unfold set_enabled, _find_provider. st_eval. cbn. destruct (List.find _ _); cbn; [by right|by left].
Qed.

Definition registry_inv (r : reg) (obt : list nat) : Prop :=
  registry_wf r ∧ seeds_held r ∧ accounted r obt.

Lemma registry_inv_call r obt c :
  registry_inv r obt → (∀ i, i ∈ obtained_by heap c r → i ∉ disposed r) →
  registry_inv (run_registry_call heap c r) (obt ++ obtained_by heap c r).
Proof.
  intros (Hwf & Hs & Ha) Hnew. destruct c as [p|name res|name b|context load on_commit|]; cbn [run_registry_call].
  - cbn in *. destruct (register_cases p r) as [->|[Hp ->]]; [by rewrite app_nil_r|]. split_and!.
    + destruct Hwf as [Hnd Hk]. split; cbn.
      * rewrite map_app. apply NoDup_app. split_and!; [done| |by repeat constructor; set_solver].
        intros x Hx ->%list_elem_of_singleton. apply Hp. apply list_elem_of_fmap in Hx as (q & -> & Hq). auto.
      * intros q [Hq| ->%list_elem_of_singleton]%elem_of_app; [right; auto|by left].
    + done.
    + rewrite app_nil_r. done.
  - cbn in *. destruct (seed_cases name res r) as [[-> Hok]|(Hok & Hr & Hg & s & ->)]; rewrite Hok in *.
    + by rewrite app_nil_r.
    + split_and!; [done| |].
      * intros _ name'. cbn. rewrite !od_get_set. destruct (decide (name = name')); [done|]. auto.
      * eapply accounted_quiet; [done..|]. intros i. cbn. apply od_set_in_values. auto.
  - cbn in *. rewrite app_nil_r. by destruct (set_enabled_cases name b r) as [-> | ->].
  - split_and!; [| |by apply accounted_reload].
    + destruct (reload_wpe context load on_commit r Hwf) as (_ & Hp & Hn & _). unfold registry_wf. by rewrite Hp, Hn.
    + destruct (reload_wpe context load on_commit r Hwf) as (_ & _ & _ & _ & _ & Hr). intros Hf. congruence.
  - split_and!; [done| |by apply accounted_close]. intros Hr name Hn. done.
Qed.

Lemma registry_reachable_inv r obt : registry_reachable r obt → registry_inv r obt.
Proof.
  induction 1 as [|r obt c _ IH Hnew]; [|by apply registry_inv_call].
  split_and!; [split; [constructor|set_solver]|done|]. split_and!; [constructor| | |]; set_solver.
Qed.

(** the accounting of provider results over every history of register, seed, set_enabled,
    reload and close (with any loading and commit failures): when no provider hands out a result
    that was already disposed, each result is disposed of at most once, only after it was obtained
    and never while the registry holds it, and every disposable result obtained is either held or
    disposed of; after close, all of them are disposed of. *)
Theorem results_accounted r obt :
  registry_reachable r obt →
  NoDup (disposed r) ∧
  (∀ i, i ∈ disposed r → i ∈ obt ∧ i ∉ (results r).*2) ∧
  (∀ i, i ∈ obt → pr_dispose (heap i) = true → i ∈ (results r).*2 ∨ i ∈ disposed r) ∧
  (∀ i, i ∈ obt → pr_dispose (heap i) = true → i ∈ disposed (close heap r).2).
Proof.
  intros (Hwf & Hs & Ha)%registry_reachable_inv. pose proof Ha as (Hnd & Hd & Hh & Hall).
  split_and!; [done|intros i Hi; destruct (Hd i Hi); tauto|done|].
  intros i Hi Hp. apply accounted_close in Ha as (_ & _ & _ & Hc). rewrite app_nil_r in Hc.
  destruct (Hc i Hi Hp) as [Hin|]; [|done]. by apply elem_of_nil in Hin.
Qed.

(** a reload is all or nothing.  From any reachable registry, it either returns the snapshot
    built from the results of every enabled provider, which the registry then holds with those
    results, having disposed exactly of the old ones not loaded again; or it raises the error of
    the first provider that failed to load or of the commit callback, and snapshot and results are
    what they were, having disposed exactly of the newly obtained results it did not hold. *)
Theorem reload_all_or_nothing r obt context load on_commit :
  registry_reachable r obt →
  let out := reload heap context load on_commit r in
  reload_outcome context load on_commit r out.1 out.2 ∧
  providers out.2 = providers r ∧ enabled out.2 = enabled r ∧ seeded out.2 = seeded r.
Proof.
  intros (Hwf & _)%registry_reachable_inv.
  destruct (reload_wpe context load on_commit r Hwf) as (? & ? & _ & ? & ? & _). done.
Qed.

(** a snapshot is the declared resolution.  For every kind and key, the candidates are the
    enabled records the loaded providers offer under it, all of them, strictly ordered by provider
    priority, registration order, record priority and place, and the winner is the first; the
    records of a kind are the winners of its keys; the diagnostics are those of the providers and
    one collision per shadowed record; and every provider's state is kept under its name. *)
Theorem build_snapshot_spec g loaded :
  NoDup (map lo_order loaded) → NoDup (map (λ it, cp_name (lo_provider it)) loaded) →
  let s := _build_snapshot heap g loaded in
  (∀ kind key, ∃ rk, rk ≡ₚ offers heap loaded (kind, key) ∧ StronglySorted before rk ∧
     candidates (resolve s kind key) = map offered rk ∧
     winner (resolve s kind key) = head (map offered rk)) ∧
  (∀ kind r, r ∈ snapshot_records s kind ↔ ∃ key, winner (resolve s kind key) = Some r) ∧
  (∀ d, d ∈ diagnostics s ↔
     (∃ it, it ∈ loaded ∧ d ∈ pr_diagnostics (heap (lo_result it))) ∨
     (∃ kind key r, r ∈ tail (candidates (resolve s kind key)) ∧ d = collision (kind, key) r)) ∧
  (∀ it, it ∈ loaded → provider_state s (cp_name (lo_provider it)) = pr_state (heap (lo_result it))) ∧
  generation s = g.
Proof.
  intros Ho Hn s. set (c := ga_candidates (gathered heap (py_sorted item_leb loaded))).
  assert (∀ kind key, resolve s kind key = default {| winner := None; candidates := [] |}
      (resolution_of <$> od_get (kind, key) c)) as Hres.
  { intros kind key. rewrite <- (resolved_get c (ga_diagnostics (gathered heap (py_sorted item_leb loaded))))
      by apply gathered_ok. done. }
  split_and!.
  - intros kind key. exists (ranking heap loaded (kind, key)).
    destruct (build_snapshot_candidates heap g loaded (kind, key)).
    split_and!; [apply ranking_perm|by apply ranking_sorted|done|done].
  - intros kind r. setoid_rewrite Hres. unfold snapshot_records.
    change (records_by_kind s) with (re_by_kind (resolved c (ga_diagnostics (gathered heap (py_sorted item_leb loaded))))).
    rewrite resolved_records by apply gathered_ok. split.
    + intros (key & l & Hg). exists key. by rewrite Hg.
    + intros (key & Hw). exists key. destruct (od_get (kind, key) c) as [[|w l]|]; cbn in Hw; simplify_eq. eauto.
  - intros d. setoid_rewrite Hres.
    change (diagnostics s) with (re_diagnostics (resolved c (ga_diagnostics (gathered heap (py_sorted item_leb loaded))))).
    rewrite resolved_diagnostics by apply gathered_ok. f_equiv.
    + rewrite gathered_diagnostics. rewrite list_elem_of_In, in_flat_map. f_equiv. intros it.
      by rewrite <- !list_elem_of_In, (elem_of_py_sorted item_leb).
    + split.
      * intros ([kind key] & l & r & Hg & Hr & ->). exists kind, key, r. by rewrite Hg.
      * intros (kind & key & r & Hr & ->). exists (kind, key). destruct (od_get (kind, key) c) as [l|]; cbn in Hr; [|set_solver].
        by exists l, r.
  - intros it Hin. apply (gathered_states heap (py_sorted item_leb loaded)); [|by apply elem_of_py_sorted|done].
    by rewrite (py_sorted_perm item_leb).
  - done.
Qed.
End registry_theorems.

(** ** Witnesses *)

(** Run a history from the new registry, when every handed-over result is
    one that was not disposed of before. *)
Fixpoint run_registry_calls {V} (heap : nat → CapabilityProviderResult V) (cs : list (registry_call V))
    (ro : CapabilityRegistry V * list nat) : option (CapabilityRegistry V * list nat) :=
  match cs with
  | [] => Some ro
  | c :: cs' =>
      let new := obtained_by heap c ro.1 in
      if forallb (λ i, bool_decide (i ∉ disposed ro.1)) new
      then run_registry_calls heap cs' (run_registry_call heap c ro.1, ro.2 ++ new) else None
  end.

Lemma run_registry_calls_reachable {V} (heap : nat → CapabilityProviderResult V) cs r obt r' obt' :
  registry_reachable heap r obt → run_registry_calls heap cs (r, obt) = Some (r', obt') →
  registry_reachable heap r' obt'.
Proof.
  revert r obt; induction cs as [|c cs IH]; intros r obt Hr; cbn; [by intros [= <- <-]|].
  destruct (forallb _ _) eqn:Hf; [|done]. apply IH. apply reach_call; [done|].
  intros i Hi. rewrite forallb_forall in Hf. apply list_elem_of_In, Hf in Hi. by apply bool_decide_eq_true in Hi.
Qed.

Definition sample_record (key : string) (priority value : Z) : CapabilityRecord Z :=
  {| cr_kind := TOOL; cr_key := key; cr_value := value;
     cr_source := {| cs_provider := "builtin"; cs_path := None; cs_source := "local";
                     cs_scope := "temporary"; cs_origin := "top-level" |};
     cr_priority := priority; cr_enabled := true |}.

Definition sample_heap (i : nat) : CapabilityProviderResult Z :=
  {| pr_records := [sample_record "read" 0 (Z.of_nat i); sample_record "read" 7 (10 + Z.of_nat i)];
     pr_diagnostics := []; pr_state := Some (Z.of_nat i); pr_dispose := true |}.

Definition sample_builtin : CapabilityProvider := {| cp_name := "builtin"; cp_priority := 0 |}.
Definition sample_user : CapabilityProvider := {| cp_name := "user"; cp_priority := 5 |}.

Definition sample_load_context : CapabilityLoadContext Z :=
  {| lc_cwd := "/w"; lc_agent_dir := "/a"; lc_project_trusted := true; lc_offline := false;
     lc_generation := 1; lc_data := [] |}.

(** The user's provider fails at the first reload; the second one commits;
    the third is refused by the callback. *)
Definition sample_history : list (registry_call Z) :=
  [CallRegister sample_builtin; CallRegister sample_user; CallSeed "builtin" 0%nat;
   CallReload sample_load_context
     (λ p, if decide (cp_name p = "user") then Err "boom" else Ok 1%nat) (λ _, None);
   CallReload sample_load_context (λ p, if decide (cp_name p = "user") then Ok 3%nat else Ok 2%nat) (λ _, None);
   CallReload sample_load_context (λ p, if decide (cp_name p = "user") then Ok 3%nat else Ok 4%nat)
     (λ _, Some "no")].

Definition sample_registry : CapabilityRegistry Z * list nat :=
  default (new_registry, []) (run_registry_calls sample_heap sample_history (new_registry, [])).

Lemma sample_registry_reachable : registry_reachable sample_heap sample_registry.1 sample_registry.2.
Proof.
  apply (run_registry_calls_reachable sample_heap sample_history new_registry []); [apply reach_new|].
  vm_compute. reflexivity.
Qed.

(** The failed reload disposed of 1, the second of the seeded 0, the refused
    one of 4 only (3 is in use). *)
Example sample_disposals :
  (disposed sample_registry.1, (results sample_registry.1).*2, sample_registry.2)
    = ([1; 0; 4], [2; 3], [0; 1; 2; 3; 4; 3])%nat.
Proof. vm_compute. reflexivity. Qed.

Lemma results_accounted_witness :
  registry_reachable sample_heap sample_registry.1 sample_registry.2 ∧ NoDup (disposed sample_registry.1).
Proof.
  split; [apply sample_registry_reachable|].
  exact (proj1 (results_accounted sample_heap _ _ sample_registry_reachable)).
Defined.

Lemma reload_all_or_nothing_witness :
  registry_reachable sample_heap sample_registry.1 sample_registry.2 ∧
  let out := reload sample_heap sample_load_context (λ p, Ok 6%nat) (λ _, None) sample_registry.1 in
  reload_outcome sample_heap sample_load_context (λ p, Ok 6%nat) (λ _, None) sample_registry.1 out.1 out.2.
Proof.
  split; [apply sample_registry_reachable|].
  exact (proj1 (reload_all_or_nothing sample_heap _ _ sample_load_context (λ p, Ok 6%nat) (λ _, None)
    sample_registry_reachable)).
Defined.

Definition sample_loaded : list loaded_item :=
  [{| lo_order := 0; lo_provider := sample_builtin; lo_result := 2 |};
   {| lo_order := 1; lo_provider := sample_user; lo_result := 3 |}].

Lemma build_snapshot_spec_witness :
  (∃ rk, rk ≡ₚ offers sample_heap sample_loaded (TOOL, "read"%string) ∧ StronglySorted before rk ∧
     candidates (resolve (_build_snapshot sample_heap 1 sample_loaded) TOOL "read") = map offered rk ∧
     winner (resolve (_build_snapshot sample_heap 1 sample_loaded) TOOL "read") = head (map offered rk)) ∧
  map cr_value (candidates (resolve (_build_snapshot sample_heap 1 sample_loaded) TOOL "read")) = [13; 3; 12; 2].
Proof.
  split; [|vm_compute; reflexivity].
  refine (proj1 (build_snapshot_spec sample_heap 1 sample_loaded _ _) TOOL "read"%string);
    apply (bool_decide_unpack _); vm_compute; exact I.
Defined.
