(* ===== verification/Mailbox.v ===== *)
(** The coding session's message hand-off: the mailbox of
    [coding_agent/mailbox.py] and its use by the session
    ([session_turns.py], [session_events.py]), which moves messages into the
    agent's two pending queues and takes them back when a run ends.

    Every mailbox method holds the lock, so a method is one step of the state.
    The identifiers come from [uuid.uuid4]: they are arguments here, and a
    history takes fresh ones. *)

From S2P Require Import Prelude PyDict Json PyFloat AgentTypes AgentParts.
Open Scope Z_scope.

(** [src: travis/coding_agent/mailbox.py:13-14 MailboxKind] *)
Inductive MailboxKind : Type := steering | follow_up.
#[export] Instance MailboxKind_eq_dec : EqDecision MailboxKind.
Proof. solve_decision. Defined.

Inductive mailbox_error : Type :=
  | MailboxValueError (message : string)
  | MailboxRuntimeError (message : string).

Section mailbox.
Context {Image : Type}.

(** [src: travis/coding_agent/mailbox.py:17-22 QueuedCodingMessage] *)
Record QueuedCodingMessage : Type := {
  qm_id : string;
  qm_kind : MailboxKind;
  qm_text : string;
  qm_images : list Image
}.

(** [_items] has exactly the two keys, so it is two deques; [_inflight] is a
    dict whose order counts.

    [src: travis/coding_agent/mailbox.py:26-33 CodingTurnMailbox.__init__] *)
Record CodingTurnMailbox : Type := {
  mb_steering : list QueuedCodingMessage;
  mb_follow_up : list QueuedCodingMessage;
  mb_inflight : list (string * QueuedCodingMessage);
  mb_closed : bool
}.

(** [src: travis/coding_agent/mailbox.py:26-33 CodingTurnMailbox.__init__] *)
Definition new_mailbox : CodingTurnMailbox :=
  {| mb_steering := []; mb_follow_up := []; mb_inflight := []; mb_closed := false |}.

Definition items (k : MailboxKind) (m : CodingTurnMailbox) : list QueuedCodingMessage :=
  match k with steering => mb_steering m | follow_up => mb_follow_up m end.

Definition set_items (k : MailboxKind) (l : list QueuedCodingMessage) (m : CodingTurnMailbox)
    : CodingTurnMailbox :=
  {| mb_steering := match k with steering => l | follow_up => mb_steering m end;
     mb_follow_up := match k with steering => mb_follow_up m | follow_up => l end;
     mb_inflight := mb_inflight m; mb_closed := mb_closed m |}.

Definition set_inflight (l : list (string * QueuedCodingMessage)) (m : CodingTurnMailbox)
    : CodingTurnMailbox :=
  {| mb_steering := mb_steering m; mb_follow_up := mb_follow_up m; mb_inflight := l;
     mb_closed := mb_closed m |}.

Definition of_kind (k : MailboxKind) (q : QueuedCodingMessage) : bool := bool_decide (qm_kind q = k).

Local Notation mb := (st CodingTurnMailbox mailbox_error).

(** [src: travis/coding_agent/mailbox.py:105-108 CodingTurnMailbox._validate_kind] *)
Definition _validate_kind (kind : string) : result mailbox_error MailboxKind :=
  if bool_decide (kind = "steering"%string) then Ok steering
  else if bool_decide (kind = "follow_up"%string) then Ok follow_up
  else Err (MailboxValueError "mailbox kind must be steering or follow_up").

(** [src: travis/coding_agent/mailbox.py:35-52 CodingTurnMailbox.enqueue] *)
Definition enqueue (uuid kind text : string) (images : list Image) : mb QueuedCodingMessage :=
  k ← st_lift (_validate_kind kind);
  m ← st_get;
  _ ← st_require (negb (mb_closed m)) (MailboxRuntimeError "coding turn mailbox is closed");
  let item := {| qm_id := uuid; qm_kind := k; qm_text := text; qm_images := images |} in
  _ ← st_put (set_items k (items k m ++ [item]) m);
  mret item.

(** [src: travis/coding_agent/mailbox.py:54-63 CodingTurnMailbox.drain] *)
Definition drain (kind mode : string) : mb (list QueuedCodingMessage) :=
  k ← st_lift (_validate_kind kind);
  _ ← st_require (bool_decide (mode = "one-at-a-time"%string) || bool_decide (mode = "all"%string))
        (MailboxValueError "mailbox drain mode must be one-at-a-time or all");
  m ← st_get;
  let queue := items k m in
  let count := if bool_decide (mode = "all"%string) then length queue else Nat.min 1 (length queue) in
  let drained := take count queue in
  _ ← st_put (set_inflight (od_update (map (λ q, (qm_id q, q)) drained) (mb_inflight m))
                (set_items k (drop count queue) m));
  mret drained.

(** [src: travis/coding_agent/mailbox.py:65-67 CodingTurnMailbox.acknowledge] *)
Definition acknowledge (message_id : string) : mb bool :=
  m ← st_get;
  _ ← st_put (set_inflight (od_del message_id (mb_inflight m)) m);
  mret (bool_decide (is_Some (od_get message_id (mb_inflight m)))).

(** [deque.extendleft(reversed(selected))] *)
Definition requeue (restored : list QueuedCodingMessage) (k : MailboxKind) (m : CodingTurnMailbox)
    : CodingTurnMailbox :=
  set_items k (fold_left (λ d q, q :: d) (rev (List.filter (of_kind k) restored)) (items k m)) m.

(** [src: travis/coding_agent/mailbox.py:69-76 CodingTurnMailbox.restore_unacknowledged] *)
Definition restore_unacknowledged : mb (list QueuedCodingMessage) :=
  m ← st_get;
  let restored := map snd (mb_inflight m) in
  _ ← st_put (requeue restored follow_up (requeue restored steering (set_inflight [] m)));
  mret restored.

Definition mailbox_snapshot (k : MailboxKind) (m : CodingTurnMailbox) : list QueuedCodingMessage :=
  List.filter (of_kind k) (map snd (mb_inflight m)) ++ items k m.

(** [src: travis/coding_agent/mailbox.py:78-82 CodingTurnMailbox.snapshot] *)
Definition snapshot (kind : string) : mb (list QueuedCodingMessage) :=
  k ← st_lift (_validate_kind kind);
  m ← st_get;
  mret (mailbox_snapshot k m).

(** [src: travis/coding_agent/mailbox.py:84-99 CodingTurnMailbox.clear] *)
Definition clear (kind : option string) : mb (list QueuedCodingMessage) :=
  ks ← match kind with
       | None => mret [steering; follow_up]
       | Some kind => k ← st_lift (_validate_kind kind); mret [k]
       end;
  m ← st_get;
  let '(cleared, m') :=
    fold_left (λ '(cleared, m) k, (cleared ++ mailbox_snapshot k m, set_items k [] m)) ks ([], m) in
  _ ← st_put (set_inflight (fold_left (λ d id, od_del id d) (map qm_id cleared) (mb_inflight m')) m');
  mret cleared.

(** [src: travis/coding_agent/mailbox.py:101-103 CodingTurnMailbox.close] *)
Definition close : mb unit :=
  st_modify (λ m, {| mb_steering := mb_steering m; mb_follow_up := mb_follow_up m;
                     mb_inflight := mb_inflight m; mb_closed := true |}).

End mailbox.
Arguments QueuedCodingMessage : clear implicits.
Arguments CodingTurnMailbox : clear implicits.

(** ** The session around the mailbox *)
Section handoff.
Context {Image M : Type}.

(** [_user_message(text, images)], the content of the agent's message; the
    attribute [_coding_queue_id] is set on the message afterwards. *)
Variable user_message : string → list Image → M.

Record tagged_message : Type := {
  tm_queue_id : option string;
  tm_message : M
}.

(** What the session owns of the hand-off: its mailbox, the agent's two
    pending queues and the [queue_update] events emitted so far.

    [src: travis/coding_agent/session_types.py:270-274 QueueUpdateEvent] *)
Record session : Type := {
  se_mailbox : CodingTurnMailbox Image;
  se_steering : PendingQueue.PendingMessageQueue tagged_message;
  se_follow_up : PendingQueue.PendingMessageQueue tagged_message;
  se_updates : list (list string * list string)
}.

Local Notation sm := (st session mailbox_error).

Definition pending (k : MailboxKind) (s : session) : PendingQueue.PendingMessageQueue tagged_message :=
  match k with steering => se_steering s | follow_up => se_follow_up s end.

Definition set_pending (k : MailboxKind) (q : PendingQueue.PendingMessageQueue tagged_message)
    (s : session) : session :=
  {| se_mailbox := se_mailbox s;
     se_steering := match k with steering => q | follow_up => se_steering s end;
     se_follow_up := match k with steering => se_follow_up s | follow_up => q end;
     se_updates := se_updates s |}.

(** A mailbox call on the session's mailbox. *)
Definition on_mailbox {A} (c : st (CodingTurnMailbox Image) mailbox_error A) : sm A := λ s,
  let (r, m) := c (se_mailbox s) in
  (r, {| se_mailbox := m; se_steering := se_steering s; se_follow_up := se_follow_up s;
         se_updates := se_updates s |}).

Definition kind_name (k : MailboxKind) : string :=
  match k with steering => "steering" | follow_up => "follow_up" end.

(** [src: travis/coding_agent/session_models.py:51-55 SessionModelController.get_steering_messages]
    (and [get_follow_up_messages]) *)
Definition get_queued_messages (k : MailboxKind) (s : session) : list string :=
  map qm_text (mailbox_snapshot k (se_mailbox s)).

(** [src: travis/coding_agent/session_models.py:36-40 SessionModelController.pending_message_count] *)
Definition pending_message_count (s : session) : Z :=
  Z.of_nat (length (mailbox_snapshot steering (se_mailbox s)) +
            length (mailbox_snapshot follow_up (se_mailbox s))).

(** [src: travis/coding_agent/session_events.py:197-203 SessionEventController._emit_queue_update] *)
Definition _emit_queue_update : sm unit :=
  st_modify (λ s, {| se_mailbox := se_mailbox s; se_steering := se_steering s;
                     se_follow_up := se_follow_up s;
                     se_updates := se_updates s ++
                       [(get_queued_messages steering s, get_queued_messages follow_up s)] |}).

(** [src: travis/coding_agent/session_turns.py:394-404 SessionTurnController._flush_turn_mailbox_kind] *)
Definition _flush_turn_mailbox_kind (k : MailboxKind) : sm unit :=
  s ← st_get;
  let mode := if PendingQueue.mode_all (pending k s) then "all"%string else "one-at-a-time"%string in
  drained ← on_mailbox (drain (kind_name k) mode);
  st_iter (λ queued,
    let message := {| tm_queue_id := Some (qm_id queued);
                      tm_message := user_message (qm_text queued) (qm_images queued) |} in
    st_modify (λ s, set_pending k (PendingQueue.enqueue message (pending k s)) s)) drained.

(** [src: travis/coding_agent/session_turns.py:390-392 SessionTurnController._flush_turn_mailbox] *)
Definition _flush_turn_mailbox : sm unit :=
  _ ← _flush_turn_mailbox_kind steering; _flush_turn_mailbox_kind follow_up.

(** [src: travis/coding_agent/session_turns.py:360-370 SessionTurnController._queue_turn_input] *)
Definition _queue_turn_input (uuid : string) (is_streaming : bool) (k : MailboxKind) (text : string)
    (images : list Image) : sm string :=
  queued ← on_mailbox (enqueue uuid (kind_name k) text images);
  _ ← (if negb is_streaming then _flush_turn_mailbox_kind k else mret tt);
  _ ← _emit_queue_update;
  mret (qm_id queued).

Definition tagged_in (ids : list string) (m : tagged_message) : bool :=
  match tm_queue_id m with Some id => bool_decide (id ∈ ids) | None => false end.

(** [src: travis/coding_agent/session_turns.py:406-417 SessionTurnController._restore_unacknowledged_turn_messages] *)
Definition _restore_unacknowledged_turn_messages : sm unit :=
  restored ← on_mailbox restore_unacknowledged;
  if bool_decide (restored = []) then mret tt else
  let restored_ids := map qm_id restored in
  let strip q := snd (PendingQueue.remove_where (tagged_in restored_ids) q) in
  _ ← st_modify (λ s, set_pending steering (strip (pending steering s)) s);
  _ ← st_modify (λ s, set_pending follow_up (strip (pending follow_up s)) s);
  _emit_queue_update.

(** [src: travis/coding_agent/session_turns.py:580-585 SessionTurnController.clear_queue] *)
Definition clear_queue : sm (list string * list string) :=
  st_items ← on_mailbox (clear (Some (kind_name steering)));
  fu_items ← on_mailbox (clear (Some (kind_name follow_up)));
  _ ← st_modify (λ s, set_pending steering (PendingQueue.clear (pending steering s)) s);
  _ ← st_modify (λ s, set_pending follow_up (PendingQueue.clear (pending follow_up s)) s);
  _ ← _emit_queue_update;
  mret (map qm_text st_items, map qm_text fu_items).

(** The start of a user message.

    [src: travis/coding_agent/session_events.py:79-83 SessionEventController._handle_agent_event] *)
Definition on_message_start (m : tagged_message) : sm unit :=
  match tm_queue_id m with
  | None => mret tt
  | Some queue_id =>
      acknowledged ← on_mailbox (acknowledge queue_id);
      if (acknowledged : bool) then _emit_queue_update else mret tt
  end.

(** The end of a run.

    [src: travis/coding_agent/session_events.py:87-88 SessionEventController._handle_agent_event] *)
Definition on_agent_end : sm unit := _restore_unacknowledged_turn_messages.

End handoff.
Arguments tagged_message : clear implicits.
Arguments session : clear implicits.
