(* ===== verification/MailboxSpec.v ===== *)
(** The hand-off of queued messages, correct.

    The mailbox refines two channels, one per kind: a channel is the list of the
    messages not yet acknowledged and a cursor, the number of them handed out.
    Around it, the session and the agent deliver every accepted message at most
    once and in order, and lose none that was not cleared. *)

From S2P Require Import Prelude PyDict Json PyFloat AgentTypes AgentParts AgentPartsSpec Mailbox.
Open Scope Z_scope.

(** ** The mailbox and its specification *)
Section spec.
Context {Image : Type}.
Local Notation qm := (QueuedCodingMessage Image).
Local Notation mailbox := (CodingTurnMailbox Image).

(** A channel: what is outstanding, and how much of it is handed out. *)
Record channel : Type := { ch_messages : list qm; ch_cursor : nat }.

Definition ch_empty : channel := {| ch_messages := []; ch_cursor := 0 |}.
Definition ch_taken (c : channel) : list qm := take (ch_cursor c) (ch_messages c).
Definition ch_waiting (c : channel) : list qm := drop (ch_cursor c) (ch_messages c).
Definition ch_append (q : qm) (c : channel) : channel :=
  {| ch_messages := ch_messages c ++ [q]; ch_cursor := ch_cursor c |}.
Definition ch_hand (n : nat) (c : channel) : channel :=
  {| ch_messages := ch_messages c; ch_cursor := ch_cursor c + n |}.
Definition ch_remove (id : string) (c : channel) : channel :=
  let keep := List.filter (λ q, negb (bool_decide (qm_id q = id))) in
  {| ch_messages := keep (ch_taken c) ++ ch_waiting c; ch_cursor := length (keep (ch_taken c)) |}.
Definition ch_rewind (c : channel) : channel := {| ch_messages := ch_messages c; ch_cursor := 0 |}.

Record spec : Type := { sp_steering : channel; sp_follow_up : channel; sp_closed : bool }.

Definition chan (k : MailboxKind) (sp : spec) : channel :=
  match k with steering => sp_steering sp | follow_up => sp_follow_up sp end.
Definition upd (k : MailboxKind) (c : channel) (sp : spec) : spec :=
  {| sp_steering := match k with steering => c | follow_up => sp_steering sp end;
     sp_follow_up := match k with steering => sp_follow_up sp | follow_up => c end;
     sp_closed := sp_closed sp |}.

(** The calls of the mailbox and what they answer. *)
Inductive call : Type :=
  | CEnqueue (uuid kind text : string) (images : list Image)
  | CDrain (kind mode : string)
  | CAcknowledge (id : string)
  | CRestore
  | CSnapshot (kind : string)
  | CClear (kind : option string)
  | CClose.

Inductive reply : Type :=
  | RMessage (q : qm)
  | RMessages (l : list qm)
  | RBool (b : bool)
  | RUnit
  | RError (e : mailbox_error).

Definition reply_of {A} (f : A → reply) (r : result mailbox_error A * mailbox) : reply * mailbox :=
  (match r.1 with Ok a => f a | Err e => RError e end, r.2).

Definition run_call (c : call) (m : mailbox) : reply * mailbox :=
  match c with
  | CEnqueue uuid kind text images => reply_of RMessage (enqueue uuid kind text images m)
  | CDrain kind mode => reply_of RMessages (drain kind mode m)
  | CAcknowledge id => reply_of RBool (acknowledge id m)
  | CRestore => reply_of RMessages (restore_unacknowledged m)
  | CSnapshot kind => reply_of RMessages (snapshot kind m)
  | CClear kind => reply_of RMessages (clear kind m)
  | CClose => reply_of (λ _, RUnit) (close m)
  end.

Definition bad_kind : mailbox_error := MailboxValueError "mailbox kind must be steering or follow_up".
Definition bad_mode : mailbox_error :=
  MailboxValueError "mailbox drain mode must be one-at-a-time or all".
Definition is_closed : mailbox_error := MailboxRuntimeError "coding turn mailbox is closed".

Definition names_kind (kind : string) (k : MailboxKind) : Prop := kind = kind_name k.
Definition names_none (kind : string) : Prop := ∀ k, kind ≠ kind_name k.

(** What the mailbox promises: the channels' view of every call. *)
Inductive spec_step (sp : spec) : call → reply → spec → Prop :=
  | sp_enqueue uuid kind k text images :
      names_kind kind k → sp_closed sp = false →
      let q := {| qm_id := uuid; qm_kind := k; qm_text := text; qm_images := images |} in
      spec_step sp (CEnqueue uuid kind text images) (RMessage q) (upd k (ch_append q (chan k sp)) sp)
  | sp_enqueue_closed uuid kind k text images :
      names_kind kind k → sp_closed sp = true →
      spec_step sp (CEnqueue uuid kind text images) (RError is_closed) sp
  | sp_enqueue_kind uuid kind text images :
      names_none kind → spec_step sp (CEnqueue uuid kind text images) (RError bad_kind) sp
  | sp_drain_all kind k :
      names_kind kind k →
      spec_step sp (CDrain kind "all") (RMessages (ch_waiting (chan k sp)))
        (upd k (ch_hand (length (ch_waiting (chan k sp))) (chan k sp)) sp)
  | sp_drain_one kind k q rest :
      names_kind kind k → ch_waiting (chan k sp) = q :: rest →
      spec_step sp (CDrain kind "one-at-a-time") (RMessages [q]) (upd k (ch_hand 1 (chan k sp)) sp)
  | sp_drain_none kind k :
      names_kind kind k → ch_waiting (chan k sp) = [] →
      spec_step sp (CDrain kind "one-at-a-time") (RMessages []) sp
  | sp_drain_kind kind mode : names_none kind → spec_step sp (CDrain kind mode) (RError bad_kind) sp
  | sp_drain_mode kind k mode :
      names_kind kind k → mode ≠ "all"%string → mode ≠ "one-at-a-time"%string →
      spec_step sp (CDrain kind mode) (RError bad_mode) sp
  | sp_acknowledge id k :
      id ∈ map qm_id (ch_taken (chan k sp)) →
      spec_step sp (CAcknowledge id) (RBool true) (upd k (ch_remove id (chan k sp)) sp)
  | sp_acknowledge_none id :
      (∀ k, id ∉ map qm_id (ch_taken (chan k sp))) →
      spec_step sp (CAcknowledge id) (RBool false) sp
  | sp_restore l :
      (∀ k, List.filter (of_kind k) l = ch_taken (chan k sp)) →
      spec_step sp CRestore (RMessages l)
        (upd steering (ch_rewind (chan steering sp)) (upd follow_up (ch_rewind (chan follow_up sp)) sp))
  | sp_snapshot kind k :
      names_kind kind k → spec_step sp (CSnapshot kind) (RMessages (ch_messages (chan k sp))) sp
  | sp_snapshot_kind kind :
      names_none kind → spec_step sp (CSnapshot kind) (RError bad_kind) sp
  | sp_clear_all :
      spec_step sp (CClear None)
        (RMessages (ch_messages (chan steering sp) ++ ch_messages (chan follow_up sp)))
        (upd steering ch_empty (upd follow_up ch_empty sp))
  | sp_clear kind k :
      names_kind kind k →
      spec_step sp (CClear (Some kind)) (RMessages (ch_messages (chan k sp))) (upd k ch_empty sp)
  | sp_clear_kind kind : names_none kind → spec_step sp (CClear (Some kind)) (RError bad_kind) sp
  | sp_close :
      spec_step sp CClose RUnit
        {| sp_steering := sp_steering sp; sp_follow_up := sp_follow_up sp; sp_closed := true |}.

(** *** The channels of a mailbox *)
Definition handed (m : mailbox) : list qm := map snd (mb_inflight m).

Definition chan_of (k : MailboxKind) (m : mailbox) : channel :=
  {| ch_messages := mailbox_snapshot k m;
     ch_cursor := length (List.filter (of_kind k) (handed m)) |}.

Definition channels (m : mailbox) : spec :=
  {| sp_steering := chan_of steering m; sp_follow_up := chan_of follow_up m; sp_closed := mb_closed m |}.

Definition all_messages (m : mailbox) : list qm := handed m ++ mb_steering m ++ mb_follow_up m.
Definition all_ids (m : mailbox) : list string := map qm_id (all_messages m).

(** The well-formed mailboxes: a message in flight is filed under its own
    identifier, a deque holds its own kind, and no identifier occurs twice. *)
Record mailbox_ok (m : mailbox) : Prop := {
  mo_keys : mb_inflight m = map (λ q, (qm_id q, q)) (handed m);
  mo_kinds : ∀ k, Forall (λ q, qm_kind q = k) (items k m);
  mo_nodup : NoDup (all_ids m)
}.

(** The calls a history makes take fresh identifiers. *)
Definition fresh_call (c : call) (m : mailbox) : Prop :=
  match c with CEnqueue uuid _ _ _ => uuid ∉ all_ids m | _ => True end.

End spec.

(** ** The refinement *)
Section mailbox_proofs.
Context {Image : Type}.
Local Notation qm := (QueuedCodingMessage Image).
Local Notation mailbox := (CodingTurnMailbox Image).
Implicit Types (m : mailbox) (q : qm) (k : MailboxKind).

Lemma validate_kind_name k : _validate_kind (kind_name k) = Ok k.
Proof. by destruct k. Qed.

Lemma validate_kind_none kind : names_none kind → _validate_kind kind = Err bad_kind.
Proof.
  intros H. unfold _validate_kind.
  rewrite bool_decide_eq_false_2 by exact (H steering). by rewrite bool_decide_eq_false_2 by exact (H follow_up).
Qed.

Lemma kind_cases kind : (∃ k, names_kind kind k) ∨ names_none kind.
Proof.
  destruct (decide (kind = kind_name steering)) as [->|Hs]; [left; by exists steering|].
  destruct (decide (kind = kind_name follow_up)) as [->|Hf]; [left; by exists follow_up|].
  right. by intros [].
Qed.

Lemma items_set_items k k' l m : items k' (set_items k l m) = if decide (k = k') then l else items k' m.
Proof. by destruct k, k'. Qed.

Lemma chan_upd k k' c (sp : spec (Image:=Image)) : chan k' (upd k c sp) = if decide (k = k') then c else chan k' sp.
Proof. by destruct k, k'. Qed.

Lemma chan_channels k m : chan k (channels m) = chan_of k m.
Proof. by destruct k. Qed.

Lemma taken_chan_of k m : ch_taken (chan_of k m) = List.filter (of_kind k) (handed m).
Proof. apply take_app_length. Qed.

Lemma waiting_chan_of k m : ch_waiting (chan_of k m) = items k m.
Proof. apply drop_app_length. Qed.

Lemma channels_ext m sp :
  (∀ k, chan_of k m = chan k sp) → mb_closed m = sp_closed sp → channels m = sp.
Proof.
  intros Hk Hc. unfold channels. pose proof (Hk steering) as Hs. pose proof (Hk follow_up) as Hf.
  destruct sp. cbn in *. by rewrite Hs, Hf, Hc.
Qed.

Lemma of_kind_filter_all k (l : list qm) : Forall (λ q, qm_kind q = k) l → List.filter (of_kind k) l = l.
Proof.
  unfold of_kind. induction 1 as [|q l Hq _ IH]; cbn; [done|].
  by rewrite bool_decide_eq_true_2, IH by done.
Qed.

Lemma of_kind_filter_other k k' (l : list qm) :
  k ≠ k' → Forall (λ q, qm_kind q = k) l → List.filter (of_kind k') l = [].
Proof.
  unfold of_kind. intros Hk. induction 1 as [|q l Hq _ IH]; cbn; [done|].
  by rewrite bool_decide_eq_false_2 by congruence.
Qed.

Lemma handed_nodup m : mailbox_ok m → NoDup (map qm_id (handed m)).
Proof. intros [_ _ Hn]. unfold all_ids, all_messages in Hn. rewrite map_app in Hn. by apply NoDup_app in Hn as [? _]. Qed.

Lemma inflight_keys m : mailbox_ok m → (mb_inflight m).*1 = map qm_id (handed m).
Proof. intros [Hk _ _]. rewrite Hk at 1. change (fst <$> ?l) with (map fst l). by rewrite map_map. Qed.

Lemma items_in_all k m q : q ∈ items k m → q ∈ all_messages m.
Proof. unfold all_messages. destruct k; cbn; set_solver. Qed.

(** The identifiers of an unchanged multiset of messages stay distinct. *)
Lemma mailbox_ok_perm m m' :
  mailbox_ok m → all_messages m' ≡ₚ all_messages m →
  mb_inflight m' = map (λ q, (qm_id q, q)) (handed m') →
  (∀ k, Forall (λ q, qm_kind q = k) (items k m')) → mailbox_ok m'.
Proof.
  intros [_ _ Hn] Hp Hk Hi. split; [done..|]. unfold all_ids. by rewrite Hp.
Qed.

Lemma mailbox_ok_sublist m m' :
  mailbox_ok m → all_messages m' `sublist_of` all_messages m →
  mb_inflight m' = map (λ q, (qm_id q, q)) (handed m') →
  (∀ k, Forall (λ q, qm_kind q = k) (items k m')) → mailbox_ok m'.
Proof.
  intros [_ _ Hn] Hp Hk Hi. split; [done..|]. unfold all_ids.
  eapply sublist_NoDup; [exact Hn|by apply (fmap_sublist qm_id)].
Qed.

Lemma handed_tag m l : mb_inflight m = map (λ q, (qm_id q, q)) l → handed m = l.
Proof. intros H. unfold handed. rewrite H, map_map. apply map_id. Qed.

Lemma enqueue_ok uuid k text images m :
  mailbox_ok m → uuid ∉ all_ids m →
  let q := {| qm_id := uuid; qm_kind := k; qm_text := text; qm_images := images |} in
  let m' := set_items k (items k m ++ [q]) m in
  channels m' = upd k (ch_append q (chan k (channels m))) (channels m) ∧ mailbox_ok m'.
Proof.
  intros Hm Hf q m'.
  assert (∀ k', items k' m' = items k' m ++ if decide (k = k') then [q] else []) as Hi.
  { intros k'. unfold m'. rewrite items_set_items. destruct (decide (k = k')) as [->|]; by rewrite ?app_nil_r. }
  split.
  - apply channels_ext; [|by destruct k]. intros k'. rewrite chan_upd, !chan_channels.
    unfold chan_of, ch_append, mailbox_snapshot. cbn. rewrite Hi, app_assoc.
    destruct (decide (k = k')) as [->|]; [done|by rewrite app_nil_r].
  - assert (all_messages m' ≡ₚ q :: all_messages m) as Hp.
    { unfold m', all_messages, handed. destruct k; cbn; solve_Permutation. }
    destruct Hm as [Hk Hkinds Hn]. split; [by destruct k| |].
    + intros k'. rewrite Hi. apply Forall_app_2; [done|]. by destruct (decide (k = k')); repeat constructor.
    + unfold all_ids. rewrite Hp. cbn. by constructor.
Qed.

Lemma drain_ok k n m :
  mailbox_ok m → (n ≤ length (items k m))%nat →
  let m' := set_inflight (od_update (map (λ q, (qm_id q, q)) (take n (items k m))) (mb_inflight m))
              (set_items k (drop n (items k m)) m) in
  channels m' = upd k (ch_hand n (chan k (channels m))) (channels m) ∧ mailbox_ok m'.
Proof.
  intros Hm Hle m'. set (l := take n (items k m)) in *.
  assert (Forall (λ q, qm_kind q = k) l) as Hl by (apply Forall_take, Hm).
  assert (mb_inflight m' = map (λ q, (qm_id q, q)) (handed m ++ l)) as Hin.
  { unfold m'. cbn. rewrite od_update_fresh.
    - rewrite map_app. f_equal. apply Hm.
    - rewrite inflight_keys by done. change (fst <$> ?l) with (map fst l). rewrite map_map. cbn.
      change (λ x : qm, qm_id x) with (qm_id (Image:=Image)). rewrite <-map_app.
      eapply sublist_NoDup; [apply (mo_nodup _ Hm)|apply (fmap_sublist qm_id)].
      unfold all_messages, l. apply sublist_app; [done|].
      etrans; [apply sublist_take|]. destruct k; cbn; [by apply sublist_inserts_r|by apply sublist_inserts_l]. }
  assert (handed m' = handed m ++ l) as Hh by by apply handed_tag.
  assert (∀ k', items k' m = (if decide (k = k') then l else []) ++ items k' m') as Hi.
  { intros k'. unfold m'. change (items k' (set_inflight ?x ?y)) with (items k' y).
    rewrite items_set_items. destruct (decide (k = k')) as [<-|]; [unfold l; by rewrite take_drop|done]. }
  assert (∀ k', List.filter (of_kind k') (handed m') =
                List.filter (of_kind k') (handed m) ++ if decide (k = k') then l else []) as Hf.
  { intros k'. rewrite Hh, List.filter_app. f_equal.
    destruct (decide (k = k')) as [<-|]; [by apply of_kind_filter_all|by eapply of_kind_filter_other]. }
  split.
  - apply channels_ext; [|by destruct k]. intros k'. rewrite chan_upd, !chan_channels.
    unfold chan_of, ch_hand, mailbox_snapshot. cbn [ch_messages ch_cursor].
    change (map snd (mb_inflight ?x)) with (handed x). rewrite Hf, <-app_assoc, <-Hi, length_app.
    destruct (decide (k = k')) as [<-|]; [|by rewrite Nat.add_0_r].
    f_equal. unfold l. rewrite length_take. lia.
  - apply (mailbox_ok_perm m); [done| |by rewrite Hh|].
    + unfold all_messages. rewrite Hh. pose proof (Hi steering) as H1. pose proof (Hi follow_up) as H2.
      cbn [items] in H1, H2. clearbody m' l. rewrite H1, H2.
      destruct k; repeat case_decide; try done; cbn; solve_Permutation.
    + intros k'. pose proof (mo_kinds _ Hm k') as Hk. rewrite Hi in Hk. apply Forall_app in Hk as [_ Hk]. exact Hk.
Qed.

Definition without (id : string) : list qm → list qm :=
  List.filter (λ q, negb (bool_decide (qm_id q = id))).

Lemma without_fresh id l : id ∉ map qm_id l → without id l = l.
Proof.
  unfold without. induction l as [|q l IH]; cbn; intros Hn; [done|].
  apply not_elem_of_cons in Hn as [Hq Hn]. by rewrite bool_decide_eq_false_2, IH by done.
Qed.

Lemma filter_comm {A} (f g : A → bool) l :
  List.filter f (List.filter g l) = List.filter g (List.filter f l).
Proof.
  induction l as [|x l IH]; cbn; [done|].
  destruct (g x) eqn:Hg, (f x) eqn:Hf; cbn; rewrite ?Hg, ?Hf, ?IH; done.
Qed.

Lemma list_filter_sublist {A} (f : A → bool) l : List.filter f l `sublist_of` l.
Proof. induction l as [|x l IH]; cbn; [done|]. destruct (f x); by constructor. Qed.

Lemma elem_of_list_filter' {A} (f : A → bool) x l : x ∈ List.filter f l ↔ f x = true ∧ x ∈ l.
Proof. rewrite !list_elem_of_In, filter_In. tauto. Qed.

Lemma od_del_tagged id l :
  od_del id (map (λ q : qm, (qm_id q, q)) l) = map (λ q, (qm_id q, q)) (without id l).
Proof.
  unfold od_del, without. induction l as [|q l IH]; cbn; [done|].
  destruct (bool_decide (qm_id q = id)); cbn; by rewrite IH.
Qed.

(** Two messages of a well-formed mailbox with the same identifier are one. *)
Lemma same_id m q q' : mailbox_ok m → q ∈ all_messages m → q' ∈ all_messages m → qm_id q = qm_id q' → q = q'.
Proof.
  intros [_ _ Hn] Hq Hq' Hid. unfold all_ids in Hn. revert Hn Hq Hq'. generalize (all_messages m) as l.
  induction l as [|x l IH]; cbn; intros Hn Hq Hq'; [by apply not_elem_of_nil in Hq|].
  apply NoDup_cons in Hn as [Hx Hn].
  assert (∀ y : qm, y ∈ l → qm_id y ∈ map qm_id l) as Hin by (intros y; apply list_elem_of_fmap_2).
  apply elem_of_cons in Hq as [->|Hq], Hq' as [->|Hq']; [done| | |by apply IH].
  - rewrite Hid in Hx. by destruct Hx; apply Hin.
  - rewrite <-Hid in Hx. by destruct Hx; apply Hin.
Qed.

Lemma acknowledge_ok id m :
  mailbox_ok m → mailbox_ok (set_inflight (od_del id (mb_inflight m)) m) ∧
  ∀ k, chan_of k (set_inflight (od_del id (mb_inflight m)) m) = ch_remove id (chan_of k m).
Proof.
  intros Hm. set (m' := set_inflight _ m).
  assert (mb_inflight m' = map (λ q, (qm_id q, q)) (without id (handed m))) as Hi.
  { unfold m'. cbn. by rewrite (mo_keys _ Hm), od_del_tagged. }
  pose proof (handed_tag _ _ Hi) as Hh. split.
  - apply (mailbox_ok_sublist m); [done| |by rewrite Hh|apply Hm].
    unfold all_messages. rewrite Hh. apply sublist_app; [apply list_filter_sublist|done].
  - intros k. unfold ch_remove. rewrite taken_chan_of, waiting_chan_of.
    unfold chan_of, mailbox_snapshot. change (map snd (mb_inflight m')) with (handed m').
    rewrite Hh. unfold without. rewrite filter_comm. by destruct k.
Qed.

Lemma ch_remove_fresh id (c : channel (Image:=Image)) :
  (ch_cursor c ≤ length (ch_messages c))%nat →
  id ∉ map qm_id (ch_taken c) → ch_remove id c = c.
Proof.
  intros Hle Hn. unfold ch_remove. pose proof (without_fresh id _ Hn) as Hw. unfold without in Hw.
  rewrite Hw. unfold ch_taken, ch_waiting. rewrite take_drop, length_take.
  destruct c as [l n]. cbn in *. f_equal. lia.
Qed.

Lemma cursor_le k m : (ch_cursor (chan_of k m) ≤ length (ch_messages (chan_of k m)))%nat.
Proof. cbn. unfold mailbox_snapshot. rewrite length_app. unfold handed. lia. Qed.

(** A message in flight is in one channel only. *)
Lemma taken_one_kind id k k' m :
  mailbox_ok m → id ∈ map qm_id (ch_taken (chan_of k m)) → k ≠ k' →
  id ∉ map qm_id (ch_taken (chan_of k' m)).
Proof.
  intros Hm Hin Hk Hin'. rewrite taken_chan_of in Hin, Hin'.
  apply list_elem_of_fmap in Hin as (q & -> & Hq), Hin' as (q' & Hid & Hq').
  apply elem_of_list_filter' in Hq as [Hqk Hq], Hq' as [Hqk' Hq'].
  assert (q = q') as ->; [|unfold of_kind in *; bool_prop; congruence].
  apply (same_id m); [done| |
    |done]; unfold all_messages; set_solver.
Qed.

Lemma od_get_tagged id l :
  is_Some (od_get id (map (λ q : qm, (qm_id q, q)) l)) ↔ id ∈ map qm_id l.
Proof.
  rewrite <-not_eq_None_Some, od_get_none. change (fst <$> ?l) with (map fst l). rewrite map_map. cbn.
  destruct (decide (id ∈ map qm_id l)); naive_solver.
Qed.

Lemma in_handed_kind id m :
  id ∈ map qm_id (handed m) ↔ ∃ k, id ∈ map qm_id (ch_taken (chan_of k m)).
Proof.
  setoid_rewrite taken_chan_of. split.
  - intros (q & -> & Hq)%list_elem_of_fmap. exists (qm_kind q). apply list_elem_of_fmap_2.
    apply elem_of_list_filter'. split; [|done]. unfold of_kind. by apply bool_decide_eq_true_2.
  - intros (k & (q & -> & Hq)%list_elem_of_fmap). apply elem_of_list_filter' in Hq as [_ Hq].
    by apply list_elem_of_fmap_2.
Qed.

Lemma requeue_items (l : list qm) k k' m :
  items k' (requeue l k m) = if decide (k = k') then List.filter (of_kind k) l ++ items k m else items k' m.
Proof.
  unfold requeue. rewrite items_set_items. destruct (decide (k = k')) as [<-|]; [|done].
  generalize (List.filter (of_kind k) l) as r. intros r. generalize (items k m) as d.
  induction r as [|q r IH]; intros d; cbn; [done|]. rewrite fold_left_app. cbn. by rewrite IH.
Qed.

Lemma filter_kinds_perm (l : list qm) :
  List.filter (of_kind steering) l ++ List.filter (of_kind follow_up) l ≡ₚ l.
Proof.
  induction l as [|q l IH]; [done|]. cbn. destruct (of_kind steering q) eqn:Hs, (of_kind follow_up q) eqn:Hf;
    unfold of_kind in Hs, Hf; destruct (qm_kind q) eqn:Hk; try done; cbn.
  - by rewrite IH.
  - by rewrite <-Permutation_middle, IH.
Qed.

Lemma restore_ok m :
  mailbox_ok m →
  let m' := requeue (handed m) follow_up (requeue (handed m) steering (set_inflight [] m)) in
  mailbox_ok m' ∧ ∀ k, chan_of k m' = ch_rewind (chan_of k m).
Proof.
  intros Hm m'.
  assert (∀ k, items k m' = List.filter (of_kind k) (handed m) ++ items k m) as Hi.
  { intros k. unfold m'. rewrite !requeue_items. by destruct k. }
  assert (handed m' = []) as Hh by done.
  split.
  - apply (mailbox_ok_perm m); [done| |done|].
    + unfold all_messages. rewrite Hh. pose proof (Hi steering) as H1. pose proof (Hi follow_up) as H2.
      cbn [items] in H1, H2. rewrite H1, H2.
      transitivity ((List.filter (of_kind steering) (handed m) ++ List.filter (of_kind follow_up) (handed m))
                    ++ mb_steering m ++ mb_follow_up m); [solve_Permutation|by rewrite filter_kinds_perm].
    + intros k. rewrite Hi. apply Forall_app_2; [|apply Hm]. apply Forall_forall. intros q Hq.
      apply elem_of_list_filter' in Hq as [Hq _]. unfold of_kind in Hq. by bool_prop.
  - intros k. unfold chan_of, ch_rewind, mailbox_snapshot. cbn [ch_messages].
    change (map snd (mb_inflight ?x)) with (handed x). by rewrite Hh, Hi.
Qed.

Lemma od_del_all_tagged ids l :
  fold_left (λ d id, od_del id d) ids (map (λ q : qm, (qm_id q, q)) l) =
  map (λ q, (qm_id q, q)) (List.filter (λ q, negb (bool_decide (qm_id q ∈ ids))) l).
Proof.
  revert l. induction ids as [|id ids IH]; intros l; cbn.
  - induction l as [|q l IHl]; cbn; [done|]. by rewrite IHl.
  - rewrite od_del_tagged, IH. unfold without. f_equal. induction l as [|q l IHl]; cbn; [done|].
    case_bool_decide as Hq; cbn.
    + rewrite bool_decide_eq_true_2 by (rewrite Hq; by left). done.
    + rewrite IHl. destruct (bool_decide_reflect (qm_id q ∈ ids)), (bool_decide_reflect (qm_id q ∈ id :: ids)); cbn;
        (done || set_solver).
Qed.

Lemma snapshot_kind k m q : mailbox_ok m → q ∈ mailbox_snapshot k m → q ∈ all_messages m ∧ qm_kind q = k.
Proof.
  intros Hm. unfold mailbox_snapshot, all_messages. rewrite elem_of_app, elem_of_list_filter'.
  intros [[Hk Hq]|Hq].
  - split; [set_solver|]. unfold of_kind in Hk. by bool_prop.
  - split; [by apply (items_in_all k)|]. pose proof (mo_kinds _ Hm k) as Hf. rewrite Forall_forall in Hf. by apply Hf.
Qed.

Lemma snapshot_ids k m q :
  mailbox_ok m → q ∈ handed m → qm_id q ∈ map qm_id (mailbox_snapshot k m) ↔ qm_kind q = k.
Proof.
  intros Hm Hq. split.
  - intros (q' & Hid & Hq')%list_elem_of_fmap. apply snapshot_kind in Hq' as [Hq' Hk]; [|done].
    by rewrite (same_id m q q') by (done || unfold all_messages; set_solver).
  - intros <-. apply list_elem_of_fmap_2. unfold mailbox_snapshot. apply elem_of_app. left.
    apply elem_of_list_filter'. split; [|done]. unfold of_kind. by apply bool_decide_eq_true_2.
Qed.

Lemma clear_ok (ks : list MailboxKind) (cleared : list qm) m m2 :
  mailbox_ok m → (∀ q, q ∈ handed m → qm_id q ∈ map qm_id cleared ↔ qm_kind q ∈ ks) →
  mb_inflight m2 = mb_inflight m →
  (∀ k, items k m2 = if decide (k ∈ ks) then [] else items k m) →
  let m' := set_inflight (fold_left (λ d id, od_del id d) (map qm_id cleared) (mb_inflight m2)) m2 in
  mailbox_ok m' ∧ ∀ k, chan_of k m' = if decide (k ∈ ks) then ch_empty else chan_of k m.
Proof.
  intros Hm Hc Hin Hi m'.
  set (l := List.filter (λ q, negb (bool_decide (qm_id q ∈ map qm_id cleared))) (handed m)).
  assert (mb_inflight m' = map (λ q, (qm_id q, q)) l) as Hi'.
  { unfold m'. cbn. rewrite Hin, (mo_keys _ Hm) at 1. by rewrite od_del_all_tagged. }
  pose proof (handed_tag _ _ Hi') as Hh.
  assert (∀ k, items k m' = if decide (k ∈ ks) then [] else items k m) as Hi2 by (intros k; by rewrite <-Hi).
  assert (∀ k, items k m' `sublist_of` items k m) as Hs.
  { intros k. rewrite Hi2. destruct (decide (k ∈ ks)); [apply sublist_nil_l|done]. }
  split.
  - apply (mailbox_ok_sublist m); [done| |by rewrite Hh|].
    + unfold all_messages. rewrite Hh. repeat apply sublist_app; [apply list_filter_sublist|apply (Hs steering)|apply (Hs follow_up)].
    + intros k. rewrite Hi2. destruct (decide (k ∈ ks)); [constructor|apply Hm].
  - intros k. unfold chan_of, mailbox_snapshot. change (map snd (mb_inflight m')) with (handed m').
    rewrite Hh, Hi2. unfold l. clear - Hc.
    assert (List.filter (of_kind k) (List.filter (λ q, negb (bool_decide (qm_id q ∈ map qm_id cleared))) (handed m))
      = if decide (k ∈ ks) then [] else List.filter (of_kind k) (handed m)) as ->;
      [|by destruct (decide (k ∈ ks))].
    revert Hc. generalize (handed m) as h. induction h as [|q h IH]; intros Hc; [by destruct (decide (k ∈ ks))|].
    assert (∀ q', q' ∈ h → qm_id q' ∈ map qm_id cleared ↔ qm_kind q' ∈ ks) as Hc' by (intros q' Hq'; apply Hc; by right).
    specialize (IH Hc'). cbn. destruct (Hc q) as [H1 H2]; [by left|]. case_bool_decide as Hd; cbn.
    + rewrite IH. destruct (of_kind k q) eqn:Hk; [|by destruct (decide (k ∈ ks))].
      unfold of_kind in Hk. apply bool_decide_eq_true in Hk. rewrite <-Hk. by rewrite !decide_True by auto.
    + rewrite IH. destruct (of_kind k q) eqn:Hk; [|by destruct (decide (k ∈ ks))].
      unfold of_kind in Hk. apply bool_decide_eq_true in Hk. rewrite <-Hk. by rewrite !decide_False by auto.
Qed.

(** A call moves the mailbox the way it moves the channels. *)
Definition refines (c : call) m : Prop :=
  spec_step (channels m) c (run_call c m).1 (channels (run_call c m).2) ∧ mailbox_ok (run_call c m).2.

Lemma refines_intro c m r m' sp :
  run_call c m = (r, m') → mailbox_ok m' → spec_step (channels m) c r sp →
  (∀ k, chan_of k m' = chan k sp) → mb_closed m' = sp_closed sp → refines c m.
Proof.
  intros Hr Hok Hs Hc Hcl. unfold refines. rewrite Hr. cbn. split; [|done].
  by rewrite (channels_ext m' sp).
Qed.

Lemma refines_same c m r : mailbox_ok m → run_call c m = (r, m) → spec_step (channels m) c r (channels m) → refines c m.
Proof. intros Hm Hr Hs. unfold refines. by rewrite Hr. Qed.

Lemma enqueue_refines uuid kind text images m :
  mailbox_ok m → uuid ∉ all_ids m → refines (CEnqueue uuid kind text images) m.
Proof.
  intros Hm Hf. destruct (kind_cases kind) as [[k ->]|Hk].
  - destruct (mb_closed m) eqn:Hcl.
    + eapply refines_same; [done| |by apply (sp_enqueue_closed _ _ _ k)].
      unfold run_call, enqueue. rewrite validate_kind_name. st_eval. by rewrite Hcl.
    + destruct (enqueue_ok uuid k text images m Hm Hf) as [Hc Hok].
      unfold refines, run_call, enqueue. rewrite validate_kind_name. st_eval. rewrite Hcl. cbn.
      cbn in Hc. rewrite Hc. split; [by apply sp_enqueue|exact Hok].
  - eapply refines_same; [done| |by apply sp_enqueue_kind].
    unfold run_call, enqueue. by rewrite validate_kind_none.
Qed.

Lemma drain_refines kind mode m : mailbox_ok m → refines (CDrain kind mode) m.
Proof.
  intros Hm. destruct (kind_cases kind) as [[k ->]|Hk]; unfold refines, run_call, drain.
  2: { rewrite validate_kind_none by done. split; [by apply sp_drain_kind|done]. }
  rewrite validate_kind_name. st_eval.
  destruct (bool_decide_reflect (mode = "one-at-a-time"%string)) as [->|Hone];
    [|destruct (bool_decide_reflect (mode = "all"%string)) as [->|Hall]]; cbn [orb].
  - rewrite bool_decide_eq_false_2 by done. destruct (items k m) as [|q rest] eqn:Hq.
    + destruct (drain_ok k 0 m Hm) as [Hc Hok]; [lia|]. rewrite Hq in Hc, Hok. cbn in Hc, Hok |- *.
      rewrite Hc. split; [|exact Hok]. replace (upd _ _ _) with (channels m).
      * apply (sp_drain_none _ _ k); [done|]. by rewrite chan_channels, waiting_chan_of.
      * unfold ch_hand. rewrite Nat.add_0_r. by destruct k.
    + destruct (drain_ok k 1 m Hm) as [Hc Hok]; [rewrite Hq; cbn; lia|]. rewrite Hq in Hc, Hok.
      cbn in Hc, Hok |- *. rewrite Hc. split; [|exact Hok].
      eapply sp_drain_one; [done|]. rewrite chan_channels, waiting_chan_of. exact Hq.
  - destruct (drain_ok k (length (items k m)) m Hm) as [Hc Hok]; [lia|].
    cbn -[od_update]. rewrite Hc. split; [|exact Hok]. rewrite firstn_all.
    rewrite <-(waiting_chan_of k m), <-chan_channels. by apply sp_drain_all.
  - split; [by apply (sp_drain_mode _ _ k)|done].
Qed.

Lemma acknowledge_refines id m : mailbox_ok m → refines (CAcknowledge id) m.
Proof.
  intros Hm. destruct (acknowledge_ok id m Hm) as [Hok Hc].
  destruct (decide (id ∈ map qm_id (handed m))) as [Hid|Hid]; pose proof Hid as Hget;
    rewrite <-od_get_tagged, <-(mo_keys _ Hm) in Hget; rewrite in_handed_kind in Hid.
  - destruct Hid as [k Hid]. eapply (refines_intro _ _ (RBool true)); [|exact Hok|apply (sp_acknowledge _ _ k)| |].
    + unfold run_call, acknowledge. st_eval. cbn. by rewrite bool_decide_eq_true_2.
    + by rewrite chan_channels.
    + intros k'. rewrite Hc, chan_upd, !chan_channels.
      destruct (decide (k = k')) as [->|Hk]; [done|].
      apply ch_remove_fresh; [apply cursor_le|by apply (taken_one_kind id k k')].
    + by destruct k.
  - eapply (refines_intro _ _ (RBool false)); [|exact Hok|apply sp_acknowledge_none| |done].
    + unfold run_call, acknowledge. st_eval. cbn. by rewrite bool_decide_eq_false_2.
    + intros k. rewrite chan_channels. intros Hin. apply Hid. by exists k.
    + intros k. rewrite Hc, chan_channels. apply ch_remove_fresh; [apply cursor_le|].
      intros Hin. apply Hid. by exists k.
Qed.

Lemma restore_refines m : mailbox_ok m → refines CRestore m.
Proof.
  intros Hm. destruct (restore_ok m Hm) as [Hok Hc].
  eapply (refines_intro _ _ (RMessages (handed m))); [done|exact Hok|apply sp_restore| |done].
  - intros k. by rewrite chan_channels, taken_chan_of.
  - intros k. by rewrite Hc, !chan_upd, !chan_channels; destruct k.
Qed.

Lemma snapshot_refines kind m : mailbox_ok m → refines (CSnapshot kind) m.
Proof.
  intros Hm. destruct (kind_cases kind) as [[k ->]|Hk].
  - eapply refines_same; [done| |by apply (sp_snapshot _ _ k)].
    unfold run_call, snapshot. rewrite validate_kind_name, chan_channels. done.
  - eapply refines_same; [done| |by apply sp_snapshot_kind].
    unfold run_call, snapshot. by rewrite validate_kind_none.
Qed.

Lemma clear_kind_ok k m :
  mailbox_ok m →
  ∃ m', clear (Some (kind_name k)) m = (Ok (mailbox_snapshot k m), m') ∧ mailbox_ok m' ∧
    (∀ k', chan_of k' m' = if decide (k = k') then ch_empty else chan_of k' m) ∧ mb_closed m' = mb_closed m.
Proof.
  intros Hm. destruct (clear_ok [k] (mailbox_snapshot k m) m (set_items k [] m)) as [Hok Hc]; [done| |by destruct k| |].
  - intros q Hq. rewrite snapshot_ids by done. set_solver.
  - intros k'. rewrite items_set_items. destruct (decide (k = k')), (decide (k' ∈ [k])); set_solver.
  - eexists. split; [unfold clear; rewrite validate_kind_name; reflexivity|]. split; [exact Hok|].
    split; [|by destruct k]. intros k'. rewrite Hc. destruct (decide (k = k')), (decide (k' ∈ [k])); set_solver.
Qed.

Lemma clear_refines kind m : mailbox_ok m → refines (CClear kind) m.
Proof.
  intros Hm. destruct kind as [kind|].
  1: destruct (kind_cases kind) as [[k ->]|Hk].
  - destruct (clear_kind_ok k m Hm) as (m' & Hr & Hok & Hc & Hcl).
    eapply refines_intro; [|exact Hok|by apply (sp_clear _ _ k)| |by destruct k].
    + unfold run_call. rewrite Hr, chan_channels. done.
    + intros k'. by rewrite Hc, chan_upd, chan_channels.
  - eapply refines_same; [done| |by apply sp_clear_kind].
    unfold run_call, clear. by rewrite validate_kind_none.
  - destruct (clear_ok [steering; follow_up] (mailbox_snapshot steering m ++ mailbox_snapshot follow_up m) m
      (set_items follow_up [] (set_items steering [] m))) as [Hok Hc]; [done| |done|by intros []|].
    + intros q Hq. rewrite map_app, elem_of_app, !snapshot_ids by done. destruct (qm_kind q); set_solver.
    + eapply refines_intro; [|exact Hok|apply sp_clear_all| |done]; [done|].
      intros k. rewrite Hc. by destruct k.
Qed.

Lemma run_call_refines c m : mailbox_ok m → fresh_call c m → refines c m.
Proof.
  destruct c; cbn; eauto using enqueue_refines, drain_refines, acknowledge_refines, restore_refines,
    snapshot_refines, clear_refines.
  intros Hm _. split; [apply sp_close|]. destruct Hm. by split.
Qed.

Lemma new_mailbox_ok : mailbox_ok (Image:=Image) new_mailbox.
Proof. split; [done|by intros []|constructor]. Qed.

End mailbox_proofs.

(** *** Histories *)
Section histories.
Context {Image : Type}.

(** The calls answered so far and the mailbox they led to. *)
Inductive mailbox_history : list (call (Image:=Image) * reply (Image:=Image)) → CodingTurnMailbox Image → Prop :=
  | mh_new : mailbox_history [] new_mailbox
  | mh_call calls m c r m' :
      mailbox_history calls m → fresh_call c m → run_call c m = (r, m') →
      mailbox_history (calls ++ [(c, r)]) m'.

Inductive spec_history : list (call (Image:=Image) * reply (Image:=Image)) → spec (Image:=Image) → Prop :=
  | sh_new : spec_history [] {| sp_steering := ch_empty; sp_follow_up := ch_empty; sp_closed := false |}
  | sh_call calls sp c r sp' :
      spec_history calls sp → spec_step sp c r sp' → spec_history (calls ++ [(c, r)]) sp'.

Lemma mailbox_history_ok calls m : mailbox_history calls m → mailbox_ok m ∧ spec_history calls (channels m).
Proof.
  induction 1 as [|calls m c r m' _ [Hok Hs] Hf Hr]; [split; [apply new_mailbox_ok|constructor]|].
  destruct (run_call_refines c m Hok Hf) as [Hstep Hok']. rewrite Hr in Hstep, Hok'. cbn in Hstep, Hok'.
  split; [done|]. by econstructor.
Qed.

(** C7: The mailbox refines a pair of channels: whatever calls are made, with fresh identifiers, every
    answer - the errors included - is one the channels give, where a channel is the list of unacknowledged
    messages with a cursor that [drain] advances, [acknowledge] removes at, [restore_unacknowledged] rewinds
    and [clear] resets. *)
Theorem mailbox_refines_channels calls m : mailbox_history calls m → spec_history calls (channels m).
Proof. intros H. by apply mailbox_history_ok. Qed.

End histories.

Lemma mailbox_refines_channels_witness :
  let q := {| qm_id := "a"; qm_kind := steering; qm_text := "hi"; qm_images := [] |} in
  spec_history (Image:=Z)
    [(CEnqueue "a" "steering" "hi" [], RMessage q); (CDrain "steering" "all", RMessages [q]);
     (CRestore, RMessages [q])]
    {| sp_steering := {| ch_messages := [q]; ch_cursor := 0 |}; sp_follow_up := ch_empty; sp_closed := false |}.
Proof.
  apply (mailbox_refines_channels _ (set_items steering
    [{| qm_id := "a"; qm_kind := steering; qm_text := "hi"; qm_images := [] |}] new_mailbox)).
  apply (mh_call [_; _] (set_inflight [("a", {| qm_id := "a"; qm_kind := steering; qm_text := "hi"; qm_images := [] |})%string] new_mailbox));
    [|done|done].
  apply (mh_call [_] (set_items steering [{| qm_id := "a"; qm_kind := steering; qm_text := "hi"; qm_images := [] |}] new_mailbox));
    [|done|done].
  apply (mh_call [] new_mailbox); [constructor| |done].
  refine (bool_decide_eq_true_1 _ _). reflexivity.
Defined.

(** ** The hand-off to the agent *)
Section delivery.
Context {Image M : Type}.
Variable user_message : string → list Image → M.
Local Notation tagged := (tagged_message M).
Local Notation se := (session Image M).
Implicit Types (s : se) (k : MailboxKind).

Definition tags (l : list tagged) : list string := omap tm_queue_id l.

(** Where the identifiers of one kind are: handed out and not acknowledged,
    in the agent's queue, still waiting in the mailbox. *)
Definition taken_ids k s : list string := map qm_id (ch_taken (chan_of k (se_mailbox s))).
Definition queued_ids k s : list string := tags (PendingQueue.messages (pending k s)).
Definition waiting_ids k s : list string := map qm_id (items k (se_mailbox s)).
Definition outstanding_ids k s : list string := map qm_id (mailbox_snapshot k (se_mailbox s)).

Lemma outstanding_split k s : outstanding_ids k s = taken_ids k s ++ waiting_ids k s.
Proof. unfold outstanding_ids, taken_ids, waiting_ids. by rewrite <-map_app, taken_chan_of. Qed.

Definition with_mailbox (m : CodingTurnMailbox Image) s : se :=
  {| se_mailbox := m; se_steering := se_steering s; se_follow_up := se_follow_up s; se_updates := se_updates s |}.

Lemma pending_set_pending k k' q s : pending k' (set_pending k q s) = if decide (k = k') then q else pending k' s.
Proof. by destruct k, k'. Qed.

Lemma mailbox_set_pending k q s : se_mailbox (set_pending k q s) = se_mailbox s.
Proof. done. Qed.

Definition tagged_of (q : QueuedCodingMessage Image) : tagged :=
  {| tm_queue_id := Some (qm_id q); tm_message := user_message (qm_text q) (qm_images q) |}.

Lemma tags_tagged l : tags (map tagged_of l) = map qm_id l.
Proof. unfold tags. induction l as [|q l IH]; cbn; [done|]. by rewrite <-IH. Qed.

Definition append_pending k (l : list tagged) s : se :=
  set_pending k {| PendingQueue.messages := PendingQueue.messages (pending k s) ++ l;
                   PendingQueue.mode_all := PendingQueue.mode_all (pending k s) |} s.

Lemma send_all k l s :
  st_iter (λ queued, st_modify (λ s, set_pending k (PendingQueue.enqueue (tagged_of queued) (pending k s)) s)) l s
  = (Ok tt : result mailbox_error unit, append_pending k (map tagged_of l) s).
Proof.
  revert s. induction l as [|q l IH]; intros s; cbn.
  - unfold append_pending. rewrite app_nil_r. by destruct s as [m [] [] u], k.
  - unfold mbind, st_bind, st_modify at 1. unfold st_modify in IH. rewrite IH. f_equal. unfold append_pending.
    destruct k; cbn; by rewrite <-app_assoc.
Qed.

(** How an operation moves the identifiers of every kind. *)
Definition moves s s' (f : MailboxKind → list string * list string * list string → list string * list string * list string) : Prop :=
  mailbox_ok (se_mailbox s') ∧
  ∀ k, (taken_ids k s', queued_ids k s', waiting_ids k s') = f k (taken_ids k s, queued_ids k s, waiting_ids k s).

Lemma flush_kind_moves k s :
  mailbox_ok (se_mailbox s) →
  ∃ n s', _flush_turn_mailbox_kind user_message k s = (Ok tt, s') ∧
    moves s s' (λ k' '(t, q, w), if decide (k = k')
                  then (t ++ take n w, q ++ take n w, drop n w) else (t, q, w)).
Proof.
  intros Hm. set (m := se_mailbox s) in *. set (all := PendingQueue.mode_all (pending k s)).
  set (n := if all then length (items k m) else Nat.min 1 (length (items k m))).
  destruct (drain_ok k n m Hm) as [Hc Hok]; [unfold n; destruct all; lia|].
  set (m' := set_inflight _ _) in Hc, Hok.
  exists n, (append_pending k (map tagged_of (take n (items k m))) (with_mailbox m' s)). split.
  - unfold _flush_turn_mailbox_kind, on_mailbox, drain. st_eval. fold all m.
    rewrite validate_kind_name. rewrite <-send_all. unfold m', n. by destruct all.
  - split; [exact Hok|]. intros k'.
    assert (chan_of k' m' = if decide (k = k') then ch_hand n (chan_of k m) else chan_of k' m) as Hk.
    { rewrite <-chan_channels, Hc, chan_upd. by rewrite !chan_channels. }
    assert (items k' m' = if decide (k = k') then drop n (items k m) else items k' m) as Hi.
    { unfold m'. change (items k' (set_inflight ?a ?b)) with (items k' b). apply items_set_items. }
    unfold taken_ids, queued_ids, waiting_ids, append_pending.
    rewrite mailbox_set_pending, pending_set_pending. cbn [se_mailbox with_mailbox]. rewrite Hk, Hi. fold m.
    change (pending ?x (with_mailbox m' s)) with (pending x s).
    destruct (decide (k = k')) as [<-|]; [|done]. cbn [PendingQueue.messages].
    unfold tags. rewrite omap_app. fold (tags (map tagged_of (take n (items k m)))). rewrite tags_tagged, firstn_map, skipn_map.
    do 2 f_equal. unfold ch_taken. cbn [ch_hand ch_cursor ch_messages].
    rewrite <-map_app. f_equal. unfold chan_of, mailbox_snapshot. cbn. fold (handed m).
    rewrite take_app_length. rewrite take_app_add. done.
Qed.

(** The parts of the session the hand-off reads. *)
Definition views k s : list string * list string * list string := (taken_ids k s, queued_ids k s, waiting_ids k s).

Lemma views_emit k s : views k (snd (_emit_queue_update (Image:=Image) (M:=M) s)) = views k s.
Proof. by destruct k. Qed.

Definition keep_others (ids l : list string) : list string := List.filter (λ id, negb (bool_decide (id ∈ ids))) l.

Lemma tags_strip ids l :
  tags (List.filter (λ m, negb (tagged_in ids m)) l) = keep_others ids (tags l).
Proof.
  unfold tags, keep_others. induction l as [|m l IH]; [done|]. cbn. unfold tagged_in at 1.
  destruct (tm_queue_id m) as [id|] eqn:Hm; cbn.
  - destruct (bool_decide (id ∈ ids)); cbn; [done|]. by rewrite Hm, IH.
  - by rewrite Hm, IH.
Qed.

Lemma keep_others_nil l : keep_others [] l = l.
Proof. unfold keep_others. induction l as [|x l IH]; cbn; [done|]. by rewrite IH. Qed.

Lemma map_qm_id_filter id (l : list (QueuedCodingMessage Image)) :
  map qm_id (without id l) = keep_others [id] (map qm_id l).
Proof.
  unfold without, keep_others. induction l as [|q l IH]; cbn; [done|].
  destruct (bool_decide_reflect (qm_id q = id)), (bool_decide_reflect (qm_id q ∈ [id])); cbn; rewrite ?IH; (done || set_solver).
Qed.

Lemma start_moves msg s :
  mailbox_ok (se_mailbox s) →
  ∃ s', on_message_start msg s = (Ok tt : result mailbox_error unit, s') ∧ mailbox_ok (se_mailbox s') ∧
    ∀ k, views k s' = let '(t, q, w) := views k s in
                      (match tm_queue_id msg with Some id => keep_others [id] t | None => t end, q, w).
Proof.
  intros Hm. unfold on_message_start. destruct (tm_queue_id msg) as [id|] eqn:Hid.
  2: { exists s. split; [done|]. by split. }
  destruct (acknowledge_ok id (se_mailbox s) Hm) as [Hok Hc].
  set (m' := set_inflight _ _) in Hok, Hc.
  assert (∀ k, views k (with_mailbox m' s) = let '(t, q, w) := views k s in (keep_others [id] t, q, w)) as Hv.
  { intros k. unfold views. assert (taken_ids k (with_mailbox m' s) = keep_others [id] (taken_ids k s)) as ->;
      [|by destruct k]. unfold taken_ids. cbn [se_mailbox with_mailbox].
    rewrite Hc. unfold ch_remove, ch_taken at 1. cbn [ch_messages ch_cursor]. rewrite take_app_length.
    fold (without (Image:=Image) id). by rewrite map_qm_id_filter. }
  unfold on_mailbox, acknowledge. st_eval.
  destruct (bool_decide (is_Some (od_get id (mb_inflight (se_mailbox s))))).
  - eexists. split; [reflexivity|]. split; [exact Hok|]. intros k. rewrite <-Hv. by destruct k.
  - eexists. split; [reflexivity|]. split; [exact Hok|]. exact Hv.
Qed.

Lemma agent_end_moves s :
  mailbox_ok (se_mailbox s) →
  ∃ s', on_agent_end s = (Ok tt : result mailbox_error unit, s') ∧ mailbox_ok (se_mailbox s') ∧
    ∀ k, views k s' = let '(t, q, w) := views k s in
                      ([], keep_others (map qm_id (handed (se_mailbox s))) q, t ++ w).
Proof.
  intros Hm. set (m := se_mailbox s) in *. destruct (restore_ok m Hm) as [Hok Hc].
  set (m' := requeue _ _ _) in Hok, Hc.
  assert (∀ k, taken_ids k (with_mailbox m' s) = [] ∧ waiting_ids k (with_mailbox m' s) = taken_ids k s ++ waiting_ids k s) as Hv.
  { intros k. unfold taken_ids, waiting_ids. rewrite <-!waiting_chan_of. cbn [se_mailbox with_mailbox]. fold m.
    rewrite Hc. split; [done|]. rewrite <-map_app. unfold ch_taken, ch_waiting. by rewrite take_drop. }
  unfold on_agent_end, _restore_unacknowledged_turn_messages, on_mailbox, restore_unacknowledged. st_eval.
  fold (handed (se_mailbox s)). fold m. fold m'. case_bool_decide as Hr.
  - eexists. split; [reflexivity|]. split; [exact Hok|]. intros k. destruct (Hv k) as [H1 H2].
    unfold views. fold (with_mailbox m' s). by rewrite H1, H2, Hr, keep_others_nil.
  - eexists. split; [reflexivity|]. split; [exact Hok|]. intros k. destruct (Hv k) as [H1 H2].
    unfold views. rewrite <-H1, <-H2. unfold queued_ids. rewrite <-tags_strip. by destruct k.
Qed.

Lemma clear_queue_moves s :
  mailbox_ok (se_mailbox s) →
  ∃ s', clear_queue s = (Ok (get_queued_messages steering s, get_queued_messages follow_up s)
                          : result mailbox_error _, s') ∧
    mailbox_ok (se_mailbox s') ∧ ∀ k, views k s' = ([], [], []).
Proof.
  intros Hm.
  destruct (clear_kind_ok steering _ Hm) as (m1 & Hr1 & Hm1 & Hc1 & _).
  destruct (clear_kind_ok follow_up m1 Hm1) as (m2 & Hr2 & Hm2 & Hc2 & _).
  assert (mailbox_snapshot follow_up m1 = mailbox_snapshot follow_up (se_mailbox s)) as Hf.
  { pose proof (f_equal ch_messages (Hc1 follow_up)) as Hf. exact Hf. }
  assert (∀ k, chan_of k m2 = ch_empty) as Hc by (intros []; [by rewrite Hc2, Hc1|by rewrite Hc2]).
  unfold clear_queue, on_mailbox. st_eval. rewrite Hr1. cbn [se_mailbox]. rewrite Hr2.
  eexists. split; [unfold get_queued_messages; rewrite Hf; reflexivity|]. split; [exact Hm2|].
  intros k. unfold views, taken_ids, waiting_ids. cbn [se_mailbox set_pending]. rewrite <-waiting_chan_of, Hc.
  by destruct k.
Qed.

(** A prefix of what waits is handed to the agent. *)
Definition hand_over (v v' : list string * list string * list string) : Prop :=
  ∃ n, v' = let '(t, q, w) := v in (t ++ take n w, q ++ take n w, drop n w).

Lemma hand_over_refl v : hand_over v v.
Proof. exists 0%nat. destruct v as [[t q] w]. cbn. by rewrite !app_nil_r. Qed.

Lemma hand_over_eq v v' : v' = v → hand_over v v'.
Proof. intros ->. apply hand_over_refl. Qed.

Lemma flush_kind_hand_over k s :
  mailbox_ok (se_mailbox s) →
  ∃ s', _flush_turn_mailbox_kind user_message k s = (Ok tt, s') ∧ mailbox_ok (se_mailbox s') ∧
    ∀ k', hand_over (views k' s) (views k' s') ∧ (k ≠ k' → views k' s' = views k' s).
Proof.
  intros Hm. destruct (flush_kind_moves k s Hm) as (n & s' & Hr & Hok & Hv).
  exists s'. split; [done|]. split; [done|]. intros k'. unfold views. rewrite Hv.
  destruct (decide (k = k')) as [<-|Hk]; [|by split; [apply hand_over_refl|]].
  split; [by exists n|done].
Qed.

Lemma flush_hand_over s :
  mailbox_ok (se_mailbox s) →
  ∃ s', _flush_turn_mailbox user_message s = (Ok tt, s') ∧ mailbox_ok (se_mailbox s') ∧
    ∀ k, hand_over (views k s) (views k s').
Proof.
  intros Hm. destruct (flush_kind_hand_over steering s Hm) as (s1 & Hr1 & Hm1 & Hv1).
  destruct (flush_kind_hand_over follow_up s1 Hm1) as (s2 & Hr2 & Hm2 & Hv2).
  exists s2. unfold _flush_turn_mailbox. st_eval. rewrite Hr1. split; [exact Hr2|]. split; [done|]. intros [].
  - rewrite (proj2 (Hv2 steering)) by done. apply Hv1.
  - rewrite <-(proj2 (Hv1 follow_up)) by done. apply Hv2.
Qed.

Lemma input_closed uuid streaming k text images s :
  mb_closed (se_mailbox s) = true →
  _queue_turn_input user_message uuid streaming k text images s = (Err is_closed, s).
Proof.
  intros Hc. unfold _queue_turn_input, on_mailbox, enqueue. rewrite validate_kind_name. st_eval. rewrite Hc.
  by destruct s.
Qed.

Lemma input_moves uuid streaming k text images s :
  mailbox_ok (se_mailbox s) → uuid ∉ all_ids (se_mailbox s) → mb_closed (se_mailbox s) = false →
  ∃ s', _queue_turn_input user_message uuid streaming k text images s = (Ok uuid, s') ∧
    mailbox_ok (se_mailbox s') ∧
    ∀ k', let '(t, q, w) := views k' s in
          hand_over (t, q, w ++ if decide (k = k') then [uuid] else []) (views k' s').
Proof.
  intros Hm Hf Hcl. destruct (enqueue_ok uuid k text images _ Hm Hf) as [Hc Hok].
  set (item := {| qm_id := uuid |}) in Hc, Hok. set (m := set_items _ _ _) in Hc, Hok.
  set (s1 := with_mailbox m s).
  assert (∀ k', views k' s1 = let '(t, q, w) := views k' s in (t, q, w ++ if decide (k = k') then [uuid] else [])) as Hv.
  { intros k'. unfold views, s1, taken_ids, waiting_ids. rewrite <-!waiting_chan_of. cbn [se_mailbox with_mailbox].
    rewrite <-!chan_channels, Hc, chan_upd.
    destruct (decide (k = k')) as [<-|]; [|rewrite app_nil_r; by destruct k'].
    unfold ch_taken, ch_waiting, ch_append. cbn [ch_messages ch_cursor].
    rewrite chan_channels. pose proof (cursor_le k (se_mailbox s)) as Hle.
    rewrite take_app_le, drop_app_le, map_app by done. by destruct k. }
  unfold _queue_turn_input, on_mailbox, enqueue. rewrite validate_kind_name. st_eval. rewrite Hcl. cbn [negb].
  fold item. fold m. cbn [require]. fold (with_mailbox m s). fold s1. destruct streaming; cbn [negb].
  - eexists. split; [reflexivity|]. split; [exact Hok|]. intros k'. pose proof (Hv k') as Hk.
    destruct (views k' s) as [[t q] w]. rewrite <-Hk. exact (hand_over_refl (views k' s1)).
  - destruct (flush_kind_hand_over k s1 Hok) as (s2 & -> & Hm2 & Hv2).
    eexists. split; [reflexivity|]. split; [exact Hm2|]. intros k'. pose proof (Hv k') as Hk.
    destruct (views k' s) as [[t q] w]. rewrite <-Hk. apply (Hv2 k').
Qed.

(** *** The system: the session, and the run that consumes its queues *)

(** [dl_loop] holds what the run took from the agent's queues and has not
    started; the other lists record the identifiers accepted by the session,
    started by the run, and removed by [clear_queue]. *)
Record delivery : Type := {
  dl_session : se;
  dl_loop : list (MailboxKind * tagged);
  dl_accepted : list (MailboxKind * string);
  dl_started : list (MailboxKind * string);
  dl_cleared : list string
}.

Definition start_tag (k : MailboxKind) (m : tagged) : list (MailboxKind * string) :=
  match tm_queue_id m with Some id => [(k, id)] | None => [] end.

Inductive delivery_step (d : delivery) : delivery → Prop :=
  | ds_input uuid streaming k text images id s' :
      uuid ∉ (dl_accepted d).*2 →
      _queue_turn_input user_message uuid streaming k text images (dl_session d) = (Ok id, s') →
      delivery_step d {| dl_session := s'; dl_loop := dl_loop d;
        dl_accepted := dl_accepted d ++ [(k, id)]; dl_started := dl_started d; dl_cleared := dl_cleared d |}
  | ds_rejected uuid streaming k text images e s' :
      uuid ∉ (dl_accepted d).*2 →
      _queue_turn_input user_message uuid streaming k text images (dl_session d) = (Err e, s') →
      delivery_step d {| dl_session := s'; dl_loop := dl_loop d; dl_accepted := dl_accepted d;
        dl_started := dl_started d; dl_cleared := dl_cleared d |}
  | ds_next_turn s' :
      _flush_turn_mailbox user_message (dl_session d) = (Ok tt, s') →
      delivery_step d {| dl_session := s'; dl_loop := dl_loop d; dl_accepted := dl_accepted d;
        dl_started := dl_started d; dl_cleared := dl_cleared d |}
  | ds_clear r s' :
      clear_queue (dl_session d) = (Ok r, s') →
      delivery_step d {| dl_session := s'; dl_loop := dl_loop d; dl_accepted := dl_accepted d;
        dl_started := dl_started d;
        dl_cleared := dl_cleared d ++ outstanding_ids steering (dl_session d) ++
                      outstanding_ids follow_up (dl_session d) |}
  | ds_poll k ms q :
      PendingQueue.drain (pending k (dl_session d)) = (ms, q) →
      delivery_step d {| dl_session := set_pending k q (dl_session d);
        dl_loop := dl_loop d ++ map (pair k) ms; dl_accepted := dl_accepted d;
        dl_started := dl_started d; dl_cleared := dl_cleared d |}
  | ds_start k m rest s' :
      dl_loop d = (k, m) :: rest → on_message_start m (dl_session d) = (Ok tt, s') →
      delivery_step d {| dl_session := s'; dl_loop := rest; dl_accepted := dl_accepted d;
        dl_started := dl_started d ++ start_tag k m; dl_cleared := dl_cleared d |}
  | ds_end s' :
      on_agent_end (dl_session d) = (Ok tt, s') →
      delivery_step d {| dl_session := s'; dl_loop := []; dl_accepted := dl_accepted d;
        dl_started := dl_started d; dl_cleared := dl_cleared d |}
  | ds_untagged k m :
      tm_queue_id m = None →
      delivery_step d {| dl_session := set_pending k (PendingQueue.enqueue m (pending k (dl_session d))) (dl_session d);
        dl_loop := dl_loop d; dl_accepted := dl_accepted d; dl_started := dl_started d;
        dl_cleared := dl_cleared d |}
  | ds_mode k b :
      delivery_step d {| dl_session := set_pending k
          {| PendingQueue.messages := PendingQueue.messages (pending k (dl_session d)); PendingQueue.mode_all := b |}
          (dl_session d);
        dl_loop := dl_loop d; dl_accepted := dl_accepted d; dl_started := dl_started d;
        dl_cleared := dl_cleared d |}
  | ds_close :
      delivery_step d {| dl_session := with_mailbox (snd (close (se_mailbox (dl_session d)) : result mailbox_error unit * _))
          (dl_session d);
        dl_loop := dl_loop d; dl_accepted := dl_accepted d; dl_started := dl_started d;
        dl_cleared := dl_cleared d |}.

Definition new_delivery (steer_all follow_all : bool) : delivery :=
  {| dl_session := {| se_mailbox := new_mailbox;
       se_steering := {| PendingQueue.messages := []; PendingQueue.mode_all := steer_all |};
       se_follow_up := {| PendingQueue.messages := []; PendingQueue.mode_all := follow_all |};
       se_updates := [] |};
     dl_loop := []; dl_accepted := []; dl_started := []; dl_cleared := [] |}.

Inductive delivery_reachable : delivery → Prop :=
  | dr_new a b : delivery_reachable (new_delivery a b)
  | dr_step d d' : delivery_reachable d → delivery_step d d' → delivery_reachable d'.

(** The identifiers of one kind, in order. *)
Definition ids_of {A} (k : MailboxKind) (l : list (MailboxKind * A)) : list A :=
  omap (λ p, if decide (p.1 = k) then Some p.2 else None) l.

Definition loop_ids (k : MailboxKind) (d : delivery) : list string := tags (ids_of k (dl_loop d)).

(** *** The invariant, kind by kind *)
Record kind_ok (started loop accepted cleared : list string) (v : list string * list string * list string) : Prop := {
  ko_order : (started ++ loop ++ v.1.2 ++ v.2) `sublist_of` accepted;
  ko_taken : v.1.1 = keep_others cleared loop ++ v.1.2;
  ko_lost : ∀ id, id ∈ accepted → id ∈ started ∨ id ∈ cleared ∨ id ∈ v.1.1 ∨ id ∈ v.2;
  ko_cleared : ∀ id, id ∈ v.1.2 ++ v.2 → id ∉ cleared
}.

Record delivery_ok (d : delivery) : Prop := {
  do_mailbox : mailbox_ok (se_mailbox (dl_session d));
  do_nodup : NoDup (dl_accepted d).*2;
  do_cleared : ∀ id, id ∈ dl_cleared d → id ∈ (dl_accepted d).*2;
  do_kind : ∀ k, kind_ok (ids_of k (dl_started d)) (loop_ids k d) (ids_of k (dl_accepted d)) (dl_cleared d)
                   (views k (dl_session d))
}.

Lemma elem_of_keep_others ids id l : id ∈ keep_others ids l ↔ id ∉ ids ∧ id ∈ l.
Proof. unfold keep_others. rewrite elem_of_list_filter'. case_bool_decide; naive_solver. Qed.

Lemma keep_others_app ids l l' : keep_others ids (l ++ l') = keep_others ids l ++ keep_others ids l'.
Proof. apply List.filter_app. Qed.

Lemma keep_others_disjoint ids l : (∀ id, id ∈ l → id ∉ ids) → keep_others ids l = l.
Proof.
  unfold keep_others. induction l as [|x l IH]; cbn; intros H; [done|].
  rewrite bool_decide_eq_false_2 by (apply H; by left). cbn. rewrite IH; [done|]. intros id Hid. apply H. by right.
Qed.

Lemma keep_others_all ids l : (∀ id, id ∈ l → id ∈ ids) → keep_others ids l = [].
Proof.
  unfold keep_others. induction l as [|x l IH]; cbn; intros H; [done|].
  rewrite bool_decide_eq_true_2 by (apply H; by left). cbn. apply IH. intros id Hid. apply H. by right.
Qed.

Lemma keep_others_sublist ids l : keep_others ids l `sublist_of` l.
Proof. apply list_filter_sublist. Qed.

Lemma kind_ok_accepted st lp acc cl v : kind_ok st lp acc cl v →
  ∀ id, id ∈ st ∨ id ∈ lp ∨ id ∈ v.1.1 ∨ id ∈ v.1.2 ∨ id ∈ v.2 → id ∈ acc.
Proof.
  intros [Ho Ht _ _] id Hid. eapply elem_of_sublist; [|exact Ho]. rewrite !elem_of_app.
  rewrite Ht, elem_of_app, elem_of_keep_others in Hid. naive_solver.
Qed.

Lemma kind_ok_hand_over st lp acc cl v v' : kind_ok st lp acc cl v → hand_over v v' → kind_ok st lp acc cl v'.
Proof.
  intros [Ho Ht Hl Hc] [n ->]. destruct v as [[t q] w]. cbn in *. rewrite <-(take_drop n w) in Ho, Hl, Hc.
  split; cbn.
  - by rewrite <-app_assoc.
  - by rewrite Ht, app_assoc.
  - intros id Hid. specialize (Hl id Hid). set_solver.
  - intros id Hid. apply Hc. set_solver.
Qed.

Lemma kind_ok_append st lp acc cl t q w id : id ∉ cl →
  kind_ok st lp acc cl (t, q, w) → kind_ok st lp (acc ++ [id]) cl (t, q, w ++ [id]).
Proof.
  intros Hid [Ho Ht Hl Hc]. cbn in *. split; cbn; [|done| |].
  - rewrite !app_assoc. rewrite !app_assoc in Ho. by apply sublist_app.
  - intros x. rewrite !elem_of_app, list_elem_of_singleton. intros [Hx|Hx]; [|by auto].
    specialize (Hl x Hx). naive_solver.
  - intros x. rewrite !elem_of_app, list_elem_of_singleton. specialize (Hc x). rewrite elem_of_app in Hc. naive_solver.
Qed.

Lemma kind_ok_clear st lp acc cl cl' v :
  (∀ id, id ∈ cl ∨ id ∈ v.1.1 ∨ id ∈ v.2 → id ∈ cl') →
  kind_ok st lp acc cl v → kind_ok st lp acc cl' ([], [], []).
Proof.
  intros Hcl [Ho Ht Hl Hc]. split; cbn.
  - etrans; [|exact Ho]. rewrite app_nil_r. apply sublist_app; [done|]. by apply sublist_inserts_r.
  - rewrite keep_others_all; [done|]. intros id Hid. apply Hcl.
    destruct (decide (id ∈ cl)); [by left|]. right; left. rewrite Ht, elem_of_app, elem_of_keep_others. by left.
  - intros id Hid. specialize (Hl id Hid). naive_solver.
  - set_solver.
Qed.

Lemma kind_ok_poll st lp acc cl t q1 q2 w :
  kind_ok st lp acc cl (t, q1 ++ q2, w) → kind_ok st (lp ++ q1) acc cl (t, q2, w).
Proof.
  intros [Ho Ht Hl Hc]. cbn in *. split; cbn; [|rewrite Ht| |].
  - rewrite <-!app_assoc. by rewrite <-!app_assoc in Ho.
  - rewrite keep_others_app, (keep_others_disjoint cl q1), app_assoc; [done|]. intros id Hid. apply Hc. set_solver.
  - done.
  - intros id Hid. apply Hc. set_solver.
Qed.

Lemma kind_ok_start st lp acc cl t q w id :
  NoDup acc → kind_ok st (id :: lp) acc cl (t, q, w) →
  kind_ok (st ++ [id]) lp acc cl (keep_others [id] t, q, w).
Proof.
  intros Hn [Ho Ht Hl Hc]. cbn in *.
  assert (NoDup (id :: lp ++ q ++ w)) as Hn'.
  { eapply sublist_NoDup; [exact Hn|]. etrans; [|exact Ho]. by apply sublist_inserts_l. }
  apply NoDup_cons in Hn' as [Hid _]. split; cbn.
  - by rewrite <-app_assoc.
  - rewrite Ht, keep_others_app, (keep_others_disjoint [id] q) by set_solver. f_equal.
    unfold keep_others at 2. cbn. fold (keep_others cl lp).
    assert (∀ x, x ∈ keep_others cl lp → x ∉ [id]) as Hd.
    { intros x [_ Hx]%elem_of_keep_others. set_solver. }
    case_bool_decide as Hx; cbn; [by apply keep_others_disjoint|].
    unfold keep_others at 1. cbn. rewrite bool_decide_eq_true_2 by set_solver. by apply keep_others_disjoint.
  - intros x Hx. rewrite elem_of_keep_others, elem_of_app, list_elem_of_singleton.
    destruct (decide (x = id)) as [->|]; [naive_solver|]. specialize (Hl x Hx). set_solver.
  - done.
Qed.

Lemma kind_ok_end st lp acc cl t q w h :
  (∀ id, id ∈ t → id ∈ h) → kind_ok st lp acc cl (t, q, w) →
  kind_ok st [] acc cl ([], keep_others h q, t ++ w).
Proof.
  intros Hh [Ho Ht Hl Hc]. cbn in *.
  rewrite (keep_others_all h q) by (intros id Hid; apply Hh; rewrite Ht; set_solver).
  split; cbn; [|done| |].
  - etrans; [|exact Ho]. rewrite Ht, <-app_assoc. repeat apply sublist_app; try done. apply keep_others_sublist.
  - intros id Hid. specialize (Hl id Hid). set_solver.
  - intros id. rewrite elem_of_app, Ht, elem_of_app, elem_of_keep_others. specialize (Hc id). set_solver.
Qed.

Lemma ids_of_app {A} k (l l' : list (MailboxKind * A)) : ids_of k (l ++ l') = ids_of k l ++ ids_of k l'.
Proof. apply omap_app. Qed.

Lemma ids_of_one {A} k k' (x : A) : ids_of k' [(k, x)] = if decide (k = k') then [x] else [].
Proof. unfold ids_of. cbn. by destruct (decide (k = k')). Qed.

Lemma ids_of_pairs {A} k k' (l : list A) : ids_of k' (map (pair k) l) = if decide (k = k') then l else [].
Proof.
  unfold ids_of. induction l as [|x l IH]; cbn; [by destruct (decide _)|].
  change (omap ?f (map (pair k) l)) with (omap f (map (pair k) l)) in IH.
  destruct (decide (k = k')); cbn; by rewrite IH.
Qed.

Lemma ids_of_sublist {A} k (l : list (MailboxKind * A)) : ids_of k l `sublist_of` l.*2.
Proof.
  unfold ids_of. induction l as [|[k' x] l IH]; cbn; [done|]. destruct (decide (k' = k)); by constructor.
Qed.

Lemma elem_of_ids_of {A} k (l : list (MailboxKind * A)) x : x ∈ ids_of k l ↔ (k, x) ∈ l.
Proof.
  unfold ids_of. rewrite list_elem_of_omap. split.
  - intros ([k' y] & Hin & Hy). cbn in Hy. case_decide; simplify_eq. done.
  - intros H. exists (k, x). split; [done|]. cbn. by rewrite decide_True.
Qed.

(** An identifier was accepted for one kind only. *)
Lemma ids_of_disjoint k k' x (l : list (MailboxKind * string)) :
  NoDup l.*2 → x ∈ ids_of k l → x ∈ ids_of k' l → k = k'.
Proof.
  rewrite !elem_of_ids_of. intros Hn H H'. induction l as [|[k1 y] l IH]; [by apply not_elem_of_nil in H|].
  cbn in Hn. apply NoDup_cons in Hn as [Hy Hn].
  assert (∀ k2, (k2, y) ∉ l) as Hno by (intros k2 Hin; apply Hy; by apply (list_elem_of_fmap_2 snd) in Hin).
  apply elem_of_cons in H as [[= -> ->]|H], H' as [[= -> ]|H']; [done| | |by apply IH].
  - by destruct (Hno k').
  - simplify_eq. by destruct (Hno k).
Qed.

Lemma delivery_ids_accepted d : delivery_ok d → ∀ id, id ∈ all_ids (se_mailbox (dl_session d)) → id ∈ (dl_accepted d).*2.
Proof.
  intros [Hm _ _ Hk] id Hid.
  assert (∀ k, id ∈ taken_ids k (dl_session d) ∨ id ∈ waiting_ids k (dl_session d) → id ∈ (dl_accepted d).*2) as H.
  { intros k H. eapply elem_of_sublist; [|apply (ids_of_sublist k)].
    eapply kind_ok_accepted; [apply Hk|]. cbn. tauto. }
  unfold all_ids, all_messages in Hid. rewrite !map_app, !elem_of_app, in_handed_kind in Hid.
  destruct Hid as [[k Hid]|[Hid|Hid]]; [apply (H k)|apply (H steering)|apply (H follow_up)]; auto.
Qed.

Lemma not_cleared_fresh d id : delivery_ok d → id ∉ (dl_accepted d).*2 → id ∉ dl_cleared d.
Proof. intros Hd Hn Hin. by apply Hn, (do_cleared _ Hd). Qed.

Lemma loop_ids_head k m rest d : dl_loop d = (k, m) :: rest →
  ∀ k', loop_ids k' d = (if decide (k = k') then match tm_queue_id m with Some id => [id] | None => [] end else [])
                        ++ tags (ids_of k' rest).
Proof.
  intros Hl k'. unfold loop_ids. rewrite Hl. unfold ids_of. cbn. destruct (decide (k = k')); [|done].
  unfold tags. cbn. by destruct (tm_queue_id m).
Qed.

Lemma step_input_ok d uuid streaming k text images id s' :
  delivery_ok d → uuid ∉ (dl_accepted d).*2 →
  _queue_turn_input user_message uuid streaming k text images (dl_session d) = (Ok id, s') →
  delivery_ok {| dl_session := s'; dl_loop := dl_loop d; dl_accepted := dl_accepted d ++ [(k, id)];
                 dl_started := dl_started d; dl_cleared := dl_cleared d |}.
Proof.
  intros Hd Hf Hr. pose proof (not_cleared_fresh d uuid Hd Hf) as Hncl.
  destruct (mb_closed (se_mailbox (dl_session d))) eqn:Hcl; [by rewrite input_closed in Hr by done|].
  destruct (input_moves uuid streaming k text images (dl_session d)) as (s'' & Hr' & Hm & Hv); [apply Hd| |done|].
  { intros Hin. by apply Hf, (delivery_ids_accepted d). }
  rewrite Hr' in Hr. injection Hr as <- <-. destruct Hd as [Hm0 Hn Hc Hk].
  split; cbn -[ids_of views]; [done| | |].
  - rewrite fmap_app. cbn. apply NoDup_app. split_and!; [done|set_solver|repeat constructor; set_solver].
  - intros x Hx. rewrite fmap_app. apply elem_of_app. left. by apply Hc.
  - intros k'. specialize (Hv k'). specialize (Hk k'). destruct (views k' (dl_session d)) as [[t q] w].
    rewrite ids_of_app, ids_of_one. apply (kind_ok_hand_over _ _ _ _ _ _ ) with (2 := Hv).
    destruct (decide (k = k')); [by apply kind_ok_append|by rewrite !app_nil_r].
Qed.

Lemma step_start_ok d k m rest s' :
  delivery_ok d → dl_loop d = (k, m) :: rest → on_message_start m (dl_session d) = (Ok tt, s') →
  delivery_ok {| dl_session := s'; dl_loop := rest; dl_accepted := dl_accepted d;
                 dl_started := dl_started d ++ start_tag k m; dl_cleared := dl_cleared d |}.
Proof.
  intros Hd Hl Hr. destruct (start_moves m (dl_session d) (do_mailbox _ Hd)) as (s'' & Hr' & Hm & Hv).
  rewrite Hr' in Hr. injection Hr as <-. split; cbn -[ids_of views loop_ids]; [done|apply Hd|apply Hd|].
  intros k'. rewrite Hv. pose proof (do_kind _ Hd k') as Hk. rewrite (loop_ids_head _ _ _ _ Hl) in Hk.
  unfold loop_ids, start_tag. cbn [dl_loop]. rewrite ids_of_app.
  destruct (tm_queue_id m) as [id|] eqn:Hid; destruct (views k' (dl_session d)) as [[t q] w] eqn:Hvk;
    [rewrite ids_of_one|by destruct (decide (k = k')); cbn in *; rewrite app_nil_r].
  destruct (decide (k = k')) as [<-|Hne].
  - apply kind_ok_start; [|done]. eapply sublist_NoDup; [apply (do_nodup _ Hd)|apply ids_of_sublist].
  - cbn. rewrite app_nil_r, keep_others_disjoint; [done|]. intros x Hx ->%list_elem_of_singleton. apply Hne.
    apply (ids_of_disjoint k k' id (dl_accepted d)); [apply Hd| |].
    + pose proof (do_kind _ Hd k) as Hkk. rewrite (loop_ids_head _ _ _ _ Hl), decide_True, Hid in Hkk by done.
      eapply (kind_ok_accepted _ _ _ _ _ Hkk). right; left. cbn. by left.
    + eapply (kind_ok_accepted _ _ _ _ _ Hk). cbn. by auto.
Qed.

Lemma pending_drain_split (q q' : PendingQueue.PendingMessageQueue tagged) ms :
  PendingQueue.drain q = (ms, q') → PendingQueue.messages q = ms ++ PendingQueue.messages q'.
Proof.
  unfold PendingQueue.drain. destruct (PendingQueue.mode_all q).
  - intros [= <- <-]. cbn. by rewrite app_nil_r.
  - destruct (PendingQueue.messages q) eqn:Hq; intros [= <- <-]; [by rewrite Hq|done].
Qed.

(** A step that leaves the bookkeeping alone and moves the session's messages forward. *)
Lemma step_session_ok d s' :
  delivery_ok d → mailbox_ok (se_mailbox s') → (∀ k, hand_over (views k (dl_session d)) (views k s')) →
  delivery_ok {| dl_session := s'; dl_loop := dl_loop d; dl_accepted := dl_accepted d;
                 dl_started := dl_started d; dl_cleared := dl_cleared d |}.
Proof.
  intros Hd Hm Hv. split; cbn -[ids_of views loop_ids]; [done|apply Hd..|]. intros k.
  eapply kind_ok_hand_over; [apply Hd|apply Hv].
Qed.

Lemma step_poll_ok d k ms q :
  delivery_ok d → PendingQueue.drain (pending k (dl_session d)) = (ms, q) →
  delivery_ok {| dl_session := set_pending k q (dl_session d); dl_loop := dl_loop d ++ map (pair k) ms;
                 dl_accepted := dl_accepted d; dl_started := dl_started d; dl_cleared := dl_cleared d |}.
Proof.
  intros Hd Hq%pending_drain_split. split; cbn -[ids_of views loop_ids]; [apply Hd..|]. intros k'.
  pose proof (do_kind _ Hd k') as Hk. unfold views, queued_ids in Hk |- *.
  unfold loop_ids at 1. cbn [dl_loop]. rewrite pending_set_pending, ids_of_app, ids_of_pairs. unfold tags at 1.
  rewrite omap_app. fold (tags (ids_of k' (dl_loop d))). fold (loop_ids k' d).
  destruct (decide (k = k')) as [<-|].
  - apply kind_ok_poll. unfold tags in Hk. rewrite Hq, omap_app in Hk. exact Hk.
  - cbn. by rewrite app_nil_r.
Qed.

Lemma taken_in_handed k s id : id ∈ taken_ids k s → id ∈ map qm_id (handed (se_mailbox s)).
Proof. intros H. apply in_handed_kind. by exists k. Qed.

Lemma step_end_ok d s' :
  delivery_ok d → on_agent_end (dl_session d) = (Ok tt : result mailbox_error unit, s') →
  delivery_ok {| dl_session := s'; dl_loop := []; dl_accepted := dl_accepted d;
                 dl_started := dl_started d; dl_cleared := dl_cleared d |}.
Proof.
  intros Hd Hr. destruct (agent_end_moves (dl_session d) (do_mailbox _ Hd)) as (s'' & Hr' & Hm & Hv).
  rewrite Hr' in Hr. injection Hr as <-. split; cbn -[ids_of views loop_ids]; [done|apply Hd..|]. intros k.
  rewrite Hv. pose proof (do_kind _ Hd k) as Hk. unfold views in Hk |- *.
  eapply kind_ok_end; [|exact Hk]. apply taken_in_handed.
Qed.

Lemma step_clear_ok d r s' :
  delivery_ok d → clear_queue (dl_session d) = (Ok r : result mailbox_error _, s') →
  delivery_ok {| dl_session := s'; dl_loop := dl_loop d; dl_accepted := dl_accepted d;
                 dl_started := dl_started d;
                 dl_cleared := dl_cleared d ++ outstanding_ids steering (dl_session d) ++
                               outstanding_ids follow_up (dl_session d) |}.
Proof.
  intros Hd Hr. destruct (clear_queue_moves (dl_session d) (do_mailbox _ Hd)) as (s'' & Hr' & Hm & Hv).
  rewrite Hr' in Hr. injection Hr as _ <-.
  split; cbn -[ids_of views loop_ids outstanding_ids]; [done|apply Hd| |].
  - intros id. rewrite !elem_of_app. rewrite !outstanding_split, !elem_of_app.
    assert (∀ k, id ∈ taken_ids k (dl_session d) ∨ id ∈ waiting_ids k (dl_session d) → id ∈ (dl_accepted d).*2) as H.
    { intros k H. eapply elem_of_sublist; [|apply (ids_of_sublist k)].
      eapply kind_ok_accepted; [apply Hd|]. cbn. tauto. }
    pose proof (H steering). pose proof (H follow_up). pose proof (do_cleared _ Hd id). tauto.
  - intros k. rewrite Hv. eapply kind_ok_clear; [|apply Hd]. cbn [views fst snd].
    intros id. rewrite !elem_of_app. rewrite !outstanding_split, !elem_of_app. destruct k; tauto.
Qed.

Lemma delivery_step_ok d d' : delivery_ok d → delivery_step d d' → delivery_ok d'.
Proof.
  intros Hd. destruct 1 as [uuid streaming k text images id s' Hf Hr|uuid streaming k text images e s' Hf Hr|s' Hr|r s' Hr
    |k ms q Hq|k m rest s' Hl Hr|s' Hr|k m Hm|k b|].
  - by eapply step_input_ok.
  - destruct (mb_closed (se_mailbox (dl_session d))) eqn:Hcl.
    + rewrite input_closed in Hr by done. injection Hr as <- <-.
      apply step_session_ok; [done|apply Hd|]. intros k'. apply hand_over_refl.
    + destruct (input_moves uuid streaming k text images (dl_session d)) as (s'' & Hr' & _); [apply Hd| |done|].
      { intros Hin. by apply Hf, (delivery_ids_accepted d). }
      by rewrite Hr' in Hr.
  - destruct (flush_hand_over (dl_session d) (do_mailbox _ Hd)) as (s'' & Hr' & Hm & Hv).
    rewrite Hr' in Hr. injection Hr as <-. by apply step_session_ok.
  - by eapply step_clear_ok.
  - by apply step_poll_ok.
  - by eapply step_start_ok.
  - by apply step_end_ok.
  - apply step_session_ok; [done|by destruct k; apply Hd|]. intros k'.
    apply hand_over_eq. unfold views, queued_ids. rewrite pending_set_pending.
    destruct (decide (k = k')) as [<-|]; [|by destruct k, k'].
    unfold PendingQueue.enqueue, tags. cbn. rewrite omap_app. cbn. rewrite Hm, app_nil_r. by destruct k.
  - apply step_session_ok; [done|by destruct k; apply Hd|]. intros k'.
    apply hand_over_eq. by destruct k, k'.
  - apply step_session_ok; [done| |].
    + destruct (do_mailbox _ Hd). by split.
    + intros k. apply hand_over_eq. by destruct k.
Qed.

Lemma new_delivery_ok a b : delivery_ok (new_delivery a b).
Proof.
  split; [apply new_mailbox_ok|constructor|by intros id ?%not_elem_of_nil|].
  intros []; (split; [constructor|done|by intros id ?%not_elem_of_nil|by intros id ?%not_elem_of_nil]).
Qed.

Lemma delivery_reachable_ok d : delivery_reachable d → delivery_ok d.
Proof. induction 1; eauto using new_delivery_ok, delivery_step_ok. Qed.


End delivery.

