(* ===== verification/Policy.v ===== *)
(** The tool policy: the value types of [coding_agent/policy/types.py], the
    session grants of [approval.py] and the engine of [engine.py].

    An effect set is a finite set of strings, which the constructors validate.
    Texts shown to the user are lists of code points ([Utf8.text]).  An
    approval awaits the broker: [authorize] is its part before the [await] and
    its part after it, and other calls may run in between. *)

From S2P Require Import Prelude PyDict Json Utf8.
From stdpp Require Import gmap.
Open Scope Z_scope.

(** ** Values *)

(** The [ValueError]s of the module, by what they complain about. *)
Inductive policy_error : Type :=
  | EffectsAreAString
  | EffectsNotIterable
  | UnknownEffects (names : list string)
  | UnknownMode (mode : string)
  | UnknownReason (reason : string)
  | UnknownScope (scope : string)
  | CannotEncode.
#[export] Instance policy_error_eq_dec : EqDecision policy_error.
Proof. solve_decision. Defined.

(** [src: travis/coding_agent/policy/types.py:11-16 TOOL_EFFECT_ORDER] *)
Definition TOOL_EFFECT_ORDER : list string := ["read"; "write"; "execute"; "network"]%string.

(** [src: travis/coding_agent/policy/types.py:18-22 TOOL_POLICY_MODE_ORDER] *)
Definition TOOL_POLICY_MODE_ORDER : list string := ["disabled"; "audit"; "enforce"]%string.

(** [src: travis/coding_agent/policy/types.py:23-34 TOOL_POLICY_REASON_CODES] *)
Definition TOOL_POLICY_REASON_CODES : list string :=
  ["policy_disabled"; "auto_allowed"; "session_grant"; "approval_required"; "approval_denied";
   "approval_unavailable"; "undeclared_effects"; "approval_cancelled"]%string.

(** What is handed to [normalize_effects]: a string, a value that is not an
    iterable of hashables, or an iterable of names. *)
Inductive effects_arg : Type :=
  | EffectString (s : string)
  | EffectOther
  | EffectNames (names : list string).

(** [src: travis/coding_agent/policy/types.py:37-49 normalize_effects] *)
Definition normalize_effects (effects : effects_arg) : result policy_error (gset string) :=
  match effects with
  | EffectString _ => Err EffectsAreAString
  | EffectOther => Err EffectsNotIterable
  | EffectNames names =>
      let normalized : gset string := list_to_set names in
      let unknown : gset string := normalized ∖ list_to_set TOOL_EFFECT_ORDER in
      if bool_decide (unknown ≠ ∅) then Err (UnknownEffects (py_sorted String.leb (elements unknown)))
      else Ok normalized
  end.

(** [normalize_effects] on a set that already is one. *)
Definition renormalize (effects : gset string) : result policy_error (gset string) :=
  normalize_effects (EffectNames (elements effects)).

(** [src: travis/coding_agent/policy/types.py:52-55 ToolPolicySettings] *)
Record ToolPolicySettings : Type := {
  ps_mode : string;
  ps_auto_allow_effects : gset string
}.

(** [src: travis/coding_agent/policy/types.py:57-60 ToolPolicySettings.__post_init__] *)
Definition make_settings (mode : string) (auto : effects_arg) : result policy_error ToolPolicySettings :=
  _ ← require (bool_decide (mode ∈ TOOL_POLICY_MODE_ORDER)) (UnknownMode mode);
  auto ← normalize_effects auto;
  Ok {| ps_mode := mode; ps_auto_allow_effects := auto |}.

(** [src: travis/coding_agent/policy/types.py:63-69 ToolPolicyDecision] *)
Record ToolPolicyDecision : Type := {
  pd_tool_name : string;
  pd_effects : gset string;
  pd_mode : string;
  pd_allow : bool;
  pd_reason_code : string
}.

(** [src: travis/coding_agent/policy/types.py:71-76 ToolPolicyDecision.__post_init__] *)
Definition make_decision (d : ToolPolicyDecision) : result policy_error ToolPolicyDecision :=
  _ ← require (bool_decide (pd_mode d ∈ TOOL_POLICY_MODE_ORDER)) (UnknownMode (pd_mode d));
  _ ← require (bool_decide (pd_reason_code d ∈ TOOL_POLICY_REASON_CODES)) (UnknownReason (pd_reason_code d));
  effects ← renormalize (pd_effects d);
  Ok {| pd_tool_name := pd_tool_name d; pd_effects := effects; pd_mode := pd_mode d;
        pd_allow := pd_allow d; pd_reason_code := pd_reason_code d |}.

(** [src: travis/coding_agent/policy/approval.py:15-21 ApprovalResponse] *)
Definition make_response (scope : string) : result policy_error string :=
  _ ← require (bool_decide (scope ∈ ["once"; "session"; "deny"]%string)) (UnknownScope scope);
  Ok scope.

(** [src: travis/coding_agent/policy/approval.py:24-32 ToolApprovalRequest] *)
Record ToolApprovalRequest : Type := {
  ar_tool_name : string;
  ar_effects : gset string;
  ar_argument_fingerprint : string;
  ar_safe_context : list (string * text);
  ar_reason_code : string
}.

(** [src: travis/coding_agent/policy/approval.py:34-36 ToolApprovalRequest.__post_init__] *)
Definition make_request (r : ToolApprovalRequest) : result policy_error ToolApprovalRequest :=
  effects ← renormalize (ar_effects r);
  Ok {| ar_tool_name := ar_tool_name r; ar_effects := effects;
        ar_argument_fingerprint := ar_argument_fingerprint r;
        ar_safe_context := ar_safe_context r; ar_reason_code := ar_reason_code r |}.

(** [src: travis/coding_agent/policy/approval.py:57-59 SessionGrantSet.__init__] *)
Definition SessionGrantSet : Type := gset (string * gset string).

(** [src: travis/coding_agent/policy/approval.py:61-64 SessionGrantSet.add] *)
Definition grants_add (tool_name : string) (effects : gset string) (g : SessionGrantSet)
    : result policy_error SessionGrantSet :=
  effects ← renormalize effects; Ok ({[ (tool_name, effects) ]} ∪ g).

(** [src: travis/coding_agent/policy/approval.py:66-69 SessionGrantSet.contains] *)
Definition grants_contains (tool_name : string) (effects : gset string) (g : SessionGrantSet)
    : result policy_error bool :=
  effects ← renormalize effects; Ok (bool_decide ((tool_name, effects) ∈ g)).

(** ** The context shown with a request *)

(** [str.encode("utf-8")], which refuses a lone surrogate. *)
Definition encode_text (t : text) : result policy_error bytes :=
  if forallb scalar t then Ok (Utf8.encode t) else Err CannotEncode.

Definition ellipsis : text := [46; 46; 46].

(** The loop of [_truncate_utf8]: drop bytes until the rest decodes. *)
Fixpoint decode_shrinking (fuel : nat) (kept : bytes) : option text :=
  match fuel, kept with
  | _, [] => None
  | O, _ => None
  | S fuel, _ => match decode_strict kept with
                 | Ok t => Some t
                 | Err _ => decode_shrinking fuel (removelast kept)
                 end
  end.

(** The loop runs once per byte at most.

    [src: travis/coding_agent/policy/engine.py:66-77 _truncate_utf8] *)
Definition _truncate_utf8 (value : text) (byte_limit : Z) : result policy_error text :=
  encoded ← encode_text value;
  if Z.of_nat (length encoded) <=? byte_limit then Ok value
  else
    let kept := take (Z.to_nat (Z.max 0 (byte_limit - 3))) encoded in
    match decode_shrinking (length kept) kept with
    | Some t => Ok (t ++ ellipsis)
    | None => Ok (take (Z.to_nat byte_limit) ellipsis)
    end.

(** [src: travis/coding_agent/policy/engine.py:21-36 _SAFE_CONTEXT_KEYS] *)
Definition SAFE_CONTEXT_KEYS : list string :=
  ["action"; "target"; "server"; "operation"; "role"; "backend"; "executable";
   "commandFingerprint"; "taskId"; "childRole"; "childTaskId"; "scope"]%string.

(** [src: travis/coding_agent/policy/engine.py:37-37 _SAFE_CONTEXT_BYTE_LIMIT] *)
Definition SAFE_CONTEXT_BYTE_LIMIT : Z := 384.

(** *** [json.dumps(safe, ensure_ascii=True, sort_keys=True)] *)
Definition hex4 (n : Z) : list Z :=
  map (λ d, if d <? 10 then 48 + d else 87 + d) [n / 4096 mod 16; n / 256 mod 16; n / 16 mod 16; n mod 16].

Definition escape_unit (n : Z) : list Z := [92; 117] ++ hex4 n.

Definition escape_ascii (c : Z) : list Z :=
  if c =? 34 then [92; 34]
  else if c =? 92 then [92; 92]
  else if c =? 10 then [92; 110]
  else if c =? 13 then [92; 114]
  else if c =? 9 then [92; 116]
  else if c =? 12 then [92; 102]
  else if c =? 8 then [92; 98]
  else if in_range 32 126 c then [c]
  else if c <? 65536 then escape_unit c
  else escape_unit (55296 + (c - 65536) / 1024) ++ escape_unit (56320 + (c - 65536) mod 1024).

Definition dumps_ascii_text (t : list Z) : list Z := [34] ++ flat_map escape_ascii t ++ [34].

Definition codes (s : string) : list Z := map code (chars s).

Fixpoint dumps_members (l : list (string * text)) : list Z :=
  match l with
  | [] => []
  | [(k, v)] => dumps_ascii_text (codes k) ++ [58; 32] ++ dumps_ascii_text v
  | (k, v) :: l' => dumps_ascii_text (codes k) ++ [58; 32] ++ dumps_ascii_text v ++ [44; 32] ++ dumps_members l'
  end.

Definition dumps_context (safe : list (string * text)) : list Z :=
  [123] ++ dumps_members (py_sorted key_leb safe) ++ [125].

(** [max(safe, key=...)]: the first key whose value is longest. *)
Fixpoint longest (best : string * text) (l : list (string * text)) : string * text :=
  match l with
  | [] => best
  | p :: l' => longest (if byte_len best.2 <? byte_len p.2 then p else best) l'
  end.

(** The values of [safe] were truncated, so they encode.

    [src: travis/coding_agent/policy/engine.py:98-110 _safe_policy_context] *)
Fixpoint shrink_context (fuel : nat) (safe : list (string * text)) : option (result policy_error (list (string * text))) :=
  match fuel, safe with
  | _, [] => Some (Ok [])
  | O, _ => None
  | S fuel, p :: safe' =>
      let len := Z.of_nat (length (dumps_context safe)) in
      if len <=? SAFE_CONTEXT_BYTE_LIMIT then Some (Ok safe)
      else
        let '(key, current) := longest p safe' in
        let next_limit := Z.max 16 (byte_len current - (len - SAFE_CONTEXT_BYTE_LIMIT)) in
        match _truncate_utf8 current next_limit with
        | Err e => Some (Err e)
        | Ok shortened =>
            if bool_decide (shortened = current) then shrink_context fuel (od_del key safe)
            else shrink_context fuel (od_set key shortened safe)
        end
  end.

(** What the tool's [policy_context] callback gives: it has none, it raises,
    its value is no mapping, or a mapping, the keys as [str] shows them. *)
Inductive context_value : Type :=
  | NoCallback
  | CallbackRaises
  | NotAMapping
  | ContextMapping (members : list (string * text)).

Section engine.
(** [redactor.redact_text], [argument_fingerprint] and the tool's callback. *)
Context {Args : Type}.
Variable redact_text : text → text.
Variable argument_fingerprint : Args → string.

(** [src: travis/coding_agent/tools/types.py:26-44 ToolDefinition] *)
Record ToolDefinition : Type := {
  td_name : string;
  td_effects : gset string;
  td_policy_context : Args → context_value
}.

(** [src: travis/coding_agent/tools/types.py:46-47 ToolDefinition.__post_init__] *)
Definition make_tool (name : string) (effects : effects_arg) (context : Args → context_value)
    : result policy_error ToolDefinition :=
  effects ← normalize_effects effects;
  Ok {| td_name := name; td_effects := effects; td_policy_context := context |}.

(** The dict comprehension.

    [src: travis/coding_agent/policy/engine.py:93-97 _safe_policy_context] *)
Fixpoint safe_members (raw safe : list (string * text)) : result policy_error (list (string * text)) :=
  match raw with
  | [] => Ok safe
  | (key, value) :: raw' =>
      if bool_decide (key ∈ SAFE_CONTEXT_KEYS) then
        v ← _truncate_utf8 (redact_text value) 160;
        safe_members raw' (od_set key v safe)
      else safe_members raw' safe
  end.

(** The bytes of the values and the number of keys bound the iterations. *)
Definition context_fuel (safe : list (string * text)) : nat :=
  list_sum (map (λ p, S (length (Utf8.encode p.2))) safe).

(** [src: travis/coding_agent/policy/engine.py:80-110 _safe_policy_context] *)
Definition _safe_policy_context (tool : ToolDefinition) (arguments : Args)
    : option (result policy_error (list (string * text))) :=
  match td_policy_context tool arguments with
  | NoCallback | CallbackRaises | NotAMapping => Some (Ok [])
  | ContextMapping raw =>
      match safe_members raw [] with
      | Err e => Some (Err e)
      | Ok safe => shrink_context (context_fuel safe) safe
      end
  end.

(** [src: travis/coding_agent/policy/engine.py:114-125 ToolPolicyEngine.__init__] (the
    grants are the state) *)
Record ToolPolicyEngine : Type := {
  en_settings : ToolPolicySettings;
  en_has_broker : bool
}.

Variable engine : ToolPolicyEngine.
Let mode := ps_mode (en_settings engine).

(** [src: travis/coding_agent/policy/engine.py:180-187 ToolPolicyEngine._decision] *)
Definition _decision (tool : ToolDefinition) (allow : bool) (reason_code : string)
    : result policy_error ToolPolicyDecision :=
  make_decision {| pd_tool_name := td_name tool; pd_effects := td_effects tool; pd_mode := mode;
                   pd_allow := allow; pd_reason_code := reason_code |}.

(** [src: travis/coding_agent/policy/engine.py:127-139 ToolPolicyEngine.evaluate] *)
Definition evaluate (tool : ToolDefinition) (g : SessionGrantSet) : result policy_error ToolPolicyDecision :=
  let effects := td_effects tool in
  if bool_decide (mode = "disabled"%string) then _decision tool true "policy_disabled"
  else if bool_decide (effects = ∅) then
    _decision tool (bool_decide (mode = "audit"%string)) "undeclared_effects"
  else if bool_decide (effects ⊆ ps_auto_allow_effects (en_settings engine)) then
    _decision tool true "auto_allowed"
  else
    granted ← grants_contains (td_name tool) effects g;
    if (granted : bool) then _decision tool true "session_grant"
    else _decision tool (bool_decide (mode = "audit"%string)) "approval_required".

(** What [authorize] has before it awaits the broker: a decision, or the
    request it sends.  [aborted] is the signal, false when there is none.

    [src: travis/coding_agent/policy/engine.py:141-160 ToolPolicyEngine.authorize] *)
Inductive begun : Type :=
  | Decided (d : ToolPolicyDecision)
  | Asking (request : ToolApprovalRequest).

(** [None] would be a context loop that does not end.

    [src: travis/coding_agent/policy/engine.py:141-160 ToolPolicyEngine.authorize] *)
Definition authorize_begin (tool : ToolDefinition) (arguments : Args) (aborted : bool) (g : SessionGrantSet)
    : option (result policy_error begun) :=
  match evaluate tool g with
  | Err e => Some (Err e)
  | Ok decision =>
      if pd_allow decision || bool_decide (pd_reason_code decision ≠ "approval_required"%string)
      then Some (Ok (Decided decision))
      else if aborted then Some (Decided <$> _decision tool false "approval_cancelled")
      else if negb (en_has_broker engine) then Some (Decided <$> _decision tool false "approval_unavailable")
      else
        match _safe_policy_context tool arguments with
        | None => None
        | Some context =>
            Some (safe ← context;
                  Asking <$> make_request
                    {| ar_tool_name := td_name tool; ar_effects := td_effects tool;
                       ar_argument_fingerprint := argument_fingerprint arguments;
                       ar_safe_context := safe; ar_reason_code := "approval_required" |})
        end
  end.

(** The broker's answer: it raised, it answered a value of another type, or an
    [ApprovalResponse] with a valid scope. *)
Inductive broker_answer : Type :=
  | BrokerRaised
  | BrokerOther
  | BrokerResponse (scope : string).
#[export] Instance broker_answer_eq_dec : EqDecision broker_answer.
Proof. solve_decision. Defined.

(** [src: travis/coding_agent/policy/engine.py:161-178 ToolPolicyEngine.authorize] *)
Definition authorize_end (tool : ToolDefinition) (answer : broker_answer) (aborted : bool)
    : st SessionGrantSet policy_error ToolPolicyDecision :=
  match answer with
  | BrokerRaised =>
      st_lift (_decision tool false (if aborted then "approval_cancelled" else "approval_unavailable"))
  | BrokerOther =>
      if aborted then st_lift (_decision tool false "approval_cancelled")
      else st_lift (_decision tool false "approval_unavailable")
  | BrokerResponse scope =>
      if aborted then st_lift (_decision tool false "approval_cancelled")
      else if bool_decide (scope = "deny"%string) then st_lift (_decision tool false "approval_denied")
      else if bool_decide (scope = "session"%string) then
        g ← st_get;
        g' ← st_lift (grants_add (td_name tool) (td_effects tool) g);
        _ ← st_put g';
        st_lift (_decision tool true "session_grant")
      else if bool_decide (scope = "once"%string) then st_lift (_decision tool true "approval_required")
      else st_lift (_decision tool false "approval_unavailable")
  end.

End engine.
Arguments ToolDefinition : clear implicits.
