(* ===== verification/PolicySpec.v ===== *)
(** The tool policy, correct: decisions are well-typed values, a tool runs under
    [enforce] only when its effects were allowed in advance or by the user, and
    the context shown to the user is bounded. *)

From S2P Require Import Prelude PyDict Json Utf8 Policy.
From stdpp Require Import gmap.
Open Scope Z_scope.

(** ** Validation *)

Definition ALL_EFFECTS : gset string := list_to_set TOOL_EFFECT_ORDER.

Lemma normalize_names names :
  normalize_effects (EffectNames names) =
    if decide ((list_to_set names : gset string) ⊆ ALL_EFFECTS) then Ok (list_to_set names)
    else Err (UnknownEffects (py_sorted String.leb (elements ((list_to_set names : gset string) ∖ ALL_EFFECTS)))).
Proof.
  unfold normalize_effects. fold ALL_EFFECTS. destruct (decide _) as [Hs|Hs].
  - rewrite bool_decide_eq_false_2; [done|]. set_solver.
  - rewrite bool_decide_eq_true_2; [done|]. intros He. apply Hs. intros x Hx.
    destruct (decide (x ∈ ALL_EFFECTS)); [done|]. set_solver.
Qed.

Lemma renormalize_ok effects : effects ⊆ ALL_EFFECTS → renormalize effects = Ok effects.
Proof. intros He. unfold renormalize. rewrite normalize_names, list_to_set_elements_L. by rewrite decide_True. Qed.

Lemma normalize_effects_ok a effects : normalize_effects a = Ok effects → effects ⊆ ALL_EFFECTS.
Proof. destruct a as [| |names]; [done|done|]. rewrite normalize_names. by case_decide; intros [= <-]. Qed.

Definition settings_ok (s : ToolPolicySettings) : Prop :=
  ps_mode s ∈ TOOL_POLICY_MODE_ORDER ∧ ps_auto_allow_effects s ⊆ ALL_EFFECTS.

Lemma make_settings_ok mode auto s : make_settings mode auto = Ok s → settings_ok s.
Proof.
  unfold make_settings. intros H. result_inv. split; cbn; [by bool_prop|by eapply normalize_effects_ok].
Qed.

(** A well-formed decision for a tool. *)
Record decision_ok (name : string) (effects : gset string) (mode : string) (d : ToolPolicyDecision) : Prop := {
  dk_name : pd_tool_name d = name;
  dk_effects : pd_effects d = effects ∧ effects ⊆ ALL_EFFECTS;
  dk_mode : pd_mode d = mode ∧ mode ∈ TOOL_POLICY_MODE_ORDER;
  dk_reason : pd_reason_code d ∈ TOOL_POLICY_REASON_CODES
}.

(** ** Truncated texts *)

Lemma feed_pending p : pending_ok p → feed [] p = ([], p).
Proof.
  destruct p as [|b1 [|b2 [|b3 [|b4 p]]]]; cbn; try tauto; unfold start_byte.
  - destruct (char_len b1) as [|[|n]] eqn:E; try lia; done.
  - intros [Hl H2]. destruct (char_len b1) as [|[|[|n]]] eqn:E; try lia. cbn. by rewrite H2, E.
  - intros (Hl & H2 & H3). destruct (char_len b1) as [|[|[|[|n]]]] eqn:E; try lia. cbn. rewrite H2, E. cbn.
    by rewrite H3, E.
Qed.

Lemma pending_removelast p : pending_ok p → pending_ok (removelast p).
Proof. destruct p as [|b1 [|b2 [|b3 [|b4 p]]]]; cbn; try tauto; intuition lia. Qed.

Lemma decode_strict_pending t p :
  is_text t → pending_ok p → decode_strict (Utf8.encode t ++ p) =
    match p with [] => Ok t | _ => Err (UnexpectedEnd (byte_len t)) end.
Proof.
  intros Ht Hp. unfold decode_strict. rewrite feed_app, feed_encode by done. cbn [fst snd].
  rewrite feed_pending by done. cbn [fst snd]. rewrite app_nil_r, mapM_id_some.
  destruct p as [|b p]; [done|]. unfold byte_len. rewrite length_app. do 2 f_equal. lia.
Qed.

Lemma decode_shrinking_pending fuel t p :
  is_text t → pending_ok p → (length (Utf8.encode t ++ p) <= fuel)%nat →
  decode_shrinking fuel (Utf8.encode t ++ p) = match t with [] => None | _ => Some t end.
Proof.
  revert p; induction fuel as [|fuel IH]; intros p Ht Hp Hl.
  - destruct (Utf8.encode t ++ p) as [|b l] eqn:E; [|cbn in Hl; lia].
    apply app_eq_nil in E as [E _]. apply encode_nil_inv in E as ->. done.
  - destruct (Utf8.encode t ++ p) as [|b l] eqn:E.
    { apply app_eq_nil in E as [E _]. apply encode_nil_inv in E as ->. done. }
    cbn [decode_shrinking]. rewrite <-E, decode_strict_pending by done. destruct p as [|b1 p].
    + destruct t as [|c t]; [discriminate E|done].
    + rewrite removelast_app by done. apply IH; [done|by apply pending_removelast|].
      assert (b1 :: p = removelast (b1 :: p) ++ [List.last (b1 :: p) 0]) as Hp' by by apply app_removelast_last.
      rewrite <-E, Hp', app_assoc, length_app in Hl. cbn [length] in Hl. lia.
Qed.

(** [short] is what is left of [value] within [limit] bytes: all of it, or its
    beginning and an ellipsis. *)
Definition shortened_to (limit : Z) (value short : text) : Prop :=
  byte_len short <= limit ∧ (short = value ∨ ∃ kept, kept `prefix_of` value ∧ short = kept ++ ellipsis).

Lemma truncate_spec value limit :
  is_text value → 3 <= limit →
  ∃ short, _truncate_utf8 value limit = Ok short ∧ is_text short ∧ shortened_to limit value short ∧
    (byte_len value <= limit → short = value) ∧ (limit < byte_len value → byte_len short < byte_len value).
Proof.
  intros Ht Hl. unfold _truncate_utf8, encode_text.
  assert (forallb scalar value = true) as ->.
  { apply forallb_forall. intros c Hc. unfold is_text in Ht. rewrite Forall_forall in Ht. apply Ht. by apply list_elem_of_In. }
  cbn [mbind result_bind]. fold (byte_len value). destruct (Z.leb_spec (byte_len value) limit) as [Hs|Hs].
  - exists value. split_and!; [done|done|split; [done|by left]|done|lia].
  - set (n := Z.to_nat (Z.max 0 (limit - 3))).
    destruct (feed_prefix value n Ht) as (t1 & t2 & p & -> & _ & Hk & Hp). rewrite Hk.
    apply Forall_app in Ht as [Ht1 Ht2]. rewrite decode_shrinking_pending by done.
    assert (byte_len t1 + 3 <= limit) as Hb.
    { pose proof (f_equal length Hk) as Hlen. rewrite length_take, length_app in Hlen. unfold byte_len. lia. }
    assert (is_text ellipsis) as He by by repeat constructor.
    exists (t1 ++ ellipsis). split_and!.
    + destruct t1 as [|c t1]; [|done]. do 2 f_equal.
      assert (3 <= Z.to_nat limit)%nat as H3 by lia. destruct (Z.to_nat limit) as [|[|[|m]]]; try lia. cbn. by rewrite take_nil.
    + by apply Forall_app.
    + split; [rewrite byte_len_app; change (byte_len ellipsis) with 3; lia|]. right. exists t1.
      split; [by exists t2|done].
    + lia.
    + intros _. rewrite !byte_len_app in *. change (byte_len ellipsis) with 3. lia.
Qed.

(** ** The context shown to the user *)
Section context.
Context {Args : Type}.
Variable redact_text : text → text.
Implicit Types (safe raw : list (string * text)).

(** A beginning of [value], and dots. *)
Definition abridged (value short : text) : Prop :=
  ∃ kept n, kept `prefix_of` value ∧ short = kept ++ replicate n 46.

Lemma abridged_refl value : abridged value value.
Proof. exists value, 0%nat. split; [done|]. cbn. by rewrite app_nil_r. Qed.

Lemma prefix_app_inv {A} (p l l' : list A) :
  p `prefix_of` l ++ l' → p `prefix_of` l ∨ ∃ q, p = l ++ q ∧ q `prefix_of` l'.
Proof.
  intros [r Hr]. destruct (app_eq_inv _ _ _ _ Hr) as [(k & -> & ->)|(k & -> & ->)].
  - left. by exists k.
  - right. exists k. split; [done|]. by exists r.
Qed.

Lemma prefix_replicate {A} (q : list A) n x : q `prefix_of` replicate n x → ∃ m, q = replicate m x.
Proof.
  intros Hq. exists (length q). symmetry. apply replicate_as_elem_of. split; [done|]. intros y Hy.
  destruct Hq as [r Hr]. assert (y ∈ replicate n x) as Hin by (rewrite Hr; set_solver).
  by apply elem_of_replicate in Hin as [-> _].
Qed.

Lemma abridged_shortened limit value s short : abridged value s → shortened_to limit s short → abridged value short.
Proof.
  intros (p & n & Hp & ->) [_ [->|(kept & Hk & ->)]]; [by exists p, n|].
  apply prefix_app_inv in Hk as [Hk|(q & -> & Hq)].
  - exists kept, 3%nat. split; [by etrans|done].
  - apply prefix_replicate in Hq as [m ->]. exists p, (m + 3)%nat. split; [done|].
    rewrite replicate_add, <-app_assoc. done.
Qed.

(** What the loops keep: allowed keys, each once, and short texts made from the
    callback's values. *)
Record context_ok raw safe : Prop := {
  cx_keys : NoDup safe.*1;
  cx_safe : ∀ k s, (k, s) ∈ safe → k ∈ SAFE_CONTEXT_KEYS ∧ is_text s ∧ byte_len s <= 160 ∧
                     ∃ v, (k, v) ∈ raw ∧ abridged (redact_text v) s
}.

Definition entry_ok raw (k : string) (s : text) : Prop :=
  k ∈ SAFE_CONTEXT_KEYS ∧ is_text s ∧ byte_len s <= 160 ∧ ∃ v, (k, v) ∈ raw ∧ abridged (redact_text v) s.

Lemma od_set_entries {V} (k : string) (v : V) d p : p ∈ od_set k v d → p = (k, v) ∨ p ∈ d.
Proof.
  induction d as [|[k1 v1] d IH]; cbn; [set_solver|]. destruct (decide (k1 = k)) as [->|];
    rewrite !elem_of_cons; naive_solver.
Qed.

Lemma context_ok_set raw safe k s : entry_ok raw k s → context_ok raw safe → context_ok raw (od_set k s safe).
Proof.
  intros He [Hk Hs]. split; [by apply od_set_nodup|]. intros k' s' [[= -> ->]|Hin]%od_set_entries; [done|by apply Hs].
Qed.

Lemma context_ok_del raw safe k : context_ok raw safe → context_ok raw (od_del k safe).
Proof.
  intros [Hk Hs]. split; [by apply od_del_nodup|]. intros k' s' Hin. apply Hs.
  unfold od_del in Hin. apply list_elem_of_In, filter_In in Hin as [Hin _]. by apply list_elem_of_In.
Qed.

Lemma truncate_total value limit :
  3 <= limit → _truncate_utf8 value limit = Err CannotEncode ∧ ¬ is_text value ∨ is_text value.
Proof.
  intros Hl. destruct (forallb scalar value) eqn:E.
  - right. rewrite forallb_forall in E. apply Forall_forall. intros c Hc. by apply E, list_elem_of_In.
  - left. split; [unfold _truncate_utf8, encode_text; by rewrite E|]. intros Ht. unfold is_text in Ht.
    rewrite Forall_forall in Ht. apply Bool.not_true_iff_false in E. apply E. apply forallb_forall.
    intros c Hc. apply Ht. by apply list_elem_of_In.
Qed.

Lemma safe_members_total all raw safe :
  (∀ p, p ∈ raw → p ∈ all) → context_ok all safe →
  safe_members redact_text raw safe = Err CannotEncode ∧ (∃ p, p ∈ raw ∧ ¬ is_text (redact_text p.2)) ∨
  ∃ safe', safe_members redact_text raw safe = Ok safe' ∧ context_ok all safe'.
Proof.
  revert safe; induction raw as [|[k v] raw IH]; intros safe Hr Hs; cbn; [right; by exists safe|].
  assert (∀ safe, context_ok all safe →
    safe_members redact_text raw safe = Err CannotEncode ∧ (∃ p, p ∈ (k, v) :: raw ∧ ¬ is_text (redact_text p.2)) ∨
    ∃ safe', safe_members redact_text raw safe = Ok safe' ∧ context_ok all safe') as IH'.
  { intros safe1 Hs1. destruct (IH safe1) as [[He (p & Hp & Hn)]|H]; [intros p Hp; apply Hr; by right|done| |by right].
    left. split; [done|]. exists p. split; [by right|done]. }
  case_bool_decide as Hk; [|by apply IH'].
  destruct (truncate_total (redact_text v) 160 ltac:(lia)) as [[-> Hn]|Ht].
  { left. split; [done|]. exists (k, v). split; [by left|done]. }
  destruct (truncate_spec (redact_text v) 160 Ht ltac:(lia)) as (short & -> & Hst & Hsh & _ & _).
  cbn. apply IH'. apply context_ok_set; [|done].
  split_and!; [done|done|apply Hsh|]. exists v. split; [apply Hr; by left|].
  eapply abridged_shortened; [apply abridged_refl|exact Hsh].
Qed.

Lemma longest_in p l : longest p l ∈ p :: l.
Proof.
  revert p; induction l as [|q l IH]; intros p; cbn; [by left|].
  pose proof (IH (if byte_len p.2 <? byte_len q.2 then q else p)) as H.
  destruct (byte_len p.2 <? byte_len q.2); set_solver.
Qed.

Lemma context_fuel_cons p safe : context_fuel (p :: safe) = S (length (Utf8.encode p.2) + context_fuel safe).
Proof. reflexivity. Qed.

Lemma context_fuel_set k s s' safe :
  NoDup safe.*1 → (k, s) ∈ safe → byte_len s' < byte_len s → (context_fuel (od_set k s' safe) < context_fuel safe)%nat.
Proof.
  intros Hn Hin Hl. induction safe as [|[k1 s1] safe IH]; [set_solver|]. cbn [od_set].
  apply NoDup_cons in Hn as [Hk1 Hn]. apply elem_of_cons in Hin as [[= -> ->]|Hin].
  - rewrite decide_True, !context_fuel_cons by done. unfold byte_len in Hl. cbn [snd]. lia.
  - rewrite decide_False, !context_fuel_cons; [specialize (IH Hn Hin); lia|]. intros ->. apply Hk1.
    by apply (list_elem_of_fmap_2 fst) in Hin.
Qed.

Lemma context_fuel_filter f safe : (context_fuel (List.filter f safe) <= context_fuel safe)%nat.
Proof. induction safe as [|p l IH]; [done|]. cbn [List.filter]. destruct (f p); rewrite !context_fuel_cons; lia. Qed.

Lemma context_fuel_del k s safe : (k, s) ∈ safe → (context_fuel (od_del k safe) < context_fuel safe)%nat.
Proof.
  intros Hin. unfold od_del. induction safe as [|[k1 s1] safe IH]; [set_solver|]. cbn [List.filter].
  apply elem_of_cons in Hin as [[= -> ->]|Hin]; rewrite !context_fuel_cons.
  - rewrite bool_decide_eq_true_2 by done. cbn [negb].
    pose proof (context_fuel_filter (λ p, negb (bool_decide (p.1 = k1))) safe). lia.
  - specialize (IH Hin). destruct (negb _); rewrite ?context_fuel_cons; lia.
Qed.

Lemma shrink_context_ok raw fuel safe :
  context_ok raw safe → (context_fuel safe <= fuel)%nat →
  ∃ safe', shrink_context fuel safe = Some (Ok safe') ∧ context_ok raw safe' ∧
    Z.of_nat (length (dumps_context safe')) <= SAFE_CONTEXT_BYTE_LIMIT.
Proof.
  revert safe; induction fuel as [|fuel IH]; intros safe Hok Hf.
  { destruct safe as [|p safe]; [exists []; by split_and!|]. unfold context_fuel in Hf. cbn in Hf. lia. }
  destruct safe as [|p safe]; [exists []; by split_and!|]. cbn [shrink_context].
  destruct (Z.leb_spec (Z.of_nat (length (dumps_context (p :: safe)))) SAFE_CONTEXT_BYTE_LIMIT) as [Hle|Hgt].
  { exists (p :: safe). by split_and!. }
  set (len := Z.of_nat _) in *. destruct (longest p safe) as [key current] eqn:Hlong.
  assert ((key, current) ∈ p :: safe) as Hin by (rewrite <-Hlong; apply longest_in).
  destruct (cx_safe _ _ Hok _ _ Hin) as (Hkey & Ht & H160 & v & Hv & Ha).
  destruct (truncate_spec current (Z.max 16 (byte_len current - (len - SAFE_CONTEXT_BYTE_LIMIT))) Ht ltac:(lia))
    as (short & -> & Hst & Hsh & Hsame & Hless).
  case_bool_decide as Heq.
  - apply IH; [by apply context_ok_del|]. pose proof (context_fuel_del _ _ _ Hin). lia.
  - assert (byte_len short < byte_len current) as Hlt.
    { apply Hless. destruct (Z.le_gt_cases (byte_len current)
        (Z.max 16 (byte_len current - (len - SAFE_CONTEXT_BYTE_LIMIT)))) as [Hle|]; [|done].
      by destruct (Heq (Hsame Hle)). }
    apply IH.
    + apply context_ok_set; [|done]. split_and!; [done|done|lia|]. exists v. split; [done|]. by eapply abridged_shortened.
    + pose proof (context_fuel_set _ _ _ _ (cx_keys _ _ Hok) Hin Hlt). lia.
Qed.

Lemma safe_context_total (tool : ToolDefinition Args) arguments :
  _safe_policy_context redact_text tool arguments = Some (Err CannotEncode) ∧
    (∃ raw p, td_policy_context tool arguments = ContextMapping raw ∧ p ∈ raw ∧ ¬ is_text (redact_text p.2)) ∨
  ∃ safe, _safe_policy_context redact_text tool arguments = Some (Ok safe) ∧
    context_ok (match td_policy_context tool arguments with ContextMapping raw => raw | _ => [] end) safe ∧
    Z.of_nat (length (dumps_context safe)) <= SAFE_CONTEXT_BYTE_LIMIT.
Proof.
  unfold _safe_policy_context.
  assert (∀ raw, context_ok raw []) as Hnil by (intros raw; split; [constructor|by intros k s ?%not_elem_of_nil]).
  destruct (td_policy_context tool arguments) as [| | |raw]; try by (right; exists []; split_and!).
  destruct (safe_members_total raw raw [] ltac:(done) (Hnil raw)) as [[-> (p & Hp & Hn)]|(safe & -> & Hok)].
  - left. split; [done|]. by exists raw, p.
  - right. by apply shrink_context_ok.
Qed.

(** The context shown with an approval request is bounded and computed in finitely many steps: for any
    mapping the tool's callback gives whose redacted values are texts, the shrinking loop ends within its
    fuel, the JSON of the result has at most 384 bytes, its keys are allowed ones, each once, and each value
    is at most 160 bytes: a beginning of the redacted value, followed by dots when it was cut. *)
Theorem safe_context_bounded (tool : ToolDefinition Args) arguments raw :
  td_policy_context tool arguments = ContextMapping raw → (∀ p, p ∈ raw → is_text (redact_text p.2)) →
  ∃ safe, _safe_policy_context redact_text tool arguments = Some (Ok safe) ∧
    Z.of_nat (length (dumps_context safe)) <= 384 ∧ NoDup safe.*1 ∧
    ∀ k s, (k, s) ∈ safe → k ∈ SAFE_CONTEXT_KEYS ∧ byte_len s <= 160 ∧
      ∃ v, (k, v) ∈ raw ∧ abridged (redact_text v) s.
Proof.
  intros Hc Ht. pose proof (safe_context_total tool arguments) as H. rewrite Hc in H.
  destruct H as [(_ & raw' & p & [= <-] & Hp & Hn)|(safe & Hs & [Hk He] & Hl)]; [by destruct Hn; apply Ht|].
  exists safe. split_and!; [done|done|done|]. intros k s (H1 & _ & H2 & H3)%He. done.
Qed.

End context.

Lemma safe_context_bounded_witness :
  let raw := [("target"%string, replicate 500 97); ("secret"%string, [98])] in
  let tool := {| td_name := "read"; td_effects := {[ "read"%string ]}; td_policy_context := λ _ : unit, ContextMapping raw |} in
  ∃ safe, _safe_policy_context id tool tt = Some (Ok safe) ∧
    Z.of_nat (length (dumps_context safe)) <= 384 ∧ NoDup safe.*1 ∧
    ∀ k s, (k, s) ∈ safe → k ∈ SAFE_CONTEXT_KEYS ∧ byte_len s <= 160 ∧
      ∃ v, (k, v) ∈ raw ∧ abridged (id v) s.
Proof.
  intros raw tool. apply (safe_context_bounded id tool tt raw); [reflexivity|].
  intros p Hp. unfold raw in Hp. apply elem_of_cons in Hp as [->|Hp%list_elem_of_singleton]; [|subst p].
  - apply Forall_forall. intros c Hc. apply elem_of_replicate in Hc as [-> _]. reflexivity.
  - repeat constructor.
Defined.

(** ** Decisions *)
Section decisions.
Context {Args : Type}.
Variable redact_text : text → text.
Variable argument_fingerprint : Args → string.
Variable engine : ToolPolicyEngine.
Local Notation tool_definition := (ToolDefinition Args).
Local Notation mode := (ps_mode (en_settings engine)).
Local Notation auto := (ps_auto_allow_effects (en_settings engine)).
Hypothesis Hsettings : settings_ok (en_settings engine).
Implicit Types (tool : tool_definition) (g : SessionGrantSet).

Definition tool_ok tool : Prop := td_effects tool ⊆ ALL_EFFECTS.

(** The decision of a tool. *)
Definition decided tool (allow : bool) (reason : string) : ToolPolicyDecision :=
  {| pd_tool_name := td_name tool; pd_effects := td_effects tool; pd_mode := mode;
     pd_allow := allow; pd_reason_code := reason |}.

(** The verdict before anyone is asked. *)
Definition verdict tool g : bool * string :=
  if bool_decide (mode = "disabled"%string) then (true, "policy_disabled"%string)
  else if bool_decide (td_effects tool = ∅) then (bool_decide (mode = "audit"%string), "undeclared_effects"%string)
  else if bool_decide (td_effects tool ⊆ auto) then (true, "auto_allowed"%string)
  else if bool_decide ((td_name tool, td_effects tool) ∈ g) then (true, "session_grant"%string)
  else (bool_decide (mode = "audit"%string), "approval_required"%string).

Lemma decision_decided tool allow reason :
  tool_ok tool → reason ∈ TOOL_POLICY_REASON_CODES → _decision engine tool allow reason = Ok (decided tool allow reason).
Proof.
  intros Ht Hr. unfold _decision, make_decision. cbn [pd_mode pd_reason_code pd_effects].
  destruct Hsettings as [Hm _]. rewrite !bool_decide_eq_true_2 by done. cbn [require mbind result_bind].
  by rewrite renormalize_ok by done.
Qed.

Lemma decided_ok tool allow reason :
  tool_ok tool → reason ∈ TOOL_POLICY_REASON_CODES →
  decision_ok (td_name tool) (td_effects tool) mode (decided tool allow reason).
Proof. intros Ht Hr. split; [done|done|split; [done|apply Hsettings]|done]. Qed.

Ltac known_reason := by refine (bool_decide_eq_true_1 (_ ∈ TOOL_POLICY_REASON_CODES) _); vm_compute.

Lemma verdict_reason tool g : (verdict tool g).2 ∈ TOOL_POLICY_REASON_CODES.
Proof. unfold verdict. repeat case_bool_decide; known_reason. Qed.

Lemma evaluate_verdict tool g :
  tool_ok tool → evaluate engine tool g = Ok (decided tool (verdict tool g).1 (verdict tool g).2).
Proof.
  intros Ht. unfold evaluate, grants_contains. rewrite renormalize_ok by done. unfold verdict.
  cbn [mbind result_bind].
  repeat case_bool_decide; (rewrite decision_decided; [done|done|known_reason]).
Qed.

Lemma authorize_end_ok tool answer aborted g :
  tool_ok tool →
  ∃ allow reason, authorize_end engine tool answer aborted g =
    (Ok (decided tool allow reason),
     if negb aborted && bool_decide (answer = BrokerResponse "session")
     then {[ (td_name tool, td_effects tool) ]} ∪ g else g) ∧
    reason ∈ TOOL_POLICY_REASON_CODES ∧
    (allow = true ↔ aborted = false ∧ (answer = BrokerResponse "session" ∨ answer = BrokerResponse "once")).
Proof.
  intros Ht. unfold authorize_end.
  assert (∀ allow reason, reason ∈ TOOL_POLICY_REASON_CODES →
    st_lift (S:=SessionGrantSet) (_decision engine tool allow reason) = λ g, (Ok (decided tool allow reason), g)) as Hd.
  { intros allow reason Hr. unfold st_lift. by rewrite decision_decided. }
  destruct answer as [| |scope].
  - exists false, (if aborted then "approval_cancelled" else "approval_unavailable")%string.
    rewrite bool_decide_eq_false_2, andb_false_r by done.
    rewrite Hd by (destruct aborted; known_reason). split_and!; [done|destruct aborted; known_reason|naive_solver].
  - exists false, (if aborted then "approval_cancelled" else "approval_unavailable")%string.
    rewrite bool_decide_eq_false_2, andb_false_r by done.
    destruct aborted; rewrite Hd by known_reason; (split_and!; [done|known_reason|naive_solver]).
  - destruct aborted; cbn [negb andb].
    { exists false, "approval_cancelled"%string. rewrite Hd by known_reason. split_and!; [done|known_reason|naive_solver]. }
    destruct (bool_decide_reflect (scope = "deny"%string)) as [->|H1];
      [|destruct (bool_decide_reflect (scope = "session"%string)) as [->|H2];
        [|destruct (bool_decide_reflect (scope = "once"%string)) as [->|H3]]].
    + exists false, "approval_denied"%string. rewrite Hd by known_reason. split_and!; [done|known_reason|naive_solver].
    + exists true, "session_grant"%string. st_eval. unfold grants_add. rewrite renormalize_ok by done.
      cbn [mbind result_bind]. rewrite decision_decided by (done || known_reason).
      split_and!; [done|known_reason|naive_solver].
    + exists true, "approval_required"%string. rewrite Hd by known_reason. split_and!; [done|known_reason|naive_solver].
    + exists false, "approval_unavailable"%string. rewrite Hd by known_reason.
      rewrite bool_decide_eq_false_2 by congruence. split_and!; [done|known_reason|]. naive_solver.
Qed.

(** What [authorize] has before the broker answers. *)
Lemma authorize_begin_cases tool arguments aborted g :
  tool_ok tool →
  match authorize_begin redact_text argument_fingerprint engine tool arguments aborted g with
  | None => False
  | Some (Err e) => e = CannotEncode ∧ verdict tool g = (false, "approval_required"%string)
  | Some (Ok (Decided d)) =>
      ∃ allow reason, d = decided tool allow reason ∧ reason ∈ TOOL_POLICY_REASON_CODES ∧
        (allow = true → (verdict tool g).1 = true)
  | Some (Ok (Asking r)) =>
      verdict tool g = (false, "approval_required"%string) ∧ aborted = false ∧
      ar_tool_name r = td_name tool ∧ ar_effects r = td_effects tool
  end.
Proof.
  intros Ht. unfold authorize_begin. rewrite evaluate_verdict by done.
  destruct (verdict tool g) as [allow reason] eqn:Hv. cbn [fst snd pd_allow pd_reason_code decided].
  assert (reason ∈ TOOL_POLICY_REASON_CODES) as Hr by (pose proof (verdict_reason tool g) as H; by rewrite Hv in H).
  destruct allow; cbn [orb].
  { by exists true, reason. }
  case_bool_decide as Hreason; [by exists false, reason|].
  assert (reason = "approval_required"%string) as -> by (by destruct (decide (reason = "approval_required"%string))).
  destruct aborted.
  { rewrite decision_decided by (done || known_reason). exists false, "approval_cancelled"%string.
    split_and!; [done|known_reason|done]. }
  destruct (negb (en_has_broker engine)).
  { rewrite decision_decided by (done || known_reason). exists false, "approval_unavailable"%string.
    split_and!; [done|known_reason|done]. }
  destruct (safe_context_total redact_text tool arguments) as [[-> _]|(safe & -> & _)]; [done|].
  cbn [mbind result_bind]. unfold make_request. cbn [ar_effects]. by rewrite renormalize_ok.
Qed.

(** Policy decisions are well-typed: with validated settings and a validated tool, [evaluate] always
    returns, whatever the grants, a decision for this tool with its own effects, the configured mode and a
    declared reason code; [authorize] ends its first half with such a decision, with a request for exactly
    this tool and effects, or - only when a context value holds a lone surrogate - by raising; and every
    answer of the broker yields such a decision. *)
Theorem policy_well_typed tool g :
  tool_ok tool →
  let good := decision_ok (td_name tool) (td_effects tool) mode in
  (∃ d, evaluate engine tool g = Ok d ∧ good d) ∧
  (∀ arguments aborted,
    match authorize_begin redact_text argument_fingerprint engine tool arguments aborted g with
    | Some (Ok (Decided d)) => good d
    | Some (Ok (Asking r)) => ar_tool_name r = td_name tool ∧ ar_effects r = td_effects tool
    | Some (Err e) => e = CannotEncode
    | None => False
    end) ∧
  (∀ answer aborted, ∃ d g', authorize_end engine tool answer aborted g = (Ok d, g') ∧ good d).
Proof.
  intros Ht good. split_and!.
  - eexists. split; [by apply evaluate_verdict|]. apply decided_ok; [done|apply verdict_reason].
  - intros arguments aborted. pose proof (authorize_begin_cases tool arguments aborted g Ht) as H.
    destruct (authorize_begin _ _ _ _ _ _ _) as [[[d|r]|e]|]; [|naive_solver..].
    destruct H as (allow & reason & -> & Hr & _). by apply decided_ok.
  - intros answer aborted. destruct (authorize_end_ok tool answer aborted g Ht) as (allow & reason & -> & Hr & _).
    eexists _, _. split; [done|]. by apply decided_ok.
Qed.

(** *** Runs of the engine, with other calls between the halves of one *)

Inductive policy_event : Type :=
  | EvDecided tool (d : ToolPolicyDecision)
  | EvAsked tool
  | EvAnswered tool (answer : broker_answer) (aborted : bool) (d : ToolPolicyDecision).

(** The events so far, the grants, and the calls that await an answer. *)
Inductive policy_run : list policy_event → SessionGrantSet → list tool_definition → Prop :=
  | run_new : policy_run [] ∅ []
  | run_decided tr g awaiting tool arguments aborted d :
      policy_run tr g awaiting → tool_ok tool →
      authorize_begin redact_text argument_fingerprint engine tool arguments aborted g = Some (Ok (Decided d)) →
      policy_run (tr ++ [EvDecided tool d]) g awaiting
  | run_asked tr g awaiting tool arguments aborted r :
      policy_run tr g awaiting → tool_ok tool →
      authorize_begin redact_text argument_fingerprint engine tool arguments aborted g = Some (Ok (Asking r)) →
      policy_run (tr ++ [EvAsked tool]) g (awaiting ++ [tool])
  | run_answered tr g g' before tool after answer aborted d :
      policy_run tr g (before ++ tool :: after) →
      authorize_end engine tool answer aborted g = (Ok d, g') →
      policy_run (tr ++ [EvAnswered tool answer aborted d]) g' (before ++ after).

(** The user granted these effects of this tool for the session. *)
Definition session_approved (tr : list policy_event) tool : Prop :=
  ∃ tool' d, EvAnswered tool' (BrokerResponse "session") false d ∈ tr ∧
    td_name tool' = td_name tool ∧ td_effects tool' = td_effects tool.

(** Why an event may let its tool run. *)
Definition permitted (before : list policy_event) (ev : policy_event) : Prop :=
  match ev with
  | EvAsked _ => True
  | EvDecided tool d => pd_allow d = true →
      td_effects tool ≠ ∅ ∧ (td_effects tool ⊆ auto ∨ session_approved before tool)
  | EvAnswered tool answer aborted d => pd_allow d = true →
      td_effects tool ≠ ∅ ∧ aborted = false ∧ EvAsked tool ∈ before ∧
      (answer = BrokerResponse "session" ∨ answer = BrokerResponse "once")
  end.

Record run_ok (tr : list policy_event) g (awaiting : list tool_definition) : Prop := {
  ro_grants : ∀ name effects, (name, effects) ∈ g → ∃ tool' d,
    EvAnswered tool' (BrokerResponse "session") false d ∈ tr ∧ td_name tool' = name ∧ td_effects tool' = effects;
  ro_awaiting : ∀ tool, tool ∈ awaiting → tool_ok tool ∧ td_effects tool ≠ ∅ ∧ EvAsked tool ∈ tr;
  ro_permitted : ∀ before ev after, tr = before ++ ev :: after → permitted before ev
}.

Lemma verdict_enforce tool g :
  mode = "enforce"%string → (verdict tool g).1 = true →
  td_effects tool ≠ ∅ ∧ (td_effects tool ⊆ auto ∨ (td_name tool, td_effects tool) ∈ g).
Proof. intros Hm. unfold verdict. rewrite Hm. repeat case_bool_decide; cbn; naive_solver. Qed.

Lemma verdict_asks tool g : verdict tool g = (false, "approval_required"%string) → td_effects tool ≠ ∅.
Proof. unfold verdict. repeat case_bool_decide; naive_solver. Qed.

Lemma permitted_snoc tr ev :
  (∀ before ev' after, tr = before ++ ev' :: after → permitted before ev') → permitted tr ev →
  ∀ before ev' after, tr ++ [ev] = before ++ ev' :: after → permitted before ev'.
Proof.
  intros Htr Hev before ev' after Heq. destruct after as [|x after _] using rev_ind.
  - apply app_inj_tail in Heq as [<- <-]. done.
  - rewrite app_comm_cons, app_assoc in Heq. apply app_inj_tail in Heq as [Heq _]. by eapply Htr.
Qed.

Lemma policy_run_ok tr g awaiting : mode = "enforce"%string → policy_run tr g awaiting → run_ok tr g awaiting.
Proof.
  intros Hm. induction 1 as [|tr g awaiting tool arguments aborted d _ [Hg Ha Hp] Ht Hb
    |tr g awaiting tool arguments aborted r _ [Hg Ha Hp] Ht Hb|tr g g' before tool after answer aborted d _ [Hg Ha Hp] He].
  - split; [set_solver|by intros tool ?%not_elem_of_nil|]. by intros [].
  - pose proof (authorize_begin_cases tool arguments aborted g Ht) as Hc. rewrite Hb in Hc.
    destruct Hc as (allow & reason & -> & _ & Hv). split.
    + intros name effects (tool' & d & Hin & H)%Hg. exists tool', d. split; [set_solver|done].
    + intros t Hin. destruct (Ha t Hin) as (? & ? & ?). split_and!; [done|done|set_solver].
    + apply permitted_snoc; [done|]. cbn. intros Hal. destruct (verdict_enforce tool g Hm (Hv Hal)) as [Hne [Hs|Hin]].
      * split; [done|by left].
      * split; [done|right]. by apply Hg.
  - pose proof (authorize_begin_cases tool arguments aborted g Ht) as Hc. rewrite Hb in Hc.
    destruct Hc as (Hv & _ & _). apply verdict_asks in Hv. split.
    + intros name effects (tool' & d & Hin & H)%Hg. exists tool', d. split; [set_solver|done].
    + intros t [Hin| ->%list_elem_of_singleton]%elem_of_app.
      * destruct (Ha t Hin) as (? & ? & ?). split_and!; [done|done|set_solver].
      * split_and!; [done|done|set_solver].
    + by apply permitted_snoc.
  - destruct (Ha tool) as (Ht & Hne & Hasked); [set_solver|].
    destruct (authorize_end_ok tool answer aborted g Ht) as (allow & reason & Hr & _ & Hal).
    rewrite Hr in He. injection He as <- <-. split.
    + intros name effects. destruct (negb aborted && bool_decide (answer = BrokerResponse "session")) eqn:Hs.
      * bool_prop. subst aborted answer. rewrite elem_of_union, elem_of_singleton.
        intros [[= -> ->]|(tool' & d & Hin & H)%Hg]; [|exists tool', d; split; [set_solver|done]].
        eexists tool, _. split; [|done]. apply elem_of_app. right. by left.
      * intros (tool' & d & Hin & H)%Hg. exists tool', d. split; [set_solver|done].
    + intros t Hin. destruct (Ha t) as (? & ? & ?); [set_solver|]. split_and!; [done|done|set_solver].
    + apply permitted_snoc; [done|]. cbn. intros Hd. apply Hal in Hd as [-> Hans]. by split_and!.
Qed.

(** C5: Under [enforce] nothing runs unapproved: over every history of the engine, with the halves of
    concurrent authorisations interleaved in any way, a tool is allowed only if it declares effects and
    either all of them are allowed automatically, or the user approved exactly this tool with exactly these
    effects for the session earlier, or this very request was put to the user, who approved it once or for
    the session, and the call was not aborted meanwhile. *)
Theorem enforced_tools_are_approved before ev after g awaiting :
  mode = "enforce"%string → policy_run (before ++ ev :: after) g awaiting → permitted before ev.
Proof. intros Hm Hr. eapply (ro_permitted _ _ _ (policy_run_ok _ _ _ Hm Hr)). done. Qed.

End decisions.

(** An engine that enforces, allows reading and has a broker. *)
Definition example_engine : ToolPolicyEngine :=
  {| en_settings := {| ps_mode := "enforce"; ps_auto_allow_effects := {[ "read"%string ]} |}; en_has_broker := true |}.
Definition example_tool (effects : gset string) : ToolDefinition unit :=
  {| td_name := "bash"; td_effects := effects; td_policy_context := λ _, NoCallback |}.

Lemma example_settings_ok : settings_ok (en_settings example_engine).
Proof. split; [by apply (bool_decide_unpack _); vm_compute|]. apply (bool_decide_unpack _). by vm_compute. Qed.

Lemma example_tool_ok : tool_ok (example_tool {[ "execute"%string ]}).
Proof. unfold tool_ok. apply (bool_decide_unpack _). by vm_compute. Qed.

Lemma policy_well_typed_witness :
  tool_ok (example_tool {[ "execute"%string ]}) ∧
  ∃ d, evaluate example_engine (example_tool {[ "execute"%string ]}) ∅ = Ok d ∧
       decision_ok "bash" {[ "execute"%string ]} "enforce" d.
Proof.
  pose proof example_tool_ok as Ht.
  split; [exact Ht|].
  exact (proj1 (policy_well_typed id (λ _, "f"%string) example_engine example_settings_ok _ ∅ Ht)).
Defined.

Lemma enforced_tools_are_approved_witness :
  let tool := example_tool {[ "execute"%string ]} in
  let d := decided example_engine tool true "session_grant" in
  permitted example_engine [EvAsked tool; EvAnswered tool (BrokerResponse "session") false d] (EvDecided tool d).
Proof.
  intros tool d. pose proof example_tool_ok as Ht.
  apply (enforced_tools_are_approved id (λ _, "f"%string) example_engine example_settings_ok _ _ []
    {[ ("bash"%string, {[ "execute"%string ]}) ]} []); [reflexivity|].
  apply (run_decided id (λ _, "f"%string) example_engine [_; _] _ _ tool tt false d); [|exact Ht|].
  - rewrite <-(union_empty_r_L ({[ ("bash"%string, {[ "execute"%string ]}) ]} : SessionGrantSet)).
    apply (run_answered id (λ _, "f"%string) example_engine [_] ∅ _ [] tool []).
    + eapply (run_asked id (λ _, "f"%string) example_engine [] ∅ [] tool tt false); [apply run_new|exact Ht|].
      unfold authorize_begin. rewrite (evaluate_verdict _ example_settings_ok tool ∅ Ht).
      assert (verdict example_engine tool ∅ = (false, "approval_required"%string)) as -> by (vm_compute; reflexivity).
      cbn -[renormalize]. unfold make_request. rewrite renormalize_ok by exact Ht. reflexivity.
    + unfold authorize_end. st_eval. unfold grants_add. rewrite renormalize_ok by exact Ht. cbn -[_decision].
      rewrite (decision_decided _ example_settings_ok tool true "session_grant" Ht); [reflexivity|].
      refine (bool_decide_eq_true_1 (_ ∈ TOOL_POLICY_REASON_CODES) _). by vm_compute.
  - unfold authorize_begin. rewrite (evaluate_verdict _ example_settings_ok tool _ Ht).
    assert (verdict example_engine tool {[ ("bash"%string, {[ "execute"%string ]}) ]} = (true, "session_grant"%string)) as ->
      by (vm_compute; reflexivity). reflexivity.
Defined.

(** A value with a lone surrogate, which JSON arguments may hold, makes
    [authorize] raise before anyone is asked. *)
Lemma surrogate_context_raises :
  let tool := {| td_name := "process"; td_effects := {[ "execute"%string ]};
                 td_policy_context := λ _ : unit, ContextMapping [("action"%string, [55296])] |} in
  authorize_begin id (λ _, "f"%string) example_engine tool tt false ∅ = Some (Err CannotEncode).
Proof.
  intros tool. assert (tool_ok tool) as Ht by exact example_tool_ok.
  unfold authorize_begin. rewrite (evaluate_verdict _ example_settings_ok tool ∅ Ht).
  assert (verdict example_engine tool ∅ = (false, "approval_required"%string)) as -> by (vm_compute; reflexivity).
  reflexivity.
Qed.
