(* ===== verification/CoordinationPlanSpec.v ===== *)
(** Coordination requests and plans, correct: the goal survives its trip through
    the prompt, the depth-first search finds a cycle exactly when there is one,
    and the validator accepts exactly the valid plans. *)

From S2P Require Import Prelude PyDict Json JsonText Utf8 CoordinationPlan.
From stdpp Require Import gmap relations.
Open Scope Z_scope.
Local Notation text := JsonText.text.

(** ** The depth-first search *)
Section search.
Variable set_order : gset string → list string.
Hypothesis set_order_elements : ∀ s, set_order s ≡ₚ elements s.
Variable g : graph.
Variable nodes : gset string.

Definition edge (x y : string) : Prop := y ∈ (default ∅ (g !! x) : gset string).
Hypothesis edges_inside : ∀ x y, edge x y → y ∈ nodes.

Lemma elem_of_successors x y : y ∈ successors set_order g x ↔ edge x y.
Proof. unfold successors, edge. by rewrite set_order_elements, elem_of_elements. Qed.

Definition color (state : gmap string Z) (x : string) : Z := default 0 (state !! x).

(** What is done has only done successors, and is on no cycle. *)
Record colors_ok (state : gmap string Z) : Prop := {
  co_range : ∀ x, color state x = 0 ∨ color state x = 1 ∨ color state x = 2;
  co_closed : ∀ x y, color state x = 2 → edge x y → color state y = 2;
  co_acyclic : ∀ x, color state x = 2 → ¬ tc edge x x
}.

(** A visit that found nothing: the nodes being visited are the same, and what
    was done stays done. *)
Record later (state state' : gmap string Z) : Prop := {
  la_ok : colors_ok state';
  la_open : ∀ z, color state' z = 1 ↔ color state z = 1;
  la_done : ∀ z, color state z = 2 → color state' z = 2
}.

Definition unseen (state : gmap string Z) : gset string := filter (λ z, color state z = 0) nodes.

Lemma later_refl state : colors_ok state → later state state.
Proof. by split. Qed.

Lemma later_trans s1 s2 s3 : later s1 s2 → later s2 s3 → later s1 s3.
Proof. intros [H1 H2 H3] [H4 H5 H6]. split; [done| |eauto]. intros z. by rewrite H5. Qed.

Lemma later_unseen s s' : colors_ok s → later s s' → (size (unseen s') ≤ size (unseen s))%nat.
Proof.
  intros Hs [H1 H2 H3]. apply subseteq_size. intros z. unfold unseen. rewrite !elem_of_filter. intros [Hz Hn].
  split; [|done]. destruct (co_range _ Hs z) as [|[H|H]]; [done| |].
  - apply H2 in H. lia.
  - apply H3 in H. lia.
Qed.

Lemma color_insert x c state z : color (<[x := c]> state) z = if decide (x = z) then c else color state z.
Proof. unfold color. rewrite lookup_insert. by destruct (decide (x = z)). Qed.

Lemma unseen_insert x c state :
  x ∈ nodes → color state x = 0 → c ≠ 0 → (S (size (unseen (<[x := c]> state))) ≤ size (unseen state))%nat.
Proof.
  intros Hx H0 Hc. apply subset_size. apply strict_spec_alt. split.
  - intros z. unfold unseen. rewrite !elem_of_filter, color_insert. case_decide; [by intros []|done].
  - intros Heq. assert (x ∈ unseen (<[x := c]> state)) as Hin by (rewrite Heq; unfold unseen; by apply elem_of_filter).
    unfold unseen in Hin. rewrite elem_of_filter, color_insert, decide_True in Hin by done. naive_solver.
Qed.

Lemma tc_closed state x y : colors_ok state → color state x = 2 → tc edge x y → color state y = 2.
Proof. intros Hs Hx Ht. revert Hx. induction Ht as [x y H|x y z H _ IH]; intros Hx; [|apply IH]; by eapply co_closed. Qed.

Lemma visit_unfold fuel task_id state :
  _visit_dependency set_order (S fuel) g task_id state =
    if color state task_id =? 1 then Some (true, state)
    else if color state task_id =? 2 then Some (false, state)
    else match any_next (_visit_dependency set_order fuel g) (successors set_order g task_id) (<[task_id := 1]> state) with
         | Some (false, state) => Some (false, <[task_id := 2]> state)
         | r => r
         end.
Proof. reflexivity. Qed.

Definition visited (x : string) (state : gmap string Z) (r : option (bool * gmap string Z)) : Prop :=
  (∃ state', r = Some (true, state') ∧ ∃ z, tc edge z z) ∨
  (∃ state', r = Some (false, state') ∧ later state state' ∧ color state' x = 2).

Lemma any_next_spec fuel l state :
  (∀ x s, x ∈ l → colors_ok s → (∀ z, color s z = 1 → tc edge z x) → (size (unseen s) < fuel)%nat →
     visited x s (_visit_dependency set_order fuel g x s)) →
  colors_ok state → (∀ x z, x ∈ l → color state z = 1 → tc edge z x) → (size (unseen state) < fuel)%nat →
  (∃ state', any_next (_visit_dependency set_order fuel g) l state = Some (true, state') ∧ ∃ z, tc edge z z) ∨
  (∃ state', any_next (_visit_dependency set_order fuel g) l state = Some (false, state') ∧ later state state' ∧
     ∀ x, x ∈ l → color state' x = 2).
Proof.
  intros Hvisit. revert state. induction l as [|x l IH]; intros state Hs Hg Hf; cbn.
  - right. exists state. split_and!; [done|by apply later_refl|by intros x ?%not_elem_of_nil].
  - destruct (Hvisit x state) as [(s' & -> & Hc)|(s' & -> & Hl & Hx)]; [by left|done|intros z; apply Hg; by left|done| |].
    { left. by exists s'. }
    destruct (IH ltac:(intros y s Hy; apply Hvisit; by right) s') as [(s2 & -> & Hc)|(s2 & -> & Hl2 & Hall)].
    + apply Hl.
    + intros y z Hy Hz. apply Hg; [by right|]. by apply Hl.
    + pose proof (later_unseen _ _ Hs Hl). lia.
    + left. by exists s2.
    + right. exists s2. split_and!; [done|by eapply later_trans|].
      intros y [->|Hy]%elem_of_cons; [by apply Hl2|by apply Hall].
Qed.

Lemma visit_spec fuel x state :
  x ∈ nodes → colors_ok state → (∀ z, color state z = 1 → tc edge z x) → (size (unseen state) < fuel)%nat →
  visited x state (_visit_dependency set_order fuel g x state).
Proof.
  revert x state; induction fuel as [|fuel IH]; intros x state Hx Hs Hg Hf; [lia|]. rewrite visit_unfold.
  destruct (Z.eqb_spec (color state x) 1) as [H1|H1]; [left; exists state; split; [done|]; exists x; by apply Hg|].
  destruct (Z.eqb_spec (color state x) 2) as [H2|H2]; [right; exists state; split_and!; [done|by apply later_refl|done]|].
  assert (color state x = 0) as H0 by (destruct (co_range _ Hs x) as [|[|]]; done).
  set (s1 := <[x := 1]> state).
  assert (∀ z, color s1 z = if decide (x = z) then 1 else color state z) as Hc1 by (intros z; apply color_insert).
  assert (colors_ok s1) as Hs1.
  { split.
    - intros z. rewrite Hc1. case_decide; [by right; left|apply Hs].
    - intros y z. rewrite !Hc1. case_decide; [done|]. intros Hy Hz. pose proof (co_closed _ Hs _ _ Hy Hz) as Hz2.
      case_decide as Hxz; [subst; lia|done].
    - intros z. rewrite Hc1. case_decide; [done|]. apply Hs. }
  destruct (any_next_spec fuel (successors set_order g x) s1) as [(s2 & -> & Hcyc)|(s2 & -> & Hl & Hall)].
  - intros y s Hy Hs' Hg' Hf'. apply elem_of_successors in Hy. apply IH; [by eapply edges_inside|done..].
  - done.
  - intros y z Hy Hz. apply elem_of_successors in Hy. rewrite Hc1 in Hz. case_decide as Hxz.
    + subst z. by apply tc_once.
    + eapply tc_r; [by apply Hg|done].
  - pose proof (unseen_insert x 1 state Hx H0 ltac:(done)) as Hlt. fold s1 in Hlt. lia.
  - left. by exists s2.
  - right. exists (<[x := 2]> s2). split; [done|].
    assert (∀ z, color (<[x := 2]> s2) z = if decide (x = z) then 2 else color s2 z) as Hc2 by (intros z; apply color_insert).
    assert (color s2 x = 1) as Hx1 by (apply Hl; rewrite Hc1; by rewrite decide_True).
    split; [|by rewrite Hc2, decide_True]. split.
    + split.
      * intros z. rewrite Hc2. case_decide; [by right; right|apply Hl].
      * intros y z Hy Hyz. rewrite Hc2. case_decide; [done|]. rewrite Hc2 in Hy. case_decide as Hxy.
        -- subst y. apply Hall. by apply elem_of_successors.
        -- by eapply (co_closed _ (la_ok _ _ Hl)).
      * intros z. rewrite Hc2. case_decide as Hxz; [subst z|by apply Hl]. intros _ Ht.
        assert (∃ y, edge x y ∧ (y = x ∨ tc edge y x)) as (y & Hxy & Hyx).
        { inversion Ht; subst; [by eexists; split; [|left]|by eexists; split; [|right]]. }
        assert (color s2 y = 2) as Hy by (apply Hall; by apply elem_of_successors).
        destruct Hyx as [->|Hyx]; [lia|]. pose proof (tc_closed _ _ _ (la_ok _ _ Hl) Hy Hyx). lia.
    + intros z. rewrite Hc2. case_decide as Hxz; [subst z; lia|]. rewrite (la_open _ _ Hl), Hc1. by rewrite decide_False.
    + intros z Hz. rewrite Hc2. case_decide; [done|]. apply Hl. rewrite Hc1. by rewrite decide_False.
Qed.

Lemma any_task_spec fuel ids state :
  (∀ x, x ∈ ids → x ∈ nodes) → colors_ok state → (∀ z, color state z ≠ 1) → (size (unseen state) < fuel)%nat →
  (any_task set_order fuel g ids state = Some true ∧ ∃ z, tc edge z z) ∨
  (any_task set_order fuel g ids state = Some false ∧
    ∃ state', later state state' ∧ ∀ x, x ∈ ids → color state' x = 2).
Proof.
  revert state; induction ids as [|x ids IH]; intros state Hin Hs Hg Hf; cbn.
  { right. split; [done|]. exists state. split; [by apply later_refl|by intros x ?%not_elem_of_nil]. }
  fold (color state x). assert (∀ y, y ∈ ids → y ∈ nodes) as Hin' by (intros y Hy; apply Hin; by right).
  destruct (Z.eqb_spec (color state x) 0) as [H0|H0].
  - destruct (visit_spec fuel x state) as [(s & -> & Hc)|(s & -> & Hl & Hx)]; [apply Hin; by left|done|by intros z Hz%Hg|done|by left|].
    destruct (IH s Hin') as [[-> Hc]|[-> (s' & Hl' & Hall)]]; [apply Hl|intros z Hz%Hl; by apply Hg in Hz| |by left|].
    { pose proof (later_unseen _ _ Hs Hl). lia. }
    right. split; [done|]. exists s'. split; [by eapply later_trans|].
    intros y [->|Hy]%elem_of_cons; [by apply Hl'|by apply Hall].
  - assert (color state x = 2) as H2 by (destruct (co_range _ Hs x) as [|[H|]]; [done|by apply Hg in H|done]).
    destruct (IH state Hin' Hs Hg Hf) as [[-> Hc]|[-> (s' & Hl' & Hall)]]; [by left|].
    right. split; [done|]. exists s'. split; [done|].
    intros y [->|Hy]%elem_of_cons; [by apply Hl'|by apply Hall].
Qed.

End search.

(** The search answers, and its answer is whether the dependencies have a cycle. *)
Lemma cycle_search_exact set_order g task_ids :
  (∀ s, set_order s ≡ₚ elements s) →
  (∀ x y, edge g x y → x ∈ task_ids ∧ y ∈ task_ids) →
  ∃ b, _dependencies_have_cycle set_order g task_ids = Some b ∧ (b = true ↔ ∃ x, tc (edge g) x x).
Proof.
  intros Hord Hin. unfold _dependencies_have_cycle. set (state := list_to_map _).
  assert (∀ z, color state z = 0) as H0.
  { intros z. unfold color, state. destruct (list_to_map _ !! z) eqn:Hz; [|done].
    apply elem_of_list_to_map_2, list_elem_of_fmap in Hz as (id & [= _ ->] & _). done. }
  assert (colors_ok g state) as Hs by (split; intros; rewrite H0 in *; auto; lia).
  destruct (any_task_spec set_order Hord g (list_to_set task_ids) ltac:(intros x y Hxy; apply elem_of_list_to_set, (Hin x y Hxy))
    (S (length task_ids)) task_ids state) as [[-> Hc]|[-> (s' & Hl & Hall)]].
  - intros x Hx. by apply elem_of_list_to_set.
  - done.
  - intros z. rewrite H0. lia.
  - unfold unseen. assert (size (list_to_set (C:=gset string) task_ids) ≤ length task_ids)%nat as Hle.
    { clear. induction task_ids as [|x l IH]; cbn; [by rewrite size_empty|]. rewrite size_union_alt.
      rewrite size_singleton. pose proof (subseteq_size (list_to_set l ∖ {[x]}) (list_to_set (C:=gset string) l) ltac:(set_solver)). lia. }
    apply Nat.lt_succ_r. etrans; [|exact Hle]. apply subseteq_size. set_solver.
  - by exists true.
  - exists false. split; [done|]. split; [done|]. intros (x & Hx).
    assert (x ∈ task_ids) as Hxt by (clear - Hx Hin; remember x as z eqn:Hz in Hx at 2; destruct Hx as [? ? H|? ? ? H _]; apply (Hin _ _ H)).
    destruct (co_acyclic _ _ (la_ok _ _ _ Hl) x); [by apply Hall|done].
Qed.

(** ** Valid plans, declared *)

(** A row names a known task under [key]. *)
Definition names_task (key : string) (ids : list string) (row : json) (id : string) : Prop :=
  ∃ members, row = JObj members ∧ get key members = JStr id ∧ id ∈ ids.

Definition task_of (row : json) : option string :=
  match row with JObj members => match get "taskId" members with JStr id => Some id | _ => None end | _ => None end.

Definition scopes_of (row : json) : list text :=
  match row with
  | JObj members => match get "scopes" members with JList scopes => omap string_of scopes | _ => [] end
  | _ => []
  end.

Definition writes (row : json) : Prop :=
  match row with JObj members => get "access" members = JStr "write" | _ => False end.

(** [after] depends on [before]. *)
Definition depends (dependencies : list json) (before after : string) : Prop :=
  ∃ members, JObj members ∈ dependencies ∧ get "before" members = JStr before ∧ get "after" members = JStr after.

Definition route_ok (route : string) (owners : gset string) : Prop :=
  match exact_route route with
  | Some owner => owners = {[owner]}
  | None => route = "mixed"%string ∧
            (owners = {["parent"%string; "subagent"%string]} ∨ owners = {["parent"%string; "travis-b"%string]})
  end.

Record valid_plan (plan : _CoordinationPlanCollections) (ids : list string) : Prop := {
  vp_tasks : map task_id_of (pc_tasks plan) = map Some ids;
  vp_unique : NoDup ids;
  vp_dependencies : ∀ d, d ∈ pc_dependencies plan →
    ∃ b a, names_task "before" ids d b ∧ names_task "after" ids d a ∧ b ≠ a;
  vp_acyclic : ∀ x, ¬ tc (depends (pc_dependencies plan)) x x;
  vp_owned : ∀ r, r ∈ pc_ownership plan → ∃ id, names_task "taskId" ids r id;
  vp_owned_once : omap task_of (pc_ownership plan) ≡ₚ ids;
  vp_scopes : ∀ r scope, r ∈ pc_ownership plan → scope ∈ scopes_of r → _is_plain_relative_scope scope = true;
  vp_disjoint : ∀ r1 r2 s1 s2, r1 ∈ pc_ownership plan → r2 ∈ pc_ownership plan → writes r1 → writes r2 →
    task_of r1 ≠ task_of r2 → s1 ∈ scopes_of r1 → s2 ∈ scopes_of r2 → _scopes_overlap s1 s2 = false;
  vp_verified : ∀ r, r ∈ pc_verification plan → ∃ id, names_task "taskId" ids r id;
  vp_verified_once : omap task_of (pc_verification plan) ≡ₚ ids;
  vp_route : route_ok (pc_route plan) (list_to_set (omap owner_of (pc_tasks plan)))
}.

(** ** The checks, one by one *)

Lemma app_one_not_nil {A} (l : list A) x : l ++ [x] ≠ [].
Proof. by destruct l. Qed.

(** An error list with a conditional message is empty when it was and the condition fails. *)
Lemma add_error_nil (b : bool) (errors : list string) e : (if b then errors ++ [e] else errors) = [] ↔ b = false ∧ errors = [].
Proof. destruct b; [|naive_solver]. split; [intros H; by apply app_one_not_nil in H|naive_solver]. Qed.

Lemma task_ids_nil tasks ids errors0 errors :
  _validate_task_ids tasks errors0 = (ids, errors) →
  ids = omap task_id_of tasks ∧ (errors = [] ↔ (map task_id_of tasks = map Some ids ∧ NoDup ids) ∧ errors0 = []).
Proof.
  unfold _validate_task_ids. intros [= <- <-]. split; [done|].
  rewrite add_error_nil, add_error_nil. unfold has_duplicate.
  assert (length (omap task_id_of tasks) = length tasks ↔ map task_id_of tasks = map Some (omap task_id_of tasks)) as Hl.
  { assert (∀ l, length (omap task_id_of l) <= length l)%nat as Hle.
    { induction l as [|x l IH]; cbn; [lia|]. destruct (task_id_of x); cbn; lia. }
    induction tasks as [|x l IH]; cbn; [done|]. destruct (task_id_of x) eqn:Hx; cbn; rewrite ?Hx.
    - rewrite Nat.succ_inj_wd, IH. split; [by intros ->|by intros [= H]].
    - split; [intros H; pose proof (Hle l); lia|]. destruct (omap task_id_of l); discriminate. }
  rewrite <-Hl, !bool_decide_eq_false. split.
  - intros (H1 & H2 & ->). split; [|done]. split; [destruct (decide (length (omap task_id_of tasks) = length tasks)); tauto|].
    destruct (decide (NoDup (omap task_id_of tasks))); tauto.
  - intros [[H1 H2] ->]. split_and!; tauto.
Qed.

Lemma in_known_some v known id : in_known v known = Ok (Some id) ↔ v = JStr id ∧ id ∈ known.
Proof.
  destruct v; cbn; try naive_solver. case_bool_decide; naive_solver.
Qed.

(** A dependency the validator has nothing to say against. *)
Definition dependency_ok (ids : list string) (d : json) (e : string * string) : Prop :=
  names_task "before" ids d e.1 ∧ names_task "after" ids d e.2 ∧ e.1 ≠ e.2.

Definition add_edges (es : list (string * string)) (g : graph) : graph :=
  fold_left (λ g e, add_edge e.1 e.2 g) es g.

Lemma collect_edges_ok deps ids es g errors :
  Forall2 (dependency_ok ids) deps es → collect_edges deps ids g errors = Ok (add_edges es g, errors).
Proof.
  intros H. revert g. induction H as [|d [b a] deps es (Hb & Ha & Hne) _ IH]; intros g; [done|].
  destruct Hb as (row & -> & Hb & Hbi), Ha as (row' & [= <-] & Ha & Hai). cbn [collect_edges fst snd].
  rewrite (proj2 (in_known_some _ _ b) (conj Hb Hbi)). cbn [mbind result_bind].
  rewrite (proj2 (in_known_some _ _ a) (conj Ha Hai)). cbn [mbind result_bind].
  rewrite bool_decide_eq_false_2 by done. apply IH.
Qed.

(** Once an error is recorded, the list stays non-empty. *)
Lemma collect_edges_errors deps ids g errors g' errors' :
  collect_edges deps ids g errors = Ok (g', errors') → errors `prefix_of` errors'.
Proof.
  revert g errors. induction deps as [|d deps IH]; intros g errors; cbn; [by intros [= _ <-]|].
  assert (∀ g e, collect_edges deps ids g (errors ++ [e]) = Ok (g', errors') → errors `prefix_of` errors') as Herr.
  { intros g0 e H%IH. etrans; [|exact H]. by apply prefix_app_r. }
  destruct d as [| | | | | |row]; try apply Herr.
  destruct (in_known (get "before" row) ids) as [[b|]|]; cbn; [|apply Herr|done].
  destruct (in_known (get "after" row) ids) as [[a|]|]; cbn; [|apply Herr|done].
  case_bool_decide; [apply Herr|apply IH].
Qed.

Lemma collect_edges_inv deps ids g errors g' :
  collect_edges deps ids g errors = Ok (g', []) →
  errors = [] ∧ ∃ es, Forall2 (dependency_ok ids) deps es ∧ g' = add_edges es g.
Proof.
  revert g errors. induction deps as [|d deps IH]; intros g errors; cbn.
  { intros [= <- ->]. split; [done|]. by exists []. }
  assert (∀ g e, collect_edges deps ids g (errors ++ [e]) = Ok (g', []) → False) as Herr.
  { intros g0 e H%collect_edges_errors. apply prefix_nil_inv in H. by apply app_one_not_nil in H. }
  destruct d as [| | | | | |row]; try by intros ?%Herr.
  destruct (in_known (get "before" row) ids) as [[b|]|] eqn:Hb; cbn; [|by intros ?%Herr|done].
  destruct (in_known (get "after" row) ids) as [[a|]|] eqn:Ha; cbn; [|by intros ?%Herr|done].
  case_bool_decide as Hne; [by intros ?%Herr|]. intros (-> & es & Hes & ->)%IH. split; [done|].
  apply in_known_some in Hb as [Hb Hbi], Ha as [Ha Hai].
  exists ((b, a) :: es). split; [|done]. constructor; [|done]. split_and!; [by exists row|by exists row|done].
Qed.

Lemma edge_add_edges es g x y : edge (add_edges es g) x y ↔ edge g x y ∨ (x, y) ∈ es.
Proof.
  revert g. induction es as [|[b a] es IH]; intros g; cbn; [set_solver|]. rewrite IH. unfold edge, add_edge.
  rewrite lookup_insert. destruct (decide (b = x)) as [->|Hne]; cbn; [set_solver|]. set_solver.
Qed.

Lemma edge_empty ids x y : ¬ edge (list_to_map (map (λ id, (id, ∅)) ids)) x y.
Proof.
  unfold edge. destruct (list_to_map _ !! x) as [s|] eqn:Hx; cbn; [|set_solver].
  apply elem_of_list_to_map_2, list_elem_of_fmap in Hx as (id & [= _ ->] & _). set_solver.
Qed.

Lemma depends_pairs deps ids es :
  Forall2 (dependency_ok ids) deps es → ∀ b a, depends deps b a ↔ (b, a) ∈ es.
Proof.
  induction 1 as [|d [b1 a1] deps es (Hb & Ha & Hne) _ IH]; intros b a.
  - split; [by intros (m & Hm%not_elem_of_nil & _)|by intros ?%not_elem_of_nil].
  - rewrite elem_of_cons, <-IH. destruct Hb as (row & -> & Hb & _), Ha as (row' & [= <-] & Ha & _). cbn in Hb, Ha. split.
    + intros (m & [[= ->]|Hm]%elem_of_cons & H1 & H2); [left; congruence|right; by exists m].
    + intros [[= -> ->]|(m & Hm & H)]; [exists row; split; [by left|done]|exists m; split; [by right|done]].
Qed.

Lemma tc_iff {A} (R R' : relation A) x y : (∀ x y, R x y ↔ R' x y) → tc R x y ↔ tc R' x y.
Proof.
  intros H. assert (∀ R R' : relation A, (∀ x y, R x y → R' x y) → tc R x y → tc R' x y) as Hi.
  { clear. intros R R' H. induction 1; [apply tc_once|eapply tc_l]; eauto. }
  split; apply Hi; intros; by apply H.
Qed.

(** The rows that must name each task once. *)
Definition row_ok (ids : list string) (r : json) (id : string) : Prop := names_task "taskId" ids r id.

Lemma row_ok_task ids r id : row_ok ids r id → task_of r = Some id ∧ id ∈ ids.
Proof. intros (row & -> & Hr & Hid). split; [|done]. cbn. by rewrite Hr. Qed.

Lemma rows_tasks ids rows names : Forall2 (row_ok ids) rows names → omap task_of rows = names.
Proof. induction 1 as [|r id rows names Hr _ IH]; [done|]. apply row_ok_task in Hr as [Hr _]. cbn. by rewrite Hr, IH. Qed.

Definition bumps (names : list string) (counts : gmap string Z) : gmap string Z :=
  fold_left (λ c id, bump id c) names counts.

Lemma count_bumps names counts id :
  default 0 (bumps names counts !! id) =
  default 0 (counts !! id) + Z.of_nat (length (List.filter (λ x, bool_decide (x = id)) names)).
Proof.
  revert counts. induction names as [|x names IH]; intros counts; cbn; [lia|]. rewrite IH. unfold bump.
  rewrite lookup_insert. case_bool_decide as Hx; [subst; rewrite decide_True by done|rewrite decide_False by done]; cbn; lia.
Qed.

Lemma zero_counts_lookup ids id : default 0 (zero_counts ids !! id) = 0.
Proof.
  unfold zero_counts. destruct (list_to_map _ !! id) eqn:H; [|done].
  apply elem_of_list_to_map_2, list_elem_of_fmap in H as (? & [= _ ->] & _). done.
Qed.

Lemma filter_length_nil {A} (f : A → bool) l : length (List.filter f l) = 0%nat ↔ ∀ x, x ∈ l → f x = false.
Proof.
  induction l as [|y l IH]; cbn; [set_solver|]. destruct (f y) eqn:Hf; cbn.
  - split; [done|]. intros H. rewrite (H y) in Hf; [done|by left].
  - rewrite IH. set_solver.
Qed.

(** Every task is counted once exactly when the names are a permutation of the tasks. *)
Lemma all_once_perm ids names :
  NoDup ids → (∀ x, x ∈ names → x ∈ ids) →
  all_once (bumps names (zero_counts ids)) ids = true ↔ names ≡ₚ ids.
Proof.
  intros Hn Hin. unfold all_once. rewrite forallb_forall. setoid_rewrite count_bumps. setoid_rewrite zero_counts_lookup.
  assert ((∀ x, In x ids → (0 + Z.of_nat (length (List.filter (λ y, bool_decide (y = x)) names)) =? 1) = true) ↔
          ∀ x, x ∈ ids → length (List.filter (λ y, bool_decide (y = x)) names) = 1%nat) as ->.
  { split; intros H x Hx; specialize (H x); rewrite list_elem_of_In in *; specialize (H Hx); lia. }
  split.
  - intros H. apply NoDup_Permutation; [|done|].
    + clear Hn. assert (∀ x, length (List.filter (λ y, bool_decide (y = x)) names) <= 1)%nat as Hle.
      { intros x. destruct (decide (x ∈ names)) as [Hx|Hx]; [rewrite H by auto; lia|].
        rewrite (proj2 (filter_length_nil _ names)); [lia|]. intros y Hy. apply bool_decide_eq_false. intros ->. done. }
      clear - Hle. induction names as [|y l IH]; [constructor|]. constructor.
      * intros Hy. specialize (Hle y). cbn in Hle. rewrite bool_decide_eq_true_2 in Hle by done. cbn in Hle.
        assert (length (List.filter (λ z, bool_decide (z = y)) l) = 0%nat) as H0 by lia.
        pose proof (proj1 (filter_length_nil _ _) H0 y Hy) as H1. by apply bool_decide_eq_false in H1.
      * apply IH. intros x. specialize (Hle x). cbn in Hle. destruct (bool_decide (y = x)); cbn in Hle; lia.
    + intros x. split; [apply Hin|]. intros Hx. specialize (H x Hx).
      destruct (decide (x ∈ names)) as [|Hx']; [done|].
      rewrite (proj2 (filter_length_nil _ names)) in H; [done|]. intros y Hy. apply bool_decide_eq_false. intros ->. done.
  - intros Hp x Hx. rewrite <-Hp in Hx, Hn. clear Hp Hin. induction names as [|y l IH]; [set_solver|].
    apply NoDup_cons in Hn as [Hy Hn]. cbn. case_bool_decide as Hyx; cbn.
    + subst y. f_equal. apply filter_length_nil. intros z Hz. apply bool_decide_eq_false. intros ->. done.
    + apply IH; [done|set_solver].
Qed.

(** What a row adds to the write scopes. *)
Definition write_entries (r : json) : list (string * text) :=
  match r with
  | JObj members =>
      match get "taskId" members with
      | JStr id => if bool_decide (get "access" members = JStr "write") then map (pair id) (scopes_of r) else []
      | _ => []
      end
  | _ => []
  end.

Definition plain_row (r : json) : Prop := ∀ scope, scope ∈ scopes_of r → _is_plain_relative_scope scope = true.

Lemma plain_scopes_row members errors :
  ∃ scopes errors', _plain_ownership_scopes members errors = (scopes, errors') ∧
    scopes_of (JObj members) = default [] scopes ∧ errors `prefix_of` errors' ∧
    (errors' = [] ↔ plain_row (JObj members) ∧ errors = []) ∧ (plain_row (JObj members) → errors' = errors).
Proof.
  unfold _plain_ownership_scopes, plain_row. cbn [scopes_of].
  destruct (get "scopes" members) as [| | | | |scopes|];
    try by (eexists _, _; split_and!; [done|done|done|split; [by split; [by intros ? ?%not_elem_of_nil|]|by intros []]|done]).
  eexists _, _. split; [reflexivity|]. split; [done|]. rewrite add_error_nil. cbn [default].
  assert (existsb (λ scope, negb (_is_plain_relative_scope scope)) (omap string_of scopes) = false ↔
          ∀ scope, scope ∈ omap string_of scopes → _is_plain_relative_scope scope = true) as He.
  { induction (omap string_of scopes) as [|x l IH]; cbn; [by split; [by intros _ ? ?%not_elem_of_nil|]|].
    rewrite orb_false_iff, negb_false_iff, IH. split; [intros [H1 H2] y [->|Hy]%elem_of_cons; auto|].
    intros H. split; [apply H; by left|intros y Hy; apply H; by right]. }
  split_and!.
  - destruct (existsb _ _); [by apply prefix_app_r|done].
  - by rewrite He.
  - intros H. apply He in H. by rewrite H.
Qed.

Lemma ownership_rows_ok ids rows names counts scopes errors :
  Forall2 (row_ok ids) rows names → (∀ r, r ∈ rows → plain_row r) →
  ownership_rows rows ids counts scopes errors =
    Ok (bumps names counts, scopes ++ flat_map write_entries rows, errors).
Proof.
  intros H. revert counts scopes. induction H as [|r id rows names (row & -> & Hr & Hid) _ IH]; intros counts scopes Hp.
  { cbn. by rewrite app_nil_r. }
  cbn [ownership_rows]. rewrite (proj2 (in_known_some _ _ id) (conj Hr Hid)). cbn [mbind result_bind].
  destruct (plain_scopes_row row errors) as (ps & errors' & -> & Hs & _ & _ & He).
  rewrite He by (apply Hp; by left). rewrite IH by (intros r Hr'; apply Hp; by right).
  cbn [flat_map write_entries bumps fold_left]. rewrite Hr, Hs. do 2 f_equal. f_equal.
  destruct ps as [l|]; cbn; [|by case_bool_decide]. case_bool_decide; [by rewrite <-app_assoc|done].
Qed.

Lemma ownership_rows_errors rows ids counts scopes errors c w errors' :
  ownership_rows rows ids counts scopes errors = Ok (c, w, errors') → errors `prefix_of` errors'.
Proof.
  revert counts scopes errors. induction rows as [|r rows IH]; intros counts scopes errors; cbn; [by intros [= _ _ <-]|].
  assert (∀ c' w' e, ownership_rows rows ids c' w' (errors ++ [e]) = Ok (c, w, errors') → errors `prefix_of` errors') as Herr.
  { intros c' w' e H%IH. etrans; [|exact H]. by apply prefix_app_r. }
  destruct r as [| | | | | |row]; try apply Herr.
  destruct (in_known (get "taskId" row) ids) as [[id|]|]; cbn; [|apply Herr|done].
  destruct (plain_scopes_row row errors) as (ps & errors2 & -> & _ & Hpre & _). intros H%IH. by etrans.
Qed.

Lemma ownership_rows_inv rows ids counts scopes errors c w :
  ownership_rows rows ids counts scopes errors = Ok (c, w, []) →
  errors = [] ∧ ∃ names, Forall2 (row_ok ids) rows names ∧ (∀ r, r ∈ rows → plain_row r) ∧
    c = bumps names counts ∧ w = scopes ++ flat_map write_entries rows.
Proof.
  revert counts scopes errors. induction rows as [|r rows IH]; intros counts scopes errors; cbn.
  { intros [= <- <- ->]. split; [done|]. exists []. rewrite app_nil_r. split_and!; [constructor|by intros r ?%not_elem_of_nil|done|done]. }
  assert (∀ c' w' e, ownership_rows rows ids c' w' (errors ++ [e]) = Ok (c, w, []) → False) as Herr.
  { intros c' w' e H%ownership_rows_errors. apply prefix_nil_inv in H. by apply app_one_not_nil in H. }
  destruct r as [| | | | | |row]; try by intros ?%Herr.
  destruct (in_known (get "taskId" row) ids) as [[id|]|] eqn:Hr; cbn; [|by intros ?%Herr|done].
  destruct (plain_scopes_row row errors) as (ps & errors2 & -> & Hs & _ & He & _).
  intros (H0%He & names & Hn & Hp & -> & ->)%IH. destruct H0 as [Hp0 ->]. split; [done|].
  apply in_known_some in Hr as [Hr Hid]. exists (id :: names). split_and!.
  - constructor; [by exists row|done].
  - intros r [->|Hin]%elem_of_cons; [done|by apply Hp].
  - done.
  - cbn [flat_map write_entries]. cbn [scopes_of] in Hs. rewrite Hr. rewrite ?Hs.
    destruct ps as [l|]; cbn in *; rewrite ?Hs; case_bool_decide; rewrite <-?app_assoc; done.
Qed.

(** Rows of two tasks whose scopes overlap. *)
Definition overlapping (p q : string * text) : Prop := p.1 ≠ q.1 ∧ _scopes_overlap p.2 q.2 = true.

Lemma scopes_overlap_comm s t : _scopes_overlap s t = _scopes_overlap t s.
Proof.
  unfold _scopes_overlap. rewrite <-!orb_assoc. f_equal; [|apply orb_comm].
  destruct (bool_decide_reflect (_normalized_scope s = _normalized_scope t)),
    (bool_decide_reflect (_normalized_scope t = _normalized_scope s)); congruence.
Qed.

Lemma overlap_test p q :
  negb (bool_decide (p.1 = q.1)) && _scopes_overlap p.2 q.2 = false ↔ ¬ overlapping p q.
Proof. unfold overlapping. case_bool_decide; destruct (_scopes_overlap p.2 q.2); cbn; naive_solver. Qed.

Lemma overlaps_nil scopes errors :
  _validate_write_scope_overlaps scopes errors = [] ↔
  errors = [] ∧ ∀ p q, p ∈ scopes → q ∈ scopes → ¬ overlapping p q.
Proof.
  revert errors. induction scopes as [|[task scope] scopes IH]; intros errors; cbn.
  { split; [intros ->; split; [done|by intros p q ?%not_elem_of_nil]|by intros []]. }
  rewrite IH, add_error_nil.
  assert (existsb (λ '(right_task, right_scope),
     negb (bool_decide (task = right_task)) && _scopes_overlap scope right_scope) scopes = false ↔
     ∀ q, q ∈ scopes → ¬ overlapping (task, scope) q) as ->.
  { clear. induction scopes as [|[t s] l IH]; cbn; [by split; [by intros _ q ?%not_elem_of_nil|]|].
    rewrite orb_false_iff, IH, (overlap_test (task, scope) (t, s)). setoid_rewrite elem_of_cons. naive_solver. }
  assert (∀ p q, overlapping p q → overlapping q p) as Hsym.
  { intros p q [H1 H2]. split; [done|by rewrite scopes_overlap_comm]. }
  split.
  - intros [[H1 ->] H2]. split; [done|]. intros p q [->|Hp]%elem_of_cons [->|Hq]%elem_of_cons; [by intros []|by apply H1| |by apply H2].
    intros Ho%Hsym. by eapply H1.
  - intros [-> H]. split_and!; [|done|]; intros; apply H; set_solver.
Qed.

Lemma elem_of_write_entries r id s :
  (id, s) ∈ write_entries r ↔ writes r ∧ task_of r = Some id ∧ s ∈ scopes_of r.
Proof.
  destruct r as [| | | | | |row]; cbn [write_entries writes task_of]; try by split; [intros ?%not_elem_of_nil|intros (? & ? & ?)].
  destruct (get "taskId" row); try by split; [intros ?%not_elem_of_nil|intros (? & ? & ?)].
  case_bool_decide; [|by split; [intros ?%not_elem_of_nil|intros (? & ? & ?)]].
  rewrite list_elem_of_fmap. naive_solver.
Qed.

Lemma disjoint_entries rows :
  (∀ p q, p ∈ flat_map write_entries rows → q ∈ flat_map write_entries rows → ¬ overlapping p q) ↔
  (∀ r1 r2 s1 s2, r1 ∈ rows → r2 ∈ rows → writes r1 → writes r2 → task_of r1 ≠ task_of r2 →
     s1 ∈ scopes_of r1 → s2 ∈ scopes_of r2 → is_Some (task_of r1) → is_Some (task_of r2) → _scopes_overlap s1 s2 = false).
Proof.
  assert (∀ p, p ∈ flat_map write_entries rows ↔ ∃ r, r ∈ rows ∧ p ∈ write_entries r) as Hin.
  { intros p. rewrite list_elem_of_In, in_flat_map. setoid_rewrite list_elem_of_In. done. }
  setoid_rewrite Hin. split.
  - intros H r1 r2 s1 s2 H1 H2 Hw1 Hw2 Ht Hs1 Hs2 [t1 Ht1] [t2 Ht2].
    destruct (_scopes_overlap s1 s2) eqn:Ho; [|done]. exfalso.
    apply (H (t1, s1) (t2, s2)); [exists r1|exists r2|]; [by rewrite elem_of_write_entries..|].
    split; cbn; [congruence|done].
  - intros H [t1 s1] [t2 s2] (r1 & H1 & Hw1) (r2 & H2 & Hw2) [Hne Ho]. cbn in Hne, Ho.
    apply elem_of_write_entries in Hw1 as (Hw1 & Ht1 & Hs1), Hw2 as (Hw2 & Ht2 & Hs2).
    rewrite (H r1 r2 s1 s2) in Ho; try done; congruence.
Qed.

Lemma verification_rows_ok ids rows names counts errors :
  Forall2 (row_ok ids) rows names → verification_rows rows ids counts errors = Ok (bumps names counts, errors).
Proof.
  intros H. revert counts. induction H as [|r id rows names (row & -> & Hr & Hid) _ IH]; intros counts; [done|].
  cbn [verification_rows]. rewrite (proj2 (in_known_some _ _ id) (conj Hr Hid)). apply IH.
Qed.

Lemma verification_rows_errors rows ids counts errors c errors' :
  verification_rows rows ids counts errors = Ok (c, errors') → errors `prefix_of` errors'.
Proof.
  revert counts errors. induction rows as [|r rows IH]; intros counts errors; cbn; [by intros [= _ <-]|].
  assert (∀ c' e, verification_rows rows ids c' (errors ++ [e]) = Ok (c, errors') → errors `prefix_of` errors') as Herr.
  { intros c' e H%IH. etrans; [|exact H]. by apply prefix_app_r. }
  destruct r as [| | | | | |row]; try apply Herr.
  destruct (in_known (get "taskId" row) ids) as [[id|]|]; cbn; [apply IH|apply Herr|done].
Qed.

Lemma verification_rows_inv rows ids counts errors c :
  verification_rows rows ids counts errors = Ok (c, []) →
  errors = [] ∧ ∃ names, Forall2 (row_ok ids) rows names ∧ c = bumps names counts.
Proof.
  revert counts errors. induction rows as [|r rows IH]; intros counts errors; cbn.
  { intros [= <- ->]. split; [done|]. by exists []. }
  assert (∀ c' e, verification_rows rows ids c' (errors ++ [e]) = Ok (c, []) → False) as Herr.
  { intros c' e H%verification_rows_errors. apply prefix_nil_inv in H. by apply app_one_not_nil in H. }
  destruct r as [| | | | | |row]; try by intros ?%Herr.
  destruct (in_known (get "taskId" row) ids) as [[id|]|] eqn:Hr; cbn; [|by intros ?%Herr|done].
  intros (-> & names & Hn & ->)%IH. split; [done|]. apply in_known_some in Hr as [Hr Hid].
  exists (id :: names). split; [|done]. constructor; [by exists row|done].
Qed.

Lemma rows_named ids rows :
  (∀ r, r ∈ rows → ∃ id, row_ok ids r id) ↔ ∃ names, Forall2 (row_ok ids) rows names.
Proof.
  split.
  - induction rows as [|r rows IH]; intros H; [by exists []|]. destruct (H r) as [id Hid]; [by left|].
    destruct IH as [names Hn]; [intros r' Hr'; apply H; by right|]. exists (id :: names). by constructor.
  - intros [names Hn] r Hr. apply list_elem_of_lookup in Hr as [i Hi].
    destruct (Forall2_lookup_l _ _ _ _ _ Hn Hi) as (id & _ & Hid). by exists id.
Qed.

Lemma names_known ids rows names : Forall2 (row_ok ids) rows names → ∀ x, x ∈ names → x ∈ ids.
Proof.
  induction 1 as [|r id rows names (row & _ & _ & Hid) _ IH]; intros x; [by intros ?%not_elem_of_nil|].
  intros [->|Hx]%elem_of_cons; [done|by apply IH].
Qed.

Lemma route_nil route tasks errors :
  _validate_route route tasks errors = [] ↔ errors = [] ∧ route_ok route (list_to_set (omap owner_of tasks)).
Proof.
  unfold _validate_route, route_ok. destruct (exact_route route) as [owner|].
  - rewrite add_error_nil, bool_decide_eq_false. destruct (decide (list_to_set (C:=gset string) (omap owner_of tasks) = {[owner]})); tauto.
  - case_bool_decide as Hm; [|split; [by intros ?%app_one_not_nil|naive_solver]].
    destruct (bool_decide_reflect (list_to_set (C:=gset string) (omap owner_of tasks) = {["parent"%string; "subagent"%string]})),
      (bool_decide_reflect (list_to_set (C:=gset string) (omap owner_of tasks) = {["parent"%string; "travis-b"%string]})); cbn;
      (split; [intros H; first [by apply app_one_not_nil in H|tauto]|tauto]).
Qed.

Lemma distinct_nil seen l : distinct seen l = [] → (∀ x, x ∈ l → x ∈ seen).
Proof.
  revert seen. induction l as [|x l IH]; intros seen; cbn; [by intros _ y ?%not_elem_of_nil|].
  case_bool_decide as Hx; [|done]. intros H y [->|Hy]%elem_of_cons; [done|by apply IH].
Qed.

Lemma report_nil errors : take 8 (distinct [] errors) = [] ↔ errors = [].
Proof.
  split; [|by intros ->]. destruct errors as [|e errors]; [done|]. cbn. by rewrite bool_decide_eq_false_2 by set_solver.
Qed.

(** Whether everything but the errors so far is fine with the ownership. *)
Lemma ownership_nil ids rows errors :
  NoDup ids →
  _validate_ownership rows ids errors = Ok [] ↔
  errors = [] ∧ (∀ r, r ∈ rows → ∃ id, row_ok ids r id) ∧ omap task_of rows ≡ₚ ids ∧
  (∀ r scope, r ∈ rows → scope ∈ scopes_of r → _is_plain_relative_scope scope = true) ∧
  (∀ p q, p ∈ flat_map write_entries rows → q ∈ flat_map write_entries rows → ¬ overlapping p q).
Proof.
  intros Hn. unfold _validate_ownership. split.
  - destruct (ownership_rows rows ids (zero_counts ids) [] errors) as [[[c w] errors']|] eqn:Hr; cbn; [|done].
    intros [= H]. apply overlaps_nil in H as [H Hov]. apply add_error_nil in H as [Honce ->].
    apply ownership_rows_inv in Hr as (-> & names & Hrows & Hp & -> & ->). apply negb_false_iff in Honce.
    apply all_once_perm in Honce; [|done|by eapply names_known]. rewrite (rows_tasks _ _ _ Hrows).
    split_and!; [done|apply rows_named; by exists names|done|by intros r s Hr; apply Hp|done].
  - intros (-> & Hrows & Hperm & Hp & Hov). apply rows_named in Hrows as [names Hrows].
    rewrite (ownership_rows_ok _ _ _ _ _ _ Hrows) by (intros r Hr s; by apply Hp). cbn.
    rewrite (rows_tasks _ _ _ Hrows) in Hperm. f_equal. apply overlaps_nil. split; [|done].
    by rewrite (proj2 (all_once_perm ids names Hn (names_known _ _ _ Hrows)) Hperm).
Qed.

Lemma verification_nil ids rows errors :
  NoDup ids →
  _validate_verification rows ids errors = Ok [] ↔
  errors = [] ∧ (∀ r, r ∈ rows → ∃ id, row_ok ids r id) ∧ omap task_of rows ≡ₚ ids.
Proof.
  intros Hn. unfold _validate_verification. split.
  - destruct (verification_rows rows ids (zero_counts ids) errors) as [[c errors']|] eqn:Hr; cbn; [|done].
    intros [= H]. apply add_error_nil in H as [Honce ->].
    apply verification_rows_inv in Hr as (-> & names & Hrows & ->). apply negb_false_iff in Honce.
    apply all_once_perm in Honce; [|done|by eapply names_known]. rewrite (rows_tasks _ _ _ Hrows).
    split_and!; [done|apply rows_named; by exists names|done].
  - intros (-> & Hrows & Hperm). apply rows_named in Hrows as [names Hrows].
    rewrite (verification_rows_ok _ _ _ _ _ Hrows). cbn. rewrite (rows_tasks _ _ _ Hrows) in Hperm. f_equal.
    by rewrite (proj2 (all_once_perm ids names Hn (names_known _ _ _ Hrows)) Hperm).
Qed.

Lemma ownership_no_errors ids rows errors : _validate_ownership rows ids errors = Ok [] → errors = [].
Proof.
  unfold _validate_ownership.
  destruct (ownership_rows rows ids (zero_counts ids) [] errors) as [[[c w] errors']|] eqn:Hr; cbn; [|done].
  intros [= H]. apply overlaps_nil in H as [H _]. apply add_error_nil in H as [_ ->]. by apply ownership_rows_inv in Hr as [? _].
Qed.

Lemma verification_no_errors ids rows errors : _validate_verification rows ids errors = Ok [] → errors = [].
Proof.
  unfold _validate_verification.
  destruct (verification_rows rows ids (zero_counts ids) errors) as [[c errors']|] eqn:Hr; cbn; [|done].
  intros [= H]. apply add_error_nil in H as [_ ->]. by apply verification_rows_inv in Hr as [? _].
Qed.

Section validator.
Variable set_order : gset string → list string.
Hypothesis set_order_elements : ∀ s, set_order s ≡ₚ elements s.

Lemma acyclic_edges deps ids es :
  Forall2 (dependency_ok ids) deps es →
  ∃ b, _dependencies_have_cycle set_order (add_edges es (list_to_map (map (λ id, (id, ∅)) ids))) ids = Some b ∧
       (b = false ↔ ∀ x, ¬ tc (depends deps) x x).
Proof.
  intros Hes. set (g := add_edges _ _).
  assert (∀ x y, edge g x y ↔ depends deps x y) as He.
  { intros x y. unfold g. rewrite edge_add_edges, (depends_pairs _ _ _ Hes). pose proof (edge_empty ids x y). tauto. }
  destruct (cycle_search_exact set_order g ids set_order_elements) as (b & Hb & Hcyc).
  - intros x y Hxy. apply He in Hxy. apply (depends_pairs _ _ _ Hes) in Hxy.
    apply list_elem_of_lookup in Hxy as [i Hi].
    destruct (Forall2_lookup_r _ _ _ _ _ Hes Hi) as (d & _ & (? & _ & _ & H1) & (? & _ & _ & H2) & _). done.
  - exists b. split; [done|]. setoid_rewrite <-(tc_iff _ _ _ _ He). destruct b.
    + split; [done|]. intros H. destruct (proj1 Hcyc eq_refl) as [x Hx]. by destruct (H x).
    + split; [|done]. intros _ x Hx. assert (false = true) by (apply Hcyc; by exists x). done.
Qed.

(** The dependencies are checked to the end, and fine exactly when they should be. *)
Lemma dependencies_total deps ids errors r :
  _validate_dependencies set_order deps ids errors = Ok r → r = Some [] → errors = [].
Proof.
  unfold _validate_dependencies. destruct (collect_edges _ _ _ _) as [[g errors']|] eqn:Hc; cbn; [|done].
  destruct (_dependencies_have_cycle set_order g ids) as [b|]; [|by intros [= <-]]. intros [= <-] [= H].
  apply add_error_nil in H as [_ ->]. by apply collect_edges_inv in Hc as [? _].
Qed.

Lemma dependencies_nil deps ids errors :
  _validate_dependencies set_order deps ids errors = Ok (Some []) ↔
  errors = [] ∧ (∀ d, d ∈ deps → ∃ b a, names_task "before" ids d b ∧ names_task "after" ids d a ∧ b ≠ a) ∧
  ∀ x, ¬ tc (depends deps) x x.
Proof.
  assert ((∀ d, d ∈ deps → ∃ b a, names_task "before" ids d b ∧ names_task "after" ids d a ∧ b ≠ a) ↔
          ∃ es, Forall2 (dependency_ok ids) deps es) as ->.
  { split.
    - induction deps as [|d deps IH]; intros H; [by exists []|]. destruct (H d) as (b & a & Hd); [by left|].
      destruct IH as [es Hes]; [intros d' Hd'; apply H; by right|]. exists ((b, a) :: es). by constructor.
    - intros [es Hes] d Hd. apply list_elem_of_lookup in Hd as [i Hi].
      destruct (Forall2_lookup_l _ _ _ _ _ Hes Hi) as ([b a] & _ & Hd). by exists b, a. }
  unfold _validate_dependencies. split.
  - destruct (collect_edges _ _ _ _) as [[g errors']|] eqn:Hc; cbn; [|done].
    destruct (_dependencies_have_cycle set_order g ids) as [b|] eqn:Hb; [|done]. intros [= H].
    apply add_error_nil in H as [-> ->]. apply collect_edges_inv in Hc as (-> & es & Hes & ->).
    destruct (acyclic_edges deps ids es Hes) as (b & Hb' & Hiff). rewrite Hb in Hb'. injection Hb' as <-.
    split_and!; [done|by exists es|by apply Hiff].
  - intros (-> & [es Hes] & Hac). rewrite (collect_edges_ok _ _ _ _ _ Hes). cbn.
    destruct (acyclic_edges deps ids es Hes) as (b & -> & Hiff). by rewrite (proj2 Hiff Hac).
Qed.

(** The validator always answers or raises: the search never runs out of fuel. *)
Lemma dependencies_answer deps ids errors : _validate_dependencies set_order deps ids errors ≠ Ok None.
Proof.
  unfold _validate_dependencies. destruct (collect_edges _ _ _ _) as [[g errors']|] eqn:Hc; cbn; [|done].
  destruct (cycle_search_exact set_order g ids set_order_elements) as (b & -> & _); [|done].
  intros x y Hxy.
  assert (∀ deps g0 e, (∀ x y, edge g0 x y → x ∈ ids ∧ y ∈ ids) → collect_edges deps ids g0 e = Ok (g, errors') →
          ∀ x y, edge g x y → x ∈ ids ∧ y ∈ ids) as Hall.
  { clear. induction deps as [|d deps IH]; intros g0 e Hg; cbn; [by intros [= <- _]|].
    destruct d as [| | | | | |row]; try by apply IH.
    destruct (in_known (get "before" row) ids) as [[b|]|] eqn:Hb; cbn; [|by apply IH|done].
    destruct (in_known (get "after" row) ids) as [[a|]|] eqn:Ha; cbn; [|by apply IH|done].
    case_bool_decide; [by apply IH|]. apply IH. intros x y.
    change (add_edge b a g0) with (add_edges [(b, a)] g0). rewrite edge_add_edges, list_elem_of_singleton.
    intros [Hxy|[= -> ->]]; [by apply Hg|]. apply in_known_some in Ha, Hb. tauto. }
  eapply Hall; [|exact Hc|exact Hxy]. intros x' y' H'. by apply edge_empty in H'.
Qed.

Lemma collections_error value errors : _plan_collections value = inr errors → errors ≠ [].
Proof. unfold _plan_collections. repeat case_match; intros; by simplify_eq. Qed.


End validator.


(** ** Write scopes *)

Lemma starts_with_prefix p t : starts_with p t = true ↔ p `prefix_of` t.
Proof.
  revert t; induction p as [|c p IH]; intros [|d t]; cbn.
  - split; [by exists []|done].
  - split; [by exists (d :: t)|done].
  - split; [done|]. by intros [? [=]].
  - rewrite andb_true_iff, bool_decide_eq_true, IH. split.
    + intros [-> Hp]. by apply prefix_cons.
    + intros Hp. split; [by eapply prefix_cons_inv_1|by eapply prefix_cons_inv_2].
Qed.

Lemma collapse_total fuel t : (length t <= fuel)%nat →
  ∃ t', collapse_slashes fuel t = Some t' ∧ has_double_slash t' = false.
Proof.
  assert (∀ n t, (length t <= n)%nat → (length (replace_slashes t) <= length t)%nat ∧
    (has_double_slash t = true → length (replace_slashes t) < length t)%nat) as Hless.
  { induction n as [|n IH]; intros [|c [|d t1]] Hl; cbn in Hl; try lia; cbn; try (split; [lia|done]).
    destruct ((code c =? 47) && (code d =? 47)); cbn.
    - destruct (IH t1 ltac:(lia)) as [H1 _]. split; lia.
    - destruct (IH (d :: t1) ltac:(cbn; lia)) as [H1 H2]. cbn in H1, H2. split; [lia|]. intros H. specialize (H2 H). lia. }
  revert t; induction fuel as [|fuel IH]; intros t Hl; cbn.
  - destruct t; [|cbn in Hl; lia]. by exists [].
  - destruct (has_double_slash t) eqn:Hd; cbn; [|by exists t]. apply IH.
    destruct (Hless _ t (le_n _)) as [_ H]. specialize (H Hd). lia.
Qed.

Lemma split_slash_nonempty t : split_slash t ≠ [].
Proof. destruct t as [|c t]; cbn; [done|]. destruct (code c =? 47); [done|]. by destruct (split_slash t). Qed.

Lemma ch_code c : ch (code c) = c.
Proof. unfold ch, code. rewrite N2Z.id. apply ascii_N_embedding. Qed.

(** The text of a list of components. *)
Fixpoint join_slash (ws : list text) : text :=
  match ws with [] => [] | [w] => w | w :: ws => w ++ ch 47 :: join_slash ws end.

Lemma join_split_members t : join_slash (split_slash t) = t.
Proof.
  induction t as [|c t IH]; [done|]. cbn. destruct (Z.eqb_spec (code c) 47) as [Hc|Hc].
  - pose proof (split_slash_nonempty t). destruct (split_slash t) as [|w ws] eqn:Hs; [done|]. cbn [join_slash].
    rewrite <-IH. replace c with (ch 47) by (rewrite <-Hc; apply ch_code). reflexivity.
  - pose proof (split_slash_nonempty t). destruct (split_slash t) as [|w [|w' ws]]; [done|by rewrite <-IH|]. 
    rewrite <-IH. done.
Qed.

Lemma split_app_slash t u : split_slash (t ++ ch 47 :: u) = split_slash t ++ split_slash u.
Proof.
  induction t as [|c t IH]; [done|]. cbn [app split_slash]. rewrite IH. destruct (code c =? 47); [done|].
  pose proof (split_slash_nonempty t). by destruct (split_slash t).
Qed.

(** Two scopes overlap when the components of one begin with those of the other. *)
Lemma scopes_overlap_components s t :
  _scopes_overlap s t = true ↔
  split_slash (_normalized_scope s) `prefix_of` split_slash (_normalized_scope t) ∨
  split_slash (_normalized_scope t) `prefix_of` split_slash (_normalized_scope s).
Proof.
  unfold _scopes_overlap. rewrite !orb_true_iff, bool_decide_eq_true, !starts_with_prefix.
  generalize (_normalized_scope s) as a, (_normalized_scope t) as b. intros a b.
  assert (∀ a b, (a ++ [ch 47]) `prefix_of` b → split_slash a `prefix_of` split_slash b) as H1.
  { intros x y [u ->]. rewrite <-app_assoc. cbn [app]. rewrite split_app_slash. by eexists. }
  assert (∀ a b, split_slash a `prefix_of` split_slash b → a = b ∨ (a ++ [ch 47]) `prefix_of` b) as H2.
  { intros x y [ws Hws]. rewrite <-(join_split_members x), <-(join_split_members y), Hws. destruct ws as [|w ws]; [left; by rewrite app_nil_r|right].
    exists (join_slash (w :: ws)). pose proof (split_slash_nonempty x) as Hx. clear Hws.
    induction (split_slash x) as [|v [|v' vs] IH]; [done|by cbn; rewrite <-app_assoc|].
    specialize (IH ltac:(done)). change (join_slash ((v :: v' :: vs) ++ w :: ws)) with (v ++ ch 47 :: join_slash ((v' :: vs) ++ w :: ws)).
    rewrite IH. cbn [join_slash]. rewrite <-!app_assoc. cbn. rewrite <-?app_assoc. reflexivity. }
  split.
  - intros [[->|H]|H]; [by left|right; by apply H1|left; by apply H1].
  - intros [[->|H]%H2|[->|H]%H2]; tauto.
Qed.

(** The scope of the whole tree is not seen to overlap a directory in it. *)
Lemma root_scope_overlaps_nothing : _scopes_overlap (chars ".") (chars "src") = false.
Proof. vm_compute. reflexivity. Qed.

(** A list as a task name makes the validator raise. *)
Lemma unhashable_task_raises :
  validate_coordination_plan elements (JObj [("tasks", JList []); ("dependencies", JList []);
    ("ownership", JList [JObj [("taskId", JList [])]]); ("verification", JList []); ("route", JStr "direct")]%string)
  = Err TypeError.
Proof. vm_compute. reflexivity. Qed.

(** ** Requests *)

Lemma lstrip_length t : (length (lstrip t) <= length t)%nat.
Proof. induction t as [|c t IH]; cbn; [done|]. destruct (is_space_char c); cbn; lia. Qed.

Lemma strip_length t : (length (strip t) <= length t)%nat.
Proof.
  unfold strip. rewrite length_rev. pose proof (lstrip_length (rev (lstrip t))). rewrite length_rev in H.
  pose proof (lstrip_length t). lia.
Qed.

Lemma leading_token_length t w r : leading_token t = (w, r) → (length w + length r <= length t)%nat.
Proof.
  revert w; induction t as [|c t IH]; intros w; cbn [leading_token]; [by intros [= <- <-]|].
  destruct (is_space_char c) eqn:Hc.
  - intros [= <- <-]. pose proof (lstrip_length (c :: t)). cbn in *. lia.
  - destruct (leading_token t) as [w' r'] eqn:Ht. intros [= <- <-]. specialize (IH w' eq_refl). cbn. lia.
Qed.

Lemma parse_flags_total fuel t mode : (length t <= fuel)%nat → is_Some (parse_flags fuel t mode).
Proof.
  revert t mode; induction fuel as [|fuel IH]; intros t mode Hl.
  { destruct t; [done|]. cbn in Hl. lia. }
  cbn [parse_flags]. destruct (negb (starts_with dashes t)) eqn:Hd; [done|].
  destruct (leading_token t) as [token rest] eqn:Ht. pose proof (leading_token_length _ _ _ Ht) as Hlen.
  case_bool_decide; [done|].
  case_bool_decide as H1; [apply IH; rewrite H1 in Hlen; cbn in Hlen; lia|].
  case_bool_decide as H2; [apply IH; rewrite H2 in Hlen; cbn in Hlen; lia|]. done.
Qed.

Lemma parse_arguments_total arguments : is_Some (parse_coordination_arguments arguments).
Proof.
  unfold parse_coordination_arguments. destruct (parse_flags_total (length arguments) (strip arguments) mode_auto) as [r ->].
  { apply strip_length. }
  destruct r as [[mode rest]|e]; [|done]. by case_bool_decide.
Qed.

Definition newline : ascii := ch 10.

(** A text in which the last character of [p] does not occur late enough. *)
Lemma after_last_none p t :
  (∀ i, t !! i = Some newline → (S i < length p)%nat) → last p = Some newline → after_last p t = None.
Proof.
  intros Hi Hp. induction t as [|c t IH]; cbn [after_last].
  - rewrite bool_decide_eq_false_2; [done|]. by intros ->.
  - rewrite IH by (intros i H; specialize (Hi (S i) H); lia).
    destruct (starts_with p (c :: t)) eqn:Hs; [|done]. apply starts_with_prefix in Hs as [r Hr]. exfalso.
    rewrite last_lookup in Hp. assert (length p ≠ 0)%nat as Hne by (by destruct p).
    assert ((c :: t) !! pred (length p) = Some newline) as H.
    { rewrite Hr, lookup_app_l; [done|lia]. }
    apply Hi in H. lia.
Qed.

Lemma after_last_prefix p t :
  last p = Some newline → (∀ i, p !! i = Some newline → S i = length p) → newline ∉ t →
  after_last p (p ++ t) = Some t.
Proof.
  intros Hp Honly Ht. destruct p as [|c p]; [done|]. cbn [app after_last].
  rewrite after_last_none; [|intros i Hi|done].
  - rewrite (proj2 (starts_with_prefix (c :: p) (c :: p ++ t))) by (by exists t). cbn [length drop].
    by rewrite drop_app_length.
  - apply lookup_app_Some in Hi as [Hi|[_ Hi]].
    + specialize (Honly (S i) Hi). lia.
    + exfalso. apply Ht. by eapply list_elem_of_lookup_2.
Qed.

Lemma until_break_all t : forallb (λ c, negb (is_line_break c)) t = true → until_break t = t.
Proof.
  induction t as [|c t IH]; cbn; [done|]. intros [Hc Ht]%andb_true_iff. apply negb_true_iff in Hc. by rewrite Hc, IH.
Qed.

Lemma raw_char_line c : code c ≠ 133 → forallb (λ c, negb (is_line_break c)) (raw_char c) = true.
Proof.
  assert (∀ c, (code c =? 133) || forallb (λ c, negb (is_line_break c)) (raw_char c) = true) as H.
  { apply all_chars. vm_compute. reflexivity. }
  intros Hc. specialize (H c). apply orb_true_iff in H as [H|H]; [lia|done].
Qed.

Lemma raw_string_line t : Forall (λ c, code c ≠ 133) t → forallb (λ c, negb (is_line_break c)) (raw_string t) = true.
Proof.
  intros Ht. unfold raw_string. cbn [forallb]. rewrite forallb_app. cbn.
  rewrite andb_true_r. induction Ht as [|c t Hc _ IH]; [done|]. cbn [flat_map]. rewrite forallb_app, raw_char_line by done. done.
Qed.

Lemma parse_raw_char c rest : parse_string (raw_char c ++ rest) = '(t, r) ← parse_string rest; Some (c :: t, r).
Proof.
  unfold raw_char. destruct ((code c <? 32) || (code c =? 34) || (code c =? 92)) eqn:Hc; [apply parse_print_char|].
  apply orb_false_iff in Hc as [[H1 H2]%orb_false_iff H3]. by apply parse_plain.
Qed.

Lemma parse_raw_string t rest : parse_string (flat_map raw_char t ++ ch 34 :: rest) = Some (t, rest).
Proof.
  induction t as [|c t IH]; [done|]. cbn [flat_map]. rewrite <-app_assoc, parse_raw_char, IH. done.
Qed.

Definition request_payload (mode goal : text) : text :=
  [ch 123] ++ raw_string (chars "mode") ++ [ch 58] ++ raw_string mode ++
  [ch 44] ++ raw_string (chars "goal") ++ [ch 58] ++ raw_string goal ++ [ch 125].

(** One member of an object, its value a string. *)
Lemma parse_string_member n d k v rest :
  parse_members (S (S n)) d (ch 34 :: flat_map raw_char k ++ ch 34 :: ch 58 :: ch 34 :: flat_map raw_char v ++ ch 34 :: rest) =
  let d := dict_set (String.string_of_list_ascii k) (JStr (String.string_of_list_ascii v)) d in
  let r := skip_ws rest in
  if starts 125 r then Some (JObj d, tail r)
  else if starts 44 r then parse_members (S n) d (skip_ws (tail r)) else None.
Proof.
  assert (∀ n d q, parse_members (S n) d (ch 34 :: q) =
    ('(k, r) ← parse_string q;
     let r := skip_ws r in
     if starts 58 r then
       '(j, r) ← parse_value n (skip_ws (tail r));
       let d := dict_set (String.string_of_list_ascii k) j d in
       let r := skip_ws r in
       if starts 125 r then Some (JObj d, tail r)
       else if starts 44 r then parse_members n d (skip_ws (tail r)) else None
     else None)) as Hm by reflexivity.
  assert (∀ n q, parse_value (S n) (ch 34 :: q) =
    ('(t, r) ← parse_string q; Some (JStr (String.string_of_list_ascii t), r))) as Hv by reflexivity.
  rewrite Hm, parse_raw_string. cbn [mbind option_bind].
  change (skip_ws (ch 58 :: ?x)) with (ch 58 :: x). cbn [tail]. change (starts 58 (ch 58 :: ?x)) with true. cbn match.
  change (skip_ws (ch 34 :: ?x)) with (ch 34 :: x). rewrite Hv, parse_raw_string. reflexivity.
Qed.

Lemma payload_shape mode goal :
  request_payload mode goal =
  ch 123 :: ch 34 :: flat_map raw_char (chars "mode") ++ ch 34 :: ch 58 :: ch 34 :: flat_map raw_char mode ++ ch 34 ::
  ch 44 :: ch 34 :: flat_map raw_char (chars "goal") ++ ch 34 :: ch 58 :: ch 34 :: flat_map raw_char goal ++ ch 34 :: [ch 125].
Proof. unfold request_payload, raw_string. cbn [app]. rewrite <-!app_assoc. reflexivity. Qed.

Lemma payload_loads mode goal :
  json_loads (request_payload mode goal) =
  Some (JObj [("mode", JStr (String.string_of_list_ascii mode)); ("goal", JStr (String.string_of_list_ascii goal))]%string).
Proof.
  assert (∃ n, length (request_payload mode goal) = S (S (S (S n)))) as [n Hn].
  { rewrite payload_shape. cbn. by eexists. }
  unfold json_loads. rewrite Hn, payload_shape. change (skip_ws (ch 123 :: ?x)) with (ch 123 :: x).
  assert (∀ n q, parse_value (S n) (ch 123 :: ch 34 :: q) = parse_members n [] (ch 34 :: q)) as Hobj by reflexivity.
  rewrite Hobj, parse_string_member. cbn zeta. change (skip_ws (ch 44 :: ?x)) with (ch 44 :: x).
  change (starts 125 (ch 44 :: ?x)) with false. change (starts 44 (ch 44 :: ?x)) with true. cbn match. cbn [tail].
  change (skip_ws (ch 34 :: ?x)) with (ch 34 :: x). rewrite parse_string_member. reflexivity.
Qed.

Definition no_next_line (t : text) : Prop := Forall (λ c, code c ≠ 133) t.

(** A coordination goal survives its trip through the prompt: whatever mode flags and goal the user
    typed, if the goal does not contain the character NEL, then the prompt that is made from them is
    recognised as a coordination request, and the goal read back from it - by cutting the prompt at the
    marker, taking the first line and parsing it as JSON - is the goal that was typed. *)
Theorem coordination_goal_roundtrip arguments invocation :
  parse_coordination_arguments arguments = Some (Ok invocation) → no_next_line (ci_goal invocation) →
  ∃ prompt, format_coordination_request arguments = Some (Ok prompt) ∧
    _coordination_goal prompt = Ok (Some (ci_goal invocation)) ∧ is_coordination_request prompt = Ok true.
Proof.
  intros Hp Hnel. unfold format_coordination_request. rewrite Hp. eexists. split; [reflexivity|].
  set (mode := chars (mode_value (ci_mode invocation))). fold (request_payload mode (ci_goal invocation)).
  assert (_coordination_goal (RUNTIME_REQUEST_PREFIX ++ request_payload mode (ci_goal invocation)) =
          Ok (Some (ci_goal invocation))) as Hg.
  { assert (forallb (λ c, negb (is_line_break c)) (request_payload mode (ci_goal invocation)) = true) as Hline.
    { unfold request_payload. rewrite !forallb_app, !raw_string_line; [done|done|..].
      - by repeat constructor; vm_compute.
      - unfold mode. destruct (ci_mode invocation); by repeat constructor; vm_compute.
      - by repeat constructor; vm_compute. }
    unfold _coordination_goal. rewrite after_last_prefix.
    - rewrite payload_shape at 1. cbn [first_line]. rewrite <-payload_shape, until_break_all by done.
      cbn [mbind result_bind]. rewrite payload_loads.
      assert (∀ a b, dict_get "goal" [("mode"%string, a); ("goal"%string, b)] = Some b) as -> by reflexivity.
      by rewrite chars_string_of.
    - vm_compute. reflexivity.
    - intros i Hi. assert (forallb (λ i, negb (bool_decide (RUNTIME_REQUEST_PREFIX !! i = Some newline)) ||
        (S i =? length RUNTIME_REQUEST_PREFIX)%nat) (seq 0 (length RUNTIME_REQUEST_PREFIX)) = true) as Hall
        by (vm_compute; reflexivity).
      rewrite forallb_forall in Hall. specialize (Hall i). rewrite in_seq in Hall.
      pose proof (lookup_lt_Some _ _ _ Hi) as Hlt. specialize (Hall ltac:(lia)).
      rewrite bool_decide_eq_true_2 in Hall by done. cbn [negb orb] in Hall. by apply Nat.eqb_eq in Hall.
    - intros Hin. rewrite forallb_forall in Hline. specialize (Hline newline).
      rewrite <-list_elem_of_In in Hline. specialize (Hline Hin). vm_compute in Hline. done. }
  split; [exact Hg|]. unfold is_coordination_request. rewrite Hg. reflexivity.
Qed.

Lemma coordination_goal_roundtrip_witness :
  ∃ prompt, format_coordination_request (chars "--deep  Fix the parser") = Some (Ok prompt) ∧
    _coordination_goal prompt = Ok (Some (chars "Fix the parser")) ∧ is_coordination_request prompt = Ok true.
Proof.
  apply (coordination_goal_roundtrip _ {| ci_mode := mode_deep; ci_goal := chars "Fix the parser" |}).
  - vm_compute. reflexivity.
  - by repeat constructor; vm_compute.
Defined.

(** With a NEL in the goal the request is not recognised. *)
Lemma next_line_goal_lost :
  let arguments := chars "fix " ++ [ch 133] ++ chars " it" in
  ∃ prompt, format_coordination_request arguments = Some (Ok prompt) ∧ is_coordination_request prompt = Ok false.
Proof. eexists. split; [vm_compute; reflexivity|]. vm_compute. reflexivity. Qed.
