(* ===== verification/EditDiff.v ===== *)
(** The edit tool: [tools/edit_diff.py] and [tools/edit.py].

    Texts are lists of code points.  NFKC normalisation is the function [nfkc].
    An edit is a pair of old and new text.  The file is one cell of bytes; it is
    read in text mode, so its line ends are translated before the code sees
    them. *)

From S2P Require Import Prelude Utf8 PyText Truncate.
Open Scope Z_scope.

(** ** Texts *)

(** [t.count(sub)] of a non-empty [sub]: after an occurrence the search goes on
    behind it, [skip] counts the characters to pass. *)
Fixpoint count_from (skip : nat) (sub t : text) : Z :=
  match t with
  | [] => 0
  | _ :: t' =>
      match skip with
      | S skip => count_from skip sub t'
      | O => if is_prefix sub t then 1 + count_from (length sub - 1) sub t' else count_from 0 sub t'
      end
  end.

Definition count (sub t : text) : Z := count_from 0 sub t.

Definition cr : Z := 13.

(** [t.replace("\r\n", "\n")] *)
Fixpoint replace_crlf (t : text) : text :=
  match t with
  | c :: ((d :: t') as rest) => if (c =? cr) && (d =? newline) then newline :: replace_crlf t' else c :: replace_crlf rest
  | _ => t
  end.

(** [src: travis/coding_agent/tools/edit_diff.py:22-27 detect_line_ending]: whether the
    text has CRLF line ends. *)
Definition detect_line_ending (content : text) : bool :=
  match find [cr; newline] content, find [newline] content with
  | Some crlf_idx, Some lf_idx => (crlf_idx <? lf_idx)%nat
  | _, _ => false
  end.

(** [src: travis/coding_agent/tools/edit_diff.py:30-31 normalize_to_lf] *)
Definition normalize_to_lf (t : text) : text :=
  map (λ c, if c =? cr then newline else c) (replace_crlf t).

(** [src: travis/coding_agent/tools/edit_diff.py:34-35 restore_line_endings] *)
Definition restore_line_endings (t : text) (crlf : bool) : text :=
  if crlf then flat_map (λ c, if c =? newline then [cr; newline] else [c]) t else t.

(** [src: travis/coding_agent/tools/edit_diff.py:38-39 strip_bom] *)
Definition strip_bom (content : text) : text * text :=
  match content with c :: t => if c =? 65279 then ([65279], t) else ([], content) | [] => ([], []) end.

(** ** Applying edits *)

(** The [ValueError]s, by the edit they name. *)
Inductive edit_error : Type :=
  | EmptyOldText (index : nat)
  | NotFound (index : nat)
  | Duplicate (index : nat) (occurrences : Z)
  | Overlap (previous current : nat)
  | NoChanges
  | FileNotFound
  | Aborted
  | DecodeError
  | EncodeError.
#[export] Instance edit_error_eq_dec : EqDecision edit_error.
Proof. solve_decision. Defined.

(** [src: travis/coding_agent/tools/edit_diff.py:10-13 AppliedEditsResult] *)
Record AppliedEditsResult : Type := { ae_base_content : text; ae_new_content : text }.

(** An edit and where it matched. *)
Record match_entry : Type := {
  me_edit_index : nat;
  me_match_index : nat;
  me_match_length : nat;
  me_new_text : text
}.

Section edits.
Variable nfkc : text → text.

(** [src: travis/coding_agent/tools/edit_diff.py:42-44 normalize_for_fuzzy_match] *)
Definition normalize_for_fuzzy_match (t : text) : text := join_nl (map rstrip (split_nl (nfkc t))).

(** [src: travis/coding_agent/tools/edit_diff.py:47-52 _count_occurrences] *)
Definition _count_occurrences (content old_text : text) : Z :=
  let fuzzy_content := normalize_for_fuzzy_match content in
  let fuzzy_old_text := normalize_for_fuzzy_match old_text in
  if bool_decide (fuzzy_old_text = []) then 0 else count fuzzy_old_text fuzzy_content.

(** The index, the length and whether the match is fuzzy; [None] when nothing is found.

    [src: travis/coding_agent/tools/edit_diff.py:55-64 _find_text] *)
Definition _find_text (content old_text : text) : option (nat * nat * bool) :=
  match find old_text content with
  | Some exact_index => Some (exact_index, length old_text, false)
  | None =>
      let fuzzy_content := normalize_for_fuzzy_match content in
      let fuzzy_old_text := normalize_for_fuzzy_match old_text in
      match find fuzzy_old_text fuzzy_content with
      | Some fuzzy_index => Some (fuzzy_index, length fuzzy_old_text, true)
      | None => None
      end
  end.

(** The loop that locates the edits in the base content.

    [src: travis/coding_agent/tools/edit_diff.py:107-121 apply_edits_to_normalized_content] *)
Fixpoint match_edits (index : nat) (base : text) (edits : list (text * text)) : result edit_error (list match_entry) :=
  match edits with
  | [] => Ok []
  | (old_text, new_text) :: edits =>
      match _find_text base old_text with
      | None => Err (NotFound index)
      | Some (match_index, match_length, _) =>
          let occurrences := _count_occurrences base old_text in
          if 1 <? occurrences then Err (Duplicate index occurrences)
          else
            rest ← match_edits (S index) base edits;
            Ok ({| me_edit_index := index; me_match_index := match_index; me_match_length := match_length;
                   me_new_text := new_text |} :: rest)
      end
  end.

Definition match_leb (m n : match_entry) : bool := (me_match_index m <=? me_match_index n)%nat.

(** [src: travis/coding_agent/tools/edit_diff.py:124-131 apply_edits_to_normalized_content] *)
Fixpoint check_overlaps (matched : list match_entry) : result edit_error unit :=
  match matched with
  | previous :: ((current :: _) as rest) =>
      if (me_match_index current <? me_match_index previous + me_match_length previous)%nat
      then Err (Overlap (me_edit_index previous) (me_edit_index current))
      else check_overlaps rest
  | _ => Ok tt
  end.

Definition replace_match (content : text) (m : match_entry) : text :=
  take (me_match_index m) content ++ me_new_text m ++ drop (me_match_index m + me_match_length m) content.

Fixpoint first_empty (index : nat) (edits : list (text * text)) : option nat :=
  match edits with
  | [] => None
  | (old_text, _) :: edits => if bool_decide (old_text = []) then Some index else first_empty (S index) edits
  end.

(** [src: travis/coding_agent/tools/edit_diff.py:93-145 apply_edits_to_normalized_content] *)
Definition apply_edits_to_normalized_content (normalized_content : text) (edits : list (text * text))
    : result edit_error AppliedEditsResult :=
  let normalized_edits := map (λ e, (normalize_to_lf e.1, normalize_to_lf e.2)) edits in
  match first_empty 0 normalized_edits with
  | Some index => Err (EmptyOldText index)
  | None =>
      let initial_matches := map (λ e, _find_text normalized_content e.1) normalized_edits in
      let base_content :=
        if existsb (λ m, match m with Some (_, _, fuzzy) => fuzzy | None => false end) initial_matches
        then normalize_for_fuzzy_match normalized_content else normalized_content in
      matched ← match_edits 0 base_content normalized_edits;
      let matched := py_sorted match_leb matched in
      _ ← check_overlaps matched;
      let new_content := fold_left replace_match (rev matched) base_content in
      if bool_decide (base_content = new_content) then Err NoChanges
      else Ok {| ae_base_content := base_content; ae_new_content := new_content |}
  end.

(** ** The tool *)

(** [open(path, "r", encoding="utf-8").read()]: decoding, and the translation of
    every line end to a newline. *)
Definition read_text (file : bytes) : result edit_error text :=
  match decode_strict file with Ok t => Ok (normalize_to_lf t) | Err _ => Err DecodeError end.

(** [atomic_replace_text]: the file is replaced whole, the text written as it is. *)
Definition write_text (content : text) : st (option bytes) edit_error unit :=
  if forallb scalar content then st_put (Some (Utf8.encode content)) else mthrow EncodeError.

(** What the details of the result say about the file. *)
Record edit_details : Type := {
  ed_total_bytes : Z;
  ed_applied : AppliedEditsResult
}.

(** The call of [mutate], which holds the file's queue.  [aborted n] is the
    signal at the [n]-th time it is read; the diff and the patch are
    renderings of [ed_applied].

    [src: travis/coding_agent/tools/edit.py:119-148 _execute_edit] *)
Definition execute_edit (aborted : nat → bool) (edits : list (text * text)) : st (option bytes) edit_error edit_details :=
  _ ← st_require (negb (aborted 0%nat)) Aborted;
  file ← st_get;
  match file with
  | None => mthrow FileNotFound
  | Some file =>
      raw_content ← st_lift (read_text file);
      _ ← st_require (negb (aborted 1%nat)) Aborted;
      let (bom, content) := strip_bom raw_content in
      let original_ending := detect_line_ending content in
      let normalized_content := normalize_to_lf content in
      applied ← st_lift (apply_edits_to_normalized_content normalized_content edits);
      let final_content := bom ++ restore_line_endings (ae_new_content applied) original_ending in
      _ ← write_text final_content;
      _ ← st_require (negb (aborted 2%nat)) Aborted;
      mret {| ed_total_bytes := byte_len final_content; ed_applied := applied |}
  end.

End edits.
