(* ===== verification/EditDiffSpec.v ===== *)
(** The edit tool, correct: an accepted set of edits replaces disjoint pieces of
    the base content, all at once; line ends of one kind survive; a failed call
    leaves the file as it was. *)

From S2P Require Import Prelude Utf8 PyText Truncate TruncateSpec EditDiff.
Open Scope Z_scope.

(** ** Searching *)

(** [find] gives the first place where the text occurs. *)
Lemma find_some sub t i :
  find sub t = Some i → drop i t = sub ++ drop (i + length sub) t ∧ (i + length sub <= length t)%nat.
Proof.
  revert i; induction t as [|c t IH]; intros i; cbn [find].
  - destruct (is_prefix sub []) eqn:Hp; [|done]. intros [= <-]. apply is_prefix_iff in Hp as [r Hr].
    symmetry in Hr. apply app_eq_nil in Hr as [-> ->]. done.
  - destruct (is_prefix sub (c :: t)) eqn:Hp.
    + intros [= <-]. apply is_prefix_iff in Hp as [r Hr]. rewrite Hr. rewrite Nat.add_0_l, drop_app_length.
      split; [done|]. rewrite length_app. lia.
    + destruct (find sub t) as [j|] eqn:Hf; [|done]. intros [= <-]. destruct (IH j eq_refl) as [H1 H2].
      split; [exact H1|cbn; lia].
Qed.

Lemma find_none sub t : find sub t = None → ∀ a b, t ≠ a ++ sub ++ b.
Proof.
  induction t as [|c t IH]; cbn [find]; destruct (is_prefix sub _) eqn:Hp; try done; intros Hf a b Heq.
  - assert (is_prefix sub [] = true); [|congruence]. apply is_prefix_iff. symmetry in Heq.
    apply app_eq_nil in Heq as [_ [-> _]%app_eq_nil]. by exists [].
  - destruct (find sub t) eqn:Hft; [done|]. destruct a as [|x a].
    + assert (is_prefix sub (c :: t) = true); [|congruence]. apply is_prefix_iff. by exists b.
    + injection Heq as _ Heq. by apply (IH eq_refl a b).
Qed.

(** ** Fuzzy normalisation *)
Section fuzzy.
Variable nfkc : text → text.

Lemma drop_spaces_idem t : drop_spaces (drop_spaces t) = drop_spaces t.
Proof. induction t as [|c t IH]; cbn; [done|]. destruct (is_space c) eqn:Hc; [done|]. cbn. by rewrite Hc. Qed.

Lemma rstrip_idem t : rstrip (rstrip t) = rstrip t.
Proof. unfold rstrip. by rewrite rev_involutive, drop_spaces_idem. Qed.

Lemma drop_spaces_in c t : c ∈ drop_spaces t → c ∈ t.
Proof. induction t as [|d t IH]; cbn; [done|]. destruct (is_space d); [intros H; right; by apply IH|done]. Qed.

Lemma rstrip_in c t : c ∈ rstrip t → c ∈ t.
Proof.
  unfold rstrip. intros H. apply list_elem_of_In, in_rev, list_elem_of_In, drop_spaces_in, list_elem_of_In in H.
  by apply list_elem_of_In, in_rev.
Qed.

Definition line_free (l : text) : Prop := newline ∉ l.

Lemma split_line_free l : line_free l → split_nl l = [l].
Proof.
  induction l as [|c l IH]; cbn; [done|]. unfold line_free. rewrite not_elem_of_cons. intros [Hc Hl].
  rewrite (proj2 (Z.eqb_neq c newline)) by congruence. by rewrite IH.
Qed.

Lemma split_app_line l t : line_free l → split_nl (l ++ newline :: t) = l :: split_nl t.
Proof.
  induction l as [|c l IH]; [done|]. unfold line_free. rewrite not_elem_of_cons. intros [Hc Hl].
  cbn [app split_nl]. rewrite (proj2 (Z.eqb_neq c newline)) by congruence. by rewrite IH.
Qed.

Lemma split_join ls : ls ≠ [] → Forall line_free ls → split_nl (join_nl ls) = ls.
Proof.
  intros Hne. induction 1 as [|l ls Hl Hls IH]; [done|]. destruct ls as [|l' ls]; [by apply split_line_free|].
  rewrite join_cons, split_app_line by done. f_equal. by apply IH.
Qed.

Lemma split_lines_free t : Forall line_free (split_nl t).
Proof.
  induction t as [|c t IH]; cbn; [repeat constructor; apply not_elem_of_nil|].
  destruct (Z.eqb_spec c newline) as [|Hc]; [constructor; [apply not_elem_of_nil|done]|].
  pose proof (split_nl_nonempty t). destruct (split_nl t) as [|l ls]; [done|].
  apply Forall_cons in IH as [Hl Hls]. constructor; [|done]. unfold line_free. rewrite not_elem_of_cons. by split.
Qed.

(** NFKC leaves text alone that is already normalised, line by line. *)
Hypothesis nfkc_stable : ∀ t, nfkc (normalize_for_fuzzy_match nfkc t) = normalize_for_fuzzy_match nfkc t.

Lemma fuzzy_idem t :
  normalize_for_fuzzy_match nfkc (normalize_for_fuzzy_match nfkc t) = normalize_for_fuzzy_match nfkc t.
Proof.
  unfold normalize_for_fuzzy_match at 1. rewrite nfkc_stable. unfold normalize_for_fuzzy_match.
  rewrite split_join.
  - rewrite map_map. f_equal. apply map_ext. apply rstrip_idem.
  - destruct (split_nl (nfkc t)) eqn:Hs; [by apply split_nl_nonempty in Hs|done].
  - apply Forall_map. eapply Forall_impl; [apply split_lines_free|]. intros l Hl Hin. by apply Hl, rstrip_in.
Qed.

(** ** The text an edit matches *)

Definition matched_text (base old_text : text) : text :=
  match find old_text base with Some _ => old_text | None => normalize_for_fuzzy_match nfkc old_text end.

Lemma find_text_piece base old_text i n fuzzy :
  normalize_for_fuzzy_match nfkc base = base ∨ fuzzy = false →
  _find_text nfkc base old_text = Some (i, n, fuzzy) →
  n = length (matched_text base old_text) ∧
  drop i base = matched_text base old_text ++ drop (i + n) base ∧ (i + n <= length base)%nat.
Proof.
  intros Hb. unfold _find_text, matched_text. destruct (find old_text base) as [j|] eqn:Hf.
  - intros [= <- <- _]. split; [done|]. by apply find_some.
  - destruct (find (normalize_for_fuzzy_match nfkc old_text) (normalize_for_fuzzy_match nfkc base)) as [j|] eqn:Hg; [|done].
    intros [= <- <- <-]. destruct Hb as [Hb|]; [|done]. rewrite Hb in Hg. split; [done|]. by apply find_some.
Qed.

(** ** Disjoint pieces *)

(** The gaps and what stands between them. *)
Fixpoint weave (gaps pieces : list text) : text :=
  match gaps, pieces with
  | [], _ => []
  | gap :: _, [] => gap
  | gap :: gaps, piece :: pieces => gap ++ piece ++ weave gaps pieces
  end.

Fixpoint gaps_from (p : nat) (base : text) (ms : list match_entry) : list text :=
  match ms with
  | [] => [drop p base]
  | m :: ms => take (me_match_index m - p) (drop p base) :: gaps_from (me_match_index m + me_match_length m) base ms
  end.

Definition slice (base : text) (m : match_entry) : text := take (me_match_length m) (drop (me_match_index m) base).

(** From [p] on: matches in range, one after the other. *)
Fixpoint in_order (p : nat) (base : text) (ms : list match_entry) : Prop :=
  match ms with
  | [] => (p <= length base)%nat
  | m :: ms => (p <= me_match_index m)%nat ∧ (me_match_index m + me_match_length m <= length base)%nat ∧
               in_order (me_match_index m + me_match_length m) base ms
  end.

Lemma take_more p i (l : text) : (p <= i)%nat → take i l = take p l ++ take (i - p) (drop p l).
Proof. intros H. replace i with (p + (i - p))%nat at 1 by lia. by rewrite take_take_drop. Qed.

Lemma splice_new ms : ∀ p base, in_order p base ms →
  fold_left replace_match (rev ms) base = take p base ++ weave (gaps_from p base ms) (map me_new_text ms).
Proof.
  induction ms as [|m ms IH]; intros p base; cbn [in_order rev].
  - intros _. cbn. by rewrite take_drop.
  - intros (Hp & Hr & Hin). rewrite fold_left_app. cbn [fold_left]. rewrite (IH _ _ Hin).
    set (q := (me_match_index m + me_match_length m)%nat) in *. set (w := weave _ _).
    unfold replace_match. fold q.
    rewrite take_app_le by (rewrite length_take; lia). rewrite take_take, Nat.min_l by lia.
    rewrite drop_app_length' by (rewrite length_take; lia).
    rewrite (take_more p (me_match_index m)) by done. cbn [map gaps_from weave]. fold q w. by rewrite <-!app_assoc.
Qed.

Lemma splice_old ms : ∀ p base, in_order p base ms →
  base = take p base ++ weave (gaps_from p base ms) (map (slice base) ms).
Proof.
  induction ms as [|m ms IH]; intros p base; cbn [in_order].
  - intros _. cbn. by rewrite take_drop.
  - intros (Hp & Hr & Hin). cbn [map gaps_from weave]. set (q := (me_match_index m + me_match_length m)%nat) in *.
    assert (take q base = take p base ++ take (me_match_index m - p) (drop p base) ++ slice base m) as Hq.
    { rewrite app_assoc, <-take_more by done. unfold slice, q. by rewrite take_take_drop. }
    rewrite (IH _ _ Hin) at 1. rewrite Hq, <-!app_assoc. done.
Qed.

Lemma gaps_from_length p base ms : length (gaps_from p base ms) = S (length ms).
Proof. revert p. induction ms as [|m ms IH]; intros p; cbn; [done|]. by rewrite IH. Qed.

Lemma overlaps_in_order base ms :
  check_overlaps ms = Ok tt → Forall (λ m, me_match_index m + me_match_length m <= length base)%nat ms → in_order 0 base ms.
Proof.
  intros Hc Hr.
  assert (∀ p, match ms with m :: _ => (p <= me_match_index m)%nat | [] => (p <= length base)%nat end → in_order p base ms) as H.
  { induction Hr as [|m ms Hm Hms IH]; intros p Hp; cbn; [done|]. split; [done|]. split; [done|].
    destruct ms as [|m' ms]; [done|]. cbn [check_overlaps] in Hc.
    destruct (Nat.ltb_spec (me_match_index m') (me_match_index m + me_match_length m)); [done|]. by apply IH. }
  apply H. destruct ms; lia.
Qed.

(** What the matching loop finds for an edit. *)
Definition matches (base : text) (m : match_entry) (e : text * text) : Prop :=
  slice base m = matched_text base e.1 ∧ me_new_text m = e.2 ∧
  (me_match_index m + me_match_length m <= length base)%nat ∧ _count_occurrences nfkc base e.1 <= 1.

Lemma match_edits_ok base edits index ms :
  (∀ e, e ∈ edits → normalize_for_fuzzy_match nfkc base = base ∨
                    match _find_text nfkc base e.1 with Some (_, _, fuzzy) => fuzzy = false | None => True end) →
  match_edits nfkc index base edits = Ok ms → Forall2 (matches base) ms edits.
Proof.
  revert index ms. induction edits as [|[old_text new_text] edits IH]; intros index ms Hb; cbn; [by intros [= <-]|].
  pose proof (Hb (old_text, new_text) ltac:(by left)) as Hb0. cbn in Hb0.
  destruct (_find_text nfkc base old_text) as [[[i n] fuzzy]|] eqn:Hf; [|done].
  destruct (1 <? _count_occurrences nfkc base old_text) eqn:Hc; [done|]. apply Z.ltb_ge in Hc.
  destruct (match_edits nfkc (S index) base edits) as [rest|] eqn:Hm; cbn; [|done]. intros [= <-].
  constructor; [|eapply IH; [intros e He; apply Hb; by right|done]].
  destruct (find_text_piece base old_text i n fuzzy Hb0 Hf) as (-> & Hbase & Hle).
  split_and!; cbn; [|done|done|done]. unfold slice. cbn. rewrite Hbase. by rewrite take_app_length.
Qed.

(** ** Accepted edits *)

Definition lf_edits (edits : list (text * text)) : list (text * text) :=
  map (λ e, (normalize_to_lf e.1, normalize_to_lf e.2)) edits.

(** The base content: the content itself when every edit that is found is found
    exactly, else its fuzzy form. *)
Definition some_fuzzy (content : text) (edits : list (text * text)) : bool :=
  existsb (λ m, match m with Some (_, _, fuzzy) => fuzzy | None => false end)
    (map (λ e, _find_text nfkc content e.1) (lf_edits edits)).

Definition base_of (content : text) (edits : list (text * text)) : text :=
  if some_fuzzy content edits then normalize_for_fuzzy_match nfkc content else content.

Lemma base_exact content edits e :
  e ∈ lf_edits edits →
  normalize_for_fuzzy_match nfkc (base_of content edits) = base_of content edits ∨
  match _find_text nfkc (base_of content edits) e.1 with Some (_, _, fuzzy) => fuzzy = false | None => True end.
Proof.
  intros He. unfold base_of. destruct (some_fuzzy content edits) eqn:Hs; [left; apply fuzzy_idem|right].
  destruct (_find_text nfkc content e.1) as [[[i n] fuzzy]|] eqn:Hf; [|done].
  destruct fuzzy; [|done]. exfalso. unfold some_fuzzy in Hs. apply not_true_iff_false in Hs. apply Hs.
  apply existsb_exists. exists (_find_text nfkc content e.1). rewrite Hf. split; [|done]. rewrite <-Hf.
  apply in_map_iff. exists e. split; [done|]. by apply list_elem_of_In.
Qed.

Lemma permutation_forall2 {A B} (R : A → B → Prop) l l' k :
  l' ≡ₚ l → Forall2 R l k → ∃ k', k' ≡ₚ k ∧ Forall2 R l' k'.
Proof.
  intros Hp. revert k. induction Hp as [|x l1 l2 Hp IH|x y l1|l1 l2 l3 _ IH1 _ IH2]; intros k Hk.
  - inversion Hk; subst. by exists [].
  - apply Forall2_cons_inv_l in Hk as (z & k1 & Hz & Hk & ->). destruct (IH _ Hk) as (k' & Hp' & Hk').
    exists (z :: k'). split; [by rewrite Hp'|by constructor].
  - apply Forall2_cons_inv_l in Hk as (z & k1 & Hz & Hk & ->). apply Forall2_cons_inv_l in Hk as (z' & k2 & Hz' & Hk & ->).
    exists (z' :: z :: k2). split; [apply perm_swap|by repeat constructor].
  - destruct (IH2 _ Hk) as (k2 & Hp2 & Hk2). destruct (IH1 _ Hk2) as (k1 & Hp1 & Hk1). exists k1. split; [by etrans|done].
Qed.

Lemma apply_edits_ok content edits r :
  apply_edits_to_normalized_content nfkc content edits = Ok r →
  ae_base_content r = base_of content edits ∧ ae_new_content r ≠ ae_base_content r ∧
  Forall (λ e, normalize_to_lf e.1 ≠ [] ∧ _count_occurrences nfkc (base_of content edits) (normalize_to_lf e.1) <= 1) edits ∧
  ∃ gaps pieces,
    length gaps = S (length pieces) ∧
    pieces ≡ₚ map (λ e, (matched_text (base_of content edits) (normalize_to_lf e.1), normalize_to_lf e.2)) edits ∧
    ae_base_content r = weave gaps pieces.*1 ∧ ae_new_content r = weave gaps pieces.*2.
Proof.
  unfold apply_edits_to_normalized_content. fold (lf_edits edits).
  fold (some_fuzzy content edits). fold (base_of content edits). set (base := base_of content edits).
  destruct (first_empty 0 (lf_edits edits)) eqn:He; [done|].
  destruct (match_edits nfkc 0 base (lf_edits edits)) as [ms|] eqn:Hm; cbn; [|done].
  destruct (check_overlaps (py_sorted match_leb ms)) as [[]|] eqn:Ho; cbn; [|done].
  case_bool_decide as Hne; [done|]. intros [= <-]. cbn [ae_base_content ae_new_content].
  apply match_edits_ok in Hm; [|intros e; apply base_exact].
  destruct (permutation_forall2 _ _ (py_sorted match_leb ms) _ (py_sorted_perm match_leb ms) Hm) as (es & Hes & Hms).
  assert (in_order 0 base (py_sorted match_leb ms)) as Hin.
  { apply overlaps_in_order; [done|]. eapply Forall2_Forall_l; [exact Hms|]. apply Forall_forall. intros e _ m (_ & _ & H & _). exact H. }
  split; [done|]. split; [done|]. split.
  - apply Forall_forall. intros e Hin'. split.
    + intros Heq. clear - He Hin' Heq. revert He. generalize 0%nat.
      induction edits as [|e' edits IH]; intros n; [set_solver|]. cbn. case_bool_decide; [done|].
      apply elem_of_cons in Hin' as [->|Hin']; [done|by apply IH].
    + assert (∃ m, matches base m (normalize_to_lf e.1, normalize_to_lf e.2)) as (m & _ & _ & _ & H); [|exact H].
      assert ((normalize_to_lf e.1, normalize_to_lf e.2) ∈ lf_edits edits) as Hl by by apply (list_elem_of_fmap_2 (λ e, (normalize_to_lf e.1, normalize_to_lf e.2))).
      apply list_elem_of_lookup in Hl as [i Hi]. destruct (Forall2_lookup_r _ _ _ _ _ Hm Hi) as (m & _ & H). by exists m.
  - exists (gaps_from 0 base (py_sorted match_leb ms)), (map (λ e, (matched_text base e.1, e.2)) es).
    assert (map (slice base) (py_sorted match_leb ms) = map (λ e, matched_text base e.1) es ∧
            map me_new_text (py_sorted match_leb ms) = map snd es) as [Hold Hnew].
    { clear - Hms. induction Hms as [|m e l k (H1 & H2 & _) _ [IH1 IH2]]; [done|]. cbn. by rewrite H1, H2, IH1, IH2. }
    split_and!.
    + rewrite gaps_from_length, length_map. by rewrite (Forall2_length _ _ _ Hms).
    + rewrite Hes. unfold lf_edits. rewrite map_map. done.
    + rewrite (splice_old _ _ _ Hin) at 1. rewrite Hold. cbn [take app]. f_equal.
      change (fst <$> ?l) with (map fst l). by rewrite map_map.
    + rewrite (splice_new _ _ _ Hin). rewrite Hnew. cbn [take app]. f_equal.
      change (snd <$> ?l) with (map snd l). by rewrite map_map.
Qed.

End fuzzy.



(** ** Line ends *)

Definition crlf_text (t : text) : text := restore_line_endings t true.

Lemma replace_crlf_other c t : c ≠ cr → replace_crlf (c :: t) = c :: replace_crlf t.
Proof.
  intros Hc. destruct t as [|d t]; [done|].
  change (replace_crlf (c :: d :: t)) with
    (if (c =? cr) && (d =? newline) then newline :: replace_crlf t else c :: replace_crlf (d :: t)).
  by rewrite (proj2 (Z.eqb_neq c cr)).
Qed.

Lemma replace_crlf_expand t : cr ∉ t → replace_crlf (crlf_text t) = t.
Proof.
  unfold crlf_text, restore_line_endings. induction t as [|c t IH]; [done|]. rewrite not_elem_of_cons. intros [Hc Ht].
  cbn [flat_map]. destruct (Z.eqb_spec c newline) as [->|Hn].
  - cbn [app replace_crlf]. rewrite IH by done. reflexivity.
  - cbn [app]. by rewrite replace_crlf_other, IH by (done || congruence).
Qed.

Lemma replace_crlf_none t : cr ∉ t → replace_crlf t = t.
Proof.
  induction t as [|c t IH]; [done|]. rewrite not_elem_of_cons. intros [Hc Ht].
  by rewrite replace_crlf_other, IH by (done || congruence).
Qed.

Lemma map_cr_none t : cr ∉ t → map (λ c, if c =? cr then newline else c) t = t.
Proof.
  induction t as [|c t IH]; cbn; [done|]. rewrite not_elem_of_cons. intros [Hc Ht].
  rewrite (proj2 (Z.eqb_neq c cr)) by congruence. by rewrite IH.
Qed.

Lemma find_newline_none t : newline ∉ t → find [newline] t = None.
Proof.
  induction t as [|c t IH]; [done|]. rewrite not_elem_of_cons. intros [Hc Ht]. cbn [find is_prefix].
  rewrite (proj2 (Z.eqb_neq newline c)) by done. cbn [andb]. by rewrite IH.
Qed.

Lemma find_crlf_none t : cr ∉ t → find [cr; newline] t = None.
Proof.
  induction t as [|c t IH]; [done|]. rewrite not_elem_of_cons. intros [Hc Ht]. cbn [find is_prefix].
  rewrite (proj2 (Z.eqb_neq cr c)) by done. cbn [andb]. by rewrite IH.
Qed.

(** The first line end of a text with CRLF line ends. *)
Lemma detect_crlf t : cr ∉ t → newline ∈ t → detect_line_ending (crlf_text t) = true.
Proof.
  intros Hcr Hn. assert (∃ i, find [cr; newline] (crlf_text t) = Some i ∧ find [newline] (crlf_text t) = Some (S i)) as (i & H1 & H2).
  2: { unfold detect_line_ending. rewrite H1, H2. apply Nat.ltb_lt. lia. }
  unfold crlf_text, restore_line_endings. induction t as [|c t IH]; [by apply not_elem_of_nil in Hn|].
  apply not_elem_of_cons in Hcr as [Hc Ht]. cbn [flat_map]. destruct (Z.eqb_spec c newline) as [->|Hne].
  - exists 0%nat. done.
  - apply elem_of_cons in Hn as [Hn|Hn]; [congruence|]. destruct (IH Ht Hn) as (i & H1 & H2).
    exists (S i). cbn [app find is_prefix]. rewrite (proj2 (Z.eqb_neq cr c)), (proj2 (Z.eqb_neq newline c)) by congruence.
    cbn [andb]. by rewrite H1, H2.
Qed.

Lemma crlf_text_no_newline t : newline ∉ t → crlf_text t = t.
Proof.
  unfold crlf_text, restore_line_endings. induction t as [|c t IH]; cbn; [done|]. rewrite not_elem_of_cons. intros [Hc Ht].
  rewrite (proj2 (Z.eqb_neq c newline)) by congruence. cbn. by rewrite IH.
Qed.

Lemma normalize_none t : cr ∉ t → normalize_to_lf t = t.
Proof. intros H. unfold normalize_to_lf. by rewrite replace_crlf_none, map_cr_none. Qed.

Lemma normalize_crlf t : cr ∉ t → normalize_to_lf (crlf_text t) = t.
Proof. intros H. unfold normalize_to_lf. by rewrite replace_crlf_expand, map_cr_none. Qed.

(** All line ends of one kind. *)
Definition uniform (t : text) : Prop := cr ∉ t ∨ ∃ u, cr ∉ u ∧ t = crlf_text u.

(** Line ends of one kind survive normalisation: for a text whose line ends are all LF or all CRLF, the
    helpers of the edit tool find the kind, turn the text into one with LF only, and get the text back. *)
Theorem line_endings_roundtrip t :
  uniform t →
  cr ∉ normalize_to_lf t ∧ restore_line_endings (normalize_to_lf t) (detect_line_ending t) = t.
Proof.
  intros [Hcr|(u & Hcr & ->)].
  - rewrite normalize_none by done. split; [done|]. unfold detect_line_ending. by rewrite find_crlf_none.
  - rewrite normalize_crlf by done. split; [done|]. destruct (decide (newline ∈ u)) as [Hn|Hn].
    + by rewrite detect_crlf.
    + rewrite !(crlf_text_no_newline u) by done. unfold detect_line_ending. by rewrite find_crlf_none.
Qed.

Lemma line_endings_roundtrip_witness :
  uniform [97; 13; 10; 98] ∧ cr ∉ normalize_to_lf [97; 13; 10; 98] ∧
  restore_line_endings (normalize_to_lf [97; 13; 10; 98]) (detect_line_ending [97; 13; 10; 98]) = [97; 13; 10; 98].
Proof.
  assert (uniform [97; 13; 10; 98]) as H.
  { right. exists [97; 10; 98]. split; [|reflexivity]. refine (bool_decide_eq_true_1 _ _). reflexivity. }
  split; [exact H|]. apply (line_endings_roundtrip _ H).
Defined.

(** ** The tool *)

(** The edit tool fails without a trace and succeeds as announced: when the call raises, the file is as it
    was, unless the abort came after the replacement; when it returns, the file holds the encoding of the
    byte-order mark and the edited content, and the reported size is the size of the file. *)
Theorem edit_tool_outcome nfkc aborted edits file r file' :
  execute_edit nfkc aborted edits file = (r, file') →
  match r with
  | Err e => file' = file ∨ e = Aborted ∧ aborted 2%nat = true
  | Ok d =>
      ∃ raw, file = Some raw ∧ ∃ t, decode_strict raw = Ok t ∧
        let content := (strip_bom (normalize_to_lf t)).2 in
        apply_edits_to_normalized_content nfkc (normalize_to_lf content) edits = Ok (ed_applied d) ∧
        ∃ final, final = (strip_bom (normalize_to_lf t)).1 ++
                         restore_line_endings (ae_new_content (ed_applied d)) (detect_line_ending content) ∧
          file' = Some (Utf8.encode final) ∧ is_text final ∧ ed_total_bytes d = Z.of_nat (length (Utf8.encode final))
  end.
Proof.
  unfold execute_edit. st_eval. destruct (aborted 0%nat); cbn [negb require]; [intros [= <- <-]; by left|].
  destruct file as [raw|]; [|intros [= <- <-]; by left]. unfold read_text.
  destruct (decode_strict raw) as [t|] eqn:Ht; [|intros [= <- <-]; by left].
  destruct (aborted 1%nat); cbn [negb require]; [intros [= <- <-]; by left|].
  destruct (strip_bom (normalize_to_lf t)) as [bom content] eqn:Hb. cbn [fst snd].
  destruct (apply_edits_to_normalized_content nfkc (normalize_to_lf content) edits) as [applied|] eqn:Ha; [|intros [= <- <-]; by left].
  unfold write_text. set (final := bom ++ _). destruct (forallb scalar final) eqn:Hs; [|intros [= <- <-]; by left].
  st_eval. destruct (aborted 2%nat); cbn [negb require]; intros [= <- <-]; [by right|].
  exists raw. split; [done|]. exists t. split; [done|]. rewrite Hb. split; [done|]. exists final. split_and!; try done.
  rewrite forallb_forall in Hs. apply Forall_forall. intros c Hc. by apply Hs, list_elem_of_In.
Qed.

Lemma edit_tool_outcome_witness :
  ∃ raw, Some [97; 10] = Some raw ∧ ∃ t, decode_strict raw = Ok t ∧
    let content := (strip_bom (normalize_to_lf t)).2 in
    apply_edits_to_normalized_content id (normalize_to_lf content) [([97], [98])] =
      Ok {| ae_base_content := [97; 10]; ae_new_content := [98; 10] |} ∧
    ∃ final, final = (strip_bom (normalize_to_lf t)).1 ++ restore_line_endings [98; 10] (detect_line_ending content) ∧
      Some [98; 10] = Some (Utf8.encode final) ∧ is_text final ∧ 2 = Z.of_nat (length (Utf8.encode final)).
Proof.
  refine (edit_tool_outcome id (λ _, false) [([97], [98])] (Some [97; 10])
    (Ok {| ed_total_bytes := 2; ed_applied := {| ae_base_content := [97; 10]; ae_new_content := [98; 10] |} |}) (Some [98; 10]) _).
  vm_compute. reflexivity.
Defined.

(** *** What the tool does not do *)

(** The file is read in text mode, so its CRLF line ends are gone before they
    are looked for: an edit of one line changes the end of every line. *)
Lemma edit_turns_crlf_into_lf :
  snd (execute_edit id (λ _, false) [([97], [98])] (Some [97; 13; 10; 99; 13; 10])) = Some [98; 10; 99; 10].
Proof. vm_compute. reflexivity. Qed.

(** White space that does not occur in the file "matches" at its start. *)
Lemma blank_old_text_inserts :
  apply_edits_to_normalized_content id [120] [([9], [121])] = Ok {| ae_base_content := [120]; ae_new_content := [121; 120] |}.
Proof. vm_compute. reflexivity. Qed.

(** White space that occurs twice is replaced once, without complaint. *)
Lemma blank_old_text_not_unique :
  apply_edits_to_normalized_content id [97; 32; 98; 32; 99] [([32], [45])] =
    Ok {| ae_base_content := [97; 32; 98; 32; 99]; ae_new_content := [97; 45; 98; 32; 99] |}.
Proof. vm_compute. reflexivity. Qed.
