(* ===== verification/FileQueue.v ===== *)
(** The per-file mutation queue: [tools/file_mutation_queue.py].

    Calls run concurrently: a step of a call is one critical section of
    [_registry_lock], one lock acquired or released, or the end of its [fn].  A
    lock is a number; [owner] says which call holds it.  The calls of a history
    are distinct threads or follow one another in a thread: a call from inside
    another call's [fn] (which the reentrant locks allow) is not modelled. *)

From S2P Require Import Prelude.
From stdpp Require Import gmap.
Open Scope Z_scope.

(** Where a call is: before it registers its keys; acquiring, with the first
    [n] locks acquired; in [fn]; releasing, with [n] locks still held; or done. *)
Inductive call_state : Type :=
  | Idle (keys : list string)
  | Acquiring (registered : list (string * nat)) (n : nat)
  | Running (registered : list (string * nat))
  | Releasing (registered : list (string * nat)) (n : nat)
  | Finished.

(** [src: travis/coding_agent/tools/file_mutation_queue.py:11-12 _file_locks] *)
Record queues : Type := {
  fq_file_locks : gmap string (nat * Z);
  fq_next_lock : nat;
  fq_owner : gmap nat nat;
  fq_calls : list call_state
}.

Section keys.
(** [os.path.realpath(os.path.abspath(path))]

    [src: travis/coding_agent/tools/file_mutation_queue.py:15-16 _queue_key] *)
Variable _queue_key : string → string.

(** The keys of a call: the single key of [with_file_mutation_queue], or the
    sorted set of [with_file_mutation_queues].

    [src: travis/coding_agent/tools/file_mutation_queue.py:43-43 with_file_mutation_queues] *)
Definition call_keys (file_paths : list string) : list string :=
  py_sorted String.leb (remove_dups (map _queue_key file_paths)).

End keys.

(** [src: travis/coding_agent/tools/file_mutation_queue.py:21-23 with_file_mutation_queue] *)
Definition register_key (key : string) (locks : gmap string (nat * Z)) (next : nat)
    : nat * gmap string (nat * Z) * nat :=
  match locks !! key with
  | Some (lock, count) => (lock, <[key := (lock, count + 1)]> locks, next)
  | None => (next, <[key := (next, 0 + 1)]> locks, S next)
  end.

(** [src: travis/coding_agent/tools/file_mutation_queue.py:44-49 with_file_mutation_queues] *)
Fixpoint register_keys (keys : list string) (locks : gmap string (nat * Z)) (next : nat)
    : list (string * nat) * gmap string (nat * Z) * nat :=
  match keys with
  | [] => ([], locks, next)
  | key :: keys =>
      let '(lock, locks, next) := register_key key locks next in
      let '(registered, locks, next) := register_keys keys locks next in
      ((key, lock) :: registered, locks, next)
  end.

(** [src: travis/coding_agent/tools/file_mutation_queue.py:31-39 with_file_mutation_queue] *)
Definition unregister_key (r : string * nat) (locks : gmap string (nat * Z)) : gmap string (nat * Z) :=
  match locks !! r.1 with
  | None => locks
  | Some (current_lock, count) =>
      if (current_lock =? r.2)%nat then
        if count <=? 1 then delete r.1 locks else <[r.1 := (current_lock, count - 1)]> locks
      else locks
  end.

(** [src: travis/coding_agent/tools/file_mutation_queue.py:60-69 with_file_mutation_queues] *)
Definition unregister_keys (registered : list (string * nat)) (locks : gmap string (nat * Z)) : gmap string (nat * Z) :=
  fold_left (λ locks r, unregister_key r locks) registered locks.

Definition set_call (t : nat) (c : call_state) (q : queues) : queues :=
  {| fq_file_locks := fq_file_locks q; fq_next_lock := fq_next_lock q; fq_owner := fq_owner q;
     fq_calls := <[t := c]> (fq_calls q) |}.

Definition set_owner (o : gmap nat nat) (q : queues) : queues :=
  {| fq_file_locks := fq_file_locks q; fq_next_lock := fq_next_lock q; fq_owner := o; fq_calls := fq_calls q |}.

Definition set_locks (locks : gmap string (nat * Z)) (next : nat) (q : queues) : queues :=
  {| fq_file_locks := locks; fq_next_lock := next; fq_owner := fq_owner q; fq_calls := fq_calls q |}.

(** One step of call [t]; [None] when it cannot go on: a lock it waits for is
    held, or it is done.

    [src: travis/coding_agent/tools/file_mutation_queue.py:42-69 with_file_mutation_queues] *)
Definition step (t : nat) (q : queues) : option queues :=
  match fq_calls q !! t with
  | Some (Idle keys) =>
      let '(registered, locks, next) := register_keys keys (fq_file_locks q) (fq_next_lock q) in
      Some (set_call t (Acquiring registered 0) (set_locks locks next q))
  | Some (Acquiring registered n) =>
      match registered !! n with
      | Some (_, lock) =>
          match fq_owner q !! lock with
          | Some _ => None
          | None => Some (set_call t (Acquiring registered (S n)) (set_owner (<[lock := t]> (fq_owner q)) q))
          end
      | None => Some (set_call t (Running registered) q)
      end
  | Some (Running registered) => Some (set_call t (Releasing registered (length registered)) q)
  | Some (Releasing registered (S n)) =>
      match registered !! n with
      | Some (_, lock) => Some (set_call t (Releasing registered n) (set_owner (delete lock (fq_owner q)) q))
      | None => Some (set_call t (Releasing registered n) q)
      end
  | Some (Releasing registered O) =>
      Some (set_call t Finished (set_locks (unregister_keys registered (fq_file_locks q)) (fq_next_lock q) q))
  | Some Finished | None => None
  end.

(** The calls that will be made, each with its paths. *)
Definition initial (queue_key : string → string) (calls : list (list string)) : queues :=
  {| fq_file_locks := ∅; fq_next_lock := 0; fq_owner := ∅;
     fq_calls := map (λ paths, Idle (call_keys queue_key paths)) calls |}.
