(* ===== verification/FileQueueSpec.v ===== *)
(** The file mutation queue keeps its promises: calls that touch the same file
    never run their [fn] at the same time, the calls never deadlock, and the
    registry is empty again when they are done. *)

From S2P Require Import Prelude FileQueue.
From stdpp Require Import gmap.
Open Scope Z_scope.

(** * What a call has registered, and the locks it holds *)

Definition registered_of (c : call_state) : list (string * nat) :=
  match c with
  | Acquiring r _ | Running r | Releasing r _ => r
  | Idle _ | Finished => []
  end.

Definition held_of (c : call_state) : list nat :=
  match c with
  | Acquiring r n | Releasing r n => take n r.*2
  | Running r => r.*2
  | Idle _ | Finished => []
  end.

Definition keys_of (c : call_state) : list string :=
  match c with Idle keys => keys | _ => (registered_of c).*1 end.

Definition position_ok (c : call_state) : Prop :=
  match c with
  | Acquiring r n | Releasing r n => (n ≤ length r)%nat
  | _ => True
  end.

(** Keys in strictly increasing order. *)
Definition key_lt (a b : string) : Prop := String.leb a b = true ∧ a ≠ b.

Definition call_ok (c : call_state) : Prop := StronglySorted key_lt (keys_of c) ∧ position_ok c.

(** The number of calls that have registered [key]. *)
Definition users (key : string) (calls : list call_state) : nat :=
  length (filter (λ c, key ∈ (registered_of c).*1) calls).

(** The count of a key in the registry, 0 when it is absent. *)
Definition key_count (key : string) (locks : gmap string (nat * Z)) : Z :=
  match locks !! key with Some (_, n) => n | None => 0 end.

(** The lock of a key. *)
Definition lock_at (locks : gmap string (nat * Z)) (key : string) (l : nat) : Prop :=
  ∃ n, locks !! key = Some (l, n).

Record registry_ok (locks : gmap string (nat * Z)) (next : nat) : Prop := {
  ro_positive : ∀ k l n, locks !! k = Some (l, n) → 0 < n;
  ro_below : ∀ k l, lock_at locks k l → (l < next)%nat;
  ro_distinct : ∀ k1 k2 l, lock_at locks k1 l → lock_at locks k2 l → k1 = k2
}.

Record queues_ok (q : queues) : Prop := {
  qo_registry : registry_ok (fq_file_locks q) (fq_next_lock q);
  qo_calls : Forall call_ok (fq_calls q);
  qo_shared : ∀ t c k l, fq_calls q !! t = Some c → (k, l) ∈ registered_of c → lock_at (fq_file_locks q) k l;
  qo_count : ∀ k, key_count k (fq_file_locks q) = Z.of_nat (users k (fq_calls q));
  qo_owner : ∀ l t, fq_owner q !! l = Some t ↔ ∃ c, fq_calls q !! t = Some c ∧ l ∈ held_of c
}.

(** * Sorted keys *)

Lemma key_lt_irrefl a : ¬ key_lt a a.
Proof. by intros [_ ?]. Qed.

Lemma key_lt_sorted_nodup ks : StronglySorted key_lt ks → NoDup ks.
Proof.
  induction 1 as [|k ks _ IH Hk]; constructor; [|done].
  intros Hin. rewrite Forall_forall in Hk. by apply (key_lt_irrefl k), Hk.
Qed.

Lemma key_lt_sorted_lookup ks i j a b :
  StronglySorted key_lt ks → ks !! i = Some a → ks !! j = Some b → (i < j)%nat → key_lt a b.
Proof.
  intros Hs. revert i j. induction Hs as [|k ks _ IH Hk]; intros i j Hi Hj Hij; [done|].
  destruct j as [|j]; [lia|]. destruct i as [|i]; cbn in Hi, Hj.
  - simplify_eq. rewrite Forall_forall in Hk. apply Hk. by eapply list_elem_of_lookup_2.
  - apply (IH i j); auto with lia.
Qed.

Lemma call_keys_sorted qk paths : StronglySorted key_lt (call_keys qk paths).
Proof.
  unfold call_keys. set (l := remove_dups _).
  pose proof (py_sorted_sorted String.leb str_leb_total str_leb_trans l) as Hs.
  assert (NoDup (py_sorted String.leb l)) as Hnd by (rewrite py_sorted_perm; apply NoDup_remove_dups).
  induction Hs as [|k ks _ IH Hk]; constructor; inversion_clear Hnd as [|?? Hnin Hnd']; [by apply IH|].
  rewrite Forall_forall in Hk |- *. intros x Hx. split; [by apply Hk|]. by intros ->.
Qed.

(** A greatest element of a list of keys. *)
Lemma greatest_key (ks : list string) :
  ks ≠ [] → ∃ m, m ∈ ks ∧ ∀ k, k ∈ ks → String.leb k m = true.
Proof.
  induction ks as [|k ks IH]; [done|]. intros _. destruct (decide (ks = [])) as [->|Hne].
  - exists k. split; [set_solver|]. intros x ->%list_elem_of_singleton. apply str_leb_refl.
  - destruct (IH Hne) as (m & Hm & Hmax). destruct (str_leb_total k m) as [Hkm|Hmk].
    + exists m. split; [set_solver|]. intros x [->|Hx]%elem_of_cons; auto.
    + exists k. split; [set_solver|]. intros x [->|Hx]%elem_of_cons; [apply str_leb_refl|].
      by eapply str_leb_trans; [apply Hmax|].
Qed.

(** * The registry *)

Lemma lock_at_fun locks k l1 l2 : lock_at locks k l1 → lock_at locks k l2 → l1 = l2.
Proof. intros [? H1] [? H2]. congruence. Qed.

Lemma lock_at_insert locks k l n k' l' :
  lock_at (<[k := (l, n)]> locks) k' l' ↔ (k' = k ∧ l' = l) ∨ (k' ≠ k ∧ lock_at locks k' l').
Proof.
  unfold lock_at. destruct (decide (k' = k)) as [->|Hne].
  - setoid_rewrite lookup_insert_eq. naive_solver.
  - setoid_rewrite lookup_insert_ne; [|done]. naive_solver.
Qed.

Lemma register_key_spec key locks next l locks' next' :
  registry_ok locks next → register_key key locks next = (l, locks', next') →
  registry_ok locks' next' ∧ lock_at locks' key l ∧ (∀ k l', lock_at locks k l' → lock_at locks' k l')
  ∧ ∀ k, key_count k locks' = key_count k locks + (if decide (k = key) then 1 else 0).
Proof.
  intros [Hpos Hbelow Hdist]. unfold register_key. destruct (locks !! key) as [[lock count]|] eqn:Hk; intros [= <- <- <-].
  - assert (lock_at locks key lock) as Hl by by exists count.
    split_and!; [split| |..].
    + intros k l n. destruct (decide (k = key)) as [->|Hne].
      * rewrite lookup_insert_eq. intros [= <- <-]. specialize (Hpos _ _ _ Hk). lia.
      * rewrite lookup_insert_ne by done. apply Hpos.
    + intros k l. rewrite lock_at_insert. intros [[-> ->]|[_ ?]]; eauto.
    + intros k1 k2 l. rewrite !lock_at_insert. intros [[-> ->]|[_ ?]] [[-> ?]|[_ ?]]; subst; eauto.
    + apply lock_at_insert. by left.
    + intros k l' Hl'. apply lock_at_insert. destruct (decide (k = key)) as [->|]; [left|by right].
      split; [done|]. by eapply lock_at_fun.
    + intros k. unfold key_count. case_decide as Hd.
      * subst. rewrite lookup_insert_eq, Hk. done.
      * rewrite lookup_insert_ne by done. destruct (locks !! k) as [[]|]; lia.
  - split_and!; [split| |..].
    + intros k l n. destruct (decide (k = key)) as [->|Hne].
      * rewrite lookup_insert_eq. intros [= <- <-]. lia.
      * rewrite lookup_insert_ne by done. apply Hpos.
    + intros k l. rewrite lock_at_insert. intros [[-> ->]|[_ H]]; [lia|]. apply Hbelow in H. lia.
    + intros k1 k2 l. rewrite !lock_at_insert.
      intros [[-> ->]|[_ H1]] [[-> ?]|[_ H2]]; subst; eauto.
      * apply Hbelow in H2. lia.
      * apply Hbelow in H1. lia.
    + apply lock_at_insert. by left.
    + intros k l' [n Hl']. apply lock_at_insert. right. split; [congruence|by exists n].
    + intros k. unfold key_count. case_decide as Hd.
      * subst. by rewrite lookup_insert_eq, Hk.
      * rewrite lookup_insert_ne by done. destruct (locks !! k) as [[]|]; lia.
Qed.

Lemma register_keys_spec keys locks next r locks' next' :
  NoDup keys → registry_ok locks next → register_keys keys locks next = (r, locks', next') →
  registry_ok locks' next' ∧ r.*1 = keys
  ∧ (∀ k l, (k, l) ∈ r → lock_at locks' k l) ∧ (∀ k l', lock_at locks k l' → lock_at locks' k l')
  ∧ ∀ k, key_count k locks' = key_count k locks + (if decide (k ∈ keys) then 1 else 0).
Proof.
  intros Hnd. revert locks next r. induction Hnd as [|key keys Hnin _ IH]; cbn [register_keys];
    intros locks next r Hok.
  - intros [= <- <- <-]. split_and!; try done.
    + intros k l []%not_elem_of_nil.
    + intros k. rewrite decide_False by apply not_elem_of_nil. lia.
  - destruct (register_key key locks next) as [[l locks1] next1] eqn:H1.
    destruct (register_keys keys locks1 next1) as [[r1 locks2] next2] eqn:H2. intros [= <- <- <-].
    destruct (register_key_spec _ _ _ _ _ _ Hok H1) as (Hok1 & Hl1 & Hkeep1 & Hc1).
    destruct (IH _ _ _ Hok1 H2) as (Hok2 & Hr2 & Hl2 & Hkeep2 & Hc2).
    split_and!; [done|by rewrite fmap_cons, Hr2|..].
    + intros k l' [[= -> ->]|Hin]%elem_of_cons; eauto.
    + eauto.
    + intros k. rewrite Hc2, Hc1. destruct (decide (k = key)) as [->|Hne].
      * rewrite (decide_False _ _ Hnin), decide_True by set_solver. lia.
      * rewrite (decide_ext (k ∈ key :: keys) (k ∈ keys)) by set_solver. lia.
Qed.

Lemma unregister_key_spec key l locks next :
  registry_ok locks next → lock_at locks key l →
  registry_ok (unregister_key (key, l) locks) next
  ∧ (∀ k l', k ≠ key → lock_at locks k l' → lock_at (unregister_key (key, l) locks) k l')
  ∧ (∀ k l', lock_at (unregister_key (key, l) locks) k l' → lock_at locks k l')
  ∧ ∀ k, key_count k (unregister_key (key, l) locks) = key_count k locks - (if decide (k = key) then 1 else 0).
Proof.
  intros [Hpos Hbelow Hdist] [n Hk]. unfold unregister_key. cbn [fst snd]. rewrite Hk, Nat.eqb_refl.
  pose proof (Hpos _ _ _ Hk) as Hn. assert (lock_at locks key l) as Hl by by exists n.
  destruct (Z.leb_spec n 1).
  - assert (∀ k l', lock_at (delete key locks) k l' ↔ k ≠ key ∧ lock_at locks k l') as Hd.
    { intros k l'. unfold lock_at. setoid_rewrite lookup_delete_Some. naive_solver. }
    split_and!; [split| |..].
    + intros k l' m [_ ?]%lookup_delete_Some. eauto.
    + intros k l' [_ ?]%Hd. eauto.
    + intros k1 k2 l' [_ ?]%Hd [_ ?]%Hd. eauto.
    + intros k l' ??. by apply Hd.
    + by intros k l' [_ ?]%Hd.
    + intros k. unfold key_count. case_decide as Hdk.
      * subst. rewrite lookup_delete_eq, Hk. lia.
      * rewrite lookup_delete_ne by done. destruct (locks !! k) as [[]|]; lia.
  - split_and!; [split| |..].
    + intros k l' m. destruct (decide (k = key)) as [->|Hne].
      * rewrite lookup_insert_eq. intros [= <- <-]. lia.
      * rewrite lookup_insert_ne by done. apply Hpos.
    + intros k l'. rewrite lock_at_insert. intros [[-> ->]|[_ ?]]; eauto.
    + intros k1 k2 l'. rewrite !lock_at_insert. intros [[-> ->]|[_ ?]] [[-> ?]|[_ ?]]; subst; eauto.
    + intros k l' ??. apply lock_at_insert. by right.
    + intros k l'. rewrite lock_at_insert. by intros [[-> ->]|[_ ?]].
    + intros k. unfold key_count. case_decide as Hdk.
      * subst. by rewrite lookup_insert_eq, Hk.
      * rewrite lookup_insert_ne by done. destruct (locks !! k) as [[]|]; lia.
Qed.

Lemma unregister_keys_spec r locks next :
  NoDup r.*1 → registry_ok locks next → (∀ k l, (k, l) ∈ r → lock_at locks k l) →
  registry_ok (unregister_keys r locks) next
  ∧ (∀ k l, lock_at (unregister_keys r locks) k l → lock_at locks k l)
  ∧ ∀ k, key_count k (unregister_keys r locks) = key_count k locks - (if decide (k ∈ r.*1) then 1 else 0).
Proof.
  unfold unregister_keys. revert locks. induction r as [|[key l] r IH]; cbn [fold_left]; intros locks Hnd Hok Hl.
  - split_and!; [done..|]. intros k. rewrite decide_False by apply not_elem_of_nil. lia.
  - rewrite fmap_cons in Hnd. apply NoDup_cons in Hnd as [Hnin Hnd].
    destruct (unregister_key_spec key l locks next Hok) as (Hok1 & Hkeep & Hold & Hc); [apply Hl; set_solver|].
    destruct (IH (unregister_key (key, l) locks) Hnd Hok1) as (Hok2 & Hold2 & Hc2).
    { intros k l' Hin. apply Hkeep; [|apply Hl; set_solver]. intros ->. apply Hnin.
      by apply (list_elem_of_fmap_2 fst) in Hin. }
    split_and!; [done|by eauto|]. intros k. rewrite Hc2, Hc, fmap_cons. cbn [fst] in Hnin |- *.
    destruct (decide (k = key)) as [->|Hne].
    + rewrite (decide_False _ _ Hnin), decide_True by set_solver. lia.
    + rewrite (decide_ext (k ∈ key :: r.*1) (k ∈ r.*1)) by set_solver. lia.
Qed.

Lemma key_count_lock locks next k :
  registry_ok locks next → 0 < key_count k locks ↔ ∃ l, lock_at locks k l.
Proof.
  intros Hok. unfold key_count, lock_at. destruct (locks !! k) as [[l n]|] eqn:Hk.
  - apply (ro_positive _ _ Hok) in Hk. split; [by eauto|lia].
  - split; [lia|]. intros (? & ? & ?). congruence.
Qed.

(** * Counting the users of a key *)

Definition uses (key : string) (c : call_state) : nat := if decide (key ∈ (registered_of c).*1) then 1 else 0.

Lemma uses_none key c : registered_of c = [] → uses key c = 0%nat.
Proof. intros Hr. unfold uses. rewrite Hr, decide_False; [done|]. apply not_elem_of_nil. Qed.

Lemma uses_of key c : Z.of_nat (uses key c) = if decide (key ∈ (registered_of c).*1) then 1 else 0.
Proof. unfold uses. by case_decide. Qed.

Lemma users_cons key c calls : users key (c :: calls) = (uses key c + users key calls)%nat.
Proof. unfold users, uses. rewrite filter_cons. by case_decide. Qed.

Lemma users_update key t c c' calls :
  calls !! t = Some c → (users key (<[t := c']> calls) + uses key c = users key calls + uses key c')%nat.
Proof.
  revert t. induction calls as [|d calls IH]; intros [|t] Ht; [done..| |].
  - injection Ht as ->. change (<[0%nat := c']> (c :: calls)) with (c' :: calls). rewrite !users_cons. lia.
  - change (<[S t := c']> (d :: calls)) with (d :: <[t := c']> calls). cbn in Ht. rewrite !users_cons. specialize (IH _ Ht). lia.
Qed.

Lemma users_same key t c c' calls :
  calls !! t = Some c → registered_of c' = registered_of c → users key (<[t := c']> calls) = users key calls.
Proof.
  intros Ht Hr. pose proof (users_update key t c c' calls Ht) as H. unfold uses in H. rewrite Hr in H. lia.
Qed.

Lemma users_positive key t c calls :
  calls !! t = Some c → key ∈ (registered_of c).*1 → (0 < users key calls)%nat.
Proof.
  revert t. induction calls as [|d calls IH]; intros [|t]; cbn -[users]; [done..| |]; rewrite users_cons.
  - intros [= ->] ?. unfold uses. rewrite decide_True by done. lia.
  - intros Ht Hk. specialize (IH _ Ht Hk). lia.
Qed.

(** * The locks of one call *)

Section call.
Variable q : queues.
Hypothesis Hq : queues_ok q.

Lemma call_ok_at t c : fq_calls q !! t = Some c → call_ok c.
Proof. intros Ht. pose proof (qo_calls q Hq) as H. by eapply Forall_lookup_1 in H. Qed.

Lemma registered_sorted t c : fq_calls q !! t = Some c → StronglySorted key_lt (registered_of c).*1.
Proof. intros Ht. destruct (call_ok_at t c Ht) as [Hs _]. destruct c; by try constructor. Qed.

Lemma registered_keys_nodup t c : fq_calls q !! t = Some c → NoDup (registered_of c).*1.
Proof. intros Ht. by eapply key_lt_sorted_nodup, registered_sorted. Qed.

(** Distinct positions carry distinct locks. *)
Lemma registered_lock_inj t c i j k1 k2 l :
  fq_calls q !! t = Some c → registered_of c !! i = Some (k1, l) → registered_of c !! j = Some (k2, l) → i = j.
Proof.
  intros Ht Hi Hj.
  assert (k1 = k2) as ->.
  { eapply (ro_distinct _ _ (qo_registry q Hq)); eapply (qo_shared q Hq); eauto using list_elem_of_lookup_2. }
  pose proof (registered_keys_nodup t c Ht) as Hnd. apply (NoDup_lookup _ i j k2 Hnd).
  - by rewrite list_lookup_fmap, Hi.
  - by rewrite list_lookup_fmap, Hj.
Qed.

Lemma held_registered t c l :
  fq_calls q !! t = Some c → l ∈ held_of c → ∃ k, (k, l) ∈ registered_of c.
Proof.
  intros _ Hl. assert (l ∈ (registered_of c).*2) as ([k l'] & -> & Hin)%list_elem_of_fmap.
  { destruct c as [|r n|r|r n|]; cbn in Hl |- *; try done; by eapply subseteq_take. }
  by exists k.
Qed.
End call.

(** * Every step keeps the invariant *)

Lemma update_ok q t c c' locks next o :
  queues_ok q → fq_calls q !! t = Some c → registry_ok locks next → call_ok c' →
  (∀ k l, (k, l) ∈ registered_of c' → lock_at locks k l) →
  (∀ u d k l, u ≠ t → fq_calls q !! u = Some d → (k, l) ∈ registered_of d → lock_at locks k l) →
  (∀ k, key_count k locks + Z.of_nat (uses k c) = key_count k (fq_file_locks q) + Z.of_nat (uses k c')) →
  (∀ l u, o !! l = Some u ↔ (u = t ∧ l ∈ held_of c') ∨ (u ≠ t ∧ fq_owner q !! l = Some u)) →
  queues_ok {| fq_file_locks := locks; fq_next_lock := next; fq_owner := o; fq_calls := <[t := c']> (fq_calls q) |}.
Proof.
  intros [_ Hcalls _ Hcount Howner] Ht Hreg Hc' Hsh Hothers Hcnt Ho.
  pose proof (lookup_lt_Some _ _ _ Ht) as Hlt.
  split; cbn [fq_file_locks fq_next_lock fq_owner fq_calls]; [done|..].
  - by apply Forall_insert.
  - intros u d k l Hu Hin. destruct (decide (u = t)) as [->|Hne].
    + rewrite list_lookup_insert_eq in Hu by done. simplify_eq. auto.
    + rewrite list_lookup_insert_ne in Hu by done. eauto.
  - intros k. specialize (Hcnt k). rewrite Hcount in Hcnt. pose proof (users_update k t c c' _ Ht). lia.
  - intros l u. rewrite Ho, Howner. destruct (decide (u = t)) as [->|Hne].
    + rewrite list_lookup_insert_eq by done. naive_solver.
    + rewrite list_lookup_insert_ne by done. naive_solver.
Qed.

Lemma owner_of_call q t c l :
  queues_ok q → fq_calls q !! t = Some c → fq_owner q !! l = Some t ↔ l ∈ held_of c.
Proof. intros Hq Ht. rewrite (qo_owner q Hq). naive_solver. Qed.

(** A step that leaves the registry alone. *)
Lemma move_ok q t c c' o :
  queues_ok q → fq_calls q !! t = Some c → registered_of c' = registered_of c → call_ok c' →
  (∀ l u, o !! l = Some u ↔ (u = t ∧ l ∈ held_of c') ∨ (u ≠ t ∧ fq_owner q !! l = Some u)) →
  queues_ok (set_call t c' (set_owner o q)).
Proof.
  intros Hq Ht Hr Hc' Ho. eapply (update_ok q t c c'); [done|done|apply (qo_registry q Hq)|done|..|done].
  - rewrite Hr. intros k l. by apply (qo_shared q Hq t c).
  - intros u d k l _. apply (qo_shared q Hq).
  - intros k. unfold uses. by rewrite Hr.
Qed.

Lemma owner_same q t c c' :
  queues_ok q → fq_calls q !! t = Some c → (∀ l, l ∈ held_of c' ↔ l ∈ held_of c) →
  ∀ l u, fq_owner q !! l = Some u ↔ (u = t ∧ l ∈ held_of c') ∨ (u ≠ t ∧ fq_owner q !! l = Some u).
Proof.
  intros Hq Ht Hh l u. rewrite Hh, <- (owner_of_call q t c l Hq Ht). destruct (decide (u = t)); naive_solver.
Qed.

Lemma held_take_S (r : list (string * nat)) n k l :
  r !! n = Some (k, l) → ∀ x, x ∈ take (S n) r.*2 ↔ x ∈ take n r.*2 ∨ x = l.
Proof.
  intros Hn x. rewrite (take_S_r _ _ l) by by rewrite list_lookup_fmap, Hn. rewrite elem_of_app, list_elem_of_singleton. done.
Qed.

Lemma register_step_ok q t keys r locks next :
  queues_ok q → fq_calls q !! t = Some (Idle keys) →
  register_keys keys (fq_file_locks q) (fq_next_lock q) = (r, locks, next) →
  queues_ok (set_call t (Acquiring r 0) (set_locks locks next q)).
Proof.
  intros Hq Ht Hr. pose proof (call_ok_at q Hq _ _ Ht) as [Hs _]. cbn in Hs.
  destruct (register_keys_spec _ _ _ _ _ _ (key_lt_sorted_nodup _ Hs) (qo_registry q Hq) Hr) as (Hok & Hk & Hl & Hkeep & Hc).
  eapply (update_ok q t (Idle keys)); [done|done|done|..].
  - split; [by cbn; rewrite Hk|cbn; lia].
  - done.
  - intros u d k l _ Hu Hin. by eapply Hkeep, (qo_shared q Hq).
  - intros k. rewrite Hc, uses_none, uses_of by done. cbn [registered_of]. rewrite Hk. lia.
  - by apply (owner_same q t (Idle keys)).
Qed.

Lemma acquire_step_ok q t r n k l :
  queues_ok q → fq_calls q !! t = Some (Acquiring r n) → r !! n = Some (k, l) → fq_owner q !! l = None →
  queues_ok (set_call t (Acquiring r (S n)) (set_owner (<[l := t]> (fq_owner q)) q)).
Proof.
  intros Hq Ht Hn Hfree. eapply move_ok; [done|done|done|..].
  - split; [apply (call_ok_at q Hq _ _ Ht)|]. cbn. by apply lookup_lt_Some in Hn.
  - intros x u. cbn [held_of]. rewrite (held_take_S _ _ _ _ Hn).
    rewrite lookup_insert_Some, <- (owner_of_call q t _ x Hq Ht : _ ↔ x ∈ take n r.*2).
    destruct (decide (u = t)), (decide (l = x)); naive_solver.
Qed.

Lemma release_step_ok q t r n k l :
  queues_ok q → fq_calls q !! t = Some (Releasing r (S n)) → r !! n = Some (k, l) →
  queues_ok (set_call t (Releasing r n) (set_owner (delete l (fq_owner q)) q)).
Proof.
  intros Hq Ht Hn. eapply move_ok; [done|done|done|..].
  - split; [apply (call_ok_at q Hq _ _ Ht)|]. cbn. apply lookup_lt_Some in Hn. lia.
  - assert (l ∉ take n r.*2) as Hnin.
    { intros (i & Hi)%list_elem_of_lookup. apply lookup_take_Some in Hi as [Hi Hlt].
      rewrite list_lookup_fmap in Hi. destruct (r !! i) as [[k' l']|] eqn:Hri; [|done]. injection Hi as ->.
      assert (i = n) by (eapply (registered_lock_inj q Hq); eauto). lia. }
    intros x u. rewrite lookup_delete_Some. cbn [held_of].
    pose proof (owner_of_call q t _ x Hq Ht) as Hx. cbn [held_of] in Hx. rewrite (held_take_S _ _ _ _ Hn) in Hx.
    assert (fq_owner q !! l = Some t) as Hl.
    { apply (owner_of_call q t _ l Hq Ht). cbn [held_of]. apply (held_take_S _ _ _ _ Hn). by right. }
    destruct (decide (u = t)), (decide (l = x)); naive_solver.
Qed.

Lemma finish_step_ok q t r :
  queues_ok q → fq_calls q !! t = Some (Releasing r 0) →
  queues_ok (set_call t Finished (set_locks (unregister_keys r (fq_file_locks q)) (fq_next_lock q) q)).
Proof.
  intros Hq Ht.
  destruct (unregister_keys_spec r (fq_file_locks q) (fq_next_lock q)) as (Hok & Hold & Hc).
  { apply (registered_keys_nodup q Hq _ _ Ht). }
  { apply (qo_registry q Hq). }
  { intros k l. apply (qo_shared q Hq _ _ _ _ Ht). }
  assert (∀ k, key_count k (unregister_keys r (fq_file_locks q))
    = Z.of_nat (users k (<[t := Finished]> (fq_calls q)))) as Hc'.
  { intros k. rewrite Hc, (qo_count q Hq). pose proof (users_update k t _ Finished _ Ht) as Hu.
    rewrite (uses_none k Finished) in Hu by done. pose proof (uses_of k (Releasing r 0)) as Hu'.
    cbn [registered_of] in Hu'. lia. }
  eapply (update_ok q t (Releasing r 0)); [done|done|done|..].
  - split; [constructor|done].
  - intros k l []%not_elem_of_nil.
  - intros u d k l Hne Hu Hin.
    assert (0 < key_count k (unregister_keys r (fq_file_locks q))) as Hpos.
    { rewrite Hc'. rewrite <- list_lookup_insert_ne with (i := t) (x := Finished) in Hu by done.
      apply (list_elem_of_fmap_2 fst) in Hin. pose proof (users_positive _ _ _ _ Hu Hin) as H. cbn [fst] in H. lia. }
    apply (key_count_lock _ _ _ Hok) in Hpos as [l' Hl']. apply Hold in Hl' as Hl''.
    by rewrite (lock_at_fun _ _ _ _ (qo_shared q Hq _ _ _ _ Hu Hin) Hl'').
  - intros k. rewrite Hc, (uses_none k Finished), uses_of by done. cbn [registered_of]. lia.
  - by apply (owner_same q t (Releasing r 0)).
Qed.

Lemma step_ok t q q' : queues_ok q → step t q = Some q' → queues_ok q'.
Proof.
  intros Hq. unfold step. destruct (fq_calls q !! t) as [[keys|r n|r|r [|n]|]|] eqn:Ht; try done.
  - destruct (register_keys _ _ _) as [[r locks] next] eqn:Hr. intros [= <-]. by eapply register_step_ok.
  - destruct (r !! n) as [[k l]|] eqn:Hn.
    + destruct (fq_owner q !! l) eqn:Ho; [done|]. intros [= <-]. by eapply acquire_step_ok.
    + intros [= <-]. apply (move_ok q t _ _ (fq_owner q) Hq Ht); [done|split; [|done]; apply (call_ok_at q Hq _ _ Ht)|].
      apply (owner_same q t _ _ Hq Ht). cbn. apply lookup_ge_None in Hn. rewrite take_ge; [done|]. by rewrite length_fmap.
  - intros [= <-]. apply (move_ok q t _ _ (fq_owner q) Hq Ht); [done|split; [|by cbn]; apply (call_ok_at q Hq _ _ Ht)|].
    apply (owner_same q t _ _ Hq Ht). cbn. by rewrite take_ge by by rewrite length_fmap.
  - intros [= <-]. by eapply finish_step_ok.
  - destruct (call_ok_at q Hq _ _ Ht) as [_ Hpos]. cbn in Hpos.
    destruct (r !! n) as [[k l]|] eqn:Hn; [|apply lookup_ge_None in Hn; lia].
    intros [= <-]. by eapply release_step_ok.
Qed.

(** * Histories *)

Section history.
Variable queue_key : string → string.
Variable calls : list (list string).

Inductive reachable : queues → Prop :=
  | reachable_initial : reachable (initial queue_key calls)
  | reachable_step t q q' : reachable q → step t q = Some q' → reachable q'.

Lemma initial_call t c : fq_calls (initial queue_key calls) !! t = Some c → ∃ paths, c = Idle (call_keys queue_key paths).
Proof. cbn. rewrite list_lookup_fmap, fmap_Some. naive_solver. Qed.

Lemma initial_users k : users k (fq_calls (initial queue_key calls)) = 0%nat.
Proof.
  unfold initial. cbn [fq_calls]. induction calls as [|p l IH]; [done|]. cbn [map].
  by rewrite users_cons, IH, uses_none.
Qed.

Lemma initial_ok : queues_ok (initial queue_key calls).
Proof.
  split.
  - split; cbn; [done|by intros ?? []|by intros ??? []].
  - rewrite Forall_lookup. intros t c (paths & ->)%initial_call. split; [apply call_keys_sorted|done].
  - by intros t c k l (paths & ->)%initial_call []%not_elem_of_nil.
  - intros k. by rewrite initial_users.
  - intros l t. split; [done|]. by intros (c & (paths & ->)%initial_call & []%not_elem_of_nil).
Qed.

Lemma reachable_ok q : reachable q → queues_ok q.
Proof. induction 1; [apply initial_ok|]. by eapply step_ok. Qed.

End history.

(** * Progress *)

(** A call that waits: the key and the lock it wants. *)
Definition waits_for (q : queues) (t : nat) (k : string) (l : nat) : Prop :=
  ∃ r n, fq_calls q !! t = Some (Acquiring r n) ∧ r !! n = Some (k, l) ∧ fq_owner q !! l ≠ None.

Definition stuck (q : queues) : Prop := ∀ t, step t q = None.

Lemma stuck_waits q t c :
  stuck q → fq_calls q !! t = Some c → c = Finished ∨ ∃ k l, waits_for q t k l.
Proof.
  intros Hs Ht. specialize (Hs t). unfold step in Hs. rewrite Ht in Hs. destruct c as [keys|r n|r|r [|n]|]; try done; auto.
  - by destruct (register_keys _ _ _) as [[??]?].
  - destruct (r !! n) as [[k l]|] eqn:Hn; [|done]. destruct (fq_owner q !! l) eqn:Ho; [|done].
    right. exists k, l, r, n. by rewrite Ho.
  - by destruct (r !! n) as [[??]|].
Qed.

(** The holder of a lock that is waited for waits for a greater key. *)
Lemma waits_increase q t k l :
  queues_ok q → stuck q → waits_for q t k l → ∃ t' k' l', waits_for q t' k' l' ∧ key_lt k k'.
Proof.
  intros Hq Hs (r & n & Ht & Hn & Ho). destruct (fq_owner q !! l) as [t'|] eqn:Ho'; [|done].
  apply (qo_owner q Hq) in Ho' as (c & Hc & Hl).
  destruct (stuck_waits q t' c Hs Hc) as [->|(k' & l' & Hw)]; [by apply not_elem_of_nil in Hl|].
  exists t', k', l'. split; [done|]. destruct Hw as (r' & n' & Hc' & Hn' & _). simplify_eq.
  apply list_elem_of_lookup in Hl as (i & (Hi & Hlt)%lookup_take_Some). rewrite list_lookup_fmap in Hi.
  destruct (r' !! i) as [[k'' l'']|] eqn:Hri; [|done]. injection Hi as ->.
  assert (k'' = k) as ->.
  { apply (ro_distinct _ _ (qo_registry q Hq) _ _ l).
    - apply (qo_shared q Hq _ _ _ _ Hc). by eapply list_elem_of_lookup_2.
    - apply (qo_shared q Hq _ _ _ _ Ht). by eapply list_elem_of_lookup_2. }
  pose proof (registered_sorted q Hq _ _ Hc) as Hsorted. cbn in Hsorted.
  apply (key_lt_sorted_lookup r'.*1 i n' k k' Hsorted); [..|done]; rewrite list_lookup_fmap.
  - by rewrite Hri.
  - by rewrite Hn'.
Qed.

(** The key each waiting call waits for. *)
Definition wanted (c : call_state) : list string :=
  match c with
  | Acquiring r n => match r !! n with Some (k, _) => [k] | None => [] end
  | _ => []
  end.

Lemma waits_wanted q t k l : waits_for q t k l → k ∈ flat_map wanted (fq_calls q).
Proof.
  intros (r & n & Ht & Hn & _). apply list_elem_of_In, in_flat_map. exists (Acquiring r n).
  split; [by apply list_elem_of_In; eapply list_elem_of_lookup_2|]. cbn. rewrite Hn. by left.
Qed.

Lemma wanted_waits q k : stuck q → k ∈ flat_map wanted (fq_calls q) → ∃ t l, waits_for q t k l.
Proof.
  intros Hs (c & Hc & Hk)%list_elem_of_In%in_flat_map.
  apply list_elem_of_In, list_elem_of_lookup in Hc as (t & Ht). exists t.
  destruct (stuck_waits q t c Hs Ht) as [->|(k' & l & Hw)]; [done|].
  destruct (id Hw) as (r & n & Ht' & Hn & _). simplify_eq. cbn in Hk. rewrite Hn in Hk.
  destruct Hk as [<-|[]]. by exists l.
Qed.

(** No call waits when none can go on: the greatest key waited for is held by
    a call that waits for a greater one. *)
Lemma stuck_finished q : queues_ok q → stuck q → Forall (eq Finished) (fq_calls q).
Proof.
  intros Hq Hs. rewrite Forall_lookup. intros t c Ht.
  destruct (stuck_waits q t c Hs Ht) as [->|(k & l & Hw)]; [done|]. exfalso.
  destruct (greatest_key (flat_map wanted (fq_calls q))) as (m & Hm & Hmax).
  { apply waits_wanted in Hw. intros Hnil. rewrite Hnil in Hw. by apply not_elem_of_nil in Hw. }
  destruct (wanted_waits q m Hs Hm) as (u & lu & Hu).
  destruct (waits_increase q u m lu Hq Hs Hu) as (t' & k' & l' & Hw' & [Hle Hne]).
  apply Hne, str_leb_antisym; [done|]. apply Hmax. by eapply waits_wanted.
Qed.

Lemma finished_users calls k : Forall (eq Finished) calls → users k calls = 0%nat.
Proof. induction 1 as [|c l <- _ IH]; [done|]. by rewrite users_cons, IH, uses_none. Qed.

(** When every call has finished, nothing is left of the registry. *)
Lemma finished_clean q :
  queues_ok q → Forall (eq Finished) (fq_calls q) → fq_file_locks q = ∅ ∧ fq_owner q = ∅.
Proof.
  intros Hq Hf. split; apply map_eq; intros i; rewrite lookup_empty.
  - pose proof (qo_count q Hq i) as Hc. rewrite finished_users in Hc by done. unfold key_count in Hc.
    destruct (fq_file_locks q !! i) as [[l n]|] eqn:Hi; [|done].
    apply (ro_positive _ _ (qo_registry q Hq)) in Hi. lia.
  - destruct (fq_owner q !! i) as [t|] eqn:Ho; [|done].
    apply (qo_owner q Hq) in Ho as (c & Hc & Hl). rewrite Forall_lookup in Hf. apply Hf in Hc. subst.
    by apply not_elem_of_nil in Hl.
Qed.

(** The steps a call has left. *)
Definition call_steps (c : call_state) : nat :=
  match c with
  | Idle keys => 2 * length keys + 4
  | Acquiring r n => (length r - n) + length r + 3
  | Running r => length r + 2
  | Releasing _ n => n + 1
  | Finished => 0
  end.

Definition steps_left (q : queues) : nat := sum_list_with call_steps (fq_calls q).

Lemma sum_update t c c' l :
  l !! t = Some c →
  (sum_list_with call_steps (<[t := c']> l) + call_steps c = sum_list_with call_steps l + call_steps c')%nat.
Proof.
  revert t. induction l as [|d l IH]; intros [|t] Ht; [done..| |].
  - injection Ht as ->. change (<[0%nat := c']> (c :: l)) with (c' :: l). cbn [sum_list_with]. lia.
  - change (<[S t := c']> (d :: l)) with (d :: <[t := c']> l). cbn in Ht. cbn [sum_list_with]. specialize (IH _ Ht). lia.
Qed.

Lemma register_keys_length keys locks next : length (register_keys keys locks next).1.1 = length keys.
Proof.
  revert locks next. induction keys as [|k keys IH]; intros locks next; [done|]. cbn [register_keys].
  destruct (register_key k locks next) as [[l locks1] next1]. specialize (IH locks1 next1).
  destruct (register_keys keys locks1 next1) as [[r locks2] next2]. cbn in IH |- *. by rewrite IH.
Qed.

Lemma step_shrinks t q q' : step t q = Some q' → (steps_left q' < steps_left q)%nat.
Proof.
  unfold step, steps_left. destruct (fq_calls q !! t) as [[keys|r n|r|r [|n]|]|] eqn:Ht; try done.
  - pose proof (register_keys_length keys (fq_file_locks q) (fq_next_lock q)) as Hl.
    destruct (register_keys _ _ _) as [[r locks] next]. intros [= <-]. cbn in Hl.
    pose proof (sum_update t _ (Acquiring r 0) _ Ht) as H. cbn [call_steps] in H. cbn [set_call set_locks fq_calls]. lia.
  - destruct (r !! n) as [[k l]|] eqn:Hn.
    + destruct (fq_owner q !! l); [done|]. intros [= <-]. apply lookup_lt_Some in Hn.
      pose proof (sum_update t _ (Acquiring r (S n)) _ Ht) as H. cbn [call_steps] in H. cbn [set_call set_owner fq_calls]. lia.
    + intros [= <-]. pose proof (sum_update t _ (Running r) _ Ht) as H. cbn [call_steps] in H. cbn [set_call fq_calls]. lia.
  - intros [= <-]. pose proof (sum_update t _ (Releasing r (length r)) _ Ht) as H. cbn [call_steps] in H. cbn [set_call fq_calls]. lia.
  - intros [= <-]. pose proof (sum_update t _ Finished _ Ht) as H. cbn [call_steps] in H. cbn [set_call set_locks fq_calls]. lia.
  - pose proof (sum_update t _ (Releasing r n) _ Ht) as H. cbn [call_steps] in H.
    destruct (r !! n) as [[k l]|]; intros [= <-]; cbn [set_call set_owner fq_calls]; lia.
Qed.

(** * The properties *)

Section properties.
Variable queue_key : string → string.
Variable calls : list (list string).

(** C11: under every interleaving of the calls of a history (each registering
    all its keys in one step under the registry lock and then acquiring their
    locks one by one), two calls that have registered the same file are never
    in their [fn] at the same time. *)
Theorem same_file_calls_exclude q t u r1 r2 :
  reachable queue_key calls q →
  fq_calls q !! t = Some (Running r1) → fq_calls q !! u = Some (Running r2) → t ≠ u →
  ∀ key, key ∈ r1.*1 → key ∉ r2.*1.
Proof.
  intros Hr Ht Hu Hne key ([k1 l1] & -> & H1)%list_elem_of_fmap ([k2 l2] & Hk & H2)%list_elem_of_fmap.
  cbn in Hk. subst k2. pose proof (reachable_ok _ _ _ Hr) as Hq. apply Hne.
  assert (l1 = l2) as ->.
  { apply (lock_at_fun (fq_file_locks q) k1); [by apply (qo_shared q Hq t _ k1 l1 Ht)|by apply (qo_shared q Hq u _ k1 l2 Hu)]. }
  apply (list_elem_of_fmap_2 snd) in H1, H2. cbn in H1, H2.
  apply (owner_of_call q t _ l2 Hq Ht) in H1. apply (owner_of_call q u _ l2 Hq Hu) in H2. congruence.
Qed.

(** C12: the calls never deadlock and clean up behind them: in every reachable
    state either some call can take a step, or every call has finished, the
    registry has no entry left and no lock is held; and no interleaving runs
    for ever, since every step lowers the number of steps left. *)
Theorem calls_never_deadlock q :
  reachable queue_key calls q →
  ((∃ t q', step t q = Some q') ∨
   (Forall (eq Finished) (fq_calls q) ∧ fq_file_locks q = ∅ ∧ fq_owner q = ∅))
  ∧ ∀ t q', step t q = Some q' → reachable queue_key calls q' ∧ (steps_left q' < steps_left q)%nat.
Proof.
  intros Hr. pose proof (reachable_ok _ _ _ Hr) as Hq. split.
  - destruct (decide (Forall (λ t, step t q = None) (seq 0 (length (fq_calls q))))) as [Hs|Hs].
    + right. assert (stuck q) as Hst.
      { intros t. destruct (decide (t < length (fq_calls q))%nat) as [Hlt|Hge].
        - rewrite Forall_forall in Hs. apply Hs. apply elem_of_seq. lia.
        - unfold step. by rewrite (lookup_ge_None_2 (fq_calls q) t) by lia. }
      pose proof (stuck_finished q Hq Hst) as Hf. split; [done|by apply finished_clean].
    + left. apply not_Forall_Exists in Hs; [|apply _]. apply Exists_exists in Hs as (t & _ & Ht).
      destruct (step t q) as [q'|] eqn:Hstep; [by exists t, q'|done].
  - intros t q' Hstep. split; [by eapply reachable_step|by eapply step_shrinks].
Qed.

End properties.

(** * Witnesses *)

Definition key_id (path : string) : string := path.

(** Two calls that share the file [b]. *)
Definition two_calls : list (list string) := [["b"; "a"]; ["b"]]%string.

(** The steps of a schedule. *)
Fixpoint run (ts : list nat) (q : queues) : option queues :=
  match ts with
  | [] => Some q
  | t :: ts => match step t q with Some q' => run ts q' | None => None end
  end.

Lemma run_reachable qk cs ts q q' : reachable qk cs q → run ts q = Some q' → reachable qk cs q'.
Proof.
  revert q. induction ts as [|t ts IH]; cbn; intros q Hr; [by intros [= <-]|].
  destruct (step t q) eqn:Hs; [|done]. apply IH. by eapply reachable_step.
Qed.

(** The first call gets both files while the second waits for [b]. *)
Lemma first_runs :
  ∃ q, run [0; 1; 0; 0; 0]%nat (initial key_id two_calls) = Some q
       ∧ fq_calls q !! 0%nat = Some (Running [("a", 0%nat); ("b", 1%nat)]%string) ∧ step 1 q = None.
Proof.
  exists (default (initial key_id two_calls) (run [0; 1; 0; 0; 0]%nat (initial key_id two_calls))).
  repeat split; vm_compute; reflexivity.
Qed.

Lemma same_file_calls_exclude_witness :
  ∃ q, reachable key_id two_calls q
       ∧ (∀ u r2, fq_calls q !! u = Some (Running r2) → 0%nat ≠ u → "b"%string ∉ r2.*1).
Proof.
  destruct first_runs as (q & Hrun & Ht & _). exists q.
  assert (reachable key_id two_calls q) as Hr by (eapply run_reachable; [apply reachable_initial|exact Hrun]).
  split; [exact Hr|]. intros u r2 Hu Hne.
  apply (same_file_calls_exclude key_id two_calls q 0 u _ r2 Hr Ht Hu Hne). cbn. set_solver.
Defined.

Lemma calls_never_deadlock_witness :
  ∃ q, reachable key_id two_calls q ∧ step 1 q = None
       ∧ ((∃ t q', step t q = Some q') ∨
          (Forall (eq Finished) (fq_calls q) ∧ fq_file_locks q = ∅ ∧ fq_owner q = ∅)).
Proof.
  destruct first_runs as (q & Hrun & _ & Hblocked). exists q.
  assert (reachable key_id two_calls q) as Hr by (eapply run_reachable; [apply reachable_initial|exact Hrun]).
  split; [exact Hr|]. split; [exact Hblocked|]. exact (proj1 (calls_never_deadlock key_id two_calls q Hr)).
Defined.
