(* ===== verification/Documents.v ===== *)
(** The documents of the language services (travis/coding_agent/language_services/
    documents.py): positions in the units of a server and offsets in the text, and the
    tracker of document versions over the files of a workspace.

    A path is the list of its components, resolved.  The file system is a map from
    paths to regular files. *)

From S2P Require Import Prelude Utf8 PyText.
From stdpp Require Import gmap.
Open Scope Z_scope.
Local Notation text := Utf8.text.

Definition path : Type := list string.

(** [workspace in path.parents or path == workspace] *)
Fixpoint within (workspace p : path) : bool :=
  match workspace, p with
  | [], _ => true
  | c :: workspace, d :: p => bool_decide (c = d) && within workspace p
  | _ :: _, [] => false
  end.

(** A regular file: its bytes and its permission bits. *)
Record Node : Type := { n_bytes : bytes; n_mode : Z }.
#[export] Instance Node_eq_dec : EqDecision Node.
Proof. solve_decision. Defined.

Notation Files := (gmap path Node).

(** ** Positions *)

(** [src: travis/coding_agent/language_services/types.py:20-23 DocumentPosition] *)
Record DocumentPosition : Type := { p_line : Z; p_character : Z }.

Inductive PositionEncoding : Type := utf_8 | utf_16 | utf_32.

(** [ValueError] with its message. *)
Inductive document_error : Type := ValueError (message : string).

(** [text.split("\n")] *)
Fixpoint split_newlines (t : text) : list text :=
  match t with
  | [] => [[]]
  | c :: rest =>
      if c =? 10 then [] :: split_newlines rest
      else match split_newlines rest with
           | l :: ls => (c :: l) :: ls
           | [] => [[c]]
           end
  end.

(** [value[:-1] if value.endswith("\r") else value] *)
Definition drop_cr (l : text) : text := if bool_decide (last l = Some 13) then removelast l else l.

(** [src: travis/coding_agent/language_services/documents.py:30-35 _line_text] *)
Definition _line_text (t : text) (line : Z) : result document_error text :=
  if line <? 0 then Err (ValueError "document position line is out of range")
  else match split_newlines t !! Z.to_nat line with
       | Some value => Ok (drop_cr value)
       | None => Err (ValueError "document position line is out of range")
       end.

(** [src: travis/coding_agent/language_services/documents.py:38-45 _units] *)
Definition _units (character : Z) (encoding : PositionEncoding) : Z :=
  match encoding with
  | utf_8 => Z.of_nat (length (encode_char character))
  | utf_16 => if character <? 65536 then 1 else 2
  | utf_32 => 1
  end.

(** The loop of [_index_from_units] on what is left of the line. *)
Fixpoint index_loop (rest : text) (index : nat) (consumed offset : Z) (encoding : PositionEncoding)
    : result document_error nat :=
  match rest with
  | [] => if consumed =? offset then Ok index
          else Err (ValueError "document position character is out of range")
  | character :: rest =>
      if consumed =? offset then Ok index
      else
        let next_consumed := consumed + _units character encoding in
        if offset <? next_consumed then Err (ValueError "document position is not on a character boundary")
        else index_loop rest (S index) next_consumed offset encoding
  end.

(** [src: travis/coding_agent/language_services/documents.py:48-61 _index_from_units] *)
Definition _index_from_units (line_text : text) (offset : Z) (encoding : PositionEncoding) : result document_error nat :=
  if offset <? 0 then Err (ValueError "document position character must be a nonnegative integer")
  else index_loop line_text 0 0 offset encoding.

(** [src: travis/coding_agent/language_services/documents.py:64-65 _offset_for_index] *)
Definition _offset_for_index (line_text : text) (index : nat) (encoding : PositionEncoding) : Z :=
  foldr (λ c n, _units c encoding + n) 0 (take index line_text).

(** [src: travis/coding_agent/language_services/documents.py:68-75 position_to_server] *)
Definition position_to_server (t : text) (position : DocumentPosition) (encoding : PositionEncoding)
    : result document_error DocumentPosition :=
  line ← _line_text t (p_line position);
  index ← _index_from_units line (p_character position) utf_16;
  Ok {| p_line := p_line position; p_character := _offset_for_index line index encoding |}.

(** [src: travis/coding_agent/language_services/documents.py:78-85 position_from_server] *)
Definition position_from_server (t : text) (position : DocumentPosition) (encoding : PositionEncoding)
    : result document_error DocumentPosition :=
  line ← _line_text t (p_line position);
  index ← _index_from_units line (p_character position) encoding;
  Ok {| p_line := p_line position; p_character := _offset_for_index line index utf_16 |}.

(** Where [str.splitlines] cuts. *)
Definition is_line_break (c : Z) : bool :=
  in_range 10 13 c || in_range 28 30 c || bool_decide (c ∈ [133; 8232; 8233]).

(** [t.splitlines(keepends=True)] *)
Fixpoint split_lines_keep (t : text) : list text :=
  match t with
  | [] => []
  | c :: rest =>
      if is_line_break c then
        match rest with
        | d :: rest' => if (c =? 13) && (d =? 10) then [c; d] :: split_lines_keep rest' else [c] :: split_lines_keep rest
        | [] => [[c]]
        end
      else match split_lines_keep rest with
           | l :: ls => (c :: l) :: ls
           | [] => [[c]]
           end
  end.

(** [raw_line.rstrip("\r\n")] *)
Fixpoint drop_crlf_rev (t : text) : text :=
  match t with c :: t' => if (c =? 10) || (c =? 13) then drop_crlf_rev t' else t | [] => [] end.
Definition rstrip_crlf (t : text) : text := rev (drop_crlf_rev (rev t)).

(** [src: travis/coding_agent/language_services/documents.py:88-97 text_offset_from_position] *)
Definition text_offset_from_position (t : text) (position : DocumentPosition) : result document_error nat :=
  let lines := split_lines_keep t ++ (if bool_decide (t = [] ∨ last t = Some 10) then [[]] else []) in
  if p_line position <? 0 then Err (ValueError "document position line is out of range")
  else match lines !! Z.to_nat (p_line position) with
       | None => Err (ValueError "document position line is out of range")
       | Some raw_line =>
           index ← _index_from_units (rstrip_crlf raw_line) (p_character position) utf_16;
           Ok (length (concat (take (Z.to_nat (p_line position)) lines)) + index)%nat
       end.

(** ** The tracker *)

(** [src: travis/coding_agent/language_services/documents.py:15-22 DocumentSnapshot];
    the URI is a function of the path. *)
Record DocumentSnapshot : Type := {
  d_path : path;
  d_text : text;
  d_version : Z;
  d_sha256 : string;
  d_saved_hash : option string
}.

(** [src: travis/coding_agent/language_services/documents.py:101-103 DocumentTracker.__init__] *)
Record DocumentTracker : Type := {
  tr_workspace : path;
  tr_documents : gmap path DocumentSnapshot
}.

Section tracker.
(** [hashlib.sha256(raw).hexdigest()]; a given path, made absolute in the workspace
    and resolved. *)
Variable sha256 : bytes → string.
Variable resolve : path → string → path.

Definition put_document (s : DocumentSnapshot) (tr : DocumentTracker) : DocumentTracker :=
  {| tr_workspace := tr_workspace tr; tr_documents := <[d_path s := s]> (tr_documents tr) |}.

(** [src: travis/coding_agent/language_services/documents.py:105-111 DocumentTracker.resolve_path] *)
Definition resolve_path (tr : DocumentTracker) (p : string) : result document_error path :=
  let resolved := resolve (tr_workspace tr) p in
  if within (tr_workspace tr) resolved then Ok resolved
  else Err (ValueError "document path escapes the workspace").

(** [open_or_update] of a resolved path. *)
Definition open_resolved (fs : Files) (resolved : path) : st DocumentTracker document_error DocumentSnapshot :=
  tr ← st_get;
  match fs !! resolved with
  | None => mthrow (ValueError "document path must be an existing regular file")
  | Some node =>
      match decode_strict (n_bytes node) with
      | Err _ => mthrow (ValueError "language-service documents must be UTF-8")
      | Ok t =>
          let digest := sha256 (n_bytes node) in
          let existing := tr_documents tr !! resolved in
          match existing with
          | Some e => if bool_decide (d_sha256 e = digest) then mret e
                      else
                        let s := {| d_path := resolved; d_text := t; d_version := d_version e + 1; d_sha256 := digest;
                                    d_saved_hash := d_saved_hash e |} in
                        _ ← st_modify (put_document s); mret s
          | None =>
              let s := {| d_path := resolved; d_text := t; d_version := 1; d_sha256 := digest; d_saved_hash := None |} in
              _ ← st_modify (put_document s); mret s
          end
      end
  end.

(** [src: travis/coding_agent/language_services/documents.py:113-135 DocumentTracker.open_or_update] *)
Definition open_or_update (fs : Files) (p : string) : st DocumentTracker document_error DocumentSnapshot :=
  tr ← st_get; resolved ← st_lift (resolve_path tr p); open_resolved fs resolved.

(** [src: travis/coding_agent/language_services/documents.py:137-148 DocumentTracker.mark_saved] *)
Definition mark_saved (fs : Files) (p : string) : st DocumentTracker document_error DocumentSnapshot :=
  s ← open_or_update fs p;
  let saved := {| d_path := d_path s; d_text := d_text s; d_version := d_version s; d_sha256 := d_sha256 s;
                  d_saved_hash := Some (d_sha256 s) |} in
  _ ← st_modify (put_document saved); mret saved.

(** [src: travis/coding_agent/language_services/documents.py:150-153 DocumentTracker.close] *)
Definition close (p : string) : st DocumentTracker document_error (option DocumentSnapshot) :=
  tr ← st_get; resolved ← st_lift (resolve_path tr p);
  _ ← st_put {| tr_workspace := tr_workspace tr; tr_documents := delete resolved (tr_documents tr) |};
  mret (tr_documents tr !! resolved).

(** [src: travis/coding_agent/language_services/documents.py:155-160 DocumentTracker.snapshot]:
    [None] for [KeyError]. *)
Definition snapshot (tr : DocumentTracker) (p : string) : result document_error (option DocumentSnapshot) :=
  resolved ← resolve_path tr p; Ok (tr_documents tr !! resolved).

End tracker.

(** A form feed is a line end for [splitlines] and none for the protocol. *)
Example line_breaks :
  split_lines_keep [97; 12; 98; 10; 99] = [[97; 12]; [98; 10]; [99]] ∧
  split_newlines [97; 12; 98; 10; 99] = [[97; 12; 98]; [99]] ∧
  split_lines_keep [97; 13; 10; 98; 13] = [[97; 13; 10]; [98; 13]].
Proof. vm_compute. repeat split. Qed.
