(* ===== verification/DocumentsSpec.v ===== *)
(** Positions of a language server and offsets in the text agree on texts whose line
    ends are those of the protocol, and the tracker's versions follow the contents. *)

From S2P Require Import Prelude Utf8 PyText Documents.
From stdpp Require Import gmap.
Open Scope Z_scope.
Local Notation text := Utf8.text.

(** ** Units *)

Definition width (enc : PositionEncoding) (t : text) : Z := foldr (λ c n, _units c enc + n) 0 t.

Lemma units_pos c enc : 1 <= _units c enc.
Proof.
  destruct enc; cbn [_units]; [|destruct (_ <? _); lia|lia]. pose proof (encode_char_nonempty c) as Hne.
  destruct (encode_char c) as [|b bs]; [done|]. cbn [length]. lia.
Qed.

Lemma width_nonneg enc t : 0 <= width enc t.
Proof. induction t as [|c t IH]; [done|]. unfold width in *. cbn [foldr]. pose proof (units_pos c enc). lia. Qed.

(** The loop finds the prefix of the given width, when there is one. *)
Lemma index_loop_ok rest enc i : (i <= length rest)%nat → ∀ index consumed,
  index_loop rest index consumed (consumed + width enc (take i rest)) enc = Ok (index + i)%nat.
Proof.
  revert i. induction rest as [|c rest IH]; intros i Hi index consumed; cbn [index_loop].
  - rewrite take_nil. cbn. rewrite Z.add_0_r, Z.eqb_refl. f_equal. cbn in Hi. lia.
  - pose proof (units_pos c enc). destruct i as [|i]; cbn [take width foldr].
    + rewrite Z.add_0_r, Z.eqb_refl. f_equal. lia.
    + fold (width enc (take i rest)). pose proof (width_nonneg enc (take i rest)).
      destruct (Z.eqb_spec consumed (consumed + (_units c enc + width enc (take i rest)))); [lia|].
      destruct (Z.ltb_spec (consumed + (_units c enc + width enc (take i rest))) (consumed + _units c enc)); [lia|].
      rewrite Z.add_assoc, IH by (cbn in Hi; lia). f_equal. lia.
Qed.

Lemma index_loop_inv rest enc : ∀ index consumed offset i, index_loop rest index consumed offset enc = Ok i →
  ∃ k, (k <= length rest)%nat ∧ i = (index + k)%nat ∧ offset = consumed + width enc (take k rest).
Proof.
  induction rest as [|c rest IH]; intros index consumed offset i; cbn [index_loop].
  - destruct (Z.eqb_spec consumed offset) as [->|]; [|done]. intros [= ->]. exists 0%nat. cbn. lia.
  - destruct (Z.eqb_spec consumed offset) as [->|]; [intros [= ->]; exists 0%nat; cbn; lia|].
    destruct (_ <? _); [done|]. intros (k & Hk & -> & ->)%IH. exists (S k). cbn [take length width foldr].
    fold (width enc (take k rest)). lia.
Qed.

(** An offset in units names the character it is the width before. *)
Lemma index_from_units_iff line offset enc i :
  _index_from_units line offset enc = Ok i ↔ (i <= length line)%nat ∧ offset = _offset_for_index line i enc.
Proof.
  unfold _index_from_units, _offset_for_index. fold (width enc (take i line)). split.
  - destruct (offset <? 0); [done|]. intros (k & Hk & -> & ->)%index_loop_inv. by rewrite Nat.add_0_l.
  - intros [Hi ->]. pose proof (width_nonneg enc (take i line)).
    destruct (Z.ltb_spec (width enc (take i line)) 0); [lia|]. by apply (index_loop_ok line enc i Hi 0 0).
Qed.

(** ** Lines *)

(** A text whose only line ends are [\n] and [\r\n]. *)
Fixpoint plain_lines (t : text) : bool :=
  match t with
  | [] => true
  | c :: rest =>
      (if c =? 13 then match rest with d :: _ => d =? 10 | [] => false end
       else (c =? 10) || negb (is_line_break c)) && plain_lines rest
  end.

Fixpoint end_lines (lines : list text) : list text :=
  match lines with
  | [] => []
  | [l] => [l]
  | l :: ls => (l ++ [10]) :: end_lines ls
  end.

Definition lines_of (t : text) : list text :=
  split_lines_keep t ++ (if bool_decide (t = [] ∨ last t = Some 10) then [[]] else []).

Lemma split_newlines_cons t : ∃ l ls, split_newlines t = l :: ls.
Proof. induction t as [|c t (l & ls & IH)]; cbn; [eauto|]. rewrite IH. destruct (c =? 10); eauto. Qed.

Lemma split_lines_keep_cons c t : ∃ l ls, split_lines_keep (c :: t) = l :: ls.
Proof. cbn. destruct (is_line_break c); [destruct t as [|d t]; [eauto|destruct (_ && _); eauto]|]. destruct (split_lines_keep t); eauto. Qed.

Lemma lines_of_newline t : lines_of (10 :: t) = [10] :: lines_of t.
Proof.
  unfold lines_of. cbn [split_lines_keep]. change (is_line_break 10) with true. cbv iota.
  destruct t as [|d t]; [done|]. change (10 =? 13) with false. cbn [andb app]. do 2 f_equal.
  apply (f_equal (λ b : bool, if b then [[]] else [])), bool_decide_ext. cbn [last].
  split; [intros [?|?]; [done|by right]|intros [?|?]; [done|by right]].
Qed.

Lemma lines_of_crlf t : lines_of (13 :: 10 :: t) = [13; 10] :: lines_of t.
Proof.
  unfold lines_of. cbn [split_lines_keep]. change (is_line_break 13) with true. cbv iota. cbn [andb Z.eqb Pos.eqb app].
  do 2 f_equal. apply (f_equal (λ b : bool, if b then [[]] else [])), bool_decide_ext. destruct t as [|d t]; cbn [last].
  - split; [by left|by right].
  - split; (intros [?|?]; [done|by right]).
Qed.

Lemma lines_of_char c t : is_line_break c = false → ∃ l ls, lines_of t = l :: ls ∧ lines_of (c :: t) = (c :: l) :: ls.
Proof.
  intros Hc. assert (c ≠ 10) as Hne by (intros ->; done). unfold lines_of. cbn [split_lines_keep]. rewrite Hc.
  destruct t as [|d t]; [exists [], []; cbn|].
  - rewrite (bool_decide_eq_false_2 ([c] = [] ∨ _)); [done|]. intros [?|?]; congruence.
  - destruct (split_lines_keep_cons d t) as (l & ls & ->). do 2 eexists. split; [reflexivity|]. cbn [app].
    do 2 f_equal. apply (f_equal (λ b : bool, if b then [[]] else [])), bool_decide_ext. cbn [last].
    split; (intros [?|?]; [done|by right]).
Qed.

(** On such a text, [splitlines] cuts where the protocol does. *)
Lemma lines_of_plain t : plain_lines t = true → lines_of t = end_lines (split_newlines t).
Proof.
  remember (length t) as n eqn:Hn. revert t Hn. induction n as [n IH] using lt_wf_ind. intros t -> Ht.
  destruct t as [|c t]; [done|]. cbn [plain_lines] in Ht. apply andb_true_iff in Ht as [Hc Ht].
  destruct (Z.eqb_spec c 13) as [->|Hc13].
  - destruct t as [|d t]; [done|]. apply Z.eqb_eq in Hc as ->. cbn [plain_lines] in Ht. apply andb_true_iff in Ht as [_ Ht].
    rewrite lines_of_crlf, (IH (length t)) by (done || cbn; lia). cbn [split_newlines Z.eqb Pos.eqb].
    destruct (split_newlines_cons t) as (l & ls & ->). done.
  - specialize (IH (length t) ltac:(cbn; lia) t eq_refl Ht). destruct (Z.eqb_spec c 10) as [->|Hc10].
    + rewrite lines_of_newline, IH. cbn [split_newlines Z.eqb Pos.eqb]. destruct (split_newlines_cons t) as (l & ls & ->). done.
    + apply negb_true_iff in Hc. destruct (lines_of_char c t Hc) as (l & ls & Hl & ->). rewrite IH in Hl.
      cbn [split_newlines]. rewrite (proj2 (Z.eqb_neq c 10) Hc10).
      destruct (split_newlines_cons t) as (m & ms & Hm). rewrite Hm in *. destruct ms; injection Hl as <- <-; done.
Qed.

(** Where a line starts. *)
Definition line_start (t : text) (n : nat) : nat := length (concat (take n (map (λ l, l ++ [10]) (split_newlines t)))).

Lemma end_lines_lookup (ls : list text) n (l : text) : ls !! n = Some l →
  (end_lines ls !! n = Some l ∨ end_lines ls !! n = Some (l ++ [10] : text)) ∧
  take n (end_lines ls) = take n (map (λ l, l ++ [10]) ls).
Proof.
  revert n. induction ls as [|m ls IH]; intros n Hn; [done|]. destruct n as [|n]; cbn in Hn.
  - injection Hn as ->. split; [|done]. destruct ls; cbn; auto.
  - destruct ls as [|m' ls]; [done|]. destruct (IH n Hn) as [H1 H2]. split; [exact H1|].
    change (end_lines (m :: m' :: ls)) with ((m ++ [10]) :: end_lines (m' :: ls)). cbn [take map]. f_equal. exact H2.
Qed.

Lemma end_lines_length ls : length (end_lines ls) = length ls.
Proof. induction ls as [|l [|m ls] IH]; [done..|]. cbn in *. by rewrite IH. Qed.

(** ** Carriage returns *)

Lemma split_newlines_spec t : Forall (λ l, Forall (λ c, c ≠ 10) l) (split_newlines t).
Proof.
  induction t as [|c t IH]; cbn; [by repeat constructor|]. destruct (Z.eqb_spec c 10); [by constructor|].
  destruct (split_newlines t); [by repeat constructor|]. apply Forall_cons in IH as [H1 H2]. by repeat constructor.
Qed.

(** In a plain text a carriage return stands at the end of a line only. *)
Lemma plain_no_cr t l : plain_lines t = true → l ∈ split_newlines t → Forall (λ c, c ≠ 13) (drop_cr l).
Proof.
  remember (length t) as n eqn:Hn. revert t l Hn. induction n as [n IH] using lt_wf_ind. intros t l -> Ht Hl.
  destruct t as [|c t].
  - apply list_elem_of_singleton in Hl as ->. constructor.
  - cbn [plain_lines] in Ht. apply andb_true_iff in Ht as [Hc Ht]. cbn [split_newlines] in Hl.
    destruct (Z.eqb_spec c 10) as [->|Hc10].
    + apply elem_of_cons in Hl as [->|Hl]; [constructor|]. by eapply (IH (length t)); [cbn; lia|..].
    + destruct (split_newlines_cons t) as (m & ms & Hm). rewrite Hm in Hl.
      apply elem_of_cons in Hl as [->|Hl]; [|eapply (IH (length t)); [cbn; lia|done..|rewrite Hm; by right]].
      assert (Forall (λ c, c ≠ 13) (drop_cr m)) as IHm by (eapply (IH (length t)); [cbn; lia|done..|rewrite Hm; by left]).
      destruct (Z.eqb_spec c 13) as [->|Hc13].
      * destruct t as [|d t]; [done|]. apply Z.eqb_eq in Hc as ->. cbn in Hm. injection Hm as <- _. constructor.
      * unfold drop_cr in *. destruct m as [|x m]; [by rewrite bool_decide_eq_false_2 by (cbn; congruence); constructor|].
        change (last (c :: x :: m)) with (last (x :: m)). destruct (bool_decide _); by constructor.
Qed.

Lemma drop_crlf_rev_snoc l : Forall (λ c, c ≠ 10) l → Forall (λ c, c ≠ 13) (drop_cr l) →
  rstrip_crlf l = drop_cr l ∧ rstrip_crlf (l ++ [10]) = drop_cr l.
Proof.
  intros Hn Hr. assert (rstrip_crlf l = drop_cr l) as Hl.
  { unfold rstrip_crlf, drop_cr in *. destruct l as [|c l _] using rev_ind; [done|].
    rewrite last_snoc, removelast_last in *. rewrite rev_app_distr. cbn [rev app drop_crlf_rev].
    apply Forall_app in Hn as [Hn Hc]. apply Forall_cons in Hc as [Hc _]. rewrite (proj2 (Z.eqb_neq c 10) Hc). cbn [orb].
    destruct (Z.eqb_spec c 13) as [->|Hc13].
    - rewrite bool_decide_eq_true_2 in * by done. destruct l as [|d l _] using rev_ind; [done|].
      rewrite rev_app_distr. cbn [rev app drop_crlf_rev]. apply Forall_app in Hn as [_ Hd]. apply Forall_cons in Hd as [Hd _].
      apply Forall_app in Hr as [_ Hd']. apply Forall_cons in Hd' as [Hd' _].
      rewrite (proj2 (Z.eqb_neq d 10) Hd), (proj2 (Z.eqb_neq d 13) Hd'). cbn [orb rev]. by rewrite rev_involutive.
    - rewrite bool_decide_eq_false_2 by congruence. cbn [rev]. by rewrite rev_involutive. }
  split; [done|]. rewrite <-Hl. unfold rstrip_crlf. by rewrite rev_app_distr.
Qed.

(** ** Positions and offsets *)

(** Position [(n, units)] of the server is the [i]-th character of line [n]. *)
Definition denotes (t : text) (enc : PositionEncoding) (p : DocumentPosition) (offset : nat) : Prop :=
  ∃ n l i, p_line p = Z.of_nat n ∧ split_newlines t !! n = Some l ∧ (i <= length (drop_cr l))%nat ∧
    p_character p = _offset_for_index (drop_cr l) i enc ∧ offset = (line_start t n + i)%nat.

Lemma line_text_iff t line l : _line_text t line = Ok l ↔
  ∃ n m, line = Z.of_nat n ∧ split_newlines t !! n = Some m ∧ l = drop_cr m.
Proof.
  unfold _line_text. destruct (Z.ltb_spec line 0) as [Hneg|Hpos].
  - split; [done|]. intros (n & m & -> & _). lia.
  - destruct (split_newlines t !! Z.to_nat line) as [m|] eqn:Hm; split.
    + intros [= <-]. exists (Z.to_nat line), m. rewrite Z2Nat.id by lia. done.
    + intros (n & m' & -> & Hn & ->). rewrite Nat2Z.id in Hm. by simplify_eq.
    + done.
    + intros (n & m' & -> & Hn & ->). rewrite Nat2Z.id in Hm. by simplify_eq.
Qed.

Lemma position_from_server_iff t p enc q : position_from_server t p enc = Ok q ↔
  ∃ n l i, p_line p = Z.of_nat n ∧ split_newlines t !! n = Some l ∧ (i <= length (drop_cr l))%nat ∧
    p_character p = _offset_for_index (drop_cr l) i enc ∧
    q = {| p_line := Z.of_nat n; p_character := _offset_for_index (drop_cr l) i utf_16 |}.
Proof.
  unfold position_from_server. split.
  - destruct (_line_text t (p_line p)) as [m|] eqn:Hm; cbn [mbind result_bind]; [|done].
    destruct (_index_from_units m (p_character p) enc) as [i|] eqn:Hi; cbn [mbind result_bind]; [|done]. intros [= <-].
    apply line_text_iff in Hm as (n & l & Hn & Hl & ->). apply index_from_units_iff in Hi as [Hi Hc].
    exists n, l, i. by rewrite Hn.
  - intros (n & l & i & Hn & Hl & Hi & Hc & ->).
    rewrite (proj2 (line_text_iff t (p_line p) (drop_cr l))) by eauto. cbn [mbind result_bind].
    rewrite (proj2 (index_from_units_iff _ _ enc i)) by done. cbn [mbind result_bind]. by rewrite Hn.
Qed.

(** The offset in the text of a position in UTF-16 units. *)
Lemma text_offset_plain t n l i : plain_lines t = true → split_newlines t !! n = Some l → (i <= length (drop_cr l))%nat →
  text_offset_from_position t {| p_line := Z.of_nat n; p_character := _offset_for_index (drop_cr l) i utf_16 |} =
    Ok (line_start t n + i)%nat.
Proof.
  intros Ht Hl Hi. unfold text_offset_from_position. cbv zeta. fold (lines_of t). rewrite (lines_of_plain t Ht). cbn [p_line p_character].
  destruct (Z.ltb_spec (Z.of_nat n) 0); [lia|]. rewrite Nat2Z.id.
  destruct (end_lines_lookup _ _ _ Hl) as [Hraw Htake]. rewrite Htake. fold (line_start t n).
  destruct (drop_crlf_rev_snoc l) as [H1 H2].
  { pose proof (split_newlines_spec t) as Hs. rewrite Forall_forall in Hs. apply Hs. by eapply list_elem_of_lookup_2. }
  { eapply plain_no_cr; [done|]. by eapply list_elem_of_lookup_2. }
  destruct Hraw as [-> | ->]; rewrite ?H1, ?H2; by rewrite (proj2 (index_from_units_iff _ _ utf_16 i)).
Qed.

Lemma position_offset_iff t enc p offset : plain_lines t = true →
  (q ← position_from_server t p enc; text_offset_from_position t q) = Ok offset ↔ denotes t enc p offset.
Proof.
  intros Ht. split.
  - destruct (position_from_server t p enc) as [q|] eqn:Hq; cbn [mbind result_bind]; [|done].
    apply position_from_server_iff in Hq as (n & l & i & Hn & Hl & Hi & Hc & ->).
    rewrite (text_offset_plain t n l i Ht Hl Hi). intros [= <-]. by exists n, l, i.
  - intros (n & l & i & Hn & Hl & Hi & Hc & ->).
    rewrite (proj2 (position_from_server_iff t p enc _)) by by exists n, l, i. cbn [mbind result_bind].
    by apply text_offset_plain.
Qed.

(** C25: in a text whose line ends are [\n] and [\r\n], the code maps a position of the
    server to an offset exactly when the position denotes one (a line of the text and
    a character boundary of its content, counted in the server's units), and then to
    the offset it denotes; converted back, it is the position the server sent. *)
Theorem server_positions_exact t enc p : plain_lines t = true →
  (∀ offset, (q ← position_from_server t p enc; text_offset_from_position t q) = Ok offset ↔ denotes t enc p offset) ∧
  (∀ q, position_from_server t p enc = Ok q → position_to_server t q enc = Ok p).
Proof.
  intros Ht. split; [intros offset; by apply position_offset_iff|].
  - intros q (n & l & i & Hn & Hl & Hi & Hc & ->)%position_from_server_iff. unfold position_to_server. cbn [p_line p_character].
    rewrite (proj2 (line_text_iff t (Z.of_nat n) (drop_cr l))) by eauto. cbn [mbind result_bind].
    rewrite (proj2 (index_from_units_iff _ _ utf_16 i)) by done. cbn [mbind result_bind]. rewrite <-Hc, <-Hn. by destruct p.
Qed.

Lemma server_positions_exact_witness :
  denotes (lit "ab" ++ [13; 10] ++ [128512] ++ lit "c") utf_8 {| p_line := 1; p_character := 4 |} 5%nat.
Proof.
  apply (proj1 (server_positions_exact (lit "ab" ++ [13; 10] ++ [128512] ++ lit "c") utf_8
    {| p_line := 1; p_character := 4 |} ltac:(vm_compute; reflexivity))). vm_compute. reflexivity.
Defined.

(** [splitlines] also cuts at a form feed (and at other separators), where the server
    does not: the second line of the server is then another place. *)
Example form_feed_shifts_lines :
  denotes [97; 12; 98; 10; 99] utf_16 {| p_line := 1; p_character := 0 |} 4%nat ∧
  (q ← position_from_server [97; 12; 98; 10; 99] {| p_line := 1; p_character := 0 |} utf_16;
   text_offset_from_position [97; 12; 98; 10; 99] q) = Ok 2%nat.
Proof. split; [exists 1%nat, [99], 0%nat; vm_compute; repeat split; lia|vm_compute; reflexivity]. Qed.
