(* ===== verification/WorkspaceEdit.v ===== *)
(** Workspace edits of a language server (travis/coding_agent/language_services/
    workspace_edit.py): their normalisation against the documents, the expiring tokens
    of previews and code actions, and the application of a preview to the files, with
    its restoration when something fails.

    The file system and the tracker are those of [Documents]; a symbolic link and the
    modes of directories are functions of the path, which an application does not
    change.  The parsing of URIs, the hash and the rendering of the diff are
    arguments. *)

From S2P Require Import Prelude PyDict PyFloat Utf8 PyText PyValue Documents.
From stdpp Require Import gmap.
Open Scope Z_scope.
Local Notation text := Utf8.text.

Inductive edit_error : Type :=
  | WorkspaceEditError (message : string)
  | UnicodeEncodeError
  | KeyError
  | TypeError.

Definition fail {A} (message : string) : result edit_error A := Err (WorkspaceEditError message).

(** [raise WorkspaceEditError(str(error)) from error] *)
Definition wrapped {A} (m : result document_error A) : result edit_error A :=
  match m with Ok a => Ok a | Err (ValueError message) => fail message end.

(** [src: travis/coding_agent/language_services/workspace_edit.py:32-41 PreparedFileEdit] *)
Record PreparedFileEdit : Type := {
  pf_path : path;
  pf_relative_path : string;
  pf_original_bytes : bytes;
  pf_target_bytes : bytes;
  pf_original_hash : string;
  pf_target_hash : string;
  pf_version : Z;
  pf_mode : Z
}.

(** [src: travis/coding_agent/language_services/workspace_edit.py:44-52 WorkspaceEditPreview] *)
Record WorkspaceEditPreview : Type := {
  pr_token : string;
  pr_files : list PreparedFileEdit;
  pr_diff : text;
  pr_server_generation : Z;
  pr_config_generation : Z;
  pr_created_at : float64;
  pr_source_path : option path
}.

(** [src: travis/coding_agent/language_services/workspace_edit.py:55-60 WorkspaceEditApplyReport] *)
Record WorkspaceEditApplyReport : Type := {
  rp_applied : bool;
  rp_changed : list string;
  rp_restored : list string;
  rp_unresolved : list string
}.

(** [src: travis/coding_agent/language_services/workspace_edit.py:63-70 ActionToken] *)
Record ActionToken : Type := {
  ac_token : string;
  ac_action : list (text * pv);
  ac_path : string;
  ac_server_generation : Z;
  ac_config_generation : Z;
  ac_created_at : float64
}.

(** ** Normalisation *)

(** [value.get(key)] of a dict. *)
Definition field (key : string) (d : list (text * pv)) : pv := default PNone (p_get key d).

(** [src: travis/coding_agent/language_services/workspace_edit.py:73-87 _position] *)
Definition _position (value : pv) : result edit_error DocumentPosition :=
  match value with
  | PDict d =>
      match field "line" d, field "character" d with
      | PInt line, PInt character =>
          if (line <? 0) || (character <? 0) then fail "workspace edit range position is invalid"
          else Ok {| p_line := line; p_character := character |}
      | _, _ => fail "workspace edit range position is invalid"
      end
  | _ => fail "workspace edit range position must be an object"
  end.

Section normalisation.
(** [urlparse(uri)]: scheme, host and path; [Path(unquote(path)).resolve()], [None]
    when it raises. *)
Variable urlparse : text → text * text * text.
Variable resolve_uri : text → option path.
Variable sha256 : bytes → string.
Variable workspace : path.

(** [src: travis/coding_agent/language_services/workspace_edit.py:90-102 _path_from_uri] *)
Definition _path_from_uri (uri : pv) : result edit_error path :=
  match uri with
  | PStr u =>
      let '(scheme, netloc, p) := urlparse u in
      if negb (bool_decide (scheme = lit "file")) || negb (bool_decide (netloc ∈ [lit ""; lit "localhost"]))
      then fail "workspace edit URI must be a file URI"
      else match resolve_uri p with
           | None => fail "workspace edit URI is invalid"
           | Some resolved => if within workspace resolved then Ok resolved
                              else fail "workspace edit path escapes the workspace"
           end
  | _ => fail "workspace edit URI must be a file URI"
  end.

Definition entry : Type := path * option Z * list pv.

(** [src: travis/coding_agent/language_services/workspace_edit.py:138-140 _document_entries]: The version of a text document: absent, or a number. *)
Definition document_version (version : pv) : result edit_error (option Z) :=
  match version with
  | PNone => Ok None
  | PInt v => if v <? 0 then fail "workspace edit document version is invalid" else Ok (Some v)
  | _ => fail "workspace edit document version is invalid"
  end.

(** [src: travis/coding_agent/language_services/workspace_edit.py:124-143 _document_entries]: The loop over [documentChanges]. *)
Fixpoint document_changes (seen : list path) (changes : list pv) : result edit_error (list entry) :=
  match changes with
  | [] => Ok []
  | PDict e :: rest =>
      if (match field "kind" e with PList _ | PDict _ => true | _ => false end) then Err TypeError
      else if existsb (λ k, bool_decide (field "kind" e = PStr (lit k))) ["create"; "rename"; "delete"]%string
      then fail "workspace edit resource operations are unsupported"
      else match field "textDocument" e, field "edits" e with
           | PDict text_document, PList raw_edits =>
               p ← _path_from_uri (field "uri" text_document);
               if bool_decide (p ∈ seen) then fail "workspace edit contains a duplicate document URI"
               else
                 version ← document_version (field "version" text_document);
                 entries ← document_changes (p :: seen) rest;
                 Ok ((p, version, raw_edits) :: entries)
           | _, _ => fail "workspace edit documentChanges entry is invalid"
           end
  | _ => fail "workspace edit documentChanges entries must be objects"
  end.

(** [src: travis/coding_agent/language_services/workspace_edit.py:105-143 _document_entries] *)
Definition _document_entries (edit : pv) : result edit_error (list entry) :=
  match edit with
  | PDict d =>
      match p_get "changes" d, p_get "documentChanges" d with
      | Some _, Some _ => fail "workspace edit cannot combine changes and documentChanges"
      | Some (PDict changes), None =>
          try_map (λ '(uri, raw_edits),
            match raw_edits with
            | PList l => p ← _path_from_uri (PStr uri); Ok (p, None, l)
            | _ => fail "workspace edit changes must contain edit lists"
            end) changes
      | Some _, None => fail "workspace edit changes must be an object"
      | None, Some (PList changes) => document_changes [] changes
      | None, _ => fail "workspace edit requires changes or documentChanges"
      end
  | _ => fail "workspace edit must be an object"
  end.

(** An edit of a text: from one offset to another, its place in the list, the new
    text. *)
Definition text_edit : Type := nat * nat * nat * text.
Definition te_start (e : text_edit) : nat := e.1.1.1.
Definition te_end (e : text_edit) : nat := e.1.1.2.
Definition te_new (e : text_edit) : text := e.2.

(** [src: travis/coding_agent/language_services/workspace_edit.py:185-185 _prepare_file]: [(item[0], item[1], item[2])], compared as tuples. *)
Definition edit_leb (a b : text_edit) : bool :=
  let '(s1, e1, i1, _) := a in
  let '(s2, e2, i2, _) := b in
  (s1 <? s2)%nat || ((s1 =? s2)%nat && ((e1 <? e2)%nat || ((e1 =? e2)%nat && (i1 <=? i2)%nat))).

(** [src: travis/coding_agent/language_services/workspace_edit.py:166-183 _prepare_file]: One turn of the loop that normalises the edits. *)
Definition normalize_edit (t : text) (encoding : PositionEncoding) (index : nat) (raw_edit : pv)
    : result edit_error text_edit :=
  match raw_edit with
  | PDict d =>
      match field "newText" d, field "range" d with
      | PStr new_text, PDict range =>
          server_start ← _position (field "start" range);
          server_end ← _position (field "end" range);
          stable_start ← wrapped (position_from_server t server_start encoding);
          stable_end ← wrapped (position_from_server t server_end encoding);
          start ← wrapped (text_offset_from_position t stable_start);
          finish ← wrapped (text_offset_from_position t stable_end);
          if (finish <? start)%nat then fail "workspace edit range end precedes its start"
          else Ok (start, finish, index, new_text)
      | PStr _, _ => fail "workspace edit range is invalid"
      | _, _ => fail "workspace edit text edit is invalid"
      end
  | _ => fail "workspace edit text edit is invalid"
  end.

(** [src: travis/coding_agent/language_services/workspace_edit.py:186-192 _prepare_file]: [for start, end, _index, _text in ordered]: [previous_start] is [None] for -1. *)
Fixpoint check_order (previous : option (nat * nat)) (ordered : list text_edit) : result edit_error unit :=
  match ordered with
  | [] => Ok tt
  | (start, finish, _, _) :: rest =>
      let overlaps :=
        match previous with
        | None => false
        | Some (previous_start, previous_end) =>
            (start <? previous_end)%nat ||
            ((previous_start =? start)%nat && negb (previous_end =? previous_start)%nat && negb (finish =? start)%nat)
        end in
      if overlaps then fail "workspace edit ranges overlap"
      else check_order (Some (start, match previous with Some (_, e) => Nat.max e finish | None => finish end)) rest
  end.

(** [src: travis/coding_agent/language_services/workspace_edit.py:195-197 _prepare_file]: [target[:start] + new_text + target[end:]] *)
Definition apply_edit (target : text) (e : text_edit) : text :=
  take (te_start e) target ++ te_new e ++ drop (te_end e) target.

(** [src: travis/coding_agent/language_services/workspace_edit.py:165-197 _prepare_file]: The edited text. *)
Definition edited_text (t : text) (encoding : PositionEncoding) (raw_edits : list pv) : result edit_error text :=
  normalized ← try_map (λ p, normalize_edit t encoding p.1 p.2) (imap pair raw_edits);
  let ordered := py_sorted edit_leb normalized in
  _ ← check_order None ordered;
  Ok (fold_left apply_edit (rev ordered) t).

(** [p.relative_to(workspace).as_posix()] *)
Definition relative_path (p : path) : string := String.concat "/" (drop (length workspace) p).

(** [src: travis/coding_agent/language_services/workspace_edit.py:146-209 _prepare_file] *)
Definition _prepare_file (fs : Files) (encoding : PositionEncoding) (e : entry)
    : st DocumentTracker edit_error PreparedFileEdit :=
  let '(p, expected_version, raw_edits) := e in
  s ← (λ tr, match open_resolved sha256 fs p tr with
             | (Ok s, tr') => (Ok s, tr')
             | (Err (ValueError m), tr') =>
                 (Err (WorkspaceEditError (if str_contains "regular file" m
                    then "workspace edit target must be an existing regular file" else m)), tr')
             end);
  _ ← st_require (match expected_version with Some v => bool_decide (v = d_version s) | None => true end)
        (WorkspaceEditError "workspace edit document version does not match the open document");
  target ← st_lift (edited_text (d_text s) encoding raw_edits);
  _ ← st_require (forallb scalar target) UnicodeEncodeError;
  let target_bytes := Utf8.encode target in
  mret {| pf_path := d_path s; pf_relative_path := relative_path (d_path s);
          pf_original_bytes := Utf8.encode (d_text s); pf_target_bytes := target_bytes;
          pf_original_hash := d_sha256 s; pf_target_hash := sha256 target_bytes; pf_version := d_version s;
          pf_mode := match fs !! d_path s with Some node => n_mode node | None => 0 end |}.

(** [src: travis/coding_agent/language_services/workspace_edit.py:290-300 WorkspaceEditPreviewStore.create] *)
Fixpoint prepare_files (fs : Files) (encoding : PositionEncoding) (entries : list entry)
    : st DocumentTracker edit_error (list PreparedFileEdit) :=
  match entries with
  | [] => mret []
  | e :: rest => f ← _prepare_file fs encoding e; fs' ← prepare_files fs encoding rest; mret (f :: fs')
  end.

(** ** Tokens *)

(** [src: travis/coding_agent/language_services/types.py:69-81 LanguageServiceLimits]: the
    limits of this module. *)
Record LanguageServiceLimits : Type := {
  max_apply_original_bytes : Z;
  token_ttl_seconds : float64;
  max_preview_tokens : Z;
  max_action_tokens : Z
}.

Variable limits : LanguageServiceLimits.

(** [src: travis/coding_agent/language_services/workspace_edit.py:317-318 WorkspaceEditPreviewStore.create]: [while len(d) > maximum: d.popitem(last=False)] *)
Fixpoint evict {A} (maximum : Z) (d : list A) : result edit_error (list A) :=
  match d with
  | [] => if maximum <? 0 then Err KeyError else Ok []
  | _ :: rest => if maximum <? Z.of_nat (length d) then evict maximum rest else Ok d
  end.

(** [src: travis/coding_agent/language_services/workspace_edit.py:331-333 WorkspaceEditPreviewStore.get]: [self.clock() - created_at > self.limits.token_ttl_seconds] *)
Definition expired (now created_at : float64) : bool := fl_ltb (token_ttl_seconds limits) (fl_sub now created_at).

Definition previews : Type := list (string * WorkspaceEditPreview).

(** [src: travis/coding_agent/language_services/workspace_edit.py:301-315 WorkspaceEditPreviewStore.create]: The preview that [create] makes; the diff is rendered from the sorted files. *)
Definition make_preview (render_diff : list PreparedFileEdit → text) (token : string) (now : float64)
    (server_generation config_generation : Z) (source_path : option path) (files : list PreparedFileEdit)
    : WorkspaceEditPreview :=
  let files := py_sorted (λ a b, String.leb (pf_relative_path a) (pf_relative_path b)) files in
  {| pr_token := token; pr_files := files; pr_diff := render_diff files; pr_server_generation := server_generation;
     pr_config_generation := config_generation; pr_created_at := now; pr_source_path := source_path |}.

(** [src: travis/coding_agent/language_services/workspace_edit.py:279-319 WorkspaceEditPreviewStore.create] *)
Definition create (render_diff : list PreparedFileEdit → text) (fs : Files) (edit : pv) (encoding : PositionEncoding)
    (server_generation config_generation : Z) (source_path : option path) (token : string) (now : float64)
    : st (DocumentTracker * previews) edit_error WorkspaceEditPreview :=
  entries ← st_lift (_document_entries edit);
  files ← (λ s, let '(r, tr) := prepare_files fs encoding entries s.1 in (r, (tr, s.2)));
  let preview := make_preview render_diff token now server_generation config_generation source_path files in
  s ← st_get;
  kept ← st_lift (evict (max_preview_tokens limits) (od_set token preview s.2));
  _ ← st_put (s.1, kept);
  mret preview.

(** [src: travis/coding_agent/language_services/workspace_edit.py:321-342 WorkspaceEditPreviewStore.get] *)
Definition get (token : string) (server_generation config_generation : option Z) (now : float64)
    : st previews edit_error WorkspaceEditPreview :=
  d ← st_get;
  match od_get token d with
  | None => mthrow (WorkspaceEditError "unknown workspace edit preview token")
  | Some preview =>
      if expired now (pr_created_at preview) then
        _ ← st_put (od_del token d);
        mthrow (WorkspaceEditError "workspace edit preview token expired")
      else if (match server_generation with Some g => negb (bool_decide (pr_server_generation preview = g)) | None => false end)
           || (match config_generation with Some g => negb (bool_decide (pr_config_generation preview = g)) | None => false end)
      then mthrow (WorkspaceEditError "workspace edit preview generation is stale")
      else mret preview
  end.

(** [src: travis/coding_agent/language_services/workspace_edit.py:344-347 WorkspaceEditPreviewStore.consume] *)
Definition consume (token : string) (now : float64) : st previews edit_error WorkspaceEditPreview :=
  preview ← get token None None now; _ ← st_modify (od_del token); mret preview.
End normalisation.

(** ** Application *)

(** What one call of [write_bytes] does: the file is replaced; or it raises, having
    left the file alone, or anything else in its place (no file at all, or other
    bytes). *)
Inductive write_outcome : Type :=
  | WriteOk
  | WriteFails (left : option (option bytes)).

(** What the application reads from outside, by the number of the reading: the signal,
    the outcome of a write, whether a file can be read. *)
Record Environment : Type := {
  env_aborted : nat → bool;
  env_write : nat → write_outcome;
  env_readable : nat → bool
}.

Record Run : Type := {
  r_previews : previews;
  r_files : Files;
  r_aborts : nat;
  r_writes : nat;
  r_reads : nat
}.

Definition run (A : Type) : Type := st Run edit_error A.

Definition with_files (f : Files → Files) (r : Run) : Run :=
  {| r_previews := r_previews r; r_files := f (r_files r); r_aborts := r_aborts r; r_writes := r_writes r;
     r_reads := r_reads r |}.

(** A call of the preview store. *)
Definition on_previews {A} (m : st previews edit_error A) : run A := λ r,
  let '(a, d) := m (r_previews r) in
  (a, {| r_previews := d; r_files := r_files r; r_aborts := r_aborts r; r_writes := r_writes r; r_reads := r_reads r |}).

(** A file with the bytes and the mode found at staging. *)
Definition staged : Type := PreparedFileEdit * bytes * Z.
Definition sg_file (s : staged) : PreparedFileEdit := s.1.1.
Definition sg_original (s : staged) : bytes := s.1.2.
Definition sg_mode (s : staged) : Z := s.2.

Section application.
Variable sha256 : bytes → string.
Variable workspace : path.
Variable limits : LanguageServiceLimits.
(** [path.is_symlink()], [path.resolve(strict=True)] ([None] when it raises), and
    the mode of the directory of a path. *)
Variable is_symlink : path → bool.
Variable resolve_strict : path → option path.
Variable parent_mode : path → Z.
Variable env : Environment.

(** [bool(getattr(signal, "aborted", False))] *)
Definition read_aborted : run bool := λ r,
  (Ok (env_aborted env (r_aborts r)),
   {| r_previews := r_previews r; r_files := r_files r; r_aborts := S (r_aborts r); r_writes := r_writes r;
      r_reads := r_reads r |}).

(** [src: travis/coding_agent/language_services/workspace_edit.py:384-385 WorkspaceEditPreviewStore.apply]: [write_bytes(path, content, mode=mode)]: whether it returned. *)
Definition write_bytes (p : path) (content : bytes) (mode : Z) : run bool := λ r,
  let outcome := env_write env (r_writes r) in
  let r := {| r_previews := r_previews r; r_files := r_files r; r_aborts := r_aborts r; r_writes := S (r_writes r);
              r_reads := r_reads r |} in
  match outcome with
  | WriteOk => (Ok true, with_files <[p := {| n_bytes := content; n_mode := mode |}]> r)
  | WriteFails None => (Ok false, r)
  | WriteFails (Some None) => (Ok false, with_files (delete p) r)
  | WriteFails (Some (Some other)) => (Ok false, with_files <[p := {| n_bytes := other; n_mode := mode |}]> r)
  end.

(** [src: travis/coding_agent/language_services/workspace_edit.py:386-389 WorkspaceEditPreviewStore.apply]: [hashlib.sha256(path.read_bytes()).hexdigest()], or the word for a file that cannot
    be read. *)
Definition current_hash (p : path) : run string := λ r,
  let readable := env_readable env (r_reads r) in
  (Ok (match r_files r !! p with
       | Some node => if readable then sha256 (n_bytes node) else "unreadable"
       | None => "unreadable"
       end)%string,
   {| r_previews := r_previews r; r_files := r_files r; r_aborts := r_aborts r; r_writes := r_writes r;
      r_reads := S (r_reads r) |}).

(** [mode & 0o222] *)
Definition writable (mode : Z) : bool := negb (Z.land mode 146 =? 0).

(** [src: travis/coding_agent/language_services/workspace_edit.py:226-263 _stage_preview_files]:
    the loop, with the total so far. *)
Fixpoint _stage_preview_files (files : list PreparedFileEdit) (total : Z) : run (list staged) :=
  match files with
  | [] => mret []
  | file :: rest =>
      a ← read_aborted;
      _ ← st_require (negb a) (WorkspaceEditError "workspace edit apply was aborted before mutation");
      _ ← st_require (negb (is_symlink (pf_path file)))
            (WorkspaceEditError "workspace edit containment changed after preview (symlink)");
      match resolve_strict (pf_path file) with
      | None => mthrow (WorkspaceEditError "workspace edit target must remain an existing regular file")
      | Some resolved =>
          _ ← st_require (bool_decide (resolved = pf_path file) && within workspace resolved)
                (WorkspaceEditError "workspace edit containment changed after preview");
          r ← st_get;
          match r_files r !! resolved with
          | None => mthrow (WorkspaceEditError "workspace edit target must remain an existing regular file")
          | Some node =>
              _ ← st_require (writable (n_mode node) && writable (parent_mode resolved))
                    (WorkspaceEditError "workspace edit target and parent must be writable");
              let current := n_bytes node in
              _ ← st_require (bool_decide (sha256 current = pf_original_hash file))
                    (WorkspaceEditError "workspace edit target changed since preview");
              let total := total + Z.of_nat (length current) in
              _ ← st_require (total <=? max_apply_original_bytes limits)
                    (WorkspaceEditError "workspace edit original bytes exceed the apply limit");
              staged ← _stage_preview_files rest total;
              mret ((file, current, n_mode node) :: staged)
          end
      end
  end.

(** [src: travis/coding_agent/language_services/workspace_edit.py:378-396 WorkspaceEditPreviewStore.apply]: The writes: whether all were done, and the files that were changed. *)
Fixpoint write_files (files changed : list staged) : run (bool * list staged) :=
  match files with
  | [] => mret (true, changed)
  | s :: rest =>
      let file := sg_file s in
      if bool_decide (pf_target_bytes file = sg_original s) then write_files rest changed
      else
        a ← read_aborted;
        if (a : bool) then mret (false, changed)
        else
          written ← write_bytes (pf_path file) (pf_target_bytes file) (sg_mode s);
          if (written : bool) then
            a ← read_aborted;
            if (a : bool) then mret (false, changed ++ [s]) else write_files rest (changed ++ [s])
          else
            h ← current_hash (pf_path file);
            mret (false, if bool_decide (h ≠ pf_original_hash file) then changed ++ [s] else changed)
  end.

(** [src: travis/coding_agent/language_services/workspace_edit.py:404-411 WorkspaceEditPreviewStore.apply]: The restoration, over the changed files reversed: those restored, and those that
    could not be. *)
Fixpoint restore_files (files : list staged) : run (list string * list string) :=
  match files with
  | [] => mret ([], [])
  | s :: rest =>
      written ← write_bytes (pf_path (sg_file s)) (sg_original s) (sg_mode s);
      '(restored, unresolved) ← restore_files rest;
      mret (if (written : bool) then (pf_relative_path (sg_file s) :: restored, unresolved)
            else (restored, pf_relative_path (sg_file s) :: unresolved))
  end.

(** [src: travis/coding_agent/language_services/workspace_edit.py:349-422 WorkspaceEditPreviewStore.apply]:
    the call holds the queues of the files from the staging on; [now] and [now'] are
    the two readings of the clock. *)
Definition apply (token : string) (server_generation config_generation : Z) (now now' : float64)
    : run WorkspaceEditApplyReport :=
  preview ← on_previews (get limits token (Some server_generation) (Some config_generation) now);
  a ← read_aborted;
  _ ← st_require (negb a) (WorkspaceEditError "workspace edit apply was aborted before locking");
  staged ← _stage_preview_files (pr_files preview) 0;
  a ← read_aborted;
  _ ← st_require (negb a) (WorkspaceEditError "workspace edit apply was aborted before mutation");
  _ ← on_previews (consume limits token now');
  '(done, changed) ← write_files staged [];
  let names := map (λ s, pf_relative_path (sg_file s)) changed in
  if (done : bool) then mret {| rp_applied := true; rp_changed := names; rp_restored := []; rp_unresolved := [] |}
  else
    '(restored, unresolved) ← restore_files (rev changed);
    mret {| rp_applied := false; rp_changed := names; rp_restored := restored; rp_unresolved := unresolved |}.

(** ** Code actions *)

Definition actions : Type := list (string * ActionToken).

(** [src: travis/coding_agent/language_services/workspace_edit.py:436-455 ActionTokenStore.create] *)
Definition create_action (action : list (text * pv)) (p : string) (server_generation config_generation : Z)
    (token : string) (now : float64) : st actions edit_error ActionToken :=
  let value := {| ac_token := token; ac_action := action; ac_path := p; ac_server_generation := server_generation;
                  ac_config_generation := config_generation; ac_created_at := now |} in
  d ← st_get;
  kept ← st_lift (evict (max_action_tokens limits) (od_set token value d));
  _ ← st_put kept;
  mret value.

(** [src: travis/coding_agent/language_services/workspace_edit.py:477-484 ActionTokenStore.peek] *)
Definition peek (token : string) (now : float64) : st actions edit_error ActionToken :=
  d ← st_get;
  match od_get token d with
  | None => mthrow (WorkspaceEditError "unknown code-action token")
  | Some value =>
      if expired limits now (ac_created_at value) then
        _ ← st_put (od_del token d);
        mthrow (WorkspaceEditError "code-action token expired")
      else mret value
  end.

(** [src: travis/coding_agent/language_services/workspace_edit.py:457-475 ActionTokenStore.resolve] *)
Definition resolve_action (token : string) (server_generation config_generation : Z) (now : float64)
    : st actions edit_error ActionToken :=
  value ← peek token now;
  if negb (bool_decide (ac_server_generation value = server_generation))
     || negb (bool_decide (ac_config_generation value = config_generation))
  then mthrow (WorkspaceEditError "code-action token generation is stale")
  else mret value.

(** [src: travis/coding_agent/language_services/workspace_edit.py:486-493 ActionTokenStore.consume] *)
Definition consume_action (token : string) (server_generation config_generation : Z) (now : float64)
    : st actions edit_error ActionToken :=
  value ← resolve_action token server_generation config_generation now;
  _ ← st_modify (od_del token);
  mret value.
End application.
