(* ===== verification/WorkspaceEditSpec.v ===== *)
(** Properties of the texts of workspace edits: the edits of a file replace disjoint
    pieces at the places the server named, all at once. *)

From S2P Require Import Prelude PyDict PyFloat Utf8 PyText PyValue EditDiff EditDiffSpec Documents DocumentsSpec WorkspaceEdit.
From stdpp Require Import gmap.
Open Scope Z_scope.
Local Notation text := Utf8.text.

(** ** Offsets are within the text *)

Lemma concat_keep t : concat (split_lines_keep t) = t.
Proof.
  remember (length t) as n eqn:Hn. revert t Hn. induction n as [n IH] using lt_wf_ind. intros t ->.
  destruct t as [|c t]; [done|]. cbn [split_lines_keep].
  assert (concat (split_lines_keep t) = t) as Ht by (apply (IH (length t)); [cbn; lia|done]).
  destruct (is_line_break c).
  - destruct t as [|d t]; [done|]. destruct (_ && _); cbn [concat app]; [|by rewrite Ht].
    rewrite (IH (length t)); [done|cbn; lia|done].
  - destruct (split_lines_keep t) as [|l ls]; cbn in *; by rewrite <-Ht.
Qed.

Lemma rstrip_crlf_length t : (length (rstrip_crlf t) <= length t)%nat.
Proof.
  unfold rstrip_crlf. rewrite length_rev, <-(length_rev t). induction (rev t) as [|c l IH]; cbn; [done|].
  destruct (_ || _); cbn; lia.
Qed.

Lemma text_offset_bound t p i : text_offset_from_position t p = Ok i → (i <= length t)%nat.
Proof.
  unfold text_offset_from_position. cbv zeta. fold (lines_of t).
  destruct (p_line p <? 0); [done|]. destruct (lines_of t !! Z.to_nat (p_line p)) as [raw|] eqn:Hl; [|done].
  destruct (_index_from_units _ _ _) as [k|] eqn:Hk; cbn [mbind result_bind]; [|done]. intros [= <-].
  apply index_from_units_iff in Hk as [Hk _]. pose proof (rstrip_crlf_length raw).
  assert (concat (lines_of t) = t) as Hc.
  { unfold lines_of. rewrite concat_app, concat_keep. destruct (bool_decide _); cbn; apply app_nil_r. }
  assert (length t = length (concat (take (Z.to_nat (p_line p)) (lines_of t) ++ raw :: drop (S (Z.to_nat (p_line p))) (lines_of t))))
    as -> by by rewrite take_drop_middle, Hc.
  rewrite concat_app. cbn [concat]. rewrite !length_app. unfold line_start. lia.
Qed.

(** ** Edits of a text *)

Definition te_index (e : text_edit) : nat := e.1.2.

Definition to_match (e : text_edit) : match_entry :=
  {| me_edit_index := te_index e; me_match_index := te_start e; me_match_length := te_end e - te_start e;
     me_new_text := te_new e |}.

Lemma apply_edit_match t e : (te_start e <= te_end e)%nat → apply_edit t e = replace_match t (to_match e).
Proof.
  intros H. unfold apply_edit, replace_match, to_match. cbn.
  by replace (te_start e + (te_end e - te_start e))%nat with (te_end e) by lia.
Qed.

(** An edit that lies within the text. *)
Definition edit_ok (t : text) (e : text_edit) : Prop := (te_start e <= te_end e)%nat ∧ (te_end e <= length t)%nat.

(** The parts of an edit as the server sends it. *)
Definition names (raw : pv) (start finish : DocumentPosition) (new_text : text) : Prop :=
  ∃ d range, raw = PDict d ∧ field "newText" d = PStr new_text ∧ field "range" d = PDict range ∧
    _position (field "start" range) = Ok start ∧ _position (field "end" range) = Ok finish.

(** What the server asks for: the new text for the piece between two offsets. *)
Definition change : Type := nat * nat * text.

Definition sends (t : text) (enc : PositionEncoding) (raw : pv) (c : change) : Prop :=
  ∃ p q, names raw p q c.2 ∧ denotes t enc p c.1.1 ∧ denotes t enc q c.1.2 ∧ (c.1.1 <= c.1.2)%nat.

Definition disjoint (a b : nat * nat) : Prop := (a.2 <= b.1 ∨ b.2 <= a.1)%nat.

Definition pairwise_disjoint (cs : list change) : Prop :=
  ForallOrdPairs (λ a b, disjoint a.1 b.1) cs.

Definition numbered (i : nat) (c : change) : text_edit := (c.1.1, c.1.2, i, c.2).

(** The changes from left to right; those at one place in the order of the list. *)
Definition left_to_right (cs : list change) : list text_edit := py_sorted edit_leb (imap numbered cs).

(** The text between the edits. *)
Fixpoint gaps_between (p : nat) (t : text) (es : list text_edit) : list text :=
  match es with
  | [] => [drop p t]
  | e :: es => take (te_start e - p) (drop p t) :: gaps_between (te_end e) t es
  end.

(** All the changes at once: the text between them is kept, every piece replaced. *)
Definition replace_at_once (t : text) (cs : list change) : text :=
  weave (gaps_between 0 t (left_to_right cs)) (map te_new (left_to_right cs)).

Lemma wrapped_ok {A} (m : result document_error A) a : wrapped m = Ok a ↔ m = Ok a.
Proof. destruct m as [|[]]; cbn; split; intros [= ->]; done. Qed.

Lemma normalize_edit_iff t enc i raw e : plain_lines t = true →
  normalize_edit t enc i raw = Ok e ↔ ∃ c, sends t enc raw c ∧ e = numbered i c.
Proof.
  intros Ht. split.
  - unfold normalize_edit. destruct raw as [| | | | | |d]; try done.
    destruct (field "newText" d) as [| | | |new| |] eqn:Hnew; try done. destruct (field "range" d) as [| | | | | |range] eqn:Hrange; try done.
    destruct (_position (field "start" range)) as [p|] eqn:Hp; cbn [mbind result_bind]; [|done].
    destruct (_position (field "end" range)) as [q|] eqn:Hq; cbn [mbind result_bind]; [|done].
    destruct (wrapped (position_from_server t p enc)) as [p'|] eqn:Hp'; cbn [mbind result_bind]; [|done].
    destruct (wrapped (position_from_server t q enc)) as [q'|] eqn:Hq'; cbn [mbind result_bind]; [|done].
    destruct (wrapped (text_offset_from_position t p')) as [b|] eqn:Hb; cbn [mbind result_bind]; [|done].
    destruct (wrapped (text_offset_from_position t q')) as [f|] eqn:Hf; cbn [mbind result_bind]; [|done].
    apply wrapped_ok in Hp', Hq', Hb, Hf. destruct (Nat.ltb_spec f b); [done|]. intros [= <-].
    exists (b, f, new). split; [|done]. exists p, q. split; [by exists d, range|].
    split_and!; [| |done]; apply (position_offset_iff t enc); try done; rewrite ?Hp', ?Hq'; done.
  - intros (c & (p & q & (d & range & -> & Hnew & Hrange & Hp & Hq) & Hb & Hf & Hle) & ->).
    apply (position_offset_iff t enc) in Hb, Hf; [|done..].
    destruct (position_from_server t p enc) as [p'|] eqn:Hp'; cbn [mbind result_bind] in Hb; [|done].
    destruct (position_from_server t q enc) as [q'|] eqn:Hq'; cbn [mbind result_bind] in Hf; [|done].
    unfold normalize_edit. rewrite Hnew, Hrange, Hp. cbn [mbind result_bind]. rewrite Hq. cbn [mbind result_bind].
    rewrite Hp', Hq'. cbn [wrapped mbind result_bind]. rewrite Hb. cbn [wrapped mbind result_bind]. rewrite Hf.
    cbn [wrapped mbind result_bind]. destruct (Nat.ltb_spec c.1.2 c.1.1); [lia|]. done.
Qed.

Lemma sends_within t enc raw c : plain_lines t = true → sends t enc raw c → edit_ok t (numbered 0 c).
Proof.
  intros Ht (p & q & _ & _ & Hf & Hle). split; [done|]. apply (position_offset_iff t enc) in Hf; [|done].
  destruct (position_from_server t q enc) as [q'|]; cbn [mbind result_bind] in Hf; [|done]. by apply text_offset_bound in Hf.
Qed.

Lemma normalized_iff t enc raws es : plain_lines t = true → ∀ k,
  try_map (λ p, normalize_edit t enc p.1 p.2) (imap (λ i, pair (k + i)%nat) raws) = Ok es ↔
  ∃ cs, Forall2 (sends t enc) raws cs ∧ es = imap (λ i, numbered (k + i)%nat) cs.
Proof.
  intros Ht k. rewrite try_map_forall2. revert k es. induction raws as [|raw raws IH]; intros k es; cbn [imap].
  - split.
    + intros H. inversion H. by exists [].
    + intros (cs & H & ->). inversion H. constructor.
  - split.
    + intros (e & es' & He & Hes & ->)%Forall2_cons_inv_l. cbn [fst snd] in He. apply normalize_edit_iff in He as (c & Hc & ->); [|done].
      rewrite (imap_ext _ (λ i, pair (S k + i)%nat)) in Hes by (intros; cbn; f_equal; lia).
      apply IH in Hes as (cs & Hcs & ->). exists (c :: cs). split; [by constructor|]. cbn [imap]. f_equal.
      apply imap_ext. intros; cbn; f_equal; lia.
    + intros (all & (c & cs & Hc & Hcs & ->)%Forall2_cons_inv_l & ->). cbn [imap]. constructor.
      * apply normalize_edit_iff; [done|]. by exists c.
      * rewrite (imap_ext _ (λ i, pair (S k + i)%nat)) by (intros; cbn; f_equal; lia). apply IH. exists cs. split; [done|].
        apply imap_ext. intros; cbn; f_equal; lia.
Qed.

Lemma edit_leb_iff a b : edit_leb a b = true ↔
  (te_start a < te_start b ∨ te_start a = te_start b ∧ (te_end a < te_end b ∨ te_end a = te_end b ∧ te_index a <= te_index b))%nat.
Proof.
  destruct a as [[[s1 e1] i1] n1], b as [[[s2 e2] i2] n2]. unfold edit_leb, te_start, te_end, te_index. cbn [fst snd].
  by rewrite !orb_true_iff, !andb_true_iff, !orb_true_iff, !andb_true_iff, !Nat.ltb_lt, !Nat.eqb_eq, Nat.leb_le.
Qed.

Lemma edit_leb_total a b : edit_leb a b = true ∨ edit_leb b a = true.
Proof. rewrite !edit_leb_iff. lia. Qed.

Lemma edit_leb_trans a b c : edit_leb a b = true → edit_leb b c = true → edit_leb a c = true.
Proof. rewrite !edit_leb_iff. lia. Qed.

(** *** The order and the check *)

Definition extent (e : text_edit) : nat * nat := (te_start e, te_end e).

Fixpoint sequential (p : nat) (es : list text_edit) : Prop :=
  match es with [] => True | e :: es => (p <= te_start e)%nat ∧ sequential (te_end e) es end.

Lemma check_order_iff es : Forall (λ e, te_start e <= te_end e)%nat es → ∀ previous,
  match previous with Some (s, e) => (s <= e)%nat | None => True end →
  check_order previous es = Ok tt ↔ sequential (match previous with Some (_, e) => e | None => 0 end) es.
Proof.
  induction 1 as [|[[[s f] i] new] es He _ IH]; intros previous Hp; cbn [check_order sequential]; [done|].
  unfold te_start, te_end in *. cbn [fst snd] in *.
  set (overlaps := match previous with Some _ => _ | None => _ end).
  assert (overlaps = false ↔ (match previous with Some (_, e) => e | None => 0 end <= s)%nat) as Ho.
  { unfold overlaps. destruct previous as [[ps pe]|]; [|split; [lia|done]].
    rewrite orb_false_iff, !andb_false_iff, !negb_false_iff, Nat.ltb_ge, !Nat.eqb_eq, Nat.eqb_neq. lia. }
  clearbody overlaps. destruct overlaps; [split; [done|]; intros [H _]; by apply Ho in H|].
  assert (match previous with Some (_, e) => e | None => 0 end <= s)%nat as Hs by by apply Ho.
  assert ((match previous with Some (_, e) => Nat.max e f | None => f end) = f) as ->
    by (destruct previous as [[ps pe]|]; lia).
  rewrite (IH (Some (s, f))) by done. split; [by split|by intros [_ H]].
Qed.

Lemma sequential_iff es : Forall (λ e, te_start e <= te_end e)%nat es → StronglySorted (λ a b, edit_leb a b = true) es →
  sequential 0 es ↔ ForallOrdPairs (λ a b, disjoint (extent a) (extent b)) es.
Proof.
  intros Hes Hs. enough (∀ p, Forall (λ e, p <= te_start e)%nat es →
    sequential p es ↔ ForallOrdPairs (λ a b, disjoint (extent a) (extent b)) es) as H
    by (apply H; apply Forall_forall; intros; lia).
  revert Hes. induction Hs as [|e es Hs IH Hle]; intros Hes p Hp; cbn [sequential]; [split; [constructor|done]|].
  apply Forall_cons in Hes as [He Hes], Hp as [Hp _]. specialize (IH Hes).
  assert (Forall (λ x, te_end e <= te_start x)%nat es ↔ Forall (λ x, disjoint (extent e) (extent x)) es) as Hhd.
  { rewrite !Forall_forall. split; intros H x Hx; specialize (H x Hx); [by left|].
    rewrite Forall_forall in Hle, Hes. specialize (Hle x Hx). specialize (Hes x Hx).
    apply edit_leb_iff in Hle. unfold disjoint, extent in H. cbn [fst snd] in H. lia. }
  split.
  - intros [_ H]. assert (Forall (λ x, te_end e <= te_start x)%nat es) as Hf.
    { clear - H Hes. revert H. generalize (te_end e) as q. induction Hes as [|x es Hx _ IH]; intros q; [constructor|].
      intros [Hq H]. constructor; [done|]. eapply Forall_impl; [by apply IH|]. cbn. intros. lia. }
    constructor; [by apply Hhd|by apply (IH (te_end e))].
  - intros H. inversion H as [|? ? Hd Hpairs]; subst. apply Hhd in Hd. split; [done|]. by apply IH.
Qed.

Lemma ord_pairs_perm {A} (R : A → A → Prop) l k : (∀ a b, R a b → R b a) → l ≡ₚ k → ForallOrdPairs R l → ForallOrdPairs R k.
Proof.
  intros HR. induction 1 as [|x l k Hp IH|x y l|l k m _ IH1 _ IH2]; intros H; [done| | |auto].
  - inversion H; subst. constructor; [by rewrite <-Hp|by apply IH].
  - inversion H as [|? ? Hy H']; subst. inversion H' as [|? ? Hx H'']; subst. inversion Hy; subst.
    constructor; [constructor; auto|constructor; auto].
Qed.

Lemma ord_pairs_numbered cs k :
  ForallOrdPairs (λ a b, disjoint (extent a) (extent b)) (imap (λ i, numbered (k + i)%nat) cs) ↔ pairwise_disjoint cs.
Proof.
  unfold pairwise_disjoint. revert k. induction cs as [|c cs IH]; intros k; cbn [imap]; [split; constructor|].
  assert (∀ R : text_edit → Prop, Forall R (imap (λ i, numbered (k + S i)%nat) cs) ↔
    ∀ i d, cs !! i = Some d → R (numbered (k + S i) d)) as HF.
  { intros R. rewrite Forall_lookup. split.
    - intros H i d Hi. apply (H i). by rewrite list_lookup_imap, Hi.
    - intros H i e. rewrite list_lookup_imap. destruct (cs !! i) as [d|] eqn:Hd; [|done]. intros [= <-]. by apply H. }
  split; intros H; inversion H as [|? ? Hd Hp]; subst; constructor.
  - apply Forall_lookup. intros i d Hi. exact (proj1 (HF _) Hd i d Hi).
  - apply (IH (S k)). erewrite imap_ext; [exact Hp|]. intros. cbn. f_equal. lia.
  - change (Forall (λ x, disjoint (extent (numbered (k + 0) c)) (extent x)) (imap (λ i, numbered (k + S i)%nat) cs)).
    apply HF. intros i d Hi. exact (Forall_lookup_1 _ _ _ _ Hd Hi).
  - apply (IH (S k)) in Hp. erewrite imap_ext; [exact Hp|]. intros. cbn. f_equal. lia.
Qed.

Lemma ordered_ok (P : text_edit → Prop) cs : (∀ i c, c ∈ cs → P (numbered i c)) → Forall P (left_to_right cs).
Proof.
  intros H. unfold left_to_right. rewrite py_sorted_perm. apply Forall_lookup. intros i e.
  rewrite list_lookup_imap. destruct (cs !! i) as [c|] eqn:Hc; [|done]. intros [= <-]. apply H. by apply list_elem_of_lookup_2 in Hc.
Qed.

(** The check accepts exactly disjoint changes. *)
Lemma check_order_disjoint cs : Forall (λ c, c.1.1 <= c.1.2)%nat cs →
  check_order None (left_to_right cs) = Ok tt ↔ pairwise_disjoint cs.
Proof.
  intros H. rewrite Forall_forall in H.
  assert (Forall (λ e, te_start e <= te_end e)%nat (left_to_right cs)) as Ho by (apply ordered_ok; intros i c Hc; by apply H).
  rewrite (check_order_iff _ Ho None I), sequential_iff;
    [|done|apply py_sorted_sorted; [exact edit_leb_total|exact edit_leb_trans]].
  rewrite <-(ord_pairs_numbered cs 0). assert (∀ a b : text_edit, disjoint (extent a) (extent b) → disjoint (extent b) (extent a))
    as Hsym by (unfold disjoint; tauto).
  assert (left_to_right cs ≡ₚ imap (λ i, numbered (0 + i)%nat) cs) as Hp by apply py_sorted_perm.
  split; apply ord_pairs_perm; done.
Qed.

(** ** The edits of a file *)

Lemma in_order_sequential t es : Forall (edit_ok t) es → ∀ p, (p <= length t)%nat → sequential p es →
  in_order p t (map to_match es).
Proof.
  induction 1 as [|e es [H1 H2] _ IH]; intros p Hp; cbn [sequential map in_order]; [done|]. intros [Hs Hr].
  cbn [to_match me_match_index me_match_length]. replace (te_start e + (te_end e - te_start e))%nat with (te_end e) by lia.
  split_and!; [done|done|by apply IH].
Qed.

Lemma gaps_between_from t es : Forall (edit_ok t) es → ∀ p, gaps_between p t es = gaps_from p t (map to_match es).
Proof.
  induction 1 as [|e es [H1 H2] _ IH]; intros p; cbn [gaps_between map gaps_from]; [done|].
  cbn [to_match me_match_index me_match_length]. replace (te_start e + (te_end e - te_start e))%nat with (te_end e) by lia.
  by rewrite IH.
Qed.

(** One by one from the right is all at once. *)
Lemma applied_at_once t es : Forall (edit_ok t) es → sequential 0 es →
  fold_left apply_edit (rev es) t = weave (gaps_between 0 t es) (map te_new es).
Proof.
  intros Hes Hs. pose proof (in_order_sequential t es Hes 0 (Nat.le_0_l _) Hs) as Hin.
  rewrite (gaps_between_from t es Hes). transitivity (fold_left replace_match (rev (map to_match es)) t).
  - rewrite <-map_rev. assert (Forall (λ e, te_start e <= te_end e)%nat (rev es)) as Hr.
    { rewrite <-(Permutation_rev es). eapply Forall_impl; [exact Hes|]. intros e [H _]. exact H. }
    clear - Hr. revert t. induction Hr as [|e l He _ IH]; intros t; cbn [map fold_left]; [done|]. by rewrite apply_edit_match.
  - rewrite (splice_new _ _ _ Hin). cbn [take app]. by rewrite map_map.
Qed.

Lemma sent_ok t enc raws cs : plain_lines t = true → Forall2 (sends t enc) raws cs →
  Forall (edit_ok t) (left_to_right cs) ∧ Forall (λ c, c.1.1 <= c.1.2)%nat cs.
Proof.
  intros Ht Hcs. assert (Forall (λ c, edit_ok t (numbered 0 c)) cs) as H.
  { eapply Forall2_Forall_r; [exact Hcs|]. apply Forall_forall. intros raw _ c Hc. by eapply sends_within. }
  split; [|eapply Forall_impl; [exact H|]; intros c [Hc _]; exact Hc].
  rewrite Forall_forall in H. apply (ordered_ok (edit_ok t)). intros i c Hc. exact (H c Hc).
Qed.

Lemma edited_text_iff t enc raws target : plain_lines t = true →
  edited_text t enc raws = Ok target ↔
  ∃ cs, Forall2 (sends t enc) raws cs ∧ pairwise_disjoint cs ∧ target = replace_at_once t cs.
Proof.
  intros Ht. unfold edited_text.
  assert (∀ cs, Forall (edit_ok t) (left_to_right cs) → Forall (λ c, c.1.1 <= c.1.2)%nat cs → pairwise_disjoint cs →
    fold_left apply_edit (rev (left_to_right cs)) t = replace_at_once t cs) as Hsplice.
  { intros cs H1 H2 Hd. apply check_order_disjoint in Hd; [|done]. apply applied_at_once; [done|].
    apply (check_order_iff _ (Forall_impl _ _ _ H1 (λ e H, proj1 H)) None I). done. }
  split.
  - destruct (try_map _ _) as [es|] eqn:Hes; cbn [mbind result_bind]; [|done].
    apply (normalized_iff t enc raws es Ht 0) in Hes as (cs & Hcs & ->). destruct (sent_ok t enc raws cs Ht Hcs) as [H1 H2].
    change (py_sorted edit_leb _) with (left_to_right cs).
    destruct (check_order None (left_to_right cs)) as [[]|] eqn:Ho; cbn [mbind result_bind]; [|done]. intros [= <-].
    apply check_order_disjoint in Ho; [|done]. exists cs. split; [done|]. split; [done|]. by apply Hsplice.
  - intros (cs & Hcs & Hd & ->). destruct (sent_ok t enc raws cs Ht Hcs) as [H1 H2].
    assert (try_map (λ p, normalize_edit t enc p.1 p.2) (imap pair raws) = Ok (imap numbered cs)) as ->
      by (apply (normalized_iff t enc raws _ Ht 0); by exists cs).
    cbn [mbind result_bind].
    change (py_sorted edit_leb _) with (left_to_right cs).
    rewrite (proj2 (check_order_disjoint cs H2) Hd). cbn [mbind result_bind]. f_equal. by apply Hsplice.
Qed.

(** The piece of the text an edit replaces. *)
Definition piece (t : text) (e : text_edit) : text := take (te_end e - te_start e) (drop (te_start e) t).

(** C24: Edits land where the server means, all at once.  For a text with plain line
    ends, a list of edits is accepted exactly when each is a new text for the piece
    between the offsets that two positions of the text denote, in the units of the
    server, and no two of the pieces overlap.  The result is then the text with every
    piece replaced and everything between them kept, insertions at one place in the
    order of the list, although the code applies the edits one after the other, from
    the last. *)
Theorem edits_land_where_meant t enc raws : plain_lines t = true →
  (∀ target, edited_text t enc raws = Ok target ↔
    ∃ cs, Forall2 (sends t enc) raws cs ∧ pairwise_disjoint cs ∧ target = replace_at_once t cs) ∧
  (∀ cs, Forall2 (sends t enc) raws cs → pairwise_disjoint cs →
    t = weave (gaps_between 0 t (left_to_right cs)) (map (piece t) (left_to_right cs)) ∧
    StronglySorted (λ a b, edit_leb a b = true) (left_to_right cs)).
Proof.
  intros Ht. split; [intros target; by apply edited_text_iff|]. intros cs Hcs Hd.
  split; [|apply py_sorted_sorted; [exact edit_leb_total|exact edit_leb_trans]].
  destruct (sent_ok t enc raws cs Ht Hcs) as [H1 H2].
  apply check_order_disjoint in Hd; [|done].
  pose proof (proj1 (check_order_iff _ (Forall_impl _ _ _ H1 (λ e H, proj1 H)) None I) Hd) as Hs.
  pose proof (in_order_sequential t _ H1 0 (Nat.le_0_l _) Hs) as Hin.
  rewrite (gaps_between_from t _ H1). rewrite (splice_old _ _ _ Hin) at 1. cbn [take app]. by rewrite map_map.
Qed.

Definition sample_edit (l1 c1 l2 c2 : Z) (new : text) : pv :=
  let at_ l c := PDict [(lit "line", PInt l); (lit "character", PInt c)] in
  PDict [(lit "newText", PStr new); (lit "range", PDict [(lit "start", at_ l1 c1); (lit "end", at_ l2 c2)])].

(** A rename in two places of a text with an emoji, counted in UTF-16 units. *)
Lemma edits_land_where_meant_witness :
  ∃ cs, Forall2 (sends ([128512] ++ lit "ab" ++ [10] ++ lit "ab+c") utf_16)
          [sample_edit 1 0 1 2 (lit "x"); sample_edit 0 2 0 4 (lit "x")] cs ∧ pairwise_disjoint cs ∧
        [128512] ++ lit "x" ++ [10] ++ lit "x+c" = replace_at_once ([128512] ++ lit "ab" ++ [10] ++ lit "ab+c") cs.
Proof.
  apply (proj1 (edits_land_where_meant ([128512] ++ lit "ab" ++ [10] ++ lit "ab+c") utf_16
    [sample_edit 1 0 1 2 (lit "x"); sample_edit 0 2 0 4 (lit "x")] ltac:(vm_compute; reflexivity))).
  vm_compute. reflexivity.
Defined.
