(* ===== verification/WorkspaceApplySpec.v ===== *)
(** Properties of the application of a workspace edit: a preview is applied whole or
    not at all, only once, and only to the files it was made from; the stores of tokens
    are bounded. *)

From S2P Require Import Prelude PyDict PyFloat Utf8 PyText PyValue Documents WorkspaceEdit.
From stdpp Require Import gmap pretty.
Open Scope Z_scope.
Local Notation text := Utf8.text.

Definition original_node (s : staged) : Node := {| n_bytes := sg_original s; n_mode := sg_mode s |}.
Definition target_node (s : staged) : Node := {| n_bytes := pf_target_bytes (sg_file s); n_mode := sg_mode s |}.
Definition sg_path (s : staged) : path := pf_path (sg_file s).

(** The files to write. *)
Definition differs (s : staged) : bool := negb (bool_decide (pf_target_bytes (sg_file s) = sg_original s)).

Section application.
Variable sha256 : bytes → string.
Variable workspace : path.
Variable limits : LanguageServiceLimits.
Variable is_symlink : path → bool.
Variable resolve_strict : path → option path.
Variable parent_mode : path → Z.
Variable env : Environment.

Notation apply := (WorkspaceEdit.apply sha256 workspace limits is_symlink resolve_strict parent_mode env).
Notation _stage_preview_files := (_stage_preview_files sha256 workspace limits is_symlink resolve_strict parent_mode env).
Notation write_files := (write_files sha256 env).
Notation restore_files := (restore_files env).
Notation write_bytes := (write_bytes env).

(** What staging found: the file as it is, with the hash of the preview. *)
Definition staged_ok (fs : Files) (s : staged) : Prop :=
  fs !! sg_path s = Some (original_node s) ∧ sha256 (sg_original s) = pf_original_hash (sg_file s).

Definition same_outside (ps : list path) (fs fs' : Files) : Prop := ∀ p, p ∉ ps → fs' !! p = fs !! p.

(** ** Staging *)

Lemma wpe_read_aborted (Q : bool → Run → Prop) R r :
  (∀ r', r_files r' = r_files r → r_previews r' = r_previews r → Q (env_aborted env (r_aborts r)) r') →
  wpe (read_aborted env) Q R r.
Proof. intros H. unfold wpe, read_aborted. by apply H. Qed.

Lemma wpe_st_require {S E} b (e : E) (Q : unit → S → Prop) R (s : S) :
  (b = true → Q tt s) → (b = false → R e s) → wpe (st_require b e) Q R s.
Proof. unfold wpe, st_require, st_lift, require. destruct b; auto. Qed.

Lemma stage_spec files : ∀ total r,
  wpe (_stage_preview_files files total)
    (λ ss r', r_files r' = r_files r ∧ r_previews r' = r_previews r ∧
              map sg_file ss = files ∧ Forall (staged_ok (r_files r)) ss)
    (λ _ r', r_files r' = r_files r) r.
Proof.
  induction files as [|file files IH]; intros total r; cbn [WorkspaceEdit._stage_preview_files]; [done|].
  apply wpe_bind, wpe_read_aborted. intros r1 Hf1 Hp1. cbn beta.
  apply wpe_bind, wpe_st_require; [intros _|intros _; exact Hf1]. cbn beta.
  apply wpe_bind, wpe_st_require; [intros _|intros _; exact Hf1]. cbn beta.
  destruct (resolve_strict (pf_path file)) as [resolved|]; [|exact Hf1].
  apply wpe_bind, wpe_st_require; [intros Hr|intros _; exact Hf1]. bool_prop. cbn beta.
  apply wpe_bind. unfold wpe at 1, st_get. rewrite Hf1. destruct (r_files r !! resolved) as [node|] eqn:Hnode; [|exact Hf1].
  apply wpe_bind, wpe_st_require; [intros _|intros _; exact Hf1]. cbn beta zeta.
  apply wpe_bind, wpe_st_require; [intros Hh|intros _; exact Hf1]. bool_prop.
  apply wpe_bind, wpe_st_require; [intros _|intros _; exact Hf1].
  apply wpe_bind. eapply wpe_mono; [apply IH| |intros ? ? ->; exact Hf1]. cbn beta.
  intros ss r2 (Hf2 & Hp2 & Hss & Hok). apply wpe_ret. rewrite Hf1 in Hok, Hf2. rewrite Hp1 in Hp2.
  split_and!; [done|done|by cbn [map sg_file fst]; rewrite Hss|].
  constructor; [|done]. split; [|done]. unfold sg_path, original_node. cbn. destruct node. by subst.
Qed.

(** ** Writing *)

Lemma write_bytes_spec p content mode r : ∃ b r',
  write_bytes p content mode r = (Ok b, r') ∧ r_previews r' = r_previews r ∧ same_outside [p] (r_files r) (r_files r') ∧
  (b = true → r_files r' !! p = Some {| n_bytes := content; n_mode := mode |}) ∧
  (b = false → r_files r' !! p = r_files r !! p ∨
               match r_files r' !! p with Some node => n_mode node = mode | None => True end) ∧
  (env_write env (r_writes r) = WriteOk → b = true).
Proof.
  unfold WorkspaceEdit.write_bytes. destruct (env_write env (r_writes r)) as [|[[other|]|]]; do 2 eexists; (split; [done|]); cbn;
    (split; [done|]); (split; [intros q Hq; assert (p ≠ q) by (intros ->; apply Hq; by left);
      rewrite ?lookup_insert_ne, ?lookup_delete_ne by done; done|]);
    rewrite ?lookup_insert_eq, ?lookup_delete_eq; split_and!; auto; done.
Qed.

Hypothesis sha256_inj : ∀ a b, sha256 a = sha256 b → a = b.
Hypothesis sha256_word : ∀ a, sha256 a ≠ "unreadable"%string.

(** A failed write whose file has the hash of the original left the file as it was. *)
Lemma hash_tells s r0 r : staged_ok (r_files r0) s → same_outside [sg_path s] (r_files r0) (r_files r) →
  r_files r !! sg_path s = r_files r0 !! sg_path s ∨
    match r_files r !! sg_path s with Some node => n_mode node = sg_mode s | None => True end →
  ∃ h r', current_hash sha256 env (sg_path s) r = (Ok h, r') ∧ r_files r' = r_files r ∧ r_previews r' = r_previews r ∧
    (h = pf_original_hash (sg_file s) → same_outside [] (r_files r0) (r_files r')).
Proof.
  intros [Hnode Hhash] Hout Hmode. unfold current_hash. do 2 eexists. split; [done|]. cbn. split; [done|]. split; [done|].
  intros Hh p _. destruct (decide (p = sg_path s)) as [->|Hne]; [|apply Hout; set_solver].
  destruct (r_files r !! sg_path s) as [node|] eqn:Hn.
  - destruct (env_readable env (r_reads r)); rewrite <-Hhash in Hh; [|by apply eq_sym, sha256_word in Hh].
    apply sha256_inj in Hh. rewrite Hnode in *. destruct Hmode as [->|Hm]; [done|].
    destruct node; cbn in *. by subst.
  - rewrite <-Hhash in Hh. by apply eq_sym, sha256_word in Hh.
Qed.

Notation paths ss := (map sg_path ss).

Lemma same_outside_trans ps qs fs1 fs2 fs3 :
  same_outside ps fs1 fs2 → same_outside qs fs2 fs3 → same_outside (ps ++ qs) fs1 fs3.
Proof. intros H1 H2 p Hp. rewrite elem_of_app in Hp. rewrite H2, H1; tauto. Qed.

Lemma staged_ok_other fs fs' s ss : same_outside [sg_path s] fs fs' → sg_path s ∉ paths ss →
  Forall (staged_ok fs) ss → Forall (staged_ok fs') ss.
Proof.
  intros Hout Hs. rewrite !Forall_forall. intros H x Hx. destruct (H x Hx) as [Hn Hh]. split; [|done].
  rewrite Hout; [done|]. intros Heq%list_elem_of_singleton. apply Hs. rewrite <-Heq. by apply list_elem_of_fmap_2.
Qed.

(** The outcome of the writes: the changed files are some of the staged, all that
    differ when it is done, and no other file is touched. *)
Definition written (ss changed : list staged) (fs : Files) (o : bool * list staged) (fs' : Files) : Prop :=
  ∃ more, o.2 = changed ++ more ∧ more `sublist_of` ss ∧ same_outside (paths more) fs fs' ∧
    (o.1 = true → more = List.filter differs ss ∧ Forall (λ s, fs' !! sg_path s = Some (target_node s)) more).

Definition undisturbed : Prop := (∀ n, env_aborted env n = false) ∧ (∀ n, env_write env n = WriteOk).

Lemma write_files_spec ss : NoDup (paths ss) → ∀ changed r, Forall (staged_ok (r_files r)) ss → ∃ o r',
  write_files ss changed r = (Ok o, r') ∧ r_previews r' = r_previews r ∧ written ss changed (r_files r) o (r_files r') ∧
  (undisturbed → o.1 = true).
Proof.
  induction ss as [|s ss IH]; intros Hnd changed r Hok; cbn [WorkspaceEdit.write_files].
  { exists (true, changed), r. split_and!; try done. exists []. rewrite app_nil_r. by split_and!. }
  cbn [map] in Hnd. apply NoDup_cons in Hnd as [Hs Hnd]. apply Forall_cons in Hok as [Hsok Hok].
  case_bool_decide as Hsame.
  { destruct (IH Hnd changed r Hok) as (o & r' & -> & Hp & (more & Hc & Hsub & Hout & Hdone) & Hu). exists o, r'.
    split_and!; try done. exists more. split_and!; [done|by constructor|done|]. intros Hd. destruct (Hdone Hd) as [-> Ht].
    cbn [List.filter]. unfold differs at 2. by rewrite bool_decide_true. }
  assert (differs s = true) as Hdiff by (unfold differs; by rewrite bool_decide_false).
  unfold mbind, st_bind, read_aborted. set (ra := Build_Run _ _ _ _ _).
  destruct (env_aborted env (r_aborts r)) eqn:Ha.
  { exists (false, changed), ra. split_and!; [done|done| |intros [H _]; by rewrite H in Ha].
    exists []. rewrite app_nil_r. split_and!; [done|apply sublist_nil_l|done|done]. }
  destruct (write_bytes_spec (sg_path s) (pf_target_bytes (sg_file s)) (sg_mode s) ra)
    as (b & r1 & Hw & Hp1 & Hout1 & Htrue & Hfalse & Hfine).
  change (pf_path (sg_file s)) with (sg_path s). rewrite Hw. change (r_files ra) with (r_files r) in *. destruct b.
  - set (rb := Build_Run _ _ _ _ _). destruct (env_aborted env (r_aborts r1)) eqn:Hb.
    { exists (false, changed ++ [s]), rb. split_and!; [done|done| |intros [H _]; by rewrite H in Hb].
      exists [s]. split_and!; [done|by apply sublist_skip, sublist_nil_l|done|done]. }
    destruct (IH Hnd (changed ++ [s]) rb) as (o & r' & -> & Hp & (more & Hc & Hsub & Hout & Hdone) & Hu);
      [by eapply staged_ok_other|]. exists o, r'. split_and!; [done|by rewrite Hp| |done].
    exists (s :: more). split_and!; [by rewrite Hc, <-app_assoc|by apply sublist_skip| |].
    + apply (same_outside_trans [sg_path s] (paths more) _ _ _ Hout1 Hout).
    + intros Hd. destruct (Hdone Hd) as [-> Ht]. cbn [List.filter]. rewrite Hdiff. split; [done|]. constructor; [|done].
      rewrite Hout; [by apply Htrue|]. intros Hin. apply Hs. apply list_elem_of_fmap in Hin as (x & -> & Hx).
      apply list_elem_of_fmap_2. by eapply elem_of_submseteq; [|apply sublist_submseteq].
  - destruct (hash_tells s r r1 Hsok Hout1 (Hfalse eq_refl)) as (h & r2 & -> & Hf2 & Hp2 & Hh).
    exists (false, if bool_decide (h ≠ pf_original_hash (sg_file s)) then changed ++ [s] else changed), r2.
    split_and!; [done|by rewrite Hp2, Hp1| |intros [_ H]; by specialize (Hfine (H _))]. case_bool_decide as Hne.
    + exists [s]. split_and!; [done|by apply sublist_skip, sublist_nil_l| |done]. by rewrite Hf2.
    + exists []. rewrite app_nil_r. split_and!; [done|apply sublist_nil_l| |done]. apply Hh. by destruct (decide (h = pf_original_hash (sg_file s))).
Qed.

(** ** Restoring *)

(** Every file is as it was, or among those that could not be restored. *)
Definition restored_but (ss : list staged) (unresolved : list string) (fs : Files) : Prop :=
  Forall (λ s, fs !! sg_path s = Some (original_node s) ∨ pf_relative_path (sg_file s) ∈ unresolved) ss.

Lemma restore_files_spec ss : NoDup (paths ss) → ∀ r, ∃ o r',
  restore_files ss r = (Ok o, r') ∧ r_previews r' = r_previews r ∧ same_outside (paths ss) (r_files r) (r_files r') ∧
  restored_but ss o.2 (r_files r') ∧ o.1 ++ o.2 ≡ₚ map (λ s, pf_relative_path (sg_file s)) ss.
Proof.
  induction ss as [|s ss IH]; intros Hnd r; cbn [WorkspaceEdit.restore_files].
  { exists ([], []), r. split_and!; try done. constructor. }
  cbn [map] in *. apply NoDup_cons in Hnd as [Hs Hnd]. unfold mbind, st_bind.
  destruct (write_bytes_spec (sg_path s) (sg_original s) (sg_mode s) r) as (b & r1 & Hw & Hp1 & Hout1 & Htrue & _).
  change (pf_path (sg_file s)) with (sg_path s). rewrite Hw. destruct (IH Hnd r1) as ([done_ left_] & r' & -> & Hp & Hout & Hr & Hperm). cbn [fst snd] in *.
  eexists _, r'. split; [done|]. split_and!.
  - by rewrite Hp.
  - apply (same_outside_trans [sg_path s] (paths ss) _ _ _ Hout1 Hout).
  - constructor.
    + destruct b; cbn [snd]; [left|right; by left]. rewrite Hout by done. by apply Htrue.
    + eapply Forall_impl; [exact Hr|]. intros x [H|H]; [by left|right]. destruct b; cbn [snd]; [done|by right].
  - destruct b; cbn [fst snd]; [by cbn; rewrite Hperm|]. by rewrite <-Permutation_middle, Hperm.
Qed.

(** ** The application *)

Lemma get_spec token g c now d : match get limits token g c now d with
  | (Ok pr, d') => d' = d ∧ od_get token d = Some pr ∧ (∀ n, g = Some n → pr_server_generation pr = n) ∧
                   (∀ n, c = Some n → pr_config_generation pr = n)
  | (Err _, d') => ∀ k, k ≠ token → od_get k d' = od_get k d
  end.
Proof.
  unfold get, mbind, st_bind, st_get. cbn. destruct (od_get token d) as [pr|] eqn:Hget; [|done].
  destruct (expired limits now (pr_created_at pr)); cbn; [intros k Hk; by rewrite od_get_del, decide_False|].
  destruct (_ || _) eqn:Hstale; [done|]. apply orb_false_iff in Hstale as [Hg Hc]. cbn. split_and!; [done|done| |].
  - intros n ->. by apply negb_false_iff, bool_decide_eq_true in Hg.
  - intros n ->. by apply negb_false_iff, bool_decide_eq_true in Hc.
Qed.

Lemma wpe_on_previews {A} (m : st previews edit_error A) (Q : A → Run → Prop) R r :
  (∀ a r', (m (r_previews r)).1 = Ok a → r_files r' = r_files r → r_previews r' = (m (r_previews r)).2 → Q a r') →
  (∀ e r', r_files r' = r_files r → R e r') → wpe (on_previews m) Q R r.
Proof.
  intros HQ HR. unfold wpe, on_previews. destruct (m (r_previews r)) as [[a|e] d]; [|by apply HR].
  by apply HQ.
Qed.

(** Every file has the bytes of the preview and the mode it had. *)
Definition all_written (fs fs' : Files) (files : list PreparedFileEdit) : Prop :=
  same_outside (map pf_path files) fs fs' ∧
  Forall (λ f, ∃ node, fs !! pf_path f = Some node ∧
               fs' !! pf_path f = Some {| n_bytes := pf_target_bytes f; n_mode := n_mode node |}) files.

(** No file is changed but those reported as unresolved. *)
Definition nothing_written_but (unresolved : list string) (fs fs' : Files) (files : list PreparedFileEdit) : Prop :=
  ∀ p, fs' !! p = fs !! p ∨ ∃ f, f ∈ files ∧ pf_path f = p ∧ pf_relative_path f ∈ unresolved.

(** The files are those the preview was made from. *)
Definition unchanged_since (fs : Files) (files : list PreparedFileEdit) : Prop :=
  Forall (λ f, ∃ node, fs !! pf_path f = Some node ∧ sha256 (n_bytes node) = pf_original_hash f) files.

Lemma all_written_spec ss fs fs' : Forall (staged_ok fs) ss →
  same_outside (paths (List.filter differs ss)) fs fs' →
  Forall (λ s, fs' !! sg_path s = Some (target_node s)) (List.filter differs ss) →
  NoDup (paths ss) → all_written fs fs' (map sg_file ss).
Proof.
  intros Hok Hout Ht Hnd. rewrite Forall_forall in Hok, Ht. split.
  - intros p Hp. apply Hout. intros (s & -> & Hs)%list_elem_of_fmap. apply Hp. rewrite map_map.
    apply list_elem_of_fmap_2. apply list_elem_of_In, filter_In in Hs as [Hs _]. by apply list_elem_of_In.
  - apply Forall_forall. intros f (s & -> & Hs)%list_elem_of_fmap. destruct (Hok s Hs) as [Hn _].
    exists (original_node s). split; [done|]. destruct (differs s) eqn:Hd.
    + apply Ht. by apply list_elem_of_In, filter_In; split; [apply list_elem_of_In|].
    + change (pf_path (sg_file s)) with (sg_path s). rewrite Hout.
      * rewrite Hn. unfold original_node. cbn. unfold differs in Hd. bool_prop. by rewrite Hd.
      * intros (x & Hx & Hin)%list_elem_of_fmap. apply list_elem_of_In, filter_In in Hin as [Hin Hdx].
        apply list_elem_of_In in Hin. enough (s = x) by congruence.
        apply list_elem_of_lookup in Hs as [i Hi], Hin as [j Hj].
        assert (i = j) as ->; [|congruence]. eapply (NoDup_lookup _ _ _ (sg_path s) Hnd); rewrite list_lookup_fmap;
          [by rewrite Hi|by rewrite Hj; cbn; rewrite Hx].
Qed.

Lemma restored_spec ss changed left_ fs fs1 fs2 : Forall (staged_ok fs) ss → changed `sublist_of` ss →
  same_outside (paths changed) fs fs1 → same_outside (paths (rev changed)) fs1 fs2 →
  restored_but (rev changed) left_ fs2 → nothing_written_but left_ fs fs2 (map sg_file ss).
Proof.
  intros Hok Hsub H1 H2 Hr p. unfold restored_but in Hr. rewrite <-Permutation_rev in Hr. rewrite Forall_forall in Hok, Hr.
  assert (p ∉ paths changed → p ∉ paths (rev changed)) as Hrev by by rewrite map_rev, <-Permutation_rev.
  destruct (decide (p ∈ paths changed)) as [Hin|Hin]; [|left; by rewrite H2, H1 by auto].
  apply list_elem_of_fmap in Hin as (s & -> & Hs).
  assert (s ∈ ss) as Hss by (by eapply elem_of_submseteq; [|apply sublist_submseteq]).
  destruct (Hr s Hs) as [->|Hl]; [left; by destruct (Hok s Hss) as [-> _]|right].
  exists (sg_file s). split; [by apply list_elem_of_fmap_2|done].
Qed.

(** What the application promises. *)
Definition apply_promise (token : string) (g c : Z) (r : Run) (o : result edit_error WorkspaceEditApplyReport) (r' : Run) : Prop :=
  match o with
  | Err _ => r_files r' = r_files r
  | Ok report =>
      od_get token (r_previews r') = None ∧
      ∃ pr, od_get token (r_previews r) = Some pr ∧ pr_server_generation pr = g ∧ pr_config_generation pr = c ∧
        unchanged_since (r_files r) (pr_files pr) ∧
        (if rp_applied report then all_written (r_files r) (r_files r') (pr_files pr) ∧ rp_unresolved report = []
         else nothing_written_but (rp_unresolved report) (r_files r) (r_files r') (pr_files pr)) ∧
        rp_restored report ++ rp_unresolved report ≡ₚ (if rp_applied report then [] else rp_changed report) ∧
        (undisturbed → rp_applied report = true)
  end.

Lemma apply_spec token g c now now' r :
  (∀ pr, od_get token (r_previews r) = Some pr → NoDup (map pf_path (pr_files pr))) →
  wpe (apply token g c now now') (λ rep, apply_promise token g c r (Ok rep)) (λ e, apply_promise token g c r (Err e)) r.
Proof.
  intros Hnd. unfold WorkspaceEdit.apply. apply wpe_bind, wpe_on_previews; [|intros e r' Hf; exact Hf].
  intros pr r1 Hget Hf1 Hp1. pose proof (get_spec token (Some g) (Some c) now (r_previews r)) as Hspec.
  destruct (get limits token (Some g) (Some c) now (r_previews r)) as [o d]. cbn in Hget, Hp1. subst o.
  destruct Hspec as (-> & Hpr & Hg & Hc). specialize (Hg g eq_refl). specialize (Hc c eq_refl). specialize (Hnd pr Hpr).
  apply wpe_bind, wpe_read_aborted. intros r2 Hf2 Hp2. rewrite Hf1 in Hf2. cbn beta.
  apply wpe_bind, wpe_st_require; [intros _|intros _; exact Hf2].
  apply wpe_bind. eapply wpe_mono; [apply stage_spec| |intros e r3 Hf3; cbn; by rewrite Hf3]. cbn beta.
  intros ss r3 (Hf3 & Hp3 & Hss & Hok). rewrite Hf2 in Hf3, Hok.
  apply wpe_bind, wpe_read_aborted. intros r4 Hf4 Hp4. rewrite Hf3 in Hf4. cbn beta.
  apply wpe_bind, wpe_st_require; [intros _|intros _; exact Hf4].
  apply wpe_bind, wpe_on_previews; [|intros e r5 Hf5; cbn; by rewrite Hf5]. intros pr' r5 Hcons Hf5 Hp5. rewrite Hf4 in Hf5.
  assert (od_get token (r_previews r5) = None) as Hgone.
  { rewrite Hp5. revert Hcons. unfold consume, mbind, st_bind. pose proof (get_spec token None None now' (r_previews r4)) as H.
    destruct (get limits token None None now' (r_previews r4)) as [[x|] d]; cbn; [|done]. intros _. by rewrite od_get_del, decide_True. }
  assert (NoDup (paths ss)) as Hnd' by by rewrite <-Hss, map_map in Hnd. rewrite <-Hf5 in Hok.
  destruct (write_files_spec ss Hnd' [] r5 Hok) as (o & r6 & Hw & Hp6 & (more & Hmore & Hsub & Hout & Hdone) & Hu).
  unfold wpe, mbind, st_bind. rewrite Hw. destruct o as [done_ changed]. cbn in Hmore, Hdone, Hu. subst changed.
  assert (unchanged_since (r_files r) (pr_files pr)) as Hsince.
  { rewrite <-Hss, <-Hf5. apply Forall_map. eapply Forall_impl; [exact Hok|]. intros s [Hn Hh]. by exists (original_node s). }
  rewrite Hf5 in Hok, Hout. destruct done_.
  - cbn. split; [by rewrite Hp6|]. exists pr. destruct (Hdone eq_refl) as [-> Ht]. split_and!; try done.
    rewrite <-Hss. by apply all_written_spec.
  - assert (NoDup (paths (rev more))) as Hnr.
    { rewrite map_rev, <-Permutation_rev. eapply sublist_NoDup; [exact Hnd'|]. by apply fmap_sublist. }
    destruct (restore_files_spec (rev more) Hnr r6) as ([res left_] & r7 & -> & Hp7 & Hout7 & Hr & Hperm). cbn in *.
    split; [by rewrite Hp7, Hp6|]. exists pr. split_and!; try done.
    + rewrite <-Hss. by eapply restored_spec.
    + rewrite Hperm, map_rev. by rewrite <-Permutation_rev.
Qed.
End application.

(** C23: A workspace edit is applied whole or not at all.  The hash of a file is assumed
    to tell contents apart; the paths of the preview are distinct.  Whatever is written,
    aborted or fails on the way: when [apply] raises, no file has changed.  When it
    returns, the token is spent, the preview was of the current server and
    configuration, and every file had the contents it was made from; if the report says
    applied, every file has its new contents with its mode, and no other file has
    changed; if not, every file of the system is as it was before, but those the report
    lists as unresolved, and every changed file is listed as restored or unresolved.
    Without an abort or a failed write, it is applied. *)
Theorem apply_all_or_nothing sha256 workspace limits is_symlink resolve_strict parent_mode env token g c now now' r :
  (∀ a b, sha256 a = sha256 b → a = b) → (∀ a, sha256 a ≠ "unreadable"%string) →
  (∀ pr, od_get token (r_previews r) = Some pr → NoDup (map pf_path (pr_files pr))) →
  let '(o, r') := WorkspaceEdit.apply sha256 workspace limits is_symlink resolve_strict parent_mode env token g c now now' r in
  apply_promise sha256 env token g c r o r'.
Proof.
  intros Hinj Hword Hnd.
  pose proof (apply_spec sha256 workspace limits is_symlink resolve_strict parent_mode env Hinj Hword token g c now now' r Hnd) as H.
  unfold wpe in H. by destruct (WorkspaceEdit.apply _ _ _ _ _ _ _ _ _ _ _ _) as [[report|e] r'].
Qed.

(** A sample: two files, and a hash that tells contents apart. *)
Module Sample.
Definition sha (b : bytes) : string := "#" +:+ pretty (encode b).
Definition limits : LanguageServiceLimits :=
  {| max_apply_original_bytes := 100; token_ttl_seconds := fl_of_Z 60; max_preview_tokens := 2; max_action_tokens := 2 |}.

Definition file (name : string) (old new : bytes) : PreparedFileEdit :=
  {| pf_path := ["w"; name]%string; pf_relative_path := name; pf_original_bytes := old; pf_target_bytes := new;
     pf_original_hash := sha old; pf_target_hash := sha new; pf_version := 1; pf_mode := 420 |}.

Definition preview : WorkspaceEditPreview :=
  {| pr_token := "t"; pr_files := [file "a" [1] [2]; file "b" [3] [4]]; pr_diff := []; pr_server_generation := 1;
     pr_config_generation := 1; pr_created_at := fl_of_Z 0; pr_source_path := None |}.

Definition start : Run :=
  {| r_previews := [("t"%string, preview)];
     r_files := {[ ["w"; "a"]%string := {| n_bytes := [1]; n_mode := 420 |}; ["w"; "b"]%string := {| n_bytes := [3]; n_mode := 384 |} ]};
     r_aborts := 0; r_writes := 0; r_reads := 0 |}.

(** The second write fails and leaves no file behind; the restoration of the first
    succeeds when [restores]. *)
Definition second_fails (restores : bool) : Environment :=
  {| env_aborted := λ _, false;
     env_write := λ n, match n with 0%nat => WriteOk | 1%nat => WriteFails (Some None)
                              | _ => if restores then WriteOk else WriteFails None end;
     env_readable := λ _, true |}.

Definition run (env : Environment) : result edit_error WorkspaceEditApplyReport * Run :=
  WorkspaceEdit.apply sha ["w"]%string limits (λ _, false) Some (λ _, 448) env "t" 1 1 (fl_of_Z 1) (fl_of_Z 2) start.
End Sample.

Lemma apply_all_or_nothing_witness :
  (Sample.run (Sample.second_fails true)).1 =
    Ok {| rp_applied := false; rp_changed := ["a"; "b"]%string; rp_restored := ["b"; "a"]%string; rp_unresolved := [] |} ∧
  (let '(o, r') := Sample.run (Sample.second_fails true) in
   apply_promise Sample.sha (Sample.second_fails true) "t" 1 1 Sample.start o r').
Proof.
  split; [vm_compute; reflexivity|].
  apply (apply_all_or_nothing Sample.sha ["w"]%string Sample.limits (λ _, false) Some (λ _, 448) (Sample.second_fails true)
    "t" 1 1 (fl_of_Z 1) (fl_of_Z 2) Sample.start).
  - intros a b. unfold Sample.sha. intros Heq. injection Heq as Heq. apply pretty_positive_inj in Heq. by apply (inj encode) in Heq.
  - intros a. unfold Sample.sha. intros Heq. discriminate Heq.
  - intros pr. vm_compute. intros [= <-]. repeat constructor; set_solver.
Defined.

(** [documentChanges] refuses two entries of one document, [changes] does not: two URIs
    of one file make a preview that writes it twice, the second time without the first
    edit, and the report says applied. *)
Example two_names_lose_an_edit :
  let parse := λ u : text, (lit "file", [] : text, u) in
  let resolve := λ u : text, Some ["w"; "a"]%string in
  let no_edits := PList [] in
  _document_entries parse resolve ["w"]%string
    (PDict [(lit "changes", PDict [(lit "/w/a", no_edits); (lit "/w/%61", no_edits)])]) =
      Ok [(["w"; "a"]%string, None, []); (["w"; "a"]%string, None, [])] ∧
  let twice := {| pr_token := "t"; pr_files := [Sample.file "a" [1; 1] [2; 1]; Sample.file "a" [1; 1] [1; 2]]; pr_diff := [];
                  pr_server_generation := 1; pr_config_generation := 1; pr_created_at := fl_of_Z 0; pr_source_path := None |} in
  let start := {| r_previews := [("t"%string, twice)]; r_files := {[ ["w"; "a"]%string := {| n_bytes := [1; 1]; n_mode := 420 |} ]};
                  r_aborts := 0; r_writes := 0; r_reads := 0 |} in
  let env := {| env_aborted := λ _, false; env_write := λ _, WriteOk; env_readable := λ _, true |} in
  let '(o, r') := WorkspaceEdit.apply Sample.sha ["w"]%string Sample.limits (λ _, false) Some (λ _, 448) env "t" 1 1
    (fl_of_Z 1) (fl_of_Z 2) start in
  (∃ report, o = Ok report ∧ rp_applied report = true) ∧
  n_bytes <$> r_files r' !! ["w"; "a"]%string = Some [1; 2].
Proof. split; [vm_compute; reflexivity|]. vm_compute. split; [by eexists|done]. Qed.
