(* ===== verification/Transcript.v ===== *)
(** The messages of a conversation as the context code sees them
    ([ai/types.py], [ai/context_estimate.py]), and their estimated size.

    A message is one record: the code reads the fields of its three message
    classes by [getattr], and adds three private ones.  Texts are lists of code
    points.  [math.ceil(chars / 4)] divides floats, exactly below 2^53
    characters; here it divides integers. *)

From S2P Require Import Prelude Json JsonText Utf8.
Open Scope Z_scope.
Local Notation text := Utf8.text.

(** ** Messages *)

(** [src: travis/ai/types.py:43-49 ToolCall] *)
Record ToolCall : Type := {
  call_id : string;
  call_name : string;
  call_arguments : json;
  call_thought_signature : option text
}.

(** [src: travis/ai/types.py:21-40 TextContent, ThinkingContent, ImageContent] *)
Inductive ContentBlock : Type :=
  | TextContent (t : text) (text_signature : option text)
  | ThinkingContent (thinking : text) (thinking_signature : option text) (redacted : bool)
  | ImageContent (data mime_type : string)
  | ToolCallBlock (call : ToolCall).

(** [str | list[ContentBlock]], or no such attribute. *)
Inductive Content : Type :=
  | Str (t : text)
  | Blocks (blocks : list ContentBlock)
  | NoContent.

Inductive Role : Type :=
  | user | assistant | toolResult | system | other_role (name : string).
#[export] Instance Role_eq_dec : EqDecision Role.
Proof. solve_decision. Defined.

(** [src: travis/ai/types.py:74-83 Usage]: the fields of the estimate. *)
Record Usage : Type := {
  u_input : Z; u_output : Z; u_cache_read : Z; u_cache_write : Z; u_total_tokens : Z
}.

(** The last three fields are [_compressed_summary],
    [_compressed_context_message_count] and [_non_turn_user]; [m_reasoning] holds
    the reasoning fields of the provider as text, [m_summary] and [m_details] the
    fields of those names.

    [src: travis/ai/types.py:90-125 UserMessage, AssistantMessage, ToolResultMessage] *)
Record Message : Type := {
  m_role : Role;
  m_content : Content;
  m_timestamp : Z;
  m_usage : Usage;
  m_stop_reason : string;
  m_tool_call_id : string;
  m_tool_name : string;
  m_details : option json;
  m_added_tool_names : list string;
  m_reasoning : list text;
  m_summary : text;
  m_compressed_summary : bool;
  m_compressed_count : option nat;
  m_non_turn_user : bool
}.

Definition with_content (c : Content) (m : Message) : Message :=
  {| m_role := m_role m; m_content := c; m_timestamp := m_timestamp m; m_usage := m_usage m;
     m_stop_reason := m_stop_reason m; m_tool_call_id := m_tool_call_id m; m_tool_name := m_tool_name m;
     m_details := m_details m; m_added_tool_names := m_added_tool_names m; m_reasoning := m_reasoning m;
     m_summary := m_summary m; m_compressed_summary := m_compressed_summary m;
     m_compressed_count := m_compressed_count m; m_non_turn_user := m_non_turn_user m |}.

Definition with_marks (summary : bool) (count : option nat) (m : Message) : Message :=
  {| m_role := m_role m; m_content := m_content m; m_timestamp := m_timestamp m; m_usage := m_usage m;
     m_stop_reason := m_stop_reason m; m_tool_call_id := m_tool_call_id m; m_tool_name := m_tool_name m;
     m_details := m_details m; m_added_tool_names := m_added_tool_names m; m_reasoning := m_reasoning m;
     m_summary := m_summary m; m_compressed_summary := summary;
     m_compressed_count := count; m_non_turn_user := m_non_turn_user m |}.

(** [src: travis/ai/types.py:86-87 empty_usage] *)
Definition empty_usage : Usage :=
  {| u_input := 0; u_output := 0; u_cache_read := 0; u_cache_write := 0; u_total_tokens := 0 |}.

(** A message with the fields every message class has. *)
Definition new_message (r : Role) (c : Content) (timestamp : Z) : Message :=
  {| m_role := r; m_content := c; m_timestamp := timestamp; m_usage := empty_usage; m_stop_reason := "stop";
     m_tool_call_id := ""; m_tool_name := ""; m_details := None; m_added_tool_names := []; m_reasoning := [];
     m_summary := []; m_compressed_summary := false; m_compressed_count := None; m_non_turn_user := false |}.

(** ** Estimated sizes *)

Definition len (t : text) : Z := Z.of_nat (length t).

(** [_safe_json(value)] of a JSON value: [json.dumps] with compact separators. *)
Definition json_chars (j : json) : Z := Z.of_nat (length (print_json j)).

Definition opt_len (t : option text) : Z := match t with Some t => len t | None => 0 end.

Definition sum_chars {A} (f : A → Z) (l : list A) : Z := foldr (λ x n, f x + n) 0 l.

(** [math.ceil(chars / CHARS_PER_TOKEN)] *)
Definition tokens_of_chars (chars : Z) : Z := (chars + 3) / 4.

(** [src: travis/ai/context_estimate.py:22-22 ESTIMATED_IMAGE_CHARS] *)
Definition ESTIMATED_IMAGE_CHARS : Z := 4800.
Definition CONTEXT_SAFETY_TOKENS : Z := 4096.

(** [src: travis/ai/context_estimate.py:173-191 _content_block_chars] *)
Definition _content_block_chars (b : ContentBlock) : Z :=
  match b with
  | TextContent t s => len t + opt_len s
  | ThinkingContent t s _ => len t + opt_len s
  | ToolCallBlock c =>
      str_len (call_id c) + str_len (call_name c) + json_chars (call_arguments c) + opt_len (call_thought_signature c)
  | ImageContent _ _ => ESTIMATED_IMAGE_CHARS
  end.

(** The characters of a content that is iterated: those of a [str] are its
    blocks. *)
Definition content_chars (c : Content) : Z :=
  match c with Str t => len t | Blocks bs => sum_chars _content_block_chars bs | NoContent => 0 end.

(** [src: travis/ai/context_estimate.py:169-170 estimate_text_tokens] *)
Definition estimate_text_tokens (t : text) : Z := tokens_of_chars (len t).

Section estimate.
(** The length of [json.dumps] of a whole message object. *)
Variable object_chars : Message → Z.

Definition details_chars (m : Message) : Z := match m_details m with Some d => json_chars d | None => 0 end.

(** [src: travis/ai/context_estimate.py:122-162 estimate_message_tokens] *)
Definition estimate_message_tokens (m : Message) : Z :=
  match m_content m with
  | NoContent =>
      if bool_decide (m_role m = other_role "compactionSummary" ∨ m_role m = other_role "branchSummary")
      then tokens_of_chars (len (m_summary m) + details_chars m)
      else tokens_of_chars (object_chars m)
  | c =>
      match m_role m with
      | user => tokens_of_chars (content_chars c)
      | toolResult =>
          tokens_of_chars (str_len (m_tool_call_id m) + str_len (m_tool_name m) + content_chars c + details_chars m)
      | assistant => tokens_of_chars (content_chars c + sum_chars len (m_reasoning m))
      | _ => tokens_of_chars (content_chars c)
      end
  end.

(** [src: travis/ai/context_estimate.py:165-166 estimate_messages_tokens] *)
Definition estimate_messages_tokens (messages : list Message) : Z :=
  sum_chars estimate_message_tokens messages.

(** ** The estimate of a request *)

(** A tool, as far as the estimate goes: its name, and its JSON. *)
Record Tool : Type := { tl_name : string; tl_json : json }.

(** [src: travis/ai/types.py:135-139 Context] *)
Record Context : Type := {
  cx_messages : list Message;
  cx_system_prompt : option text;
  cx_tools : option (list Tool)
}.

(** [src: travis/ai/context_estimate.py:26-35 ContextUsageEstimate] *)
Record ContextUsageEstimate : Type := {
  es_tokens : Z;
  es_usage_tokens : Z;
  es_trailing_tokens : Z;
  es_last_usage_index : option nat;
  es_system_tokens : Z;
  es_tool_tokens : Z;
  es_message_tokens : Z;
  es_confidence : string
}.

(** [src: travis/ai/context_estimate.py:38-45 calculate_prompt_tokens] *)
Definition calculate_prompt_tokens (u : Usage) : Z :=
  Z.max 0 (u_input u) + Z.max 0 (u_cache_read u) + Z.max 0 (u_cache_write u).

(** [src: travis/ai/context_estimate.py:48-54 calculate_total_tokens] *)
Definition calculate_total_tokens (u : Usage) : Z :=
  let reported := Z.max 0 (u_total_tokens u) in
  if reported =? 0 then calculate_prompt_tokens u + Z.max 0 (u_output u) else reported.

(** [src: travis/ai/context_estimate.py:57-60 calculate_context_tokens] *)
Definition calculate_context_tokens (m : Message) : Z := calculate_prompt_tokens (m_usage m).

(** The length of the JSON of a list of tools, and the tokens of it. *)
Definition tools_tokens (tools : list Tool) : Z := tokens_of_chars (json_chars (JList (map tl_json tools))).

(** The loop of [_last_assistant_usage]: the greatest timestamp so far ([None]
    for minus infinity) and the latest result. *)
Fixpoint last_usage (messages : list Message) (index : nat) (latest : option Z) (found : option (Message * nat))
    : option (Message * nat) :=
  match messages with
  | [] => found
  | m :: messages =>
      let usable :=
        bool_decide (m_role m = assistant) && (match latest with Some t => t <=? m_timestamp m | None => true end) &&
        negb (bool_decide (m_stop_reason m ∈ ["aborted"; "error"]%string)) && (0 <? calculate_context_tokens m) in
      last_usage messages (S index)
        (Some (match latest with Some t => Z.max t (m_timestamp m) | None => m_timestamp m end))
        (if usable then Some (m, index) else found)
  end.

(** [src: travis/ai/context_estimate.py:194-206 _last_assistant_usage] *)
Definition _last_assistant_usage (messages : list Message) : option (Message * nat) :=
  last_usage messages 0 None None.

(** [src: travis/ai/context_estimate.py:97-112 estimate_full_context_tokens] *)
Definition estimate_full_context_tokens (c : Context) : ContextUsageEstimate :=
  let message_tokens := sum_chars estimate_message_tokens (cx_messages c) in
  let system_tokens := estimate_text_tokens (default [] (cx_system_prompt c)) in
  let tool_tokens := match cx_tools c with Some (t :: ts) => tools_tokens (t :: ts) | _ => 0 end in
  let total := message_tokens + system_tokens + tool_tokens in
  {| es_tokens := total; es_usage_tokens := 0; es_trailing_tokens := total; es_last_usage_index := None;
     es_system_tokens := system_tokens; es_tool_tokens := tool_tokens; es_message_tokens := message_tokens;
     es_confidence := "estimated_full_request" |}.

(** [src: travis/ai/context_estimate.py:63-94 estimate_context_tokens] *)
Definition estimate_context_tokens (c : Context) : ContextUsageEstimate :=
  match _last_assistant_usage (cx_messages c) with
  | Some (usage_message, index) =>
      let usage_tokens := calculate_context_tokens usage_message in
      let rest := drop (S index) (cx_messages c) in
      let trailing_message_tokens := sum_chars estimate_message_tokens rest in
      let added_names :=
        flat_map (λ m, if bool_decide (m_role m = toolResult) then m_added_tool_names m else []) rest in
      let added_tools := List.filter (λ t, bool_decide (tl_name t ∈ added_names)) (default [] (cx_tools c)) in
      let added_tool_tokens := match added_tools with [] => 0 | _ => tools_tokens added_tools end in
      let trailing := trailing_message_tokens + added_tool_tokens in
      {| es_tokens := usage_tokens + trailing; es_usage_tokens := usage_tokens; es_trailing_tokens := trailing;
         es_last_usage_index := Some index; es_system_tokens := 0; es_tool_tokens := added_tool_tokens;
         es_message_tokens := usage_tokens + trailing_message_tokens;
         es_confidence := if trailing =? 0 then "provider_real" else "estimated_trailing" |}
  | None => estimate_full_context_tokens c
  end.

(** [src: travis/ai/context_estimate.py:115-119 clamp_max_tokens_to_context] *)
Definition clamp_max_tokens_to_context (context_window : Z) (c : Context) (requested : Z) : Z :=
  if context_window <=? 0 then Z.max 1 requested
  else
    let available := context_window - es_tokens (estimate_context_tokens c) - CONTEXT_SAFETY_TOKENS in
    Z.min requested (Z.max 1 available).

End estimate.
