(* ===== verification/TranscriptSpec.v ===== *)
(** The estimate of a request: its parts add up, the provider's own count is used
    where it can be, and the output limit derived from it fits the window. *)

From S2P Require Import Prelude Json JsonText Utf8 Transcript.
Open Scope Z_scope.

(** ** Which usage counts *)

(** Message [i] carries a usage that is not stale: it is no older than anything
    before it, was not cut off, and counts something. *)
Definition usable_at (messages : list Message) (i : nat) (m : Message) : Prop :=
  messages !! i = Some m ∧ m_role m = assistant ∧ Forall (λ e, m_timestamp e ≤ m_timestamp m) (take i messages) ∧
  m_stop_reason m ∉ ["aborted"; "error"]%string ∧ 0 < calculate_context_tokens m.

(** The greatest timestamp of the messages seen. *)
Definition latest_of (seen : list Message) (latest : option Z) : Prop :=
  match latest with
  | None => seen = []
  | Some t => Forall (λ e, m_timestamp e ≤ t) seen ∧ ∃ e, e ∈ seen ∧ m_timestamp e = t
  end.

Lemma latest_step seen latest m : latest_of seen latest →
  latest_of (seen ++ [m]) (Some (match latest with Some t => Z.max t (m_timestamp m) | None => m_timestamp m end)).
Proof.
  destruct latest as [t|]; cbn.
  - intros [Hall (e & He & Het)]. split.
    + apply Forall_app. split; [|repeat constructor; lia]. eapply Forall_impl; [done|]. cbn. lia.
    + destruct (Z.max_spec t (m_timestamp m)) as [[_ ->]|[_ ->]].
      * exists m. split; [|done]. apply elem_of_app. right. by left.
      * exists e. split; [|done]. apply elem_of_app. by left.
  - intros ->. split; [repeat constructor; lia|]. exists m. split; [by left|done].
Qed.

Lemma latest_before seen latest t : latest_of seen latest →
  (match latest with Some u => u <=? t | None => true end) = true ↔ Forall (λ e, m_timestamp e ≤ t) seen.
Proof.
  destruct latest as [u|]; cbn.
  - rewrite Z.leb_le. intros [Hall (e & He & Het)]. rewrite Forall_forall in Hall |- *. split.
    + intros Hu x Hx. specialize (Hall x Hx). lia.
    + intros H. specialize (H e He). lia.
  - by intros ->.
Qed.

(** [found] is the last usable message among those seen. *)
Definition last_usable (seen : list Message) (found : option (Message * nat)) : Prop :=
  match found with
  | Some (m, i) => usable_at seen i m ∧ ∀ j m', usable_at seen j m' → (j ≤ i)%nat
  | None => ∀ j m', ¬ usable_at seen j m'
  end.

Lemma usable_snoc seen m j m' :
  usable_at (seen ++ [m]) j m' ↔ usable_at seen j m' ∨ (j = length seen ∧ m' = m ∧ usable_at (seen ++ [m]) j m').
Proof.
  split.
  - intros H. destruct (id H) as (Hj & Hrest). apply lookup_snoc_Some in Hj as [[Hlt Hj]|[-> ->]]; [left|by right].
    split; [done|]. by rewrite take_app_le in Hrest by lia.
  - intros [(Hj & Hr & Ht & Hs)|(_ & _ & H)]; [|done]. pose proof (lookup_lt_Some _ _ _ Hj) as Hlt.
    split; [by apply lookup_app_l_Some|]. by rewrite take_app_le by lia.
Qed.

Lemma last_usage_spec rest seen latest found :
  latest_of seen latest → last_usable seen found →
  last_usable (seen ++ rest) (last_usage rest (length seen) latest found).
Proof.
  revert seen latest found. induction rest as [|m rest IH]; intros seen latest found Hl Hf; cbn [last_usage].
  - by rewrite app_nil_r.
  - rewrite cons_middle, app_assoc. replace (S (length seen)) with (length (seen ++ [m])) by (rewrite length_app; cbn; lia).
    apply IH; [by apply latest_step|]. set (usable := _ && _ && _ && _).
    assert (usable = true ↔ usable_at (seen ++ [m]) (length seen) m) as Hu.
    { unfold usable, usable_at. rewrite !andb_true_iff, negb_true_iff, Z.ltb_lt, bool_decide_eq_true, bool_decide_eq_false.
      rewrite (latest_before seen) by done. rewrite take_app_length. rewrite lookup_snoc_Some. naive_solver. }
    clearbody usable. destruct usable.
    + split; [by apply Hu|]. intros j m' [(Hj & _)|(-> & _)]%usable_snoc; [|done]. apply lookup_lt_Some in Hj. lia.
    + assert (∀ j m', usable_at (seen ++ [m]) j m' → usable_at seen j m') as Hold.
      { intros j m' [?|(-> & -> & H)]%usable_snoc; [done|]. apply Hu in H. done. }
      destruct found as [[m0 i]|]; cbn in Hf |- *.
      * destruct Hf as [Hf Hlast]. split; [by apply usable_snoc; left|]. eauto.
      * intros j m' H. by eapply Hf, Hold.
Qed.

Lemma last_assistant_usage_spec messages : last_usable messages (_last_assistant_usage messages).
Proof.
  apply (last_usage_spec messages [] None None); [done|]. by intros j m' [Hj _].
Qed.

(** ** Sizes are not negative *)

Lemma sum_chars_nonneg {A} (f : A → Z) l : (∀ x, 0 ≤ f x) → 0 ≤ sum_chars f l.
Proof. intros Hf. induction l as [|x l IH]; cbn; [lia|]. specialize (Hf x). fold (sum_chars f l). lia. Qed.

Lemma tokens_nonneg chars : 0 ≤ chars → 0 ≤ tokens_of_chars chars.
Proof. intros. apply Z.div_pos; lia. Qed.

Lemma block_chars_nonneg b : 0 ≤ _content_block_chars b.
Proof. destruct b as [? []|? [] ?| |[? ? ? []]]; cbn; unfold len, str_len, json_chars, ESTIMATED_IMAGE_CHARS; lia. Qed.

Lemma content_chars_nonneg c : 0 ≤ content_chars c.
Proof. destruct c; cbn; [unfold len; lia| |lia]. apply sum_chars_nonneg, block_chars_nonneg. Qed.

Section estimate.
Variable object_chars : Message → Z.
Hypothesis object_chars_nonneg : ∀ m, 0 ≤ object_chars m.

Lemma message_tokens_nonneg m : 0 ≤ estimate_message_tokens object_chars m.
Proof.
  unfold estimate_message_tokens. pose proof (content_chars_nonneg (m_content m)) as Hc.
  assert (0 ≤ details_chars m) by (unfold details_chars, json_chars; case_match; lia).
  assert (0 ≤ sum_chars len (m_reasoning m)) by (apply sum_chars_nonneg; intros; unfold len; lia).
  pose proof (object_chars_nonneg m).
  repeat case_match; apply tokens_nonneg; unfold str_len, len in *; lia.
Qed.

Lemma tools_tokens_nonneg tools : 0 ≤ tools_tokens tools.
Proof. apply tokens_nonneg. unfold json_chars. lia. Qed.

(** The estimate of a request adds up and uses the provider's own count where it can: the tokens are those
    of the system prompt, the tools and the messages, and also the counted plus the estimated ones; the count
    is taken from the last message of the model that is not older than a message before it, was not aborted
    and counts something, and everything after that message is estimated; with no such message the whole
    request is estimated. *)
Theorem estimate_adds_up c :
  let e := estimate_context_tokens object_chars c in
  es_tokens e = es_system_tokens e + es_tool_tokens e + es_message_tokens e ∧
  es_tokens e = es_usage_tokens e + es_trailing_tokens e ∧ 0 ≤ es_trailing_tokens e ∧ 0 ≤ es_usage_tokens e ∧
  match es_last_usage_index e with
  | Some i =>
      ∃ m, usable_at (cx_messages c) i m ∧ (∀ j m', usable_at (cx_messages c) j m' → (j ≤ i)%nat) ∧
        es_usage_tokens e = calculate_prompt_tokens (m_usage m) ∧
        estimate_messages_tokens object_chars (drop (S i) (cx_messages c)) ≤ es_trailing_tokens e
  | None =>
      (∀ j m', ¬ usable_at (cx_messages c) j m') ∧
      es_message_tokens e = estimate_messages_tokens object_chars (cx_messages c)
  end.
Proof.
  cbn zeta. unfold estimate_context_tokens. pose proof (last_assistant_usage_spec (cx_messages c)) as Hl.
  pose proof (λ l, sum_chars_nonneg _ l message_tokens_nonneg) as Hn.
  destruct (_last_assistant_usage (cx_messages c)) as [[m i]|].
  - cbn in Hl. destruct Hl as [Hm Hlast]. set (tools := match List.filter _ _ with [] => 0 | _ => _ end).
    assert (0 ≤ tools) as Ht by (unfold tools; case_match; [lia|apply tools_tokens_nonneg]). clearbody tools.
    assert (0 < calculate_context_tokens m) as Hu by apply Hm.
    specialize (Hn (drop (S i) (cx_messages c))). cbn -[sum_chars drop estimate_message_tokens]. split_and!; try lia.
    exists m. split_and!; [done..|]. unfold estimate_messages_tokens. lia.
  - unfold estimate_full_context_tokens. set (tools := match cx_tools c with Some _ => _ | None => _ end).
    assert (0 ≤ tools) as Ht by (unfold tools; repeat case_match; try lia; apply tools_tokens_nonneg). clearbody tools.
    specialize (Hn (cx_messages c)).
    assert (0 ≤ estimate_text_tokens (default [] (cx_system_prompt c))) by (apply tokens_nonneg; unfold len; lia).
    cbn -[sum_chars estimate_message_tokens]. split_and!; try lia; done.
Qed.

(** The output limit sent with a request is at least one token and no more than was asked for; when it is more
    than one token, the estimated request, the limit and the safety margin fit the window. *)
Theorem output_limit_fits context_window c requested :
  1 ≤ requested →
  let limit := clamp_max_tokens_to_context object_chars context_window c requested in
  1 ≤ limit ≤ requested ∧
  (0 < context_window → 1 < limit →
   es_tokens (estimate_context_tokens object_chars c) + limit + CONTEXT_SAFETY_TOKENS ≤ context_window).
Proof.
  intros Hr limit. unfold limit, clamp_max_tokens_to_context. destruct (Z.leb_spec context_window 0); lia.
Qed.

End estimate.

(** A request whose second message was counted by the provider. *)
Definition counted_request : Context :=
  let asked := new_message user (Str [104; 105]) 1 in
  let answer :=
    {| m_role := assistant; m_content := Blocks [TextContent [111; 107] None]; m_timestamp := 2;
       m_usage := {| u_input := 100; u_output := 7; u_cache_read := 20; u_cache_write := 0; u_total_tokens := 127 |};
       m_stop_reason := "stop"; m_tool_call_id := ""; m_tool_name := ""; m_details := None; m_added_tool_names := [];
       m_reasoning := []; m_summary := []; m_compressed_summary := false; m_compressed_count := None;
       m_non_turn_user := false |} in
  {| cx_messages := [asked; answer; new_message user (Str [109; 111; 114; 101; 33]) 3];
     cx_system_prompt := Some [98; 101]; cx_tools := None |}.

Example counted_request_estimate :
  let e := estimate_context_tokens (λ _, 0) counted_request in
  (es_tokens e, es_usage_tokens e, es_last_usage_index e, es_confidence e) = (122, 120, Some 1%nat, "estimated_trailing"%string).
Proof. by vm_compute. Qed.

Lemma estimate_adds_up_witness :
  es_tokens (estimate_context_tokens (λ _, 0) counted_request)
  = es_usage_tokens (estimate_context_tokens (λ _, 0) counted_request)
    + es_trailing_tokens (estimate_context_tokens (λ _, 0) counted_request).
Proof. apply (estimate_adds_up (λ _, 0)). intros m. reflexivity || lia. Defined.
