(* ===== verification/ContextBudget.v ===== *)
(** The token budget of context compaction: [compaction/policy.py].

    Ratios are binary64 floats ([PyFloat]); an integer times a float converts the
    integer first, which raises [OverflowError] when it is too large. *)

From S2P Require Import Prelude PyFloat.
Open Scope Z_scope.

Inductive budget_error : Type := WindowNotPositive | Overflow | FloatNotFinite.

(** [src: travis/compaction/policy.py:11-11 MINIMUM_CONTEXT_TOKENS] *)
Definition MINIMUM_CONTEXT_TOKENS : Z := 64000.
(** [src: travis/compaction/policy.py:12-12 SMALL_CONTEXT_WINDOW_LIMIT] *)
Definition SMALL_CONTEXT_WINDOW_LIMIT : Z := 512000.
(** 0.75

    [src: travis/compaction/policy.py:13-13 SMALL_CONTEXT_THRESHOLD_RATIO] *)
Definition SMALL_CONTEXT_THRESHOLD_RATIO : float64 := fl_lit 3 (-2).
(** 0.85

    [src: travis/compaction/policy.py:14-14 MINIMUM_WINDOW_TRIGGER_RATIO] *)
Definition MINIMUM_WINDOW_TRIGGER_RATIO : float64 := fl_lit 7656119366529843 (-53).
(** [src: travis/compaction/policy.py:15-15 SUMMARY_TOKENS_CEILING] *)
Definition SUMMARY_TOKENS_CEILING : Z := 10000.
(** [src: travis/compaction/policy.py:16-16 SUMMARY_PROMPT_RESERVE_TOKENS] *)
Definition SUMMARY_PROMPT_RESERVE_TOKENS : Z := 4096.

(** The literals 0.05, 0.10, 0.20, 0.25, 0.50, 0.80, 0.95 and 1.5. *)
Definition fl_0_05 : float64 := fl_lit 3602879701896397 (-56).
Definition fl_0_10 : float64 := fl_lit 3602879701896397 (-55).
Definition fl_0_20 : float64 := fl_lit 3602879701896397 (-54).
Definition fl_0_25 : float64 := fl_lit 1 (-2).
Definition fl_0_50 : float64 := fl_lit 1 (-1).
Definition fl_0_80 : float64 := fl_lit 3602879701896397 (-52).
Definition fl_0_95 : float64 := fl_lit 4278419646001971 (-52).
Definition fl_1_5 : float64 := fl_lit 3 (-1).

(** [src: travis/compaction/policy.py:19-27 CompactionPolicyInput] *)
Record CompactionPolicyInput : Type := {
  pi_context_window : Z;
  pi_max_output_tokens : Z;
  pi_model_id : string;
  pi_threshold_ratio : float64;
  pi_summary_target_ratio : float64;
  pi_summarizer_context_window : option Z;
  pi_summarizer_max_output_tokens : Z
}.

(** [src: travis/compaction/policy.py:30-38 CompactionBudget] *)
Record CompactionBudget : Type := {
  bu_effective_input_tokens : Z;
  bu_trigger_tokens : Z;
  bu_tail_target_tokens : Z;
  bu_tail_soft_ceiling_tokens : Z;
  bu_summary_max_tokens : Z;
  bu_threshold_ratio : float64;
  bu_reason : string
}.

(** [int(z * r)] *)
Definition int_times (z : Z) (r : float64) : result budget_error Z :=
  if fl_finite (fl_of_Z z) then
    if fl_finite (fl_mul (fl_of_Z z) r) then Ok (fl_trunc (fl_mul (fl_of_Z z) r)) else Err FloatNotFinite
  else Err Overflow.

(** [src: travis/compaction/policy.py:97-102 _positive_int] *)
Definition _positive_int (value : option Z) : Z :=
  let parsed := default 0 value in if 0 <? parsed then parsed else 0.

(** [src: travis/compaction/policy.py:105-106 _clamp] *)
Definition _clamp (value minimum maximum : float64) : float64 := fl_max minimum (fl_min value maximum).

(** [src: travis/compaction/policy.py:41-94 calculate_compaction_budget] *)
Definition calculate_compaction_budget (i : CompactionPolicyInput) : result budget_error CompactionBudget :=
  let context_window := pi_context_window i in
  if context_window <=? 0 then Err WindowNotPositive
  else
    let max_output := _positive_int (Some (pi_max_output_tokens i)) in
    let effective_input := context_window - max_output in
    let effective_input := if effective_input <=? 0 then context_window else effective_input in
    let configured_ratio := _clamp (pi_threshold_ratio i) fl_0_10 fl_0_95 in
    let small := context_window <? SMALL_CONTEXT_WINDOW_LIMIT in
    let threshold_ratio := if small then fl_max configured_ratio SMALL_CONTEXT_THRESHOLD_RATIO else configured_ratio in
    let reason :=
      (if small && negb (fl_eqb threshold_ratio configured_ratio) then "small_context_floor"
       else "configured_threshold")%string in
    percentage_trigger ← int_times effective_input threshold_ratio;
    let trigger := Z.max percentage_trigger MINIMUM_CONTEXT_TOKENS in
    '(trigger, reason) ←
      (if effective_input <=? trigger then
         t ← int_times effective_input MINIMUM_WINDOW_TRIGGER_RATIO;
         Ok (Z.max 1 (Z.min t (effective_input - 1)), "small_window_fallback"%string)
       else Ok (trigger, reason));
    s ← int_times context_window fl_0_05;
    let summary_max := Z.max 1 (Z.min s SUMMARY_TOKENS_CEILING) in
    let summarizer_window := _positive_int (pi_summarizer_context_window i) in
    let '(trigger, reason) :=
      if summarizer_window =? 0 then (trigger, reason)
      else
        let out := _positive_int (Some (pi_summarizer_max_output_tokens i)) in
        let summarizer_output := if out =? 0 then summary_max else out in
        let maximum_summary_input :=
          Z.max 1 (summarizer_window - summarizer_output - SUMMARY_PROMPT_RESERVE_TOKENS) in
        if maximum_summary_input <? trigger then (maximum_summary_input, "auxiliary_model_capacity"%string)
        else (trigger, reason) in
    let summary_ratio := _clamp (pi_summary_target_ratio i) fl_0_10 fl_0_80 in
    t ← int_times trigger summary_ratio;
    let tail_target := Z.max 1 t in
    c ← int_times tail_target fl_1_5;
    Ok {| bu_effective_input_tokens := effective_input; bu_trigger_tokens := trigger;
          bu_tail_target_tokens := tail_target; bu_tail_soft_ceiling_tokens := Z.max tail_target c;
          bu_summary_max_tokens := summary_max; bu_threshold_ratio := threshold_ratio; bu_reason := reason |}.

(** The budgets of [tests/test_compaction_policy.py]. *)
Definition budget_input (window output : Z) : CompactionPolicyInput :=
  {| pi_context_window := window; pi_max_output_tokens := output; pi_model_id := "";
     pi_threshold_ratio := fl_0_50; pi_summary_target_ratio := fl_0_20;
     pi_summarizer_context_window := None; pi_summarizer_max_output_tokens := 0 |}.

Example budget_128k :
  (λ b, (bu_trigger_tokens b, bu_tail_target_tokens b, bu_reason b))
    <$> calculate_compaction_budget (budget_input 128000 8192)
  = Ok (89856, 17971, "small_context_floor"%string).
Proof. by vm_compute. Qed.

Example budget_32k :
  (λ b, (bu_effective_input_tokens b, bu_trigger_tokens b, bu_reason b))
    <$> calculate_compaction_budget (budget_input 32000 4096)
  = Ok (27904, 23718, "small_window_fallback"%string).
Proof. by vm_compute. Qed.
