(* ===== verification/ContextBudgetSpec.v ===== *)
(** The compaction budget is reachable: every share it gives out fits the window
    it was computed for. *)

From S2P Require Import Prelude PyFloat PyFloatSpec ContextBudget.
From Stdlib Require Import SpecFloat.
Open Scope Z_scope.

(** A float a Python program can hold. *)
Definition valid_float (r : float64) : Prop := valid_binary fl_prec fl_emax r = true.

Lemma int_times_ok z c r :
  0 ≤ z → 0 ≤ c → z < 2 ^ 53 → c * z < 2 ^ 53 → fl_at_most c r → ∃ v, int_times z r = Ok v ∧ 0 ≤ v ≤ c * z.
Proof.
  intros Hz Hc Hz53 Hcz Hr. destruct (mul_at_most z c r Hz Hc Hz53 Hcz Hr) as (Hf & Hm & Hv).
  unfold int_times. rewrite Hf, Hm. by eexists.
Qed.

Lemma literal_at_most (c : Z) (r : float64) (m : positive) (e : Z) :
  r = S754_finite false m e → at_most (Z.pos m) e c → fl_at_most c r.
Proof. intros -> H. by exists m, e. Qed.

Lemma fl_0_05_at_most : fl_at_most 1 fl_0_05.
Proof. eapply literal_at_most; [vm_compute; reflexivity|by vm_compute]. Qed.
Lemma fl_0_10_at_most : fl_at_most 1 fl_0_10.
Proof. eapply literal_at_most; [vm_compute; reflexivity|by vm_compute]. Qed.
Lemma small_ratio_at_most : fl_at_most 1 SMALL_CONTEXT_THRESHOLD_RATIO.
Proof. eapply literal_at_most; [vm_compute; reflexivity|by vm_compute]. Qed.
Lemma window_ratio_at_most : fl_at_most 1 MINIMUM_WINDOW_TRIGGER_RATIO.
Proof. eapply literal_at_most; [vm_compute; reflexivity|by vm_compute]. Qed.
Lemma fl_1_5_at_most : fl_at_most 2 fl_1_5.
Proof. eapply literal_at_most; [vm_compute; reflexivity|by vm_compute]. Qed.

Lemma fl_max_at_most c x y : fl_at_most c x → fl_at_most c y → fl_at_most c (fl_max x y).
Proof. intros. unfold fl_max. by case_match. Qed.

(** Clamping gives a positive float that is not above the upper limit. *)
Lemma clamp_at_most r lo hi mh eh :
  hi = S754_finite false mh eh → 2 ^ 52 ≤ Z.pos mh → eh ≤ 0 → at_most (Z.pos mh) eh 1 →
  fl_at_most 1 lo → valid_float r → fl_at_most 1 (_clamp r lo hi).
Proof.
  intros -> Hm He Hhi Hlo Hv. unfold _clamp, fl_max, fl_min.
  destruct (fl_ltb (S754_finite false mh eh) r) eqn:Hlt.
  - case_match; [by exists mh, eh|done].
  - destruct (fl_ltb lo r) eqn:Hl; [|done]. destruct Hlo as (ml & el & -> & _).
    destruct r as [s|[]| |[] m e]; try discriminate Hl; try discriminate Hlt.
    exists m, e. split; [done|]. by eapply not_below.
Qed.

Lemma threshold_clamp_at_most r : valid_float r → fl_at_most 1 (_clamp r fl_0_10 fl_0_95).
Proof.
  intros Hv. eapply clamp_at_most; [vm_compute; reflexivity|by vm_compute..| |done]. apply fl_0_10_at_most.
Qed.

Lemma summary_clamp_at_most r : valid_float r → fl_at_most 1 (_clamp r fl_0_10 fl_0_80).
Proof.
  intros Hv. eapply clamp_at_most; [vm_compute; reflexivity|by vm_compute..| |done]. apply fl_0_10_at_most.
Qed.

(** ** The budget *)

Record budget_ok (i : CompactionPolicyInput) (b : CompactionBudget) : Prop := {
  ok_effective : 0 < bu_effective_input_tokens b ≤ pi_context_window i;
  ok_reserved : 0 ≤ pi_max_output_tokens i < pi_context_window i →
    bu_effective_input_tokens b + pi_max_output_tokens i = pi_context_window i;
  ok_trigger : 1 ≤ bu_trigger_tokens b ≤ bu_effective_input_tokens b ∧ (2 ≤ bu_effective_input_tokens b → bu_trigger_tokens b < bu_effective_input_tokens b);
  ok_summarizer : ∀ w, pi_summarizer_context_window i = Some w → 0 < w →
    bu_trigger_tokens b ≤ Z.max 1 (w - (if 0 <? pi_summarizer_max_output_tokens i then pi_summarizer_max_output_tokens i
                                        else bu_summary_max_tokens b) - SUMMARY_PROMPT_RESERVE_TOKENS);
  ok_tail : 1 ≤ bu_tail_target_tokens b ≤ bu_trigger_tokens b;
  ok_soft : bu_tail_target_tokens b ≤ bu_tail_soft_ceiling_tokens b ≤ 2 * bu_tail_target_tokens b;
  ok_summary : 1 ≤ bu_summary_max_tokens b ≤ SUMMARY_TOKENS_CEILING
}.

Lemma budget_reachable_lemma i :
  pi_context_window i < 2 ^ 52 → valid_float (pi_threshold_ratio i) → valid_float (pi_summary_target_ratio i) →
  (pi_context_window i ≤ 0 ∧ calculate_compaction_budget i = Err WindowNotPositive)
  ∨ ∃ b, calculate_compaction_budget i = Ok b ∧ budget_ok i b.
Proof.
  intros Hw Ht Hs. unfold calculate_compaction_budget.
  destruct (Z.leb_spec (pi_context_window i) 0) as [|Hpos]; [by left|right].
  set (eff := if pi_context_window i - _ <=? 0 then _ else _).
  assert (0 < eff ≤ pi_context_window i) as Heff.
  { unfold eff, _positive_int. cbn [default from_option id]. destruct (Z.ltb_spec 0 (pi_max_output_tokens i)); match goal with |- context [?a <=? 0] => destruct (Z.leb_spec a 0) end; lia. }
  assert (0 ≤ pi_max_output_tokens i < pi_context_window i → eff + pi_max_output_tokens i = pi_context_window i) as Hres.
  { unfold eff, _positive_int. cbn [default from_option id]. destruct (Z.ltb_spec 0 (pi_max_output_tokens i)); match goal with |- context [?a <=? 0] => destruct (Z.leb_spec a 0) end; lia. }
  clearbody eff. cbn zeta.
  set (ratio := if pi_context_window i <? _ then _ else _).
  assert (fl_at_most 1 ratio) as Hratio.
  { unfold ratio. case_match; [apply fl_max_at_most|]; auto using threshold_clamp_at_most, small_ratio_at_most. }
  clearbody ratio.
  destruct (int_times_ok eff 1 ratio) as (pct & -> & Hpct); [lia..|done|]. cbn [mbind result_bind].
  set (first := if eff <=? Z.max pct _ then _ else _).
  assert (∃ t reason, first = Ok (t, reason) ∧ 1 ≤ t ≤ eff ∧ (2 ≤ eff → t < eff)) as (t & reason & -> & Ht1 & Hteff).
  { unfold first, MINIMUM_CONTEXT_TOKENS. destruct (Z.leb_spec eff (Z.max pct 64000)).
    - destruct (int_times_ok eff 1 MINIMUM_WINDOW_TRIGGER_RATIO) as (v & -> & Hv); [lia..|apply window_ratio_at_most|].
      cbn [mbind result_bind]. do 2 eexists. split; [done|]. lia.
    - do 2 eexists. split; [done|]. lia. }
  cbn [mbind result_bind].
  destruct (int_times_ok (pi_context_window i) 1 fl_0_05) as (s & -> & Hsm); [lia..|apply fl_0_05_at_most|].
  cbn [mbind result_bind]. set (summary_max := Z.max 1 (Z.min s _)).
  assert (1 ≤ summary_max ≤ SUMMARY_TOKENS_CEILING) as Hmax by (unfold summary_max, SUMMARY_TOKENS_CEILING; lia).
  clearbody summary_max.
  set (capped := if _positive_int (pi_summarizer_context_window i) =? 0 then _ else _).
  assert (∃ t' reason', capped = (t', reason') ∧ 1 ≤ t' ≤ t ∧
    ∀ w, pi_summarizer_context_window i = Some w → 0 < w →
      t' ≤ Z.max 1 (w - (if 0 <? pi_summarizer_max_output_tokens i then pi_summarizer_max_output_tokens i
                         else summary_max) - SUMMARY_PROMPT_RESERVE_TOKENS)) as (t' & reason' & -> & Ht' & Hcap).
  { unfold capped, _positive_int.
    destruct (pi_summarizer_context_window i) as [w|]; cbn [default from_option id]; [|do 2 eexists; split; [done|split; [lia|done]]].
    destruct (Z.ltb_spec 0 w); [|do 2 eexists; split; [done|split; [lia|intros ? [= <-]; lia]]].
    rewrite (proj2 (Z.eqb_neq w 0)) by lia.
    destruct (Z.ltb_spec 0 (pi_summarizer_max_output_tokens i)); [rewrite (proj2 (Z.eqb_neq (pi_summarizer_max_output_tokens i) 0)) by lia|cbn [Z.eqb]];
      match goal with |- context [?a <? t] => destruct (Z.ltb_spec a t) end;
      do 2 eexists; (split; [done|]); (split; [lia|]); intros w' [= <-] _; lia. }
  destruct (int_times_ok t' 1 (_clamp (pi_summary_target_ratio i) fl_0_10 fl_0_80)) as (tail & -> & Htail);
    [lia..|by apply summary_clamp_at_most|]. cbn [mbind result_bind].
  destruct (int_times_ok (Z.max 1 tail) 2 fl_1_5) as (soft & -> & Hsoft); [lia..|apply fl_1_5_at_most|].
  cbn [mbind result_bind]. eexists. split; [done|]. split; cbn; lia || done || (split; lia || auto with lia).
Qed.


