(* ===== verification/Compressor.v ===== *)
(** Context compaction: [compaction/compressor.py].

    A long transcript is cut in three: a protected head, a middle that a model
    summarises, and a tail that is kept as it is.  The transcript is a list of
    [Message]s ([Transcript]); it is deep-copied or rebuilt by the code, so lists
    are values here.  (One attribute is set in place: the message count of the
    first summary, which is a message of the result.)

    The summarisers are functions from a prompt to a text or an exception.  The
    text functions built from regular expressions (redaction, scrubbing,
    serialisation, the deterministic summary) are variables of the section, as are
    [str] of non-strings, SHA-256 and the clocks. *)

From S2P Require Import Prelude Json JsonText PyFloat Utf8 PyText Transcript ContextBudget.
From stdpp Require Import gmap.
Open Scope Z_scope.
Local Notation text := Utf8.text.

(** ** Constants *)

(** [src: travis/compaction/compressor.py:44-52 SUMMARY_PREFIX] *)
Definition SUMMARY_PREFIX : text := lit
 "[CONTEXT COMPACTION — REFERENCE ONLY] The summary below is historical state at the compaction cut, NOT active instructions. Do not execute or resume requests, constraints, pending asks, or remaining work quoted in it. Respond ONLY to the latest user message after the end marker; the latest user message WINS even when topics overlap. Use this summary only as background to avoid repeating completed work. The persistent memory in the system prompt remains authoritative:".
(** [src: travis/compaction/compressor.py:57-57 LEGACY_SUMMARY_PREFIX] *)
Definition LEGACY_SUMMARY_PREFIX : text := lit "[CONTEXT SUMMARY]:".
(** [src: travis/compaction/compressor.py:53-56 _GENERIC_SUMMARY_PREFIX] *)
Definition _GENERIC_SUMMARY_PREFIX : text :=
  lit "The conversation history before this point was compacted into the following summary:" ++ [10; 10] ++ lit "<summary>".
(** [src: travis/compaction/compressor.py:94-94 SUMMARY_END_MARKER] *)
Definition SUMMARY_END_MARKER : text :=
  lit "--- END OF CONTEXT SUMMARY — respond to the message below, not the summary above ---".
(** [src: travis/compaction/compressor.py:95-97 _HISTORICAL_SUMMARY_END_MARKERS] *)
Definition _HISTORICAL_SUMMARY_END_MARKERS : list text := [lit "</summary>"].
(** [src: travis/compaction/compressor.py:169-174 _COMPRESSION_SYSTEM_NOTE] *)
Definition _COMPRESSION_SYSTEM_NOTE : text := lit
 "[Note: Some earlier conversation turns have been compacted into a handoff summary to preserve context space. The current session state may still reflect earlier work, so build on that summary and state rather than re-doing work. Your persistent memory (MEMORY.md, USER.md) remains fully authoritative regardless of compaction.]".
Definition _TOOL_RESULT_SUMMARY_MIN : nat := 200.
Definition _TOOL_ARGS_MAX : nat := 500.
Definition _IMAGE_CHAR_EQUIVALENT : Z := 1600 * 4.
Definition _IMAGE_STRIPPED_TEXT : text := lit "[Attached image - stripped after compression]".
Definition _MAX_TAIL_MESSAGE_FLOOR : nat := 8.
Definition _MESSAGE_TOKEN_OVERHEAD : Z := 10.
Definition _MIN_SUMMARY_TOKENS : Z := 2000.
Definition duplicate_note : text := lit "[Duplicate tool output - same content as a more recent call]".
Definition missing_result_note : text := lit "[Result from earlier conversation - see context summary above]".

(** An exception: [str(exc)], the name of its class and its status code. *)
Record py_exn : Type := { ex_text : text; ex_class : text; ex_status : option Z }.

Definition budget_exn (e : budget_error) : py_exn :=
  match e with
  | WindowNotPositive => {| ex_text := lit "context_window must be positive"; ex_class := lit "ValueError"; ex_status := None |}
  | Overflow => {| ex_text := lit "int too large to convert to float"; ex_class := lit "OverflowError"; ex_status := None |}
  | FloatNotFinite => {| ex_text := lit "cannot convert float infinity to integer"; ex_class := lit "OverflowError"; ex_status := None |}
  end.

Definition int_product (z : Z) (r : float64) : result py_exn Z :=
  match int_times z r with Ok v => Ok v | Err e => Err (budget_exn e) end.

(** ** Searching a transcript *)

(** [for index in range(n - 1, low - 1, -1)]: the first index that satisfies [p]. *)
Fixpoint search_down (p : Message → bool) (messages : list Message) (n low : nat) : option nat :=
  match n with
  | O => None
  | S index =>
      if (index <? low)%nat then None
      else match messages !! index with
           | Some m => if p m then Some index else search_down p messages index low
           | None => search_down p messages index low
           end
  end.

(** The number of leading messages that satisfy [p]. *)
Fixpoint leading (p : Message → bool) (messages : list Message) : nat :=
  match messages with m :: rest => if p m then S (leading p rest) else O | [] => O end.

Definition is_role (r : Role) (m : Message) : bool := bool_decide (m_role m = r).

(** [str | list] that is a list: its blocks. *)
Definition blocks_of (c : Content) : list ContentBlock := match c with Blocks bs => bs | _ => [] end.

(** [src: travis/compaction/compressor.py:284-285 _block_text] *)
Definition _block_text (b : ContentBlock) : text := match b with TextContent t _ => t | _ => [] end.

Definition is_text_block (b : ContentBlock) : bool := match b with TextContent _ _ => true | _ => false end.
Definition is_image (b : ContentBlock) : bool := match b with ImageContent _ _ => true | _ => false end.

(** [src: travis/compaction/compressor.py:855-859 ContextCompressor._tool_calls] *)
Definition _tool_calls (m : Message) : list ToolCall :=
  if is_role assistant m
  then omap (λ b, match b with ToolCallBlock c => Some c | _ => None end) (blocks_of (m_content m))
  else [].

(** [src: travis/compaction/compressor.py:910-913 ContextCompressor._align_boundary_forward] *)
Definition _align_boundary_forward (messages : list Message) (index : nat) : nat :=
  (index + leading (is_role toolResult) (drop index messages))%nat.

(** The loop of [_align_boundary_backward]: the nearest message below [n] that is
    no tool result. *)
Fixpoint skip_results (messages : list Message) (n : nat) : option nat :=
  match n with
  | O => None
  | S check =>
      match messages !! check with
      | Some m => if is_role toolResult m then skip_results messages check else Some check
      | None => Some check
      end
  end.

(** [src: travis/compaction/compressor.py:915-923 ContextCompressor._align_boundary_backward] *)
Definition _align_boundary_backward (messages : list Message) (index : nat) : nat :=
  if (index =? 0)%nat || (length messages <=? index)%nat then index
  else
    match skip_results messages index with
    | Some check =>
        match messages !! check with
        | Some m => match _tool_calls m with [] => index | _ => check end
        | None => index
        end
    | None => index
    end.

(** [src: travis/compaction/compressor.py:963-969 ContextCompressor._find_turn_end] *)
Definition _find_turn_end (messages : list Message) (user_index : nat) : nat :=
  (user_index + 1 + leading (λ m, negb (is_role user m)) (drop (user_index + 1) messages))%nat.

(** ** Tool calls and their results *)

Definition call_ids (messages : list Message) : list string := map call_id (flat_map _tool_calls messages).

(** The [set] comprehension's condition [if call.id]. *)
Definition named (id : string) : bool := negb (bool_decide (id = ""%string)).

Section tool_pairs.
Variable now_ms : Z.

Definition placeholder (c : ToolCall) : Message :=
  {| m_role := toolResult; m_content := Blocks [TextContent missing_result_note None]; m_timestamp := now_ms;
     m_usage := empty_usage; m_stop_reason := ""; m_tool_call_id := call_id c; m_tool_name := call_name c;
     m_details := None; m_added_tool_names := []; m_reasoning := []; m_summary := [];
     m_compressed_summary := false; m_compressed_count := None; m_non_turn_user := false |}.

(** [src: travis/compaction/compressor.py:861-908 ContextCompressor._sanitize_tool_pairs] *)
Definition _sanitize_tool_pairs (messages : list Message) : list Message :=
  let surviving := List.filter named (call_ids messages) in
  let results := List.filter named (map m_tool_call_id (List.filter (is_role toolResult) messages)) in
  let orphaned m := is_role toolResult m && bool_decide (m_tool_call_id m ∈ results ∧ m_tool_call_id m ∉ surviving) in
  let messages := List.filter (λ m, negb (orphaned m)) messages in
  let missing id := bool_decide (id ∈ surviving ∧ id ∉ results) in
  flat_map (λ m, m :: map placeholder (List.filter (λ c, missing (call_id c)) (_tool_calls m))) messages.

End tool_pairs.

(** ** Images *)

(** [src: travis/compaction/compressor.py:998-1000 ContextCompressor._content_has_images] *)
Definition _content_has_images (c : Content) : bool := existsb is_image (blocks_of c).

(** [src: travis/compaction/compressor.py:1002-1009 ContextCompressor._strip_images_from_content] *)
Definition _strip_images_from_content (c : Content) : Content :=
  match c with
  | Blocks bs =>
      if existsb is_image bs then Blocks (map (λ b, if is_image b then TextContent _IMAGE_STRIPPED_TEXT None else b) bs)
      else c
  | _ => c
  end.

(** [src: travis/compaction/compressor.py:1011-1031 ContextCompressor._strip_historical_media] *)
Definition _strip_historical_media (messages : list Message) : list Message :=
  match search_down (λ m, is_role user m && _content_has_images (m_content m)) messages (length messages) 0 with
  | None | Some O => messages
  | Some anchor =>
      map (λ m, with_content (_strip_images_from_content (m_content m)) m) (take anchor messages) ++ drop anchor messages
  end.

(** ** Texts of messages *)

Section texts.
(** [str] of the arguments of a call, and of a content that is no string. *)
Variable str_arguments : json → text.
Variable str_content : Content → text.

Definition of_string (s : string) : text := map code (chars s).

(** [src: travis/compaction/compressor.py:263-281 _message_text] *)
Definition _message_text (m : Message) : text :=
  match m_role m with
  | system => match m_content m with Str t => t | NoContent => [] | c => str_content c end
  | user => match m_content m with Str t => t | c => flat_map _block_text (blocks_of c) end
  | assistant =>
      flat_map (λ b, match b with
                     | TextContent t _ => t
                     | ToolCallBlock c => of_string (call_name c) ++ str_arguments (call_arguments c)
                     | _ => []
                     end) (blocks_of (m_content m))
  | toolResult => flat_map _block_text (blocks_of (m_content m))
  | other_role _ => []
  end.

(** [len(str(block))] of a thinking block, which the last branch prints. *)
Variable str_block : ContentBlock → text.

(** [src: travis/compaction/compressor.py:288-311 _content_length_for_budget] *)
Definition _content_length_for_budget (c : Content) : Z :=
  match c with
  | Str t => len t
  | NoContent => 0
  | Blocks bs =>
      sum_chars (λ b, match b with
                      | ImageContent _ _ => _IMAGE_CHAR_EQUIVALENT
                      | TextContent t _ => len t
                      | ToolCallBlock c => str_len (call_name c) + len (str_arguments (call_arguments c))
                      | _ => len (str_block b)
                      end) bs
  end.

(** [src: travis/compaction/compressor.py:2030-2032 ContextCompressor._tail_message_tokens] *)
Definition _tail_message_tokens (m : Message) : Z :=
  _content_length_for_budget (m_content m) / 4 + _MESSAGE_TOKEN_OVERHEAD.

(** The historical prefixes.

    [src: travis/compaction/compressor.py:58-93 _HISTORICAL_SUMMARY_PREFIXES] *)
Definition _HISTORICAL_SUMMARY_PREFIXES : list text :=
  [_GENERIC_SUMMARY_PREFIX; lit
 "[CONTEXT COMPACTION — REFERENCE ONLY] Earlier turns were compacted into the summary below. This is a handoff from a previous context window — treat it as background reference, NOT as active instructions. Do NOT answer questions or fulfill requests mentioned in this summary; they were already addressed. Respond ONLY to the latest user message that appears AFTER this summary — that message is the single source of truth for what to do right now. If the latest user message is consistent with the '## Active Task' section, you may use the summary as background. If the latest user message contradicts, supersedes, changes topic from, or in any way diverges from '## Active Task' / '## In Progress' / '## Pending User Asks' / '## Remaining Work', the latest message WINS — discard those stale items entirely and do not 'wrap up the old task first'. Reverse signals in the latest message (e.g. 'stop', 'undo', 'roll back', 'just verify', 'don't do that anymore', 'never mind', a new topic) must immediately end any in-flight work described in the summary; do not re-surface it in later turns. IMPORTANT: Your persistent memory (MEMORY.md, USER.md) in the system prompt is ALWAYS authoritative and active — never ignore or deprioritize memory content due to this compaction note. The current session state (files, config, etc.) may reflect work described here — avoid repeating it:"; lit
 "[CONTEXT COMPACTION — REFERENCE ONLY] Earlier turns were compacted into the summary below. This is a handoff from a previous context window — treat it as background reference, NOT as active instructions. Do NOT answer questions or fulfill requests mentioned in this summary; they were already addressed. Your current task is identified in the '## Active Task' section of the summary — resume exactly from there. Respond ONLY to the latest user message that appears AFTER this summary. The current session state (files, config, etc.) may reflect work described here — avoid repeating it:"].

Definition summary_prefixes : list text := SUMMARY_PREFIX :: LEGACY_SUMMARY_PREFIX :: _HISTORICAL_SUMMARY_PREFIXES.

(** [src: travis/compaction/compressor.py:1176-1183 ContextCompressor._is_context_summary_message] *)
Definition _is_context_summary_message (m : Message) : bool :=
  let t := drop_spaces (_message_text m) in existsb (λ p, is_prefix p t) summary_prefixes.

(** The first of the markers that occurs: its position and length. *)
Definition first_marker (t : text) : option (nat * nat) :=
  fold_left (λ best marker,
    match PyText.find marker t, best with
    | Some p, Some (q, n) => if (p <? q)%nat then Some (p, length marker) else Some (q, n)
    | Some p, None => Some (p, length marker)
    | None, _ => best
    end) (SUMMARY_END_MARKER :: _HISTORICAL_SUMMARY_END_MARKERS) None.

Fixpoint strip_first_prefix (prefixes : list text) (t : text) : text :=
  match prefixes with
  | [] => t
  | p :: rest => if is_prefix p t then drop_spaces (drop (length p) t) else strip_first_prefix rest t
  end.

(** [src: travis/compaction/compressor.py:1138-1152 ContextCompressor._strip_summary_prefix] *)
Definition _strip_summary_prefix (summary : text) : text :=
  let t := strip_first_prefix summary_prefixes (strip summary) in
  match first_marker t with Some (p, _) => rstrip (take p t) | None => t end.

(** [src: travis/compaction/compressor.py:1154-1165 ContextCompressor._retained_tail_after_summary] *)
Definition _retained_tail_after_summary (summary : text) : text :=
  match first_marker summary with Some (p, n) => strip (drop (p + n) summary) | None => [] end.

(** [src: travis/compaction/compressor.py:1167-1174 ContextCompressor._message_with_replacement_text] *)
Definition _message_with_replacement_text (m : Message) (t : text) : Message :=
  with_content (if is_role assistant m then Blocks [TextContent t None] else Str t) m.

(** [src: travis/compaction/compressor.py:1185-1190 ContextCompressor._find_latest_context_summary] *)
Definition _find_latest_context_summary (messages : list Message) (start stop : nat) : option (nat * text) :=
  match search_down _is_context_summary_message messages stop start with
  | Some index =>
      Some (index, match messages !! index with Some m => _strip_summary_prefix (_message_text m) | None => [] end)
  | None => None
  end.

(** [src: travis/compaction/compressor.py:1192-1195 ContextCompressor._find_previous_summary] *)
Definition _find_previous_summary (messages : list Message) : option (nat * text) :=
  _find_latest_context_summary messages 0 (length messages).

(** [src: travis/compaction/compressor.py:925-933 ContextCompressor._find_last_user_message_index] *)
Definition _find_last_user_message_index (messages : list Message) (head_end : nat) : option nat :=
  search_down (λ m, is_role user m && negb (_is_context_summary_message m) && negb (m_non_turn_user m))
    messages (length messages) head_end.

(** [src: travis/compaction/compressor.py:935-952 ContextCompressor._find_last_assistant_message_index] *)
Definition _find_last_assistant_message_index (messages : list Message) (head_end : nat)
    (include_context_summary : bool) : option nat :=
  search_down (λ m,
    is_role assistant m && (include_context_summary || negb (_is_context_summary_message m)) &&
    bool_decide (m_stop_reason m = "stop"%string) &&
    existsb (λ b, match b with TextContent t _ => negb (bool_decide (strip t = [])) | _ => false end)
      (blocks_of (m_content m))) messages (length messages) head_end.

(** [src: travis/compaction/compressor.py:954-961 ContextCompressor._ensure_last_user_message_in_tail] *)
Definition _ensure_last_user_message_in_tail (messages : list Message) (tail_start head_end : nat) : nat :=
  match _find_last_user_message_index messages head_end with
  | None => tail_start
  | Some last_user =>
      if (tail_start <=? last_user)%nat then tail_start
      else
        let adjusted := Nat.max last_user (head_end + 1) in
        if (last_user <? adjusted)%nat then Nat.max (_find_turn_end messages last_user) (head_end + 1)
        else adjusted
  end.

(** [src: travis/compaction/compressor.py:971-986 ContextCompressor._ensure_last_assistant_message_in_tail] *)
Definition _ensure_last_assistant_message_in_tail (messages : list Message) (tail_start head_end : nat)
    (include_context_summary : bool) : nat :=
  match _find_last_assistant_message_index messages head_end include_context_summary with
  | None => tail_start
  | Some last_assistant =>
      if (tail_start <=? last_assistant)%nat then tail_start
      else Nat.max (_align_boundary_backward messages last_assistant) (head_end + 1)
  end.

(** [src: travis/compaction/compressor.py:2022-2028 ContextCompressor._emergency_head_end] *)
Definition _emergency_head_end (messages : list Message) : nat :=
  let index := match messages with m :: _ => if is_role system m then 1%nat else 0%nat | [] => 0%nat end in
  let candidate := (index + leading (λ m, negb (is_role user m)) (drop index messages))%nat in
  if (candidate <? length messages)%nat then Nat.min (candidate + 1) (length messages)
  else Nat.min (Nat.max index 1) (length messages).

End texts.

(** ** Pruning *)

Section prune.
Variable str_arguments : json → text.
(** The hexadecimal digest of [hashlib.sha256], and [str.splitlines]. *)
Variable sha256 : string → string.
Variable splitlines : text → list text.

(** [src: travis/compaction/compressor.py:237-256 _sanitize_tool_argument_value] *)
Fixpoint _sanitize_tool_argument_value (field : option string) (value : json) {struct value} : json :=
  match value with
  | JStr s =>
      if (500 <? String.length s)%nat then
        JObj ([("_travis_omitted_tool_argument", JBool true); ("chars", JInt (str_len s)); ("sha256", JStr (sha256 s))]%string
              ++ match field with Some f => if bool_decide (f = ""%string) then [] else [("field"%string, JStr f)] | None => [] end)
      else value
  | JObj members => JObj (map (λ p, (p.1, _sanitize_tool_argument_value (Some p.1) p.2)) members)
  | JList items => JList (map (_sanitize_tool_argument_value None) items)
  | _ => value
  end.

(** [src: travis/compaction/compressor.py:222-234 sanitize_tool_call_arguments] *)
Definition sanitize_tool_call_arguments (tool_name : string) (arguments : json) : json :=
  match arguments with
  | JObj members =>
      if negb (bool_decide (tool_name = "write"%string)) then _sanitize_tool_argument_value None arguments
      else
        match dict_get "content" members with
        | Some (JStr content) =>
            if (String.length content <=? 256)%nat then _sanitize_tool_argument_value None arguments
            else
              let sanitized :=
                map (λ p, (p.1, _sanitize_tool_argument_value (Some p.1) p.2))
                  (List.filter (λ p, negb (bool_decide (p.1 = "content"%string))) members) in
              JObj (dict_set "content_sha256" (JStr (sha256 content))
                     (dict_set "content_chars" (JInt (str_len content))
                       (dict_set "content_omitted" (JBool true) sanitized)))
        | _ => _sanitize_tool_argument_value None arguments
        end
  | _ => arguments
  end.

(** The metadata of an expanded subagent result: the wanted keys of the leading
    lines, up to the first blank line after one. *)
Definition wanted_keys : list text :=
  map lit ["taskId"; "section"; "offset"; "budget"; "truncated"; "nextOffset"; "totalChars"]%string.

Fixpoint expansion_metadata (lines : list text) (metadata : list (text * text)) : list (text * text) :=
  match lines with
  | [] => metadata
  | line :: rest =>
      if bool_decide (strip line = []) && negb (bool_decide (metadata = [])) then metadata
      else
        match PyText.find [58] line with
        | Some i =>
            if bool_decide (take i line ∈ wanted_keys)
            then expansion_metadata rest ((take i line, strip (drop (S i) line)) ::
                   List.filter (λ p, negb (bool_decide (p.1 = take i line))) metadata)
            else expansion_metadata rest metadata
        | None => expansion_metadata rest metadata
        end
  end.

Definition metadata_get (key : string) (metadata : list (text * text)) : option text :=
  snd <$> List.find (λ p, bool_decide (p.1 = lit key)) metadata.

(** [src: travis/compaction/compressor.py:826-851 ContextCompressor._summarize_tool_result] *)
Definition _summarize_tool_result (m : Message) (t : text) : text :=
  let line_count := len (List.filter (λ c, c =? 10) t) + 1 in
  let size := lit "(" ++ decimal (len t) ++ lit " chars, " ++ decimal line_count ++ lit " lines" in
  if bool_decide (m_tool_name m = "expand_subagent_result"%string) then
    let metadata := expansion_metadata (splitlines t) [] in
    let get key other := default (lit other) (metadata_get key metadata) in
    let opt key := match metadata_get key metadata with
                   | Some v => if bool_decide (v = []) then [] else lit ", " ++ lit key ++ lit "=" ++ v
                   | None => []
                   end in
    let total := match metadata_get "totalChars" metadata with Some v => lit ", totalChars=" ++ v | None => [] end in
    lit "[expand_subagent_result] child result expansion elided " ++ size ++ lit "; taskId=" ++ get "taskId"%string "unknown"%string ++
    lit ", section=" ++ get "section"%string "unknown"%string ++ lit ", offset=" ++ get "offset"%string "0"%string ++
    opt "nextOffset"%string ++ opt "truncated"%string ++ total ++
    lit "). Use expand_subagent_result with the same taskId/section/offset if the child detail is needed again."
  else lit "[" ++ of_string (m_tool_name m) ++ lit "] result elided " ++ size ++ lit ")".

Definition result_text (m : Message) : text := flat_map _block_text (blocks_of (m_content m)).

(** The first loop, over the reversed transcript: a long result whose text was
    [seen] in a newer one is replaced. *)
Fixpoint dedupe (seen : list text) (reversed : list Message) : list Message :=
  match reversed with
  | [] => []
  | m :: older =>
      if negb (is_role toolResult m) || (length (result_text m) <? _TOOL_RESULT_SUMMARY_MIN)%nat then m :: dedupe seen older
      else if bool_decide (result_text m ∈ seen)
      then with_content (Blocks [TextContent duplicate_note None]) m :: dedupe seen older
      else m :: dedupe (result_text m :: seen) older
  end.

(** The second loop's body, on an old message. *)
Definition shorten_result (m : Message) : Message :=
  if is_role toolResult m then
    let t := result_text m in
    let blocks := if (_TOOL_RESULT_SUMMARY_MIN <? length t)%nat then [TextContent (_summarize_tool_result m t) None]
                  else blocks_of (m_content m) in
    with_content (Blocks (List.filter is_text_block blocks)) m
  else m.

(** The third loop's body. *)
Definition shorten_arguments (m : Message) : Message :=
  if is_role assistant m then
    match m_content m with
    | Blocks bs =>
        with_content (Blocks (map (λ b, match b with
          | ToolCallBlock c =>
              if (_TOOL_ARGS_MAX <? length (str_arguments (call_arguments c)))%nat
              then ToolCallBlock {| call_id := call_id c; call_name := call_name c;
                                    call_arguments := sanitize_tool_call_arguments (call_name c) (call_arguments c);
                                    call_thought_signature := call_thought_signature c |}
              else b
          | _ => b
          end) bs)) m
    | _ => m
    end
  else m.

(** [src: travis/compaction/compressor.py:786-824 ContextCompressor.prune_old_tool_results] *)
Definition prune_old_tool_results (protect_last_n : nat) (messages : list Message) : list Message :=
  let boundary := (length messages - protect_last_n)%nat in
  let pruned := rev (dedupe [] (rev messages)) in
  map (λ m, shorten_arguments (shorten_result m)) (take boundary pruned) ++ drop boundary pruned.

End prune.

(** ** Assembling the result *)

Section assemble.
Variable str_arguments : json → text.
Variable str_content : Content → text.
Variable now_ms : Z.

Definition summary_message_p : Message → bool := _is_context_summary_message str_arguments str_content.

(** [src: travis/compaction/compressor.py:1033-1036 ContextCompressor._summary_neighbor_role]: with
    "toolResult" for "tool". *)
Definition _summary_neighbor_role (m : option Message) : Role :=
  match m with Some m => m_role m | None => user end.

(** [src: travis/compaction/compressor.py:1038-1041 ContextCompressor._mark_compressed_summary_message] *)
Definition _mark_compressed_summary_message (m : Message) : Message := with_marks true (m_compressed_count m) m.

(** [src: travis/compaction/compressor.py:1043-1056 ContextCompressor._summary_message] *)
Definition _summary_message (r : Role) (content : text) : Message :=
  _mark_compressed_summary_message
    (if bool_decide (r = assistant) then new_message assistant (Blocks [TextContent content None]) now_ms
     else new_message user (Str content) now_ms).

(** [src: travis/compaction/compressor.py:1058-1068 ContextCompressor._prepend_text_to_message] *)
Definition _prepend_text_to_message (m : Message) (t : text) : Message :=
  with_content (match m_content m with
                | Str s => Str (t ++ s)
                | Blocks bs => Blocks (TextContent t None :: bs)
                | NoContent => Str t
                end) m.

(** [src: travis/compaction/compressor.py:1070-1081 ContextCompressor._append_text_to_message] *)
Definition _append_text_to_message (m : Message) (t : text) : Message :=
  with_content (match m_content m with
                | Str s => Str (s ++ (match s with [] => [] | _ => [10; 10] end) ++ t)
                | Blocks bs => Blocks (bs ++ [TextContent t None])
                | NoContent => Str t
                end) m.

(** [src: travis/compaction/compressor.py:1083-1088 ContextCompressor._copy_head_message_for_compression] *)
Definition _copy_head_message_for_compression (m : Message) (index : nat) : Message :=
  if negb (index =? 0)%nat || negb (is_role system m) then m
  else if contains _COMPRESSION_SYSTEM_NOTE (_message_text str_arguments str_content m) then m
  else _append_text_to_message m _COMPRESSION_SYSTEM_NOTE.

(** How the summary goes in: its role, and whether it becomes part of the first
    message of the tail. *)
Definition summary_placement (messages : list Message) (head_end tail_start : nat) : Role * bool :=
  let last_head_role := _summary_neighbor_role (if (0 <? head_end)%nat then messages !! (head_end - 1)%nat else None) in
  let first_tail_role := _summary_neighbor_role (messages !! tail_start) in
  let user_survives :=
    existsb (λ m, is_role user m && negb (summary_message_p m)) (take head_end messages ++ drop tail_start messages) in
  let force_user_leading := bool_decide (last_head_role = system) || negb user_survives in
  let summary_role :=
    if bool_decide (last_head_role = assistant ∨ last_head_role = toolResult) || force_user_leading
    then user else assistant in
  if (tail_start <? length messages)%nat && bool_decide (summary_role = first_tail_role) then
    let flipped := if bool_decide (summary_role = user) then assistant else user in
    if negb (bool_decide (flipped = last_head_role)) && negb force_user_leading then (flipped, false)
    else (summary_role, true)
  else (summary_role, false).

(** [src: travis/compaction/compressor.py:1090-1136 ContextCompressor._assemble_compressed_messages] *)
Definition _assemble_compressed_messages (messages : list Message) (head_end tail_start : nat) (summary_text : text)
    : list Message :=
  let summary := SUMMARY_PREFIX ++ [10] ++ drop_spaces summary_text in
  let '(summary_role, merge) := summary_placement messages head_end tail_start in
  let head := imap (λ index m, _copy_head_message_for_compression m index) (take head_end messages) in
  if merge then
    let prefix := summary ++ [10; 10] ++ SUMMARY_END_MARKER ++ [10; 10] in
    match drop tail_start messages with
    | m :: rest => head ++ _mark_compressed_summary_message (_prepend_text_to_message m prefix) :: rest
    | [] => head
    end
  else head ++ _summary_message summary_role (summary ++ [10; 10] ++ SUMMARY_END_MARKER) :: drop tail_start messages.

(** [setattr] of the message count on the first summary. *)
Fixpoint mark_first_summary (count : nat) (messages : list Message) : list Message :=
  match messages with
  | [] => []
  | m :: rest =>
      if summary_message_p m then with_marks (m_compressed_summary m) (Some count) m :: rest
      else m :: mark_first_summary count rest
  end.

(** The messages of a result: assembled, paired, without old images, marked.

    [src: travis/compaction/compressor.py:1842-1853 ContextCompressor._finalize_compression] *)
Definition finalize_messages (messages : list Message) (head_end tail_start : nat) (summary_text : text) : list Message :=
  let result := _assemble_compressed_messages messages head_end tail_start summary_text in
  let result := _sanitize_tool_pairs now_ms result in
  let result := _strip_historical_media result in
  mark_first_summary (length result) result.

End assemble.

(** ** The cut *)

Section cut.
Variable str_arguments : json → text.
Variable str_content : Content → text.
Variable str_block : ContentBlock → text.

(** [for candidate in range(n - 1, head_end - 1, -1)], which adds up the tokens and
    stops at a message that goes beyond [limit] once [min_tail] messages are
    kept; the cut is then before ([stop_at]) or behind that message. *)
Fixpoint tail_scan (stop_at : bool) (limit : Z) (min_tail : nat) (messages : list Message) (n head_end : nat)
    (accumulated : Z) (index : nat) : nat * Z :=
  match n with
  | O => (index, accumulated)
  | S candidate =>
      if (candidate <? head_end)%nat then (index, accumulated)
      else
        let tokens := match messages !! candidate with
                      | Some m => _tail_message_tokens str_arguments str_block m
                      | None => 0
                      end in
        if (limit <? accumulated + tokens) && (min_tail <=? length messages - candidate)%nat
        then (if stop_at then candidate else index, accumulated)
        else tail_scan stop_at limit min_tail messages candidate head_end (accumulated + tokens) candidate
  end.

(** The smallest number of messages to keep. *)
Definition minimum_tail (deep : bool) (protect_last_n total head_end : nat) : nat :=
  let available_tail := (total - head_end - 1)%nat in
  let min_tail_floor := if deep then 3%nat else Nat.max 3 (Nat.min protect_last_n _MAX_TAIL_MESSAGE_FLOOR) in
  let compressible_tail_cap := Nat.max 3 (available_tail - 2) in
  if (1 <? available_tail)%nat then Nat.min (Nat.min min_tail_floor compressible_tail_cap) available_tail else 0%nat.

(** [src: travis/compaction/compressor.py:1946-2003 ContextCompressor._find_tail_start] *)
Definition _find_tail_start (tail_token_budget : Z) (protect_last_n : nat) (messages : list Message) (head_end : nat)
    (deep preserve_role_anchors preserve_summary_anchor : bool) : result py_exn nat :=
  let total := length messages in
  if (total <=? head_end)%nat then Ok total
  else
    budget ← (if deep then b ← int_product tail_token_budget fl_0_25; Ok (Z.max 1024 b) else Ok tail_token_budget);
    let min_tail := minimum_tail deep protect_last_n total head_end in
    soft_ceiling ← int_product budget fl_1_5;
    let '(index, accumulated) := tail_scan false soft_ceiling min_tail messages total head_end 0 total in
    let index :=
      if (index <=? head_end)%nat && (accumulated <=? soft_ceiling) && (0 <? accumulated)
      then (tail_scan true budget min_tail messages total head_end 0 index).1
      else index in
    let fallback_cut := (total - min_tail)%nat in
    let index := Nat.min index fallback_cut in
    let index := if (index <=? head_end)%nat then Nat.max fallback_cut (head_end + 1) else index in
    let index := _align_boundary_backward messages index in
    let index :=
      if preserve_role_anchors then
        _ensure_last_assistant_message_in_tail str_arguments str_content messages
          (_ensure_last_user_message_in_tail str_arguments str_content messages index head_end)
          head_end preserve_summary_anchor
      else index in
    Ok (Nat.min total (Nat.max index (head_end + 1))).

End cut.

(** ** The compressor *)

(** The settings, which only [update_context_window] changes.

    [src: travis/compaction/compressor.py:562-582 ContextCompressor.__init__] *)
Record Config : Type := {
  cf_model : string;
  cf_summary_model : string;
  cf_context_length : Z;
  cf_configured_threshold_percent : float64;
  cf_max_tokens : option Z;
  cf_summarizer_context_window : option Z;
  cf_summarizer_max_tokens : option Z;
  cf_protect_first_n : nat;
  cf_protect_last_n : nat;
  cf_summary_target_ratio : float64;
  cf_active_budget : CompactionBudget;
  cf_abort_on_summary_failure : bool
}.

(** What the provider's usage says.

    [src: travis/compaction/compressor.py:586-606 ContextCompressor.__init__] *)
Record Observed : Type := {
  ob_last_prompt_tokens : Z;
  ob_last_completion_tokens : Z;
  ob_last_total_tokens : Z;
  ob_last_real_prompt_tokens : Z;
  ob_last_compression_rough_tokens : Z;
  ob_last_rough_tokens_when_real_prompt_fit : Z;
  ob_awaiting_real_usage_after_compression : bool;
  ob_ineffective_compression_count : Z;
  ob_verify_compaction_cleared_threshold : bool
}.

(** What the last summary left.

    [src: travis/compaction/compressor.py:588-600 ContextCompressor.__init__] *)
Record SummaryState : Type := {
  su_cooldown_until : float64;
  su_cooldown_until_wall : float64;
  su_last_summary_error : option text;
  su_last_summary_dropped_count : nat;
  su_last_summary_fallback_used : bool;
  su_last_compress_aborted : bool;
  su_last_aux_model_failure_error : option text;
  su_last_aux_model_failure_model : option string;
  su_last_summary_model_requested : option string;
  su_last_summary_model_used : option string;
  su_last_summary_model_fallback_used : bool;
  su_summary_model_fallen_back : bool;
  su_last_summary_auth_failure : bool;
  su_last_summary_network_failure : bool
}.

(** [src: travis/compaction/compressor.py:537-608 ContextCompressor] *)
Record ContextCompressor : Type := {
  cc_config : Config;
  cc_observed : Observed;
  cc_summary : SummaryState;
  cc_previous_summary : option text;
  cc_last_compression_savings_pct : float64;
  cc_compression_count : Z;
  cc_last_noop_reason : option string;
  cc_readings : nat
}.

Definition set_config (c : Config) (s : ContextCompressor) : ContextCompressor :=
  {| cc_config := c; cc_observed := cc_observed s; cc_summary := cc_summary s;
     cc_previous_summary := cc_previous_summary s; cc_last_compression_savings_pct := cc_last_compression_savings_pct s;
     cc_compression_count := cc_compression_count s; cc_last_noop_reason := cc_last_noop_reason s;
     cc_readings := cc_readings s |}.
Definition set_observed (o : Observed) (s : ContextCompressor) : ContextCompressor :=
  {| cc_config := cc_config s; cc_observed := o; cc_summary := cc_summary s;
     cc_previous_summary := cc_previous_summary s; cc_last_compression_savings_pct := cc_last_compression_savings_pct s;
     cc_compression_count := cc_compression_count s; cc_last_noop_reason := cc_last_noop_reason s;
     cc_readings := cc_readings s |}.
Definition set_summary (u : SummaryState) (s : ContextCompressor) : ContextCompressor :=
  {| cc_config := cc_config s; cc_observed := cc_observed s; cc_summary := u;
     cc_previous_summary := cc_previous_summary s; cc_last_compression_savings_pct := cc_last_compression_savings_pct s;
     cc_compression_count := cc_compression_count s; cc_last_noop_reason := cc_last_noop_reason s;
     cc_readings := cc_readings s |}.
Definition set_previous (p : option text) (s : ContextCompressor) : ContextCompressor :=
  {| cc_config := cc_config s; cc_observed := cc_observed s; cc_summary := cc_summary s;
     cc_previous_summary := p; cc_last_compression_savings_pct := cc_last_compression_savings_pct s;
     cc_compression_count := cc_compression_count s; cc_last_noop_reason := cc_last_noop_reason s;
     cc_readings := cc_readings s |}.
Definition set_savings (p : float64) (count : Z) (s : ContextCompressor) : ContextCompressor :=
  {| cc_config := cc_config s; cc_observed := cc_observed s; cc_summary := cc_summary s;
     cc_previous_summary := cc_previous_summary s; cc_last_compression_savings_pct := p;
     cc_compression_count := count; cc_last_noop_reason := cc_last_noop_reason s; cc_readings := cc_readings s |}.
Definition set_noop (r : option string) (s : ContextCompressor) : ContextCompressor :=
  {| cc_config := cc_config s; cc_observed := cc_observed s; cc_summary := cc_summary s;
     cc_previous_summary := cc_previous_summary s; cc_last_compression_savings_pct := cc_last_compression_savings_pct s;
     cc_compression_count := cc_compression_count s; cc_last_noop_reason := r; cc_readings := cc_readings s |}.
Definition tick (s : ContextCompressor) : ContextCompressor :=
  {| cc_config := cc_config s; cc_observed := cc_observed s; cc_summary := cc_summary s;
     cc_previous_summary := cc_previous_summary s; cc_last_compression_savings_pct := cc_last_compression_savings_pct s;
     cc_compression_count := cc_compression_count s; cc_last_noop_reason := cc_last_noop_reason s;
     cc_readings := S (cc_readings s) |}.

Definition set_cooldown (until wall : float64) (error : option text) (u : SummaryState) : SummaryState :=
  {| su_cooldown_until := until; su_cooldown_until_wall := wall; su_last_summary_error := error;
     su_last_summary_dropped_count := su_last_summary_dropped_count u;
     su_last_summary_fallback_used := su_last_summary_fallback_used u;
     su_last_compress_aborted := su_last_compress_aborted u;
     su_last_aux_model_failure_error := su_last_aux_model_failure_error u;
     su_last_aux_model_failure_model := su_last_aux_model_failure_model u;
     su_last_summary_model_requested := su_last_summary_model_requested u;
     su_last_summary_model_used := su_last_summary_model_used u;
     su_last_summary_model_fallback_used := su_last_summary_model_fallback_used u;
     su_summary_model_fallen_back := su_summary_model_fallen_back u;
     su_last_summary_auth_failure := su_last_summary_auth_failure u;
     su_last_summary_network_failure := su_last_summary_network_failure u |}.

Definition set_failures (auth network : bool) (u : SummaryState) : SummaryState :=
  {| su_cooldown_until := su_cooldown_until u; su_cooldown_until_wall := su_cooldown_until_wall u;
     su_last_summary_error := su_last_summary_error u; su_last_summary_dropped_count := su_last_summary_dropped_count u;
     su_last_summary_fallback_used := su_last_summary_fallback_used u;
     su_last_compress_aborted := su_last_compress_aborted u;
     su_last_aux_model_failure_error := su_last_aux_model_failure_error u;
     su_last_aux_model_failure_model := su_last_aux_model_failure_model u;
     su_last_summary_model_requested := su_last_summary_model_requested u;
     su_last_summary_model_used := su_last_summary_model_used u;
     su_last_summary_model_fallback_used := su_last_summary_model_fallback_used u;
     su_summary_model_fallen_back := su_summary_model_fallen_back u;
     su_last_summary_auth_failure := auth; su_last_summary_network_failure := network |}.

Definition set_outcome (dropped : nat) (fallback aborted : bool) (u : SummaryState) : SummaryState :=
  {| su_cooldown_until := su_cooldown_until u; su_cooldown_until_wall := su_cooldown_until_wall u;
     su_last_summary_error := su_last_summary_error u; su_last_summary_dropped_count := dropped;
     su_last_summary_fallback_used := fallback; su_last_compress_aborted := aborted;
     su_last_aux_model_failure_error := su_last_aux_model_failure_error u;
     su_last_aux_model_failure_model := su_last_aux_model_failure_model u;
     su_last_summary_model_requested := su_last_summary_model_requested u;
     su_last_summary_model_used := su_last_summary_model_used u;
     su_last_summary_model_fallback_used := su_last_summary_model_fallback_used u;
     su_summary_model_fallen_back := su_summary_model_fallen_back u;
     su_last_summary_auth_failure := su_last_summary_auth_failure u;
     su_last_summary_network_failure := su_last_summary_network_failure u |}.

(** The fields about the models: the failure of the dedicated one, which one was
    asked and which one answered, whether the main one stood in. *)
Definition set_models (failure : option (text * string)) (requested used : option string)
    (fallback fallen : bool) (u : SummaryState) : SummaryState :=
  {| su_cooldown_until := su_cooldown_until u; su_cooldown_until_wall := su_cooldown_until_wall u;
     su_last_summary_error := su_last_summary_error u; su_last_summary_dropped_count := su_last_summary_dropped_count u;
     su_last_summary_fallback_used := su_last_summary_fallback_used u;
     su_last_compress_aborted := su_last_compress_aborted u;
     su_last_aux_model_failure_error := fst <$> failure; su_last_aux_model_failure_model := snd <$> failure;
     su_last_summary_model_requested := requested; su_last_summary_model_used := used;
     su_last_summary_model_fallback_used := fallback; su_summary_model_fallen_back := fallen;
     su_last_summary_auth_failure := su_last_summary_auth_failure u;
     su_last_summary_network_failure := su_last_summary_network_failure u |}.

Definition aux_failure (u : SummaryState) : option (text * string) :=
  match su_last_aux_model_failure_error u, su_last_aux_model_failure_model u with
  | Some e, Some m => Some (e, m)
  | _, _ => None
  end.

Notation cm := (st ContextCompressor py_exn).

Definition modify_summary (f : SummaryState → SummaryState) : cm unit :=
  st_modify (λ s, set_summary (f (cc_summary s)) s).

(** ** Budget and usage *)

Definition truthy (t : option text) : bool := match t with Some (_ :: _) => true | _ => false end.

Definition threshold_tokens (s : ContextCompressor) : Z := bu_trigger_tokens (cf_active_budget (cc_config s)).
Definition tail_token_budget (s : ContextCompressor) : Z := bu_tail_target_tokens (cf_active_budget (cc_config s)).

(** [src: travis/compaction/compressor.py:670-678 ContextCompressor._coerce_max_tokens] *)
Definition _coerce_max_tokens (value : option Z) : option Z :=
  match value with Some v => if 0 <? v then Some v else None | None => None end.

(** [src: travis/compaction/compressor.py:694-705 ContextCompressor._calculate_active_budget] *)
Definition _calculate_active_budget (c : Config) : result py_exn CompactionBudget :=
  match calculate_compaction_budget
    {| pi_context_window := cf_context_length c; pi_max_output_tokens := default 0 (cf_max_tokens c);
       pi_model_id := cf_model c; pi_threshold_ratio := cf_configured_threshold_percent c;
       pi_summary_target_ratio := cf_summary_target_ratio c;
       pi_summarizer_context_window := cf_summarizer_context_window c;
       pi_summarizer_max_output_tokens := default 0 (cf_summarizer_max_tokens c) |} with
  | Ok b => Ok b
  | Err e => Err (budget_exn e)
  end.

Definition with_budget (b : CompactionBudget) (c : Config) : Config :=
  {| cf_model := cf_model c; cf_summary_model := cf_summary_model c; cf_context_length := cf_context_length c;
     cf_configured_threshold_percent := cf_configured_threshold_percent c; cf_max_tokens := cf_max_tokens c;
     cf_summarizer_context_window := cf_summarizer_context_window c;
     cf_summarizer_max_tokens := cf_summarizer_max_tokens c; cf_protect_first_n := cf_protect_first_n c;
     cf_protect_last_n := cf_protect_last_n c; cf_summary_target_ratio := cf_summary_target_ratio c;
     cf_active_budget := b; cf_abort_on_summary_failure := cf_abort_on_summary_failure c |}.

Definition nothing_observed : Observed :=
  {| ob_last_prompt_tokens := 0; ob_last_completion_tokens := 0; ob_last_total_tokens := 0;
     ob_last_real_prompt_tokens := 0; ob_last_compression_rough_tokens := 0;
     ob_last_rough_tokens_when_real_prompt_fit := 0; ob_awaiting_real_usage_after_compression := false;
     ob_ineffective_compression_count := 0; ob_verify_compaction_cleared_threshold := false |}.

Definition no_summary : SummaryState :=
  {| su_cooldown_until := fl_zero; su_cooldown_until_wall := fl_zero; su_last_summary_error := None;
     su_last_summary_dropped_count := 0; su_last_summary_fallback_used := false; su_last_compress_aborted := false;
     su_last_aux_model_failure_error := None; su_last_aux_model_failure_model := None;
     su_last_summary_model_requested := None; su_last_summary_model_used := None;
     su_last_summary_model_fallback_used := false; su_summary_model_fallen_back := false;
     su_last_summary_auth_failure := false; su_last_summary_network_failure := false |}.

(** The settings of a new compressor still without a budget are its arguments;
    the given budget is replaced.

    [src: travis/compaction/compressor.py:544-608 ContextCompressor.__init__] *)
Definition new_compressor (c : Config) : result py_exn ContextCompressor :=
  let c := {| cf_model := cf_model c; cf_summary_model := cf_summary_model c; cf_context_length := cf_context_length c;
     cf_configured_threshold_percent := cf_configured_threshold_percent c;
     cf_max_tokens := _coerce_max_tokens (cf_max_tokens c);
     cf_summarizer_context_window := _coerce_max_tokens (cf_summarizer_context_window c);
     cf_summarizer_max_tokens := _coerce_max_tokens (cf_summarizer_max_tokens c);
     cf_protect_first_n := cf_protect_first_n c; cf_protect_last_n := cf_protect_last_n c;
     cf_summary_target_ratio := fl_max fl_0_10 (fl_min (cf_summary_target_ratio c) fl_0_80);
     cf_active_budget := cf_active_budget c; cf_abort_on_summary_failure := cf_abort_on_summary_failure c |} in
  b ← _calculate_active_budget c;
  Ok {| cc_config := with_budget b c; cc_observed := nothing_observed; cc_summary := no_summary;
        cc_previous_summary := None; cc_last_compression_savings_pct := fl_zero; cc_compression_count := 0;
        cc_last_noop_reason := None; cc_readings := 0 |}.

(** [src: travis/compaction/compressor.py:627-668 ContextCompressor.update_context_window] *)
Definition update_context_window (context_length : Z) (threshold_percent : option float64)
    (max_tokens : option Z) (model : option string) (summarizer_context_window summarizer_max_tokens : option Z) : cm unit :=
  _ ← st_require (0 <? context_length)
        {| ex_text := lit "context_length must be positive"; ex_class := lit "ValueError"; ex_status := None |};
  st_modify (λ s,
    let c := cc_config s in
    set_config
      {| cf_model := default (cf_model c) model; cf_summary_model := cf_summary_model c;
         cf_context_length := context_length;
         cf_configured_threshold_percent := default (cf_configured_threshold_percent c) threshold_percent;
         cf_max_tokens := match max_tokens with Some _ => _coerce_max_tokens max_tokens | None => cf_max_tokens c end;
         cf_summarizer_context_window := match summarizer_context_window with
           | Some _ => _coerce_max_tokens summarizer_context_window | None => cf_summarizer_context_window c end;
         cf_summarizer_max_tokens := match summarizer_max_tokens with
           | Some _ => _coerce_max_tokens summarizer_max_tokens | None => cf_summarizer_max_tokens c end;
         cf_protect_first_n := cf_protect_first_n c; cf_protect_last_n := cf_protect_last_n c;
         cf_summary_target_ratio := cf_summary_target_ratio c; cf_active_budget := cf_active_budget c;
         cf_abort_on_summary_failure := cf_abort_on_summary_failure c |} s);;
  s ← st_get;
  b ← st_lift (_calculate_active_budget (cc_config s));
  st_modify (λ s, set_observed nothing_observed (set_config (with_budget b (cc_config s)) s)).

(** [usage.get(key, other) or 0]: a known key may hold [None]. *)
Definition usage_get (key : string) (other : Z) (usage : list (string * option Z)) : Z :=
  match List.find (λ p, bool_decide (p.1 = key)) usage with
  | Some (_, v) => default 0 v
  | None => other
  end.

(** [src: travis/compaction/compressor.py:707-731 ContextCompressor.update_from_response] *)
Definition update_from_response (usage : list (string * option Z)) : cm unit :=
  st_modify (λ s,
    let o := cc_observed s in
    let prompt := usage_get "prompt_tokens" 0 usage in
    let completion := usage_get "completion_tokens" 0 usage in
    let total := usage_get "total_tokens" (prompt + completion) usage in
    let fits := prompt <? threshold_tokens s in
    let known := 0 <? prompt in
    let rough :=
      if known then
        if fits then
          if ob_awaiting_real_usage_after_compression o && (0 <? ob_last_compression_rough_tokens o)
          then ob_last_compression_rough_tokens o else ob_last_rough_tokens_when_real_prompt_fit o
        else 0
      else ob_last_rough_tokens_when_real_prompt_fit o in
    let count := if known && fits then 0 else ob_ineffective_compression_count o in
    let count :=
      if known && ob_verify_compaction_cleared_threshold o then if fits then 0 else count + 1 else count in
    set_observed
      {| ob_last_prompt_tokens := prompt; ob_last_completion_tokens := completion; ob_last_total_tokens := total;
         ob_last_real_prompt_tokens := if known then prompt else ob_last_real_prompt_tokens o;
         ob_last_compression_rough_tokens := ob_last_compression_rough_tokens o;
         ob_last_rough_tokens_when_real_prompt_fit := rough;
         ob_awaiting_real_usage_after_compression := false;
         ob_ineffective_compression_count := count;
         ob_verify_compaction_cleared_threshold := false |} s).

Definition set_rough (n : Z) (o : Observed) : Observed :=
  {| ob_last_prompt_tokens := ob_last_prompt_tokens o; ob_last_completion_tokens := ob_last_completion_tokens o;
     ob_last_total_tokens := ob_last_total_tokens o; ob_last_real_prompt_tokens := ob_last_real_prompt_tokens o;
     ob_last_compression_rough_tokens := ob_last_compression_rough_tokens o;
     ob_last_rough_tokens_when_real_prompt_fit := n;
     ob_awaiting_real_usage_after_compression := ob_awaiting_real_usage_after_compression o;
     ob_ineffective_compression_count := ob_ineffective_compression_count o;
     ob_verify_compaction_cleared_threshold := ob_verify_compaction_cleared_threshold o |}.

(** [src: travis/compaction/compressor.py:733-753 ContextCompressor.should_defer_preflight_to_real_usage] *)
Definition should_defer_preflight_to_real_usage (rough_tokens : Z) : cm bool :=
  s ← st_get;
  let o := cc_observed s in
  if rough_tokens <? threshold_tokens s then mret false
  else if ob_awaiting_real_usage_after_compression o then mret true
  else if ob_last_real_prompt_tokens o <=? 0 then mret false
  else if threshold_tokens s <=? ob_last_real_prompt_tokens o then mret false
  else
    let baseline :=
      if ob_last_rough_tokens_when_real_prompt_fit o =? 0 then ob_last_compression_rough_tokens o
      else ob_last_rough_tokens_when_real_prompt_fit o in
    if baseline <=? 0 then mret false
    else
      tolerated ← st_lift (int_product (threshold_tokens s) fl_0_05);
      if Z.max 4096 tolerated <? Z.max 0 (rough_tokens - baseline) then mret false
      else
        st_modify (λ s, set_observed (set_rough (Z.max baseline rough_tokens) (cc_observed s)) s);;
        mret true.

(** ** Cooldown *)

Definition six_hundred : float64 := fl_lit 600 0.

Section clocks.
(** [time.monotonic()] and [time.time()] at each reading. *)
Variable clock wall_clock : nat → float64.
Variable _redact_sensitive_text : text → text.

Definition read_clock : cm float64 :=
  s ← st_get; st_modify tick;; mret (clock (cc_readings s)).
Definition read_wall_clock : cm float64 :=
  s ← st_get; st_modify tick;; mret (wall_clock (cc_readings s)).

(** [src: travis/compaction/compressor.py:755-756 ContextCompressor._summary_failure_in_cooldown] *)
Definition _summary_failure_in_cooldown : cm bool :=
  now ← read_clock; s ← st_get; mret (fl_ltb now (su_cooldown_until (cc_summary s))).

(** [src: travis/compaction/compressor.py:758-764 ContextCompressor._arm_summary_failure_cooldown] *)
Definition _arm_summary_failure_cooldown (error : option text) : cm unit :=
  now ← read_clock;
  wall ← read_wall_clock;
  modify_summary (λ u, set_cooldown (fl_add now six_hundred) (fl_add wall six_hundred)
    (if truthy error then _redact_sensitive_text <$> error else su_last_summary_error u) u).

(** [src: travis/compaction/compressor.py:766-768 ContextCompressor._clear_summary_failure_cooldown] *)
Definition _clear_summary_failure_cooldown : cm unit :=
  modify_summary (λ u, set_cooldown fl_zero fl_zero (su_last_summary_error u) u).

(** The details are a dictionary with these members; [wall_until] is the float its
    last member gives, 0.0 when it gives none.

    [src: travis/compaction/compressor.py:770-782 ContextCompressor.restore_summary_cooldown] *)
Definition restore_summary_cooldown (error : option text) (fallback : bool) (wall_until : float64) : cm unit :=
  wall ← read_wall_clock;
  let remaining := fl_max fl_zero (fl_sub wall_until wall) in
  let left := negb (fl_eqb remaining fl_zero) in
  until ← (if left then now ← read_clock; mret (fl_add now remaining) else mret fl_zero);
  modify_summary (λ u,
    set_outcome (su_last_summary_dropped_count u) fallback (su_last_compress_aborted u)
      (set_cooldown until (if left then wall_until else fl_zero) (if truthy error then error else None) u)).

(** [src: travis/compaction/compressor.py:618-625 ContextCompressor.should_compress] *)
Definition should_compress (tokens : Z) : cm bool :=
  s ← st_get;
  if tokens <? threshold_tokens s then mret false
  else
    cooling ← _summary_failure_in_cooldown;
    if (cooling : bool) then mret false
    else mret (negb (2 <=? ob_ineffective_compression_count (cc_observed s))).

End clocks.

(** ** The summary *)

(** A summariser: a prompt to a text, or an exception. *)
Definition Summarizer : Type := text → result py_exn text.

(** What [compress] returns.

    [src: travis/compaction/compressor.py:521-534 CompressionResult] *)
Record CompressionResult : Type := {
  cr_messages : list Message;
  cr_compressed : bool;
  cr_savings_pct : float64;
  cr_summary : option text;
  cr_tokens_before : Z;
  cr_first_kept_message_index : option nat;
  cr_files : option (list string * list string);
  cr_cooldown : option (float64 * option text * bool);
  cr_summary_model_requested : option string;
  cr_summary_model_used : option string;
  cr_summary_model_fallback : bool;
  cr_summary_model_error : option text;
  cr_summary_model_dedicated : bool
}.

Section compress.
Variable str_arguments : json → text.
Variable str_content : Content → text.
Variable str_block : ContentBlock → text.
Variable object_chars : Message → Z.
Variable sha256 : string → string.
Variable splitlines : text → list text.
Variable lower : text → text.
Variable clock wall_clock : nat → float64.
Variable now_ms : Z.
Variable _redact_sensitive_text _strip_inline_reasoning_blocks _sanitize_summary_source_text : text → text.
(** The prompt, from the previous summary, the middle, the budget and the focus. *)
Variable summary_prompt : option text → list Message → Z → option text → text.
(** [_static_fallback_summary], from the previous summary, the middle, the reason
    and the focus. *)
Variable _static_fallback_summary : option text → list Message → option text → option text → text.
Variable _extract_file_operation_tags : option text → gset string * gset string.
Variable _bash_file_mutation_paths : json → list string.
Variable _strip_file_operation_tags : text → text.
(** The dedicated summariser, when there is one. *)
Variable summary_summarizer : option Summarizer.

Local Notation estimate_tokens := (estimate_messages_tokens object_chars).
Local Notation message_text := (_message_text str_arguments str_content).
Local Notation is_summary := (_is_context_summary_message str_arguments str_content).
Local Notation in_cooldown := (_summary_failure_in_cooldown clock).
Local Notation arm_cooldown := (_arm_summary_failure_cooldown clock wall_clock _redact_sensitive_text).

(** [src: travis/compaction/compressor.py:120-127 _summary_failure_status] *)
Definition _summary_failure_status (e : py_exn) : option Z := ex_status e.

(** [src: travis/compaction/compressor.py:130-144 _is_summary_auth_failure] *)
Definition _is_summary_auth_failure (e : py_exn) : bool :=
  bool_decide (_summary_failure_status e ∈ [Some 401; Some 403]) ||
  let t := lower (ex_text e) in
  existsb (λ marker, contains (lit marker) t)
    ["invalid api key"; "invalid x-api-key"; "unauthorized"; "authentication failed"; "authentication error";
     "permission denied"]%string ||
  (contains (lit "api key") t && existsb (λ marker, contains (lit marker) t) ["invalid"; "blocked"; "expired"]%string).

(** [src: travis/compaction/compressor.py:147-168 _is_summary_network_failure] *)
Definition _is_summary_network_failure (e : py_exn) : bool :=
  existsb (λ marker, contains (lit marker) (lower (ex_class e))) ["connection"; "timeout"; "dns"; "ssl"]%string ||
  existsb (λ marker, contains (lit marker) (lower (ex_text e)))
    ["connection refused"; "name or service not known"; "no route to host"; "network is unreachable"; "timed out";
     "connection reset"; "incomplete chunked read"; "peer closed connection"; "response ended prematurely";
     "unexpected eof"; "remoteprotocolerror"; "localprotocolerror"]%string.

(** [src: travis/compaction/compressor.py:1206-1211 ContextCompressor._compact_error_text] *)
Definition _compact_error_text (e : py_exn) : text :=
  let t := match strip (ex_text e) with [] => ex_class e | t => t end in
  if (220 <? length t)%nat then rstrip (take 217 t) ++ lit "..." else t.

(** [src: travis/compaction/compressor.py:1247-1253 ContextCompressor._validated_summary_output] *)
Definition _validated_summary_output (r : result py_exn text) : result py_exn text :=
  summary ← r;
  match strip (_strip_inline_reasoning_blocks summary) with
  | [] => Err {| ex_text := lit "Context compression LLM returned empty content"; ex_class := lit "RuntimeError"; ex_status := None |}
  | t => Ok t
  end.

(** [src: travis/compaction/compressor.py:1199-1204 ContextCompressor._can_fallback_to_main_summarizer] *)
Definition _can_fallback_to_main_summarizer (s : ContextCompressor) : bool :=
  negb (bool_decide (cf_summary_model (cc_config s) = ""%string)) &&
  negb (bool_decide (cf_summary_model (cc_config s) = cf_model (cc_config s))) &&
  negb (su_summary_model_fallen_back (cc_summary s)).

(** [src: travis/compaction/compressor.py:1213-1217 ContextCompressor._fallback_to_main_for_compression] *)
Definition _fallback_to_main_for_compression (e : py_exn) : cm unit :=
  s ← st_get;
  modify_summary (λ u,
    set_models (Some (_redact_sensitive_text (_compact_error_text e), cf_summary_model (cc_config s)))
      (su_last_summary_model_requested u) (su_last_summary_model_used u) true true u).

Definition set_requested (m : string) (u : SummaryState) : SummaryState :=
  set_models (aux_failure u) (Some m) (su_last_summary_model_used u) (su_last_summary_model_fallback_used u)
    (su_summary_model_fallen_back u) u.
Definition set_fallen (b : bool) (u : SummaryState) : SummaryState :=
  set_models (aux_failure u) (su_last_summary_model_requested u) (su_last_summary_model_used u)
    (su_last_summary_model_fallback_used u) b u.
Definition set_used (m : string) (u : SummaryState) : SummaryState :=
  set_models (aux_failure u) (su_last_summary_model_requested u) (Some m) (su_last_summary_model_fallback_used u)
    (su_summary_model_fallen_back u) u.

(** [src: travis/compaction/compressor.py:1219-1245 ContextCompressor._run_summary_summarizer] *)
Definition _run_summary_summarizer (prompt : text) (summarizer : option Summarizer) : cm (option text) :=
  s ← st_get;
  let model := cf_model (cc_config s) in
  let summary_model := cf_summary_model (cc_config s) in
  match (if bool_decide (summary_model = ""%string) then None else summary_summarizer), summarizer with
  | Some dedicated, _ =>
      modify_summary (set_requested summary_model);;
      match _validated_summary_output (dedicated prompt) with
      | Ok summary =>
          modify_summary (λ u, set_used summary_model (set_fallen false u));;
          mret (Some summary)
      | Err e =>
          s ← st_get;
          if _can_fallback_to_main_summarizer s then
            _fallback_to_main_for_compression e;;
            match summarizer with
            | Some main =>
                modify_summary (set_fallen false);;
                summary ← st_lift (_validated_summary_output (main prompt));
                modify_summary (set_used model);;
                mret (Some summary)
            | None => mthrow e
            end
          else mthrow e
      end
  | None, Some main =>
      modify_summary (set_requested model);;
      summary ← st_lift (_validated_summary_output (main prompt));
      modify_summary (λ u, set_used model (set_fallen false u));;
      mret (Some summary)
  | None, None => mret None
  end.

(** [src: travis/compaction/compressor.py:1309-1311 ContextCompressor._summary_budget] *)
Definition _summary_budget (middle : list Message) : cm Z :=
  s ← st_get;
  budget ← st_lift (int_product (estimate_tokens middle) fl_0_20);
  mret (Z.max _MIN_SUMMARY_TOKENS (Z.min budget (bu_summary_max_tokens (cf_active_budget (cc_config s))))).

(** [src: travis/compaction/compressor.py:1255-1307 ContextCompressor.generate_summary] *)
Definition generate_summary (middle : list Message) (summarizer : option Summarizer) (focus_topic : option text)
    : cm (option text) :=
  cooling ← in_cooldown;
  if (cooling : bool) then
    modify_summary (λ u, set_cooldown (su_cooldown_until u) (su_cooldown_until_wall u)
                           (Some (lit "summary generation cooldown active")) u);;
    mret None
  else
    budget ← _summary_budget middle;
    s ← st_get;
    let prompt := summary_prompt (if truthy (cc_previous_summary s) then cc_previous_summary s else None) middle budget
                    (if truthy focus_topic then focus_topic else None) in
    summary ← _run_summary_summarizer prompt summarizer;
    match summary with
    | Some summary =>
        _clear_summary_failure_cooldown;;
        modify_summary (λ u, set_failures false false
          (set_cooldown (su_cooldown_until u) (su_cooldown_until_wall u) None u));;
        mret (Some (_redact_sensitive_text summary))
    | None =>
        arm_cooldown (Some (lit "no auxiliary LLM provider configured"));;
        mret None
    end.

(** [except Exception]. *)
Definition st_catch {A} (m : cm A) (handler : py_exn → cm A) : cm A :=
  λ s, match m s with (Err e, s') => handler e s' | r => r end.

(** [src: travis/compaction/compressor.py:1733-1755 ContextCompressor._try_generate_summary] *)
Definition _try_generate_summary (middle : list Message) (summarizer : option Summarizer) (focus_topic : option text)
    : cm (option text) :=
  st_catch (generate_summary middle summarizer focus_topic) (λ e,
    let error := _redact_sensitive_text (_compact_error_text e) in
    modify_summary (λ u,
      set_failures (_is_summary_auth_failure e || su_last_summary_auth_failure u)
        (_is_summary_network_failure e || su_last_summary_network_failure u)
        (set_cooldown (su_cooldown_until u) (su_cooldown_until_wall u) (Some error) u));;
    arm_cooldown (Some error);;
    mret None).

(** ** Files *)

(** [src: travis/compaction/compressor.py:388-392 _tool_path] *)
Definition _tool_path (arguments : json) : option string :=
  match arguments with
  | JObj members =>
      match dict_get "path" members with
      | Some (JStr path) => if bool_decide (strip (of_string path) = []) then None else Some path
      | _ => None
      end
  | _ => None
  end.

(** One call of the loop: the read, written and edited paths. *)
Definition record_call (acc : gset string * gset string * gset string) (c : ToolCall)
    : gset string * gset string * gset string :=
  let '(reads, written, edited) := acc in
  if bool_decide (call_name c = "bash"%string)
  then (reads, written ∪ list_to_set (_bash_file_mutation_paths (call_arguments c)), edited)
  else
    match _tool_path (call_arguments c) with
    | None => acc
    | Some path =>
        if bool_decide (call_name c = "read"%string) then ({[ path ]} ∪ reads, written, edited)
        else if bool_decide (call_name c = "write"%string) then (reads, {[ path ]} ∪ written, edited)
        else if bool_decide (call_name c = "edit"%string) then (reads, written, {[ path ]} ∪ edited)
        else acc
    end.

(** [src: travis/compaction/compressor.py:1402-1426 ContextCompressor._file_operations_for_summary] *)
Definition _file_operations_for_summary (previous_summary : option text) (middle : list Message)
    : list string * list string :=
  let '(read_files, previous_modified) := _extract_file_operation_tags previous_summary in
  let '(reads, written, edited) := fold_left record_call (flat_map _tool_calls middle) (read_files, ∅, previous_modified) in
  let modified := written ∪ edited in
  (py_sorted String.leb (elements (reads ∖ modified)), py_sorted String.leb (elements modified)).

Fixpoint join_lines (separator : text) (lines : list text) : text :=
  match lines with
  | [] => []
  | [l] => l
  | l :: rest => l ++ separator ++ join_lines separator rest
  end.

(** [src: travis/compaction/compressor.py:462-468 _format_file_operations] *)
Definition _format_file_operations (read_files modified_files : list string) : text :=
  let section name files :=
    match files with
    | [] => []
    | _ => [lit "<" ++ lit name ++ lit ">" ++ [10] ++ join_lines [10] (map of_string files) ++ [10] ++ lit "</" ++ lit name ++ lit ">"]
    end in
  match section "read-files"%string read_files ++ section "modified-files"%string modified_files with
  | [] => []
  | sections => [10; 10] ++ join_lines [10; 10] sections
  end.

(** ** Compressing *)

(** [src: travis/compaction/compressor.py:1597-1607 ContextCompressor._compression_noop] *)
Definition _compression_noop (messages : list Message) (before : Z) : CompressionResult :=
  {| cr_messages := messages; cr_compressed := false; cr_savings_pct := fl_zero; cr_summary := None;
     cr_tokens_before := before; cr_first_kept_message_index := None; cr_files := None; cr_cooldown := None;
     cr_summary_model_requested := None; cr_summary_model_used := None; cr_summary_model_fallback := false;
     cr_summary_model_error := None; cr_summary_model_dedicated := false |}.

(** [src: travis/compaction/compressor.py:1643-1653 ContextCompressor._reset_compression_observations] *)
Definition _reset_compression_observations : cm unit :=
  s ← st_get;
  modify_summary (λ u,
    set_models None
      (Some (if bool_decide (cf_summary_model (cc_config s) = ""%string) then cf_model (cc_config s)
             else cf_summary_model (cc_config s))) None false false
      (set_outcome 0 false false (set_cooldown (su_cooldown_until u) (su_cooldown_until_wall u) None u))).

(** [src: travis/compaction/compressor.py:1609-1641 ContextCompressor._compression_preflight] *)
Definition _compression_preflight (messages : list Message) (before : Z) (force summary_only : bool)
    (focus_topic : option text) : cm (option CompressionResult) :=
  st_modify (set_noop None);;
  s ← st_get;
  let proceed : cm (option CompressionResult) :=
    match _find_previous_summary str_arguments str_content messages with
    | Some (index, _) =>
        if negb summary_only && negb (truthy focus_topic) &&
           bool_decide ((messages !! index) ≫= m_compressed_count = Some (length messages))
        then st_modify (set_noop (Some "protected_recent_context"%string));;
             mret (Some (_compression_noop messages before))
        else _reset_compression_observations;; mret None
    | None => _reset_compression_observations;; mret None
    end in
  if force && fl_ltb fl_zero (su_cooldown_until (cc_summary s)) then _clear_summary_failure_cooldown;; proceed
  else if force then proceed
  else
    cooling ← in_cooldown;
    if (cooling : bool) then
      st_modify (set_noop (Some "cooldown"%string));;
      mret (Some (_compression_noop messages before))
    else proceed.

(** [src: travis/compaction/compressor.py:992-996 ContextCompressor._effective_protect_first_n] *)
Definition _effective_protect_first_n (s : ContextCompressor) (messages : list Message) : nat :=
  match _find_previous_summary str_arguments str_content messages with
  | Some _ => 0
  | None =>
      if (1 <=? cc_compression_count s) || truthy (cc_previous_summary s) then 0 else cf_protect_first_n (cc_config s)
  end.

(** [src: travis/compaction/compressor.py:988-990 ContextCompressor._protect_head_size] *)
Definition _protect_head_size (s : ContextCompressor) (messages : list Message) : nat :=
  let system_head := match messages with m :: _ => if is_role system m then 1%nat else 0%nat | [] => 0%nat end in
  Nat.min (length messages) (system_head + _effective_protect_first_n s messages).

(** [src: travis/compaction/compressor.py:2005-2020 ContextCompressor._oversized_protected_head_window] *)
Definition _oversized_protected_head_window (s : ContextCompressor) (messages : list Message) (head_end : nat)
    (before_tokens : Z) (force : bool) : option (nat * nat) :=
  if (length messages <? 2)%nat then None
  else if negb force && (before_tokens <? threshold_tokens s) then None
  else
    let emergency_head_end := _emergency_head_end messages in
    if (length messages <=? emergency_head_end)%nat || (head_end <=? emergency_head_end)%nat then None
    else Some (emergency_head_end, length messages).

(** [src: travis/compaction/compressor.py:1655-1689 ContextCompressor._compression_boundaries] *)
Definition _compression_boundaries (messages : list Message) (before : Z) (force deep durable summary_only : bool)
    : cm (option (list Message * nat * nat)) :=
  s ← st_get;
  let protect_last_n := cf_protect_last_n (cc_config s) in
  let pruned := prune_old_tool_results str_arguments sha256 splitlines protect_last_n messages in
  let head_end :=
    if summary_only then 0%nat
    else _align_boundary_forward messages (if durable then 0%nat else _protect_head_size s messages) in
  tail_start ← (if summary_only then mret (length messages)
    else st_lift (_find_tail_start str_arguments str_content str_block (tail_token_budget s) protect_last_n
                    messages head_end deep true (negb durable)));
  if (head_end <? tail_start)%nat then mret (Some (pruned, head_end, tail_start))
  else
    match _oversized_protected_head_window s messages head_end before force with
    | None => mret None
    | Some (head_end, tail_start) => mret (Some (pruned, head_end, tail_start))
    end.

Definition slice {A} (first last : nat) (l : list A) : list A := drop first (take last l).

Definition bump_ineffective (s : ContextCompressor) : ContextCompressor :=
  let o := cc_observed s in
  set_observed
    {| ob_last_prompt_tokens := ob_last_prompt_tokens o; ob_last_completion_tokens := ob_last_completion_tokens o;
       ob_last_total_tokens := ob_last_total_tokens o; ob_last_real_prompt_tokens := ob_last_real_prompt_tokens o;
       ob_last_compression_rough_tokens := ob_last_compression_rough_tokens o;
       ob_last_rough_tokens_when_real_prompt_fit := ob_last_rough_tokens_when_real_prompt_fit o;
       ob_awaiting_real_usage_after_compression := ob_awaiting_real_usage_after_compression o;
       ob_ineffective_compression_count := ob_ineffective_compression_count o + 1;
       ob_verify_compaction_cleared_threshold := ob_verify_compaction_cleared_threshold o |} s.

(** [src: travis/compaction/compressor.py:1691-1731 ContextCompressor._middle_for_summary] *)
Definition _middle_for_summary (pruned : list Message) (head_end tail_start : nat) : cm (option (list Message)) :=
  s ← st_get;
  match _find_latest_context_summary str_arguments str_content pruned 0 (Nat.min (length pruned) (tail_start + 1)) with
  | None =>
      (if truthy (cc_previous_summary s) then st_modify (set_previous None) else mret tt);;
      mret (Some (slice head_end tail_start pruned))
  | Some (summary_index, summary_body) =>
      (if truthy (Some summary_body) && negb (truthy (cc_previous_summary s))
       then st_modify (set_previous (Some summary_body)) else mret tt);;
      let middle := slice (Nat.max head_end (summary_index + 1)) tail_start pruned in
      let middle :=
        match pruned !! summary_index with
        | Some m =>
            let retained_tail := _retained_tail_after_summary (message_text m) in
            if truthy (Some retained_tail) && (head_end <=? summary_index)%nat && (summary_index + 1 <? tail_start)%nat
            then _message_with_replacement_text m retained_tail :: middle
            else middle
        | None => middle
        end in
      match middle with
      | [] =>
          st_modify (λ s, set_noop (Some "protected_recent_context"%string)
                            (bump_ineffective (set_savings fl_zero (cc_compression_count s) s)));;
          mret None
      | _ => mret (Some middle)
      end
  end.

Definition model_error (u : SummaryState) : option text :=
  if truthy (su_last_aux_model_failure_error u) then su_last_aux_model_failure_error u else su_last_summary_error u.

Definition dedicated (s : ContextCompressor) : bool :=
  negb (bool_decide (cf_summary_model (cc_config s) = ""%string)) && bool_decide (is_Some summary_summarizer).

(** [src: travis/compaction/compressor.py:1757-1778 ContextCompressor._summary_failure_result] *)
Definition _summary_failure_result (messages : list Message) (before : Z) : cm CompressionResult :=
  modify_summary (λ u, set_outcome (su_last_summary_dropped_count u) (su_last_summary_fallback_used u) true u);;
  s ← st_get;
  let u := cc_summary s in
  mret {| cr_messages := messages; cr_compressed := false; cr_savings_pct := fl_zero; cr_summary := None;
          cr_tokens_before := before; cr_first_kept_message_index := None; cr_files := None; cr_cooldown := None;
          cr_summary_model_requested := su_last_summary_model_requested u;
          cr_summary_model_used := su_last_summary_model_used u;
          cr_summary_model_fallback := su_last_summary_model_fallback_used u;
          cr_summary_model_error := model_error u; cr_summary_model_dedicated := dedicated s |}.

(** [src: travis/compaction/compressor.py:1780-1809 ContextCompressor._fallback_summary_text] *)
Definition _fallback_summary_text (messages middle : list Message) (tail_start : nat) : cm text :=
  modify_summary (λ u, set_outcome (length middle) true (su_last_compress_aborted u) u);;
  s ← st_get;
  let focus :=
    match List.find (λ m, is_role user m && negb (is_summary m) && negb (bool_decide (strip (message_text m) = [])))
            (rev (drop tail_start messages)) with
    | Some m =>
        match strip (_sanitize_summary_source_text (message_text m)) with
        | [] => None
        | t => Some (lit "Newest retained user focus: " ++ t)
        end
    | None => None
    end in
  mret (_redact_sensitive_text
    (_static_fallback_summary (cc_previous_summary s) middle (su_last_summary_error (cc_summary s)) focus)).

(** [src: travis/compaction/compressor.py:2035-2038 _savings] *)
Definition _savings (before after : Z) : float64 :=
  if before <=? 0 then fl_zero
  else fl_mul (SpecFloat.SFdiv fl_prec fl_emax (fl_of_Z (before - after)) (fl_of_Z before)) (fl_of_Z 100).

(** [src: travis/compaction/compressor.py:1811-1877 ContextCompressor._finalize_compression] *)
Definition _finalize_compression (messages middle : list Message) (summary_text : text) (before : Z)
    (head_end tail_start : nat) : cm CompressionResult :=
  s ← st_get;
  let u := cc_summary s in
  let '(read_files, modified_files) := _file_operations_for_summary (cc_previous_summary s) middle in
  let formatted := _format_file_operations read_files modified_files in
  let summary_text := match formatted with [] => summary_text | _ => _strip_file_operation_tags summary_text ++ formatted end in
  let cooldown :=
    if truthy (su_last_summary_error u) || su_last_summary_fallback_used u
    then Some (su_cooldown_until_wall u, su_last_summary_error u, su_last_summary_fallback_used u) else None in
  let result := finalize_messages str_arguments str_content now_ms messages head_end tail_start summary_text in
  let savings := _savings before (estimate_tokens result) in
  st_modify (λ s, set_savings savings (cc_compression_count s + 1) (set_previous (Some summary_text) s));;
  mret {| cr_messages := result; cr_compressed := true; cr_savings_pct := savings; cr_summary := Some summary_text;
          cr_tokens_before := before; cr_first_kept_message_index := Some tail_start;
          cr_files := Some (read_files, modified_files); cr_cooldown := cooldown;
          cr_summary_model_requested := su_last_summary_model_requested u;
          cr_summary_model_used := su_last_summary_model_used u;
          cr_summary_model_fallback := su_last_summary_model_fallback_used u;
          cr_summary_model_error := model_error u; cr_summary_model_dedicated := dedicated s |}.

(** [summarizer] is the argument, or the one given at construction.

    [src: travis/compaction/compressor.py:1879-1944 ContextCompressor.compress] *)
Definition compress (messages : list Message) (summarizer : option Summarizer) (focus_topic : option text)
    (force deep durable summary_only : bool) : cm CompressionResult :=
  let before := estimate_tokens messages in
  preflight ← _compression_preflight messages before force summary_only focus_topic;
  match preflight with
  | Some r => mret r
  | None =>
      boundaries ← _compression_boundaries messages before force deep durable summary_only;
      match boundaries with
      | None =>
          st_modify (set_noop (Some "protected_recent_context"%string));;
          mret (_compression_noop messages before)
      | Some (pruned, head_end, tail_start) =>
          middle ← _middle_for_summary pruned head_end tail_start;
          match middle with
          | None => mret (_compression_noop messages before)
          | Some middle =>
              summary_text ← _try_generate_summary middle summarizer focus_topic;
              match summary_text with
              | Some summary_text => _finalize_compression messages middle summary_text before head_end tail_start
              | None =>
                  s ← st_get;
                  if cf_abort_on_summary_failure (cc_config s) || su_last_summary_auth_failure (cc_summary s) ||
                     su_last_summary_network_failure (cc_summary s)
                  then _summary_failure_result messages before
                  else
                    summary_text ← _fallback_summary_text messages middle tail_start;
                    _finalize_compression messages middle summary_text before head_end tail_start
              end
          end
      end
  end.

End compress.
