(* ===== verification/CompressorSpec.v ===== *)
(** What compaction promises: whatever the summarisers do, the transcript that
    comes out is one a provider accepts (every tool call answered, directly and
    exactly), the newest user turn is kept, and nothing raises. *)

From S2P Require Import Prelude Json JsonText PyFloat Utf8 PyText Transcript ContextBudget ContextBudgetSpec Compressor.
From stdpp Require Import gmap.
Open Scope Z_scope.
Local Notation text := Utf8.text.
#[local] Opaque lit.

(** ** Shapes

    What pairing looks at: a message is a result, by the call it answers, or
    anything else, by the calls it makes. *)

Inductive shape : Type := Result (id : string) | Calls (ids : list string).

Definition shape_of (m : Message) : shape :=
  if is_role toolResult m then Result (m_tool_call_id m) else Calls (map call_id (_tool_calls m)).

Definition calls_in (l : list shape) : list string := flat_map (λ x, match x with Calls c => c | Result _ => [] end) l.
Definition results_in (l : list shape) : list string := omap (λ x, match x with Result i => Some i | _ => None end) l.

(** The automaton of a well-paired transcript: the calls of the last message that
    is no result, and those of them still unanswered. *)
Fixpoint scan (open pending : list string) (l : list shape) : option (list string * list string) :=
  match l with
  | [] => Some (open, pending)
  | Result i :: l =>
      if bool_decide (i ∈ open) then scan open (List.filter (λ j, negb (bool_decide (j = i))) pending) l else None
  | Calls c :: l => if bool_decide (pending = []) then scan c c l else None
  end.

(** Results directly follow the message whose calls they answer, and every call
    is answered. *)
Definition well_paired (messages : list Message) : Prop :=
  ∃ open, scan [] [] (map shape_of messages) = Some (open, []).

(** Distinct, non-empty identifiers. *)
Definition distinct_calls (messages : list Message) : Prop :=
  NoDup (call_ids messages) ∧ Forall (λ id, id ≠ ""%string) (call_ids messages).

Lemma scan_app o p l1 l2 :
  scan o p (l1 ++ l2) = match scan o p l1 with Some (o', p') => scan o' p' l2 | None => None end.
Proof.
  revert o p. induction l1 as [|[i|c] l1 IH]; intros o p; cbn; [done|..]; case_match; by rewrite ?IH.
Qed.

Lemma calls_in_app l1 l2 : calls_in (l1 ++ l2) = calls_in l1 ++ calls_in l2.
Proof. apply flat_map_app. Qed.
Lemma results_in_app l1 l2 : results_in (l1 ++ l2) = results_in l1 ++ results_in l2.
Proof. apply omap_app. Qed.

Lemma elem_of_filter_neq i j l : i ∈ List.filter (λ k : string, negb (bool_decide (k = j))) l ↔ i ∈ l ∧ i ≠ j.
Proof. rewrite !list_elem_of_In, filter_In, negb_true_iff, bool_decide_eq_false. done. Qed.

(** A scanned prefix: its open calls and its results are among its calls, and a
    pending call has no result yet. *)
Lemma scan_prefix l o p : scan [] [] l = Some (o, p) → NoDup (calls_in l) →
  (∀ i, i ∈ p → i ∈ o ∧ i ∉ results_in l) ∧ (∀ i, i ∈ o → i ∈ calls_in l) ∧ (∀ i, i ∈ results_in l → i ∈ calls_in l).
Proof.
  revert o p. induction l as [|x l IH] using rev_ind; intros o p.
  - intros [= <- <-] _. split_and!; by intros i ?%not_elem_of_nil.
  - rewrite scan_app, calls_in_app, results_in_app. destruct (scan [] [] l) as [[o1 p1]|]; [|done].
    intros Hs (Hnd & Hdis & _)%NoDup_app. destruct (IH _ _ eq_refl Hnd) as (Hp & Ho & Hr). clear IH.
    destruct x as [j|c]; cbn in Hs; case_bool_decide as Hj; try done; injection Hs as <- <-; cbn; rewrite ?app_nil_r.
    + split_and!; [|auto|].
      * intros i [Hi Hne]%elem_of_filter_neq. destruct (Hp i Hi) as [? ?]. split; [done|]. set_solver.
      * intros i [Hi|Hi%list_elem_of_singleton]%elem_of_app; [auto|subst; auto].
    + split_and!; [|set_solver|set_solver]. intros i Hi. split; [done|]. intros Hin%Hr.
      by apply (Hdis i Hin), elem_of_app; left.
Qed.

(** ** Sanitising shapes *)

Section sanitize.
(** The surviving calls and the results that answer something. *)
Variable surviving results : list string.

Definition kept (x : shape) : list shape :=
  match x with
  | Result i => if bool_decide (i ∈ surviving) then [Result i] else []
  | Calls c => Calls c :: map Result (List.filter (λ i, negb (bool_decide (i ∈ results))) c)
  end.

Definition answered (p : list string) : list string := List.filter (λ i, bool_decide (i ∈ results)) p.

Lemma scan_results_filter o q l :
  (∀ i, i ∈ l → i ∈ o) →
  scan o q (map Result l) = Some (o, List.filter (λ j, negb (bool_decide (j ∈ l))) q).
Proof.
  revert q. induction l as [|i l IH]; intros q Hl; cbn [map scan].
  - f_equal. f_equal. induction q as [|j q IHq]; [done|]. cbn [List.filter]. by rewrite <-IHq at 1.
  - rewrite bool_decide_true by set_solver. rewrite IH by set_solver. f_equal. f_equal. clear.
    induction q as [|j q IH]; [done|]. cbn [List.filter].
    destruct (decide (j = i)) as [->|Hne].
    + rewrite (bool_decide_true (i = i)), (bool_decide_true (i ∈ i :: l)) by set_solver. done.
    + rewrite (bool_decide_false (j = i)) by done. cbn [negb List.filter].
      rewrite (bool_decide_ext (j ∈ i :: l) (j ∈ l)) by set_solver. case_match; by rewrite IH.
Qed.

(** The placeholders answer exactly the calls without a result. *)
Lemma scan_placeholders c :
  scan c c (map Result (List.filter (λ i, negb (bool_decide (i ∈ results))) c)) = Some (c, answered c).
Proof.
  rewrite scan_results_filter by (intros i; rewrite list_elem_of_In, filter_In, <-list_elem_of_In; by intros [? _]).
  f_equal. f_equal. unfold answered. apply List.filter_ext_in. intros i Hi%list_elem_of_In.
  destruct (decide (i ∈ results)) as [Hr|Hr].
  - rewrite bool_decide_false, bool_decide_true; [done..|]. rewrite list_elem_of_In, filter_In, negb_true_iff.
    intros [_ Hn]. by apply bool_decide_eq_false in Hn.
  - rewrite bool_decide_true, bool_decide_false; [done..|]. rewrite list_elem_of_In, filter_In, negb_true_iff.
    split; [by apply list_elem_of_In|]. by apply bool_decide_eq_false.
Qed.

Lemma answered_filter i p :
  List.filter (λ j, negb (bool_decide (j = i))) (answered p) = answered (List.filter (λ j, negb (bool_decide (j = i))) p).
Proof.
  unfold answered. induction p as [|j p IH]; [done|]. cbn [List.filter].
  destruct (bool_decide (j ∈ results)) eqn:H1, (bool_decide (j = i)) eqn:H2; cbn [negb List.filter];
    rewrite ?H1, ?H2; cbn [negb]; by rewrite ?IH.
Qed.

Lemma answered_nil p : (∀ i, i ∈ p → i ∉ results) → answered p = [].
Proof.
  unfold answered. induction p as [|i p IH]; intros Hp; [done|]. cbn [List.filter].
  rewrite bool_decide_false by set_solver. apply IH. set_solver.
Qed.

(** Sanitising a scanned part leaves the answered calls pending. *)
Lemma scan_kept o p l o' p' :
  scan o p l = Some (o', p') → (∀ i, i ∈ results_in l → i ∈ surviving) →
  scan o (answered p) (flat_map kept l) = Some (o', answered p').
Proof.
  revert o p. induction l as [|[i|c] l IH]; intros o p; cbn [scan flat_map kept]; [by intros [= <- <-]| |].
  - case_bool_decide as Hi; [|done]. intros Hs Hr. cbn in Hr. rewrite bool_decide_true by set_solver.
    cbn [app scan]. rewrite bool_decide_true, answered_filter by done. apply IH; [done|set_solver].
  - case_bool_decide as Hp; [|done]. subst. intros Hs Hr. cbn [app scan answered List.filter].
    rewrite bool_decide_true, scan_app, scan_placeholders by done. by apply IH.
Qed.

(** Orphans go. *)
Lemma kept_orphans l : Forall (λ x, ∃ i, x = Result i ∧ i ∉ surviving) l → flat_map kept l = [].
Proof. induction 1 as [|x l (i & -> & Hi) _ IH]; [done|]. cbn. by rewrite bool_decide_false, IH. Qed.

End sanitize.

(** Leading results. *)
Lemma split_results (l : list shape) :
  ∃ rs rest, l = map Result rs ++ rest ∧ match rest with Result _ :: _ => False | _ => True end.
Proof.
  induction l as [|[i|c] l (rs & rest & -> & Hrest)]; [by exists [], []| |].
  - by exists (i :: rs), rest.
  - exists [], (Calls c :: map Result rs ++ rest). done.
Qed.

Lemma scan_results_open o p rs rest o' p' :
  scan o p (map Result rs ++ rest) = Some (o', p') →
  (∀ i, i ∈ rs → i ∈ o) ∧ ∃ p1, scan o p (map Result rs) = Some (o, p1) ∧ scan o p1 rest = Some (o', p').
Proof.
  revert p. induction rs as [|i rs IH]; intros p; cbn [map app scan].
  - intros Hs. split; [by intros i ?%not_elem_of_nil|]. by exists p.
  - case_bool_decide as Hi; [|done]. intros (Ho & p1 & H1 & H2)%IH. split; [set_solver|]. by exists p1.
Qed.

(** A prefix [H], at most one message [mid] without calls, and a suffix [T] of a
    well-paired transcript, sanitised, are well paired, provided that what was
    cut out does not start inside a group of results, or that nothing follows. *)
Lemma scan_cut (H M T mid : list shape) o :
  scan [] [] (H ++ M ++ T) = Some (o, []) → NoDup (calls_in (H ++ M ++ T)) →
  mid = [] ∨ mid = [Calls []] →
  T = [] ∨ (∃ c M', M = Calls c :: M') →
  let surviving := calls_in (H ++ mid ++ T) in
  let results := results_in (H ++ mid ++ T) in
  ∃ o', scan [] [] (flat_map (kept surviving results) (H ++ mid ++ T)) = Some (o', []).
Proof.
  intros Hs Hnd Hmid Hcut surviving results. rewrite scan_app in Hs.
  destruct (scan [] [] H) as [[oH pH]|] eqn:HsH; [|done].
  rewrite !calls_in_app in Hnd. apply NoDup_app in Hnd as (HndH & HdisH & (HndM & HdisM & HndT)%NoDup_app).
  destruct (scan_prefix H oH pH HsH HndH) as (HpH & HoH & HrH).
  assert (∀ i, i ∈ surviving ↔ i ∈ calls_in H ∨ i ∈ calls_in T) as Hsurv.
  { intros i. unfold surviving. rewrite !calls_in_app, !elem_of_app. destruct Hmid as [->| ->]; cbn; set_solver. }
  (* what is sanitised of [H] and [mid] leaves nothing pending *)
  assert (∃ o1, scan [] [] (flat_map (kept surviving results) (H ++ mid)) = Some (o1, [])) as (o1 & Hs1).
  { pose proof (scan_kept surviving results [] [] H oH pH HsH) as Hk. cbn in Hk.
    rewrite flat_map_app, scan_app, Hk by (intros i Hi%HrH; apply Hsurv; by left).
    assert (answered results pH = []) as ->.
    { destruct Hcut as [-> | (c & M' & ->)].
      - apply answered_nil. intros i Hi Hin. unfold results in Hin.
        rewrite app_nil_r, results_in_app, elem_of_app in Hin. destruct (HpH i Hi) as [_ Hn]. destruct Hin as [?|Hin]; [done|].
        by destruct Hmid as [->| ->]; apply not_elem_of_nil in Hin.
      - cbn in Hs. case_bool_decide as Hp; [|done]. by subst pH. }
    destruct Hmid as [->| ->]; cbn; by eexists. }
  rewrite app_assoc, flat_map_app, scan_app, Hs1.
  destruct (split_results T) as (rs & rest & HT & Hrest).
  destruct Hcut as [-> | (c & M' & HM)]; [by eexists|].
  rewrite scan_app in Hs. destruct (scan oH pH M) as [[oM pM]|] eqn:HsM; [|done].
  subst T. destruct (scan_results_open _ _ _ _ _ _ Hs) as (Hrs & p1 & Hs2 & Hs3).
  (* the leading results of [T] answer calls that were cut out *)
  rewrite flat_map_app, (kept_orphans surviving results (map Result rs)); [cbn [app]|].
  2:{ rewrite Forall_map, Forall_forall. intros i Hi. exists i. split; [done|]. apply Hrs in Hi.
      assert (i ∈ calls_in M) as HiM.
      { subst M. cbn in HsM. case_bool_decide as Hp; [|done].
        assert (scan [] [] (Calls c :: M') = Some (oM, pM)) as Hs' by done.
        destruct (scan_prefix _ _ _ Hs' HndM) as (_ & Ho & _). by apply Ho. }
      rewrite Hsurv. intros [HiH|HiT]; [apply (HdisH i HiH), elem_of_app; by left|by apply (HdisM i HiM)]. }
  destruct rest as [|[i|c'] rest]; [by eexists|done|].
  cbn [scan] in Hs3. case_bool_decide as Hp1; [|done].
  assert (scan [] [] (Calls c' :: rest) = Some (o, [])) as Hs4 by done.
  assert (NoDup (calls_in (Calls c' :: rest))) as Hnd4 by (rewrite calls_in_app in HndT; by apply NoDup_app in HndT as (_ & _ & ?)).
  destruct (scan_prefix _ _ _ Hs4 Hnd4) as (_ & _ & Hr4).
  exists o. refine (scan_kept surviving results o1 [] (Calls c' :: rest) o [] Hs4 _).
  intros i Hi%Hr4. rewrite Hsurv, calls_in_app, elem_of_app. by right; right.
Qed.

(** ** From messages to shapes *)

Lemma tool_calls_result m : is_role toolResult m = true → _tool_calls m = [].
Proof. unfold _tool_calls, is_role. intros H%bool_decide_eq_true. by rewrite H. Qed.

Lemma calls_of_shape m : match shape_of m with Calls c => c | Result _ => [] end = map call_id (_tool_calls m).
Proof. unfold shape_of. destruct (is_role toolResult m) eqn:H; [|done]. by rewrite tool_calls_result. Qed.

Lemma calls_in_shapes messages : calls_in (map shape_of messages) = call_ids messages.
Proof.
  unfold call_ids, calls_in. induction messages as [|m l IH]; [done|]. cbn [map flat_map].
  by rewrite map_app, <-IH, calls_of_shape.
Qed.

Lemma shape_with_content c m : (is_role assistant m = true → omap (λ b, match b with ToolCallBlock c => Some c | _ => None end) (blocks_of c)
    = omap (λ b, match b with ToolCallBlock c => Some c | _ => None end) (blocks_of (m_content m))) →
  shape_of (with_content c m) = shape_of m.
Proof.
  intros Hc. unfold shape_of. change (is_role toolResult (with_content c m)) with (is_role toolResult m).
  destruct (is_role toolResult m); [done|]. unfold _tool_calls.
  change (is_role assistant (with_content c m)) with (is_role assistant m).
  destruct (is_role assistant m); [|done]. cbn [with_content m_content]. by rewrite Hc.
Qed.

Lemma shape_marks b n m : shape_of (with_marks b n m) = shape_of m.
Proof. done. Qed.

Lemma shape_stripped m : shape_of (with_content (_strip_images_from_content (m_content m)) m) = shape_of m.
Proof.
  apply shape_with_content. intros _. unfold _strip_images_from_content. destruct (m_content m) as [|bs|]; [done| |done].
  case_match; [|done]. cbn [blocks_of]. clear. induction bs as [|b bs IH]; [done|].
  destruct b; cbn [map is_image omap list_omap]; [exact IH..|by f_equal].
Qed.

Lemma shapes_strip_media messages : map shape_of (_strip_historical_media messages) = map shape_of messages.
Proof.
  unfold _strip_historical_media. destruct (search_down _ _ _ _) as [[|anchor]|]; [done| |done].
  rewrite map_app, map_map. rewrite (map_ext (λ m, shape_of (with_content _ m)) shape_of shape_stripped).
  by rewrite <-map_app, take_drop.
Qed.

Lemma shapes_mark_first sa sc n messages : map shape_of (mark_first_summary sa sc n messages) = map shape_of messages.
Proof.
  induction messages as [|m l IH]; [done|]. cbn [mark_first_summary].
  case_match; cbn [map]; [by rewrite shape_marks|by rewrite IH].
Qed.

(** The calls and the results that are looked at are those of the shapes. *)
Lemma filter_named l : Forall (λ id, id ≠ ""%string) l → List.filter named l = l.
Proof.
  induction 1 as [|i l Hi _ IH]; [done|]. cbn [List.filter]. unfold named at 1.
  by rewrite bool_decide_false, IH.
Qed.

Lemma results_in_shapes messages :
  results_in (map shape_of messages) = map m_tool_call_id (List.filter (is_role toolResult) messages).
Proof.
  induction messages as [|m l IH]; [done|]. cbn [map List.filter]. unfold shape_of at 1.
  destruct (is_role toolResult m); cbn; by rewrite <-IH.
Qed.

Lemma shapes_sanitize now messages :
  Forall (λ id, id ≠ ""%string) (call_ids messages) →
  (∀ i, i ∈ results_in (map shape_of messages) → i ≠ ""%string) →
  map shape_of (_sanitize_tool_pairs now messages)
  = flat_map (kept (calls_in (map shape_of messages)) (results_in (map shape_of messages))) (map shape_of messages).
Proof.
  intros Hc Hr. unfold _sanitize_tool_pairs. rewrite (filter_named _ Hc). rewrite <-results_in_shapes, filter_named.
  2:{ rewrite Forall_forall. exact Hr. }
  rewrite <-calls_in_shapes. set (S := calls_in _). set (R := results_in (map shape_of messages)).
  assert (∀ m, m ∈ messages → is_role toolResult m = true → m_tool_call_id m ∈ R) as HR.
  { intros m Hm Hrole. unfold R. rewrite results_in_shapes. apply list_elem_of_In, in_map, filter_In.
    split; [by apply list_elem_of_In|done]. }
  assert (∀ i, i ∈ call_ids messages → i ∈ S) as HS by (intros i Hi; unfold S; by rewrite calls_in_shapes).
  clearbody S R. clear Hc Hr. induction messages as [|m l IH]; [done|]. cbn [map List.filter flat_map].
  assert (call_ids (m :: l) = map call_id (_tool_calls m) ++ call_ids l) as Hids by apply map_app.
  rewrite Hids in HS. rewrite <-IH by (intros; first [apply HR; [by right|done]|apply HS, elem_of_app; by right]).
  unfold shape_of at 2. destruct (is_role toolResult m) eqn:Hrole; cbn [andb kept].
  - specialize (HR m ltac:(by left) Hrole).
    destruct (decide (m_tool_call_id m ∈ S)) as [Hin|Hout].
    + rewrite (bool_decide_false (_ ∧ _)) by (intros [_ ?]; done). cbn [negb flat_map].
      rewrite (tool_calls_result m Hrole). cbn [List.filter map app]. rewrite (bool_decide_true (m_tool_call_id m ∈ S)) by done.
      cbn. unfold shape_of at 1. by rewrite Hrole.
    + rewrite (bool_decide_true (_ ∧ _)) by done. cbn [negb]. by rewrite bool_decide_false.
  - cbn [negb flat_map]. rewrite map_app. cbn [map app]. unfold shape_of at 1. rewrite Hrole. f_equal. f_equal.
    rewrite map_map. cbn. clear -HS. induction (_tool_calls m) as [|c cs IHc]; [done|]. cbn [List.filter map] in HS |- *.
    specialize (IHc ltac:(intros; apply HS; by right)). assert (call_id c ∈ S) by (apply HS; by left).
    destruct (decide (call_id c ∈ R)).
    + rewrite bool_decide_false, (bool_decide_true (call_id c ∈ R)) by naive_solver. exact IHc.
    + rewrite bool_decide_true, (bool_decide_false (call_id c ∈ R)) by done. cbn [negb map]. by rewrite <-IHc.
Qed.

(** ** The assembled transcript *)

Section assembled.
Variable str_arguments : json → text.
Variable str_content : Content → text.
Variable now_ms : Z.

Lemma shape_append m t : is_role assistant m = false → shape_of (_append_text_to_message m t) = shape_of m.
Proof. intros H. apply shape_with_content. congruence. Qed.

Lemma shape_prepend m t : shape_of (_prepend_text_to_message m t) = shape_of m.
Proof. apply shape_with_content. intros _. by destruct (m_content m). Qed.

Lemma shape_copy m i : shape_of (_copy_head_message_for_compression str_arguments str_content m i) = shape_of m.
Proof.
  unfold _copy_head_message_for_compression. destruct (negb _); cbn [orb]; [done|].
  destruct (is_role system m) eqn:Hs; cbn [negb]; [|done]. case_match; [done|]. apply shape_append.
  unfold is_role in *. apply bool_decide_eq_true in Hs. by rewrite Hs.
Qed.

Lemma shapes_imap (f : nat → Message → Message) l :
  (∀ i m, shape_of (f i m) = shape_of m) → map shape_of (imap f l) = map shape_of l.
Proof.
  intros Hf. revert f Hf. induction l as [|m l IH]; intros f Hf; [done|]. rewrite imap_cons. cbn [map].
  rewrite Hf. f_equal. apply IH. intros i m'. apply Hf.
Qed.

Lemma shape_summary r t : shape_of (_summary_message now_ms r t) = Calls [].
Proof. unfold _summary_message. by case_bool_decide. Qed.

Lemma shapes_assemble messages head_end tail_start t :
  ∃ mid, (mid = [] ∨ mid = [Calls []]) ∧
  map shape_of (_assemble_compressed_messages str_arguments str_content now_ms messages head_end tail_start t)
  = map shape_of (take head_end messages) ++ mid ++ map shape_of (drop tail_start messages).
Proof.
  unfold _assemble_compressed_messages. destruct (summary_placement _ _ _ _ _) as [r merge]. destruct merge.
  - exists []. split; [by left|]. destruct (drop tail_start messages) as [|m rest].
    + rewrite shapes_imap by (intros; apply shape_copy). by rewrite !app_nil_r.
    + rewrite map_app, shapes_imap by (intros; apply shape_copy). cbn [map app]. f_equal. f_equal.
      unfold _mark_compressed_summary_message. by rewrite shape_marks, shape_prepend.
  - exists [Calls []]. split; [by right|].
    rewrite map_app, shapes_imap by (intros; apply shape_copy). cbn [map app]. by rewrite shape_summary.
Qed.

(** Where a transcript may be cut: behind everything, or before a message that is
    no result. *)
Definition cut_ok (messages : list Message) (head_end tail_start : nat) : Prop :=
  (head_end ≤ tail_start)%nat ∧
  ((length messages ≤ tail_start)%nat ∨
   (head_end < tail_start)%nat ∧ ∃ m, messages !! head_end = Some m ∧ is_role toolResult m = false).

Lemma finalize_paired messages head_end tail_start t :
  well_paired messages → distinct_calls messages → cut_ok messages head_end tail_start →
  well_paired (finalize_messages str_arguments str_content now_ms messages head_end tail_start t).
Proof.
  intros [o Hw] [Hnd Hne] [Hle Hcut]. unfold well_paired, finalize_messages.
  rewrite shapes_mark_first, shapes_strip_media.
  assert (messages = take head_end messages ++ slice head_end tail_start messages ++ drop tail_start messages) as Hsplit.
  { unfold slice. rewrite <-(take_drop tail_start messages) at 1. rewrite app_assoc. f_equal.
    rewrite <-(take_drop head_end (take tail_start messages)) at 1. by rewrite take_take, Nat.min_l by lia. }
  rewrite <-calls_in_shapes in Hnd, Hne.
  assert (map shape_of messages = map shape_of (take head_end messages) ++ map shape_of (slice head_end tail_start messages)
    ++ map shape_of (drop tail_start messages)) as Hshapes by (rewrite <-!map_app; by f_equal).
  destruct (scan_prefix _ _ _ Hw Hnd) as (_ & _ & Hresults).
  destruct (shapes_assemble messages head_end tail_start t) as (mid & Hmid & Ha).
  rewrite Hshapes in Hw, Hnd, Hne, Hresults.
  assert (∀ i, i ∈ calls_in (map shape_of (take head_end messages) ++ mid ++ map shape_of (drop tail_start messages)) →
    i ≠ ""%string) as Hc.
  { rewrite Forall_forall in Hne. intros i Hi. apply Hne. rewrite !calls_in_app, !elem_of_app in Hi |- *.
    destruct Hi as [?|[Hi|?]]; [by left| |by right; right]. by destruct Hmid as [->| ->]; apply not_elem_of_nil in Hi. }
  rewrite shapes_sanitize; rewrite ?Ha.
  - apply (scan_cut _ (map shape_of (slice head_end tail_start messages)) _ mid o Hw Hnd Hmid).
    destruct Hcut as [Hend|(Hlt & m & Hm & Hrole)]; [left; by rewrite drop_ge|right].
    unfold slice. assert (drop head_end (take tail_start messages) = m :: drop (S head_end) (take tail_start messages)) as ->.
    { apply drop_S. by rewrite lookup_take_lt. }
    cbn [map]. unfold shape_of at 1. rewrite Hrole. by do 2 eexists.
  - rewrite <-calls_in_shapes, Ha. rewrite Forall_forall. exact Hc.
  - intros i Hi. rewrite Forall_forall in Hne. apply Hne, Hresults.
    rewrite !results_in_app, !elem_of_app in Hi |- *.
    destruct Hi as [?|[Hi|?]]; [by left| |by right; right]. by destruct Hmid as [->| ->]; apply not_elem_of_nil in Hi.
Qed.

End assembled.

(** ** The cut that is made *)

Lemma leading_stops p l : match drop (leading p l) l with m :: _ => p m = false | [] => True end.
Proof. induction l as [|m l IH]; [done|]. cbn [leading]. by destruct (p m) eqn:Hp. Qed.

Lemma align_forward_stops messages index m :
  messages !! _align_boundary_forward messages index = Some m → is_role toolResult m = false.
Proof.
  unfold _align_boundary_forward. intros Hm. pose proof (leading_stops (is_role toolResult) (drop index messages)) as Hs.
  rewrite drop_drop in Hs. rewrite (drop_S _ _ _ Hm) in Hs. done.
Qed.

Section runs.
Variable str_arguments : json → text.
Variable str_content : Content → text.
Variable str_block : ContentBlock → text.
Variable object_chars : Message → Z.
Variable sha256 : string → string.
Variable splitlines : text → list text.
Variable lower : text → text.
Variable clock wall_clock : nat → float64.
Variable now_ms : Z.
Variable _redact_sensitive_text _strip_inline_reasoning_blocks _sanitize_summary_source_text : text → text.
Variable summary_prompt : option text → list Message → Z → option text → text.
Variable _static_fallback_summary : option text → list Message → option text → option text → text.
Variable _extract_file_operation_tags : option text → gset string * gset string.
Variable _bash_file_mutation_paths : json → list string.
Variable _strip_file_operation_tags : text → text.
Variable summary_summarizer : option Summarizer.

Notation run_compress := (compress str_arguments str_content str_block object_chars sha256 splitlines lower clock wall_clock
  now_ms _redact_sensitive_text _strip_inline_reasoning_blocks _sanitize_summary_source_text summary_prompt
  _static_fallback_summary _extract_file_operation_tags _bash_file_mutation_paths _strip_file_operation_tags
  summary_summarizer).
Notation finalize := (finalize_messages str_arguments str_content now_ms).

Lemma wpe_get {S E} (Q : S → S → Prop) (R : E → S → Prop) s : Q s s → wpe st_get Q R s.
Proof. done. Qed.

(** What every part of a compression leaves alone. *)
Definition same_frame (s s' : ContextCompressor) : Prop :=
  cc_config s' = cc_config s ∧ cc_compression_count s' = cc_compression_count s.

Lemma same_frame_refl s : same_frame s s.
Proof. done. Qed.

(** Symbolic execution, branching on every test; a called part is left to its
    lemma. *)
Ltac run :=
  repeat first
    [ progress cbn zeta
    | apply wpe_bind | apply wpe_ret | apply wpe_throw | apply wpe_modify | apply wpe_get
    | apply wpe_lift; intros ? ?
    | match goal with
      | |- wpe (modify_summary _) _ _ _ => unfold modify_summary
      | |- wpe (match ?x with _ => _ end) _ _ _ => destruct x eqn:?
      end ].

Definition framed {A} (m : st ContextCompressor py_exn A) : Prop :=
  ∀ s, wpe m (λ _ s', same_frame s s') (λ _ s', same_frame s s') s.

Lemma framed_then {A} (m : st ContextCompressor py_exn A) s0 s (Q : A → ContextCompressor → Prop) R :
  framed m → same_frame s0 s → (∀ a s', same_frame s0 s' → Q a s') → (∀ e s', same_frame s0 s' → R e s') → wpe m Q R s.
Proof.
  intros Hm [Hc Hn] HQ HR. eapply wpe_mono; [apply Hm|..]; intros ? s' [Hc' Hn']; [apply HQ|apply HR]; split; congruence.
Qed.

Lemma framed_in_cooldown : framed (_summary_failure_in_cooldown clock).
Proof. intros s. unfold _summary_failure_in_cooldown, read_clock. run. done. Qed.

Lemma framed_arm error : framed (_arm_summary_failure_cooldown clock wall_clock _redact_sensitive_text error).
Proof. intros s. unfold _arm_summary_failure_cooldown, read_clock, read_wall_clock. run. done. Qed.

Lemma framed_clear : framed _clear_summary_failure_cooldown.
Proof. intros s. unfold _clear_summary_failure_cooldown. run. done. Qed.

Lemma framed_run_summarizer prompt summarizer :
  framed (_run_summary_summarizer _redact_sensitive_text _strip_inline_reasoning_blocks summary_summarizer prompt summarizer).
Proof.
  intros s. unfold _run_summary_summarizer, _fallback_to_main_for_compression. run; done.
Qed.

Lemma framed_generate middle summarizer focus :
  framed (generate_summary object_chars clock wall_clock _redact_sensitive_text _strip_inline_reasoning_blocks
    summary_prompt summary_summarizer middle summarizer focus).
Proof.
  intros s. unfold generate_summary, _summary_budget, _clear_summary_failure_cooldown, _arm_summary_failure_cooldown,
    _run_summary_summarizer, _fallback_to_main_for_compression. run; done.
Qed.

(** [_try_generate_summary] never raises. *)
Lemma wpe_try_generate middle summarizer focus s0 s (Q : option text → ContextCompressor → Prop) R :
  same_frame s0 s → (∀ r s', same_frame s0 s' → Q r s') →
  wpe (_try_generate_summary object_chars lower clock wall_clock _redact_sensitive_text _strip_inline_reasoning_blocks
    summary_prompt summary_summarizer middle summarizer focus) Q R s.
Proof.
  intros H0 HQ. unfold _try_generate_summary, wpe, st_catch.
  pose proof (framed_generate middle summarizer focus s) as Hg. unfold wpe in Hg.
  destruct (generate_summary _ _ _ _ _ _ _ _ _ _ s) as [[r|e] s1]; [apply HQ; destruct Hg, H0; split; congruence|].
  match goal with |- match ?m s1 with _ => _ end => change (wpe m Q R s1) end.
  assert (same_frame s0 s1) as H1 by (destruct Hg, H0; split; congruence). run.
  unfold _arm_summary_failure_cooldown, read_clock, read_wall_clock. run. by apply HQ.
Qed.

(** ** The cut of the tail *)

Lemma search_down_some p messages n low i :
  search_down p messages n low = Some i → (low ≤ i < n)%nat ∧ ∃ m, messages !! i = Some m ∧ p m = true.
Proof.
  induction n as [|n IH]; cbn [search_down]; [done|]. destruct (Nat.ltb_spec n low); [done|].
  destruct (messages !! n) as [m|] eqn:Hm.
  - destruct (p m) eqn:Hp; [intros [= <-]; split; [lia|by exists m]|]. intros [? ?]%IH. split; [lia|done].
  - intros [? ?]%IH. split; [lia|done].
Qed.

Lemma skip_results_lt messages n i : skip_results messages n = Some i → (i < n)%nat.
Proof.
  induction n as [|n IH]; cbn [skip_results]; [done|]. destruct (messages !! n) as [m|]; [|intros [= <-]; lia].
  case_match; [intros ?%IH; lia|intros [= <-]; lia].
Qed.

Lemma align_backward_le messages i : (_align_boundary_backward messages i ≤ i)%nat.
Proof.
  unfold _align_boundary_backward. case_match; [lia|]. destruct (skip_results messages i) as [j|] eqn:Hj; [|lia].
  apply skip_results_lt in Hj. repeat case_match; lia.
Qed.

Lemma ensure_user messages tail_start head_end :
  let t := _ensure_last_user_message_in_tail str_arguments str_content messages tail_start head_end in
  match _find_last_user_message_index str_arguments str_content messages head_end with
  | Some u => (u = head_end ∨ (t ≤ u)%nat) ∧ (u = head_end ∨ (t ≤ tail_start)%nat)
  | None => t = tail_start
  end.
Proof.
  cbn zeta. unfold _ensure_last_user_message_in_tail.
  destruct (_find_last_user_message_index _ _ messages head_end) as [u|] eqn:Hu; [|done].
  apply search_down_some in Hu as [Hu _]. destruct (Nat.leb_spec tail_start u); [split; right; lia|].
  destruct (decide (u = head_end)) as [->|Hne]; [by split; left|].
  rewrite (proj2 (Nat.ltb_ge u (Nat.max u (head_end + 1)))) by lia. split; right; lia.
Qed.

Lemma ensure_assistant messages tail_start head_end b :
  let t := _ensure_last_assistant_message_in_tail str_arguments str_content messages tail_start head_end b in
  (t ≤ Nat.max tail_start (head_end + 1))%nat ∧
  ∀ a, _find_last_assistant_message_index str_arguments str_content messages head_end b = Some a →
    a = head_end ∨ (t ≤ a)%nat.
Proof.
  cbn zeta. unfold _ensure_last_assistant_message_in_tail.
  destruct (_find_last_assistant_message_index _ _ messages head_end b) as [a|] eqn:Ha; [|split; [lia|done]].
  apply search_down_some in Ha as [Ha _]. pose proof (align_backward_le messages a).
  destruct (Nat.leb_spec tail_start a); (split; [lia|]); intros ? [= <-]; destruct (decide (a = head_end)); lia.
Qed.

Lemma minimum_tail_le deep n total head_end :
  (head_end < total)%nat → (minimum_tail deep n total head_end ≤ total - head_end - 1)%nat.
Proof. intros. unfold minimum_tail. case_match; lia. Qed.

Lemma int_product_ok z c r :
  0 ≤ z → 0 ≤ c → z < 2 ^ 53 → c * z < 2 ^ 53 → PyFloatSpec.fl_at_most c r → ∃ v, int_product z r = Ok v ∧ 0 ≤ v ≤ c * z.
Proof.
  intros. unfold int_product. destruct (int_times_ok z c r) as (v & -> & Hv); [done..|]. by eexists.
Qed.

Lemma fl_0_25_at_most : PyFloatSpec.fl_at_most 1 fl_0_25.
Proof. eapply literal_at_most; [vm_compute; reflexivity|by vm_compute]. Qed.

(** The cut, whatever the transcript. *)
Lemma find_tail_start_spec budget n messages head_end deep b :
  0 ≤ budget < 2 ^ 51 →
  ∃ t, _find_tail_start str_arguments str_content str_block budget n messages head_end deep true b = Ok t ∧
  ((length messages ≤ head_end)%nat → t = length messages) ∧
  ((head_end < length messages)%nat →
   (head_end < t ≤ length messages)%nat ∧
   (∀ u, _find_last_user_message_index str_arguments str_content messages head_end = Some u → u = head_end ∨ (t ≤ u)%nat) ∧
   (∀ a, _find_last_assistant_message_index str_arguments str_content messages head_end b = Some a →
      a = head_end ∨ (t ≤ a)%nat) ∧
   (_find_last_user_message_index str_arguments str_content messages head_end = Some head_end ∨
    (t + minimum_tail deep n (length messages) head_end ≤ length messages)%nat)).
Proof.
  intros Hb. unfold _find_tail_start. destruct (Nat.leb_spec (length messages) head_end) as [Hle|Hlt].
  - exists (length messages). split_and!; [done..|lia].
  - set (scaled := if deep then _ else _).
    assert (∃ budget', scaled = Ok budget' ∧ 0 ≤ budget' < 2 ^ 52) as (budget' & -> & Hb').
    { unfold scaled. destruct deep; [|exists budget; split; [done|lia]].
      destruct (int_product_ok budget 1 fl_0_25) as (v & -> & Hv); [lia..|apply fl_0_25_at_most|].
      eexists. split; [reflexivity|]. lia. }
    cbn [mbind result_bind].
    destruct (int_product_ok budget' 2 fl_1_5) as (soft & -> & _); [lia..|apply fl_1_5_at_most|].
    cbn [mbind result_bind]. match goal with |- context [let '(_, _) := ?x in _] => destruct x as [i0 acc] end.
    set (i1 := if (i0 <=? head_end)%nat && _ && _ then _ else i0). clearbody i1.
    pose proof (minimum_tail_le deep n (length messages) head_end Hlt) as Hmin.
    set (fallback := (length messages - minimum_tail deep n (length messages) head_end)%nat).
    set (i2 := if (Nat.min i1 fallback <=? head_end)%nat then _ else _).
    assert (i2 ≤ fallback)%nat as Hi2 by (unfold i2, fallback; case_match; lia). clearbody i2.
    pose proof (align_backward_le messages i2) as Hi3. set (i3 := _align_boundary_backward messages i2) in *. clearbody i3.
    pose proof (ensure_user messages i3 head_end) as Hu. cbn zeta in Hu.
    set (i4 := _ensure_last_user_message_in_tail _ _ messages i3 head_end) in *. clearbody i4.
    pose proof (ensure_assistant messages i4 head_end b) as Ha. cbn zeta in Ha.
    set (i5 := _ensure_last_assistant_message_in_tail _ _ messages i4 head_end b) in *. clearbody i5.
    destruct Ha as [Ha1 Ha2]. eexists. split; [done|]. split; [lia|]. intros _. split_and!; [lia..| | |].
    + intros u Hfu. rewrite Hfu in Hu. apply search_down_some in Hfu as [Hfu _].
      destruct (decide (u = head_end)); [by left|right]. lia.
    + intros a Hfa. destruct (Ha2 a Hfa) as [|Hle]; [by left|]. apply search_down_some in Hfa as [Hfa _].
      destruct (decide (a = head_end)); [by left|right]. lia.
    + destruct (_find_last_user_message_index _ _ messages head_end) as [u|]; [|right; unfold fallback in *; lia].
      destruct (decide (u = head_end)) as [->|]; [by left|right]. unfold fallback in *. lia.
Qed.

(** ** A whole compression *)

Definition sane_budget (s : ContextCompressor) : Prop := 0 ≤ tail_token_budget s < 2 ^ 51.

Lemma wpe_preflight messages before force summary_only focus s :
  wpe (_compression_preflight str_arguments str_content clock messages before force summary_only focus)
    (λ o s', same_frame s s' ∧ (o = None ∨ o = Some (_compression_noop messages before))) (λ _ _, False) s.
Proof.
  unfold _compression_preflight, _clear_summary_failure_cooldown, _reset_compression_observations,
    _summary_failure_in_cooldown, read_clock.
  run; (split; [done|]); auto.
Qed.

Lemma wpe_boundaries messages before force deep durable summary_only s :
  wpe (_compression_boundaries str_arguments str_content str_block sha256 splitlines messages before force deep durable summary_only)
    (λ o s', same_frame s s' ∧ match o with Some (_, h, t) => cut_ok messages h t ∧ (t ≤ length messages)%nat | None => True end)
    (λ _ _, ¬ sane_budget s) s.
Proof.
  unfold _compression_boundaries. apply wpe_bind, wpe_get. cbn zeta.
  set (head_end := if summary_only then 0%nat else _).
  assert (∀ m, messages !! head_end = Some m → summary_only = true ∨ is_role toolResult m = false) as Hhead.
  { intros m Hm. destruct summary_only; [by left|right]. by eapply align_forward_stops. }
  apply wpe_bind.
  assert (∀ t, (summary_only = true → t = length messages) → (t ≤ length messages)%nat →
    wpe (if (head_end <? t)%nat then mret (Some (prune_old_tool_results str_arguments sha256 splitlines
             (cf_protect_last_n (cc_config s)) messages, head_end, t))
         else match _oversized_protected_head_window s messages head_end before force with
              | None => mret None
              | Some (h, t) => mret (Some (prune_old_tool_results str_arguments sha256 splitlines
                  (cf_protect_last_n (cc_config s)) messages, h, t))
              end : st ContextCompressor py_exn (option (list Message * nat * nat)))
      (λ o s', same_frame s s' ∧ match o with Some (_, h, t) => cut_ok messages h t ∧ (t ≤ length messages)%nat | None => True end)
      (λ _ _, ¬ sane_budget s) s) as Hafter.
  { intros t Hso Htl. destruct (Nat.ltb_spec head_end t) as [Hlt|Hge].
    - apply wpe_ret. split; [done|]. split; [|done]. split; [lia|].
      destruct (decide (summary_only = true)) as [Hs|Hs]; [left; rewrite (Hso Hs); lia|].
      destruct (messages !! head_end) as [m|] eqn:Hm; [|left; apply lookup_ge_None in Hm; lia].
      right. split; [done|]. exists m. split; [done|]. by destruct (Hhead m eq_refl).
    - destruct (_oversized_protected_head_window s messages head_end before force) as [[h t']|] eqn:Hw; apply wpe_ret; [|done].
      split; [done|]. unfold _oversized_protected_head_window in Hw. repeat case_match; try done.
      injection Hw as <- <-. split; [|done].
      match goal with H : (_ <=? _)%nat || _ = false |- _ => apply orb_false_iff in H as [H _]; apply Nat.leb_gt in H end.
      split; [lia|left; lia]. }
  destruct summary_only.
  - apply wpe_ret. by apply Hafter.
  - apply wpe_lift.
    + intros t Ht. apply Hafter; [done|]. unfold _find_tail_start in Ht. case_match; [by injection Ht as <-|].
      repeat (apply result_bind_ok in Ht as (? & _ & Ht)). case_match. injection Ht as <-. lia.
    + intros e He Hsane. destruct (find_tail_start_spec (tail_token_budget s) (cf_protect_last_n (cc_config s)) messages
        head_end deep (negb durable) Hsane) as (t & Ht & _). congruence.
Qed.

Lemma wpe_middle pruned h t s0 s (Q : option (list Message) → ContextCompressor → Prop) R :
  same_frame s0 s → (∀ o s', same_frame s0 s' → Q o s') →
  wpe (_middle_for_summary str_arguments str_content pruned h t) Q R s.
Proof. intros H0 HQ. unfold _middle_for_summary. run; by apply HQ. Qed.

Definition outcome (messages : list Message) (s : ContextCompressor) (r : CompressionResult) (s' : ContextCompressor) : Prop :=
  cc_config s' = cc_config s ∧
  ((cr_compressed r = false ∧ cr_messages r = messages ∧ cc_compression_count s' = cc_compression_count s) ∨
   (cr_compressed r = true ∧ cc_compression_count s' = cc_compression_count s + 1 ∧
    ∃ h t summary, cut_ok messages h t ∧ (t ≤ length messages)%nat ∧ cr_messages r = finalize messages h t summary ∧
      cr_first_kept_message_index r = Some t ∧ cr_summary r = Some summary ∧ cc_previous_summary s' = Some summary)).

Lemma wpe_finalize messages middle summary before h t s0 s R :
  same_frame s0 s → cut_ok messages h t → (t ≤ length messages)%nat →
  wpe (_finalize_compression str_arguments str_content object_chars now_ms _extract_file_operation_tags
        _bash_file_mutation_paths _strip_file_operation_tags summary_summarizer messages middle summary before h t)
    (outcome messages s0) R s.
Proof.
  intros [Hc Hn] Hcut Ht. unfold _finalize_compression. apply wpe_bind, wpe_get. cbn zeta.
  destruct (_file_operations_for_summary _ _ _ _) as [reads modified]. run; (split; [done|right]); (split; [done|]);
    (split; [cbn; lia|]); eexists h, t, _; (split; [done|]); (split; [done|]); done.
Qed.

Lemma wpe_compress messages summarizer focus force deep durable summary_only s :
  wpe (run_compress messages summarizer focus force deep durable summary_only) (outcome messages s)
    (λ _ _, ¬ sane_budget s) s.
Proof.
  unfold compress. cbn zeta. apply wpe_bind. eapply wpe_mono; [apply wpe_preflight| |done].
  intros o s1 [H1 Ho]. assert (∀ s', same_frame s s' → outcome messages s (_compression_noop messages (estimate_messages_tokens object_chars messages)) s') as Hnoop.
  { intros s' [? ?]. split; [done|]. by left. }
  destruct o as [r|]; [apply wpe_ret; destruct Ho as [|[= ->]]; [done|by apply Hnoop]|].
  apply wpe_bind. eapply wpe_mono; [apply wpe_boundaries| |].
  2:{ intros e s2 Hs. destruct H1 as [Hc _]. unfold sane_budget, tail_token_budget in *. by rewrite Hc in Hs. }
  intros [[[pruned h] t]|] s2 [H2 Hcut].
  2:{ run. apply Hnoop. destruct H1, H2. split; cbn; congruence. }
  destruct Hcut as [Hcut Htl]. assert (same_frame s s2) as H02 by (destruct H1, H2; split; congruence).
  apply wpe_bind, (wpe_middle _ _ _ s); [done|]. intros [middle|] s3 H3; [|apply wpe_ret; by apply Hnoop].
  apply wpe_bind, (wpe_try_generate _ _ _ s); [done|]. intros [summary|] s4 H4; [by apply wpe_finalize|].
  apply wpe_bind, wpe_get. destruct (_ || _ || _).
  - unfold _summary_failure_result. run. destruct H4. split; [cbn; congruence|left]. split_and!; done.
  - apply wpe_bind. unfold _fallback_summary_text, modify_summary. apply wpe_bind, wpe_modify. apply wpe_bind, wpe_get.
    cbn zeta. apply wpe_ret. by apply wpe_finalize.
Qed.

(** ** The properties *)

(** C8: Compaction keeps a transcript that a provider accepts: when every tool call of the transcript is
    answered directly behind its message, by results that answer nothing else, and the calls have distinct
    names, then so it is with whatever [compress] returns, for every setting, every state, and whatever the
    summarisers answer or raise: the calls that lost their results get placeholders, and the results that lost
    their calls are gone. *)
Theorem compress_keeps_pairs messages summarizer focus force deep durable summary_only s :
  well_paired messages → distinct_calls messages →
  match (run_compress messages summarizer focus force deep durable summary_only s).1 with
  | Ok r => well_paired (cr_messages r)
  | Err _ => True
  end.
Proof.
  intros Hw Hd. pose proof (wpe_compress messages summarizer focus force deep durable summary_only s) as H. unfold wpe in H.
  destruct (run_compress _ _ _ _ _ _ _ s) as [[r|e] s']; [|done]. cbn [fst].
  destruct H as [_ [(_ & -> & _)|(_ & _ & h & t & summary & Hcut & _ & -> & _)]]; [done|]. by apply finalize_paired.
Qed.


(** C10: The cut keeps what is being worked on: for every transcript and every head shorter than it, the tail
    starts behind the head and inside the transcript; the last message of the user is in the tail, unless it is
    the first message behind the head; so is the last visible answer of the model; and the tail has its minimum
    number of messages, unless the user's last message is the first one behind the head. *)
Theorem cut_keeps_newest_turn budget n messages head_end deep anchor :
  0 ≤ budget < 2 ^ 51 → (head_end < length messages)%nat →
  ∃ t, _find_tail_start str_arguments str_content str_block budget n messages head_end deep true anchor = Ok t ∧
  (head_end < t ≤ length messages)%nat ∧
  (∀ u, _find_last_user_message_index str_arguments str_content messages head_end = Some u → u = head_end ∨ (t ≤ u)%nat) ∧
  (∀ a, _find_last_assistant_message_index str_arguments str_content messages head_end anchor = Some a →
     a = head_end ∨ (t ≤ a)%nat) ∧
  (_find_last_user_message_index str_arguments str_content messages head_end = Some head_end ∨
   (t + minimum_tail deep n (length messages) head_end ≤ length messages)%nat).
Proof.
  intros Hb Hh. destruct (find_tail_start_spec budget n messages head_end deep anchor Hb) as (t & Ht & _ & H).
  exists t. split; [done|]. by apply H.
Qed.
End runs.

(** ** Budgets of a compressor *)

Lemma active_budget_sane c b :
  cf_context_length c < 2 ^ 51 → valid_float (cf_configured_threshold_percent c) → valid_float (cf_summary_target_ratio c) →
  _calculate_active_budget c = Ok b → 0 ≤ bu_tail_target_tokens b < 2 ^ 51.
Proof.
  intros Hw Ht Hr. unfold _calculate_active_budget. set (i := Build_CompactionPolicyInput _ _ _ _ _ _ _).
  destruct (budget_reachable_lemma i) as [[_ ->]|(b' & -> & Hok)]; [cbn; lia|done|done|done|].
  intros [= <-]. pose proof (ok_tail i b' Hok). pose proof (ok_trigger i b' Hok). pose proof (ok_effective i b' Hok) as He.
  change (pi_context_window i) with (cf_context_length c) in He. lia.
Qed.

Lemma valid_clamp r lo hi : valid_float r → valid_float lo → valid_float hi → valid_float (fl_max lo (fl_min r hi)).
Proof. intros. unfold fl_max, fl_min. by repeat case_match. Qed.

(** A new compressor for a window below 2^51 tokens. *)
Lemma new_compressor_sane c s :
  cf_context_length c < 2 ^ 51 → valid_float (cf_configured_threshold_percent c) → valid_float (cf_summary_target_ratio c) →
  new_compressor c = Ok s → sane_budget s.
Proof.
  intros Hw Ht Hr. unfold new_compressor. intros (b & Hb & [= <-])%result_bind_ok.
  unfold sane_budget, tail_token_budget. cbn. eapply active_budget_sane; [..|exact Hb]; [done|done|].
  cbn. apply valid_clamp; [done|by vm_compute..].
Qed.

(** A change of the window keeps a compressor sane, even when it fails. *)
Lemma update_context_window_sane n threshold max_tokens model sw sm s :
  n < 2 ^ 51 → (match threshold with Some t => valid_float t | None => True end) →
  valid_float (cf_configured_threshold_percent (cc_config s)) → valid_float (cf_summary_target_ratio (cc_config s)) →
  sane_budget s → sane_budget (update_context_window n threshold max_tokens model sw sm s).2.
Proof.
  intros Hn Ht Hc Hr Hs. unfold update_context_window. destruct (0 <? n); st_eval; cbn [require]; [|exact Hs].
  match goal with |- context [_calculate_active_budget ?c] => destruct (_calculate_active_budget c) as [b|e] eqn:Hb end.
  - unfold sane_budget, tail_token_budget. cbn. eapply active_budget_sane; [..|exact Hb]; cbn; [done| |done].
    by destruct threshold.
  - exact Hs.
Qed.

(** ** An example *)

(** A window of 2000 tokens, with a small tail. *)
Definition small_window : Config :=
  {| cf_model := "m"; cf_summary_model := ""; cf_context_length := 2000; cf_configured_threshold_percent := fl_0_50;
     cf_max_tokens := None; cf_summarizer_context_window := None; cf_summarizer_max_tokens := None;
     cf_protect_first_n := 1; cf_protect_last_n := 3; cf_summary_target_ratio := fl_0_20;
     cf_active_budget := {| bu_effective_input_tokens := 0; bu_trigger_tokens := 0; bu_tail_target_tokens := 0;
                            bu_tail_soft_ceiling_tokens := 0; bu_summary_max_tokens := 0;
                            bu_threshold_ratio := fl_zero; bu_reason := "" |};
     cf_abort_on_summary_failure := false |}.

Definition small_compressor : ContextCompressor :=
  match new_compressor small_window with
  | Ok s => s
  | Err _ => {| cc_config := small_window; cc_observed := nothing_observed; cc_summary := no_summary;
                cc_previous_summary := None; cc_last_compression_savings_pct := fl_zero; cc_compression_count := 0;
                cc_last_noop_reason := None; cc_readings := 0 |}
  end.

Definition says (r : Role) (n : nat) : Message := new_message r (Blocks [TextContent (repeat 97 n) None]) 0.
Definition calls (id : string) : Message :=
  new_message assistant (Blocks [ToolCallBlock {| call_id := id; call_name := "read"; call_arguments := JObj [];
                                                  call_thought_signature := None |}]) 0.
Definition answers (id : string) (n : nat) : Message :=
  let m := new_message toolResult (Blocks [TextContent (repeat 98 n) None]) 0 in
  {| m_role := toolResult; m_content := m_content m; m_timestamp := 0; m_usage := empty_usage; m_stop_reason := "";
     m_tool_call_id := id; m_tool_name := "read"; m_details := None; m_added_tool_names := []; m_reasoning := [];
     m_summary := []; m_compressed_summary := false; m_compressed_count := None; m_non_turn_user := false |}.

(** A turn with three reads, an answer, and a new question. *)
Definition example_transcript : list Message :=
  [says user 10; calls "a"; answers "a" 4000; calls "b"; answers "b" 4000; calls "c"; answers "c" 900;
   says assistant 40; says user 12].

(** The compression of the example, by a summariser that answers, or raises. *)
Definition compress_example (summarizer : Summarizer) : result py_exn CompressionResult * ContextCompressor :=
  compress (λ _, []) (λ _, []) (λ _, []) (λ _, 0) id (λ t, [t]) id (λ _, fl_zero) (λ _, fl_zero) 0 id id id
    (λ _ _ _ _, []) (λ _ _ _ _, lit "nothing known") (λ _, (∅, ∅)) (λ _, []) id None
    example_transcript (Some summarizer) None false false false false small_compressor.

(** The user's message, the summary in front of the second read, the other reads,
    the answer and the question. *)
Example example_shapes :
  match (compress_example (λ _, Ok (lit "three files were read"))).1 with
  | Ok r => (cr_compressed r, cr_first_kept_message_index r, map shape_of (cr_messages r))
  | Err _ => (false, None, [])
  end = (true, Some 3%nat, [Calls []; Calls ["b"]; Result "b"; Calls ["c"]; Result "c"; Calls []; Calls []]%string).
Proof. vm_compute. reflexivity. Qed.

Definition broken : Summarizer := λ _, Err {| ex_text := lit "boom"; ex_class := lit "RuntimeError"; ex_status := None |}.

Lemma compress_keeps_pairs_witness :
  match (compress_example broken).1 with Ok r => well_paired (cr_messages r) | Err _ => True end.
Proof.
  unfold compress_example. apply compress_keeps_pairs.
  - exists []. vm_compute. reflexivity.
  - split; [|repeat constructor; discriminate]. apply (bool_decide_unpack _). vm_compute. exact I.
Defined.


Lemma cut_keeps_newest_turn_witness :
  ∃ t, _find_tail_start (λ _, []) (λ _, []) (λ _, []) 170 3 example_transcript 1 false true true = Ok t ∧
  (1 < t ≤ length example_transcript)%nat ∧
  (∀ u, _find_last_user_message_index (λ _, []) (λ _, []) example_transcript 1 = Some u → u = 1%nat ∨ (t ≤ u)%nat) ∧
  (∀ a, _find_last_assistant_message_index (λ _, []) (λ _, []) example_transcript 1 true = Some a → a = 1%nat ∨ (t ≤ a)%nat) ∧
  (_find_last_user_message_index (λ _, []) (λ _, []) example_transcript 1 = Some 1%nat ∨
   (t + minimum_tail false 3 (length example_transcript) 1 ≤ length example_transcript)%nat).
Proof. apply cut_keeps_newest_turn; [split; [discriminate|reflexivity]|vm_compute; lia]. Defined.

(** The case the code treats apart: a durable compaction in the middle of the only
    turn leaves nothing of it but the summary. *)
Definition only_turn : list Message :=
  says user 10 :: flat_map (λ id, [calls id; answers id 3000]) ["a"; "b"; "c"; "d"; "e"]%string.

Example only_turn_summarised :
  match (compress (λ _, []) (λ _, []) (λ _, []) (λ _, 0) id (λ t, [t]) id (λ _, fl_zero) (λ _, fl_zero) 0 id id id
    (λ _ _ _ _, []) (λ _ _ _ _, lit "nothing known") (λ _, (∅, ∅)) (λ _, []) id None
    only_turn (Some (λ _, Ok (lit "files were read"))) None false false true false small_compressor).1 with
  | Ok r => (cr_first_kept_message_index r, length only_turn, map shape_of (cr_messages r))
  | Err _ => (None, 0%nat, [])
  end = (Some 11%nat, 11%nat, [Calls []]).
Proof. vm_compute. reflexivity. Qed.
