(* ===== verification/ProcessOutput.v ===== *)
(** The output of managed processes: [processes/output.py].

    A process writes bytes; the spool decodes them as they come, removes
    terminal control sequences, and appends the UTF-8 of what is left to a
    private file, within a limit of its own and a budget shared by all live
    spools.  Readers page through the file by byte cursors; the last lines are
    kept in memory.

    The file system is an argument: [os_write data] says what a call of
    [write] with the given remaining data does.  The reclaimer, code of the
    process service that closes other spools, is a function on the used part
    of the budget. *)

From S2P Require Import Prelude Utf8 Truncate.
Open Scope Z_scope.

(** ** The shared budget *)

(** [src: travis/coding_agent/processes/output.py:26-52 LiveSpoolBudget] *)
Record LiveSpoolBudget := { budget_limit : Z; budget_used : Z }.

Definition set_used (u : Z) (b : LiveSpoolBudget) : LiveSpoolBudget :=
  {| budget_limit := budget_limit b; budget_used := u |}.

(** [src: travis/coding_agent/processes/output.py:27-30 LiveSpoolBudget.__init__] *)
Definition new_budget (limit : Z) : LiveSpoolBudget := {| budget_limit := Z.max 0 limit; budget_used := 0 |}.

(** [src: travis/coding_agent/processes/output.py:42-46 LiveSpoolBudget.reserve_up_to] *)
Definition reserve_up_to (requested : Z) (b : LiveSpoolBudget) : Z * LiveSpoolBudget :=
  let granted := Z.min (Z.max 0 requested) (budget_limit b - budget_used b) in
  (granted, set_used (budget_used b + granted) b).

Inductive spool_exn : Type :=
  | SpoolRuntimeError (message : string)
  | SpoolValueError (message : string)
  | InvalidCursorError (cursor size : Z)
  | ProcessOutputLimitError (message : string)
  | SpoolOSError (message : string)
  | SpoolDecodeError.

(** [src: travis/coding_agent/processes/output.py:48-52 LiveSpoolBudget.release] *)
Definition budget_release (count : Z) (b : LiveSpoolBudget) : result spool_exn LiveSpoolBudget :=
  if (count <? 0) || (budget_used b <? count)
  then Err (SpoolRuntimeError "live-spool accounting invariant violated")
  else Ok (set_used (budget_used b - count) b).

(** ** The terminal sanitizer *)

(** [src: travis/coding_agent/processes/output.py:59-61 _TerminalSanitizer._state] *)
Inductive sanitizer_mode : Type := Normal | Escape | Csi | StringMode | StringEscape.
#[export] Instance sanitizer_mode_eq_dec : EqDecision sanitizer_mode.
Proof. solve_decision. Defined.

(** [src: travis/coding_agent/processes/output.py:55-58 _TerminalSanitizer] *)
Record sanitizer := { san_mode : sanitizer_mode; san_pending_cr : bool }.

Definition new_sanitizer : sanitizer := {| san_mode := Normal; san_pending_cr := false |}.

(** [src: travis/coding_agent/processes/output.py:56-56 _STRING_INTRODUCERS] *)
Definition string_introducer (c : Z) : bool := bool_decide (c ∈ [93; 80; 88; 94; 95]).

(** [src: travis/coding_agent/processes/output.py:57-57 _C1_STRING_INTRODUCERS] *)
Definition c1_string_introducer (c : Z) : bool := bool_decide (c ∈ [144; 152; 157; 158; 159]).

(** [src: travis/coding_agent/processes/output.py:101-114 _TerminalSanitizer._normal, after a
    pending carriage return] *)
Definition normal_char (c : Z) : sanitizer * text :=
  if c =? 13 then ({| san_mode := Normal; san_pending_cr := true |}, [])
  else if c =? 27 then ({| san_mode := Escape; san_pending_cr := false |}, [])
  else if c =? 155 then ({| san_mode := Csi; san_pending_cr := false |}, [])
  else if c1_string_introducer c then ({| san_mode := StringMode; san_pending_cr := false |}, [])
  else if (c =? 9) || (c =? 10) then (new_sanitizer, [c])
  else if (c <? 32) || in_range 127 159 c then (new_sanitizer, [])
  else (new_sanitizer, [c]).

(** [src: travis/coding_agent/processes/output.py:95-114 _TerminalSanitizer._normal] *)
Definition _normal (pending_cr : bool) (c : Z) : sanitizer * text :=
  if pending_cr then
    if c =? newline then (new_sanitizer, [newline])
    else let r := normal_char c in (r.1, newline :: r.2)
  else normal_char c.

(** [src: travis/coding_agent/processes/output.py:66-87 body of the loop of feed] *)
Definition sanitize_char (s : sanitizer) (c : Z) : sanitizer * text :=
  let to m := ({| san_mode := m; san_pending_cr := san_pending_cr s |}, []) in
  match san_mode s with
  | Normal => _normal (san_pending_cr s) c
  | Escape => if c =? 91 then to Csi else if string_introducer c then to StringMode else to Normal
  | Csi => if in_range 64 126 c then to Normal else to Csi
  | StringMode =>
      if (c =? 7) || (c =? 156) then to Normal else if c =? 27 then to StringEscape else to StringMode
  | StringEscape =>
      if c =? 92 then to Normal else if negb (c =? 27) then to StringMode else to StringEscape
  end.

(** [src: travis/coding_agent/processes/output.py:63-93 _TerminalSanitizer.feed, the characters] *)
Fixpoint sanitize (s : sanitizer) (t : text) : sanitizer * text :=
  match t with
  | [] => (s, [])
  | c :: t' => let r := sanitize_char s c in let r' := sanitize r.1 t' in (r'.1, r.2 ++ r'.2)
  end.

(** [src: travis/coding_agent/processes/output.py:88-92 _TerminalSanitizer.feed, final] *)
Definition sanitize_final (s : sanitizer) : sanitizer * text :=
  (new_sanitizer, if san_pending_cr s then [newline] else []).

(** ** The spool *)

(** [src: travis/coding_agent/processes/output.py:118-150 SanitizedOutputSpool.__init__] *)
Record spool := {
  sp_file : bytes;
  sp_max_bytes : Z;
  sp_budget : LiveSpoolBudget;
  sp_reserved : Z;
  sp_decoder : bytes;
  sp_sanitizer : sanitizer;
  sp_written : Z;
  sp_tail : text;
  sp_tail_partial : bool;
  sp_newlines : Z;
  sp_saw_text : bool;
  sp_ends_nl : bool;
  sp_last_line_bytes : Z;
  sp_was_truncated : bool;
  sp_truncated_by : option cut_by;
  sp_finished : bool;
  sp_closed : bool;
}.

(** [src: travis/coding_agent/processes/output.py:118-150 SanitizedOutputSpool.__init__] *)
Definition new_spool (max_bytes : Z) (budget : LiveSpoolBudget) : spool :=
  {| sp_file := []; sp_max_bytes := Z.max 0 max_bytes; sp_budget := budget; sp_reserved := 0;
     sp_decoder := []; sp_sanitizer := new_sanitizer; sp_written := 0; sp_tail := [];
     sp_tail_partial := false; sp_newlines := 0; sp_saw_text := false; sp_ends_nl := false;
     sp_last_line_bytes := 0; sp_was_truncated := false; sp_truncated_by := None;
     sp_finished := false; sp_closed := false |}.

Definition set_budget (b : LiveSpoolBudget) (s : spool) : spool :=
  {| sp_file := sp_file s; sp_max_bytes := sp_max_bytes s; sp_budget := b; sp_reserved := sp_reserved s;
     sp_decoder := sp_decoder s; sp_sanitizer := sp_sanitizer s; sp_written := sp_written s;
     sp_tail := sp_tail s; sp_tail_partial := sp_tail_partial s; sp_newlines := sp_newlines s;
     sp_saw_text := sp_saw_text s; sp_ends_nl := sp_ends_nl s; sp_last_line_bytes := sp_last_line_bytes s;
     sp_was_truncated := sp_was_truncated s; sp_truncated_by := sp_truncated_by s;
     sp_finished := sp_finished s; sp_closed := sp_closed s |}.

Definition set_file (f : bytes) (s : spool) : spool :=
  {| sp_file := f; sp_max_bytes := sp_max_bytes s; sp_budget := sp_budget s; sp_reserved := sp_reserved s;
     sp_decoder := sp_decoder s; sp_sanitizer := sp_sanitizer s; sp_written := sp_written s;
     sp_tail := sp_tail s; sp_tail_partial := sp_tail_partial s; sp_newlines := sp_newlines s;
     sp_saw_text := sp_saw_text s; sp_ends_nl := sp_ends_nl s; sp_last_line_bytes := sp_last_line_bytes s;
     sp_was_truncated := sp_was_truncated s; sp_truncated_by := sp_truncated_by s;
     sp_finished := sp_finished s; sp_closed := sp_closed s |}.

Definition set_streams (d : bytes) (z : sanitizer) (s : spool) : spool :=
  {| sp_file := sp_file s; sp_max_bytes := sp_max_bytes s; sp_budget := sp_budget s; sp_reserved := sp_reserved s;
     sp_decoder := d; sp_sanitizer := z; sp_written := sp_written s;
     sp_tail := sp_tail s; sp_tail_partial := sp_tail_partial s; sp_newlines := sp_newlines s;
     sp_saw_text := sp_saw_text s; sp_ends_nl := sp_ends_nl s; sp_last_line_bytes := sp_last_line_bytes s;
     sp_was_truncated := sp_was_truncated s; sp_truncated_by := sp_truncated_by s;
     sp_finished := sp_finished s; sp_closed := sp_closed s |}.

Definition set_finished (s : spool) : spool :=
  {| sp_file := sp_file s; sp_max_bytes := sp_max_bytes s; sp_budget := sp_budget s; sp_reserved := sp_reserved s;
     sp_decoder := sp_decoder s; sp_sanitizer := sp_sanitizer s; sp_written := sp_written s;
     sp_tail := sp_tail s; sp_tail_partial := sp_tail_partial s; sp_newlines := sp_newlines s;
     sp_saw_text := sp_saw_text s; sp_ends_nl := sp_ends_nl s; sp_last_line_bytes := sp_last_line_bytes s;
     sp_was_truncated := sp_was_truncated s; sp_truncated_by := sp_truncated_by s;
     sp_finished := true; sp_closed := sp_closed s |}.

Notation M := (st spool spool_exn).

(** [src: travis/coding_agent/processes/output.py:325-337 SanitizedOutputSpool._valid_utf8_prefix] *)
Definition _valid_utf8_prefix (data : bytes) : result spool_exn bytes :=
  match data with
  | [] => Ok []
  | _ =>
      match decode_strict data with
      | Ok _ => Ok data
      | Err (UnexpectedEnd start) =>
          let prefix := take (Z.to_nat start) data in
          match decode_strict prefix with Ok _ => Ok prefix | Err _ => Err SpoolDecodeError end
      | Err InvalidBytes => Err SpoolDecodeError
      end
  end.

(** What a call of [write] does with the remaining data. *)
Inductive write_answer : Type :=
  | Wrote (count : Z)
  | WriteRaised (message : string).

(** [src: travis/coding_agent/processes/output.py:287-292 the write loop]: the fuel is the length of
    the data, and every round consumes some. *)
Fixpoint write_loop (os_write : bytes → write_answer) (fuel : nat) (data : bytes) : result spool_exn unit :=
  match data, fuel with
  | [], _ => Ok tt
  | _, O => Ok tt
  | _, S fuel' =>
      match os_write data with
      | WriteRaised message => Err (SpoolOSError message)
      | Wrote count =>
          if count <=? 0 then Err (SpoolOSError "output spool write made no progress")
          else write_loop os_write fuel' (drop (Z.to_nat count) data)
      end
  end.

Section spool_methods.
Variable os_write : bytes → write_answer.
Variable pressure_reclaimer : option (Z → Z → Z).

Definition lift_budget {A} (f : LiveSpoolBudget → result spool_exn (A * LiveSpoolBudget)) : M A := λ s,
  match f (sp_budget s) with Ok (a, b) => (Ok a, set_budget b s) | Err e => (Err e, s) end.

Definition reserve_m (requested : Z) : M Z := lift_budget (λ b, Ok (reserve_up_to requested b)).
Definition release_m (count : Z) : M unit := lift_budget (λ b, b' ← budget_release count b; Ok (tt, b')).

(** [src: travis/coding_agent/processes/output.py:276-281 reserving, with the reclaimer] *)
Definition reserve_with_pressure (requested : Z) : M Z :=
  granted ← reserve_m requested;
  match pressure_reclaimer with
  | Some reclaim =>
      if granted <? requested then
        release_m granted;;
        st_modify (λ s, set_budget (set_used (reclaim requested (budget_used (sp_budget s))) (sp_budget s)) s);;
        reserve_m requested
      else mret granted
  | None => mret granted
  end.

(** [src: travis/coding_agent/processes/output.py:298-321 the accounting of a written prefix] *)
Definition account_text (prefix : bytes) (t : text) (s : spool) : spool :=
  let written := sp_written s + Z.of_nat (length prefix) in
  let reserved := sp_reserved s + Z.of_nat (length prefix) in
  let newlines := sp_newlines s + count_nl t in
  match t with
  | [] =>
      {| sp_file := sp_file s; sp_max_bytes := sp_max_bytes s; sp_budget := sp_budget s;
         sp_reserved := reserved; sp_decoder := sp_decoder s; sp_sanitizer := sp_sanitizer s;
         sp_written := written; sp_tail := sp_tail s; sp_tail_partial := sp_tail_partial s;
         sp_newlines := newlines; sp_saw_text := sp_saw_text s; sp_ends_nl := sp_ends_nl s;
         sp_last_line_bytes := sp_last_line_bytes s; sp_was_truncated := sp_was_truncated s;
         sp_truncated_by := sp_truncated_by s; sp_finished := sp_finished s; sp_closed := sp_closed s |}
  | _ =>
      let last_line := if bool_decide (newline ∈ t) then byte_len (after_last_nl t)
                       else sp_last_line_bytes s + Z.of_nat (length prefix) in
      let candidate := sp_tail s ++ t in
      let r := truncate_tail candidate DEFAULT_MAX_LINES DEFAULT_MAX_BYTES in
      let start_index := Z.of_nat (length candidate) - Z.of_nat (length (tr_content r)) in
      let partial :=
        (if start_index =? 0 then sp_tail_partial s
         else match candidate !! Z.to_nat (start_index - 1) with
              | Some c => negb (c =? newline)
              | None => true
              end) || tr_last_line_partial r in
      {| sp_file := sp_file s; sp_max_bytes := sp_max_bytes s; sp_budget := sp_budget s;
         sp_reserved := reserved; sp_decoder := sp_decoder s; sp_sanitizer := sp_sanitizer s;
         sp_written := written; sp_tail := tr_content r; sp_tail_partial := partial;
         sp_newlines := newlines; sp_saw_text := true; sp_ends_nl := ends_nl t;
         sp_last_line_bytes := last_line;
         sp_was_truncated := sp_was_truncated s || tr_truncated r;
         sp_truncated_by := if tr_truncated r then tr_truncated_by r else sp_truncated_by s;
         sp_finished := sp_finished s; sp_closed := sp_closed s |}
  end.

(** [src: travis/coding_agent/processes/output.py:283-297 writing a prefix or rolling it back] *)
Definition write_prefix (prefix : bytes) : M unit := λ s,
  let start := sp_written s in
  match write_loop os_write (length prefix) prefix with
  | Ok _ => (Ok tt, set_file (take (Z.to_nat start) (sp_file s) ++ prefix) s)
  | Err e =>
      match release_m (Z.of_nat (length prefix)) (set_file (take (Z.to_nat start) (sp_file s)) s) with
      | (Ok _, s') => (Err e, s')
      | (Err e', s') => (Err e', s')
      end
  end.

(** [src: travis/coding_agent/processes/output.py:270-323 SanitizedOutputSpool._write_text] *)
Definition _write_text (t : text) : M unit :=
  match t with
  | [] => mret tt
  | _ =>
      let encoded := encode t in
      let len := Z.of_nat (length encoded) in
      s ← st_get;
      let remaining := Z.max 0 (sp_max_bytes s - sp_written s) in
      let requested := Z.min len remaining in
      granted ← reserve_with_pressure requested;
      prefix ← st_lift (_valid_utf8_prefix (take (Z.to_nat granted) encoded));
      release_m (granted - Z.of_nat (length prefix));;
      match prefix with
      | [] => st_modify (account_text [] [])
      | _ =>
          write_prefix prefix;;
          match decode_strict prefix with
          | Ok written => st_modify (account_text prefix written)
          | Err _ => mthrow SpoolDecodeError
          end
      end;;
      if Z.of_nat (length prefix) <? len
      then mthrow (ProcessOutputLimitError "Process sanitized output limit reached") else mret tt
  end.

(** [src: travis/coding_agent/processes/output.py:166-171 SanitizedOutputSpool.append] *)
Definition append (data : bytes) : M unit :=
  s ← st_get;
  st_require (negb (sp_finished s)) (SpoolRuntimeError "Cannot append to a finished output spool");;
  let d := feed (sp_decoder s) data in
  let z := sanitize (sp_sanitizer s) (replace_errors d.1) in
  st_modify (set_streams d.2 z.1);;
  _write_text z.2.

(** [src: travis/coding_agent/processes/output.py:173-182 SanitizedOutputSpool.finish]: the finally
    clause marks the spool finished whatever happened. *)
Definition finish : M unit := λ s,
  if sp_finished s then (Ok tt, s)
  else
    let z := sanitize (sp_sanitizer s) (replace_errors (flush (sp_decoder s))) in
    let f := sanitize_final z.1 in
    let r := _write_text (z.2 ++ f.2) (set_streams [] f.1 s) in
    (r.1, set_finished r.2).

(** [src: travis/coding_agent/processes/output.py:251-268 SanitizedOutputSpool.close] (removing the
    file afterwards is not modelled) *)
Definition close : M unit := λ s,
  if sp_closed s then (Ok tt, s)
  else
    let r := finish s in
    match release_m (sp_reserved r.2) r.2 with
    | (Err e, s') => (Err e, s')
    | (Ok _, s') =>
        (r.1, {| sp_file := sp_file s'; sp_max_bytes := sp_max_bytes s'; sp_budget := sp_budget s';
                 sp_reserved := 0; sp_decoder := sp_decoder s'; sp_sanitizer := sp_sanitizer s';
                 sp_written := sp_written s'; sp_tail := sp_tail s'; sp_tail_partial := sp_tail_partial s';
                 sp_newlines := sp_newlines s'; sp_saw_text := sp_saw_text s'; sp_ends_nl := sp_ends_nl s';
                 sp_last_line_bytes := sp_last_line_bytes s'; sp_was_truncated := sp_was_truncated s';
                 sp_truncated_by := sp_truncated_by s'; sp_finished := sp_finished s'; sp_closed := true |})
    end.
End spool_methods.

(** An [OutputSlice]. *)
Record OutputSlice := { os_text : text; os_cursor : Z; os_next_cursor : Z }.

(** [src: travis/coding_agent/processes/output.py:184-203 SanitizedOutputSpool.read] (reading a
    closed file raises) *)
Definition read (s : spool) (cursor max_bytes : Z) : result spool_exn OutputSlice :=
  if max_bytes <=? 0 then Err (SpoolValueError "max_bytes must be positive")
  else if (cursor <? 0) || (sp_written s <? cursor) then Err (InvalidCursorError cursor (sp_written s))
  else if sp_closed s then Err (SpoolValueError "I/O operation on closed file")
  else
    let at_cursor := drop (Z.to_nat cursor) (sp_file s) in
    let data := take (Z.to_nat (Z.min max_bytes (sp_written s - cursor))) at_cursor in
    if (cursor <? sp_written s) && match at_cursor with b :: _ => is_continuation b | [] => false end
    then Err (InvalidCursorError cursor (sp_written s))
    else
      valid ← _valid_utf8_prefix data;
      match decode_strict valid with
      | Ok t => Ok {| os_text := t; os_cursor := cursor; os_next_cursor := cursor + Z.of_nat (length valid) |}
      | Err _ => Err SpoolDecodeError
      end.

(** [src: travis/coding_agent/processes/output.py:221-245 SanitizedOutputSpool.tail_snapshot] *)
Definition tail_snapshot (s : spool) (max_lines max_bytes : Z) : result spool_exn TruncationResult :=
  if negb (max_lines =? DEFAULT_MAX_LINES) || negb (max_bytes =? DEFAULT_MAX_BYTES)
  then Err (SpoolValueError "Managed process tail uses the coding-agent output limits")
  else Ok {| tr_content := sp_tail s; tr_truncated := sp_was_truncated s;
             tr_truncated_by := sp_truncated_by s; tr_output_lines := line_count (sp_tail s);
             tr_total_lines := sp_newlines s + Z.b2z (sp_saw_text s && negb (sp_ends_nl s));
             tr_first_line_exceeds_limit := false; tr_total_bytes := sp_written s;
             tr_output_bytes := byte_len (sp_tail s); tr_last_line_partial := sp_tail_partial s;
             tr_max_lines := max_lines; tr_max_bytes := max_bytes |}.

(** [src: travis/coding_agent/processes/output.py:247-249 SanitizedOutputSpool.get_last_line_bytes] *)
Definition get_last_line_bytes (s : spool) : Z := sp_last_line_bytes s.

(** ** Histories *)

(** A call, with what the file system and the reclaimer do during it. *)
Inductive spool_call : Type :=
  | CallAppend (data : bytes)
  | CallFinish
  | CallClose.

Definition run_spool_call (os_write : bytes → write_answer) (reclaim : option (Z → Z → Z))
    (c : spool_call) : M unit :=
  match c with
  | CallAppend data => append os_write reclaim data
  | CallFinish => finish os_write reclaim
  | CallClose => close os_write reclaim
  end.
