(* ===== verification/ProcessOutputSpec.v ===== *)
(** The spool of a managed process, correct.

    Over every history of appends, finish and close, with any behaviour of the
    file system, of the reclaimer and of the other spools that share the
    budget: the file holds the UTF-8 of a text without control sequences, all
    counters are exact, and the limits are respected.  Without failures the
    text is that of the whole output, however it was cut into chunks; and a
    reader that pages through it gets it back. *)

From S2P Require Import Prelude Utf8 Truncate TruncateSpec ProcessOutput.
Open Scope Z_scope.

(** ** The sanitizer *)

(** The characters that reach the file. *)
Definition visible (c : Z) : bool := (c =? 9) || (c =? 10) || ((32 <=? c) && negb (in_range 127 159 c)).

Lemma normal_char_visible c : Forall (λ c, visible c = true) (normal_char c).2.
Proof.
  unfold normal_char, visible. repeat case_match; cbn; repeat constructor.
  - by rewrite H3.
  - rewrite H3. cbn. apply orb_false_iff in H4 as [H4%Z.ltb_ge ->]. by rewrite (proj2 (Z.leb_le 32 c)).
Qed.

Lemma sanitize_char_visible s c : Forall (λ c, visible c = true) (sanitize_char s c).2.
Proof.
  unfold sanitize_char. destruct (san_mode s); [|repeat case_match; constructor..].
  unfold _normal. destruct (san_pending_cr s); [|apply normal_char_visible].
  destruct (c =? newline); [by repeat constructor|]. constructor; [done|apply normal_char_visible].
Qed.

Lemma sanitize_visible s t : Forall (λ c, visible c = true) (sanitize s t).2.
Proof.
  revert s; induction t as [|c t IH]; intros s; cbn; [constructor|].
  apply Forall_app. split; [apply sanitize_char_visible|apply IH].
Qed.

Lemma sanitize_final_visible s : Forall (λ c, visible c = true) (sanitize_final s).2.
Proof. unfold sanitize_final. cbn. destruct (san_pending_cr s); by repeat constructor. Qed.

Lemma normal_char_text c : scalar c = true → is_text (normal_char c).2.
Proof. intros Hc. unfold normal_char. repeat case_match; cbn; by repeat constructor. Qed.

Lemma sanitize_char_text s c : scalar c = true → is_text (sanitize_char s c).2.
Proof.
  intros Hc. unfold sanitize_char. destruct (san_mode s); [|repeat case_match; constructor..].
  unfold _normal. destruct (san_pending_cr s); [|by apply normal_char_text].
  destruct (c =? newline); [by repeat constructor|]. constructor; [done|by apply normal_char_text].
Qed.

Lemma sanitize_text s t : is_text t → is_text (sanitize s t).2.
Proof.
  intros Ht. revert s; induction Ht as [|c t Hc Ht IH]; intros s; cbn; [constructor|].
  apply Forall_app. split; [by apply sanitize_char_text|apply IH].
Qed.

Lemma sanitize_final_text s : is_text (sanitize_final s).2.
Proof. unfold sanitize_final. cbn. destruct (san_pending_cr s); by repeat constructor. Qed.

Lemma sanitize_app s t t' :
  sanitize s (t ++ t') = (let r := sanitize s t in let r' := sanitize r.1 t' in (r'.1, r.2 ++ r'.2)).
Proof.
  revert s; induction t as [|c t IH]; intros s; cbn; [by destruct (sanitize s t')|].
  rewrite IH. cbn. by rewrite (assoc_L (++)).
Qed.

(** ** The invariant *)
Record spool_inv (txt : text) (s : spool) : Prop := {
  inv_text : is_text txt;
  inv_visible : Forall (λ c, visible c = true) txt;
  inv_file : sp_file s = encode txt;
  inv_written : sp_written s = byte_len txt;
  inv_limit : sp_written s <= sp_max_bytes s;
  inv_reserved : sp_reserved s = if sp_closed s then 0 else sp_written s;
  inv_budget : sp_reserved s <= budget_used (sp_budget s) <= budget_limit (sp_budget s);
  inv_decoder : pending_ok (sp_decoder s);
  inv_newlines : sp_newlines s = count_nl txt;
  inv_saw : sp_saw_text s = bool_decide (txt ≠ []);
  inv_ends : sp_ends_nl s = ends_nl txt;
  inv_last_line : sp_last_line_bytes s = byte_len (after_last_nl txt);
  inv_tail : is_text (sp_tail s) ∧ byte_len (sp_tail s) <= DEFAULT_MAX_BYTES ∧
             line_count (sp_tail s) <= DEFAULT_MAX_LINES;
  inv_closed : sp_closed s = true → sp_finished s = true;
}.

(** The parts of a spool that writing a text leaves alone. *)
Definition same_frame (s s' : spool) : Prop :=
  sp_max_bytes s' = sp_max_bytes s ∧ sp_decoder s' = sp_decoder s ∧ sp_sanitizer s' = sp_sanitizer s ∧
  sp_finished s' = sp_finished s ∧ sp_closed s' = sp_closed s ∧
  budget_limit (sp_budget s') = budget_limit (sp_budget s).

(** The reclaimer only gives back what other spools hold. *)
Definition reclaims_others (reclaim : option (Z → Z → Z)) (s : spool) : Prop :=
  ∀ f requested used, reclaim = Some f → sp_reserved s <= used → sp_reserved s <= f requested used <= used.

(** *** Prefixes *)
Lemma valid_prefix_of t n :
  is_text t →
  ∃ t1 t2, t = t1 ++ t2 ∧ _valid_utf8_prefix (take n (encode t)) = Ok (encode t1) ∧
    (length (encode t1) <= length (take n (encode t)))%nat ∧
    ((n < length (encode t1) + 4 ∧ n < length (encode t)) ∨ t2 = [])%nat.
Proof.
  intros Ht. destruct (feed_prefix t n Ht) as (t1 & t2 & p & -> & Hf & Htake & Hp). exists t1, t2.
  assert (is_text t1) as Ht1 by (by apply Forall_app in Ht as [? _]).
  split; [done|]. split; [|split].
  - unfold _valid_utf8_prefix. destruct (take n _) as [|b bs] eqn:E.
    { by symmetry in Htake; apply app_eq_nil in Htake as [-> ->]. }
    unfold decode_strict. rewrite Hf. cbn [fst snd]. rewrite mapM_id_some. destruct p as [|b' p].
    { by rewrite Htake, app_nil_r. }
    assert (take (Z.to_nat (Z.of_nat (length (b :: bs)) - Z.of_nat (length (b' :: p)))) (b :: bs) = encode t1) as ->.
    { rewrite Htake, length_app. replace (Z.to_nat _) with (length (encode t1)) by lia. apply take_app_length. }
    rewrite feed_encode by done. cbn [fst snd]. by rewrite mapM_id_some.
  - rewrite Htake, length_app. lia.
  - destruct (decide (n < length (encode (t1 ++ t2)))%nat) as [Hn|Hn].
    + left. apply pending_short in Hp. apply (f_equal length) in Htake.
      rewrite length_take, length_app in Htake. split; [lia|done].
    + right. rewrite take_ge in Htake by lia. rewrite encode_app in Htake. apply app_inv_head in Htake.
      subst p. rewrite take_ge, encode_app in Hf by lia. rewrite feed_app in Hf. rewrite feed_encode in Hf by done.
      cbn [fst snd] in Hf. rewrite feed_encode in Hf by (by apply Forall_app in Ht as [_ ?]).
      cbn [fst snd] in Hf. injection Hf as Hf _. destruct t2 as [|c t2]; [done|].
      apply (f_equal length) in Hf. rewrite length_app, !length_map in Hf. cbn in Hf. lia.
Qed.

(** ** Writing a text *)
Section writing.
Variable os_write : bytes → write_answer.
Variable reclaim : option (Z → Z → Z).

Lemma reserve_spec requested s :
  0 <= requested → 0 <= sp_reserved s → reclaims_others reclaim s →
  sp_reserved s <= budget_used (sp_budget s) <= budget_limit (sp_budget s) →
  ∃ granted used, reserve_with_pressure reclaim requested s = (Ok granted, set_budget (set_used used (sp_budget s)) s) ∧
    0 <= granted <= requested ∧ sp_reserved s + granted <= used <= budget_limit (sp_budget s).
Proof.
  intros Hr H0 Hrec Hb. unfold reserve_with_pressure, reserve_m, release_m, lift_budget, reserve_up_to. st_eval. cbn.
  set (granted := Z.min _ _). destruct reclaim as [f|] eqn:Ef.
  - destruct (Z.ltb_spec granted requested); cbn.
    + unfold budget_release. cbn. rewrite (proj2 (Z.ltb_ge granted 0)) by lia.
      rewrite (proj2 (Z.ltb_ge (budget_used (sp_budget s) + granted) granted)) by lia. cbn.
      set (u := f requested _). assert (sp_reserved s <= u <= budget_used (sp_budget s)) as Hu.
      { unfold u. replace (budget_used (sp_budget s) + granted - granted) with (budget_used (sp_budget s)) by lia.
        apply Hrec; [done|lia]. }
      eexists _, _. split; [reflexivity|]. lia.
    + eexists _, _. split; [reflexivity|]. lia.
  - eexists _, _. split; [reflexivity|]. lia.
Qed.

Lemma release_spec count s :
  0 <= count <= budget_used (sp_budget s) →
  release_m count s = (Ok tt, set_budget (set_used (budget_used (sp_budget s) - count) (sp_budget s)) s).
Proof.
  intros Hc. unfold release_m, lift_budget, budget_release. rewrite (proj2 (Z.ltb_ge count 0)) by lia.
  by rewrite (proj2 (Z.ltb_ge (budget_used (sp_budget s)) count)) by lia.
Qed.

Lemma account_inv txt s t1 f used :
  spool_inv txt s → sp_closed s = false → is_text t1 → Forall (λ c, visible c = true) t1 →
  f = encode txt ++ encode t1 →
  byte_len txt + byte_len t1 <= used <= budget_limit (sp_budget s) → byte_len txt + byte_len t1 <= sp_max_bytes s →
  spool_inv (txt ++ t1) (account_text (encode t1) t1 (set_file f (set_budget (set_used used (sp_budget s)) s))).
Proof.
  intros [] Hc Ht1 Hv -> Hu Hm. rewrite Hc in *.
  assert (Z.of_nat (length (encode t1)) = byte_len t1) as Hl by done.
  destruct t1 as [|c t1].
  { rewrite app_nil_r. change (encode []) with (@nil Z) in *. unfold account_text. cbn [length] in *.
    rewrite app_nil_r. change (count_nl []) with 0. change (byte_len []) with 0 in *.
    split; cbn [sp_file sp_written sp_max_bytes sp_reserved sp_closed sp_budget sp_decoder sp_newlines sp_saw_text
      sp_ends_nl sp_last_line_bytes sp_tail sp_finished set_file set_budget set_used budget_used budget_limit];
      try done; rewrite ?Hc; try lia. }
  set (t := c :: t1) in *. assert (t ≠ []) as Hne by done. clearbody t. clear c t1.
  destruct (truncate_tail_content (sp_tail s ++ t) DEFAULT_MAX_LINES DEFAULT_MAX_BYTES) as (Htt & Htb & Htl);
    [apply Forall_app; tauto|done|done|].
  unfold account_text. destruct t as [|c0 t0] eqn:Et; [done|]. rewrite <- Et in *. clear Et.
  split; cbn [sp_file sp_written sp_max_bytes sp_reserved sp_closed sp_budget sp_decoder sp_newlines sp_saw_text
      sp_ends_nl sp_last_line_bytes sp_tail sp_finished set_file set_budget set_used budget_used budget_limit];
    try done; rewrite ?Hl, ?byte_len_app, ?Hc; try lia.
  - by apply Forall_app.
  - by apply Forall_app.
  - by rewrite encode_app.
  - by rewrite count_nl_app, inv_newlines0.
  - rewrite bool_decide_true; [done|]. by destruct txt.
  - by rewrite ends_nl_app.
  - rewrite after_last_app. destruct (decide (newline ∈ t)) as [Hin|Hin].
    + by rewrite !bool_decide_true.
    + rewrite !bool_decide_false by done. rewrite byte_len_app. lia.
Qed.
(** What writing a text does: all of it, or a prefix of it and an error. *)
Definition writes (txt t : text) (s : spool) (r : result spool_exn unit * spool) : Prop :=
  ∃ t1 t2, t = t1 ++ t2 ∧ spool_inv (txt ++ t1) r.2 ∧ same_frame s r.2 ∧ (r.1 = Ok tt → t2 = []).

Lemma write_prefix_spec txt t1 s used :
  spool_inv txt s → sp_closed s = false → encode t1 ≠ [] → is_text t1 → Forall (λ c, visible c = true) t1 →
  byte_len txt + byte_len t1 <= used <= budget_limit (sp_budget s) → byte_len txt + byte_len t1 <= sp_max_bytes s →
  (∃ e used', write_prefix os_write (encode t1) (set_budget (set_used used (sp_budget s)) s) =
     (Err e, set_budget (set_used used' (sp_budget s)) s) ∧ byte_len txt <= used' <= budget_limit (sp_budget s)) ∨
  write_prefix os_write (encode t1) (set_budget (set_used used (sp_budget s)) s) =
    (Ok tt, set_file (encode txt ++ encode t1) (set_budget (set_used used (sp_budget s)) s)).
Proof.
  intros Hinv Hc Hne Ht1 Hv Hu Hm. destruct Hinv. unfold write_prefix.
  cbn [sp_written sp_file set_budget]. rewrite inv_file0, inv_written0.
  assert (take (Z.to_nat (byte_len txt)) (encode txt) = encode txt) as Htk
    by (unfold byte_len; rewrite Nat2Z.id; apply firstn_all). rewrite !Htk.
  destruct (write_loop _ _ _) as [[]|e]; [by right|]. left. rewrite release_spec.
  2:{ cbn. change (Z.of_nat (length (encode t1))) with (byte_len t1). pose proof (byte_len_nonneg t1).
      pose proof (byte_len_nonneg txt). lia. }
  pose proof (byte_len_nonneg t1). exists e, (used - byte_len t1). split; [|lia]. cbn. f_equal. unfold set_budget, set_file, set_used. cbn.
  by rewrite <- inv_file0.
Qed.

Lemma inv_set_used txt s used :
  spool_inv txt s → sp_closed s = false → byte_len txt <= used <= budget_limit (sp_budget s) →
  spool_inv txt (set_budget (set_used used (sp_budget s)) s).
Proof. intros [] Hc Hu. split; cbn; try done. rewrite inv_reserved0, Hc, inv_written0. done. Qed.

Lemma write_text_spec txt t s :
  spool_inv txt s → sp_closed s = false → is_text t → Forall (λ c, visible c = true) t →
  reclaims_others reclaim s → writes txt t s (_write_text os_write reclaim t s).
Proof.
  intros Hinv Hc Ht Hv Hrec. destruct t as [|c t'] eqn:Et.
  { exists [], []. rewrite !app_nil_r. split_and!; [done|done|by repeat split|done]. }
  rewrite <- Et in *. assert (_write_text os_write reclaim t s = _write_text os_write reclaim (c :: t') s) as -> by by rewrite Et.
  unfold _write_text. rewrite <- Et. clear Et c t'. st_eval.
  pose proof (inv_written _ _ Hinv) as Hw. pose proof (inv_budget _ _ Hinv) as Hb. pose proof (inv_limit _ _ Hinv) as Hl.
  pose proof (inv_reserved _ _ Hinv) as Hres. rewrite Hc in Hres. pose proof (byte_len_nonneg txt) as H0.
  change (Z.of_nat (length (encode t))) with (byte_len t). pose proof (byte_len_nonneg t) as Ht0.
  destruct (reserve_spec (Z.min (byte_len t) (Z.max 0 (sp_max_bytes s - sp_written s))) s) as (granted & used & -> & Hg & Hu);
    [lia|lia|done|done|].
  destruct (valid_prefix_of t (Z.to_nat granted) Ht) as (t1 & t2 & Hsplit & -> & Hlen & _).
  rewrite length_take in Hlen. set (s1 := set_budget (set_used used (sp_budget s)) s).
  assert (byte_len t1 <= granted) as Hpre by (unfold byte_len; lia).
  change (Z.of_nat (length (encode t1))) with (byte_len t1). pose proof (byte_len_nonneg t1) as Ht10.
  assert (is_text t1) as Ht1 by (rewrite Hsplit in Ht; by apply Forall_app in Ht as [? _]).
  assert (Forall (λ c, visible c = true) t1) as Hv1 by (rewrite Hsplit in Hv; by apply Forall_app in Hv as [? _]).
  rewrite release_spec by (unfold s1; cbn; lia).
  change (set_budget (set_used (budget_used (sp_budget s1) - (granted - byte_len t1)) (sp_budget s1)) s1)
    with (set_budget (set_used (used - (granted - byte_len t1)) (sp_budget s)) s).
  set (used1 := used - (granted - byte_len t1)).
  assert (byte_len t1 <? byte_len t = false → t2 = []) as Hall.
  { rewrite Hsplit, byte_len_app. intros H%Z.ltb_ge. pose proof (byte_len_nonneg t2).
    assert (byte_len t2 = 0) as H2 by lia. unfold byte_len in H2.
    apply encode_nil_inv. apply length_zero_iff_nil. lia. }
  destruct (encode t1) as [|b bs] eqn:E1.
  - apply encode_nil_inv in E1 as ->. change (byte_len []) with 0 in *.
    assert (spool_inv (txt ++ []) (account_text [] [] (set_budget (set_used used1 (sp_budget s)) s))) as Hi.
    { pose proof (account_inv txt s [] (sp_file s) used1 Hinv Hc ltac:(constructor) ltac:(constructor)) as Hi.
      change (encode []) with (@nil Z) in Hi. change (byte_len []) with 0 in Hi. rewrite app_nil_r in Hi.
      apply Hi; [apply inv_file, Hinv|unfold used1; lia|lia]. }
    exists [], t2. destruct (0 <? byte_len t) eqn:E; cbn [fst snd]; (split_and!; [done|done|by repeat split|auto]); done.
  - rewrite <- E1.
    destruct (write_prefix_spec txt t1 s used1) as [(e & used2 & -> & Hu2)| ->];
      [done|done|by rewrite E1|done|done|unfold used1; lia|lia| |].
    + exists [], t. rewrite app_nil_r. split_and!; [done|by apply inv_set_used|by repeat split|done].
    + rewrite decode_strict_encode by done.
      assert (spool_inv (txt ++ t1) (account_text (encode t1) t1 (set_file (encode txt ++ encode t1)
        (set_budget (set_used used1 (sp_budget s)) s)))) as Hi
        by (apply account_inv; [done|done|done|done|done|unfold used1; lia|lia]).
      assert (same_frame s (account_text (encode t1) t1 (set_file (encode txt ++ encode t1)
        (set_budget (set_used used1 (sp_budget s)) s)))) as Hf by (unfold account_text; by destruct t1).
      exists t1, t2. destruct (byte_len t1 <? byte_len t) eqn:E; cbn [fst snd]; (split_and!; [done|done|done|auto]); done.
Qed.
End writing.

(** ** Calls *)
Section calls.
Variable os_write : bytes → write_answer.
Variable reclaim : option (Z → Z → Z).

Lemma inv_set_streams txt d z s : spool_inv txt s → pending_ok d → spool_inv txt (set_streams d z s).
Proof. intros [] Hd. by split. Qed.

(** The text an append sends to the file. *)
Definition append_text (data : bytes) (s : spool) : text :=
  (sanitize (sp_sanitizer s) (replace_errors (feed (sp_decoder s) data).1)).2.

Lemma spool_append_spec txt data s :
  spool_inv txt s → reclaims_others reclaim s →
  if sp_finished s then (append os_write reclaim data s).2 = s ∧ is_ok (append os_write reclaim data s).1 = false
  else writes txt (append_text data s)
    (set_streams (feed (sp_decoder s) data).2
       (sanitize (sp_sanitizer s) (replace_errors (feed (sp_decoder s) data).1)).1 s)
    (append os_write reclaim data s).
Proof.
  intros Hinv Hrec. unfold append, append_text. st_eval. unfold require.
  destruct (sp_finished s) eqn:Hf; cbn [negb]; [done|]. cbn iota.
  destruct (feed_sound (sp_decoder s) data (inv_decoder _ _ Hinv)) as (Hp & Hok & _).
  apply write_text_spec; [by apply inv_set_streams| | | |done].
  - cbn. destruct (sp_closed s) eqn:Hc; [|done]. apply (inv_closed _ _ Hinv) in Hc. congruence.
  - apply sanitize_text. by apply replace_errors_text.
  - apply sanitize_visible.
Qed.

(** The text a finish sends to the file, and the streams after it. *)
Definition finish_text (s : spool) : text :=
  let z := sanitize (sp_sanitizer s) (replace_errors (flush (sp_decoder s))) in z.2 ++ (sanitize_final z.1).2.

Lemma flush_text p : is_text (replace_errors (flush p)).
Proof. destruct p; cbn; by repeat constructor. Qed.

Lemma finish_spec txt s :
  spool_inv txt s → reclaims_others reclaim s →
  if sp_finished s then finish os_write reclaim s = (Ok tt, s)
  else ∃ t1 t2, finish_text s = t1 ++ t2 ∧ spool_inv (txt ++ t1) (finish os_write reclaim s).2 ∧
    (is_ok (finish os_write reclaim s).1 = true → t2 = []) ∧
    sp_finished (finish os_write reclaim s).2 = true ∧ sp_closed (finish os_write reclaim s).2 = sp_closed s.
Proof.
  intros Hinv Hrec. unfold finish, finish_text. destruct (sp_finished s) eqn:Hf; [done|].
  set (z := sanitize (sp_sanitizer s) (replace_errors (flush (sp_decoder s)))).
  destruct (write_text_spec os_write reclaim txt (z.2 ++ (sanitize_final z.1).2) (set_streams [] (sanitize_final z.1).1 s))
    as (t1 & t2 & Ht & Hi & (_ & _ & _ & _ & Hc & _) & Hok).
  - by apply inv_set_streams.
  - cbn. destruct (sp_closed s) eqn:Hc; [|done]. apply (inv_closed _ _ Hinv) in Hc. congruence.
  - apply Forall_app. split; [apply sanitize_text, flush_text|apply sanitize_final_text].
  - apply Forall_app. split; [apply sanitize_visible|apply sanitize_final_visible].
  - done.
  - exists t1, t2. cbn [fst snd]. split_and!; [done| | |done|done].
    + destruct Hi. by split.
    + intros H. apply Hok. destruct (_write_text _ _ _ _) as [[[]|]]; done.
Qed.

Lemma release_all txt s :
  spool_inv txt s → sp_closed s = false → sp_finished s = true →
  ∃ b, release_m (sp_reserved s) s = (Ok tt, set_budget b s) ∧ 0 <= budget_used b <= budget_limit b.
Proof.
  intros Hinv Hc Hf. destruct Hinv. rewrite Hc in *. pose proof (byte_len_nonneg txt).
  eexists. rewrite release_spec by lia. split; [reflexivity|]. cbn. lia.
Qed.

Lemma spool_close_spec txt s :
  spool_inv txt s → reclaims_others reclaim s →
  let r := close os_write reclaim s in
  sp_finished r.2 = true ∧
  if sp_finished s then spool_inv txt r.2 ∧ sp_file r.2 = sp_file s
  else ∃ t1 t2, finish_text s = t1 ++ t2 ∧ spool_inv (txt ++ t1) r.2 ∧ (is_ok r.1 = true → t2 = []).
Proof.
  intros Hinv Hrec. unfold close. destruct (sp_closed s) eqn:Hc.
  { pose proof (inv_closed _ _ Hinv Hc) as Hf. by rewrite Hf. }
  pose proof (finish_spec txt s Hinv Hrec) as Hfin. cbv zeta. destruct (sp_finished s) eqn:Hf.
  - rewrite Hfin. cbn [fst snd]. destruct (release_all txt s Hinv Hc Hf) as (b & -> & Hb). cbn.
    split_and!; [done| |done]. destruct Hinv. split; cbn; done.
  - destruct Hfin as (t1 & t2 & Ht & Hi & Hok & Hf' & Hc'). rewrite Hc in Hc'.
    destruct (release_all _ _ Hi Hc' Hf') as (b & -> & Hb). cbn.
    split; [done|]. exists t1, t2. split_and!; [done| |done]. destruct Hi. split; cbn; done.
Qed.
End calls.

(** ** Histories *)

(** A spool reached by calls, with the data appended so far, and whether
    every call returned. *)
Inductive spool_reachable : spool → bytes → bool → Prop :=
  | spool_new max_bytes b :
      0 <= budget_used b <= budget_limit b → spool_reachable (new_spool max_bytes b) [] true
  | spool_call s d ok os_write reclaim c :
      spool_reachable s d ok → reclaims_others reclaim s →
      spool_reachable (run_spool_call os_write reclaim c s).2
        (d ++ match c with CallAppend data => data | _ => [] end)
        (ok && is_ok (run_spool_call os_write reclaim c s).1)
  | spool_others s d ok used :
      spool_reachable s d ok → sp_reserved s <= used <= budget_limit (sp_budget s) →
      spool_reachable (set_budget (set_used used (sp_budget s)) s) d ok.

(** The reference: the whole output decoded at once, and sanitized. *)
Definition live_text (d : bytes) : sanitizer * text := sanitize new_sanitizer (replace_errors (feed [] d).1).

Definition terminal_text (d : bytes) : text :=
  let z := sanitize new_sanitizer (decode_replace d) in z.2 ++ (sanitize_final z.1).2.

Definition follows (d : bytes) (txt : text) (s : spool) : Prop :=
  if sp_finished s then txt = terminal_text d
  else sp_decoder s = (feed [] d).2 ∧ sp_sanitizer s = (live_text d).1 ∧ txt = (live_text d).2.

Lemma follows_append d data txt s :
  sp_finished s = false → follows d txt s →
  (feed (sp_decoder s) data).2 = (feed [] (d ++ data)).2 ∧
  (sanitize (sp_sanitizer s) (replace_errors (feed (sp_decoder s) data).1)).1 = (live_text (d ++ data)).1 ∧
  txt ++ append_text data s = (live_text (d ++ data)).2.
Proof.
  unfold follows, append_text, live_text. intros -> (-> & -> & ->). rewrite feed_app. cbn [fst snd].
  unfold replace_errors. rewrite map_app, sanitize_app. done.
Qed.

Lemma follows_finish d txt s :
  sp_finished s = false → follows d txt s → txt ++ finish_text s = terminal_text d.
Proof.
  unfold follows, finish_text, terminal_text, live_text, decode_replace. intros -> (-> & -> & ->). cbv zeta.
  unfold replace_errors. rewrite map_app, sanitize_app. cbn [fst snd]. by rewrite (assoc_L (++)).
Qed.

Lemma spool_reachable_inv s d ok :
  spool_reachable s d ok → ∃ txt, spool_inv txt s ∧ (ok = true → follows d txt s).
Proof.
  induction 1 as [max_bytes b Hb|s d ok os_write reclaim c Hr (txt & Hinv & Hfol) Hrec|s d ok used Hr (txt & Hinv & Hfol) Hu].
  - exists []. split; [|done]. split; cbn; try done; try lia. { constructor. } split; [constructor|done].
  - destruct c as [data| |]; cbn [run_spool_call].
    + pose proof (spool_append_spec os_write reclaim txt data s Hinv Hrec) as Ha. destruct (sp_finished s) eqn:Hf.
      * destruct Ha as [-> ->]. exists txt. by rewrite andb_false_r.
      * destruct Ha as (t1 & t2 & Ht & Hi & (_ & Hd & Hz & Hf' & _) & Hok).
        exists (txt ++ t1). split; [done|]. intros [-> Hk]%andb_true_iff.
        destruct (append os_write reclaim data s) as [[[]|e] s']; cbn [is_ok fst snd] in *; [|done].
        rewrite (Hok eq_refl), app_nil_r in Ht. subst t1.
        destruct (follows_append d data txt s Hf (Hfol eq_refl)) as (H1 & H2 & H3).
        unfold follows. rewrite Hf'. cbn. rewrite Hf. by rewrite Hd, Hz, <- H1, <- H2.
    + rewrite app_nil_r. pose proof (finish_spec os_write reclaim txt s Hinv Hrec) as Ha. destruct (sp_finished s) eqn:Hf.
      * rewrite Ha. cbn. rewrite andb_true_r. by exists txt.
      * destruct Ha as (t1 & t2 & Ht & Hi & Hok & Hf' & _). exists (txt ++ t1). split; [done|].
        intros [-> Hk]%andb_true_iff. rewrite (Hok Hk), app_nil_r in Ht. subst t1.
        unfold follows. rewrite Hf'. by apply follows_finish; auto.
    + rewrite app_nil_r. destruct (spool_close_spec os_write reclaim txt s Hinv Hrec) as [Hf' Ha].
      destruct (sp_finished s) eqn:Hf.
      * exists txt. split; [apply Ha|]. intros [-> _]%andb_true_iff. unfold follows in *.
        rewrite Hf in Hfol. rewrite Hf'. auto.
      * destruct Ha as (t1 & t2 & Ht & Hi & Hok). exists (txt ++ t1). split; [done|].
        intros [-> Hk]%andb_true_iff. rewrite (Hok Hk), app_nil_r in Ht. subst t1.
        unfold follows. rewrite Hf'. by apply follows_finish; auto.
  - exists txt. split; [|done]. destruct Hinv. by split.
Qed.

(** over every history of a spool (appends of any bytes, finish, close; any behaviour of the
    file system, of the reclaimer and of the other spools of the budget), failures included: the
    file is the UTF-8 of a text of visible characters, tabs and newlines; the sizes, the line
    counts and the reservation are exactly those of that text; the file respects its limit and the
    budget, and the tail in memory its limits. *)
Theorem spool_accounting s d ok :
  spool_reachable s d ok →
  ∃ txt, spool_inv txt s ∧
    ∀ r, tail_snapshot s DEFAULT_MAX_LINES DEFAULT_MAX_BYTES = Ok r →
      tr_total_lines r = line_count txt ∧ tr_total_bytes r = byte_len txt ∧
      tr_output_lines r <= DEFAULT_MAX_LINES ∧ tr_output_bytes r <= DEFAULT_MAX_BYTES.
Proof.
  intros (txt & Hinv & _)%spool_reachable_inv. exists txt. split; [done|].
  intros r. unfold tail_snapshot. cbn. intros [= <-]. cbn. destruct Hinv.
  split_and!; [|done|tauto|tauto]. rewrite inv_newlines0, inv_saw0, inv_ends0. unfold line_count.
  destruct txt as [|c t]; [done|]. by rewrite bool_decide_true.
Qed.

(** C17: when no call failed, the file of a finished spool holds the UTF-8 of the whole output,
    decoded at once (with one replacement character per ill-formed part) and sanitized, however
    the output was cut into chunks: characters, control sequences and line ends that straddle
    chunks included. *)
Theorem whole_output s d :
  spool_reachable s d true → sp_finished s = true → sp_file s = encode (terminal_text d).
Proof.
  intros (txt & Hinv & Hfol)%spool_reachable_inv Hf. specialize (Hfol eq_refl). unfold follows in Hfol.
  rewrite Hf in Hfol. rewrite <- Hfol. apply inv_file, Hinv.
Qed.

(** ** Reading *)

Lemma encode_inj t t' : is_text t → is_text t' → encode t = encode t' → t = t'.
Proof.
  intros Ht Ht' He. pose proof (decode_strict_encode t Ht) as H. rewrite He, decode_strict_encode in H by done. congruence.
Qed.

(** A place in the file that is not inside a character is between two. *)
Lemma boundary t n :
  is_text t → (n < length (encode t))%nat →
  match drop n (encode t) with b :: _ => is_continuation b = false | [] => True end →
  ∃ t1 t2, t = t1 ++ t2 ∧ n = length (encode t1) ∧ drop n (encode t) = encode t2 ∧ t2 ≠ [].
Proof.
  intros Ht Hn Hb. destruct (skip_drop t n Ht ltac:(lia)) as (m & Hs & Hm & Hmax).
  assert (skip_continuation (drop n (encode t)) = drop n (encode t)) as Hskip.
  { destruct (drop n (encode t)) as [|b bs]; [done|]. cbn. by rewrite Hb. }
  rewrite Hskip in Hs. exists (take m t), (drop m t). rewrite take_drop.
  pose proof (f_equal length Hs) as Hlen. rewrite length_drop in Hlen.
  assert (length (encode t) = length (encode (take m t)) + length (encode (drop m t)))%nat as Hsum
    by (by rewrite <- length_app, <- encode_app, take_drop).
  split_and!; [done|lia|done|]. intros He. rewrite He in Hlen. cbn in Hlen. lia.
Qed.

Lemma boundary_head t1 t2 :
  is_text t2 → match drop (length (encode t1)) (encode (t1 ++ t2)) with b :: _ => is_continuation b | [] => false end = false.
Proof.
  intros Ht2. rewrite encode_app, drop_app_length. destruct Ht2 as [|c t2 Hc Ht2]; [done|].
  destruct (encode_char_shape c Hc) as (b & bs & He & Hb & _). cbn [encode flat_map]. by rewrite He.
Qed.

(** The page at the boundary after [t1]. *)
Lemma read_boundary t1 t2 s max_bytes :
  is_text (t1 ++ t2) → sp_file s = encode (t1 ++ t2) → sp_written s = byte_len (t1 ++ t2) → sp_closed s = false → 0 < max_bytes →
  ∃ t3 t4, t2 = t3 ++ t4 ∧ byte_len t3 <= max_bytes ∧ (4 <= max_bytes → t3 = [] → t4 = []) ∧
    read s (byte_len t1) max_bytes =
      Ok {| os_text := t3; os_cursor := byte_len t1; os_next_cursor := byte_len (t1 ++ t3) |}.
Proof.
  intros Ht Hf Hw Hc Hm. unfold read. rewrite (proj2 (Z.leb_gt max_bytes 0)) by lia.
  pose proof (byte_len_nonneg t1). pose proof (byte_len_nonneg t2). rewrite Hw, byte_len_app.
  rewrite (proj2 (Z.ltb_ge (byte_len t1) 0)) by lia.
  rewrite (proj2 (Z.ltb_ge (byte_len t1 + byte_len t2) (byte_len t1))) by lia. cbn [orb]. rewrite Hc.
  apply Forall_app in Ht as [Ht1 Ht2]. rewrite Hf.
  assert (Z.to_nat (byte_len t1) = length (encode t1)) as -> by (unfold byte_len; lia).
  rewrite boundary_head by done. rewrite andb_false_r. rewrite encode_app, drop_app_length.
  set (n := Z.to_nat _). destruct (valid_prefix_of t2 n Ht2) as (t3 & t4 & -> & -> & Hlen & Hfull).
  assert (Z.of_nat n <= max_bytes ∧ (byte_len (t3 ++ t4) <= max_bytes → Z.of_nat n = byte_len (t3 ++ t4)) ∧
          (max_bytes < byte_len (t3 ++ t4) → Z.of_nat n = max_bytes)) as (Hn1 & Hn2 & Hn3) by (unfold n; lia).
  rewrite length_take in Hlen. apply Forall_app in Ht2 as [Ht3 Ht4].
  exists t3, t4. split_and!; [done|unfold byte_len; lia| |].
  - intros H4 ->. destruct Hfull as [[Hf1 Hf2]|]; [|done]. unfold byte_len in Hn2, Hn3. cbn [encode flat_map length] in *. lia.
  - unfold mbind, result_bind. rewrite decode_strict_encode by done. do 2 f_equal. rewrite byte_len_app. done.
Qed.

(** Where a reader may start: between two characters. *)
Definition at_boundary (txt : text) (cursor : Z) : Prop := ∃ t1 t2, txt = t1 ++ t2 ∧ cursor = byte_len t1.

Lemma read_inside s txt cursor max_bytes :
  spool_inv txt s → sp_closed s = false → 0 < max_bytes →
  at_boundary txt cursor ∨ read s cursor max_bytes = Err (InvalidCursorError cursor (sp_written s)).
Proof.
  intros Hinv Hc Hm. unfold read. rewrite (proj2 (Z.leb_gt max_bytes 0)) by lia.
  destruct (Z.ltb_spec cursor 0); [by right|]. destruct (Z.ltb_spec (sp_written s) cursor); [by right|]. cbn [orb].
  rewrite Hc. pose proof (inv_written _ _ Hinv) as Hw. pose proof (inv_file _ _ Hinv) as Hf.
  destruct (Z.ltb_spec cursor (sp_written s)) as [Hlt|]; cbn [andb].
  - rewrite Hf. destruct (match drop _ _ with [] => false | b :: _ => _ end) eqn:Hb; [by right|]. left.
    destruct (boundary txt (Z.to_nat cursor)) as (t1 & t2 & Ht & Hn & _).
    + apply Hinv.
    + rewrite Hw in Hlt. unfold byte_len in Hlt. lia.
    + by destruct (drop _ _).
    + exists t1, t2. split; [done|]. unfold byte_len. lia.
  - left. exists txt, []. rewrite app_nil_r. split; [done|]. lia.
Qed.

(** What a read of an open spool returns, for every cursor: between two characters of the
    text, the characters from there on that fit, at least one when four bytes are asked for and
    there is one, and the cursor after them; anywhere else, the error for an invalid cursor. *)
Theorem read_exact s d ok max_bytes :
  spool_reachable s d ok → sp_closed s = false → 0 < max_bytes →
  ∃ txt, is_text txt ∧ sp_file s = encode txt ∧
    ∀ cursor, (¬ at_boundary txt cursor ∧ read s cursor max_bytes = Err (InvalidCursorError cursor (byte_len txt))) ∨
      ∃ t1 t2 t3, txt = t1 ++ t2 ++ t3 ∧ cursor = byte_len t1 ∧
        read s cursor max_bytes = Ok {| os_text := t2; os_cursor := cursor; os_next_cursor := byte_len (t1 ++ t2) |} ∧
        byte_len t2 <= max_bytes ∧ (4 <= max_bytes → t2 = [] → t3 = []).
Proof.
  intros (txt & Hinv & _)%spool_reachable_inv Hc Hm. exists txt.
  split; [apply Hinv|]. split; [apply Hinv|]. intros cursor.
  assert (at_boundary txt cursor → ∃ t1 t2 t3, txt = t1 ++ t2 ++ t3 ∧ cursor = byte_len t1 ∧
    read s cursor max_bytes = Ok {| os_text := t2; os_cursor := cursor; os_next_cursor := byte_len (t1 ++ t2) |} ∧
    byte_len t2 <= max_bytes ∧ (4 <= max_bytes → t2 = [] → t3 = [])) as Hread.
  { intros (t1 & t2 & -> & ->).
    destruct (read_boundary t1 t2 s max_bytes (inv_text _ _ Hinv) (inv_file _ _ Hinv) (inv_written _ _ Hinv) Hc Hm)
      as (t3 & t4 & -> & Hb & H4 & ->). by exists t1, t3, t4. }
  destruct (read_inside s txt cursor max_bytes Hinv Hc Hm) as [Hb|He]; [by right; apply Hread|].
  left. rewrite (inv_written _ _ Hinv) in He. split; [|done]. intros (t1 & t2 & t3 & _ & _ & Hr & _)%Hread. congruence.
Qed.

(** A reader that follows the cursors until the end of the file. *)
Fixpoint read_pages (fuel : nat) (s : spool) (cursor max_bytes : Z) : result spool_exn (list OutputSlice) :=
  if sp_written s <=? cursor then Ok []
  else match fuel with
       | O => Ok []
       | S fuel' =>
           slice ← read s cursor max_bytes;
           rest ← read_pages fuel' s (os_next_cursor slice) max_bytes;
           Ok (slice :: rest)
       end.

Lemma read_pages_spec fuel s t1 t2 max_bytes :
  is_text (t1 ++ t2) → sp_file s = encode (t1 ++ t2) → sp_written s = byte_len (t1 ++ t2) → sp_closed s = false → 4 <= max_bytes →
  (length t2 <= fuel)%nat →
  ∃ slices, read_pages fuel s (byte_len t1) max_bytes = Ok slices ∧ concat (map os_text slices) = t2 ∧
    Forall (λ sl, byte_len (os_text sl) <= max_bytes) slices.
Proof.
  intros Ht Hf Hw Hc Hm. revert t1 t2 Ht Hf Hw; induction fuel as [|fuel IH]; intros t1 t2 Ht Hf Hw Hlen; cbn [read_pages].
  - destruct t2; [|cbn in Hlen; lia]. exists []. by destruct (_ <=? _).
  - destruct (Z.leb_spec (sp_written s) (byte_len t1)) as [Hle|Hgt].
    { exists []. split; [done|]. split; [|constructor]. rewrite Hw, byte_len_app in Hle. symmetry. cbn.
      apply encode_nil_inv, length_zero_iff_nil. unfold byte_len in Hle. lia. }
    destruct (read_boundary t1 t2 s max_bytes Ht Hf Hw Hc ltac:(lia)) as (t3 & t4 & -> & Hb & H4 & ->).
    unfold mbind, result_bind. cbn [os_next_cursor]. specialize (H4 Hm).
    assert (t3 ≠ []) as Hne. { intros ->. rewrite Hw, (H4 eq_refl), !byte_len_app in Hgt. change (byte_len []) with 0 in Hgt. lia. }
    rewrite (assoc_L (++)) in Ht, Hf, Hw. destruct (IH (t1 ++ t3) t4 Ht Hf Hw) as (slices & -> & Hcat & Hall).
    { rewrite length_app in Hlen. destruct t3; [done|]. cbn in Hlen. lia. }
    eexists. split; [reflexivity|]. cbn. rewrite Hcat. split; [done|by constructor].
Qed.

(** paging is lossless: a reader that asks for pages of four bytes or more and follows the
    cursors from 0 gets, after finitely many pages, each within the size asked for, the whole text
    of the file. *)
Theorem paging_lossless s d ok max_bytes fuel :
  spool_reachable s d ok → sp_closed s = false → 4 <= max_bytes → sp_written s <= Z.of_nat fuel →
  ∃ txt slices, sp_file s = encode txt ∧ read_pages fuel s 0 max_bytes = Ok slices ∧
    concat (map os_text slices) = txt ∧ Forall (λ sl, byte_len (os_text sl) <= max_bytes) slices.
Proof.
  intros (txt & Hinv & _)%spool_reachable_inv Hc Hm Hfuel.
  assert (length txt <= length (encode txt))%nat as Hlen.
  { clear. induction txt as [|c t IH]; [done|]. cbn [encode flat_map length]. rewrite length_app.
    pose proof (encode_char_nonempty c). destruct (encode_char c); [done|]. cbn [length]. unfold encode in IH. lia. }
  rewrite (inv_written _ _ Hinv) in Hfuel. unfold byte_len in Hfuel.
  destruct (read_pages_spec fuel s [] txt max_bytes (inv_text _ _ Hinv) (inv_file _ _ Hinv) (inv_written _ _ Hinv) Hc Hm ltac:(lia))
    as (slices & Hr & Hcat & Hall).
  exists txt, slices. split; [apply Hinv|done].
Qed.

(** ** Witnesses *)
Definition sample_write (data : bytes) : write_answer := Wrote 2.

(** An "e" with an acute accent split between two chunks, a colour sequence, and a carriage return
    before a newline. *)
Definition sample_chunks : list bytes := [[104; 195]; [169; 27; 91; 51]; [49; 109; 33; 13]; [10; 255]].

Definition sample_budget : LiveSpoolBudget := {| budget_limit := 100; budget_used := 10 |}.

Fixpoint append_all (cs : list bytes) (s : spool) : spool * bool :=
  match cs with
  | [] => (s, true)
  | c :: cs' => let r := append sample_write None c s in let r' := append_all cs' r.2 in (r'.1, is_ok r.1 && r'.2)
  end.

Lemma append_all_reachable cs s d ok :
  spool_reachable s d ok → spool_reachable (append_all cs s).1 (d ++ concat cs) (ok && (append_all cs s).2).
Proof.
  revert s d ok; induction cs as [|c cs IH]; intros s d ok Hr; cbn.
  - by rewrite app_nil_r, andb_true_r.
  - rewrite (assoc_L (++)), andb_assoc. apply IH. apply (spool_call s d ok sample_write None (CallAppend c)); [done|].
    intros f requested used. done.
Qed.

Definition sample_spool : spool := (append_all sample_chunks (new_spool 50 sample_budget)).1.
Definition sample_finished : spool := (finish sample_write None sample_spool).2.

Lemma sample_spool_reachable : spool_reachable sample_spool (concat sample_chunks) true.
Proof.
  apply (append_all_reachable sample_chunks (new_spool 50 sample_budget) [] true). apply spool_new. cbn. lia.
Qed.

Lemma sample_finished_reachable : spool_reachable sample_finished (concat sample_chunks) true.
Proof.
  apply (spool_call sample_spool (concat sample_chunks) true sample_write None CallFinish); [apply sample_spool_reachable|].
  intros f requested used. done.
Qed.

Lemma spool_accounting_witness :
  spool_reachable sample_finished (concat sample_chunks) true ∧ ∃ txt, spool_inv txt sample_finished.
Proof.
  split; [apply sample_finished_reachable|].
  destruct (spool_accounting sample_finished (concat sample_chunks) true sample_finished_reachable) as (txt & H & _).
  by exists txt.
Defined.

Lemma whole_output_witness :
  sp_file sample_finished = encode (terminal_text (concat sample_chunks)) ∧
  terminal_text (concat sample_chunks) = [104; 233; 33; 10; 65533].
Proof.
  split; [|vm_compute; reflexivity]. apply whole_output; [apply sample_finished_reachable|vm_compute; reflexivity].
Defined.

Lemma read_exact_witness :
  ∃ txt, is_text txt ∧ sp_file sample_spool = encode txt ∧
    ∀ cursor, (¬ at_boundary txt cursor ∧ read sample_spool cursor 4 = Err (InvalidCursorError cursor (byte_len txt))) ∨
      ∃ t1 t2 t3, txt = t1 ++ t2 ++ t3 ∧ cursor = byte_len t1 ∧
        read sample_spool cursor 4 = Ok {| os_text := t2; os_cursor := cursor; os_next_cursor := byte_len (t1 ++ t2) |} ∧
        byte_len t2 <= 4 ∧ (4 <= 4 → t2 = [] → t3 = []).
Proof.
  apply (read_exact sample_spool (concat sample_chunks) true 4 sample_spool_reachable); [vm_compute; reflexivity|lia].
Defined.

Lemma paging_lossless_witness :
  ∃ txt slices, sp_file sample_finished = encode txt ∧ read_pages 20 sample_finished 0 4 = Ok slices ∧
    concat (map os_text slices) = txt ∧ Forall (λ sl, byte_len (os_text sl) <= 4) slices.
Proof.
  apply (paging_lossless sample_finished (concat sample_chunks) true 4 20 sample_finished_reachable);
    [vm_compute; reflexivity|lia|vm_compute; discriminate].
Defined.

(** With fewer than four bytes asked for, a reader may stand still. *)
Example read_no_progress :
  read (append sample_write None [240; 159; 152; 128] (new_spool 50 sample_budget)).2 0 3 =
    Ok {| os_text := []; os_cursor := 0; os_next_cursor := 0 |}.
Proof. vm_compute. reflexivity. Qed.

(** The tail in memory loses the newline at its end when it is cut, so that the next chunk is
    glued to the last line: after 2001 lines "x", the line "done" shows as "xdone". *)
Definition long_output : bytes := concat (replicate 2001 [120; 10]).
Definition long_spool : spool :=
  (append (λ data, Wrote (Z.of_nat (length data))) None [100; 111; 110; 101; 10]
    (append (λ data, Wrote (Z.of_nat (length data))) None long_output
      (new_spool 100000 {| budget_limit := 100000; budget_used := 0 |})).2).2.

Example tail_joins_lines :
  default [] (last (_split_lines_for_counting (sp_tail long_spool))) = [120; 100; 111; 110; 101] ∧
  default [] (last (_split_lines_for_counting
    (tr_content (truncate_tail (long_output ++ [100; 111; 110; 101; 10]) DEFAULT_MAX_LINES DEFAULT_MAX_BYTES))))
    = [100; 111; 110; 101].
Proof. vm_compute. split_and!; reflexivity. Qed.
