(* ===== verification/CommandOutput.v ===== *)
(** The output of a command: [tools/output_spool.py].

    All bytes go to a private file; a rolling window of the decoded text is
    kept in memory, from which snapshots of the last lines are cut.  When the
    window grows past twice its size it is trimmed to its last bytes.

    The artifact registry, to which a truncated output can be handed over, is
    an argument: whether it is durable, and what its call returns or raises.
    The file itself never fails here. *)

From S2P Require Import Prelude Utf8 Truncate.
Open Scope Z_scope.

(** [t.split()]: the words, [w] is the one being read. *)
Fixpoint words (w t : text) : list text :=
  match t with
  | [] => match w with [] => [] | _ => [w] end
  | c :: t' => if is_space c then match w with [] => words [] t' | _ => w :: words [] t' end
               else words (w ++ [c]) t'
  end.

(** [" ".join(ws)] *)
Fixpoint join_space (ws : list text) : text :=
  match ws with
  | [] => []
  | [w] => w
  | w :: ws' => w ++ 32 :: join_space ws'
  end.

(** What registering an artifact does. *)
Inductive artifact_answer : Type :=
  | ArtifactOk (id : text)
  | ArtifactPromotionError (code message : text)
  | ArtifactOSError.

Record artifact_registry := { ar_durable : bool; ar_answer : artifact_answer }.

(** [src: travis/coding_agent/tools/output_spool.py:32-71 OutputSpool.__init__] *)
Record output_spool := {
  o_max_lines : Z;
  o_max_bytes : Z;
  o_file : bytes;
  o_decoder : bytes;
  o_tail : text;
  o_tail_bytes : Z;
  o_max_rolling : Z;
  o_at_line_boundary : bool;
  o_total_bytes : Z;
  o_completed_lines : Z;
  o_total_lines : Z;
  o_open_line : bool;
  o_last_line_bytes : Z;
  o_was_truncated : bool;
  o_truncated_by : option cut_by;
  o_artifact : option text;
  o_unavailable : option (text * text);
  o_preserve : bool;
  o_finished : bool;
  o_closed : bool;
  o_removed : bool;
}.

(** [src: travis/coding_agent/tools/output_spool.py:32-71 OutputSpool.__init__] *)
Definition new_output_spool (max_lines max_bytes : Z) : output_spool :=
  {| o_max_lines := max_lines; o_max_bytes := max_bytes; o_file := []; o_decoder := []; o_tail := [];
     o_tail_bytes := 0; o_max_rolling := Z.max (max_bytes * 2) 1; o_at_line_boundary := true;
     o_total_bytes := 0; o_completed_lines := 0; o_total_lines := 0; o_open_line := false;
     o_last_line_bytes := 0; o_was_truncated := false; o_truncated_by := None; o_artifact := None;
     o_unavailable := None; o_preserve := false; o_finished := false; o_closed := false; o_removed := false |}.

(** The part of the state about the text, changed by appends. *)
Definition set_window (tail : text) (tail_bytes : Z) (boundary : bool) (s : output_spool) : output_spool :=
  {| o_max_lines := o_max_lines s; o_max_bytes := o_max_bytes s; o_file := o_file s; o_decoder := o_decoder s;
     o_tail := tail; o_tail_bytes := tail_bytes; o_max_rolling := o_max_rolling s;
     o_at_line_boundary := boundary; o_total_bytes := o_total_bytes s;
     o_completed_lines := o_completed_lines s; o_total_lines := o_total_lines s; o_open_line := o_open_line s;
     o_last_line_bytes := o_last_line_bytes s; o_was_truncated := o_was_truncated s;
     o_truncated_by := o_truncated_by s; o_artifact := o_artifact s; o_unavailable := o_unavailable s;
     o_preserve := o_preserve s; o_finished := o_finished s; o_closed := o_closed s; o_removed := o_removed s |}.

Definition set_counters (total completed lines : Z) (open : bool) (last_line : Z) (truncated : bool)
    (s : output_spool) : output_spool :=
  {| o_max_lines := o_max_lines s; o_max_bytes := o_max_bytes s; o_file := o_file s; o_decoder := o_decoder s;
     o_tail := o_tail s; o_tail_bytes := o_tail_bytes s; o_max_rolling := o_max_rolling s;
     o_at_line_boundary := o_at_line_boundary s; o_total_bytes := total;
     o_completed_lines := completed; o_total_lines := lines; o_open_line := open;
     o_last_line_bytes := last_line; o_was_truncated := truncated;
     o_truncated_by := o_truncated_by s; o_artifact := o_artifact s; o_unavailable := o_unavailable s;
     o_preserve := o_preserve s; o_finished := o_finished s; o_closed := o_closed s; o_removed := o_removed s |}.

Definition set_input (file decoder : bytes) (finished : bool) (s : output_spool) : output_spool :=
  {| o_max_lines := o_max_lines s; o_max_bytes := o_max_bytes s; o_file := file; o_decoder := decoder;
     o_tail := o_tail s; o_tail_bytes := o_tail_bytes s; o_max_rolling := o_max_rolling s;
     o_at_line_boundary := o_at_line_boundary s; o_total_bytes := o_total_bytes s;
     o_completed_lines := o_completed_lines s; o_total_lines := o_total_lines s; o_open_line := o_open_line s;
     o_last_line_bytes := o_last_line_bytes s; o_was_truncated := o_was_truncated s;
     o_truncated_by := o_truncated_by s; o_artifact := o_artifact s; o_unavailable := o_unavailable s;
     o_preserve := o_preserve s; o_finished := finished; o_closed := o_closed s; o_removed := o_removed s |}.

Definition set_outcome (truncated : bool) (by_ : option cut_by) (preserve : bool) (s : output_spool) : output_spool :=
  {| o_max_lines := o_max_lines s; o_max_bytes := o_max_bytes s; o_file := o_file s; o_decoder := o_decoder s;
     o_tail := o_tail s; o_tail_bytes := o_tail_bytes s; o_max_rolling := o_max_rolling s;
     o_at_line_boundary := o_at_line_boundary s; o_total_bytes := o_total_bytes s;
     o_completed_lines := o_completed_lines s; o_total_lines := o_total_lines s; o_open_line := o_open_line s;
     o_last_line_bytes := o_last_line_bytes s; o_was_truncated := truncated; o_truncated_by := by_;
     o_artifact := o_artifact s; o_unavailable := o_unavailable s;
     o_preserve := preserve; o_finished := o_finished s; o_closed := o_closed s; o_removed := o_removed s |}.

Definition set_artifact (ref : option text) (unavailable : option (text * text)) (s : output_spool) : output_spool :=
  {| o_max_lines := o_max_lines s; o_max_bytes := o_max_bytes s; o_file := o_file s; o_decoder := o_decoder s;
     o_tail := o_tail s; o_tail_bytes := o_tail_bytes s; o_max_rolling := o_max_rolling s;
     o_at_line_boundary := o_at_line_boundary s; o_total_bytes := o_total_bytes s;
     o_completed_lines := o_completed_lines s; o_total_lines := o_total_lines s; o_open_line := o_open_line s;
     o_last_line_bytes := o_last_line_bytes s; o_was_truncated := o_was_truncated s;
     o_truncated_by := o_truncated_by s; o_artifact := ref; o_unavailable := unavailable;
     o_preserve := o_preserve s; o_finished := o_finished s; o_closed := o_closed s; o_removed := o_removed s |}.

Definition set_closed (removed : bool) (s : output_spool) : output_spool :=
  {| o_max_lines := o_max_lines s; o_max_bytes := o_max_bytes s; o_file := o_file s; o_decoder := o_decoder s;
     o_tail := o_tail s; o_tail_bytes := o_tail_bytes s; o_max_rolling := o_max_rolling s;
     o_at_line_boundary := o_at_line_boundary s; o_total_bytes := o_total_bytes s;
     o_completed_lines := o_completed_lines s; o_total_lines := o_total_lines s; o_open_line := o_open_line s;
     o_last_line_bytes := o_last_line_bytes s; o_was_truncated := o_was_truncated s;
     o_truncated_by := o_truncated_by s; o_artifact := o_artifact s; o_unavailable := o_unavailable s;
     o_preserve := o_preserve s; o_finished := o_finished s; o_closed := true; o_removed := removed |}.

(** The text of the buffer from a byte on that starts a character; the strict
    decoder of the code cannot fail there. *)
Definition decode_from (buffer : bytes) : text :=
  match decode_strict buffer with Ok t => t | Err _ => [] end.

(** [src: travis/coding_agent/tools/output_spool.py:208-220 OutputSpool._trim_tail]: [start] is where
    the search for a first byte ends, [before] the byte in front of it. *)
Definition _trim_tail (s : output_spool) : output_spool :=
  let buffer := encode (o_tail s) in
  let len := Z.of_nat (length buffer) in
  if len <=? o_max_rolling s then set_window (o_tail s) len (o_at_line_boundary s) s
  else
    let rest := skip_continuation (drop (Z.to_nat (len - o_max_rolling s)) buffer) in
    let start := len - Z.of_nat (length rest) in
    let boundary :=
      if 0 <? start then bool_decide (buffer !! Z.to_nat (start - 1) = Some 10) else o_at_line_boundary s in
    let tail := decode_from rest in
    set_window tail (byte_len tail) boundary s.

(** [src: travis/coding_agent/tools/output_spool.py:186-206 OutputSpool._append_text] *)
Definition _append_text (t : text) (s : output_spool) : output_spool :=
  match t with
  | [] => s
  | _ =>
      let encoded_size := byte_len t in
      let total := o_total_bytes s + encoded_size in
      let s1 := set_window (o_tail s ++ t) (o_tail_bytes s + encoded_size) (o_at_line_boundary s) s in
      let s2 := if o_max_rolling s1 * 2 <? o_tail_bytes s1 then _trim_tail s1 else s1 in
      let newline_count := count_nl t in
      let tail := after_last_nl t in
      let completed := if newline_count =? 0 then o_completed_lines s2 else o_completed_lines s2 + newline_count in
      let last_line := if newline_count =? 0 then o_last_line_bytes s2 + encoded_size else byte_len tail in
      let open := if newline_count =? 0 then true else negb (bool_decide (tail = [])) in
      let lines := completed + Z.b2z open in
      set_counters total completed lines open last_line
        ((o_max_lines s2 <? lines) || (o_max_bytes s2 <? total)) s2
  end.

Inductive output_exn : Type := OutputRuntimeError (message : string).

(** [src: travis/coding_agent/tools/output_spool.py:73-78 OutputSpool.append] *)
Definition append_output (data : bytes) (s : output_spool) : result output_exn unit * output_spool :=
  if o_finished s then (Err (OutputRuntimeError "Cannot append to a finished output spool"), s)
  else
    let d := feed (o_decoder s) data in
    (Ok tt, _append_text (replace_errors d.1) (set_input (o_file s ++ data) d.2 false s)).

(** [src: travis/coding_agent/tools/output_spool.py:80-86 OutputSpool.finish] *)
Definition finish_output (s : output_spool) : output_spool :=
  if o_finished s then s
  else _append_text (replace_errors (flush (o_decoder s))) (set_input (o_file s) [] true s).

(** [src: travis/coding_agent/tools/output_spool.py:222-226 OutputSpool._snapshot_text] *)
Fixpoint after_first_nl (t : text) : option text :=
  match t with
  | [] => None
  | c :: t' => if c =? newline then Some t' else after_first_nl t'
  end.

(** [src: travis/coding_agent/tools/output_spool.py:222-226 OutputSpool._snapshot_text] *)
Definition _snapshot_text (s : output_spool) : text :=
  if o_at_line_boundary s then o_tail s else default (o_tail s) (after_first_nl (o_tail s)).

(** [src: travis/coding_agent/tools/output_spool.py:151-180 OutputSpool._persist_completed_artifact] *)
Definition _persist_completed_artifact (registry : option artifact_registry) (s : output_spool) : output_spool :=
  match registry with
  | Some reg =>
      if o_finished s && o_preserve s && bool_decide (o_artifact s = None) && bool_decide (o_unavailable s = None) then
        let unavailable := [117; 110; 97; 118; 97; 105; 108; 97; 98; 108; 101] in
        let standard := [65; 114; 116; 105; 102; 97; 99; 116; 32; 115; 116; 111; 114; 97; 103; 101; 32; 105; 115; 32;
                         117; 110; 97; 118; 97; 105; 108; 97; 98; 108; 101] in
        match ar_answer reg with
        | ArtifactOk id => set_artifact (Some id) (o_unavailable s) s
        | ArtifactPromotionError code message =>
            let m := take 240 (join_space (words [] message)) in
            set_artifact (o_artifact s) (Some (code, match m with [] => standard | _ => m end)) s
        | ArtifactOSError => set_artifact (o_artifact s) (Some (unavailable, standard)) s
        end
      else s
  | None => s
  end.

(** [src: travis/coding_agent/tools/output_spool.py:22-28 OutputSnapshot]; whether the path of the
    file is given. *)
Record OutputSnapshot := {
  sn_content : text;
  sn_truncation : TruncationResult;
  sn_has_path : bool;
  sn_artifact : option text;
  sn_unavailable : option (text * text);
}.

(** [src: travis/coding_agent/tools/output_spool.py:88-132 OutputSpool.snapshot] *)
Definition snapshot_output (registry : option artifact_registry) (persist_if_truncated : bool) (s : output_spool)
    : OutputSnapshot * output_spool :=
  let tail := truncate_tail (_snapshot_text s) (o_max_lines s) (o_max_bytes s) in
  let truncated := (o_max_lines s <? o_total_lines s) || (o_max_bytes s <? o_total_bytes s) in
  let by_ :=
    if truncated then
      match tr_truncated_by tail with
      | Some b => Some b
      | None => if o_max_bytes s <? o_total_bytes s then Some ByBytes else Some ByLines
      end
    else None in
  let s1 := set_outcome truncated by_ (o_preserve s || (persist_if_truncated && truncated)) s in
  let s2 := if persist_if_truncated && truncated then _persist_completed_artifact registry s1 else s1 in
  ({| sn_content := tr_content tail;
      sn_truncation :=
        {| tr_content := tr_content tail; tr_truncated := truncated; tr_truncated_by := by_;
           tr_output_lines := tr_output_lines tail; tr_total_lines := o_total_lines s2;
           tr_first_line_exceeds_limit := false; tr_total_bytes := o_total_bytes s2;
           tr_output_bytes := tr_output_bytes tail; tr_last_line_partial := tr_last_line_partial tail;
           tr_max_lines := o_max_lines s2; tr_max_bytes := o_max_bytes s2 |};
      sn_has_path := o_preserve s2 && negb (match registry with Some reg => ar_durable reg | None => false end);
      sn_artifact := o_artifact s2; sn_unavailable := o_unavailable s2 |}, s2).

(** [src: travis/coding_agent/tools/output_spool.py:134-149 OutputSpool.close] *)
Definition close_output (registry : option artifact_registry) (s : output_spool) : output_spool :=
  if o_closed s then s
  else
    let s1 := _persist_completed_artifact registry (finish_output s) in
    set_closed (negb (o_preserve s1) || match registry with Some reg => ar_durable reg | None => false end) s1.

(** ** Histories *)
Inductive output_call : Type :=
  | OutAppend (data : bytes)
  | OutFinish
  | OutSnapshot (registry : option artifact_registry) (persist : bool)
  | OutClose (registry : option artifact_registry).

Definition run_output_call (c : output_call) (s : output_spool) : output_spool :=
  match c with
  | OutAppend data => (append_output data s).2
  | OutFinish => finish_output s
  | OutSnapshot registry persist => (snapshot_output registry persist s).2
  | OutClose registry => close_output registry s
  end.
