(* ===== verification/CommandOutputSpec.v ===== *)
(** The rolling window of a command's output, correct.

    The counters are those of the whole text, and the lines cut from the
    window are the lines that truncation of the whole text would have kept:
    trimming the window never changes what is shown.  The one exception, a
    last line longer than the window that is then terminated, is shown to be
    one. *)

From S2P Require Import Prelude Utf8 Truncate TruncateSpec CommandOutput.
Open Scope Z_scope.

(** ** Strings *)

Lemma last_byte c t : scalar c = true → last (encode (t ++ [c])) = Some 10 ↔ c = newline.
Proof.
  intros Hc. rewrite encode_app. cbn [encode flat_map]. rewrite app_nil_r.
  destruct (encode_char_shape c Hc) as (b & bs & He & Hb & Hbs & _). rewrite He.
  destruct bs as [|b' bs' _] using rev_ind.
  - rewrite last_snoc. unfold encode_char in He. destruct (Z.ltb_spec c 128).
    + injection He as ->. unfold newline. naive_solver.
    + exfalso. destruct (c <? 2048), (c <? 65536); discriminate.
  - change (b :: bs' ++ [b']) with ((b :: bs') ++ [b']). rewrite (assoc_L (++)), last_snoc.
    apply Forall_app in Hbs as [_ Hb']. apply Forall_inv in Hb'. split.
    + intros [= ->]. discriminate.
    + intros ->. cbn in He. injection He as <- He. by destruct bs'.
Qed.

Lemma ends_nl_byte t : is_text t → bool_decide (last (encode t) = Some 10) = ends_nl t.
Proof.
  destruct t as [|c t _] using rev_ind; [done|]. intros [_ Hc]%Forall_app. apply Forall_inv in Hc.
  unfold ends_nl. rewrite last_snoc. pose proof (last_byte c t Hc) as Hl. unfold newline in *.
  destruct (Z.eqb_spec c 10) as [->|Hne]; [apply bool_decide_true|apply bool_decide_false]; tauto.
Qed.

Lemma split_nl_app a b : split_nl (a ++ newline :: b) = split_nl a ++ split_nl b.
Proof.
  induction a as [|c a IH]; [done|]. cbn [app split_nl]. rewrite IH. destruct (c =? newline); [done|].
  pose proof (split_nl_nonempty a). by destruct (split_nl a).
Qed.

Lemma ends_nl_inv t : ends_nl t = true → ∃ t', t = t' ++ [newline].
Proof.
  unfold ends_nl. destruct (last t) as [c|] eqn:Hl; [|done]. intros ->%Z.eqb_eq.
  by apply last_Some in Hl.
Qed.

Lemma lines_of t : t ≠ [] → _split_lines_for_counting t = if ends_nl t then removelast (split_nl t) else split_nl t.
Proof. by destruct t. Qed.

(** The lines of a text cut after a newline. *)
Lemma lines_app q u :
  u ≠ [] → _split_lines_for_counting (q ++ [newline] ++ u) = split_nl q ++ _split_lines_for_counting u.
Proof.
  intros Hu. rewrite !lines_of by (try done; by destruct q). rewrite (assoc_L (++)), ends_nl_app by done.
  rewrite <- (assoc_L (++)). cbn [app]. rewrite split_nl_app. destruct (ends_nl u); [|done].
  apply removelast_app. apply split_nl_nonempty.
Qed.

Lemma lines_nonempty t : t ≠ [] → _split_lines_for_counting t ≠ [].
Proof.
  intros Ht. pose proof (join_lines t) as H. intros He. rewrite He in H. cbn in H.
  destruct (ends_nl t); [|done]. subst t. by vm_compute in He.
Qed.

Lemma lines_plain t : t ≠ [] → ends_nl t = false → last (_split_lines_for_counting t) = Some (after_last_nl t).
Proof.
  intros Ht He. rewrite lines_of, He by done. unfold after_last_nl. pose proof (split_nl_nonempty t).
  destruct (last (split_nl t)) eqn:E; [done|]. by apply last_None in E.
Qed.

Lemma plain_no_end t : newline ∉ t → ends_nl t = false.
Proof.
  intros Hn. destruct (ends_nl t) eqn:E; [|done]. apply ends_nl_inv in E as (t' & ->). exfalso. apply Hn.
  apply elem_of_app. right. by left.
Qed.

Lemma after_first_nl_spec t :
  match after_first_nl t with
  | Some u => ∃ l, t = l ++ newline :: u ∧ newline ∉ l
  | None => newline ∉ t
  end.
Proof.
  induction t as [|c t IH]; cbn; [by apply not_elem_of_nil|].
  destruct (Z.eqb_spec c newline) as [->|Hc]; [by exists []; split; [|apply not_elem_of_nil]|].
  destruct (after_first_nl t) as [u|].
  - destruct IH as (l & -> & Hl). exists (c :: l). split; [done|]. by apply not_elem_of_cons.
  - by apply not_elem_of_cons.
Qed.

(** ** Truncation of a window *)
Section window.
Variables max_lines max_bytes : Z.
Hypothesis max_lines_pos : 1 <= max_lines.
Hypothesis max_bytes_nonneg : 0 <= max_bytes.

Lemma longest_tail_unique lines k1 k2 :
  longest_tail max_lines max_bytes lines k1 → longest_tail max_lines max_bytes lines k2 → k1 = k2.
Proof.
  intros (a & -> & Ha & Hal & Hab & Hamax) (b & -> & Hb & Hbl & Hbb & Hbmax).
  assert (a = b); [|by subst]. assert (b <= a)%nat by (by apply Hamax). assert (a <= b)%nat by (by apply Hbmax). lia.
Qed.

Lemma longest_ending_unique line e1 e2 :
  longest_ending max_bytes line e1 → longest_ending max_bytes line e2 → e1 = e2.
Proof.
  intros (a & -> & Ha & Hamin) (b & -> & Hb & Hbmin). assert (a = b); [|by subst].
  destruct (Nat.lt_trichotomy a b) as [H|[H|H]]; [|done|].
  - specialize (Hbmin a H). lia.
  - specialize (Hamin b H). lia.
Qed.

Lemma longest_ending_extend x line e :
  max_bytes < byte_len line → longest_ending max_bytes line e → longest_ending max_bytes (x ++ line) e.
Proof.
  intros Hlt (n & -> & Hb & Hmin). exists (length x + n)%nat. split_and!; [|done|].
  - by rewrite drop_app_add.
  - intros m Hm. destruct (decide (m < length x)%nat) as [Hx|Hx].
    + rewrite drop_app_le, byte_len_app by lia. pose proof (byte_len_nonneg (drop m x)). lia.
    + rewrite drop_app_ge by lia. apply Hmin. lia.
Qed.

(** Earlier lines do not matter, when the last of them does not fit with the others. *)
Lemma longest_tail_extend earlier line lines kept :
  max_bytes < byte_len (join_nl (line :: lines)) →
  longest_tail max_lines max_bytes lines kept → longest_tail max_lines max_bytes (earlier ++ line :: lines) kept.
Proof.
  intros Hover (k & -> & Hk & Hkl & Hkb & Hmax). set (all := earlier ++ line :: lines).
  assert (∀ j, (j <= length lines)%nat → drop (length all - j) all = drop (length lines - j) lines) as Hdrop.
  { intros j Hj. unfold all. rewrite length_app. cbn [length].
    replace (length earlier + S (length lines) - j)%nat with (length earlier + S (length lines - j))%nat by lia.
    by rewrite drop_app_add. }
  assert (length all = length earlier + S (length lines))%nat as Hlen by (unfold all; by rewrite length_app).
  exists k. rewrite Hdrop by done. split_and!; [done|lia|done|done|].
  intros j Hj Hjl Hjb. destruct (decide (j <= length lines)%nat) as [Hle|Hgt].
  - rewrite Hdrop in Hjb by done. by apply Hmax.
  - exfalso. pose proof (byte_len_join_drop_le all (length all - j) (length all - S (length lines)) ltac:(lia)) as Hd.
    replace (drop (length all - S (length lines)) all) with (line :: lines) in Hd; [lia|].
    unfold all. rewrite length_app. cbn [length].
    replace (length earlier + S (length lines) - S (length lines))%nat with (length earlier + 0)%nat by lia.
    by rewrite drop_app_add.
Qed.

(** Contents that show the same lines. *)
Definition same_lines (shown reference : text) : Prop :=
  shown = reference ∨ shown = reference ++ [newline].

(** A window that begins after a newline. *)
Lemma window_after_newline q u :
  is_text (q ++ [newline] ++ u) → u ≠ [] → max_bytes < byte_len (after_last_nl q) + byte_len u →
  same_lines (tr_content (truncate_tail u max_lines max_bytes))
    (tr_content (truncate_tail (q ++ [newline] ++ u) max_lines max_bytes)).
Proof using max_lines_pos max_bytes_nonneg.
  intros Ht Hu Hover.
  assert (is_text u) as Htu by (apply Forall_app in Ht as [_ Ht2]; by apply Forall_app in Ht2 as [_ ?]).
  destruct (truncate_tail_summary u max_lines max_bytes Htu ltac:(lia) ltac:(lia)) as (_ & _ & _ & _ & Hp1 & Hc1 & _).
  destruct (truncate_tail_summary _ max_lines max_bytes Ht ltac:(lia) ltac:(lia)) as (Hb2 & _ & _ & _ & Hp2 & Hc2 & _).
  pose proof (lines_app q u Hu) as Hlines. pose proof (lines_nonempty u Hu) as Hne. pose proof (join_lines u) as Hj.
  rewrite Hlines in Hp2, Hc2. set (lu := _split_lines_for_counting u) in *.
  set (t := q ++ [newline] ++ u) in *.
  assert (last (split_nl q ++ lu) = last lu) as Hlast.
  { rewrite last_app. destruct (last lu) eqn:E; [done|]. by apply last_None in E. }
  rewrite Hlast in Hp2, Hc2.
  assert (tr_last_line_partial (truncate_tail u max_lines max_bytes) =
    tr_last_line_partial (truncate_tail t max_lines max_bytes)) as Hpp.
  { destruct (tr_last_line_partial _), (tr_last_line_partial _); try done; [symmetry|]; tauto. }
  rewrite <- Hpp in Hc2. destruct (tr_last_line_partial (truncate_tail u _ _)).
  - destruct Hc1 as (_ & _ & l1 & Hl1 & _ & He1), Hc2 as (_ & _ & l2 & Hl2 & _ & He2).
    rewrite Hl1 in Hl2. injection Hl2 as <-. left. by eapply longest_ending_unique.
  - destruct Hc1 as [(k1 & Hk1 & _ & Hs1) _], Hc2 as [(k2 & Hk2 & _ & Hs2) _].
    assert (byte_len u - 1 <= byte_len (join_nl lu)) as Hjl.
    { apply (f_equal byte_len) in Hj. rewrite byte_len_app in Hj.
      destruct (ends_nl u); [change (byte_len [newline]) with 1 in Hj|change (byte_len []) with 0 in Hj]; lia. }
    assert (k1 = k2) as <-.
    { destruct (exists_last (split_nl_nonempty q)) as (earlier & line & Hq). unfold after_last_nl in Hover.
      rewrite Hq in Hover, Hk2. rewrite last_snoc in Hover. cbn [default] in Hover. unfold id in Hover.
      rewrite <- (assoc_L (++)) in Hk2. eapply longest_tail_unique; [|exact Hk2].
      apply longest_tail_extend; [|done]. rewrite byte_len_join_cons.
      assert (sep lu = 1) as -> by (by destruct lu). lia. }
    assert (tr_content (truncate_tail t max_lines max_bytes) = join_nl k1) as ->.
    { destruct Hs2 as [->|[_ Hs2]]; [done|]. exfalso. rewrite Hs2 in Hb2. unfold t in Hb2.
      rewrite !byte_len_app in Hb2. pose proof (byte_len_nonneg [newline]).
      assert (byte_len (after_last_nl q) <= byte_len q); [|lia].
      rewrite <- (join_split q) at 2. destruct (exists_last (split_nl_nonempty q)) as (earlier & line & Hq).
      unfold after_last_nl. apply last_le. rewrite Hq, last_snoc. done. }
    destruct Hs1 as [->|[-> ->]]; [by left|]. destruct (ends_nl u); [by right|left]. by rewrite app_nil_r in Hj.
Qed.

(** A window inside the last line. *)
Lemma window_inside_line p u :
  is_text (p ++ u) → newline ∉ u → max_bytes < byte_len u →
  tr_content (truncate_tail u max_lines max_bytes) = tr_content (truncate_tail (p ++ u) max_lines max_bytes).
Proof using max_lines_pos max_bytes_nonneg.
  intros Ht Hn Hlt. assert (u ≠ []) as Hu by (intros ->; change (byte_len []) with 0 in Hlt; lia).
  assert (is_text u) as Htu by (by apply Forall_app in Ht as [_ ?]).
  destruct (truncate_tail_summary u max_lines max_bytes Htu ltac:(lia) ltac:(lia)) as (_ & _ & _ & _ & Hp1 & Hc1 & _).
  destruct (truncate_tail_summary _ max_lines max_bytes Ht ltac:(lia) ltac:(lia)) as (_ & _ & _ & _ & Hp2 & Hc2 & _).
  rewrite lines_plain in Hp1, Hc1 by (done || by apply plain_no_end).
  rewrite lines_plain in Hp2, Hc2 by ((by destruct p) || (rewrite ends_nl_app by done; by apply plain_no_end)).
  rewrite after_last_plain in Hp1, Hc1 by done. rewrite after_last_app, bool_decide_false in Hp2, Hc2 by done.
  rewrite (proj2 Hp1) in Hc1 by (split; [done|]; by exists u).
  rewrite (proj2 Hp2) in Hc2.
  2:{ split; [done|]. eexists. split; [done|]. rewrite byte_len_app. pose proof (byte_len_nonneg (after_last_nl p)). lia. }
  destruct Hc1 as (_ & _ & l1 & [= <-] & _ & He1), Hc2 as (_ & _ & l2 & [= <-] & _ & He2).
  eapply longest_ending_unique; [|exact He2]. by apply longest_ending_extend.
Qed.
End window.

(** ** The invariant of the window *)

(** The spool [s] after a text [t], of which the window has dropped [p]. *)
Record window_inv (t p : text) (s : output_spool) : Prop := {
  wi_text : is_text t;
  wi_split : t = p ++ o_tail s;
  wi_bytes : o_tail_bytes s = byte_len (o_tail s);
  wi_rolling : o_max_rolling s = Z.max (o_max_bytes s * 2) 1;
  wi_boundary : o_at_line_boundary s = bool_decide (p = []) || ends_nl p;
  wi_kept : p ≠ [] → o_max_rolling s - 3 <= byte_len (o_tail s);
  wi_total : o_total_bytes s = byte_len t;
  wi_completed : o_completed_lines s = count_nl t;
  wi_open : o_open_line s = bool_decide (t ≠ []) && negb (ends_nl t);
  wi_lines : o_total_lines s = line_count t;
  wi_last_line : o_last_line_bytes s = byte_len (after_last_nl t);
  wi_decoder : pending_ok (o_decoder s);
}.

Lemma lookup_last {A} (l : list A) : l !! (length l - 1)%nat = last l.
Proof. destruct l as [|x l _] using rev_ind; [done|]. rewrite last_snoc, length_app. cbn. by rewrite Nat.add_sub, lookup_app_r, Nat.sub_diag by lia. Qed.

Lemma trim_inv t p s :
  window_inv t p s → o_max_rolling s < o_tail_bytes s → ∃ p', window_inv t p' (_trim_tail s).
Proof.
  intros [] Hbig. assert (is_text (o_tail s)) as Ht by (rewrite wi_split0 in wi_text0; by apply Forall_app in wi_text0 as [_ ?]).
  rewrite wi_bytes0 in Hbig. assert (1 <= o_max_rolling s) as Hmr by lia.
  unfold _trim_tail. change (Z.of_nat (length (encode (o_tail s)))) with (byte_len (o_tail s)).
  rewrite (proj2 (Z.leb_gt _ _)) by done.
  destruct (skip_drop (o_tail s) (Z.to_nat (byte_len (o_tail s) - o_max_rolling s)) Ht) as (m & -> & Hm & Hmax).
  { unfold byte_len. lia. }
  rewrite Z2Nat.id in Hm, Hmax by lia.
  unfold decode_from. rewrite decode_strict_encode by (by apply Forall_drop).
  change (Z.of_nat (length (encode (drop m (o_tail s))))) with (byte_len (drop m (o_tail s))).
  destruct m as [|m]; [rewrite drop_0 in Hm; lia|].
  pose proof (f_equal byte_len (take_drop (S m) (o_tail s))) as Hsum. rewrite byte_len_app in Hsum.
  set (a := take (S m) (o_tail s)) in *. set (b := drop (S m) (o_tail s)) in *.
  assert (is_text a) as Hta by (by apply Forall_take).
  assert (a ≠ []) as Hne. { intros He. rewrite He in Hsum. change (byte_len []) with 0 in Hsum. lia. }
  pose proof (byte_len_nonneg b).
  rewrite (proj2 (Z.ltb_lt 0 _)) by lia.
  assert (o_tail s = a ++ b) as Hab by (unfold a, b; by rewrite take_drop).
  assert (bool_decide (encode (o_tail s) !! Z.to_nat (byte_len (o_tail s) - byte_len b - 1) = Some 10) = ends_nl a) as ->.
  { assert (encode (o_tail s) = encode a ++ encode b) as Henc by (by rewrite <- encode_app, <- Hab).
    rewrite <- ends_nl_byte, <- lookup_last by done.
    replace (Z.to_nat (byte_len (o_tail s) - byte_len b - 1)) with (length (encode a) - 1)%nat
      by (unfold byte_len in *; lia).
    rewrite Henc; apply bool_decide_ext; unfold bytes in *; rewrite lookup_app_l; [done|]. pose proof (encode_nil_inv a). destruct (encode a); [|cbn; lia]. naive_solver. }
  exists (p ++ a). split; cbn; try done.
  - by rewrite <- (assoc_L (++)), <- Hab.
  - rewrite bool_decide_false by (by destruct p). by rewrite ends_nl_app.
  - intros _. specialize (Hmax m ltac:(lia)).
    assert (byte_len (drop m (o_tail s)) <= byte_len b + 4); [|lia].
    unfold b. replace (S m) with (m + 1)%nat by lia. rewrite <- drop_drop.
    assert (is_text (drop m (o_tail s))) as Hd by (by apply Forall_drop).
    destruct Hd as [|c r Hc Hr]; [change (byte_len (drop 1 [])) with 0; change (byte_len []) with 0; lia|].
    cbn [drop]. rewrite drop_0, byte_len_cons. destruct (encode_char_shape c Hc) as (b0 & bs & -> & _ & _ & _ & Hl). cbn [length]. lia.
Qed.

Lemma count_nl_zero t : count_nl t = 0 ↔ newline ∉ t.
Proof.
  unfold count_nl. induction t as [|c t IH]; cbn [List.filter].
  - split; [intros _; apply not_elem_of_nil|done].
  - destruct (Z.eqb_spec c newline) as [->|Hc]; cbn [length].
    + split; [lia|]. intros Hn. exfalso. apply Hn. by left.
    + rewrite IH, not_elem_of_cons. naive_solver.
Qed.

(** Counting a text that is not empty. *)
Lemma counters_inv t p s u :
  u ≠ [] → is_text u →
  window_inv t p s →
  let last_line := if count_nl u =? 0 then o_last_line_bytes s + byte_len u else byte_len (after_last_nl u) in
  let completed := if count_nl u =? 0 then o_completed_lines s else o_completed_lines s + count_nl u in
  let open := if count_nl u =? 0 then true else negb (bool_decide (after_last_nl u = [])) in
  last_line = byte_len (after_last_nl (t ++ u)) ∧ completed = count_nl (t ++ u) ∧
  open = bool_decide (t ++ u ≠ []) && negb (ends_nl (t ++ u)) ∧ completed + Z.b2z open = line_count (t ++ u).
Proof.
  intros Hu Htu []. cbv zeta.
  assert (t ++ u ≠ []) as Htune by (by destruct t).
  assert (∀ n o, n = count_nl (t ++ u) → o = bool_decide (t ++ u ≠ []) && negb (ends_nl (t ++ u)) → n + Z.b2z o = line_count (t ++ u)) as Hlc.
  { intros n o -> ->. rewrite bool_decide_true by done. unfold line_count. by destruct (t ++ u). }
  assert (bool_decide (t ++ u ≠ []) && negb (ends_nl (t ++ u)) = negb (ends_nl u)) as Hopen
    by (by rewrite bool_decide_true, ends_nl_app).
  destruct (Z.eqb_spec (count_nl u) 0) as [H0|H0].
  - pose proof (proj1 (count_nl_zero u) H0) as Hn.
    assert (o_completed_lines s = count_nl (t ++ u)) as Hc by (rewrite count_nl_app; lia).
    assert (true = bool_decide (t ++ u ≠ []) && negb (ends_nl (t ++ u))) as Ho by (by rewrite Hopen, plain_no_end).
    split_and!; [|done|done|by apply Hlc].
    rewrite after_last_app, bool_decide_false, byte_len_app by done. lia.
  - assert (newline ∈ u) as Hn. { destruct (decide (newline ∈ u)) as [|Hn]; [done|]. by apply count_nl_zero in Hn. }
    assert (negb (bool_decide (after_last_nl u = [])) = bool_decide (t ++ u ≠ []) && negb (ends_nl (t ++ u))) as Ho.
    { rewrite Hopen. f_equal. destruct (ends_nl u) eqn:E.
      - apply ends_nl_inv in E as (u' & ->). apply bool_decide_true.
        by rewrite after_last_app, bool_decide_true by (by left).
      - apply bool_decide_false. intros He. pose proof (join_split u) as Hj. unfold after_last_nl in He.
        destruct (exists_last (split_nl_nonempty u)) as (ls & l & Hl). rewrite Hl, last_snoc in He. cbn in He. subst l.
        destruct ls as [|l0 ls]; [by rewrite Hl in Hj|]. rewrite Hl, join_snoc in Hj by done.
        rewrite <- Hj in E. unfold ends_nl in E. by rewrite last_snoc in E. }
    split_and!; [|rewrite count_nl_app; lia|done|apply Hlc; [rewrite count_nl_app; lia|done]].
    by rewrite after_last_app, bool_decide_true.
Qed.

Lemma append_text_inv t p s u :
  window_inv t p s → is_text u → ∃ p', window_inv (t ++ u) p' (_append_text u s).
Proof.
  intros Hinv Hu. destruct u as [|c u'] eqn:Eu; [rewrite app_nil_r; by exists p|]. rewrite <- Eu in *.
  assert (u ≠ []) as Hne by (by rewrite Eu).
  assert (_append_text u s = _append_text (c :: u') s) as -> by (by rewrite Eu). unfold _append_text. rewrite <- Eu.
  destruct (counters_inv t p s u Hne Hu Hinv) as (H1 & H2 & H3 & H4).
  set (s1 := set_window (o_tail s ++ u) (o_tail_bytes s + byte_len u) (o_at_line_boundary s) s).
  assert (is_text (t ++ u)) as Htu by (apply Forall_app; split; [apply Hinv|done]).
  (* the window of the longer text, with the counters of the shorter one *)
  set (n := set_counters (byte_len (t ++ u)) (count_nl (t ++ u)) (line_count (t ++ u))
    (bool_decide (t ++ u ≠ []) && negb (ends_nl (t ++ u))) (byte_len (after_last_nl (t ++ u)))).
  assert (∀ b, window_inv (t ++ u) p (n b s1)) as Hs1.
  { intros b. destruct Hinv. split; cbn; try done.
    - by rewrite (assoc_L (++)), <- wi_split0.
    - by rewrite byte_len_app, wi_bytes0.
    - intros Hp. specialize (wi_kept0 Hp). rewrite byte_len_app. pose proof (byte_len_nonneg u). lia. }
  assert (∀ b s', n b (_trim_tail s') = _trim_tail (n b s')) as Hcomm.
  { intros b s'. unfold _trim_tail. cbn. by destruct (_ <=? _). }
  assert (∀ s2, s2 = s1 ∨ s2 = _trim_tail s1 → o_completed_lines s2 = o_completed_lines s ∧ o_last_line_bytes s2 = o_last_line_bytes s) as Hsame.
  { intros s2 [->| ->]; [done|]. unfold _trim_tail. by destruct (_ <=? _). }
  set (s2 := if o_max_rolling s1 * 2 <? o_tail_bytes s1 then _trim_tail s1 else s1).
  assert (s2 = s1 ∨ s2 = _trim_tail s1) as Hs2 by (unfold s2; destruct (_ <? _); auto).
  destruct (Hsame s2 Hs2) as [-> ->]. rewrite H1, H2, H3.
  assert (o_total_bytes s + byte_len u = byte_len (t ++ u)) as -> by (rewrite byte_len_app, (wi_total _ _ _ Hinv); done).
  rewrite H2, H3 in H4. rewrite H4. fold (n ((o_max_lines s2 <? line_count (t ++ u)) || (o_max_bytes s2 <? byte_len (t ++ u))) s2).
  set (flag := _ || _). clearbody flag.
  destruct (Z.ltb_spec (o_max_rolling s1 * 2) (o_tail_bytes s1)) as [Hbig|].
  - assert (s2 = _trim_tail s1) as -> by done.
    rewrite Hcomm. apply (trim_inv _ p); [done|]. cbn in *. pose proof (wi_rolling _ _ _ Hinv). lia.
  - assert (s2 = s1) as -> by done. by exists p.
Qed.

(** ** Histories *)

(** A spool reached by calls, with the bytes that were accepted. *)
Inductive output_reachable (max_lines max_bytes : Z) : output_spool → bytes → Prop :=
  | out_new : output_reachable max_lines max_bytes (new_output_spool max_lines max_bytes) []
  | out_call s d c :
      output_reachable max_lines max_bytes s d →
      output_reachable max_lines max_bytes (run_output_call c s)
        (d ++ match c with OutAppend data => if o_finished s then [] else data | _ => [] end).

(** The text of the bytes so far: without the bytes of an unfinished character, or finished. *)
Definition output_text (d : bytes) (finished : bool) : text :=
  if finished then decode_replace d else replace_errors (feed [] d).1.

Definition output_inv (max_lines max_bytes : Z) (d : bytes) (s : output_spool) : Prop :=
  o_max_lines s = max_lines ∧ o_max_bytes s = max_bytes ∧ o_file s = d ∧
  (o_finished s = false → o_decoder s = (feed [] d).2) ∧
  ∃ p, window_inv (output_text d (o_finished s)) p s.

(** Calls that do not touch the window. *)
Definition same_window (s s' : output_spool) : Prop :=
  o_max_lines s' = o_max_lines s ∧ o_max_bytes s' = o_max_bytes s ∧ o_file s' = o_file s ∧
  o_decoder s' = o_decoder s ∧ o_finished s' = o_finished s ∧ o_tail s' = o_tail s ∧
  o_tail_bytes s' = o_tail_bytes s ∧ o_max_rolling s' = o_max_rolling s ∧
  o_at_line_boundary s' = o_at_line_boundary s ∧ o_total_bytes s' = o_total_bytes s ∧
  o_completed_lines s' = o_completed_lines s ∧ o_total_lines s' = o_total_lines s ∧
  o_open_line s' = o_open_line s ∧ o_last_line_bytes s' = o_last_line_bytes s.

Lemma same_window_inv max_lines max_bytes d s s' :
  same_window s s' → output_inv max_lines max_bytes d s → output_inv max_lines max_bytes d s'.
Proof.
  intros (E1 & E2 & E3 & E4 & E5 & E6 & E7 & E8 & E9 & E10 & E11 & E12 & E13 & E14) (H1 & H2 & H3 & H4 & p & []).
  split_and!; [congruence|congruence|congruence|by rewrite E5, E4|]. exists p. rewrite E5.
  by split; rewrite ?E2, ?E4, ?E6, ?E7, ?E8, ?E9, ?E10, ?E11, ?E12, ?E13, ?E14.
Qed.

Lemma persist_same registry s : same_window s (_persist_completed_artifact registry s).
Proof.
  unfold _persist_completed_artifact. destruct registry as [reg|]; [|by repeat split].
  destruct (_ && _); [|by repeat split]. destruct (ar_answer reg); by repeat split.
Qed.

Lemma same_window_trans s1 s2 s3 : same_window s1 s2 → same_window s2 s3 → same_window s1 s3.
Proof. unfold same_window. intuition congruence. Qed.

Lemma snapshot_same registry persist s : same_window s (snapshot_output registry persist s).2.
Proof.
  unfold snapshot_output. cbn [snd]. destruct (persist && _); [|by repeat split].
  eapply same_window_trans; [|apply persist_same]. by repeat split.
Qed.

Lemma append_text_fixed u s :
  o_max_lines (_append_text u s) = o_max_lines s ∧ o_max_bytes (_append_text u s) = o_max_bytes s ∧
  o_file (_append_text u s) = o_file s ∧ o_decoder (_append_text u s) = o_decoder s ∧
  o_finished (_append_text u s) = o_finished s.
Proof.
  unfold _append_text. destruct u as [|c u]; [done|]. cbn.
  destruct (_ <? _); [|done]. unfold _trim_tail. by destruct (_ <=? _).
Qed.

Lemma window_set_input t p file decoder finished s :
  window_inv t p s → pending_ok decoder → window_inv t p (set_input file decoder finished s).
Proof. intros [] Hd. by split. Qed.

Lemma finish_output_inv max_lines max_bytes d s :
  output_inv max_lines max_bytes d s → output_inv max_lines max_bytes d (finish_output s) ∧ o_finished (finish_output s) = true.
Proof.
  intros (H1 & H2 & H3 & H4 & p & Hw). unfold finish_output. destruct (o_finished s) eqn:Hf; [by split; [split_and!; eauto; exists p; rewrite Hf|]|].
  destruct (append_text_fixed (replace_errors (flush (o_decoder s))) (set_input (o_file s) [] true s)) as (E1 & E2 & E3 & E4 & E5).
  destruct (append_text_inv (output_text d false) p (set_input (o_file s) [] true s) (replace_errors (flush (o_decoder s))))
    as (p' & Hp').
  { by apply window_set_input. }
  { apply replace_errors_text. unfold flush. destruct (o_decoder s); by repeat constructor. }
  split; [|by rewrite E5]. unfold output_inv. rewrite E1, E2, E3, E4, E5. cbn. split_and!; try done. exists p'.
  replace (decode_replace d) with (output_text d false ++ replace_errors (flush (o_decoder s))); [done|].
  unfold output_text, decode_replace, replace_errors. by rewrite map_app, (H4 eq_refl).
Qed.

Lemma output_reachable_inv max_lines max_bytes s d :
  output_reachable max_lines max_bytes s d → output_inv max_lines max_bytes d s.
Proof.
  induction 1 as [|s d c Hr IH].
  { split_and!; try done. exists []. split; cbn; try done. constructor. }
  destruct c as [data| |registry persist|registry]; cbn [run_output_call].
  - unfold append_output. destruct (o_finished s) eqn:Hf; cbn [snd]; [by rewrite app_nil_r|].
    destruct IH as (H1 & H2 & H3 & H4 & p & Hw). rewrite Hf in Hw.
    destruct (feed_sound (o_decoder s) data (wi_decoder _ _ _ Hw)) as (Hp & Hok & _).
    set (s1 := set_input (o_file s ++ data) (feed (o_decoder s) data).2 false s).
    destruct (append_text_fixed (replace_errors (feed (o_decoder s) data).1) s1) as (E1 & E2 & E3 & E4 & E5).
    destruct (append_text_inv (output_text d false) p s1 (replace_errors (feed (o_decoder s) data).1)) as (p' & Hp').
    { by apply window_set_input. }
    { by apply replace_errors_text. }
    assert (feed [] (d ++ data) = ((feed [] d).1 ++ (feed (o_decoder s) data).1, (feed (o_decoder s) data).2)) as Hfeed
      by (rewrite feed_app; cbv zeta; by rewrite (H4 Hf)).
    unfold output_inv. rewrite E1, E2, E3, E4, E5. split_and!; [done|done|by cbn; rewrite H3|by rewrite Hfeed|].
    exists p'. change (o_finished s1) with false. unfold output_text in *. rewrite Hfeed. unfold replace_errors in *.
    cbn [fst]. by rewrite map_app.
  - rewrite app_nil_r. by apply finish_output_inv.
  - rewrite app_nil_r. eapply same_window_inv; [apply snapshot_same|done].
  - rewrite app_nil_r. unfold close_output. destruct (o_closed s); [done|].
    eapply (same_window_inv _ _ _ (finish_output s)); [|by apply finish_output_inv].
    eapply same_window_trans; [apply persist_same|]. by repeat split.
Qed.

(** What the window begins with, against the whole text. *)
Lemma snapshot_text_same_lines t p s max_lines :
  window_inv t p s → 1 <= max_lines → 5 <= o_max_bytes s →
  _snapshot_text s ≠ [] ∨ byte_len t <= o_max_bytes s →
  same_lines (tr_content (truncate_tail (_snapshot_text s) max_lines (o_max_bytes s)))
    (tr_content (truncate_tail t max_lines (o_max_bytes s))).
Proof.
  intros [] Hl Hb Hcase. unfold _snapshot_text in *. rewrite wi_boundary0 in *.
  destruct p as [|c p0] eqn:Ep; [rewrite wi_split0; by left|]. rewrite <- Ep in *.
  assert (p ≠ []) as Hp by (by rewrite Ep). clear Ep c p0. specialize (wi_kept0 Hp).
  rewrite bool_decide_false in * by done. cbn [orb] in *.
  assert (o_max_bytes s + 1 < byte_len (o_tail s)) as Hbig by lia.
  assert (¬ byte_len t <= o_max_bytes s) as Hnot.
  { rewrite wi_split0, byte_len_app. pose proof (byte_len_nonneg p). lia. }
  assert (∀ w : text, w ≠ [] ∨ byte_len t <= o_max_bytes s → w ≠ []) as Hne by tauto.
  destruct (ends_nl p) eqn:He.
  - apply ends_nl_inv in He as (q & ->). specialize (Hne _ Hcase).
    rewrite wi_split0, <- (assoc_L (++)) in wi_text0 |- *. apply window_after_newline; [lia|lia|done|done|].
    pose proof (byte_len_nonneg (after_last_nl q)). lia.
  - pose proof (after_first_nl_spec (o_tail s)) as Haf. destruct (after_first_nl (o_tail s)) as [u|]; cbn [default] in *.
    + unfold id in *. specialize (Hne _ Hcase). destruct Haf as (l & Hlu & Hl'). rewrite Hlu, byte_len_app, byte_len_newline in wi_kept0.
      assert (t = (p ++ l) ++ [newline] ++ u) as Et by (rewrite wi_split0, Hlu; by rewrite <- (assoc_L (++))).
      rewrite Et in wi_text0 |- *. apply window_after_newline; [lia|lia|done|done|].
      rewrite after_last_app, bool_decide_false, byte_len_app by done. pose proof (byte_len_nonneg (after_last_nl p)). lia.
    + left. rewrite wi_split0 in wi_text0 |- *. apply window_inside_line; [lia|lia|done|done|lia].
Qed.

(** what a snapshot shows of a command's output, after any history of appends, snapshots,
    finish and close.  The file holds the bytes; the reported sizes, line counts and the truncation
    flag are those of the whole text; and the shown content has the lines that [truncate_tail]
    of the whole text keeps (up to a final newline): the trimming of the window is invisible,
    unless the last line alone overflowed it and was then ended. *)
Theorem snapshot_shows_tail max_lines max_bytes s d registry persist :
  output_reachable max_lines max_bytes s d → 1 <= max_lines → 5 <= max_bytes →
  let t := output_text d (o_finished s) in
  let sn := (snapshot_output registry persist s).1 in
  o_file s = d ∧ tr_total_bytes (sn_truncation sn) = byte_len t ∧ tr_total_lines (sn_truncation sn) = line_count t ∧
  tr_truncated (sn_truncation sn) = (max_lines <? line_count t) || (max_bytes <? byte_len t) ∧
  o_last_line_bytes s = byte_len (after_last_nl t) ∧
  byte_len (sn_content sn) <= max_bytes ∧
  (_snapshot_text s ≠ [] ∨ byte_len t <= max_bytes →
   same_lines (sn_content sn) (tr_content (truncate_tail t max_lines max_bytes))).
Proof.
  intros (H1 & H2 & H3 & H4 & p & Hw)%output_reachable_inv Hl Hb. cbv zeta.
  destruct (snapshot_same registry persist s) as (_ & _ & _ & _ & _ & _ & _ & _ & _ & E1 & _ & E2 & _).
  unfold snapshot_output in *. cbn [fst snd] in *. cbn [sn_truncation sn_content tr_total_bytes tr_total_lines tr_truncated].
  rewrite E1, E2, (wi_total _ _ _ Hw), (wi_lines _ _ _ Hw), H1, H2. split_and!; try done.
  - apply Hw.
  - assert (is_text (_snapshot_text s)) as Ht.
    { pose proof (wi_text _ _ _ Hw) as Ht. rewrite (wi_split _ _ _ Hw) in Ht. apply Forall_app in Ht as [_ Ht].
      unfold _snapshot_text. destruct (o_at_line_boundary s); [done|].
      pose proof (after_first_nl_spec (o_tail s)) as Ha. destruct (after_first_nl (o_tail s)) as [u|]; [|done].
      destruct Ha as (l & Hlu & _). rewrite Hlu in Ht. apply Forall_app in Ht as [_ Ht]. by apply Forall_cons in Ht as [_ Ht]. }
    by destruct (truncate_tail_content (_snapshot_text s) max_lines max_bytes Ht ltac:(lia) ltac:(lia)) as (_ & ? & _).
  - intros Hc. rewrite <- H2 in *. by apply (snapshot_text_same_lines _ p).
Qed.

(** ** Witnesses *)
Definition run_outputs (cs : list output_call) (s : output_spool) : output_spool := fold_left (λ s c, run_output_call c s) cs s.

(** Eight lines of four bytes through a window of ten. *)
Definition sample_output : output_spool :=
  run_outputs (replicate 8 (OutAppend [195; 169; 33; 10])) (new_output_spool 3 5).

Lemma appends_reachable max_lines max_bytes ds s d :
  output_reachable max_lines max_bytes s d → o_finished s = false →
  output_reachable max_lines max_bytes (run_outputs (map OutAppend ds) s) (d ++ concat ds).
Proof.
  revert s d; induction ds as [|data ds IH]; intros s d Hr Hf; cbn; [by rewrite app_nil_r|].
  rewrite (assoc_L (++)). apply (out_call _ _ _ _ (OutAppend data)) in Hr. rewrite Hf in Hr. apply IH; [done|].
  unfold run_output_call, append_output. rewrite Hf. cbn [snd].
  by destruct (append_text_fixed (replace_errors (feed (o_decoder s) data).1)
    (set_input (o_file s ++ data) (feed (o_decoder s) data).2 false s)) as (_ & _ & _ & _ & ->).
Qed.

Lemma sample_output_reachable : output_reachable 3 5 sample_output (concat (replicate 8 [195; 169; 33; 10])).
Proof. apply (appends_reachable 3 5 (replicate 8 [195; 169; 33; 10]) (new_output_spool 3 5) []); [apply out_new|done]. Qed.

Lemma snapshot_shows_tail_witness :
  same_lines (sn_content (snapshot_output None false sample_output).1)
    (tr_content (truncate_tail (output_text (concat (replicate 8 [195; 169; 33; 10])) false) 3 5)) ∧
  (o_tail_bytes sample_output, byte_len (output_text (concat (replicate 8 [195; 169; 33; 10])) false)) = (18, 32).
Proof.
  split; [|vm_compute; reflexivity].
  refine (proj2 (proj2 (proj2 (proj2 (proj2 (proj2
    (snapshot_shows_tail 3 5 sample_output _ None false sample_output_reachable _ _)))))) _); [lia|lia|].
  left. vm_compute. discriminate.
Defined.

(** A last line longer than the window, once ended, is not shown at all. *)
Example long_line_hidden :
  let s := run_outputs [OutAppend (replicate 40 120); OutAppend [10]] (new_output_spool 3 8) in
  sn_content (snapshot_output None false s).1 = [] ∧
  tr_content (truncate_tail (output_text (o_file s) false) 3 8) = replicate 8 120.
Proof. vm_compute. split; reflexivity. Qed.
