(* ===== verification/MessageTranslation.v ===== *)
(** From the messages of a conversation to the messages of a provider
    (travis/ai/providers/message_translation.py, openai_compat.py,
    coding_agent/session_types.py).

    The fields of a message that no function here reads (usage, timestamps, response
    identifiers) are left out.  A message of a provider is a dictionary. *)

From S2P Require Import Prelude PyDict PyFloat Utf8 PyText PyValue JsonLoads Compressor.
Open Scope Z_scope.
Local Notation text := Utf8.text.

(** ** Messages *)

(** [src: travis/ai/types.py:21-40 TextContent, ImageContent] *)
Inductive Part : Type :=
  | TextContent (body : text) (text_signature : option text)
  | ImageContent (data mime_type : text).

(** [src: travis/ai/types.py:43-49 ToolCall] *)
Record ToolCall : Type := {
  call_id : text;
  call_name : text;
  call_arguments : list (text * pv);
  call_thought_signature : option text
}.

(** [src: travis/ai/types.py:28-52 ThinkingContent, ContentBlock] *)
Inductive Block : Type :=
  | PartBlock (p : Part)
  | ThinkingContent (thinking : text) (thinking_signature : option text) (redacted : bool)
  | ToolCallBlock (call : ToolCall).

(** [src: travis/ai/types.py:97-110 AssistantMessage] *)
Record AssistantMessage : Type := {
  a_content : list Block;
  a_api : text;
  a_provider : text;
  a_model : text;
  a_stop_reason : string
}.

(** [src: travis/ai/types.py:113-122 ToolResultMessage] *)
Record ToolResultMessage : Type := {
  r_tool_call_id : text;
  r_tool_name : text;
  r_content : list Part;
  r_is_error : bool
}.

(** [src: travis/ai/types.py:90-94 UserMessage]: its content. *)
Inductive UserContent : Type :=
  | Plain (t : text)
  | Parts (parts : list Part).

(** [src: travis/ai/types.py:125-125 Message] *)
Inductive Message : Type :=
  | User (content : UserContent)
  | Assistant (m : AssistantMessage)
  | ToolResult (m : ToolResultMessage).

(** [src: travis/ai/types.py:142-156 Model]: the fields of the translation; [md_input] are
    the kinds of input. *)
Record Model : Type := {
  md_id : text;
  md_api : text;
  md_provider : text;
  md_base_url : text;
  md_reasoning : bool;
  md_input : list string;
  md_compat : option (list (text * pv))
}.

Record Tool : Type := { tool_name : text; tool_description : text; tool_parameters : pv }.

Record Context : Type := {
  system_prompt : option text;
  messages : list Message;
  tools : option (list Tool)
}.

Definition is_tool_call (b : Block) : option ToolCall := match b with ToolCallBlock c => Some c | _ => None end.
Definition calls_of (m : AssistantMessage) : list ToolCall := omap is_tool_call (a_content m).

Definition with_calls_content (content : list Block) (m : AssistantMessage) : AssistantMessage :=
  {| a_content := content; a_api := a_api m; a_provider := a_provider m; a_model := a_model m; a_stop_reason := a_stop_reason m |}.

(** ** Messages of the application *)

(** A message of the session: one for a provider, or one of the application's own.  Of a
    command and of a compaction, the text that [bash_execution_text] and
    [compaction_summary_with_details] make of it. *)
Inductive AgentMessage : Type :=
  | ProviderMsg (m : Message)
  | BashExecution (exclude_from_context : bool) (shown : text)
  | BranchSummary (summary : text)
  | CompactionSummary (shown : text)
  | Custom (content : UserContent)
  | OtherRole.

(** [src: travis/coding_agent/message_utils.py:10-11 BRANCH_SUMMARY_PREFIX, BRANCH_SUMMARY_SUFFIX] *)
Definition BRANCH_SUMMARY_PREFIX : text :=
  lit "The following is a summary of a branch that this conversation came back from:" ++ [10; 10] ++ lit "<summary>" ++ [10].
Definition BRANCH_SUMMARY_SUFFIX : text := lit "</summary>".

Definition text_user (t : text) : Message := User (Parts [TextContent t None]).

(** One turn of the loop of [default_convert_to_llm]. *)
Definition convert_to_llm (m : AgentMessage) : list Message :=
  match m with
  | BashExecution true _ => []
  | BashExecution false shown => [text_user shown]
  | BranchSummary summary => [text_user (BRANCH_SUMMARY_PREFIX ++ summary ++ BRANCH_SUMMARY_SUFFIX)]
  | CompactionSummary shown => [text_user (SUMMARY_PREFIX ++ [10] ++ shown ++ [10; 10] ++ SUMMARY_END_MARKER ++ [10; 10])]
  | Custom (Plain t) => [text_user t]
  | Custom (Parts parts) => [User (Parts parts)]
  | ProviderMsg m => [m]
  | OtherRole => []
  end.

(** [src: travis/coding_agent/session_types.py:471-521 default_convert_to_llm] *)
Definition default_convert_to_llm (l : list AgentMessage) : list Message := flat_map convert_to_llm l.

(** ** What a model accepts *)

(** A [OpenAICompat]: its fields by name, each with the key of the catalog. *)
Definition OpenAICompat : Type := list (string * pv).

(** [src: travis/ai/providers/openai_compat.py:39-59 _CATALOG_KEYS] *)
Definition _CATALOG_KEYS : list (string * string) :=
  [("supports_store", "supportsStore"); ("supports_developer_role", "supportsDeveloperRole");
   ("supports_reasoning_effort", "supportsReasoningEffort"); ("supports_usage_in_streaming", "supportsUsageInStreaming");
   ("max_tokens_field", "maxTokensField"); ("requires_tool_result_name", "requiresToolResultName");
   ("requires_assistant_after_tool_result", "requiresAssistantAfterToolResult");
   ("requires_thinking_as_text", "requiresThinkingAsText");
   ("requires_reasoning_content_on_assistant_messages", "requiresReasoningContentOnAssistantMessages");
   ("thinking_format", "thinkingFormat"); ("openrouter_routing", "openRouterRouting");
   ("vercel_gateway_routing", "vercelGatewayRouting"); ("chat_template_kwargs", "chatTemplateKwargs");
   ("zai_tool_stream", "zaiToolStream"); ("supports_strict_mode", "supportsStrictMode");
   ("cache_control_format", "cacheControlFormat"); ("send_session_affinity_headers", "sendSessionAffinityHeaders");
   ("session_affinity_format", "sessionAffinityFormat"); ("supports_long_cache_retention", "supportsLongCacheRetention")]%string.

Definition p_string (s : string) : pv := PStr (lit s).

(** The default of each field.

    [src: travis/ai/providers/openai_compat.py:16-36 OpenAICompat] *)
Definition compat_defaults : OpenAICompat :=
  [("supports_store", PBool true); ("supports_developer_role", PBool true);
   ("supports_reasoning_effort", PBool true); ("supports_usage_in_streaming", PBool true);
   ("max_tokens_field", p_string "max_completion_tokens"); ("requires_tool_result_name", PBool false);
   ("requires_assistant_after_tool_result", PBool false); ("requires_thinking_as_text", PBool false);
   ("requires_reasoning_content_on_assistant_messages", PBool false); ("thinking_format", p_string "openai");
   ("openrouter_routing", PDict []); ("vercel_gateway_routing", PDict []); ("chat_template_kwargs", PDict []);
   ("zai_tool_stream", PBool false); ("supports_strict_mode", PBool true); ("cache_control_format", PNone);
   ("send_session_affinity_headers", PBool false); ("session_affinity_format", p_string "openai");
   ("supports_long_cache_retention", PBool true)]%string.

Definition field (name : string) (c : OpenAICompat) : pv := default PNone (od_get name c).
Definition flag (name : string) (c : OpenAICompat) : bool := p_truthy (field name c).

(** [OpenAICompat(name=value, ...)] *)
Definition make_compat (values : list (string * pv)) : OpenAICompat := od_update values compat_defaults.

(** [src: travis/ai/providers/openai_compat.py:73-89 _detected_thinking_format] *)
Definition _detected_thinking_format (is_deepseek is_zai is_together is_ant_ling is_openrouter : bool) : string :=
  if is_deepseek then "deepseek" else if is_zai then "zai" else if is_together then "together"
  else if is_ant_ling then "ant-ling" else if is_openrouter then "openrouter" else "openai".

(** [src: travis/ai/providers/openai_compat.py:92-155 _detect_openai_compat] *)
Definition _detect_openai_compat (model : Model) : OpenAICompat :=
  let provider s := bool_decide (md_provider model = lit s) in
  let url s := contains (lit s) (md_base_url model) in
  let id s := is_prefix (lit s) (md_id model) in
  let is_zai := provider "zai" || provider "zai-coding-cn" || url "api.z.ai" || url "open.bigmodel.cn" in
  let is_together := provider "together" || url "api.together.ai" || url "api.together.xyz" in
  let is_moonshot := provider "moonshotai" || provider "moonshotai-cn" || url "api.moonshot." in
  let is_openrouter := provider "openrouter" || url "openrouter.ai" in
  let is_cloudflare_workers := provider "cloudflare-workers-ai" || url "api.cloudflare.com" in
  let is_cloudflare_gateway := provider "cloudflare-ai-gateway" || url "gateway.ai.cloudflare.com" in
  let is_nvidia := provider "nvidia" || url "integrate.api.nvidia.com" in
  let is_ant_ling := provider "ant-ling" || url "api.ant-ling.com" in
  let is_deepseek := provider "deepseek" || url "deepseek.com" in
  let is_xai := provider "xai" || url "api.x.ai" in
  let is_nonstandard :=
    is_nvidia || (provider "cerebras" || url "cerebras.ai") || is_xai || is_together || url "chutes.ai" || is_deepseek
    || is_zai || is_moonshot || (provider "opencode" || url "opencode.ai") || is_cloudflare_workers || is_cloudflare_gateway
    || is_ant_ling in
  let use_max_tokens :=
    url "chutes.ai" || is_moonshot || is_cloudflare_gateway || is_together || is_nvidia || is_ant_ling || is_zai in
  let openrouter_developer := is_openrouter && (id "anthropic/" || id "openai/") in
  make_compat
    [("supports_store", PBool (negb is_nonstandard));
     ("supports_developer_role", PBool (openrouter_developer || (negb is_nonstandard && negb is_openrouter)));
     ("supports_reasoning_effort", PBool (negb
       (is_xai || is_zai || is_moonshot || is_together || is_cloudflare_gateway || is_nvidia || is_ant_ling)));
     ("max_tokens_field", p_string (if use_max_tokens then "max_tokens" else "max_completion_tokens"));
     ("requires_reasoning_content_on_assistant_messages", PBool is_deepseek);
     ("thinking_format", p_string (_detected_thinking_format is_deepseek is_zai is_together is_ant_ling is_openrouter));
     ("supports_strict_mode", PBool (negb (is_moonshot || is_together || is_cloudflare_gateway || is_nvidia)));
     ("cache_control_format", if is_openrouter && id "anthropic/" then p_string "anthropic" else PNone);
     ("session_affinity_format", p_string (if is_openrouter then "openrouter" else "openai"));
     ("supports_long_cache_retention", PBool (negb
       (is_together || is_cloudflare_workers || is_cloudflare_gateway || is_nvidia || is_ant_ling)))]%string.

(** [src: travis/ai/providers/openai_compat.py:62-70 resolve_openai_compat] *)
Definition resolve_openai_compat (model : Model) : OpenAICompat :=
  let detected := _detect_openai_compat model in
  let explicit := default [] (md_compat model) in
  make_compat (map (λ item,
    (item.1, match od_get (lit item.2) explicit with
             | None | Some PNone => field item.1 detected
             | Some value => value
             end)) _CATALOG_KEYS).

(** ** The history a provider may see *)

(** [src: travis/ai/providers/message_translation.py:23-24 _NON_VISION_USER_IMAGE_PLACEHOLDER] *)
Definition _NON_VISION_USER_IMAGE_PLACEHOLDER : text := lit "(image omitted: model does not support images)".
Definition _NON_VISION_TOOL_IMAGE_PLACEHOLDER : text := lit "(tool image omitted: model does not support images)".

Section images.
Variable placeholder : text.

Fixpoint replace_images (previous_was_placeholder : bool) (content : list Part) : list Part :=
  match content with
  | [] => []
  | ImageContent _ _ :: rest =>
      (if previous_was_placeholder then [] else [TextContent placeholder None]) ++ replace_images true rest
  | TextContent t s :: rest => TextContent t s :: replace_images (bool_decide (t = placeholder)) rest
  end.

(** [src: travis/ai/providers/message_translation.py:290-303 _replace_images_with_placeholder] *)
Definition _replace_images_with_placeholder (content : list Part) : list Part := replace_images false content.
End images.

Definition accepts_images (model : Model) : bool := bool_decide ("image"%string ∈ md_input model).

Definition with_result (id : text) (content : list Part) (r : ToolResultMessage) : ToolResultMessage :=
  {| r_tool_call_id := id; r_tool_name := r_tool_name r; r_content := content; r_is_error := r_is_error r |}.

(** [src: travis/ai/providers/message_translation.py:265-287 _downgrade_unsupported_images] *)
Definition _downgrade_unsupported_images (l : list Message) (model : Model) : list Message :=
  if accepts_images model then l
  else map (λ m,
    match m with
    | User (Parts parts) => User (Parts (_replace_images_with_placeholder _NON_VISION_USER_IMAGE_PLACEHOLDER parts))
    | ToolResult r =>
        ToolResult (with_result (r_tool_call_id r)
          (_replace_images_with_placeholder _NON_VISION_TOOL_IMAGE_PLACEHOLDER (r_content r)) r)
    | _ => m
    end) l.

(** [[^a-zA-Z0-9_-]] replaced by an underscore. *)
Definition id_char (c : Z) : Z :=
  if in_range 97 122 c || in_range 65 90 c || in_range 48 57 c || (c =? 95) || (c =? 45) then c else 95.

(** The text before the first bar; [None] when there is none. *)
Fixpoint before_bar (t : text) : option text :=
  match t with
  | [] => None
  | c :: rest => if c =? 124 then Some [] else p ← before_bar rest; Some (c :: p)
  end.

(** [src: travis/ai/providers/message_translation.py:306-312 _normalize_tool_call_id] *)
Definition _normalize_tool_call_id (tool_call_id : text) (model : Model) : text :=
  match before_bar tool_call_id with
  | Some call_id => take 40 (map id_char call_id)
  | None => if bool_decide (md_provider model = lit "openai") then take 40 tool_call_id else tool_call_id
  end.

Section transform.
Variable model : Model.
(** [normalize_tool_call_id], when it is given. *)
Variable normalize_tool_call_id : option (text → Model → AssistantMessage → text).

Definition same_model (m : AssistantMessage) : bool :=
  bool_decide (a_provider m = md_provider model) && bool_decide (a_api m = md_api model) && bool_decide (a_model m = md_id model).

Definition is_set {A} (t : option (list A)) : bool := match t with Some (_ :: _) => true | _ => false end.
Definition blank (t : text) : bool := match strip t with [] => true | _ => false end.

(** [src: travis/ai/providers/message_translation.py:167-177 _transform_thinking_block] *)
Definition _transform_thinking_block (thinking : text) (sign : option text) (redacted same : bool) : option Block :=
  let block := ThinkingContent thinking sign redacted in
  if redacted then (if same then Some block else None)
  else if same && is_set sign then Some block
  else if blank thinking then None
  else if same then Some block else Some (PartBlock (TextContent thinking None)).

(** The identifier that a call of [m] gets. *)
Definition normalized (m : AssistantMessage) (id : text) : text :=
  match normalize_tool_call_id with Some f => f id model m | None => _normalize_tool_call_id id model end.

(** [src: travis/ai/providers/message_translation.py:180-199 _transform_tool_call]: with the
    map of the identifiers. *)
Definition _transform_tool_call (m : AssistantMessage) (same : bool) (c : ToolCall) (ids : list (text * text))
    : ToolCall * list (text * text) :=
  if same then (c, ids)
  else
    let thought := if is_set (call_thought_signature c) then None else call_thought_signature c in
    let keep id := {| call_id := id; call_name := call_name c; call_arguments := call_arguments c; call_thought_signature := thought |} in
    let n := normalized m (call_id c) in
    if bool_decide (n = call_id c) then (keep (call_id c), ids) else (keep n, od_set (call_id c) n ids).

(** [src: travis/ai/providers/message_translation.py:143-164 _transform_assistant_block] *)
Definition _transform_assistant_block (m : AssistantMessage) (same : bool) (b : Block) (ids : list (text * text))
    : option Block * list (text * text) :=
  match b with
  | ThinkingContent thinking sign redacted => (_transform_thinking_block thinking sign redacted same, ids)
  | PartBlock (TextContent t s) => (Some (if same then b else PartBlock (TextContent t None)), ids)
  | ToolCallBlock c => let '(c, ids) := _transform_tool_call m same c ids in (Some (ToolCallBlock c), ids)
  | PartBlock (ImageContent _ _) => (Some b, ids)
  end.

Fixpoint transform_blocks (m : AssistantMessage) (same : bool) (l : list Block) (ids : list (text * text))
    : list Block * list (text * text) :=
  match l with
  | [] => ([], ids)
  | b :: l =>
      let '(b, ids) := _transform_assistant_block m same b ids in
      let '(rest, ids) := transform_blocks m same l ids in
      (match b with Some b => b :: rest | None => rest end, ids)
  end.

(** [src: travis/ai/providers/message_translation.py:117-140 _transform_assistant_message] *)
Definition _transform_assistant_message (m : AssistantMessage) (ids : list (text * text))
    : AssistantMessage * list (text * text) :=
  let '(content, ids) := transform_blocks m (same_model m) (a_content m) ids in (with_calls_content content m, ids).

(** [normalized_id and normalized_id != message.tool_call_id] *)
Definition renamed_result (ids : list (text * text)) (r : ToolResultMessage) : ToolResultMessage :=
  match od_get (r_tool_call_id r) ids with
  | Some ((_ :: _) as n) => with_result n (r_content r) r
  | _ => r
  end.

Fixpoint transform_loop (ids : list (text * text)) (l : list Message) : list Message :=
  match l with
  | [] => []
  | Assistant m :: l =>
      let '(m, ids) := _transform_assistant_message m ids in Assistant m :: transform_loop ids l
  | ToolResult r :: l => ToolResult (renamed_result ids r) :: transform_loop ids l
  | User c :: l => User c :: transform_loop ids l
  end.

(** [src: travis/ai/providers/message_translation.py:202-217 _append_missing_tool_results] *)
Definition _append_missing_tool_results (result : list Message) (pending : list ToolCall) (existing : list text) : list Message :=
  result ++ omap (λ c, if bool_decide (call_id c ∈ existing) then None
    else Some (ToolResult {| r_tool_call_id := call_id c; r_tool_name := call_name c;
                             r_content := [TextContent (lit "No result provided") None]; r_is_error := true |})) pending.

Definition is_user (m : Message) : bool := match m with User _ => true | _ => false end.

(** [while result and result[-1].role == "user": result.pop()] of the reversed result. *)
Fixpoint pop_users (reversed : list Message) : list Message :=
  match reversed with
  | m :: rest => if is_user m then pop_users rest else reversed
  | [] => []
  end.

(** [src: travis/ai/providers/message_translation.py:220-222 _drop_unanswered_user_messages] *)
Definition _drop_unanswered_user_messages (result : list Message) : list Message := rev (pop_users (rev result)).

Definition failed (m : AssistantMessage) : bool := existsb (String.eqb (a_stop_reason m)) ["error"; "aborted"]%string.

(** The loop of [_repair_tool_result_history]. *)
Fixpoint repair_loop (result : list Message) (pending : list ToolCall) (existing : list text) (l : list Message) : list Message :=
  match l with
  | [] => _append_missing_tool_results result pending existing
  | Assistant m :: l =>
      let '(result, pending, existing) :=
        match pending with
        | [] => (result, [], existing)
        | _ => (_append_missing_tool_results result pending existing, [], [])
        end in
      if failed m then repair_loop (_drop_unanswered_user_messages result) pending existing l
      else
        match calls_of m with
        | [] => repair_loop (result ++ [Assistant m]) pending existing l
        | calls => repair_loop (result ++ [Assistant m]) calls [] l
        end
  | ToolResult r :: l => repair_loop (result ++ [ToolResult r]) pending (r_tool_call_id r :: existing) l
  | User c :: l =>
      match pending with
      | [] => repair_loop (result ++ [User c]) [] existing l
      | _ => repair_loop (_append_missing_tool_results result pending existing ++ [User c]) [] [] l
      end
  end.

(** [src: travis/ai/providers/message_translation.py:225-262 _repair_tool_result_history] *)
Definition _repair_tool_result_history (transformed : list Message) : list Message := repair_loop [] [] [] transformed.

(** [src: travis/ai/providers/message_translation.py:86-114 _transform_messages] *)
Definition _transform_messages (l : list Message) : list Message :=
  _repair_tool_result_history (transform_loop [] (_downgrade_unsupported_images l model)).
End transform.

(** ** Messages of the provider *)

(** A dictionary display. *)
Definition obj (pairs : list (string * pv)) : list (text * pv) := map (λ p, (lit p.1, p.2)) pairs.

(** [src: travis/ai/providers/message_translation.py:544-545 _sanitize_surrogates] *)
Definition _sanitize_surrogates (t : text) : text := List.filter (λ c, negb (in_range 55296 57343 c)) t.

(** [src: travis/ai/providers/message_translation.py:25-33 _has_tool_history] *)
Definition _has_tool_history (l : list Message) : bool :=
  existsb (λ m, match m with
                | ToolResult _ => true
                | Assistant a => match calls_of a with [] => false | _ => true end
                | User _ => false
                end) l.

Definition text_part (t : text) : pv := PDict (obj [("type", p_string "text"); ("text", PStr t)]%string).
Definition image_part (data mime_type : text) : pv :=
  let url := lit "data:" ++ mime_type ++ lit ";base64," ++ data in
  PDict (obj [("type", p_string "image_url"); ("image_url", PDict (obj [("url", PStr url)]))]%string).

(** [src: travis/ai/providers/message_translation.py:525-535 _convert_user_content_parts] *)
Definition _convert_user_content_parts (content : list Part) : list pv :=
  map (λ p, match p with
            | TextContent t _ => text_part (_sanitize_surrogates t)
            | ImageContent data mime => image_part data mime
            end) content.

(** [src: travis/ai/providers/message_translation.py:538-541 _text_of] *)
Definition _text_of (content : list Part) : text :=
  flat_map (λ p, match p with TextContent t _ => _sanitize_surrogates t | ImageContent _ _ => [] end) content.

Definition is_image (p : Part) : bool := match p with ImageContent _ _ => true | _ => false end.

(** [src: travis/ai/providers/message_translation.py:470-488 _convert_single_tool_result] *)
Definition _convert_single_tool_result (r : ToolResultMessage) (compat : option OpenAICompat) : list (text * pv) :=
  let content := match _text_of (r_content r) with
                 | [] => lit (if existsb is_image (r_content r) then "(see attached image)" else "(no tool output)")
                 | t => t
                 end in
  obj [("role", p_string "tool"); ("tool_call_id", PStr (r_tool_call_id r)); ("content", PStr content)]%string ++
  match compat, r_tool_name r with
  | Some c, (_ :: _) as name => if flag "requires_tool_result_name" c then obj [("name", PStr name)]%string else []
  | _, _ => []
  end.

(** [src: travis/ai/providers/message_translation.py:329-334 _assistant_text] *)
Definition _assistant_text (m : AssistantMessage) : text :=
  flat_map (λ b, match b with
                 | PartBlock (TextContent t _) => if blank t then [] else _sanitize_surrogates t
                 | _ => []
                 end) (a_content m).

(** [src: travis/ai/providers/message_translation.py:337-348 _parse_responses_reasoning_item] *)
Definition _parse_responses_reasoning_item (sign : option text) : option pv :=
  match sign with
  | Some ((_ :: _) as t) =>
      match loads t with
      | Ok (PDict d) => if bool_decide (p_get "type" d = Some (p_string "reasoning")) then Some (PDict d) else None
      | _ => None
      end
  | _ => None
  end.

(** [src: travis/ai/providers/message_translation.py:351-364 _assistant_reasoning]: of a
    textual part, the thinking and its signature. *)
Definition _assistant_reasoning (m : AssistantMessage) : list pv * list (text * option text) :=
  let thoughts := omap (λ b, match b with
                             | ThinkingContent t s _ => if blank t then None else Some (t, s)
                             | _ => None
                             end) (a_content m) in
  (omap (λ p, _parse_responses_reasoning_item p.2) thoughts,
   List.filter (λ p, match _parse_responses_reasoning_item p.2 with Some _ => false | None => true end) thoughts).

(** [src: travis/ai/providers/message_translation.py:367-371 _parse_reasoning_detail] *)
Definition _parse_reasoning_detail (sign : text) : option pv :=
  match loads sign with Ok PNone => None | Ok v => Some v | Err _ => None end.

(** [list.join] *)
Fixpoint joined (sep : text) (l : list text) : text :=
  match l with [] => [] | [t] => t | t :: l => t ++ sep ++ joined sep l end.

Section convert.
Variable float_repr : SpecFloat.spec_float → text.

(** [src: travis/ai/providers/message_translation.py:374-396 _assistant_tool_payloads] *)
Definition _assistant_tool_payloads (m : AssistantMessage) : list pv * list pv :=
  (map (λ c, PDict (obj
      [("id", PStr (call_id c)); ("type", p_string "function");
       ("function", PDict (obj [("name", PStr (call_name c));
                                ("arguments", PStr (dumps_compact float_repr (PDict (call_arguments c))))]))]%string)) (calls_of m),
   omap (λ c, match call_thought_signature c with Some ((_ :: _) as t) => _parse_reasoning_detail t | _ => None end) (calls_of m)).

Variable model : option Model.
Variable compat : OpenAICompat.

Definition put (key : string) (v : pv) (out : list (text * pv)) : list (text * pv) := od_set (lit key) v out.

(** [src: travis/ai/providers/message_translation.py:399-423 _apply_textual_reasoning] *)
Definition _apply_textual_reasoning (out : list (text * pv)) (thinking : list (text * option text)) (content_text : text)
    : list (text * pv) :=
  match thinking with
  | [] => out
  | (_, sign) :: _ =>
      let texts := map (λ p, _sanitize_surrogates p.1) thinking in
      if flag "requires_thinking_as_text" compat then
        put "content" (PList (text_part (joined [10; 10] texts) ::
                              match content_text with [] => [] | t => [text_part t] end)) out
      else
        let sign := match model, sign with
                    | Some m, Some s => if bool_decide (md_provider m = lit "opencode-go" ∧ s = lit "reasoning")
                                        then Some (lit "reasoning_content") else sign
                    | _, _ => sign
                    end in
        match sign with
        | Some ((_ :: _) as key) => od_set key (PStr (joined [10] texts)) out
        | _ => out
        end
  end.

(** [src: travis/ai/providers/message_translation.py:426-432 _assistant_has_content] *)
Definition _assistant_has_content (out : list (text * pv)) : bool :=
  match p_get "content" out with Some (PStr (_ :: _)) | Some (PList (_ :: _)) => true | _ => false end.

(** [if items: out[key] = items] *)
Definition put_items (key : string) (items : list pv) (out : list (text * pv)) : list (text * pv) :=
  match items with [] => out | _ => put key (PList items) out end.

Definition none {A} (l : list A) : bool := match l with [] => true | _ => false end.

(** [src: travis/ai/providers/message_translation.py:435-467 _convert_assistant_message] *)
Definition _convert_assistant_message (m : AssistantMessage) : option (list (text * pv)) :=
  let content_text := _assistant_text m in
  let '(items, thinking) := _assistant_reasoning m in
  let '(tool_calls, details) := _assistant_tool_payloads m in
  if none content_text && none items && none thinking && none tool_calls then None
  else
    let out := obj [("role", p_string "assistant");
                    ("content", if flag "requires_assistant_after_tool_result" compat then PStr [] else PNone)]%string in
    let out := put_items "codex_reasoning_items" items out in
    let out := _apply_textual_reasoning out thinking content_text in
    let out := put_items "tool_calls" tool_calls out in
    let out := put_items "reasoning_details" details out in
    let out := if negb (none content_text) && negb (flag "requires_thinking_as_text" compat)
               then put "content" (PStr content_text) out else out in
    let out := match model, p_get "reasoning_content" out with
               | Some md, None => if flag "requires_reasoning_content_on_assistant_messages" compat && md_reasoning md
                                  then put "reasoning_content" (PStr []) out else out
               | _, _ => out
               end in
    if negb (_assistant_has_content out) && none tool_calls then None else Some out.

(** [src: travis/ai/providers/message_translation.py:315-326 _convert_message]: of a message
    that is no tool result. *)
Definition _convert_message (m : Message) : option (list (text * pv)) :=
  match m with
  | User (Plain t) => Some (obj [("role", p_string "user"); ("content", PStr (_sanitize_surrogates t))]%string)
  | User (Parts parts) => Some (obj [("role", p_string "user"); ("content", PList (_convert_user_content_parts parts))]%string)
  | Assistant a => _convert_assistant_message a
  | ToolResult r => Some (_convert_single_tool_result r None)
  end.

(** The tool results at the head of the messages. *)
Fixpoint leading_results (l : list Message) : list ToolResultMessage * list Message :=
  match l with
  | ToolResult r :: l => let '(group, rest) := leading_results l in (r :: group, rest)
  | _ => ([], l)
  end.

Definition processed : list (text * pv) :=
  obj [("role", p_string "assistant"); ("content", p_string "I have processed the tool results.")]%string.

(** [src: travis/ai/providers/message_translation.py:491-522 _convert_tool_result_group] *)
Definition _convert_tool_result_group (group : list ToolResultMessage) : list (list (text * pv)) * bool :=
  let converted := map (λ r, _convert_single_tool_result r (Some compat)) group in
  let image_parts := match model with
                     | Some md => if accepts_images md
                                  then flat_map (λ r, omap (λ p, match p with
                                                                 | ImageContent data mime => Some (image_part data mime)
                                                                 | _ => None
                                                                 end) (r_content r)) group
                                  else []
                     | None => []
                     end in
  match image_parts with
  | [] => (converted, false)
  | _ => (converted ++ (if flag "requires_assistant_after_tool_result" compat then [processed] else []) ++
          [obj [("role", p_string "user"); ("content", PList (text_part (lit "Attached image(s) from tool result:") :: image_parts))]%string],
          true)
  end.

Inductive last_role : Type := LastNone | LastUser | LastAssistant | LastToolResult.

Definition role_of (m : Message) : last_role :=
  match m with User _ => LastUser | Assistant _ => LastAssistant | ToolResult _ => LastToolResult end.

(** The loop of [convert_messages], with fuel for the groups of results. *)
Fixpoint convert_loop (fuel : nat) (last : last_role) (l : list Message) : list (list (text * pv)) :=
  match fuel, l with
  | S fuel, m :: rest =>
      (if flag "requires_assistant_after_tool_result" compat && is_user m
       then match last with LastToolResult => [processed] | _ => [] end else []) ++
      match m with
      | ToolResult _ =>
          let '(group, rest) := leading_results l in
          let '(converted, with_images) := _convert_tool_result_group group in
          converted ++ convert_loop fuel (if with_images then LastUser else LastToolResult) rest
      | _ =>
          match _convert_message m with
          | Some d => d :: convert_loop fuel (role_of m) rest
          | None => convert_loop fuel last rest
          end
      end
  | _, _ => []
  end.
End convert.

(** [src: travis/ai/providers/message_translation.py:36-83 convert_messages] *)
Definition convert_messages (float_repr : SpecFloat.spec_float → text) (context : Context) (model : option Model)
    (normalize_tool_call_id : option (text → Model → AssistantMessage → text)) : list (list (text * pv)) * option (list pv) :=
  let compat := match model with Some m => resolve_openai_compat m | None => compat_defaults end in
  let system := match system_prompt context with
                | Some ((_ :: _) as prompt) =>
                    let developer := match model with
                                     | Some m => md_reasoning m && flag "supports_developer_role" compat
                                     | None => false
                                     end in
                    [obj [("role", p_string (if developer then "developer" else "system"));
                          ("content", PStr (_sanitize_surrogates prompt))]%string]
                | _ => []
                end in
  let l := match model with
           | Some m => _transform_messages m normalize_tool_call_id (messages context)
           | None => messages context
           end in
  (system ++ convert_loop float_repr model compat (length l) LastNone l,
   match tools context with
   | Some ((_ :: _) as ts) =>
       Some (map (λ t,
         let function := obj [("name", PStr (tool_name t)); ("description", PStr (tool_description t));
                              ("parameters", tool_parameters t)]%string in
         let strict := if flag "supports_strict_mode" compat then obj [("strict", PBool false)]%string else [] in
         PDict (obj [("type", p_string "function"); ("function", PDict (function ++ strict))]%string)) ts)
   | _ => if _has_tool_history l then Some [] else None
   end).
