(* ===== verification/MessageTranslationSpec.v ===== *)
(** What a provider is shown: every tool call is answered, at once and once; nothing is
    left out but failed answers and the input they leave unanswered. *)

From S2P Require Import Prelude PyDict PyFloat Utf8 PyText PyValue JsonLoads MessageTranslation.
Open Scope Z_scope.
Local Notation text := Utf8.text.

(** ** Histories *)

Definition ids_of (m : AssistantMessage) : list text := map call_id (calls_of m).

Definition without (id : text) (pending : list text) : list text := filter (λ i, i ≠ id) pending.

(** The calls still to be answered after a list of messages, when each result answers a
    call of the assistant message before it, once.  Calls may be left unanswered; the
    calls of a failed message are. *)
Fixpoint answers (pending : list text) (l : list Message) : option (list text) :=
  match l with
  | [] => Some pending
  | User _ :: l => answers [] l
  | Assistant m :: l => answers (if failed m then [] else ids_of m) l
  | ToolResult r :: l => if bool_decide (r_tool_call_id r ∈ pending) then answers (without (r_tool_call_id r) pending) l else None
  end.

(** The same when no call may be left unanswered. *)
Fixpoint paired (pending : list text) (l : list Message) : option (list text) :=
  match l with
  | [] => Some pending
  | User _ :: l => if none pending then paired [] l else None
  | Assistant m :: l => if none pending && bool_decide (NoDup (ids_of m)) then paired (ids_of m) l else None
  | ToolResult r :: l => if bool_decide (r_tool_call_id r ∈ pending) then paired (without (r_tool_call_id r) pending) l else None
  end.

Lemma none_iff {A} (l : list A) : none l = true ↔ l = [].
Proof. by destruct l. Qed.

Lemma paired_app l1 l2 p : paired p (l1 ++ l2) = paired p l1 ≫= λ p, paired p l2.
Proof.
  revert p. induction l1 as [|[c|m|r] l1 IH]; intros p; cbn; [done|..].
  - by destruct (none p).
  - by destruct (_ && _).
  - by case_bool_decide.
Qed.

Lemma paired_drop_users l : paired [] l = Some [] → paired [] (_drop_unanswered_user_messages l) = Some [].
Proof.
  unfold _drop_unanswered_user_messages. induction l as [|m l IH] using rev_ind; [done|]. rewrite rev_app_distr. cbn.
  destruct (is_user m) eqn:Hm; [|cbn; by rewrite rev_involutive]. rewrite paired_app.
  destruct (paired [] l) as [p|]; [|done]. destruct m as [c| |]; try done. cbn. destruct (none p) eqn:Hp; [|done].
  apply none_iff in Hp as ->. intros _. by apply IH.
Qed.

(** The calls of [pending] that have no result yet. *)
Definition remaining (pending : list ToolCall) (existing : list text) : list text :=
  filter (λ id, id ∉ existing) (map call_id pending).

Lemma without_unanswered id l : id ∉ l → without id l = l.
Proof.
  unfold without. induction l as [|x l IH]; [done|]. intros Hin. rewrite filter_cons, decide_True by set_solver. f_equal. apply IH. set_solver.
Qed.

Lemma append_missing_paired result pending existing : NoDup (map call_id pending) →
  paired [] result = Some (remaining pending existing) →
  paired [] (_append_missing_tool_results result pending existing) = Some [].
Proof.
  intros Hnd Hr. unfold _append_missing_tool_results. rewrite paired_app, Hr. cbn [mbind option_bind]. clear Hr.
  unfold remaining. induction pending as [|c pending IH]; [done|]. cbn in Hnd. apply NoDup_cons in Hnd as [Hc Hnd].
  cbn [map omap list_omap]. rewrite filter_cons. case_bool_decide as He.
  - rewrite decide_False by naive_solver. by apply IH.
  - rewrite decide_True by done. cbn [paired r_tool_call_id]. rewrite bool_decide_true by set_solver.
    unfold without. rewrite filter_cons, decide_False by naive_solver. fold (without (call_id c) (filter (λ id, id ∉ existing) (map call_id pending))).
    rewrite without_unanswered; [by apply IH|]. rewrite list_elem_of_filter. naive_solver.
Qed.

Lemma remaining_nil pending : remaining pending [] = map call_id pending.
Proof. unfold remaining. induction (map call_id pending) as [|x l IH]; [done|]. rewrite filter_cons, decide_True by set_solver. by rewrite IH. Qed.

Lemma remaining_cons pending existing id : remaining pending (id :: existing) = without id (remaining pending existing).
Proof.
  unfold remaining, without. rewrite list_filter_filter. apply list_filter_iff. set_solver.
Qed.

(** The calls of every message are told apart. *)
Definition distinct_calls (l : list Message) : Prop := ∀ m, Assistant m ∈ l → NoDup (ids_of m).

Lemma repair_loop_paired l : ∀ result pending existing, distinct_calls l → NoDup (map call_id pending) →
  paired [] result = Some (remaining pending existing) → is_Some (answers (remaining pending existing) l) →
  paired [] (repair_loop result pending existing l) = Some [].
Proof.
  induction l as [|[c|m|r] l IH]; intros result pending existing Hd Hnd Hr Ha; cbn [repair_loop].
  - by apply append_missing_paired.
  - cbn in Ha. assert (distinct_calls l) as Hd' by (intros m' Hm'; apply Hd; set_solver).
    destruct pending as [|call pending].
    + apply IH; [done|done| |done]. by rewrite paired_app, Hr.
    + apply IH; [done|constructor| |done]. by rewrite paired_app, append_missing_paired.
  - assert (distinct_calls l) as Hd' by (intros m' Hm'; apply Hd; set_solver). cbn [answers] in Ha.
    assert (NoDup (ids_of m)) as Hm by (apply Hd; set_solver).
    assert (∀ result' existing', paired [] result' = Some [] →
      paired [] (if failed m then repair_loop (_drop_unanswered_user_messages result') [] existing' l
                 else match calls_of m with
                      | [] => repair_loop (result' ++ [Assistant m]) [] existing' l
                      | calls => repair_loop (result' ++ [Assistant m]) calls [] l
                      end) = Some []) as Hnext.
    { intros result' existing' Hr'. destruct (failed m); [apply IH; [done|constructor|by apply paired_drop_users|done]|].
      assert (paired [] (result' ++ [Assistant m]) = Some (ids_of m)) as Hp.
      { rewrite paired_app, Hr'. cbn. by rewrite bool_decide_true. }
      unfold ids_of in *. destruct (calls_of m) as [|call calls]; [by apply IH|].
      apply IH; [done|done| |]; by rewrite remaining_nil. }
    destruct pending as [|call pending]; [by apply Hnext|]. by apply Hnext, append_missing_paired.
  - assert (distinct_calls l) as Hd' by (intros m' Hm'; apply Hd; set_solver). cbn in Ha. case_bool_decide as Hin; [|by destruct Ha].
    apply IH; [done|done| |]; rewrite remaining_cons; [|done]. rewrite paired_app, Hr. cbn. by rewrite bool_decide_true.
Qed.

Lemma repaired_paired l : distinct_calls l → is_Some (answers [] l) → paired [] (_repair_tool_result_history l) = Some [].
Proof. intros Hd Ha. apply repair_loop_paired; [done|constructor|done|done]. Qed.

(** ** Names of calls *)

Section names.
Variable model : Model.
Variable norm : option (text → Model → AssistantMessage → text).

(** The name that a call of [m] gets. *)
Definition new_id (m : AssistantMessage) (id : text) : text := if same_model model m then id else normalized model norm m id.

(** The names of the calls tell them apart: within a message they differ, and the same
    identifier has the same name throughout; none is empty. *)
Record names_ok (l : list Message) : Prop := {
  names_differ : ∀ m, Assistant m ∈ l → NoDup (map (new_id m) (ids_of m));
  names_agree : ∀ m1 m2 id, Assistant m1 ∈ l → Assistant m2 ∈ l → id ∈ ids_of m1 → id ∈ ids_of m2 → new_id m1 id = new_id m2 id;
  names_nonempty : ∀ m id, Assistant m ∈ l → id ∈ ids_of m → new_id m id ≠ []
}.

(** The name that a result gets. *)
Definition rename (ids : list (text * text)) (id : text) : text :=
  match od_get id ids with Some ((_ :: _) as n) => n | _ => id end.

Lemma renamed_id ids r : r_tool_call_id (renamed_result ids r) = rename ids (r_tool_call_id r).
Proof. unfold renamed_result, rename. by destruct (od_get _ ids) as [[|c n]|]. Qed.

(** The map after a message: its calls that have been renamed. *)
Definition maps_calls (m : AssistantMessage) (calls : list text) (ids ids' : list (text * text)) : Prop :=
  ∀ id, od_get id ids' = if decide (id ∈ calls ∧ new_id m id ≠ id) then Some (new_id m id) else od_get id ids.

Lemma transform_call_spec m c ids : let '(c', ids') := _transform_tool_call model norm m (same_model model m) c ids in
  call_id c' = new_id m (call_id c) ∧ maps_calls m [call_id c] ids ids'.
Proof.
  unfold _transform_tool_call, maps_calls. unfold new_id. destruct (same_model model m) eqn:Hs.
  - split; [done|]. intros id. rewrite decide_False; [done|]. naive_solver.
  - case_bool_decide as Hn; (split; [done|]); intros id; cbn.
    + rewrite decide_False; [done|]. intros [->%list_elem_of_singleton ?]. done.
    + rewrite od_get_set. case_decide as H1.
      * subst id. rewrite decide_True; [done|]. split; [set_solver|done].
      * rewrite decide_False; [done|]. intros [->%list_elem_of_singleton ?]. done.
Qed.

Lemma no_call_kept (b : option Block) (l : list Block) : (∀ x, b = Some x → is_tool_call x = None) →
  omap is_tool_call (match b with Some b => b :: l | None => l end) = omap is_tool_call l.
Proof. destruct b as [b|]; intros H; [|done]. cbn. by rewrite H. Qed.

Lemma thinking_no_call t s r same x : _transform_thinking_block t s r same = Some x → is_tool_call x = None.
Proof.
  unfold _transform_thinking_block. destruct r; [destruct same; by intros [= <-]|]. destruct (same && is_set s); [by intros [= <-]|].
  destruct (blank t); [done|]. destruct same; by intros [= <-].
Qed.

Lemma transform_blocks_spec m l : ∀ ids, let '(l', ids') := transform_blocks model norm m (same_model model m) l ids in
  map call_id (omap is_tool_call l') = map (new_id m) (map call_id (omap is_tool_call l)) ∧
  maps_calls m (map call_id (omap is_tool_call l)) ids ids'.
Proof.
  induction l as [|b l IH]; intros ids; cbn [transform_blocks].
  { split; [done|]. intros id. rewrite decide_False; [done|]. intros [H _]. by apply elem_of_nil in H. }
  assert (∀ b' : option Block, (∀ x, b' = Some x → is_tool_call x = None) → is_tool_call b = None →
    let '(rest, ids') := transform_blocks model norm m (same_model model m) l ids in
    map call_id (omap is_tool_call (match b' with Some b => b :: rest | None => rest end)) =
      map (new_id m) (map call_id (omap is_tool_call (b :: l))) ∧
    maps_calls m (map call_id (omap is_tool_call (b :: l))) ids ids') as Hplain.
  { intros b' Hb' Hb. specialize (IH ids). destruct (transform_blocks _ _ _ _ l ids) as [rest ids'].
    rewrite no_call_kept by done. cbn. by rewrite Hb. }
  destruct b as [[t s|d mt]|t s r|c]; cbn [_transform_assistant_block].
  - specialize (Hplain (Some (if same_model model m then PartBlock (TextContent t s) else PartBlock (TextContent t None)))).
    destruct (transform_blocks _ _ _ _ l ids). apply Hplain; [|done]. intros x [= <-]. by destruct (same_model model m).
  - specialize (Hplain (Some (PartBlock (ImageContent d mt)))). destruct (transform_blocks _ _ _ _ l ids).
    apply Hplain; [|done]. by intros x [= <-].
  - specialize (Hplain (_transform_thinking_block t s r (same_model model m))). destruct (transform_blocks _ _ _ _ l ids).
    apply Hplain; [|done]. intros x. apply thinking_no_call.
  - clear Hplain. pose proof (transform_call_spec m c ids) as Hc.
    destruct (_transform_tool_call _ _ _ _ c ids) as [c' ids1]. destruct Hc as [Hid H1].
    specialize (IH ids1). destruct (transform_blocks _ _ _ _ l ids1) as [rest ids2]. destruct IH as [Hrest H2].
    cbn. split; [by rewrite Hid, <-Hrest|]. intros id. rewrite H2, H1.
    case_decide as E1; [rewrite decide_True by set_solver; done|].
    case_decide as E2; [rewrite decide_True by set_solver; done|rewrite decide_False by set_solver; done].
Qed.

Lemma transform_message_spec m ids : let '(m', ids') := _transform_assistant_message model norm m ids in
  ids_of m' = map (new_id m) (ids_of m) ∧ maps_calls m (ids_of m) ids ids' ∧ failed m' = failed m.
Proof.
  unfold _transform_assistant_message. pose proof (transform_blocks_spec m (a_content m) ids) as H.
  destruct (transform_blocks _ _ _ _ _ ids) as [content ids']. by destruct H.
Qed.

(** The map knows the calls of the messages so far. *)
Definition knows (seen : list Message) (ids : list (text * text)) : Prop :=
  (∀ m id, Assistant m ∈ seen → id ∈ ids_of m → rename ids id = new_id m id) ∧
  (∀ id n, od_get id ids = Some n → ∃ m, Assistant m ∈ seen ∧ id ∈ ids_of m ∧ n = new_id m id).

Lemma knows_more seen m l ids ids' : names_ok (seen ++ Assistant m :: l) → knows seen ids → maps_calls m (ids_of m) ids ids' →
  knows (seen ++ [Assistant m]) ids'.
Proof.
  intros [_ Hagree Hne] [K1 K2] Hmap. split.
  - intros m0 id Hm0 Hid. assert (Assistant m0 ∈ seen ++ Assistant m :: l) as Hin by set_solver.
    unfold rename. rewrite Hmap. case_decide as E.
    + destruct E as [E _]. rewrite (Hagree m0 m id) by set_solver. specialize (Hne m id ltac:(set_solver) E). by destruct (new_id m id).
    + apply elem_of_app in Hm0 as [Hm0|[= ->]%list_elem_of_singleton]; [by apply K1|].
      assert (new_id m id = id) as Hsame by (destruct (decide (new_id m id = id)); [done|exfalso; apply E; done]).
      destruct (od_get id ids) as [n|] eqn:Hn; [|done]. apply K2 in Hn as (m1 & Hm1 & Hid1 & ->).
      rewrite (Hagree m1 m id) by set_solver. rewrite Hsame. by destruct id.
  - intros id n. rewrite Hmap. case_decide as E; [intros [= <-]; exists m; set_solver|].
    intros Hn. apply K2 in Hn as (m1 & ? & ? & ->). exists m1. set_solver.
Qed.

Lemma map_without f id l : (∀ x, x ∈ l → f x = f id → x = id) → map f (without id l) = without (f id) (map f l).
Proof.
  unfold without. induction l as [|x l IH]; [done|]. intros Hinj. cbn [map]. rewrite !filter_cons.
  specialize (IH ltac:(intros; apply Hinj; set_solver)). case_decide as E.
  - rewrite decide_True; [cbn [map]; by rewrite IH|]. intros H. apply E, Hinj; [set_solver|done].
  - rewrite decide_False by naive_solver. done.
Qed.

Lemma nodup_map_inj {A B} (f : A → B) l x y : NoDup (map f l) → x ∈ l → y ∈ l → f x = f y → x = y.
Proof.
  induction l as [|z l IH]; [set_solver|]. cbn. intros [Hz Hl]%NoDup_cons. rewrite !elem_of_cons.
  intros [->|Hx] [->|Hy] E; [done| | |by apply IH]; exfalso; apply Hz; [rewrite E|rewrite <-E]; by apply list_elem_of_fmap_2.
Qed.

Lemma transform_answers l : ∀ seen ids pending, names_ok (seen ++ l) → knows seen ids →
  (pending = [] ∨ ∃ m, Assistant m ∈ seen ∧ pending ⊆ ids_of m) → is_Some (answers pending l) →
  is_Some (answers (map (rename ids) pending) (transform_loop model norm ids l)).
Proof.
  induction l as [|[c|m|r] l IH]; intros seen ids pending Hok Hk Hp Ha; cbn [transform_loop]; [done|..].
  - cbn in *. rewrite cons_middle, app_assoc in Hok. apply (IH (seen ++ [User c]) ids []); [done| |by left|done].
    destruct Hk as [K1 K2]. split; [intros m id Hm; apply K1; set_solver|]. intros id n Hn. apply K2 in Hn as (m & ? & ?). exists m. set_solver.
  - pose proof (transform_message_spec m ids) as Hm. destruct (_transform_assistant_message _ _ m ids) as [m' ids'].
    destruct Hm as (Hids & Hmap & Hf). pose proof (knows_more _ _ _ _ _ Hok Hk Hmap) as Hk'.
    cbn [answers] in *. rewrite Hf. rewrite cons_middle, app_assoc in Hok.
    specialize (IH _ ids' (if failed m then [] else ids_of m) Hok Hk').
    destruct (failed m); [apply IH; [by left|done]|]. rewrite Hids.
    assert (map (rename ids') (ids_of m) = map (new_id m) (ids_of m)) as <-.
    { apply map_ext_in. intros id Hid%list_elem_of_In. apply (proj1 Hk'); [set_solver|done]. }
    apply IH; [right; exists m; set_solver|done].
  - cbn [answers] in *. case_bool_decide as Hin; [|by destruct Ha]. rewrite renamed_id, bool_decide_true by by apply list_elem_of_fmap_2.
    rewrite <-map_without.
    + rewrite cons_middle, app_assoc in Hok. apply (IH (seen ++ [ToolResult r])); [done| | |done].
      * destruct Hk as [K1 K2]. split; [intros m id Hm; apply K1; set_solver|]. intros id n Hn. apply K2 in Hn as (m & ? & ?). exists m. set_solver.
      * destruct Hp as [->|(m & Hm & Hsub)]; [by left|]. right. exists m. split; [set_solver|]. unfold without. 
        intros x [_ Hx]%list_elem_of_filter. by apply Hsub.
    + destruct Hp as [->|(m & Hm & Hsub)]; [by intros x Hx%elem_of_nil|]. intros x Hx Heq.
      rewrite (proj1 Hk m), (proj1 Hk m) in Heq by auto. apply (nodup_map_inj (new_id m) (ids_of m)); auto.
      apply (names_differ _ Hok). set_solver.
Qed.

Lemma transform_distinct l : ∀ ids, (∀ m, Assistant m ∈ l → NoDup (map (new_id m) (ids_of m))) →
  distinct_calls (transform_loop model norm ids l).
Proof.
  induction l as [|[c|m|r] l IH]; intros ids Hd m0 Hm0; cbn in Hm0; [set_solver|..].
  - apply (IH ids); [|set_solver]. intros; apply Hd; set_solver.
  - pose proof (transform_message_spec m ids) as Hm. destruct (_transform_assistant_message _ _ m ids) as [m' ids'].
    destruct Hm as (Hids & _ & _). apply elem_of_cons in Hm0 as [[= ->]|Hm0]; [rewrite Hids; apply Hd; set_solver|].
    apply (IH ids'); [|done]. intros; apply Hd; set_solver.
  - apply (IH ids); [|set_solver]. intros; apply Hd; set_solver.
Qed.

Lemma downgrade_answers l : ∀ p, answers p (_downgrade_unsupported_images l model) = answers p l.
Proof.
  unfold _downgrade_unsupported_images. destruct (accepts_images model); [done|].
  induction l as [|[[t|parts]|m|r] l IH]; intros p; cbn [map answers with_result r_tool_call_id]; [done|by apply IH..|].
  case_bool_decide; [apply IH|done].
Qed.

Lemma downgrade_assistant l m : Assistant m ∈ _downgrade_unsupported_images l model → Assistant m ∈ l.
Proof.
  unfold _downgrade_unsupported_images. destruct (accepts_images model); [done|].
  intros (x & Hx & Hin)%list_elem_of_fmap. by destruct x as [[t|parts]|m'|r]; simplify_eq.
Qed.

Lemma transformed_paired l : names_ok l → is_Some (answers [] l) → paired [] (_transform_messages model norm l) = Some [].
Proof.
  intros [H1 H2 H3] Ha. unfold _transform_messages. set (l' := _downgrade_unsupported_images l model).
  assert (∀ m, Assistant m ∈ l' → Assistant m ∈ l) as Hin by (intros m; apply downgrade_assistant).
  assert (names_ok l') as Hok by (split; eauto).
  apply repaired_paired; [apply transform_distinct, Hok|]. rewrite <-(downgrade_answers l) in Ha.
  apply (transform_answers l' [] [] []); [done| |by left|done]. split; [intros m id Hm; by apply elem_of_nil in Hm|done].
Qed.
End names.

(** ** On the wire *)

Notation dict := (list (text * pv)) (only parsing).

Definition wire_role (d : dict) : pv := default PNone (p_get "role" d).

(** The identifiers of the calls of a message. *)
Definition wire_calls (d : dict) : list pv :=
  match p_get "tool_calls" d with
  | Some (PList l) => map (λ c, match c with PDict f => default PNone (p_get "id" f) | _ => PNone end) l
  | _ => []
  end.
Definition wire_result (d : dict) : pv := default PNone (p_get "tool_call_id" d).

(** What providers ask for: behind a message with calls come the results of exactly these
    calls, one each, before anything else. *)
Fixpoint wire_paired (pending : list pv) (l : list dict) : bool :=
  match l with
  | [] => none pending
  | d :: l =>
      if bool_decide (wire_role d = p_string "tool") then
        bool_decide (wire_result d ∈ pending) && wire_paired (filter (λ i, i ≠ wire_result d) pending) l
      else if bool_decide (wire_role d = p_string "assistant") then
        none pending && bool_decide (NoDup (wire_calls d)) && wire_paired (wire_calls d) l
      else none pending && wire_paired [] l
  end.

Ltac different_keys := let H := fresh in intros H; vm_compute in H; discriminate H.

(** The role is the assistant's, and the calls are these. *)
Definition assistant_with (calls : option pv) (out : dict) : Prop :=
  p_get "role" out = Some (p_string "assistant") ∧ p_get "tool_calls" out = calls.

Lemma with_set calls key v out : key ≠ lit "role" → key ≠ lit "tool_calls" → assistant_with calls out →
  assistant_with calls (od_set key v out).
Proof. intros H1 H2 [H3 H4]. unfold assistant_with, p_get. by rewrite !od_get_set, !decide_False by done. Qed.

Lemma with_put_items calls key items out : lit key ≠ lit "role" → lit key ≠ lit "tool_calls" → assistant_with calls out →
  assistant_with calls (put_items key items out).
Proof. intros. destruct items; [done|]. by apply with_set. Qed.

(** The signatures of thoughts, which become keys of the message. *)
Definition good_key (sign : option text) : Prop := ∀ s, sign = Some s → s ≠ lit "role" ∧ s ≠ lit "tool_calls".
Definition good_keys (m : AssistantMessage) : Prop := ∀ t s r, ThinkingContent t s r ∈ a_content m → good_key s.

Lemma with_textual calls model compat out thinking content : Forall (λ p, good_key p.2) thinking → assistant_with calls out →
  assistant_with calls (_apply_textual_reasoning model compat out thinking content).
Proof.
  intros Hk Ho. unfold _apply_textual_reasoning. destruct thinking as [|[t s] thinking]; [done|].
  apply Forall_inv in Hk. cbn [snd] in Hk. destruct (flag _ _); [apply with_set; [different_keys..|done]|].
  set (s' := match model, s with Some _, Some _ => _ | _, _ => _ end).
  assert (good_key s') as Hk'.
  { subst s'. destruct model, s; try done. case_bool_decide; [|done]. intros x [= <-]. split; different_keys. }
  clearbody s'. destruct s' as [[|c s']|]; [done| |done]. destruct (Hk' _ eq_refl). by apply with_set.
Qed.

Lemma thoughts_good m : good_keys m → Forall (λ p, good_key p.2) (_assistant_reasoning m).2.
Proof.
  intros Hm. cbn [_assistant_reasoning snd]. apply Forall_forall. intros [t s] Hin.
  apply list_elem_of_In, filter_In in Hin as [Hin _]. apply list_elem_of_In, list_elem_of_omap in Hin as (b & Hb & Hs).
  destruct b as [p|t' s' r|c]; try done. destruct (blank t'); [done|]. injection Hs as -> ->. by eapply Hm.
Qed.

Section wire.
Variable float_repr : SpecFloat.spec_float → text.
Variable model : option Model.
Variable compat : OpenAICompat.

Lemma payload_ids m : map (λ c, match c with PDict f => default PNone (p_get "id" f) | _ => PNone end) (_assistant_tool_payloads float_repr m).1 =
  map PStr (ids_of m).
Proof. cbn [_assistant_tool_payloads fst]. unfold ids_of. rewrite !map_map. apply map_ext. intros c. done. Qed.

Lemma payload_none m : none (_assistant_tool_payloads float_repr m).1 = none (calls_of m).
Proof. cbn [_assistant_tool_payloads fst]. by destruct (calls_of m). Qed.

Lemma assistant_wire m : good_keys m → match _convert_assistant_message float_repr model compat m with
  | Some d => wire_role d = p_string "assistant" ∧ wire_calls d = map PStr (ids_of m)
  | None => ids_of m = []
  end.
Proof.
  intros Hm. unfold _convert_assistant_message. pose proof (thoughts_good m Hm) as Hk. destruct (_assistant_reasoning m) as [items thinking].
  pose proof (payload_ids m) as Hids. pose proof (payload_none m) as Hnone. destruct (_assistant_tool_payloads float_repr m) as [calls details].
  cbn [fst snd] in *.
  assert (none calls = true → ids_of m = []) as Hempty by (rewrite Hnone; unfold ids_of; by destruct (calls_of m)).
  destruct (none _ && _ && _ && none calls) eqn:Hn; [apply Hempty; by apply andb_true_iff in Hn as [_ ?]|]. clear Hn. cbn zeta.
  set (out := obj _).
  assert (assistant_with None out) as Ho by by split.
  apply (with_put_items _ "codex_reasoning_items" items) in Ho; [|different_keys..].
  apply (with_textual _ model compat _ thinking (_assistant_text m) Hk) in Ho.
  revert Ho. generalize (_apply_textual_reasoning model compat (put_items "codex_reasoning_items" items out) thinking (_assistant_text m)).
  clear out. intros out Ho.
  assert (assistant_with (match calls with [] => None | _ => Some (PList calls) end) (put_items "tool_calls" calls out)) as H1.
  { destruct calls; [done|]. destruct Ho as [Ho _]. unfold assistant_with, put_items, put, p_get in *.
    rewrite !od_get_set, decide_False, decide_True by (done || different_keys). done. }
  apply (with_put_items _ "reasoning_details" details) in H1; [|different_keys..]. revert H1.
  generalize (put_items "reasoning_details" details (put_items "tool_calls" calls out)). clear out Ho. intros out Ho.
  assert (assistant_with (match calls with [] => None | _ => Some (PList calls) end)
    (if negb (none (_assistant_text m)) && negb (flag "requires_thinking_as_text" compat)
     then put "content" (PStr (_assistant_text m)) out else out)) as H1 by (destruct (_ && _); [apply with_set; [different_keys..|done]|done]).
  revert H1. generalize (if negb (none (_assistant_text m)) && negb (flag "requires_thinking_as_text" compat)
     then put "content" (PStr (_assistant_text m)) out else out). clear out Ho. intros out Ho.
  set (out' := match model, p_get "reasoning_content" out with Some _, None => _ | _, _ => _ end).
  assert (assistant_with (match calls with [] => None | _ => Some (PList calls) end) out') as H1.
  { subst out'. destruct model as [md|]; [|done]. destruct (p_get _ out); [done|]. destruct (_ && _); [apply with_set; [different_keys..|done]|done]. }
  clearbody out'. destruct (negb _ && none calls) eqn:Hend; [apply Hempty; by apply andb_true_iff in Hend as [_ ?]|].
  destruct H1 as [Hrole Hcalls]. unfold wire_role, wire_calls. rewrite Hrole, Hcalls. split; [done|]. by destruct calls.
Qed.

(** A message of another role than the assistant's and a tool's. *)
Lemma wire_other d l : wire_role d ≠ p_string "tool" → wire_role d ≠ p_string "assistant" → wire_paired [] (d :: l) = wire_paired [] l.
Proof. intros H1 H2. cbn [wire_paired]. by rewrite !bool_decide_false by done. Qed.

Lemma wire_no_calls d l : wire_role d = p_string "assistant" → wire_calls d = [] → wire_paired [] (d :: l) = wire_paired [] l.
Proof.
  intros H1 H2. cbn [wire_paired]. rewrite H1, bool_decide_false by different_keys. rewrite bool_decide_true by done.
  rewrite H2. by rewrite bool_decide_true by constructor.
Qed.

Lemma wire_user c l : ∀ d, _convert_message float_repr model compat (User c) = Some d → wire_paired [] (d :: l) = wire_paired [] l.
Proof. intros d. destruct c; intros [= <-]; (rewrite wire_other; [done|different_keys..]). Qed.

Lemma wire_processed l : wire_paired [] (processed :: l) = wire_paired [] l.
Proof. by apply wire_no_calls. Qed.

Lemma filter_PStr id l : filter (λ i, i ≠ PStr id) (map PStr l) = map PStr (without id l).
Proof.
  unfold without. induction l as [|x l IH]; [done|]. cbn [map]. rewrite !filter_cons. case_decide as E; rewrite IH.
  - by rewrite decide_True by congruence.
  - rewrite decide_False; [done|]. intros Hx. apply Hx. congruence.
Qed.

Lemma wire_tool r pending rest : wire_paired pending (_convert_single_tool_result r (Some compat) :: rest) =
  bool_decide (PStr (r_tool_call_id r) ∈ pending) && wire_paired (filter (λ i, i ≠ PStr (r_tool_call_id r)) pending) rest.
Proof. done. Qed.

(** The results at the head of a history. *)
Lemma leading_split l : let '(group, rest) := leading_results l in
  l = map ToolResult group ++ rest ∧ (length rest <= length l)%nat ∧ match rest with ToolResult _ :: _ => False | _ => True end.
Proof.
  induction l as [|[c|m|r] l IH]; cbn; try (split; [done|split; [lia|done]]).
  destruct (leading_results l) as [group rest]. destruct IH as (-> & Hlen & Hrest). split; [done|]. split; [|done].
  cbn in *. lia.
Qed.

Lemma group_wire group rest : ∀ P, paired P (map ToolResult group) = Some [] → wire_paired [] rest = true →
  wire_paired (map PStr P) (map (λ r, _convert_single_tool_result r (Some compat)) group ++ rest) = true.
Proof.
  induction group as [|r group IH]; intros P Hp Hrest; cbn [map app paired] in *; [by injection Hp as ->|].
  case_bool_decide as Hin; [|done]. rewrite wire_tool. rewrite bool_decide_true by by apply list_elem_of_fmap_2.
  rewrite filter_PStr. by apply IH.
Qed.

Lemma group_images_wire group P rest : paired P (map ToolResult group) = Some [] → wire_paired [] rest = true →
  wire_paired (map PStr P) ((_convert_tool_result_group model compat group).1 ++ rest) = true.
Proof.
  intros Hp Hrest. unfold _convert_tool_result_group. set (parts := match model with Some md => _ | None => [] end).
  clearbody parts. destruct parts as [|part parts]; cbn [fst]; [by apply group_wire|]. rewrite <-app_assoc. apply group_wire; [done|].
  assert (∀ c, wire_paired [] (obj [("role", p_string "user"); ("content", c)]%string :: rest) = true) as Hu.
  { intros c. rewrite wire_other; [done|different_keys..]. }
  destruct (flag _ compat); cbn [app]; [rewrite wire_processed|]; apply Hu.
Qed.

Lemma convert_loop_wire fuel : ∀ last l P, (length l <= fuel)%nat → (∀ m, Assistant m ∈ l → good_keys m) → paired P l = Some [] →
  wire_paired (map PStr P) (convert_loop float_repr model compat fuel last l) = true.
Proof.
  induction fuel as [|fuel IH]; intros last l P Hlen Hg Hp.
  { destruct l; [|cbn in Hlen; lia]. by injection Hp as ->. }
  destruct l as [|m rest]; [by injection Hp as ->|]. cbn in Hlen. destruct m as [c|m|r].
  - cbn [paired] in Hp. destruct (none P) eqn:HP; [|done]. apply none_iff in HP as ->. cbn [convert_loop is_user].
    assert (∃ d, _convert_message float_repr model compat (User c) = Some d) as [d Hd] by (destruct c; eauto).
    rewrite Hd. assert (wire_paired [] (d :: convert_loop float_repr model compat fuel (role_of (User c)) rest) = true) as H.
    { rewrite (wire_user c _ d Hd). apply (IH _ rest []); [lia| |done]. intros m Hm. apply Hg. set_solver. }
    destruct (flag _ compat); [|exact H]. destruct last; exact H.
  - cbn [paired] in Hp. destruct (none P) eqn:HP; [|done]. apply none_iff in HP as ->. cbn [andb] in Hp.
    case_bool_decide as Hnd; [|done]. cbn [convert_loop is_user]. rewrite andb_false_r. cbn [app _convert_message].
    assert (good_keys m) as Hgm by (apply Hg; set_solver). pose proof (assistant_wire m Hgm) as Hw.
    assert (∀ m, Assistant m ∈ rest → good_keys m) as Hg' by (intros m' Hm'; apply Hg; set_solver).
    destruct (_convert_assistant_message _ _ _ m) as [d|]; [|rewrite Hw in Hp; by apply (IH _ rest []); [lia| |]].
    destruct Hw as [Hrole Hcalls]. cbn [wire_paired]. rewrite Hrole, bool_decide_false by different_keys.
    rewrite bool_decide_true by done. rewrite Hcalls. cbn [none andb map]. rewrite bool_decide_true.
    { cbn [andb]. apply (IH _ rest); [lia|done|done]. }
    apply NoDup_fmap_2; [|done]. by intros x y [= ->].
  - cbn [convert_loop is_user]. rewrite andb_false_r. cbn [app]. pose proof (leading_split (ToolResult r :: rest)) as Hl.
    destruct (leading_results (ToolResult r :: rest)) as [group rest'] eqn:Hlead. destruct Hl as (Heq & Hlen' & Hrest').
    destruct group as [|r0 group]; [cbn in Heq; by subst rest'|].
    rewrite Heq in Hp. rewrite paired_app in Hp. destruct (paired P (map ToolResult (r0 :: group))) as [Q|] eqn:HQ; [|done].
    cbn [mbind option_bind] in Hp.
    assert (Q = []) as ->.
    { destruct rest' as [|[c|m|r']  rest']; [by injection Hp| | |done]; cbn [paired] in Hp; destruct Q; done. }
    apply (f_equal length) in Heq as Hlen''. rewrite length_app in Hlen''. cbn in Hlen''.
    pose proof (λ last, IH last rest' [] ltac:(lia) ltac:(intros m Hm; apply Hg; rewrite Heq; set_solver) Hp) as Hrest.
    pose proof (λ last, group_images_wire (r0 :: group) P _ HQ (Hrest last)) as Hgroup.
    destruct (_convert_tool_result_group _ _ _) as [converted with_images]. apply Hgroup.
Qed.
End wire.

(** ** What is kept *)

Lemma pop_users_incl m l : m ∈ pop_users l → m ∈ l.
Proof. induction l as [|x l IH]; cbn; [done|]. destruct (is_user x); set_solver. Qed.

Lemma drop_users_incl m l : m ∈ _drop_unanswered_user_messages l → m ∈ l.
Proof. 
  unfold _drop_unanswered_user_messages. intros H%list_elem_of_In%in_rev%list_elem_of_In%pop_users_incl.
  by apply list_elem_of_In, in_rev, list_elem_of_In.
 Qed.

Lemma missing_incl m result pending existing : Assistant m ∈ _append_missing_tool_results result pending existing → Assistant m ∈ result.
Proof.
  unfold _append_missing_tool_results. intros [?|(c & Hc & Hm)%list_elem_of_omap]%elem_of_app; [done|]. by case_bool_decide.
Qed.

Lemma repair_loop_incl m l : ∀ result pending existing, Assistant m ∈ repair_loop result pending existing l → Assistant m ∈ result ∨ Assistant m ∈ l.
Proof.
  induction l as [|[c|m'|r] l IH]; intros result pending existing; cbn [repair_loop].
  - intros H%missing_incl. by left.
  - destruct pending; intros [H|H]%IH; try set_solver. apply elem_of_app in H as [H%missing_incl|H]; set_solver.
  - set (result' := match pending with [] => result | _ => _append_missing_tool_results result pending existing end).
    assert (Assistant m ∈ result' → Assistant m ∈ result) as Hin by (subst result'; destruct pending; [done|apply missing_incl]).
    destruct pending as [|call pending]; fold result' in Hin; cbn zeta;
      (destruct (failed m'); [intros [H%drop_users_incl|H]%IH; set_solver|]; destruct (calls_of m'); intros [H|H]%IH; set_solver).
  - intros [H|H]%IH; set_solver.
Qed.

Lemma transform_blocks_thoughts model norm m same t s r l : ∀ ids,
  ThinkingContent t s r ∈ (transform_blocks model norm m same l ids).1 → ThinkingContent t s r ∈ l.
Proof.
  induction l as [|b l IH]; intros ids; cbn [transform_blocks]; [done|].
  destruct (_transform_assistant_block model norm m same b ids) as [b' ids1] eqn:Hb. specialize (IH ids1).
  destruct (transform_blocks model norm m same l ids1) as [rest ids2]. cbn [fst] in *.
  destruct b' as [b'|]; [|set_solver]. intros [Heq|?]%elem_of_cons; [|set_solver]. subst b'. apply elem_of_cons. left.
  destruct b as [[t' s'|d mt]|t' s' r'|c]; cbn in Hb.
  - by destruct same; simplify_eq.
  - by simplify_eq.
  - unfold _transform_thinking_block in Hb. destruct r'; [by destruct same; simplify_eq|].
    destruct (same && is_set s'); [by simplify_eq|]. destruct (blank t'); [done|]. by destruct same; simplify_eq.
  - by destruct (_transform_tool_call model norm m same c ids); simplify_eq.
Qed.

Lemma transform_loop_good model norm l m : ∀ ids, (∀ m, Assistant m ∈ l → good_keys m) → Assistant m ∈ transform_loop model norm ids l → good_keys m.
Proof.
  induction l as [|[c|m'|r] l IH]; intros ids Hg; cbn [transform_loop]; [set_solver|..].
  - intros Hm. apply (IH ids); [intros; apply Hg; set_solver|set_solver].
  - unfold _transform_assistant_message. pose proof (transform_blocks_thoughts model norm m' (same_model model m')) as Ht.
    specialize (Ht) . destruct (transform_blocks _ _ m' _ (a_content m') ids) as [content ids'] eqn:E.
    intros [Heq|Hm]%elem_of_cons; [|apply (IH ids'); [intros; apply Hg; set_solver|done]].
    injection Heq as ->. intros t s r Hin. cbn in Hin. apply (Hg m' ltac:(set_solver) t s r).
    apply (Ht t s r (a_content m') ids). by rewrite E.
  - intros Hm. apply (IH ids); [intros; apply Hg; set_solver|set_solver].
Qed.

Lemma transformed_good model norm l m : (∀ m, Assistant m ∈ l → good_keys m) → Assistant m ∈ _transform_messages model norm l → good_keys m.
Proof.
  intros Hg [H|H]%repair_loop_incl; [by apply elem_of_nil in H|]. eapply transform_loop_good; [|done].
  intros m' Hm'. by apply Hg, (downgrade_assistant model).
Qed.

(** A result that the translation has put in. *)
Definition placeholder (m : Message) : bool :=
  match m with
  | ToolResult {| r_content := [TextContent t None]; r_is_error := true |} => bool_decide (t = lit "No result provided")
  | _ => false
  end.
Definition real (l : list Message) : list Message := List.filter (λ m, negb (placeholder m)) l.

(** The next message that is no input of the user is a failed one. *)
Fixpoint fails_next (l : list Message) : bool :=
  match l with User _ :: l => fails_next l | Assistant m :: _ => failed m | _ => false end.

(** The history without failed messages, and without the input they leave unanswered. *)
Fixpoint kept (l : list Message) : list Message :=
  match l with
  | [] => []
  | Assistant m :: l => if failed m then kept l else Assistant m :: kept l
  | User c :: l => if fails_next l then kept l else User c :: kept l
  | ToolResult r :: l => ToolResult r :: kept l
  end.

Definition ends_user (l : list Message) : bool := match last l with Some m => is_user m | None => false end.

Lemma drop_users_id l : ends_user l = false → _drop_unanswered_user_messages l = l.
Proof.
  unfold ends_user, _drop_unanswered_user_messages. destruct l as [|x l _] using rev_ind; [done|]. rewrite last_snoc, rev_app_distr. cbn.
  intros ->. cbn. by rewrite rev_involutive.
Qed.

Lemma drop_users_snoc l c : _drop_unanswered_user_messages (l ++ [User c]) = _drop_unanswered_user_messages l.
Proof. unfold _drop_unanswered_user_messages. by rewrite rev_app_distr. Qed.

Lemma drop_users_ends l : ends_user (_drop_unanswered_user_messages l) = false.
Proof.
  unfold ends_user, _drop_unanswered_user_messages. induction (rev l) as [|m r IH]; [done|]. cbn.
  destruct (is_user m) eqn:Hm; [done|]. cbn. by rewrite last_snoc.
Qed.

Lemma ends_snoc l m : ends_user (l ++ [m]) = is_user m.
Proof. unfold ends_user. by rewrite last_snoc. Qed.

Lemma real_app l1 l2 : real (l1 ++ l2) = real l1 ++ real l2.
Proof. apply List.filter_app. Qed.

Lemma append_missing_real result pending existing : real (_append_missing_tool_results result pending existing) = real result.
Proof.
  unfold _append_missing_tool_results. rewrite real_app. rewrite <-(app_nil_r (real result)) at 2. f_equal.
  induction pending as [|c pending IH]; [done|]. cbn [omap list_omap]. case_bool_decide; [done|].
  cbn [real List.filter placeholder r_content r_is_error]. by rewrite bool_decide_true.
Qed.

Lemma append_missing_ends result pending existing : ends_user result = false →
  ends_user (_append_missing_tool_results result pending existing) = false.
Proof.
  intros H. unfold _append_missing_tool_results. set (added := omap _ pending).
  assert (∀ m, m ∈ added → is_user m = false) as Hadded.
  { intros m (c & _ & Hm)%list_elem_of_omap. case_bool_decide; [done|]. by injection Hm as <-. }
  destruct added as [|x added' _] using rev_ind; [by rewrite app_nil_r|]. rewrite app_assoc, ends_snoc. apply Hadded. set_solver.
Qed.

Lemma repair_loop_real l : ∀ result pending existing, (pending ≠ [] → ends_user result = false) →
  real (repair_loop result pending existing l) =
  real (if fails_next l then _drop_unanswered_user_messages result else result) ++ real (kept l).
Proof.
  induction l as [|[c|m|r] l IH]; intros result pending existing Hp; cbn [repair_loop fails_next kept].
  - rewrite append_missing_real. symmetry. apply app_nil_r.
  - assert (∀ result' existing', real result' = real result → 
      real (_drop_unanswered_user_messages result') = real (_drop_unanswered_user_messages result) →
      real (repair_loop (result' ++ [User c]) [] existing' l) =
      real (if fails_next l then _drop_unanswered_user_messages result else result) ++
      real (if fails_next l then kept l else User c :: kept l)) as Hnext.
    { intros result' existing' H1 H2. rewrite IH by done. destruct (fails_next l).
      - by rewrite drop_users_snoc, H2.
      - rewrite real_app, H1, <-app_assoc. done. }
    destruct pending as [|call pending]; [by apply Hnext|]. apply Hnext; [apply append_missing_real|].
    rewrite !drop_users_id; [apply append_missing_real|by apply Hp|by apply append_missing_ends, Hp].
  - assert (∀ result' existing', real result' = real result → 
      real (_drop_unanswered_user_messages result') = real (_drop_unanswered_user_messages result) →
      real (if failed m then repair_loop (_drop_unanswered_user_messages result') [] existing' l
            else match calls_of m with
                 | [] => repair_loop (result' ++ [Assistant m]) [] existing' l
                 | calls => repair_loop (result' ++ [Assistant m]) calls [] l
                 end) =
      real (if failed m then _drop_unanswered_user_messages result else result) ++
      real (if failed m then kept l else Assistant m :: kept l)) as Hnext.
    { intros result' existing' H1 H2.
      assert (∀ pending existing, real (repair_loop (result' ++ [Assistant m]) pending existing l) =
        real result ++ real (Assistant m :: kept l)) as Hkeep.
      { intros pend ex. rewrite IH by (intros _; by rewrite ends_snoc).
        rewrite drop_users_id by by rewrite ends_snoc. destruct (fails_next l); rewrite real_app, H1, <-app_assoc; done. }
      destruct (failed m); [|by destruct (calls_of m)]. rewrite IH by done.
      rewrite (drop_users_id (_drop_unanswered_user_messages result')) by apply drop_users_ends.
      destruct (fails_next l); by rewrite H2. }
    destruct pending as [|call pending]; [by apply Hnext|]. apply Hnext; [apply append_missing_real|].
    rewrite !drop_users_id; [apply append_missing_real|by apply Hp|by apply append_missing_ends, Hp].
  - rewrite IH by (intros _; by rewrite ends_snoc).
    rewrite drop_users_id by by rewrite ends_snoc. destruct (fails_next l); rewrite real_app, <-app_assoc; cbn [real List.filter app];
      by destruct (negb (placeholder (ToolResult r))).
Qed.

(** ** The properties *)



(** ** Witnesses *)

Definition sample_model : Model :=
  {| md_id := lit "gpt"; md_api := lit "openai-completions"; md_provider := lit "openai"; md_base_url := []; md_reasoning := true;
     md_input := ["text"%string]; md_compat := None |}.

Definition sample_call (id : string) : ToolCall :=
  {| call_id := lit id; call_name := lit "read"; call_arguments := []; call_thought_signature := None |}.

(** Two calls of another model, one of them answered when the user interrupts. *)
Definition sample_answer : AssistantMessage :=
  {| a_content := [ThinkingContent (lit "hm") (Some (lit "reasoning")) false; ToolCallBlock (sample_call "c1|fc_1"); ToolCallBlock (sample_call "c2|fc_2")];
     a_api := lit "openai-responses"; a_provider := lit "other"; a_model := lit "m"; a_stop_reason := "toolUse" |}.

Definition sample_history : list Message :=
  [User (Plain (lit "read it")); Assistant sample_answer;
   ToolResult {| r_tool_call_id := lit "c1|fc_1"; r_tool_name := lit "read"; r_content := [TextContent (lit "text") None]; r_is_error := false |};
   User (Plain (lit "stop"))].

Definition sample_context : Context := {| system_prompt := Some (lit "be brief"); messages := sample_history; tools := None |}.

Lemma sample_assistant m : Assistant m ∈ sample_history → m = sample_answer.
Proof. unfold sample_history. rewrite !elem_of_cons. by intros [?|[?|[?|[?|?%elem_of_nil]]]]; simplify_eq. Qed.

Lemma sample_names : names_ok sample_model None sample_history.
Proof.
  split.
  - intros m ->%sample_assistant. apply (bool_decide_unpack _). vm_compute. done.
  - by intros m1 m2 id ->%sample_assistant ->%sample_assistant.
  - intros m id ->%sample_assistant Hid. change (id ∈ [lit "c1|fc_1"; lit "c2|fc_2"]) in Hid. rewrite !elem_of_cons in Hid.
    destruct Hid as [->|[->|H%elem_of_nil]]; [vm_compute; done..|done].
Qed.

Lemma sample_keys m : Assistant m ∈ messages sample_context → good_keys m.
Proof.
  intros ->%sample_assistant t s r Hin. cbn [sample_answer a_content] in Hin. rewrite !elem_of_cons in Hin.
  destruct Hin as [[= _ -> _]|[[=]|[[=]|[]%elem_of_nil]]]. intros k [= <-]. split; different_keys.
Qed.


(** A failed answer takes with it all the input before it, up to the last message that is
    no input: also the summary of a compaction, which is sent as input of the user.  The next
    message of the user is then sent without any of the conversation. *)
Example summary_dropped :
  let failure := {| a_content := []; a_api := []; a_provider := []; a_model := []; a_stop_reason := "error" |} in
  let again := User (Plain (lit "again")) in
  _transform_messages sample_model None (default_convert_to_llm
    [CompactionSummary (lit "all that was done"); ProviderMsg (User (Plain (lit "go on"))); ProviderMsg (Assistant failure);
     ProviderMsg again]) = [again].
Proof. vm_compute. done. Qed.

(** Two calls whose identifiers differ behind the fortieth character get one name. *)
Example long_names_collide :
  let long x := repeat 97 40 ++ [x] in
  _normalize_tool_call_id (long 1) sample_model = _normalize_tool_call_id (long 2) sample_model.
Proof. vm_compute. done. Qed.
