(* ===== verification/ManagedProcess.v ===== *)
(** Managed processes (travis/coding_agent/processes/service.py, types.py): the life of a
    process and the service that owns the processes of an application.

    A process is served by several threads: the monitor, which waits for its end and
    publishes it; the pump, which writes its input; the readers of its output; the callers.
    What a thread does while it holds the lock of the record is one action, and the actions
    interleave in any order.  What the transport, the output spool, the completion store and
    the clock answer are parts of an action.  [wakeup], which only shortens a wait, and the
    foreground updates, which only show output, are left out. *)

From S2P Require Import Prelude PyDict PyFloat.
Open Scope Z_scope.

(** ** States and records *)

(** [src: travis/coding_agent/processes/types.py:13-22 ProcessState] *)
Inductive ProcessState : Type :=
  | STARTING | RUNNING | STOPPING | DRAINING | EXITED | TIMED_OUT | TERMINATED | FAILED.
#[export] Instance ProcessState_eq_dec : EqDecision ProcessState.
Proof. solve_decision. Defined.

(** [src: travis/coding_agent/processes/types.py:23-30 ProcessState.terminal] *)
Definition terminal (s : ProcessState) : bool :=
  match s with EXITED | TIMED_OUT | TERMINATED | FAILED => true | _ => false end.

Definition state_value (s : ProcessState) : string :=
  match s with
  | STARTING => "starting" | RUNNING => "running" | STOPPING => "stopping" | DRAINING => "draining"
  | EXITED => "exited" | TIMED_OUT => "timed_out" | TERMINATED => "terminated" | FAILED => "failed"
  end.

(** [src: travis/coding_agent/processes/types.py:33-38 StopCause] *)
Inductive StopCause : Type := TIMEOUT | ABORT_BEFORE_YIELD | TERMINATE | KILL | SHUTDOWN.
#[export] Instance StopCause_eq_dec : EqDecision StopCause.
Proof. solve_decision. Defined.

(** [src: travis/coding_agent/processes/types.py:41-46 ProcessOwner] *)
Record ProcessOwner : Type := { app_instance_id : string; workspace_key : string; origin : string }.
#[export] Instance ProcessOwner_eq_dec : EqDecision ProcessOwner.
Proof. solve_decision. Defined.

(** [src: travis/coding_agent/processes/types.py:47-49 ProcessOwner.persistence_scope] *)
Definition persistence_scope (o : ProcessOwner) : string * string := (workspace_key o, origin o).

(** [src: travis/coding_agent/processes/types.py:66-77 ProcessLaunchRequest]: what the service
    itself reads. *)
Record ProcessLaunchRequest : Type := {
  command : string;
  cwd : string;
  tty : bool;
  timeout_seconds : option float64;
  launch_session_id : option string
}.

(** [src: travis/coding_agent/processes/types.py:52-63 ProcessCompletionRecord] *)
Record ProcessCompletionRecord : Type := {
  c_session_id : string;
  c_state : ProcessState;
  c_exit_code : option Z;
  c_output_size : Z;
  c_total_lines : Z;
  c_elapsed_ms : Z;
  c_completed_at : float64;
  c_launch_session_id : option string;
  c_failure_code : option string;
  c_tty : bool
}.

(** [src: travis/coding_agent/processes/types.py:126-131 ProcessEvent] *)
Record ProcessEvent : Type := {
  e_session_id : string;
  e_state : ProcessState;
  e_exit_code : option Z;
  e_owner : ProcessOwner
}.

Inductive process_error : Type :=
  | ValueError
  | ProcessNotFoundError
  | ProcessStateError
  | ProcessLimitError
  | ProcessClosedError
  | ProcessInputLimitError.

(** [src: travis/coding_agent/processes/service.py:50-55 _InputItem] *)
Record InputItem : Type := { i_data : list Z; i_eof : bool; i_completed : bool; i_error_name : option string }.

(** Where the pump is: waiting for an item, writing it, reporting a failure, finishing. *)
Inductive pump_pc : Type :=
  | PumpIdle
  | PumpWriting (item : nat)
  | PumpFailing (item : nat) (error : string)
  | PumpFinishing (item : nat)
  | PumpEnded.

(** Where the monitor is: in its loop, at its timeout, behind the loop with the exit code,
    draining, with the output finished, with its decision made, stamped, persisted,
    published, done; or on the way of its exception handler, where [guarded] is false, or
    gone, when that handler raises itself. *)
Inductive monitor_pc : Type :=
  | Polling
  | TimingOut
  | Leaving (exit_code : option Z)
  | Draining
  | OutputFinished
  | Decided (guarded : bool) (t : ProcessState)
  | Stamped (guarded : bool) (t : ProcessState)
  | Persisted (t : ProcessState)
  | Published
  | MonitorDone
  | Crashed (error : string)
  | Reaping
  | MonitorLost.

Inductive signal_name : Type := Terminate | Kill.
#[export] Instance signal_name_eq_dec : EqDecision signal_name.
Proof. solve_decision. Defined.

Record Status : Type := {
  state : ProcessState;
  stop_cause : option StopCause;
  exit_code : option Z;
  failure_code : option string;
  terminal_at : option float64
}.

(** The items of the input are shared by the writer and the pump: the queue holds their
    places in [items]; [None] ends the pump. *)
Record Input : Type := {
  items : list InputItem;
  queue : list (option nat);
  pending_input_bytes : Z;
  input_closed : bool;
  input_error : option string;
  pump : pump_pc
}.

Record Control : Type := {
  terminate_sent : bool;
  kill_sent : bool;
  force_finalize : bool;
  detached : bool;
  active_calls : Z;
  reader_count : Z
}.

Record Outcome : Type := {
  output_error : option string;
  durable_output : bool;
  full_output_path : option string;
  persistence_error : option string;
  event_emitted : bool
}.

(** [src: travis/coding_agent/processes/service.py:58-102 _ManagedProcess]: with the place of
    the monitor, and what has been done to the outside: the signals of [_safe_signal], the
    completions persisted, the events emitted. *)
Record ManagedProcess : Type := {
  session_id : string;
  owner : ProcessOwner;
  request : ProcessLaunchRequest;
  started_at : float64;
  status : Status;
  input : Input;
  control : Control;
  outcome : Outcome;
  monitor : monitor_pc;
  signals : list signal_name;
  completions : list ProcessCompletionRecord;
  events : list ProcessEvent
}.

(** [src: travis/coding_agent/processes/service.py:59-102 _ManagedProcess.__init__] *)
Definition new_process (i : string) (o : ProcessOwner) (r : ProcessLaunchRequest) (now : float64) : ManagedProcess :=
  {| session_id := i; owner := o; request := r; started_at := now;
     status := {| state := RUNNING; stop_cause := None; exit_code := None; failure_code := None; terminal_at := None |};
     input := {| items := []; queue := []; pending_input_bytes := 0; input_closed := false; input_error := None; pump := PumpIdle |};
     control := {| terminate_sent := false; kill_sent := false; force_finalize := false; detached := false; active_calls := 0;
                   reader_count := 0 |};
     outcome := {| output_error := None; durable_output := false; full_output_path := None; persistence_error := None;
                   event_emitted := false |};
     monitor := Polling; signals := []; completions := []; events := [] |}.

Definition on_status (f : Status → Status) (p : ManagedProcess) : ManagedProcess :=
  {| session_id := session_id p; owner := owner p; request := request p; started_at := started_at p; status := f (status p);
     input := input p; control := control p; outcome := outcome p; monitor := monitor p; signals := signals p;
     completions := completions p; events := events p |}.
Definition on_input (f : Input → Input) (p : ManagedProcess) : ManagedProcess :=
  {| session_id := session_id p; owner := owner p; request := request p; started_at := started_at p; status := status p;
     input := f (input p); control := control p; outcome := outcome p; monitor := monitor p; signals := signals p;
     completions := completions p; events := events p |}.
Definition on_control (f : Control → Control) (p : ManagedProcess) : ManagedProcess :=
  {| session_id := session_id p; owner := owner p; request := request p; started_at := started_at p; status := status p;
     input := input p; control := f (control p); outcome := outcome p; monitor := monitor p; signals := signals p;
     completions := completions p; events := events p |}.
Definition on_outcome (f : Outcome → Outcome) (p : ManagedProcess) : ManagedProcess :=
  {| session_id := session_id p; owner := owner p; request := request p; started_at := started_at p; status := status p;
     input := input p; control := control p; outcome := f (outcome p); monitor := monitor p; signals := signals p;
     completions := completions p; events := events p |}.
Definition at_pc (pc : monitor_pc) (p : ManagedProcess) : ManagedProcess :=
  {| session_id := session_id p; owner := owner p; request := request p; started_at := started_at p; status := status p;
     input := input p; control := control p; outcome := outcome p; monitor := pc; signals := signals p;
     completions := completions p; events := events p |}.
Definition logged (s : list signal_name) (c : list ProcessCompletionRecord) (e : list ProcessEvent) (p : ManagedProcess) : ManagedProcess :=
  {| session_id := session_id p; owner := owner p; request := request p; started_at := started_at p; status := status p;
     input := input p; control := control p; outcome := outcome p; monitor := monitor p; signals := signals p ++ s;
     completions := completions p ++ c; events := events p ++ e |}.

Definition set_state (s : ProcessState) (st : Status) : Status :=
  {| state := s; stop_cause := stop_cause st; exit_code := exit_code st; failure_code := failure_code st; terminal_at := terminal_at st |}.
Definition set_output_error (e : option string) (o : Outcome) : Outcome :=
  {| output_error := e; durable_output := durable_output o; full_output_path := full_output_path o;
     persistence_error := persistence_error o; event_emitted := event_emitted o |}.
Definition set_input_error (e : option string) (i : Input) : Input :=
  {| items := items i; queue := queue i; pending_input_bytes := pending_input_bytes i; input_closed := input_closed i;
     input_error := e; pump := pump i |}.
Definition set_pump (pc : pump_pc) (closed : bool) (i : Input) : Input :=
  {| items := items i; queue := queue i; pending_input_bytes := pending_input_bytes i; input_closed := input_closed i || closed;
     input_error := input_error i; pump := pc |}.
Definition set_calls (f : Z → Z) (c : Control) : Control :=
  {| terminate_sent := terminate_sent c; kill_sent := kill_sent c; force_finalize := force_finalize c; detached := detached c;
     active_calls := f (active_calls c); reader_count := reader_count c |}.
Definition set_flags (force det : bool) (readers : Z → Z) (c : Control) : Control :=
  {| terminate_sent := terminate_sent c; kill_sent := kill_sent c; force_finalize := force_finalize c || force;
     detached := detached c || det; active_calls := active_calls c; reader_count := readers (reader_count c) |}.

(** What [transport.poll] answers. *)
Inductive poll_answer : Type :=
  | StillRunning
  | HasExited (code : Z)
  | PollRaises (error : string).

(** ** Stopping *)

(** [src: travis/coding_agent/processes/service.py:849-859 ProcessSessionService._claim_stop]: whether the stop is
    the caller's; [None] when the transport raises. *)
Definition _claim_stop (cause : StopCause) (answer : poll_answer) (p : ManagedProcess) : option bool * ManagedProcess :=
  if terminal (state (status p)) || (if stop_cause (status p) then true else false) then (Some false, p)
  else match answer with
       | HasExited _ => (Some false, p)
       | PollRaises _ => (None, p)
       | StillRunning =>
           (Some true, on_status (λ s, {| state := STOPPING; stop_cause := Some cause; exit_code := exit_code s;
                                          failure_code := failure_code s; terminal_at := terminal_at s |}) p)
       end.

(** [src: travis/coding_agent/processes/service.py:904-909 ProcessSessionService._transport_exited] *)
Definition _transport_exited (answer : poll_answer) : bool := match answer with HasExited _ => true | _ => false end.

(** [src: travis/coding_agent/processes/service.py:876-895 ProcessSessionService._safe_signal]: [raised] is the
    exception of the signal. *)
Definition _safe_signal (name : signal_name) (answer : poll_answer) (raised : option string) (p : ManagedProcess) : ManagedProcess :=
  let c := control p in
  if _transport_exited answer then p
  else
    let blocked := match name with
                   | Terminate => terminate_sent c || kill_sent c
                   | Kill => kill_sent c
                   end in
    if blocked then p
    else
      let p := on_control (λ c, {| terminate_sent := terminate_sent c || bool_decide (name = Terminate);
                                   kill_sent := kill_sent c || bool_decide (name = Kill);
                                   force_finalize := force_finalize c; detached := detached c; active_calls := active_calls c;
                                   reader_count := reader_count c |}) p in
      let p := logged [name] [] [] p in
      match raised with Some e => on_input (set_input_error (Some e)) p | None => p end.

(** [src: travis/coding_agent/processes/service.py:633-648 ProcessSessionService._set_output_failure] *)
Definition _set_output_failure (code error : string) (p : ManagedProcess) : bool * ManagedProcess :=
  if terminal (state (status p)) || (if failure_code (status p) then true else false) then (false, p)
  else (true, on_outcome (set_output_error (Some error))
                (on_status (λ s, {| state := STOPPING; stop_cause := stop_cause s; exit_code := exit_code s;
                                    failure_code := Some code; terminal_at := terminal_at s |}) p)).

(** [src: travis/coding_agent/processes/service.py:838-847 ProcessSessionService._claim_input_failure]: the part
    under the lock. *)
Definition _claim_input_failure (error : string) (p : ManagedProcess) : ManagedProcess :=
  let p := on_input (set_input_error (Some error)) p in
  if terminal (state (status p)) || (if failure_code (status p) then true else false) then p
  else on_status (λ s, {| state := STOPPING; stop_cause := stop_cause s; exit_code := exit_code s;
                          failure_code := Some "input_failure"%string; terminal_at := terminal_at s |}) p.

(** ** Input *)

Definition enqueue (q : option nat) (i : Input) : Input :=
  {| items := items i; queue := queue i ++ [q]; pending_input_bytes := pending_input_bytes i; input_closed := input_closed i;
     input_error := input_error i; pump := pump i |}.

(** [src: travis/coding_agent/processes/service.py:1048-1051 ProcessSessionService._require_running] *)
Definition _require_running (p : ManagedProcess) : result process_error unit :=
  require (bool_decide (state (status p) = RUNNING)) ProcessStateError.

(** [src: travis/coding_agent/processes/service.py:291-330 ProcessSessionService.write]: up to
    the wait for the pump. *)
Definition write_input (max_input_bytes max_pending_input_bytes : Z) (data : list Z) (eof : bool) (p : ManagedProcess)
    : result process_error ManagedProcess :=
  let size := Z.of_nat (length data) in
  if max_input_bytes <? size then Err ProcessInputLimitError
  else
    _ ← _require_running p;
    if eof && tty (request p) then Err ProcessStateError
    else if input_closed (input p) then Err ProcessStateError
    else if max_pending_input_bytes <? pending_input_bytes (input p) + size then Err ProcessInputLimitError
    else Ok (on_input (λ i,
      {| items := items i ++ [{| i_data := data; i_eof := eof; i_completed := false; i_error_name := None |}];
         queue := queue i ++ [Some (length (items i))]; pending_input_bytes := pending_input_bytes i + size;
         input_closed := input_closed i || eof; input_error := input_error i; pump := pump i |}) p).

Definition on_item (k : nat) (f : InputItem → InputItem) (i : Input) : Input :=
  {| items := alter f k (items i); queue := queue i; pending_input_bytes := pending_input_bytes i;
     input_closed := input_closed i; input_error := input_error i; pump := pump i |}.

(** [item = record.input_queue.get()] *)
Definition pump_take (p : ManagedProcess) : option ManagedProcess :=
  match pump (input p), queue (input p) with
  | PumpIdle, q :: rest =>
      Some (on_input (λ i, {| items := items i; queue := rest; pending_input_bytes := pending_input_bytes i;
                              input_closed := input_closed i; input_error := input_error i;
                              pump := match q with Some k => PumpWriting k | None => PumpEnded end |}) p)
  | _, _ => None
  end.

(** The item has been written, or its writing has failed. *)
Definition pump_written (error : option string) (p : ManagedProcess) : option ManagedProcess :=
  match pump (input p) with
  | PumpWriting k =>
      match error with
      | None =>
          let eof := match items (input p) !! k with Some it => i_eof it | None => false end in
          Some (on_input (set_pump (PumpFinishing k) eof) p)
      | Some e =>
          Some (on_input (λ i, set_pump (PumpFailing k e) true
            (on_item k (λ it, {| i_data := i_data it; i_eof := i_eof it; i_completed := i_completed it; i_error_name := Some e |}) i)) p)
      end
  | _ => None
  end.

Definition pump_claims (p : ManagedProcess) : option ManagedProcess :=
  match pump (input p) with
  | PumpFailing k e => Some (on_input (set_pump (PumpFinishing k) false) (_claim_input_failure e p))
  | _ => None
  end.

(** The [finally] of an item.

    [src: travis/coding_agent/processes/service.py:650-675 ProcessSessionService._pump_input] *)
Definition pump_finishes (p : ManagedProcess) : option ManagedProcess :=
  match pump (input p) with
  | PumpFinishing k =>
      let size := match items (input p) !! k with Some it => Z.of_nat (length (i_data it)) | None => 0 end in
      Some (on_input (λ i,
        {| items := alter (λ it, {| i_data := i_data it; i_eof := i_eof it; i_completed := true; i_error_name := i_error_name it |}) k (items i);
           queue := queue i; pending_input_bytes := Z.max 0 (pending_input_bytes i - size); input_closed := input_closed i;
           input_error := input_error i; pump := PumpIdle |}) p)
  | _ => None
  end.

(** ** The monitor *)

(** [timeout_at is not None and now >= timeout_at] *)
Definition timed_out (p : ManagedProcess) (now : float64) : bool :=
  match timeout_seconds (request p) with
  | Some seconds => fl_leb (fl_add (started_at p) seconds) now
  | None => false
  end.

(** One turn of the loop. *)
Definition monitor_polls (answer : poll_answer) (now : float64) (p : ManagedProcess) : ManagedProcess :=
  match answer with
  | PollRaises e => at_pc (Crashed e) p
  | HasExited code => at_pc (Leaving (Some code)) p
  | StillRunning =>
      if force_finalize (control p) then at_pc (Leaving None) p
      else if timed_out p now then at_pc TimingOut p
      else p
  end.

(** [self._begin_stop(record, StopCause.TIMEOUT)] *)
Definition monitor_times_out (answer : poll_answer) (p : ManagedProcess) : ManagedProcess :=
  let '(claimed, p) := _claim_stop TIMEOUT answer p in
  match claimed, answer with
  | None, PollRaises e => at_pc (Crashed e) p
  | _, _ => at_pc Polling p
  end.

Definition monitor_leaves (code : option Z) (p : ManagedProcess) : ManagedProcess :=
  at_pc Draining (on_input (λ i, enqueue None (set_pump (pump i) true i)) (on_status (λ s,
    {| state := DRAINING; stop_cause := stop_cause s; exit_code := code; failure_code := failure_code s; terminal_at := terminal_at s |}) p)).

(** The end of the output: [failure] is the code and the name of what [output.finish] raises. *)
Definition monitor_finishes_output (failure : option (string * string)) (p : ManagedProcess) : ManagedProcess :=
  at_pc OutputFinished (match failure with Some (code, e) => (_set_output_failure code e p).2 | None => p end).

(** The state that a process ends in. *)
Definition terminal_state (s : Status) : ProcessState :=
  match failure_code s, stop_cause s with
  | Some _, _ => FAILED
  | None, Some TIMEOUT => TIMED_OUT
  | None, Some _ => TERMINATED
  | None, None => EXITED
  end.

Definition stamp (now : float64) (s : Status) : Status :=
  {| state := state s; stop_cause := stop_cause s; exit_code := exit_code s; failure_code := failure_code s; terminal_at := Some now |}.

(** [max(0, int((later - earlier) * 1000))] *)
Definition milliseconds (later earlier : float64) : Z := Z.max 0 (fl_trunc (fl_mul (fl_sub later earlier) (fl_of_Z 1000))).

(** What the completion store answers; without a store there is nothing to do. *)
Inductive store_answer : Type :=
  | NoStore
  | Stored (path : string)
  | StoreRaises (error : string).

(** [src: travis/coding_agent/processes/service.py:956-978 ProcessSessionService._persist_completion] *)
Definition _persist_completion (answer : store_answer) (output_size total_lines : Z) (now wall_now : float64) (t : ProcessState)
    (p : ManagedProcess) : ManagedProcess :=
  let terminal_at := default now (terminal_at (status p)) in
  let record := {| c_session_id := session_id p; c_state := t; c_exit_code := exit_code (status p); c_output_size := output_size;
                   c_total_lines := total_lines; c_elapsed_ms := milliseconds terminal_at (started_at p);
                   c_completed_at := wall_now; c_launch_session_id := launch_session_id (request p);
                   c_failure_code := failure_code (status p); c_tty := tty (request p) |} in
  match answer with
  | NoStore => p
  | StoreRaises e =>
      on_outcome (λ o, {| output_error := output_error o; durable_output := durable_output o; full_output_path := full_output_path o;
                          persistence_error := Some e; event_emitted := event_emitted o |}) p
  | Stored path =>
      logged [] [record] [] (on_outcome (λ o,
        {| output_error := output_error o; durable_output := true; full_output_path := Some path;
           persistence_error := persistence_error o; event_emitted := event_emitted o |}) p)
  end.

(** [src: travis/coding_agent/processes/service.py:1058-1070 ProcessSessionService._emit_terminal] *)
Definition _emit_terminal (p : ManagedProcess) : ManagedProcess :=
  if event_emitted (outcome p) then p
  else logged [] [] [{| e_session_id := session_id p; e_state := state (status p); e_exit_code := exit_code (status p); e_owner := owner p |}]
         (on_outcome (λ o, {| output_error := output_error o; durable_output := durable_output o; full_output_path := full_output_path o;
                              persistence_error := persistence_error o; event_emitted := true |}) p).

(** The start of [_finalize_monitor_failure].

    [src: travis/coding_agent/processes/service.py:728-735 ProcessSessionService._finalize_monitor_failure (its start)] *)
Definition monitor_crashes (error : string) (p : ManagedProcess) : ManagedProcess :=
  at_pc Reaping (on_input (λ i, enqueue None (set_pump (pump i) true i)) (on_outcome (set_output_error (Some error)) (on_status (λ s,
    {| state := STOPPING; stop_cause := stop_cause s; exit_code := exit_code s;
       failure_code := match failure_code s with Some ""%string | None => Some "monitor_failure"%string | c => c end;
       terminal_at := terminal_at s |}) p))).

Inductive handoff : Type := HandoffOver | HandoffAborts | HandoffDetaches (p : ManagedProcess) | HandoffWaits.
(** One turn of the wait of [start]: the process is over, the caller has aborted it before
    anyone stopped it, its time is up and it goes on in the background, or the wait goes on.

    [src: travis/coding_agent/processes/service.py:792-813 ProcessSessionService._wait_for_initial_handoff] *)
Definition handoff_turn (aborted expired : bool) (p : ManagedProcess) : handoff :=
  if terminal (state (status p)) then HandoffOver
  else if aborted && negb (if stop_cause (status p) then true else false) then HandoffAborts
  else if (if stop_cause (status p) then true else false) then HandoffWaits
  else if expired then HandoffDetaches (on_control (set_flags false true id) p)
  else HandoffWaits.

(** ** Actions *)

Inductive action : Type :=
  (* callers *)
  | Write (max_input_bytes max_pending_input_bytes : Z) (data : list Z) (eof : bool)
  | ClaimStop (cause : StopCause) (answer : poll_answer)
  | SafeSignal (name : signal_name) (answer : poll_answer) (raised : option string)
  | AcquireCall
  | ReleaseCall
  | HandOff (aborted : bool)
  | ForceFinalize
  (* readers *)
  | StartReaders (count : Z)
  | ReaderFails (code error : string)
  | ReaderEnds
  (* the pump *)
  | PumpTakes
  | PumpWrites (error : option string)
  | PumpClaims
  | PumpFinishes
  (* the monitor *)
  | MonitorPolls (answer : poll_answer) (now : float64)
  | MonitorTimesOut (answer : poll_answer)
  | MonitorLeaves
  | MonitorKillsReaders (raised : option string)
  | MonitorFinishesOutput (failure : option (string * string))
  | MonitorDecides
  | MonitorStamps (now : float64)
  | MonitorPersists (answer : store_answer) (output_size total_lines : Z) (now wall_now : float64)
  | MonitorPublishes
  | MonitorEmits
  | MonitorRaises (error : string)
  | MonitorCrashes
  | MonitorReaps (force : bool)
  | HandlerRaises.

(** Where the body of the monitor may raise: before the result has been persisted. *)
Definition may_raise (pc : monitor_pc) : bool :=
  match pc with
  | Polling | TimingOut | Leaving _ | Draining | OutputFinished | Decided true _ | Stamped true _ => true
  | _ => false
  end.

(** One action; [None] when the thread is elsewhere.  A call that raises changes nothing.

    [src: travis/coding_agent/processes/service.py:677-726 ProcessSessionService._monitor] *)
Definition step (a : action) (p : ManagedProcess) : option ManagedProcess :=
  match a with
  | Write max_input max_pending data eof =>
      match write_input max_input max_pending data eof p with Ok p' => Some p' | Err _ => Some p end
  | ClaimStop cause answer => Some (_claim_stop cause answer p).2
  | SafeSignal name answer raised => Some (_safe_signal name answer raised p)
  | AcquireCall => Some (on_control (set_calls (λ n, n + 1)) p)
  | ReleaseCall => Some (on_control (set_calls (λ n, Z.max 0 (n - 1))) p)
  | HandOff aborted => match handoff_turn aborted true p with HandoffDetaches p' => Some p' | _ => None end
  | ForceFinalize => Some (on_control (set_flags true false id) p)
  | StartReaders count => Some (on_control (set_flags false false (λ _, count)) p)
  | ReaderFails code error => Some (_set_output_failure code error p).2
  | ReaderEnds => Some (on_control (set_flags false false (λ n, Z.max 0 (n - 1))) p)
  | PumpTakes => pump_take p
  | PumpWrites error => pump_written error p
  | PumpClaims => pump_claims p
  | PumpFinishes => pump_finishes p
  | MonitorPolls answer now => match monitor p with Polling => Some (monitor_polls answer now p) | _ => None end
  | MonitorTimesOut answer => match monitor p with TimingOut => Some (monitor_times_out answer p) | _ => None end
  | MonitorLeaves => match monitor p with Leaving code => Some (monitor_leaves code p) | _ => None end
  | MonitorKillsReaders raised =>
      match monitor p with
      | Draining | Reaping =>
          Some (match raised with Some e => on_outcome (set_output_error (Some e)) p | None => p end)
      | _ => None
      end
  | MonitorFinishesOutput failure => match monitor p with Draining => Some (monitor_finishes_output failure p) | _ => None end
  | MonitorDecides => match monitor p with OutputFinished => Some (at_pc (Decided true (terminal_state (status p))) p) | _ => None end
  | MonitorStamps now => match monitor p with Decided g t => Some (at_pc (Stamped g t) (on_status (stamp now) p)) | _ => None end
  | MonitorPersists answer size lines now wall_now =>
      match monitor p with
      | Stamped _ t => Some (at_pc (Persisted t) (_persist_completion answer size lines now wall_now t p))
      | _ => None
      end
  | MonitorPublishes => match monitor p with Persisted t => Some (at_pc Published (on_status (set_state t) p)) | _ => None end
  | MonitorEmits => match monitor p with Published => Some (at_pc MonitorDone (_emit_terminal p)) | _ => None end
  | MonitorRaises error => if may_raise (monitor p) then Some (at_pc (Crashed error) p) else None
  | MonitorCrashes => match monitor p with Crashed error => Some (monitor_crashes error p) | _ => None end
  | MonitorReaps force =>
      match monitor p with
      | Reaping => Some (at_pc (Decided false FAILED) (on_control (set_flags force false id) p))
      | _ => None
      end
  | HandlerRaises => match monitor p with Reaping => Some (at_pc MonitorLost p) | _ => None end
  end.

Fixpoint run (actions : list action) (p : ManagedProcess) : option ManagedProcess :=
  match actions with [] => Some p | a :: rest => p ← step a p; run rest p end.

(** The actions of [_begin_stop], with the answers it gets: [claimed] and whether the process
    still runs behind the grace.

    [src: travis/coding_agent/processes/service.py:861-874 ProcessSessionService._begin_stop] *)
Definition _begin_stop (cause : StopCause) (answer : poll_answer) (claimed still_running : bool) : list action :=
  let signal name := SafeSignal name StillRunning None in
  ClaimStop cause answer ::
  match cause with
  | KILL => [signal Kill]
  | ABORT_BEFORE_YIELD => if claimed then [signal Kill] else []
  | _ => if claimed then signal Terminate :: (if still_running then [signal Kill] else []) else []
  end.
