(* ===== verification/ManagedProcessSpec.v ===== *)
(** Properties of managed processes, for every interleaving of the threads: a process
    ends once, in a state that its history justifies, and is announced once; its input is
    written in order; the service stays within its limits. *)

From S2P Require Import Prelude PyDict PyFloat ManagedProcess.
Open Scope Z_scope.

(** ** The life of a process *)

(** What a terminal state says. *)
Definition justified (t : ProcessState) (s : Status) : Prop :=
  match t with
  | FAILED => is_Some (failure_code s)
  | TIMED_OUT => stop_cause s = Some TIMEOUT
  | TERMINATED => ∃ cause, stop_cause s = Some cause ∧ cause ≠ TIMEOUT
  | EXITED => True
  | _ => False
  end.

(** The final state at each place of the monitor. *)
Definition fixed_state (pc : monitor_pc) (p : ManagedProcess) : option ProcessState :=
  match pc with
  | Decided _ t | Stamped _ t | Persisted t => Some t
  | Published | MonitorDone => Some (state (status p))
  | _ => None
  end.

Definition published (pc : monitor_pc) : bool := match pc with Published | MonitorDone => true | _ => false end.
Definition persisted (pc : monitor_pc) : bool := match pc with Persisted _ | Published | MonitorDone => true | _ => false end.
Definition stamped (pc : monitor_pc) : bool := match pc with Stamped _ _ | Persisted _ | Published | MonitorDone => true | _ => false end.

Definition finished (pc : monitor_pc) : bool := match pc with MonitorDone => true | _ => false end.

(** The signals of [_safe_signal]: each at most once, none behind a kill. *)
Definition signals_sent (terminated killed : bool) (l : list signal_name) : Prop :=
  l = (if terminated then [Terminate] else []) ++ (if killed then [Kill] else []).

Record Lifecycle (p : ManagedProcess) : Prop := {
  lc_terminal : terminal (state (status p)) = published (monitor p);
  lc_justified : ∀ t, fixed_state (monitor p) p = Some t → justified t (status p);
  lc_stamped : stamped (monitor p) = true → is_Some (terminal_at (status p));
  lc_events : events p = if event_emitted (outcome p)
    then [{| e_session_id := session_id p; e_state := state (status p); e_exit_code := exit_code (status p); e_owner := owner p |}]
    else [];
  lc_emitted : event_emitted (outcome p) = finished (monitor p);
  lc_completions : (length (completions p) <= 1)%nat ∧ durable_output (outcome p) = match completions p with [] => false | _ => true end ∧
    ∀ c, c ∈ completions p → persisted (monitor p) = true ∧ fixed_state (monitor p) p = Some (c_state c) ∧ c_exit_code c = exit_code (status p);
  lc_signals : signals_sent (terminate_sent (control p)) (kill_sent (control p)) (signals p)
}.

Lemma lifecycle_new i o r now : Lifecycle (new_process i o r now).
Proof. split; try done. cbn. split; [lia|]. split; [done|]. by intros c Hc%elem_of_nil. Qed.

(** What the threads that are not the monitor may change of the status: they stop a live
    process, once, or report a failure, once. *)
Definition status_moves (pc : monitor_pc) (s s' : Status) : Prop :=
  s' = s ∨
  (terminal (state s) = false ∧ state s' = STOPPING ∧ exit_code s' = exit_code s ∧ terminal_at s' = terminal_at s ∧
   ((stop_cause s = None ∧ failure_code s' = failure_code s) ∨ (failure_code s = None ∧ stop_cause s' = stop_cause s))).

Lemma justified_moves pc t s s' : justified t s → status_moves pc s s' → justified t s'.
Proof.
  intros Ht [->|(_ & _ & _ & _ & [[Hs Hf]|[Hf Hs]])]; [done| |]; destruct t; cbn in *; try done.
  - by rewrite Hs in Ht.
  - destruct Ht as (c & Hc & _). by rewrite Hs in Hc.
  - by rewrite Hf.
  - by rewrite Hs.
  - by rewrite Hs.
  - by rewrite Hf in Ht; destruct Ht.
Qed.

(** An action of another thread. *)
Definition other_thread (p p' : ManagedProcess) : Prop :=
  session_id p' = session_id p ∧ owner p' = owner p ∧ monitor p' = monitor p ∧ completions p' = completions p ∧ events p' = events p ∧
  event_emitted (outcome p') = event_emitted (outcome p) ∧ durable_output (outcome p') = durable_output (outcome p) ∧
  status_moves (monitor p) (status p) (status p') ∧
  signals_sent (terminate_sent (control p')) (kill_sent (control p')) (signals p').

Lemma lifecycle_other p p' : Lifecycle p → other_thread p p' → Lifecycle p'.
Proof.
  intros [] (E1 & E2 & E3 & E4 & E5 & E6 & E7 & Hm & Hs).
  assert (terminal (state (status p')) = terminal (state (status p))) as Hterm.
  { destruct Hm as [->|(Ht & Hst & _)]; [done|]. by rewrite Hst, Ht. }
  assert (exit_code (status p') = exit_code (status p)) as Hexit by by destruct Hm as [->|(_ & _ & ? & _)].
  assert (terminal_at (status p') = terminal_at (status p)) as Hat by by destruct Hm as [->|(_ & _ & _ & ? & _)].
  assert (terminal (state (status p)) = true → state (status p') = state (status p)) as Hsame.
  { intros Ht. destruct Hm as [->|(Ht' & _)]; [done|]. by rewrite Ht in Ht'. }
  assert (fixed_state (monitor p) p' = fixed_state (monitor p) p) as Hfix.
  { destruct (monitor p) eqn:Hpc; try done; cbn; rewrite Hsame; try done; by rewrite lc_terminal0. }
  split; rewrite ?E1, ?E2, ?E3, ?E4, ?E5, ?E6, ?E7, ?Hexit, ?Hat, ?Hfix; try done.
  - by rewrite Hterm.
  - intros t Ht. by eapply justified_moves; [apply lc_justified0|].
  - rewrite lc_events0, lc_emitted0. destruct (finished (monitor p)) eqn:Hf; [|done]. rewrite Hsame; [done|].
    rewrite lc_terminal0. by destruct (monitor p).
Qed.

(** Changes of the parts that the life cycle does not look at. *)
Lemma other_frame p p' : Lifecycle p → session_id p' = session_id p → owner p' = owner p → monitor p' = monitor p →
  completions p' = completions p → events p' = events p → outcome p' = outcome p → status p' = status p →
  terminate_sent (control p') = terminate_sent (control p) → kill_sent (control p') = kill_sent (control p) → signals p' = signals p →
  other_thread p p'.
Proof.
  intros [] E1 E2 E3 E4 E5 E6 E7 E8 E9 E10. unfold other_thread. rewrite E1, E2, E3, E4, E5, E6, E7, E8, E9, E10.
  repeat split; try done. by left.
Qed.

Lemma other_trans p1 p2 p3 : other_thread p1 p2 → status p2 = status p1 → other_thread p2 p3 → other_thread p1 p3.
Proof.
  unfold other_thread. intros (A1 & A2 & A3 & A4 & A5 & A6 & A7 & _ & _) Hs (B1 & B2 & B3 & B4 & B5 & B6 & B7 & Hm & Hsig).
  rewrite Hs, A3 in Hm. repeat split; congruence || done.
Qed.

Lemma claim_stop_other cause answer p : Lifecycle p → other_thread p (_claim_stop cause answer p).2.
Proof.
  intros Hp. unfold _claim_stop. destruct (terminal (state (status p))) eqn:Ht; cbn [orb]; [by apply other_frame|].
  destruct (stop_cause (status p)) eqn:Hc; [by apply other_frame|].
  destruct answer; try by apply other_frame. pose proof (lc_signals _ Hp). unfold other_thread. cbn. repeat split; try done.
  right. rewrite Ht. repeat split; try done. by left.
Qed.

Lemma safe_signal_other name answer raised p : Lifecycle p → other_thread p (_safe_signal name answer raised p).
Proof.
  intros Hp. unfold _safe_signal. destruct (_transport_exited answer); [by apply other_frame|].
  pose proof (lc_signals _ Hp) as Hs. unfold signals_sent in Hs.
  assert (∀ q, (if match name with Terminate => terminate_sent (control p) || kill_sent (control p) | Kill => kill_sent (control p) end
    then False else True) → q = logged [name] [] [] (on_control (λ c,
      {| terminate_sent := terminate_sent c || bool_decide (name = Terminate); kill_sent := kill_sent c || bool_decide (name = Kill);
         force_finalize := force_finalize c; detached := detached c; active_calls := active_calls c; reader_count := reader_count c |}) p) →
    other_thread p q) as Hsent.
  { intros q Hb ->. unfold other_thread. cbn. rewrite !app_nil_r. repeat split; try done; [by left|].
    unfold signals_sent. rewrite Hs. destruct name; cbn; destruct (terminate_sent (control p)), (kill_sent (control p)); done. }
  destruct (match name with Terminate => _ | Kill => _ end); [by apply other_frame|].
  specialize (Hsent _ I eq_refl). destruct raised as [e|]; [|done].
  eapply other_trans; [exact Hsent|done|]. by apply other_frame; [eapply lifecycle_other|..].
Qed.

Lemma output_failure_other code error p : Lifecycle p → other_thread p (_set_output_failure code error p).2.
Proof.
  intros Hp. unfold _set_output_failure. destruct (terminal (state (status p))) eqn:Ht; cbn [orb]; [by apply other_frame|].
  destruct (failure_code (status p)) eqn:Hc; [by apply other_frame|].
  pose proof (lc_signals _ Hp). unfold other_thread. cbn. repeat split; try done.
  right. rewrite Ht. repeat split; try done. by right.
Qed.

Lemma input_failure_other error p : Lifecycle p → other_thread p (_claim_input_failure error p).
Proof.
  intros Hp. unfold _claim_input_failure. cbn [status on_input]. destruct (terminal (state (status p))) eqn:Ht; cbn [orb]; [by apply other_frame|].
  destruct (failure_code (status p)) eqn:Hc; [by apply other_frame|].
  pose proof (lc_signals _ Hp). unfold other_thread. cbn. repeat split; try done.
  right. rewrite Ht. repeat split; try done. by right.
Qed.

Definition of_monitor (a : action) : bool :=
  match a with
  | MonitorPolls _ _ | MonitorTimesOut _ | MonitorLeaves | MonitorKillsReaders _ | MonitorFinishesOutput _ | MonitorDecides
  | MonitorStamps _ | MonitorPersists _ _ _ _ _ | MonitorPublishes | MonitorEmits | MonitorRaises _ | MonitorCrashes | MonitorReaps _ | HandlerRaises => true
  | _ => false
  end.

Lemma handoff_detaches aborted expired p p' : handoff_turn aborted expired p = HandoffDetaches p' → p' = on_control (set_flags false true id) p.
Proof. unfold handoff_turn. repeat case_match; by intros [=]. Qed.

(** An item is put at the end of the queue. *)
Definition with_item (data : list Z) (eof : bool) (i : Input) : Input :=
  {| items := items i ++ [{| i_data := data; i_eof := eof; i_completed := false; i_error_name := None |}];
     queue := queue i ++ [Some (length (items i))]; pending_input_bytes := pending_input_bytes i + Z.of_nat (length data);
     input_closed := input_closed i || eof; input_error := input_error i; pump := pump i |}.

Lemma write_input_ok a b data eof p p' : write_input a b data eof p = Ok p' →
  state (status p) = RUNNING ∧ input_closed (input p) = false ∧ pending_input_bytes (input p) + Z.of_nat (length data) <= b ∧
  p' = on_input (with_item data eof) p.
Proof.
  unfold write_input, _require_running. destruct (a <? _) eqn:H1; [done|]. destruct (bool_decide _) eqn:H2; [|done]. cbn.
  destruct (_ && _); [done|]. destruct (input_closed _); [done|]. destruct (b <? _) eqn:H3; [done|]. intros [= <-].
  apply bool_decide_eq_true in H2. apply Z.ltb_ge in H3. done.
Qed.

Lemma step_other a p p' : Lifecycle p → of_monitor a = false → step a p = Some p' → other_thread p p'.
Proof.
  intros Hp Ha Hs. destruct a; try done; cbn [step] in Hs.
  - destruct (write_input _ _ _ _ p) as [q|e] eqn:Hw; injection Hs as <-; [|by apply other_frame].
    apply write_input_ok in Hw as (_ & _ & _ & ->). by apply other_frame.
  - injection Hs as <-. by apply claim_stop_other.
  - injection Hs as <-. by apply safe_signal_other.
  - injection Hs as <-. by apply other_frame.
  - injection Hs as <-. by apply other_frame.
  - destruct (handoff_turn _ _ p) as [| |q|] eqn:Hh; try done. injection Hs as <-. apply handoff_detaches in Hh as ->. by apply other_frame.
  - injection Hs as <-. by apply other_frame.
  - injection Hs as <-. by apply other_frame.
  - injection Hs as <-. by apply output_failure_other.
  - injection Hs as <-. by apply other_frame.
  - unfold pump_take in Hs. destruct (pump (input p)), (queue (input p)); simplify_eq. by apply other_frame.
  - unfold pump_written in Hs. destruct (pump (input p)), error; simplify_eq; by apply other_frame.
  - unfold pump_claims in Hs. destruct (pump (input p)) as [| |k e| |]; simplify_eq.
    pose proof (input_failure_other e p Hp) as H. unfold other_thread in *. exact H.
  - unfold pump_finishes in Hs. destruct (pump (input p)); simplify_eq; by apply other_frame.
Qed.

(** An action of the monitor before the result is persisted. *)
Lemma lifecycle_early p p' : Lifecycle p → persisted (monitor p) = false → persisted (monitor p') = false →
  terminal (state (status p')) = false → stamped (monitor p') = false ∨ is_Some (terminal_at (status p')) →
  (∀ t, fixed_state (monitor p') p' = Some t → justified t (status p')) →
  completions p' = completions p → events p' = events p → event_emitted (outcome p') = event_emitted (outcome p) →
  durable_output (outcome p') = durable_output (outcome p) →
  signals_sent (terminate_sent (control p')) (kill_sent (control p')) (signals p') → Lifecycle p'.
Proof.
  intros [] Hq Hq' Ht Hst Hj E1 E2 E3 E4 Hs.
  assert (∀ pc, persisted pc = false → published pc = false ∧ finished pc = false) as Hpc by by intros [].
  assert (event_emitted (outcome p) = false) as He by (rewrite lc_emitted0; apply (Hpc _ Hq)).
  split; rewrite ?E1, ?E2, ?E3, ?E4; try done.
  - rewrite Ht. symmetry. apply (Hpc _ Hq').
  - intros Hst'. destruct Hst as [Hst|Hst]; [by rewrite Hst in Hst'|done].
  - by rewrite lc_events0, He.
  - rewrite He. symmetry. apply (Hpc _ Hq').
  - destruct lc_completions0 as (H1 & H2 & H3). split; [done|]. split; [done|]. intros c Hc. apply H3 in Hc as [Hc _]. congruence.
Qed.

Lemma terminal_justified s : terminal (terminal_state s) = true ∧ justified (terminal_state s) s.
Proof.
  unfold terminal_state. destruct (failure_code s) eqn:Hf; [by split; [|cbn; rewrite Hf]|].
  destruct (stop_cause s) as [[]|] eqn:Hs; split; cbn; try done; rewrite Hs; eauto.
Qed.

Lemma early_state p : Lifecycle p → persisted (monitor p) = false → terminal (state (status p)) = false.
Proof. intros [] H. rewrite lc_terminal0. by destruct (monitor p). Qed.

Lemma lifecycle_pc pc p : Lifecycle p → persisted (monitor p) = false → persisted pc = false → stamped pc = false →
  (∀ t, fixed_state pc p = Some t → justified t (status p)) → Lifecycle (at_pc pc p).
Proof. intros Hp H1 H2 H3 H4. eapply (lifecycle_early p); try done; [exact (early_state p Hp H1)|by left|apply (lc_signals _ Hp)]. Qed.

Lemma monitor_other_pc pc p p' : Lifecycle p → other_thread p p' → persisted (monitor p) = false → persisted pc = false → stamped pc = false →
  fixed_state pc p' = None → Lifecycle (at_pc pc p').
Proof.
  intros Hp Ho H1 H2 H3 H4. apply lifecycle_pc; try done; [by eapply lifecycle_other| |by rewrite H4].
  by destruct Ho as (_ & _ & -> & _).
Qed.

Lemma persist_lifecycle answer size lines now wall g t p : Lifecycle p → monitor p = Stamped g t →
  Lifecycle (at_pc (Persisted t) (_persist_completion answer size lines now wall t p)).
Proof.
  intros [] Hpc. rewrite Hpc in *. destruct lc_completions0 as (H1 & H2 & H3).
  assert (completions p = []) as Hnone.
  { destruct (completions p) as [|c l]; [done|]. destruct (H3 c) as [? _]; [set_solver|done]. }
  rewrite Hnone in H2. destruct answer; split; cbn; try done; rewrite ?Hnone, ?app_nil_r, ?Hpc; cbn; try done.
  all: try (split; [lia|]; split; [done|]).
  - by intros c Hc%elem_of_nil.
  - intros c ->%list_elem_of_singleton. done.
  - by intros c Hc%elem_of_nil.
Qed.

Lemma publish_lifecycle t p : Lifecycle p → monitor p = Persisted t → Lifecycle (at_pc Published (on_status (set_state t) p)).
Proof.
  intros [] Hpc. rewrite Hpc in *. assert (justified t (status p)) as Hj by by apply lc_justified0.
  split; cbn; try done.
  - by destruct t.
  - by rewrite lc_events0, lc_emitted0.
Qed.

Lemma emit_lifecycle p : Lifecycle p → monitor p = Published → Lifecycle (at_pc MonitorDone (_emit_terminal p)).
Proof.
  intros [] Hpc. rewrite Hpc in *. cbn in lc_emitted0. unfold _emit_terminal. rewrite lc_emitted0 in *.
  split; cbn; rewrite ?app_nil_r; try done. by rewrite lc_events0.
Qed.

Lemma crash_lifecycle error p : Lifecycle p → persisted (monitor p) = false → Lifecycle (monitor_crashes error p).
Proof. intros Hp H. eapply (lifecycle_early p); try done; [by left|apply (lc_signals _ Hp)]. Qed.

Lemma reap_lifecycle force p : Lifecycle p → monitor p = Reaping → is_Some (failure_code (status p)) →
  Lifecycle (at_pc (Decided false FAILED) (on_control (set_flags force false id) p)).
Proof.
  intros Hp Hpc Hf. eapply (lifecycle_early p); try done; [by rewrite Hpc|exact (early_state p Hp ltac:(by rewrite Hpc))|by left| |apply (lc_signals _ Hp)].
  by intros t [= <-].
Qed.

Lemma stamp_lifecycle now g t p : Lifecycle p → monitor p = Decided g t → Lifecycle (at_pc (Stamped g t) (on_status (stamp now) p)).
Proof.
  intros Hp Hpc. eapply (lifecycle_early p); try done; [by rewrite Hpc|exact (early_state p Hp ltac:(by rewrite Hpc))|right; by eexists| |apply (lc_signals _ Hp)].
  intros t' [= <-]. assert (justified t (status p)) as Hj by (apply (lc_justified _ Hp); by rewrite Hpc). by destruct t.
Qed.

(** The handler of the monitor has a failure to report. *)
Definition crash_reported (p : ManagedProcess) : Prop := monitor p = Reaping → is_Some (failure_code (status p)).

Lemma step_lifecycle a p p' : Lifecycle p → crash_reported p → step a p = Some p' → Lifecycle p'.
Proof.
  intros Hp Hc Hs. destruct (of_monitor a) eqn:Ha; [|by eapply lifecycle_other, step_other].
  destruct a; try done; cbn [step] in Hs.
  - destruct (monitor p) eqn:Hpc; try done. injection Hs as <-. unfold monitor_polls.
    destruct answer; [|by apply lifecycle_pc; rewrite ?Hpc..]. destruct (force_finalize _); [by apply lifecycle_pc; rewrite ?Hpc|].
    destruct (timed_out p now); [by apply lifecycle_pc; rewrite ?Hpc|done].
  - destruct (monitor p) eqn:Hpc; try done. injection Hs as <-. unfold monitor_times_out.
    pose proof (claim_stop_other TIMEOUT answer p Hp) as Ho. destruct (_claim_stop TIMEOUT answer p) as [claimed q]. cbn in Ho.
    destruct claimed as [[]|], answer; by apply (monitor_other_pc _ p); rewrite ?Hpc.
  - destruct (monitor p) eqn:Hpc; try done. injection Hs as <-.
    eapply (lifecycle_early p); try done; [by rewrite Hpc|by left|apply (lc_signals _ Hp)].
  - assert (persisted (monitor p) = false ∧ stamped (monitor p) = false ∧ fixed_state (monitor p) p = None ∧
      p' = match raised with Some e => on_outcome (set_output_error (Some e)) p | None => p end) as (H1 & H2 & H3 & ->)
      by (destruct (monitor p); by simplify_eq).
    destruct raised; [|done]. eapply (lifecycle_early p); try done; [exact (early_state p Hp H1)|by left| |apply (lc_signals _ Hp)].
    intros t Ht. cbn in Ht. by destruct (monitor p).
  - destruct (monitor p) eqn:Hpc; try done. injection Hs as <-. unfold monitor_finishes_output.
    destruct failure as [[code e]|]; [|by apply lifecycle_pc; rewrite ?Hpc].
    apply (monitor_other_pc _ p); rewrite ?Hpc; try done. by apply output_failure_other.
  - destruct (monitor p) eqn:Hpc; try done. injection Hs as <-. apply lifecycle_pc; rewrite ?Hpc; try done.
    intros t [= <-]. apply terminal_justified.
  - destruct (monitor p) eqn:Hpc; try done. injection Hs as <-. by apply stamp_lifecycle.
  - destruct (monitor p) eqn:Hpc; try done. injection Hs as <-. by eapply persist_lifecycle.
  - destruct (monitor p) eqn:Hpc; try done. injection Hs as <-. by apply publish_lifecycle.
  - destruct (monitor p) eqn:Hpc; try done. injection Hs as <-. by apply emit_lifecycle.
  - destruct (may_raise (monitor p)) eqn:Hm; [|done]. injection Hs as <-. apply lifecycle_pc; try done. by destruct (monitor p).
  - destruct (monitor p) eqn:Hpc; try done. injection Hs as <-. apply crash_lifecycle; [done|by rewrite Hpc].
  - destruct (monitor p) eqn:Hpc; try done. injection Hs as <-. apply reap_lifecycle; [done|done|by apply Hc].
  - destruct (monitor p) eqn:Hpc; try done. injection Hs as <-. by apply lifecycle_pc; rewrite ?Hpc.
Qed.

Lemma moves_failure pc s s' : status_moves pc s s' → is_Some (failure_code s) → is_Some (failure_code s').
Proof. intros [->|(_ & _ & _ & _ & [[_ ->]|[-> _]])]; [done|done|]. by intros [? [=]]. Qed.

Lemma step_crash a p p' : Lifecycle p → crash_reported p → step a p = Some p' → crash_reported p'.
Proof.
  intros Hp Hc Hs. destruct (of_monitor a) eqn:Ha.
  - destruct a; try done; cbn [step] in Hs; unfold crash_reported.
    all: try (destruct (monitor p) eqn:Hpc; try done; injection Hs as <-; cbn).
    all: unfold monitor_polls, monitor_times_out, monitor_leaves; try done.
    + destruct answer; cbn; [|done..]. destruct (force_finalize _); [done|]. destruct (timed_out p now); [done|]. by rewrite Hpc.
    + destruct (_claim_stop TIMEOUT answer p) as [[[]|] q], answer; done.
    + destruct raised; cbn; by rewrite Hpc.
    + intros _. destruct raised; cbn; by apply Hc.
    + destruct (may_raise (monitor p)); [|done]. by injection Hs as <-.
    + intros _. destruct (failure_code (status p)) as [[|]|]; by eexists.
  - destruct (step_other a p p' Hp Ha Hs) as (_ & _ & Hpc & _ & _ & _ & _ & Hm & _). unfold crash_reported. rewrite Hpc.
    intros H. eapply moves_failure; [exact Hm|]. by apply Hc.
Qed.

(** ** The input *)

(** The first [k] items have been dealt with, in order; the pump has the next one in its
    hands, or takes it next. *)
Definition busy (pc : pump_pc) : option nat :=
  match pc with PumpWriting k | PumpFailing k _ | PumpFinishing k => Some k | _ => None end.

Definition sizes (l : list InputItem) : Z := foldr (λ it n, Z.of_nat (length (i_data it)) + n) 0 l.

Record InputOk (i : Input) : Prop := {
  io_order : ∃ k, (k <= length (items i))%nat ∧
    (∀ j it, items i !! j = Some it → i_completed it = bool_decide (j < k)%nat) ∧
    match busy (pump i) with
    | Some b => b = k ∧ (k < length (items i))%nat ∧ omap id (queue i) = seq (S k) (length (items i) - S k)
    | None => pump i = PumpEnded ∨ omap id (queue i) = seq k (length (items i) - k)
    end ∧
    pending_input_bytes i = sizes (drop k (items i))
}.

Lemma sizes_cons it l : sizes (it :: l) = Z.of_nat (length (i_data it)) + sizes l.
Proof. done. Qed.
#[local] Arguments sizes : simpl never.

Lemma sizes_nonneg l : 0 <= sizes l.
Proof. induction l as [|x l IH]; [done|]. rewrite sizes_cons. lia. Qed.

Lemma sizes_app l1 l2 : sizes (l1 ++ l2) = sizes l1 + sizes l2.
Proof. induction l1 as [|x l1 IH]; [done|]. cbn [app]. rewrite !sizes_cons. lia. Qed.

(** Changes that the order does not look at. *)
Lemma input_frame i i' : InputOk i → omap id (queue i') = omap id (queue i) → busy (pump i') = busy (pump i) →
  (pump i = PumpEnded → pump i' = PumpEnded) → pending_input_bytes i' = pending_input_bytes i → items i' = items i → InputOk i'.
Proof.
  intros [(k & H1 & H2 & H3 & H4)] E1 E2 E3 E4 E5. split. exists k. rewrite E5, E4, E1, E2. repeat split; try done.
  destruct (busy (pump i)); [done|]. destruct H3 as [H3|H3]; auto.
Qed.

Lemma alter_items f (l : list InputItem) k : (∀ it, i_data (f it) = i_data it) → sizes (alter f k l) = sizes l.
Proof. intros Hf. revert k. induction l as [|x l IH]; intros [|k]; cbn; [done..|by rewrite !sizes_cons, Hf|]. by rewrite !sizes_cons, IH. Qed.

Lemma drop_alter_items f (l : list InputItem) k j : (∀ it, i_data (f it) = i_data it) → sizes (drop j (alter f k l)) = sizes (drop j l).
Proof.
  intros Hf. revert k j. induction l as [|x l IH]; [done|]. intros k [|j]; [by rewrite !drop_0, alter_items|]. destruct k as [|k]; [done|]. apply IH.
Qed.

Lemma with_item_ok data eof i : InputOk i → InputOk (with_item data eof i).
Proof.
  intros [(k & H1 & H2 & H3 & H4)]. split. exists k.
  cbn [with_item items queue pump pending_input_bytes]. rewrite length_app. cbn [length]. split; [lia|]. split; [|split].
  - intros j it [[_ Hj]|[-> <-]]%lookup_snoc_Some; [by apply H2|]. rewrite bool_decide_false by lia. done.
  - rewrite omap_app. cbn [omap list_omap id]. destruct (busy (pump i)) as [b|].
    + destruct H3 as (-> & Hlt & ->). split; [done|]. split; [lia|]. replace (length (items i) + 1 - S k)%nat with (length (items i) - S k + 1)%nat by lia.
      rewrite seq_app. cbn. by replace (S (k + (length (items i) - S k)))%nat with (length (items i)) by lia.
    + destruct H3 as [H3| ->]; [by left|]. right. replace (length (items i) + 1 - k)%nat with (length (items i) - k + 1)%nat by lia.
      rewrite seq_app. cbn. by replace (k + (length (items i) - k))%nat with (length (items i)) by lia.
  - rewrite drop_app_le by lia. rewrite sizes_app, sizes_cons. change (sizes []) with 0. cbn [i_data]. lia.
Qed.

Lemma enqueue_none_ok i : InputOk i → InputOk (enqueue None (set_pump (pump i) true i)).
Proof. intros H. eapply (input_frame i); try done. cbn. rewrite omap_app. apply app_nil_r. Qed.

Lemma take_ok p p' : InputOk (input p) → pump_take p = Some p' → InputOk (input p').
Proof.
  intros [(k & H1 & H2 & H3 & H4)] Hs. unfold pump_take in Hs. destruct (pump (input p)) eqn:Hp, (queue (input p)) as [|q rest] eqn:Hq; simplify_eq.
  cbn in H3. destruct H3 as [?|H3]; [done|]. split. exists k. cbn. split; [done|]. split; [done|]. destruct q as [b|]; cbn in *.
  - destruct (length (items (input p)) - k)%nat as [|n] eqn:Hn; [done|]. cbn in H3. injection H3 as -> H3.
    split; [|done]. split; [done|]. split; [lia|]. rewrite H3. f_equal. lia.
  - split; [by left|done].
Qed.

Lemma written_ok error p p' : InputOk (input p) → pump_written error p = Some p' → InputOk (input p').
Proof.
  intros Hi Hs. unfold pump_written in Hs. destruct (pump (input p)) as [|b| | |] eqn:Hp; simplify_eq. destruct error as [e|]; simplify_eq.
  - destruct Hi as [(k & H1 & H2 & H3 & H4)]. rewrite Hp in H3. cbn in H3. split. exists k. cbn -[alter]. rewrite length_alter. split; [done|].
    split; [|split; [done|by rewrite drop_alter_items]].
    intros j it Hj. destruct (decide (b = j)) as [<-|Hne]; [|rewrite list_lookup_alter_ne in Hj by done; by apply H2].
    rewrite list_lookup_alter_eq in Hj. destruct (items (input p) !! b) as [it'|] eqn:Hb; [|done]. injection Hj as <-. exact (H2 _ _ Hb).
  - eapply (input_frame (input p)); try done; cbn; by rewrite Hp.
Qed.

Lemma finishes_ok p p' : InputOk (input p) → pump_finishes p = Some p' → InputOk (input p').
Proof.
  intros [(k & H1 & H2 & H3 & H4)] Hs. unfold pump_finishes in Hs. destruct (pump (input p)) as [| | |b|] eqn:Hp; simplify_eq.
  cbn in H3. destruct H3 as (-> & Hlt & Hq). destruct (lookup_lt_is_Some_2 _ _ Hlt) as [it Hit]. split. exists (S k).
  cbn -[alter]. rewrite Hit, length_alter. split; [lia|]. split; [|split; [by right|]].
  - intros j it' Hj. destruct (decide (k = j)) as [<-|Hne].
    + rewrite list_lookup_alter_eq, Hit in Hj. injection Hj as <-. cbn. by rewrite bool_decide_true by lia.
    + rewrite list_lookup_alter_ne in Hj by done. rewrite (H2 _ _ Hj). apply bool_decide_ext. lia.
  - rewrite drop_alter_items by done. rewrite H4, (drop_S _ _ _ Hit), sizes_cons.
    pose proof (sizes_nonneg (drop (S k) (items (input p)))). lia.
Qed.

Lemma step_input a p p' : InputOk (input p) → step a p = Some p' → InputOk (input p').
Proof.
  intros Hi Hs. destruct a; cbn [step] in Hs.
  - destruct (write_input _ _ _ _ p) as [q|e] eqn:Hw; injection Hs as <-; [|done].
    apply write_input_ok in Hw as (_ & _ & _ & ->). by apply with_item_ok.
  - injection Hs as <-. unfold _claim_stop. destruct (_ || _); [done|]. by destruct answer.
  - injection Hs as <-. unfold _safe_signal. destruct (_transport_exited _); [done|]. destruct (match name with Terminate => _ | Kill => _ end); [done|].
    destruct raised; [|done]. by eapply (input_frame (input p)).
  - by injection Hs as <-.
  - by injection Hs as <-.
  - destruct (handoff_turn _ _ p) as [| |q|] eqn:Hh; try done. injection Hs as <-. by apply handoff_detaches in Hh as ->.
  - by injection Hs as <-.
  - by injection Hs as <-.
  - injection Hs as <-. unfold _set_output_failure. by destruct (_ || _).
  - by injection Hs as <-.
  - by eapply take_ok.
  - by eapply written_ok.
  - unfold pump_claims in Hs. destruct (pump (input p)) as [| |k e| |] eqn:Hp; simplify_eq.
    eapply (input_frame (input p)); cbn; unfold _claim_input_failure; cbn; rewrite ?Hp; try done; by destruct (_ || _).
  - by eapply finishes_ok.
  - destruct (monitor p); try done. injection Hs as <-. unfold monitor_polls. destruct answer; try done. destruct (force_finalize _); [done|]. by destruct (timed_out _ _).
  - destruct (monitor p); try done. injection Hs as <-. unfold monitor_times_out, _claim_stop. destruct (_ || _); [by destruct answer|]. by destruct answer.
  - destruct (monitor p); try done. injection Hs as <-. by apply enqueue_none_ok.
  - destruct (monitor p); try done; injection Hs as <-; by destruct raised.
  - destruct (monitor p); try done. injection Hs as <-. unfold monitor_finishes_output, _set_output_failure. destruct failure as [[]|]; [|done]. by destruct (_ || _).
  - destruct (monitor p); try done. by injection Hs as <-.
  - destruct (monitor p); try done. by injection Hs as <-.
  - destruct (monitor p); try done. injection Hs as <-. by destruct answer.
  - destruct (monitor p); try done. by injection Hs as <-.
  - destruct (monitor p); try done. injection Hs as <-. unfold _emit_terminal. cbn. by destruct (event_emitted _).
  - destruct (may_raise _); [|done]. by injection Hs as <-.
  - destruct (monitor p); try done. injection Hs as <-. by apply enqueue_none_ok.
  - destruct (monitor p); try done. by injection Hs as <-.
  - destruct (monitor p); try done. by injection Hs as <-.
Qed.

(** ** Runs *)

Definition Good (p : ManagedProcess) : Prop := Lifecycle p ∧ crash_reported p ∧ InputOk (input p).

Lemma good_new i o r now : Good (new_process i o r now).
Proof.
  split; [apply lifecycle_new|]. split; [done|]. split. exists 0%nat. cbn. split; [lia|]. split; [by intros j it ?|].
  split; [by right|done].
Qed.

Lemma good_step a p p' : Good p → step a p = Some p' → Good p'.
Proof. intros (H1 & H2 & H3) Hs. split; [by eapply step_lifecycle|]. split; [by eapply step_crash|by eapply step_input]. Qed.

Lemma good_run l : ∀ p p', Good p → run l p = Some p' → Good p'.
Proof.
  induction l as [|a l IH]; cbn; intros p p' Hg; [by intros [= <-]|]. destruct (step a p) eqn:Hs; [|done]. cbn. intros Hr.
  eapply IH; [by eapply good_step|done].
Qed.

(** What a terminal process keeps. *)
Definition settled (p p' : ManagedProcess) : Prop :=
  terminal (state (status p')) = true ∧ state (status p') = state (status p) ∧ exit_code (status p') = exit_code (status p) ∧
  terminal_at (status p') = terminal_at (status p) ∧ completions p' = completions p.

Lemma settled_refl p : terminal (state (status p)) = true → settled p p.
Proof. done. Qed.

Lemma settled_trans p1 p2 p3 : settled p1 p2 → settled p2 p3 → settled p1 p3.
Proof. intros (A1 & A2 & A3 & A4 & A5) (B1 & B2 & B3 & B4 & B5). unfold settled. by rewrite B1, B2, B3, B4, B5. Qed.

Lemma step_settled a p p' : Good p → terminal (state (status p)) = true → step a p = Some p' → settled p p'.
Proof.
  intros (Hp & _ & _) Ht Hs. pose proof Ht as Hpub. rewrite (lc_terminal _ Hp) in Hpub. destruct (of_monitor a) eqn:Ha.
  - destruct a; try done; cbn [step] in Hs; destruct (monitor p) eqn:Hpc; try done.
    injection Hs as <-. unfold _emit_terminal. unfold settled. destruct (event_emitted _); cbn; by rewrite ?app_nil_r.
  - destruct (step_other a p p' Hp Ha Hs) as (_ & _ & _ & Hc & _ & _ & _ & Hm & _). destruct Hm as [Hm|[Hm _]]; [|congruence].
    unfold settled. by rewrite Hm, Hc.
Qed.

Lemma run_settled l : ∀ p p', Good p → terminal (state (status p)) = true → run l p = Some p' → settled p p'.
Proof.
  induction l as [|a l IH]; cbn; intros p p' Hg Ht; [intros [= <-]; by apply settled_refl|].
  destruct (step a p) as [q|] eqn:Hs; [|done]. cbn. intros Hr. pose proof (step_settled a p q Hg Ht Hs) as H1.
  eapply settled_trans; [exact H1|]. eapply IH; [by eapply good_step|apply H1|done].
Qed.

(** ** The monitor ends *)

(** How many actions the monitor has left once the process has exited. *)
Definition rank (pc : monitor_pc) : nat :=
  match pc with
  | MonitorDone => 0 | Published => 1 | Persisted _ => 2 | Stamped false _ => 3 | Decided false _ => 4 | Reaping => 5 | Crashed _ => 6
  | Stamped true _ => 7 | Decided true _ => 8 | OutputFinished => 9 | Draining => 10 | Leaving _ => 11 | Polling => 12 | TimingOut => 13
  | MonitorLost => 0
  end.

(** The transport answers that the process has exited, and can be closed. *)
Definition exited_answers (a : action) : bool :=
  match a with MonitorPolls answer _ | MonitorTimesOut answer => _transport_exited answer | HandlerRaises => false | _ => true end.

(** An action of the monitor, other than its repeated kill of readers. *)
Definition advances (a : action) : bool := of_monitor a && match a with MonitorKillsReaders _ => false | _ => true end.

Lemma step_rank a p p' : Lifecycle p → exited_answers a = true → step a p = Some p' →
  (rank (monitor p') + (if advances a then 1 else 0) <= rank (monitor p))%nat.
Proof.
  intros Hp He Hs. destruct (of_monitor a) eqn:Ha.
  - destruct a; try done; unfold advances; cbn [of_monitor andb]; cbn [step] in Hs.
    all: destruct (monitor p) as [| | | | |[] ?|[] ?| | | | | |] eqn:Hpc; try done; try injection Hs as <-; cbn; try lia.
    all: try (destruct raised; cbn; rewrite Hpc; cbn; lia).
    + destruct answer; try done; cbn; lia.
    + unfold monitor_times_out, _claim_stop. destruct (_ || _), answer; try done; cbn; lia.
  - destruct (step_other a p p' Hp Ha Hs) as (_ & _ & -> & _). unfold advances. rewrite Ha. cbn. lia.
Qed.

Lemma run_rank l : ∀ p p', Good p → Forall (λ a, exited_answers a = true) l → run l p = Some p' →
  (rank (monitor p') + length (List.filter advances l) <= rank (monitor p))%nat.
Proof.
  induction l as [|a l IH]; cbn [run]; intros p p' Hg Hl; [intros [= <-]; cbn; lia|]. apply Forall_cons in Hl as [Ha Hl].
  destruct (step a p) as [q|] eqn:Hs; [|done]. cbn [mbind option_bind]. intros Hr. pose proof (step_rank a p q (proj1 Hg) Ha Hs).
  specialize (IH q p' (good_step _ _ _ Hg Hs) Hl Hr). cbn [List.filter]. destruct (advances a); cbn [length]; lia.
Qed.

Lemma step_not_lost a p p' : Lifecycle p → monitor p ≠ MonitorLost → exited_answers a = true → step a p = Some p' → monitor p' ≠ MonitorLost.
Proof.
  intros Hp Hl He Hs. destruct (of_monitor a) eqn:Ha; [|by destruct (step_other a p p' Hp Ha Hs) as (_ & _ & -> & _)].
  destruct a; try done; cbn [step] in Hs; destruct (monitor p) eqn:Hpc; try done; try injection Hs as <-; cbn; try done.
  - by destruct answer.
  - unfold monitor_times_out, _claim_stop. destruct (_ || _), answer; done.
  - destruct raised; cbn; by rewrite Hpc.
  - destruct raised; cbn; by rewrite Hpc.
  - cbn in Hs. case_match; by simplify_eq/=.
  - cbn in Hs. case_match; by simplify_eq/=.
Qed.

Lemma run_not_lost l : ∀ p p', Good p → monitor p ≠ MonitorLost → Forall (λ a, exited_answers a = true) l → run l p = Some p' →
  monitor p' ≠ MonitorLost.
Proof.
  induction l as [|a l IH]; cbn [run]; intros p p' Hg Hn Hl; [by intros [= <-]|]. apply Forall_cons in Hl as [Ha Hl].
  destruct (step a p) as [q|] eqn:Hs; [|done]. cbn [mbind option_bind]. intros Hr.
  eapply IH; [by eapply good_step| |done|done]. by eapply step_not_lost; [apply Hg|..].
Qed.

Lemma monitor_goes_on p : monitor p ≠ MonitorDone → monitor p ≠ MonitorLost → ∃ a, advances a = true ∧ exited_answers a = true ∧ is_Some (step a p).
Proof.
  intros H H'. destruct (monitor p) eqn:Hpc; try done; [exists (MonitorPolls (HasExited 0) fl_zero)|exists (MonitorTimesOut (HasExited 0))|exists MonitorLeaves
    |exists (MonitorFinishesOutput None)|exists MonitorDecides|exists (MonitorStamps fl_zero)|exists (MonitorPersists NoStore 0 0 fl_zero fl_zero)
    |exists MonitorPublishes|exists MonitorEmits|exists MonitorCrashes|exists (MonitorReaps false)].
  all: cbn; rewrite Hpc; split; [done|split; [done|by eexists]].
Qed.


(** A terminal process is final: whatever the other threads still do, its state, its exit
    code, the time of its end and what has been persisted of it do not change any more. *)
Theorem terminal_process_final i o r now l p l' p' : run l (new_process i o r now) = Some p → terminal (state (status p)) = true →
  run l' p = Some p' → settled p p'.
Proof. intros Hr Ht. eapply run_settled; [by eapply good_run, Hr; apply good_new|done]. Qed.

(** C32: A process that has exited is announced: in any run the monitor acts at most
    thirteen more times (not counting the kills of its readers), whatever fails on the way, and as long as it is not done
    it has an action to do; when it is done the process is terminal and its end has
    been announced.  The exception is a transport that cannot be closed either. *)
Theorem exited_process_ends i o r now l p l' p' : run l (new_process i o r now) = Some p → monitor p ≠ MonitorLost →
  Forall (λ a, exited_answers a = true) l' → run l' p = Some p' →
  (length (List.filter advances l') <= 13)%nat ∧
  ((monitor p' = MonitorDone ∧ terminal (state (status p')) = true ∧ length (events p') = 1%nat) ∨
   ∃ a, advances a = true ∧ exited_answers a = true ∧ is_Some (step a p')).
Proof.
  intros Hr Hl He Hr'. pose proof (good_run l _ _ (good_new i o r now) Hr) as Hg. split.
  - pose proof (run_rank l' p p' Hg He Hr'). assert (rank (monitor p) <= 13)%nat by (destruct (monitor p) as [| | | | |[] ?|[] ?| | | | | |]; cbn; lia). lia.
  - destruct (good_run l' _ _ Hg Hr') as ([] & _ & _).
    destruct (decide (finished (monitor p') = true)) as [Hd|Hd].
    + left. rewrite lc_terminal0, lc_events0, lc_emitted0. by destruct (monitor p').
    + right. apply monitor_goes_on; [intros H; by rewrite H in Hd|by eapply run_not_lost].
Qed.

(** ** Concrete runs *)

Definition sample_owner : ProcessOwner := {| app_instance_id := "app"; workspace_key := "/w"; origin := "local" |}.
Definition sample_request : ProcessLaunchRequest :=
  {| command := "cat"; cwd := "/w"; tty := false; timeout_seconds := Some (fl_of_Z 10); launch_session_id := None |}.
Definition sample_process : ManagedProcess := new_process "proc_1" sample_owner sample_request (fl_of_Z 5).

(** Input is written, the process is asked to terminate, exits and is announced. *)
Definition sample_stop : list action :=
  [Write 64 100 [104; 105] false; PumpTakes; Write 64 100 [10] true; PumpWrites None; ClaimStop TERMINATE StillRunning;
   SafeSignal Terminate StillRunning None; PumpFinishes; PumpTakes; SafeSignal Terminate StillRunning None;
   PumpWrites (Some "BrokenPipeError"%string); MonitorPolls StillRunning (fl_of_Z 7)].
Definition sample_end : list action :=
  [MonitorPolls (HasExited 143) (fl_of_Z 7); MonitorLeaves; MonitorFinishesOutput None; MonitorDecides; MonitorStamps (fl_of_Z 8);
   MonitorPersists (Stored "/d/proc_1") 5 1 (fl_of_Z 8) (fl_of_Z 99); MonitorPublishes; MonitorEmits].


(** The pump claims its failure when the process is over. *)
Lemma terminal_process_final_witness :
  ∃ p p', run (sample_stop ++ sample_end) sample_process = Some p ∧ run [PumpClaims; ClaimStop KILL StillRunning] p = Some p' ∧
          failure_code (status p') = None ∧ settled p p'.
Proof.
  eexists. eexists. split; [vm_compute; reflexivity|]. split; [vm_compute; reflexivity|]. split; [reflexivity|].
  eapply (terminal_process_final "proc_1" sample_owner sample_request (fl_of_Z 5) (sample_stop ++ sample_end) _
           [PumpClaims; ClaimStop KILL StillRunning]); vm_compute; reflexivity.
Defined.

Lemma exited_process_ends_witness :
  ∃ p p', run sample_stop sample_process = Some p ∧ run sample_end p = Some p' ∧ length (List.filter advances sample_end) = 8%nat ∧
          ((monitor p' = MonitorDone ∧ terminal (state (status p')) = true ∧ length (events p') = 1%nat) ∨
           ∃ a, advances a = true ∧ exited_answers a = true ∧ is_Some (step a p')).
Proof.
  eexists. eexists. split; [vm_compute; reflexivity|]. split; [vm_compute; reflexivity|]. split; [reflexivity|].
  eapply (exited_process_ends "proc_1" sample_owner sample_request (fl_of_Z 5) sample_stop _ sample_end); [vm_compute; reflexivity|discriminate| |vm_compute; reflexivity].
  repeat constructor.
Defined.

(** A failure that the pump claims between the decision of the monitor and its publication:
    the process ends as exited, with the code of a failure, and is persisted so. *)
Example late_failure_mislabels :
  ∃ p, run (sample_stop ++ [MonitorPolls (HasExited 0) (fl_of_Z 7); MonitorLeaves; MonitorFinishesOutput None; MonitorDecides;
              PumpClaims; MonitorStamps (fl_of_Z 8); MonitorPersists (Stored "/d/proc_1") 5 1 (fl_of_Z 8) (fl_of_Z 99);
              MonitorPublishes; MonitorEmits]) sample_process = Some p ∧
       state (status p) = TERMINATED ∧ failure_code (status p) = Some "input_failure"%string ∧
       (λ c, (c_state c, c_failure_code c)) <$> completions p = [(TERMINATED, Some "input_failure"%string)].
Proof. eexists. split; [vm_compute; reflexivity|]. repeat split. Qed.
