(* ===== verification/ProcessService.v ===== *)
(** The service of managed processes (travis/coding_agent/processes/service.py,
    ProcessSessionService): the records of an application, the limits on starts, the calls
    that hold a record, and what removes one.

    What a method does under the lock of the service is one action of [service_step]; the
    threads of a record act in between through [Inside].  The ghost parts [starts] and
    [holders] say which calls of [start] are between their reservation and their
    registration, and which calls hold a record. *)

From S2P Require Import Prelude PyDict PyFloat Utf8 ManagedProcess.
Open Scope Z_scope.

(** ** The service *)

Record ServiceConfig : Type := {
  max_active_per_owner : Z;
  max_active_total : Z;
  max_terminal : Z;
  terminal_ttl_seconds : float64;
  max_output_bytes : Z
}.

(** The scope of an owner. *)
Notation scope := (string * string)%type.

Record Service : Type := {
  records : list (string * ManagedProcess);
  starting : Z;
  starting_by_owner : gmap scope Z;
  closed : bool
}.

(** [src: travis/coding_agent/processes/service.py:106-161 ProcessSessionService.__init__]: the
    checks and the counters; [max_active] overrides both limits. *)
Definition new_service (max_active : option Z) (max_active_per_owner max_active_total max_terminal : Z)
    (terminal_ttl_seconds : float64) (max_output_bytes max_spool_bytes_per_process max_live_spool_bytes : Z)
    (foreground_update_interval_seconds : float64) : result process_error (ServiceConfig * Service) :=
  let max_active_per_owner := default max_active_per_owner max_active in
  let max_active_total := default max_active_total max_active in
  if (max_active_per_owner <? 1) || (max_active_total <? 1) then Err ValueError
  else if (max_spool_bytes_per_process <? 0) || (max_live_spool_bytes <? 0) then Err ValueError
  else if fl_ltb foreground_update_interval_seconds fl_zero then Err ValueError
  else Ok ({| max_active_per_owner := max_active_per_owner; max_active_total := max_active_total;
              max_terminal := Z.max 0 max_terminal; terminal_ttl_seconds := fl_max fl_zero terminal_ttl_seconds;
              max_output_bytes := max_output_bytes |},
           {| records := []; starting := 0; starting_by_owner := ∅; closed := false |}).

Definition with_records (f : list (string * ManagedProcess) → list (string * ManagedProcess)) (s : Service) : Service :=
  {| records := f (records s); starting := starting s; starting_by_owner := starting_by_owner s; closed := closed s |}.

(** [record.state.terminal] *)
Definition over (p : ManagedProcess) : bool := terminal (state (status p)).

(** [record.state.terminal and record.active_calls == 0] *)
Definition removable (r : string * ManagedProcess) : bool := over r.2 && (active_calls (control r.2) =? 0).

(** [record.terminal_at or record.started_at] *)
Definition ended_at (p : ManagedProcess) : float64 :=
  match terminal_at (status p) with
  | Some t => if fl_eqb t fl_zero then started_at p else t
  | None => started_at p
  end.

(** [src: travis/coding_agent/processes/service.py:1072-1091 ProcessSessionService._prune] *)
Definition _prune (c : ServiceConfig) (now : float64) (s : Service) : Service :=
  let terminal := py_sorted (λ a b : string * ManagedProcess, fl_leb (ended_at a.2) (ended_at b.2)) (List.filter removable (records s)) in
  let expired := List.filter (λ r : string * ManagedProcess,
    match terminal_at (status r.2) with
    | Some t => fl_leb (terminal_ttl_seconds c) (fl_sub now t)
    | None => false
    end) terminal in
  let excess := Z.to_nat (Z.max 0 (Z.of_nat (length terminal) - max_terminal c)) in
  let removed := expired.*1 ++ (take excess terminal).*1 in
  with_records (λ l, fold_left (λ l i, od_del i l) removed l) s.

(** [Counter.__getitem__] *)
Definition starting_of (sc : scope) (s : Service) : Z := default 0 (starting_by_owner s !! sc).

Definition count (f : ManagedProcess → bool) (s : Service) : Z := Z.of_nat (length (List.filter (λ r, f r.2) (records s))).

Definition active (p : ManagedProcess) : bool := negb (over p).
Definition active_in (sc : scope) (p : ManagedProcess) : bool := active p && bool_decide (persistence_scope (owner p) = sc).

Definition set_starting (f : Z → Z) (g : gmap scope Z → gmap scope Z) (s : Service) : Service :=
  {| records := records s; starting := f (starting s); starting_by_owner := g (starting_by_owner s); closed := closed s |}.

(** [src: travis/coding_agent/processes/service.py:522-542 ProcessSessionService._reserve_start] *)
Definition _reserve_start (c : ServiceConfig) (o : ProcessOwner) (now : float64) : st Service process_error unit :=
  st_modify (_prune c now);;
  s ← st_get;
  let sc := persistence_scope o in
  if closed s then mthrow ProcessClosedError
  else if max_active_total c <=? count active s + starting s then mthrow ProcessLimitError
  else if max_active_per_owner c <=? count (active_in sc) s + starting_of sc s then mthrow ProcessLimitError
  else st_modify (set_starting (Z.add 1) (<[sc := starting_of sc s + 1]>)).

(** [src: travis/coding_agent/processes/service.py:549-555 ProcessSessionService._decrement_starting_owner] *)
Definition _decrement_starting_owner (o : ProcessOwner) (m : gmap scope Z) : gmap scope Z :=
  let sc := persistence_scope o in
  let remaining := default 0 (m !! sc) - 1 in
  if 0 <? remaining then <[sc := remaining]> m else delete sc m.

(** [src: travis/coding_agent/processes/service.py:544-547 ProcessSessionService._release_start] *)
Definition _release_start (o : ProcessOwner) (s : Service) : Service :=
  set_starting (λ n, Z.max 0 (n - 1)) (_decrement_starting_owner o) s.

(** [record.active_calls += 1] and the [finally] that takes it back. *)
Definition call_begins (p : ManagedProcess) : ManagedProcess := on_control (set_calls (λ n, n + 1)) p.

(** [src: travis/coding_agent/processes/service.py:1036-1040 ProcessSessionService._release_record_call] *)
Definition _release_record_call (p : ManagedProcess) : ManagedProcess := on_control (set_calls (λ n, Z.max 0 (n - 1))) p.

(** The checks at the head of [start].

    [src: travis/coding_agent/processes/service.py:173-176 ProcessSessionService.start (its checks)] *)
Definition start_valid (yield_time_ms : Z) (r : ProcessLaunchRequest) : bool :=
  in_range 0 30000 yield_time_ms && match timeout_seconds r with Some t => negb (fl_leb t fl_zero) | None => true end.

(** The part of [start] behind the spawn, up to the workers: the process becomes a record
    that [start] holds, unless the service has been closed meanwhile.

    [src: travis/coding_agent/processes/service.py:200-207 ProcessSessionService.start (its registration)] *)
Definition register (o : ProcessOwner) (i : string) (r : ProcessLaunchRequest) (now : float64) : st Service process_error unit :=
  st_modify (set_starting (λ n, n - 1) (_decrement_starting_owner o));;
  s ← st_get;
  if closed s then mthrow ProcessClosedError
  else st_modify (with_records (od_set i (call_begins (new_process i o r now)))).

(** The record of a call, if it is the owner's. *)
Definition owned (o : ProcessOwner) (i : string) (s : Service) : option ManagedProcess :=
  match od_get i (records s) with
  | Some p => if decide (owner p = o) then Some p else None
  | None => None
  end.

(** [src: travis/coding_agent/processes/service.py:1024-1034 ProcessSessionService._acquire_record_call] *)
Definition _acquire_record_call (c : ServiceConfig) (o : ProcessOwner) (i : string) (now : float64) : st Service process_error unit :=
  st_modify (_prune c now);;
  s ← st_get;
  if closed s then mthrow ProcessClosedError
  else match owned o i s with
       | None => mthrow ProcessNotFoundError
       | Some p => st_modify (with_records (od_set i (call_begins p)))
       end.

(** The records that [list] holds: the owner's.

    [src: travis/coding_agent/processes/service.py:379-386 ProcessSessionService.list (its records)] *)
Definition list_acquires (c : ServiceConfig) (o : ProcessOwner) (now : float64) (s : Service) : list string * Service :=
  let s := _prune c now s in
  if closed s then ([], s)
  else (List.map fst (List.filter (λ r, bool_decide (owner r.2 = o)) (records s)),
        with_records (List.map (λ r, if decide (owner r.2 = o) then (r.1, call_begins r.2) else r)) s).

(** [^proc_[0-9a-f]{32}$] as a full match. *)
Definition is_process_id (i : string) : bool :=
  String.prefix "proc_" i && (String.length i =? 37)%nat &&
  forallb (λ a, is_digit_char a || in_range 97 102 (code a)) (drop 5 (chars i)).

(** The checks of [inspect_many] and the records it holds, in the order of [ids].

    [src: travis/coding_agent/processes/service.py:411-431 ProcessSessionService.inspect_many (its records)] *)
Definition inspect_many_acquires (c : ServiceConfig) (o : ProcessOwner) (ids : list string) (now : float64)
    : st Service process_error (list string) :=
  if (64 <? length ids)%nat then mthrow ValueError
  else if bool_decide (¬ NoDup ids) then mthrow ValueError
  else if existsb (λ i, negb (is_process_id i)) ids then mthrow ValueError
  else if bool_decide (ids = []) then mret []
  else
    st_modify (_prune c now);;
    s ← st_get;
    if closed s then mthrow ProcessClosedError
    else
      let acquired := List.filter (λ i, bool_decide (is_Some (owned o i s))) ids in
      st_modify (with_records (λ l, fold_left (λ l i, match od_get i l with Some p => od_set i (call_begins p) l | None => l end) acquired l));;
      mret acquired.

(** One turn of [_reclaim_durable_terminal_spools]: the record that is given up.

    [src: travis/coding_agent/processes/service.py:1093-1109 ProcessSessionService._reclaim_durable_terminal_spools] *)
Definition reclaim_one (s : Service) : Service :=
  let candidates := List.filter (λ r, over r.2 && durable_output (outcome r.2) && (active_calls (control r.2) =? 0)) (records s) in
  match candidates with
  | [] => s
  | r :: rest =>
      let candidate := fold_left (λ best r : string * ManagedProcess, if fl_ltb (ended_at r.2) (ended_at best.2) then r else best) rest r in
      with_records (od_del candidate.1) s
  end.

(** [close] at its start.

    [src: travis/coding_agent/processes/service.py:464-469 ProcessSessionService.close (its start)] *)
Definition close_begins (s : Service) : Service :=
  {| records := records s; starting := starting s; starting_by_owner := starting_by_owner s; closed := true |}.

(** [close] at its end, behind the wait for the calls of every record.

    [src: travis/coding_agent/processes/service.py:493-497 ProcessSessionService.close (its end)] *)
Definition close_ends (s : Service) : Service := with_records (λ _, []) s.

(** ** Snapshots *)

(** [src: travis/coding_agent/processes/types.py:87-104 ProcessSnapshot] *)
Record ProcessSnapshot : Type := {
  s_session_id : string;
  s_state : ProcessState;
  s_output : text;
  s_cursor : Z;
  s_next_cursor : Z;
  s_output_size : Z;
  s_exit_code : option Z;
  s_tty : bool;
  s_elapsed_ms : Z;
  s_command : string;
  s_cwd : string;
  s_durable_output : bool;
  s_full_output_path : option string;
  s_failure_code : option string
}.

(** [output] is what the spool reads: text, cursor and next cursor.

    [src: travis/coding_agent/processes/service.py:911-935 ProcessSessionService._snapshot] *)
Definition _snapshot (output : text * Z * Z) (size : Z) (now : float64) (p : ManagedProcess) : ProcessSnapshot :=
  let elapsed_at := default now (terminal_at (status p)) in
  {| s_session_id := session_id p; s_state := state (status p); s_output := output.1.1; s_cursor := output.1.2;
     s_next_cursor := output.2; s_output_size := size; s_exit_code := exit_code (status p); s_tty := tty (request p);
     s_elapsed_ms := milliseconds elapsed_at (started_at p); s_command := command (request p); s_cwd := cwd (request p);
     s_durable_output := durable_output (outcome p); s_full_output_path := full_output_path (outcome p);
     s_failure_code := failure_code (status p) |}.

(** [src: travis/coding_agent/processes/service.py:937-954 ProcessSessionService._metadata_snapshot] *)
Definition _metadata_snapshot (size : Z) (now : float64) (p : ManagedProcess) : ProcessSnapshot :=
  let elapsed_at := default now (terminal_at (status p)) in
  {| s_session_id := session_id p; s_state := state (status p); s_output := []; s_cursor := size;
     s_next_cursor := size; s_output_size := size; s_exit_code := exit_code (status p); s_tty := tty (request p);
     s_elapsed_ms := milliseconds elapsed_at (started_at p); s_command := ""; s_cwd := "";
     s_durable_output := durable_output (outcome p); s_full_output_path := full_output_path (outcome p);
     s_failure_code := failure_code (status p) |}.

(** The order that [list] shows its records in: the running ones first, the newest first.

    [src: travis/coding_agent/processes/service.py:388-394 ProcessSessionService.list (its order)] *)
Definition listed_leb (p q : ManagedProcess) : bool :=
  let at_time p := SpecFloat.SFopp (default (started_at p) (terminal_at (status p))) in
  if Bool.eqb (over p) (over q) then fl_leb (at_time p) (at_time q) else negb (over p).
Definition listed (snapshot : ManagedProcess → ProcessSnapshot) (records : list ManagedProcess) : list ProcessSnapshot :=
  List.map snapshot (py_sorted listed_leb records).

(** What [inspect_many] answers: [live] are the snapshots of the records it holds,
    [store] is [inspect_many] of the completion store.

    [src: travis/coding_agent/processes/service.py:439-448 ProcessSessionService.inspect_many (its result)] *)
Definition inspect_many_result (ids : list string) (live : list (string * ProcessSnapshot))
    (store : option (list string → list (option ProcessSnapshot))) : list (option ProcessSnapshot) :=
  let missing := List.filter (λ i, match od_get i live with Some _ => false | None => true end) ids in
  let durable := match store, missing with
    | Some inspect, _ :: _ => omap (λ r : string * option ProcessSnapshot, s ← r.2; Some (r.1, s)) (zip missing (inspect missing))
    | _, _ => []
    end in
  List.map (λ i, match od_get i live with Some s => Some s | None => od_get i durable end) ids.

(** ** Actions *)

(** Besides the service: who holds what. *)
Record World : Type := { service : Service; starts : list ProcessOwner; holders : list string }.

Inductive service_action : Type :=
  | Reserve (o : ProcessOwner) (now : float64)
  | StartFails (o : ProcessOwner)
  | Register (o : ProcessOwner) (i : string) (r : ProcessLaunchRequest) (now : float64)
  | StartAborts (i : string)
  | Acquire (o : ProcessOwner) (i : string) (now : float64)
  | AcquireList (o : ProcessOwner) (now : float64)
  | AcquireMany (o : ProcessOwner) (ids : list string) (now : float64)
  | Release (i : string)
  | Reclaim
  | Inside (i : string) (a : action)
  | CloseBegins
  | CloseEnds.

Fixpoint remove_first {A : Type} `{EqDecision A} (x : A) (l : list A) : list A :=
  match l with [] => [] | y :: l => if decide (y = x) then l else y :: remove_first x l end.

(** Calls are counted by the service, not by the threads of the record. *)
Definition of_thread (a : action) : bool := match a with AcquireCall | ReleaseCall => false | _ => true end.

Definition holding (s : Service) (starts : list ProcessOwner) (holders : list string) : World :=
  {| service := s; starts := starts; holders := holders |}.

(** One action; [None] where no thread can take it.  Session ids are random tokens: the id
    of a registration is a new one.

    [src: travis/coding_agent/processes/service.py:177-218 ProcessSessionService.start (its steps)] *)
Definition service_step (c : ServiceConfig) (a : service_action) (w : World) : option World :=
  let s := service w in
  match a with
  | Reserve o now =>
      match _reserve_start c o now s with
      | (Ok _, s) => Some (holding s (o :: starts w) (holders w))
      | (Err _, s) => Some (holding s (starts w) (holders w))
      end
  | StartFails o =>
      if decide (o ∈ starts w) then Some (holding (_release_start o s) (remove_first o (starts w)) (holders w)) else None
  | Register o i r now =>
      if decide (o ∈ starts w ∧ i ∉ (records s).*1 ∧ i ∉ holders w) then
        match register o i r now s with
        | (Ok _, s) => Some (holding s (remove_first o (starts w)) (i :: holders w))
        | (Err _, s) => Some (holding s (remove_first o (starts w)) (holders w))
        end
      else None
  | StartAborts i =>
      if decide (i ∈ holders w) then Some (holding (with_records (od_del i) s) (starts w) (remove_first i (holders w))) else None
  | Acquire o i now =>
      match _acquire_record_call c o i now s with
      | (Ok _, s) => Some (holding s (starts w) (i :: holders w))
      | (Err _, s) => Some (holding s (starts w) (holders w))
      end
  | AcquireList o now =>
      let '(ids, s) := list_acquires c o now s in Some (holding s (starts w) (ids ++ holders w))
  | AcquireMany o ids now =>
      match inspect_many_acquires c o ids now s with
      | (Ok ids, s) => Some (holding s (starts w) (ids ++ holders w))
      | (Err _, s) => Some (holding s (starts w) (holders w))
      end
  | Release i =>
      if decide (i ∈ holders w) then
        let release l := match od_get i l with Some p => od_set i (_release_record_call p) l | None => l end in
        Some (holding (with_records release s) (starts w) (remove_first i (holders w)))
      else None
  | Reclaim => Some (holding (reclaim_one s) (starts w) (holders w))
  | Inside i a =>
      if of_thread a then
        p ← od_get i (records s); p' ← step a p;
        Some (holding (with_records (od_set i p') s) (starts w) (holders w))
      else None
  | CloseBegins => Some (holding (close_begins s) (starts w) (holders w))
  | CloseEnds =>
      if closed s && forallb (λ r, active_calls (control r.2) =? 0) (records s)
      then Some (holding (close_ends s) (starts w) (holders w)) else None
  end.

Fixpoint service_run (c : ServiceConfig) (l : list service_action) (w : World) : option World :=
  match l with [] => Some w | a :: l => w ← service_step c a w; service_run c l w end.
