(* ===== verification/ProcessServiceSpec.v ===== *)
(** Properties of the service of managed processes: it stays within its limits, it never
    gives up a record that a call holds, and it forgets exactly the ended processes it may
    forget. *)

From S2P Require Import Prelude PyDict PyFloat Utf8 ManagedProcess ManagedProcessSpec ProcessService.
Open Scope Z_scope.

(** ** Lists of records *)

Abbreviation entries := (list (string * ManagedProcess)).

Definition among (f : ManagedProcess → bool) (l : entries) : nat := length (List.filter (λ r, f r.2) l).

Lemma among_cons f r l : among f (r :: l) = ((if f r.2 then 1 else 0) + among f l)%nat.
Proof. apply (cnt_cons (λ r, f r.2)). Qed.

#[local] Arguments among : simpl never.

Lemma among_app f l1 l2 : among f (l1 ++ l2) = (among f l1 + among f l2)%nat.
Proof. apply (cnt_app (λ r, f r.2)). Qed.

Lemma among_filter f g l : (among f (List.filter g l) <= among f l)%nat.
Proof. induction l as [|r l IH]; [done|]. cbn [List.filter]. destruct (g r); rewrite !among_cons; lia. Qed.

Lemma among_map f g l : (∀ r, f (g r).2 = f r.2) → among f (List.map g l) = among f l.
Proof. intros H. induction l as [|r l IH]; [done|]. cbn [List.map]. by rewrite !among_cons, H, IH. Qed.

Lemma among_set f i p p' (l : entries) : od_get i l = Some p → (f p' = true → f p = true) → (among f (od_set i p' l) <= among f l)%nat.
Proof.
  intros Hi Hf. induction l as [|[j q] l IH]; [done|]. cbn in *. destruct (decide (j = i)) as [->|Hne].
  - injection Hi as ->. rewrite !among_cons. cbn. destruct (f p'), (f p); lia.
  - specialize (IH Hi). rewrite !among_cons. lia.
Qed.

Lemma fold_del_filter rs (l : entries) :
  fold_left (λ l i, od_del i l) rs l = List.filter (λ r, negb (bool_decide (r.1 ∈ rs))) l.
Proof.
  revert l. induction rs as [|i rs IH]; intros l; cbn [fold_left].
  - induction l as [|r l IHl]; [done|]. cbn. by rewrite <- IHl.
  - rewrite IH. unfold od_del. induction l as [|r l IHl]; [done|]. cbn [List.filter].
    destruct (decide (r.1 = i)) as [Hi|Hi].
    + rewrite !bool_decide_true by set_solver. exact IHl.
    + rewrite (bool_decide_false (r.1 = i)) by done. cbn [negb List.filter]. rewrite IHl.
      replace (bool_decide (r.1 ∈ i :: rs)) with (bool_decide (r.1 ∈ rs)) by (apply bool_decide_ext; set_solver). done.
Qed.

Lemma filter_keys (g : string * ManagedProcess → bool) l : NoDup l.*1 → NoDup (List.filter g l).*1.
Proof.
  induction l as [|r l IH]; [done|]. cbn. intros [Hr Hl]%NoDup_cons. destruct (g r); [|by apply IH]. cbn. apply NoDup_cons. split; [|by apply IH].
  intros (r' & He & Hin)%list_elem_of_fmap. apply Hr. rewrite He. apply list_elem_of_fmap. exists r'. split; [done|].
  apply list_elem_of_In, filter_In in Hin as [Hin _]. by apply list_elem_of_In.
Qed.

Lemma in_filter (g : string * ManagedProcess → bool) r l : r ∈ List.filter g l ↔ r ∈ l ∧ g r = true.
Proof. by rewrite !list_elem_of_In, filter_In. Qed.

Lemma in_set i p' r (l : entries) : NoDup l.*1 → i ∈ l.*1 → r ∈ od_set i p' l → r = (i, p') ∨ (r.1 ≠ i ∧ r ∈ l).
Proof.
  intros Hn Hi. induction l as [|[j q] l IH]; [by apply elem_of_nil in Hi|]. cbn in *. apply NoDup_cons in Hn as [Hj Hn].
  destruct (decide (j = i)) as [->|Hne].
  - intros [->|Hr]%elem_of_cons; [by left|]. right. split; [|set_solver]. intros <-. apply Hj, list_elem_of_fmap. by exists r.
  - intros [->|Hr]%elem_of_cons; [right; set_solver|]. apply elem_of_cons in Hi as [->|Hi]; [done|].
    destruct (IH Hn Hi Hr) as [->|[? ?]]; [by left|right; set_solver].
Qed.

Lemma set_keys i p' (l : entries) : i ∈ l.*1 → (od_set i p' l).*1 = l.*1.
Proof.
  induction l as [|[j q] l IH]; cbn; [by intros ?%elem_of_nil|]. intros [->|Hi]%elem_of_cons.
  - by rewrite decide_True.
  - destruct (decide (j = i)) as [->|?]; [done|]. cbn. by rewrite IH.
Qed.

Lemma get_keys i p (l : entries) : od_get i l = Some p → i ∈ l.*1.
Proof. intros H. apply dec_stable. intros Hn. apply od_get_none in Hn. congruence. Qed.

(** ** Occurrences *)

Definition occurs {A : Type} `{EqDecision A} (x : A) (l : list A) : nat := length (filter (.= x) l).

Lemma occurs_cons {A} `{EqDecision A} (x y : A) l : occurs x (y :: l) = ((if decide (y = x) then 1 else 0) + occurs x l)%nat.
Proof. unfold occurs. rewrite filter_cons. by destruct (decide (y = x)). Qed.

#[local] Arguments occurs : simpl never.

Lemma occurs_app {A} `{EqDecision A} (x : A) l1 l2 : occurs x (l1 ++ l2) = (occurs x l1 + occurs x l2)%nat.
Proof. unfold occurs. by rewrite filter_app, length_app. Qed.

Lemma occurs_none {A} `{EqDecision A} (x : A) l : x ∉ l → occurs x l = 0%nat.
Proof. intros H. induction l as [|y l IH]; [done|]. rewrite occurs_cons, decide_False, IH by set_solver. done. Qed.

Lemma occurs_nodup {A} `{EqDecision A} (x : A) l : NoDup l → occurs x l = if decide (x ∈ l) then 1%nat else 0%nat.
Proof.
  induction 1 as [|y l Hy Hl IH]; [done|]. rewrite occurs_cons, IH.
  destruct (decide (y = x)) as [->|Hne].
  - rewrite (decide_False (P := x ∈ l)), decide_True by set_solver. done.
  - destruct (decide (x ∈ l)); [rewrite decide_True by set_solver|rewrite decide_False by set_solver]; done.
Qed.

Lemma occurs_pos {A} `{EqDecision A} (x : A) l : x ∈ l → (0 < occurs x l)%nat.
Proof.
  induction l as [|y l IH]; [by intros ?%elem_of_nil|]. rewrite occurs_cons. intros [->|Hx]%elem_of_cons.
  - rewrite decide_True by done. lia.
  - specialize (IH Hx). lia.
Qed.

Lemma occurs_remove {A} `{EqDecision A} (x y : A) l : y ∈ l →
  occurs x l = ((if decide (y = x) then 1 else 0) + occurs x (remove_first y l))%nat.
Proof.
  induction l as [|z l IH]; [by intros ?%elem_of_nil|]. cbn [remove_first]. intros Hy. destruct (decide (z = y)) as [->|Hne].
  - by rewrite occurs_cons.
  - apply elem_of_cons in Hy as [->|Hy]; [done|]. rewrite !occurs_cons, IH by done. lia.
Qed.

Lemma length_remove {A} `{EqDecision A} (x : A) l : x ∈ l → length l = S (length (remove_first x l)).
Proof.
  induction l as [|z l IH]; [by intros ?%elem_of_nil|]. cbn [remove_first]. intros Hy. destruct (decide (z = x)) as [->|Hne]; [done|].
  apply elem_of_cons in Hy as [->|Hy]; [done|]. cbn. by rewrite <- IH.
Qed.

Lemma occurs_map_remove {A B} `{EqDecision A, EqDecision B} (f : A → B) x b l : x ∈ l →
  occurs b (List.map f l) = ((if decide (f x = b) then 1 else 0) + occurs b (List.map f (remove_first x l)))%nat.
Proof.
  induction l as [|z l IH]; [by intros ?%elem_of_nil|]. cbn [remove_first List.map]. intros Hy. destruct (decide (z = x)) as [->|Hne].
  - by rewrite occurs_cons.
  - apply elem_of_cons in Hy as [->|Hy]; [done|]. cbn [List.map]. rewrite !occurs_cons, IH by done. lia.
Qed.

(** ** Records and threads *)

Lemma signal_frame name answer raised p : owner (_safe_signal name answer raised p) = owner p ∧
  active_calls (control (_safe_signal name answer raised p)) = active_calls (control p).
Proof.
  unfold _safe_signal. destruct (_transport_exited answer); [done|].
  destruct (match name with Terminate => _ | Kill => _ end); [done|]. by destruct raised.
Qed.

(** What no action of a thread changes. *)
Lemma step_frame a p p' : of_thread a = true → step a p = Some p' →
  owner p' = owner p ∧ active_calls (control p') = active_calls (control p).
Proof.
  intros Ha Hs. destruct a; try done; cbn [step] in Hs.
  1: { destruct (write_input _ _ _ _ p) eqn:Hw; injection Hs as <-; [by apply write_input_ok in Hw as (_ & _ & _ & ->)|done]. }
  2: { injection Hs as <-. apply signal_frame. }
  2: { destruct (handoff_turn _ _ p) as [| |q|] eqn:Hh; try done. injection Hs as <-. by apply handoff_detaches in Hh as ->. }
  all: try (destruct (monitor p); try done; injection Hs as <-).
  all: try (injection Hs as <-; unfold _claim_stop, _set_output_failure).
  all: unfold monitor_polls, monitor_times_out, monitor_finishes_output, _claim_stop, _set_output_failure, _persist_completion, _emit_terminal.
  all: unfold pump_take, pump_written, pump_claims, _claim_input_failure, pump_finishes in *.
  all: repeat case_match; simplify_eq; try done.
Qed.

(** ** The invariant *)

(** The records have keys of their own, are in a reachable state, and count their calls. *)
Definition Entries (l : entries) (h : list string) : Prop :=
  NoDup l.*1 ∧ ∀ r, r ∈ l → Good r.2 ∧ active_calls (control r.2) = Z.of_nat (occurs r.1 h).

(** Nothing is active in [l'] that was not in [l]. *)
Definition no_more (l' l : entries) : Prop :=
  (among active l' <= among active l)%nat ∧ ∀ sc, (among (active_in sc) l' <= among (active_in sc) l)%nat.

Record ServiceOk (c : ServiceConfig) (w : World) : Prop := {
  so_entries : Entries (records (service w)) (holders w);
  so_starting : starting (service w) = Z.of_nat (length (starts w));
  so_scopes : ∀ sc, starting_of sc (service w) = Z.of_nat (occurs sc (List.map persistence_scope (starts w)));
  so_total : count active (service w) + starting (service w) <= max_active_total c;
  so_owner : ∀ sc, count (active_in sc) (service w) + starting_of sc (service w) <= max_active_per_owner c
}.

Lemma no_more_refl l : no_more l l.
Proof. done. Qed.

Lemma no_more_filter g l : no_more (List.filter g l) l.
Proof. split; [|intros sc]; apply among_filter. Qed.

Lemma no_more_set i p p' (l : entries) : od_get i l = Some p → owner p' = owner p → (active p' = true → active p = true) → no_more (od_set i p' l) l.
Proof.
  intros Hi Ho Ha. split; [|intros sc]; eapply among_set; try done. unfold active_in. rewrite Ho. intros [H1 H2]%andb_true_iff. by rewrite Ha, H2.
Qed.

Lemma no_more_trans l1 l2 l3 : no_more l1 l2 → no_more l2 l3 → no_more l1 l3.
Proof. intros [A1 A2] [B1 B2]. split; [lia|]. intros sc. specialize (A2 sc). specialize (B2 sc). lia. Qed.

Lemma entries_filter g l h : Entries l h → Entries (List.filter g l) h.
Proof. intros [Hn Hl]. split; [by apply filter_keys|]. intros r [Hr _]%in_filter. by apply Hl. Qed.

Lemma entries_get i p l h : Entries l h → od_get i l = Some p → Good p ∧ active_calls (control p) = Z.of_nat (occurs i h).
Proof. intros [Hn Hl] Hi. apply od_get_in in Hi; [|done]. by apply (Hl (i, p)). Qed.

Lemma entries_set i p p' l h h' : Entries l h → od_get i l = Some p → Good p' → active_calls (control p') = Z.of_nat (occurs i h') →
  (∀ j, j ≠ i → occurs j h' = occurs j h) → Entries (od_set i p' l) h'.
Proof.
  intros [Hn Hl] Hi Hg Hc Hh. split; [by apply od_set_nodup|]. intros r Hr. apply in_set in Hr as [->|[Hne Hr]]; try done; [|by eapply get_keys].
  rewrite Hh by done. by apply Hl.
Qed.

Lemma good_begins p : Good p → Good (call_begins p).
Proof. intros Hp. by apply (good_step AcquireCall p). Qed.

Lemma good_release p : Good p → Good (_release_record_call p).
Proof. intros Hp. by apply (good_step ReleaseCall p). Qed.

Lemma entries_begin i p l h : Entries l h → od_get i l = Some p →
  Entries (od_set i (call_begins p) l) (i :: h) ∧ no_more (od_set i (call_begins p) l) l.
Proof.
  intros He Hi. destruct (entries_get i p l h He Hi) as [Hg Hc]. split; [|by apply (no_more_set i p)].
  eapply entries_set; try done; [by apply good_begins| |].
  - cbn. rewrite Hc, occurs_cons, decide_True by done. lia.
  - intros j Hj. by rewrite occurs_cons, decide_False.
Qed.

(** A change of the records alone. *)
Lemma ok_records c s s' st h h' : ServiceOk c (holding s st h) → starting s' = starting s → starting_by_owner s' = starting_by_owner s →
  Entries (records s') h' → no_more (records s') (records s) → ServiceOk c (holding s' st h').
Proof.
  intros [? H1 H2 H3 H4] E1 E2 He [N1 N2]. unfold count, starting_of in *. cbn in *. fold (among active (records s)) in H3.
  split; cbn; unfold count, starting_of; rewrite ?E1, ?E2; try done.
  - fold (among active (records s')). lia.
  - intros sc. specialize (H4 sc). specialize (N2 sc). fold (among (active_in sc) (records s')). fold (among (active_in sc) (records s)) in H4. lia.
Qed.

Lemma prune_records c now s : ∃ g, records (_prune c now s) = List.filter g (records s).
Proof. eexists. unfold _prune. cbn. apply fold_del_filter. Qed.

Lemma prune_ok c now s st h : ServiceOk c (holding s st h) → ServiceOk c (holding (_prune c now s) st h).
Proof.
  intros Hok. destruct (prune_records c now s) as [g Hg]. eapply ok_records; [exact Hok|done|done| |]; rewrite Hg.
  - apply entries_filter, Hok.
  - apply no_more_filter.
Qed.

Lemma reserve_ok c o now s st h : ServiceOk c (holding s st h) →
  ServiceOk c (match _reserve_start c o now s with (Ok _, s) => holding s (o :: st) h | (Err _, s) => holding s st h end).
Proof.
  intros Hok. apply (prune_ok c now) in Hok. unfold _reserve_start. st_eval.
  set (s' := _prune c now s) in *. clearbody s'. destruct (closed s'); [done|].
  destruct (max_active_total c <=? _) eqn:H1; [done|]. destruct (max_active_per_owner c <=? _) eqn:H2; [done|].
  apply Z.leb_gt in H1, H2. destruct Hok as [He H3 H4 H5 H6]. cbn in *. split; cbn -[count starting_of]; try done.
  - lia.
  - intros sc. rewrite occurs_cons. unfold starting_of in *. cbn. destruct (decide (persistence_scope o = sc)) as [<-|Hne].
    + rewrite lookup_insert_eq. cbn. rewrite H4. lia.
    + rewrite lookup_insert_ne by done. by rewrite H4.
  - change (count active (set_starting _ _ s')) with (count active s'). lia.
  - intros sc. change (count (active_in sc) (set_starting _ _ s')) with (count (active_in sc) s'). specialize (H6 sc). unfold starting_of in *. cbn -[count].
    destruct (decide (persistence_scope o = sc)) as [<-|Hne]; [rewrite lookup_insert_eq; cbn -[count]; lia|by rewrite lookup_insert_ne].
Qed.

Lemma decrement_scopes o st s : o ∈ st →
  (∀ sc, starting_of sc s = Z.of_nat (occurs sc (List.map persistence_scope st))) →
  ∀ f sc, starting_of sc (set_starting f (_decrement_starting_owner o) s) = Z.of_nat (occurs sc (List.map persistence_scope (remove_first o st))).
Proof.
  intros Ho Hs f sc. pose proof (Hs (persistence_scope o)) as H1. pose proof (Hs sc) as H2. unfold starting_of in *. cbn.
  rewrite (occurs_map_remove _ o) in H1, H2 by done. rewrite decide_True in H1 by done.
  unfold _decrement_starting_owner. rewrite H1. destruct (0 <? _) eqn:Hlt.
  - apply Z.ltb_lt in Hlt. destruct (decide (persistence_scope o = sc)) as [<-|Hne]; [rewrite lookup_insert_eq; cbn; lia|].
    rewrite lookup_insert_ne by done. lia.
  - apply Z.ltb_ge in Hlt. destruct (decide (persistence_scope o = sc)) as [<-|Hne]; [rewrite lookup_delete_eq; cbn; lia|].
    rewrite lookup_delete_ne by done. lia.
Qed.

(** A start that ends gives its place back. *)
Lemma unreserve_ok c o f s st h : ServiceOk c (holding s st h) → o ∈ st → f (starting s) = starting s - 1 →
  ServiceOk c (holding (set_starting f (_decrement_starting_owner o) s) (remove_first o st) h).
Proof.
  intros [He H1 H2 H3 H4] Ho Hf. cbn in *. pose proof (decrement_scopes o st s Ho H2 f) as Hd.
  pose proof (length_remove _ _ Ho). split; cbn -[starting_of count]; try done.
  - lia.
  - change (count active (set_starting _ _ s)) with (count active s). lia.
  - intros sc. change (count _ (set_starting _ _ s)) with (count (active_in sc) s). rewrite Hd. specialize (H4 sc). rewrite H2 in H4.
    rewrite (occurs_map_remove _ o) in H4 by done. lia.
Qed.

Lemma new_good i o r now : Good (call_begins (new_process i o r now)).
Proof. apply good_begins, good_new. Qed.

Lemma among_set_fresh f i p (l : entries) : i ∉ l.*1 → among f (od_set i p l) = (among f l + if f p then 1 else 0)%nat.
Proof. intros Hi. rewrite od_set_fresh, among_app by done. unfold among at 2. cbn. by destruct (f p). Qed.

(** The place of a start becomes the place of its record. *)
Lemma register_ok c o i r now s st h : ServiceOk c (holding s st h) → o ∈ st → i ∉ (records s).*1 → i ∉ h →
  ServiceOk c (match register o i r now s with
               | (Ok _, s) => holding s (remove_first o st) (i :: h)
               | (Err _, s) => holding s (remove_first o st) h
               end).
Proof.
  intros Hok Ho Hi Hh. pose proof (unreserve_ok c o (λ n, n - 1) s st h Hok Ho eq_refl) as Hu.
  unfold register. st_eval. destruct (closed _); [done|].
  destruct Hok as [[Hn Hl] H1 H2 H3 H4], Hu as [_ U1 U2 _ _]. cbn in *. pose proof (length_remove _ _ Ho).
  split; cbn -[starting_of count]; try done.
  - split; [by apply od_set_nodup|]. rewrite od_set_fresh by done. intros q [Hq|Hq]%elem_of_app.
    + assert (q.1 ≠ i) as Hne by (intros <-; apply Hi, list_elem_of_fmap; by exists q). rewrite occurs_cons, decide_False by done. by apply Hl.
    + apply list_elem_of_singleton in Hq as ->. split; [apply new_good|]. cbn. by rewrite occurs_cons, decide_True, occurs_none.
  - unfold count in *. cbn. fold (among active (od_set i (call_begins (new_process i o r now)) (records s))). fold (among active (records s)) in H3.
    rewrite among_set_fresh by done. cbn. lia.
  - intros sc. specialize (H4 sc). specialize (U2 sc). rewrite H2 in H4. rewrite (occurs_map_remove _ o) in H4 by done.
    change (starting_of sc (with_records _ _)) with (starting_of sc (set_starting (λ n, n - 1) (_decrement_starting_owner o) s)). rewrite U2.
    unfold count in *. cbn. fold (among (active_in sc) (od_set i (call_begins (new_process i o r now)) (records s))).
    fold (among (active_in sc) (records s)) in H4. rewrite among_set_fresh by done. unfold active_in at 2. cbn.
    destruct (decide (persistence_scope o = sc)); [rewrite bool_decide_true by done|rewrite bool_decide_false by done]; lia.
Qed.

Lemma owned_get o i s p : owned o i s = Some p → od_get i (records s) = Some p.
Proof. unfold owned. destruct (od_get i (records s)) as [q|]; [|done]. by destruct (decide _) as [_|]; intros [= ->]. Qed.

Lemma acquire_ok c o i now s st h : ServiceOk c (holding s st h) →
  ServiceOk c (match _acquire_record_call c o i now s with (Ok _, s) => holding s st (i :: h) | (Err _, s) => holding s st h end).
Proof.
  intros Hok. apply (prune_ok c now) in Hok. unfold _acquire_record_call. st_eval.
  destruct (closed _); [done|]. destruct (owned o i _) as [p|] eqn:Hp; [|done]. apply owned_get in Hp.
  destruct (entries_begin i p _ h (so_entries _ _ Hok) Hp) as [He Hm]. by eapply ok_records.
Qed.

Lemma entries_list (g : ManagedProcess → bool) l h : Entries l h →
  let l' := List.map (λ r : string * ManagedProcess, if g r.2 then (r.1, call_begins r.2) else r) l in
  Entries l' (List.map fst (List.filter (λ r, g r.2) l) ++ h) ∧ no_more l' l.
Proof.
  intros [Hn Hl] l'. assert (l'.*1 = l.*1) as Hk.
  { unfold l'. clear. induction l as [|r l IH]; [done|]. cbn. rewrite <- IH. by destruct (g r.2). }
  split; [split; [by rewrite Hk|]|].
  - intros r' (r & -> & Hr)%list_elem_of_fmap. destruct (Hl r Hr) as [Hg Hc]. rewrite occurs_app.
    assert (NoDup (List.map fst (List.filter (λ r, g r.2) l))) as Hnf by by apply (filter_keys (λ r, g r.2)).
    assert (r.1 ∈ List.map fst (List.filter (λ r, g r.2) l) ↔ g r.2 = true) as Hin.
    { split.
      - intros (q & Hq & [Hq1 Hq2]%in_filter)%list_elem_of_fmap. enough (r = q) as -> by done.
        destruct r as [i p], q as [j q]. cbn in Hq. subst j. apply od_get_in in Hr, Hq1; [|done..]. congruence.
      - intros Ht. apply list_elem_of_fmap. exists r. split; [done|]. by apply in_filter. }
    rewrite occurs_nodup by done. destruct (g r.2) eqn:Ht.
    + split; [by apply good_begins|]. cbn. rewrite decide_True by by apply Hin. lia.
    + split; [done|]. rewrite decide_False by (rewrite Hin; done). done.
  - split; [|intros sc]; unfold l'; rewrite among_map; try done; intros r; by destruct (g r.2).
Qed.

Definition mine (o : ProcessOwner) (p : ManagedProcess) : bool := bool_decide (owner p = o).

Lemma map_mine o (l : entries) : List.map (λ r, if decide (owner r.2 = o) then (r.1, call_begins r.2) else r) l =
  List.map (λ r, if mine o r.2 then (r.1, call_begins r.2) else r) l.
Proof. apply map_ext. intros r. unfold mine. by destruct (decide (owner r.2 = o)); [rewrite bool_decide_true|rewrite bool_decide_false]. Qed.

Lemma acquire_list_ok c o now s st h : ServiceOk c (holding s st h) →
  ServiceOk c (let '(ids, s) := list_acquires c o now s in holding s st (ids ++ h)).
Proof.
  intros Hok. apply (prune_ok c now) in Hok. unfold list_acquires. set (s' := _prune c now s) in *. cbn zeta.
  destruct (closed s'); [done|].
  destruct (entries_list (mine o) _ _ (so_entries _ _ Hok)) as [He Hm].
  eapply ok_records; [exact Hok|done|done| |]; cbn; by rewrite map_mine.
Qed.

Definition begin_all (ids : list string) (l : entries) : entries :=
  fold_left (λ l i, match od_get i l with Some p => od_set i (call_begins p) l | None => l end) ids l.

Lemma entries_begin_all ids : ∀ l h, Entries l h → (∀ i, i ∈ ids → i ∈ l.*1) →
  Entries (begin_all ids l) (ids ++ h) ∧ no_more (begin_all ids l) l ∧ (begin_all ids l).*1 = l.*1.
Proof.
  induction ids as [|i ids IH]; intros l h He Hi; [by split; [|split]|]. unfold begin_all. cbn [fold_left].
  destruct (od_get i l) as [p|] eqn:Hp; [|apply od_get_none in Hp; exfalso; apply Hp, Hi; set_solver].
  destruct (entries_begin i p l h He Hp) as [H1 H2]. pose proof (set_keys i (call_begins p) l (get_keys _ _ _ Hp)) as Hk.
  destruct (IH _ _ H1) as (H3 & H4 & H5); [intros j Hj; rewrite Hk; apply Hi; set_solver|]. split; [|split].
  - destruct H3 as [Hn Hl]. split; [exact Hn|]. intros r Hr. destruct (Hl r Hr) as [Hg Hc]. split; [done|].
    rewrite Hc, !occurs_app, !occurs_cons. lia.
  - by eapply no_more_trans.
  - by etransitivity.
Qed.

Lemma acquire_many_ok c o ids now s st h : ServiceOk c (holding s st h) →
  ServiceOk c (match inspect_many_acquires c o ids now s with (Ok ids, s) => holding s st (ids ++ h) | (Err _, s) => holding s st h end).
Proof.
  intros Hok. unfold inspect_many_acquires. destruct (64 <? _)%nat; [done|]. destruct (bool_decide (¬ NoDup ids)); [done|].
  destruct (existsb _ ids); [done|]. destruct (bool_decide (ids = [])); [done|]. apply (prune_ok c now) in Hok. st_eval.
  set (s' := _prune c now s) in *. clearbody s'. destruct (closed s'); [done|].
  destruct (entries_begin_all (List.filter (λ i, bool_decide (is_Some (owned o i s'))) ids) _ _ (so_entries _ _ Hok)) as (He & Hm & _).
  - intros i Hi. apply list_elem_of_In, filter_In in Hi as [_ Hi]. apply bool_decide_eq_true in Hi as [p Hp]. by eapply get_keys, owned_get.
  - by eapply ok_records.
Qed.

Lemma entries_abort i l h : Entries l h → Entries (od_del i l) (remove_first i h).
Proof.
  intros He. destruct (entries_filter (λ r, negb (bool_decide (r.1 = i))) _ _ He) as [Hn Hl]. split; [exact Hn|].
  intros r Hr. destruct (Hl r Hr) as [Hg Hc]. split; [done|]. rewrite Hc. apply in_filter in Hr as [_ Hr]. apply negb_true_iff, bool_decide_eq_false in Hr.
  f_equal. destruct (decide (i ∈ h)) as [Hi|Hi].
  - rewrite (occurs_remove _ i) by done. rewrite decide_False by congruence. done.
  - clear -Hi. induction h as [|j h IH]; [done|]. cbn. rewrite decide_False by set_solver. rewrite !occurs_cons, IH by set_solver. done.
Qed.

Lemma entries_release i l h : Entries l h → i ∈ h →
  let l' := match od_get i l with Some p => od_set i (_release_record_call p) l | None => l end in
  Entries l' (remove_first i h) ∧ no_more l' l.
Proof.
  intros He Hi. cbn zeta. assert (∀ j, j ≠ i → occurs j (remove_first i h) = occurs j h) as Hne.
  { intros j Hj. rewrite (occurs_remove j i h) by done. by rewrite decide_False. }
  destruct (od_get i l) as [p|] eqn:Hp.
  - destruct (entries_get i p l h He Hp) as [Hg Hc]. split; [|by apply (no_more_set i p)].
    eapply entries_set; try done; [by apply good_release|]. cbn. rewrite Hc, (occurs_remove i i h), decide_True by done. lia.
  - destruct He as [Hn Hl]. split; [|apply no_more_refl]. split; [done|]. intros r Hr. destruct (Hl r Hr) as [Hg Hc]. split; [done|].
    rewrite Hne; [done|]. intros <-. apply od_get_none in Hp. apply Hp, list_elem_of_fmap. by exists r.
Qed.

Lemma active_step a p p' : Good p → step a p = Some p' → active p' = true → active p = true.
Proof.
  intros Hg Hs. unfold active, over. destruct (terminal (state (status p))) eqn:Ht; [|done].
  destruct (step_settled a p p' Hg Ht Hs) as (-> & _). done.
Qed.

Lemma service_step_ok c a w w' : ServiceOk c w → service_step c a w = Some w' → ServiceOk c w'.
Proof.
  destruct w as [s st h]. intros Hok Hs. destruct a; cbn [service_step service starts holders] in Hs.
  - pose proof (reserve_ok c o now s st h Hok). destruct (_reserve_start c o now s) as [[] ?]; by simplify_eq.
  - destruct (decide (o ∈ st)) as [Ho|]; [|done]. injection Hs as <-. apply unreserve_ok; [done|done|].
    pose proof (so_starting _ _ Hok) as H1. cbn in H1. pose proof (length_remove _ _ Ho). lia.
  - destruct (decide _) as [(H1 & H2 & H3)|]; [|done]. pose proof (register_ok c o i r now s st h Hok H1 H2 H3).
    destruct (register o i r now s) as [[] ?]; by simplify_eq.
  - destruct (decide (i ∈ h)) as [Hi|]; [|done]. injection Hs as <-. eapply ok_records; [exact Hok|done|done| |apply no_more_filter].
    apply entries_abort, Hok.
  - pose proof (acquire_ok c o i now s st h Hok). destruct (_acquire_record_call c o i now s) as [[] ?]; by simplify_eq.
  - pose proof (acquire_list_ok c o now s st h Hok). destruct (list_acquires c o now s). by injection Hs as <-.
  - pose proof (acquire_many_ok c o ids now s st h Hok). destruct (inspect_many_acquires c o ids now s) as [[] ?]; by simplify_eq.
  - destruct (decide (i ∈ h)) as [Hi|]; [|done]. injection Hs as <-.
    destruct (entries_release i _ h (so_entries _ _ Hok) Hi) as [He Hm]. by eapply ok_records.
  - injection Hs as <-. unfold reclaim_one. destruct (List.filter _ (records s)); [done|].
    eapply ok_records; [exact Hok|done|done| |apply no_more_filter]. apply entries_filter, Hok.
  - destruct (of_thread a) eqn:Ha; [|done]. destruct (od_get i (records s)) as [p|] eqn:Hp; [|done]. cbn in Hs.
    destruct (step a p) as [p'|] eqn:Hst; [|done]. cbn in Hs. injection Hs as <-.
    destruct (entries_get i p _ h (so_entries _ _ Hok) Hp) as [Hg Hc]. destruct (step_frame a p p' Ha Hst) as [E1 E2].
    eapply ok_records; [exact Hok|done|done| |].
    + eapply entries_set; [apply Hok|done|by eapply good_step|by rewrite E2|done].
    + apply (no_more_set i p); [done|done|]. by eapply active_step.
  - injection Hs as <-. by eapply ok_records; [exact Hok|done|done|apply Hok|apply no_more_refl].
  - destruct (_ && _); [|done]. injection Hs as <-. eapply ok_records; [exact Hok|done|done| |].
    + split; [constructor|]. by intros r Hr%elem_of_nil.
    + split; [|intros sc]; unfold among; cbn; lia.
Qed.

Lemma service_run_ok c l : ∀ w w', ServiceOk c w → service_run c l w = Some w' → ServiceOk c w'.
Proof.
  induction l as [|a l IH]; cbn [service_run]; intros w w' Hok; [by intros [= <-]|].
  destruct (service_step c a w) as [w1|] eqn:Hs; [|done]. cbn. intros Hr. eapply IH; [by eapply service_step_ok|done].
Qed.

Lemma new_ok ma mo mt mx ttl ob b1 b2 ui c s : new_service ma mo mt mx ttl ob b1 b2 ui = Ok (c, s) →
  ServiceOk c (holding s [] []) ∧ 0 <= max_terminal c.
Proof.
  unfold new_service. destruct ((default mo ma <? 1) || (default mt ma <? 1)) eqn:H1; [intros [=]|].
  destruct ((b1 <? 0) || (b2 <? 0)); [intros [=]|]. destruct (fl_ltb ui fl_zero); [intros [=]|].
  apply orb_false_iff in H1 as [H1%Z.ltb_ge H2%Z.ltb_ge]. intros [= <- <-]. split; [|cbn; lia].
  split; unfold count, starting_of; cbn -[Z.add]; try done; try lia.
  - split; [constructor|]. by intros r Hr%elem_of_nil.
  - intros sc. rewrite lookup_empty. cbn. lia.
Qed.

(** ** What is removed *)

Lemma expired_spec c now p : match terminal_at (status p) with
  | Some t => fl_leb (terminal_ttl_seconds c) (fl_sub now t) | None => false end = true ↔
  ∃ t, terminal_at (status p) = Some t ∧ fl_leb (terminal_ttl_seconds c) (fl_sub now t) = true.
Proof. destruct (terminal_at (status p)) as [t|]; [|naive_solver]. split; [intros; by exists t|]. by intros (? & [= <-] & ?). Qed.

(** A record that is in use, or not over, is not among what a removal looks at. *)
Lemma unremovable_stays (rs : list string) (l : entries) i p : NoDup l.*1 → (i, p) ∈ l → removable (i, p) = false →
  (∀ j, j ∈ rs → ∃ q, (j, q) ∈ l ∧ removable (j, q) = true) → (i, p) ∈ List.filter (λ r, negb (bool_decide (r.1 ∈ rs))) l.
Proof.
  intros Hn Hi Hr Hg. apply in_filter. split; [done|]. cbn. apply negb_true_iff, bool_decide_eq_false. intros Hrs.
  destruct (Hg i Hrs) as (q & Hq & Hrq). apply od_get_in in Hi, Hq; [|done..]. congruence.
Qed.

(** What [_prune] removes. *)
Definition pruned (c : ServiceConfig) (now : float64) (l : entries) : list string :=
  let terminal := py_sorted (λ a b : string * ManagedProcess, fl_leb (ended_at a.2) (ended_at b.2)) (List.filter removable l) in
  (List.filter (λ r : string * ManagedProcess, match terminal_at (status r.2) with
    | Some t => fl_leb (terminal_ttl_seconds c) (fl_sub now t) | None => false end) terminal).*1 ++
  (take (Z.to_nat (Z.max 0 (Z.of_nat (length terminal) - max_terminal c))) terminal).*1.

Lemma prune_filter c now s :
  records (_prune c now s) = List.filter (λ r, negb (bool_decide (r.1 ∈ pruned c now (records s)))) (records s).
Proof. unfold _prune. cbn. apply fold_del_filter. Qed.

Lemma pruned_removable c now l j : j ∈ pruned c now l → ∃ q, (j, q) ∈ l ∧ removable (j, q) = true.
Proof.
  unfold pruned. intros [(r & -> & Hr)%list_elem_of_fmap|(r & -> & Hr)%list_elem_of_fmap]%elem_of_app; exists r.2; destruct r as [i q]; cbn.
  - apply in_filter in Hr as [Hr _]. apply elem_of_py_sorted, in_filter in Hr. done.
  - assert ((i, q) ∈ py_sorted (λ a b : string * ManagedProcess, fl_leb (ended_at a.2) (ended_at b.2)) (List.filter removable l)) as Hq
      by by eapply subseteq_take.
    apply elem_of_py_sorted, in_filter in Hq. done.
Qed.

Lemma prune_keeps c now s i p : NoDup (records s).*1 → (i, p) ∈ records s → removable (i, p) = false → (i, p) ∈ records (_prune c now s).
Proof.
  intros Hn Hi Hr. rewrite prune_filter. apply unremovable_stays; try done. intros j. apply pruned_removable.
Qed.

Lemma filter_skip (P : string * ManagedProcess → bool) l1 l2 : Forall (λ r, P r = false) l1 → List.filter P (l1 ++ l2) = List.filter P l2.
Proof. induction 1 as [|r l Hr _ IH]; [done|]. cbn. by rewrite Hr. Qed.

Lemma filter_bound (P : string * ManagedProcess → bool) (l l' : entries) : l ≡ₚ l' → length (List.filter P l) = length (List.filter P l').
Proof. intros H. induction H as [|r l l' _ IH|r1 r2 l|l1 l2 l3 _ IH1 _ IH2]; cbn; [done| | |congruence].
  - destruct (P r); cbn; by rewrite IH.
  - by destruct (P r1), (P r2).
Qed.

Lemma filter_filter_comm (P Q : string * ManagedProcess → bool) l : List.filter P (List.filter Q l) = List.filter Q (List.filter P l).
Proof. induction l as [|r l IH]; [done|]. cbn. destruct (Q r) eqn:HQ, (P r) eqn:HP; cbn; rewrite ?HQ, ?HP, IH; done. Qed.

Lemma prune_bound c now s : 0 <= max_terminal c →
  Z.of_nat (length (List.filter removable (records (_prune c now s)))) <= max_terminal c.
Proof.
  intros Hc. rewrite prune_filter, filter_filter_comm.
  set (T := py_sorted (λ a b : string * ManagedProcess, fl_leb (ended_at a.2) (ended_at b.2)) (List.filter removable (records s))).
  rewrite <- (filter_bound _ T) by apply py_sorted_perm.
  set (n := Z.to_nat (Z.max 0 (Z.of_nat (length T) - max_terminal c))).
  rewrite <- (take_drop n T), filter_skip.
  - pose proof (filter_length_le (λ r : string * ManagedProcess, negb (bool_decide (r.1 ∈ pruned c now (records s)))) (drop n T)).
    rewrite length_drop in *. lia.
  - apply Forall_forall. intros r Hr. apply negb_false_iff, bool_decide_eq_true. unfold pruned. apply elem_of_app. right.
    apply list_elem_of_fmap. by exists r.
Qed.

(** ** A record in use *)

(** The record of [i] is there, and its owner is that of [p]. *)
Definition stays (i : string) (o : ProcessOwner) (l : entries) : Prop := ∃ p, od_get i l = Some p ∧ owner p = o.

Lemma stays_set i o j p q l : stays i o l → od_get j l = Some p → owner q = owner p → stays i o (od_set j q l).
Proof.
  intros (p' & Hp & Ho) Hj Hq. unfold stays. rewrite od_get_set. destruct (decide (j = i)) as [->|Hne]; [exists q; split; [done|congruence]|by exists p'].
Qed.

Lemma stays_filter i o p (rs : list string) l : NoDup l.*1 → od_get i l = Some p → owner p = o → removable (i, p) = false →
  (∀ j, j ∈ rs → ∃ q, (j, q) ∈ l ∧ removable (j, q) = true) → stays i o (List.filter (λ r, negb (bool_decide (r.1 ∈ rs))) l).
Proof.
  intros Hn Hi Ho Hr Hrs. exists p. split; [|done]. apply od_get_in; [by apply filter_keys|]. apply unremovable_stays; try done. by apply od_get_in.
Qed.

Lemma stays_begin_all i o ids : ∀ l, stays i o l → stays i o (begin_all ids l).
Proof.
  induction ids as [|j ids IH]; intros l Hl; [done|]. unfold begin_all. cbn [fold_left]. apply IH.
  destruct (od_get j l) as [q|] eqn:Hq; [|done]. by eapply stays_set.
Qed.

Lemma stays_list i o (g : ManagedProcess → bool) l : stays i o l →
  stays i o (List.map (λ r : string * ManagedProcess, if g r.2 then (r.1, call_begins r.2) else r) l).
Proof.
  intros (p & Hp & Ho). induction l as [|[j q] l IH]; [done|]. cbn in *. unfold stays in *. destruct (decide (j = i)) as [->|Hne].
  - injection Hp as ->. destruct (g p); cbn; rewrite decide_True by done; eauto.
  - destruct (g q); cbn; rewrite decide_False by done; auto.
Qed.

Lemma min_among r rest : fold_left (λ best r : string * ManagedProcess, if fl_ltb (ended_at r.2) (ended_at best.2) then r else best) rest r ∈ r :: rest.
Proof.
  revert r. induction rest as [|q rest IH]; intros r; cbn [fold_left]; [set_solver|].
  destruct (fl_ltb _ _); [specialize (IH q)|specialize (IH r)]; set_solver.
Qed.

Section held.
Variables (c : ServiceConfig) (w : World) (i : string) (p : ManagedProcess).
Hypothesis Hok : ServiceOk c w.
Hypothesis Hheld : i ∈ holders w.
Hypothesis Hget : od_get i (records (service w)) = Some p.

Lemma held_calls : (active_calls (control p) =? 0) = false.
Proof using Hok Hheld Hget.
  destruct (entries_get i p _ _ (so_entries _ _ Hok) Hget) as [_ Hc]. pose proof (occurs_pos i _ Hheld). apply Z.eqb_neq. lia.
Qed.

Lemma held_unremovable : removable (i, p) = false.
Proof using Hok Hheld Hget. unfold removable. cbn. rewrite held_calls. apply andb_false_r. Qed.

Lemma held_prune now : stays i (owner p) (records (_prune c now (service w))).
Proof using Hok Hheld Hget.
  rewrite prune_filter. eapply (stays_filter i _ p); [apply Hok|done|done|apply held_unremovable|]. intros j. apply pruned_removable.
Qed.

Lemma held_reclaim : stays i (owner p) (records (reclaim_one (service w))).
Proof using Hok Hheld Hget.
  unfold reclaim_one. set (C := List.filter _ _). destruct C as [|r rest] eqn:HC; [by exists p|]. cbn. set (m := fold_left _ rest r).
  assert (m ∈ r :: rest) as Hm by apply min_among. rewrite <- HC in Hm. unfold C in Hm. apply in_filter in Hm as [Hm1 Hm2].
  apply andb_true_iff in Hm2 as [[Hm2 _]%andb_true_iff Hm3]. unfold stays. rewrite od_get_del. destruct (decide (m.1 = i)) as [He|Hne]; [|by exists p].
  exfalso. assert (m = (i, p)) as ->.
  { destruct m as [j q]. cbn in He. subst j. apply od_get_in in Hm1; [congruence|apply Hok]. }
  pose proof held_unremovable as Hu. unfold removable in Hu. cbn in Hu, Hm2, Hm3. by rewrite Hm2, Hm3 in Hu.
Qed.

Lemma held_step a w' : service_step c a w = Some w' → a ≠ StartAborts i → stays i (owner p) (records (service w')).
Proof using Hok Hheld Hget.
  intros Hs Ha. assert (stays i (owner p) (records (service w))) as Hst by by exists p.
  pose proof held_prune as Hpr. pose proof held_reclaim as Hre. pose proof held_calls as Hca. destruct w as [s st h]. destruct a; cbn [service_step service starts holders] in *.
  - unfold _reserve_start in Hs. revert Hs. st_eval. specialize (Hpr now). repeat case_match; intros; by simplify_eq.
  - case_decide; [|done]. by injection Hs as <-.
  - case_decide; [|done]. unfold register in Hs. revert Hs. st_eval. destruct (closed _); intros [= <-]; [done|]. cbn. unfold stays. rewrite od_get_set.
    destruct (decide (i0 = i)) as [->|?]; [|done]. exfalso. destruct H as (_ & H & _). apply H. by eapply get_keys.
  - case_decide; [|done]. injection Hs as <-. cbn. unfold stays. rewrite od_get_del. rewrite decide_False by congruence. done.
  - unfold _acquire_record_call in Hs. revert Hs. st_eval. specialize (Hpr now). destruct (closed _); [by intros [= <-]|].
    destruct (owned o i0 _) as [q|] eqn:Hq; intros [= <-]; [|done]. apply owned_get in Hq. by eapply stays_set.
  - unfold list_acquires in Hs. specialize (Hpr now). destruct (closed _); injection Hs as <-; [done|]. cbn.
    rewrite map_mine. by apply (stays_list i (owner p) (mine o)).
  - unfold inspect_many_acquires in Hs. specialize (Hpr now). destruct (64 <? _)%nat; [by injection Hs as <-|].
    destruct (bool_decide (¬ NoDup ids)); [by injection Hs as <-|]. destruct (existsb _ ids); [by injection Hs as <-|].
    destruct (bool_decide (ids = [])); [by injection Hs as <-|]. revert Hs. st_eval.
    destruct (closed _); intros [= <-]; [done|]. by apply stays_begin_all.
  - case_decide; [|done]. injection Hs as <-. cbn. destruct (od_get i0 (records s)) as [q|] eqn:Hq; [|done]. by eapply stays_set.
  - by injection Hs as <-.
  - destruct (of_thread a) eqn:Ht; [|done]. destruct (od_get i0 (records s)) as [q|] eqn:Hq; [|done]. cbn in Hs.
    destruct (step a q) as [q'|] eqn:Hst'; [|done]. cbn in Hs. injection Hs as <-. cbn. eapply stays_set; [done|done|]. by apply (step_frame a q q').
  - by injection Hs as <-.
  - destruct (_ && _) eqn:Hc; [|done]. exfalso. apply andb_true_iff in Hc as [_ Hc]. rewrite forallb_forall in Hc.
    apply od_get_in in Hget as Hin; [|apply Hok]. specialize (Hc (i, p) (proj1 (list_elem_of_In _ _) Hin)). cbn in Hc. by rewrite Hca in Hc.
Qed.
End held.

(** ** Theorems *)

Lemma service_ok ma mo mt mx ttl ob b1 b2 ui c s l w : new_service ma mo mt mx ttl ob b1 b2 ui = Ok (c, s) →
  service_run c l (holding s [] []) = Some w → ServiceOk c w ∧ 0 <= max_terminal c.
Proof. intros Hn Hr. destruct (new_ok _ _ _ _ _ _ _ _ _ _ _ Hn) as [Hok Hm]. split; [by eapply service_run_ok|done]. Qed.


(** C34: A call never loses the process it holds: whatever else happens (other calls, pruning,
    the reclaiming of output space, the closing of the service), the record stays, with its
    owner, until the call lets it go; only the failing start of that very process takes it
    away. *)
Theorem held_record_stays ma mo mt mx ttl ob b1 b2 ui c s l w a w' i p : new_service ma mo mt mx ttl ob b1 b2 ui = Ok (c, s) →
  service_run c l (holding s [] []) = Some w → i ∈ holders w → od_get i (records (service w)) = Some p →
  service_step c a w = Some w' → a ≠ StartAborts i →
  ∃ p', od_get i (records (service w')) = Some p' ∧ owner p' = owner p.
Proof.
  intros Hn Hr Hi Hg Hs Ha. destruct (service_ok _ _ _ _ _ _ _ _ _ _ _ _ _ Hn Hr) as [Hok _]. by apply (held_step c w i p Hok Hi Hg a).
Qed.

(** Pruning forgets what it may and no more: a process that is alive or in use stays as it
    is; of the ended ones that nobody uses at most [max_terminal] stay, none of them past its
    time to live, and each of those as it was. *)
Theorem prune_forgets ma mo mt mx ttl ob b1 b2 ui c s l w now : new_service ma mo mt mx ttl ob b1 b2 ui = Ok (c, s) →
  service_run c l (holding s [] []) = Some w →
  let kept := records (_prune c now (service w)) in
  (∀ i p, od_get i (records (service w)) = Some p → removable (i, p) = false → od_get i kept = Some p) ∧
  (∀ i p, od_get i kept = Some p → od_get i (records (service w)) = Some p) ∧
  Z.of_nat (length (List.filter removable kept)) <= max_terminal c ∧
  (∀ i p t, od_get i kept = Some p → removable (i, p) = true → terminal_at (status p) = Some t →
     fl_leb (terminal_ttl_seconds c) (fl_sub now t) = false).
Proof.
  intros Hn Hr kept. destruct (service_ok _ _ _ _ _ _ _ _ _ _ _ _ _ Hn Hr) as [[[Hk _] _ _ _ _] Hm].
  assert (NoDup kept.*1) as Hk' by (unfold kept; rewrite prune_filter; by apply filter_keys).
  assert (∀ i p, od_get i kept = Some p → (i, p) ∈ records (service w) ∧ i ∉ pruned c now (records (service w))) as Hin.
  { intros i p Hi. apply od_get_in in Hi; [|done]. unfold kept in Hi. rewrite prune_filter in Hi. apply in_filter in Hi as [Hi Hp].
    split; [done|]. by apply negb_true_iff, bool_decide_eq_false in Hp. }
  split; [|split; [|split]].
  - intros i p Hi Hrem. apply od_get_in; [done|]. apply prune_keeps; [done| |done]. by apply od_get_in.
  - intros i p Hi. apply od_get_in; [done|]. by apply Hin.
  - by apply prune_bound.
  - intros i p t Hi Hrem Ht. destruct (Hin i p Hi) as [H1 H2]. apply not_true_is_false. intros Hx. apply H2. unfold pruned.
    apply elem_of_app. left. apply list_elem_of_fmap. exists (i, p). split; [done|]. apply in_filter. split; [by apply elem_of_py_sorted, in_filter|].
    apply expired_spec. by exists t.
Qed.

(** ** Concrete histories *)

Definition sample_config : ServiceConfig :=
  {| max_active_per_owner := 1; max_active_total := 2; max_terminal := 0; terminal_ttl_seconds := fl_of_Z 900; max_output_bytes := 51200 |}.
Definition sample_service : Service := {| records := []; starting := 0; starting_by_owner := ∅; closed := false |}.

(** A second start of the owner is refused; another call holds the process while it ends. *)
Definition sample_history : list service_action :=
  [Reserve sample_owner (fl_of_Z 1); Reserve sample_owner (fl_of_Z 1); Register sample_owner "proc_1" sample_request (fl_of_Z 5);
   Acquire sample_owner "proc_1" (fl_of_Z 6); Release "proc_1"] ++
  List.map (Inside "proc_1") (MonitorPolls (HasExited 0) (fl_of_Z 7) :: tail sample_end).

Definition sample_run (l : list service_action) : World :=
  default (holding sample_service [] []) (service_run sample_config l (holding sample_service [] [])).


Definition sample_process_end : ManagedProcess := default sample_process (od_get "proc_1" (records (service (sample_run sample_history)))).
Definition sample_acquire : service_action := Acquire sample_owner "proc_2" (fl_of_Z 5000).

Lemma held_record_stays_witness :
  over sample_process_end = true ∧
  ∃ p', od_get "proc_1" (records (service (sample_run (sample_history ++ [sample_acquire])))) = Some p' ∧ owner p' = owner sample_process_end.
Proof.
  split; [vm_compute; reflexivity|].
  apply (held_record_stays None 1 2 (-3) (fl_of_Z 900) 51200 0 0 fl_zero sample_config sample_service sample_history (sample_run sample_history)
            sample_acquire (sample_run (sample_history ++ [sample_acquire])) "proc_1" sample_process_end);
    [vm_compute; reflexivity..|apply list_elem_of_In; vm_compute; auto|vm_compute; reflexivity|vm_compute; reflexivity|discriminate].
Defined.

Lemma prune_forgets_witness :
  let w := sample_run (sample_history ++ [Release "proc_1"]) in
  let kept := records (_prune sample_config (fl_of_Z 9) (service w)) in
  length (records (service w)) = 1%nat ∧ kept = [] ∧
  (∀ i p, od_get i (records (service w)) = Some p → removable (i, p) = false → od_get i kept = Some p) ∧
  (∀ i p, od_get i kept = Some p → od_get i (records (service w)) = Some p) ∧
  Z.of_nat (length (List.filter removable kept)) <= 0 ∧
  (∀ i p t, od_get i kept = Some p → removable (i, p) = true → terminal_at (status p) = Some t →
     fl_leb (fl_of_Z 900) (fl_sub (fl_of_Z 9) t) = false).
Proof.
  split; [vm_compute; reflexivity|]. split; [vm_compute; reflexivity|].
  apply (prune_forgets None 1 2 (-3) (fl_of_Z 900) 51200 0 0 fl_zero sample_config sample_service (sample_history ++ [Release "proc_1"])
    (sample_run (sample_history ++ [Release "proc_1"])) (fl_of_Z 9)); vm_compute; reflexivity.
Defined.

(** A start that fails behind its registration (a thread cannot be started) forgets a process
    that runs: no signal has been sent to it, no record is left that could, and its place is
    free. *)
Example aborted_start_leaves_process :
  ∃ w w', service_run sample_config [Reserve sample_owner (fl_of_Z 1); Register sample_owner "proc_1" sample_request (fl_of_Z 5)]
            (holding sample_service [] []) = Some w ∧
    service_step sample_config (StartAborts "proc_1") w = Some w' ∧
    (λ p, (state (status p), signals p)) <$> od_get "proc_1" (records (service w)) = Some (RUNNING, []) ∧
    records (service w') = [] ∧ starting (service w') = 0.
Proof. eexists. eexists. split; [vm_compute; reflexivity|]. split; [vm_compute; reflexivity|]. repeat split. Qed.
