(* ===== verification/StdinBuffer.v ===== *)
(** The input of the terminal (travis/tui/stdin_buffer.py, and the decoding of
    travis/tui/terminal.py in front of it): bytes become keys, escape sequences and pasted
    texts, however the bytes arrive. *)

From S2P Require Import Prelude Utf8 PyText.
Open Scope Z_scope.

(** ** Characters *)

Definition ESC : Z := 27.
Definition BRACKETED_PASTE_START : text := [27; 91; 50; 48; 48; 126].
Definition BRACKETED_PASTE_END : text := [27; 91; 50; 48; 49; 126].

(** The decimal digits of Unicode 15.1: the zeros of the scripts, each followed by its digits
    up to nine. *)
Definition digit_zeros : list Z :=
  [48; 1632; 1776; 1984; 2406; 2534; 2662; 2790; 2918; 3046; 3174; 3302; 3430; 3558; 3664; 3792; 3872; 4160; 4240; 6112; 6160; 6470;
   6608; 6784; 6800; 6992; 7088; 7232; 7248; 42528; 43216; 43264; 43472; 43504; 43600; 44016; 65296; 66720; 68912; 69734; 69872;
   69942; 70096; 70384; 70736; 70864; 71248; 71360; 71472; 71904; 72016; 72784; 73040; 73120; 73552; 92768; 92864; 93008; 120782;
   120792; 120802; 120812; 120822; 123200; 123632; 124144; 125264; 130032].

(** [\d], and its value. *)
Definition digit_value (c : Z) : option Z :=
  match List.find (λ z, in_range z (z + 9) c) digit_zeros with Some z => Some (c - z) | None => None end.
Definition is_digit (c : Z) : bool := match digit_value c with Some _ => true | None => false end.

(** [\d*], greedily: the digits and what follows them. *)
Fixpoint span_digits (t : text) : text * text :=
  match t with
  | c :: t' => if is_digit c then let '(ds, r) := span_digits t' in (c :: ds, r) else ([], t)
  | [] => ([], [])
  end.

(** [$] at the end of a pattern: it also matches before a final newline. *)
Definition at_end (t : text) : bool := bool_decide (t = []) || bool_decide (t = [10]).

Fixpoint split_semicolons (t : text) : list text :=
  match t with
  | [] => [[]]
  | c :: t => if c =? 59 then [] :: split_semicolons t
              else match split_semicolons t with l :: ls => (c :: l) :: ls | [] => [[c]] end
  end.

(** ** Complete sequences *)

Inductive completeness : Type := NotEscape | Incomplete | Complete.
#[export] Instance completeness_eq_dec : EqDecision completeness.
Proof. solve_decision. Defined.

Definition complete_if (b : bool) : completeness := if b then Complete else Incomplete.

(** [^\d+$] *)
Definition digits_only (t : text) : bool := let '(ds, r) := span_digits t in negb (bool_decide (ds = [])) && at_end r.

(** [^<\d+;\d+;\d+[Mm]$] *)
Definition mouse_pattern (t : text) : bool :=
  match t with
  | 60 :: t =>
      let '(d1, r1) := span_digits t in
      match r1 with
      | 59 :: r1 =>
          let '(d2, r2) := span_digits r1 in
          match r2 with
          | 59 :: r2 =>
              let '(d3, r3) := span_digits r2 in
              match r3 with
              | c :: r => ((c =? 77) || (c =? 109)) && at_end r && forallb (λ d, negb (bool_decide (d = []))) [d1; d2; d3]
              | [] => false
              end
          | _ => false
          end
      | _ => false
      end
  | _ => false
  end.

(** [data.endswith(s)] *)
Definition ends_with (s data : text) : bool := is_prefix (rev s) (rev data).

(** [payload[1:-1]] *)
Definition inner (payload : text) : text := removelast (tail payload).

(** [src: travis/tui/stdin_buffer.py:40-59 _is_complete_csi_sequence] *)
Definition _is_complete_csi_sequence (data : text) : completeness :=
  if negb (is_prefix [27; 91] data) then Complete
  else if (length data <? 3)%nat then Incomplete
  else
    let payload := drop 2 data in
    let last_code := List.last payload 0 in
    if in_range 64 126 last_code then
      if is_prefix [60] payload then
        if mouse_pattern payload then Complete
        else if (last_code =? 77) || (last_code =? 109) then
          let parts := split_semicolons (inner payload) in
          complete_if ((length parts =? 3)%nat && forallb digits_only parts)
        else Incomplete
      else Complete
    else Incomplete.

(** [src: travis/tui/stdin_buffer.py:62-65 _is_complete_osc_sequence] *)
Definition _is_complete_osc_sequence (data : text) : completeness :=
  if negb (is_prefix [27; 93] data) then Complete
  else complete_if (ends_with [27; 92] data || ends_with [7] data).

(** [src: travis/tui/stdin_buffer.py:68-71 _is_complete_dcs_sequence] *)
Definition _is_complete_dcs_sequence (data : text) : completeness :=
  if negb (is_prefix [27; 80] data) then Complete else complete_if (ends_with [27; 92] data).

(** [src: travis/tui/stdin_buffer.py:74-77 _is_complete_apc_sequence] *)
Definition _is_complete_apc_sequence (data : text) : completeness :=
  if negb (is_prefix [27; 95] data) then Complete else complete_if (ends_with [27; 92] data).

(** [src: travis/tui/stdin_buffer.py:16-37 _is_complete_sequence] *)
Definition _is_complete_sequence (data : text) : completeness :=
  if negb (is_prefix [ESC] data) then NotEscape
  else if (length data =? 1)%nat then Incomplete
  else
    let after_esc := drop 1 data in
    if is_prefix [91] after_esc then
      if is_prefix [91; 77] after_esc then complete_if (6 <=? length data)%nat
      else _is_complete_csi_sequence data
    else if is_prefix [93] after_esc then _is_complete_osc_sequence data
    else if is_prefix [80] after_esc then _is_complete_dcs_sequence data
    else if is_prefix [95] after_esc then _is_complete_apc_sequence data
    else if is_prefix [79] after_esc then complete_if (2 <=? length after_esc)%nat
    else Complete.

(** Digits between ESC [ and u, with up to two more groups of digits behind colons: the code
    point of a printable key.

    [src: travis/tui/stdin_buffer.py:80-85 _parse_unmodified_kitty_printable_codepoint] *)
Definition _parse_unmodified_kitty_printable_codepoint (sequence : text) : option Z :=
  match sequence with
  | 27 :: 91 :: t =>
      let '(d1, r1) := span_digits t in
      let ends r := match r with 117 :: e => at_end e | _ => false end in
      let second r := match r with
        | 58 :: r => let '(d3, r3) := span_digits r in negb (bool_decide (d3 = [])) && ends r3
        | _ => false
        end in
      let matches := negb (bool_decide (d1 = [])) &&
        (ends r1 || match r1 with
                    | 58 :: r => let '(_, r2) := span_digits r in ends r2 || second r2
                    | _ => false
                    end) in
      let codepoint := fold_left (λ n c, 10 * n + default 0 (digit_value c)) d1 0 in
      if matches && (32 <=? codepoint) then Some codepoint else None
  | _ => None
  end.

(** ** Extraction *)

(** The loop over [seq_end]: the first complete candidate, and what follows it. *)
Fixpoint scan (candidate rest : text) : option (text * text) :=
  match _is_complete_sequence candidate with
  | Incomplete => match rest with c :: rest' => scan (candidate ++ [c]) rest' | [] => None end
  | _ => Some (candidate, rest)
  end.

(** [next_char in {"[", "]", "O", "P", "_"}] *)
Definition starts_sequence (rest : text) : bool :=
  match rest with c :: _ => existsb (Z.eqb c) [91; 93; 79; 80; 95] | [] => false end.

(** The fuel is the length of the buffer.

    [src: travis/tui/stdin_buffer.py:88-122 _extract_complete_sequences] *)
Fixpoint extract (fuel : nat) (buffer : text) : list text * text :=
  match fuel, buffer with
  | S fuel, c :: rest =>
      if c =? ESC then
        match scan [c] rest with
        | None => ([], buffer)
        | Some (candidate, rest') =>
            if bool_decide (candidate = [ESC; ESC]) && starts_sequence rest'
            then let '(sequences, remainder) := extract fuel rest in ([ESC] :: sequences, remainder)
            else let '(sequences, remainder) := extract fuel rest' in (candidate :: sequences, remainder)
        end
      else let '(sequences, remainder) := extract fuel rest in ([c] :: sequences, remainder)
  | _, _ => ([], buffer)
  end.

Definition _extract_complete_sequences (buffer : text) : list text * text := extract (length buffer) buffer.

(** ** The buffer *)

Inductive event : Type := Data (sequence : text) | Paste (content : text).
#[export] Instance event_eq_dec : EqDecision event.
Proof. solve_decision. Defined.

(** [src: travis/tui/stdin_buffer.py:126-136 StdinBuffer.__init__]: [timer] says whether a
    flush is due. *)
Record StdinBuffer : Type := {
  buffer : text;
  paste_mode : bool;
  paste_buffer : text;
  pending_kitty : option Z;
  timer : bool
}.

Definition new_buffer : StdinBuffer :=
  {| buffer := []; paste_mode := false; paste_buffer := []; pending_kitty := None; timer := false |}.

(** A key that is reported twice is shown once.

    [src: travis/tui/stdin_buffer.py:223-229 StdinBuffer._emit_data_sequence] *)
Definition _emit_data_sequence (sequence : text) (pending : option Z) : list event * option Z :=
  match sequence with
  | [c] => if bool_decide (pending = Some c) then ([], None)
           else ([Data sequence], _parse_unmodified_kitty_printable_codepoint sequence)
  | _ => ([Data sequence], _parse_unmodified_kitty_printable_codepoint sequence)
  end.

Fixpoint emit_all (sequences : list text) (pending : option Z) : list event * option Z :=
  match sequences with
  | [] => ([], pending)
  | s :: sequences =>
      let '(e, pending) := _emit_data_sequence s pending in
      let '(es, pending) := emit_all sequences pending in (e ++ es, pending)
  end.

(** [again] is [process] on what follows the paste.

    [src: travis/tui/stdin_buffer.py:235-246 StdinBuffer._emit_paste_if_complete_locked] *)
Definition _emit_paste_if_complete (again : text → list event * StdinBuffer) (collected : text) (pending : option Z) : list event * StdinBuffer :=
  match find BRACKETED_PASTE_END collected with
  | None => ([], {| buffer := []; paste_mode := true; paste_buffer := collected; pending_kitty := pending; timer := false |})
  | Some end_index =>
      let pasted_content := take end_index collected in
      let remaining := drop (end_index + length BRACKETED_PASTE_END) collected in
      let '(es, s) := match remaining with [] => ([], new_buffer) | _ => again remaining end in
      (Paste pasted_content :: es, s)
  end.

(** [process] of what the buffer holds with the input behind it ([paste] is the paste buffer
    when it collects a paste); the fuel is more than the length of both.

    [src: travis/tui/stdin_buffer.py:149-188 StdinBuffer.process] *)
Fixpoint handle (fuel : nat) (paste : option text) (input : text) (pending : option Z) : list event * StdinBuffer :=
  match fuel with
  | O => ([], {| buffer := input; paste_mode := false; paste_buffer := []; pending_kitty := pending; timer := false |})
  | S fuel =>
      let again remaining := handle fuel None remaining None in
      match paste with
      | Some collected => _emit_paste_if_complete again (collected ++ input) pending
      | None =>
          match find BRACKETED_PASTE_START input with
          | Some start_index =>
              let '(es, _) := emit_all (_extract_complete_sequences (take start_index input)).1 pending in
              let '(es', s) := _emit_paste_if_complete again (drop (start_index + length BRACKETED_PASTE_START) input) None in
              (es ++ es', s)
          | None =>
              let '(sequences, remainder) := _extract_complete_sequences input in
              let '(es, pending) := emit_all sequences pending in
              (es, {| buffer := remainder; paste_mode := false; paste_buffer := []; pending_kitty := pending;
                      timer := negb (bool_decide (remainder = [])) |})
          end
      end
  end.

Definition process (incoming : text) (s : StdinBuffer) : list event * StdinBuffer :=
  if bool_decide (incoming = []) && bool_decide (buffer s = []) then
    let '(es, pending) := _emit_data_sequence [] (pending_kitty s) in
    (es, {| buffer := []; paste_mode := paste_mode s; paste_buffer := paste_buffer s; pending_kitty := pending; timer := false |})
  else
    let input := buffer s ++ incoming in
    let paste := if paste_mode s then Some (paste_buffer s) else None in
    handle (S (length (paste_buffer s) + length input)) paste input (pending_kitty s).

(** [src: travis/tui/stdin_buffer.py:215-221 StdinBuffer._normalize_input]: of bytes. *)
Definition _normalize_input (raw : bytes) : result decode_error text :=
  match raw with
  | [b] => if 127 <? b then Ok [ESC; b - 128] else decode_strict raw
  | _ => decode_strict raw
  end.

(** [src: travis/tui/stdin_buffer.py:190-198 StdinBuffer.flush] *)
Definition flush (s : StdinBuffer) : list text * StdinBuffer :=
  match buffer s with
  | [] => ([], {| buffer := []; paste_mode := paste_mode s; paste_buffer := paste_buffer s; pending_kitty := pending_kitty s; timer := false |})
  | b => ([b], {| buffer := []; paste_mode := paste_mode s; paste_buffer := paste_buffer s; pending_kitty := None; timer := false |})
  end.

(** [src: travis/tui/stdin_buffer.py:248-251 StdinBuffer._flush_timeout] *)
Definition _flush_timeout (s : StdinBuffer) : list event * StdinBuffer :=
  let '(sequences, s) := flush s in
  let '(es, pending) := emit_all sequences (pending_kitty s) in
  (es, {| buffer := buffer s; paste_mode := paste_mode s; paste_buffer := paste_buffer s; pending_kitty := pending; timer := timer s |}).

(** [src: travis/tui/stdin_buffer.py:200-206 StdinBuffer.clear] *)
Definition clear (s : StdinBuffer) : StdinBuffer := new_buffer.

(** ** The terminal in front of it *)

(** What the thread that reads the terminal keeps: the bytes of an unfinished character, and
    the buffer. *)
Record Terminal : Type := { decoder : bytes; stdin_buffer : StdinBuffer }.

Definition new_terminal : Terminal := {| decoder := []; stdin_buffer := new_buffer |}.

(** [src: travis/tui/terminal.py:341-347 ProcessTerminal._process_stdin_bytes] *)
Definition _process_stdin_bytes (data : bytes) (t : Terminal) : list event * Terminal :=
  let '(d, pending) := feed (decoder t) data in
  match replace_errors d with
  | [] => ([], {| decoder := pending; stdin_buffer := stdin_buffer t |})
  | decoded => let '(es, s) := process decoded (stdin_buffer t) in (es, {| decoder := pending; stdin_buffer := s |})
  end.

(** The reads of the terminal, one after the other. *)
Fixpoint read_all (reads : list bytes) (t : Terminal) : list event * Terminal :=
  match reads with
  | [] => ([], t)
  | data :: reads =>
      let '(es, t) := _process_stdin_bytes data t in
      let '(es', t) := read_all reads t in (es ++ es', t)
  end.
