(* ===== verification/StdinBufferSpec.v ===== *)
(** Properties of the terminal input: what is typed and pasted arrives as it was sent,
    however the terminal cuts it into reads. *)

From S2P Require Import Prelude Utf8 PyText StdinBuffer.
Open Scope Z_scope.

(** ** Searching *)

Lemma is_prefix_app p t r : is_prefix p t = true → is_prefix p (t ++ r) = true.
Proof. rewrite !is_prefix_iff. intros [u ->]. exists (u ++ r). by rewrite app_assoc. Qed.

Lemma is_prefix_short p t r : (length p <= length t)%nat → is_prefix p (t ++ r) = true → is_prefix p t = true.
Proof.
  rewrite !is_prefix_iff. intros Hl [u Hu]. apply app_eq_inv in Hu as [(k & -> & _)|(k & -> & ->)]; [by exists k|].
  rewrite length_app in Hl. destruct k; [|cbn in Hl; lia]. exists []. by rewrite !app_nil_r.
Qed.

Lemma find_first sub t n : find sub t = Some n ↔
  is_prefix sub (drop n t) = true ∧ (n <= length t)%nat ∧ ∀ m, (m < n)%nat → is_prefix sub (drop m t) = false.
Proof.
  revert n. induction t as [|c t IH]; intros n; cbn [find].
  - destruct (is_prefix sub []) eqn:Hp.
    + split; [intros [= <-]; by split; [|split; [|lia]]|]. intros (_ & Hn & _). cbn in Hn. f_equal. lia.
    + split; [done|]. intros (H & _ & _). rewrite drop_nil in H. congruence.
  - destruct (is_prefix sub (c :: t)) eqn:Hp.
    + split; [intros [= <-]; split; [done|split; [lia|lia]]|]. intros (_ & _ & H). destruct n as [|n]; [done|]. specialize (H 0%nat ltac:(lia)). cbn in H. congruence.
    + destruct n as [|n].
      * split; [by destruct (find sub t)|]. intros (H & _). cbn in H. congruence.
      * transitivity (find sub t = Some n).
        { destruct (find sub t); cbn; split; congruence. }
        rewrite IH. cbn [drop length]. split.
        -- intros (H1 & H2 & H3). split; [done|]. split; [lia|]. intros [|m] Hm; [done|]. cbn. apply H3. lia.
        -- intros (H1 & H2 & H3). split; [done|]. split; [lia|]. intros m Hm. apply (H3 (S m)). lia.
Qed.

Lemma find_nowhere sub t : sub ≠ [] → find sub t = None ↔ ∀ m, is_prefix sub (drop m t) = false.
Proof.
  intros Hs. split.
  - intros Hf m. apply not_true_is_false. revert m. induction t as [|c t IH]; cbn [find] in Hf; intros m Hm.
    + rewrite drop_nil in Hm. by rewrite Hm in Hf.
    + destruct (is_prefix sub (c :: t)) eqn:Hp; [done|]. destruct m as [|m]; [cbn in Hm; congruence|].
      apply (IH ltac:(by destruct (find sub t)) m Hm).
  - intros H. destruct (find sub t) as [n|] eqn:Hf; [|done]. apply find_first in Hf as (Hf & _). by rewrite H in Hf.
Qed.

(** A first occurrence stays the first when the text grows, and is not there before. *)
Lemma find_app sub t n r : find sub t = Some n → (n + length sub <= length t)%nat → find sub (t ++ r) = Some n.
Proof.
  rewrite !find_first. intros (H1 & H2 & H3) Hl. rewrite drop_app_le by lia. split; [by apply is_prefix_app|]. split; [rewrite length_app; lia|].
  intros m Hm. rewrite drop_app_le by lia. apply not_true_is_false. intros H. apply (is_prefix_short sub (drop m t) r) in H; [|rewrite length_drop; lia].
  by rewrite H3 in H.
Qed.

Lemma find_before sub t n k : sub ≠ [] → find sub t = Some n → (k < n + length sub)%nat → find sub (take k t) = None.
Proof.
  intros Hs Hf Hk. apply find_nowhere; [done|]. apply find_first in Hf as (H1 & H2 & H3). intros m. apply not_true_is_false. intros Hm.
  assert (is_prefix sub (drop m t) = true) as Hm'.
  { apply is_prefix_iff in Hm as [r Hr]. apply is_prefix_iff. exists (r ++ drop k t). rewrite app_assoc, <- Hr.
    destruct (decide (m <= length (take k t))%nat) as [Hle|Hgt].
    - rewrite <- drop_app_le by done. by rewrite take_drop.
    - rewrite (drop_ge (take k t)) in Hr by lia. by destruct sub. }
  destruct (decide (m < n)%nat) as [Hlt|Hge]; [by rewrite H3 in Hm'|].
  apply is_prefix_iff in Hm as [r Hr]. apply (f_equal length) in Hr. rewrite length_app, length_drop, length_take in Hr. destruct sub; [done|]. cbn in *. lia.
Qed.

(** ** Keys *)

(** A sequence that is complete for the first time at its end. *)
Definition minimal (t : text) : Prop := ∃ u, t = ESC :: u ∧ scan [ESC] u = Some (t, []).

(** What a key sends: a character, or an escape sequence, which does not start the paste of a text
    and has no escape inside but that of a string terminator. *)
Record key_ok (t : text) : Prop := {
  ko_shape : (∃ c, t = [c] ∧ c ≠ ESC) ∨ minimal t;
  ko_no_start : t ≠ BRACKETED_PASTE_START;
  ko_not_double : t ≠ [ESC; ESC];
  ko_inside : ∀ j, t !! S j = Some ESC → t !! S (S j) = Some 92
}.

Lemma scan_extends c u cand r : scan c u = Some (cand, []) → scan c (u ++ r) = Some (cand, r).
Proof.
  revert c. induction u as [|x u IH]; intros c Hs; cbn [scan app] in *.
  - destruct r as [|y r]; cbn [scan]; destruct (_is_complete_sequence c); try done; by injection Hs as <-.
  - destruct (_is_complete_sequence c); [done| |done]. by apply IH.
Qed.

Lemma scan_of_prefix c u1 x u2 cand : scan c (u1 ++ x :: u2) = Some (cand, []) → scan c u1 = None.
Proof.
  revert c. induction u1 as [|y u1 IH]; intros c Hs; cbn [scan app] in *.
  - destruct (_is_complete_sequence c); [done|done|done].
  - destruct (_is_complete_sequence c); [done| |done]. by apply IH.
Qed.

(** Two complete sequences, one of which starts the other, are the same. *)
Lemma minimal_unique t1 t2 r : minimal t1 → minimal t2 → t1 = t2 ++ r → r = [].
Proof.
  intros (u1 & -> & H1) (u2 & -> & H2) Hr. injection Hr as ->. rewrite (scan_extends _ _ _ r H2) in H1. by injection H1 as _ ->.
Qed.

Lemma start_minimal : minimal BRACKETED_PASTE_START.
Proof. eexists. split; [reflexivity|]. vm_compute. reflexivity. Qed.

(** The part of a key, or of the start of a paste, that has arrived. *)
Definition partial (q : text) : Prop :=
  q = [] ∨ ∃ t z, (key_ok t ∨ t = BRACKETED_PASTE_START) ∧ t = q ++ z ∧ z ≠ [].

Lemma start_inside j : BRACKETED_PASTE_START !! S j = Some ESC → False.
Proof. do 6 (destruct j as [|j]; [done|]). done. Qed.

Lemma partial_scan q c u : partial q → q = c :: u → c = ESC ∧ scan [ESC] u = None.
Proof.
  intros [->|(t & z & Ht & Hq & Hz)] Hc; [done|]. destruct z as [|x z]; [done|]. subst q. destruct Ht as [[Hs _ _ _]| ->].
  - destruct Hs as [(y & Hy & _)|(v & Hv & Hs)]; [rewrite Hy in Hq; cbn in Hq; injection Hq as _ Hq; by destruct u|].
    rewrite Hv in Hq. cbn in Hq. injection Hq as <- ->. split; [done|]. by eapply scan_of_prefix.
  - destruct start_minimal as (v & Hv & Hs). rewrite Hv in Hq. cbn in Hq. injection Hq as <- ->. split; [done|]. by eapply scan_of_prefix.
Qed.

Lemma key_at t r : key_ok t → ∀ j, (j < length t)%nat → is_prefix BRACKETED_PASTE_START (drop j t ++ r) = false.
Proof.
  intros [Hs Hns _ Hin] j Hj. apply not_true_is_false. intros Hp. apply is_prefix_iff in Hp as [u Hu]. destruct j as [|j].
  - destruct Hs as [(c & -> & Hc)|Hm]; [by injection Hu|]. rewrite drop_0 in Hu.
    apply app_eq_inv in Hu as [(k & Hk & _)|(k & Hk & _)].
    + assert (k = []) as -> by (eapply (minimal_unique t BRACKETED_PASTE_START); [done|apply start_minimal|exact Hk]). by rewrite app_nil_r in Hk.
    + assert (k = []) as -> by (eapply (minimal_unique BRACKETED_PASTE_START t); [apply start_minimal|done|done]). by rewrite app_nil_r in Hk.
  - assert (drop (S j) t !! 0%nat = Some ESC → drop (S j) t !! 1%nat = Some 92) as Hin'.
    { rewrite !lookup_drop. rewrite Nat.add_0_r, Nat.add_1_r. apply Hin. }
    destruct (drop (S j) t) as [|c [|d l]] eqn:Hd.
    + apply (f_equal length) in Hd. rewrite length_drop in Hd. cbn in Hd. lia.
    + injection Hu as -> _. by specialize (Hin' eq_refl).
    + injection Hu as -> -> _. by specialize (Hin' eq_refl).
Qed.

Lemma keys_inside ks r : Forall key_ok ks → ∀ m, (m < length (concat ks))%nat → is_prefix BRACKETED_PASTE_START (drop m (concat ks ++ r)) = false.
Proof.
  induction 1 as [|t ks Ht _ IH]; cbn [concat]; intros m Hm; [cbn in Hm; lia|]. rewrite <- app_assoc. rewrite length_app in Hm.
  destruct (decide (m < length t)%nat) as [Hlt|Hge].
  - rewrite drop_app_le by lia. by apply key_at.
  - rewrite drop_app_ge by lia. apply IH. lia.
Qed.

Lemma partial_inside q m : partial q → is_prefix BRACKETED_PASTE_START (drop m q) = false.
Proof.
  intros [->|(t & z & Ht & Hq & Hz)]; [by rewrite drop_nil|]. apply not_true_is_false. intros Hp. pose proof Hp as Hp'.
  apply is_prefix_iff in Hp' as [u Hu]. apply (f_equal length) in Hu. rewrite length_app, length_drop in Hu. cbn [length BRACKETED_PASTE_START] in Hu.
  apply (is_prefix_app _ _ z) in Hp. destruct z as [|x z]; [done|]. destruct Ht as [Ht| ->].
  - rewrite <- drop_app_le, <- Hq, <- (app_nil_r (drop m t)), key_at in Hp; [done|done| |lia].
    rewrite Hq, length_app. cbn. lia.
  - apply (f_equal length) in Hq. rewrite length_app in Hq. cbn in Hq. lia.
Qed.

Lemma keys_no_start ks q : Forall key_ok ks → partial q → find BRACKETED_PASTE_START (concat ks ++ q) = None.
Proof.
  intros Hk Hq. apply find_nowhere; [done|]. intros m. destruct (decide (m < length (concat ks))%nat) as [Hlt|Hge]; [by apply keys_inside|].
  rewrite drop_app_ge by lia. by apply partial_inside.
Qed.

Lemma keys_start ks r : Forall key_ok ks → find BRACKETED_PASTE_START (concat ks ++ BRACKETED_PASTE_START ++ r) = Some (length (concat ks)).
Proof.
  intros Hk. apply find_first. rewrite drop_app_length. split; [apply is_prefix_iff; by exists r|]. split; [rewrite length_app; lia|]. by apply keys_inside.
Qed.

Lemma extract_keys ks q : Forall key_ok ks → partial q → ∀ fuel, (length (concat ks ++ q) <= fuel)%nat → extract fuel (concat ks ++ q) = (ks, q).
Proof.
  induction 1 as [|t ks Ht Hks IH]; intros Hq fuel Hf; cbn [concat app] in *.
  - destruct q as [|c u]; [by destruct fuel|]. destruct fuel as [|fuel]; [cbn in Hf; lia|].
    destruct (partial_scan (c :: u) c u Hq eq_refl) as [-> Hs]. cbn [extract]. by rewrite Z.eqb_refl, Hs.
  - rewrite <- app_assoc in *. set (r := concat ks ++ q) in *. destruct Ht as [Hs _ Hd _]. destruct Hs as [(c & -> & Hc)|(u & -> & Hs)].
    + destruct fuel as [|fuel]; [cbn in Hf; lia|]. cbn [app extract]. destruct (Z.eqb_spec c ESC); [done|].
      rewrite IH; [done|done|cbn in Hf; lia].
    + destruct fuel as [|fuel]; [cbn in Hf; lia|]. cbn [app extract]. rewrite Z.eqb_refl, (scan_extends _ _ _ r Hs).
      rewrite bool_decide_false by done. cbn [andb]. rewrite IH; [done|done|]. cbn in Hf. rewrite length_app in Hf. lia.
Qed.

Lemma extract_ok ks q : Forall key_ok ks → partial q → _extract_complete_sequences (concat ks ++ q) = (ks, q).
Proof. intros Hk Hq. by apply extract_keys. Qed.

(** ** What is sent *)

(** What a user does: a key, or a paste, which the terminal puts between two marks. *)
Inductive token : Type := Key (t : text) | Pasted (content : text).

Definition token_text (tk : token) : text :=
  match tk with Key t => t | Pasted c => BRACKETED_PASTE_START ++ c ++ BRACKETED_PASTE_END end.

Definition stream (ts : list token) : text := concat (List.map token_text ts).

Definition token_ok (tk : token) : Prop :=
  match tk with
  | Key t => key_ok t
  | Pasted c => find BRACKETED_PASTE_END (c ++ BRACKETED_PASTE_END) = Some (length c)
  end.

(** What the program is to see. *)
Fixpoint expected (ts : list token) (pending : option Z) : list event * option Z :=
  match ts with
  | [] => ([], pending)
  | Key t :: ts =>
      let '(e, pending) := _emit_data_sequence t pending in
      let '(es, pending) := expected ts pending in (e ++ es, pending)
  | Pasted c :: ts => let '(es, pending) := expected ts None in (Paste c :: es, pending)
  end.

(** The state with the first part [q] of a token. *)
Definition at_position (q : text) (pending : option Z) : StdinBuffer :=
  if is_prefix BRACKETED_PASTE_START q
  then {| buffer := []; paste_mode := true; paste_buffer := drop (length BRACKETED_PASTE_START) q; pending_kitty := None; timer := false |}
  else {| buffer := q; paste_mode := false; paste_buffer := []; pending_kitty := pending; timer := negb (bool_decide (q = [])) |}.

(** [q] is the part of a token that has arrived, not the whole of it. *)
Definition waiting (q : text) : Prop := q = [] ∨ ∃ tk z, token_ok tk ∧ token_text tk = q ++ z ∧ z ≠ [].

Lemma expected_app ts1 ts2 p :
  expected (ts1 ++ ts2) p = ((expected ts1 p).1 ++ (expected ts2 (expected ts1 p).2).1, (expected ts2 (expected ts1 p).2).2).
Proof.
  revert p. induction ts1 as [|[t|c] ts1 IH]; intros p; cbn [expected app].
  - cbn; by destruct (expected ts2 p).
  - destruct (_emit_data_sequence t p) as [e p']. rewrite IH. destruct (expected ts1 p') as [es p'']. cbn. by rewrite app_assoc.
  - rewrite IH. by destruct (expected ts1 None).
Qed.

Lemma expected_keys ks p : expected (List.map Key ks) p = emit_all ks p.
Proof. revert p. induction ks as [|t ks IH]; intros p; [done|]. cbn. destruct (_emit_data_sequence t p). by rewrite IH. Qed.

Lemma stream_app ts1 ts2 : stream (ts1 ++ ts2) = stream ts1 ++ stream ts2.
Proof. unfold stream. by rewrite map_app, concat_app. Qed.

Lemma stream_keys ks : stream (List.map Key ks) = concat ks.
Proof. unfold stream. rewrite map_map. cbn. by rewrite map_id. Qed.

Lemma token_nonempty tk : token_ok tk → token_text tk ≠ [].
Proof. destruct tk as [t|c]; [|done]. intros [[(c & -> & _)|(u & -> & _)] _ _ _]; done. Qed.

Lemma split_keys ts : Forall token_ok ts → ∃ ks ts', ts = List.map Key ks ++ ts' ∧ Forall key_ok ks ∧ (ts' = [] ∨ ∃ c ts'', ts' = Pasted c :: ts'').
Proof.
  induction 1 as [|[t|c] ts Ht Hts (ks & ts' & -> & Hk & Hts')]; [by exists [], []; split; [|split; [|left]]| |].
  - exists (t :: ks), ts'. split; [done|]. split; [by constructor|exact Hts'].
  - exists [], (Pasted c :: List.map Key ks ++ ts'). split; [done|]. split; [done|]. right. by eexists _, _.
Qed.

(** ** One input *)

Lemma paste_done again c rest p : token_ok (Pasted c) → _emit_paste_if_complete again (c ++ BRACKETED_PASTE_END ++ rest) p =
  (Paste c :: (match rest with [] => [] | _ => (again rest).1 end), match rest with [] => new_buffer | _ => (again rest).2 end).
Proof.
  intros Hc. cbn in Hc. unfold _emit_paste_if_complete. rewrite app_assoc, (find_app _ _ (length c)) by (try done; rewrite length_app; lia).
  rewrite <- app_assoc, take_app_length. rewrite (drop_app_ge c) by lia.
  replace (length c + length BRACKETED_PASTE_END - length c)%nat with (length BRACKETED_PASTE_END) by lia. rewrite drop_app_length.
  destruct rest as [|x rest]; [done|]. by destruct (again (x :: rest)).
Qed.

Lemma paste_waits again c y z p : token_ok (Pasted c) → c ++ BRACKETED_PASTE_END = y ++ z → z ≠ [] →
  _emit_paste_if_complete again y p = ([], {| buffer := []; paste_mode := true; paste_buffer := y; pending_kitty := p; timer := false |}).
Proof.
  intros Hc Hy Hz. unfold _emit_paste_if_complete. assert (find BRACKETED_PASTE_END y = None) as ->; [|done].
  replace y with (take (length y) (c ++ BRACKETED_PASTE_END)) by (rewrite Hy; apply take_app_length).
  apply (find_before _ _ (length c)); [done|exact Hc|]. apply (f_equal length) in Hy. rewrite !length_app in Hy.
  destruct z; [done|]. cbn in *. lia.
Qed.

Lemma waiting_cases q : waiting q → (partial q ∧ is_prefix BRACKETED_PASTE_START q = false) ∨
  ∃ c y z, token_ok (Pasted c) ∧ q = BRACKETED_PASTE_START ++ y ∧ c ++ BRACKETED_PASTE_END = y ++ z ∧ z ≠ [].
Proof.
  assert (∀ q, partial q → is_prefix BRACKETED_PASTE_START q = false) as Hno by (intros q' Hq'; apply (partial_inside q' 0 Hq')).
  intros [->|(tk & z & Hok & Ht & Hz)]; [left; split; [by left|done]|]. destruct tk as [t|c]; cbn [token_text] in Ht.
  - left. assert (partial q) by (right; exists t, z; auto). auto.
  - symmetry in Ht. apply app_eq_inv in Ht as [(k & -> & Hk)|(k & Hk & ->)].
    + right. exists c, k, z. done.
    + destruct k as [|x k].
      * right. exists c, [], (c ++ BRACKETED_PASTE_END). rewrite app_nil_r in Hk. cbn in Hz. done.
      * left. assert (partial q) by (right; exists BRACKETED_PASTE_START, (x :: k); auto). auto.
Qed.

Lemma at_paste y p : at_position (BRACKETED_PASTE_START ++ y) p =
  {| buffer := []; paste_mode := true; paste_buffer := y; pending_kitty := None; timer := false |}.
Proof. unfold at_position. rewrite (proj2 (is_prefix_iff _ _)) by by exists y. by rewrite drop_app_length. Qed.

Lemma at_key q p : is_prefix BRACKETED_PASTE_START q = false → at_position q p =
  {| buffer := q; paste_mode := false; paste_buffer := []; pending_kitty := p; timer := negb (bool_decide (q = [])) |}.
Proof. intros Hn. unfold at_position. by rewrite Hn. Qed.

Lemma handle_ok fuel : ∀ ts q p, Forall token_ok ts → waiting q → (length (stream ts ++ q) < fuel)%nat →
  handle fuel None (stream ts ++ q) p = ((expected ts p).1, at_position q (expected ts p).2).
Proof.
  induction fuel as [|fuel IH]; intros ts q p Hts Hq Hf; [lia|]. cbn [handle].
  destruct (split_keys ts Hts) as (ks & ts' & -> & Hks & Hts'). rewrite expected_app, expected_keys, stream_app, stream_keys in *.
  rewrite <- app_assoc in *. destruct Hts' as [->|(c & ts'' & ->)].
  - cbn [stream List.map concat app expected fst snd]. rewrite app_nil_r.
    destruct (waiting_cases q Hq) as [[Hp Hn]|(c & y & z & Hc & -> & Hy & Hz)].
    + rewrite keys_no_start, extract_ok by done. unfold at_position. rewrite Hn. by destruct (emit_all ks p).
    + rewrite keys_start by done. rewrite take_app_length. pose proof (extract_ok ks [] Hks (or_introl eq_refl)) as He. rewrite app_nil_r in He. rewrite He.
      cbn [fst]. rewrite drop_app_ge by lia. rewrite Nat.add_comm, Nat.add_sub, drop_app_length. rewrite (paste_waits _ c y z) by done.
      rewrite at_paste. destruct (emit_all ks p). by rewrite app_nil_r.
  - apply Forall_app in Hts as [_ Hts]. apply Forall_cons in Hts as [Hc Hts]. cbn [stream List.map concat token_text].
    fold (stream ts''). rewrite <- !app_assoc. rewrite keys_start by done. rewrite take_app_length.
    pose proof (extract_ok ks [] Hks (or_introl eq_refl)) as He. rewrite app_nil_r in He. rewrite He. cbn [fst].
    rewrite drop_app_ge by lia. rewrite Nat.add_comm, Nat.add_sub, drop_app_length. rewrite paste_done by done.
    cbn [expected]. destruct (emit_all ks p) as [es p']. cbn [fst snd]. destruct (expected ts'' None) as [es' p''] eqn:Hex. cbn [fst snd].
    destruct (stream ts'' ++ q) as [|x rest] eqn:Hr.
    + apply app_nil in Hr as [Hr ->]. destruct ts'' as [|tk ts'']; [by injection Hex as <- <-|].
      apply Forall_cons in Hts as [Htk _]. apply token_nonempty in Htk. cbn in Hr. by apply app_nil in Hr as [? _].
    + rewrite <- Hr, IH, Hex; [done|done|done|]. cbn [stream List.map concat token_text] in Hf. fold (stream ts'') in Hf.
      rewrite !length_app in Hf. rewrite length_app. cbn [length BRACKETED_PASTE_START] in Hf. lia.
Qed.

(** [process] continues where the last input ended. *)
Lemma process_ok d q ts q2 p : d ≠ [] → waiting q → Forall token_ok ts → waiting q2 → q ++ d = stream ts ++ q2 →
  process d (at_position q p) = ((expected ts p).1, at_position q2 (expected ts p).2).
Proof.
  intros Hd Hq Hts Hq2 Hs. destruct (waiting_cases q Hq) as [[_ Hn]|(c & y & z & Hc & -> & Hy & Hz)].
  - rewrite (at_key q p Hn). unfold process. cbn [buffer paste_mode paste_buffer pending_kitty].
    rewrite bool_decide_false by done. cbn [andb]. rewrite Hs. apply handle_ok; [done|done|cbn; lia].
  - rewrite at_paste. unfold process. cbn [buffer paste_mode paste_buffer pending_kitty]. rewrite bool_decide_false by done. cbn [andb app handle].
    rewrite <- app_assoc in Hs. destruct ts as [|tk ts].
    + cbn [stream List.map concat app expected fst snd] in *. subst q2. rewrite at_paste.
      destruct (waiting_cases _ Hq2) as [[_ Hn]|(c2 & y2 & z2 & Hc2 & Heq & Hy2 & Hz2)].
      * exfalso. rewrite (proj2 (is_prefix_iff _ _)) in Hn by by eexists. done.
      * apply app_inv_head in Heq as ->. by rewrite (paste_waits _ c2 y2 z2).
    + apply Forall_cons in Hts as [Htk Hts]. cbn [stream List.map concat] in Hs. fold (stream ts) in Hs. destruct tk as [t|c2].
      * exfalso. pose proof (key_at t (stream ts ++ q2) Htk 0 ltac:(apply (token_nonempty (Key t)) in Htk; cbn in Htk; destruct t; [done|cbn; lia])) as Hn.
        rewrite drop_0 in Hn. cbn [token_text] in Hs. rewrite <- app_assoc in Hs. rewrite <- Hs in Hn.
        by rewrite (proj2 (is_prefix_iff _ _)) in Hn by by eexists.
      * cbn [token_text] in Hs. rewrite <- !app_assoc in Hs. apply app_inv_head in Hs. rewrite Hs, paste_done by done.
        cbn [expected]. destruct (expected ts None) as [es' p''] eqn:Hex. cbn [fst snd]. destruct (stream ts ++ q2) as [|x rest] eqn:Hr.
        -- apply app_nil in Hr as [Hr ->]. destruct ts as [|tk ts]; [by injection Hex as <- <-|].
           apply Forall_cons in Hts as [Htk' _]. apply token_nonempty in Htk'. cbn in Hr. by apply app_nil in Hr as [? _].
        -- rewrite <- Hr, handle_ok, Hex; [done|done|done|]. apply (f_equal length) in Hs. rewrite !length_app in Hs. rewrite Hr in *. cbn in *. lia.
Qed.

(** ** All reads *)

(** The next token is the one that [q] is a part of. *)
Definition next_of (q : text) (ts : list token) : Prop := q = [] ∨ ∃ tk ts' z, ts = tk :: ts' ∧ token_text tk = q ++ z ∧ z ≠ [].

Lemma next_waiting q ts : Forall token_ok ts → next_of q ts → waiting q.
Proof.
  intros Hts [->|(tk & ts' & z & -> & Ht & Hz)]; [by left|]. right. exists tk, z. by apply Forall_cons in Hts as [? _].
Qed.

(** A first part of a stream is some tokens and a part of the next one. *)
Lemma stream_split ts : ∀ x r, Forall token_ok ts → x ++ r = stream ts → ∃ ts1 ts2 q, ts = ts1 ++ ts2 ∧ x = stream ts1 ++ q ∧ next_of q ts2.
Proof.
  induction ts as [|tk ts IH]; intros x r Hts Hx.
  - apply app_nil in Hx as [-> ->]. exists [], [], []. split; [done|]. split; [done|by left].
  - apply Forall_cons in Hts as [Htk Hts]. cbn [stream List.map concat] in Hx. fold (stream ts) in Hx.
    apply app_eq_inv in Hx as [(k & -> & Hk)|(k & Hk & Hr)].
    + destruct (IH k r Hts (eq_sym Hk)) as (ts1 & ts2 & q & -> & -> & Hn). exists (tk :: ts1), ts2, q. split; [done|]. split; [|done].
      cbn. by rewrite app_assoc.
    + destruct k as [|c k].
      * exists [tk], ts, []. rewrite app_nil_r in Hk. subst x. split; [done|]. split; [cbn; by rewrite !app_nil_r|by left].
      * exists [], (tk :: ts), x. split; [done|]. split; [done|]. right. by exists tk, ts, (c :: k).
Qed.

Lemma at_rest ts q : Forall token_ok ts → next_of q ts → q = stream ts → ts = [] ∧ q = [].
Proof.
  intros Hts [->|(tk & ts' & z & -> & Ht & Hz)] Hq.
  - destruct ts as [|tk ts]; [done|]. apply Forall_cons in Hts as [Htk _]. apply token_nonempty in Htk. cbn in Hq.
    symmetry in Hq. by apply app_nil in Hq as [? _].
  - exfalso. cbn in Hq. rewrite Ht in Hq. apply (f_equal length) in Hq. rewrite !length_app in Hq. destruct z; [done|]. cbn in Hq. lia.
Qed.

Lemma map_some_app (l1 l2 : decoded) (t : text) : l1 ++ l2 = List.map Some t →
  ∃ t1 t2, t = t1 ++ t2 ∧ l1 = List.map Some t1 ∧ l2 = List.map Some t2.
Proof.
  revert t. induction l1 as [|x l1 IH]; intros t Ht; [by exists [], t|]. destruct t as [|c t]; [done|]. injection Ht as -> Ht.
  destruct (IH t Ht) as (t1 & t2 & -> & -> & ->). by exists (c :: t1), t2.
Qed.

Lemma replace_some t : replace_errors (List.map Some t) = t.
Proof. unfold replace_errors. rewrite map_map. apply map_id. Qed.

Lemma read_all_ok reads : ∀ ts q p d x, Forall token_ok ts → next_of q ts → feed d (concat reads) = (List.map Some x, []) → q ++ x = stream ts →
  read_all reads {| decoder := d; stdin_buffer := at_position q p |} =
  ((expected ts p).1, {| decoder := []; stdin_buffer := at_position [] (expected ts p).2 |}).
Proof.
  induction reads as [|data reads IH]; intros ts q p d x Hts Hq Hf Hs; cbn [concat read_all] in *.
  - injection Hf as Hx ->. destruct x; [|done]. rewrite app_nil_r in Hs. by destruct (at_rest ts q Hts Hq Hs) as [-> ->].
  - rewrite feed_app in Hf. destruct (feed d data) as [r1 d1] eqn:H1. cbn [fst snd] in Hf. destruct (feed d1 (concat reads)) as [r2 d2] eqn:H2. injection Hf as Hr ->.
    apply map_some_app in Hr as (x1 & x2 & -> & -> & ->). unfold _process_stdin_bytes. cbn [decoder stdin_buffer]. rewrite H1, replace_some.
    destruct x1 as [|c x1]; [by rewrite (IH ts q p d1 x2) by done|].
    rewrite app_assoc in Hs. destruct (stream_split ts _ _ Hts Hs) as (ts1 & ts2 & q2 & -> & Hx & Hn).
    apply Forall_app in Hts as [Hts1 Hts2]. rewrite (process_ok (c :: x1) q ts1 q2 p); [|done| |done|by eapply next_waiting|done].
    + rewrite (IH ts2 q2 _ d1 x2); [|done|done|done|].
      * cbn. by rewrite expected_app.
      * rewrite Hx, stream_app, <- app_assoc in Hs. by apply app_inv_head in Hs.
    + eapply (next_waiting _ (ts1 ++ ts2)); [by apply Forall_app|done].
Qed.


(** ** Concrete input *)

Definition sample_tokens : list token :=
  [Key (lit "é"); Key [27; 91; 65]; Key (27 :: 91 :: lit "97u"); Key [97]; Pasted (lit "a" ++ [27; 91; 65; 10]); Key [27; 93; 48; 27; 92];
   Key (27 :: 91 :: lit "<0;12;3M")].

Definition sample_reads : list bytes := List.map (λ b, [b]) (encode (stream sample_tokens)).

(** Every escape is that of a string terminator. *)
Fixpoint no_inner_escape (l : text) : bool :=
  match l with
  | c :: l' => (negb (c =? ESC) || match l' with d :: _ => d =? 92 | [] => false end) && no_inner_escape l'
  | [] => true
  end.

Lemma no_inner_escape_at l : no_inner_escape l = true → ∀ j, l !! j = Some ESC → l !! S j = Some 92.
Proof.
  induction l as [|c l IH]; [done|]. cbn [no_inner_escape]. intros [H1 H2]%andb_true_iff [|j] Hj; [|by apply (IH H2)].
  injection Hj as ->. destruct l as [|d l]; [done|]. cbn in H1. apply Z.eqb_eq in H1 as ->. done.
Qed.

Lemma key_check (t : text) : (match t with [c] => negb (c =? ESC) | c :: u => (c =? ESC) && bool_decide (scan [ESC] u = Some (t, [])) | [] => false end) = true →
  t ≠ BRACKETED_PASTE_START → t ≠ [ESC; ESC] →
  no_inner_escape (tail t) = true →
  key_ok t.
Proof.
  intros H1 H2 H3 H4. split; [|done|done|].
  - destruct t as [|c [|d u]]; [done| |].
    + left. exists c. split; [done|]. intros ->. done.
    + right. apply andb_true_iff in H1 as [->%Z.eqb_eq H1]. apply bool_decide_eq_true in H1. by exists (d :: u).
  - destruct t as [|c t]; [by intros j|]. intros j. by apply (no_inner_escape_at t).
Qed.

Lemma sample_tokens_ok : Forall token_ok sample_tokens.
Proof. repeat apply Forall_cons_2; try apply Forall_nil_2; try (apply key_check; [by vm_compute|by vm_compute|by vm_compute|by vm_compute]); by vm_compute. Qed.


(** An escape key pressed twice before a sequence: in one read the second escape belongs to
    the sequence, in two reads it does not, and the sequence is lost. *)
Example double_escape_cut :
  (read_all [[27; 27; 91; 65]] new_terminal).1 = [Data [27]; Data [27; 91; 65]] ∧
  (read_all [[27; 27]; [91; 65]] new_terminal).1 = [Data [27; 27]; Data [91]; Data [65]].
Proof. by vm_compute. Qed.

(** What stands before a paste and is not complete is dropped. *)
Example unfinished_before_paste :
  (read_all [[27; 93; 48] ++ BRACKETED_PASTE_START ++ [120] ++ BRACKETED_PASTE_END] new_terminal) = ([Paste [120]], new_terminal).
Proof. by vm_compute. Qed.
