(* ===== verification/Subagents.v ===== *)
(** The supervisor of subagents (travis/coding_agent/subagents.py, SubagentSupervisor, with
    the stores of subagent_supervision.py).

    What a method does while it holds the lock is one action; what it does afterwards
    (publishing snapshots, emitting events, asking a child to stop) is the list of effects of its
    thread, each an action of its own, so that threads interleave in any order.  Backends,
    clocks and the validation of typed results are arguments. *)

From S2P Require Import Prelude PyDict.
Open Scope Z_scope.

(** ** Tasks and results *)

(** [src: travis/coding_agent/subagent_result_types.py:9-10 SubagentStatus] *)
Inductive SubagentStatus : Type := queued | running | completed | failed | cancelled | timeout.
#[export] Instance SubagentStatus_eq_dec : EqDecision SubagentStatus.
Proof. solve_decision. Defined.

(** [src: travis/coding_agent/subagents.py:135-160 SubagentTask]: what the supervisor reads. *)
Record SubagentTask : Type := { t_id : string; t_role : string; t_backend : string; t_depth : Z }.

(** [src: travis/coding_agent/subagent_result_types.py:42-61 SubagentResult]: the fields that the
    supervisor reads or sets. *)
Record SubagentResult : Type := {
  r_task_id : string;
  r_backend : string;
  r_role : string;
  r_status : SubagentStatus;
  r_summary : string;
  r_errors : list string;
  r_started_at_ms : Z;
  r_ended_at_ms : Z
}.

Inductive subagent_error : Type := ValueError | RuntimeError | KeyError | CancelledError | BackendError.

(** [src: travis/coding_agent/subagent_result_types.py:24-29 _validate_timestamps] *)
Definition _validate_timestamps (started_at_ms ended_at_ms : Z) : result subagent_error unit :=
  if (started_at_ms <? 0) || (ended_at_ms <? 0) then Err ValueError
  else if negb (started_at_ms =? 0) && negb (ended_at_ms =? 0) && (ended_at_ms <? started_at_ms) then Err ValueError
  else Ok tt.

(** A result that the supervisor makes up; its identifiers are those of the task. *)
Definition make_result (t : SubagentTask) (status : SubagentStatus) (summary : string) (errors : list string) (started ended : Z)
    : result subagent_error SubagentResult :=
  _ ← _validate_timestamps started ended;
  Ok {| r_task_id := t_id t; r_backend := t_backend t; r_role := t_role t; r_status := status; r_summary := summary;
        r_errors := errors; r_started_at_ms := started; r_ended_at_ms := ended |}.

(** ** State *)

(** A future of the executor: waiting for a worker, begun, done. *)
Inductive future : Type := Pending | Begun | Finished (r : SubagentResult) | Raised | Withdrawn.

(** [src: travis/coding_agent/subagent_supervision.py:135-144 SubagentSnapshot] *)
Record SubagentSnapshot : Type := {
  s_task_id : string;
  s_role : string;
  s_backend : string;
  s_status : SubagentStatus;
  s_started_at_ms : Z;
  s_ended_at_ms : Z;
  s_summary_preview : string;
  s_controllable : bool
}.

Inductive event : Type :=
  | SubagentStart (t : SubagentTask)
  | SubagentStop (t : SubagentTask) (r : SubagentResult)
  | SubagentControl (t : SubagentTask) (action : string).

(** What a thread still does without the lock, or when it takes it again. *)
Inductive effect : Type :=
  | Publish (t : SubagentTask) (status : SubagentStatus) (started : Z) (r : option SubagentResult)
  | EmitStart (t : SubagentTask)
  | EmitStop (t : SubagentTask) (r : SubagentResult)
  | ControlCancel (t : SubagentTask) (reason : string) (emits : bool)
  | BackendCancel (i : string)
  | Submit (t : SubagentTask)
  | RunStarts (t : SubagentTask)
  | RunBackend (t : SubagentTask) (started : Z)
  | SettleRun (t : SubagentTask) (started : Z) (r : SubagentResult)
  | SetFuture (i : string) (f : future)
  | AttachHandle (i : string)
  | SteerHandle (t : SubagentTask) (message : string)
  | Deliver (i : string) (message : string)
  | EmitSteer (t : SubagentTask)
  | CancelAll (ids : list string) (reason : string)
  | ExecutorShutdown
  | PublishShutdown.

(** [src: travis/coding_agent/subagents.py:603-630 SubagentSupervisor.__init__]: and the stores
    of snapshots and controls; [sent] are the messages that reached a child, [emitted] the events. *)
Record Supervisor : Type := {
  backends : list string;
  tasks : list (string * SubagentTask);
  futures : list (string * future);
  results : list (string * SubagentResult);
  statuses : list (string * SubagentStatus);
  started_at_ms : list (string * Z);
  is_shutdown : bool;
  snapshots : list (string * SubagentSnapshot);
  revision : Z;
  handles : list (string * unit);
  pending : list (string * list string);
  sent : list (string * string);
  emitted : list event;
  threads : list (list effect)
}.

(** The limits of a supervisor, and the parts that are not its own: [settle_typed_result] and
    [_preview] of a summary. *)
Record Config : Type := {
  max_threads : Z;
  max_depth : Z;
  settle_typed_result : SubagentTask → SubagentResult → result string SubagentResult;
  _preview : string → string
}.

Definition new_supervisor : Supervisor :=
  {| backends := []; tasks := []; futures := []; results := []; statuses := []; started_at_ms := []; is_shutdown := false;
     snapshots := []; revision := 0; handles := []; pending := []; sent := []; emitted := []; threads := [] |}.

(** The parts that the lock of the supervisor protects. *)
Definition with_tables (ts : list (string * SubagentTask)) (fs : list (string * future)) (rs : list (string * SubagentResult))
    (ss : list (string * SubagentStatus)) (sa : list (string * Z)) (s : Supervisor) : Supervisor :=
  {| backends := backends s; tasks := ts; futures := fs; results := rs; statuses := ss; started_at_ms := sa; is_shutdown := is_shutdown s;
     snapshots := snapshots s; revision := revision s; handles := handles s; pending := pending s; sent := sent s; emitted := emitted s;
     threads := threads s |}.
Definition set_futures (f : list (string * future) → list (string * future)) (s : Supervisor) : Supervisor :=
  with_tables (tasks s) (f (futures s)) (results s) (statuses s) (started_at_ms s) s.
Definition settle (i : string) (r : SubagentResult) (s : Supervisor) : Supervisor :=
  with_tables (tasks s) (futures s) (od_set i r (results s)) (od_set i (r_status r) (statuses s)) (started_at_ms s) s.
Definition with_threads (f : list (list effect) → list (list effect)) (s : Supervisor) : Supervisor :=
  {| backends := backends s; tasks := tasks s; futures := futures s; results := results s; statuses := statuses s;
     started_at_ms := started_at_ms s; is_shutdown := is_shutdown s; snapshots := snapshots s; revision := revision s; handles := handles s;
     pending := pending s; sent := sent s; emitted := emitted s; threads := f (threads s) |}.
Definition with_views (sn : list (string * SubagentSnapshot)) (rev : Z) (hs : list (string * unit)) (ps : list (string * list string))
    (sent' : list (string * string)) (ev : list event) (s : Supervisor) : Supervisor :=
  {| backends := backends s; tasks := tasks s; futures := futures s; results := results s; statuses := statuses s;
     started_at_ms := started_at_ms s; is_shutdown := is_shutdown s; snapshots := sn; revision := rev; handles := hs; pending := ps;
     sent := sent s ++ sent'; emitted := emitted s ++ ev; threads := threads s |}.
Definition begin (effects : list effect) : Supervisor → Supervisor := with_threads (λ l, l ++ [effects]).
Definition emit (e : event) (s : Supervisor) : Supervisor :=
  with_views (snapshots s) (revision s) (handles s) (pending s) [] [e] s.

(** [future.done()] *)
Definition done (f : future) : bool := match f with Finished _ | Raised | Withdrawn => true | _ => false end.

(** [src: travis/coding_agent/subagents.py:679-680 SubagentSupervisor._unfinished_future_count_locked] *)
Definition _unfinished_future_count_locked (s : Supervisor) : Z :=
  Z.of_nat (length (List.filter (λ f, negb (done f.2)) (futures s))).

(** [^[A-Za-z0-9._-]+$] as a full match. *)
Definition is_identifier (i : string) : bool :=
  negb (bool_decide (i = ""%string)) &&
  forallb (λ a, is_upper_char a || is_lower_char a || is_digit_char a || existsb (Ascii.eqb a) ["."; "_"; "-"]%char) (chars i).

(** [src: travis/coding_agent/subagents.py:670-677 SubagentSupervisor.register_backend] *)
Definition register_backend (name : string) (s : Supervisor) : result subagent_error Supervisor :=
  _ ← require (is_identifier name) ValueError;
  Ok {| backends := name :: backends s; tasks := tasks s; futures := futures s; results := results s; statuses := statuses s;
        started_at_ms := started_at_ms s; is_shutdown := is_shutdown s; snapshots := snapshots s; revision := revision s;
        handles := handles s; pending := pending s; sent := sent s; emitted := emitted s; threads := threads s |}.

Definition mem {V : Type} (i : string) (d : list (string * V)) : bool := match od_get i d with Some _ => true | None => false end.

(** [src: travis/coding_agent/subagents.py:682-709 SubagentSupervisor.spawn] *)
Definition spawn (c : Config) (t : SubagentTask) (now : Z) (s : Supervisor) : result subagent_error Supervisor :=
  if is_shutdown s then Err RuntimeError
  else if negb (bool_decide (t_backend t ∈ backends s)) then Err ValueError
  else if max_depth c <? t_depth t then Err ValueError
  else if mem (t_id t) (tasks s) then Err ValueError
  else if max_threads c <=? _unfinished_future_count_locked s then Err RuntimeError
  else
    let s := with_tables (od_set (t_id t) t (tasks s)) (futures s) (results s) (od_set (t_id t) queued (statuses s))
               (od_set (t_id t) now (started_at_ms s)) s in
    Ok (begin [Publish t queued now None; EmitStart t; Submit t] s).

(** The second time that [spawn] holds the lock. *)
Definition submit (t : SubagentTask) (s : Supervisor) : Supervisor :=
  if mem (t_id t) (results s) then s else set_futures (od_set (t_id t) Pending) s.

(** [future.cancel()] *)
Definition future_cancel (i : string) (fs : list (string * future)) : list (string * future) :=
  match od_get i fs with Some Pending => od_set i Withdrawn fs | _ => fs end.

(** [cancel] up to the end of its lock: the result, and what the thread does next.  The future
    is cancelled before the result is made.

    [src: travis/coding_agent/subagents.py:788-831 SubagentSupervisor.cancel] *)
Definition cancel (i reason : string) (now : Z) (s : Supervisor) : result subagent_error (SubagentResult * list effect) * Supervisor :=
  match od_get i (tasks s) with
  | None => (Err KeyError, s)
  | Some t =>
      match od_get i (results s) with
      | Some existing => (Ok (existing, []), s)
      | None =>
          let s := set_futures (future_cancel i) s in
          let started := default now (od_get i (started_at_ms s)) in
          match make_result t cancelled "Subagent cancelled." (if bool_decide (reason = ""%string) then [] else [reason]) started now with
          | Err e => (Err e, s)
          | Ok r => (Ok (r, [ControlCancel t reason true; Publish t cancelled started (Some r); BackendCancel i; EmitStop t r]), settle i r s)
          end
      end
  end.

(** [executor.shutdown(cancel_futures=True)] of one future. *)
Definition withdraw (f : future) : future := match f with Pending => Withdrawn | _ => f end.

(** [future.result()] of a future that is done. *)
Definition future_result (f : future) : option (result subagent_error SubagentResult) :=
  match f with
  | Finished r => Some (Ok r)
  | Raised => Some (Err BackendError)
  | Withdrawn => Some (Err CancelledError)
  | _ => None
  end.

(** One turn of the loop of [wait]; [None] when it waits on. *)
Definition wait_turn (i : string) (s : Supervisor) : option (result subagent_error SubagentResult) :=
  match od_get i (results s) with
  | Some r => Some (Ok r)
  | None => match od_get i (futures s) with Some f => future_result f | None => Some (Err KeyError) end
  end.

(** The end of [wait] when the task's future has a result. *)
Definition wait_stores (i : string) (r : SubagentResult) (s : Supervisor) : Supervisor :=
  with_tables (tasks s) (futures s) (od_set i r (results s)) (statuses s) (started_at_ms s) s.

(** The end of [wait] when its time is up.

    [src: travis/coding_agent/subagents.py:711-786 SubagentSupervisor.wait] *)
Definition wait_times_out (i timeout_text : string) (now : Z) (s : Supervisor) : result subagent_error (SubagentResult * list effect) * Supervisor :=
  match od_get i (results s), od_get i (tasks s) with
  | Some existing, _ => (Ok (existing, []), s)
  | None, None => (Err KeyError, s)
  | None, Some t =>
      let started := default now (od_get i (started_at_ms s)) in
      match make_result t timeout "Subagent timed out." [timeout_text] started now with
      | Err e => (Err e, s)
      | Ok r => (Ok (r, [ControlCancel t timeout_text false; Publish t timeout started (Some r); EmitStop t r]), settle i r s)
      end
  end.

(** [self._statuses.get(task.id) in {..}] *)
Definition stopped_status (i : string) (s : Supervisor) : bool :=
  match od_get i (statuses s) with Some cancelled | Some timeout => true | _ => false end.

(** [_run_backend] when it first holds the lock: what the worker does next.

    [src: travis/coding_agent/subagents.py:906-916 SubagentSupervisor._run_backend (the start)] *)
Definition run_starts (t : SubagentTask) (now : Z) (s : Supervisor) : list effect * Supervisor :=
  match od_get (t_id t) (results s) with
  | Some existing =>
      if stopped_status (t_id t) s then ([SetFuture (t_id t) (Finished existing)], s)
      else
        let started := default now (od_get (t_id t) (started_at_ms s)) in
        ([Publish t running started None; RunBackend t started],
         with_tables (tasks s) (futures s) (results s) (od_set (t_id t) running (statuses s)) (started_at_ms s) s)
  | None =>
      let started := default now (od_get (t_id t) (started_at_ms s)) in
      ([Publish t running started None; RunBackend t started],
       with_tables (tasks s) (futures s) (results s) (od_set (t_id t) running (statuses s)) (started_at_ms s) s)
  end.

(** What [backend.run] does: it returns a result or raises, with a text. *)
Definition outcome : Type := result string SubagentResult.

(** The part of [_run_backend] without the lock: the result of the run.

    [src: travis/coding_agent/subagents.py:917-938 SubagentSupervisor._run_backend (the run)] *)
Definition run_result (c : Config) (t : SubagentTask) (started now : Z) (o : outcome) : result subagent_error SubagentResult :=
  let failure (error : string) :=
    let error_text := ("Subagent backend failed: " +:+ error)%string in
    make_result t failed error_text [error_text] started now in
  match o with
  | Err error => failure error
  | Ok r =>
      if negb (bool_decide (r_task_id r = t_id t)) then failure ("Subagent backend returned mismatched task_id: " +:+ r_task_id r)%string
      else if negb (bool_decide (r_backend r = t_backend t)) then failure ("Subagent backend returned mismatched backend: " +:+ r_backend r)%string
      else if negb (bool_decide (r_role r = t_role t)) then failure ("Subagent backend returned mismatched role: " +:+ r_role r)%string
      else match settle_typed_result c t r with Ok r => Ok r | Err error => failure error end
  end.

(** [SubagentControlStore.settle], and the handles that [cancel] takes out.

    [src: travis/coding_agent/subagent_supervision.py:91-94 SubagentControlStore.settle] *)
Definition drop_control (i : string) (s : Supervisor) : Supervisor :=
  with_views (snapshots s) (revision s) (od_del i (handles s)) (od_del i (pending s)) [] [] s.

(** [_run_backend] when it holds the lock again.

    [src: travis/coding_agent/subagents.py:939-952 SubagentSupervisor._run_backend (the end)] *)
Definition run_settles (t : SubagentTask) (started : Z) (r : SubagentResult) (s : Supervisor) : list effect * Supervisor :=
  match od_get (t_id t) (results s) with
  | Some existing =>
      if stopped_status (t_id t) s then ([SetFuture (t_id t) (Finished existing)], s)
      else ([Publish t (r_status r) started (Some r); EmitStop t r; SetFuture (t_id t) (Finished r)], drop_control (t_id t) (settle (t_id t) r s))
  | None => ([Publish t (r_status r) started (Some r); EmitStop t r; SetFuture (t_id t) (Finished r)], drop_control (t_id t) (settle (t_id t) r s))
  end.

(** [src: travis/coding_agent/subagents.py:833-849 SubagentSupervisor.shutdown] *)
Definition shutdown (reason : string) (s : Supervisor) : Supervisor :=
  if is_shutdown s then s
  else
    let open := List.filter (λ p : string * SubagentStatus, bool_decide (p.2 = queued) || bool_decide (p.2 = running)) (statuses s) in
    begin [CancelAll open.*1 reason]
      {| backends := backends s; tasks := tasks s; futures := futures s; results := results s; statuses := statuses s;
         started_at_ms := started_at_ms s; is_shutdown := true; snapshots := snapshots s; revision := revision s; handles := handles s;
         pending := pending s; sent := sent s; emitted := emitted s; threads := threads s |}.

(** [get_result], and [list_results] for one task: a future that is done gives the result.

    [src: travis/coding_agent/subagents.py:888-899 SubagentSupervisor.get_result] *)
Definition get_result (i : string) (s : Supervisor) : option (result subagent_error SubagentResult) * Supervisor :=
  match od_get i (results s) with
  | Some r => (Some (Ok r), s)
  | None =>
      match od_get i (futures s) with
      | Some f => match future_result f with
                  | Some (Ok r) => (Some (Ok r), wait_stores i r s)
                  | answer => (answer, s)
                  end
      | None => (None, s)
      end
  end.

(** ** Views and controls *)

(** [src: travis/coding_agent/subagent_supervision.py:186-209 SupervisorSnapshotStore.publish] *)
Definition publish (c : Config) (t : SubagentTask) (status : SubagentStatus) (started : Z) (r : option SubagentResult) (s : Supervisor) : Supervisor :=
  let terminal := negb (bool_decide (status = queued) || bool_decide (status = running)) in
  let summary := match r with Some r => _preview c (r_summary r) | None => ""%string end in
  let ended := match r with Some r => r_ended_at_ms r | None => 0 end in
  let sn := {| s_task_id := t_id t; s_role := t_role t; s_backend := t_backend t; s_status := status; s_started_at_ms := started;
               s_ended_at_ms := if terminal then ended else 0; s_summary_preview := if terminal then summary else ""%string;
               s_controllable := negb terminal |} in
  with_views (od_set (t_id t) sn (snapshots s)) (revision s + 1) (handles s) (pending s) [] [] s.

(** [src: travis/coding_agent/subagent_supervision.py:211-218 SupervisorSnapshotStore.publish_shutdown] *)
Definition publish_shutdown (s : Supervisor) : Supervisor :=
  let freeze (p : string * SubagentSnapshot) :=
    (p.1, {| s_task_id := s_task_id p.2; s_role := s_role p.2; s_backend := s_backend p.2; s_status := s_status p.2;
             s_started_at_ms := s_started_at_ms p.2; s_ended_at_ms := s_ended_at_ms p.2; s_summary_preview := s_summary_preview p.2;
             s_controllable := false |}) in
  with_views (List.map freeze (snapshots s)) (revision s + 1) (handles s) (pending s) [] [] s.

(** The active count of a snapshot.

    [src: travis/coding_agent/subagent_supervision.py:226-233 SupervisorSnapshotStore._snapshot_locked] *)
Definition active_count (s : Supervisor) : Z :=
  Z.of_nat (length (List.filter (λ p, bool_decide (s_status p.2 = queued) || bool_decide (s_status p.2 = running)) (snapshots s))).

(** [attach_control_handle] asks the supervisor first.

    [src: travis/coding_agent/subagents.py:640-649 SubagentSupervisor.attach_control_handle] *)
Definition attach_control_handle (i : string) (s : Supervisor) : option (bool * string) * Supervisor :=
  if negb (mem i (tasks s)) then (Some (false, "unknown_task"%string), s)
  else if mem i (results s) then (Some (false, "task_settled"%string), s)
  else (None, begin [AttachHandle i] s).

(** The messages that wait are delivered behind the lock.

    [src: travis/coding_agent/subagent_supervision.py:34-55 SubagentControlStore.attach] *)
Definition attach (i : string) (s : Supervisor) : list effect * Supervisor :=
  (List.map (Deliver i) (default [] (od_get i (pending s))),
   with_views (snapshots s) (revision s) (od_set i tt (handles s)) (od_del i (pending s)) [] [] s).

(** [src: travis/coding_agent/subagent_supervision.py:57-59 SubagentControlStore.detach] *)
Definition detach (i : string) (s : Supervisor) : Supervisor :=
  with_views (snapshots s) (revision s) (od_del i (handles s)) (pending s) [] [] s.

(** [steer] of a message that is stripped already.

    [src: travis/coding_agent/subagents.py:655-668 SubagentSupervisor.steer] *)
Definition steer (i message : string) (s : Supervisor) : result subagent_error (option (bool * string)) * Supervisor :=
  if bool_decide (message = ""%string) || (8192 <? str_len message) then (Err ValueError, s)
  else match od_get i (tasks s) with
       | None => (Ok (Some (false, "unknown_task"%string)), s)
       | Some t => if mem i (results s) then (Ok (Some (false, "task_settled"%string)), begin [EmitSteer t] s)
                   else (Ok None, begin [SteerHandle t message] s)
       end.

(** [src: travis/coding_agent/subagent_supervision.py:61-83 SubagentControlStore.steer] *)
Definition steer_handle (t : SubagentTask) (message : string) (s : Supervisor) : list effect * Supervisor :=
  if mem (t_id t) (handles s) then ([Deliver (t_id t) message; EmitSteer t], s)
  else if negb (bool_decide (t_backend t = "internal"%string)) then ([EmitSteer t], s)
  else ([EmitSteer t], with_views (snapshots s) (revision s) (handles s) (od_push (t_id t) message (pending s)) [] [] s).

(** ** Actions *)

Inductive action : Type :=
  | RegisterBackend (name : string)
  | Spawn (t : SubagentTask)
  | Cancel (i reason : string)
  | TimesOut (i timeout_text : string)
  | WaitStores (i : string)
  | GetResult (i : string)
  | Attach (i : string)
  | Detach (i : string)
  | Steer (i message : string)
  | Shutdown (reason : string)
  | TakeFuture (i : string)
  | Advance (k : nat) (o : outcome).

(** An effect of a thread: what it puts in front of the thread's other effects; [CancelAll] is
    the loop of [shutdown], which an exception ends. *)
Definition run_effect (c : Config) (e : effect) (o : outcome) (now : Z) (s : Supervisor) : list effect * Supervisor :=
  match e with
  | Publish t status started r => ([], publish c t status started r s)
  | EmitStart t => ([], emit (SubagentStart t) s)
  | EmitStop t r => ([], emit (SubagentStop t r) s)
  | ControlCancel t reason emits =>
      let attached := mem (t_id t) (handles s) in
      ([], let s := drop_control (t_id t) s in
           if attached && emits then emit (SubagentControl t "cancel") s else s)
  | BackendCancel i => ([], s)
  | Submit t => ([], submit t s)
  | RunStarts t => run_starts t now s
  | RunBackend t started =>
      (match run_result c t started now o with
       | Ok r => [SettleRun t started r]
       | Err _ => [SetFuture (t_id t) Raised]
       end, s)
  | SettleRun t started r => run_settles t started r s
  | SetFuture i f => ([], set_futures (od_set i f) s)
  | AttachHandle i => attach i s
  | SteerHandle t message => steer_handle t message s
  | EmitSteer t => ([], emit (SubagentControl t "steer") s)
  | Deliver i message => ([], with_views (snapshots s) (revision s) (handles s) (pending s) [(i, message)] [] s)
  | CancelAll [] reason => ([ExecutorShutdown; PublishShutdown], s)
  | CancelAll (i :: ids) reason =>
      if mem i (results s) then ([CancelAll ids reason], s)
      else match cancel i reason now s with
           | (Ok (_, effects), s) => (effects ++ [CancelAll ids reason], s)
           | (Err _, s) => ([], s)
           end
  | ExecutorShutdown => ([], set_futures (List.map (λ p, (p.1, withdraw p.2))) s)
  | PublishShutdown => ([], publish_shutdown s)
  end.

(** The workers that are busy. *)
Definition busy (s : Supervisor) : Z :=
  Z.of_nat (length (List.filter (λ p, match p.2 with Begun => true | _ => false end) (futures s))).

(** One action at the time [now]; [None] where no thread can take it. *)
Definition step (c : Config) (now : Z) (a : action) (s : Supervisor) : option Supervisor :=
  match a with
  | RegisterBackend name => match register_backend name s with Ok s => Some s | Err _ => Some s end
  | Spawn t => match spawn c t now s with Ok s => Some s | Err _ => Some s end
  | Cancel i reason => match cancel i reason now s with (Ok (_, effects), s) => Some (begin effects s) | (Err _, s) => Some s end
  | TimesOut i text => if negb (mem i (futures s)) then None else match wait_times_out i text now s with (Ok (_, effects), s) => Some (begin effects s) | (Err _, s) => Some s end
  | WaitStores i => match od_get i (futures s) with Some (Finished r) => Some (wait_stores i r s) | _ => None end
  | GetResult i => Some (get_result i s).2
  | Attach i => Some (attach_control_handle i s).2
  | Detach i => Some (detach i s)
  | Steer i message => Some (steer i message s).2
  | Shutdown reason => Some (shutdown reason s)
  | TakeFuture i =>
      match od_get i (futures s), od_get i (tasks s) with
      | Some Pending, Some t =>
          if busy s <? max_threads c then Some (begin [RunStarts t] (set_futures (od_set i Begun) s)) else None
      | _, _ => None
      end
  | Advance k o =>
      match threads s !! k with
      | Some (e :: rest) =>
          let '(effects, s) := run_effect c e o now s in
          Some (with_threads (<[k := effects ++ rest]>) s)
      | _ => None
      end
  end.

Fixpoint run (c : Config) (l : list (Z * action)) (s : Supervisor) : option Supervisor :=
  match l with [] => Some s | (now, a) :: l => s ← step c now a s; run c l s end.
