(* ===== verification/SubagentsSpec.v ===== *)
(** Properties of the supervisor of subagents, for every interleaving of its threads: a task
    is settled once, keeps its result, is reported to have stopped once, and is never lost;
    a shutdown leaves no task open. *)

From S2P Require Import Prelude PyDict Subagents.
Open Scope Z_scope.

(** ** The pool of effects *)

Definition pool (s : Supervisor) : list effect := concat (threads s).

#[local] Arguments cnt : simpl never.

Lemma concat_insert {A} (ls : list (list A)) k l : (k < length ls)%nat → concat (<[k := l]> ls) ≡ₚ l ++ concat (<[k := []]> ls).
Proof.
  revert k. induction ls as [|l' ls IH]; intros k Hk; [cbn in Hk; lia|]. destruct k as [|k]; [done|]. cbn in *.
  rewrite (IH k) by lia. by rewrite !app_assoc, (Permutation_app_comm l').
Qed.

(** What an effect does to the pool: it goes, and others may come. *)
Lemma pool_advance (ls : list (list effect)) k e rest new : ls !! k = Some (e :: rest) →
  ∃ others, concat ls ≡ₚ e :: others ∧ concat (<[k := new ++ rest]> ls) ≡ₚ new ++ others.
Proof.
  intros Hk. pose proof (lookup_lt_Some _ _ _ Hk) as Hlt. exists (rest ++ concat (<[k := []]> ls)). split.
  - rewrite <- (list_insert_id ls k (e :: rest)) at 1 by done. by rewrite concat_insert.
  - rewrite concat_insert by done. by rewrite app_assoc.
Qed.

Lemma pool_begin effects s : pool (begin effects s) ≡ₚ effects ++ pool s.
Proof. unfold pool, begin. cbn. rewrite concat_app. cbn. rewrite app_nil_r. apply Permutation_app_comm. Qed.

(** ** The invariant *)

Definition task_of (e : effect) : option SubagentTask :=
  match e with Submit t | RunStarts t | RunBackend t _ | SettleRun t _ _ => Some t | _ => None end.

(** The effects that carry the task [i] to its result. *)
Definition works (i : string) (e : effect) : bool := match task_of e with Some t => bool_decide (t_id t = i) | None => false end.

Definition stops (i : string) (e : effect) : bool := match e with EmitStop t _ => bool_decide (t_id t = i) | _ => false end.
Definition stop_event (i : string) (e : event) : bool := match e with SubagentStop t _ => bool_decide (t_id t = i) | _ => false end.
Definition closer (e : effect) : bool := match e with CancelAll _ _ | ExecutorShutdown => true | _ => false end.

Definition queued_future (i : string) (s : Supervisor) : nat := match od_get i (futures s) with Some Pending => 1 | _ => 0 end.

(** The places of the task [i]: it waits to be submitted, is queued, or is run. *)
Definition work (i : string) (s : Supervisor) : nat := (cnt (works i) (pool s) + queued_future i s)%nat.

Definition open_task (i : string) (s : Supervisor) : Prop := is_Some (od_get i (tasks s)) ∧ od_get i (results s) = None.

Record Inv (now : Z) (s : Supervisor) : Prop := {
  inv_task : ∀ i t, od_get i (tasks s) = Some t → t_id t = i;
  inv_effect : ∀ e t, e ∈ pool s → task_of e = Some t → od_get (t_id t) (tasks s) = Some t;
  inv_clock : 0 <= now ∧ (∀ i z, od_get i (started_at_ms s) = Some z → 0 <= z <= now) ∧
    ∀ t z, RunBackend t z ∈ pool s → 0 <= z <= now;
  inv_result : ∀ i r, od_get i (results s) = Some r → is_Some (od_get i (tasks s)) ∧ od_get i (statuses s) = Some (r_status r);
  inv_open : ∀ i, open_task i s → work i s = 1%nat ∧ (od_get i (statuses s) = Some queued ∨ od_get i (statuses s) = Some running);
  inv_work : ∀ i, (work i s <= 1)%nat ∧ (work i s = 1%nat → is_Some (od_get i (tasks s)) ∧
    ∀ r, od_get i (results s) = Some r → stopped_status i s = true);
  inv_future : (∀ i f, od_get i (futures s) = Some f →
      match f with Finished r => od_get i (results s) = Some r | Withdrawn => is_Some (od_get i (results s)) | Raised => False | _ => True end) ∧
    ∀ i f, SetFuture i f ∈ pool s → ∃ r, f = Finished r ∧ od_get i (results s) = Some r;
  inv_stop : ∀ i, (cnt (stops i) (pool s) + cnt (stop_event i) (emitted s) = if mem i (results s) then 1 else 0)%nat;
  inv_stopped : (∀ t r, EmitStop t r ∈ pool s → od_get (t_id t) (results s) = Some r) ∧
    ∀ t r, SubagentStop t r ∈ emitted s → od_get (t_id t) (results s) = Some r;
  inv_closer : (cnt closer (pool s) <= (if is_shutdown s then 1 else 0))%nat;
  inv_shutdown : is_shutdown s = true → ∀ i, open_task i s → ∃ ids reason, CancelAll ids reason ∈ pool s ∧ i ∈ ids;
  inv_known : (∀ i x, od_get i (statuses s) = Some x → is_Some (od_get i (tasks s))) ∧
    ∀ ids reason i, CancelAll ids reason ∈ pool s → i ∈ ids → is_Some (od_get i (tasks s))
}.

Lemma inv_new : Inv 0 new_supervisor.
Proof.
  split; try done; cbn.
  - by intros e t ?%elem_of_nil.
  - split; [lia|]. split; [done|]. by intros t z ?%elem_of_nil.
  - by intros i [[? ?] _].
  - intros i. split; [unfold work, cnt; cbn; lia|]. unfold work, cnt. cbn. lia.
  - split; [done|]. by intros i f ?%elem_of_nil.
  - split; by intros t r ?%elem_of_nil.
  - split; [done|]. by intros ids reason i ?%elem_of_nil.
Qed.

(** Time passes. *)
Lemma inv_later now now' s : Inv now s → now <= now' → Inv now' s.
Proof.
  intros [] Hle. split; try done. destruct inv_clock0 as (H1 & H2 & H3). split; [lia|]. split.
  - intros i z Hz. specialize (H2 i z Hz). lia.
  - intros t z Hz. specialize (H3 t z Hz). lia.
Qed.

(** The parts of a state that the invariant looks at, the pool up to its order. *)
Lemma inv_views now s s' : Inv now s → tasks s' = tasks s → futures s' = futures s → results s' = results s → statuses s' = statuses s →
  started_at_ms s' = started_at_ms s → is_shutdown s' = is_shutdown s → (∀ i, cnt (stop_event i) (emitted s') = cnt (stop_event i) (emitted s)) →
  (∀ t r, SubagentStop t r ∈ emitted s' → SubagentStop t r ∈ emitted s) → pool s' ≡ₚ pool s → Inv now s'.
Proof.
  intros [] E1 E2 E3 E4 E5 E6 E7 E8 Hp. unfold open_task, work, queued_future, stopped_status in *.
  split; unfold open_task, work, queued_future, stopped_status; rewrite ?E1, ?E2, ?E3, ?E4, ?E5, ?E6; try done.
  - intros e t. rewrite Hp. apply inv_effect0.
  - setoid_rewrite Hp. done.
  - intros i. rewrite (cnt_perm _ _ _ Hp). apply inv_open0.
  - intros i. rewrite (cnt_perm _ _ _ Hp). apply inv_work0.
  - setoid_rewrite Hp. done.
  - intros i. rewrite (cnt_perm _ _ _ Hp), E7. apply inv_stop0.
  - split; [intros t r; rewrite Hp; apply inv_stopped0|]. intros t r Hr. apply inv_stopped0, E8, Hr.
  - rewrite (cnt_perm _ _ _ Hp). done.
  - intros Hs i Hi. destruct (inv_shutdown0 Hs i Hi) as (ids & reason & H1 & H2). exists ids, reason. by rewrite Hp.
  - setoid_rewrite Hp. done.
Qed.

(** What a future says of a table of results. *)
Definition future_ok (rs : list (string * SubagentResult)) (i : string) (f : future) : Prop :=
  match f with Finished r => od_get i rs = Some r | Withdrawn => is_Some (od_get i rs) | Raised => False | _ => True end.

(** What effects that join the pool must satisfy. *)
Record Joins (now : Z) (s : Supervisor) (rs : list (string * SubagentResult)) (add : list effect) : Prop := {
  j_task : ∀ e t, e ∈ add → task_of e = Some t → od_get (t_id t) (tasks s) = Some t;
  j_clock : ∀ t z, RunBackend t z ∈ add → 0 <= z <= now;
  j_future : ∀ i f, SetFuture i f ∈ add → ∃ r, f = Finished r ∧ od_get i rs = Some r;
  j_stop : ∀ t r, EmitStop t r ∈ add → od_get (t_id t) rs = Some r;
  j_cancel : ∀ ids reason i, CancelAll ids reason ∈ add → i ∈ ids → is_Some (od_get i (tasks s))
}.

Lemma joins_nil now s rs : Joins now s rs [].
Proof. by split; intros *; rewrite elem_of_nil. Qed.

Lemma mem_some {V} i (d : list (string * V)) : mem i d = true ↔ is_Some (od_get i d).
Proof. unfold mem. destruct (od_get i d); split; try done; by intros []. Qed.

(** A step that settles no task. *)
Lemma inv_keep now s s' rem add W :
  Inv now s → pool s ≡ₚ rem ++ W → pool s' ≡ₚ add ++ W →
  tasks s' = tasks s → results s' = results s → started_at_ms s' = started_at_ms s → is_shutdown s' = is_shutdown s →
  (∀ i, od_get i (statuses s') = od_get i (statuses s) ∨ (open_task i s ∧ od_get i (statuses s') = Some running)) →
  (∀ i f, od_get i (futures s') = Some f → od_get i (futures s) = Some f ∨ future_ok (results s) i f) →
  (∀ i, (cnt (works i) add + queued_future i s' = cnt (works i) rem + queued_future i s)%nat ∨
        (cnt (works i) add + queued_future i s' <= cnt (works i) rem + queued_future i s)%nat ∧ is_Some (od_get i (results s))) →
  (∀ i, (cnt (stops i) add + cnt (stop_event i) (emitted s') = cnt (stops i) rem + cnt (stop_event i) (emitted s))%nat) →
  (∀ t r, SubagentStop t r ∈ emitted s' → SubagentStop t r ∈ emitted s ∨ od_get (t_id t) (results s) = Some r) →
  Joins now s (results s) add →
  (cnt closer add <= cnt closer rem)%nat →
  (∀ i ids reason, open_task i s → CancelAll ids reason ∈ rem → i ∈ ids → ∃ ids' reason', CancelAll ids' reason' ∈ add ∧ i ∈ ids') →
  Inv now s'.
Proof.
  intros [] Hp Hp' E1 E2 E3 E4 Hst Hfu Hw Hstop Hev [] Hcl Hca.
  assert (∀ e, e ∈ pool s' → e ∈ add ∨ e ∈ pool s) as Hpool.
  { intros e. rewrite Hp', Hp, !elem_of_app. naive_solver. }
  assert (∀ i, (work i s' = work i s) ∨ (work i s' <= work i s)%nat ∧ is_Some (od_get i (results s))) as Hwork.
  { intros i. specialize (Hw i). unfold work. rewrite (cnt_perm _ _ _ Hp), (cnt_perm _ _ _ Hp'), !cnt_app. lia || (destruct Hw as [Hw|[Hw ?]]; [left|right]; [lia|split; [lia|done]]). }
  assert (∀ i, open_task i s' ↔ open_task i s) as Hopen by (intros i; unfold open_task; by rewrite E1, E2).
  split; rewrite ?E1, ?E2, ?E3, ?E4; try done.
  - intros e t [He|He]%Hpool Ht; [by eapply j_task0|by eapply inv_effect0].
  - destruct inv_clock0 as (H1 & H2 & H3). split; [done|]. split; [done|]. intros t z [Hz|Hz]%Hpool; [by eapply j_clock0|by eapply H3].
  - intros i r Hr. destruct (inv_result0 i r Hr) as [H1 H2]. split; [done|]. destruct (Hst i) as [->|[[_ Ho] _]]; [done|congruence].
  - intros i Hi. apply Hopen in Hi. destruct (inv_open0 i Hi) as [H1 H2]. split.
    + destruct (Hwork i) as [->|[_ [r Hr]]]; [done|]. destruct Hi as [_ Hi]. congruence.
    + destruct (Hst i) as [->|[_ ->]]; [done|by right].
  - intros i. destruct (inv_work0 i) as [H1 H2]. split; [destruct (Hwork i) as [?|[? _]]; lia|]. intros H.
    destruct H2 as [H2 H3]; [destruct (Hwork i) as [?|[? _]]; lia|]. split; [done|]. intros r Hr. specialize (H3 r Hr).
    unfold stopped_status in *. destruct (Hst i) as [->|[[_ Ho] _]]; [done|congruence].
  - destruct inv_future0 as [H1 H2]. split.
    + intros i f Hf. destruct (Hfu i f Hf) as [Hf'|Hf']; [by apply H1|done].
    + intros i f [Hf|Hf]%Hpool; [by apply j_future0|by apply H2].
  - intros i. specialize (inv_stop0 i). specialize (Hstop i). rewrite (cnt_perm _ _ _ Hp'), cnt_app. rewrite (cnt_perm _ _ _ Hp), cnt_app in inv_stop0. lia.
  - destruct inv_stopped0 as [H1 H2]. split.
    + intros t r [Hr|Hr]%Hpool; [by apply j_stop0|by apply H1].
    + intros t r Hr. destruct (Hev t r Hr); [by apply H2|done].
  - rewrite (cnt_perm _ _ _ Hp'), cnt_app. rewrite (cnt_perm _ _ _ Hp), cnt_app in inv_closer0. lia.
  - intros Hs i Hi. apply Hopen in Hi. destruct (inv_shutdown0 Hs i Hi) as (ids & reason & H1 & H2). rewrite Hp in H1. apply elem_of_app in H1 as [H1|H1].
    + destruct (Hca i ids reason Hi H1 H2) as (ids' & reason' & H3 & H4). exists ids', reason'. rewrite Hp', elem_of_app. auto.
    + exists ids, reason. rewrite Hp', elem_of_app. auto.
  - destruct inv_known0 as [H1 H2]. split.
    + intros i x Hx. destruct (Hst i) as [E|[[? _] _]]; [|done]. rewrite E in Hx. by eapply H1.
    + intros ids reason i [Hi|Hi]%Hpool; [by eapply j_cancel0|by eapply H2].
Qed.

(** A step that settles the task [t] with [r]. *)
Lemma inv_settles now s s' t r rem add W :
  Inv now s → open_task (t_id t) s → pool s ≡ₚ rem ++ W → pool s' ≡ₚ add ++ W →
  tasks s' = tasks s → results s' = od_set (t_id t) r (results s) → statuses s' = od_set (t_id t) (r_status r) (statuses s) →
  started_at_ms s' = started_at_ms s → is_shutdown s' = is_shutdown s → emitted s' = emitted s →
  (∀ i f, od_get i (futures s') = Some f → od_get i (futures s) = Some f ∨ future_ok (results s') i f) →
  (∀ i, (cnt (works i) add + queued_future i s' <= cnt (works i) rem + queued_future i s)%nat ∧
        (i ≠ t_id t → (cnt (works i) add + queued_future i s' = cnt (works i) rem + queued_future i s)%nat)) →
  ((0 < cnt (works (t_id t)) add + cnt (works (t_id t)) W + queued_future (t_id t) s')%nat → r_status r = cancelled ∨ r_status r = timeout) →
  (∀ i, cnt (stops i) add = (if bool_decide (t_id t = i) then 1 else 0) ∧ cnt (stops i) rem = 0)%nat →
  Joins now s (results s') add →
  (cnt closer add <= cnt closer rem)%nat →
  (∀ i ids reason, open_task i s' → CancelAll ids reason ∈ rem → i ∈ ids → ∃ ids' reason', CancelAll ids' reason' ∈ add ∧ i ∈ ids') →
  Inv now s'.
Proof.
  intros [] [Ht0 Hr0] Hp Hp' E1 E2 E3 E4 E5 E6 Hfu Hw Hwt Hstop [] Hcl Hca.
  assert (∀ e, e ∈ pool s' → e ∈ add ∨ e ∈ pool s) as Hpool.
  { intros e. rewrite Hp', Hp, !elem_of_app. naive_solver. }
  assert (∀ i, (work i s' <= work i s)%nat ∧ (i ≠ t_id t → work i s' = work i s)) as Hwork.
  { intros i. destruct (Hw i) as [H1 H2]. unfold work. rewrite (cnt_perm _ _ _ Hp), (cnt_perm _ _ _ Hp'), !cnt_app. split; [lia|]. intros Hi. specialize (H2 Hi). lia. }
  assert (∀ i x, od_get i (results s) = Some x → od_get i (results s') = Some x) as Hmono.
  { intros i x Hx. rewrite E2, od_get_set. destruct (decide (t_id t = i)) as [<-|]; [congruence|done]. }
  assert (∀ i, open_task i s' → open_task i s ∧ i ≠ t_id t) as Hopen.
  { intros i [H1 H2]. rewrite E1 in H1. rewrite E2, od_get_set in H2. destruct (decide (t_id t = i)) as [<-|]; [done|]. split; [done|congruence]. }
  split; rewrite ?E1, ?E4, ?E5; try done.
  - intros e t' [He|He]%Hpool Ht; [by eapply j_task0|by eapply inv_effect0].
  - destruct inv_clock0 as (H1 & H2 & H3). split; [done|]. split; [done|]. intros t' z [Hz|Hz]%Hpool; [by eapply j_clock0|by eapply H3].
  - intros i x. rewrite E2, E3, !od_get_set. destruct (decide (t_id t = i)) as [<-|]; [by intros [= <-]|apply inv_result0].
  - intros i Hi. destruct (Hopen i Hi) as [Ho Hne]. destruct (inv_open0 i Ho) as [H1 H2]. rewrite E3, od_get_set, decide_False by done.
    split; [|done]. destruct (Hwork i) as [_ Hw']. by rewrite Hw'.
  - intros i. destruct (inv_work0 i) as [H1 H2]. destruct (Hwork i) as [Hle Heq]. split; [lia|]. intros H. destruct (decide (i = t_id t)) as [->|Hne].
    + split; [done|]. intros x _. unfold stopped_status. rewrite E3, od_get_set, decide_True by done.
      unfold work in H. rewrite (cnt_perm _ _ _ Hp'), cnt_app in H. destruct Hwt as [-> | ->]; [lia|done..].
    + rewrite Heq in H by done. destruct (H2 H) as [H3 H4]. split; [done|]. intros x Hx. rewrite E2, od_get_set, decide_False in Hx by done.
      specialize (H4 x Hx). unfold stopped_status in *. by rewrite E3, od_get_set, decide_False by done.
  - destruct inv_future0 as [H1 H2]. split.
    + intros i f Hf. destruct (Hfu i f Hf) as [Hf'|Hf']; [|done]. specialize (H1 i f Hf'). destruct f; try done; [by apply Hmono|destruct H1 as [x Hx]; exists x; by apply Hmono].
    + intros i f [Hf|Hf]%Hpool; [by apply j_future0|]. destruct (H2 i f Hf) as (x & -> & Hx). exists x. split; [done|by apply Hmono].
  - intros i. specialize (inv_stop0 i). destruct (Hstop i) as [H1 H2]. rewrite E6, (cnt_perm _ _ _ Hp'), cnt_app. rewrite (cnt_perm _ _ _ Hp), cnt_app in inv_stop0.
    unfold mem in *. rewrite E2, od_get_set. destruct (decide (t_id t = i)) as [<-|Hne].
    + rewrite bool_decide_true in H1 by done. rewrite Hr0 in inv_stop0. lia.
    + rewrite bool_decide_false in H1 by done. lia.
  - destruct inv_stopped0 as [H1 H2]. rewrite E6. split; intros t' x.
    + intros [Hr|Hr]%Hpool; [by apply j_stop0|by apply Hmono, H1].
    + intros Hr. by apply Hmono, H2.
  - rewrite (cnt_perm _ _ _ Hp'), cnt_app. rewrite (cnt_perm _ _ _ Hp), cnt_app in inv_closer0. lia.
  - intros Hs i Hi. destruct (Hopen i Hi) as [Ho Hne]. destruct (inv_shutdown0 Hs i Ho) as (ids & reason & H1 & H2). rewrite Hp in H1. apply elem_of_app in H1 as [H1|H1].
    + destruct (Hca i ids reason Hi H1 H2) as (ids' & reason' & H3 & H4). exists ids', reason'. rewrite Hp', elem_of_app. auto.
    + exists ids, reason. rewrite Hp', elem_of_app. auto.
  - destruct inv_known0 as [H1 H2]. split.
    + intros i x. rewrite E3, od_get_set. destruct (decide (t_id t = i)) as [<-|]; [done|apply H1].
    + intros ids reason i [Hi|Hi]%Hpool; [by eapply j_cancel0|by eapply H2].
Qed.

(** ** The steps *)

Definition quiet (e : effect) : bool :=
  match e with
  | Publish _ _ _ _ | EmitStart _ | ControlCancel _ _ _ | BackendCancel _ | AttachHandle _ | SteerHandle _ _ | Deliver _ _ | EmitSteer _
  | PublishShutdown => true
  | _ => false
  end.
Definition quiet_event (e : event) : bool := match e with SubagentStop _ _ => false | _ => true end.

Lemma quiet_cnt (f : effect → bool) l : (∀ e, quiet e = true → f e = false) → Forall (λ e, quiet e = true) l → cnt f l = 0%nat.
Proof. intros Hf Hl. apply cnt_zero. intros e He. apply Hf. by eapply Forall_forall in Hl. Qed.

Lemma quiet_works i e : quiet e = true → works i e = false.
Proof. by destruct e. Qed.
Lemma quiet_stops i e : quiet e = true → stops i e = false.
Proof. by destruct e. Qed.
Lemma quiet_closer e : quiet e = true → closer e = false.
Proof. by destruct e. Qed.

Lemma quiet_joins now s rs l : Forall (λ e, quiet e = true) l → Joins now s rs l.
Proof.
  intros Hl. assert (∀ e, e ∈ l → quiet e = true) as H by (intros e He; by eapply Forall_forall in Hl).
  split; [intros e t He Ht; specialize (H e He); by destruct e|intros * He; by specialize (H _ He)..].
Qed.

(** A step that only views, controls and reports. *)
Lemma inv_quiet now s s' rem add W ev :
  Inv now s → pool s ≡ₚ rem ++ W → pool s' ≡ₚ add ++ W → Forall (λ e, quiet e = true) rem → Forall (λ e, quiet e = true) add →
  tasks s' = tasks s → futures s' = futures s → results s' = results s → statuses s' = statuses s → started_at_ms s' = started_at_ms s →
  is_shutdown s' = is_shutdown s → emitted s' = emitted s ++ ev → Forall (λ e, quiet_event e = true) ev → Inv now s'.
Proof.
  intros Hi Hp Hp' Hrem Hadd E1 E2 E3 E4 E5 E6 E7 Hev.
  assert (∀ e, e ∈ ev → quiet_event e = true) as Hq by (intros e He; by eapply Forall_forall in Hev).
  apply (inv_keep now s _ rem add W); try done.
  - intros i. left. by rewrite E4.
  - intros i f. rewrite E2. auto.
  - intros i. left. unfold queued_future. rewrite E2, !(quiet_cnt (works i)) by (done || apply quiet_works). done.
  - intros i. rewrite E7, cnt_app, !(quiet_cnt (stops i)) by (done || apply quiet_stops).
    rewrite (cnt_zero _ ev); [lia|]. intros e He. specialize (Hq e He). by destruct e.
  - intros t r. rewrite E7, elem_of_app. intros [?|He]; [by left|]. by specialize (Hq _ He).
  - by apply quiet_joins.
  - rewrite !(quiet_cnt closer) by (done || apply quiet_closer). done.
  - intros i ids reason _ He. eapply Forall_forall in Hrem; [|exact He]. done.
Qed.

Lemma inv_started now s t : Inv now s → 0 <= default now (od_get t (started_at_ms s)) <= now.
Proof. intros Hi. destruct (inv_clock _ _ Hi) as (H1 & H2 & _). destruct (od_get t (started_at_ms s)) as [z|] eqn:E; cbn; [by eapply H2|lia]. Qed.

Lemma make_result_ok t status summary errors started now : 0 <= started <= now →
  ∃ r, make_result t status summary errors started now = Ok r ∧ r_status r = status.
Proof.
  intros H. unfold make_result, _validate_timestamps. rewrite (proj2 (Z.ltb_ge started 0)), (proj2 (Z.ltb_ge now 0)), (proj2 (Z.ltb_ge now started)) by lia.
  rewrite andb_false_r. cbn. eexists. split; reflexivity.
Qed.

Lemma od_set_same {K V} `{EqDecision K} (i : K) (v : V) d : od_get i d = Some v → od_set i v d = d.
Proof.
  induction d as [|[j w] d IH]; [done|]. cbn. destruct (decide (j = i)) as [->|]; [by intros [= ->]|]. intros H. by rewrite IH.
Qed.

(** An effect that carries a task to its result: the task is known, waits nowhere else, and has no
    result unless it was stopped. *)
Lemma carries now s e t W : Inv now s → pool s ≡ₚ e :: W → task_of e = Some t →
  od_get (t_id t) (tasks s) = Some t ∧ queued_future (t_id t) s = 0%nat ∧ cnt (works (t_id t)) W = 0%nat ∧
  ∀ r, od_get (t_id t) (results s) = Some r → stopped_status (t_id t) s = true.
Proof.
  intros Hi Hp Ht. assert (works (t_id t) e = true) as Hw by (unfold works; rewrite Ht; by apply bool_decide_true).
  destruct (inv_work _ _ Hi (t_id t)) as [H1 H2]. unfold work in *. rewrite (cnt_perm _ _ _ Hp), cnt_cons, Hw in *.
  split; [eapply (inv_effect _ _ Hi); [rewrite Hp; by left|done]|]. split; [lia|]. split; [lia|]. apply H2. lia.
Qed.

Lemma works_other i e t : task_of e = Some t → works i e = bool_decide (t_id t = i).
Proof. unfold works. by intros ->. Qed.

Lemma queued_set i j f s : queued_future j (set_futures (od_set i f) s) = if decide (i = j) then (match f with Pending => 1 | _ => 0 end)%nat else queued_future j s.
Proof. unfold queued_future. cbn. rewrite od_get_set. by destruct (decide (i = j)). Qed.

Section Effect.
Context (c : Config) (now : Z) (s : Supervisor) (W : list effect) (f : list (list effect) → list (list effect)).
Hypothesis Hinv : Inv now s.

Lemma submit_inv t : pool s ≡ₚ Submit t :: W → pool (with_threads f (submit t s)) ≡ₚ W → Inv now (with_threads f (submit t s)).
Proof.
  intros Hp Hp'. destruct (carries now s (Submit t) t W Hinv Hp eq_refl) as (Ht & Hq & Hw & Hs). revert Hp'. unfold submit.
  destruct (mem (t_id t) (results s)) eqn:Em; intros Hp'.
  - apply (inv_keep now s _ [Submit t] [] W); try done; try apply joins_nil.
    + intros i. by left.
    + intros i g. by left.
    + intros i. rewrite cnt_cons, !cnt_nil, (works_other i (Submit t) t) by done. case_bool_decide as E; [subst i|]; [right|by left].
      split; [cbn; unfold queued_future; cbn; lia|]. by apply mem_some.
    + intros t' r ?. by left.
    + by intros i ids reason _ [=]%list_elem_of_singleton.
  - apply (inv_keep now s _ [Submit t] [] W); try done; try apply joins_nil.
    + intros i. by left.
    + intros i g. cbn. rewrite od_get_set. destruct (decide (t_id t = i)) as [<-|]; [intros [= <-]; by right|by left].
    + intros i. left. rewrite cnt_cons, !cnt_nil, (works_other i (Submit t) t) by done.
      change (queued_future i (with_threads f (set_futures (od_set (t_id t) Pending) s))) with (queued_future i (set_futures (od_set (t_id t) Pending) s)).
      rewrite queued_set. case_bool_decide as E; [subst i; rewrite decide_True by done; lia|by rewrite decide_False].
    + intros t' r ?. by left.
    + by intros i ids reason _ [=]%list_elem_of_singleton.
Qed.

Lemma emit_stop_inv t r : pool s ≡ₚ EmitStop t r :: W → pool (with_threads f (emit (SubagentStop t r) s)) ≡ₚ W →
  Inv now (with_threads f (emit (SubagentStop t r) s)).
Proof.
  intros Hp Hp'. apply (inv_keep now s _ [EmitStop t r] [] W); try done; try apply joins_nil.
  - intros i. by left.
  - intros i g. by left.
  - intros i. by left.
  - intros i. cbn. rewrite cnt_app, !cnt_cons, !cnt_nil. unfold stops, stop_event. lia.
  - intros t' r'. cbn. rewrite elem_of_app, list_elem_of_singleton. intros [?|[= -> ->]]; [by left|right].
    apply (proj1 (inv_stopped _ _ Hinv)). rewrite Hp. by left.
  - by intros i ids reason _ [=]%list_elem_of_singleton.
Qed.

Lemma set_future_inv i g : pool s ≡ₚ SetFuture i g :: W → pool (with_threads f (set_futures (od_set i g) s)) ≡ₚ W →
  Inv now (with_threads f (set_futures (od_set i g) s)).
Proof.
  intros Hp Hp'. destruct (proj2 (inv_future _ _ Hinv) i g) as (r & -> & Hr); [rewrite Hp; by left|].
  apply (inv_keep now s _ [SetFuture i (Finished r)] [] W); try done; try apply joins_nil.
  - intros j. by left.
  - intros j h. cbn. rewrite od_get_set. destruct (decide (i = j)) as [<-|]; [intros [= <-]; by right|by left].
  - intros j. change (queued_future j (with_threads f (set_futures (od_set i (Finished r)) s))) with (queued_future j (set_futures (od_set i (Finished r)) s)).
    rewrite queued_set. destruct (decide (i = j)) as [<-|]; [right; split; [rewrite cnt_cons, !cnt_nil; cbn; lia|by exists r]|by left].
  - intros t x ?. by left.
  - by intros j ids reason _ [=]%list_elem_of_singleton.
Qed.

(** The worker takes the lock for the first time. *)
Lemma run_starts_inv t : pool s ≡ₚ RunStarts t :: W → pool (with_threads f (run_starts t now s).2) ≡ₚ (run_starts t now s).1 ++ W →
  Inv now (with_threads f (run_starts t now s).2).
Proof.
  intros Hp. destruct (carries now s (RunStarts t) t W Hinv Hp eq_refl) as (Ht & Hq & Hw & Hs). unfold run_starts.
  destruct (od_get (t_id t) (results s)) as [existing|] eqn:Er.
  - rewrite (Hs existing) by done. cbn. intros Hp'. apply (inv_keep now s _ [RunStarts t] [SetFuture (t_id t) (Finished existing)] W); try done.
    + intros i. by left.
    + intros i g. by left.
    + intros i. rewrite !cnt_cons, !cnt_nil, (works_other i (RunStarts t) t) by done. case_bool_decide as E; [subst i|]; [right|by left].
      split; [cbn; unfold queued_future; cbn; lia|by exists existing].
    + intros t' r ?. by left.
    + split; try (by intros * ?%list_elem_of_singleton). { by intros e t' -> % list_elem_of_singleton. } intros i g [= -> ->]%list_elem_of_singleton. eauto.
    + by intros i ids reason _ [=]%list_elem_of_singleton.
  - cbn. set (started := default now (od_get (t_id t) (started_at_ms s))). intros Hp'.
    apply (inv_keep now s _ [RunStarts t] [Publish t running started None; RunBackend t started] W); try done.
    + intros i. cbn. rewrite od_get_set. destruct (decide (t_id t = i)) as [<-|]; [right|by left]. split; [|done]. by split.
    + intros i g. by left.
    + intros i. left. by rewrite !cnt_cons.
    + intros t' r ?. by left.
    + split.
      * intros e t' [->|[->|[]%elem_of_nil]%elem_of_cons]%elem_of_cons; [done|by intros [= <-]].
      * intros t' z [[=]|[[= -> ->]|[]%elem_of_nil]%elem_of_cons]%elem_of_cons. by apply inv_started.
      * by intros i g [[=]|[[=]|[]%elem_of_nil]%elem_of_cons]%elem_of_cons.
      * by intros i g [[=]|[[=]|[]%elem_of_nil]%elem_of_cons]%elem_of_cons.
      * by intros i g ? [[=]|[[=]|[]%elem_of_nil]%elem_of_cons]%elem_of_cons.
    + by intros i ids reason _ [=]%list_elem_of_singleton.
Qed.

Lemma run_result_total t started o : 0 <= started <= now → ∃ r, run_result c t started now o = Ok r.
Proof.
  intros H. assert (∀ text, ∃ r, make_result t failed text [text] started now = Ok r) as Hm.
  { intros text. destruct (make_result_ok t failed text [text] started now H) as (r & E & _). eauto. }
  unfold run_result. destruct o as [r|text]; [|apply Hm]. do 3 (destruct (negb _); [apply Hm|]). destruct (settle_typed_result c t r) as [r'|]; [eauto|apply Hm].
Qed.

Lemma run_backend_inv t started o r : pool s ≡ₚ RunBackend t started :: W → run_result c t started now o = Ok r →
  pool (with_threads f s) ≡ₚ SettleRun t started r :: W → Inv now (with_threads f s).
Proof.
  intros Hp _ Hp'. destruct (carries now s _ t W Hinv Hp eq_refl) as (Ht & _).
  apply (inv_keep now s _ [RunBackend t started] [SettleRun t started r] W); try done.
  - intros i. by left.
  - intros i g. by left.
  - intros i. left. by rewrite !cnt_cons.
  - intros t' x ?. by left.
  - split; try (by intros * ?%list_elem_of_singleton). by intros e t' ->%list_elem_of_singleton [= <-].
  - by intros i ids reason _ [=]%list_elem_of_singleton.
Qed.

(** The worker settles its task, unless it was stopped. *)
Lemma run_settles_inv t started r : pool s ≡ₚ SettleRun t started r :: W →
  pool (with_threads f (run_settles t started r s).2) ≡ₚ (run_settles t started r s).1 ++ W → Inv now (with_threads f (run_settles t started r s).2).
Proof.
  intros Hp. destruct (carries now s _ t W Hinv Hp eq_refl) as (Ht & Hq & Hw & Hs). unfold run_settles.
  destruct (od_get (t_id t) (results s)) as [existing|] eqn:Er.
  - rewrite (Hs existing) by done. cbn. intros Hp'. apply (inv_keep now s _ [SettleRun t started r] [SetFuture (t_id t) (Finished existing)] W); try done.
    + intros i. by left.
    + intros i g. by left.
    + intros i. rewrite !cnt_cons, !cnt_nil, (works_other i (SettleRun t started r) t) by done. case_bool_decide as E; [subst i|]; [right|by left].
      split; [cbn; unfold queued_future; cbn; lia|by exists existing].
    + intros t' x ?. by left.
    + split; try (by intros * ?%list_elem_of_singleton). { by intros e t' ->%list_elem_of_singleton. } intros i g [= -> ->]%list_elem_of_singleton. eauto.
    + by intros i ids reason _ [=]%list_elem_of_singleton.
  - cbn [fst snd]. set (add := [Publish t (r_status r) started (Some r); EmitStop t r; SetFuture (t_id t) (Finished r)]). intros Hp'.
    assert (∀ i, cnt (works i) add = 0%nat ∧ cnt (stops i) add = if bool_decide (t_id t = i) then 1%nat else 0%nat) as Hadd.
    { intros i. unfold add. rewrite !cnt_cons, !cnt_nil. cbn. case_bool_decide; lia. }
    apply (inv_settles now s _ t r [SettleRun t started r] add W); try done.
    + cbn. by rewrite app_nil_r.
    + intros i g. by left.
    + intros i. destruct (Hadd i) as [-> _]. rewrite cnt_cons, cnt_nil, (works_other i (SettleRun t started r) t) by done.
      change (queued_future i (with_threads f (drop_control (t_id t) (settle (t_id t) r s)))) with (queued_future i s).
      split; [lia|]. intros Hne. rewrite bool_decide_false by done. lia.
    + destruct (Hadd (t_id t)) as [-> _].
      change (queued_future (t_id t) (with_threads f (drop_control (t_id t) (settle (t_id t) r s)))) with (queued_future (t_id t) s). lia.
    + intros i. destruct (Hadd i) as [_ ->]. by rewrite cnt_cons, cnt_nil.
    + split; unfold add; intros *; rewrite !elem_of_cons, elem_of_nil.
      * by intros [->|[->|[->|[]]]].
      * by intros [?|[?|[?|[]]]].
      * intros [?|[?|[[= -> ->]|[]]]]; try done. exists r. split; [done|]. cbn. by rewrite od_get_set, decide_True.
      * intros [?|[[= -> ->]|[?|[]]]]; try done. cbn. by rewrite od_get_set, decide_True.
      * by intros [?|[?|[?|[]]]].
    + by intros i ids reason _ [=]%list_elem_of_singleton.
Qed.
End Effect.

Lemma future_cancel_spec i fs j : od_get j (future_cancel i fs) = od_get j fs ∨ j = i ∧ od_get i fs = Some Pending ∧ od_get j (future_cancel i fs) = Some Withdrawn.
Proof.
  unfold future_cancel. destruct (od_get i fs) as [[]|] eqn:E; try by left. rewrite od_get_set.
  destruct (decide (i = j)) as [<-|]; [by right|by left].
Qed.

(** A task is stopped by a cancel or a timeout: [fs] are the futures that are left. *)
Lemma inv_stop_task now s s' t r fs rem extra W effects :
  Inv now s → open_task (t_id t) s → pool s ≡ₚ rem ++ W → pool s' ≡ₚ (effects ++ extra) ++ W → fs = futures s ∨ fs = future_cancel (t_id t) (futures s) →
  tasks s' = tasks s → results s' = od_set (t_id t) r (results s) → statuses s' = od_set (t_id t) (r_status r) (statuses s) →
  futures s' = fs → started_at_ms s' = started_at_ms s → is_shutdown s' = is_shutdown s → emitted s' = emitted s →
  r_status r = cancelled ∨ r_status r = timeout →
  (∃ quiets, Forall (λ e, quiet e = true) quiets ∧ effects = quiets ++ [EmitStop t r]) →
  (rem = [] ∧ extra = []) ∨ (∃ ids reason, rem = [CancelAll (t_id t :: ids) reason] ∧ extra = [CancelAll ids reason]) →
  Inv now s'.
Proof.
  intros Hinv Ho Hp Hp' Hfs E1 E2 E3 E4 E5 E6 E7 Hst (quiets & Hq & ->) Hex.
  assert (∀ e, e ∈ quiets → quiet e = true) as Hquiet by (intros e He; by eapply Forall_forall in Hq).
  assert (∀ i, cnt (works i) rem = 0%nat ∧ cnt (works i) extra = 0%nat ∧ cnt (stops i) rem = 0%nat ∧ cnt (stops i) extra = 0%nat ∧ cnt closer extra = cnt closer rem) as Hx.
  { intros i. by destruct Hex as [[-> ->]|(ids & reason & -> & ->)]. }
  assert (∀ e, e ∈ (quiets ++ [EmitStop t r]) ++ extra → quiet e = true ∨ e = EmitStop t r ∨ (∃ ids reason, e = CancelAll ids reason ∧ rem = [CancelAll (t_id t :: ids) reason])) as Hadd.
  { intros e. rewrite !elem_of_app, list_elem_of_singleton. intros [[?|?]|He]; [left; by apply Hquiet|auto|].
    destruct Hex as [[-> ->]|(ids & reason & -> & ->)]; [by apply elem_of_nil in He|]. apply list_elem_of_singleton in He as ->. right. right. eauto. }
  assert (∀ i, (queued_future i s' <= queued_future i s)%nat ∧ (i ≠ t_id t → queued_future i s' = queued_future i s)) as Hqf.
  { intros i. unfold queued_future. rewrite E4. destruct Hfs as [-> | ->]; [done|].
    destruct (future_cancel_spec (t_id t) (futures s) i) as [->|(-> & -> & ->)]; [done|]. split; [lia|done]. }
  apply (inv_settles now s s' t r rem ((quiets ++ [EmitStop t r]) ++ extra) W); try done.
  - intros i f. rewrite E4. destruct Hfs as [-> | ->]; [by left|].
    destruct (future_cancel_spec (t_id t) (futures s) i) as [->|(-> & _ & ->)]; [by left|]. intros [= <-]. right. cbn. rewrite E2, od_get_set, decide_True by done. eauto.
  - intros i. destruct (Hx i) as (H1 & H2 & _). destruct (Hqf i) as [H3 H4].
    rewrite !cnt_app, H1, H2, (quiet_cnt (works i) quiets) by (done || apply quiet_works). rewrite cnt_cons, cnt_nil. cbn. split; [lia|]. intros Hi. rewrite H4 by done. lia.
  - intros i. destruct (Hx i) as (_ & _ & H3 & H4 & _). rewrite !cnt_app, H3, H4, (quiet_cnt (stops i) quiets) by (done || apply quiet_stops).
    rewrite cnt_cons, cnt_nil. cbn. case_bool_decide; lia.
  - split.
    + intros e t' [He|[->|(ids & reason & -> & _)]]%Hadd; [by destruct e|done..].
    + by intros t' z [He|[?|(ids & reason & ? & _)]]%Hadd.
    + by intros i g [He|[?|(ids & reason & ? & _)]]%Hadd.
    + intros t' x [He|[[= -> ->]|(ids & reason & ? & _)]]%Hadd; [done| |done]. by rewrite E2, od_get_set, decide_True.
    + intros ids reason i [He|[?|(ids' & reason' & [= <- <-] & Hr)]]%Hadd Hi; [done..|].
      apply (proj2 (inv_known _ _ Hinv) (t_id t :: ids) reason); [rewrite Hp, Hr; by left|by right].
  - destruct (Hx (t_id t)) as (_ & _ & _ & _ & H5). rewrite !cnt_app, H5, (quiet_cnt closer quiets) by (done || apply quiet_closer). rewrite cnt_cons, cnt_nil. cbn. lia.
  - intros i ids reason [_ Hi] Hin Hids. destruct Hex as [[-> ->]|(ids' & reason' & -> & ->)]; [by apply elem_of_nil in Hin|].
    apply list_elem_of_singleton in Hin as [= -> ->]. apply elem_of_cons in Hids as [->|Hids].
    + by rewrite E2, od_get_set, decide_True in Hi.
    + exists ids', reason'. split; [|done]. rewrite elem_of_app. right. by apply list_elem_of_singleton.
Qed.

(** What [cancel] does with a task that is known. *)
Lemma cancel_eq now s i reason t : Inv now s → od_get i (tasks s) = Some t →
  match od_get i (results s) with
  | Some existing => cancel i reason now s = (Ok (existing, []), s)
  | None => ∃ r started, r_status r = cancelled ∧ cancel i reason now s =
      (Ok (r, [ControlCancel t reason true; Publish t cancelled started (Some r); BackendCancel i; EmitStop t r]), settle i r (set_futures (future_cancel i) s))
  end.
Proof.
  intros Hinv Ht. unfold cancel. rewrite Ht. destruct (od_get i (results s)) as [r|]; [done|].
  destruct (make_result_ok t cancelled "Subagent cancelled." (if bool_decide (reason = ""%string) then [] else [reason]) _ now (inv_started now s i Hinv)) as (r & E & Hr).
  exists r, (default now (od_get i (started_at_ms s))). split; [done|]. change (started_at_ms (set_futures (future_cancel i) s)) with (started_at_ms s). by rewrite E.
Qed.

Lemma times_out_eq now s i text t : Inv now s → od_get i (tasks s) = Some t →
  match od_get i (results s) with
  | Some existing => wait_times_out i text now s = (Ok (existing, []), s)
  | None => ∃ r started, r_status r = timeout ∧ wait_times_out i text now s =
      (Ok (r, [ControlCancel t text false; Publish t timeout started (Some r); EmitStop t r]), settle i r s)
  end.
Proof.
  intros Hinv Ht. unfold wait_times_out. rewrite Ht. destruct (od_get i (results s)) as [r|]; [done|].
  destruct (make_result_ok t timeout "Subagent timed out." [text] _ now (inv_started now s i Hinv)) as (r & E & Hr). eexists r, _. split; [done|]. by rewrite E.
Qed.

Lemma od_get_map {K V V'} `{EqDecision K} (g : V → V') (i : K) (d : list (K * V)) : od_get i (List.map (λ p, (p.1, g p.2)) d) = g <$> od_get i d.
Proof. induction d as [|[j v] d IH]; [done|]. cbn. by destruct (decide (j = i)). Qed.

(** When the executor is shut down, every task has its result. *)
Lemma nothing_open now s W i : Inv now s → pool s ≡ₚ ExecutorShutdown :: W → ¬ open_task i s.
Proof.
  intros Hinv Hp Ho. pose proof (inv_closer _ _ Hinv) as Hc. rewrite (cnt_perm _ _ _ Hp), cnt_cons in Hc. cbn in Hc.
  destruct (is_shutdown s) eqn:Es; [|lia]. destruct (inv_shutdown _ _ Hinv Es i Ho) as (ids & reason & Hin & _).
  rewrite Hp in Hin. apply elem_of_cons in Hin as [[=]|Hin]. pose proof (cnt_pos closer _ _ Hin eq_refl). lia.
Qed.

Lemma executor_shutdown_inv c now s W f o : Inv now s → pool s ≡ₚ ExecutorShutdown :: W →
  let s' := with_threads f (run_effect c ExecutorShutdown o now s).2 in pool s' ≡ₚ W → Inv now s'.
Proof.
  intros Hinv Hp s' Hp'.
  assert (∀ i, od_get i (futures s') = withdraw <$> od_get i (futures s)) as Hf by (intros i; exact (od_get_map withdraw i (futures s))).
  assert (∀ i, od_get i (futures s) = Some Pending → is_Some (od_get i (results s))) as Hset.
  { intros i Hi. destruct (od_get i (results s)) as [r|] eqn:Er; [by exists r|]. destruct (nothing_open now s W i Hinv Hp). split; [|done].
    destruct (inv_work _ _ Hinv i) as [H1 H2]. apply H2. unfold work, queued_future in *. rewrite Hi in *. lia. }
  apply (inv_keep now s s' [ExecutorShutdown] [] W); try done; try apply joins_nil.
  - intros i. by left.
  - intros i h. rewrite Hf. destruct (od_get i (futures s)) as [h0|] eqn:E; [|done]. cbn. intros [= <-]. destruct h0; try by left. right. by apply Hset.
  - intros i. rewrite cnt_cons, !cnt_nil. unfold queued_future. rewrite Hf. destruct (od_get i (futures s)) as [[]|] eqn:E; cbn; try by left.
    right. split; [lia|by apply Hset].
  - intros t r ?. by left.
  - rewrite cnt_cons, !cnt_nil. lia.
  - by intros i ids reason _ [=]%list_elem_of_singleton.
Qed.

Lemma cancel_all_inv c now s W f o ids reason : Inv now s → pool s ≡ₚ CancelAll ids reason :: W →
  let s' := with_threads f (run_effect c (CancelAll ids reason) o now s).2 in pool s' ≡ₚ (run_effect c (CancelAll ids reason) o now s).1 ++ W → Inv now s'.
Proof.
  intros Hinv Hp. cbn zeta. destruct ids as [|i ids]; [|cbn [run_effect]; destruct (mem i (results s)) eqn:Em].
  - cbn. intros Hp'. apply (inv_keep now s _ [CancelAll [] reason] [ExecutorShutdown; PublishShutdown] W); try done.
    + intros i. by left.
    + intros i g. by left.
    + intros i. by left.
    + intros t r ?. by left.
    + split; intros *; rewrite !elem_of_cons, elem_of_nil; [by intros [->|[->|[]]]|by intros [?|[?|[]]]..].
    + intros i ids reason' _ [= -> ->]%list_elem_of_singleton. by intros ?%elem_of_nil.
  - cbn. intros Hp'. apply (inv_keep now s _ [CancelAll (i :: ids) reason] [CancelAll ids reason] W); try done.
    + intros j. by left.
    + intros j g. by left.
    + intros j. by left.
    + intros t r ?. by left.
    + split; try (by intros * ?%list_elem_of_singleton). { by intros e t' ->%list_elem_of_singleton. }
      intros ids' reason' j [= -> ->]%list_elem_of_singleton Hj. apply (proj2 (inv_known _ _ Hinv) (i :: ids) reason); [rewrite Hp; by left|by right].
    + intros j ids' reason' [_ Ho] [= -> ->]%list_elem_of_singleton [->|Hj]%elem_of_cons; [unfold mem in Em; by rewrite Ho in Em|].
      exists ids, reason. by rewrite list_elem_of_singleton.
  - destruct (proj2 (inv_known _ _ Hinv) (i :: ids) reason i) as [t Ht]; [rewrite Hp; by left|by left|].
    pose proof (cancel_eq now s i reason t Hinv Ht) as E. pose proof (inv_task _ _ Hinv i t Ht) as <-.
    destruct (od_get (t_id t) (results s)) as [x|] eqn:Er; [unfold mem in Em; by rewrite Er in Em|]. destruct E as (r & started & Hr & ->). cbn [fst snd].
    intros Hp'. eapply (inv_stop_task now s _ t r _ [CancelAll (t_id t :: ids) reason] [CancelAll ids reason] W); try done; [by right|by left| |right; eauto].
    exists [ControlCancel t reason true; Publish t cancelled started (Some r); BackendCancel (t_id t)]. split; [by repeat constructor|done].
Qed.

(** The parts of a state that the supervisor's lock protects. *)
Definition same_core (s s' : Supervisor) : Prop :=
  tasks s' = tasks s ∧ futures s' = futures s ∧ results s' = results s ∧ statuses s' = statuses s ∧ started_at_ms s' = started_at_ms s ∧
  is_shutdown s' = is_shutdown s ∧ threads s' = threads s.

Lemma quiet_effect c e o now s : quiet e = true →
  Forall (λ e, quiet e = true) (run_effect c e o now s).1 ∧ same_core s (run_effect c e o now s).2 ∧
  ∃ ev, emitted (run_effect c e o now s).2 = emitted s ++ ev ∧ Forall (λ e, quiet_event e = true) ev.
Proof.
  unfold same_core. destruct e; try done; intros _; cbn.
  1, 4, 7, 9: split; [by apply Forall_nil|]; split; [done|]; exists []; cbn; by rewrite app_nil_r.
  - split; [by apply Forall_nil|]. split; [done|]. exists [SubagentStart t]. split; [done|]. by repeat constructor.
  - split; [by apply Forall_nil|]. destruct (mem (t_id t) (handles s) && emits); cbn; (split; [done|]).
    + exists [SubagentControl t "cancel"]. split; [by rewrite app_nil_r|]. by repeat constructor.
    + exists []. by rewrite app_nil_r.
  - split; [apply Forall_forall; by intros e (m & -> & _)%list_elem_of_fmap|]. split; [done|]. exists []. by rewrite app_nil_r.
  - unfold steer_handle. destruct (mem (t_id t) (handles s)); [|destruct (negb _)]; cbn.
    all: split; [by repeat constructor|split; [done|exists []; by rewrite app_nil_r]].
  - split; [by apply Forall_nil|]. split; [done|]. exists [SubagentControl t "steer"]. split; [done|]. by repeat constructor.
Qed.

(** Every effect of a thread. *)
Lemma effect_inv c now s W f e o : Inv now s → pool s ≡ₚ e :: W →
  let s' := with_threads f (run_effect c e o now s).2 in pool s' ≡ₚ (run_effect c e o now s).1 ++ W → Inv now s'.
Proof.
  intros Hinv Hp. destruct (quiet e) eqn:Hq.
  - destruct (quiet_effect c e o now s Hq) as (Hadd & (E1 & E2 & E3 & E4 & E5 & E6 & E7) & ev & E8 & Hev). intros s' Hp'.
    apply (inv_quiet now s s' [e] (run_effect c e o now s).1 W ev); try done. by repeat constructor.
  - destruct e; try done; cbn zeta.
    + by apply emit_stop_inv.
    + by apply submit_inv.
    + by apply run_starts_inv.
    + destruct (run_result_total c now t started o) as [r E]; [apply (proj2 (proj2 (inv_clock _ _ Hinv)) t started); rewrite Hp; by left|].
      cbn [run_effect]. rewrite E. by apply (run_backend_inv c now s W f Hinv t started o r).
    + by apply run_settles_inv.
    + by apply set_future_inv.
    + by apply cancel_all_inv.
    + by apply (executor_shutdown_inv c now s W f o Hinv Hp).
Qed.

(** ** The operations of the callers *)

(** A task joins. *)
Lemma inv_joins now s s' t : Inv now s → is_shutdown s = false → od_get (t_id t) (tasks s) = None →
  tasks s' = od_set (t_id t) t (tasks s) → futures s' = futures s → results s' = results s →
  statuses s' = od_set (t_id t) queued (statuses s) → started_at_ms s' = od_set (t_id t) now (started_at_ms s) →
  is_shutdown s' = false → emitted s' = emitted s →
  pool s' ≡ₚ [Publish t queued now None; EmitStart t; Submit t] ++ pool s → Inv now s'.
Proof.
  intros [] Es Et E1 E2 E3 E4 E5 E6 E7 Hp.
  assert (∀ i x, od_get i (tasks s) = Some x → t_id t ≠ i) as Hne by (intros i x Hx <-; congruence).
  assert (∀ i, is_Some (od_get i (tasks s)) → is_Some (od_get i (tasks s'))) as Hmono.
  { intros i [x Hx]. rewrite E1, od_get_set. destruct (decide (t_id t = i)); eauto. }
  assert (od_get (t_id t) (results s) = None) as Er.
  { destruct (od_get (t_id t) (results s)) as [r|] eqn:E; [|done]. destruct (inv_result0 _ _ E) as [[? ?] _]. congruence. }
  assert (work (t_id t) s = 0%nat) as Hw.
  { destruct (inv_work0 (t_id t)) as [H1 H2]. destruct (work (t_id t) s) as [|n]; [done|]. destruct H2 as [[? ?] _]; [lia|congruence]. }
  assert (∀ i, work i s' = if decide (t_id t = i) then 1%nat else work i s) as Hwork.
  { intros i. unfold work, queued_future in *. rewrite (cnt_perm _ _ _ Hp), cnt_app, !cnt_cons, cnt_nil, E2, (works_other i (Submit t) t) by done.
    cbn [works task_of]. destruct (decide (t_id t = i)) as [<-|Hi]; [rewrite bool_decide_true by done|rewrite bool_decide_false by done]; cbn; lia. }
  assert (∀ e, e ∈ pool s' → e ∈ pool s ∨ e = Submit t ∨ (∃ z, e = Publish t queued z None) ∨ e = EmitStart t) as Hpool.
  { intros e. rewrite Hp, elem_of_app, !elem_of_cons, elem_of_nil. intros [[?|[?|[?|[]]]]|?]; eauto. }
  split; rewrite ?E6; try done.
  - intros i x. rewrite E1, od_get_set. destruct (decide (t_id t = i)) as [<-|]; [by intros [= <-]|apply inv_task0].
  - intros e x [He|[->|[[z ->]| ->]]]%Hpool; [|intros [= <-]; by rewrite E1, od_get_set, decide_True|done..].
    intros Hx. pose proof (inv_effect0 e x He Hx) as H. rewrite E1, od_get_set, decide_False by by eapply Hne. done.
  - destruct inv_clock0 as (H1 & H2 & H3). split; [done|]. split.
    + intros i z. rewrite E5, od_get_set. destruct (decide (t_id t = i)); [intros [= <-]; lia|apply H2].
    + intros x z [He|[?|[[? ?]|?]]]%Hpool; [by eapply H3|done..].
  - intros i r. rewrite E3, E4. intros Hr. destruct (inv_result0 i r Hr) as [H1 H2]. split; [by apply Hmono|].
    rewrite od_get_set, decide_False; [done|]. destruct H1 as [x Hx]. by eapply Hne.
  - intros i [H1 H2]. rewrite Hwork, E4, od_get_set. rewrite E3 in H2. rewrite E1, od_get_set in H1. destruct (decide (t_id t = i)); [by split; [|left]|].
    by apply inv_open0.
  - intros i. rewrite Hwork, E3. destruct (decide (t_id t = i)) as [<-|Hi].
    + split; [done|]. intros _. split; [rewrite E1, od_get_set, decide_True by done; eauto|]. intros r. by rewrite Er.
    + destruct (inv_work0 i) as [H1 H2]. split; [done|]. intros H. destruct (H2 H) as [H3 H4]. split; [by apply Hmono|]. intros r Hr.
      specialize (H4 r Hr). unfold stopped_status in *. by rewrite E4, od_get_set, decide_False.
  - rewrite E2, E3. destruct inv_future0 as [H1 H2]. split; [done|]. intros i f [He|[?|[[? ?]|?]]]%Hpool; [by apply H2|done..].
  - intros i. rewrite E7, E3, (cnt_perm _ _ _ Hp), cnt_app, !cnt_cons, cnt_nil. apply inv_stop0.
  - rewrite E7, E3. destruct inv_stopped0 as [H1 H2]. split; [|done]. intros x r [He|[?|[[? ?]|?]]]%Hpool; [by apply H1|done..].
  - rewrite (cnt_perm _ _ _ Hp), cnt_app, !cnt_cons, cnt_nil. rewrite Es in inv_closer0. cbn. lia.
  - destruct inv_known0 as [H1 H2]. split.
    + intros i x. rewrite E4, od_get_set. destruct (decide (t_id t = i)) as [<-|]; [intros _; rewrite E1, od_get_set, decide_True by done; eauto|].
      intros Hx. by eapply Hmono, H1.
    + intros ids reason i [He|[?|[[? ?]|?]]]%Hpool Hi; [|done..]. by eapply Hmono, H2.
Qed.

Lemma spawn_inv c now t s s' : Inv now s → spawn c t now s = Ok s' → Inv now s'.
Proof.
  intros Hinv. unfold spawn. destruct (is_shutdown s) eqn:Es; [done|]. destruct (negb (bool_decide _)); [done|]. destruct (_ <? t_depth t); [done|].
  destruct (mem (t_id t) (tasks s)) eqn:Em; [done|]. destruct (_ <=? _); [done|]. intros [= <-].
  apply (inv_joins now s _ t); try done; [by unfold mem in Em; destruct (od_get _ _)|]. by rewrite pool_begin.
Qed.

(** A thread that only views, controls and reports. *)
Lemma begin_quiet now s effects : Inv now s → Forall (λ e, quiet e = true) effects → Inv now (begin effects s).
Proof.
  intros Hinv Hq. apply (inv_quiet now s _ [] effects (pool s) []); try done; [by rewrite pool_begin|]. cbn. by rewrite app_nil_r.
Qed.

(** The loop of [wait] and [get_result] store what the table holds already. *)
Lemma wait_stores_same now i r s : Inv now s → od_get i (futures s) = Some (Finished r) → wait_stores i r s = s.
Proof.
  intros Hinv Hf. pose proof (proj1 (inv_future _ _ Hinv) i _ Hf) as Hr. unfold wait_stores. rewrite od_set_same by done. by destruct s.
Qed.

Lemma get_result_same now i s : Inv now s → (get_result i s).2 = s.
Proof.
  intros Hinv. unfold get_result. destruct (od_get i (results s)); [done|]. destruct (od_get i (futures s)) as [[]|] eqn:E; try done. cbn.
  by eapply wait_stores_same.
Qed.

Lemma od_get_elem {K V} `{EqDecision K} (i : K) (x : V) (d : list (K * V)) : od_get i d = Some x → (i, x) ∈ d.
Proof. induction d as [|[j w] d IH]; [done|]. cbn. destruct (decide (j = i)) as [->|]; [intros [= ->]; by left|right; auto]. Qed.

Lemma shutdown_inv now reason s : Inv now s → Inv now (shutdown reason s).
Proof.
  intros Hinv. unfold shutdown. destruct (is_shutdown s) eqn:Es; [done|].
  set (open := List.filter _ _). set (s0 := {| backends := _ |}).
  pose proof (pool_begin [CancelAll open.*1 reason] s0) as Hp. change (pool s0) with (pool s) in Hp. set (s' := begin _ s0) in *.
  assert (∀ e, e ∈ pool s' → e = CancelAll open.*1 reason ∨ e ∈ pool s) as Hpool.
  { intros e. rewrite Hp, elem_of_app, list_elem_of_singleton. done. }
  destruct Hinv. unfold work in *.
  split; unfold work; rewrite ?(λ g, cnt_perm g _ _ Hp); try done.
  - intros e t [->|He]%Hpool Ht; [done|by eapply inv_effect0].
  - destruct inv_clock0 as (H1 & H2 & H3). split; [done|]. split; [done|]. intros t z [?|Hz]%Hpool; [done|by eapply H3].
  - intros i Hi. rewrite (cnt_perm _ _ _ Hp). by apply inv_open0.
  - intros i. rewrite (cnt_perm _ _ _ Hp). by apply inv_work0.
  - destruct inv_future0 as [H1 H2]. split; [done|]. intros i f [?|Hf]%Hpool; [done|by apply H2].
  - intros i. rewrite (cnt_perm _ _ _ Hp). by apply inv_stop0.
  - destruct inv_stopped0 as [H1 H2]. split; [|done]. intros t r [?|Hr]%Hpool; [done|by apply H1].
  - rewrite cnt_app, cnt_cons, cnt_nil. rewrite Es in inv_closer0. cbn. lia.
  - intros _ i Hi. exists open.*1, reason. split; [rewrite Hp; by left|]. destruct (inv_open0 i Hi) as [_ Hst].
    destruct Hst as [Hst|Hst]; apply od_get_elem in Hst.
    + apply list_elem_of_fmap. exists (i, queued). split; [done|]. apply list_elem_of_In, List.filter_In. split; [by apply list_elem_of_In|done].
    + apply list_elem_of_fmap. exists (i, running). split; [done|]. apply list_elem_of_In, List.filter_In. split; [by apply list_elem_of_In|done].
  - destruct inv_known0 as [H1 H2]. split; [done|]. intros ids r i [[= -> ->]|He]%Hpool Hi; [|by eapply H2].
    apply list_elem_of_fmap in Hi as ([j x] & -> & Hx). apply list_elem_of_In, List.filter_In in Hx as [Hx _]. apply list_elem_of_In in Hx.
    destruct (od_get j (statuses s)) as [y|] eqn:E; [by eapply H1|]. apply od_get_none in E. destruct E. apply list_elem_of_fmap. by exists (j, x).
Qed.

Lemma cancel_inv now i reason s : Inv now s →
  match cancel i reason now s with (Ok (_, effects), s') => Inv now (begin effects s') | (Err _, s') => Inv now s' end.
Proof.
  intros Hinv. destruct (od_get i (tasks s)) as [t|] eqn:Et; [|unfold cancel; by rewrite Et].
  pose proof (cancel_eq now s i reason t Hinv Et) as E. pose proof (inv_task _ _ Hinv i t Et) as <-.
  destruct (od_get (t_id t) (results s)) as [x|] eqn:Er.
  - rewrite E. by apply begin_quiet.
  - destruct E as (r & started & Hr & ->).
    eapply (inv_stop_task now s _ t r _ [] [] (pool s)); try done; [by rewrite app_nil_r, pool_begin|by right|by left| |by left].
    exists [ControlCancel t reason true; Publish t cancelled started (Some r); BackendCancel (t_id t)]. split; [by repeat constructor|done].
Qed.

Lemma times_out_inv now i text s : Inv now s →
  match wait_times_out i text now s with (Ok (_, effects), s') => Inv now (begin effects s') | (Err _, s') => Inv now s' end.
Proof.
  intros Hinv. destruct (od_get i (tasks s)) as [t|] eqn:Et.
  - pose proof (times_out_eq now s i text t Hinv Et) as E. pose proof (inv_task _ _ Hinv i t Et) as <-.
    destruct (od_get (t_id t) (results s)) as [x|] eqn:Er.
    + rewrite E. by apply begin_quiet.
    + destruct E as (r & started & Hr & ->).
      eapply (inv_stop_task now s _ t r _ [] [] (pool s)); try done; [by rewrite app_nil_r, pool_begin|by left|by right| |by left].
      exists [ControlCancel t text false; Publish t timeout started (Some r)]. split; [by repeat constructor|done].
  - unfold wait_times_out. rewrite Et. destruct (od_get i (results s)) as [r|] eqn:Er; [|done].
    destruct (inv_result _ _ Hinv i r Er) as [[? ?] _]. congruence.
Qed.

Lemma take_future_inv c now i s s' : Inv now s → step c now (TakeFuture i) s = Some s' → Inv now s'.
Proof.
  intros Hinv. cbn. destruct (od_get i (futures s)) as [[]|] eqn:Ef; try done. destruct (od_get i (tasks s)) as [t|] eqn:Et; [|done].
  destruct (_ <? _); [|done]. intros [= <-]. pose proof (inv_task _ _ Hinv i t Et) as <-.
  apply (inv_keep now s _ [] [RunStarts t] (pool s)); try done.
  - by rewrite pool_begin.
  - intros i. by left.
  - intros i f. cbn. rewrite od_get_set. destruct (decide (t_id t = i)) as [<-|]; [intros [= <-]; by right|by left].
  - intros i. left. rewrite cnt_cons, !cnt_nil, (works_other i (RunStarts t) t) by done.
    change (queued_future i (begin [RunStarts t] (set_futures (od_set (t_id t) Begun) s))) with (queued_future i (set_futures (od_set (t_id t) Begun) s)).
    rewrite queued_set. destruct (decide (t_id t = i)) as [<-|Hi]; [rewrite bool_decide_true by done; unfold queued_future; by rewrite Ef|].
    by rewrite bool_decide_false.
  - intros t' r ?. by left.
  - split; try (by intros * ?%list_elem_of_singleton). by intros e t' ->%list_elem_of_singleton [= <-].
  - by intros i ids reason _ ?%elem_of_nil.
Qed.

(** ** Every action *)

Lemma effect_threads c e o now s : threads (run_effect c e o now s).2 = threads s.
Proof.
  destruct e; try done; cbn.
  - by destruct (_ && _).
  - unfold submit. by destruct (mem _ _).
  - unfold run_starts. destruct (od_get _ _); [|done]. by destruct (stopped_status _ _).
  - unfold run_settles. destruct (od_get _ _); [|done]. by destruct (stopped_status _ _).
  - unfold steer_handle. destruct (mem _ _); [done|]. by destruct (negb _).
  - destruct ids as [|i ids]; [done|]. destruct (mem _ _); [done|]. unfold cancel. destruct (od_get i (tasks s)); [|done].
    destruct (od_get i (results s)); [done|]. by destruct (make_result _ _ _ _ _ _).
Qed.

Lemma thread_inv c now k o s s' : Inv now s → step c now (Advance k o) s = Some s' → Inv now s'.
Proof.
  intros Hinv. cbn. destruct (threads s !! k) as [[|e rest]|] eqn:Ek; try done. destruct (run_effect c e o now s) as [effects s1] eqn:E. intros [= <-].
  assert (threads s1 = threads s) as Ht.
  { by rewrite <- (effect_threads c e o now s), E. }
  destruct (pool_advance (threads s) k e rest effects Ek) as (W & Hp & Hp'). 
  pose proof (effect_inv c now s W (<[k := effects ++ rest]>) e o Hinv Hp) as H. rewrite E in H. apply H. unfold pool. cbn. by rewrite Ht.
Qed.

Lemma step_inv c now a s s' : Inv now s → step c now a s = Some s' → Inv now s'.
Proof.
  intros Hinv. destruct a; try (by apply take_future_inv); try (by apply thread_inv); cbn.
  - unfold register_backend. destruct (require _ _); cbn; intros [= <-]; [|done]. apply (inv_quiet now s _ [] [] (pool s) []); try done; by rewrite app_nil_r.
  - destruct (spawn c t now s) as [s1|] eqn:E; intros [= <-]; [by eapply spawn_inv|done].
  - pose proof (cancel_inv now i reason s Hinv) as H. destruct (cancel i reason now s) as [[[? ?]|] ?]; by intros [= <-].
  - destruct (negb _); [done|]. pose proof (times_out_inv now i timeout_text s Hinv) as H. destruct (wait_times_out i timeout_text now s) as [[[? ?]|] ?]; by intros [= <-].
  - destruct (od_get i (futures s)) as [[]|] eqn:E; try done. intros [= <-]. by erewrite wait_stores_same.
  - intros [= <-]. by erewrite get_result_same.
  - intros [= <-]. unfold attach_control_handle. destruct (negb _); [done|]. destruct (mem _ _); [done|]. apply begin_quiet; [done|by repeat constructor].
  - intros [= <-]. apply (inv_quiet now s _ [] [] (pool s) []); try done; by rewrite app_nil_r.
  - intros [= <-]. unfold steer. destruct (_ || _); [done|]. destruct (od_get i (tasks s)); [|done]. destruct (mem _ _); (apply begin_quiet; [done|by repeat constructor]).
  - intros [= <-]. by apply shutdown_inv.
Qed.

(** The wall clock does not go back. *)
Fixpoint steady (t : Z) (l : list (Z * action)) : Prop :=
  match l with [] => True | (now, _) :: l => t <= now ∧ steady now l end.

Definition last_time (t : Z) (l : list (Z * action)) : Z := List.last (List.map fst l) t.

Lemma last_time_cons t now a l : last_time t ((now, a) :: l) = last_time now l.
Proof.
  unfold last_time. cbn. destruct l as [|[n b] l]; [done|]. cbn. clear. revert n. induction (List.map fst l) as [|x xs IHx]; intros n; [done|apply IHx].
Qed.

Lemma run_inv c t l s s' : Inv t s → steady t l → run c l s = Some s' → Inv (last_time t l) s'.
Proof.
  revert t s. induction l as [|[now a] l IH]; intros t s Hinv Hst H; [by injection H as <-|]. cbn in H.
  destruct Hst as [Hle Hst]. destruct (step c now a s) as [s1|] eqn:E; [|done]. cbn in H.
  rewrite last_time_cons.
  eapply IH; [|done|done]. eapply step_inv; [|done]. by eapply inv_later.
Qed.

Lemma steady_app t l1 l2 : steady t (l1 ++ l2) → steady t l1 ∧ steady (last_time t l1) l2.
Proof.
  revert t. induction l1 as [|[now a] l1 IH]; intros t; [done|]. cbn [app steady]. intros [H1 H2]. rewrite last_time_cons. destruct (IH now H2). done.
Qed.

(** A result that is set stays. *)
Lemma settle_keeps i x r t s : od_get (t_id t) (results s) = None → od_get i (results s) = Some x → od_get i (od_set (t_id t) r (results s)) = Some x.
Proof. intros H Hx. rewrite od_get_set, decide_False; [done|]. intros <-. congruence. Qed.

Lemma cancel_keeps i x j reason now s : od_get i (results s) = Some x → od_get i (results (cancel j reason now s).2) = Some x.
Proof.
  intros Hx. unfold cancel. destruct (od_get j (tasks s)); [|done]. destruct (od_get j (results s)) eqn:E; [done|].
  destruct (make_result _ _ _ _ _ _); [|done]. cbn. rewrite od_get_set, decide_False; [done|]. intros <-. congruence.
Qed.

Lemma step_results c now a s s' i x : Inv now s → step c now a s = Some s' → od_get i (results s) = Some x → od_get i (results s') = Some x.
Proof.
  intros Hinv. destruct a; cbn.
  - unfold register_backend. destruct (require _ _); by intros [= <-].
  - unfold spawn. destruct (is_shutdown s); [by intros [= <-]|]. repeat (destruct (_ : bool); [by intros [= <-]|]). by intros [= <-].
  - intros H Hx. pose proof (cancel_keeps i x i0 reason now s Hx) as Hk. destruct (cancel i0 reason now s) as [[[? ?]|] ?]; by injection H as <-.
  - destruct (negb _); [done|]. intros H Hx. revert H. unfold wait_times_out. destruct (od_get i0 (results s)) as [y|] eqn:E.
    + by intros [= <-].
    + destruct (od_get i0 (tasks s)); [|by intros [= <-]]. destruct (make_result _ _ _ _ _ _); intros [= <-]; [|done].
      cbn. rewrite od_get_set, decide_False; [done|]. intros <-. congruence.
  - destruct (od_get i0 (futures s)) as [[]|] eqn:E; try done. intros [= <-]. by erewrite wait_stores_same.
  - intros [= <-]. by erewrite get_result_same.
  - unfold attach_control_handle. intros [= <-]. destruct (negb _); [done|]. by destruct (mem _ _).
  - by intros [= <-].
  - intros [= <-]. unfold steer. destruct (_ || _); [done|]. destruct (od_get i0 (tasks s)); [|done]. by destruct (mem _ _).
  - intros [= <-]. unfold shutdown. by destruct (is_shutdown s).
  - destruct (od_get i0 (futures s)) as [[]|]; try done. destruct (od_get i0 (tasks s)); [|done]. destruct (_ <? _); by intros [= <-].
  - destruct (threads s !! k) as [[|e rest]|] eqn:Ek; try done. destruct (pool_advance (threads s) k e rest [] Ek) as (W & Hp & _).
    destruct (run_effect c e o now s) as [effects s1] eqn:E. intros [= <-] Hx. cbn. replace s1 with (run_effect c e o now s).2 by by rewrite E.
    destruct e; try done; cbn.
    + by destruct (_ && _).
    + unfold submit. by destruct (mem _ _).
    + unfold run_starts. destruct (od_get (t_id t) (results s)); [|done]. by destruct (stopped_status _ _).
    + destruct (carries now s _ t W Hinv Hp eq_refl) as (_ & _ & _ & Hs). unfold run_settles. destruct (od_get (t_id t) (results s)) as [y|] eqn:Er.
      * by rewrite (Hs y).
      * by apply settle_keeps.
    + unfold steer_handle. destruct (mem _ _); [done|]. by destruct (negb _).
    + destruct ids as [|j ids]; [done|]. destruct (mem _ _); [done|]. pose proof (cancel_keeps i x j reason now s Hx) as Hk.
      by destruct (cancel j reason now s) as [[[? ?]|] ?].
Qed.

Lemma run_results c t l s s' i x : Inv t s → steady t l → run c l s = Some s' → od_get i (results s) = Some x → od_get i (results s') = Some x.
Proof.
  revert t s. induction l as [|[now a] l IH]; intros t s Hinv Hst H Hx; [by injection H as <-|]. cbn in H.
  destruct Hst as [Hle Hst]. destruct (step c now a s) as [s1|] eqn:E; [|done]. cbn in H.
  apply (inv_later _ now) in Hinv; [|done]. eapply IH; [by eapply step_inv|done|done|by eapply step_results].
Qed.

(** ** Workers come to an end *)

(** The effects of the worker that runs the task [i]. *)
Definition runs (i : string) (e : effect) : Prop :=
  match e with
  | RunStarts t | RunBackend t _ | SettleRun t _ _ => t_id t = i
  | SetFuture j _ => j = i
  | _ => False
  end.

(** Every future that has begun has its worker. *)
Definition Held (s : Supervisor) : Prop :=
  NoDup (futures s).*1 ∧ ∀ i, od_get i (futures s) = Some Begun → ∃ e, e ∈ pool s ∧ runs i e.

Lemma held_advance s s' e add W : Held s → pool s ≡ₚ e :: W → pool s' ≡ₚ add ++ W → NoDup (futures s').*1 →
  (∀ i, od_get i (futures s') = Some Begun → od_get i (futures s) = Some Begun ∧ (runs i e → ∃ e', e' ∈ add ∧ runs i e')) → Held s'.
Proof.
  intros [_ Hh] Hp Hp' Hnd H. split; [done|]. intros i Hi. destruct (H i Hi) as [H1 H2]. destruct (Hh i H1) as (e' & He & Hr).
  rewrite Hp in He. apply elem_of_cons in He as [->|He]; [|exists e'; rewrite Hp'; split; [apply elem_of_app; by right|done]].
  destruct (H2 Hr) as (e' & He' & Hr'). exists e'. rewrite Hp'. split; [apply elem_of_app; by left|done].
Qed.

(** A step that leaves the futures, and no worker. *)
Lemma held_same s s' add : Held s → pool s' ≡ₚ add ++ pool s → futures s' = futures s → Held s'.
Proof.
  intros [Hnd Hh] Hp E. unfold Held. rewrite E. split; [done|]. intros i Hi. destruct (Hh i Hi) as (e & He & Hr). exists e. rewrite Hp, elem_of_app. auto.
Qed.

Lemma futures_keys f (fs : list (string * future)) : (List.map (λ p, (p.1, f p.2)) fs : list (string * future)).*1 = fs.*1.
Proof. induction fs as [|[i x] fs IH]; [done|]. cbn. by rewrite IH. Qed.

Lemma future_cancel_nodup i fs : NoDup fs.*1 → NoDup (future_cancel i fs).*1.
Proof. intros H. unfold future_cancel. destruct (od_get i fs) as [[]|]; try done. by apply od_set_nodup. Qed.

Lemma future_cancel_begun i j fs : od_get j (future_cancel i fs) = Some Begun → od_get j fs = Some Begun.
Proof. destruct (future_cancel_spec i fs j) as [->|(_ & _ & ->)]; done. Qed.

(** The futures after a cancel. *)
Lemma cancel_futures i reason now s : futures (cancel i reason now s).2 = futures s ∨ futures (cancel i reason now s).2 = future_cancel i (futures s).
Proof.
  unfold cancel. destruct (od_get i (tasks s)); [|by left]. destruct (od_get i (results s)); [by left|]. destruct (make_result _ _ _ _ _ _); by right.
Qed.

Lemma effect_futures c e o now s : let s' := (run_effect c e o now s).2 in
  match e with
  | Submit t => futures s' = futures s ∨ futures s' = od_set (t_id t) Pending (futures s)
  | SetFuture i f => futures s' = od_set i f (futures s)
  | CancelAll _ _ => futures s' = futures s ∨ ∃ i, futures s' = future_cancel i (futures s)
  | ExecutorShutdown => futures s' = List.map (λ p, (p.1, withdraw p.2)) (futures s)
  | _ => futures s' = futures s
  end.
Proof.
  destruct e; try done; cbn.
  - by destruct (_ && _).
  - unfold submit. destruct (mem _ _); [by left|by right].
  - unfold run_starts. destruct (od_get _ _); [|done]. by destruct (stopped_status _ _).
  - unfold run_settles. destruct (od_get _ _); [|done]. by destruct (stopped_status _ _).
  - unfold steer_handle. destruct (mem _ _); [done|]. by destruct (negb _).
  - destruct ids as [|i ids]; [by left|]. destruct (mem _ _); [by left|].
    assert (futures (cancel i reason now s).2 = futures s ∨ ∃ i0, futures (cancel i reason now s).2 = future_cancel i0 (futures s)) as H by (destruct (cancel_futures i reason now s); eauto).
    by destruct (cancel i reason now s) as [[[? ?]|] ?].
Qed.

(** The worker goes on. *)
Lemma worker_goes_on c now s e o i : runs i e → (∃ f, e = SetFuture i f) ∨ ∃ e', e' ∈ (run_effect c e o now s).1 ∧ runs i e'.
Proof.
  destruct e; try done; cbn [runs]; intros <-.
  - right. cbn. unfold run_starts. destruct (od_get _ _) as [r|]; [destruct (stopped_status _ _)|]; cbn.
    + exists (SetFuture (t_id t) (Finished r)). by rewrite list_elem_of_singleton.
    + eexists. split; [by right; left|done].
    + eexists. split; [by right; left|done].
  - right. cbn. destruct (run_result _ _ _ _ _) as [r|]; eexists; (split; [by left|done]).
  - right. cbn. unfold run_settles. destruct (od_get _ _) as [x|]; [destruct (stopped_status _ _)|]; cbn.
    + exists (SetFuture (t_id t) (Finished x)). by rewrite list_elem_of_singleton.
    + eexists. split; [by right; right; left|done].
    + eexists. split; [by right; right; left|done].
  - left. eauto.
Qed.

Lemma held_effect c now s W f e o : Inv now s → Held s → pool s ≡ₚ e :: W →
  let s' := with_threads f (run_effect c e o now s).2 in pool s' ≡ₚ (run_effect c e o now s).1 ++ W → Held s'.
Proof.
  intros Hinv Hh Hp s' Hp'. pose proof (effect_futures c e o now s) as Hf. cbn zeta in Hf.
  apply (held_advance s s' e _ W Hh Hp Hp'); destruct Hh as [Hnd _]; change (futures s') with (futures (run_effect c e o now s).2).
  - destruct e; rewrite ?Hf; try done.
    + destruct Hf as [-> | ->]; [done|by apply od_set_nodup].
    + by apply od_set_nodup.
    + destruct Hf as [->|[i ->]]; [done|by apply future_cancel_nodup].
    + by rewrite futures_keys.
  - intros i Hi. assert (od_get i (futures s) = Some Begun ∧ ∀ g, e ≠ SetFuture i g) as [H1 H2].
    { destruct e; rewrite ?Hf in Hi; try done.
      - destruct Hf as [Hf|Hf]; rewrite Hf in Hi; [done|]. rewrite od_get_set in Hi. by destruct (decide _).
      - destruct (proj2 (inv_future _ _ Hinv) i0 f0) as (r & -> & _); [rewrite Hp; by left|]. rewrite od_get_set in Hi.
        destruct (decide (i0 = i)) as [|Hne]; [done|]. split; [done|]. by intros g [= ->].
      - destruct Hf as [Hf|[j Hf]]; rewrite Hf in Hi; [done|]. split; [by eapply future_cancel_begun|done].
      - change (List.map (λ p : string * future, (p.1, withdraw p.2)) (futures s)) with (List.map (λ p, (p.1, withdraw p.2)) (futures s)) in Hi.
        rewrite (od_get_map withdraw) in Hi. destruct (od_get i (futures s)) as [[]|]; done. }
    split; [done|]. intros Hr. destruct (worker_goes_on c now s e o i Hr) as [[g ->]|?]; [by destruct (H2 g)|done].
Qed.

Lemma held_joins s s' add : Held s → pool s' ≡ₚ add ++ pool s → NoDup (futures s').*1 →
  (∀ i, od_get i (futures s') = Some Begun → od_get i (futures s) = Some Begun) → Held s'.
Proof.
  intros [_ Hh] Hp Hnd H. split; [done|]. intros i Hi. destruct (Hh i (H i Hi)) as (e & He & Hr). exists e. rewrite Hp, elem_of_app. auto.
Qed.

Lemma cancel_pool i reason now s : pool (cancel i reason now s).2 = pool s.
Proof. unfold cancel. destruct (od_get i (tasks s)); [|done]. destruct (od_get i (results s)); [done|]. by destruct (make_result _ _ _ _ _ _). Qed.

Lemma held_cancel i reason now s : Held s → Held (cancel i reason now s).2 ∧ ∀ effects, Held (begin effects (cancel i reason now s).2).
Proof.
  intros Hh. pose proof (cancel_futures i reason now s) as Hf. pose proof (cancel_pool i reason now s) as Hp. set (s1 := (cancel i reason now s).2) in *.
  assert (NoDup (futures s1).*1 ∧ ∀ j, od_get j (futures s1) = Some Begun → od_get j (futures s) = Some Begun) as [H1 H2].
  { destruct Hh as [Hnd _]. destruct Hf as [-> | ->]; [done|]. split; [by apply future_cancel_nodup|by intros j ?%future_cancel_begun]. }
  split; [|intros effects]; (eapply held_joins; [exact Hh| |done|done]).
  - rewrite Hp. by apply (reflexivity (R := Permutation) ([] ++ pool s)).
  - by rewrite pool_begin, Hp.
Qed.

Lemma held_begin s s1 effects : Held s → futures s1 = futures s → pool s1 = pool s → Held (begin effects s1).
Proof. intros Hh E1 E2. apply (held_same s _ effects Hh); [by rewrite pool_begin, E2|done]. Qed.

Lemma held_act c now a s s' : Inv now s → Held s → step c now a s = Some s' → Held s'.
Proof.
  intros Hinv Hh. destruct a; cbn.
  - unfold register_backend. destruct (require _ _); by intros [= <-].
  - unfold spawn. destruct (is_shutdown s); [by intros [= <-]|]. repeat (destruct (_ : bool); [by intros [= <-]|]). intros [= <-]. by eapply held_begin.
  - intros H. destruct (held_cancel i reason now s Hh) as [H1 H2]. destruct (cancel i reason now s) as [[[? ?]|] ?]; injection H as <-; [apply H2|done].
  - destruct (negb _); [done|]. unfold wait_times_out. destruct (od_get i (results s)) as [y|]; [intros [= <-]; by eapply held_begin|].
    destruct (od_get i (tasks s)); [|by intros [= <-]]. destruct (make_result _ _ _ _ _ _); intros [= <-]; [by eapply held_begin|done].
  - destruct (od_get i (futures s)) as [[]|] eqn:E; try done. intros [= <-]. by erewrite wait_stores_same.
  - intros [= <-]. by erewrite get_result_same.
  - unfold attach_control_handle. intros [= <-]. destruct (negb _); [done|]. destruct (mem _ _); [done|]. by eapply held_begin.
  - by intros [= <-].
  - intros [= <-]. unfold steer. destruct (_ || _); [done|]. destruct (od_get i (tasks s)); [|done]. destruct (mem _ _); by eapply held_begin.
  - intros [= <-]. unfold shutdown. destruct (is_shutdown s); [done|]. by eapply held_begin.
  - destruct (od_get i (futures s)) as [[]|] eqn:Ef; try done. destruct (od_get i (tasks s)) as [t|] eqn:Et; [|done]. destruct (_ <? _); intros [= <-].
    pose proof (inv_task _ _ Hinv i t Et) as <-. destruct Hh as [Hnd Hh]. split; [by apply od_set_nodup|]. intros j.
    change (futures (begin [RunStarts t] (set_futures (od_set (t_id t) Begun) s))) with (od_set (t_id t) Begun (futures s)).
    rewrite od_get_set. setoid_rewrite pool_begin. destruct (decide (t_id t = j)) as [Hj|Hne].
    + intros _. exists (RunStarts t). split; [by left|done].
    + intros Hj. destruct (Hh j Hj) as (e & He & Hr). exists e. split; [by right|done].
  - destruct (threads s !! k) as [[|e rest]|] eqn:Ek; try done. destruct (run_effect c e o now s) as [effects s1] eqn:E. intros [= <-].
    destruct (pool_advance (threads s) k e rest effects Ek) as (W & Hp & Hp'). pose proof (effect_threads c e o now s) as Ht.
    pose proof (held_effect c now s W (<[k := effects ++ rest]>) e o Hinv Hh Hp) as H. rewrite E in H, Ht. apply H. unfold pool. cbn in Ht |- *. by rewrite Ht.
Qed.

Lemma run_held c t l s s' : Inv t s → Held s → steady t l → run c l s = Some s' → Held s'.
Proof.
  revert t s. induction l as [|[now a] l IH]; intros t s Hinv Hh Hst H; [by injection H as <-|]. cbn in H.
  destruct Hst as [Hle Hst]. destruct (step c now a s) as [s1|] eqn:E; [|done]. cbn in H.
  apply (inv_later _ now) in Hinv; [|done]. eapply IH; [by eapply step_inv|by eapply held_act|done|done].
Qed.

Lemma held_new : Held new_supervisor.
Proof. split; [constructor|done]. Qed.

Definition is_pending (p : string * future) : bool := match p.2 with Pending => true | _ => false end.

(** What is left to do, at most, for an effect and in a state. *)
Definition effort (e : effect) : nat :=
  match e with
  | Submit _ => 9
  | RunStarts _ => 7
  | RunBackend _ _ => 5
  | SettleRun _ _ _ | SteerHandle _ _ => 4
  | SetFuture _ Pending => 9
  | CancelAll ids _ => 3 + 5 * length ids
  | _ => 1
  end.
Definition efforts (l : list effect) : nat := sum_list (List.map effort l).
Definition messages (d : list (string * list string)) : nat := sum_list (List.map (λ p, length p.2) d).
Definition rank (s : Supervisor) : nat := (efforts (pool s) + 8 * cnt is_pending (futures s) + 2 * messages (pending s))%nat.

Lemma efforts_app l1 l2 : efforts (l1 ++ l2) = (efforts l1 + efforts l2)%nat.
Proof. unfold efforts. rewrite List.map_app. induction l1 as [|e l1 IH]; [done|]. cbn in *. lia. Qed.

Lemma efforts_perm l1 l2 : l1 ≡ₚ l2 → efforts l1 = efforts l2.
Proof. unfold efforts. induction 1; cbn in *; lia. Qed.

Lemma pending_set i f fs : (cnt is_pending (od_set i f fs) + (match od_get i fs with Some Pending => 1 | _ => 0 end) = cnt is_pending fs + match f with Pending => 1 | _ => 0 end)%nat.
Proof.
  induction fs as [|[j g] fs IH]; [cbn; rewrite cnt_cons, cnt_nil; by destruct f|]. cbn. destruct (decide (j = i)) as [->|].
  - rewrite !cnt_cons. unfold is_pending. cbn. destruct f, g; lia.
  - rewrite !cnt_cons. lia.
Qed.

Lemma pending_cancel i fs : (cnt is_pending (future_cancel i fs) <= cnt is_pending fs)%nat.
Proof. unfold future_cancel. destruct (od_get i fs) as [[]|] eqn:E; try lia. pose proof (pending_set i Withdrawn fs) as H. rewrite E in H. lia. Qed.

Lemma messages_push i x d : messages (od_push i x d) = S (messages d).
Proof.
  unfold messages, od_push. induction d as [|[j l] d IH]; [done|]. cbn. destruct (decide (j = i)) as [->|]; cbn; [rewrite length_app; cbn; lia|].
  revert IH. cbn. lia.
Qed.

Lemma messages_del i d : (length (default [] (od_get i d)) + messages (od_del i d) <= messages d)%nat.
Proof.
  unfold messages, od_del. induction d as [|[j l] d IH]; [done|]. cbn. destruct (decide (j = i)) as [->|Hne].
  - rewrite bool_decide_true by done. cbn. assert (∀ d : list (string * list string), sum_list (List.map (λ p, length p.2) (List.filter (λ p, negb (bool_decide (p.1 = i))) d)) <= sum_list (List.map (λ p, length p.2) d))%nat as H.
    { clear. induction d as [|[j l] d IH]; [done|]. cbn. destruct (negb _); cbn; lia. }
    specialize (H d). lia.
  - rewrite bool_decide_false by done. cbn. lia.
Qed.

Definition backlog (s : Supervisor) : nat := (8 * cnt is_pending (futures s) + 2 * messages (pending s))%nat.

Lemma efforts_deliver i l : efforts (List.map (Deliver i) l) = length l.
Proof. induction l as [|m l IH]; [done|]. by apply (f_equal S) in IH. Qed.

#[local] Arguments messages : simpl never.
#[local] Arguments od_del : simpl never.
#[local] Arguments Nat.mul : simpl never.

Lemma effect_rank c now e o s : (efforts (run_effect c e o now s).1 + backlog (run_effect c e o now s).2 < effort e + backlog s)%nat.
Proof.
  unfold backlog. destruct e; cbn [run_effect fst snd]; try (cbn; lia).
  - pose proof (messages_del (t_id t) (pending s)). destruct (mem (t_id t) (handles s) && emits); cbn; lia.
  - unfold submit. destruct (mem _ _); cbn; [lia|]. pose proof (pending_set (t_id t) Pending (futures s)) as H. cbn in H. lia.
  - unfold run_starts. destruct (od_get _ _); [destruct (stopped_status _ _)|]; cbn; lia.
  - destruct (run_result _ _ _ _ _); cbn; lia.
  - pose proof (messages_del (t_id t) (pending s)). unfold run_settles. destruct (od_get (t_id t) (results s)); [destruct (stopped_status _ _)|]; cbn; lia.
  - pose proof (pending_set i f (futures s)) as H. destruct f; cbn in *; lia.
  - pose proof (messages_del i (pending s)). unfold attach. cbn [fst snd]. rewrite efforts_deliver. cbn. lia.
  - unfold steer_handle. destruct (mem _ _); [cbn; lia|]. destruct (negb _); cbn; [lia|]. rewrite messages_push. lia.
  - destruct ids as [|i ids]; [cbn; lia|]. destruct (mem i (results s)); [cbn; lia|]. unfold cancel. destruct (od_get i (tasks s)); [|cbn; lia].
    destruct (od_get i (results s)); [cbn; lia|]. pose proof (pending_cancel i (futures s)). destruct (make_result _ _ _ _ _ _); cbn; lia.
  - assert (cnt is_pending (List.map (λ p, (p.1, withdraw p.2)) (futures s)) = 0)%nat as H.
    { apply cnt_zero. intros x Hx. apply list_elem_of_fmap in Hx as ([i f] & -> & _). by destruct f. }
    cbn. rewrite H. lia.
Qed.

(** What the threads that are there do, and the workers of the executor. *)
Definition worker_action (a : action) : bool := match a with Advance _ _ | TakeFuture _ => true | _ => false end.

Lemma step_effort c now a s s' : worker_action a = true → step c now a s = Some s' → (rank s' < rank s)%nat.
Proof.
  unfold rank. destruct a; try done; intros _; cbn [step].
  - destruct (od_get i (futures s)) as [[]|] eqn:Ef; try done. destruct (od_get i (tasks s)) as [t|]; [|done]. destruct (_ <? _); intros [= <-].
    rewrite (efforts_perm _ _ (pool_begin _ _)), efforts_app. pose proof (pending_set i Begun (futures s)) as H. rewrite Ef in H. cbn in H |- *. change (sum_list (List.map effort (concat (threads s)))) with (efforts (pool s)). lia.
  - destruct (threads s !! k) as [[|e rest]|] eqn:Ek; try done. pose proof (effect_rank c now e o s) as Hr. pose proof (effect_threads c e o now s) as Ht.
    destruct (run_effect c e o now s) as [effects s1]. intros [= <-]. destruct (pool_advance (threads s) k e rest effects Ek) as (W & Hp & Hp').
    change (efforts effects + backlog s1 < effort e + backlog s)%nat in Hr. change (threads s1 = threads s) in Ht. rewrite <- Ht in Hp, Hp'.
    change (pool (with_threads (<[k := effects ++ rest]>) s1)) with (concat (<[k := effects ++ rest]> (threads s1))).
    change (pool s) with (concat (threads s)). rewrite <- Ht, (efforts_perm _ _ Hp), (efforts_perm _ _ Hp'), efforts_app.
    change (efforts (e :: W)) with (effort e + efforts W)%nat. unfold backlog in Hr. cbn [futures pending with_threads]. lia.
Qed.

Lemma run_effort c l s s' : Forall (λ p, worker_action p.2 = true) l → run c l s = Some s' → (length l + rank s' <= rank s)%nat.
Proof.
  revert s. induction l as [|[now a] l IH]; intros s Hl H; [injection H as <-; cbn; lia|]. apply Forall_cons in Hl as [Ha Hl]. cbn in H.
  destruct (step c now a s) as [s1|] eqn:E; [|done]. cbn in H. specialize (IH s1 Hl H). pose proof (step_effort c now a s s1 Ha E). cbn. lia.
Qed.

Lemma reached c l s : steady 0 l → run c l new_supervisor = Some s → Inv (last_time 0 l) s ∧ Held s.
Proof. intros Hst H. split; [by eapply run_inv; [apply inv_new|..]|by eapply run_held; [apply inv_new|apply held_new|..]]. Qed.

(** When no thread can go on, every task has its result. *)
Lemma stuck_settled c now s : Inv now s → Held s → 0 < max_threads c →
  (∀ n a, worker_action a = true → step c n a s = None) → pool s = [] ∧ ∀ i, ¬ open_task i s.
Proof.
  intros Hinv [Hnd Hh] Hm Hstuck. assert (pool s = []) as Hp.
  { unfold pool. assert (∀ l, l ∈ threads s → l = []) as H.
    { intros l Hl. apply list_elem_of_lookup in Hl as [k Hk]. destruct l as [|e l]; [done|]. specialize (Hstuck 0 (Advance k (Err ""%string)) eq_refl).
      cbn in Hstuck. rewrite Hk in Hstuck. by destruct (run_effect _ _ _ _ _). }
    clear -H. induction (threads s) as [|l ls IH]; [done|]. cbn. rewrite (H l) by (by left). apply IH. intros l' Hl'. apply H. by right. }
  split; [done|]. intros i Ho. destruct (inv_open _ _ Hinv i Ho) as [Hw _]. unfold work, queued_future in Hw. rewrite Hp, cnt_nil in Hw.
  destruct (od_get i (futures s)) as [[]|] eqn:Ef; try lia. destruct Ho as [[t Ht] _].
  specialize (Hstuck 0 (TakeFuture i) eq_refl). cbn in Hstuck. rewrite Ef, Ht in Hstuck.
  assert (busy s = 0) as Hb.
  { unfold busy. destruct (List.filter _ (futures s)) as [|[j f] fs] eqn:E; [done|].
    assert ((j, f) ∈ List.filter (λ p : string * future, match p.2 with Begun => true | _ => false end) (futures s)) as Hin by (rewrite E; by left).
    apply list_elem_of_In, List.filter_In in Hin as [Hin Hf]. apply list_elem_of_In in Hin. destruct f; try done.
    apply od_get_in in Hin; [|done]. destruct (Hh j Hin) as (e & He & _). rewrite Hp in He. by apply elem_of_nil in He. }
  rewrite Hb, (proj2 (Z.ltb_lt _ _)) in Hstuck by lia. done.
Qed.

(** ** The properties *)

(** C35: a task of a supervisor is settled once.  In every interleaving of callers, workers and
    shutdowns, under a clock that does not go back, a task that has a result (of its backend,
    of a cancel or of a timeout) keeps it whatever happens afterwards, in particular when the
    backend of a cancelled task returns late: every later wait returns that result, the status is
    the result's, and the stop event, which carries that result and no other, has been emitted at
    most once, exactly once when no thread has anything left to do. *)
Theorem settled_once c l1 l2 s s' i r :
  steady 0 (l1 ++ l2) → run c l1 new_supervisor = Some s → od_get i (results s) = Some r → run c l2 s = Some s' →
  wait_turn i s' = Some (Ok r) ∧ od_get i (statuses s') = Some (r_status r) ∧
  (∀ t x, SubagentStop t x ∈ emitted s' → t_id t = i → x = r) ∧
  (cnt (stop_event i) (emitted s') <= 1)%nat ∧ (concat (threads s') = [] → cnt (stop_event i) (emitted s') = 1%nat).
Proof.
  intros Hst H1 Hr H2. apply steady_app in Hst as [Hst1 Hst2]. destruct (reached c l1 s Hst1 H1) as [Hinv _].
  pose proof (run_results _ _ _ _ _ _ _ Hinv Hst2 H2 Hr) as Hr'. pose proof (run_inv _ _ _ _ _ Hinv Hst2 H2) as Hinv'.
  destruct (inv_result _ _ Hinv' i r Hr') as [_ Hs]. pose proof (inv_stop _ _ Hinv' i) as Hstop. unfold mem in Hstop. rewrite Hr' in Hstop.
  split; [unfold wait_turn; by rewrite Hr'|]. split; [done|]. split; [|split; [lia|]].
  - intros t x Hx <-. pose proof (proj2 (inv_stopped _ _ Hinv') t x Hx). congruence.
  - intros Hp. unfold pool in Hstop. rewrite Hp, cnt_nil in Hstop. lia.
Qed.

(** C36: no task of a supervisor is lost.  From every state that callers, workers and shutdowns
    reach under a clock that does not go back, the threads that are there come to an end, in
    any order and whatever the backends return, within [rank] steps; and when neither they nor
    a worker of the executor can go on, every task that was ever spawned has a result, which a wait
    returns, and its one stop event has been emitted.  A shutdown whose loop has run through leaves
    no task without a result, before any backend has returned. *)
Theorem tasks_end c l s :
  steady 0 l → run c l new_supervisor = Some s → 0 < max_threads c →
  (∀ l' s', Forall (λ p, worker_action p.2 = true) l' → run c l' s = Some s' → (length l' + rank s' <= rank s)%nat) ∧
  ((∀ now a, worker_action a = true → step c now a s = None) →
   ∀ i t, od_get i (tasks s) = Some t →
     ∃ r t', wait_turn i s = Some (Ok r) ∧ t_id t' = i ∧ SubagentStop t' r ∈ emitted s ∧ cnt (stop_event i) (emitted s) = 1%nat) ∧
  (is_shutdown s = true → cnt closer (concat (threads s)) = 0%nat → ∀ i t, od_get i (tasks s) = Some t → ∃ r, wait_turn i s = Some (Ok r)).
Proof.
  intros Hst H Hm. destruct (reached c l s Hst H) as [Hinv Hh]. split; [intros l' s'; apply run_effort|]. split.
  2: { intros Hs Hc i t Ht. destruct (od_get i (results s)) as [r|] eqn:Er; [exists r; unfold wait_turn; by rewrite Er|].
       destruct (inv_shutdown _ _ Hinv Hs i) as (ids & reason & Hin & _); [split; [by rewrite Ht|done]|].
       pose proof (cnt_pos closer _ _ Hin eq_refl) as H0. unfold pool in H0. lia. }
  intros Hstuck i t Ht.
  destruct (stuck_settled c _ s Hinv Hh Hm Hstuck) as [Hp Ho]. destruct (od_get i (results s)) as [r|] eqn:Er; [|by destruct (Ho i)].
  pose proof (inv_stop _ _ Hinv i) as Hstop. unfold mem in Hstop. rewrite Er, Hp, cnt_nil in Hstop.
  destruct (cnt_exists (stop_event i) (emitted s)) as (e & He & Hse); [lia|]. destruct e as [|t' x|]; try done. apply bool_decide_eq_true in Hse as <-.
  pose proof (proj2 (inv_stopped _ _ Hinv) t' x He) as Hx. rewrite Er in Hx. injection Hx as <-.
  exists r, t'. split; [unfold wait_turn; by rewrite Er|]. split; [done|]. split; [done|lia].
Qed.

(** ** Samples *)

Definition sample_config : Config :=
  {| max_threads := 1; max_depth := 2; settle_typed_result := λ _ r, Ok r; _preview := λ x, x |}.
Definition sample_task (i : string) : SubagentTask := {| t_id := i; t_role := "explore"; t_backend := "internal"; t_depth := 0 |}.
Definition sample_answer : outcome :=
  Ok {| r_task_id := "a"; r_backend := "internal"; r_role := "explore"; r_status := completed; r_summary := "done"; r_errors := [];
        r_started_at_ms := 1; r_ended_at_ms := 9 |}.
Definition nothing : outcome := Err ""%string.

(** The first [n] effects of the [k]th thread. *)
Definition advance (k n : nat) (o : outcome) : list (Z * action) := List.repeat (5, Advance k o) n.

(** The task [a] is spawned and taken by a worker; it is cancelled while its backend runs. *)
Definition sample_start : list (Z * action) :=
  [(1, RegisterBackend "internal"); (1, Spawn (sample_task "a"))] ++ advance 0 3 nothing ++ [(5, TakeFuture "a")] ++ advance 1 2 nothing ++
  [(5, Cancel "a" "no")].
(** The backend returns late; the canceller's effects run. *)
Definition sample_end : list (Z * action) := advance 1 3 sample_answer ++ advance 2 4 nothing.

Definition sample_state (l : list (Z * action)) : Supervisor := default new_supervisor (run sample_config l new_supervisor).
Definition sample_result : SubagentResult :=
  default {| r_task_id := ""; r_backend := ""; r_role := ""; r_status := failed; r_summary := ""; r_errors := []; r_started_at_ms := 0; r_ended_at_ms := 0 |}
    (od_get "a"%string (results (sample_state sample_start))).

Lemma settled_once_witness :
  r_status sample_result = cancelled ∧ wait_turn "a" (sample_state (sample_start ++ sample_end)) = Some (Ok sample_result).
Proof.
  split; [vm_compute; reflexivity|].
  apply (settled_once sample_config sample_start sample_end (sample_state sample_start) (sample_state (sample_start ++ sample_end)) "a" sample_result).
  - cbn. lia.
  - vm_compute. reflexivity.
  - vm_compute. reflexivity.
  - vm_compute. reflexivity.
Defined.

(** A shutdown finds the task running; its loop runs through before the backend returns. *)
Definition sample_shutdown : list (Z * action) :=
  [(1, RegisterBackend "internal"); (1, Spawn (sample_task "a"))] ++ advance 0 3 nothing ++ [(5, TakeFuture "a")] ++ advance 1 2 nothing ++
  [(5, Shutdown "bye")] ++ advance 2 7 nothing.

Lemma tasks_end_witness :
  is_shutdown (sample_state sample_shutdown) = true ∧ od_get "a"%string (futures (sample_state sample_shutdown)) = Some Begun ∧
  ∃ r, wait_turn "a" (sample_state sample_shutdown) = Some (Ok r).
Proof.
  split; [vm_compute; reflexivity|]. split; [vm_compute; reflexivity|].
  refine (proj2 (proj2 (tasks_end sample_config sample_shutdown (sample_state sample_shutdown) _ _ _)) _ _ "a"%string (sample_task "a") _).
  - cbn. lia.
  - vm_compute. reflexivity.
  - cbn. lia.
  - vm_compute. reflexivity.
  - vm_compute. reflexivity.
  - vm_compute. reflexivity.
Defined.

(** ** What modelling showed *)

(** The limit of running tasks is checked before the future exists: two threads that spawn at the
    same time both pass. *)
Example limit_raced :
  let s := sample_state ([(1, RegisterBackend "internal"); (1, Spawn (sample_task "a")); (1, Spawn (sample_task "b"))] ++ advance 0 3 nothing ++ advance 1 3 nothing) in
  (_unfinished_future_count_locked s, max_threads sample_config) = (2, 1).
Proof. vm_compute. reflexivity. Qed.

(** A worker publishes that its task runs after a cancel has published its end: the snapshot stays
    running, and controllable, for good. *)
Example snapshot_runs_forever :
  let s := sample_state ([(1, RegisterBackend "internal"); (1, Spawn (sample_task "a"))] ++ advance 0 3 nothing ++ [(5, TakeFuture "a")] ++ advance 1 1 nothing ++
                         [(5, Cancel "a" "no")] ++ advance 2 4 nothing ++ advance 1 4 sample_answer) in
  concat (threads s) = [] ∧ od_get "a"%string (statuses s) = Some cancelled ∧
  (s_status <$> od_get "a"%string (snapshots s)) = Some running ∧ active_count s = 1.
Proof. vm_compute. done. Qed.

(** A thread that waits in the future's own [result] while another cancels the task is told that the
    future was cancelled, and not given the result that the task has. *)
Example cancelled_wait_raises :
  let s := sample_state ([(1, RegisterBackend "internal"); (1, Spawn (sample_task "a"))] ++ advance 0 3 nothing ++ [(5, Cancel "a" "no")]) in
  (r_status <$> od_get "a"%string (results s)) = Some cancelled ∧
  (f ← od_get "a"%string (futures s); future_result f) = Some (Err CancelledError).
Proof. vm_compute. done. Qed.

(** When the wall clock has gone back, a cancel withdraws the future and raises: the task stays
    queued, without a result, and no worker will take it. *)
Example clock_back_loses_task :
  let s := sample_state ([(3, RegisterBackend "internal"); (3, Spawn (sample_task "a"))] ++ advance 0 3 nothing ++ [(2, Cancel "a" "no")]) in
  concat (threads s) = [] ∧ od_get "a"%string (statuses s) = Some queued ∧ od_get "a"%string (results s) = None ∧
  od_get "a"%string (futures s) = Some Withdrawn.
Proof. vm_compute. done. Qed.
