(* ===== verification/JsonRpc.v ===== *)
(** The client of a language server (travis/coding_agent/language_services/jsonrpc.py): the
    frames on its pipes, the table of requests, and the coroutines that share them.

    The event loop runs one coroutine at a time; what runs between two awaits is one action, and
    actions of callers, readers and processes come in any order.  Processes, their bytes and their
    deaths, timeouts, aborts and kills of a caller are chosen from outside; so are the repr of floats,
    the redaction of stderr, and the decoders of UTF-16 and UTF-32.  The thread that runs the loop is
    not modelled, nor its end behind a close, when a coroutine that has not ended stays where it is. *)

From S2P Require Import Prelude PyDict PyFloat Utf8 PyText PyValue JsonLoads.
Open Scope Z_scope.
Local Notation text := Utf8.text.
Local Notation bytes := Utf8.bytes.

(** What the module's own errors say. *)
Inductive protocol_error : Type :=
  | ClientClosed
  | ClientClosedMeanwhile
  | ServerClosed
  | FailedToStart
  | NotJson
  | OutboundTooLong
  | ClosedUnexpectedly (tail : text)
  | HeaderTooLong
  | MalformedHeader
  | InvalidLength
  | FrameTooLong
  | InvalidJson
  | NotAnObject
  | ReaderFailed.

Inductive wide_encoding : Type := Utf16 | Utf32 | Utf16BE | Utf16LE | Utf32BE | Utf32LE.

Record Config : Type := {
  max_frame_bytes : Z;
  float_repr : float64 → text;
  decode_wide : wide_encoding → bytes → option text;
  _redact_stderr : text → text;
  listens : bool
}.

Definition MAX_HEADER_BYTES : Z := 64 * 1024.
Definition MAX_STDERR_BYTES : Z := 16 * 1024.

(** The limit of [asyncio.StreamReader]. *)
Definition STREAM_LIMIT : Z := 64 * 1024.

(** ** Writing a frame *)

(** A string as [json.dumps] prints it with [ensure_ascii=False]. *)
Definition plain_char (c : Z) : text := if (c <? 32) || (c =? 34) || (c =? 92) then print_char c else [c].
Definition plain_text (t : text) : text := 34 :: flat_map plain_char t ++ [34].

(** [json.dumps(v, ensure_ascii=False, separators=(",", ":"), allow_nan=False)]; [None] when it
    raises ValueError. *)
Fixpoint dumps_plain (float_repr : float64 → text) (v : pv) : option text :=
  match v with
  | PNone => Some (lit "null")
  | PBool b => Some (lit (if b then "true" else "false"))
  | PInt z => if (length (decimal (Z.abs z)) <=? MAX_STR_DIGITS)%nat then Some (decimal z) else None
  | PFloat f => if fl_finite f then Some (float_repr f) else None
  | PStr s => Some (plain_text s)
  | PList l => (λ ts, 91 :: join_commas ts ++ [93]) <$> mapM (dumps_plain float_repr) l
  | PDict d => (λ ts, 123 :: join_commas ts ++ [125]) <$> mapM (λ p, (λ t, plain_text p.1 ++ 58 :: t) <$> dumps_plain float_repr p.2) d
  end.

(** [t.encode("utf-8")]; [None] when it raises on a surrogate. *)
Definition encode_strict (t : text) : option bytes := if forallb scalar t then Some (encode t) else None.

(** The frame of a message: the part of [_write_message] between the check of the process and the
    lock.

    [src: travis/coding_agent/language_services/jsonrpc.py:228-234 JsonRpcStdioClient._write_message (the frame)] *)
Definition frame_of (c : Config) (payload : pv) : result protocol_error bytes :=
  match t ← dumps_plain (float_repr c) payload; encode_strict t with
  | None => Err NotJson
  | Some body =>
      let n := Z.of_nat (length body) in
      if max_frame_bytes c <? n then Err OutboundTooLong
      else Ok (lit "Content-Length: " ++ decimal n ++ [13; 10; 13; 10] ++ body)
  end.

(** ** Reading frames *)

(** [b.split(b"\r\n")] *)
Fixpoint split_crlf (line : bytes) (b : bytes) : list bytes :=
  match b with
  | [] => [line]
  | x :: rest => match rest with
                 | y :: rest' => if (x =? 13) && (y =? 10) then line :: split_crlf [] rest' else split_crlf (line ++ [x]) rest
                 | [] => [line ++ [x]]
                 end
  end.

(** A line of the header: its name and its value. *)
Definition header_line (line : bytes) : option (text * text) :=
  if forallb (λ b, b <? 128) line then
    match find [58] line with
    | Some i => Some (lower (strip (take i line)), strip (drop (S i) line))
    | None => None
    end
  else None.

(** The length that a header gives.

    [src: travis/coding_agent/language_services/jsonrpc.py:254-267 JsonRpcStdioClient._reader_loop (the header)] *)
Definition content_length (c : Config) (header : bytes) : result protocol_error Z :=
  match mapM header_line (split_crlf [] (take (length header - 4) header)) with
  | None => Err MalformedHeader
  | Some lines =>
      match py_int (default [] (od_get (lit "content-length") (od_update lines []))) with
      | None => Err InvalidLength
      | Some n => if (n <? 0) || (max_frame_bytes c <? n) then Err FrameTooLong else Ok n
      end
  end.

(** [json.detect_encoding], [None] for UTF-8. *)
Definition detect_encoding (b : bytes) : option wide_encoding :=
  if is_prefix [0; 0; 254; 255] b || is_prefix [255; 254; 0; 0] b then Some Utf32
  else if is_prefix [254; 255] b || is_prefix [255; 254] b then Some Utf16
  else match b with
       | b0 :: b1 :: b2 :: b3 :: _ =>
           if b0 =? 0 then Some (if b1 =? 0 then Utf32BE else Utf16BE)
           else if b1 =? 0 then Some (if (b2 =? 0) && (b3 =? 0) then Utf32LE else Utf16LE)
           else None
       | [b0; b1] => if b0 =? 0 then Some Utf16BE else if b1 =? 0 then Some Utf16LE else None
       | _ => None
       end.

(** [b.decode("utf-8", "surrogatepass")]; the fuel is the number of bytes. *)
Fixpoint decode_pass (fuel : nat) (b : bytes) : option text :=
  match fuel, b with
  | _, [] => Some []
  | O, _ => None
  | S fuel, b0 :: _ =>
      match feed [] (take (char_len b0) b) with
      | ([Some x], []) => cons x <$> decode_pass fuel (drop (char_len b0) b)
      | _ =>
          match b with
          | b0 :: b1 :: b2 :: rest =>
              if (b0 =? 237) && in_range 160 191 b1 && in_range 128 191 b2
              then cons (53248 + 64 * (b1 - 128) + (b2 - 128)) <$> decode_pass fuel rest
              else None
          | _ => None
          end
      end
  end.

(** [json.loads(body)] *)
Definition loads_body (c : Config) (body : bytes) : result protocol_error pv :=
  let decoded :=
    match detect_encoding body with
    | Some e => decode_wide c e body
    | None => let b := if is_prefix [239; 187; 191] body then drop 3 body else body in decode_pass (length b) b
    end in
  match decoded with
  | None => Err InvalidJson
  | Some t => match loads t with Ok v => Ok v | Err JSONDecodeError => Err InvalidJson | Err IntTooLong => Err ReaderFailed end
  end.

(** What a reader has received and waits for: a header, or the body of a header it has read. *)
Record Stream : Type := { buffer : bytes; body_of : option Z; eof : bool }.

(** What one turn of a reader does: it waits, goes on, hands over a message, or fails. *)
Inductive turn : Type :=
  | Waits
  | GoesOn (s : Stream)
  | Hands (message : list (text * pv)) (s : Stream)
  | FailsWith (e : protocol_error)
  | LosesServer.

(** [reader.readuntil(b"\r\n\r\n")] and the reading of the header, or [reader.readexactly] and the
    reading of the body.

    [src: travis/coding_agent/language_services/jsonrpc.py:244-283 JsonRpcStdioClient._reader_loop] *)
Definition reader_turn (c : Config) (s : Stream) : turn :=
  let b := buffer s in
  match body_of s with
  | None =>
      match find [13; 10; 13; 10] b with
      | Some i =>
          if STREAM_LIMIT <? Z.of_nat i then LosesServer
          else
            let header := take (i + 4) b in
            if MAX_HEADER_BYTES <? Z.of_nat (length header) then FailsWith HeaderTooLong
            else match content_length c header with
                 | Err e => FailsWith e
                 | Ok n => GoesOn {| buffer := drop (i + 4) b; body_of := Some n; eof := eof s |}
                 end
      | None =>
          if STREAM_LIMIT <? Z.of_nat (length b) - 3 then LosesServer
          else if eof s then LosesServer else Waits
      end
  | Some n =>
      if n <=? Z.of_nat (length b) then
        match loads_body c (take (Z.to_nat n) b) with
        | Err e => FailsWith e
        | Ok (PDict message) => Hands message {| buffer := drop (Z.to_nat n) b; body_of := None; eof := eof s |}
        | Ok _ => FailsWith NotAnObject
        end
      else if eof s then LosesServer else Waits
  end.

(** A reader on its own, as long as it can go on: the messages that it hands over, and where it
    stops. *)
Fixpoint read_stream (c : Config) (fuel : nat) (s : Stream) : list (list (text * pv)) * turn * Stream :=
  match fuel with
  | O => ([], GoesOn s, s)
  | S fuel =>
      match reader_turn c s with
      | GoesOn s => read_stream c fuel s
      | Hands m s => let '(ms, t, s) := read_stream c fuel s in (m :: ms, t, s)
      | t => ([], t, s)
      end
  end.

(** The reader behind a pipe that delivers its bytes in chunks. *)
Fixpoint read_chunks (c : Config) (chunks : list bytes) (s : Stream) : list (list (text * pv)) * Stream :=
  match chunks with
  | [] => ([], s)
  | chunk :: chunks =>
      let b := buffer s ++ chunk in
      let '(ms, _, s) := read_stream c (2 + 2 * length b) {| buffer := b; body_of := body_of s; eof := eof s |} in
      let '(ms', s) := read_chunks c chunks s in
      (ms ++ ms', s)
  end.

(** ** The client *)

(** How a coroutine ends. *)
Inductive outcome : Type :=
  | Returned (v : pv)
  | RequestError (code : option pv) (message : text)
  | ProtocolError (e : protocol_error)
  | TimedOut
  | CancelledError.

(** A future of [_pending]: [Settled o] is done. *)
Inductive answer : Type := Awaited | Settled (o : outcome).

(** What a message is written for: a request, a notification, or the cancellation of a request that
    ends as [o] in any case. *)
Inductive purpose : Type := ForRequest (id : Z) | ForNotice | ForCancel (id : Z) (o : outcome).

(** Where a coroutine is suspended. *)
Inductive phase : Type :=
  | NeedsStart
  | Spawning
  | Writing (w : purpose) (process : nat) (frame : bytes)
  | Draining (w : purpose)
  | Waiting (id : Z)
  | Ended (o : outcome).

Record Call : Type := { method : text; params : pv; is_request : bool; at_phase : phase }.

(** A language server: whether it runs ([returncode is None]), what was written to it, its
    output, and whether its reader still reads. *)
Record Process : Type := { running : bool; written : bytes; stream : Stream; reads : bool }.

(** [src: travis/coding_agent/language_services/jsonrpc.py:73-103 JsonRpcStdioClient.__init__]:
    [pending] are the keys of [_pending], whose futures are [answers]; [closing_process] is the
    process that [_close] waits for; [notified] what the listener has heard. *)
Record Client : Type := {
  closing : bool;
  process : option nat;
  closing_process : option nat;
  processes : list Process;
  next_id : Z;
  pending : list Z;
  answers : list (Z * answer);
  calls : list Call;
  start_lock : option nat;
  write_lock : option nat;
  stderr_chunks : list bytes;
  stderr_size : Z;
  notified : list (text * pv)
}.

Definition new_client : Client :=
  {| closing := false; process := None; closing_process := None; processes := []; next_id := 1; pending := []; answers := []; calls := []; start_lock := None;
     write_lock := None; stderr_chunks := []; stderr_size := 0; notified := [] |}.

(** *** Updates *)

Definition with_calls (f : list Call → list Call) (s : Client) : Client :=
  {| closing := closing s; process := process s; closing_process := closing_process s; processes := processes s; next_id := next_id s; pending := pending s; answers := answers s;
     calls := f (calls s); start_lock := start_lock s; write_lock := write_lock s; stderr_chunks := stderr_chunks s;
     stderr_size := stderr_size s; notified := notified s |}.
Definition set_phase (k : nat) (p : phase) : Client → Client :=
  with_calls (alter (λ call, {| method := method call; params := params call; is_request := is_request call; at_phase := p |}) k).
Definition with_table (n : Z) (ps : list Z) (ans : list (Z * answer)) (s : Client) : Client :=
  {| closing := closing s; process := process s; closing_process := closing_process s; processes := processes s; next_id := n; pending := ps; answers := ans; calls := calls s;
     start_lock := start_lock s; write_lock := write_lock s; stderr_chunks := stderr_chunks s; stderr_size := stderr_size s;
     notified := notified s |}.
Definition set_answers (f : list (Z * answer) → list (Z * answer)) (s : Client) : Client := with_table (next_id s) (pending s) (f (answers s)) s.
Definition set_pending (f : list Z → list Z) (s : Client) : Client := with_table (next_id s) (f (pending s)) (answers s) s.
Definition with_locks (st wr : option nat) (s : Client) : Client :=
  {| closing := closing s; process := process s; closing_process := closing_process s; processes := processes s; next_id := next_id s; pending := pending s; answers := answers s;
     calls := calls s; start_lock := st; write_lock := wr; stderr_chunks := stderr_chunks s; stderr_size := stderr_size s; notified := notified s |}.
Definition with_server (p : option nat) (ps : list Process) (s : Client) : Client :=
  {| closing := closing s; process := p; closing_process := closing_process s; processes := ps; next_id := next_id s; pending := pending s; answers := answers s; calls := calls s;
     start_lock := start_lock s; write_lock := write_lock s; stderr_chunks := stderr_chunks s; stderr_size := stderr_size s; notified := notified s |}.
Definition with_closing (cl : bool) (waits_for : option nat) (s : Client) : Client :=
  {| closing := cl; process := process s; closing_process := waits_for; processes := processes s; next_id := next_id s; pending := pending s;
     answers := answers s; calls := calls s; start_lock := start_lock s; write_lock := write_lock s; stderr_chunks := stderr_chunks s;
     stderr_size := stderr_size s; notified := notified s |}.
Definition set_process (g : nat) (f : Process → Process) (s : Client) : Client := with_server (process s) (alter f g (processes s)) s.
Definition with_output (chunks : list bytes) (size : Z) (ns : list (text * pv)) (s : Client) : Client :=
  {| closing := closing s; process := process s; closing_process := closing_process s; processes := processes s; next_id := next_id s; pending := pending s; answers := answers s;
     calls := calls s; start_lock := start_lock s; write_lock := write_lock s; stderr_chunks := chunks; stderr_size := size; notified := ns |}.

(** *** Standard error *)

(** A chunk that [_stderr_loop] has read: the oldest go when there are too many bytes. *)
Fixpoint drop_chunks (chunks : list bytes) (size : Z) : list bytes * Z :=
  match chunks with
  | removed :: rest => if MAX_STDERR_BYTES <? size then drop_chunks rest (size - Z.of_nat (length removed)) else (chunks, size)
  | [] => ([], size)
  end.

(** [src: travis/coding_agent/language_services/jsonrpc.py:306-319 JsonRpcStdioClient._stderr_loop] *)
Definition _stderr_loop (chunk : bytes) (s : Client) : Client :=
  let '(chunks, size) := drop_chunks (stderr_chunks s ++ [chunk]) (stderr_size s + Z.of_nat (length chunk)) in
  with_output chunks size (notified s) s.

(** [src: travis/coding_agent/language_services/jsonrpc.py:321-323 JsonRpcStdioClient._stderr_tail] *)
Definition _stderr_tail (c : Config) (s : Client) : text :=
  let all := concat (stderr_chunks s) in
  let raw := drop (length all - Z.to_nat MAX_STDERR_BYTES) all in
  strip (_redact_stderr c (decode_replace raw)).

(** [src: travis/coding_agent/language_services/jsonrpc.py:325-327 JsonRpcStdioClient._closed_message] *)
Definition _closed_message (c : Config) (s : Client) : protocol_error := ClosedUnexpectedly (_stderr_tail c s).

(** *** The table of requests *)

(** [src: travis/coding_agent/language_services/jsonrpc.py:329-332 JsonRpcStdioClient._fail_pending] *)
Definition _fail_pending (e : protocol_error) (s : Client) : Client :=
  set_answers (λ ans, List.map (λ p, (p.1, match p.2 with
                                          | Awaited => if bool_decide (p.1 ∈ pending s) then Settled (ProtocolError e) else Awaited
                                          | a => a
                                          end)) ans) s.

(** [isinstance(value, int)], a bool too. *)
Definition int_of (v : pv) : option Z := match v with PInt z => Some z | PBool b => Some (Z.b2z b) | _ => None end.

(** What a message that answers a request settles it with. *)
Definition answer_of (message : list (text * pv)) : outcome :=
  match p_get "error" message with
  | Some (PDict error) =>
      let code := match p_get "code" error with Some v => match int_of v with Some _ => Some v | None => None end | None => None end in
      let said := match p_get "message" error with Some (PStr t) => t | _ => lit "unknown error" end in
      RequestError code (take 1000 said)
  | _ => Returned (default PNone (p_get "result" message))
  end.

Definition is_answer (message : list (text * pv)) : bool :=
  match p_get "id" message with
  | Some _ => match p_get "result" message, p_get "error" message with None, None => false | _, _ => true end
  | None => false
  end.

(** [src: travis/coding_agent/language_services/jsonrpc.py:285-304 JsonRpcStdioClient._handle_message] *)
Definition _handle_message (c : Config) (message : list (text * pv)) (s : Client) : Client :=
  if is_answer message then
    match p_get "id" message with
    | Some v =>
        match int_of v with
        | Some id =>
            if bool_decide (id ∈ pending s) then
              match od_get id (answers s) with
              | Some Awaited => set_answers (od_set id (Settled (answer_of message))) s
              | _ => s
              end
            else s
        | None => s
        end
    | None => s
    end
  else match p_get "method" message with
       | Some (PStr m) => if listens c then with_output (stderr_chunks s) (stderr_size s) (notified s ++ [(m, default PNone (p_get "params" message))]) s else s
       | _ => s
       end.

(** *** The coroutines of callers *)

(** The end of a coroutine: the [finally] of [_request].

    [src: travis/coding_agent/language_services/jsonrpc.py:198-204 JsonRpcStdioClient._request (its end)] *)
Definition finish (k : nat) (w : purpose) (o : outcome) (s : Client) : Client :=
  match w with
  | ForNotice => set_phase k (Ended o) s
  | ForRequest id | ForCancel id _ => set_phase k (Ended o) (set_pending (List.filter (λ i, negb (i =? id))) s)
  end.

(** What comes behind a message that could not be written. *)
Definition not_written (k : nat) (w : purpose) (e : protocol_error) : Client → Client :=
  match w with ForCancel _ o => finish k w o | _ => finish k w (ProtocolError e) end.

(** And behind one that was. *)
Definition after_write (k : nat) (w : purpose) : Client → Client :=
  match w with
  | ForRequest id => set_phase k (Waiting id)
  | ForNotice => finish k w (Returned PNone)
  | ForCancel _ o => finish k w o
  end.

(** The process, when it runs. *)
Definition live_process (s : Client) : option nat :=
  g ← process s; p ← processes s !! g; if running p then Some g else None.

(** [_write_message] up to its lock.

    [src: travis/coding_agent/language_services/jsonrpc.py:223-242 JsonRpcStdioClient._write_message] *)
Definition _write_message (c : Config) (k : nat) (w : purpose) (payload : pv) (s : Client) : Client :=
  if closing s then not_written k w ServerClosed s
  else match live_process s with
       | None => not_written k w ServerClosed s
       | Some g => match frame_of c payload with
                   | Err e => not_written k w e s
                   | Ok frame => set_phase k (Writing w g frame) s
                   end
       end.

Definition request_message (id : Z) (call : Call) : pv :=
  PDict [(lit "jsonrpc", PStr (lit "2.0")); (lit "id", PInt id); (lit "method", PStr (method call)); (lit "params", params call)].
Definition notice_message (call : Call) : pv :=
  PDict [(lit "jsonrpc", PStr (lit "2.0")); (lit "method", PStr (method call)); (lit "params", params call)].
Definition cancel_message (id : Z) : pv :=
  PDict [(lit "jsonrpc", PStr (lit "2.0")); (lit "method", PStr (lit "$/cancelRequest")); (lit "params", PDict [(lit "id", PInt id)])].

(** [_request] and [_notify] when the server has been started; [aborted] is the signal.

    [src: travis/coding_agent/language_services/jsonrpc.py:158-204 JsonRpcStdioClient._request] *)
Definition started (c : Config) (k : nat) (aborted : bool) (s : Client) : Client :=
  match calls s !! k with
  | None => s
  | Some call =>
      if is_request call then
        if aborted then set_phase k (Ended CancelledError) s
        else
          let id := next_id s in
          let s := with_table (id + 1) (pending s ++ [id]) (od_set id Awaited (answers s)) s in
          _write_message c k (ForRequest id) (request_message id call) s
      else _write_message c k ForNotice (notice_message call) s
  end.

(** What [create_subprocess_exec] does. *)
Inductive spawn : Type := Spawned | SpawnTimesOut | SpawnFails.

(** Why a caller goes on from its wait: the abort is looked at first. *)
Inductive cause : Type := Answered | Aborts | WaitsTooLong.

Inductive action : Type :=
  | Request (m : text) (p : pv)
  | Notify (m : text) (p : pv)
  | Exit
  | Start (k : nat) (aborted : bool)
  | SpawnEnds (k : nat) (r : spawn) (aborted : bool)
  | Write (k : nat) (ok : bool)
  | Drained (k : nat) (ok : bool)
  | Wake (k : nat) (why : cause)
  | Kill (k : nat)
  | Receive (g : nat) (chunk : bytes)
  | EndOfFile (g : nat)
  | ReaderTurn (g : nat)
  | Stderr (chunk : bytes)
  | Dies (g : nat)
  | CloseBegins
  | CloseEnds.

Definition phase_of (k : nat) (s : Client) : option phase := at_phase <$> calls s !! k.
Definition open_call (m : text) (p : pv) (is_request : bool) (s : Client) : Client :=
  with_calls (λ l, l ++ [{| method := m; params := p; is_request := is_request; at_phase := if closing s then Ended (ProtocolError ClientClosed) else NeedsStart |}]) s.

(** [_start] when it has its lock.

    [src: travis/coding_agent/language_services/jsonrpc.py:119-146 JsonRpcStdioClient._start] *)
Definition _start (c : Config) (k : nat) (aborted : bool) (s : Client) : Client :=
  match live_process s with
  | Some _ => started c k aborted s
  | None => if closing s then set_phase k (Ended (ProtocolError ClientClosed)) s
            else set_phase k Spawning (with_locks (Some k) (write_lock s) s)
  end.

Definition spawn_ends (c : Config) (k : nat) (r : spawn) (aborted : bool) (s : Client) : Client :=
  let s := with_locks None (write_lock s) s in
  match r with
  | Spawned =>
      let p := {| running := true; written := []; stream := {| buffer := []; body_of := None; eof := false |}; reads := true |} in
      started c k aborted (with_server (Some (length (processes s))) (processes s ++ [p]) s)
  | SpawnTimesOut => set_phase k (Ended TimedOut) s
  | SpawnFails => set_phase k (Ended (ProtocolError FailedToStart)) s
  end.

(** A caller that waits for its answer goes on.  [Answered] and [WaitsTooLong] exclude each other.

    [src: travis/coding_agent/language_services/jsonrpc.py:215-221 JsonRpcStdioClient._cancel_request] *)
Definition wake (c : Config) (k : nat) (id : Z) (why : cause) (s : Client) : option Client :=
  match why, od_get id (answers s) with
  | Answered, Some (Settled o) => Some (finish k (ForRequest id) o s)
  | Aborts, _ => Some (_write_message c k (ForCancel id CancelledError) (cancel_message id) s)
  | WaitsTooLong, Some Awaited => Some (_write_message c k (ForCancel id TimedOut) (cancel_message id) s)
  | _, _ => None
  end.

(** A caller is cancelled wherever it is suspended. *)
Definition kill (k : nat) (p : phase) (s : Client) : option Client :=
  let s := with_locks (if bool_decide (start_lock s = Some k) then None else start_lock s) (if bool_decide (write_lock s = Some k) then None else write_lock s) s in
  match p with
  | Ended _ => None
  | NeedsStart | Spawning => Some (set_phase k (Ended CancelledError) s)
  | Writing w _ _ | Draining w => Some (finish k w CancelledError s)
  | Waiting id => Some (finish k (ForRequest id) CancelledError s)
  end.

(** A turn of the reader of a process. *)
Definition take_turn (c : Config) (g : nat) (p : Process) (s : Client) : option Client :=
  let keep st := set_process g (λ p, {| running := running p; written := written p; stream := st; reads := true |}) in
  let stop := set_process g (λ p, {| running := running p; written := written p; stream := stream p; reads := false |}) in
  match reader_turn c (stream p) with
  | Waits => None
  | GoesOn st => Some (keep st s)
  | Hands message st => Some (_handle_message c message (keep st s))
  | FailsWith e => Some (_fail_pending e (stop s))
  | LosesServer => Some (_fail_pending (_closed_message c s) (stop s))
  end.

(** [_close] from the end of its handshake to its wait for the process; a client without a process is
    closed by that.

    [src: travis/coding_agent/language_services/jsonrpc.py:358-397 JsonRpcStdioClient._close] *)
Definition close_begins (s : Client) : Client :=
  let s' := with_closing true (process s) s in
  match process s with None => s' | Some _ => _fail_pending ClientClosedMeanwhile s' end.

(** And behind it: the process is dead, the reader cancelled.

    [src: travis/coding_agent/language_services/jsonrpc.py:380-397 JsonRpcStdioClient._close (its end)] *)
Definition close_ends (g : nat) (s : Client) : Client :=
  let s := set_process g (λ p, {| running := false; written := written p; stream := stream p; reads := false |}) s in
  set_pending (λ _, []) (with_closing (closing s) None (with_server None (processes s) s)).

Definition step (c : Config) (a : action) (s : Client) : option Client :=
  match a with
  | Request m p => Some (open_call m p true s)
  | Notify m p => Some (open_call m p false s)
  | Exit =>
      let call := {| method := lit "exit"; params := PNone; is_request := false; at_phase := NeedsStart |} in
      let k := length (calls s) in
      if closing s then None else Some (_write_message c k ForNotice (notice_message call) (with_calls (λ l, l ++ [call]) s))
  | Start k aborted =>
      match phase_of k s, start_lock s with Some NeedsStart, None => Some (_start c k aborted s) | _, _ => None end
  | SpawnEnds k r aborted => match phase_of k s with Some Spawning => Some (spawn_ends c k r aborted s) | _ => None end
  | Write k ok =>
      match phase_of k s, write_lock s with
      | Some (Writing w g frame), None =>
          if ok then
            Some (set_phase k (Draining w) (with_locks (start_lock s) (Some k)
                    (set_process g (λ p, {| running := running p; written := written p ++ frame; stream := stream p; reads := reads p |}) s)))
          else Some (not_written k w (_closed_message c s) s)
      | _, _ => None
      end
  | Drained k ok =>
      match phase_of k s with
      | Some (Draining w) =>
          let s' := with_locks (start_lock s) None s in
          Some (if ok then after_write k w s' else not_written k w (_closed_message c s) s')
      | _ => None
      end
  | Wake k why => match phase_of k s with Some (Waiting id) => wake c k id why s | _ => None end
  | Kill k => p ← phase_of k s; kill k p s
  | Receive g chunk =>
      p ← processes s !! g;
      if eof (stream p) then None
      else Some (set_process g (λ p, {| running := running p; written := written p; reads := reads p;
                   stream := {| buffer := buffer (stream p) ++ chunk; body_of := body_of (stream p); eof := false |} |}) s)
  | EndOfFile g =>
      _ ← processes s !! g;
      Some (set_process g (λ p, {| running := running p; written := written p; reads := reads p;
              stream := {| buffer := buffer (stream p); body_of := body_of (stream p); eof := true |} |}) s)
  | ReaderTurn g => p ← processes s !! g; if reads p then take_turn c g p s else None
  | Stderr chunk => Some (_stderr_loop chunk s)
  | Dies g =>
      _ ← processes s !! g;
      Some (set_process g (λ p, {| running := false; written := written p; stream := stream p; reads := reads p |}) s)
  | CloseBegins => if closing s then None else Some (close_begins s)
  | CloseEnds => g ← closing_process s; Some (close_ends g s)
  end.

Fixpoint run (c : Config) (l : list action) (s : Client) : option Client :=
  match l with [] => Some s | a :: l => s ← step c a s; run c l s end.
