(* ===== verification/JsonRpcSpec.v ===== *)
(** The frames of the JSON-RPC client: what is written is read, in whatever chunks. *)

From Stdlib Require Import Decimal DecimalPos DecimalZ DecimalFacts.
From S2P Require Import Prelude PyDict PyFloat Utf8 PyText PyValue JsonLoads JsonLoadsSpec JsonRpc.
Open Scope Z_scope.
Local Notation text := Utf8.text.
Local Notation bytes := Utf8.bytes.

(** ** Decimal numerals *)

(** The digits of a numeral as characters. *)
Fixpoint digits (u : Decimal.uint) : text :=
  match u with
  | Nil => []
  | D0 u => 48 :: digits u | D1 u => 49 :: digits u | D2 u => 50 :: digits u | D3 u => 51 :: digits u | D4 u => 52 :: digits u
  | D5 u => 53 :: digits u | D6 u => 54 :: digits u | D7 u => 55 :: digits u | D8 u => 56 :: digits u | D9 u => 57 :: digits u
  end.

Fixpoint value_of (acc : Z) (u : Decimal.uint) : Z :=
  match u with
  | Nil => acc
  | D0 u => value_of (10 * acc + 0) u | D1 u => value_of (10 * acc + 1) u | D2 u => value_of (10 * acc + 2) u
  | D3 u => value_of (10 * acc + 3) u | D4 u => value_of (10 * acc + 4) u | D5 u => value_of (10 * acc + 5) u
  | D6 u => value_of (10 * acc + 6) u | D7 u => value_of (10 * acc + 7) u | D8 u => value_of (10 * acc + 8) u
  | D9 u => value_of (10 * acc + 9) u
  end.

Lemma digits_string u : List.map code (chars (DecimalString.NilEmpty.string_of_uint u)) = digits u.
Proof. induction u; [done|..]; exact (f_equal (cons _) IHu). Qed.

Lemma value_of_acc u p : value_of (Zpos p) u = Zpos (Pos.of_uint_acc u p).
Proof.
  revert p. induction u as [|u IH|u IH|u IH|u IH|u IH|u IH|u IH|u IH|u IH|u IH]; intros p; cbn [value_of Pos.of_uint_acc]; [done|..];
    rewrite <- IH; f_equal; lia.
Qed.

Lemma value_of_uint u : value_of 0 u = Z.of_uint u.
Proof. unfold Z.of_uint. induction u; cbn [value_of Pos.of_uint Z.of_N]; [done|exact IHu|..]; apply value_of_acc. Qed.

Lemma take_digits_app acc n u r : no_digit r → take_digits acc n (digits u ++ r) = (value_of acc u, (n + length (digits u))%nat, r).
Proof.
  intros Hr. revert acc n. induction u; intros acc n; cbn [digits app length value_of].
  { rewrite Nat.add_0_r. destruct r as [|c r]; [done|]. cbn. unfold no_digit in Hr. by rewrite Hr. }
  all: cbn [take_digits]; unfold is_digit, in_range; cbn -[take_digits value_of Z.mul Z.add]; rewrite IHu.
  all: by rewrite Nat.add_succ_comm.
Qed.

(** A numeral without leading zeros. *)
Definition normal (u : Decimal.uint) : Prop := match u with Nil => False | D0 u => u = Nil | _ => True end.

Lemma to_uint_normal p : normal (Pos.to_uint p) ∧ Pos.to_uint p ≠ D0 Nil.
Proof.
  pose proof (DecimalPos.Unsigned.to_uint_nonnil p) as H1. pose proof (DecimalPos.Unsigned.to_uint_nonzero p) as H2. split; [|done].
  destruct (Pos.to_uint p) as [|u|u|u|u|u|u|u|u|u|u] eqn:E; try done. exfalso.
  pose proof (DecimalPos.Unsigned.to_of (D0 u)) as H. rewrite <- E, DecimalPos.Unsigned.of_to in H. cbn [N.to_uint] in H. rewrite E in H.
  unfold unorm in H. destruct (nzhead (D0 u)) as [|v|v|v|v|v|v|v|v|v|v] eqn:En; try done. by eapply nzhead_nonzero.
Qed.

Lemma nil_zero u : u ≠ Nil → DecimalString.NilZero.string_of_uint u = DecimalString.NilEmpty.string_of_uint u.
Proof. by destruct u. Qed.

(** The numeral of an integer: a sign and normal digits. *)
Lemma decimal_shape z : ∃ u, decimal z = (if z <? 0 then [45] else []) ++ digits u ∧ value_of 0 u = Z.abs z ∧ normal u ∧ decimal (Z.abs z) = digits u.
Proof.
  unfold decimal, DecimalString.NilZero.string_of_int. destruct z as [|p|p].
  - by exists (D0 Nil).
  - destruct (to_uint_normal p) as [Hn _]. exists (Pos.to_uint p). change (Z.abs (Z.pos p)) with (Z.pos p). cbn [Z.to_int].
    rewrite nil_zero by (by intros E; rewrite E in Hn). rewrite digits_string. split; [done|]. split; [|done].
    rewrite value_of_uint. unfold Z.of_uint. by rewrite DecimalPos.Unsigned.of_to.
  - destruct (to_uint_normal p) as [Hn _]. exists (Pos.to_uint p). change (Z.abs (Z.neg p)) with (Z.pos p). cbn [Z.to_int].
    rewrite nil_zero by (by intros E; rewrite E in Hn). split; [exact (f_equal (cons 45) (digits_string _))|]. split; [|split; [done|apply digits_string]].
    rewrite value_of_uint. unfold Z.of_uint. by rewrite DecimalPos.Unsigned.of_to.
Qed.

Lemma digits_range u : Forall (λ c, is_digit c = true) (digits u).
Proof. induction u; cbn [digits]; [constructor|..]; by constructor. Qed.

Lemma digits_head u : normal u → ∃ c w, digits u = c :: w ∧ is_digit c = true ∧ (c = 48 → w = []).
Proof.
  destruct u as [|u|u|u|u|u|u|u|u|u|u]; cbn [normal digits]; [done|intros ->; by eexists _, _|intros _..]; by eexists _, _.
Qed.

(** The digits of a numeral as an integer part. *)
Lemma take_whole_digits u r : normal u → no_digit r → take_whole (digits u ++ r) = Some (value_of 0 u, length (digits u), r).
Proof.
  intros Hn Hr. destruct (digits_head u Hn) as (c & w & E & Hc & Hz). pose proof (take_digits_app 0 0 u r Hr) as H. rewrite E in H |- *.
  cbn [app] in H |- *. unfold take_whole. destruct (Z.eqb_spec c 48) as [->|Hne].
  - rewrite Hz by done. rewrite Hz in E by done. destruct u; cbn in E; try done. injection E as E. destruct u; by cbn in E.
  - rewrite Hc, H. by rewrite Nat.add_0_l.
Qed.

(** An integer is a number of the grammar. *)
Lemma number_decimal z : (length (decimal (Z.abs z)) <= MAX_STR_DIGITS)%nat → number (decimal z) (PInt z).
Proof.
  destruct (decimal_shape z) as (u & E & Hv & Hn & Ha). rewrite Ha, E. intros Hl. destruct (digits_head u Hn) as (c & w & Eu & Hc & _).
  assert (token (digits u)) as Ht.
  { unfold token. apply forallb_forall. intros x Hx. apply digit_token. pose proof (digits_range u) as Hr. eapply Forall_forall in Hr; [exact Hr|]. by apply list_elem_of_In. }
  split; [|split; [|split; [done|]]].
  - destruct (z <? 0); cbn [app]; [right; by rewrite !elem_of_cons; auto|]. rewrite Eu. by left.
  - destruct (z <? 0); cbn [app]; [|done]. by apply (token_app [45]).
  - intros r Hr. destruct (stops_frac r Hr) as [Hr1 Hr2]. pose proof (digit_constant c (w ++ r) Hc) as [C1 C2].
    assert (scan_constant (((if z <? 0 then [45] else []) ++ digits u) ++ r) = None) as ->.
    { rewrite Eu. destruct (z <? 0); cbn [app]; done. }
    unfold scan_number. assert (take_minus (((if z <? 0 then [45] else []) ++ digits u) ++ r) = (z <? 0, digits u ++ r)) as ->.
    { destruct (z <? 0); [done|]. rewrite Eu. cbn [app take_minus]. destruct (Z.eqb_spec c 45) as [->|]; done. }
    cbn iota beta. rewrite take_whole_digits by done.
    assert (take_fraction (value_of 0 u) r = (None, r)) as ->.
    { destruct r as [|x r]; [done|]. cbn. by rewrite (proj2 (Z.eqb_neq x 46)). }
    assert (take_exponent_part r = (None, r)) as ->.
    { destruct r as [|x r]; [done|]. destruct Hr as (_ & _ & H1 & H2). cbn. by rewrite (proj2 (Z.eqb_neq x 101)), (proj2 (Z.eqb_neq x 69)). }
    rewrite (proj2 (Nat.leb_le _ _) Hl), Hv. destruct (Z.ltb_spec z 0); do 2 f_equal; f_equal; lia.
Qed.

(** ** What is printed is of the grammar *)

(** A value as a program holds it: characters are numbers that are not negative, the keys of a
    dict are distinct, and the repr of a float is read as the float. *)
Fixpoint proper (float_repr : float64 → text) (v : pv) : Prop :=
  match v with
  | PFloat f => number (float_repr f) (PFloat f)
  | PStr s => Forall (λ x, 0 <= x) s
  | PList l => (fix all l := match l with [] => True | x :: l => proper float_repr x ∧ all l end) l
  | PDict d => NoDup d.*1 ∧
      (fix all d := match d with [] => True | (k, x) :: d => Forall (λ x, 0 <= x) k ∧ proper float_repr x ∧ all d end) d
  | _ => True
  end.

Lemma proper_list fr l : proper fr (PList l) → Forall (proper fr) l.
Proof. cbn. induction l as [|x l IH]; [constructor|]. intros [H1 H2]. constructor; auto. Qed.

Lemma proper_dict fr d : proper fr (PDict d) → NoDup d.*1 ∧ Forall (λ p, Forall (λ x, 0 <= x) p.1 ∧ proper fr p.2) d.
Proof. cbn. intros [Hd H]. split; [done|]. clear Hd. induction d as [|[k x] d IH]; [constructor|]. destruct H as (H1 & H2 & H3). constructor; auto. Qed.

Lemma small_cases c : 0 <= c < 32 →
  c ∈ [0; 1; 2; 3; 4; 5; 6; 7; 8; 9; 10; 11; 12; 13; 14; 15; 16; 17; 18; 19; 20; 21; 22; 23; 24; 25; 26; 27; 28; 29; 30; 31].
Proof. intros H. apply (elem_of_seqZ 0 32). lia. Qed.

Lemma jstring_char c w s : 0 <= c → jstring w s → jstring (plain_char c ++ w) (c :: s).
Proof.
  intros Hc Hw. unfold plain_char. destruct (Z.ltb_spec c 32) as [Hlt|Hge].
  - cbn [orb]. pose proof (small_cases c ltac:(lia)) as Hin.
    rewrite !elem_of_cons, elem_of_nil in Hin. destruct_or! Hin; try done; subst c; cbn;
      first [apply js_short; [done|done|exact Hw]|apply js_hex; [done|done|exact Hw]].
  - cbn [orb]. destruct (Z.eqb_spec c 34) as [->|H34]; [apply js_short; [done|done|exact Hw]|].
    destruct (Z.eqb_spec c 92) as [->|H92]; [apply js_short; [done|done|exact Hw]|]. cbn [orb app]. by apply js_plain.
Qed.

Lemma jstring_text t : Forall (λ x, 0 <= x) t → jstring (flat_map plain_char t ++ [34]) t.
Proof. induction 1 as [|c t Hc _ IH]; [apply js_end|]. cbn [flat_map]. rewrite <- app_assoc. by apply jstring_char. Qed.

Lemma jitems_printed ts l : Forall2 jvalue ts l → l ≠ [] → jitems (join_commas ts ++ [93]) l.
Proof.
  induction 1 as [|t v ts l Hv Hl IH]; [done|]. intros _. destruct Hl as [|t' v' ts l Hv' Hl].
  - by apply (I_last t v []).
  - change (join_commas (t :: t' :: ts)) with (t ++ 44 :: join_commas (t' :: ts)). rewrite <- app_assoc. cbn [app].
    apply (I_more t v [] []); try done. by apply IH.
Qed.

Lemma jmembers_printed ts d : Forall2 (λ t p, ∃ w, t = plain_text p.1 ++ 58 :: w ∧ Forall (λ x, 0 <= x) p.1 ∧ jvalue w p.2) ts d → d ≠ [] →
  jmembers (join_commas ts ++ [125]) d.
Proof.
  induction 1 as [|t [k v] ts d (w & -> & Hk & Hv) Hd IH]; [done|]. intros _. apply jstring_text in Hk.
  change (k, v).1 with k in *. change (k, v).2 with v in *. destruct Hd as [|t' v' ts d Hv' Hd].
  - cbn [join_commas]. unfold plain_text. cbn [app]. rewrite <- !app_assoc. cbn [app].
    pose proof (M_last _ k [] [] w v [] Hk eq_refl eq_refl Hv eq_refl) as H. cbn [app] in H. rewrite <- app_assoc in H. exact H.
  - change (join_commas ((plain_text k ++ 58 :: w) :: t' :: ts)) with ((plain_text k ++ 58 :: w) ++ 44 :: join_commas (t' :: ts)).
    unfold plain_text. cbn [app]. rewrite <- !app_assoc. cbn [app].
    pose proof (M_more _ k [] [] w v [] [] _ (v' :: d) Hk eq_refl eq_refl Hv eq_refl eq_refl (IH ltac:(done))) as H.
    cbn [app] in H. rewrite <- !app_assoc in H. exact H.
Qed.

(** What is printed is a text of the grammar, for the value. *)
Lemma printed_value fr v : proper fr v → ∀ t, dumps_plain fr v = Some t → jvalue t v.
Proof.
  induction v as [|b|z|f|s|l IH|d IH] using pv_ind'; intros Hp t.
  - intros [= <-]. apply J_word. by left.
  - intros [= <-]. apply J_word. destruct b; [by right; left|by right; right; left].
  - cbn. destruct (Nat.leb_spec (length (decimal (Z.abs z))) MAX_STR_DIGITS); [|done]. intros [= <-]. by apply J_num, number_decimal.
  - cbn. destruct (fl_finite f); [|done]. intros [= <-]. by apply J_num.
  - intros [= <-]. apply J_str. by apply jstring_text.
  - cbn [dumps_plain]. destruct (mapM (dumps_plain fr) l) as [ts|] eqn:Em; [|done]. intros [= <-]. apply mapM_Some in Em. apply proper_list in Hp.
    assert (Forall2 jvalue ts l) as Hl.
    { clear -IH Hp Em. induction Em as [|x t l ts Hx _ IHl]; constructor.
      - apply Forall_cons in IH as [IH _], Hp as [Hp _]. by apply IH.
      - apply IHl; [by apply Forall_cons in IH as [_ IH]|by apply Forall_cons in Hp as [_ Hp]]. }
    destruct l as [|x l]; [apply Forall2_nil_inv_r in Hl as ->; by apply (J_arr0 [])|].
    apply (J_arr []); [done|]. by apply jitems_printed.
  - cbn [dumps_plain]. destruct (mapM _ d) as [ts|] eqn:Em; [|done]. intros [= <-]. apply mapM_Some in Em. apply proper_dict in Hp as [_ Hp].
    assert (Forall2 (λ t p, ∃ w, t = plain_text p.1 ++ 58 :: w ∧ Forall (λ x, 0 <= x) p.1 ∧ jvalue w p.2) ts d) as Hd.
    { clear -IH Hp Em. induction Em as [|x t d ts Hx _ IHd]; constructor.
      - apply Forall_cons in IH as [IH _], Hp as [[Hk Hp] _]. destruct (dumps_plain fr x.2) as [w|] eqn:Ew; [|done]. injection Hx as <-. exists w. auto.
      - apply IHd; [by apply Forall_cons in IH as [_ IH]|by apply Forall_cons in Hp as [_ Hp]]. }
    destruct d as [|x d]; [apply Forall2_nil_inv_r in Hd as ->; by apply (J_obj0 [])|].
    apply (J_obj []); [done|]. by apply jmembers_printed.
Qed.

Lemma dict_of_id fr v : proper fr v → dict_of v = v.
Proof.
  induction v as [|b|z|f|s|l IH|d IH] using pv_ind'; intros Hp; try done; cbn [dict_of].
  - apply proper_list in Hp. f_equal. induction Hp as [|x l Hx _ IHl]; [done|]. apply Forall_cons in IH as [H1 H2]. cbn. by rewrite H1, IHl.
  - apply proper_dict in Hp as [Hnd Hp]. f_equal.
    assert (List.map (λ p, (p.1, dict_of p.2)) d = d) as ->.
    { clear Hnd. induction Hp as [|[k x] d [_ Hx] _ IHd]; [done|]. apply Forall_cons in IH as [H1 H2]. cbn in *. by rewrite H1, IHd. }
    unfold dict_pairs. by rewrite od_update_fresh.
Qed.

(** [json.loads] of what [json.dumps] gave. *)
Lemma loads_printed fr v t : proper fr v → dumps_plain fr v = Some t → loads t = Ok v.
Proof.
  intros Hp Ht. unfold loads. rewrite (proj2 (loads_pairs_iff t v)); [cbn; by rewrite (dict_of_id fr)|].
  exists [], t, []. split; [done|]. split; [done|]. split; [by eapply printed_value|]. cbn. by rewrite app_nil_r.
Qed.

(** ** Bytes *)

Lemma encode_char_len c : scalar c = true → ∃ b bs, encode_char c = b :: bs ∧ char_len b = S (length bs).
Proof.
  intros Hc. apply scalar_iff in Hc. unfold encode_char, char_len, in_range.
  assert (∀ lo hi x, lo <= x <= hi → (lo <=? x) && (x <=? hi) = true) as Ht by (intros lo hi x [H1 H2]; by rewrite (proj2 (Z.leb_le _ _) H1), (proj2 (Z.leb_le _ _) H2)).
  assert (∀ lo hi x, x < lo ∨ hi < x → (lo <=? x) && (x <=? hi) = false) as Hf.
  { intros lo hi x [H|H]; [by rewrite (proj2 (Z.leb_gt _ _) H)|by rewrite (proj2 (Z.leb_gt _ _) H), andb_false_r]. }
  destruct (Z.ltb_spec c 128); [|destruct (Z.ltb_spec c 2048); [|destruct (Z.ltb_spec c 65536)]].
  - eexists _, _. split; [done|]. by rewrite Ht by lia.
  - pose proof (Z.div_le_lower_bound c 64 2 ltac:(lia) ltac:(lia)). pose proof (Z.div_lt_upper_bound c 64 32 ltac:(lia) ltac:(lia)).
    eexists _, _. split; [done|]. by rewrite Hf, Ht by lia.
  - pose proof (Z.div_lt_upper_bound c 4096 16 ltac:(lia) ltac:(lia)). pose proof (Z.div_pos c 4096 ltac:(lia) ltac:(lia)).
    eexists _, _. split; [done|]. by rewrite !Hf, Ht by lia.
  - pose proof (Z.div_lt_upper_bound c 262144 5 ltac:(lia) ltac:(lia)). pose proof (Z.div_pos c 262144 ltac:(lia) ltac:(lia)).
    eexists _, _. split; [done|]. by rewrite !Hf, Ht by lia.
Qed.

Lemma decode_pass_encode t fuel : is_text t → (length (encode t) <= fuel)%nat → decode_pass fuel (encode t) = Some t.
Proof.
  intros Ht. revert fuel. induction Ht as [|c t Hc _ IH]; intros fuel Hl; [by destruct fuel|]. cbn [encode flat_map] in *. fold (encode t) in *.
  destruct (encode_char_len c Hc) as (b & bs & E & Hn). pose proof (feed_encode_char c Hc) as Hf. rewrite E in *. rewrite length_app in Hl.
  destruct fuel as [|fuel]; [cbn in Hl; lia|]. cbn [app decode_pass]. rewrite Hn. cbn [take drop].
  rewrite take_app_length, Hf. rewrite drop_app_length, IH; [done|]. cbn in Hl. lia.
Qed.

(** The body of a message is read as the message. *)
Lemma loads_body_printed c m t : proper (float_repr c) (PDict m) → dumps_plain (float_repr c) (PDict m) = Some t → is_text t →
  loads_body c (encode t) = Ok (PDict m).
Proof.
  intros Hp Ht Hx. pose proof (loads_printed _ _ _ Hp Ht) as Hl. pose proof (printed_value _ _ Hp _ Ht) as Hv.
  assert (∃ x r, t = 123 :: x :: r ∧ (x = 34 ∨ x = 125)) as (x & r & -> & Hr).
  { cbn [dumps_plain] in Ht. destruct (mapM _ m) as [ts|] eqn:Em; [|done]. injection Ht as <-. apply mapM_Some in Em.
    destruct Em as [|[k v] w m ts Hw _]; [by eexists _, _; split; [done|right]|].
    destruct (dumps_plain _ (k, v).2) as [u|]; [|done]. injection Hw as <-. destruct ts as [|t' ts]; eexists _, _; (split; [done|by left]). }
  unfold loads_body. assert (encode (123 :: x :: r) = 123 :: x :: encode r) as E by by destruct Hr as [-> | ->].
  assert (detect_encoding (encode (123 :: x :: r)) = None) as ->.
  { rewrite E. unfold detect_encoding. cbn [is_prefix Z.eqb Pos.eqb andb orb]. destruct Hr as [-> | ->]; cbn; destruct (encode r) as [|? [|? ?]]; done. }
  assert (is_prefix [239; 187; 191] (encode (123 :: x :: r)) = false) as -> by by rewrite E.
  rewrite decode_pass_encode by done. by rewrite Hl.
Qed.

(** ** Headers *)

Definition crlf2 : bytes := [13; 10; 13; 10].
Definition length_prefix : bytes := [67; 111; 110; 116; 101; 110; 116; 45; 76; 101; 110; 103; 116; 104; 58; 32].
Definition length_key : text := [99; 111; 110; 116; 101; 110; 116; 45; 108; 101; 110; 103; 116; 104].
Definition header (n : Z) : bytes := length_prefix ++ decimal n.

Lemma prefix_eq : lit "Content-Length: " = length_prefix.
Proof. by vm_compute. Qed.

Lemma key_eq : lit "content-length" = length_key.
Proof. by vm_compute. Qed.

(** Bytes that stand in no line end. *)
Definition plain (b : bytes) : Prop := Forall (λ x, x ≠ 13) b.

Lemma find_crlf2 x r : plain x → find crlf2 (x ++ crlf2 ++ r) = Some (length x).
Proof.
  induction 1 as [|c x Hc _ IH]; [done|]. cbn [app find length]. change (is_prefix crlf2 (c :: x ++ crlf2 ++ r)) with ((13 =? c) && is_prefix [10; 13; 10] (x ++ crlf2 ++ r)).
  rewrite (proj2 (Z.eqb_neq 13 c)) by congruence. cbn [andb]. by rewrite IH.
Qed.

(** A part of a header that is not the whole. *)
Lemma find_part x b y : plain x → b ++ y = x ++ crlf2 → y ≠ [] → find crlf2 b = None.
Proof.
  intros Hx. revert x Hx. induction b as [|c b IH]; intros x Hx Hb Hy; [done|]. cbn [find].
  assert (is_prefix crlf2 (c :: b) = false) as ->.
  { apply not_true_is_false. intros [r Hr]%is_prefix_iff. rewrite Hr in Hb. destruct x as [|d x].
    - apply (f_equal length) in Hb. rewrite !length_app in Hb. destruct y; [done|]. cbn in Hb. lia.
    - injection Hb as <- _. apply Forall_cons in Hx as [Hx _]. done. }
  destruct x as [|d x].
  - injection Hb as -> Hb. assert (find crlf2 b = None) as ->; [|done]. clear -Hb Hy. destruct b as [|b0 [|b1 [|b2 b]]]; try done; cbn in Hb.
    + by injection Hb as -> _.
    + by injection Hb as -> -> _.
    + injection Hb as -> -> -> Hb. destruct b; [|done]. cbn in Hb. by destruct y.
  - injection Hb as -> Hb. apply Forall_cons in Hx as [_ Hx]. by rewrite (IH x Hx Hb Hy).
Qed.

Lemma plain_ascii u : Forall (λ c, is_digit c = true) u → plain u ∧ forallb (λ b, b <? 128) u = true ∧ drop_underscores false u = Some u ∧ strip u = u.
Proof.
  intros H. assert (∀ c, is_digit c = true → c ≠ 13 ∧ c < 128 ∧ c ≠ 95 ∧ is_space c = false) as Hd.
  { intros c Hc. apply digit_cases in Hc. rewrite !elem_of_cons, elem_of_nil in Hc. destruct_or! Hc; try done; by subst c. }
  split; [|split; [|split]].
  - eapply Forall_impl; [exact H|]. intros c Hc. by apply Hd.
  - apply forallb_forall. intros c Hc%list_elem_of_In. eapply Forall_forall in H; [|exact Hc]. apply Z.ltb_lt. by apply Hd in H as (_ & ? & _).
  - generalize false. induction H as [|c u Hc _ IH]; intros b; [done|]. destruct (Hd c Hc) as (_ & _ & Hu & _). cbn [drop_underscores].
    rewrite (proj2 (Z.eqb_neq c 95)) by done. by rewrite IH.
  - assert (∀ t : text, Forall (λ c, is_digit c = true) t → drop_spaces t = t) as Hs.
    { intros t Ht. apply drop_spaces_id. destruct Ht as [|c t Hc _]; [done|]. by apply Hd. }
    unfold strip, rstrip. rewrite (Hs u) by done. rewrite Hs by by apply Forall_rev. apply rev_involutive.
Qed.

(** The header of a frame gives its length. *)
Lemma content_length_header c n : 0 <= n <= max_frame_bytes c → (length (decimal n) <= MAX_STR_DIGITS)%nat →
  content_length c (header n ++ crlf2) = Ok n.
Proof.
  intros Hn Hl. destruct (decimal_shape n) as (u & E & Hv & Hu & _). rewrite (proj2 (Z.ltb_ge n 0)) in E by lia. cbn [app] in E.
  destruct (plain_ascii (digits u) (digits_range u)) as (P1 & P2 & P3 & P4). rewrite E in Hl. unfold content_length.
  rewrite length_app, Nat.add_sub, take_app_length. unfold header. rewrite E.
  rewrite key_eq. assert (split_crlf [] (length_prefix ++ digits u) = [length_prefix ++ digits u]) as ->.
  { assert (∀ b line, plain b → split_crlf line b = [line ++ b]) as H.
    { clear. induction b as [|x b IH]; intros line; [by rewrite app_nil_r|]. intros [Hx Hb]%Forall_cons. cbn [split_crlf].
      destruct b as [|y b]; [done|]. rewrite (proj2 (Z.eqb_neq x 13)) by done. cbn [andb]. rewrite IH by done. by rewrite <- app_assoc. }
    rewrite H; [done|]. apply Forall_app. split; [|done]. by repeat constructor. }
  assert (header_line (length_prefix ++ digits u) = Some (length_key, digits u)) as Eh.
  { unfold header_line. rewrite forallb_app, P2. change (forallb (λ b : Z, b <? 128) length_prefix) with true. cbn [andb].
    change (find [58] (length_prefix ++ digits u)) with (Some 14%nat). do 2 f_equal.
    change (drop 15 (length_prefix ++ digits u)) with (32 :: digits u). rewrite <- P4 at 2. unfold strip. by cbn [drop_spaces is_space]. }
  cbn [mapM]. rewrite Eh. cbn [mbind option_bind mret option_ret].
  change (od_get length_key (od_update [(length_key, digits u)] [])) with (Some (digits u)). cbn [default from_option id].
  assert (py_int (digits u) = Some n) as ->.
  { unfold py_int. rewrite P4, P3. cbn [mbind option_bind]. destruct (digits_head u Hu) as (d & w & Ed & Hd & _).
    assert (take_sign (digits u) = (false, digits u)) as ->.
    { rewrite Ed. unfold take_sign. apply digit_cases in Hd. rewrite !elem_of_cons, elem_of_nil in Hd. destruct_or! Hd; try done; by subst d. }
    cbn iota beta. pose proof (take_digits_app 0 0 u [] I) as Ht. rewrite app_nil_r, Nat.add_0_l in Ht. rewrite Ht.
    destruct (length (digits u)) as [|k] eqn:El; [by rewrite Ed in El|]. rewrite (proj2 (Nat.leb_le _ _)) by done. f_equal. lia. }
  by rewrite (proj2 (Z.ltb_ge n 0)), (proj2 (Z.ltb_ge (max_frame_bytes c) n)) by lia.
Qed.

(** ** The reader *)

Lemma digits_value u acc : 0 <= acc → acc * 10 ^ Z.of_nat (length (digits u)) <= value_of acc u.
Proof.
  revert acc. induction u as [|u IH|u IH|u IH|u IH|u IH|u IH|u IH|u IH|u IH|u IH]; intros acc Ha; cbn [digits length value_of]; [rewrite Z.pow_0_r; lia|..].
  all: rewrite Nat2Z.inj_succ, Z.pow_succ_r by lia; etrans; [|apply IH; lia]; pose proof (Z.pow_nonneg 10 (Z.of_nat (length (digits u))) ltac:(lia)); nia.
Qed.

#[local] Arguments MAX_STR_DIGITS : simpl never.

Lemma max_digits : Z.of_nat MAX_STR_DIGITS = 4300.
Proof. reflexivity. Qed.

(** A number below 10^4300 has at most 4300 digits. *)
Lemma decimal_short n : 0 <= n < 10 ^ Z.of_nat MAX_STR_DIGITS → (length (decimal n) <= MAX_STR_DIGITS)%nat.
Proof.
  intros [H0 Hn]. destruct (decimal_shape n) as (u & E & Hv & Hu & _). rewrite (proj2 (Z.ltb_ge n 0)) in E by lia. cbn [app] in E. rewrite E.
  rewrite Z.abs_eq in Hv by lia. destruct (le_lt_dec (length (digits u)) MAX_STR_DIGITS) as [|Hl]; [done|]. exfalso.
  assert (10 ^ Z.of_nat MAX_STR_DIGITS <= value_of 0 u); [|lia].
  assert (∃ a v, 1 <= a ∧ value_of 0 u = value_of a v ∧ (MAX_STR_DIGITS <= length (digits v))%nat) as (a & v & Ha & -> & Hlv).
  { destruct u as [|u|u|u|u|u|u|u|u|u|u]; cbn [normal digits length value_of] in *; try lia; try (subst u; pose proof max_digits; cbn [digits length] in Hl; lia);
      eexists _, u; (split; [|split; [reflexivity|lia]]; lia). }
  etrans; [|apply digits_value; lia]. etrans; [apply (Z.pow_le_mono_r 10 _ (Z.of_nat (length (digits v)))); lia|].
  pose proof (Z.pow_nonneg 10 (Z.of_nat (length (digits v))) ltac:(lia)). nia.
Qed.

Section Reader.
Context (c : Config).
Hypothesis Hmax : max_frame_bytes c < 10 ^ Z.of_nat MAX_STR_DIGITS.

(** A message and the body of its frame. *)
Definition framed (m : list (text * pv)) (body : bytes) : Prop :=
  loads_body c body = Ok (PDict m) ∧ Z.of_nat (length body) <= max_frame_bytes c ∧ body ≠ [].
Definition frame (body : bytes) : bytes := header (Z.of_nat (length body)) ++ crlf2 ++ body.

Lemma frame_of_framed m f : proper (float_repr c) (PDict m) → frame_of c (PDict m) = Ok f → ∃ body, framed m body ∧ f = frame body.
Proof.
  intros Hp. unfold frame_of. rewrite prefix_eq. destruct (dumps_plain (float_repr c) (PDict m)) as [t|] eqn:Et; [|done]. cbn [mbind option_bind].
  unfold encode_strict. destruct (forallb scalar t) eqn:Ht; [|done].
  assert (is_text t) as Hx by (apply Forall_forall; intros x Hx; eapply forallb_forall in Ht; [exact Ht|by apply list_elem_of_In]).
  destruct (Z.ltb_spec (max_frame_bytes c) (Z.of_nat (length (encode t)))); [done|]. intros [= <-]. exists (encode t). split.
  - split; [by apply loads_body_printed|]. split; [done|]. intros E. apply encode_nil_inv in E as ->. cbn [dumps_plain] in Et. by destruct (mapM _ m).
  - unfold frame, header. by rewrite <- app_assoc.
Qed.

Lemma header_plain n : 0 <= n → plain (header n).
Proof.
  intros Hn. destruct (decimal_shape n) as (u & E & _). rewrite (proj2 (Z.ltb_ge n 0)) in E by lia. cbn [app] in E. unfold header. rewrite E.
  apply Forall_app. split; [by repeat constructor|]. by apply plain_ascii, digits_range.
Qed.

Lemma header_length n : 0 <= n <= max_frame_bytes c → (length (header n) <= 16 + MAX_STR_DIGITS)%nat.
Proof. intros Hn. pose proof (decimal_short n ltac:(lia)) as H. unfold header. rewrite length_app. change (length length_prefix) with 16%nat. lia. Qed.

(** Where a reader is in a stream of frames of which [y] is still to come. *)
Definition At (s : Stream) (ms : list (list (text * pv))) (bodies : list bytes) (y : bytes) : Prop :=
  eof s = false ∧
  match body_of s with
  | None => Forall2 framed ms bodies ∧ buffer s ++ y = concat (List.map frame bodies)
  | Some n => match ms, bodies with
              | m :: ms, body :: bodies => framed m body ∧ n = Z.of_nat (length body) ∧ Forall2 framed ms bodies ∧
                  buffer s ++ y = body ++ concat (List.map frame bodies)
              | _, _ => False
              end
  end.

Definition todo (s : Stream) : nat := (2 * length (buffer s) + match body_of s with None => 1 | _ => 0 end)%nat.

Lemma app_split (x y a b : bytes) : x ++ y = a ++ b → (length a <= length x)%nat → ∃ z, x = a ++ z ∧ b = z ++ y.
Proof.
  intros H Hl. exists (drop (length a) x). assert (x = a ++ drop (length a) x) as Hx.
  { rewrite <- (take_drop (length a) x) at 1. f_equal. apply (f_equal (take (length a))) in H.
    rewrite take_app_le, take_app_length in H by lia. done. }
  split; [done|]. rewrite Hx in H. rewrite <- app_assoc in H. by apply app_inv_head in H.
Qed.

Lemma app_short (x y a b : bytes) : x ++ y = a ++ b → (length x < length a)%nat → ∃ z, a = x ++ z ∧ y = z ++ b ∧ z ≠ [].
Proof.
  intros H Hl. symmetry in H. destruct (app_split a b x y H ltac:(lia)) as (z & -> & ->). exists z. split; [done|]. split; [done|].
  intros ->. rewrite app_nil_r in Hl. lia.
Qed.

Lemma turn_at s ms bodies y : At s ms bodies y →
  (reader_turn c s = Waits ∧ (y = [] → ms = [] ∧ bodies = [] ∧ buffer s = [] ∧ body_of s = None)) ∨
  (∃ s', reader_turn c s = GoesOn s' ∧ At s' ms bodies y ∧ (todo s' < todo s)%nat) ∨
  (∃ m ms' body bodies' s', ms = m :: ms' ∧ bodies = body :: bodies' ∧ reader_turn c s = Hands m s' ∧ At s' ms' bodies' y ∧ (todo s' < todo s)%nat).
Proof.
  destruct s as [b bo e]. intros [He H]. cbn in He, H. subst e. unfold reader_turn. cbn [buffer body_of eof]. destruct bo as [n|].
  - destruct ms as [|m ms]; [done|]. destruct bodies as [|body bodies]; [done|]. destruct H as ((Hm & Hle & Hne) & -> & Hms & Hb).
    destruct (Z.leb_spec (Z.of_nat (length body)) (Z.of_nat (length b))) as [Hl|Hl].
    + destruct (app_split b y body _ Hb ltac:(lia)) as (z & -> & Hz). rewrite Nat2Z.id, take_app_length, drop_app_length, Hm. right. right.
      eexists m, ms, body, bodies, _. split; [done|]. split; [done|]. split; [done|]. split; [split; [done|]; split; [done|by symmetry]|].
      unfold todo. cbn. rewrite length_app. destruct body; [done|]. cbn. lia.
    + left. split; [done|]. intros ->. rewrite app_nil_r in Hb. subst b. rewrite length_app in Hl. lia.
  - destruct H as [Hms Hb]. destruct Hms as [|m body ms bodies (Hm & Hle & Hne) Hms].
    + cbn in Hb. apply app_eq_nil in Hb as [-> ->]. left. split; [done|]. done.
    + cbn [List.map concat] in Hb. set (n := Z.of_nat (length body)) in *. pose proof (header_plain n ltac:(lia)) as Hpl. pose proof (header_length n ltac:(lia)) as Hhl.
      unfold frame in Hb. fold n in Hb. rewrite <- !app_assoc in Hb. rewrite app_assoc in Hb.
      destruct (le_lt_dec (length (header n ++ crlf2)) (length b)) as [Hl|Hl].
      * destruct (app_split b y (header n ++ crlf2) _ Hb Hl) as (z & -> & Hz). rewrite <- app_assoc. change [13; 10; 13; 10] with crlf2. rewrite find_crlf2 by done.
        assert ((length (header n) + 4)%nat = length (header n ++ crlf2)) as El by (by rewrite length_app).
        rewrite (proj2 (Z.ltb_ge STREAM_LIMIT _)) by (pose proof max_digits; unfold STREAM_LIMIT; lia).
        rewrite app_assoc, El, take_app_length, drop_app_length.
        rewrite (proj2 (Z.ltb_ge MAX_HEADER_BYTES _)) by (pose proof max_digits; rewrite <- El; unfold MAX_HEADER_BYTES; lia).
        rewrite content_length_header by (lia || apply decimal_short; lia). right. left. eexists. split; [done|]. split.
        -- split; [done|]. cbn. split; [done|]. split; [done|]. split; [done|by symmetry].
        -- unfold todo. cbn. rewrite !length_app. cbn. lia.
      * destruct (app_short b y (header n ++ crlf2) _ Hb Hl) as (z & Hz & -> & Hzne). change [13; 10; 13; 10] with crlf2.
        rewrite (find_part (header n) b z Hpl (eq_sym Hz) Hzne). left.
        rewrite (proj2 (Z.ltb_ge STREAM_LIMIT _)); [split; [done|]; intros E; by apply app_eq_nil in E as [-> _]|].
        rewrite length_app in Hl. change (length crlf2) with 4%nat in Hl. pose proof max_digits. unfold STREAM_LIMIT. lia.
Qed.

Lemma read_at fuel s ms bodies y : At s ms bodies y → (todo s < fuel)%nat → ∃ ms1 ms2 bodies2 s',
  read_stream c fuel s = (ms1, Waits, s') ∧ ms = ms1 ++ ms2 ∧ At s' ms2 bodies2 y ∧ reader_turn c s' = Waits.
Proof.
  revert s ms bodies. induction fuel as [|fuel IH]; intros s ms bodies Ha Hf; [lia|]. cbn [read_stream].
  destruct (turn_at s ms bodies y Ha) as [[Hw Hy]|[(s' & -> & Ha' & Hl)|(m & ms' & body & bodies' & s' & -> & -> & -> & Ha' & Hl)]].
  - rewrite Hw. by exists [], ms, bodies, s.
  - apply (IH s' ms bodies Ha'). lia.
  - destruct (IH s' ms' bodies' Ha' ltac:(lia)) as (ms1 & ms2 & bodies2 & s2 & -> & -> & H). by exists (m :: ms1), ms2, bodies2, s2.
Qed.

Lemma at_more s ms bodies x y : At s ms bodies (x ++ y) → At {| buffer := buffer s ++ x; body_of := body_of s; eof := eof s |} ms bodies y.
Proof.
  intros [He H]. split; [done|]. cbn. rewrite <- app_assoc. by destruct (body_of s); [destruct ms, bodies|].
Qed.

(** A reader that has nothing to read. *)
Definition idle : Stream := {| buffer := []; body_of := None; eof := false |}.

Lemma chunks_at chunks s ms bodies : At s ms bodies (concat chunks) → reader_turn c s = Waits → read_chunks c chunks s = (ms, idle).
Proof.
  revert s ms bodies. induction chunks as [|chunk chunks IH]; intros s ms bodies Ha Hw.
  - destruct (turn_at s ms bodies [] Ha) as [[_ Hy]|[(? & E & _)|(? & ? & ? & ? & ? & _ & _ & E & _)]]; try congruence.
    destruct (Hy eq_refl) as (-> & _ & Hb & Hbo). destruct Ha as [He _]. destruct s as [b bo e]. cbn in *. by subst.
  - cbn [concat] in Ha. apply at_more in Ha. cbn [read_chunks]. set (s1 := {| buffer := buffer s ++ chunk; body_of := body_of s; eof := eof s |}) in *.
    destruct (read_at (2 + 2 * length (buffer s ++ chunk)) s1 ms bodies _ Ha) as (ms1 & ms2 & bodies2 & s2 & E & -> & Ha2 & Hw2).
    { unfold todo, s1. cbn [buffer body_of]. destruct (body_of s); lia. }
    rewrite E. by rewrite (IH s2 ms2 bodies2 Ha2 Hw2).
Qed.

Lemma messages_framed ms frames : Forall2 (λ m f, proper (float_repr c) (PDict m) ∧ frame_of c (PDict m) = Ok f) ms frames →
  ∃ bodies, Forall2 framed ms bodies ∧ frames = List.map frame bodies.
Proof.
  induction 1 as [|m f ms frames [Hp Hf] _ (bodies & Hb & ->)]; [by exists []|].
  destruct (frame_of_framed m f Hp Hf) as (body & Hm & ->). exists (body :: bodies). split; [by constructor|done].
Qed.
End Reader.

(** C40: What one side of the pipe writes the other side reads.  For every sequence of messages that
    [_write_message] frames, and however the pipe cuts the bytes of the frames into chunks
    (within a header, within a character), the reader hands over exactly these messages, in
    order, each when its last byte has arrived, and is left with nothing to read. *)
Theorem frames_roundtrip c ms frames chunks :
  max_frame_bytes c < 10 ^ Z.of_nat MAX_STR_DIGITS →
  Forall2 (λ m f, proper (float_repr c) (PDict m) ∧ frame_of c (PDict m) = Ok f) ms frames → concat chunks = concat frames →
  read_chunks c chunks {| buffer := []; body_of := None; eof := false |} = (ms, {| buffer := []; body_of := None; eof := false |}).
Proof.
  intros Hmax Hf Hc. destruct (messages_framed c ms frames Hf) as (bodies & Hb & ->).
  apply (chunks_at c Hmax chunks _ ms bodies); [|done]. split; [done|]. split; [done|]. by rewrite Hc.
Qed.

(** ** Concrete frames *)

Definition sample_config : Config :=
  {| max_frame_bytes := 2097152; float_repr := λ _, []; decode_wide := λ _ _, None; JsonRpc._redact_stderr := λ t, t; listens := true |}.

Definition sample_messages : list (list (text * pv)) :=
  [[(lit "jsonrpc", PStr (lit "2.0")); (lit "id", PInt 12); (lit "result", PList [PInt (-3); PNone; PBool true; PStr (lit "a—b" ++ [10; 34; 128512])])];
   [(lit "method", PStr (lit "x")); (lit "params", PDict [])]].

Definition frame_bytes (m : list (text * pv)) : bytes := match frame_of sample_config (PDict m) with Ok f => f | Err _ => [] end.
Definition sample_frames : list bytes := List.map frame_bytes sample_messages.

(** Every byte a chunk of its own. *)
Definition sample_chunks : list bytes := List.map (λ b, [b]) (concat sample_frames).

Lemma sample_proper : Forall (λ m, proper (float_repr sample_config) (PDict m)) sample_messages.
Proof.
  repeat constructor; try (apply Z.leb_le; vm_compute; reflexivity).
  all: intros Hin; rewrite ?elem_of_cons, elem_of_nil in Hin; destruct_or? Hin; try done; vm_compute in Hin; discriminate.
Qed.

Lemma frames_roundtrip_witness :
  (length sample_chunks > 100)%nat ∧ read_chunks sample_config sample_chunks idle = (sample_messages, idle).
Proof.
  split; [apply Nat.ltb_lt; vm_compute; reflexivity|].
  apply (frames_roundtrip sample_config sample_messages sample_frames sample_chunks).
  - apply Z.ltb_lt. vm_compute. reflexivity.
  - pose proof sample_proper as Hp. unfold sample_messages in *. repeat (apply Forall_cons in Hp as [? Hp]).
    constructor; [split; [assumption|vm_compute; reflexivity]|].
    constructor; [split; [assumption|vm_compute; reflexivity]|]. constructor.
  - vm_compute. reflexivity.
Defined.
