(* ===== verification/JsonRpcCallsSpec.v ===== *)
(** The requests of the JSON-RPC client, in every order of its coroutines: an answer reaches the
    caller of its request and no other, and nobody waits for a server that is lost. *)

From S2P Require Import Prelude PyDict PyFloat Utf8 PyText PyValue JsonLoads JsonRpc JsonRpcSpec.
Open Scope Z_scope.
Local Notation text := Utf8.text.

(** ** Requests in flight *)

(** The request of a message. *)
Definition w_id (w : purpose) : option Z := match w with ForRequest id | ForCancel id _ => Some id | ForNotice => None end.

(** The request that a suspended coroutine holds. *)
Definition active (p : phase) : option Z :=
  match p with Writing w _ _ | Draining w => w_id w | Waiting id => Some id | _ => None end.

(** The caller [k] has the request [id] in flight. *)
Definition in_flight (k : nat) (s : Client) (id : Z) : Prop := ∃ p, phase_of k s = Some p ∧ active p = Some id.

Definition w_ok (request : bool) (w : purpose) : Prop :=
  match w with
  | ForRequest _ => request = true
  | ForNotice => request = false
  | ForCancel _ o => request = true ∧ (o = CancelledError ∨ o = TimedOut)
  end.

Definition phase_ok (request : bool) (p : phase) : Prop :=
  match p with Writing w _ _ | Draining w => w_ok request w | Waiting _ => request = true | _ => True end.

Definition settled (s : Client) (id : Z) : Prop := ∃ o, od_get id (answers s) = Some (Settled o).

(** What holds of a request in flight. *)
Record Usable (s : Client) (k : nat) (id : Z) : Prop := {
  u_old : id < next_id s;
  u_only : ∀ k', in_flight k' s id → k' = k;
  u_answer : od_get id (answers s) = Some Awaited ∨ settled s id;
  u_pending : id ∈ pending s ∨ settled s id;
  u_closed : closing s = true → settled s id;
  u_process : closing s = true ∨ is_Some (process s)
}.

Record Inv (s : Client) : Prop := {
  i_usable : ∀ k id, in_flight k s id → Usable s k id;
  i_known : ∀ id a, od_get id (answers s) = Some a → id < next_id s;
  i_phase : ∀ k call, calls s !! k = Some call → phase_ok (is_request call) (at_phase call);
  i_closing : is_Some (closing_process s) → closing s = true
}.

Lemma in_flight_fun k s id id' : in_flight k s id → in_flight k s id' → id = id'.
Proof. intros (p & H1 & H2) (p' & H3 & H4). congruence. Qed.

(** ** Phases *)

Lemma phase_set k p s k' : phase_of k' (set_phase k p s) = if decide (k = k') then (λ _, p) <$> phase_of k' s else phase_of k' s.
Proof.
  unfold phase_of, set_phase. cbn. destruct (decide (k = k')) as [<-|Hne]; [|by rewrite list_lookup_alter_ne].
  rewrite list_lookup_alter_eq. by destruct (calls s !! k).
Qed.

Lemma flight_set k p s k' id : in_flight k' (set_phase k p s) id → (k' = k ∧ active p = Some id) ∨ (k' ≠ k ∧ in_flight k' s id).
Proof.
  intros (q & Hq & Ha). rewrite phase_set in Hq. destruct (decide (k = k')) as [<-|Hne].
  - destruct (phase_of k s); [|done]. injection Hq as <-. by left.
  - right. split; [done|by exists q].
Qed.

Lemma calls_set k p s k' call : calls (set_phase k p s) !! k' = Some call →
  (k' = k ∧ at_phase call = p ∧ ∃ call0, calls s !! k = Some call0 ∧ is_request call = is_request call0) ∨ (k' ≠ k ∧ calls s !! k' = Some call).
Proof.
  cbn. intros H. destruct (decide (k = k')) as [<-|Hne].
  - rewrite list_lookup_alter_eq in H. destruct (calls s !! k) as [call0|]; [|done]. injection H as <-. left. split; [done|]. split; [done|]. by exists call0.
  - rewrite list_lookup_alter_ne in H by done. right. done.
Qed.

(** Nothing changes for the requests in flight. *)
Lemma inv_same s s' : Inv s → (∀ k id, in_flight k s' id → in_flight k s id) → (∀ k call, calls s' !! k = Some call → phase_ok (is_request call) (at_phase call)) →
  next_id s <= next_id s' → answers s' = answers s → (∀ k id, in_flight k s' id → id ∈ pending s → id ∈ pending s') → closing s' = closing s →
  (is_Some (process s) → is_Some (process s')) → closing_process s' = closing_process s → Inv s'.
Proof.
  intros [Hu Hk Hp Hc] H1 H2 H3 H4 H5 H6 H7 H8. split; [|intros id a; rewrite H4; intros Ha; specialize (Hk id a Ha); lia|done|by rewrite H6, H8].
  intros k id Hf. destruct (Hu k id (H1 _ _ Hf)) as [U1 U2 U3 U4 U5 U6]. unfold settled in *.
  split; unfold settled; rewrite ?H4, ?H6; try done; [lia| | |].
  - intros k' Hk'. by apply U2, H1.
  - destruct U4 as [U4|U4]; [left; by eapply H5|by right].
  - destruct U6 as [U6|U6]; [by left|right; auto].
Qed.

(** A coroutine goes on to [p]. *)
Lemma inv_goes s k p call : Inv s → calls s !! k = Some call → phase_ok (is_request call) p →
  (∀ id, active p = Some id → Usable s k id) → Inv (set_phase k p s).
Proof.
  intros [Hu Hk Hp Hcl] Hc Hok Hact. split; [|done| |done].
  - intros k' id Hf. assert (Usable s k' id) as [U1 U2 U3 U4 U5 U6].
    { destruct (flight_set _ _ _ _ _ Hf) as [[-> Ha]|[_ Hf']]; auto. }
    split; try done. intros k2 Hk2. destruct (flight_set _ _ _ _ _ Hk2) as [[-> Ha]|[_ Hf2]]; [|by apply U2].
    destruct (flight_set _ _ _ _ _ Hf) as [[-> Ha']|[_ Hf']]; [done|]. destruct (Hact id Ha) as [_ V _ _ _ _]. by symmetry; apply V.
  - intros k' call' Hc'. destruct (calls_set _ _ _ _ _ Hc') as [(-> & -> & call0 & Hc0 & ->)|[_ Hc0]]; [|by eapply Hp].
    rewrite Hc in Hc0. by injection Hc0 as <-.
Qed.

(** A coroutine ends; its request leaves the table. *)
Lemma flight_finish k w o s k' id : in_flight k' (finish k w o s) id → k' ≠ k ∧ in_flight k' s id.
Proof. destruct w; intros [[_ [=]]|?]%flight_set; done. Qed.

Lemma calls_finish k w o s k' call : calls (finish k w o s) !! k' = Some call →
  (k' = k ∧ at_phase call = Ended o ∧ ∃ call0, calls s !! k = Some call0 ∧ is_request call = is_request call0) ∨ (k' ≠ k ∧ calls s !! k' = Some call).
Proof. destruct w; intros H; apply calls_set in H; exact H. Qed.

Lemma inv_finish s k w o : Inv s → (∀ id k', w_id w = Some id → in_flight k' s id → k' = k) → Inv (finish k w o s).
Proof.
  intros Hinv Hw. apply (inv_same s); [done|..].
  - by intros k' id [_ ?]%flight_finish.
  - intros k' call [(_ & -> & _)|[_ Hc]]%calls_finish; [done|by eapply (i_phase s)].
  - by destruct w.
  - by destruct w.
  - intros k' id [Hne Hf]%flight_finish Hin. destruct w as [i| |i o']; [|done|]; cbn in *.
    all: apply list_elem_of_In, List.filter_In; split; [by apply list_elem_of_In|]; apply negb_true_iff, Z.eqb_neq; intros ->; by specialize (Hw i k' eq_refl Hf).
  - by destruct w.
  - by destruct w.
  - by destruct w.
Qed.

(** What a step does to the answers of the requests in flight, and to the ends of requests: no request
    ends with an answer. *)
Definition quiet_end (o : outcome) : Prop := match o with Returned _ | RequestError _ _ => False | _ => True end.

Record Follows (s s' : Client) : Prop := {
  f_flight : ∀ k id, in_flight k s' id → (in_flight k s id ∧ od_get id (answers s') = od_get id (answers s)) ∨ od_get id (answers s') = Some Awaited;
  f_ended : ∀ k call o, calls s' !! k = Some call → at_phase call = Ended o → is_request call = true →
    quiet_end o ∨ (∃ call0, calls s !! k = Some call0 ∧ at_phase call0 = Ended o ∧ is_request call0 = true)
}.

Lemma follows_refl s : Follows s s.
Proof. split; [by left|]. intros k call o Hc Ho Hr. right. by exists call. Qed.

Lemma follows_trans s s' s'' : Follows s s' → Follows s' s'' → Follows s s''.
Proof.
  intros [H1 H2] [H3 H4]. split.
  - intros k id Hf. destruct (H3 k id Hf) as [[Hf' E]|?]; [|by right]. rewrite E. destruct (H1 k id Hf') as [[? ?]|?]; [by left|by right].
  - intros k call o Hc Ho Hr. destruct (H4 k call o Hc Ho Hr) as [?|(call0 & Hc0 & Ho0 & Hr0)]; [by left|]. by apply (H2 k call0 o).
Qed.

(** The parts of the client that its callers see. *)
Lemma follows_same s s' : calls s' = calls s → answers s' = answers s → Follows s s'.
Proof.
  intros E1 E2. split.
  - intros k id Hf. left. rewrite E2. split; [|done]. unfold in_flight, phase_of in *. by rewrite <- E1.
  - intros k call o. rewrite E1. intros Hc Ho Hr. right. by exists call.
Qed.

Lemma inv_view s s' : Inv s → calls s' = calls s → next_id s' = next_id s → answers s' = answers s → pending s' = pending s → closing s' = closing s →
  (is_Some (process s) → is_Some (process s')) → closing_process s' = closing_process s → Inv s'.
Proof.
  intros Hinv E1 E2 E3 E4 E5 E6 E7. assert (∀ k id, in_flight k s' id → in_flight k s id) as Hf by (intros k id; unfold in_flight, phase_of; by rewrite E1).
  apply (inv_same s); try done; [intros k call; rewrite E1; apply (i_phase s Hinv)|lia|by rewrite E4].
Qed.

Lemma follows_goes s k p : (∀ o, p ≠ Ended o) → (∀ id, active p = Some id → in_flight k s id ∨ od_get id (answers s) = Some Awaited) → Follows s (set_phase k p s).
Proof.
  intros Hp Ha. split.
  - intros k' id [[-> H]|[_ Hf]]%flight_set; [|by left]. destruct (Ha id H); [by left|by right].
  - intros k' call o [(-> & E & _)|[_ Hc]]%calls_set Ho Hr; [by rewrite E in Ho; apply Hp in Ho|]. right. by exists call.
Qed.

Lemma finish_follows s k w o : (quiet_end o ∨ ∀ call, calls s !! k = Some call → is_request call = false) → Follows s (finish k w o s).
Proof.
  intros Ho. split.
  - intros k' id [_ Hf]%flight_finish. left. split; [done|]. by destruct w.
  - intros k' call o' [(-> & E & call0 & Hc0 & E0)|[_ Hc]]%calls_finish Ho' Hr; [|right; by exists call].
    left. rewrite E in Ho'. injection Ho' as <-. destruct Ho as [?|Ho]; [done|]. rewrite E0, (Ho call0 Hc0) in Hr. done.
Qed.

(** ** The coroutines *)

(** A coroutine that is about to write, for its own request. *)
Record Ready (s : Client) (k : nat) (w : purpose) : Prop := {
  r_call : ∃ call, calls s !! k = Some call ∧ w_ok (is_request call) w;
  r_request : ∀ id, w_id w = Some id → id < next_id s ∧ (∀ k', in_flight k' s id → k' = k) ∧
    (od_get id (answers s) = Some Awaited ∨ settled s id) ∧ (id ∈ pending s ∨ settled s id) ∧
    (in_flight k s id ∨ od_get id (answers s) = Some Awaited)
}.

Definition Keeps (s s' : Client) : Prop := Inv s' ∧ Follows s s'.

Lemma not_written_ok s k w e : Inv s → Ready s k w → Keeps s (not_written k w e s).
Proof.
  intros Hinv [(call & Hc & Hw) Hr].
  assert (∀ o, quiet_end o → Keeps s (finish k w o s)) as H.
  { intros o Ho. split; [|apply finish_follows; by left]. apply inv_finish; [done|]. intros id k' Hid. by apply (Hr id Hid). }
  destruct w as [id| |id o]; cbn; [by apply H..|]. apply H. by destruct Hw as [_ [-> | ->]].
Qed.

Lemma write_message_ok c s k w payload : Inv s → Ready s k w → Keeps s (_write_message c k w payload s).
Proof.
  intros Hinv Hr. unfold _write_message. destruct (closing s) eqn:Hcl; [by apply not_written_ok|].
  destruct (live_process s) as [g|] eqn:Hg; [|by apply not_written_ok]. destruct (frame_of c payload) as [fr|e]; [|by apply not_written_ok].
  destruct Hr as [(call & Hc & Hw) Hr]. split.
  - eapply inv_goes; [done|done|done|]. intros id Hid. destruct (Hr id Hid) as (H1 & H2 & H3 & H4 & _). split; try done; [by rewrite Hcl|].
    right. unfold live_process in Hg. destruct (process s); [by eexists|done].
  - apply follows_goes; [done|]. intros id Hid. by apply (Hr id Hid).
Qed.

Lemma ended_ok s k o : Inv s → quiet_end o → Keeps s (set_phase k (Ended o) s).
Proof. intros Hinv Ho. split; [by apply (inv_finish s k ForNotice)|]. apply (finish_follows s k ForNotice). by left. Qed.

(** A request is registered and its message written. *)
Lemma started_ok c k aborted s : Inv s → Keeps s (started c k aborted s).
Proof.
  intros Hinv. unfold started. destruct (calls s !! k) as [call|] eqn:Hc; [|split; [done|apply follows_refl]]. destruct (is_request call) eqn:Hr.
  2: { apply write_message_ok; [done|]. split; [exists call; by rewrite Hr|done]. }
  destruct aborted; [by apply ended_ok|]. set (id := next_id s).
  set (s1 := with_table (id + 1) (pending s ++ [id]) (od_set id Awaited (answers s)) s).
  assert (∀ k' i, in_flight k' s i → i < id) as Hold by (intros k' i Hi; apply (i_usable s Hinv k' i Hi)).
  assert (∀ i, i ≠ id → od_get i (answers s1) = od_get i (answers s)) as Ha by (intros i Hi; cbn; by rewrite od_get_set, decide_False).
  assert (Inv s1 ∧ Follows s s1) as [Hinv1 Hf1].
  { split; split.
    - intros k' i Hi. pose proof (Hold k' i Hi) as Hlt. destruct (i_usable s Hinv k' i Hi) as [U1 U2 U3 U4 U5 U6]. unfold settled in *.
      assert (i ≠ id) as Hne by (intros ->; lia). split; unfold settled; rewrite ?(Ha i Hne); try done; [cbn; lia|].
      destruct U4; [left; cbn; apply elem_of_app; by left|by right].
    - intros i a. cbn. rewrite od_get_set. destruct (decide (id = i)) as [<-|]; [lia|]. intros Hi. pose proof (i_known s Hinv i a Hi). unfold id. lia.
    - apply (i_phase s Hinv).
    - apply (i_closing s Hinv).
    - intros k' i Hi. left. split; [done|]. apply Ha. intros ->. specialize (Hold k' id Hi). lia.
    - intros k' call' o Hc' Ho Hr'. right. by exists call'. }
  destruct (write_message_ok c s1 k (ForRequest id) (request_message id call) Hinv1) as [H1 H2].
  { split; [by exists call|]. intros i [= <-]. split; [cbn; lia|]. split; [|split; [|split]].
    - intros k' Hi. specialize (Hold k' id Hi). lia.
    - left. cbn. by rewrite od_get_set, decide_True.
    - left. cbn. apply elem_of_app. right. by left.
    - right. cbn. by rewrite od_get_set, decide_True. }
  split; [done|]. by eapply follows_trans.
Qed.

(** Locks and processes are none of the requests' business. *)
Lemma keeps_view s s1 s' : Inv s → calls s1 = calls s → next_id s1 = next_id s → answers s1 = answers s → pending s1 = pending s → closing s1 = closing s →
  (is_Some (process s) → is_Some (process s1)) → closing_process s1 = closing_process s → (Inv s1 → Keeps s1 s') → Keeps s s'.
Proof.
  intros Hinv E1 E2 E3 E4 E5 E6 E7 H. destruct H as [H1 H2]; [by eapply inv_view|]. split; [done|]. eapply follows_trans; [|done]. by apply follows_same.
Qed.

Lemma keeps_same s s' : Inv s → calls s' = calls s → next_id s' = next_id s → answers s' = answers s → pending s' = pending s → closing s' = closing s →
  (is_Some (process s) → is_Some (process s')) → closing_process s' = closing_process s → Keeps s s'.
Proof. intros Hinv E1 E2 E3 E4 E5 E6 E7. split; [by eapply inv_view|by apply follows_same]. Qed.

Lemma waits_ok s k p : Inv s → active p = None → (∀ o, p ≠ Ended o) → (∀ r, phase_ok r p) → Keeps s (set_phase k p s).
Proof.
  intros Hinv Ha Hp Hok. split; [|apply follows_goes; [done|by rewrite Ha]]. apply (inv_same s); try done.
  - intros k' id [[_ E]|[_ Hf]]%flight_set; [congruence|done].
  - intros k' call [(_ & -> & _)|[_ Hc]]%calls_set; [apply Hok|by eapply (i_phase s)].
Qed.

Lemma start_ok c k aborted s : Inv s → Keeps s (_start c k aborted s).
Proof.
  intros Hinv. unfold _start. destruct (live_process s); [by apply started_ok|]. destruct (closing s) eqn:Hcl; [by apply ended_ok|].
  apply (keeps_view s (with_locks (Some k) (write_lock s) s)); try done. intros H. by apply waits_ok.
Qed.

Lemma spawn_ends_ok c k r aborted s : Inv s → Keeps s (spawn_ends c k r aborted s).
Proof.
  intros Hinv. unfold spawn_ends. destruct r.
  - eapply keeps_view; [exact Hinv| | | | | | | |intros H; apply started_ok, H]; try done.
  - apply (keeps_view s (with_locks None (write_lock s) s)); try done. intros H. by apply ended_ok.
  - apply (keeps_view s (with_locks None (write_lock s) s)); try done. intros H. by apply ended_ok.
Qed.

(** A suspended coroutine is about to go on for the request that it holds. *)
Lemma ready_of s k w call p : Inv s → calls s !! k = Some call → at_phase call = p → active p = w_id w → w_ok (is_request call) w → Ready s k w.
Proof.
  intros Hinv Hc Hp Ha Hw. split; [by exists call|]. intros id Hid. assert (in_flight k s id) as Hf.
  { exists p. split; [unfold phase_of; rewrite Hc; cbn; by rewrite Hp|congruence]. }
  destruct (i_usable s Hinv k id Hf) as [U1 U2 U3 U4 _ _]. split_and!; try done. by left.
Qed.

Lemma phase_of_call k s p : phase_of k s = Some p → ∃ call, calls s !! k = Some call ∧ at_phase call = p.
Proof. unfold phase_of. destruct (calls s !! k) as [call|]; [|done]. intros [= <-]. by exists call. Qed.

Lemma finish_ok s k w o call p : Inv s → calls s !! k = Some call → at_phase call = p → active p = w_id w →
  quiet_end o ∨ is_request call = false → Keeps s (finish k w o s).
Proof.
  intros Hinv Hc Hp Ha Ho. split.
  - apply inv_finish; [done|]. intros id k' Hid. assert (in_flight k s id) as Hf.
    { exists p. split; [unfold phase_of; rewrite Hc; cbn; by rewrite Hp|congruence]. }
    by apply (u_only _ _ _ (i_usable s Hinv k id Hf)).
  - apply finish_follows. destruct Ho as [Ho|Ho]; [by left|right]. intros call' Hc'. rewrite Hc in Hc'. by injection Hc' as <-.
Qed.

Lemma after_write_ok s k w call : Inv s → calls s !! k = Some call → at_phase call = Draining w → Keeps s (after_write k w s).
Proof.
  intros Hinv Hc Hp. pose proof (i_phase s Hinv k call Hc) as Hok. rewrite Hp in Hok. destruct w as [id| |id o]; cbn [after_write].
  - assert (in_flight k s id) as Hf by (exists (Draining (ForRequest id)); split; [unfold phase_of; rewrite Hc; cbn; by rewrite Hp|done]).
    split.
    + eapply inv_goes; [done|done|done|]. intros i [= <-]. by apply i_usable.
    + apply follows_goes; [done|]. intros i [= <-]. by left.
  - eapply (finish_ok s k ForNotice); try done. by right.
  - eapply (finish_ok s k (ForCancel id o)); try done. left. by destruct Hok as [_ [-> | ->]].
Qed.

Lemma kill_ok s k p s' : Inv s → phase_of k s = Some p → kill k p s = Some s' → Keeps s s'.
Proof.
  intros Hinv Hp. unfold kill. set (s1 := with_locks _ _ s). destruct (phase_of_call k s p Hp) as (call & Hc & Hcp). intros H.
  apply (keeps_view s s1); try done. intros Hinv1. destruct p as [| |w g fr|w|id|o]; try done; injection H as <-.
  - by apply ended_ok.
  - by apply ended_ok.
  - eapply (finish_ok s1 k w); try done. by left.
  - eapply (finish_ok s1 k w); try done. by left.
  - eapply (finish_ok s1 k (ForRequest id)); try done. by left.
Qed.

Lemma wake_ok c k id why s s' : Inv s → phase_of k s = Some (Waiting id) → wake c k id why s = Some s' → why ≠ Answered → Keeps s s'.
Proof.
  intros Hinv Hp H Hw. destruct (phase_of_call k s _ Hp) as (call & Hc & Hcp). pose proof (i_phase s Hinv k call Hc) as Hok. rewrite Hcp in Hok. cbn in Hok.
  unfold wake in H. destruct why; [done| |].
  - assert (s' = _write_message c k (ForCancel id CancelledError) (cancel_message id) s) as -> by (by destruct (od_get id (answers s)) as [[]|]; injection H as <-).
    apply write_message_ok; [done|]. eapply ready_of; try done. split; [done|by left].
  - destruct (od_get id (answers s)) as [[]|]; try done. injection H as <-.
    apply write_message_ok; [done|]. eapply ready_of; try done. split; [done|by right].
Qed.

(** ** Answers *)

(** Futures that become done. *)
Lemma inv_answers s s' : Inv s → calls s' = calls s → next_id s' = next_id s → pending s' = pending s → closing s' = closing s → process s' = process s → closing_process s' = closing_process s →
  (∀ id, od_get id (answers s') = od_get id (answers s) ∨ (settled s' id ∧ is_Some (od_get id (answers s)))) → Inv s'.
Proof.
  intros [Hu Hk Hp Hc] E1 E2 E3 E4 E5 E6 Ha. assert (∀ id, settled s id → settled s' id) as Hs.
  { intros id [o Ho]. unfold settled in *. destruct (Ha id) as [->|[? _]]; eauto. }
  assert (∀ k id, in_flight k s' id → in_flight k s id) as Hf by (intros k id; unfold in_flight, phase_of; by rewrite E1).
  split.
  - intros k id H. destruct (Hu k id (Hf _ _ H)) as [U1 U2 U3 U4 U5 U6]. split; rewrite ?E2, ?E3, ?E4, ?E5; try done; [by intros k' ?%Hf; apply U2| | |auto].
    + destruct (Ha id) as [->|[? _]]; [|by right]. destruct U3 as [?|?]; [by left|right; auto].
    + destruct U4; [by left|right; auto].
  - intros id a. rewrite E2. intros H. destruct (Ha id) as [E|[_ [x Hx]]]; [rewrite E in H; by eapply Hk|by eapply Hk].
  - by rewrite E1.
  - by rewrite E4, E6.
Qed.

Lemma od_get_map_key {V V'} (h : Z * V → V') (i : Z) (d : list (Z * V)) : od_get i (List.map (λ p, (p.1, h p)) d) = (λ x, h (i, x)) <$> od_get i d.
Proof. induction d as [|[j v] d IH]; [done|]. cbn. by destruct (decide (j = i)) as [->|]. Qed.

Lemma fail_get e s id : od_get id (answers (_fail_pending e s)) =
  match od_get id (answers s) with Some Awaited => Some (if bool_decide (id ∈ pending s) then Settled (ProtocolError e) else Awaited) | a => a end.
Proof.
  unfold _fail_pending, set_answers. cbn. rewrite (od_get_map_key (λ p, match p.2 with Awaited => if bool_decide (p.1 ∈ pending s) then Settled (ProtocolError e) else Awaited | a => a end)).
  by destruct (od_get id (answers s)) as [[]|].
Qed.

Lemma fail_cases e s id : od_get id (answers (_fail_pending e s)) = od_get id (answers s) ∨
  (od_get id (answers (_fail_pending e s)) = Some (Settled (ProtocolError e)) ∧ is_Some (od_get id (answers s))).
Proof. rewrite fail_get. destruct (od_get id (answers s)) as [[]|]; try by left. case_bool_decide; [right; by eauto|by left]. Qed.

Lemma fail_inv e s : Inv s → Inv (_fail_pending e s).
Proof.
  intros Hinv. apply (inv_answers s); try done. intros id. destruct (fail_cases e s id) as [?|[? ?]]; [by left|right]. split; [by eexists|done].
Qed.

(** A failure reaches every request in flight. *)
Lemma fail_settles e s k id : Inv s → in_flight k s id → settled (_fail_pending e s) id.
Proof.
  intros Hinv Hf. destruct (i_usable s Hinv k id Hf) as [_ _ U3 U4 _ _]. unfold settled. rewrite fail_get.
  destruct U3 as [Ha|[o Ho]]; [|rewrite Ho; by eexists]. rewrite Ha. destruct U4 as [Hin|[o Ho]]; [|congruence]. rewrite bool_decide_true by done. by eexists.
Qed.

(** What a message does to the futures. *)
Definition Handed (m : list (text * pv)) (s s' : Client) : Prop :=
  answers s' = answers s ∨
  ∃ id, is_answer m = true ∧ (v ← p_get "id" m; int_of v) = Some id ∧ id ∈ pending s ∧ od_get id (answers s) = Some Awaited ∧
    answers s' = od_set id (Settled (answer_of m)) (answers s).

Lemma handle_cases c m s : let s' := _handle_message c m s in
  calls s' = calls s ∧ next_id s' = next_id s ∧ pending s' = pending s ∧ closing s' = closing s ∧ process s' = process s ∧ closing_process s' = closing_process s ∧ Handed m s s'.
Proof.
  cbn zeta. unfold _handle_message, Handed. destruct (is_answer m) eqn:Ea.
  - destruct (p_get "id" m) as [v|]; [|by auto 12]. cbn [mbind option_bind]. destruct (int_of v) as [id|]; [|by auto 12].
    case_bool_decide as Hin; [|by auto 12]. destruct (od_get id (answers s)) as [[|o]|] eqn:Eg; [|by auto 12..].
    split_and!; try done. right. by exists id.
  - destruct (p_get "method" m) as [[]|]; try by auto 12. destruct (listens c); by auto 12.
Qed.

Lemma handle_inv c m s : Inv s → Inv (_handle_message c m s).
Proof.
  intros Hinv. destruct (handle_cases c m s) as (E1 & E2 & E3 & E4 & E5 & E6 & Ha). apply (inv_answers s); try done. intros id.
  destruct Ha as [->|(i & _ & _ & _ & Hi & E)]; [by left|]. unfold settled. rewrite E, od_get_set. destruct (decide (i = id)) as [<-|]; [right|by left].
  split; [by eexists|by eexists].
Qed.

Lemma close_begins_inv s : Inv s → closing s = false → Inv (close_begins s).
Proof.
  intros Hinv Hcl. unfold close_begins. destruct (process s) as [g|] eqn:Hp.
  - assert (∀ k id, in_flight k s id → settled (_fail_pending ClientClosedMeanwhile s) id) as Hs by (intros k id; by apply fail_settles).
    pose proof (fail_inv ClientClosedMeanwhile s Hinv) as [Hu Hk Hph _]. split; [|exact Hk|exact Hph|done].
    intros k id Hf. change (in_flight k s id) in Hf. destruct (Hu k id Hf) as [U1 U2 U3 U4 _ _].
    split; [exact U1|exact U2|exact U3|exact U4|intros _; exact (Hs k id Hf)|by left].
  - assert (∀ k id, ¬ in_flight k s id) as Hno.
    { intros k id Hf. destruct (u_process _ _ _ (i_usable s Hinv k id Hf)) as [H|[g H]]; congruence. }
    split; [intros k id Hf; by destruct (Hno k id)|apply (i_known s Hinv)|apply (i_phase s Hinv)|done].
Qed.

Lemma close_ends_inv g s : Inv s → closing s = true → Inv (close_ends g s).
Proof.
  intros Hinv Hcl. split; [|apply (i_known s Hinv)|apply (i_phase s Hinv)|done]. intros k id Hf. destruct (i_usable s Hinv k id Hf) as [U1 U2 U3 U4 U5 U6].
  split; try done; [right; by apply U5|by left].
Qed.

(** ** Every action *)

(** What a step is to the callers. *)
Inductive Kind (c : Config) (a : action) (s s' : Client) : Prop :=
  | kind_follows : Follows s s' → Kind c a s s'
  | kind_answered k id o : a = Wake k Answered → phase_of k s = Some (Waiting id) → od_get id (answers s) = Some (Settled o) →
      s' = finish k (ForRequest id) o s → Kind c a s s'
  | kind_handed g p m st : a = ReaderTurn g → processes s !! g = Some p → reads p = true → reader_turn c (stream p) = Hands m st →
      calls s' = calls s → Handed m s s' → Kind c a s s'
  | kind_failed : calls s' = calls s →
      (∀ id, od_get id (answers s') = od_get id (answers s) ∨ ∃ e, od_get id (answers s') = Some (Settled (ProtocolError e))) → Kind c a s s'.

Lemma keeps_kind c a s s' : Keeps s s' → Inv s' ∧ Kind c a s s'.
Proof. intros [H1 H2]. split; [done|by apply kind_follows]. Qed.

Lemma open_call_ok m p r s : Inv s → Keeps s (open_call m p r s).
Proof.
  intros Hinv. set (call := {| method := m; params := p; is_request := r; at_phase := if closing s then Ended (ProtocolError ClientClosed) else NeedsStart |}).
  assert (∀ k call', calls (open_call m p r s) !! k = Some call' → calls s !! k = Some call' ∨ call' = call) as Hc.
  { intros k call'. cbn. intros H. apply lookup_app_Some in H as [H|[_ H]]; [by left|]. destruct (k - length (calls s))%nat; [|done]. injection H as <-. by right. }
  assert (∀ k id, in_flight k (open_call m p r s) id → in_flight k s id) as Hf.
  { intros k id (q & Hq & Ha). unfold phase_of in Hq. destruct (calls (open_call m p r s) !! k) as [call'|] eqn:E; [|done]. injection Hq as <-.
    destruct (Hc k call' E) as [Hk| ->]; [exists (at_phase call'); split; [unfold phase_of; by rewrite Hk|done]|]. unfold call in Ha. cbn in Ha. by destruct (closing s). }
  split.
  - apply (inv_same s); try done. intros k call' H. destruct (Hc k call' H) as [H'| ->]; [by eapply (i_phase s)|]. cbn. by destruct (closing s).
  - split; [intros k id H; left; split; [by apply Hf|done]|]. intros k call' o H Ho Hr. destruct (Hc k call' H) as [H'| ->]; [right; by exists call'|].
    left. unfold call in Ho. cbn in Ho. destruct (closing s); [by injection Ho as <-|done].
Qed.

Lemma exit_ok c s s' : Inv s → step c Exit s = Some s' → Keeps s s'.
Proof.
  intros Hinv. cbn [step]. destruct (closing s) eqn:Hcl; [done|]. intros H%(inj Some). subst s'. set (call := {| method := lit "exit"; params := PNone; is_request := false; at_phase := NeedsStart |}).
  assert (with_calls (λ l, l ++ [call]) s = open_call (lit "exit") PNone false s) as ->.
  { unfold open_call. rewrite Hcl. done. }
  destruct (open_call_ok (lit "exit") PNone false s Hinv) as [H1 H2]. set (s1 := open_call (lit "exit") PNone false s) in *.
  assert (calls s1 !! length (calls s) = Some call) as Hc.
  { unfold s1, open_call. rewrite Hcl. cbn. rewrite lookup_app_r, Nat.sub_diag by done. done. }
  destruct (write_message_ok c s1 (length (calls s)) ForNotice (notice_message call) H1) as [H3 H4]; [split; [by exists call|done]|].
  split; [done|by eapply follows_trans].
Qed.

Lemma turn_ok c g p s s' : Inv s → processes s !! g = Some p → reads p = true → take_turn c g p s = Some s' → Inv s' ∧ Kind c (ReaderTurn g) s s'.
Proof.
  intros Hinv Hg Hr. unfold take_turn. destruct (reader_turn c (stream p)) as [|st|m st|e|] eqn:Et; [done|..]; intros [= <-].
  - apply keeps_kind. by apply keeps_same.
  - set (s1 := set_process _ _ s). assert (Inv s1) as H1 by by apply (inv_view s). destruct (handle_cases c m s1) as (E1 & _ & _ & _ & _ & _ & Hh).
    split; [by apply handle_inv|]. by eapply kind_handed.
  - set (s1 := set_process _ _ s). assert (Inv s1) as H1 by by apply (inv_view s). split; [by apply fail_inv|]. apply kind_failed; [done|].
    intros id. destruct (fail_cases e s1 id) as [?|[? _]]; [by left|right; by eexists].
  - set (s1 := set_process _ _ s). assert (Inv s1) as H1 by by apply (inv_view s). split; [by apply fail_inv|]. apply kind_failed; [done|].
    intros id. destruct (fail_cases (_closed_message c s) s1 id) as [?|[? _]]; [by left|right; by eexists].
Qed.

Lemma action_ok c a s s' : Inv s → step c a s = Some s' → Inv s' ∧ Kind c a s s'.
Proof.
  intros Hinv. destruct a; cbn [step].
  - intros [= <-]. by apply keeps_kind, open_call_ok.
  - intros [= <-]. by apply keeps_kind, open_call_ok.
  - intros H. apply keeps_kind. by eapply (exit_ok c).
  - destruct (phase_of k s) as [[]|]; try done. destruct (start_lock s); [done|]. intros [= <-]. by apply keeps_kind, start_ok.
  - destruct (phase_of k s) as [[]|]; try done. intros [= <-]. by apply keeps_kind, spawn_ends_ok.
  - destruct (phase_of k s) as [[| |w g fr| | |]|] eqn:Hp; try done. destruct (write_lock s); [done|].
    destruct (phase_of_call k s _ Hp) as (call & Hc & Hcp). pose proof (i_phase s Hinv k call Hc) as Hok. rewrite Hcp in Hok. destruct ok; intros [= <-].
    + apply keeps_kind. set (s1 := with_locks _ _ _). assert (Inv s1) as H1 by by apply (inv_view s).
      split; [|eapply follows_trans; [apply (follows_same s s1); done|]].
      * eapply (inv_goes s1); [done|exact Hc|done|]. intros id Hid. apply (i_usable s1 H1). exists (Writing w g fr). split; [exact Hp|done].
      * apply follows_goes; [done|]. intros id Hid. left. exists (Writing w g fr). split; [exact Hp|done].
    + apply keeps_kind, not_written_ok; [done|]. by eapply ready_of.
  - destruct (phase_of k s) as [[| | |w| |]|] eqn:Hp; try done. destruct (phase_of_call k s _ Hp) as (call & Hc & Hcp).
    pose proof (i_phase s Hinv k call Hc) as Hok. rewrite Hcp in Hok. set (s1 := with_locks (start_lock s) None s). intros [= <-]. apply keeps_kind.
    apply (keeps_view s s1); try done. intros H1. destruct ok; [by eapply after_write_ok|]. apply not_written_ok; [done|]. by eapply ready_of.
  - destruct (phase_of k s) as [[| | | |id|]|] eqn:Hp; try done. intros H. destruct why.
    + cbn in H. destruct (od_get id (answers s)) as [[|o]|] eqn:Ea; try done. injection H as <-. split; [|by eapply kind_answered].
      apply (inv_finish s k (ForRequest id) o); [done|]. intros i k' [= <-]. apply (u_only _ _ _ (i_usable s Hinv k id (ex_intro _ _ (conj Hp eq_refl)))).
    + apply keeps_kind. by eapply wake_ok.
    + apply keeps_kind. by eapply wake_ok.
  - destruct (phase_of k s) as [p|] eqn:Hp; [|done]. cbn. intros H. apply keeps_kind. by eapply kill_ok.
  - destruct (processes s !! g) as [p|]; [|done]. cbn [mbind option_bind]. destruct (eof (stream p)); [done|]. intros [= <-]. apply keeps_kind. by apply keeps_same.
  - destruct (processes s !! g) as [p|]; [|done]. cbn [mbind option_bind]. intros [= <-]. apply keeps_kind. by apply keeps_same.
  - destruct (processes s !! g) as [p|] eqn:Hg; [|done]. cbn [mbind option_bind]. destruct (reads p) eqn:Hr; [|done]. by apply turn_ok.
  - intros [= <-]. apply keeps_kind. unfold _stderr_loop. destruct (drop_chunks _ _). by apply keeps_same.
  - destruct (processes s !! g) as [p|]; [|done]. cbn [mbind option_bind]. intros [= <-]. apply keeps_kind. by apply keeps_same.
  - destruct (closing s) eqn:Hcl; [done|]. intros [= <-]. split; [by apply close_begins_inv|]. unfold close_begins.
    destruct (process s); [|by apply kind_follows, follows_same]. apply kind_failed; [done|]. intros id.
    destruct (fail_cases ClientClosedMeanwhile (with_closing true (Some n) s) id) as [?|[? _]]; [by left|right; by eexists].
  - destruct (closing_process s) as [g|] eqn:Hg; [|done]. cbn [mbind option_bind]. intros [= <-].
    split; [apply close_ends_inv; [done|]; by apply (i_closing s Hinv); eexists|]. by apply kind_follows, follows_same.
Qed.

(** ** Histories *)

Lemma run_app c l l' s : run c (l ++ l') s = s' ← run c l s; run c l' s'.
Proof. revert s. induction l as [|a l IH]; intros s; [done|]. cbn. destruct (step c a s); [apply IH|done]. Qed.

Lemma run_snoc c l a s s' : run c (l ++ [a]) s = Some s' → ∃ s1, run c l s = Some s1 ∧ step c a s1 = Some s'.
Proof. rewrite run_app. destruct (run c l s) as [s1|]; [|done]. cbn. destruct (step c a s1) as [s2|] eqn:E; [|done]. intros [= <-]. by exists s1. Qed.

Lemma inv_client : Inv new_client.
Proof. split; [by intros k id (p & [=] & _)|done|done|by intros [? ?]]. Qed.

(** While the caller [k] had its request in flight, and no other caller had that request, the
    reader of some process handed over a message that answers it with [o]. *)
Definition answered (c : Config) (l : list action) (k : nat) (o : outcome) : Prop :=
  ∃ l1 g l2 s1 p m st id, l = l1 ++ ReaderTurn g :: l2 ∧ run c l1 new_client = Some s1 ∧ processes s1 !! g = Some p ∧ reads p = true ∧
    reader_turn c (stream p) = Hands m st ∧ in_flight k s1 id ∧ (∀ k', in_flight k' s1 id → k' = k) ∧ is_answer m = true ∧
    (v ← p_get "id" m; int_of v) = Some id ∧ o = answer_of m.

Lemma answered_more c l k o l' : answered c l k o → answered c (l ++ l') k o.
Proof.
  intros (l1 & g & l2 & s1 & p & m & st & id & -> & H). exists l1, g, (l2 ++ l'), s1, p, m, st, id. split; [by rewrite <- app_assoc|done].
Qed.

Record History (c : Config) (l : list action) (s : Client) : Prop := {
  h_inv : Inv s;
  h_flight : ∀ k id o, in_flight k s id → od_get id (answers s) = Some (Settled o) → quiet_end o ∨ answered c l k o;
  h_ended : ∀ k call o, calls s !! k = Some call → at_phase call = Ended o → is_request call = true → quiet_end o ∨ answered c l k o
}.

Lemma history c l s : run c l new_client = Some s → History c l s.
Proof.
  revert s. induction l as [|a l IH] using rev_ind; intros s H.
  { injection H as <-. split; [apply inv_client|by intros k id o (p & [=] & _)|done]. }
  destruct (run_snoc c l a _ s H) as (s0 & H0 & Hstep). destruct (IH s0 H0) as [Hinv Hfl Hend]. destruct (action_ok c a s0 s Hinv Hstep) as [Hinv' Hk].
  assert (∀ k o, quiet_end o ∨ answered c l k o → quiet_end o ∨ answered c (l ++ [a]) k o) as Hmore.
  { intros k o [?|?]; [by left|right; by apply answered_more]. }
  split; [done|..]; destruct Hk as [[F1 F2]|k0 id0 o0 -> Hp0 Ho0 ->|g p m st -> Hg Hr Ht Ec Hh|Ec Hf].
  - intros k id o Hi Ho. destruct (F1 k id Hi) as [[Hi' E]|E]; [|congruence]. rewrite E in Ho. by eapply Hmore, Hfl.
  - intros k id o [_ Hi]%flight_finish Ho. by eapply Hmore, Hfl.
  - intros k id o Hi Ho. assert (in_flight k s0 id) as Hi0 by (unfold in_flight, phase_of in *; by rewrite Ec in Hi).
    destruct Hh as [E|(i & Ha & Hid & _ & _ & E)]; rewrite E in Ho; [by eapply Hmore, Hfl|]. rewrite od_get_set in Ho.
    destruct (decide (i = id)) as [->|]; [|by eapply Hmore, Hfl]. injection Ho as <-. right. exists l, g, [], s0, p, m, st, id. split_and!; try done.
    by apply (u_only _ _ _ (i_usable s0 Hinv k id Hi0)).
  - intros k id o Hi Ho. assert (in_flight k s0 id) as Hi0 by (unfold in_flight, phase_of in *; by rewrite Ec in Hi).
    destruct (Hf id) as [E|[e E]]; rewrite E in Ho; [by eapply Hmore, Hfl|]. injection Ho as <-. by left.
  - intros k call o Hc Ho Hr. destruct (F2 k call o Hc Ho Hr) as [?|(call0 & Hc0 & Ho0 & Hr0)]; [by left|]. by eapply Hmore, Hend.
  - intros k call o [(-> & E & _)|[_ Hc]]%calls_finish Ho Hr; [|by eapply Hmore, Hend]. rewrite E in Ho. injection Ho as <-.
    eapply Hmore, Hfl; [|done]. by exists (Waiting id0).
  - intros k call o Hc Ho Hr'. rewrite Ec in Hc. by eapply Hmore, Hend.
  - intros k call o Hc Ho Hr'. rewrite Ec in Hc. by eapply Hmore, Hend.
Qed.

(** ** The properties *)



(** ** Concrete runs *)

Definition after (l : list action) : Client := default new_client (run sample_config l new_client).
Definition reply (id : pv) (n : Z) : Utf8.bytes := frame_bytes [(lit "id", id); (lit "result", PInt n)].

(** A caller [k] whose request has been written to the process that it started. *)
Definition asks_first (k : nat) : list action := [Request (lit "hover") PNone; Start k false; SpawnEnds k Spawned false; Write k true; Drained k true].
Definition asks (k : nat) : list action := [Request (lit "hover") PNone; Start k false; Write k true; Drained k true].

(** Two requests, answered in the other order; the second answer to request 2 settles nothing. *)
Definition two_requests : list action :=
  asks_first 0 ++ asks 1 ++ [Receive 0 (reply (PInt 2) 7 ++ reply (PInt 2) 8 ++ reply (PInt 1) 9)] ++ repeat (ReaderTurn 0) 6 ++
  [Wake 0 Answered; Wake 1 Answered].

Example two_requests_end :
  List.map at_phase (calls (after two_requests)) = [Ended (Returned (PInt 9)); Ended (Returned (PInt 7))] ∧ pending (after two_requests) = [].
Proof. vm_compute. done. Qed.


(** A request that waits, and a server that writes no header. *)
Definition broken_frame : list action := asks_first 0 ++ [Receive 0 (lit "Content-Length" ++ [13; 10; 13; 10])].


Example broken_frame_fails :
  List.map at_phase (calls (after (broken_frame ++ [ReaderTurn 0; Wake 0 Answered]))) = [Ended (ProtocolError MalformedHeader)].
Proof. vm_compute. done. Qed.

(** ** What the code does at its edges *)

(** The table of requests belongs to no process: a process dies while its pipe is still open, a
    request starts the next one, and then the end of the first one's output fails that request,
    whose own server runs. *)
Definition old_reader : list action :=
  asks_first 0 ++ [Receive 0 (reply (PInt 1) 7); ReaderTurn 0; ReaderTurn 0; Wake 0 Answered; Dies 0] ++ asks_first 1 ++
  [EndOfFile 0; ReaderTurn 0; Wake 1 Answered].

Example old_reader_fails_new_requests :
  let s := after old_reader in
  phase_of 1 s = Some (Ended (ProtocolError (ClosedUnexpectedly []))) ∧ process s = Some 1%nat ∧ List.map running (processes s) = [false; true].
Proof. vm_compute. done. Qed.

(** A frame that breaks the protocol ends the reader, not the process: the next request finds a
    process that runs, is written to it, and nothing reads its answer; it can only time out. *)
Definition dead_reader : list action := broken_frame ++ [ReaderTurn 0; Wake 0 Answered] ++ asks 1 ++ [Receive 0 (reply (PInt 2) 7)].

Example dead_reader_accepts_requests :
  let s := after dead_reader in
  phase_of 1 s = Some (Waiting 2) ∧ List.map running (processes s) = [true] ∧ step sample_config (ReaderTurn 0) s = None ∧
  phase_of 1 (after (dead_reader ++ [Wake 1 WaitsTooLong; Write 1 true; Drained 1 true])) = Some (Ended TimedOut).
Proof. vm_compute. done. Qed.

(** [true] is an int: an answer with it as its id is the answer to request 1. *)
Example true_is_one :
  phase_of 0 (after (asks_first 0 ++ [Receive 0 (reply (PBool true) 7); ReaderTurn 0; ReaderTurn 0; Wake 0 Answered])) = Some (Ended (Returned (PInt 7))).
Proof. vm_compute. done. Qed.

(** A close during the start of the server finds no process and is done; the server that comes up
    then runs, in a closed client that takes no second close. *)
Definition closed_meanwhile : list action := [Request (lit "hover") PNone; Start 0 false; CloseBegins; SpawnEnds 0 Spawned false].

Example server_started_while_closing :
  let s := after closed_meanwhile in
  phase_of 0 s = Some (Ended (ProtocolError ServerClosed)) ∧ closing s = true ∧ List.map running (processes s) = [true] ∧
  step sample_config CloseBegins s = None ∧ step sample_config CloseEnds s = None.
Proof. vm_compute. done. Qed.
