(* ===== verification/OrchRequests.v ===== *)
(** The requests of the orchestration helper
    (travis/resources/skills/orchestration/scripts/orchestrate.py): what it takes for a run, a task,
    a worker, a dispatch, a report and a message, and what it makes of it.

    Two regular expressions are arguments: the names and the values that look like secrets.  The
    reading of the private file of a request is not modelled: a request is the value that it holds. *)

From S2P Require Import Prelude PyDict PyFloat Utf8 PyText PyValue.
Open Scope Z_scope.
Local Notation text := Utf8.text.

(** The codes of [HelperError]; [InternalError] is any other exception, as [main] reports it. *)
Inductive helper_error : Type :=
  | InvalidId | InvalidState | NotFound | InvalidRequest | SecretLikeInput | InvalidIdempotencyKey
  | IncompatibleState | UnsafeState | WorkerLimit | InvalidArguments | RunMismatch | TaskNotActive
  | WorkerNotIdle | RoundLimitReached | DispatchConflict | ParentMismatch | CapabilityRejected
  | TerminalConflict | StaleDispatch | QuestionConflict | InvalidReplyTarget | MessageNotAcknowledged
  | CancelNotAllowed | WorkerNotRetainable | UnacknowledgedMessages | WorkerStartFailed
  | WorkerStartTimeout | WorkerStopFailed | TrustRequired | OutcomeUnknown | IdentityMismatch
  | RelayFailed | InternalError.

#[export] Instance helper_error_eq_dec : EqDecision helper_error.
Proof. solve_decision. Defined.

Definition DEFAULT_MAX_ROUNDS : Z := 4.
Definition HARD_MAX_ROUNDS : Z := 12.

Inductive id_kind : Type := RunId | TaskId | WorkerId | DispatchId | MessageId.

Definition id_prefix (k : id_kind) : text :=
  lit (match k with RunId => "run_" | TaskId => "task_" | WorkerId => "worker_" | DispatchId => "dispatch_" | MessageId => "message_" end).

Definition is_hex (c : Z) : bool := in_range 48 57 c || in_range 97 102 c.

(** [src: travis/resources/skills/orchestration/scripts/orchestrate.py:1478-1482 validate_id] *)
Definition validate_id (k : id_kind) (value : text) : result helper_error unit :=
  let hex := drop (length (id_prefix k)) value in
  require (is_prefix (id_prefix k) value && (length hex =? 24)%nat && forallb is_hex hex) InvalidId.

(** [secrets.token_hex(12)] gives the digits.

    [src: travis/resources/skills/orchestration/scripts/orchestrate.py:1472-1475 new_id] *)
Definition new_id (k : id_kind) (hex : text) : text := id_prefix k ++ hex.

(** ** Secrets *)

(** The two patterns, and the digests that are known ([is_known_capability]). *)
Record Screen : Type := {
  sensitive_key : text → bool;
  secret_value : text → bool;
  known : text → bool
}.

(** [s.encode("utf-8")] raises on a surrogate. *)
Definition encodable (t : text) : bool := forallb scalar t.

(** [src: travis/resources/skills/orchestration/scripts/orchestrate.py:1510-1524 _contains_secret_like_value] *)
Fixpoint _contains_secret_like_value (s : Screen) (v : pv) : result helper_error bool :=
  let fix any_of l :=
    match l with
    | [] => Ok false
    | x :: l => b ← _contains_secret_like_value s x; if b : bool then Ok true else any_of l
    end in
  let fix members d :=
    match d with
    | [] => Ok false
    | (key, x) :: d => if sensitive_key s key then Ok true
                       else b ← _contains_secret_like_value s x; if b : bool then Ok true else members d
    end in
  match v with
  | PDict d => members d
  | PList l => any_of l
  | PStr t => if secret_value s t then Ok true else if encodable t then Ok (known s t) else Err InternalError
  | _ => Ok false
  end.

(** [src: travis/resources/skills/orchestration/scripts/orchestrate.py:1527-1532 reject_secret_like] *)
Definition reject_secret_like (s : Screen) (v : pv) : result helper_error unit :=
  b ← _contains_secret_like_value s v; require (negb b) SecretLikeInput.

Definition is_alnum_ascii (c : Z) : bool := in_range 48 57 c || in_range 65 90 c || in_range 97 122 c.
Definition key_char (c : Z) : bool := is_alnum_ascii c || bool_decide (c ∈ [46; 95; 58; 45]).

(** [IDEMPOTENCY_KEY_PATTERN.fullmatch] *)
Definition key_matches (key : text) : bool :=
  match key with c :: rest => is_alnum_ascii c && forallb key_char rest && (length rest <=? 127)%nat | [] => false end.

(** [src: travis/resources/skills/orchestration/scripts/orchestrate.py:1535-1544 validate_idempotency_key] *)
Definition validate_idempotency_key (s : Screen) (key : text) : result helper_error unit :=
  if key_matches key then reject_secret_like s (PStr key)
  else b ← _contains_secret_like_value s (PStr key); if b : bool then Err SecretLikeInput else Err InvalidIdempotencyKey.

(** ** Fields *)

Definition request : Type := list (text * pv).

(** [set(request) - KEYS] is empty. *)
Definition keys_within (keys : list text) (r : request) : bool := forallb (λ p, bool_decide (p.1 ∈ keys)) r.
Definition has_keys (keys : list text) (r : request) : bool := forallb (λ k, bool_decide (k ∈ r.*1)) keys.

Definition blank (t : text) : bool := match strip t with [] => true | _ => false end.

(** A text that is not blank, of at most [maximum] characters. *)
Definition text_field (maximum : Z) (v : pv) : result helper_error text :=
  match v with
  | PStr t => if blank t || (maximum <? Z.of_nat (length t)) then Err InvalidRequest else Ok t
  | _ => Err InvalidRequest
  end.

(** [src: travis/resources/skills/orchestration/scripts/orchestrate.py:1620-1624 _required_text] *)
Definition _required_text (r : request) (key : string) (maximum : Z) : result helper_error text :=
  text_field maximum (default PNone (p_get key r)).

(** [src: travis/resources/skills/orchestration/scripts/orchestrate.py:1627-1633 _optional_text] *)
Definition _optional_text (r : request) (key : string) (maximum : Z) : result helper_error (option text) :=
  match default PNone (p_get key r) with PNone => Ok None | v => Some <$> text_field maximum v end.

(** [src: travis/resources/skills/orchestration/scripts/orchestrate.py:1636-1641 _text_list] *)
Definition _text_list (v : pv) (allow_empty : bool) : result helper_error (list text) :=
  match v with
  | PList items => if negb allow_empty && bool_decide (items = []) then Err InvalidRequest else try_map (text_field 4096) items
  | _ => Err InvalidRequest
  end.

(** [v in {...}] of strings: TypeError for what cannot be hashed. *)
Definition one_of (names : list text) (v : pv) : result helper_error bool :=
  match v with PStr t => Ok (bool_decide (t ∈ names)) | PList _ | PDict _ => Err InternalError | _ => Ok false end.

(** ** Runs and tasks *)

Record RunRequest : Type := { run_objective : text; run_session : option text }.

(** [src: travis/resources/skills/orchestration/scripts/orchestrate.py:1644-1651 validate_run_request] *)
Definition validate_run_request (s : Screen) (r : request) : result helper_error RunRequest :=
  _ ← reject_secret_like s (PDict r);
  _ ← require (keys_within [lit "objective"; lit "coordinatorSessionId"] r && has_keys [lit "objective"] r) InvalidRequest;
  objective ← _required_text r "objective" 131072;
  session ← _optional_text r "coordinatorSessionId" 512;
  Ok {| run_objective := objective; run_session := session |}.

Inductive task_mode : Type := Supervised | FullHandoff.
Inductive commit_rule : Type := Commit | NoCommit.
#[export] Instance task_mode_eq_dec : EqDecision task_mode.
Proof. solve_decision. Defined.
#[export] Instance commit_rule_eq_dec : EqDecision commit_rule.
Proof. solve_decision. Defined.

Record TaskRequest : Type := {
  objective : text;
  ownership : request;
  acceptance : list text;
  dependencies : list text;
  mode : task_mode;
  max_rounds : Z;
  commit_policy : commit_rule
}.

(** [PurePosixPath(value).parts] of a relative path: the pieces between the slashes that are
    neither empty nor a dot. *)
Fixpoint slash_pieces (piece : text) (t : text) : list text :=
  match t with
  | [] => [piece]
  | c :: t => if c =? 47 then piece :: slash_pieces [] t else slash_pieces (piece ++ [c]) t
  end.
Definition path_parts (t : text) : list text := List.filter (λ p, negb (bool_decide (p = []) || bool_decide (p = [46]))) (slash_pieces [] t).
Definition is_absolute (t : text) : bool := is_prefix [47] t.

(** [src: travis/resources/skills/orchestration/scripts/orchestrate.py:1667-1687 scope_parts] *)
Definition scope_parts (allow_wildcard : bool) (value : text) : result helper_error (list text) :=
  if bool_decide (value = [42]) then if allow_wildcard then Ok [[42]] else Err InvalidRequest
  else if existsb (λ c, bool_decide (c ∈ [92; 0; 13; 10])) value then Err InvalidRequest
  else if is_absolute value || bool_decide ([46; 46] ∈ path_parts value) || existsb (λ c, bool_decide (c ∈ [63; 91; 93])) value
  then Err InvalidRequest
  else Ok (path_parts value).

(** [src: travis/resources/skills/orchestration/scripts/orchestrate.py:1700-1704 scopes_overlap] *)
Definition scopes_overlap (left right : list text) : bool :=
  if bool_decide (left = [[42]]) || bool_decide (right = [[42]]) then true
  else let shared := Nat.min (length left) (length right) in bool_decide (take shared left = take shared right).

(** [src: travis/resources/skills/orchestration/scripts/orchestrate.py:1654-1738 validate_task_request] *)
Definition validate_task_request (s : Screen) (r : request) : result helper_error TaskRequest :=
  _ ← reject_secret_like s (PDict r);
  _ ← require (keys_within (List.map lit ["objective"; "ownership"; "acceptanceCriteria"; "dependencies"; "mode"; "maxRounds"; "commitPolicy"]) r
               && has_keys (List.map lit ["objective"; "ownership"; "acceptanceCriteria"; "mode"; "commitPolicy"]) r) InvalidRequest;
  match default PNone (p_get "ownership" r) with
  | PDict own =>
      match p_get "ownedPaths" own with
      | None => Err InvalidRequest
      | Some v =>
          owned_paths ← _text_list v true;
          forbidden_paths ← _text_list (default (PList []) (p_get "forbiddenPaths" own)) true;
          owned ← try_map (scope_parts false) owned_paths;
          forbidden ← try_map (scope_parts true) forbidden_paths;
          _ ← require (bool_decide (NoDup owned) && bool_decide (NoDup forbidden)) InvalidRequest;
          _ ← require (negb (existsb (λ o, existsb (scopes_overlap o) forbidden) owned)) InvalidRequest;
          acceptance ← _text_list (default PNone (p_get "acceptanceCriteria" r)) false;
          dependencies ← _text_list (default (PList []) (p_get "dependencies" r)) true;
          _ ← try_iter (validate_id TaskId) dependencies;
          mode ← match default PNone (p_get "mode" r) with
                 | PStr t => if bool_decide (t = lit "supervised") then Ok Supervised
                             else if bool_decide (t = lit "full_handoff") then Ok FullHandoff else Err InvalidRequest
                 | _ => Err InvalidRequest
                 end;
          rounds ← match default (PInt DEFAULT_MAX_ROUNDS) (p_get "maxRounds" r) with
                   | PInt z => if (1 <=? z) && (z <=? HARD_MAX_ROUNDS) then Ok z else Err InvalidRequest
                   | _ => Err InvalidRequest
                   end;
          commit ← match default PNone (p_get "commitPolicy" r) with
                   | PStr t => if bool_decide (t = lit "commit") then Ok Commit
                               else if bool_decide (t = lit "no_commit") then Ok NoCommit else Err InvalidRequest
                   | _ => Err InvalidRequest
                   end;
          objective ← _required_text r "objective" 131072;
          Ok {| objective := objective; ownership := own; acceptance := acceptance; dependencies := dependencies; mode := mode;
                max_rounds := rounds; commit_policy := commit |}
      end
  | _ => Err InvalidRequest
  end.
